(* ===== verification/_CoqProject ===== *)
-Q . S2P
Prelude.v
RustStr.v
Json.v
Llm.v
Egress.v
EgressPath.v
LabelStore.v
EgressLabeler.v
EgressRouting.v
Capability.v
ShellAnalyzer.v
Policy.v
LoopGuard.v
Grants.v
SessionEnvelope.v
PlanFrame.v
PlanTools.v
Budget.v
CausalChain.v
Cron.v
ContentStore.v
Patch.v
ChildReply.v
Workflow.v
WorkflowStore.v
WorkflowInv.v
WorkflowEnd.v
Scheduler.v
Supervisor.v
SchedulerInv.v
SchedulerSpec.v
ExecutionSpec.v
Promotion.v
ContentDigest.v
AgentRevision.v
AgentRegistry.v
PromotionGate.v
RegistrySpec.v
PromotionHistory.v
PromotionSpec.v
GovernorSpec.v
NetworkSinks.v
NetworkPolicy.v
RemoteAccess.v
NetworkContract.v
ExecCache.v
ProbeBudget.v
NetworkSpec.v
Redaction.v
Checkpoint.v
Timeline.v
Interactions.v
UserAsk.v
Declassification.v
EgressSelection.v
InteractionAnswer.v
LlmDriver.v
EgressChokepoint.v
CompletionTurn.v
EgressAudit.v
