(* ===== verification/Prelude.v ===== *)
(** * A verification of the Autonoetic gateway core

    Autonoetic runs agents behind a gateway.  An agent only proposes: every
    effect goes through the gateway, which decides what the agent's manifest
    allows, where the data a result carries may flow, how much the session may
    spend, and writes what happened to a hash-chained log.  This library models
    those decisions from the Rust sources and proves what they promise.

    ** Parts and how they interact

    - Capabilities ([Capability.v], autonoetic-types/src/capability.rs) are what
      a manifest declares.  [compute_capability_delta] compares two declarations
      when a revision of an agent is promoted; [capability_set_covers] backs
      pre-authorised promotions.
    - The shell analyser ([ShellAnalyzer.v], autonoetic-gateway/src/policy.rs,
      [SecurityAnalyzer]) judges a command line: [analyze_command],
      [is_shell_injection], [script_requires_approval].
    - The policy engine ([Policy.v], same file, [PolicyEngine]) answers every
      request of an agent from its capabilities ([can_connect_net],
      [can_read_path], ...), and shell requests with the analyser as well
      ([can_exec_shell]).
    - Egress labels ([Egress.v], autonoetic-types/src/egress.rs) are the sets of
      sinks a datum may reach, composed by [restrict] only.  They are stored per
      session, artifact and agent workspace ([LabelStore.v], the three
      [*_taint.rs] files of scheduler/gateway_store), matched against paths
      ([EgressPath.v], runtime/egress_path_matcher.rs), put on tool results
      ([EgressLabeler.v], runtime/egress_labeler.rs up to
      [label_tool_result_with_mounts]) and consulted when a model is chosen,
      history is compressed or a turn comes in ([EgressRouting.v], the rest of
      the same file).
    - Budgets ([Budget.v], runtime/session_budget.rs and
      root_session_budget.rs) bound rounds, tokens, tools, time and price of a
      session and of the tree of sessions below a root.
    - The loop guard ([LoopGuard.v], runtime/guard.rs and
      runtime/error_fingerprint.rs) classifies every tool result and stops an
      agent that makes no progress, repeats a rejected call or polls in
      circles; [check_loop] is asked before each round and [account_round] is
      what [handle_tool_batch] (runtime/lifecycle.rs) tells the guard after it.
    - Plans ([PlanFrame.v], autonoetic-types/src/plan_frame.rs) are what an agent
      proposes to do: steps with owners and dependencies, a validation policy and
      a capability envelope.  [validate_step_dag] checks the dependencies and
      [plan_envelope_diff], which compares envelopes with
      [compute_capability_delta], decides whether an amendment needs a new
      approval.  [PlanTools.v] (runtime/tools/plan_frame.rs, the plan table of
      scheduler/gateway_store/plan_frames.rs, the decision on a plan of
      scheduler/approval.rs) is the state machine around them: [propose],
      [amend], [approve], [decide_plan] on a database of frames, approval rows,
      workflow references, envelopes and grants, with [plan_transition] for one
      step of any of them and [plan_reachable] for any sequence.
    - Approving a plan or an artifact proposes or locks session envelopes
      ([SessionEnvelope.v], runtime/session_envelope.rs and the table of
      scheduler/gateway_store/session_envelopes.rs), and a locked network
      envelope materialises session grants ([Grants.v],
      scheduler/gateway_store/approvals.rs and the targets of
      autonoetic-types/src/background.rs), which [grants_cover_targets] consults
      before an operator is asked again.
    - The content store ([ContentStore.v], runtime/content_store.rs) keeps
      immutable blobs and a manifest of names per session; the edit tool
      ([Patch.v], runtime/fuzzy_match.rs, runtime/v4a.rs and
      runtime/tools/content_patch.rs) reads, edits and registers entries of it.
    - Workflows ([Workflow.v]: autonoetic-types/src/workflow.rs, the failure
      classes of tool_error.rs, runtime/failure_classification.rs and the stage
      retries of scheduler/workflow_store.rs; [WorkflowStore.v]: the rest of that
      file on the task and singleton tables of scheduler/gateway_store) are the
      durable state of delegated work: one value [WorkflowDb] holds runs, tasks,
      queue rows, claims, checkpoints and slots, and the [effects] an operation
      asks of other parts (timeline events, signals, closing a session, ...) are a
      list.  [update_task_run_status] is the one place a task changes status; it
      may satisfy the join of the workflow ([satisfy_join]) and wakes tasks parked
      for their children ([wake_paused_child_wait_tasks]), which the janitor
      ([reconcile_paused_child_wait_tasks]) repeats on every tick.  [Op] and
      [step] (WorkflowInv) are any operation of the store, [run_ops] any sequence;
      [WorkflowInv.v] proves what holds of every run, [WorkflowEnd.v] joins,
      completion, stops, slots and claims.
    - The scheduler ([Scheduler.v], scheduler.rs with the queue functions of
      scheduler/workflow_store.rs) drives them: a tick ([run_tick]) queues what is
      runnable ([process_runnable_workflow_tasks]) and launches what is queued
      under a claim ([process_queued_workflow_tasks]); [begin_execution],
      [heartbeat] and [finish_execution] are [spawn_task_execution] before,
      during and after the turn of the agent.  [Supervisor.v] holds what moves a
      task from outside: the sweeper of stuck tasks ([check_stuck_running_tasks]),
      [check_approval_timeouts] and [reap_orphaned_sessions] of scheduler.rs, the
      decision on an approval ([unblock_task_on_approval],
      [fan_in_approval_waiters], scheduler/approval.rs) and the tools that cancel
      and complete a task (runtime/tools/workflow.rs).  [SchedOp] and [sched_step]
      (SchedulerInv) are any operation of these or of the store, [run_sched] any
      sequence; [SchedulerInv.v] holds the status changes of each,
      [SchedulerSpec.v] proves the promises of a tick, [ExecutionSpec.v] those
      about executions, the sweeper and the reaper.
    - The reply of a delegated child ([ChildReply.v], the child replies of
      scheduler.rs and the truncation of runtime/prompt_budget.rs) is shortened
      for the fields its parent reads and stored whole in the content store when
      it does not fit ([prepare_child_reply]).
    - The registry of agents ([AgentRegistry.v], scheduler/gateway_store's
      agent_registry.rs and residency.rs, agent/repository.rs, and the store
      writes of runtime/tools/agent_revision.rs and capsule/import.rs) holds the
      revisions of every agent, the alias that names the active one, the history
      of promotions, the sessions bound to a revision and who can be messaged;
      [AgentRevision.v] (autonoetic-types/src/agent_revision.rs) has its records,
      references and short ids, [ContentDigest.v] the digests that identify what
      was reviewed.  Reviewers record verdicts on an artifact ([Promotion.v],
      runtime/promotion_store.rs, promotion_evidence.rs, tools/promotion.rs,
      federation_carry_forward.rs); [enforce_promotion_gate] and the gates after
      it ([PromotionGate.v], runtime/tools/agent_revision.rs and
      promotion_governor.rs) read them before [atomic_promote] moves the alias.
      [RegistryOp] and [registry_step] (RegistrySpec) are any operation of the
      registry, [run_registry] any sequence; [RegistrySpec.v] proves what holds
      of every run, [PromotionHistory.v] rollbacks, suspension, references and
      addressing, [PromotionSpec.v] the review, [GovernorSpec.v] the governor.
    - What an agent's code may reach is decided before it runs.
      [NetworkSinks.v] (runtime/network_sinks.rs) masks comments and strings and
      resolves calls to known network functions; [RemoteAccess.v]
      (runtime/remote_access.rs) finds the remote targets of a piece of code and
      tells which a declaration covers; [NetworkPolicy.v]
      (runtime/network_policy.rs, runtime/network_grant.rs) holds the
      declaration and enforces it on a request; [NetworkContract.v]
      (runtime/network_host_contract.rs) admits a revision whose hosts are
      declared; [ExecCache.v] (runtime/approved_exec_cache.rs) remembers
      approved runs by the fingerprint of code and hosts, and [ProbeBudget.v]
      (runtime/host_probe_budget.rs) stops an agent that probes one host over and
      over.  [NetworkSpec.v] proves what they promise together.
    - A session that needs a person stops.  Questions are rows of a table
      ([Interactions.v], scheduler/gateway_store/user_interactions.rs), filed by
      the tool [user_ask] ([UserAsk.v], runtime/tools/user_interaction.rs and the
      user-input branch of runtime/human_gate.rs) or by the gateway itself when
      the preset of a turn is pinned and not cleared for its data
      ([EgressSelection.v], [plan_egress_routing] of runtime/lifecycle.rs with
      the rest of runtime/egress_labeler.rs).  [InteractionAnswer.v]
      (interaction_answer.rs, [resume_interaction_inner] of execution.rs, the
      sweep of scheduler.rs) takes the answer and resumes the session, or wakes
      the task, that waits; an answer may insert a declassification grant
      ([Declassification.v], scheduler/gateway_store/egress_declassification.rs),
      which the routing and the network boundary consult at each use.
    - A completion leaves the machine through one driver.  [LlmDriver.v]
      (llm/mod.rs, llm/provider.rs) is the interface of drivers and the
      resolution of a preset to an endpoint and its egress class;
      [EgressChokepoint.v] (llm/egress_chokepoint.rs, runtime/egress_stored.rs)
      the driver that wraps every other and replaces withheld text;
      [CompletionTurn.v] (the part of runtime/lifecycle.rs around the call,
      runtime/middleware.rs) attaches the labels, survives the hook, calls,
      labels the reply and fails over; [EgressAudit.v] (egress_audit.rs) reads
      back what was withheld.
    - A stopped session is a checkpoint ([Checkpoint.v], runtime/checkpoint.rs),
      a signed file per turn that is loaded, edited, pruned, reaped and forked.
      Every change of a question, every chat line and every egress event leaves a
      row on the session timeline, attributed to a principal and a seat and
      raised to the seat's altitude ([Timeline.v], autonoetic-types/src's
      principal.rs and session_timeline.rs, runtime/session_timeline.rs); texts
      are redacted first ([Redaction.v], autonoetic-types/src/redaction.rs).
    - The causal chain ([CausalChain.v], causal_chain.rs and
      causal_chain/rotation.rs) is the append-only log ([log], [log_durable])
      and its verifier ([verify_chain]).
    - The schedule parser ([Cron.v], scheduler/cron_parser.rs) reads cron syntax
      and English phrases and finds the next occurrence.

    [Prelude.v] (results, machine-width integers, sorting), [RustStr.v] (the
    methods of [str], decimal printing and parsing, [BTreeMap<String, V>]),
    [Json.v] ([serde_json::Value]) and [Llm.v] (messages and tool calls,
    llm/mod.rs) are shared by all of them.

    ** State and operations

    A definition carries the name of the Rust item it translates; where Rust
    reuses a name across types, a prefix tells them apart ([session_check_pre_llm]
    and [root_check_pre_llm], [artifact_get_label] and [workspace_get_label]).
    Stateful code passes its state: an operation on a registry, a table, a
    logger or the labeler's store returns the new one with its result, also when
    it fails.  [Result] is [result], a panic or a loop that does not return is
    [None].  [HashMap] and the SQLite label tables are [gmap], [BTreeSet] is
    [gset], [BTreeMap] a sorted association list, [u32] and [u64] are integers
    with wrapping and saturating operations written out, [f64] the IEEE-754 numbers of
    [SpecFloat], and a [str] its bytes.  What the code draws from outside is an
    argument: the clock, fresh identifiers, whether a write succeeded.  Code of
    other crates is a parameter with its laws in a type class: [Sha256Hex],
    [JsonEncoder], [EntryCodec] (CausalChain), [RegexLaws] (Cron), each with an
    instance that satisfies it; the loop guard takes the JSON reader, the regex
    replacement and the hasher as arguments and needs no law of them; the
    coverage of grants takes the reader of RFC 3339 dates, the envelopes take the
    hosts observed in the artifacts of a session, the workflow store the JSON
    found in a reply and the artifact references a session sees, the scheduler
    the reader and the printer of JSON and of dates, the outcome of a turn, the
    latest checkpoint and the files of a session, and the content store takes the
    digest, a theorem that needs it naming a collision as a case; the promotion gate takes the table of
    execution traces and the approval of the operator.  The network files take
    the regex engine ([captures_iter], [regex_escape]), the parsers of addresses,
    URLs, YAML and declarations, and SHA-256; redaction the regex engine and JSON;
    checkpoints the HMAC with the laws of [EnvelopeCodec], SHA-256 and serde's
    reader and printer; questions [chrono]'s sum of a date and seconds; grants its
    reader of dates; the provider selection whether a driver can be built; a driver
    is any pair of functions, a hook any function on requests, and the cost
    preflight and the stall detector of a call are functions too.  A
    spawned turn, an emergency stop and a nudge of the queue are effects of
    [InteractionAnswer], in order.
    [ContentStore] and [Patch] are written in a state-and-error monad each
    ([StoreM], [PatchM]), which keeps the state of a computation that fails; the
    disk carries the outcomes of its coming writes.  A field
    update of the guard is a record setter, [self{{ field := value }}].  [MonotoneLabelStore] (LabelStore) is the
    interface all three label tables implement, and the label-plane theorem is
    proved against it.

    ** What the theorems show

    - Policy: the engine is a reference monitor (a request is allowed exactly
      when one declared capability grants it); an unbroadened revision and a
      covered artifact are granted nothing new, unless a scope moved between the
      patterns and the commands of a shell capability or the old revision held a
      wildcard on plans, neither of which the delta sees; numeric limits do not
      grow; what the delta fails to see is stated as a theorem of its own.
    - Shell: word search is exact; a command judged safe holds none of the
      refused words, and every substitution it expands was itself analysed, to
      the depth bound; an allowed command was judged safe and matched.
    - Egress: [restrict] is a meet; stored labels only tighten, in any order;
      a result's label is the meet of exactly the rules, default, floor,
      referenced results, artifacts and workspace; a restriction is recorded in
      one audit event; routing, compression and ingest fail closed.
    - Budgets: a session tree never exceeds its round and tool limits; an
      exhausted session stays exhausted; the session limit can be overshot by
      the number of concurrent workers less one, and no more.
    - Loop guard: without progress or waiting an agent gets at most the rounds
      its limit leaves, whatever it calls; a trip latches until a repair, and
      what a repair does and does not release is stated exactly; the limits on
      irrecoverable rejections are exact, per error and per tool; the polling
      detector sees exactly the calls since the last committed effect.
    - Plans: validation accepts exactly the acyclic, closed plans and always
      returns; an amendment keeps the approval exactly when it keeps the
      envelope; in every reachable state an approved plan was decided, or differs
      from a decided one only in what needs no approval, and can be completed;
      what approval and withdrawal fail to do is stated as theorems.
    - Grants and envelopes: a target is covered exactly when a grant of the
      history covers it and nothing ended it; locking an envelope grants its
      hosts and nothing else, revoking it withdraws them; discovery settles.
    - Workflows: in every run a task moves as its transition table allows, save
      for a stop, the failure of its root and a retry; no parked task is
      forgotten and none waits in a circle; a parent is told of every outcome
      exactly once; stage retries stay within their budget; an emergency stop is
      total and local, and releases the claims and slots that any run took; a
      claim is exclusive while its heartbeat lives.
    - Scheduler: in every sequence of its operations and those of the store the
      database stays well formed and a task moves as its transition table allows,
      save for the overrides the theorem names; a pass launches exactly the rows
      that are startable, once, under a claim that keeps others out until it goes
      stale; a task whose last child ends, or whose approval comes, is launched by
      the next tick, when every workflow directory of the tick loads; however an
      execution ends, its task ends up off the queue and unclaimed, in the status
      the outcome calls for where the transition table admits it (the first
      context overflow of a running task leaves it running); the reaper cancels exactly
      the live tasks of the orphaned sessions.  What goes wrong is stated, too: a
      task that began to run is never failed by the sweeper but declared
      succeeded, an overflowing execution is not retried, and an approval that
      comes before its suspension is lost.
    - Child replies: a summary never exceeds its budget, whatever the reply, the
      JSON reader and the content store do; the full reply of a child is read back
      under the recorded reference.
    - Content: in any interleaving of stores, and with any file failures,
      private content stays with its writer (whoever else reads it reads another
      registration of it, one made for them) and a stored blob never changes;
      what is registered is read back by exactly whom it was shared with; an
      edit changes one place; a patch is all or nothing, or exhibits a collision of
      digests, and what is printed in its format parses back.
    - Agents: in every run of the registry, capsule imports and reclamations
      among its operations, in which no import activated itself and no clean-up
      archived what was promoted after it read its list, the promoted revision of
      an agent is its one ready revision and the alias table is the history
      replayed; a session stays on its revision; a short reference never names
      another revision, and names its own until that is reclaimed; a suspended
      agent starts no session; the two answers to "can this
      session be messaged" agree.  The promotion gate is characterised exactly,
      as is a claim to carry a verdict; the ledger of attempts is capped and
      blocks nothing; the slot the governor promises is exact.  What goes wrong is
      stated, too: rolling back twice restores what was rolled back, a carried
      verdict lets nothing through save an auditor's from a record that was never
      bound, one agent can sit on both sides of the full gate, of two concurrent
      verdicts one is lost, an activated capsule and a stale clean-up leave the
      registry out of step, and a reclaimed short id shadows a later create.
    - Network: masking blanks characters and moves nothing; a detected sink is
      bound to an import; a target that passes the gate is covered by the
      declaration; an accepted contract covers every host found; a hit of the
      cache was recorded, is alive and has the same fingerprint; an exhausted
      probe budget stays exhausted until its session ends.  Where matchers
      disagree, or a URL hides its host, is a theorem, too.
    - Questions: in every sequence of its operations the table refines a state
      machine per question, whose events on the timeline are exactly its history;
      a decided question is final; its resume is claimed once; [user_ask] is
      accepted only while nothing else of the session's tree waits.
    - Answers: an admitted answer of a question without a workflow resumes the
      session that waits, once, when its checkpoint agrees and the turn spawns;
      one of a workflow task makes exactly that task runnable; a failed call left
      no trace, or its answer stands and the same call again succeeds and does
      nothing.  A claim released by the loser of a race, and one kept by a
      deferred sweep, are shown.
    - Declassification: what is allowed was granted and not withdrawn since; the
      grants of two roots are independent; a network call of tainted content
      passes exactly with a live grant for the session or for its host.
    - Provider selection: a completion runs only on, and fails over only to,
      presets cleared for its batch, unless a live grant or the operator's answer
      says otherwise; every answer a question offers settles it for the turn that
      filed it, under the constraint it was filed with.  That an agent can file such
      a question itself, and that a session waiting for the question of another is
      asked again, is shown.
    - Chokepoint: what a provider receives does not depend on withheld text, but
      for one bit, whether the request is refused; a forwarded request is the
      original with each withheld text replaced, and the audit recomputes exactly
      the report that was sent; it is refused when its list of grants is malformed
      or the contents of its last forty messages repeat a withheld text; a
      malformed map is never forwarded; without a grant, and with a hook that
      leaves the map alone, the taint of a text outlives the completion that read
      it, at the sink the completion was audited for.  When that sink is not the
      one it ran on (an inferred class, a failover) the reply goes unlabelled,
      which is shown, as are a grant and a hook that empties the map.  The totals
      of an audit that was not cut are those of the events stored before and of the
      reports, when the store takes the writes and the event ids are new.
    - Checkpoints: over every writer of the directory (turns, the gate that asks
      to continue, edits, forks, emergency stops, capsules) and everything that
      removes files, the strict load never fails and returns the highest turn the
      names claim: what the lenient one returns when each name is the counter's,
      and otherwise one of the same turn, save where the lenient one finds the copy
      of an emergency stop or a capsule brought a checkpoint; saving and editing
      read back; pruning keeps the latest; a fork starts a session of its own.
      An unsigned file, two sessions that share a directory, and a stopped session
      that is resumed are shown.
    - Timeline and redaction: a stored seat reads back; a chat line and a decision
      are attributed to who acted; a payload that a writer of the causal log masks
      itself keeps no trace of what stands below a credential-shaped key.  The
      session tracer masks nothing itself, which is shown.
    - Causal chain: a log written by any sequence of operations and restarts, in
      which no write tore and no sync failed, verifies; verification finds the first break; two verified logs with the
      same tip agree on every committed field, or exhibit a hash collision; the
      backward tail read finds the last line; a failed [fsync] forks the chain.
    - Schedules: whatever is accepted prints to a text that parses back; the
      next occurrence is the earliest one in the window.

    ** Bounds and fuel

    [shell_word_loop] gets one unit of fuel per byte of the command and one
    more: every failed candidate consumes at least one byte unless the word is
    empty, where the source itself does not return.  [tail_loop] gets a fuel of
    the file length and one: the window grows until it covers the file.  The
    substitution analysis recurses on [MAX_SUBSTITUTION_DEPTH], the cron scan on
    [MAX_ITERATIONS], both constants of the source.  [dfs_has_cycle] gets one
    unit per step of the plan and one more: every nested call marks a step that
    was not marked.  [split_str] gets one unit per byte and one more: a piece
    consumes at least one byte.  [acquire_singleton_loop] makes the two passes and
    the last attempt of the source.  A tick is a pass over a snapshot, so the
    scheduler needs no fuel.  Every other recursion is
    structural.

    ** Not modelled

    Unicode white space and case mapping above ASCII; the width of the version
    of a task checkpoint (a [u32] that grows by one); the regex token extraction
    and file reads behind an exec's advisory path scan (its token list is an
    argument) and the imports a remote-access scan follows into workspace files;
    log rotation, retention and legacy migration; approvals other than those of
    plans, with the gate that files them, and the preflight of their deciders;
    the payloads of workflow events and of approval rows on the timeline, the
    implicit artifact of a finished task, the workflow graph; scheduled jobs,
    notifications and the expiry of proposals in the scheduler's tick, the entry
    of a timed-out approval in the session report; the gates of a promotion that
    need an approval, a smoke test, the constitution or the sentinel, its single
    flight, the contract digest of a bundle (it needs the YAML reader) and the
    resolution of artifact references; the prompt budgets and tool tiers of
    prompt_budget.rs; live projection and statistics of the content store; the
    buffer between an event and its row on the timeline; the prose of denial
    messages; the assembly of a request and the retries of a provider client; and
    the asynchronous drivers, sandboxes, model clients, servers and user
    interfaces around the core, which perform I/O around these decisions.

    The natural extensions are the rest of the promotion handler, the approval
    branches of the human gate, log rotation and retention, the rest of the prompt
    budget, and the OFP codec. *)

From stdpp Require Import prelude gmap strings list sorting.
From Stdlib Require Import ZArith Lia.

(** ** Fallible code: [anyhow::Result] and [Result<T, E>] *)

Declare Scope rust_scope.
Delimit Scope rust_scope with rust.
Open Scope rust_scope.

Inductive result (A E : Type) : Type :=
| Ok (a : A)
| Err (e : E).
Arguments Ok {A E} a.
Arguments Err {A E} e.

Definition is_ok {A E} (r : result A E) : bool :=
  match r with Ok _ => true | Err _ => false end.

(** The [?] operator of Rust. *)
Definition rbind {A B E} (m : result A E) (k : A → result B E) : result B E :=
  match m with Ok a => k a | Err e => Err e end.

Notation "x <-? m ; k" := (rbind m (λ x, k))
  (at level 60, m at next level, right associativity) : rust_scope.

Lemma rbind_ok {A B E} (m : result A E) (k : A → result B E) b :
  rbind m k = Ok b ↔ ∃ a, m = Ok a ∧ k a = Ok b.
Proof. destruct m; naive_solver. Qed.

(** [iter.map(f).collect::<Result<Vec<_>, _>>()]: left to right, the first
    error stops the collection. *)
Fixpoint try_collect {A B E} (f : A → result B E) (l : list A)
    : result (list B) E :=
  match l with
  | [] => Ok []
  | x :: xs => y <-? f x; ys <-? try_collect f xs; Ok (y :: ys)
  end.

Lemma try_collect_ok {A B E} (f : A → result B E) l ys :
  try_collect f l = Ok ys ↔ Forall2 (λ x y, f x = Ok y) l ys.
Proof.
  revert ys. induction l as [|x l IH]; intros ys; simpl.
  - split; [intros [= <-]; constructor|by inversion 1].
  - rewrite rbind_ok. split.
    + intros (y & Hy & H). apply rbind_ok in H as (ys' & Hys & [= <-]).
      constructor; [done|by apply IH].
    + intros (y & ys' & Hy & Hr & ->)%Forall2_cons_inv_l. exists y; split; [done|].
      apply rbind_ok. exists ys'. split; [by apply IH|done].
Qed.

(** ** Machine-width integers *)

Definition U32_MAX : Z := 2 ^ 32 - 1.
Definition U64_MAX : Z := 2 ^ 64 - 1.

Definition is_u32 (z : Z) : Prop := (0 ≤ z ≤ U32_MAX)%Z.
Definition is_u64 (z : Z) : Prop := (0 ≤ z ≤ U64_MAX)%Z.

(** [u64::saturating_add] and [u64::saturating_sub]. *)
Definition saturating_add (a b : Z) : Z := Z.min (a + b) U64_MAX.
Definition saturating_sub (a b : Z) : Z := Z.max (a - b) 0.
(** [u64::saturating_mul]. *)
Definition saturating_mul (a b : Z) : Z := Z.min (a * b) U64_MAX.

Lemma saturating_add_u64 a b : is_u64 a → is_u64 b → is_u64 (saturating_add a b).
Proof. unfold is_u64, saturating_add, U64_MAX. lia. Qed.

Lemma saturating_add_ge a b : is_u64 a → is_u64 b → (a ≤ saturating_add a b)%Z.
Proof. unfold is_u64, saturating_add, U64_MAX. lia. Qed.

(** ** Stable sorting: [slice::sort_by] *)

Section SortBy.
Context {A : Type} (cmp : A → A → comparison).

Definition cmp_le (x y : A) : Prop := cmp x y ≠ Gt.

Fixpoint insert_by (x : A) (l : list A) : list A :=
  match l with
  | [] => [x]
  | y :: l' => match cmp x y with
               | Gt => y :: insert_by x l'
               | _ => x :: y :: l'
               end
  end.

(** The result of the standard library's stable [sort_by]: each element goes
    in front of the already sorted later elements it does not exceed. *)
Definition sort_by (l : list A) : list A := foldr insert_by [] l.

Lemma insert_by_perm x l : insert_by x l ≡ₚ x :: l.
Proof.
  induction l as [|y l IH]; simpl; [done|].
  destruct (cmp x y); try done. rewrite IH. apply Permutation_swap.
Qed.

Lemma sort_by_perm l : sort_by l ≡ₚ l.
Proof.
  induction l as [|x l IH]; simpl; [done|]. by rewrite insert_by_perm, IH.
Qed.

Class TotalCmp : Prop := {
  cmp_flip x y : cmp x y = Gt → cmp y x ≠ Gt;
  cmp_trans x y z : cmp_le x y → cmp_le y z → cmp_le x z;
}.

Context `{!TotalCmp}.

Lemma insert_by_hd x y l :
  cmp_le y x → HdRel cmp_le y l → HdRel cmp_le y (insert_by x l).
Proof.
  intros Hx Hl. destruct Hl as [|z l Hz]; simpl; [by constructor|].
  destruct (cmp x z); by constructor.
Qed.

Lemma insert_by_sorted x l : Sorted cmp_le l → Sorted cmp_le (insert_by x l).
Proof.
  induction 1 as [|y l Hs IH Hd]; simpl; [by repeat constructor|].
  destruct (cmp x y) eqn:E.
  1,2: constructor; [by constructor|constructor; unfold cmp_le; congruence].
  constructor; [done|]. apply insert_by_hd; [by apply cmp_flip|done].
Qed.

Lemma sort_by_sorted l : Sorted cmp_le (sort_by l).
Proof. induction l; simpl; [constructor|by apply insert_by_sorted]. Qed.

Lemma sort_by_strongly_sorted l : StronglySorted cmp_le (sort_by l).
Proof.
  apply Sorted_StronglySorted, sort_by_sorted.
  intros x y z. apply cmp_trans.
Qed.
End SortBy.
Arguments TotalCmp {A} cmp.

Lemma elem_of_sort_by {A} (cmp : A → A → comparison) l x :
  x ∈ sort_by cmp l ↔ x ∈ l.
Proof. by rewrite (sort_by_perm cmp l). Qed.

(** [iter().any(f)] and [iter().all(f)] are Stdlib's [existsb] and [forallb]. *)
Lemma existsb_true {A} (f : A → bool) l :
  existsb f l = true ↔ ∃ x, x ∈ l ∧ f x = true.
Proof. rewrite existsb_exists. by setoid_rewrite list_elem_of_In. Qed.

Lemma existsb_false {A} (f : A → bool) l :
  existsb f l = false ↔ ∀ x, x ∈ l → f x = false.
Proof.
  rewrite <-not_true_iff_false, existsb_true. split.
  - intros H x Hx. apply not_true_iff_false. intros E. apply H. by exists x.
  - intros H (x & Hx & E). by rewrite (H x Hx) in E.
Qed.

Lemma forallb_true {A} (f : A → bool) l :
  forallb f l = true ↔ ∀ x, x ∈ l → f x = true.
Proof. rewrite forallb_forall. by setoid_rewrite list_elem_of_In. Qed.

Lemma fold_left_ext {A B} (f g : B → A → B) l b :
  (∀ b a, f b a = g b a) → fold_left f l b = fold_left g l b.
Proof.
  intros H. revert b. induction l as [|a l IH]; intros b; simpl; [done|]. by rewrite H, IH.
Qed.

(** ** Automation shared by the components *)

Create HintDb rust discriminated.

(** Case analysis on every [match]/[if] scrutinee of the goal or a hypothesis. *)
Ltac case_match_all :=
  repeat match goal with
  | H : context [match ?x with _ => _ end] |- _ => destruct x eqn:?; simplify_eq
  | |- context [match ?x with _ => _ end] => destruct x eqn:?; simplify_eq
  end.

(** Turn boolean connectives of the code into propositions. *)
Ltac bool_norm :=
  repeat match goal with
  | H : _ && _ = true |- _ => apply andb_true_iff in H as [? ?]
  | H : _ || _ = false |- _ => apply orb_false_iff in H as [? ?]
  | H : negb _ = true |- _ => apply negb_true_iff in H
  | H : negb _ = false |- _ => apply negb_false_iff in H
  end.

(** ** Loops that return early *)

(** [for x in l { if let Some(b) = f(x) { return b } }], and
    [Iterator::find_map]. *)
Fixpoint find_map {A B} (f : A → option B) (l : list A) : option B :=
  match l with
  | [] => None
  | x :: r => match f x with Some b => Some b | None => find_map f r end
  end.

Lemma find_map_some {A B} (f : A → option B) l b :
  find_map f l = Some b → ∃ x, x ∈ l ∧ f x = Some b.
Proof.
  induction l as [|x l IH]; simpl; [done|]. destruct (f x) eqn:E.
  - intros [= ->]. exists x. split; [left|done].
  - intros (y & Hy & Hf)%IH. exists y. split; [by right|done].
Qed.

Lemma find_map_none {A B} (f : A → option B) l :
  find_map f l = None ↔ ∀ x, x ∈ l → f x = None.
Proof.
  induction l as [|x l IH]; simpl.
  - split; [|done]. by intros _ ? ?%not_elem_of_nil.
  - setoid_rewrite elem_of_cons. destruct (f x) eqn:E; [|rewrite IH; naive_solver].
    split; [done|]. intros H. rewrite (H x) in E by (by left). done.
Qed.

(** A loop whose only exit value is [b]. *)
Lemma find_map_const {A B} (f : A → option B) (p : A → bool) b l :
  (∀ x, f x = if p x then Some b else None) →
  find_map f l = if existsb p l then Some b else None.
Proof.
  intros H. induction l as [|x l IH]; simpl; [done|]. rewrite H. by destruct (p x).
Qed.

(** [any] with a body that may fail to return. *)
Fixpoint any_returning {A} (f : A → option bool) (l : list A) : option bool :=
  match l with
  | [] => Some false
  | x :: r => match f x with
              | None => None
              | Some true => Some true
              | Some false => any_returning f r
              end
  end.

Lemma any_returning_true {A} (f : A → option bool) l :
  any_returning f l = Some true → ∃ x, x ∈ l ∧ f x = Some true.
Proof.
  induction l as [|x l IH]; simpl; [done|]. destruct (f x) as [[]|] eqn:E; [| |done].
  - intros _. exists x. split; [left|done].
  - intros (y & Hy & Hf)%IH. exists y. split; [by right|done].
Qed.

Lemma any_returning_is_some {A} (f : A → option bool) l :
  (∀ x, x ∈ l → is_Some (f x)) → is_Some (any_returning f l).
Proof.
  induction l as [|x l IH]; intros H; simpl; [done|].
  destruct (H x) as [[] ->]; [left|done|]. apply IH. intros y Hy. apply H. by right.
Qed.

Lemma any_returning_found {A} (f : A → option bool) l x :
  (∀ y, y ∈ l → is_Some (f y)) → x ∈ l → f x = Some true → any_returning f l = Some true.
Proof.
  induction l as [|y l IH]; intros H Hx Hf; [by apply not_elem_of_nil in Hx|]. simpl.
  destruct (H y) as [[] E]; [left|by rewrite E|]. rewrite E.
  apply elem_of_cons in Hx as [->|Hx]; [congruence|]. apply IH; [|done..]. intros z Hz. apply H. by right.
Qed.

(** ** Lists without duplicates *)

(** [if !out.iter().any(|y| dup(y, x)) { out.push(x) }]. *)
Definition push_unless {A} (dup : A → A → bool) (out : list A) (x : A) : list A :=
  if existsb (λ y, dup y x) out then out else out ++ [x].

Section PushUnless.
Context {A : Type} (dup : A → A → bool).
Implicit Types (out xs : list A).

(** No element is preceded by one it duplicates. *)
Definition no_dup_by out : Prop :=
  ∀ i j x y, i < j → out !! i = Some x → out !! j = Some y → dup x y = false.

Lemma push_unless_elem out x y : y ∈ push_unless dup out x → y ∈ out ∨ y = x.
Proof.
  unfold push_unless. destruct (existsb _ _); [by left|]. simpl.
  by rewrite elem_of_app, list_elem_of_singleton.
Qed.

Lemma push_unless_mono out x y : y ∈ out → y ∈ push_unless dup out x.
Proof. unfold push_unless. destruct (existsb _ _); [done|]. rewrite elem_of_app. by left. Qed.

Lemma push_unless_has out x : dup x x = true → ∃ y, y ∈ push_unless dup out x ∧ dup y x = true.
Proof.
  intros Hx. unfold push_unless. destruct (existsb _ _) eqn:E; [by apply existsb_true in E|].
  exists x. rewrite elem_of_app, list_elem_of_singleton. by split; [right|].
Qed.

Lemma push_unless_no_dup out x : no_dup_by out → no_dup_by (push_unless dup out x).
Proof.
  intros H. unfold push_unless. destruct (existsb _ _) eqn:E; [done|].
  intros i j y z Hij Hi Hj. apply lookup_snoc_Some in Hj as [[Hj Hz]|[-> <-]].
  - rewrite lookup_app_l in Hi by lia. exact (H i j y z Hij Hi Hz).
  - rewrite lookup_app_l in Hi by done. rewrite existsb_false in E.
    by apply E, list_elem_of_lookup_2 with i.
Qed.

Lemma fold_push_elem xs out y :
  y ∈ fold_left (push_unless dup) xs out → y ∈ out ∨ y ∈ xs.
Proof.
  revert out. induction xs as [|x xs IH]; intros out; simpl; [by left|].
  rewrite elem_of_cons. intros [H|H]%IH; [|by right; right].
  apply push_unless_elem in H as [H| ->]; [by left|by right; left].
Qed.

Lemma fold_push_mono xs out y : y ∈ out → y ∈ fold_left (push_unless dup) xs out.
Proof.
  revert out. induction xs as [|x xs IH]; intros out; simpl; [done|].
  intros H. by apply IH, push_unless_mono.
Qed.

Lemma fold_push_has xs out x :
  (∀ z, dup z z = true) → x ∈ xs → ∃ y, y ∈ fold_left (push_unless dup) xs out ∧ dup y x = true.
Proof.
  intros Hr. revert out. induction xs as [|z xs IH]; intros out; [by intros ?%not_elem_of_nil|].
  intros [->|H]%elem_of_cons; simpl; [|by apply IH].
  destruct (push_unless_has out z (Hr z)) as (y & Hy & E). exists y.
  split; [by apply fold_push_mono|done].
Qed.

Lemma fold_push_no_dup xs out : no_dup_by out → no_dup_by (fold_left (push_unless dup) xs out).
Proof.
  revert out. induction xs as [|x xs IH]; intros out H; simpl; [done|].
  by apply IH, push_unless_no_dup.
Qed.

Lemma no_dup_by_nil : no_dup_by [].
Proof. intros i j x y _ Hi. done. Qed.
End PushUnless.

Lemma filter_none {A} (f : A → bool) l : (∀ x, x ∈ l → f x = false) → List.filter f l = [].
Proof.
  induction l as [|x l IH]; intros H; simpl; [done|]. rewrite (H x) by left. apply IH. intros y Hy. apply H. by right.
Qed.

Lemma filter_all {A} (f : A → bool) l : (∀ x, x ∈ l → f x = true) → List.filter f l = l.
Proof.
  induction l as [|x l IH]; intros H; simpl; [done|]. rewrite (H x) by left. f_equal. apply IH.
  intros y Hy. apply H. by right.
Qed.

Lemma filter_twice {A} (p : A → bool) l : List.filter p (List.filter p l) = List.filter p l.
Proof. induction l as [|x l IH]; simpl; [done|]. destruct (p x) eqn:E; simpl; [by rewrite E, IH|done]. Qed.

#[export] Instance filter_perm {A} (p : A → bool) : Proper ((≡ₚ) ==> (≡ₚ)) (List.filter p).
Proof.
  induction 1 as [|x l k H IH|x y l|l k m H1 IH1 H2 IH2]; simpl; [done|..].
  - destruct (p x); by rewrite IH.
  - destruct (p x), (p y); by try apply Permutation_swap.
  - by etrans.
Qed.

(** Filtering and mapping keep a list without duplicates. *)
Lemma filter_fmap_nodup {A B} (f : A → B) (p : A → bool) l :
  NoDup (f <$> l) → NoDup (f <$> List.filter p l).
Proof.
  induction l as [|x l IH]; simpl; [done|]. intros [Hx Hl]%NoDup_cons.
  destruct (p x); simpl; [|auto]. apply NoDup_cons. split; [|auto].
  intros (y & E & Hy)%list_elem_of_fmap. apply list_elem_of_In, filter_In in Hy as [Hy _].
  apply Hx. rewrite E. by apply list_elem_of_fmap_2, list_elem_of_In.
Qed.
