(* ===== verification/RustStr.v ===== *)
(** * The part of Rust's [str] API the gateway uses

    A [&str] is modelled by the sequence of its UTF-8 bytes ([string] of
    [ascii]).  The byte-level methods ([starts_with], [contains], [find],
    [split], [strip_suffix], [==], [cmp], [as_bytes]) are exact for every
    string.  The Unicode-aware ones ([trim], [split_whitespace],
    [to_lowercase]) are given by their behaviour on ASCII characters: a byte
    above 127 is neither white space nor cased. *)

From Stdlib Require Import Ascii String.
From S2P Require Import Prelude.
From stdpp Require Import prelude gmap strings list sorting.

Open Scope string_scope.
Open Scope nat_scope.
Open Scope list_scope.

#[global] Arguments String.append !_ _ / : simpl nomatch.

(** ** Characters *)

Definition ch (n : nat) : ascii := ascii_of_nat n.

(** [char::is_whitespace] on ASCII: U+0009..U+000D and U+0020. *)
Definition is_whitespace (c : ascii) : bool :=
  let n := nat_of_ascii c in ((9 <=? n) && (n <=? 13)) || (n =? 32).

(** [u8::is_ascii_whitespace]: the same without the vertical tab. *)
Definition is_ascii_whitespace (c : ascii) : bool :=
  let n := nat_of_ascii c in
  (n =? 9) || (n =? 10) || (n =? 12) || (n =? 13) || (n =? 32).

Definition is_ascii_digit (c : ascii) : bool :=
  let n := nat_of_ascii c in (48 <=? n) && (n <=? 57).

Definition is_ascii_upper (c : ascii) : bool :=
  let n := nat_of_ascii c in (65 <=? n) && (n <=? 90).

Definition is_ascii_alphanumeric (c : ascii) : bool :=
  let n := nat_of_ascii c in
  is_ascii_digit c || is_ascii_upper c || ((97 <=? n) && (n <=? 122)).

Definition is_ascii_hexdigit (c : ascii) : bool :=
  let n := nat_of_ascii c in
  is_ascii_digit c || ((65 <=? n) && (n <=? 70)) || ((97 <=? n) && (n <=? 102)).

Definition to_ascii_lowercase (c : ascii) : ascii :=
  if is_ascii_upper c then ascii_of_nat (nat_of_ascii c + 32) else c.

(** ** Structure *)

Fixpoint str_map (f : ascii → ascii) (s : string) : string :=
  match s with "" => "" | String c r => String (f c) (str_map f r) end.

Definition to_lowercase (s : string) : string := str_map to_ascii_lowercase s.

(** [s.chars().any(p)]. *)
Fixpoint str_existsb (p : ascii → bool) (s : string) : bool :=
  match s with "" => false | String c r => p c || str_existsb p r end.

Definition contains_char (s : string) (c : ascii) : bool :=
  str_existsb (Ascii.eqb c) s.

Definition str_is_empty (s : string) : bool :=
  match s with "" => true | _ => false end.

(** [s.split_once(c)]. *)
Fixpoint split_once (c : ascii) (s : string) : option (string * string) :=
  match s with
  | "" => None
  | String x r =>
      if (x =? c)%char then Some ("", r)
      else '(a, b) ← split_once c r; Some (String x a, b)
  end.

(** [s.starts_with(p)]. *)
Definition starts_with (s p : string) : bool := String.prefix p s.
#[global] Arguments starts_with : simpl never.

(** [s.contains(p)]. *)
Fixpoint contains (s p : string) : bool :=
  starts_with s p || match s with "" => false | String _ r => contains r p end.

Fixpoint ends_with (s p : string) : bool :=
  (s =? p)%string || match s with "" => false | String _ r => ends_with r p end.

(** [s.find(p)]: the byte index of the first occurrence. *)
Fixpoint find (s p : string) : option nat :=
  if starts_with s p then Some 0
  else match s with "" => None | String _ r => S <$> find r p end.

(** [s.strip_suffix(c)] for a [char] pattern: at most one occurrence. *)
Fixpoint strip_suffix_char (s : string) (c : ascii) : option string :=
  match s with
  | "" => None
  | String x r =>
      if str_is_empty r then if (x =? c)%char then Some "" else None
      else String x <$> strip_suffix_char r c
  end.

(** [s.trim_start_matches(p)] and [s.trim_end_matches(p)]. *)
Fixpoint trim_start_by (p : ascii → bool) (s : string) : string :=
  match s with
  | "" => ""
  | String c r => if p c then trim_start_by p r else s
  end.

Fixpoint trim_end_by (p : ascii → bool) (s : string) : string :=
  match s with
  | "" => ""
  | String c r =>
      let r' := trim_end_by p r in
      if str_is_empty r' && p c then "" else String c r'
  end.

Definition trim_end_matches (s : string) (c : ascii) : string :=
  trim_end_by (Ascii.eqb c) s.

Definition trim_start (s : string) : string := trim_start_by is_whitespace s.
Definition trim (s : string) : string :=
  trim_end_by is_whitespace (trim_start_by is_whitespace s).
(** [\[u8\]::trim_ascii]. *)
Definition trim_ascii (s : string) : string :=
  trim_end_by is_ascii_whitespace (trim_start_by is_ascii_whitespace s).

(** [s.split(p)]: one more piece than there are separators. *)
Fixpoint split (p : ascii → bool) (s : string) : list string :=
  match s with
  | "" => [""]
  | String c r =>
      if p c then "" :: split p r
      else match split p r with
           | h :: t => String c h :: t
           | [] => [String c ""]
           end
  end.

Definition split_whitespace (s : string) : list string :=
  List.filter (λ t, negb (str_is_empty t)) (split is_whitespace s).

(** [\[..\].join(sep)]. *)
Definition join (sep : string) (l : list string) : string := String.concat sep l.

(** The suffix of [s] starting at byte [n]: [&s\[n..\]]. *)
Fixpoint skip (n : nat) (s : string) : string :=
  match n, s with
  | 0, _ => s
  | S n', String _ r => skip n' r
  | S _, "" => ""
  end.

Fixpoint last_char (s : string) : option ascii :=
  match s with
  | "" => None
  | String c r => match last_char r with Some d => Some d | None => Some c end
  end.

Definition first_char (s : string) : option ascii :=
  match s with "" => None | String c _ => Some c end.

(** ** Lemmas *)

Lemma str_app_nil_r s : (s ++ "")%string = s.
Proof. induction s; simpl; congruence. Qed.

Lemma str_app_assoc s t u : ((s ++ t) ++ u)%string = (s ++ (t ++ u))%string.
Proof. induction s; simpl; congruence. Qed.

Lemma str_length_app s t :
  String.length (s ++ t) = String.length s + String.length t.
Proof. induction s; simpl; congruence. Qed.

Lemma str_app_inv_l s t u : (s ++ t)%string = (s ++ u)%string → t = u.
Proof. induction s; simpl; naive_solver. Qed.

Lemma starts_with_spec s p : starts_with s p = true ↔ ∃ r, s = (p ++ r)%string.
Proof.
  unfold starts_with. revert s. induction p as [|c p IH]; intros s; simpl.
  - split; [by exists s|by destruct s].
  - destruct s as [|d s]; simpl.
    + split; [discriminate|]. intros (r & H). discriminate H.
    + destruct (ascii_dec c d) as [->|Hne].
      * rewrite IH. split; [intros (r & ->); by exists r|].
        intros (r & [= ->]); by exists r.
      * split; [discriminate|]. intros (r & H). congruence.
Qed.

Lemma starts_with_empty s : starts_with s "" = true.
Proof. apply starts_with_spec. by exists s. Qed.

Lemma contains_spec s p :
  contains s p = true ↔ ∃ a b, s = (a ++ p ++ b)%string.
Proof.
  induction s as [|c s IH]; simpl; rewrite orb_true_iff, starts_with_spec.
  - split.
    + intros [[r Hr]|[=]]. by exists "", r.
    + intros (a & b & H). left. exists b. by destruct a.
  - rewrite IH. split.
    + intros [[r Hr]|(a & b & ->)]; [by exists "", r|by exists (String c a), b].
    + intros ([|d a] & b & H); simpl in *; [left; by exists b|].
      injection H as -> ->. right. eauto.
Qed.

Lemma str_existsb_app p s t :
  str_existsb p (s ++ t) = str_existsb p s || str_existsb p t.
Proof. induction s as [|c s IH]; simpl; [done|]. by rewrite IH, orb_assoc. Qed.

Lemma contains_char_app s t c : contains_char (s ++ t) c = contains_char s c || contains_char t c.
Proof. apply str_existsb_app. Qed.

Lemma skip_length s t : skip (String.length s) (s ++ t) = t.
Proof. by induction s. Qed.

Lemma str_eqb_spec (s t : string) : (s =? t)%string = true ↔ s = t.
Proof. apply String.eqb_eq. Qed.

Lemma find_spec s p i :
  find s p = Some i →
  ∃ a b, s = (a ++ p ++ b)%string ∧ String.length a = i.
Proof.
  revert i. induction s as [|c s IH]; intros i; simpl.
  - destruct (starts_with "" p) eqn:E; [|done]. intros [= <-].
    apply starts_with_spec in E as (r & ->). by exists "", r.
  - destruct (starts_with (String c s) p) eqn:E.
    + intros [= <-]. apply starts_with_spec in E as (r & ->). by exists "", r.
    + destruct (find s p) as [j|] eqn:F; [|done]. intros [= <-].
      destruct (IH _ eq_refl) as (a & b & -> & <-). by exists (String c a), b.
Qed.

(** [find] returns the leftmost occurrence. *)
Lemma find_first s p i a b :
  find s p = Some i → s = (a ++ p ++ b)%string → i ≤ String.length a.
Proof.
  revert i s. induction a as [|c a IH]; intros i s H ->; simpl in *.
  - assert (starts_with (p ++ b) p = true) as E by (apply starts_with_spec; eauto).
    destruct (p ++ b)%string; simpl in H; rewrite E in H; injection H as <-; lia.
  - destruct (starts_with (String c (a ++ p ++ b)) p); [injection H as <-; lia|].
    destruct (find (a ++ p ++ b) p) as [j|] eqn:F; [|done].
    injection H as <-. specialize (IH _ _ F eq_refl). lia.
Qed.

Lemma find_none s p : find s p = None ↔ contains s p = false.
Proof.
  induction s as [|c s IH]; simpl.
  - destruct (starts_with "" p); naive_solver.
  - destruct (starts_with (String c s) p); simpl; [naive_solver|].
    rewrite <-IH. destruct (find s p); simpl; naive_solver.
Qed.

Lemma trim_end_by_spec p s :
  ∃ r, s = (trim_end_by p s ++ r)%string ∧ str_existsb (λ c, negb (p c)) r = false.
Proof.
  induction s as [|c s (r & Hs & Hr)]; simpl; [by exists ""|].
  destruct (str_is_empty (trim_end_by p s) && p c) eqn:E.
  - apply andb_true_iff in E as [E1 E2].
    destruct (trim_end_by p s) eqn:F; [|done]. simpl in Hs. subst r.
    exists (String c s). split; [done|]. simpl. by rewrite E2, Hr.
  - exists r. simpl. split; [congruence|done].
Qed.

Lemma trim_start_by_spec p s :
  ∃ r, s = (r ++ trim_start_by p s)%string ∧ str_existsb (λ c, negb (p c)) r = false.
Proof.
  induction s as [|c s (r & Hs & Hr)]; simpl; [by exists ""|].
  destruct (p c) eqn:E; [|by exists ""].
  exists (String c r). simpl. rewrite E. split; [congruence|done].
Qed.

Lemma strip_suffix_char_spec s c t :
  strip_suffix_char s c = Some t ↔ s = (t ++ String c "")%string.
Proof.
  revert t. induction s as [|x r IH]; intros t; simpl.
  - split; [done|by destruct t].
  - destruct r as [|y r]; simpl.
    + destruct (Ascii.eqb_spec x c) as [->|Hne]; split; try done.
      * intros [= <-]. done.
      * destruct t as [|z [|? ?]]; simpl; congruence.
      * destruct t as [|z [|? ?]]; simpl; congruence.
    + rewrite fmap_Some. setoid_rewrite IH. split.
      * intros (u & -> & ->). done.
      * destruct t as [|z t]; [done|]. intros [= -> H]. by exists t.
Qed.

Lemma str_existsb_map p f s : str_existsb p (str_map f s) = str_existsb (p ∘ f) s.
Proof. induction s; simpl; [done|]. by f_equal. Qed.

Lemma str_map_map f g s : str_map f (str_map g s) = str_map (f ∘ g) s.
Proof. induction s; simpl; [done|]. by f_equal. Qed.

Lemma str_map_ext f g s : (∀ c, f c = g c) → str_map f s = str_map g s.
Proof. intros H. induction s; simpl; [done|]. by rewrite H, IHs. Qed.

Lemma split_nonempty p s : split p s ≠ [].
Proof. destruct s; simpl; [done|]. by repeat case_match. Qed.

(** No piece of [split p s] contains a separator. *)
Lemma split_no_sep p s t : t ∈ split p s → str_existsb p t = false.
Proof.
  revert t. induction s as [|c s IH]; intros t; simpl.
  - by intros ->%list_elem_of_singleton.
  - destruct (p c) eqn:E.
    + intros [->|H]%elem_of_cons; [done|by apply IH].
    + destruct (split p s) as [|h l] eqn:F.
      * intros ->%list_elem_of_singleton. simpl. by rewrite E.
      * intros [->|H]%elem_of_cons.
        -- simpl. rewrite E. apply IH. left.
        -- apply IH. by right.
Qed.

Lemma split_no_sep_id p s : str_existsb p s = false → split p s = [s].
Proof.
  induction s as [|c s IH]; simpl; [done|].
  intros [Hc Hs]%orb_false_iff. rewrite Hc. by rewrite (IH Hs).
Qed.

(** ** Decimal numbers: [format!("{}", n)] and [str::parse::<u32>()] *)

Definition digit_char (d : N) : ascii := ascii_of_N (48 + d).

Fixpoint show_digits (fuel : nat) (n : N) (acc : string) : string :=
  match fuel with
  | 0 => acc
  | S f =>
      let acc' := String (digit_char (n mod 10)) acc in
      if (n / 10 =? 0)%N then acc' else show_digits f (n / 10)%N acc'
  end.

(** The decimal rendering of an unsigned integer; [N.size n] bits bound the
    number of digits. *)
Definition show_N (n : N) : string := show_digits (S (N.size_nat n)) n "".
Definition show_Z (z : Z) : string := show_N (Z.to_N z).

Fixpoint parse_digits (s : string) (acc : N) : option N :=
  match s with
  | "" => Some acc
  | String c r =>
      if is_ascii_digit c
      then parse_digits r (acc * 10 + (N_of_ascii c - 48))%N
      else None
  end.

(** [str::parse::<u64>]. *)
Definition parse_u64 (s : string) : option Z :=
  let body := match s with String "+" r => r | _ => s end in
  if str_is_empty body then None
  else n ← parse_digits body 0;
       if (Z.of_N n <? 2 ^ 64)%Z then Some (Z.of_N n) else None.

(** [str::parse::<u32>]: an optional [+], at least one digit, no overflow. *)
Definition parse_u32 (s : string) : option Z :=
  let body := match s with String "+" r => r | _ => s end in
  if str_is_empty body then None
  else n ← parse_digits body 0;
       if (Z.of_N n <=? U32_MAX)%Z then Some (Z.of_N n) else None.

Lemma digit_char_digit d : (d < 10)%N → is_ascii_digit (digit_char d) = true.
Proof.
  intros H. unfold is_ascii_digit, digit_char, nat_of_ascii.
  rewrite N_ascii_embedding by lia. apply andb_true_iff. split; apply Nat.leb_le; lia.
Qed.

Lemma digit_char_value d : (d < 10)%N → (N_of_ascii (digit_char d) - 48 = d)%N.
Proof. intros H. unfold digit_char. rewrite N_ascii_embedding by lia. lia. Qed.

Lemma show_digits_parse fuel n acc :
  (n < 10 ^ N.of_nat fuel)%N →
  fuel ≠ 0 →
  parse_digits (show_digits fuel n acc) 0 = parse_digits acc n.
Proof.
  revert n acc. induction fuel as [|f IH]; intros n acc Hn Hf; [done|]. simpl.
  assert (n mod 10 < 10)%N by (apply N.mod_lt; lia).
  destruct (N.eqb_spec (n / 10) 0) as [E|E].
  - simpl. rewrite digit_char_digit, digit_char_value by done.
    f_equal. pose proof (N.div_mod n 10). lia.
  - assert (f ≠ 0) as Hf0.
    { intros ->. apply E. apply N.div_small. by rewrite N.pow_1_r in Hn. }
    rewrite IH; [|..|done].
    + simpl. rewrite digit_char_digit, digit_char_value by done.
      f_equal. pose proof (N.div_mod n 10). lia.
    + apply N.Div0.div_lt_upper_bound.
      rewrite Nat2N.inj_succ, N.pow_succ_r' in Hn. lia.
Qed.

Lemma size_nat_bound n : (n < 10 ^ N.of_nat (S (N.size_nat n)))%N.
Proof.
  assert (n < 2 ^ N.of_nat (N.size_nat n))%N as H.
  { destruct n as [|p]; [simpl; lia|].
    pose proof (N.size_gt (N.pos p)) as Hp. simpl in *.
    enough (N.of_nat (Pos.size_nat p) = N.pos (Pos.size p)) as -> by done.
    clear. induction p; simpl; lia. }
  eapply N.lt_le_trans; [exact H|]. rewrite Nat2N.inj_succ.
  transitivity (10 ^ N.of_nat (N.size_nat n))%N.
  - apply N.pow_le_mono_l. lia.
  - apply N.pow_le_mono_r; lia.
Qed.

Lemma show_N_parse n : parse_digits (show_N n) 0 = Some n.
Proof. unfold show_N. rewrite show_digits_parse; [done|apply size_nat_bound|done]. Qed.

Lemma parse_digits_all s acc n :
  parse_digits s acc = Some n → str_existsb (λ c, negb (is_ascii_digit c)) s = false.
Proof.
  revert acc. induction s as [|c s IH]; intros acc; simpl; [done|].
  destruct (is_ascii_digit c); simpl; [apply IH|done].
Qed.

Lemma show_N_digits n : str_existsb (λ c, negb (is_ascii_digit c)) (show_N n) = false.
Proof. eapply parse_digits_all, show_N_parse. Qed.

Lemma show_digits_nonempty fuel n acc :
  (fuel ≠ 0 ∨ acc ≠ "") → show_digits fuel n acc ≠ "".
Proof.
  revert n acc. induction fuel as [|f IH]; intros n acc H; simpl; [naive_solver|].
  destruct (n / 10 =? 0)%N; [done|]. apply IH. by right.
Qed.

Lemma show_Z_parse z : is_u32 z → parse_u32 (show_Z z) = Some z.
Proof.
  intros Hz. unfold parse_u32, show_Z.
  assert (show_N (Z.to_N z) ≠ "") as Hne by (apply show_digits_nonempty; by left).
  pose proof (show_N_digits (Z.to_N z)) as Hd.
  pose proof (show_N_parse (Z.to_N z)) as Hp.
  destruct (show_N (Z.to_N z)) as [|c r]; [done|]. clear Hne.
  assert (is_ascii_digit c = true) as Hc.
  { simpl in Hd. destruct (is_ascii_digit c); [done|discriminate Hd]. }
  assert ((match String c r with String "+" r0 => r0 | _ => String c r end) = String c r) as ->.
  { destruct (ascii_dec c "+") as [->|Hne]; [discriminate Hc|].
    destruct c as [[] [] [] [] [] [] [] []]; congruence. }
  simpl str_is_empty. cbv iota. rewrite Hp. simpl.
  rewrite Z2N.id by (destruct Hz; lia).
  destruct (Z.leb_spec z U32_MAX) as [|Hgt]; [done|destruct Hz; lia].
Qed.

(** ** Prefixes and suffixes *)

(** [s.strip_prefix(p)]. *)
Definition strip_prefix (s p : string) : option string :=
  if starts_with s p then Some (skip (String.length p) s) else None.

(** [s.eq_ignore_ascii_case(t)]. *)
Definition eq_ignore_ascii_case (s t : string) : bool :=
  (to_lowercase s =? to_lowercase t)%string.

Lemma strip_prefix_some s p r : strip_prefix s p = Some r ↔ s = (p ++ r)%string.
Proof.
  unfold strip_prefix. split.
  - destruct (starts_with s p) eqn:E; [|done]. apply starts_with_spec in E as [t ->].
    by intros [= <-]; rewrite skip_length.
  - intros ->. rewrite (proj2 (starts_with_spec _ _)) by eauto. by rewrite skip_length.
Qed.

Lemma ends_with_spec s p : ends_with s p = true ↔ ∃ r, s = (r ++ p)%string.
Proof.
  split.
  - induction s as [|c s IH]; cbn [ends_with]; rewrite orb_true_iff.
    + intros [H|H]; [|done]. apply str_eqb_spec in H as <-. by exists "".
    + intros [H|H]; [apply str_eqb_spec in H as <-; by exists ""|].
      destruct (IH H) as [r ->]. by exists (String c r).
  - intros [r ->]. induction r as [|c r IH].
    + change ("" ++ p)%string with p. destruct p; cbn [ends_with]; by rewrite String.eqb_refl.
    + change (String c r ++ p)%string with (String c (r ++ p)). cbn [ends_with].
      by rewrite IH, orb_true_r.
Qed.

(** ** Byte order: [Ord] for [str] *)

Lemma ascii_compare_trans_lt a b c :
  Ascii.compare a b = Lt → Ascii.compare b c = Lt → Ascii.compare a c = Lt.
Proof. unfold Ascii.compare. rewrite !N.compare_lt_iff. lia. Qed.

Lemma ascii_compare_eq a b : Ascii.compare a b = Eq ↔ a = b.
Proof.
  unfold Ascii.compare. rewrite N.compare_eq_iff. split; [|by intros ->].
  intros H. rewrite <-(ascii_N_embedding a), <-(ascii_N_embedding b). by rewrite H.
Qed.

Lemma str_compare_trans_lt s t u :
  String.compare s t = Lt → String.compare t u = Lt → String.compare s u = Lt.
Proof.
  revert t u. induction s as [|a s IH]; intros [|b t] [|c u]; simpl; try done.
  destruct (Ascii.compare a b) eqn:E1; try done;
    destruct (Ascii.compare b c) eqn:E2; try done; intros H1 H2.
  - apply ascii_compare_eq in E1 as ->. rewrite E2. eauto.
  - apply ascii_compare_eq in E1 as ->. by rewrite E2.
  - apply ascii_compare_eq in E2 as ->. by rewrite E1.
  - by rewrite (ascii_compare_trans_lt a b c).
Qed.

#[export] Instance str_compare_total : TotalCmp String.compare.
Proof.
  split.
  - intros x y H. rewrite String.compare_antisym, H. done.
  - intros x y z H1 H2. unfold cmp_le in *.
    destruct (String.compare x y) eqn:E1; [apply String.compare_eq_iff in E1 as ->; done| |done].
    destruct (String.compare y z) eqn:E2;
      [apply String.compare_eq_iff in E2 as <-; congruence| |done].
    by rewrite (str_compare_trans_lt x y z).
Qed.

#[export] Instance str_cmp_le_antisymm : AntiSymm (=) (cmp_le String.compare).
Proof.
  intros x y Hx Hy. unfold cmp_le in *. rewrite String.compare_antisym in Hy.
  apply String.compare_eq_iff. destruct (String.compare x y); done.
Qed.

(** A sorted list of strings is determined by its elements. *)
Lemma sort_by_str_perm l l' :
  l ≡ₚ l' → sort_by String.compare l = sort_by String.compare l'.
Proof.
  intros HP. apply (StronglySorted_unique (cmp_le String.compare));
    [apply (sort_by_strongly_sorted _)..|]. by rewrite !sort_by_perm.
Qed.

Create Rewrite HintDb rust_str.
#[export] Hint Rewrite str_app_nil_r str_app_assoc str_length_app : rust_str.

(** ** [BTreeMap<String, V>]: an association list in key order *)

Section BTreeMap.
Context {V : Type}.
Implicit Types (m : list (string * V)) (k : string).

Fixpoint bt_insert k (v : V) m : list (string * V) :=
  match m with
  | [] => [(k, v)]
  | (k', v') :: r =>
      match String.compare k k' with
      | Lt => (k, v) :: m
      | Eq => (k, v) :: r
      | Gt => (k', v') :: bt_insert k v r
      end
  end.

Fixpoint bt_get m k : option V :=
  match m with
  | [] => None
  | (k', v) :: r => if (k' =? k)%string then Some v else bt_get r k
  end.

Definition bt_keys m : list string := m.*1.

(** Strictly increasing keys. *)
Definition bt_wf m : Prop := StronglySorted (λ a b, String.compare a b = Lt) (bt_keys m).

Lemma str_compare_refl k : String.compare k k = Eq.
Proof.
  pose proof (String.compare_antisym k k) as H. by destruct (String.compare k k).
Qed.

Lemma bt_get_insert k v m k' :
  bt_get (bt_insert k v m) k' = if decide (k = k') then Some v else bt_get m k'.
Proof.
  induction m as [|[a w] m IH]; simpl.
  { destruct (String.eqb_spec k k'); by case_decide. }
  destruct (String.compare k a) eqn:E; simpl.
  - apply String.compare_eq_iff in E as ->.
    destruct (String.eqb_spec a k'); by case_decide.
  - destruct (String.eqb_spec k k'); by case_decide.
  - rewrite IH. destruct (String.eqb_spec a k') as [->|]; [|done].
    case_decide as Hd; [|done]. subst. by rewrite str_compare_refl in E.
Qed.

Lemma bt_insert_keys_forall (P : string → Prop) k v m :
  P k → Forall P (bt_keys m) → Forall P (bt_keys (bt_insert k v m)).
Proof.
  intros HP. unfold bt_keys. induction m as [|[a w] m IH]; simpl; [by repeat constructor|].
  intros [Ha Hm]%Forall_cons. destruct (String.compare k a); simpl; eauto using Forall_cons_2.
Qed.

Lemma bt_insert_wf k v m : bt_wf m → bt_wf (bt_insert k v m).
Proof.
  unfold bt_wf. induction m as [|[a w] m IH]; simpl; [by repeat constructor|].
  intros [HS Ha]%StronglySorted_inv. destruct (String.compare k a) eqn:E; simpl.
  - apply String.compare_eq_iff in E as ->. by constructor.
  - constructor; [by constructor|]. constructor; [done|].
    eapply Forall_impl; [exact Ha|]. intros x Hx. by eapply str_compare_trans_lt.
  - constructor; [by apply IH|]. apply bt_insert_keys_forall; [|done].
    by rewrite String.compare_antisym, E.
Qed.

Lemma bt_wf_NoDup m : bt_wf m → NoDup m.*1.
Proof.
  unfold bt_wf, bt_keys. induction 1 as [|k l HS IH Ha]; constructor; [|done].
  intros Hin. eapply Forall_forall in Ha; [|done]. by rewrite str_compare_refl in Ha.
Qed.

Lemma bt_get_elem m k v : bt_wf m → (k, v) ∈ m ↔ bt_get m k = Some v.
Proof.
  unfold bt_wf, bt_keys. induction m as [|[a w] m IH]; simpl.
  { intros _. split; [by intros ?%not_elem_of_nil|done]. }
  intros [HS Ha]%StronglySorted_inv. rewrite elem_of_cons, (IH HS).
  destruct (String.eqb_spec a k) as [->|Hne].
  - split; [|naive_solver]. intros [[= ->]|Hg]; [done|]. apply IH in Hg; [|done].
    eapply Forall_forall in Ha; [by rewrite str_compare_refl in Ha|].
    apply list_elem_of_fmap. by exists (k, v).
  - naive_solver.
Qed.
End BTreeMap.

(** ** Decompositions of concatenations *)

Lemma str_app_split a x b y :
  (a ++ x)%string = (b ++ y)%string → String.length a ≤ String.length b →
  ∃ z, b = (a ++ z)%string ∧ x = (z ++ y)%string.
Proof.
  revert b. induction a as [|c a IH]; intros b H Hl; simpl in *; [by exists b|].
  destruct b as [|d b]; simpl in *; [lia|]. injection H as -> H.
  destruct (IH b H) as (z & -> & ->); [lia|]. by exists z.
Qed.

Lemma last_char_some s : s ≠ "" → is_Some (last_char s).
Proof. destruct s as [|c s]; [done|]. intros _. simpl. by destruct (last_char s). Qed.

Lemma last_char_app s t : last_char (s ++ t) = match t with "" => last_char s | _ => last_char t end.
Proof.
  destruct t as [|d t]; [by rewrite str_app_nil_r|].
  destruct (last_char_some (String d t)) as [c Hc]; [done|]. rewrite Hc.
  induction s as [|e s IH]; simpl; [done|]. by rewrite IH.
Qed.

Lemma last_char_existsb p s c : last_char s = Some c → p c = true → str_existsb p s = true.
Proof.
  induction s as [|d s IH]; simpl; [done|]. destruct (last_char s).
  - intros [= ->] Hp. by rewrite IH, orb_true_r.
  - intros [= ->] ->. done.
Qed.

Lemma substring_app a b : String.substring 0 (String.length a) (a ++ b) = a.
Proof. induction a as [|c a IH]; simpl; [by destruct b|]. by rewrite IH. Qed.

Lemma str_length_zero s : String.length s = 0 ↔ s = "".
Proof. by destruct s. Qed.

(** ** Splitting and trimming text built from pieces *)

Lemma split_sep p c a b :
  p c = true → str_existsb p a = false → split p (a ++ String c b) = a :: split p b.
Proof.
  intros Hc. induction a as [|d a IH]; simpl; [by rewrite Hc|].
  intros [Hd Ha]%orb_false_iff. by rewrite Hd, IH.
Qed.

Lemma split_join p c l :
  p c = true → l ≠ [] → Forall (λ s, str_existsb p s = false) l →
  split p (join (String c "") l) = l.
Proof.
  intros Hc Hne HF. unfold join. induction HF as [|x l Hx HF IH]; [done|].
  destruct l as [|y l]; [by apply split_no_sep_id|].
  change (String.concat (String c "") (x :: y :: l))
    with (x ++ String c (String.concat (String c "") (y :: l)))%string.
  rewrite split_sep by done. by rewrite IH.
Qed.

Lemma trim_end_by_last p s c : last_char s = Some c → p c = false → trim_end_by p s = s.
Proof.
  revert c. induction s as [|d s IH]; intros c; simpl; [done|].
  destruct (last_char s) as [e|] eqn:E.
  - intros [= ->] Hc. rewrite (IH c eq_refl Hc). by destruct s.
  - intros [= ->] Hc. destruct s; simpl; [by rewrite Hc|].
    destruct (last_char_some (String a s)) as [? ?]; [done|congruence].
Qed.

Lemma trim_id s c d :
  first_char s = Some c → is_whitespace c = false → last_char s = Some d →
  is_whitespace d = false → trim s = s.
Proof.
  intros Hf Hc Hl Hd. unfold trim. destruct s as [|e s]; [done|]. injection Hf as ->.
  assert (trim_start_by is_whitespace (String c s) = String c s) as ->
    by (simpl; by rewrite Hc). by eapply trim_end_by_last.
Qed.

Lemma trim_no_whitespace s : str_existsb is_whitespace s = false → trim s = s.
Proof.
  intros H. destruct s as [|c s]; [done|].
  destruct (last_char_some (String c s)) as [d Hd]; [done|].
  eapply trim_id; [done| |exact Hd|].
  - simpl in H. by apply orb_false_iff in H as [? _].
  - apply not_true_iff_false. intros Hw. by rewrite (last_char_existsb _ _ _ Hd Hw) in H.
Qed.

Lemma str_existsb_impl (p q : ascii → bool) s :
  (∀ c, p c = true → q c = true) → str_existsb q s = false → str_existsb p s = false.
Proof.
  intros H. induction s as [|c s IH]; simpl; [done|]. intros [Hc Hs]%orb_false_iff.
  rewrite IH by done. rewrite orb_false_r. apply not_true_iff_false. intros Hp.
  by rewrite (H c Hp) in Hc.
Qed.
