(* ===== verification/Json.v ===== *)
(** * JSON values

    [serde_json::Value] as the gateway builds and inspects it.  Objects are
    association lists in key order, as [serde_json]'s [BTreeMap] keeps them;
    printing and parsing belong to [serde_json] and are parameters of the
    components that use them.  A number is an integer: no decision of the
    modelled code reads a fraction. *)

From Stdlib Require Import Ascii String.
From S2P Require Import Prelude RustStr.
From stdpp Require Import prelude strings list.

Open Scope string_scope.
Open Scope list_scope.

(** [serde_json::Value]. *)
Inductive Json : Type :=
| JNull
| JBool (b : bool)
| JNumber (z : Z)
| JString (s : string)
| JArray (l : list Json)
| JObject (m : list (string * Json)).

(** [value.get(key)] and [value.as_str()]. *)
Definition json_get (v : Json) (key : string) : option Json :=
  match v with
  | JObject m => snd <$> List.find (λ kv, (kv.1 =? key)%string) m
  | _ => None
  end.

Definition json_as_str (v : Json) : option string :=
  match v with JString s => Some s | _ => None end.

Definition json_opt_str (o : option string) : Json :=
  match o with Some s => JString s | None => JNull end.

Definition json_as_bool (v : Json) : option bool :=
  match v with JBool b => Some b | _ => None end.

Definition json_as_u64 (v : Json) : option Z :=
  match v with JNumber z => if bool_decide (is_u64 z) then Some z else None | _ => None end.

Definition json_as_i64 (v : Json) : option Z :=
  match v with
  | JNumber z => if bool_decide (- 2 ^ 63 ≤ z < 2 ^ 63)%Z then Some z else None
  | _ => None
  end.

Definition json_as_array (v : Json) : option (list Json) :=
  match v with JArray l => Some l | _ => None end.

Definition json_as_object (v : Json) : option (list (string * Json)) :=
  match v with JObject m => Some m | _ => None end.

(** [json!({..})]: the entries go into a [BTreeMap]. *)
Definition json_object (kvs : list (string * Json)) : Json :=
  JObject (fold_left (λ m kv, bt_insert kv.1 kv.2 m) kvs []).

Definition json_strings (l : list string) : Json := JArray (map JString l).

(** A well-formed object is read back by key, whatever the order of the
    entries it was built from. *)
Lemma json_get_bt m k : json_get (JObject m) k = bt_get m k.
Proof.
  simpl. induction m as [|[k' v] m IH]; simpl; [done|].
  by destruct (k' =? k)%string.
Qed.

Lemma json_object_get kvs k : 
  json_get (json_object kvs) k = fold_left (λ r kv, if decide (kv.1 = k) then Some kv.2 else r) kvs None.
Proof.
  unfold json_object. rewrite json_get_bt. 
  assert (∀ m, bt_get (fold_left (λ m kv, bt_insert kv.1 kv.2 m) kvs m) k =
    fold_left (λ r kv, if decide (kv.1 = k) then Some kv.2 else r) kvs (bt_get m k)) as H; [|apply H].
  induction kvs as [|[k' v] kvs IH]; intros m; simpl; [done|]. by rewrite IH, bt_get_insert.
Qed.
