(* ===== verification/Llm.v ===== *)
(** * Conversation messages (autonoetic-gateway/src/llm/mod.rs)

    The message and tool-call types that the label plane and the loop guard
    read.  The drivers that send them to a provider are not modelled. *)

From Stdlib Require Import Ascii String.
From S2P Require Import Prelude RustStr Json.
From stdpp Require Import prelude strings list.

Open Scope string_scope.

(** ** Messages (llm/mod.rs) *)

Inductive Role : Type := RoleSystem | RoleUser | RoleAssistant | RoleTool.

#[export] Instance Role_eq_dec : EqDecision Role.
Proof. solve_decision. Defined.

Record ToolCall : Type := { call_id : string; call_name : string; call_arguments : string }.

Record Message : Type := {
  msg_id : option string;
  msg_role : Role;
  msg_content : string;
  msg_tool_calls : list ToolCall;
  msg_tool_call_id : option string;
  msg_reasoning_content : option string;
  msg_reasoning_details : option Json;
}.
