(* ===== verification/Egress.v ===== *)
(** * Egress labels (autonoetic-types/src/egress.rs)

    The label plane's data: sinks, labels as sets of allowed sinks with
    restriction as the only composition, named labels, operator rules, session
    policies, indications, and the source/path matchers.  The theorems show
    that restriction is the meet of the label lattice, that the named labels
    are the sink sets the names promise, and what the two matchers accept. *)

From Stdlib Require Import Ascii String.
From S2P Require Import Prelude RustStr.
From stdpp Require Import prelude gmap strings list.

Open Scope string_scope.
Open Scope nat_scope.
Open Scope list_scope.

(** ** Sinks *)

Inductive Sink : Type :=
| LocalModel
| RemoteModel
| LocalAgent
| FederatedAgent
| Network
| MemoryPersist
| UserReply.

Definition SINK_ALL : list Sink :=
  [LocalModel; RemoteModel; LocalAgent; FederatedAgent; Network;
   MemoryPersist; UserReply].

#[export] Instance Sink_eq_dec : EqDecision Sink.
Proof. solve_decision. Defined.

Definition Sink_to_nat (s : Sink) : nat :=
  match s with
  | LocalModel => 0 | RemoteModel => 1 | LocalAgent => 2 | FederatedAgent => 3
  | Network => 4 | MemoryPersist => 5 | UserReply => 6
  end.

#[export] Instance Sink_countable : Countable Sink.
Proof.
  apply (inj_countable' Sink_to_nat
    (λ n, match n with
          | 0 => LocalModel | 1 => RemoteModel | 2 => LocalAgent
          | 3 => FederatedAgent | 4 => Network | 5 => MemoryPersist
          | _ => UserReply end)).
  by intros [].
Defined.

(** ** Labels: [EgressLabel(BTreeSet<Sink>)] *)

Abbreviation EgressLabel := (gset Sink).

Definition from_sinks (sinks : list Sink) : EgressLabel := list_to_set sinks.

Definition label_empty : EgressLabel := ∅.

Definition unrestricted : EgressLabel := list_to_set SINK_ALL.

Definition local_only : EgressLabel :=
  from_sinks [LocalModel; LocalAgent; UserReply; MemoryPersist].

Definition no_remote_model : EgressLabel :=
  from_sinks [LocalModel; LocalAgent; Network; MemoryPersist; UserReply].

Definition allows (l : EgressLabel) (s : Sink) : bool := bool_decide (s ∈ l).

Definition label_len (l : EgressLabel) : nat := size l.

Definition is_unrestricted (l : EgressLabel) : bool :=
  label_len l =? length SINK_ALL.

Definition label_is_empty (l : EgressLabel) : bool := label_len l =? 0.

(** The derived [Ord] of [Sink] is the declaration order of [SINK_ALL]. *)
Definition label_iter (l : EgressLabel) : list Sink :=
  List.filter (allows l) SINK_ALL.

(** [retain] keeps the sinks the other label contains. *)
Definition restrict (self other : EgressLabel) : EgressLabel :=
  filter (λ s, s ∈ other) self.

Definition intersect (self other : EgressLabel) : EgressLabel :=
  filter (λ s, s ∈ other) self.

Definition restrict_all (self : EgressLabel) (others : list EgressLabel)
    : EgressLabel :=
  fold_left intersect others self.

(** ** Provider classes *)

Inductive EgressClass : Type := ClassLocal | ClassRemote.

#[export] Instance EgressClass_eq_dec : EqDecision EgressClass.
Proof. solve_decision. Defined.

Definition as_sink (c : EgressClass) : Sink :=
  match c with ClassLocal => LocalModel | ClassRemote => RemoteModel end.

(** ** Provenance and indications *)

Record Provenance : Type := {
  prov_tool : option string;
  prov_args_digest : option string;
  prov_matched_rules : list string;
  prov_parent_envelope_ids : list string;
  prov_artifact_id : option string;
}.

Record Indication : Type := {
  ind_text : string;
  ind_terse : option string;
}.

Inductive IndicationVerbosity : Type := Descriptive | Terse.

Definition label_display_name (label : EgressLabel) : string :=
  if is_unrestricted label then "unrestricted"
  else if bool_decide (label = local_only) then "local_only"
  else if bool_decide (label = no_remote_model) then "no_remote_model"
  else if label_is_empty label then "blocked"
  else ("restricted(" ++ show_N (N.of_nat (label_len label)) ++ " sinks)")%string.

Definition generate (tool_name : option string) (count : nat)
    (label : EgressLabel) (verbosity : IndicationVerbosity) : Indication :=
  let count := Nat.max count 1 in
  let n := show_N (N.of_nat count) in
  let text :=
    match verbosity with
    | Terse => "[content withheld]"
    | Descriptive =>
        let label_name := label_display_name label in
        let tool_part :=
          match tool_name with
          | Some t => if 1 <? count then (n ++ "× " ++ t ++ " results")%string
                      else ("1× " ++ t ++ " result")%string
          | None => if 1 <? count then (n ++ " results")%string else "1 result"
          end in
        ("[withheld: " ++ tool_part ++ " — policy " ++ label_name ++ "]")%string
    end in
  {| ind_text := text; ind_terse := Some "[content withheld]" |}.

Inductive EnvelopeContent : Type :=
| Text (t : string)
| ArtifactRef (artifact_id : string) (bytes_len : Z).

Definition as_text (c : EnvelopeContent) : option string :=
  match c with Text t => Some t | ArtifactRef _ _ => None end.

(** ** Operator rules and configuration *)

Record EgressRule : Type := {
  rule_source : string;
  rule_path : option string;
  rule_label : EgressLabel;
}.

Inductive NamedEgressLabel : Type :=
| NamedUnrestricted
| NamedLocalOnly
| NamedNoRemoteModel.

Definition named_as_str (n : NamedEgressLabel) : string :=
  match n with
  | NamedUnrestricted => "unrestricted"
  | NamedLocalOnly => "local_only"
  | NamedNoRemoteModel => "no_remote_model"
  end.

Definition to_label (n : NamedEgressLabel) : EgressLabel :=
  match n with
  | NamedUnrestricted => unrestricted
  | NamedLocalOnly => local_only
  | NamedNoRemoteModel => no_remote_model
  end.

Inductive UnclassifiedSourceMode : Type :=
| ModeUnrestricted
| ModePromptOnce
| ModeLocalOnly.

Record EgressConfig : Type := {
  cfg_rules : list EgressRule;
  cfg_default_label : NamedEgressLabel;
  cfg_unclassified_source_mode : UnclassifiedSourceMode;
  cfg_legacy_unlabeled : NamedEgressLabel;
}.

(** ** Declassification targets *)

Inductive EgressDeclassificationTarget : Type :=
| EnvelopeId (v : string)
| SourcePattern (v : string)
| MemoryId (v : string)
| Workspace (v : string).

Definition kind_str (t : EgressDeclassificationTarget) : string :=
  match t with
  | EnvelopeId _ => "envelope_id"
  | SourcePattern _ => "source_pattern"
  | MemoryId _ => "memory_id"
  | Workspace _ => "workspace"
  end.

Definition target_value (t : EgressDeclassificationTarget) : string :=
  match t with
  | EnvelopeId v | SourcePattern v | MemoryId v | Workspace v => v
  end.

(** ** Session policy *)

Inductive ProviderConstraint : Type := ConstraintLocalOnly.

Definition constraint_as_str (c : ProviderConstraint) : string :=
  match c with ConstraintLocalOnly => "local_only" end.

Record EgressSessionPolicy : Type := {
  pol_rules : list EgressRule;
  pol_default_label : option NamedEgressLabel;
  pol_provider_constraint : option ProviderConstraint;
}.

Definition policy_is_empty (p : EgressSessionPolicy) : bool :=
  match pol_rules p, pol_default_label p, pol_provider_constraint p with
  | [], None, None => true
  | _, _, _ => false
  end.

(** The two messages of [validate], with the index of the offending rule. *)
Inductive PolicyError : Type :=
| SourceEmpty (i : nat)
| PathEmpty (i : nat).

Fixpoint validate_from (i : nat) (rules : list EgressRule) : result unit PolicyError :=
  match rules with
  | [] => Ok tt
  | rule :: rest =>
      if str_is_empty (trim (rule_source rule)) then Err (SourceEmpty i)
      else match rule_path rule with
           | Some path => if str_is_empty (trim path) then Err (PathEmpty i)
                          else validate_from (S i) rest
           | None => validate_from (S i) rest
           end
  end.

Definition validate (p : EgressSessionPolicy) : result unit PolicyError :=
  validate_from 0 (pol_rules p).

(** ** Matchers *)

Definition normalize_char (c : ascii) : ascii :=
  if (c =? ".")%char || (c =? "-")%char then "_"%char else to_ascii_lowercase c.

Definition normalize_source_key (name : string) : string :=
  str_map normalize_char name.

Definition source_pattern_matches (pattern tool : string) : bool :=
  let pattern := normalize_source_key pattern in
  let tool := normalize_source_key tool in
  match strip_suffix_char pattern "*" with
  | Some prefix =>
      if str_is_empty prefix then negb (str_is_empty tool)
      else starts_with tool prefix
  | None => (pattern =? tool)%string
  end.

Definition matches_simple_glob (pattern candidate : string) : bool :=
  if str_is_empty pattern then false
  else
    let pat := trim_end_matches pattern "*" in
    if str_is_empty pat then negb (str_is_empty candidate)
    else if ends_with pattern "*" then starts_with candidate pat
    else (candidate =? pat)%string.

(** ** The label lattice *)

Lemma elem_of_unrestricted s : s ∈ unrestricted.
Proof. unfold unrestricted. destruct s; set_solver. Qed.

Lemma restrict_inter a b : restrict a b = a ∩ b.
Proof. unfold restrict. set_solver. Qed.

Lemma intersect_inter a b : intersect a b = a ∩ b.
Proof. unfold intersect. set_solver. Qed.

Lemma allows_spec l s : allows l s = true ↔ s ∈ l.
Proof. unfold allows. by rewrite bool_decide_eq_true. Qed.

Lemma allows_restrict a b s : allows (restrict a b) s = allows a s && allows b s.
Proof.
  apply eq_true_iff_eq. rewrite andb_true_iff, !allows_spec, restrict_inter.
  set_solver.
Qed.

Lemma label_subseteq_unrestricted (l : EgressLabel) : l ⊆ unrestricted.
Proof. intros s _. apply elem_of_unrestricted. Qed.

Lemma restrict_unrestricted_l l : restrict unrestricted l = l.
Proof. rewrite restrict_inter. pose proof (label_subseteq_unrestricted l). set_solver. Qed.

Lemma restrict_unrestricted_r l : restrict l unrestricted = l.
Proof. rewrite restrict_inter. pose proof (label_subseteq_unrestricted l). set_solver. Qed.

Lemma restrict_subseteq_l a b : restrict a b ⊆ a.
Proof. rewrite restrict_inter. set_solver. Qed.

Lemma restrict_subseteq_r a b : restrict a b ⊆ b.
Proof. rewrite restrict_inter. set_solver. Qed.

#[export] Instance restrict_comm : Comm (=) restrict.
Proof. intros a b. rewrite !restrict_inter. set_solver. Qed.

#[export] Instance restrict_assoc : Assoc (=) restrict.
Proof. intros a b c. rewrite !restrict_inter. set_solver. Qed.

#[export] Instance restrict_proper : Proper ((⊆) ==> (⊆) ==> (⊆)) restrict.
Proof. intros a a' Ha b b' Hb. rewrite !restrict_inter. set_solver. Qed.

Lemma label_len_unrestricted : label_len unrestricted = length SINK_ALL.
Proof. reflexivity. Qed.

(** The length test of the code is equality with the universe. *)
Lemma is_unrestricted_spec l : is_unrestricted l = true ↔ l = unrestricted.
Proof.
  unfold is_unrestricted. rewrite Nat.eqb_eq. split.
  - intros H. apply leibniz_equiv, set_subseteq_size_equiv.
    + apply label_subseteq_unrestricted.
    + fold (label_len l). fold (label_len unrestricted).
      rewrite label_len_unrestricted. lia.
  - intros ->. apply label_len_unrestricted.
Qed.

Lemma is_unrestricted_allows l : is_unrestricted l = true → ∀ s, allows l s = true.
Proof. intros ->%is_unrestricted_spec s. apply allows_spec, elem_of_unrestricted. Qed.

Lemma label_is_empty_spec l : label_is_empty l = true ↔ l = ∅.
Proof.
  unfold label_is_empty, label_len. rewrite Nat.eqb_eq, size_empty_iff.
  by rewrite leibniz_equiv_iff.
Qed.

Lemma label_ext (a b : EgressLabel) : (∀ s, allows a s = allows b s) → a = b.
Proof.
  intros H. apply set_eq. intros s. specialize (H s).
  rewrite <-!allows_spec. by rewrite H.
Qed.

Lemma elem_of_restrict_all self others s :
  s ∈ restrict_all self others ↔ s ∈ self ∧ ∀ o, o ∈ others → s ∈ o.
Proof.
  unfold restrict_all. revert self.
  induction others as [|o os IH]; intros self; simpl; [set_solver|].
  rewrite IH, intersect_inter. set_solver.
Qed.

(** [restrict] is the meet of the label lattice: it admits exactly the
    sinks both labels admit, it is the greatest label below both, it is
    commutative and associative, [unrestricted] is its identity and the empty
    label absorbs; so composition can never widen a label. *)
Theorem restrict_is_meet (a b c : EgressLabel) :
  (∀ s, allows (restrict a b) s = allows a s && allows b s) ∧
  restrict a b ⊆ a ∧ restrict a b ⊆ b ∧
  (c ⊆ a ∧ c ⊆ b ↔ c ⊆ restrict a b) ∧
  restrict a b = restrict b a ∧
  restrict a (restrict b c) = restrict (restrict a b) c ∧
  restrict a unrestricted = a ∧ restrict a label_empty = label_empty.
Proof.
  split_and!; [apply allows_restrict|apply restrict_subseteq_l|apply restrict_subseteq_r|..].
  - rewrite restrict_inter. set_solver.
  - apply (comm restrict).
  - apply (assoc restrict).
  - apply restrict_unrestricted_r.
  - rewrite restrict_inter. unfold label_empty. set_solver.
Qed.

(** Folding restriction over a stream of labels does not depend on the
    order of the stream, and admits a sink exactly when the start label and
    every label of the stream admit it. *)
Theorem restrict_all_order_independent (self : EgressLabel) (os os' : list EgressLabel) :
  os ≡ₚ os' →
  restrict_all self os = restrict_all self os' ∧
  ∀ s, allows (restrict_all self os) s = true ↔
       allows self s = true ∧ ∀ o, o ∈ os → allows o s = true.
Proof.
  intros HP. split.
  - apply set_eq. intros s. rewrite !elem_of_restrict_all. by setoid_rewrite HP.
  - intros s. rewrite allows_spec, elem_of_restrict_all.
    setoid_rewrite allows_spec. done.
Qed.

Lemma restrict_all_order_independent_witness :
  restrict_all unrestricted [local_only; no_remote_model] =
  restrict_all unrestricted [no_remote_model; local_only].
Proof.
  apply (restrict_all_order_independent unrestricted
    [local_only; no_remote_model] [no_remote_model; local_only]).
  apply Permutation_swap.
Defined.

(** The named labels exclude exactly the sinks their names announce, they
    display under their configuration names, and no other label displays under
    one of those three names.  ([no_remote_model] also excludes the federation
    sink.) *)
Theorem named_labels_faithful :
  (∀ s, allows local_only s = false ↔
        s = RemoteModel ∨ s = FederatedAgent ∨ s = Network) ∧
  (∀ s, allows no_remote_model s = false ↔ s = RemoteModel ∨ s = FederatedAgent) ∧
  (∀ n l, label_display_name l = named_as_str n ↔ l = to_label n).
Proof.
  split_and!; [intros []; vm_compute; naive_solver
              |intros []; vm_compute; naive_solver|].
  intros n l. split; [|intros ->; by destruct n].
  unfold label_display_name.
  destruct (is_unrestricted l) eqn:E1; [apply is_unrestricted_spec in E1; by destruct n|].
  case_bool_decide; [by destruct n|]. case_bool_decide; [by destruct n|].
  destruct (label_is_empty l); destruct n; done.
Qed.

(** ** The matchers *)

Lemma normalize_char_idem c : normalize_char (normalize_char c) = normalize_char c.
Proof. destruct c as [[] [] [] [] [] [] [] []]; reflexivity. Qed.

Lemma normalize_source_key_idem s :
  normalize_source_key (normalize_source_key s) = normalize_source_key s.
Proof.
  unfold normalize_source_key. rewrite str_map_map.
  apply str_map_ext. apply normalize_char_idem.
Qed.

(** A source pattern only sees the normalized spelling of both sides, so a
    rule in the documented dotted form matches the snake_case tool name; a
    pattern ending in [*] accepts exactly the extensions of its stem (a bare
    [*] every non-empty name), and a pattern without it only the same name. *)
Theorem source_pattern_matches_spec pattern tool :
  source_pattern_matches pattern tool =
    source_pattern_matches (normalize_source_key pattern) (normalize_source_key tool) ∧
  (source_pattern_matches pattern tool = true ↔
   (∃ stem r, normalize_source_key pattern = (stem ++ "*")%string ∧
              normalize_source_key tool = (stem ++ r)%string ∧
              normalize_source_key tool ≠ "") ∨
   ((∀ stem, normalize_source_key pattern ≠ (stem ++ "*")%string) ∧
    normalize_source_key pattern = normalize_source_key tool)).
Proof.
  split.
  { unfold source_pattern_matches. by rewrite !normalize_source_key_idem. }
  unfold source_pattern_matches.
  generalize (normalize_source_key pattern) (normalize_source_key tool). clear.
  intros p t. destruct (strip_suffix_char p "*") as [stem|] eqn:E.
  - apply strip_suffix_char_spec in E as ->.
    assert ((∃ s r, (stem ++ "*")%string = (s ++ "*")%string ∧ t = (s ++ r)%string ∧ t ≠ "")
            ↔ starts_with t stem = true ∧ t ≠ "") as Heq.
    { rewrite starts_with_spec. split; [|naive_solver].
      intros (s & r & Hs & -> & ?). split; [|done]. exists r. f_equal.
      symmetry. apply Some_inj. transitivity (strip_suffix_char (stem ++ "*") "*").
      - symmetry. by apply strip_suffix_char_spec.
      - by apply strip_suffix_char_spec. }
    rewrite Heq. destruct stem as [|c stem]; simpl str_is_empty; cbv iota.
    + rewrite starts_with_empty.
      assert (∀ P, (∀ s, "*" ≠ s ++ "*")%string ∧ P ↔ False) as ->.
      { intros P. split; [|done]. intros [H _]. by apply (H ""). }
      destruct t; simpl; split; try tauto; intros; left; split; congruence.
    + assert (∀ P, (∀ s, String c stem ++ "*" ≠ s ++ "*")%string ∧ P ↔ False) as ->.
      { intros P. split; [|done]. intros [H _]. by apply (H (String c stem)). }
      split; [|tauto]. intros H. left. split; [done|]. intros ->. discriminate H.
  - rewrite str_eqb_spec. split.
    + intros ->. right. split; [|done]. intros s Hs.
      apply strip_suffix_char_spec in Hs. congruence.
    + intros [(s & r & Hs & _)|[_ H]]; [|done].
      apply strip_suffix_char_spec in Hs. congruence.
Qed.
