(* ===== verification/EgressPath.v ===== *)
(** * Path patterns of exec-shaped calls (runtime/egress_path_matcher.rs)

    The advisory scan (a labelled path pattern against the tokens of a command)
    and the mechanical one (a pattern against the mount set the gateway itself
    composed).  Token extraction uses the [regex] crate, so the token list is an
    input here. *)

From Stdlib Require Import Ascii String.
From S2P Require Import Prelude RustStr.
From stdpp Require Import prelude gmap strings list.

Open Scope string_scope.
Open Scope nat_scope.
Open Scope list_scope.

(** [matched.retain(|p| seen.insert(p.clone()))]: keep first occurrences. *)
Fixpoint dedup_from (seen l : list string) : list string :=
  match l with
  | [] => []
  | p :: r => if bool_decide (p ∈ seen) then dedup_from seen r
              else p :: dedup_from (p :: seen) r
  end.

Definition dedup (l : list string) : list string := dedup_from [] l.

Definition pattern_matches_token (pattern token : string) : bool :=
  if str_is_empty pattern then false
  else
    let prefix := trim_end_matches pattern "*" in
    if str_is_empty prefix then negb (str_is_empty token)
    else if ends_with pattern "*" then starts_with token prefix
    else (token =? prefix)%string.

(** [analyze_sources] after token extraction. *)
Definition analyze_tokens (tokens patterns : list string) : list string :=
  dedup (List.filter (λ pat, existsb (pattern_matches_token pat) tokens) patterns).

(** [dir_path]: strip trailing slashes, keeping the root. *)
Definition dir_path (p : string) : string :=
  let t := trim_end_matches p "/" in
  if str_is_empty t then (if starts_with p "/" then "/" else p) else t.

Definition mount_exposes (mount labeled : string) : bool :=
  let m := dir_path mount in
  let l := dir_path labeled in
  if (m =? "/")%string || (l =? "/")%string then true
  else (m =? l)%string || starts_with m (l ++ "/")%string
       || starts_with l (m ++ "/")%string.

Definition normalize_home (pattern_or_token : string) (home : option string) : string :=
  match home with
  | Some h => if starts_with pattern_or_token "~/"
              then (h ++ skip 1 pattern_or_token)%string
              else pattern_or_token
  | None => pattern_or_token
  end.

Definition mount_entry_path (entry : string) : option string :=
  '(mode, path) ← split_once ":" entry;
  if ((mode =? "ro")%string || (mode =? "rw")%string)
     && negb (str_is_empty path) && negb (path =? "host_root")%string
  then Some path else None.

Definition match_mounts_with_home (mount_entries patterns : list string)
    (home : option string) : list string :=
  let mounts := omap mount_entry_path mount_entries in
  dedup (List.filter (λ pat,
    let expanded := normalize_home pat home in
    let wildcard := ends_with expanded "*" in
    let prefix := trim_end_matches expanded "*" in
    if wildcard && str_is_empty prefix
    then match mounts with [] => false | _ => true end
    else existsb (λ m, mount_exposes m prefix) mounts) patterns).

(** ** Lemmas *)

Lemma elem_of_dedup_from seen l x : x ∈ dedup_from seen l ↔ x ∈ l ∧ x ∉ seen.
Proof.
  revert seen. induction l as [|p l IH]; intros seen; simpl; [set_solver|].
  case_bool_decide; rewrite ?elem_of_cons, IH; [set_solver|].
  destruct (decide (x = p)) as [->|]; set_solver.
Qed.

Lemma elem_of_dedup l x : x ∈ dedup l ↔ x ∈ l.
Proof. unfold dedup. rewrite elem_of_dedup_from. set_solver. Qed.

Lemma NoDup_dedup l : NoDup (dedup l).
Proof.
  unfold dedup. generalize (@nil string). induction l as [|p l IH]; intros seen; simpl.
  - constructor.
  - case_bool_decide; [apply IH|]. constructor; [|apply IH].
    rewrite elem_of_dedup_from. set_solver.
Qed.

Lemma elem_of_analyze_tokens tokens patterns p :
  p ∈ analyze_tokens tokens patterns ↔
  p ∈ patterns ∧ ∃ t, t ∈ tokens ∧ pattern_matches_token p t = true.
Proof.
  unfold analyze_tokens. rewrite elem_of_dedup, list_elem_of_In, filter_In.
  by rewrite <-list_elem_of_In, existsb_true.
Qed.

(** The mount test is symmetric, and true for paths without a trailing
    slash exactly when one path is the other, lies beneath it at a directory
    boundary, or is the root; a sibling sharing a name prefix is not exposed. *)
Theorem mount_exposes_spec m l :
  mount_exposes m l = mount_exposes l m ∧
  (dir_path m = m → dir_path l = l →
   (mount_exposes m l = true ↔
    m = "/" ∨ l = "/" ∨ m = l ∨
    (∃ r, m = (l ++ "/" ++ r)%string) ∨ (∃ r, l = (m ++ "/" ++ r)%string))).
Proof.
  split.
  - unfold mount_exposes.
    rewrite (orb_comm (dir_path m =? "/")%string), (String.eqb_sym (dir_path m) (dir_path l)).
    destruct (_ || _); [done|]. by rewrite <-!orb_assoc, (orb_comm (starts_with (dir_path m) _)).
  - intros Hm Hl. unfold mount_exposes. rewrite Hm, Hl.
    destruct (String.eqb_spec m "/"); [tauto|].
    destruct (String.eqb_spec l "/"); [tauto|]. simpl.
    rewrite !orb_true_iff, !starts_with_spec, str_eqb_spec.
    setoid_rewrite str_app_assoc. tauto.
Qed.

Lemma mount_exposes_spec_witness :
  mount_exposes "/home/u" "/home/u/mail" = true ∧
  mount_exposes "/home/u" "/home/user" = false.
Proof.
  split.
  - apply (proj2 (mount_exposes_spec "/home/u" "/home/u/mail")); try reflexivity.
    right; right; right; right. by exists "mail".
  - reflexivity.
Defined.
