(* ===== verification/LabelStore.v ===== *)
(** * Stored egress labels (scheduler/gateway_store/{session,artifact,workspace}_taint.rs)

    Three SQLite tables hold one label per session, artifact and agent
    workspace.  A table is a finite map from key to label; every statement of
    the sources is one map operation under the connection lock the caller
    holds.  The [label_json] column holds the serialized label; serialization
    belongs to [serde_json] and the map stores the label itself. *)

From Stdlib Require Import Ascii String.
From S2P Require Import Prelude RustStr Egress.
From stdpp Require Import prelude gmap strings list.

Open Scope string_scope.
Open Scope nat_scope.
Open Scope list_scope.

Abbreviation label_table := (gmap string EgressLabel).

(** ** session_taint.rs *)

Definition get_taint (t : label_table) (session_id : string) : option EgressLabel :=
  t !! session_id.

Definition set_taint (t : label_table) (session_id : string) (label : EgressLabel)
    : label_table :=
  if is_unrestricted label then delete session_id t else <[session_id := label]> t.

Definition restrict_taint (t : label_table) (session_id : string) (label : EgressLabel)
    : label_table * EgressLabel :=
  let merged := match get_taint t session_id with
                | Some existing => restrict existing label
                | None => label
                end in
  (set_taint t session_id merged, merged).

(** ** artifact_taint.rs *)

Definition artifact_get_label (t : label_table) (artifact_id : string)
    : option EgressLabel := t !! artifact_id.

Definition artifact_restrict_label (t : label_table) (artifact_id : string)
    (label : EgressLabel) : label_table * EgressLabel :=
  let merged := match artifact_get_label t artifact_id with
                | Some existing => restrict existing label
                | None => label
                end in
  if is_unrestricted merged then (delete artifact_id t, merged)
  else (<[artifact_id := merged]> t, merged).

(** ** workspace_taint.rs *)

Definition workspace_get_label (t : label_table) (agent_id : string)
    : option EgressLabel := t !! agent_id.

Definition workspace_delete_label (t : label_table) (agent_id : string)
    : label_table * bool :=
  (delete agent_id t, bool_decide (is_Some (t !! agent_id))).

Definition workspace_restrict_label (t : label_table) (agent_id : string)
    (label : EgressLabel) : label_table * EgressLabel :=
  let merged := match workspace_get_label t agent_id with
                | Some existing => restrict existing label
                | None => label
                end in
  if is_unrestricted merged then ((workspace_delete_label t agent_id).1, merged)
  else (<[agent_id := merged]> t, merged).

(** ** The abstract label plane

    What a reader of the tables relies on: absence means [unrestricted], and a
    contribution only ever intersects. *)

Definition taint_of (t : label_table) (k : string) : EgressLabel :=
  default unrestricted (t !! k).

(** Only restrictive labels are stored. *)
Definition table_wf (t : label_table) : Prop :=
  map_Forall (λ _ l, is_unrestricted l = false) t.

(** What a store of labels promises to its clients. *)
Class MonotoneLabelStore
    (contribute : label_table → string → EgressLabel → label_table * EgressLabel)
    : Prop := {
  contribute_wf t k l : table_wf t → table_wf (contribute t k l).1;
  contribute_here t k l : taint_of (contribute t k l).1 k = restrict (taint_of t k) l;
  contribute_other t k l k' : k' ≠ k → taint_of (contribute t k l).1 k' = taint_of t k';
  contribute_result t k l : (contribute t k l).2 = restrict (taint_of t k) l;
}.

(** A sequence of contributions, oldest first. *)
Definition contributions
    (contribute : label_table → string → EgressLabel → label_table * EgressLabel)
    (t : label_table) (cs : list (string * EgressLabel)) : label_table :=
  fold_left (λ t '(k, l), (contribute t k l).1) cs t.

(** ** Lemmas *)

Lemma taint_of_set_taint t k l k' :
  taint_of (set_taint t k l) k' = if decide (k' = k) then l else taint_of t k'.
Proof.
  unfold taint_of, set_taint. destruct (is_unrestricted l) eqn:E.
  - apply is_unrestricted_spec in E as ->. rewrite lookup_delete.
    repeat case_decide; naive_solver.
  - rewrite lookup_insert. repeat case_decide; naive_solver.
Qed.

Lemma set_taint_wf t k l : table_wf t → table_wf (set_taint t k l).
Proof.
  intros H. unfold set_taint. destruct (is_unrestricted l) eqn:E.
  - by apply map_Forall_delete.
  - by apply map_Forall_insert_2.
Qed.

Lemma merged_taint t k l :
  match t !! k with Some e => restrict e l | None => l end = restrict (taint_of t k) l.
Proof. unfold taint_of. destruct (t !! k); simpl; by rewrite ?restrict_unrestricted_l. Qed.

(** All three tables write a merged label the way [set_taint] does. *)
Lemma artifact_restrict_label_eq t k l :
  artifact_restrict_label t k l = restrict_taint t k l.
Proof.
  unfold artifact_restrict_label, restrict_taint, artifact_get_label, get_taint, set_taint.
  by case_match.
Qed.

Lemma workspace_restrict_label_eq t k l :
  workspace_restrict_label t k l = restrict_taint t k l.
Proof.
  unfold workspace_restrict_label, restrict_taint, workspace_get_label, get_taint, set_taint.
  by case_match.
Qed.

#[export] Instance restrict_taint_store : MonotoneLabelStore restrict_taint.
Proof.
  split; intros; unfold restrict_taint, get_taint; cbn; rewrite ?merged_taint;
    [by apply set_taint_wf| |..|done];
    rewrite taint_of_set_taint; by case_decide.
Qed.

#[export] Instance artifact_store : MonotoneLabelStore artifact_restrict_label.
Proof. split; intros; rewrite artifact_restrict_label_eq; apply restrict_taint_store; done. Qed.

#[export] Instance workspace_store : MonotoneLabelStore workspace_restrict_label.
Proof. split; intros; rewrite workspace_restrict_label_eq; apply restrict_taint_store; done. Qed.

Section Clients.
Context contribute `{!MonotoneLabelStore contribute}.

Lemma contributions_wf t cs : table_wf t → table_wf (contributions contribute t cs).
Proof.
  unfold contributions. revert t.
  induction cs as [|[k l] cs IH]; intros t H; simpl; [done|].
  by apply IH, contribute_wf.
Qed.

Lemma contributions_taint t cs k :
  taint_of (contributions contribute t cs) k =
  restrict_all (taint_of t k) (omap (λ '(k', l), if decide (k' = k) then Some l else None) cs).
Proof.
  unfold contributions. revert t.
  induction cs as [|[k' l] cs IH]; intros t; simpl; [done|].
  rewrite IH. case_decide as Hk; simpl.
  - subst. by rewrite contribute_here, intersect_inter, restrict_inter.
  - by rewrite contribute_other.
Qed.

(** A client proof against the interface alone. *)
Lemma table_refines t cs cs' k s :
  table_wf t → cs ≡ₚ cs' →
  table_wf (contributions contribute t cs) ∧
  taint_of (contributions contribute t cs) k = taint_of (contributions contribute t cs') k ∧
  (allows (taint_of (contributions contribute t cs) k) s = true ↔
   allows (taint_of t k) s = true ∧ ∀ l, (k, l) ∈ cs → allows l s = true).
Proof.
  intros Hwf HP. rewrite !contributions_taint.
  split_and!; [by apply contributions_wf| |].
  - apply set_eq. intros x. rewrite !elem_of_restrict_all. by setoid_rewrite HP.
  - rewrite allows_spec, elem_of_restrict_all.
    setoid_rewrite allows_spec. setoid_rewrite list_elem_of_omap. f_equiv. split.
    + intros H l Hl. apply H. exists (k, l). split; [done|]. by rewrite decide_True.
    + intros H o ([k' l] & Hl & Ho). case_decide; [|done]. simplify_eq. by apply H.
Qed.
End Clients.

(** The session, artifact and workspace tables implement the label plane.
    After any interleaving of contributions every stored row is restrictive,
    and the effective label of a key is the initial one intersected with
    exactly the labels contributed to that key, whatever their order: no
    contribution can widen a label or touch another key. *)
Theorem label_tables_refine_label_plane (t : label_table)
    (cs cs' : list (string * EgressLabel)) (k : string) (s : Sink) :
  table_wf t → cs ≡ₚ cs' →
  Forall (λ contribute,
    table_wf (contributions contribute t cs) ∧
    taint_of (contributions contribute t cs) k = taint_of (contributions contribute t cs') k ∧
    (allows (taint_of (contributions contribute t cs) k) s = true ↔
     allows (taint_of t k) s = true ∧ ∀ l, (k, l) ∈ cs → allows l s = true))
  [restrict_taint; artifact_restrict_label; workspace_restrict_label].
Proof.
  intros Hwf HP.
  apply Forall_cons; split; [|apply Forall_cons; split; [|apply Forall_singleton]];
    (apply table_refines; [apply _|exact Hwf|exact HP]).
Qed.

Lemma label_tables_refine_label_plane_witness :
  allows (taint_of (contributions restrict_taint ∅
            [("s1", local_only); ("s2", no_remote_model); ("s1", no_remote_model)]) "s1")
         RemoteModel = false.
Proof.
  pose proof (label_tables_refine_label_plane ∅
    [("s1", local_only); ("s2", no_remote_model); ("s1", no_remote_model)]
    [("s1", local_only); ("s2", no_remote_model); ("s1", no_remote_model)]
    "s1" RemoteModel (map_Forall_empty _) (Permutation_refl _)) as H.
  apply Forall_inv in H as (_ & _ & H). apply not_true_iff_false. intros E.
  apply H in E as [_ E]. specialize (E local_only).
  assert (allows local_only RemoteModel = true) as F by (apply E; left).
  discriminate F.
Defined.

(** Clearing a workspace label is the only operation that widens it: it
    reports whether a label was stored and leaves every other key alone, while
    a replacing write ([set_taint]) sets exactly the given label. *)
Theorem explicit_label_writes (t : label_table) (k k' : string) (l : EgressLabel) :
  (workspace_delete_label t k).2 = bool_decide (is_Some (workspace_get_label t k)) ∧
  taint_of (workspace_delete_label t k).1 k = unrestricted ∧
  (k' ≠ k → taint_of (workspace_delete_label t k).1 k' = taint_of t k') ∧
  taint_of (set_taint t k l) k = l ∧
  (k' ≠ k → taint_of (set_taint t k l) k' = taint_of t k') ∧
  (get_taint (set_taint t k l) k = None ↔ l = unrestricted).
Proof.
  rewrite !taint_of_set_taint. split_and!.
  - done.
  - unfold taint_of. simpl. by rewrite lookup_delete_eq.
  - intros. unfold taint_of. simpl. by rewrite lookup_delete_ne.
  - by rewrite decide_True.
  - intros. by rewrite decide_False.
  - unfold get_taint, set_taint. rewrite <-is_unrestricted_spec.
    destruct (is_unrestricted l); by simplify_map_eq.
Qed.
