(* ===== verification/EgressLabeler.v ===== *)
(** * The tool-result labeler (autonoetic-gateway/src/runtime/egress_labeler.rs)

    Resolution of the egress label of a tool result: operator and session
    rules, default, bundle floor, exec path scan, argument taint, artifact and
    workspace labels, and the audit event of the decision.  JSON parsing and
    printing belong to [serde_json] and the digest to [sha2]: they are
    parameters ([from_str], [json_to_string], [sha256_hex]), as are the random
    identifiers and the clock ([Minted]). *)

From Stdlib Require Import Ascii String.
From S2P Require Import Prelude RustStr Json Egress EgressPath LabelStore.
From stdpp Require Import prelude gmap strings list sorting.

Open Scope string_scope.
Open Scope nat_scope.
Open Scope list_scope.

(** ** Rules and resolutions *)

Inductive RuleScope : Type := ScopeGlobal | ScopeSession.

#[export] Instance RuleScope_eq_dec : EqDecision RuleScope.
Proof. solve_decision. Defined.

Definition scope_as_str (s : RuleScope) : string :=
  match s with ScopeGlobal => "global" | ScopeSession => "session" end.

Record MatchedRule : Type := { mr_key : string; mr_scope : RuleScope }.

Record Resolution : Type := {
  res_label : EgressLabel;
  res_matched : list MatchedRule;
  res_paths : list string;
  res_mount_triggers_applied : list string;
  res_bundle_floor_applied : bool;
  res_taint_applied : bool;
  res_artifact_labels_applied : list string;
  res_workspace_labels_applied : list string;
}.

Definition resolution_kind (r : Resolution) : string :=
  let global := existsb (λ m, bool_decide (mr_scope m = ScopeGlobal)) (res_matched r) in
  let session := existsb (λ m, bool_decide (mr_scope m = ScopeSession)) (res_matched r) in
  match global, session with
  | true, true => "operator_and_session_rule"
  | true, false => "operator_rule"
  | false, true => "session_rule"
  | false, false => "default"
  end.

Definition rule_keys (r : Resolution) : list string := map mr_key (res_matched r).

Record ScopedRule : Type := { sr_rule : EgressRule; sr_scope : RuleScope }.

Record EgressLabeler : Type := {
  lab_rules : list ScopedRule;
  lab_default_label : EgressLabel;
  lab_global_default : EgressLabel;
  lab_session_default_applied : bool;
  lab_bundle_floor : option EgressLabel;
  lab_inert : bool;
}.

(** ** Construction *)

Definition from_config (config : EgressConfig) : EgressLabeler :=
  let default_label := to_label (cfg_default_label config) in
  let inert := match cfg_rules config with [] => true | _ => false end
               && is_unrestricted default_label in
  {| lab_rules := map (λ r, {| sr_rule := r; sr_scope := ScopeGlobal |}) (cfg_rules config);
     lab_default_label := default_label;
     lab_global_default := default_label;
     lab_session_default_applied := false;
     lab_bundle_floor := None;
     lab_inert := inert |}.

Definition with_manifest_floor (self : EgressLabeler) (floor : option EgressLabel)
    : EgressLabeler :=
  {| lab_rules := lab_rules self;
     lab_default_label := lab_default_label self;
     lab_global_default := lab_global_default self;
     lab_session_default_applied := lab_session_default_applied self;
     lab_bundle_floor := floor;
     lab_inert := match floor with Some _ => false | None => lab_inert self end |}.

(** The two successive blocks of [with_session_policy]. *)
Definition add_session_rules (self : EgressLabeler) (rules : list EgressRule)
    : EgressLabeler :=
  match rules with
  | [] => self
  | _ =>
      {| lab_rules := lab_rules self
           ++ map (λ r, {| sr_rule := r; sr_scope := ScopeSession |}) rules;
         lab_default_label := lab_default_label self;
         lab_global_default := lab_global_default self;
         lab_session_default_applied := lab_session_default_applied self;
         lab_bundle_floor := lab_bundle_floor self;
         lab_inert := false |}
  end.

Definition narrow_default (self : EgressLabeler) (d : option NamedEgressLabel)
    : EgressLabeler :=
  match d with
  | None => self
  | Some named =>
      let narrowed := restrict (lab_default_label self) (to_label named) in
      if bool_decide (narrowed = lab_default_label self) then self
      else
        {| lab_rules := lab_rules self;
           lab_default_label := narrowed;
           lab_global_default := lab_global_default self;
           lab_session_default_applied := true;
           lab_bundle_floor := lab_bundle_floor self;
           lab_inert := lab_inert self && is_unrestricted narrowed |}
  end.

Definition with_session_policy (self : EgressLabeler) (policy : EgressSessionPolicy)
    : EgressLabeler :=
  narrow_default (add_session_rules self (pol_rules policy)) (pol_default_label policy).

Definition with_session_rules (self : EgressLabeler) (rules : list EgressRule)
    : EgressLabeler :=
  with_session_policy self
    {| pol_rules := rules; pol_default_label := None; pol_provider_constraint := None |}.

Definition is_inert (self : EgressLabeler) : bool := lab_inert self.

(** ** Resolution *)

Definition rule_matches (rule : EgressRule) (source : string) (path : option string)
    : bool :=
  if negb (source_pattern_matches (rule_source rule) source) then false
  else match rule_path rule, path with
       | None, _ => true
       | Some pattern, Some actual => matches_simple_glob pattern actual
       | Some _, None => false
       end.

Definition rule_source_key (rule : EgressRule) : string :=
  match rule_path rule with
  | Some p => (rule_source rule ++ ":" ++ p)%string
  | None => rule_source rule
  end.

(** Push unless already present. *)
Definition push_new (l : list string) (p : string) : list string :=
  if existsb (String.eqb p) l then l else l ++ [p].

(** The accumulators of the rule loop: label, matched rules, paths. *)
Definition rule_step (source : string) (path : option string)
    (acc : EgressLabel * list MatchedRule * list string) (scoped : ScopedRule)
    : EgressLabel * list MatchedRule * list string :=
  let '(label, matched, paths) := acc in
  if rule_matches (sr_rule scoped) source path then
    (restrict label (rule_label (sr_rule scoped)),
     matched ++ [{| mr_key := rule_source_key (sr_rule scoped); mr_scope := sr_scope scoped |}],
     match rule_path (sr_rule scoped) with
     | Some pattern => push_new paths pattern
     | None => paths
     end)
  else acc.

(** Default and bundle floor, applied last. *)
Definition apply_floors (self : EgressLabeler) (label : EgressLabel) : EgressLabel * bool :=
  let label := restrict label (lab_default_label self) in
  match lab_bundle_floor self with
  | Some floor => (restrict label floor, true)
  | None => (label, false)
  end.

Definition resolve_label (self : EgressLabeler) (source : string) (path : option string)
    : Resolution :=
  let '(label, matched, paths) :=
    fold_left (rule_step source path) (lab_rules self) (unrestricted, [], []) in
  let '(label, floor_applied) := apply_floors self label in
  {| res_label := label;
     res_matched := matched;
     res_paths := paths;
     res_mount_triggers_applied := [];
     res_bundle_floor_applied := floor_applied;
     res_taint_applied := false;
     res_artifact_labels_applied := [];
     res_workspace_labels_applied := [] |}.

Definition is_exec_shaped (tool : string) : bool :=
  let k := normalize_source_key tool in
  (k =? "sandbox_exec")%string || (k =? "artifact_exec")%string.

(** [resolve_exec_label], given the tokens the advisory scan extracted from the
    command, its inline script and its dependency sources. *)
Definition resolve_exec_label (self : EgressLabeler) (tool : string)
    (tokens : list string) (mount_set : option (list string)) (home : option string)
    : Resolution :=
  let applicable :=
    List.filter (λ s, source_pattern_matches (rule_source (sr_rule s)) tool)
      (lab_rules self) in
  let patterns := omap (λ s, rule_path (sr_rule s)) applicable in
  match patterns with
  | [] => resolve_label self tool None
  | _ =>
      let mount_triggers :=
        match mount_set with
        | Some mounts => match_mounts_with_home mounts patterns home
        | None => []
        end in
      let fired := fold_left push_new mount_triggers (analyze_tokens tokens patterns) in
      match fired with
      | [] => resolve_label self tool None
      | _ =>
          let fires scoped :=
            match rule_path (sr_rule scoped) with
            | None => true
            | Some rule_path => existsb (String.eqb rule_path) fired
            end in
          let firing := List.filter fires applicable in
          let label := fold_left (λ l s, restrict l (rule_label (sr_rule s))) firing
                         unrestricted in
          let '(label, floor_applied) := apply_floors self label in
          {| res_label := label;
             res_matched := map (λ s, {| mr_key := rule_source_key (sr_rule s);
                                          mr_scope := sr_scope s |}) firing;
             res_paths := fired;
             res_mount_triggers_applied := mount_triggers;
             res_bundle_floor_applied := floor_applied;
             res_taint_applied := false;
             res_artifact_labels_applied := [];
             res_workspace_labels_applied := [] |}
      end
  end.

(** ** Taint of earlier results, artifacts and the workspace *)

Record PriorLabeledResult : Type := {
  prior_label : EgressLabel;
  prior_content_snippet : option string;
}.

Definition prior_referenced (arguments_json tcid : string) (p : PriorLabeledResult) : bool :=
  contains arguments_json tcid
  || match prior_content_snippet p with
     | Some snip => negb (str_is_empty snip) && contains arguments_json snip
     | None => false
     end.

(** The loop of [argument_taint_from_prior] over the entries in some order. *)
Definition argument_taint_loop (arguments_json : string)
    (entries : list (string * PriorLabeledResult)) : EgressLabel * list string :=
  fold_left (λ '(label, ids) '(tcid, p),
    if prior_referenced arguments_json tcid p
    then (restrict label (prior_label p), ids ++ [tcid])
    else (label, ids)) entries (unrestricted, []).

Definition argument_taint_from_prior (arguments_json : string)
    (prior_labels : gmap string PriorLabeledResult) : EgressLabel * list string :=
  let '(label, ids) := argument_taint_loop arguments_json (map_to_list prior_labels) in
  (label, sort_by String.compare ids).

(** The 8 hex digits after an [art_] at the front of [s], when the run stops
    there. *)
Definition artifact_id_at (s : string) : option string :=
  if starts_with s "art_" then
    let rest := skip 4 s in
    let hex := String.substring 0 8 rest in
    if (String.length hex =? 8)
       && negb (str_existsb (λ c, negb (is_ascii_hexdigit c)) hex)
       && match first_char (skip 8 rest) with
          | Some c => negb (is_ascii_alphanumeric c)
          | None => true
          end
    then Some ("art_" ++ hex)%string else None
  else None.

(** Every position of the arguments is tried: [art_] cannot overlap itself, so
    these are the positions [match_indices] reports. *)
Fixpoint artifact_ids_from (s : string) (out : list string) : list string :=
  let out' := match artifact_id_at s with Some id => push_new out id | None => out end in
  match s with "" => out' | String _ r => artifact_ids_from r out' end.

Definition artifact_ids_in_arguments (arguments_json : string) : list string :=
  sort_by String.compare (artifact_ids_from arguments_json []).

(** A row of the [causal_events] table. *)
Record CausalEventRecord : Type := {
  ev_event_id : string;
  ev_agent_id : string;
  ev_session_id : string;
  ev_turn_id : option string;
  ev_event_seq : Z;
  ev_timestamp : string;
  ev_category : string;
  ev_action : string;
  ev_status : string;
  ev_enforced_rules : list string;
  ev_target : option string;
  ev_payload : option string;
  ev_payload_ref : option string;
  ev_evidence_ref : option string;
  ev_reason : option string;
}.

Definition RULE_ID_EVENT_ATTRIBUTION : string := "I-6".

Definition default_enforced_rules : list string := [RULE_ID_EVENT_ATTRIBUTION].

(** The store as the labeler sees it: a read of an artifact label may fail, and
    so may the read and the write of a workspace label and the insertion of a
    causal event. *)
Record LabelDb : Type := {
  db_artifact_read : string → result (option EgressLabel) unit;
  db_workspaces : label_table;
  db_workspace_read_fails : bool;
  db_workspace_write_fails : bool;
  db_event_write_fails : bool;
  db_events : list CausalEventRecord;
}.

(** [restrict_workspace_egress_label] and [create_causal_event], whose errors
    the labeler only logs. *)
Definition db_restrict_workspace (db : LabelDb) (agent_id : string) (l : EgressLabel) : LabelDb :=
  if db_workspace_write_fails db then db
  else {| db_artifact_read := db_artifact_read db;
          db_workspaces := (workspace_restrict_label (db_workspaces db) agent_id l).1;
          db_workspace_read_fails := db_workspace_read_fails db;
          db_workspace_write_fails := db_workspace_write_fails db;
          db_event_write_fails := db_event_write_fails db;
          db_events := db_events db |}.

(** [event_id] is the primary key of [causal_events]. *)
Definition event_id_taken (db : LabelDb) (id : string) : bool :=
  existsb (λ e, (ev_event_id e =? id)%string) (db_events db).

Definition create_causal_event (db : LabelDb) (event : CausalEventRecord) : LabelDb :=
  if db_event_write_fails db || event_id_taken db (ev_event_id event) then db
  else {| db_artifact_read := db_artifact_read db;
          db_workspaces := db_workspaces db;
          db_workspace_read_fails := db_workspace_read_fails db;
          db_workspace_write_fails := db_workspace_write_fails db;
          db_event_write_fails := db_event_write_fails db;
          db_events := db_events db ++ [event] |}.

Definition artifact_taint_from_store (arguments_json : string) (db : LabelDb)
    : EgressLabel * list string :=
  fold_left (λ '(label, applied) id,
    match db_artifact_read db id with
    | Ok (Some stored) => (restrict label stored, applied ++ [id])
    | Ok None => (label, applied)
    | Err _ => (restrict label local_only, applied ++ [id])
    end) (artifact_ids_in_arguments arguments_json) (unrestricted, []).

Definition workspace_taint_from_store (agent_id : string) (db : LabelDb)
    : EgressLabel * list string * bool :=
  if db_workspace_read_fails db then (local_only, [agent_id], true)
  else match workspace_get_label (db_workspaces db) agent_id with
       | Some stored => (stored, [agent_id], false)
       | None => (unrestricted, [], false)
       end.

(** ** Labelling a tool result *)

Record LabelRequest : Type := {
  req_tool : string;
  req_arguments_json : string;
  req_tool_call_id : string;
  req_artifact_id : option string;
}.

Record LabelOutcome : Type := {
  out_envelope_id : string;
  out_label : EgressLabel;
  out_provenance : Provenance;
}.

Definition is_restricted (o : LabelOutcome) : bool := negb (is_unrestricted (out_label o)).

(** The caller of the labeler. *)
Record CallSite : Type := {
  site_session_id : string;
  site_agent_id : string;
  site_turn_id : option string;
}.

(** What a call draws from the outside: eight hex digits for the envelope id,
    a UUID for the event, and the clock. *)
Record Minted : Type := {
  minted_hex : string;
  minted_uuid : string;
  minted_now : string;
}.

Definition sink_str (s : Sink) : string :=
  match s with
  | LocalModel => "local_model"
  | RemoteModel => "remote_model"
  | LocalAgent => "local_agent"
  | FederatedAgent => "federated_agent"
  | Network => "network"
  | MemoryPersist => "memory_persist"
  | UserReply => "user_reply"
  end.

(** The serde form of a label: its sinks, in declaration order. *)
Definition label_json (l : EgressLabel) : Json := json_strings (map sink_str (label_iter l)).

(** The three [if !..is_empty()] blocks of [label_tool_result_with_mounts]. *)
Definition with_argument_taint (r : Resolution) (taint : EgressLabel) (parents : list string)
    : Resolution :=
  match parents with
  | [] => r
  | _ => {| res_label := restrict (res_label r) taint;
            res_matched := res_matched r; res_paths := res_paths r;
            res_mount_triggers_applied := res_mount_triggers_applied r;
            res_bundle_floor_applied := res_bundle_floor_applied r;
            res_taint_applied := true;
            res_artifact_labels_applied := res_artifact_labels_applied r;
            res_workspace_labels_applied := res_workspace_labels_applied r |}
  end.

Definition with_artifact_labels (r : Resolution) (label : EgressLabel) (applied : list string)
    : Resolution :=
  match applied with
  | [] => r
  | _ => {| res_label := restrict (res_label r) label;
            res_matched := res_matched r; res_paths := res_paths r;
            res_mount_triggers_applied := res_mount_triggers_applied r;
            res_bundle_floor_applied := res_bundle_floor_applied r;
            res_taint_applied := res_taint_applied r;
            res_artifact_labels_applied := applied;
            res_workspace_labels_applied := res_workspace_labels_applied r |}
  end.

Definition with_workspace_labels (r : Resolution) (label : EgressLabel) (applied : list string)
    : Resolution :=
  match applied with
  | [] => r
  | _ => {| res_label := restrict (res_label r) label;
            res_matched := res_matched r; res_paths := res_paths r;
            res_mount_triggers_applied := res_mount_triggers_applied r;
            res_bundle_floor_applied := res_bundle_floor_applied r;
            res_taint_applied := res_taint_applied r;
            res_artifact_labels_applied := res_artifact_labels_applied r;
            res_workspace_labels_applied := applied |}
  end.

Section LabelToolResult.
(** [serde_json::from_str] and [Value::to_string], the hex SHA-256 digest, and
    the tokens of the advisory scan of an exec. *)
Context (from_str : string → option Json) (json_to_string : Json → string).
Context (sha256_hex : string → string).
Context (exec_tokens : string → list string).
Context (home : option string).

Definition hash_and_truncate (input : string) (hex_len : nat) : string :=
  let digest_hex := sha256_hex input in
  String.substring 0 (hex_len `min` String.length digest_hex) digest_hex.

Definition args_digest_of (arguments_json : string) : string :=
  hash_and_truncate arguments_json 12.

Definition extract_structured_path (arguments_json : string) : option string :=
  parsed ← from_str arguments_json;
  head (omap (λ key,
    s ← json_get parsed key ≫= json_as_str;
    if str_is_empty s then None else Some s) ["path"; "file"; "file_path"; "target"]).

Definition base_resolution (self : EgressLabeler) (req : LabelRequest)
    (mount_set : option (list string)) : Resolution :=
  if is_exec_shaped (req_tool req)
  then resolve_exec_label self (req_tool req) (exec_tokens (req_arguments_json req))
         mount_set home
  else resolve_label self (req_tool req) (extract_structured_path (req_arguments_json req)).

(** The resolution with every taint applied, the parent envelopes, and whether
    the workspace read failed. *)
Definition call_resolution (self : EgressLabeler) (req : LabelRequest) (agent_id : string)
    (store : option LabelDb) (prior_labels : gmap string PriorLabeledResult)
    (mount_set : option (list string)) : Resolution * list string * bool :=
  let '(taint_label, parent_envelope_ids) :=
    argument_taint_from_prior (req_arguments_json req) prior_labels in
  let resolution :=
    with_argument_taint (base_resolution self req mount_set) taint_label parent_envelope_ids in
  match store with
  | None => (resolution, parent_envelope_ids, false)
  | Some db =>
      let '(artifact_label, applied) :=
        artifact_taint_from_store (req_arguments_json req) db in
      let resolution := with_artifact_labels resolution artifact_label applied in
      if is_exec_shaped (req_tool req) then
        let '(workspace_label, applied, read_failed) :=
          workspace_taint_from_store agent_id db in
        (with_workspace_labels resolution workspace_label applied, parent_envelope_ids,
         read_failed)
      else (resolution, parent_envelope_ids, false)
  end.

Definition envelope_labeled_payload (self : EgressLabeler) (envelope_id : string)
    (req : LabelRequest) (resolution : Resolution) (provenance : Provenance) : Json :=
  json_object
    [("envelope_id", JString envelope_id);
     ("tool_call_id", JString (req_tool_call_id req));
     ("tool_name", JString (req_tool req));
     ("label", label_json (res_label resolution));
     ("matched_rules", json_strings (prov_matched_rules provenance));
     ("matched_rule_scopes", JArray (map (λ m, json_object
        [("rule", JString (mr_key m)); ("scope", JString (scope_as_str (mr_scope m)))])
        (res_matched resolution)));
     ("matched_paths", json_strings (res_paths resolution));
     ("mount_triggers_applied", json_strings (res_mount_triggers_applied resolution));
     ("args_digest", json_opt_str (prov_args_digest provenance));
     ("default_label", label_json (lab_default_label self));
     ("global_default_label", label_json (lab_global_default self));
     ("session_default_applied", JBool (lab_session_default_applied self));
     ("bundle_floor_applied", JBool (res_bundle_floor_applied resolution));
     ("parent_envelope_ids", json_strings (prov_parent_envelope_ids provenance));
     ("taint_applied", JBool (res_taint_applied resolution));
     ("artifact_labels_applied", json_strings (res_artifact_labels_applied resolution));
     ("workspace_labels_applied", json_strings (res_workspace_labels_applied resolution));
     ("artifact_id", json_opt_str (prov_artifact_id provenance));
     ("resolution", JString (resolution_kind resolution))].

Definition emit_envelope_labeled_event (self : EgressLabeler) (db : LabelDb)
    (envelope_id : string) (req : LabelRequest) (resolution : Resolution)
    (provenance : Provenance) (site : CallSite) (minted : Minted) : LabelDb :=
  create_causal_event db
    {| ev_event_id := ("egress-labeled-" ++ minted_uuid minted)%string;
       ev_agent_id := site_agent_id site;
       ev_session_id := site_session_id site;
       ev_turn_id := site_turn_id site;
       ev_event_seq := 0;
       ev_timestamp := minted_now minted;
       ev_category := "egress";
       ev_action := "egress.envelope_labeled";
       ev_status := "active";
       ev_enforced_rules := default_enforced_rules ++ ["P-15.1"];
       ev_target := Some envelope_id;
       ev_payload := Some (json_to_string
         (envelope_labeled_payload self envelope_id req resolution provenance));
       ev_payload_ref := None;
       ev_evidence_ref := None;
       ev_reason := Some "egress_label_resolved" |}.

(** The outcome, and the store after the call. *)
Definition label_tool_result_with_mounts (self : EgressLabeler) (req : LabelRequest)
    (site : CallSite) (minted : Minted) (store : option LabelDb)
    (prior_labels : gmap string PriorLabeledResult)
    (mount_set : option (list string)) : option LabelOutcome * option LabelDb :=
  let exec_shaped := is_exec_shaped (req_tool req) in
  if lab_inert self && negb exec_shaped then (None, store)
  else
    let '(resolution, parent_envelope_ids, workspace_read_failed) :=
      call_resolution self req (site_agent_id site) store prior_labels mount_set in
    let store :=
      if exec_shaped && negb workspace_read_failed && negb (is_unrestricted (res_label resolution))
      then (λ db, db_restrict_workspace db (site_agent_id site) (res_label resolution)) <$> store
      else store in
    if is_unrestricted (res_label resolution) then (None, store)
    else
      let envelope_id := ("env_" ++ minted_hex minted)%string in
      let provenance :=
        {| prov_tool := Some (req_tool req);
           prov_args_digest := Some (args_digest_of (req_arguments_json req));
           prov_matched_rules := rule_keys resolution;
           prov_parent_envelope_ids := parent_envelope_ids;
           prov_artifact_id := req_artifact_id req |} in
      (Some {| out_envelope_id := envelope_id; out_label := res_label resolution;
               out_provenance := provenance |},
       (λ db, emit_envelope_labeled_event self db envelope_id req resolution provenance
                site minted) <$> store).

Definition label_tool_result (self : EgressLabeler) (req : LabelRequest)
    (site : CallSite) (minted : Minted) (store : option LabelDb)
    (prior_labels : gmap string PriorLabeledResult) : option LabelOutcome * option LabelDb :=
  label_tool_result_with_mounts self req site minted store prior_labels None.
End LabelToolResult.

(** ** Resolution lemmas *)

(** The sinks a set of firing rules leaves allowed. *)
Definition rules_allow (rules : list ScopedRule) (fires : ScopedRule → bool) (s : Sink) : Prop :=
  ∀ r, r ∈ rules → fires r = true → s ∈ rule_label (sr_rule r).

Definition floor_allows (self : EgressLabeler) (s : Sink) : Prop :=
  s ∈ lab_default_label self ∧ ∀ f, lab_bundle_floor self = Some f → s ∈ f.

Lemma rules_allow_cons r rules fires s :
  rules_allow (r :: rules) fires s ↔
  (fires r = true → s ∈ rule_label (sr_rule r)) ∧ rules_allow rules fires s.
Proof.
  unfold rules_allow. setoid_rewrite elem_of_cons. split.
  - intros HA. split; [apply HA; by left|]. intros r' Hr'. apply HA. by right.
  - intros [Hr HA] r' [->|Hr']; [done|by apply HA].
Qed.

Lemma rules_allow_nil fires s : rules_allow [] fires s.
Proof. intros r Hr. by apply not_elem_of_nil in Hr. Qed.

Lemma rule_fold_label source path rules label matched paths s :
  s ∈ (fold_left (rule_step source path) rules (label, matched, paths)).1.1 ↔
  s ∈ label ∧ rules_allow rules (λ r, rule_matches (sr_rule r) source path) s.
Proof.
  revert label matched paths. induction rules as [|r rules IH]; intros; simpl.
  - pose proof (rules_allow_nil (λ r, rule_matches (sr_rule r) source path) s). tauto.
  - rewrite rules_allow_cons.
    destruct (rule_matches (sr_rule r) source path); rewrite IH, ?restrict_inter; set_solver.
Qed.

Lemma firing_fold_label (fires : ScopedRule → bool) rules label s :
  s ∈ fold_left (λ l r, restrict l (rule_label (sr_rule r))) (List.filter fires rules) label ↔
  s ∈ label ∧ rules_allow rules fires s.
Proof.
  revert label. induction rules as [|r rules IH]; intros label; simpl.
  - pose proof (rules_allow_nil fires s). tauto.
  - rewrite rules_allow_cons.
    destruct (fires r) eqn:E; simpl; rewrite IH, ?restrict_inter; set_solver.
Qed.

Lemma apply_floors_label self label s :
  s ∈ (apply_floors self label).1 ↔ s ∈ label ∧ floor_allows self s.
Proof.
  unfold apply_floors, floor_allows.
  destruct (lab_bundle_floor self); simpl; rewrite !restrict_inter; set_solver.
Qed.

Lemma resolve_label_elem self source path s :
  s ∈ res_label (resolve_label self source path) ↔
  rules_allow (lab_rules self) (λ r, rule_matches (sr_rule r) source path) s ∧
  floor_allows self s.
Proof.
  unfold resolve_label.
  destruct (fold_left _ _ _) as [[label matched] paths] eqn:E.
  destruct (apply_floors self label) as [label' b] eqn:F; simpl.
  replace label' with (apply_floors self label).1 by (by rewrite F).
  rewrite apply_floors_label.
  replace label with (fold_left (rule_step source path) (lab_rules self)
                        (unrestricted, [], [])).1.1 by (by rewrite E).
  rewrite rule_fold_label. pose proof (elem_of_unrestricted s). tauto.
Qed.

(** A sink is allowed by the resolved label exactly when every matching
    rule, the default and the declared bundle floor (if any) allow it: there is
    no first-match rule and no input can widen what another restricted. *)
Theorem resolve_label_spec self source path s :
  allows (res_label (resolve_label self source path)) s = true ↔
  (∀ r, r ∈ lab_rules self → rule_matches (sr_rule r) source path = true →
        allows (rule_label (sr_rule r)) s = true) ∧
  allows (lab_default_label self) s = true ∧
  (∀ f, lab_bundle_floor self = Some f → allows f s = true).
Proof.
  setoid_rewrite allows_spec. rewrite resolve_label_elem.
  unfold rules_allow, floor_allows. tauto.
Qed.

Lemma elem_of_fold_push_new l acc x :
  x ∈ fold_left push_new l acc ↔ x ∈ acc ∨ x ∈ l.
Proof.
  revert acc. induction l as [|y l IH]; intros acc; simpl; [set_solver|].
  rewrite IH. unfold push_new. destruct (existsb (String.eqb y) acc) eqn:E.
  - apply existsb_true in E as (z & Hz & ->%String.eqb_eq). set_solver.
  - set_solver.
Qed.

Lemma elem_of_match_mounts mounts patterns home p :
  p ∈ match_mounts_with_home mounts patterns home → p ∈ patterns.
Proof.
  unfold match_mounts_with_home. rewrite elem_of_dedup, list_elem_of_In, filter_In.
  rewrite list_elem_of_In. tauto.
Qed.

(** Which rules fire for an exec: the source matches and the rule is
    source-only, or its path fired by scan or by mount. *)
Definition exec_fired (self : EgressLabeler) (tool : string) (tokens : list string)
    (mount_set : option (list string)) (home : option string) : list string :=
  let patterns := omap (λ s, rule_path (sr_rule s))
    (List.filter (λ s, source_pattern_matches (rule_source (sr_rule s)) tool)
       (lab_rules self)) in
  fold_left push_new
    (match mount_set with Some m => match_mounts_with_home m patterns home | None => [] end)
    (analyze_tokens tokens patterns).

Definition exec_rule_fires (fired : list string) (tool : string) (r : ScopedRule) : bool :=
  source_pattern_matches (rule_source (sr_rule r)) tool &&
  match rule_path (sr_rule r) with
  | None => true
  | Some p => existsb (String.eqb p) fired
  end.

Lemma rules_allow_ext rules f g s :
  (∀ r, r ∈ rules → f r = g r) → rules_allow rules f s ↔ rules_allow rules g s.
Proof.
  intros H. unfold rules_allow.
  split; intros HA r Hr; [rewrite <-H by done|rewrite H by done]; by apply HA.
Qed.

Lemma rules_allow_filter rules f g s :
  rules_allow (List.filter g rules) f s ↔ rules_allow rules (λ r, g r && f r) s.
Proof.
  unfold rules_allow. setoid_rewrite list_elem_of_In. setoid_rewrite filter_In.
  setoid_rewrite andb_true_iff. naive_solver.
Qed.

(** With nothing fired the exec falls back to the source-only rules, which is
    the same as firing with an empty list. *)
Lemma resolve_label_none_fires self tool s :
  rules_allow (lab_rules self) (λ r, rule_matches (sr_rule r) tool None) s ↔
  rules_allow (lab_rules self) (exec_rule_fires [] tool) s.
Proof.
  apply rules_allow_ext. intros r _. unfold rule_matches, exec_rule_fires.
  destruct (source_pattern_matches _ tool), (rule_path _); done.
Qed.

Lemma resolve_exec_label_elem self tool tokens mount_set home s :
  s ∈ res_label (resolve_exec_label self tool tokens mount_set home) ↔
  rules_allow (lab_rules self)
    (exec_rule_fires (exec_fired self tool tokens mount_set home) tool) s ∧
  floor_allows self s.
Proof.
  unfold resolve_exec_label, exec_fired.
  set (applicable := List.filter _ (lab_rules self)).
  destruct (omap _ applicable) as [|pat pats] eqn:Ep.
  - rewrite resolve_label_elem, resolve_label_none_fires.
    replace (fold_left _ _ _) with (@nil string); [done|]. symmetry. simpl.
    destruct mount_set; simpl; done.
  - set (fired := fold_left push_new _ _). destruct fired as [|f0 fs] eqn:Ef.
    + by rewrite resolve_label_elem, resolve_label_none_fires.
    + rewrite <-Ef. clear Ef. simpl.
      destruct (apply_floors self _) as [label b] eqn:F; simpl.
      replace label with (apply_floors self
        (fold_left (λ l r, restrict l (rule_label (sr_rule r)))
          (List.filter (λ r, match rule_path (sr_rule r) with
             | None => true | Some p => existsb (String.eqb p) fired end) applicable)
          unrestricted)).1 by (by rewrite F).
      rewrite apply_floors_label, firing_fold_label. unfold applicable.
      rewrite rules_allow_filter. unfold exec_rule_fires.
      pose proof (elem_of_unrestricted s). tauto.
Qed.

Definition exec_patterns (rules : list ScopedRule) (tool : string) : list string :=
  omap (λ s, rule_path (sr_rule s))
    (List.filter (λ s, source_pattern_matches (rule_source (sr_rule s)) tool) rules).

Lemma elem_of_exec_patterns rules tool p :
  p ∈ exec_patterns rules tool ↔
  ∃ r, r ∈ rules ∧ source_pattern_matches (rule_source (sr_rule r)) tool = true ∧
       rule_path (sr_rule r) = Some p.
Proof.
  unfold exec_patterns. rewrite list_elem_of_omap. setoid_rewrite list_elem_of_In.
  setoid_rewrite filter_In. naive_solver.
Qed.

Lemma match_mounts_mono mounts pats pats' home p :
  (∀ x, x ∈ pats → x ∈ pats') →
  p ∈ match_mounts_with_home mounts pats home → p ∈ match_mounts_with_home mounts pats' home.
Proof.
  intros H. unfold match_mounts_with_home.
  rewrite !elem_of_dedup, !list_elem_of_In, !filter_In, <-!list_elem_of_In. naive_solver.
Qed.

Lemma exec_fired_mono self self' tool tokens mount_set home p :
  (∀ r, r ∈ lab_rules self → r ∈ lab_rules self') →
  p ∈ exec_fired self tool tokens mount_set home →
  p ∈ exec_fired self' tool tokens mount_set home.
Proof.
  intros H. unfold exec_fired.
  fold (exec_patterns (lab_rules self) tool). fold (exec_patterns (lab_rules self') tool).
  assert (∀ x, x ∈ exec_patterns (lab_rules self) tool → x ∈ exec_patterns (lab_rules self') tool)
    as Hp by (intros x; rewrite !elem_of_exec_patterns; naive_solver).
  rewrite !elem_of_fold_push_new, !elem_of_analyze_tokens.
  intros [Hl|Hr]; [left; naive_solver|right]. destruct mount_set; [|done].
  eapply match_mounts_mono; [exact Hp|exact Hr].
Qed.

Lemma exec_rule_fires_mono fired fired' tool r :
  (∀ p, p ∈ fired → p ∈ fired') →
  exec_rule_fires fired tool r = true → exec_rule_fires fired' tool r = true.
Proof.
  unfold exec_rule_fires. intros H [Hs Hp]%andb_true_iff.
  apply andb_true_iff. split; [done|]. destruct (rule_path (sr_rule r)); [|done].
  apply existsb_true in Hp as (x & Hx & Ex). apply existsb_true. eauto.
Qed.

(** A labeler with more rules and lower floors resolves lower labels. *)
Definition tighter (self' self : EgressLabeler) : Prop :=
  (∀ r, r ∈ lab_rules self → r ∈ lab_rules self') ∧
  (∀ s, floor_allows self' s → floor_allows self s).

Lemma tighter_resolve self' self source path :
  tighter self' self →
  res_label (resolve_label self' source path) ⊆ res_label (resolve_label self source path).
Proof.
  intros [Hr Hf] s. rewrite !resolve_label_elem. intros [HA HB].
  split; [|by apply Hf]. intros r Hin. apply HA. by apply Hr.
Qed.

Lemma tighter_resolve_exec self' self tool tokens mount_set home :
  tighter self' self →
  res_label (resolve_exec_label self' tool tokens mount_set home) ⊆
  res_label (resolve_exec_label self tool tokens mount_set home).
Proof.
  intros [Hr Hf] s. rewrite !resolve_exec_label_elem. intros [HA HB].
  split; [|by apply Hf]. intros r Hin Hfire. apply HA; [by apply Hr|].
  eapply exec_rule_fires_mono; [|exact Hfire]. intros p. by apply exec_fired_mono.
Qed.

Lemma add_session_rules_tighter self rules : tighter (add_session_rules self rules) self.
Proof.
  unfold tighter, floor_allows. destruct rules; simpl; [done|].
  split; [|done]. intros. apply elem_of_app. by left.
Qed.

Lemma narrow_default_tighter self d : tighter (narrow_default self d) self.
Proof.
  unfold tighter, floor_allows, narrow_default. destruct d; [|done].
  case_bool_decide; simpl; [done|]. split; [done|]. rewrite restrict_inter. set_solver.
Qed.

Lemma with_session_policy_tighter self policy : tighter (with_session_policy self policy) self.
Proof.
  destruct (narrow_default_tighter (add_session_rules self (pol_rules policy))
              (pol_default_label policy)) as [H1 H2].
  destruct (add_session_rules_tighter self (pol_rules policy)) as [H3 H4].
  split; eauto.
Qed.

Lemma with_manifest_floor_tighter self floor :
  lab_bundle_floor self = None → tighter (with_manifest_floor self floor) self.
Proof. unfold tighter, floor_allows. intros H. simpl. rewrite H. naive_solver. Qed.

(** Resolution does not depend on the order of the rules, for structured
    and for exec-shaped calls. *)
Theorem resolve_order_independent self self' source path tool tokens mount_set home :
  lab_rules self ≡ₚ lab_rules self' →
  lab_default_label self = lab_default_label self' →
  lab_bundle_floor self = lab_bundle_floor self' →
  res_label (resolve_label self source path) = res_label (resolve_label self' source path) ∧
  res_label (resolve_exec_label self tool tokens mount_set home) =
  res_label (resolve_exec_label self' tool tokens mount_set home).
Proof.
  intros HP Hd Hb.
  assert (tighter self' self ∧ tighter self self') as [H1 H2].
  { unfold tighter, floor_allows. rewrite Hd, Hb.
    split; (split; [intros r; by rewrite HP|done]). }
  split; apply (anti_symm (⊆)); auto using tighter_resolve, tighter_resolve_exec.
Qed.

(** A session policy and a bundle floor can only restrict: whatever the
    session adds, the resolved label of every structured or exec-shaped call is
    contained in the one without it. *)
Theorem session_and_floor_only_restrict self policy floor source path tool tokens mount_set home :
  lab_bundle_floor self = None →
  let self' := with_session_policy (with_manifest_floor self floor) policy in
  res_label (resolve_label self' source path) ⊆ res_label (resolve_label self source path) ∧
  res_label (resolve_exec_label self' tool tokens mount_set home) ⊆
  res_label (resolve_exec_label self tool tokens mount_set home).
Proof.
  intros Hb self'.
  assert (tighter self' self) as HT.
  { destruct (with_session_policy_tighter (with_manifest_floor self floor) policy).
    destruct (with_manifest_floor_tighter self floor Hb). split; eauto. }
  split; [by apply tighter_resolve|by apply tighter_resolve_exec].
Qed.

(** ** The inert fast path *)

(** Labelers as the gateway builds them. *)
Inductive built : EgressLabeler → Prop :=
| built_config cfg : built (from_config cfg)
| built_floor self floor : built self → built (with_manifest_floor self floor)
| built_policy self policy : built self → built (with_session_policy self policy).

Definition inert_ok (self : EgressLabeler) : Prop :=
  lab_inert self = true →
  lab_rules self = [] ∧ lab_default_label self = unrestricted ∧ lab_bundle_floor self = None.

Lemma add_session_rules_inert self rules : inert_ok self → inert_ok (add_session_rules self rules).
Proof. unfold inert_ok. by destruct rules. Qed.

Lemma narrow_default_inert self d : inert_ok self → inert_ok (narrow_default self d).
Proof.
  unfold inert_ok, narrow_default. intros H. destruct d; [|done].
  case_bool_decide; simpl; [done|].
  intros [Hi Hu]%andb_true_iff. destruct (H Hi) as (? & ? & ?).
  by apply is_unrestricted_spec in Hu.
Qed.

Lemma built_inert_ok self : built self → inert_ok self.
Proof.
  induction 1 as [cfg|self floor _ IH|self policy _ IH].
  - unfold inert_ok, from_config; simpl. intros [Hr Hu]%andb_true_iff.
    apply is_unrestricted_spec in Hu. by destruct (cfg_rules cfg).
  - unfold inert_ok in *; simpl. destruct floor; [done|]. intros Hi.
    destruct (IH Hi) as (? & ? & _). done.
  - by apply narrow_default_inert, add_session_rules_inert.
Qed.

Lemma inert_resolves_unrestricted self source path :
  inert_ok self → lab_inert self = true → res_label (resolve_label self source path) = unrestricted.
Proof.
  intros H Hi. destruct (H Hi) as (Hr & Hd & Hb). apply set_eq. intros s.
  rewrite resolve_label_elem. unfold floor_allows. rewrite Hr, Hd, Hb.
  pose proof (rules_allow_nil (λ r, rule_matches (sr_rule r) source path) s).
  pose proof (elem_of_unrestricted s). naive_solver.
Qed.

(** Skipping an inert labeler loses no rule: a labeler built by any
    sequence of the builders that reports itself inert resolves every call to
    [unrestricted] and matches no rule. *)
Theorem inert_labeler_never_restricts self source path tool tokens mount_set home :
  built self → is_inert self = true →
  res_label (resolve_label self source path) = unrestricted ∧
  res_matched (resolve_label self source path) = [] ∧
  res_label (resolve_exec_label self tool tokens mount_set home) = unrestricted.
Proof.
  intros Hb%built_inert_ok Hi. destruct (Hb Hi) as (Hr & Hd & Hf).
  split_and!; [by apply inert_resolves_unrestricted| |].
  - unfold resolve_label, apply_floors. by rewrite Hr, Hf.
  - unfold resolve_exec_label. rewrite Hr. simpl. by apply inert_resolves_unrestricted.
Qed.

(** ** Labelling a tool result *)

(** Both taint loops are one fold: an element that contributes a label
    restricts the accumulator and records its key. *)
Definition taint_step {A} (g : A → option EgressLabel) (key : A → string)
    (acc : EgressLabel * list string) (x : A) : EgressLabel * list string :=
  match g x with
  | Some l => (restrict acc.1 l, acc.2 ++ [key x])
  | None => acc
  end.

Lemma taint_fold_keys {A} (g : A → option EgressLabel) key (l : list A) acc :
  (fold_left (taint_step g key) l acc).2 =
  acc.2 ++ map key (List.filter (λ x, bool_decide (is_Some (g x))) l).
Proof.
  revert acc. induction l as [|x l IH]; intros acc; simpl; [by rewrite app_nil_r|].
  rewrite IH. unfold taint_step. destruct (g x); simpl; [|done]. by rewrite <-app_assoc.
Qed.

Lemma taint_fold_label {A} (g : A → option EgressLabel) key (l : list A) acc s :
  s ∈ (fold_left (taint_step g key) l acc).1 ↔
  s ∈ acc.1 ∧ ∀ x lx, x ∈ l → g x = Some lx → s ∈ lx.
Proof.
  revert acc. induction l as [|x l IH]; intros acc; simpl.
  { split; [|naive_solver]. intros ?; split; [done|]. by intros ?? []%not_elem_of_nil. }
  rewrite IH. setoid_rewrite elem_of_cons. unfold taint_step.
  destruct (g x) as [lx|] eqn:E; simpl.
  - rewrite restrict_inter, elem_of_intersection. split.
    + intros [[H1 H2] H3]. split; [done|]. intros y ly [->|Hy]; [congruence|eauto].
    + intros [H1 H2]. split; [split; eauto|eauto].
  - split.
    + intros [H1 H2]. split; [done|]. intros y ly [->|Hy]; [congruence|eauto].
    + intros [H1 H2]. split; [done|eauto].
Qed.

Lemma taint_fold_none {A} (g : A → option EgressLabel) key (l : list A) :
  (fold_left (taint_step g key) l (unrestricted, [])).2 = [] →
  (fold_left (taint_step g key) l (unrestricted, [])).1 = unrestricted.
Proof.
  rewrite taint_fold_keys. simpl. intros Hn%map_eq_nil. apply set_eq. intros s.
  rewrite taint_fold_label. pose proof (elem_of_unrestricted s) as Hs.
  split; [done|]. intros _. split; [done|]. intros x lx Hx Hg. exfalso.
  assert (x ∈ List.filter (λ x, bool_decide (is_Some (g x))) l) as Hin.
  { apply list_elem_of_In, filter_In. split; [by apply list_elem_of_In|].
    apply bool_decide_eq_true. by exists lx. }
  rewrite Hn in Hin. by apply not_elem_of_nil in Hin.
Qed.

Lemma argument_taint_loop_eq args entries :
  argument_taint_loop args entries =
  fold_left (taint_step (λ e : string * PriorLabeledResult,
    if prior_referenced args e.1 e.2 then Some (prior_label e.2) else None) fst)
    entries (unrestricted, []).
Proof.
  apply fold_left_ext. intros [label ids] [tcid p]. unfold taint_step; simpl.
  by destruct (prior_referenced args tcid p).
Qed.

Lemma argument_taint_label args prior s :
  s ∈ (argument_taint_from_prior args prior).1 ↔
  ∀ tcid p, prior !! tcid = Some p → prior_referenced args tcid p = true → s ∈ prior_label p.
Proof.
  unfold argument_taint_from_prior. rewrite argument_taint_loop_eq.
  destruct (fold_left _ _ _) as [label ids] eqn:E.
  replace ((label, sort_by String.compare ids).1) with (label, ids).1 by done.
  rewrite <-E, taint_fold_label. simpl. pose proof (elem_of_unrestricted s) as Hs. split.
  - intros [_ H] tcid p Hp Hr. apply (H (tcid, p)); [by apply elem_of_map_to_list|].
    simpl. by rewrite Hr.
  - intros H. split; [done|]. intros [tcid p] lx Hin. simpl. case_match; [|done].
    intros [= <-]. eapply H; [by apply elem_of_map_to_list|done].
Qed.

Lemma argument_taint_no_parent args prior :
  (argument_taint_from_prior args prior).2 = [] →
  (argument_taint_from_prior args prior).1 = unrestricted.
Proof.
  unfold argument_taint_from_prior. rewrite argument_taint_loop_eq.
  intros Hn. pose proof (taint_fold_none (λ e : string * PriorLabeledResult,
    if prior_referenced args e.1 e.2 then Some (prior_label e.2) else None) fst
    (map_to_list prior)) as H.
  destruct (fold_left _ _ _) as [label ids] eqn:E; simpl in *. apply H.
  apply Permutation_nil. rewrite <-Hn. apply sort_by_perm.
Qed.

(** The label a stored artifact contributes: a failed read is [local_only]. *)
Definition artifact_contribution (db : LabelDb) (id : string) : option EgressLabel :=
  match db_artifact_read db id with
  | Ok (Some stored) => Some stored
  | Ok None => None
  | Err _ => Some local_only
  end.

Definition workspace_contribution (db : LabelDb) (agent_id : string) : EgressLabel :=
  if db_workspace_read_fails db then local_only else taint_of (db_workspaces db) agent_id.

Lemma artifact_taint_eq args db :
  artifact_taint_from_store args db =
  fold_left (taint_step (artifact_contribution db) id)
    (artifact_ids_in_arguments args) (unrestricted, []).
Proof.
  apply fold_left_ext. intros [label ids] i. unfold taint_step, artifact_contribution.
  by destruct (db_artifact_read db i) as [[]|].
Qed.

Lemma artifact_taint_label args db s :
  s ∈ (artifact_taint_from_store args db).1 ↔
  ∀ id l, id ∈ artifact_ids_in_arguments args → artifact_contribution db id = Some l → s ∈ l.
Proof.
  rewrite artifact_taint_eq, taint_fold_label. pose proof (elem_of_unrestricted s). tauto.
Qed.

Lemma artifact_taint_none args db :
  (artifact_taint_from_store args db).2 = [] →
  (artifact_taint_from_store args db).1 = unrestricted.
Proof. rewrite artifact_taint_eq. apply taint_fold_none. Qed.

Lemma workspace_taint_label agent_id db :
  let '(label, applied, failed) := workspace_taint_from_store agent_id db in
  label = workspace_contribution db agent_id ∧ failed = db_workspace_read_fails db ∧
  (applied = [] → label = unrestricted).
Proof.
  unfold workspace_taint_from_store, workspace_contribution, taint_of, workspace_get_label.
  destruct (db_workspace_read_fails db); [done|].
  by destruct (db_workspaces db !! agent_id).
Qed.

Lemma with_argument_taint_label r taint parents :
  (parents = [] → taint = unrestricted) →
  res_label (with_argument_taint r taint parents) = restrict (res_label r) taint.
Proof. destruct parents; [|done]. intros ->; [|done]. by rewrite restrict_unrestricted_r. Qed.

Lemma with_artifact_labels_label r label applied :
  (applied = [] → label = unrestricted) →
  res_label (with_artifact_labels r label applied) = restrict (res_label r) label.
Proof. destruct applied; [|done]. intros ->; [|done]. by rewrite restrict_unrestricted_r. Qed.

Lemma with_workspace_labels_label r label applied :
  (applied = [] → label = unrestricted) →
  res_label (with_workspace_labels r label applied) = restrict (res_label r) label.
Proof. destruct applied; [|done]. intros ->; [|done]. by rewrite restrict_unrestricted_r. Qed.

Lemma if_unrestricted_default l :
  default unrestricted (if is_unrestricted l then None else Some l) = l.
Proof.
  destruct (is_unrestricted l) eqn:E; [|done]. by apply is_unrestricted_spec in E.
Qed.

(** What a call leaves of the workspace table, and of the event log. *)
Lemma db_restrict_workspace_eq db agent_id l :
  db_workspaces (db_restrict_workspace db agent_id l) =
    (if db_workspace_write_fails db then db_workspaces db
     else (workspace_restrict_label (db_workspaces db) agent_id l).1) ∧
  db_events (db_restrict_workspace db agent_id l) = db_events db ∧
  db_event_write_fails (db_restrict_workspace db agent_id l) = db_event_write_fails db.
Proof. unfold db_restrict_workspace. by destruct (db_workspace_write_fails db). Qed.

Lemma create_causal_event_eq db ev :
  db_workspaces (create_causal_event db ev) = db_workspaces db ∧
  db_events (create_causal_event db ev) =
    (if db_event_write_fails db || event_id_taken db (ev_event_id ev)
     then db_events db else db_events db ++ [ev]).
Proof. unfold create_causal_event. by destruct (db_event_write_fails db || _). Qed.

Section LabelToolResultSpec.
Context (from_str : string → option Json) (json_to_string : Json → string).
Context (sha256_hex : string → string) (exec_tokens : string → list string).
Context (home : option string).

Local Notation resolution_of := (call_resolution from_str exec_tokens home).
Local Notation label_call :=
  (label_tool_result_with_mounts from_str json_to_string sha256_hex exec_tokens home).

(** The label the inputs of a call intersect to. *)
Definition expected_label (self : EgressLabeler) (req : LabelRequest) (agent_id : string)
    (store : option LabelDb) (prior : gmap string PriorLabeledResult)
    (mount_set : option (list string)) : EgressLabel :=
  let base := res_label (base_resolution from_str exec_tokens home self req mount_set) in
  let tainted := restrict base (argument_taint_from_prior (req_arguments_json req) prior).1 in
  match store with
  | None => tainted
  | Some db =>
      let art := restrict tainted (artifact_taint_from_store (req_arguments_json req) db).1 in
      if is_exec_shaped (req_tool req)
      then restrict art (workspace_contribution db agent_id) else art
  end.

Lemma call_resolution_eq self req agent_id store prior mount_set :
  let c := resolution_of self req agent_id store prior mount_set in
  res_label c.1.1 = expected_label self req agent_id store prior mount_set ∧
  c.1.2 = (argument_taint_from_prior (req_arguments_json req) prior).2 ∧
  (∀ db, store = Some db → is_exec_shaped (req_tool req) = true →
     c.2 = db_workspace_read_fails db).
Proof.
  unfold call_resolution, expected_label.
  pose proof (argument_taint_no_parent (req_arguments_json req) prior) as Hp.
  destruct (argument_taint_from_prior _ prior) as [tl ids]; simpl in *.
  destruct store as [db|]; [|simpl; rewrite with_argument_taint_label by done; naive_solver].
  pose proof (artifact_taint_none (req_arguments_json req) db) as Ha.
  destruct (artifact_taint_from_store _ db) as [al ap]; simpl in *.
  pose proof (workspace_taint_label agent_id db) as Hw.
  destruct (workspace_taint_from_store agent_id db) as [[wl wp] wf].
  destruct Hw as (-> & -> & Hw).
  destruct (is_exec_shaped (req_tool req)); simpl;
    rewrite ?with_workspace_labels_label, with_artifact_labels_label,
      with_argument_taint_label by done; naive_solver.
Qed.

Lemma base_resolution_artifacts self req mount_set :
  res_artifact_labels_applied
    (base_resolution from_str exec_tokens home self req mount_set) = [].
Proof.
  unfold base_resolution, resolve_exec_label, resolve_label. repeat case_match; done.
Qed.

Lemma call_resolution_artifacts self req agent_id db prior mount_set :
  res_artifact_labels_applied
    (resolution_of self req agent_id (Some db) prior mount_set).1.1 =
  (artifact_taint_from_store (req_arguments_json req) db).2.
Proof.
  unfold call_resolution. destruct (argument_taint_from_prior _ prior) as [tl ids].
  destruct (artifact_taint_from_store _ db) as [al ap]; simpl.
  assert (∀ r, res_artifact_labels_applied r = [] →
    res_artifact_labels_applied (with_artifact_labels r al ap) = ap) as H
    by (by destruct ap).
  assert (res_artifact_labels_applied (with_argument_taint
    (base_resolution from_str exec_tokens home self req mount_set) tl ids) = []) as Hb
    by (destruct ids; apply base_resolution_artifacts).
  destruct (is_exec_shaped _); [|by apply H].
  destruct (workspace_taint_from_store _ _) as [[? []] ?]; by apply H.
Qed.

Lemma call_label self req site minted store prior mount_set :
  lab_inert self && negb (is_exec_shaped (req_tool req)) = false →
  default unrestricted
    (out_label <$> (label_call self req site minted store prior mount_set).1) =
  expected_label self req (site_agent_id site) store prior mount_set.
Proof.
  intros Hi. unfold label_tool_result_with_mounts. rewrite Hi.
  pose proof (call_resolution_eq self req (site_agent_id site) store prior mount_set) as [H _].
  destruct (resolution_of _ _ _ _ _ _) as [[r ids] rf]; simpl in *. rewrite <-H.
  destruct (is_unrestricted (res_label r)) eqn:E; [|done]. simpl.
  by apply is_unrestricted_spec in E.
Qed.

(** C20: The label of a tool result (unless the inert fast path applies) admits
    a sink exactly when the rule resolution, every earlier labelled result the
    arguments reference, every stored label of an artifact they name (a failed
    read counting as [local_only]) and, for an exec, the workspace label (again
    [local_only] on a failed read) all admit it. *)
Theorem tool_result_label_spec self req site minted store prior mount_set s :
  lab_inert self && negb (is_exec_shaped (req_tool req)) = false →
  allows (default unrestricted
    (out_label <$> (label_call self req site minted store prior mount_set).1)) s = true ↔
  allows (res_label (base_resolution from_str exec_tokens home self req mount_set)) s = true ∧
  (∀ tcid p, prior !! tcid = Some p →
     prior_referenced (req_arguments_json req) tcid p = true → allows (prior_label p) s = true) ∧
  (∀ db, store = Some db →
     (∀ id l, id ∈ artifact_ids_in_arguments (req_arguments_json req) →
        artifact_contribution db id = Some l → allows l s = true) ∧
     (is_exec_shaped (req_tool req) = true →
        allows (workspace_contribution db (site_agent_id site)) s = true)).
Proof.
  intros Hi. rewrite call_label by done.
  setoid_rewrite allows_spec. unfold expected_label.
  rewrite <-argument_taint_label. destruct store as [db|].
  - assert (∀ P : LabelDb → Prop, (∀ db', Some db = Some db' → P db') ↔ P db) as ->
      by naive_solver.
    rewrite <-artifact_taint_label.
    destruct (is_exec_shaped (req_tool req)); rewrite !restrict_inter, !elem_of_intersection; intuition congruence.
  - rewrite restrict_inter, elem_of_intersection. naive_solver.
Qed.

(** The durable workspace label ratchets: an exec whose workspace could be
    read and written leaves the workspace label intersected with the result's
    label; a failed read is never written back, and neither a structured call
    nor another agent's exec touches it. *)
Theorem workspace_label_ratchet self req site minted db prior mount_set k :
  let r := label_call self req site minted (Some db) prior mount_set in
  ∃ db', r.2 = Some db' ∧
    taint_of (db_workspaces db') k =
      (if decide (k = site_agent_id site ∧ is_exec_shaped (req_tool req) = true ∧
                  db_workspace_read_fails db = false ∧ db_workspace_write_fails db = false)
       then restrict (taint_of (db_workspaces db) k) (default unrestricted (out_label <$> r.1))
       else taint_of (db_workspaces db) k).
Proof.
  intros r. subst r.
  destruct (lab_inert self && negb (is_exec_shaped (req_tool req))) eqn:Hi.
  { unfold label_tool_result_with_mounts. rewrite Hi. exists db. split; [done|].
    apply andb_true_iff in Hi as [_ Hx%negb_true_iff]. rewrite decide_False; [done|].
    intros (_ & ? & _). congruence. }
  rewrite call_label by done. unfold label_tool_result_with_mounts. rewrite Hi.
  pose proof (call_resolution_eq self req (site_agent_id site) (Some db) prior mount_set)
    as (<- & _ & Hf).
  destruct (resolution_of _ _ _ _ _ _) as [[res ids] rf]; simpl in *.
  specialize (Hf db eq_refl).
  pose proof (db_restrict_workspace_eq db (site_agent_id site) (res_label res)) as (Hw & _).
  destruct (is_unrestricted (res_label res)) eqn:El.
  - rewrite andb_false_r. exists db. split; [done|]. apply is_unrestricted_spec in El.
    rewrite El, restrict_unrestricted_r. by destruct (decide _).
  - rewrite andb_true_r. unfold emit_envelope_labeled_event.
    destruct (is_exec_shaped (req_tool req)); simpl;
      [rewrite Hf by done; destruct (db_workspace_read_fails db)|]; simpl;
      (eexists; split; [done|]); rewrite (proj1 (create_causal_event_eq _ _));
      try (rewrite decide_False; [done|naive_solver]).
    rewrite Hw. destruct (db_workspace_write_fails db);
      [rewrite decide_False; [done|naive_solver]|].
    case_decide as Hd; [destruct Hd as [-> _]; apply contribute_here|].
    apply contribute_other. naive_solver.
Qed.

(** Every restriction is explained.  A call that restricts its result appends
    exactly one causal event (when the store accepts it: the write succeeds and its
    minted id is not in the table), addressed to the
    envelope it mints, whose payload names the label of the outcome and the
    earlier envelopes, artifacts and default that entered it; a call that
    leaves the result unrestricted appends none. *)
Theorem restriction_is_audited self req site minted db prior mount_set :
  let r := label_call self req site minted (Some db) prior mount_set in
  ∃ db', r.2 = Some db' ∧
  match r.1 with
  | None => db_events db' = db_events db
  | Some out =>
      is_restricted out = true ∧
      (db_event_write_fails db = false →
       event_id_taken db ("egress-labeled-" ++ minted_uuid minted) = false →
       ∃ ev payload, db_events db' = db_events db ++ [ev] ∧
         ev_action ev = "egress.envelope_labeled" ∧
         ev_agent_id ev = site_agent_id site ∧ ev_session_id ev = site_session_id site ∧
         ev_target ev = Some (out_envelope_id out) ∧
         ev_payload ev = Some (json_to_string payload) ∧
         json_get payload "label" = Some (label_json (out_label out)) ∧
         json_get payload "tool_call_id" = Some (JString (req_tool_call_id req)) ∧
         json_get payload "default_label" = Some (label_json (lab_default_label self)) ∧
         json_get payload "parent_envelope_ids" = Some (json_strings
           (argument_taint_from_prior (req_arguments_json req) prior).2) ∧
         json_get payload "artifact_labels_applied" = Some (json_strings
           (artifact_taint_from_store (req_arguments_json req) db).2))
  end.
Proof.
  intros r. subst r. unfold label_tool_result_with_mounts.
  destruct (lab_inert self && negb (is_exec_shaped (req_tool req))); [by exists db|].
  pose proof (call_resolution_eq self req (site_agent_id site) (Some db) prior mount_set)
    as (_ & Hids & _).
  pose proof (call_resolution_artifacts self req (site_agent_id site) db prior mount_set) as Ha.
  destruct (resolution_of _ _ _ _ _ _) as [[res ids] rf]; simpl in *.
  pose proof (db_restrict_workspace_eq db (site_agent_id site) (res_label res)) as (_ & He & Hf).
  destruct (is_unrestricted (res_label res)) eqn:El.
  { rewrite andb_false_r. by exists db. }
  assert (∃ db0, (if is_exec_shaped (req_tool req) && negb rf && negb false then
      Some (db_restrict_workspace db (site_agent_id site) (res_label res))
      else Some db) = Some db0 ∧ db_events db0 = db_events db ∧
      db_event_write_fails db0 = db_event_write_fails db) as (db0 & -> & Hdb & <-)
    by (destruct (_ && _); eauto).
  simpl. eexists. split; [done|]. unfold is_restricted. simpl. rewrite El.
  split; [done|]. intros Hwf Hid. unfold emit_envelope_labeled_event.
  rewrite (proj2 (create_causal_event_eq _ _)), Hwf.
  assert (event_id_taken db0 ("egress-labeled-" ++ minted_uuid minted) = false) as Hid0
    by (unfold event_id_taken in *; by rewrite Hdb).
  cbn [ev_event_id]. rewrite Hid0, Hdb.
  cbn [orb]. do 2 eexists. split; [done|]. simpl. do 4 (split; [done|]). split; [done|].
  unfold envelope_labeled_payload. rewrite !json_object_get, <-Hids, <-Ha. done.
Qed.
End LabelToolResultSpec.

(** ** Concrete instances *)

Definition mail_rule : EgressRule :=
  {| rule_source := "email.*"; rule_path := None; rule_label := local_only |}.

Definition secrets_rule : EgressRule :=
  {| rule_source := "fs.read"; rule_path := Some "~/mail/**"; rule_label := no_remote_model |}.

Definition demo_config : EgressConfig :=
  {| cfg_rules := [mail_rule; secrets_rule]; cfg_default_label := NamedUnrestricted;
     cfg_unclassified_source_mode := ModeUnrestricted;
     cfg_legacy_unlabeled := NamedUnrestricted |}.

Definition empty_config : EgressConfig :=
  {| cfg_rules := []; cfg_default_label := NamedUnrestricted;
     cfg_unclassified_source_mode := ModeUnrestricted;
     cfg_legacy_unlabeled := NamedUnrestricted |}.

Example email_read_is_local_only :
  res_label (resolve_label (from_config demo_config) "email_read" None) = local_only.
Proof. vm_compute. reflexivity. Qed.

Lemma resolve_order_independent_witness :
  let self := from_config demo_config in
  let self' := with_session_rules (from_config
    {| cfg_rules := [secrets_rule; mail_rule]; cfg_default_label := NamedUnrestricted;
       cfg_unclassified_source_mode := ModeUnrestricted;
       cfg_legacy_unlabeled := NamedUnrestricted |}) [] in
  res_label (resolve_label self "email_read" None) =
  res_label (resolve_label self' "email_read" None).
Proof.
  intros self self'.
  apply (resolve_order_independent self self' "email_read" None "x" [] None None);
    [apply Permutation_swap|reflexivity|reflexivity].
Defined.

Lemma session_and_floor_only_restrict_witness :
  res_label (resolve_label
    (with_session_policy (with_manifest_floor (from_config empty_config) (Some no_remote_model))
       {| pol_rules := [mail_rule]; pol_default_label := None;
          pol_provider_constraint := None |}) "email_read" None) ⊆
  res_label (resolve_label (from_config empty_config) "email_read" None).
Proof.
  apply (session_and_floor_only_restrict (from_config empty_config)
    {| pol_rules := [mail_rule]; pol_default_label := None; pol_provider_constraint := None |}
    (Some no_remote_model) "email_read" None "x" [] None None).
  reflexivity.
Defined.

Lemma inert_labeler_never_restricts_witness :
  res_label (resolve_label (from_config empty_config) "web_fetch" None) = unrestricted.
Proof.
  apply (inert_labeler_never_restricts (from_config empty_config) "web_fetch" None
    "x" [] None None); [apply built_config|reflexivity].
Defined.

(** A database in which one artifact carries [local_only]. *)
Definition demo_db : LabelDb :=
  {| db_artifact_read := λ id, Ok (if (id =? "art_deadbeef")%string then Some local_only else None);
     db_workspaces := ∅; db_workspace_read_fails := false; db_workspace_write_fails := false;
     db_event_write_fails := false; db_events := [] |}.

Definition inspect_request : LabelRequest :=
  {| req_tool := "artifact_inspect"; req_arguments_json := "{artifact_id: art_deadbeef}";
     req_tool_call_id := "call_1"; req_artifact_id := None |}.

Definition demo_site : CallSite :=
  {| site_session_id := "s"; site_agent_id := "coder"; site_turn_id := None |}.

Definition demo_minted : Minted :=
  {| minted_hex := "0badcafe"; minted_uuid := "u"; minted_now := "t" |}.

(** The call with a parser, a printer, a digest and a scan that find nothing. *)
Definition demo_call (config : EgressConfig) : option LabelOutcome * option LabelDb :=
  label_tool_result_with_mounts (λ _, None) (λ _, "") (λ _, "") (λ _, []) None
    (from_config config) inspect_request demo_site demo_minted (Some demo_db) ∅ None.

Lemma tool_result_label_spec_witness :
  allows (default unrestricted (out_label <$> (demo_call demo_config).1)) RemoteModel = false.
Proof.
  apply not_true_iff_false. intros E.
  apply (tool_result_label_spec (λ _, None) (λ _, "") (λ _, "") (λ _, []) None
    (from_config demo_config) inspect_request demo_site demo_minted (Some demo_db) ∅ None
    RemoteModel) in E as (_ & _ & H); [|reflexivity].
  destruct (H demo_db eq_refl) as [Ha _]. specialize (Ha "art_deadbeef" local_only).
  assert (allows local_only RemoteModel = true) as F.
  { apply Ha; [|reflexivity]. apply list_elem_of_In. vm_compute. by left. }
  discriminate F.
Defined.

(** The inert fast path ignores stored artifact labels.  In a session
    without rules, a structured call that names an artifact whose stored label
    is [local_only] yields no label at all, so its content may go to a remote
    model; the same call in a session with any rule is labelled. *)
Theorem inert_session_drops_artifact_label :
  artifact_taint_from_store (req_arguments_json inspect_request) demo_db =
    (local_only, ["art_deadbeef"]) ∧
  (demo_call empty_config).1 = None ∧
  out_label <$> (demo_call demo_config).1 = Some local_only.
Proof. vm_compute. done. Qed.
