(* ===== verification/EgressRouting.v ===== *)
(** * Taint-following routing, compression bands and ingest labels
    (autonoetic-gateway/src/runtime/egress_labeler.rs)

    Where labelled content may be sent: the choice of a provider preset for a
    completion, the eligibility of a compression preset for a band of history,
    the partition of history into label bands, the accumulated taint of a
    session, and the label of an incoming turn. *)

From Stdlib Require Import Ascii String.
From S2P Require Import Prelude RustStr Json Llm Egress EgressLabeler.
From stdpp Require Import prelude gmap strings list sorting.

Open Scope string_scope.
Open Scope nat_scope.
Open Scope list_scope.

Definition message_egress_key (msg : Message) : option string :=
  if bool_decide (msg_role msg = RoleTool) then msg_tool_call_id msg else msg_id msg.

(** ** Compression eligibility *)

Definition class_debug (c : EgressClass) : string :=
  match c with ClassLocal => "Local" | ClassRemote => "Remote" end.

Inductive CompressionEligibility : Type :=
| Eligible
| Ineligible (reason : string) (leaked_tool_call_ids : list string).

Definition is_eligible (e : CompressionEligibility) : bool :=
  match e with Eligible => true | Ineligible _ _ => false end.

(** One message of the band loop: taint and leaked keys so far. *)
Definition band_step (labels : gmap string EgressLabel) (sink : Sink)
    (acc : EgressLabel * list string) (msg : Message) : EgressLabel * list string :=
  match message_egress_key msg with
  | None => acc
  | Some key =>
      match labels !! key with
      | None => acc
      | Some label =>
          (restrict acc.1 label,
           if negb (allows label sink) then acc.2 ++ [key] else acc.2)
      end
  end.

Definition compression_preset_eligible (band : list Message)
    (labels : gmap string EgressLabel) (preset_class : EgressClass)
    : CompressionEligibility :=
  if bool_decide (labels = ∅) then Eligible
  else
    let preset_sink := as_sink preset_class in
    let '(band_taint, leaked) :=
      fold_left (band_step labels preset_sink) band (unrestricted, []) in
    if allows band_taint preset_sink then Eligible
    else Ineligible
      ("compression preset (egress_class=" ++ class_debug preset_class ++ ", sink="
       ++ sink_str preset_sink ++ ") is not cleared for the band's taint ("
       ++ show_N (N.of_nat (length leaked))
       ++ " labeled result(s) would leak); falling back to token-budget truncation (RFC §5.7 — an incomplete local context beats a remote leak)")%string
      leaked.

(** ** Label bands *)

Record LabelBand : Type := {
  band_label : EgressLabel;
  band_messages : list Message;
  band_source_ids : list string;
}.

(** [bands.iter_mut().find(..)] then push, else push a new band. *)
Fixpoint add_to_band (bands : list LabelBand) (label : EgressLabel) (msg : Message)
    (source_id : option string) : list LabelBand :=
  match bands with
  | [] => [{| band_label := label; band_messages := [msg];
              band_source_ids := option_list source_id |}]
  | b :: rest =>
      if bool_decide (band_label b = label)
      then {| band_label := band_label b; band_messages := band_messages b ++ [msg];
              band_source_ids := band_source_ids b ++ option_list source_id |} :: rest
      else b :: add_to_band rest label msg source_id
  end.

Definition message_label (labels : gmap string EgressLabel) (msg : Message) : EgressLabel :=
  match message_egress_key msg with
  | Some key => default unrestricted (labels !! key)
  | None => unrestricted
  end.

Definition partition_step (labels : gmap string EgressLabel) (bands : list LabelBand)
    (msg : Message) : list LabelBand :=
  if bool_decide (msg_role msg = RoleSystem) then bands
  else add_to_band bands (message_label labels msg) msg (message_egress_key msg).

Definition band_cmp (a b : LabelBand) : comparison :=
  match is_unrestricted (band_label a), is_unrestricted (band_label b) with
  | true, false => Lt
  | false, true => Gt
  | _, _ => String.compare (label_display_name (band_label a))
              (label_display_name (band_label b))
  end.

Definition partition_by_label (band : list Message) (labels : gmap string EgressLabel)
    : list LabelBand :=
  sort_by band_cmp (fold_left (partition_step labels) band []).

Definition synthesized_band_label (band : LabelBand) : EgressLabel * Provenance :=
  (band_label band,
   {| prov_tool := Some "context.compress"; prov_args_digest := None;
      prov_matched_rules := []; prov_parent_envelope_ids := band_source_ids band;
      prov_artifact_id := None |}).

(** ** Accumulated taint and routing *)

Definition session_accumulated_taint (labels : gmap string EgressLabel) : EgressLabel :=
  fold_left restrict (map_to_list labels).*2 unrestricted.

Definition preset_sink (egress_class : option EgressClass) : Sink :=
  as_sink (default ClassRemote egress_class).

Definition preset_batch_eligible (batch : EgressLabel) (egress_class : option EgressClass)
    : bool :=
  allows batch (preset_sink egress_class).

Record PresetCandidate : Type := {
  cand_name : string;
  cand_egress_class : option EgressClass;
}.

Record EgressRoutingPlan : Type := {
  plan_batch : EgressLabel;
  plan_provider_constraint : option ProviderConstraint;
  plan_primary_eligible : bool;
  plan_eligible : list string;
  plan_reroute_to : option PresetCandidate;
}.

Definition no_eligible_provider (p : EgressRoutingPlan) : bool :=
  negb (plan_primary_eligible p)
  && match plan_reroute_to p with None => true | Some _ => false end.

Definition bool_cmp (a b : bool) : comparison :=
  match a, b with false, true => Lt | true, false => Gt | _, _ => Eq end.

Definition is_local_candidate (c : PresetCandidate) : bool :=
  bool_decide (preset_sink (cand_egress_class c) = LocalModel).

(** Local presets first, then by name. *)
Definition candidate_cmp (a b : PresetCandidate) : comparison :=
  match bool_cmp (is_local_candidate b) (is_local_candidate a) with
  | Eq => String.compare (cand_name a) (cand_name b)
  | c => c
  end.

Definition effective_batch (batch : EgressLabel) (c : option ProviderConstraint)
    : EgressLabel :=
  match c with
  | Some ConstraintLocalOnly => restrict batch local_only
  | None => batch
  end.

Definition plan_taint_following_route (batch : EgressLabel)
    (primary_class : option EgressClass) (presets : list PresetCandidate)
    (provider_constraint : option ProviderConstraint) : EgressRoutingPlan :=
  let batch := effective_batch batch provider_constraint in
  if is_unrestricted batch then
    {| plan_batch := batch; plan_provider_constraint := provider_constraint;
       plan_primary_eligible := true; plan_eligible := []; plan_reroute_to := None |}
  else
    let primary_eligible := preset_batch_eligible batch primary_class in
    let eligible_candidates :=
      sort_by candidate_cmp
        (List.filter (λ c, preset_batch_eligible batch (cand_egress_class c)) presets) in
    {| plan_batch := batch; plan_provider_constraint := provider_constraint;
       plan_primary_eligible := primary_eligible;
       plan_eligible := map cand_name eligible_candidates;
       plan_reroute_to := if primary_eligible then None else head eligible_candidates |}.

(** ** Ingest labels *)

Definition OPERATOR_LABEL_METADATA_KEY : string := "operator_egress_label".
Definition OFP_INBOUND_LABEL_METADATA_KEY : string := "ofp_inbound_egress_label".
Definition PARENT_TAINT_METADATA_KEY : string := "parent_egress_taint".
Definition INGEST_LABEL_METADATA_KEYS : list string :=
  [OPERATOR_LABEL_METADATA_KEY; OFP_INBOUND_LABEL_METADATA_KEY; PARENT_TAINT_METADATA_KEY].

(** A JSON object is a map: [remove] takes the binding out. *)
Definition json_remove (m : list (string * Json)) (key : string) : list (string * Json) :=
  List.filter (λ kv, negb (kv.1 =? key)%string) m.

Definition json_has (m : list (string * Json)) (key : string) : bool :=
  existsb (λ kv, (kv.1 =? key)%string) m.

(** The stripped metadata and the keys that were present. *)
Definition strip_ingest_label_keys (metadata : Json) : Json * list string :=
  match metadata with
  | JObject m =>
      (JObject (fold_left json_remove INGEST_LABEL_METADATA_KEYS m),
       List.filter (json_has m) INGEST_LABEL_METADATA_KEYS)
  | _ => (metadata, [])
  end.

Section Ingest.
(** [serde_json::from_value::<EgressLabel>]. *)
Context (label_from_value : Json → option EgressLabel).

Definition ingest_step (metadata : option Json) (acc : EgressLabel * bool) (key : string)
    : EgressLabel * bool :=
  match metadata ≫= (λ m, json_get m key) with
  | None => acc
  | Some value =>
      match label_from_value value with
      | Some label => (restrict acc.1 label, true)
      | None => (restrict acc.1 local_only, true)
      end
  end.

Definition resolve_ingest_turn_label (policy_default : option NamedEgressLabel)
    (policy_read_failed : bool) (metadata : option Json) : option EgressLabel :=
  let acc := (unrestricted, false) in
  let acc := if policy_read_failed then (restrict acc.1 local_only, true) else acc in
  let acc := match policy_default with
             | Some named => (restrict acc.1 (to_label named), true)
             | None => acc
             end in
  let '(label, any) := fold_left (ingest_step metadata) INGEST_LABEL_METADATA_KEYS acc in
  if any && negb (is_unrestricted label) then Some label else None.

Definition ofp_inbound_fail_closed_label : EgressLabel := no_remote_model.

Definition parse_ofp_inbound_egress_label (raw : option Json) : EgressLabel :=
  match raw with
  | None => ofp_inbound_fail_closed_label
  | Some value =>
      match label_from_value value with
      | Some label => if negb (label_is_empty label) then label
                      else ofp_inbound_fail_closed_label
      | None => ofp_inbound_fail_closed_label
      end
  end.
End Ingest.

Definition ofp_outbound_allows_federation (session_taint : EgressLabel) : bool :=
  allows session_taint FederatedAgent.

(** ** Lemmas: compression *)

Lemma band_fold_label labels sink band acc s :
  s ∈ (fold_left (band_step labels sink) band acc).1 ↔
  s ∈ acc.1 ∧ ∀ m, m ∈ band → s ∈ message_label labels m.
Proof.
  revert acc. induction band as [|m band IH]; intros acc; simpl.
  { split; [|tauto]. intros; split; [done|]. by intros ? ?%not_elem_of_nil. }
  rewrite IH. setoid_rewrite elem_of_cons. unfold band_step, message_label.
  pose proof (elem_of_unrestricted s) as Hu.
  assert (∀ P : Message → Prop, (∀ x, x = m ∨ x ∈ band → P x) ↔ P m ∧ ∀ x, x ∈ band → P x)
    as -> by naive_solver.
  destruct (message_egress_key m) as [key|]; [|tauto].
  destruct (labels !! key) as [l|]; simpl; [|tauto].
  rewrite restrict_inter, elem_of_intersection. tauto.
Qed.

Lemma band_fold_leaked labels sink band acc :
  (fold_left (band_step labels sink) band acc).2 =
  acc.2 ++ omap (λ m, if allows (message_label labels m) sink then None
                      else message_egress_key m) band.
Proof.
  revert acc. induction band as [|m band IH]; intros acc; simpl; [by rewrite app_nil_r|].
  rewrite IH. unfold band_step, message_label.
  assert (allows unrestricted sink = true) as Hu by (apply allows_spec, elem_of_unrestricted).
  destruct (message_egress_key m) as [key|]; [|by rewrite Hu].
  destruct (labels !! key) as [l|]; simpl; [|by rewrite Hu].
  destruct (allows l sink); simpl; [done|]. by rewrite <-app_assoc.
Qed.

Lemma message_label_empty m : message_label ∅ m = unrestricted.
Proof. unfold message_label. by destruct (message_egress_key m). Qed.

(** A preset may compress a band exactly when the label of every message of
    the band admits the preset's sink; on refusal the reported ids are exactly
    the messages that would leak, in band order. *)
Theorem compression_eligibility_spec band labels c :
  (is_eligible (compression_preset_eligible band labels c) = true ↔
   ∀ m, m ∈ band → allows (message_label labels m) (as_sink c) = true) ∧
  (∀ reason leaked, compression_preset_eligible band labels c = Ineligible reason leaked →
   leaked ≠ [] ∧
   leaked = omap (λ m, if allows (message_label labels m) (as_sink c) then None
                       else message_egress_key m) band).
Proof.
  unfold compression_preset_eligible. case_bool_decide as He.
  { subst labels. split; [|done]. split; [|done]. intros _ m _.
    rewrite message_label_empty. apply allows_spec, elem_of_unrestricted. }
  pose proof (band_fold_label labels (as_sink c) band (unrestricted, []) (as_sink c)) as HL.
  pose proof (band_fold_leaked labels (as_sink c) band (unrestricted, [])) as HK.
  destruct (fold_left _ band _) as [taint leaked]; simpl in *. subst leaked.
  pose proof (elem_of_unrestricted (as_sink c)) as Hu. rewrite <-allows_spec in HL.
  setoid_rewrite allows_spec.
  destruct (allows taint (as_sink c)) eqn:E; simpl.
  - split; [|done]. split; [|done]. intros _. by apply HL.
  - split; [split; [done|]|].
    + intros H. exfalso. apply diff_false_true. apply HL. done.
    + intros reason leaked [= _ <-]. split; [|done]. intros Hn. apply diff_false_true.
      apply HL. split; [done|]. intros m Hm. apply allows_spec. apply not_false_iff_true.
      intros Hf. assert (∃ k, message_egress_key m = Some k) as [k Hk].
      { destruct (message_egress_key m) eqn:Ek; [eauto|]. exfalso.
        unfold message_label in Hf. rewrite Ek in Hf.
        by rewrite (proj2 (allows_spec _ _) Hu) in Hf. }
      assert (k ∈ omap (λ m, if allows (message_label labels m) (as_sink c) then None
                             else message_egress_key m) band) as Hin.
      { apply list_elem_of_omap. exists m. by rewrite Hf. }
      rewrite Hn in Hin. by apply not_elem_of_nil in Hin.
Qed.

(** ** Lemmas: bands *)

Definition bands_ok (labels : gmap string EgressLabel) (bands : list LabelBand) : Prop :=
  NoDup (map band_label bands) ∧
  ∀ b, b ∈ bands → band_messages b ≠ [] ∧
    ∀ m, m ∈ band_messages b → message_label labels m = band_label b.

Lemma add_to_band_labels bands l m id :
  (l ∈ map band_label bands → map band_label (add_to_band bands l m id) = map band_label bands) ∧
  (l ∉ map band_label bands → map band_label (add_to_band bands l m id) = map band_label bands ++ [l]).
Proof.
  induction bands as [|b bands [IH1 IH2]]; simpl; [set_solver|].
  case_bool_decide as E; simpl; [split; [done|set_solver]|].
  split; intros H; f_equal; [apply IH1; set_solver|apply IH2; set_solver].
Qed.

Lemma add_to_band_perm bands l m id :
  concat (map band_messages (add_to_band bands l m id)) ≡ₚ m :: concat (map band_messages bands).
Proof.
  induction bands as [|b bands IH]; simpl; [done|].
  case_bool_decide; simpl.
  - rewrite <-app_assoc. simpl. symmetry. apply Permutation_middle.
  - rewrite IH. symmetry. apply Permutation_middle.
Qed.

Lemma add_to_band_ok labels bands m id :
  bands_ok labels bands → bands_ok labels (add_to_band bands (message_label labels m) m id).
Proof.
  intros [HN HB]. split.
  - destruct (add_to_band_labels bands (message_label labels m) m id) as [H1 H2].
    destruct (decide (message_label labels m ∈ map band_label bands)) as [Hi|Hi].
    + by rewrite H1.
    + rewrite H2 by done. apply NoDup_app. split; [done|]. split; [set_solver|].
      apply NoDup_singleton.
  - clear HN. induction bands as [|b bands IH]; simpl.
    + intros b ->%list_elem_of_singleton. simpl. split; [done|].
      by intros m' ->%list_elem_of_singleton.
    + case_bool_decide as E.
      * intros b' [->|Hb]%elem_of_cons; [|apply HB; by right]. simpl.
        split; [by destruct (band_messages b)|].
        intros m' [Hm| ->%list_elem_of_singleton]%elem_of_app; [|done].
        eapply HB; [left|done].
      * intros b' [->|Hb]%elem_of_cons; [apply HB; left|].
        apply IH; [|done]. intros b'' Hb''. apply HB. by right.
Qed.

Lemma partition_fold_ok labels band bands :
  bands_ok labels bands →
  bands_ok labels (fold_left (partition_step labels) band bands) ∧
  concat (map band_messages (fold_left (partition_step labels) band bands)) ≡ₚ
  List.filter (λ m, negb (bool_decide (msg_role m = RoleSystem))) band
    ++ concat (map band_messages bands).
Proof.
  revert bands. induction band as [|m band IH]; intros bands Hok; simpl; [done|].
  unfold partition_step at 2 4. case_bool_decide; simpl; [by apply IH|].
  destruct (IH _ (add_to_band_ok labels bands m (message_egress_key m) Hok)) as [H1 H2].
  split; [done|]. rewrite H2, add_to_band_perm. symmetry. apply Permutation_middle.
Qed.

#[export] Instance band_cmp_total : TotalCmp band_cmp.
Proof.
  split; unfold cmp_le, band_cmp.
  - intros x y. destruct (is_unrestricted (band_label x)), (is_unrestricted (band_label y));
      try done; apply (cmp_flip String.compare).
  - intros x y z. destruct (is_unrestricted (band_label x)), (is_unrestricted (band_label y)),
      (is_unrestricted (band_label z)); try done; apply (cmp_trans String.compare).
Qed.

(** Partitioning history by label loses and duplicates no message: the
    bands' messages are exactly the non-system messages, every message sits in
    the band of its own label, no two bands share a label or are empty, and the
    bands come unrestricted first and then by display name. *)
Theorem partition_by_label_spec band labels :
  let bands := partition_by_label band labels in
  concat (map band_messages bands) ≡ₚ
    List.filter (λ m, negb (bool_decide (msg_role m = RoleSystem))) band ∧
  NoDup (map band_label bands) ∧
  (∀ b, b ∈ bands → band_messages b ≠ [] ∧
     ∀ m, m ∈ band_messages b → message_label labels m = band_label b) ∧
  StronglySorted (cmp_le band_cmp) bands.
Proof.
  intros bands. subst bands. unfold partition_by_label.
  destruct (partition_fold_ok labels band []) as [[HN HB] HP].
  { split; [constructor|]. by intros b ?%not_elem_of_nil. }
  rewrite app_nil_r in HP. split_and!.
  - rewrite <-HP, <-!flat_map_concat_map. apply Permutation_flat_map, sort_by_perm.
  - by rewrite (Permutation_map band_label (sort_by_perm band_cmp _)).
  - intros b. rewrite elem_of_sort_by. apply HB.
  - apply sort_by_strongly_sorted. apply _.
Qed.

(** ** Lemmas: routing *)

#[export] Instance candidate_cmp_total : TotalCmp candidate_cmp.
Proof.
  split; unfold cmp_le, candidate_cmp, bool_cmp.
  - intros x y. destruct (is_local_candidate x), (is_local_candidate y);
      try done; apply (cmp_flip String.compare).
  - intros x y z. destruct (is_local_candidate x), (is_local_candidate y),
      (is_local_candidate z); try done; apply (cmp_trans String.compare).
Qed.

Lemma head_sort_by_least {A} (cmp : A → A → comparison) `{!TotalCmp cmp} l x :
  head (sort_by cmp l) = Some x →
  x ∈ l ∧ ∀ y, y ∈ l → y = x ∨ cmp_le cmp x y.
Proof.
  intros Hh. pose proof (sort_by_strongly_sorted cmp l) as HS.
  setoid_rewrite <-(elem_of_sort_by cmp l).
  destruct (sort_by cmp l) as [|z r]; [done|]. injection Hh as ->.
  apply StronglySorted_inv in HS as [_ HF]. split; [left|].
  intros y [->|Hy]%elem_of_cons; [by left|]. right. by eapply Forall_forall in HF.
Qed.

Lemma elem_of_eligible batch presets c :
  c ∈ List.filter (λ c, preset_batch_eligible batch (cand_egress_class c)) presets ↔
  c ∈ presets ∧ allows batch (preset_sink (cand_egress_class c)) = true.
Proof.
  rewrite list_elem_of_In, filter_In, <-list_elem_of_In. done.
Qed.

Lemma head_none {A} (l : list A) : head l = None ↔ l = [].
Proof. by destruct l. Qed.

(** What a plan's primary and its substitute are cleared for. *)
Lemma routing_plan_spec batch primary presets constraint :
  let p := plan_taint_following_route batch primary presets constraint in
  let eb := effective_batch batch constraint in
  (plan_primary_eligible p = true → allows eb (preset_sink primary) = true) ∧
  (∀ c, plan_reroute_to p = Some c →
     c ∈ presets ∧ allows eb (preset_sink (cand_egress_class c)) = true).
Proof.
  intros p eb. subst p. unfold plan_taint_following_route. fold eb.
  destruct (is_unrestricted eb) eqn:E; simpl.
  - split; [|done]. intros _. by apply is_unrestricted_allows.
  - split; [done|]. intros c. destruct (preset_batch_eligible eb primary); [done|].
    intros [Hin _]%head_sort_by_least; [|apply _]. by apply elem_of_eligible in Hin.
Qed.

(** Taint-following routing is fail-closed.  The plan's batch is contained
    in the given one (and in [local_only] under a provider constraint); the
    primary is used only if that batch admits its sink; otherwise the chosen
    preset is a configured one whose sink the batch admits, least in the order
    "local first, then by name"; and the turn is refused exactly when neither
    the primary nor any configured preset is admitted. *)
Theorem routing_fail_closed batch primary presets constraint :
  let p := plan_taint_following_route batch primary presets constraint in
  plan_batch p ⊆ batch ∧
  (constraint = Some ConstraintLocalOnly → plan_batch p ⊆ local_only) ∧
  (plan_primary_eligible p = true ↔ allows (plan_batch p) (preset_sink primary) = true) ∧
  (∀ c, plan_reroute_to p = Some c →
     plan_primary_eligible p = false ∧ c ∈ presets ∧
     allows (plan_batch p) (preset_sink (cand_egress_class c)) = true ∧
     ∀ c', c' ∈ presets → allows (plan_batch p) (preset_sink (cand_egress_class c')) = true →
           c' = c ∨ cmp_le candidate_cmp c c') ∧
  (no_eligible_provider p = true ↔
     allows (plan_batch p) (preset_sink primary) = false ∧
     ∀ c, c ∈ presets → allows (plan_batch p) (preset_sink (cand_egress_class c)) = false).
Proof.
  intros p. subst p. unfold plan_taint_following_route.
  set (eb := effective_batch batch constraint).
  assert (eb ⊆ batch) as H1.
  { subst eb. unfold effective_batch. destruct constraint as [[]|]; [|done].
    apply restrict_subseteq_l. }
  assert (constraint = Some ConstraintLocalOnly → eb ⊆ local_only) as H2.
  { intros ->. apply restrict_subseteq_r. }
  clearbody eb. destruct (is_unrestricted eb) eqn:E; simpl.
  - pose proof (is_unrestricted_allows eb E) as HA.
    split_and!; try done. unfold no_eligible_provider; simpl. split; [done|].
    intros [H _]. specialize (HA (preset_sink primary)). congruence.
  - split_and!; try done.
    + intros c. change (preset_batch_eligible eb primary) with (allows eb (preset_sink primary)).
      destruct (allows eb (preset_sink primary)) eqn:Ep; [done|].
      intros [Hin Hle]%head_sort_by_least; [|apply _].
      apply elem_of_eligible in Hin as [Hin Ha]. split_and!; try done.
      intros c' Hc' Hc'a. apply Hle, elem_of_eligible. done.
    + unfold no_eligible_provider; simpl.
      change (preset_batch_eligible eb primary) with (allows eb (preset_sink primary)).
      destruct (allows eb (preset_sink primary)) eqn:Ep; simpl; [naive_solver|].
      trans (List.filter (λ c, preset_batch_eligible eb (cand_egress_class c)) presets = []).
      { pose proof (sort_by_perm candidate_cmp
          (List.filter (λ c, preset_batch_eligible eb (cand_egress_class c)) presets)) as HP.
        destruct (sort_by candidate_cmp _) eqn:Es; simpl.
        - apply Permutation_nil in HP. done.
        - split; [done|]. intros Hn. rewrite Hn in HP. symmetry in HP. by apply Permutation_nil_cons in HP. }
      split.
      * intros Hn. split; [done|]. intros c Hc. apply not_true_iff_false. intros Ha.
        eapply (not_elem_of_nil c). rewrite <-Hn. by apply elem_of_eligible.
      * intros [_ H]. apply elem_of_nil_inv. intros c [Hc Ha]%elem_of_eligible.
        by rewrite H in Ha.
Qed.

(** An accumulated session taint admits a sink exactly when every label the
    session recorded admits it; a session that touched nothing is
    unrestricted. *)
Theorem session_accumulated_taint_spec labels s :
  allows (session_accumulated_taint labels) s = true ↔
  ∀ k l, labels !! k = Some l → allows l s = true.
Proof.
  unfold session_accumulated_taint.
  assert (∀ ls acc, s ∈ fold_left restrict ls acc ↔ s ∈ acc ∧ ∀ l : EgressLabel, l ∈ ls → s ∈ l)
    as HF.
  { induction ls as [|l ls IH]; intros acc; simpl; [set_solver|].
    rewrite IH, restrict_inter. set_solver. }
  setoid_rewrite allows_spec. rewrite HF. pose proof (elem_of_unrestricted s).
  setoid_rewrite list_elem_of_fmap. split.
  - intros [_ H'] k l Hl. apply H'. exists (k, l). split; [done|]. by apply elem_of_map_to_list.
  - intros H'. split; [done|]. intros l ([k l'] & -> & Hin). apply (H' k).
    by apply elem_of_map_to_list.
Qed.

(** ** Lemmas: ingest *)

Lemma json_get_remove m k k' :
  json_get (JObject (json_remove m k)) k' =
  if decide (k' = k) then None else json_get (JObject m) k'.
Proof.
  simpl. induction m as [|[a v] m IH]; simpl; [by case_decide|].
  destruct (String.eqb_spec a k) as [->|Hne]; simpl.
  - rewrite IH. case_decide; [done|]. by destruct (String.eqb_spec k k').
  - destruct (String.eqb_spec a k') as [->|Hne']; [|done]. by rewrite decide_False.
Qed.

Lemma strip_get m k :
  json_get (strip_ingest_label_keys m).1 k =
  if decide (k ∈ INGEST_LABEL_METADATA_KEYS) then None else json_get m k.
Proof.
  destruct m; try by case_decide. unfold strip_ingest_label_keys. cbn [fst].
  assert (∀ ks m, json_get (JObject (fold_left json_remove ks m)) k =
    if decide (k ∈ ks) then None else json_get (JObject m) k) as H; [|apply H].
  induction ks as [|k' ks IH]; intros m'; simpl fold_left.
  - by rewrite decide_False by (apply not_elem_of_nil).
  - rewrite IH, json_get_remove. repeat case_decide; set_solver.
Qed.

Section IngestSpec.
Context (label_from_value : Json → option EgressLabel).

Lemma ingest_fold_spec metadata keys acc s :
  let r := fold_left (ingest_step label_from_value metadata) keys acc in
  (s ∈ r.1 ↔ s ∈ acc.1 ∧
     ∀ k v, k ∈ keys → metadata ≫= (λ m, json_get m k) = Some v →
       s ∈ default local_only (label_from_value v)) ∧
  (r.2 = false → r = acc).
Proof.
  revert acc. induction keys as [|k keys IH]; intros acc; simpl.
  { split; [|done]. split; [|tauto]. intros; split; [done|]. by intros ?? ?%not_elem_of_nil. }
  destruct (IH (ingest_step label_from_value metadata acc k)) as [I1 I2].
  setoid_rewrite elem_of_cons. split.
  - rewrite I1. unfold ingest_step.
    assert (∀ P : string → Json → Prop, (∀ x v, x = k ∨ x ∈ keys → P x v) ↔
      (∀ v, P k v) ∧ ∀ x v, x ∈ keys → P x v) as -> by naive_solver.
    destruct (metadata ≫= _) as [v|] eqn:E; [|naive_solver].
    destruct (label_from_value v) eqn:Ev; simpl;
      rewrite restrict_inter, elem_of_intersection;
      (split; [intros [[? ?] ?]|intros (? & H2 & ?); specialize (H2 v eq_refl)]);
      rewrite ?Ev in *; split_and!; try done; intros ? [= <-]; by rewrite Ev.
  - intros Hf. rewrite I2 by done. rewrite I2 in Hf by done. unfold ingest_step in *.
    repeat case_match; simpl in *; done.
Qed.

(** The label an ingest is treated with: absence of a label is unrestricted. *)
Definition ingest_effective (policy_default : option NamedEgressLabel)
    (policy_read_failed : bool) (metadata : option Json) : EgressLabel :=
  default unrestricted
    (resolve_ingest_turn_label label_from_value policy_default policy_read_failed metadata).

(** An incoming turn is labelled with the intersection of every
    declaration: the session default, the operator mark, the peer's wire label
    and the parent's taint; a declaration that does not parse and an unreadable
    policy both count as [local_only], so nothing malformed widens. *)
Theorem ingest_label_spec policy_default policy_read_failed metadata s :
  allows (ingest_effective policy_default policy_read_failed metadata) s = true ↔
  (policy_read_failed = true → allows local_only s = true) ∧
  (∀ n, policy_default = Some n → allows (to_label n) s = true) ∧
  (∀ k v, k ∈ INGEST_LABEL_METADATA_KEYS → metadata ≫= (λ m, json_get m k) = Some v →
     allows (default local_only (label_from_value v)) s = true).
Proof.
  unfold ingest_effective, resolve_ingest_turn_label. setoid_rewrite allows_spec.
  set (acc := match policy_default with Some _ => _ | None => _ end).
  assert (s ∈ acc.1 ↔ (policy_read_failed = true → s ∈ local_only) ∧
    (∀ n, policy_default = Some n → s ∈ to_label n)) as Hacc.
  { subst acc. pose proof (elem_of_unrestricted s).
    destruct policy_default as [n|], policy_read_failed; simpl;
      rewrite ?restrict_inter, ?elem_of_intersection; naive_solver. }
  assert (acc.2 = false → acc.1 = unrestricted) as Hany.
  { subst acc. by destruct policy_default, policy_read_failed. }
  clearbody acc.
  destruct (ingest_fold_spec metadata INGEST_LABEL_METADATA_KEYS acc s) as [HL HE].
  destruct (fold_left _ _ acc) as [label any]; simpl in *.
  trans (s ∈ label); [|tauto].
  destruct (is_unrestricted label) eqn:Eu; [apply is_unrestricted_spec in Eu as ->|].
  - rewrite andb_false_r. done.
  - destruct any; [done|]. destruct HE; [done|]. simpl in *.
    rewrite Hany in Eu by done. discriminate Eu.
Qed.

(** Agent-supplied metadata cannot forge a declaration: after
    [strip_ingest_label_keys] the label is the one the turn would have with no
    metadata at all, every other key is untouched, and the reported keys are
    exactly the forged ones. *)
Theorem strip_makes_gateway_sole_author policy_default policy_read_failed m k :
  resolve_ingest_turn_label label_from_value policy_default policy_read_failed
    (Some (strip_ingest_label_keys m).1) =
  resolve_ingest_turn_label label_from_value policy_default policy_read_failed None ∧
  (k ∉ INGEST_LABEL_METADATA_KEYS →
   json_get (strip_ingest_label_keys m).1 k = json_get m k) ∧
  (k ∈ (strip_ingest_label_keys m).2 ↔
   k ∈ INGEST_LABEL_METADATA_KEYS ∧ is_Some (json_get m k)).
Proof.
  split_and!.
  - unfold resolve_ingest_turn_label.
    assert (∀ ks acc, (∀ x, x ∈ ks → x ∈ INGEST_LABEL_METADATA_KEYS) →
      fold_left (ingest_step label_from_value (Some (strip_ingest_label_keys m).1)) ks acc =
      fold_left (ingest_step label_from_value None) ks acc) as H.
    { induction ks as [|x ks IH]; intros acc Hks; [done|]. simpl.
      rewrite IH by (intros; apply Hks; by right). f_equal.
      unfold ingest_step. cbn [mbind option_bind].
      rewrite strip_get, decide_True; [done|]. apply Hks. left. }
    by rewrite H.
  - intros Hk. by rewrite strip_get, decide_False.
  - destruct m as [| | | | |m]; simpl;
      try (split; [intros ?%not_elem_of_nil; done|intros [_ [? [=]]]]).
    rewrite list_elem_of_In, (filter_In (json_has m) k INGEST_LABEL_METADATA_KEYS),
      <-list_elem_of_In. f_equiv. unfold json_has. rewrite existsb_exists, fmap_is_Some. split.
    + intros ([a v] & Hin & Ha). destruct (List.find _ m) eqn:Ef; [by eexists|].
      by rewrite (find_none _ _ Ef (a, v) Hin) in Ha.
    + intros [[a v] Hf%List.find_some]. exists (a, v). tauto.
Qed.

(** A peer's wire label is taken as sent when it parses to a non-empty set
    and replaced by [no_remote_model] otherwise; nothing but an explicit
    unrestricted label is read as unrestricted.  The replacement also applies
    to an explicit empty set, the strictest label a peer can send, which it
    widens. *)
Theorem ofp_inbound_label_spec raw :
  (parse_ofp_inbound_egress_label label_from_value raw =
    match raw ≫= label_from_value with
    | Some label => if decide (label = ∅) then no_remote_model else label
    | None => no_remote_model
    end) ∧
  (parse_ofp_inbound_egress_label label_from_value raw = unrestricted ↔
   raw ≫= label_from_value = Some unrestricted).
Proof.
  unfold parse_ofp_inbound_egress_label, ofp_inbound_fail_closed_label.
  destruct raw as [v|]; simpl; [|done].
  destruct (label_from_value v) as [label|]; simpl; [|done].
  destruct (label_is_empty label) eqn:E; simpl.
  - apply label_is_empty_spec in E as ->. rewrite decide_True by done. done.
  - rewrite decide_False; [naive_solver|]. intros ->. discriminate E.
Qed.
End IngestSpec.
