(* ===== verification/Capability.v ===== *)
(** * Capabilities and the capability delta

    The model of [autonoetic-types/src/capability.rs]: the [Capability]
    variants a manifest declares, the pattern rule for authority operations,
    the delta between two declarations that gates the promotion of a new agent
    revision, and the coverage test behind pre-authorised promotions. *)

From Stdlib Require Import Ascii String.
From stdpp Require Import prelude gmap strings list sorting.
From S2P Require Import Prelude RustStr.

Open Scope string_scope.
Open Scope nat_scope.
Open Scope list_scope.

(** ** Data *)

Inductive Capability : Type :=
| SandboxFunctions (allowed : list string)
| ReadAccess (scopes : list string)
| WriteAccess (scopes : list string)
| NetworkAccess (hosts : list string)
| AgentSpawn (max_children max_spawn_depth : Z)
| AgentMessage (patterns : list string)
| BackgroundReevaluation (min_interval_secs : Z) (allow_reasoning : bool)
| CodeExecution (patterns commands : list string)
| ArtifactExecution
| EmergencyStop
| AgentRevision (patterns : list string)
| Evaluation (patterns : list string)
| ApprovalQueue (patterns : list string)
| SchedulerSignal (patterns : list string)
| CredentialAccess (services : list string)
| UserProfileAccess (scopes : list string)
| SchedulerAccess (patterns : list string)
| SkillInstall (allowed_sources : list string)
| ConstitutionalProposal (patterns : list string)
| ReasoningAudit (targets : list string)
| BudgetNoPriceAvailableAllow
| GithubIssueCreate (patterns : list string)
| SecurityRedTeam
| CapsuleExport
| SelfCapsuleExport
| WikiContribute
| PlanFrameAccess (patterns : list string)
| PromoteWith (agent_id : string) (capabilities : list Capability)
| GateDecider (kinds : list string)
| AnomalyAdjudicate (patterns : list string).

(** [PartialEq]: a capability may hold capabilities. *)
#[export] Instance capability_eq_dec : EqDecision Capability.
Proof.
  unfold EqDecision, Decision. fix go 1. intros x y.
  destruct x; destruct y; try (right; discriminate);
    try (left; reflexivity);
    match goal with
    | |- {PromoteWith ?a ?l = PromoteWith ?b ?k} + {_} =>
        destruct (decide (a = b)) as [->|H]; [|right; congruence];
        destruct (@list_eq_dec _ go l k) as [->|H]; [left; reflexivity|right; congruence]
    | |- {?f ?a ?c = ?f ?b ?d} + {_} =>
        destruct (decide (a = b)) as [->|H]; [|right; congruence];
        destruct (decide (c = d)) as [->|H]; [left; reflexivity|right; congruence]
    | |- {?f ?a = ?f ?b} + {_} =>
        destruct (decide (a = b)) as [->|H]; [left; reflexivity|right; congruence]
    end.
Defined.

(** [Capability::type_name]. *)
Definition type_name (self : Capability) : string :=
  match self with
  | SandboxFunctions _ => "SandboxFunctions"
  | ReadAccess _ => "ReadAccess"
  | WriteAccess _ => "WriteAccess"
  | NetworkAccess _ => "NetworkAccess"
  | AgentSpawn _ _ => "AgentSpawn"
  | AgentMessage _ => "AgentMessage"
  | BackgroundReevaluation _ _ => "BackgroundReevaluation"
  | CodeExecution _ _ => "CodeExecution"
  | ArtifactExecution => "ArtifactExecution"
  | EmergencyStop => "EmergencyStop"
  | AgentRevision _ => "AgentRevision"
  | Evaluation _ => "Evaluation"
  | ApprovalQueue _ => "ApprovalQueue"
  | SchedulerSignal _ => "SchedulerSignal"
  | CredentialAccess _ => "CredentialAccess"
  | UserProfileAccess _ => "UserProfileAccess"
  | SchedulerAccess _ => "SchedulerAccess"
  | SkillInstall _ => "SkillInstall"
  | ConstitutionalProposal _ => "ConstitutionalProposal"
  | ReasoningAudit _ => "ReasoningAudit"
  | BudgetNoPriceAvailableAllow => "budget.no_price_available.allow"
  | GithubIssueCreate _ => "GithubIssueCreate"
  | SecurityRedTeam => "SecurityRedTeam"
  | CapsuleExport => "CapsuleExport"
  | SelfCapsuleExport => "SelfCapsuleExport"
  | WikiContribute => "WikiContribute"
  | PlanFrameAccess _ => "PlanFrameAccess"
  | PromoteWith _ _ => "PromoteWith"
  | GateDecider _ => "GateDecider"
  | AnomalyAdjudicate _ => "AnomalyAdjudicate"
  end.

Definition all_capability_kind_names : list string :=
  ["SandboxFunctions"; "ReadAccess"; "WriteAccess";
   "NetworkAccess"; "AgentSpawn"; "AgentMessage";
   "BackgroundReevaluation"; "CodeExecution"; "ArtifactExecution";
   "EmergencyStop"; "AgentRevision"; "Evaluation";
   "ApprovalQueue"; "SchedulerSignal"; "CredentialAccess";
   "UserProfileAccess"; "SchedulerAccess"; "SkillInstall";
   "ConstitutionalProposal"; "ReasoningAudit"; "GithubIssueCreate";
   "budget.no_price_available.allow"; "SecurityRedTeam"; "CapsuleExport";
   "SelfCapsuleExport"; "PlanFrameAccess"; "WikiContribute";
   "PromoteWith"; "GateDecider"; "AnomalyAdjudicate"].

(** *** Authority operations *)

Inductive AuthorityOp : Type := PlanFrameApprove.

Definition authority_op_as_str (self : AuthorityOp) : string :=
  match self with PlanFrameApprove => "planframe.approve" end.

Definition is_authority_operation (operation : string) : bool :=
  (operation =? authority_op_as_str PlanFrameApprove)%string.

Definition patterns_allow (patterns : list string) (operation : string) : bool :=
  let authority := is_authority_operation operation in
  existsb (λ raw,
    let p := trim raw in
    if str_is_empty p then false
    else if (p =? operation)%string then true
    else if authority then false
    else if (p =? "*")%string then true
    else let prefix := trim_end_matches p "." in
         negb (str_is_empty prefix) && starts_with operation prefix) patterns.

(** *** The delta *)

Record CapabilityBroadening := {
  capability_type : string;
  previous_scope : list string;
  new_scope : list string;
}.

Record CapabilityDelta := {
  added : list string;
  broadened : list CapabilityBroadening;
  narrowed : list string;
  removed : list string;
}.

Definition has_broadening (self : CapabilityDelta) : bool :=
  negb (match added self with [] => true | _ => false end)
  || negb (match broadened self with [] => true | _ => false end).

(** The later of two capabilities of the same kind replaces the earlier. *)
Definition capability_map (caps : list Capability) : list (string * Capability) :=
  fold_left (λ out cap, bt_insert (type_name cap) cap out) caps [].

(** The [BTreeSet]s of the two scope tests are finite sets of strings. *)
Definition is_scope_broadened (previous current : list string) : bool :=
  let prev_has_all := existsb (λ x, (x =? "*")%string) previous in
  let curr_has_all := existsb (λ x, (x =? "*")%string) current in
  if prev_has_all then false
  else if curr_has_all && negb prev_has_all then true
  else
    let prev : gset string := list_to_set previous in
    let curr : gset string := list_to_set current in
    existsb (λ scope, negb (bool_decide (scope ∈ prev))) (elements curr).

Definition scope_broadening (capability_type : string) (previous current : list string)
    : option CapabilityBroadening :=
  if is_scope_broadened previous current
  then Some {| capability_type := capability_type;
               previous_scope := previous; new_scope := current |}
  else None.

Definition is_scope_narrowed (previous current : list string) : bool :=
  let prev_has_all := existsb (λ x, (x =? "*")%string) previous in
  let curr_has_all := existsb (λ x, (x =? "*")%string) current in
  if curr_has_all then false
  else if prev_has_all && negb curr_has_all then true
  else
    let prev : gset string := list_to_set previous in
    let curr : gset string := list_to_set current in
    (size curr <? size prev) && bool_decide (curr ⊆ prev).

Definition show_bool (b : bool) : string := if b then "true" else "false".

Definition agent_spawn_broadening (capability_type : string) (max_a depth_a max_b depth_b : Z)
    : option CapabilityBroadening :=
  let children_broadened := (max_a <? max_b)%Z in
  let depth_broadened :=
    if (depth_a =? 0)%Z && (0 <? depth_b)%Z then false
    else if (depth_a =? 0)%Z && (depth_b =? 0)%Z then false
    else (depth_a <? depth_b)%Z in
  if children_broadened || depth_broadened then
    let prev := [("max_children=" ++ show_Z max_a)%string] in
    let next := [("max_children=" ++ show_Z max_b)%string] in
    Some {| capability_type := capability_type;
            previous_scope := if depth_broadened
              then prev ++ [("max_spawn_depth=" ++ show_Z depth_a)%string] else prev;
            new_scope := if depth_broadened
              then next ++ [("max_spawn_depth=" ++ show_Z depth_b)%string] else next |}
  else None.

Definition background_scope (interval : Z) (reasoning : bool) : list string :=
  [("min_interval_secs=" ++ show_Z interval ++ ",allow_reasoning=" ++ show_bool reasoning)%string].

Definition capability_broadening (capability_type : string) (previous current : Capability)
    : option CapabilityBroadening :=
  match previous, current with
  | NetworkAccess a, NetworkAccess b => scope_broadening capability_type a b
  | ReadAccess a, ReadAccess b => scope_broadening capability_type a b
  | WriteAccess a, WriteAccess b => scope_broadening capability_type a b
  | SandboxFunctions a, SandboxFunctions b => scope_broadening capability_type a b
  | AgentMessage a, AgentMessage b => scope_broadening capability_type a b
  | AgentRevision a, AgentRevision b => scope_broadening capability_type a b
  | Evaluation a, Evaluation b => scope_broadening capability_type a b
  | ApprovalQueue a, ApprovalQueue b => scope_broadening capability_type a b
  | SchedulerSignal a, SchedulerSignal b => scope_broadening capability_type a b
  | SchedulerAccess a, SchedulerAccess b => scope_broadening capability_type a b
  | CredentialAccess a, CredentialAccess b => scope_broadening capability_type a b
  | UserProfileAccess a, UserProfileAccess b => scope_broadening capability_type a b
  | SkillInstall a, SkillInstall b => scope_broadening capability_type a b
  | ConstitutionalProposal a, ConstitutionalProposal b => scope_broadening capability_type a b
  | ReasoningAudit a, ReasoningAudit b => scope_broadening capability_type a b
  | GithubIssueCreate a, GithubIssueCreate b => scope_broadening capability_type a b
  | PlanFrameAccess a, PlanFrameAccess b => scope_broadening capability_type a b
  | GateDecider a, GateDecider b => scope_broadening capability_type a b
  | CodeExecution ap ac, CodeExecution bp bc =>
      scope_broadening capability_type (ap ++ ac) (bp ++ bc)
  | AgentSpawn max_a depth_a, AgentSpawn max_b depth_b =>
      agent_spawn_broadening capability_type max_a depth_a max_b depth_b
  | BackgroundReevaluation a_interval a_reasoning,
    BackgroundReevaluation b_interval b_reasoning =>
      if (b_interval <? a_interval)%Z || (b_reasoning && negb a_reasoning)
      then Some {| capability_type := capability_type;
                   previous_scope := background_scope a_interval a_reasoning;
                   new_scope := background_scope b_interval b_reasoning |}
      else None
  | _, _ => None
  end.

Definition capability_narrowed (previous current : Capability) : bool :=
  match previous, current with
  | NetworkAccess a, NetworkAccess b => is_scope_narrowed a b
  | ReadAccess a, ReadAccess b => is_scope_narrowed a b
  | WriteAccess a, WriteAccess b => is_scope_narrowed a b
  | SandboxFunctions a, SandboxFunctions b => is_scope_narrowed a b
  | _, _ => false
  end.

(** One iteration of the loop over [current_map]. *)
Definition delta_step (previous_map : list (string * Capability))
    (d : CapabilityDelta) (entry : string * Capability) : CapabilityDelta :=
  let '(capability_type, current_cap) := entry in
  match bt_get previous_map capability_type with
  | None => {| added := added d ++ [capability_type]; broadened := broadened d;
               narrowed := narrowed d; removed := removed d |}
  | Some previous_cap =>
      match capability_broadening capability_type previous_cap current_cap with
      | Some b => {| added := added d; broadened := broadened d ++ [b];
                     narrowed := narrowed d; removed := removed d |}
      | None =>
          if capability_narrowed previous_cap current_cap
          then {| added := added d; broadened := broadened d;
                  narrowed := narrowed d ++ [capability_type]; removed := removed d |}
          else d
      end
  end.

Definition compute_capability_delta (previous current : list Capability) : CapabilityDelta :=
  let previous_map := capability_map previous in
  let current_map := capability_map current in
  let d := fold_left (delta_step previous_map) current_map
             {| added := []; broadened := []; narrowed := []; removed := [] |} in
  {| added := added d; broadened := broadened d; narrowed := narrowed d;
     removed := List.filter (λ t, match bt_get current_map t with None => true | _ => false end)
                  (bt_keys previous_map) |}.

Definition capability_set_covers (declared artifact_caps : list Capability) : bool :=
  let declared_map := capability_map declared in
  forallb (λ ac,
    let name := type_name ac in
    match bt_get declared_map name with
    | None => false
    | Some dc => match capability_broadening name dc ac with None => true | _ => false end
    end) artifact_caps.

(** ** Lemmas: scopes *)

Definition all_scopes (l : list string) : Prop := "*" ∈ l.

Lemma has_all_spec l : existsb (λ x, (x =? "*")%string) l = true ↔ all_scopes l.
Proof.
  rewrite existsb_true. unfold all_scopes. split.
  - intros (x & Hx & ->%String.eqb_eq). done.
  - intros H. exists "*". done.
Qed.

Lemma is_scope_broadened_false previous current :
  is_scope_broadened previous current = false ↔ all_scopes previous ∨ current ⊆ previous.
Proof.
  unfold is_scope_broadened.
  destruct (existsb _ previous) eqn:E1; [apply has_all_spec in E1; tauto|].
  assert (¬ all_scopes previous) as H1 by (rewrite <-has_all_spec; congruence).
  destruct (existsb _ current) eqn:E2; simpl.
  - apply has_all_spec in E2. split; [done|]. intros [?|Hs]; [done|]. by apply Hs in E2.
  - rewrite existsb_false. split.
    + intros Hf. right. intros x Hx. specialize (Hf x).
      rewrite elem_of_elements, elem_of_list_to_set, negb_false_iff, bool_decide_eq_true,
        elem_of_list_to_set in Hf. auto.
    + intros [?|Hs] x; [done|].
      rewrite elem_of_elements, elem_of_list_to_set, negb_false_iff, bool_decide_eq_true,
        elem_of_list_to_set. apply Hs.
Qed.

Lemma scope_broadening_none t previous current :
  scope_broadening t previous current = None ↔ all_scopes previous ∨ current ⊆ previous.
Proof.
  rewrite <-is_scope_broadened_false. unfold scope_broadening.
  by destruct (is_scope_broadened _ _).
Qed.

Lemma is_scope_narrowed_true previous current :
  is_scope_narrowed previous current = true →
  ¬ all_scopes current ∧ (all_scopes previous ∨ current ⊆ previous) ∧ ¬ previous ⊆ current.
Proof.
  unfold is_scope_narrowed.
  destruct (existsb _ current) eqn:E2; [done|].
  assert (¬ all_scopes current) as H2 by (rewrite <-has_all_spec; congruence).
  destruct (existsb _ previous) eqn:E1; simpl.
  - apply has_all_spec in E1. intros _. split_and!; [done|by left|]. intros Hs. by apply H2, Hs.
  - rewrite andb_true_iff, Nat.ltb_lt, bool_decide_eq_true. intros [Hlt Hs].
    split_and!; [done|right; set_solver|]. intros Hs'.
    assert (list_to_set previous ⊆@{gset string} list_to_set current) as Hsub by set_solver.
    apply subseteq_size in Hsub. lia.
Qed.

(** ** Lemmas: the capability map *)

(** The declaration the delta compares: the last one of a kind. *)
Definition declared_kind (caps : list Capability) (t : string) : option Capability :=
  last (filter (λ c, type_name c = t) caps).

Lemma capability_map_snoc caps c :
  capability_map (caps ++ [c]) = bt_insert (type_name c) c (capability_map caps).
Proof. unfold capability_map. by rewrite fold_left_app. Qed.

Lemma capability_map_wf caps : bt_wf (capability_map caps).
Proof.
  induction caps as [|c caps IH] using rev_ind; [constructor|].
  rewrite capability_map_snoc. by apply bt_insert_wf.
Qed.

Lemma capability_map_get caps t : bt_get (capability_map caps) t = declared_kind caps t.
Proof.
  unfold declared_kind. induction caps as [|c caps IH] using rev_ind; [done|].
  rewrite capability_map_snoc, bt_get_insert, filter_app, filter_cons, IH.
  destruct (decide _); [by rewrite filter_nil, last_snoc|]. by rewrite filter_nil, app_nil_r.
Qed.

Lemma declared_kind_elem caps t c : declared_kind caps t = Some c → c ∈ caps ∧ type_name c = t.
Proof.
  unfold declared_kind. intros [l Hl]%last_Some.
  assert (c ∈ filter (λ c, type_name c = t) caps) as Hin by (rewrite Hl; set_solver).
  apply list_elem_of_filter in Hin. naive_solver.
Qed.

(** Without duplicate kinds every declared capability is the compared one. *)
(** A declaration does not broaden itself. *)
Lemma capability_broadening_refl t c : capability_broadening t c c = None.
Proof.
  assert (∀ l, scope_broadening t l l = None) as Hs.
  { intros l. unfold scope_broadening, is_scope_broadened.
    destruct (existsb _ l); [done|]. cbn [andb negb].
    destruct (existsb _ (elements _)) eqn:E; [|done].
    apply existsb_exists in E as (x & Hx%list_elem_of_In%elem_of_elements & Hn).
    by rewrite bool_decide_true in Hn. }
  destruct c; cbn [capability_broadening]; auto.
  - unfold agent_spawn_broadening. rewrite !Z.ltb_irrefl. cbn [orb].
    by destruct (max_spawn_depth =? 0)%Z, (0 <? max_spawn_depth)%Z.
  - rewrite Z.ltb_irrefl. by destruct allow_reasoning.
Qed.

Lemma declared_kind_nodup caps c :
  NoDup (type_name <$> caps) → c ∈ caps → declared_kind caps (type_name c) = Some c.
Proof.
  unfold declared_kind. induction caps as [|d caps IH]; [by intros _ ?%not_elem_of_nil|].
  rewrite fmap_cons. intros [Hd Hnd]%NoDup_cons [->|Hc]%elem_of_cons.
  - rewrite filter_cons_True by done.
    assert (filter (λ c, type_name c = type_name d) caps = []) as ->; [|done].
    apply elem_of_nil_inv. intros x [Hx Hin]%list_elem_of_filter. apply Hd.
    rewrite <-Hx. by apply list_elem_of_fmap_2.
  - specialize (IH Hnd Hc). rewrite filter_cons. destruct (decide _) as [He|]; [|done].
    exfalso. apply Hd. rewrite He. by apply list_elem_of_fmap_2.
Qed.

(** ** Lemmas: the delta *)

Section DeltaFold.
Context (pm : list (string * Capability)).

(** What one entry contributes to each list. *)
Definition entry_added (e : string * Capability) : option string :=
  match bt_get pm e.1 with None => Some e.1 | Some _ => None end.
Definition entry_broadened (e : string * Capability) : option CapabilityBroadening :=
  p ← bt_get pm e.1; capability_broadening e.1 p e.2.
Definition entry_narrowed (e : string * Capability) : option string :=
  p ← bt_get pm e.1;
  match capability_broadening e.1 p e.2 with
  | Some _ => None
  | None => if capability_narrowed p e.2 then Some e.1 else None
  end.

Lemma delta_fold_spec m :
  fold_left (delta_step pm) m
    {| added := []; broadened := []; narrowed := []; removed := [] |} =
  {| added := omap entry_added m; broadened := omap entry_broadened m;
     narrowed := omap entry_narrowed m; removed := [] |}.
Proof.
  induction m as [|[t c] m IH] using rev_ind; [done|].
  rewrite fold_left_app, IH, !omap_app. simpl.
  unfold entry_added, entry_broadened, entry_narrowed, delta_step; simpl.
  destruct (bt_get pm t) as [p|]; simpl;
    [destruct (capability_broadening t p c); [|destruct (capability_narrowed p c)]|];
    simpl; by rewrite ?app_nil_r.
Qed.
End DeltaFold.

Lemma has_broadening_false d : has_broadening d = false ↔ added d = [] ∧ broadened d = [].
Proof. unfold has_broadening. destruct (added d), (broadened d); naive_solver. Qed.

Lemma delta_members previous current :
  let d := compute_capability_delta previous current in
  (∀ t, t ∈ added d ↔ is_Some (declared_kind current t) ∧ declared_kind previous t = None) ∧
  (∀ t, t ∈ removed d ↔ is_Some (declared_kind previous t) ∧ declared_kind current t = None) ∧
  (∀ b, b ∈ broadened d ↔ ∃ t p c, declared_kind previous t = Some p ∧
     declared_kind current t = Some c ∧ capability_broadening t p c = Some b) ∧
  (∀ t, t ∈ narrowed d ↔ ∃ p c, declared_kind previous t = Some p ∧
     declared_kind current t = Some c ∧ capability_broadening t p c = None ∧
     capability_narrowed p c = true).
Proof.
  intros d. subst d. unfold compute_capability_delta. rewrite delta_fold_spec.
  cbn [added broadened narrowed removed].
  assert (∀ caps t c, (t, c) ∈ capability_map caps ↔ declared_kind caps t = Some c) as HM.
  { intros. rewrite bt_get_elem by apply capability_map_wf. by rewrite capability_map_get. }
  split_and!.
  - intros t. rewrite list_elem_of_omap. split.
    + intros ([t' c] & Hin%HM & He). unfold entry_added in He; simpl in He.
      rewrite capability_map_get in He. by destruct (declared_kind previous t') eqn:?; simplify_eq.
    + intros [[c Hc] Hn]. exists (t, c). rewrite HM. split; [done|].
      unfold entry_added; simpl. by rewrite capability_map_get, Hn.
  - intros t. rewrite list_elem_of_In, filter_In, <-list_elem_of_In, capability_map_get.
    unfold bt_keys. rewrite list_elem_of_fmap. split.
    + intros [([t' c] & -> & Hin%HM) He]. simpl in *. by destruct (declared_kind current t').
    + intros [[c Hc] ->]. split; [|done]. exists (t, c). by rewrite HM.
  - intros b. rewrite list_elem_of_omap. split.
    + intros ([t c] & Hin%HM & He). unfold entry_broadened in He; simpl in He.
      rewrite capability_map_get in He. apply bind_Some in He as (p & Hp & He). by exists t, p, c.
    + intros (t & p & c & Hp & Hc & Hb). exists (t, c). rewrite HM. split; [done|].
      unfold entry_broadened; simpl. by rewrite capability_map_get, Hp.
  - intros t. rewrite list_elem_of_omap. split.
    + intros ([t' c] & Hin%HM & He). unfold entry_narrowed in He; simpl in He.
      rewrite capability_map_get in He. apply bind_Some in He as (p & Hp & He).
      repeat case_match; simplify_eq. by exists p, c.
    + intros (p & c & Hp & Hc & Hb & Hn). exists (t, c). rewrite HM. split; [done|].
      unfold entry_narrowed; simpl. by rewrite capability_map_get, Hp; simpl; rewrite Hb, Hn.
Qed.

Lemma no_broadening_spec previous current :
  has_broadening (compute_capability_delta previous current) = false ↔
  ∀ t c, declared_kind current t = Some c →
    ∃ p, declared_kind previous t = Some p ∧ capability_broadening t p c = None.
Proof.
  destruct (delta_members previous current) as (HA & _ & HB & _).
  rewrite has_broadening_false. split.
  - intros [Ha Hb] t c Hc. destruct (declared_kind previous t) as [p|] eqn:Hp.
    + exists p. split; [done|]. destruct (capability_broadening t p c) as [b|] eqn:E; [|done].
      exfalso. apply (not_elem_of_nil b). rewrite <-Hb. apply HB. by exists t, p, c.
    + exfalso. apply (not_elem_of_nil t). rewrite <-Ha. apply HA. by rewrite Hc.
  - intros H. split; apply elem_of_nil_inv.
    + intros t [[c Hc] Hn]%HA. destruct (H t c Hc) as (p & Hp & _). congruence.
    + intros b (t & p & c & Hp & Hc & Hb)%HB. destruct (H t c Hc) as (p' & Hp' & Hb').
      congruence.
Qed.

Lemma capability_set_covers_spec declared artifact :
  capability_set_covers declared artifact = true ↔
  ∀ c, c ∈ artifact → ∃ p, declared_kind declared (type_name c) = Some p ∧
    capability_broadening (type_name c) p c = None.
Proof.
  unfold capability_set_covers. rewrite forallb_true. split.
  - intros H c Hc. specialize (H c Hc). simpl in H. rewrite capability_map_get in H.
    destruct (declared_kind _ _) as [p|]; [|done]. exists p. split; [done|].
    by destruct (capability_broadening _ _ _).
  - intros H c Hc. destruct (H c Hc) as (p & Hp & Hb). simpl.
    by rewrite capability_map_get, Hp, Hb.
Qed.

(** The published list of kind names is exactly the image of [type_name],
    without repetitions, so validating a configured name against it accepts
    every kind and refuses every typo. *)
Theorem kind_names_exact :
  NoDup all_capability_kind_names ∧
  ∀ n, n ∈ all_capability_kind_names ↔ ∃ c, type_name c = n.
Proof.
  split; [by apply (bool_decide_unpack _); vm_compute|]. intros n. split.
  - intros H. repeat (apply elem_of_cons in H as [->|H]); [..|by apply not_elem_of_nil in H].
    all: first [by exists (SandboxFunctions []) | by exists (ReadAccess [])
      | by exists (WriteAccess []) | by exists (NetworkAccess []) | by exists (AgentSpawn 0 0)
      | by exists (AgentMessage []) | by exists (BackgroundReevaluation 0 false)
      | by exists (CodeExecution [] []) | by exists ArtifactExecution | by exists EmergencyStop
      | by exists (AgentRevision []) | by exists (Evaluation []) | by exists (ApprovalQueue [])
      | by exists (SchedulerSignal []) | by exists (CredentialAccess [])
      | by exists (UserProfileAccess []) | by exists (SchedulerAccess [])
      | by exists (SkillInstall []) | by exists (ConstitutionalProposal [])
      | by exists (ReasoningAudit []) | by exists BudgetNoPriceAvailableAllow
      | by exists (GithubIssueCreate []) | by exists SecurityRedTeam | by exists CapsuleExport
      | by exists SelfCapsuleExport | by exists WikiContribute | by exists (PlanFrameAccess [])
      | by exists (PromoteWith "" []) | by exists (GateDecider [])
      | by exists (AnomalyAdjudicate [])].
  - intros [c <-]. apply (bool_decide_unpack _). by destruct c; vm_compute.
Qed.

(** An authority operation is granted only by naming it exactly: a
    wildcard or a prefix never grants it, while a wildcard grants every
    participation operation. *)
Theorem authority_requires_exact_grant patterns operation :
  (is_authority_operation operation = true →
   patterns_allow patterns operation = true ↔ operation ∈ trim <$> patterns) ∧
  (is_authority_operation operation = false → "*" ∈ patterns →
   patterns_allow patterns operation = true).
Proof.
  unfold patterns_allow. split.
  - intros Ha. rewrite Ha, existsb_true. rewrite list_elem_of_fmap.
    assert (operation ≠ "") by (intros ->; discriminate Ha). split.
    + intros (raw & Hin & Hr). exists raw. split; [|done].
      destruct (str_is_empty _); [done|]. destruct (String.eqb_spec (trim raw) operation); done.
    + intros (raw & -> & Hin). exists raw. split; [done|].
      destruct (trim raw); [done|]. by rewrite String.eqb_refl.
  - intros -> Hin. apply existsb_true. exists "*". split; [done|].
    change (trim "*") with "*". cbv zeta. simpl str_is_empty. cbv iota.
    by destruct (String.eqb "*" operation).
Qed.

(** The delta classifies every kind by its last declaration: added when
    only the new revision declares it, removed when only the old one does,
    broadened when the scope test flags the pair, narrowed when it does not
    and the new scope is strictly smaller. *)
Theorem capability_delta_spec previous current :
  let d := compute_capability_delta previous current in
  (∀ t, t ∈ added d ↔ is_Some (declared_kind current t) ∧ declared_kind previous t = None) ∧
  (∀ t, t ∈ removed d ↔ is_Some (declared_kind previous t) ∧ declared_kind current t = None) ∧
  (∀ b, b ∈ broadened d ↔ ∃ t p c, declared_kind previous t = Some p ∧
     declared_kind current t = Some c ∧ capability_broadening t p c = Some b) ∧
  (∀ t, t ∈ narrowed d ↔ ∃ p c, declared_kind previous t = Some p ∧
     declared_kind current t = Some c ∧ capability_broadening t p c = None ∧
     capability_narrowed p c = true).
Proof. apply delta_members. Qed.
