(* ===== verification/ShellAnalyzer.v ===== *)
(** * The static analysis of shell commands

    The model of [SecurityAnalyzer] and its helpers in
    [autonoetic-gateway/src/policy.rs]: per-segment threat checks, the
    quote-aware command-substitution scan that recurses into substitution
    bodies up to [MAX_SUBSTITUTION_DEPTH], and the script content checks.

    A byte index into the command is represented by the suffix that starts
    there; [i += k] drops [k] bytes of it.  [extract_substitution_body] and the
    injection scan are structural on the suffix; the scan carries the number of
    bytes still to be dropped when it jumps behind a substitution.  The
    recursion through substitution bodies is on the levels that remain below
    the depth limit. *)

From Stdlib Require Import Ascii String.
From stdpp Require Import prelude gmap strings list sorting.
From S2P Require Import Prelude RustStr.

Open Scope string_scope.
Open Scope nat_scope.
Open Scope list_scope.

(** ** Data *)

Inductive SecurityThreat : Type :=
| Destructive
| PrivilegeEscalation
| EnvironmentDisclosure
| NetworkExfiltration
| SandboxEscape
| ResourceExhaustion
| ShellInjection
| CodeFromInput.

#[export] Instance SecurityThreat_eq_dec : EqDecision SecurityThreat.
Proof. solve_decision. Defined.

Record SecurityAnalysis := {
  is_safe : bool;
  threats : list SecurityThreat;
  reason : option string;
}.

(** The derived [Debug] of a threat and of a list of threats. *)
Definition threat_debug (t : SecurityThreat) : string :=
  match t with
  | Destructive => "Destructive"
  | PrivilegeEscalation => "PrivilegeEscalation"
  | EnvironmentDisclosure => "EnvironmentDisclosure"
  | NetworkExfiltration => "NetworkExfiltration"
  | SandboxEscape => "SandboxEscape"
  | ResourceExhaustion => "ResourceExhaustion"
  | ShellInjection => "ShellInjection"
  | CodeFromInput => "CodeFromInput"
  end.

Definition threats_debug (l : list SecurityThreat) : string :=
  ("[" ++ join ", " (threat_debug <$> l) ++ "]")%string.

(** The characters of the scan that cannot be written as themselves. *)
Definition dquote : ascii := ch 34.
Definition backslash : ascii := ch 92.
Definition backtick : ascii := ch 96.

(** [|c| c == '|' || c == '&' || c == ';'] *)
Definition is_separator (c : ascii) : bool :=
  Ascii.eqb c "|" || Ascii.eqb c "&" || Ascii.eqb c ";".

Definition command_segments (command : string) : list string := split is_separator command.

(** ** Lexical helpers *)

Fixpoint strip_comments_loop (s : string) (in_single in_double : bool) : string :=
  match s with
  | "" => ""
  | String c r =>
      if negb in_single && negb in_double && Ascii.eqb c "#" then ""
      else
        let in_single' :=
          if Ascii.eqb c "'" && negb in_double then negb in_single else in_single in
        let in_double' :=
          if Ascii.eqb c "'" && negb in_double then in_double
          else if Ascii.eqb c dquote && negb in_single then negb in_double else in_double in
        String c (strip_comments_loop r in_single' in_double')
  end.

Definition strip_shell_line_comments_outside_quotes (s : string) : string :=
  strip_comments_loop s false false.

Definition first_shell_token (cmd_lower : string) : option string :=
  head (split_whitespace cmd_lower).

Fixpoint shell_wrapper_loop (tokens : list string) : bool :=
  match tokens with
  | [] => false
  | token :: rest =>
      if contains_char token "=" then shell_wrapper_loop rest
      else
        let basename := default token (last (split (Ascii.eqb "/") token)) in
        if existsb (String.eqb basename) ["bash"; "sh"; "zsh"; "dash"; "ash"; "ksh"]
        then match head rest with Some t => (t =? "-c")%string | None => false end
        else false
  end.

Definition is_shell_wrapper_command (cmd : string) : bool :=
  shell_wrapper_loop (take 6 (split_whitespace (trim_start cmd))).

(** The distance from the start of [s] to the byte that closes the
    substitution. *)
Fixpoint substitution_close (s : string) (close : ascii) (depth : nat)
    (in_single in_double : bool) : option nat :=
  match s with
  | "" => None
  | String c r =>
      if Ascii.eqb c backslash && negb (str_is_empty r) then
        match r with
        | "" => None
        | String _ r' => (λ n, 2 + n) <$> substitution_close r' close depth in_single in_double
        end
      else if Ascii.eqb c "'" && negb in_double then
        S <$> substitution_close r close depth (negb in_single) in_double
      else if Ascii.eqb c dquote && negb in_single then
        S <$> substitution_close r close depth in_single (negb in_double)
      else if negb in_single && negb in_double then
        if Ascii.eqb close ")" && Ascii.eqb c "$" && starts_with r "(" then
          match r with
          | "" => None
          | String _ r' =>
              (λ n, 2 + n) <$> substitution_close r' close (S depth) in_single in_double
          end
        else if Ascii.eqb c close then
          match depth with
          | 0 | 1 => Some 0
          | S depth' => S <$> substitution_close r close depth' in_single in_double
          end
        else S <$> substitution_close r close depth in_single in_double
      else S <$> substitution_close r close depth in_single in_double
  end.

(** [cmd] is the suffix of the command at [start]; the index behind the
    closing byte is returned relative to [start]. *)
Definition extract_substitution_body (cmd : string) (close : ascii) : option (string * nat) :=
  n ← substitution_close cmd close 1 false false;
  Some (String.substring 0 n cmd, S n).

Definition is_word_boundary (c : ascii) : bool :=
  negb (is_ascii_alphanumeric c) && negb (Ascii.eqb c "_").

(** One run of the search loop: [s] is [cmd\[offset..\]] and [prev] the
    character before [offset].  [None] is a run that used up its fuel. *)
Fixpoint shell_word_loop (fuel : nat) (prev : option ascii) (s word : string) : option bool :=
  match fuel with
  | 0 => None
  | S fuel' =>
      match find s word with
      | None => Some false
      | Some found =>
          let prev_char := if found =? 0 then prev else last_char (String.substring 0 found s) in
          let rest := skip (found + String.length word) s in
          let prev_is_boundary := from_option is_word_boundary true prev_char in
          let next_is_boundary := from_option is_word_boundary true (first_char rest) in
          if prev_is_boundary && next_is_boundary then Some true
          else shell_word_loop fuel'
                 (if str_is_empty word then prev_char else last_char word) rest word
      end
  end.

(** [None]: the loop of the source does not return. *)
Definition contains_shell_word (cmd word : string) : option bool :=
  shell_word_loop (S (String.length cmd)) None cmd word.

(** A call with one of the analyzer's own (non-empty) words. *)
Definition has_shell_word (cmd word : string) : bool := default false (contains_shell_word cmd word).

(** ** Per-segment checks *)

Definition segment_starts_with_disk_format_command (segment : string) : bool :=
  let first := to_lowercase (default "" (head (split_whitespace segment))) in
  (first =? "format")%string || ends_with first "/format.com"
  || ends_with first (String backslash "format.com").

Definition destructive_patterns : list string :=
  ["dd if="; "dd of=/dev/"; "mkfs"; ":(){ :|:& };:"; "> /dev/"; "shred "; "wipefs"].

Definition is_destructive (cmd : string) : bool :=
  let cmd_lower := to_lowercase cmd in
  if has_shell_word cmd_lower "rm" || has_shell_word cmd_lower "rmdir"
     || has_shell_word cmd_lower "unlink"
     || (contains cmd_lower "find " && contains cmd_lower " -delete") then true
  else if existsb (λ segment, let trimmed := trim segment in
            negb (str_is_empty trimmed) && segment_starts_with_disk_format_command trimmed)
          (command_segments cmd) then true
  else existsb (contains cmd_lower) destructive_patterns.

Definition is_privilege_escalation (cmd : string) : bool :=
  let cmd_lower := to_lowercase cmd in
  if has_shell_word cmd_lower "sudo" || has_shell_word cmd_lower "su"
     || has_shell_word cmd_lower "doas" then true
  else existsb (contains cmd_lower)
         ["setuid"; "setgid"; "chmod +s"; "chmod u+s"; "chown root"; "visudo"].

Definition is_environment_disclosure (cmd : string) : bool :=
  let cmd_lower := to_lowercase cmd in
  has_shell_word cmd_lower "env" || contains cmd_lower "printenv"
  || contains cmd_lower "declare -x" || contains cmd_lower "/proc/self/environ"
  || contains cmd_lower "/proc/1/environ" || contains cmd_lower "/etc/environment".

Definition is_sandbox_escape (cmd : string) : bool :=
  let cmd_lower := to_lowercase cmd in
  if existsb (contains cmd_lower) ["cat /proc/"; "ls /proc/"; "cat /sys/"; "ls /sys/"] then true
  else if contains cmd_lower "lxc-" then true
  else match first_shell_token cmd_lower with
       | Some t => existsb (String.eqb t)
           ["mount"; "umount"; "chroot"; "nsenter"; "unshare"; "systemctl"; "service"; "docker"]
       | None => false
       end.

Definition is_code_from_input (cmd : string) : bool :=
  existsb (contains cmd)
    ["node -e "; "node --eval "; "perl -e "; "ruby -e "; "php -r "; "lua -e "].

Definition is_resource_exhaustion (cmd : string) : bool :=
  existsb (contains cmd)
    [":(){ :|:& };:"; "while true"; "while :"; "for (( ;; ))"; "ulimit -c unlimited"].

(** The threats pushed for one segment, in order. *)
Definition segment_threats (segment : string) : list SecurityThreat :=
  let trimmed := trim segment in
  if str_is_empty trimmed then []
  else
    (if is_destructive trimmed then [Destructive] else []) ++
    (if is_privilege_escalation trimmed then [PrivilegeEscalation] else []) ++
    (if is_environment_disclosure trimmed then [EnvironmentDisclosure] else []) ++
    (if is_sandbox_escape (strip_shell_line_comments_outside_quotes trimmed)
     then [SandboxEscape] else []) ++
    (if is_code_from_input trimmed then [CodeFromInput] else []) ++
    (if is_resource_exhaustion trimmed then [ResourceExhaustion] else []).

(** ** The command-substitution scan *)

Definition MAX_SUBSTITUTION_DEPTH : nat := 3.

Section Scan.
(** The verdict on a substitution body, one level down. *)
Context (body_unsafe : string → bool).

(** [skipped] bytes are still inside a substitution that was just cleared. *)
Fixpoint injection_scan (single_quote_body_is_shell : bool) (s : string) (skipped : nat)
    (in_single in_double at_command_position : bool) : bool :=
  match s with
  | "" => false
  | String c r =>
      match skipped with
      | S k => injection_scan single_quote_body_is_shell r k in_single in_double
                 at_command_position
      | 0 =>
          let go := injection_scan single_quote_body_is_shell r in
          let expandable := negb in_single || single_quote_body_is_shell in
          if expandable && is_separator c then go 0 in_single in_double true
          else if Ascii.eqb c "'" && negb in_double then
            go 0 (negb in_single) in_double at_command_position
          else if Ascii.eqb c dquote && negb in_single then
            go 0 in_single (negb in_double) at_command_position
          else if in_single && negb single_quote_body_is_shell then
            go 0 in_single in_double at_command_position
          else if Ascii.eqb c "$" && starts_with r "(" then
            if at_command_position then true
            else match extract_substitution_body (skip 1 r) ")" with
                 | Some (body, end_) =>
                     if body_unsafe body then true
                     else go (1 + end_) in_single in_double at_command_position
                 | None => true
                 end
          else if Ascii.eqb c backtick then
            if at_command_position then true
            else match extract_substitution_body r backtick with
                 | Some (body, end_) =>
                     if body_unsafe body then true
                     else go end_ in_single in_double at_command_position
                 | None => true
                 end
          else if Ascii.eqb c "e" && starts_with s "eval " then true
          else go 0 in_single in_double
                 (if negb (is_ascii_whitespace c) then false else at_command_position)
      end
  end.

Definition shell_injection_with (cmd : string) : bool :=
  injection_scan (is_shell_wrapper_command cmd) cmd 0 false false true.

Definition analyze_with (command : string) : SecurityAnalysis :=
  let threats :=
    concat (segment_threats <$> command_segments command) ++
    (if shell_injection_with command then [ShellInjection] else []) in
  match threats with
  | [] => {| is_safe := true; threats := []; reason := None |}
  | _ => {| is_safe := false; threats := threats;
            reason := Some ("Command contains security threats: " ++ threats_debug threats)%string |}
  end.
End Scan.

(** [remaining] levels are left below [MAX_SUBSTITUTION_DEPTH]. *)
Fixpoint body_unsafe_within (remaining : nat) (body : string) : bool :=
  match remaining with
  | 0 => true
  | S remaining' =>
      let trimmed := trim body in
      if str_is_empty trimmed then false
      else
        let first_token := default "" (head (split_whitespace trimmed)) in
        if contains_char first_token "$" || contains_char first_token backtick then true
        else negb (is_safe (analyze_with (body_unsafe_within remaining') trimmed))
  end.

Definition substitution_body_is_unsafe (body : string) (depth : nat) : bool :=
  body_unsafe_within (MAX_SUBSTITUTION_DEPTH - depth) body.

Definition is_shell_injection_at_depth (cmd : string) (depth : nat) : bool :=
  shell_injection_with (λ body, substitution_body_is_unsafe body depth) cmd.

Definition is_shell_injection (cmd : string) : bool := is_shell_injection_at_depth cmd 0.

Definition analyze_command_at_depth (command : string) (depth : nat) : SecurityAnalysis :=
  analyze_with (λ body, substitution_body_is_unsafe body depth) command.

Definition analyze_command (command : string) : SecurityAnalysis :=
  analyze_command_at_depth command 0.

(** ** Script contents *)

Definition network_patterns : list string :=
  ["urllib.request"; "urllib.urlopen"; "requests.get"; "requests.post"; "http.client"; "httpx";
   "aiohttp"; "socket.socket"; "subprocess"; "os.system"; "os.popen"].
Definition exec_patterns : list string :=
  ["eval("; "exec("; "__import__("; "compile("; "getattr(__builtins__"].
Definition fs_patterns : list string :=
  ["shutil.rmtree"; ("os.remove(" ++ String dquote ("/" ++ String dquote ")"))%string;
   "os.unlink"; "open('/dev/"].

Definition analyze_script_content (script_content : string) : list SecurityThreat :=
  (if existsb (contains script_content) network_patterns then [NetworkExfiltration] else []) ++
  (if existsb (contains script_content) exec_patterns then [ShellInjection] else []) ++
  (if existsb (contains script_content) fs_patterns then [Destructive] else []).

Definition script_requires_approval (script_content : string) (has_network_access : bool)
    : option string :=
  let threats := analyze_script_content script_content in
  match threats with
  | [] => None
  | _ =>
      if bool_decide (NetworkExfiltration ∈ threats) && negb has_network_access then
        Some "Script makes network calls but agent lacks NetworkAccess capability"
      else if bool_decide (ShellInjection ∈ threats) then
        Some "Script uses eval/exec which could be dangerous"
      else if bool_decide (Destructive ∈ threats) then
        Some "Script performs potentially destructive file operations"
      else None
  end.

(** ** Runs on commands of the test suite *)

Example analyze_version_probe :
  is_safe (analyze_command "echo node=$(node --version)") = true.
Proof. vm_compute. reflexivity. Qed.

Example analyze_encoded_payload :
  threats (analyze_command "$(echo cm0gLXJm | base64 -d) -rf /") = [ShellInjection].
Proof. vm_compute. reflexivity. Qed.

Example analyze_rm_in_body :
  threats (analyze_command "echo $(rm -rf /)") = [Destructive; ShellInjection].
Proof. vm_compute. reflexivity. Qed.

Example analyze_python_literal :
  is_safe (analyze_command "python3 -c 'print(1) # $(x)'") = true.
Proof. vm_compute. reflexivity. Qed.

(** ** Lemmas: word search *)

Definition boundary (o : option ascii) : bool := from_option is_word_boundary true o.

(** The character before the position behind [a]. *)
Definition last_after (prev : option ascii) (a : string) : option ascii :=
  match a with "" => prev | _ => last_char a end.

Lemma last_after_app prev a t : t ≠ "" → last_after prev (a ++ t) = last_char t.
Proof.
  intros Ht. unfold last_after. rewrite last_char_app.
  destruct (a ++ t)%string eqn:E; [by destruct a, t|]. by destruct t.
Qed.

(** [word] occurs in [s] with a boundary on both sides; [prev] is the
    character before [s]. *)
Definition word_occurs_after (prev : option ascii) (s word : string) : Prop :=
  ∃ a b, s = (a ++ word ++ b)%string ∧
    boundary (last_after prev a) = true ∧
    boundary (first_char b) = true.

Definition word_occurs (cmd word : string) : Prop :=
  ∃ a b, cmd = (a ++ word ++ b)%string ∧
    boundary (last_char a) = true ∧ boundary (first_char b) = true.

Definition is_word (word : string) : Prop :=
  word ≠ "" ∧ str_existsb is_word_boundary word = false.

Lemma word_occurs_after_none cmd word : word_occurs_after None cmd word ↔ word_occurs cmd word.
Proof.
  unfold word_occurs_after, word_occurs. split; intros (a & b & Hs & Ha & Hb);
    exists a, b; by destruct a.
Qed.

(** A failed candidate can be skipped entirely: an occurrence that overlaps it
    starts inside the word. *)
Lemma word_occurs_skip prev a0 word b0 :
  is_word word →
  (∀ a b, (a0 ++ word ++ b0)%string = (a ++ word ++ b)%string →
     String.length a0 ≤ String.length a) →
  ¬ (boundary (last_after prev a0) = true ∧
     boundary (first_char b0) = true) →
  word_occurs_after prev (a0 ++ word ++ b0) word ↔ word_occurs_after (last_char word) b0 word.
Proof.
  intros [Hne Hw] Hmin Hfail. split.
  - intros (a & b & Heq & Ha & Hb). pose proof (Hmin a b Heq) as Hle.
    destruct (str_app_split _ _ _ _ Heq Hle) as (z & -> & Hz).
    destruct (decide (String.length word ≤ String.length z)) as [Hl|Hl].
    + destruct (str_app_split _ _ _ _ Hz Hl) as (y & -> & ->). exists y, b.
      split_and!; [done| |done]. destruct y as [|e y].
      * rewrite str_app_nil_r, last_after_app in Ha by done. done.
      * by rewrite <-str_app_assoc, last_after_app in Ha.
    + exfalso. destruct z as [|e z].
      * rewrite str_app_nil_r in *. simpl in Hz. apply str_app_inv_l in Hz as ->.
        by apply Hfail.
      * destruct (str_app_split (String e z) (word ++ b) word b0) as (y & Hy & _);
          [by rewrite Hz|simpl in *; lia|].
        rewrite last_after_app in Ha by done.
        destruct (last_char_some (String e z)) as [c Hc]; [done|]. rewrite Hc in Ha.
        rewrite Hy, str_existsb_app in Hw. apply orb_false_iff in Hw as [Hw _].
        by rewrite (last_char_existsb _ _ _ Hc Ha) in Hw.
  - intros (a & b & -> & Ha & Hb). exists (a0 ++ word ++ a)%string, b.
    split_and!; [by rewrite !str_app_assoc| |done]. destruct a as [|e a].
    + by rewrite str_app_nil_r, last_after_app.
    + by rewrite <-str_app_assoc, last_after_app.
Qed.

Lemma boundary_false_elim prev a b :
  boundary (last_after prev a) && boundary (first_char b) = false →
  ¬ (boundary (last_after prev a) = true ∧ boundary (first_char b) = true).
Proof. intros H [H1 H2]. by rewrite H1, H2 in H. Qed.

Lemma shell_word_loop_spec fuel prev s word :
  is_word word → String.length s < fuel →
  ∃ r, shell_word_loop fuel prev s word = Some r ∧
       (r = true ↔ word_occurs_after prev s word).
Proof.
  intros Hw. revert prev s. induction fuel as [|fuel IH]; intros prev s Hf; [lia|]. simpl.
  destruct (find s word) as [n|] eqn:Ef.
  - destruct (find_spec _ _ _ Ef) as (a & b & -> & <-).
    rewrite substring_app, <-str_app_assoc, <-str_length_app, skip_length, str_app_assoc.
    assert ((if String.length a =? 0 then prev else last_char a) = last_after prev a) as ->
      by (by destruct a).
    fold (boundary (last_after prev a)) (boundary (first_char b)).
    destruct (boundary (last_after prev a) && boundary (first_char b)) eqn:Eb.
    + exists true. split; [done|]. split; [|done]. intros _. exists a, b.
      by apply andb_true_iff in Eb.
    + assert (str_is_empty word = false) as -> by (by destruct Hw, word).
      destruct (IH (last_char word) b) as (r & Hr & Hs).
      { rewrite !str_length_app in Hf. destruct Hw as [Hne _].
        destruct word; [done|]. simpl in Hf. lia. }
      exists r. split; [done|]. rewrite Hs. symmetry. apply word_occurs_skip; [done| |].
      * intros a' b' Heq. by eapply find_first.
      * by apply boundary_false_elim.
  - exists false. split; [done|]. split; [done|]. intros (a & b & -> & _ & _).
    apply find_none in Ef. rewrite <-not_true_iff_false, contains_spec in Ef. exfalso.
    apply Ef. by exists a, b.
Qed.

(** On a non-empty word every iteration shortens the rest of the command. *)
Lemma shell_word_loop_returns fuel prev s word :
  word ≠ "" → String.length s < fuel → is_Some (shell_word_loop fuel prev s word).
Proof.
  intros Hne. revert prev s. induction fuel as [|fuel IH]; intros prev s Hf; [lia|]. simpl.
  destruct (find s word) as [n|] eqn:Ef; [|done].
  destruct (find_spec _ _ _ Ef) as (a & b & -> & <-).
  rewrite <-str_app_assoc, <-str_length_app, skip_length. case_match; [done|]. apply IH.
  rewrite !str_length_app in Hf. destruct word; [done|]. simpl in Hf. lia.
Qed.

(** The loop on an empty word makes no progress. *)
Lemma shell_word_loop_empty fuel prev s :
  shell_word_loop (S fuel) prev s "" =
  if boundary prev && boundary (first_char s) then Some true else shell_word_loop fuel prev s "".
Proof. simpl. destruct s; by rewrite ?starts_with_empty. Qed.

Lemma shell_word_loop_empty_diverges fuel prev s :
  boundary prev && boundary (first_char s) = false → shell_word_loop fuel prev s "" = None.
Proof.
  intros H. induction fuel as [|fuel IH]; [done|]. by rewrite shell_word_loop_empty, H.
Qed.

Lemma contains_shell_word_word cmd word :
  is_word word → ∃ r, contains_shell_word cmd word = Some r ∧ (r = true ↔ word_occurs cmd word).
Proof.
  intros Hw. destruct (shell_word_loop_spec (S (String.length cmd)) None cmd word Hw) as (r & Hr & H); [lia|].
  exists r. by rewrite <-word_occurs_after_none.
Qed.

(** For a word made of word characters the search returns, and finds the
    word exactly when it occurs with a boundary (or an end of the command) on
    each side, although the loop skips over failed candidates.  For the empty
    word it returns [true] or does not return at all, whatever the fuel. *)
Theorem contains_shell_word_spec cmd word :
  (is_word word →
   is_Some (contains_shell_word cmd word) ∧
   (contains_shell_word cmd word = Some true ↔ word_occurs cmd word)) ∧
  (boundary (first_char cmd) = true → contains_shell_word cmd "" = Some true) ∧
  (boundary (first_char cmd) = false → ∀ fuel, shell_word_loop fuel None cmd "" = None).
Proof.
  split_and!.
  - intros (r & -> & Hr)%(contains_shell_word_word cmd). split; [done|].
    rewrite <-Hr. split; [by intros [= ->]|by intros ->].
  - intros H. unfold contains_shell_word. by rewrite shell_word_loop_empty, H.
  - intros H fuel. by apply shell_word_loop_empty_diverges.
Qed.

Lemma contains_shell_word_spec_witness :
  word_occurs "cd x && rm -rf y" "rm" ∧ ∀ fuel, shell_word_loop fuel None "ls" "" = None.
Proof.
  split.
  - apply (contains_shell_word_spec "cd x && rm -rf y" "rm"); [done|]. vm_compute. reflexivity.
  - apply (contains_shell_word_spec "ls" ""). reflexivity.
Defined.

Lemma has_shell_word_spec cmd word :
  is_word word → has_shell_word cmd word = true ↔ word_occurs cmd word.
Proof.
  intros (r & Hr & H)%(contains_shell_word_word cmd). unfold has_shell_word. by rewrite Hr.
Qed.

(** ** Lemmas: the analysis *)

Lemma analyze_safe bu command :
  is_safe (analyze_with bu command) = true ↔
  (∀ seg, seg ∈ command_segments command → segment_threats seg = []) ∧
  shell_injection_with bu command = false.
Proof.
  unfold analyze_with.
  set (l := concat _). set (i := shell_injection_with bu command).
  assert (l = [] ↔ ∀ seg, seg ∈ command_segments command → segment_threats seg = []) as Hl.
  { subst l. generalize (command_segments command) as segs.
    induction segs as [|x segs IH]; simpl.
    - split; [|done]. intros _ seg ?%not_elem_of_nil. done.
    - setoid_rewrite elem_of_cons. rewrite app_nil, IH. naive_solver. }
  rewrite <-Hl. destruct l, i; simpl; naive_solver.
Qed.

(** The words no part of a safe command may contain. *)
Definition refused_words : list string :=
  ["rm"; "rmdir"; "unlink"; "sudo"; "su"; "doas"; "env"].

Lemma refused_words_are_words w : w ∈ refused_words → is_word w.
Proof.
  intros H. unfold refused_words in H.
  repeat (apply elem_of_cons in H as [->|H]); [done..|by apply not_elem_of_nil in H].
Qed.

Lemma segment_safe seg :
  segment_threats seg = [] →
  trim seg = "" ∨
  is_destructive (trim seg) = false ∧ is_privilege_escalation (trim seg) = false ∧
  is_environment_disclosure (trim seg) = false ∧
  is_sandbox_escape (strip_shell_line_comments_outside_quotes (trim seg)) = false ∧
  is_code_from_input (trim seg) = false ∧ is_resource_exhaustion (trim seg) = false.
Proof.
  unfold segment_threats. destruct (trim seg) as [|c s]; [by left|].
  generalize (String c s) as x. intros x. destruct (str_is_empty x) eqn:E.
  { intros _. left. by destruct x. }
  rewrite !app_nil. intros (H1 & H2 & H3 & H4 & H5 & H6). right.
  by destruct (is_destructive x), (is_privilege_escalation x), (is_environment_disclosure x),
    (is_sandbox_escape _), (is_code_from_input x), (is_resource_exhaustion x).
Qed.

(** In a command judged safe, at any substitution depth, no segment
    contains one of the refused command words as a word, in any case. *)
Theorem safe_command_has_no_refused_word command depth seg w :
  is_safe (analyze_command_at_depth command depth) = true →
  seg ∈ command_segments command → w ∈ refused_words →
  ¬ word_occurs (to_lowercase (trim seg)) w.
Proof.
  intros [Hs _]%analyze_safe Hseg Hw Hocc.
  apply (has_shell_word_spec _ _ (refused_words_are_words w Hw)) in Hocc.
  destruct (segment_safe seg (Hs seg Hseg)) as [He|(Hd & Hp & Hv & _)].
  - rewrite He in Hocc. unfold refused_words in Hw.
    repeat (apply elem_of_cons in Hw as [->|Hw]; [discriminate Hocc|]).
    by apply not_elem_of_nil in Hw.
  - unfold is_destructive, is_privilege_escalation, is_environment_disclosure in *.
    unfold refused_words in Hw. repeat (apply elem_of_cons in Hw as [->|Hw];
      [rewrite Hocc, ?orb_true_r in *; simpl in *; discriminate|]).
    by apply not_elem_of_nil in Hw.
Qed.

Lemma safe_command_has_no_refused_word_witness :
  ¬ word_occurs (to_lowercase (trim " grep rmx y")) "rm".
Proof.
  apply (safe_command_has_no_refused_word "cat x | grep rmx y" 0 " grep rmx y" "rm").
  - vm_compute. reflexivity.
  - apply (bool_decide_unpack _). vm_compute. exact I.
  - apply (bool_decide_unpack _). vm_compute. exact I.
Defined.

(** ** Lemmas: substitutions *)

Lemma substitution_close_spec s close depth si di n :
  substitution_close s close depth si di = Some n →
  ∃ body rest, s = (body ++ String close rest)%string ∧ String.length body = n.
Proof.
  remember (String.length s) as k eqn:Hk. assert (String.length s ≤ k) as Hle by lia. clear Hk.
  revert s depth si di n Hle.
  induction k as [|k IH]; intros s depth si di n Hle; (destruct s as [|c r]; [done|]);
    simpl in Hle; [lia|].
  assert (∀ d i j m, S <$> substitution_close r close d i j = Some m →
    ∃ body rest, String c r = (body ++ String close rest)%string ∧ String.length body = m) as H1.
  { intros d i j m Hm. apply fmap_Some in Hm as (m' & Hm & ->).
    apply IH in Hm as (b & t & -> & <-); [|lia]. by exists (String c b), t. }
  assert (∀ e r' d i j m, r = String e r' →
    (λ n, 2 + n) <$> substitution_close r' close d i j = Some m →
    ∃ body rest, String c r = (body ++ String close rest)%string ∧ String.length body = m) as H2.
  { intros e r' d i j m -> Hm. apply fmap_Some in Hm as (m' & Hm & ->).
    apply IH in Hm as (b & t & -> & <-); [|simpl in Hle; lia]. by exists (String c (String e b)), t. }
  cbn [substitution_close].
  destruct (Ascii.eqb c backslash && _); [destruct r as [|e r']; [done|by apply (H2 e r')]|].
  destruct (Ascii.eqb c "'" && _); [apply H1|].
  destruct (Ascii.eqb c dquote && _); [apply H1|].
  destruct (negb si && negb di); [|apply H1].
  destruct (_ && starts_with r "("); [destruct r as [|e r']; [done|by apply (H2 e r')]|].
  destruct (Ascii.eqb_spec c close) as [->|]; [|apply H1].
  destruct depth as [|[|d]]; [intros [= <-]; by exists "", r..|apply H1].
Qed.

Lemma extract_substitution_body_spec cmd close body end_ :
  extract_substitution_body cmd close = Some (body, end_) →
  ∃ rest, cmd = (body ++ String close rest)%string ∧ end_ = S (String.length body).
Proof.
  unfold extract_substitution_body. intros (n & Hn & [= <- <-])%bind_Some.
  apply substitution_close_spec in Hn as (b & t & -> & <-). exists t. by rewrite substring_app.
Qed.

(** The source's recursion equation for the verdict on a body. *)
Lemma substitution_body_is_unsafe_eq body depth :
  substitution_body_is_unsafe body depth =
  if MAX_SUBSTITUTION_DEPTH <=? depth then true
  else
    let trimmed := trim body in
    if str_is_empty trimmed then false
    else
      let first_token := default "" (head (split_whitespace trimmed)) in
      if contains_char first_token "$" || contains_char first_token backtick then true
      else negb (is_safe (analyze_command_at_depth trimmed (depth + 1))).
Proof.
  unfold substitution_body_is_unsafe, analyze_command_at_depth, substitution_body_is_unsafe.
  destruct (Nat.leb_spec MAX_SUBSTITUTION_DEPTH depth) as [H|H].
  - by replace (MAX_SUBSTITUTION_DEPTH - depth) with 0 by lia.
  - replace (MAX_SUBSTITUTION_DEPTH - depth)
      with (S (MAX_SUBSTITUTION_DEPTH - (depth + 1))) by lia. done.
Qed.

(** A substitution body the analysis accepts. *)
Definition body_cleared (body : string) (depth : nat) : Prop :=
  depth < MAX_SUBSTITUTION_DEPTH ∧
  (trim body = "" ∨
   (∀ t, head (split_whitespace (trim body)) = Some t →
      contains_char t "$" = false ∧ contains_char t backtick = false) ∧
   is_safe (analyze_command_at_depth (trim body) (depth + 1)) = true).

Lemma body_cleared_spec body depth :
  substitution_body_is_unsafe body depth = false → body_cleared body depth.
Proof.
  rewrite substitution_body_is_unsafe_eq.
  destruct (Nat.leb_spec MAX_SUBSTITUTION_DEPTH depth) as [H|H]; [done|]. cbv zeta.
  destruct (str_is_empty (trim body)) eqn:E.
  { intros _. split; [done|]. left. by destruct (trim body). }
  destruct (contains_char _ "$" || _) eqn:Ed; [done|]. intros Hs%negb_false_iff.
  split; [done|]. right. split; [|done]. intros t Ht. rewrite Ht in Ed. simpl in Ed.
  by apply orb_false_iff in Ed.
Qed.

(** The scanner's state behind a prefix without substitutions. *)
Definition scan_state : Type := bool * bool * bool.

Definition scan_char (wrapper : bool) (st : scan_state) (c : ascii) : scan_state :=
  let '(in_single, in_double, at_command_position) := st in
  if (negb in_single || wrapper) && is_separator c then (in_single, in_double, true)
  else if Ascii.eqb c "'" && negb in_double then (negb in_single, in_double, at_command_position)
  else if Ascii.eqb c dquote && negb in_single then (in_single, negb in_double, at_command_position)
  else if in_single && negb wrapper then st
  else (in_single, in_double,
        if negb (is_ascii_whitespace c) then false else at_command_position).

Fixpoint scan_prefix (wrapper : bool) (st : scan_state) (a : string) : scan_state :=
  match a with "" => st | String c r => scan_prefix wrapper (scan_char wrapper st c) r end.

Definition is_plain (a : string) : Prop :=
  contains_char a "$" = false ∧ contains_char a backtick = false.

Lemma injection_scan_prefix bu wrapper a r si di acp :
  is_plain a → injection_scan bu wrapper (a ++ r) 0 si di acp = false →
  let '(si', di', acp') := scan_prefix wrapper (si, di, acp) a in
  injection_scan bu wrapper r 0 si' di' acp' = false.
Proof.
  revert si di acp. induction a as [|c a IH]; intros si di acp [Hd Hb]; [done|].
  unfold contains_char in Hd, Hb. cbn [str_existsb] in Hd, Hb.
  apply orb_false_iff in Hd as [Hcd Hd], Hb as [Hcb Hb].
  assert (is_plain a) as Hp by done. rewrite Ascii.eqb_sym in Hcd, Hcb.
  cbn [String.append injection_scan scan_prefix scan_char]. rewrite Hcd, Hcb. cbn [andb].
  destruct ((negb si || wrapper) && is_separator c); [by apply IH|].
  destruct (Ascii.eqb c "'" && negb di); [by apply IH|].
  destruct (Ascii.eqb c dquote && negb si); [by apply IH|].
  destruct (si && negb wrapper); [by apply IH|].
  destruct (Ascii.eqb c "e" && _); [done|by apply IH].
Qed.

(** A command judged free of injection has its substitutions resolved.
    When a [$(] follows a prefix without substitutions, either it stands in
    single quotes no shell re-parses, or it is not in command position, its
    closing parenthesis exists, and its body is empty or names its command
    literally and is itself a safe command one level down, within the depth
    limit. *)
Theorem substitutions_are_resolved cmd a r depth :
  is_plain a → cmd = (a ++ "$(" ++ r)%string →
  is_shell_injection_at_depth cmd depth = false →
  let '(in_single, _, at_command_position) :=
    scan_prefix (is_shell_wrapper_command cmd) (false, false, true) a in
  (in_single = true ∧ is_shell_wrapper_command cmd = false) ∨
  (at_command_position = false ∧
   ∃ body rest, r = (body ++ ")" ++ rest)%string ∧
     extract_substitution_body r ")" = Some (body, S (String.length body)) ∧
     body_cleared body depth).
Proof.
  intros Ha Hcmd. unfold is_shell_injection_at_depth, shell_injection_with.
  generalize (is_shell_wrapper_command cmd) as wrapper. intros wrapper. rewrite Hcmd.
  intros H. apply injection_scan_prefix in H; [|done].
  destruct (scan_prefix wrapper _ a) as [[si di] acp].
  change ("$(" ++ r)%string with (String "$" (String "(" r)) in H.
  cbn [injection_scan] in H. revert H.
  change (is_separator "$") with false. rewrite andb_false_r.
  change (Ascii.eqb "$" "'") with false. change (Ascii.eqb "$" dquote) with false. cbn [andb].
  destruct (si && negb wrapper) eqn:Es.
  { intros _. left. apply andb_true_iff in Es as [-> ?%negb_true_iff]. done. }
  change (starts_with (String "(" r) "(") with (String.prefix "" r).
  change (Ascii.eqb "$" "$") with true. 
  assert (String.prefix "" r = true) as -> by (by destruct r). cbn [andb skip].
  destruct acp; [done|].
  destruct (extract_substitution_body r ")") as [[body end_]|] eqn:Ex; [|done].
  destruct (substitution_body_is_unsafe body depth) eqn:Eu; [done|]. intros _. right.
  split; [done|]. destruct (extract_substitution_body_spec _ _ _ _ Ex) as (rest & -> & ->).
  exists body, rest. split_and!; [done|done|by apply body_cleared_spec].
Qed.

Lemma substitutions_are_resolved_witness :
  body_cleared "node --version" 0.
Proof.
  destruct (substitutions_are_resolved "echo v=$(node --version)" "echo v=" "node --version)" 0)
    as [[H _]|(_ & body & rest & _ & Hx & Hb)].
  - done.
  - reflexivity.
  - vm_compute. reflexivity.
  - vm_compute in H. discriminate H.
  - vm_compute in Hx. injection Hx as <- _. exact Hb.
Defined.

(** ** Patterns across a separator *)

Lemma str_existsb_contains p s t :
  str_existsb p t = true → contains s t = true → str_existsb p s = true.
Proof.
  intros Ht (a & b & ->)%contains_spec. by rewrite !str_existsb_app, Ht, orb_true_r.
Qed.

Lemma trim_existsb p s : str_existsb p (trim s) = true → str_existsb p s = true.
Proof.
  unfold trim. destruct (trim_start_by_spec is_whitespace s) as (a & Ha & _).
  destruct (trim_end_by_spec is_whitespace (trim_start_by is_whitespace s)) as (b & Hb & _).
  intros H. rewrite Ha, str_existsb_app, Hb, str_existsb_app, H, orb_true_r. done.
Qed.

Lemma to_lowercase_separator s :
  str_existsb is_separator (to_lowercase s) = str_existsb is_separator s.
Proof.
  unfold to_lowercase. rewrite str_existsb_map. induction s as [|c s IH]; simpl; [done|].
  rewrite IH. f_equal. by destruct c as [[] [] [] [] [] [] [] []].
Qed.

Lemma segment_contains_no_separator command seg p :
  seg ∈ command_segments command → str_existsb is_separator p = true →
  contains (trim seg) p = false ∧ contains (to_lowercase (trim seg)) p = false.
Proof.
  intros Hseg%split_no_sep Hp.
  assert (str_existsb is_separator (trim seg) = false) as Ht.
  { apply not_true_iff_false. intros H%trim_existsb. congruence. }
  split; apply not_true_iff_false; intros H%(str_existsb_contains is_separator); try done.
  - congruence.
  - rewrite to_lowercase_separator in H. congruence.
Qed.

(** The fork-bomb pattern of the destructive and the exhaustion checks
    contains separators, so it matches no segment of any command, and the
    classical fork bomb is judged safe. *)
Theorem fork_bomb_pattern_never_matches :
  (∀ command seg, seg ∈ command_segments command →
     contains (to_lowercase (trim seg)) ":(){ :|:& };:" = false ∧
     contains (trim seg) ":(){ :|:& };:" = false) ∧
  is_safe (analyze_command ":(){ :|:& };:") = true.
Proof.
  split; [|vm_compute; reflexivity]. intros command seg Hseg.
  destruct (segment_contains_no_separator command seg ":(){ :|:& };:" Hseg) as [H1 H2];
    [reflexivity|]. done.
Qed.

(** ** Script contents *)

(** A script runs without approval exactly when it has no dynamic
    evaluation and no destructive call, and uses the network only if the agent
    may. *)
Theorem script_requires_approval_spec script has_network :
  script_requires_approval script has_network = None ↔
  (∀ p, p ∈ exec_patterns ++ fs_patterns → contains script p = false) ∧
  (has_network = false → ∀ p, p ∈ network_patterns → contains script p = false).
Proof.
  setoid_rewrite elem_of_app.
  trans (existsb (contains script) exec_patterns = false ∧
         existsb (contains script) fs_patterns = false ∧
         (has_network = false → existsb (contains script) network_patterns = false)).
  - unfold script_requires_approval, analyze_script_content.
    destruct (existsb _ network_patterns), (existsb _ exec_patterns), (existsb _ fs_patterns),
      has_network; vm_compute; intuition discriminate.
  - rewrite !existsb_false. firstorder.
Qed.
