(* ===== verification/Policy.v ===== *)
(** * The capability policy engine

    The model of [PolicyEngine] in [autonoetic-gateway/src/policy.rs]: every
    decision of the engine over the capabilities of a manifest, with the rule
    identifier it reports; [AgentManifest] is the part of
    [autonoetic-types/src/agent.rs] the engine reads.  The theorems show that
    the engine is a reference monitor for an abstract "this capability grants
    this request" relation, and that the capability delta and the coverage
    test of [Capability] are sound for it. *)

From Stdlib Require Import Ascii String.
From stdpp Require Import prelude gmap strings list sorting.
From S2P Require Import Prelude RustStr Capability ShellAnalyzer.

Open Scope string_scope.
Open Scope nat_scope.
Open Scope list_scope.

(** ** Data *)

Record PolicyDecision := {
  allowed : bool;
  enforced_rules : list string;
  security_analysis : option SecurityAnalysis;
}.

Definition allow (rule_id : string) : PolicyDecision :=
  {| allowed := true; enforced_rules := [rule_id]; security_analysis := None |}.
Definition deny (rule_id : string) : PolicyDecision :=
  {| allowed := false; enforced_rules := [rule_id]; security_analysis := None |}.
Definition deny_with_analysis (rule_id : string) (a : SecurityAnalysis) : PolicyDecision :=
  {| allowed := false; enforced_rules := [rule_id]; security_analysis := Some a |}.

Record MessagingPolicy := { accepts_from : list string }.

(** The fields of a manifest that decisions depend on. *)
Record AgentManifest := {
  manifest_agent_id : string;
  capabilities : list Capability;
  messaging : option MessagingPolicy;
}.

(** ** Pattern rules *)

Definition patterns_match_agent_id (patterns : list string) (target_agent : string) : bool :=
  existsb (λ pattern,
    let pattern := trim pattern in
    if str_is_empty pattern then false
    else match strip_suffix_char pattern "*" with
         | Some prefix => starts_with target_agent prefix
         | None => (pattern =? target_agent)%string
         end) patterns.

(** [for pattern in patterns { let prefix = pattern.trim_end_matches('*');
    if target.starts_with(prefix) { return .. } }] *)
Definition any_prefix (patterns : list string) (target : string) : bool :=
  existsb (λ pattern, starts_with target (trim_end_matches pattern "*")) patterns.

(** ** Decisions *)

Section PolicyEngine.
Context (manifest : AgentManifest).

Definition nonempty_segments (command : string) : list string :=
  List.filter (λ t, negb (str_is_empty t)) (trim <$> command_segments command).

Definition exec_patterns_grant (command : string) (cap : Capability) : option PolicyDecision :=
  match cap with
  | CodeExecution patterns _ =>
      if existsb (λ pattern, existsb (λ trimmed, starts_with trimmed (trim_end_matches pattern "*"))
                               (nonempty_segments command)) patterns
      then Some (allow "P-1.9") else None
  | _ => None
  end.

Definition exec_commands_match (command : string) (cap : Capability) : option bool :=
  match cap with
  | CodeExecution _ [] => Some false
  | CodeExecution _ commands =>
      any_returning (λ trimmed, any_returning (contains_shell_word trimmed) commands)
        (nonempty_segments command)
  | _ => Some false
  end.

(** [None]: the word search of the source does not return. *)
Definition can_exec_shell_detailed (command : string) : option PolicyDecision :=
  let security := analyze_command command in
  if negb (is_safe security) then Some (deny_with_analysis "P-3.8" security)
  else match find_map (exec_patterns_grant command) (capabilities manifest) with
       | Some d => Some d
       | None =>
           match any_returning (exec_commands_match command) (capabilities manifest) with
           | None => None
           | Some true => Some (allow "P-1.9")
           | Some false => Some (deny "P-1.9")
           end
       end.

Definition can_exec_shell (command : string) : option PolicyDecision :=
  can_exec_shell_detailed command.

Definition can_connect_net (host : string) : PolicyDecision :=
  default (deny "P-1.5") (find_map (λ cap,
    match cap with
    | NetworkAccess hosts =>
        if existsb (λ h, (h =? host)%string || (h =? "*")%string) hosts
        then Some (allow "P-1.5") else None
    | _ => None
    end) (capabilities manifest)).

Definition can_invoke_tool (tool_name : string) : PolicyDecision :=
  default (deny "P-1.1") (find_map (λ cap,
    match cap with
    | SandboxFunctions allowed =>
        if any_prefix allowed tool_name then Some (allow "P-1.1") else None
    | _ => None
    end) (capabilities manifest)).

Definition can_read_path (path : string) : PolicyDecision :=
  default (deny "P-1.4") (find_map (λ cap,
    match cap with
    | ReadAccess scopes => if any_prefix scopes path then Some (allow "P-1.4") else None
    | _ => None
    end) (capabilities manifest)).

Definition can_write_path (path : string) : PolicyDecision :=
  default (deny "P-1.4") (find_map (λ cap,
    match cap with
    | WriteAccess scopes => if any_prefix scopes path then Some (allow "P-1.4") else None
    | _ => None
    end) (capabilities manifest)).

Definition can_spawn_agent : PolicyDecision :=
  default (deny "P-1.7") (find_map (λ cap,
    match cap with AgentSpawn _ _ => Some (allow "P-1.7") | _ => None end)
    (capabilities manifest)).

Definition can_request_emergency_stop : PolicyDecision :=
  if existsb (λ c, match c with EmergencyStop => true | _ => false end) (capabilities manifest)
  then allow "P-7.1" else deny "P-7.1".

Definition spawn_agent_limit : option Z :=
  find_map (λ cap, match cap with AgentSpawn max_children _ => Some max_children | _ => None end)
    (capabilities manifest).

Definition spawn_depth_limit : option Z :=
  find_map (λ cap,
    match cap with AgentSpawn _ max_spawn_depth => Some max_spawn_depth | _ => None end)
    (capabilities manifest).

Definition can_message_agent (target_agent : string) : PolicyDecision :=
  default (deny "P-11.5") (find_map (λ cap,
    match cap with
    | AgentMessage patterns =>
        if patterns_match_agent_id patterns target_agent then Some (allow "P-11.5") else None
    | _ => None
    end) (capabilities manifest)).

Definition accepts_peer_message_from (sender_agent_id : string) : PolicyDecision :=
  match messaging manifest with
  | None => allow "P-11.5"
  | Some messaging =>
      if patterns_match_agent_id (accepts_from messaging) sender_agent_id
      then allow "P-11.5" else deny "P-11.5"
  end.

Definition can_agent_revision (target : string) : PolicyDecision :=
  default (deny "P-1.3") (find_map (λ cap,
    match cap with
    | AgentRevision patterns => if any_prefix patterns target then Some (allow "P-1.3") else None
    | _ => None
    end) (capabilities manifest)).

Definition can_evaluate_suite (suite_id subject_agent_id : string) : PolicyDecision :=
  default (deny "P-1.1") (find_map (λ cap,
    match cap with
    | Evaluation patterns =>
        if existsb (λ pattern,
             let prefix := trim_end_matches pattern "*" in
             starts_with suite_id prefix
             || (negb (str_is_empty subject_agent_id) && starts_with subject_agent_id prefix))
             patterns
        then Some (allow "P-1.1") else None
    | _ => None
    end) (capabilities manifest)).

Definition can_evaluate_suite_publish (suite_name : string) : PolicyDecision :=
  default (deny "P-1.1") (find_map (λ cap,
    match cap with
    | Evaluation patterns => if any_prefix patterns suite_name then Some (allow "P-1.1") else None
    | _ => None
    end) (capabilities manifest)).

Definition background_reevaluation_limits : option (Z * bool) :=
  find_map (λ cap,
    match cap with
    | BackgroundReevaluation min_interval_secs allow_reasoning =>
        Some (min_interval_secs, allow_reasoning)
    | _ => None
    end) (capabilities manifest).

(** The body shared by the two memory-scope checks of the source. *)
Definition memory_scopes_grant (scopes : list string) (scope : string) : option PolicyDecision :=
  if existsb (λ s, (s =? "*")%string || str_is_empty (trim_end_matches s "*")) scopes
  then Some (allow "P-1.4")
  else if existsb (λ allowed_scope, starts_with scope (trim_end_matches allowed_scope "*")
                                    || (scope =? allowed_scope)%string) scopes
  then Some (allow "P-1.4") else None.

Definition can_write_memory_scope (scope : string) : PolicyDecision :=
  default (deny "P-1.4") (find_map (λ cap,
    match cap with WriteAccess scopes => memory_scopes_grant scopes scope | _ => None end)
    (capabilities manifest)).

Definition can_read_memory_scope (scope : string) : PolicyDecision :=
  default (deny "P-1.4") (find_map (λ cap,
    match cap with ReadAccess scopes => memory_scopes_grant scopes scope | _ => None end)
    (capabilities manifest)).

Definition can_search_memory (scope : string) : PolicyDecision := can_read_memory_scope scope.

Definition can_schedule (operation : string) : PolicyDecision :=
  default (deny "P-1.1") (find_map (λ cap,
    match cap with
    | SchedulerAccess patterns =>
        if any_prefix patterns operation then Some (allow "P-1.1") else None
    | _ => None
    end) (capabilities manifest)).

Definition can_install_skill (url_host : string) : PolicyDecision :=
  default (deny "P-1.1") (find_map (λ cap,
    match cap with
    | SkillInstall allowed_sources =>
        if existsb (λ source, (source =? "*")%string || (source =? url_host)%string)
             allowed_sources
        then Some (allow "P-1.1") else None
    | _ => None
    end) (capabilities manifest)).

Definition can_create_github_issue (repo : string) : PolicyDecision :=
  default (deny "P-1.1") (find_map (λ cap,
    match cap with
    | GithubIssueCreate patterns =>
        if existsb (λ pattern,
             if (pattern =? "*")%string then true
             else match strip_suffix_char pattern "*" with
                  | Some prefix => starts_with repo prefix
                  | None => (repo =? pattern)%string
                  end) patterns
        then Some (allow "P-1.1") else None
    | _ => None
    end) (capabilities manifest)).

Definition can_use_capsule : PolicyDecision :=
  default (deny "P-1.1") (find_map (λ cap,
    match cap with CapsuleExport => Some (allow "P-1.1") | _ => None end)
    (capabilities manifest)).

Definition can_use_capsule_self (requested_agent_id : string) : PolicyDecision :=
  let has_self :=
    existsb (λ cap, match cap with SelfCapsuleExport => true | _ => false end)
      (capabilities manifest) in
  if has_self && (requested_agent_id =? manifest_agent_id manifest)%string
  then allow "Ri-0.17" else deny "Ri-0.17".

Definition can_audit_reasoning (target_agent_id : string) : PolicyDecision :=
  default (deny "Ri-0.13") (find_map (λ cap,
    match cap with
    | ReasoningAudit targets =>
        if any_prefix targets target_agent_id then Some (allow "Ri-0.13") else None
    | _ => None
    end) (capabilities manifest)).

Definition can_decide_gate (kind : string) : PolicyDecision :=
  default (deny "P-2.20") (find_map (λ cap,
    match cap with
    | GateDecider kinds =>
        if existsb (λ pattern, (pattern =? "*")%string || (pattern =? kind)%string) kinds
        then Some (allow "P-2.20") else None
    | _ => None
    end) (capabilities manifest)).
End PolicyEngine.

(** The spawn-depth ceiling the executor enforces on a source agent. *)
Definition effective_ceiling (source_policy : AgentManifest) (system_ceiling : Z) : Z :=
  let agent_ceiling := default 0%Z (spawn_depth_limit source_policy) in
  if (0 <? agent_ceiling)%Z then Z.min agent_ceiling system_ceiling else system_ceiling.

(** ** The abstract monitor *)

(** A request to the engine, other than running a shell command. *)
Inductive Request : Type :=
| ConnectNet (host : string)
| InvokeTool (tool_name : string)
| ReadPath (path : string)
| WritePath (path : string)
| SpawnAgent
| RequestEmergencyStop
| MessageAgent (target_agent : string)
| ReviseAgent (target : string)
| EvaluateSuite (suite_id subject_agent_id : string)
| PublishSuite (suite_name : string)
| SearchMemory (scope : string)
| WriteMemory (scope : string)
| ReadMemory (scope : string)
| Schedule (operation : string)
| InstallSkill (url_host : string)
| CreateGithubIssue (repo : string)
| UseCapsule
| UseCapsuleSelf (requested_agent_id : string)
| AuditReasoning (target_agent_id : string)
| DecideGate (kind : string).

Definition decision (m : AgentManifest) (r : Request) : PolicyDecision :=
  match r with
  | ConnectNet host => can_connect_net m host
  | InvokeTool tool_name => can_invoke_tool m tool_name
  | ReadPath path => can_read_path m path
  | WritePath path => can_write_path m path
  | SpawnAgent => can_spawn_agent m
  | RequestEmergencyStop => can_request_emergency_stop m
  | MessageAgent target_agent => can_message_agent m target_agent
  | ReviseAgent target => can_agent_revision m target
  | EvaluateSuite suite_id subject => can_evaluate_suite m suite_id subject
  | PublishSuite suite_name => can_evaluate_suite_publish m suite_name
  | SearchMemory scope => can_search_memory m scope
  | WriteMemory scope => can_write_memory_scope m scope
  | ReadMemory scope => can_read_memory_scope m scope
  | Schedule operation => can_schedule m operation
  | InstallSkill url_host => can_install_skill m url_host
  | CreateGithubIssue repo => can_create_github_issue m repo
  | UseCapsule => can_use_capsule m
  | UseCapsuleSelf id => can_use_capsule_self m id
  | AuditReasoning target => can_audit_reasoning m target
  | DecideGate kind => can_decide_gate m kind
  end.

(** [can_perform] of runtime/tools/plan_frame.rs: an operation on plans. *)
Definition can_perform (m : AgentManifest) (operation : string) : bool :=
  existsb (λ c, match c with PlanFrameAccess patterns => patterns_allow patterns operation | _ => false end)
    (capabilities m).

(** The rule every answer to a request cites. *)
Definition rule_of (r : Request) : string :=
  match r with
  | ConnectNet _ => "P-1.5"
  | ReadPath _ | WritePath _ | SearchMemory _ | WriteMemory _ | ReadMemory _ => "P-1.4"
  | SpawnAgent => "P-1.7"
  | RequestEmergencyStop => "P-7.1"
  | MessageAgent _ => "P-11.5"
  | ReviseAgent _ => "P-1.3"
  | UseCapsuleSelf _ => "Ri-0.17"
  | AuditReasoning _ => "Ri-0.13"
  | DecideGate _ => "P-2.20"
  | _ => "P-1.1"
  end.

(** The name itself, or the wildcard. *)
Definition names_exactly (l : list string) (x : string) : bool :=
  existsb (λ p, (p =? "*")%string || (p =? x)%string) l.

(** The repository itself, or a prefix ending in a star. *)
Definition names_repo (l : list string) (x : string) : bool :=
  existsb (λ p, match strip_suffix_char p "*" with
                | Some prefix => starts_with x prefix
                | None => (p =? x)%string
                end) l.

(** One capability grants one request: every field is a single pattern test. *)
Definition cap_grants (self_id : string) (c : Capability) (r : Request) : bool :=
  match c, r with
  | NetworkAccess hosts, ConnectNet host => names_exactly hosts host
  | SandboxFunctions ps, InvokeTool t => any_prefix ps t
  | ReadAccess ps, (ReadPath x | SearchMemory x | ReadMemory x) => any_prefix ps x
  | WriteAccess ps, (WritePath x | WriteMemory x) => any_prefix ps x
  | AgentSpawn _ _, SpawnAgent => true
  | EmergencyStop, RequestEmergencyStop => true
  | AgentMessage ps, MessageAgent t => patterns_match_agent_id ps t
  | AgentRevision ps, ReviseAgent t => any_prefix ps t
  | Evaluation ps, EvaluateSuite suite subject =>
      any_prefix ps suite || (negb (str_is_empty subject) && any_prefix ps subject)
  | Evaluation ps, PublishSuite t => any_prefix ps t
  | SchedulerAccess ps, Schedule t => any_prefix ps t
  | SkillInstall ps, InstallSkill h => names_exactly ps h
  | GithubIssueCreate ps, CreateGithubIssue repo => names_repo ps repo
  | CapsuleExport, UseCapsule => true
  | SelfCapsuleExport, UseCapsuleSelf id => (id =? self_id)%string
  | ReasoningAudit ps, AuditReasoning t => any_prefix ps t
  | GateDecider ps, DecideGate k => names_exactly ps k
  | _, _ => false
  end.

Definition granted (m : AgentManifest) (r : Request) : bool :=
  existsb (λ c, cap_grants (manifest_agent_id m) c r) (capabilities m).

(** ** Lemmas: patterns *)

Lemma existsb_ext {A} (f g : A → bool) l : (∀ x, f x = g x) → existsb f l = existsb g l.
Proof. intros H. induction l as [|x l IH]; simpl; [done|]. by rewrite H, IH. Qed.

Lemma existsb_orb {A} (f g : A → bool) l :
  existsb (λ x, f x || g x) l = existsb f l || existsb g l.
Proof.
  induction l as [|x l IH]; simpl; [done|]. rewrite IH.
  by destruct (f x), (g x), (existsb f l), (existsb g l).
Qed.

Lemma existsb_andb_const {A} (b : bool) (f : A → bool) l :
  existsb (λ x, b && f x) l = b && existsb f l.
Proof. induction l as [|x l IH]; simpl; [by destruct b|]. rewrite IH. by destruct b. Qed.

Lemma starts_with_trimmed_self p c : starts_with p (trim_end_matches p c) = true.
Proof.
  apply starts_with_spec. unfold trim_end_matches.
  destruct (trim_end_by_spec (Ascii.eqb c) p) as (r & Hr & _). by exists r.
Qed.

(** The memory-scope check adds nothing to the path check. *)
Lemma memory_scopes_grant_prefix scopes scope :
  memory_scopes_grant scopes scope =
  if any_prefix scopes scope then Some (allow "P-1.4") else None.
Proof.
  unfold memory_scopes_grant, any_prefix.
  destruct (existsb (λ pattern, starts_with scope (trim_end_matches pattern "*")) scopes) eqn:E.
  - destruct (existsb (λ s, _ || str_is_empty _) scopes); [done|].
    rewrite existsb_orb, E. done.
  - rewrite existsb_false in E. destruct (existsb (λ s, _ || str_is_empty _) scopes) eqn:E1.
    + apply existsb_true in E1 as (s & Hs & Hs'). specialize (E s Hs).
      apply orb_true_iff in Hs' as [->%String.eqb_eq|He].
      * change (trim_end_matches "*" "*") with "" in E. by rewrite starts_with_empty in E.
      * destruct (trim_end_matches s "*"); [|done]. by rewrite starts_with_empty in E.
    + destruct (existsb (λ a, _ || (scope =? a)%string) scopes) eqn:E2; [|done].
      apply existsb_true in E2 as (s & Hs & Hs'). specialize (E s Hs). rewrite E in Hs'.
      apply String.eqb_eq in Hs' as ->. by rewrite starts_with_trimmed_self in E.
Qed.

Lemma github_pattern p repo :
  (if (p =? "*")%string then true
   else match strip_suffix_char p "*" with
        | Some prefix => starts_with repo prefix
        | None => (repo =? p)%string
        end) =
  match strip_suffix_char p "*" with
  | Some prefix => starts_with repo prefix
  | None => (p =? repo)%string
  end.
Proof.
  destruct (String.eqb_spec p "*") as [->|]; [symmetry; apply (starts_with_empty repo)|].
  destruct (strip_suffix_char p "*"); [done|]. apply String.eqb_sym.
Qed.

Lemma default_if {A} (b : bool) (x y : A) :
  default y (if b then Some x else None) = if b then x else y.
Proof. by destruct b. Qed.

Lemma decision_spec m r :
  decision m r = if granted m r then allow (rule_of r) else deny (rule_of r).
Proof.
  unfold granted. destruct r; cbn [decision rule_of];
    unfold can_connect_net, can_invoke_tool, can_read_path, can_write_path, can_spawn_agent,
      can_request_emergency_stop, can_message_agent, can_agent_revision, can_evaluate_suite,
      can_evaluate_suite_publish, can_search_memory, can_write_memory_scope,
      can_read_memory_scope, can_schedule, can_install_skill, can_create_github_issue,
      can_use_capsule, can_use_capsule_self, can_audit_reasoning, can_decide_gate;
    try (erewrite find_map_const; [by rewrite default_if|]; intros []; try done; cbn [cap_grants]).
  - unfold names_exactly. erewrite existsb_ext; [done|]. intros h. apply orb_comm.
  - by rewrite (existsb_ext _ (λ c, cap_grants (manifest_agent_id m) c RequestEmergencyStop))
      by (by intros []).
  - unfold any_prefix. by rewrite existsb_orb, existsb_andb_const.
  - apply memory_scopes_grant_prefix.
  - apply memory_scopes_grant_prefix.
  - apply memory_scopes_grant_prefix.
  - unfold names_repo. erewrite existsb_ext; [done|]. intros p. apply github_pattern.
  - rewrite andb_comm, <-existsb_andb_const. erewrite existsb_ext; [done|].
    intros []; try (by rewrite andb_false_r). by rewrite andb_true_r.
Qed.

(** C1: The engine is a reference monitor.  A request is allowed exactly when
    one declared capability grants it, whatever the order and the number of
    the other declarations; otherwise it is denied, and either answer cites
    the request's rule.  In particular the memory-scope checks decide as the
    path checks do. *)
Theorem policy_engine_is_reference_monitor m r :
  decision m r = if granted m r then allow (rule_of r) else deny (rule_of r).
Proof. apply decision_spec. Qed.

(** ** Lemmas: scopes only shrink *)

Lemma scoped_mono (f : string → bool) previous current :
  f "*" = true → all_scopes previous ∨ current ⊆ previous →
  existsb f current = true → existsb f previous = true.
Proof.
  rewrite !existsb_true. intros Hf [Hall|Hsub] (x & Hx & Hfx).
  - by exists "*".
  - exists x. split; [by apply Hsub|done].
Qed.

Lemma any_prefix_mono previous current x :
  all_scopes previous ∨ current ⊆ previous →
  any_prefix current x = true → any_prefix previous x = true.
Proof. apply scoped_mono. apply (starts_with_empty x). Qed.

Lemma names_exactly_mono previous current x :
  all_scopes previous ∨ current ⊆ previous →
  names_exactly current x = true → names_exactly previous x = true.
Proof. by apply scoped_mono. Qed.

Lemma names_repo_mono previous current x :
  all_scopes previous ∨ current ⊆ previous →
  names_repo current x = true → names_repo previous x = true.
Proof. apply scoped_mono. apply (starts_with_empty x). Qed.

Lemma patterns_match_mono previous current x :
  all_scopes previous ∨ current ⊆ previous →
  patterns_match_agent_id current x = true → patterns_match_agent_id previous x = true.
Proof. apply scoped_mono. apply (starts_with_empty x). Qed.

Lemma evaluation_mono previous current suite subject :
  all_scopes previous ∨ current ⊆ previous →
  any_prefix current suite || (negb (str_is_empty subject) && any_prefix current subject) = true →
  any_prefix previous suite || (negb (str_is_empty subject) && any_prefix previous subject) = true.
Proof.
  intros H. rewrite !orb_true_iff, !andb_true_iff.
  intros [Hc|[Hn Hc]]; [left|right; split; [done|]]; by eapply any_prefix_mono.
Qed.

#[export] Hint Resolve any_prefix_mono names_exactly_mono names_repo_mono patterns_match_mono
  evaluation_mono : rust.

(** A capability not broadened grants nothing new. *)
Lemma not_broadened_grants_less t p c id r :
  type_name p = type_name c → capability_broadening t p c = None →
  cap_grants id c r = true → cap_grants id p r = true.
Proof.
  intros Ht Hb Hg. destruct c, r; try discriminate Hg; destruct p; try discriminate Ht;
    cbn [capability_broadening cap_grants] in *; try apply scope_broadening_none in Hb;
    eauto with rust.
Qed.

Lemma granted_spec m r :
  granted m r = true ↔ ∃ c, c ∈ capabilities m ∧ cap_grants (manifest_agent_id m) c r = true.
Proof. apply existsb_true. Qed.

Lemma decision_allowed m r : allowed (decision m r) = granted m r.
Proof.
  rewrite (decision_spec m r). by destruct (granted m r).
Qed.

(** A promotion covered by a pre-authorised set stays inside it: every
    request the artifact's capabilities are granted, an agent that holds the
    declared set is granted. *)
Theorem covered_capabilities_grant_no_more declared artifact id msg r :
  capability_set_covers declared artifact = true →
  allowed (decision {| manifest_agent_id := id; capabilities := artifact; messaging := msg |} r)
    = true →
  allowed (decision {| manifest_agent_id := id; capabilities := declared; messaging := msg |} r)
    = true.
Proof.
  rewrite capability_set_covers_spec, !decision_allowed, !granted_spec. cbn [capabilities manifest_agent_id].
  intros Hcov (c & Hc & Hg). destruct (Hcov c Hc) as (p & Hp & Hpc).
  destruct (declared_kind_elem _ _ _ Hp) as [Hin Ht]. exists p. split; [done|].
  by eapply not_broadened_grants_less.
Qed.

Lemma covered_capabilities_grant_no_more_witness :
  let m caps := {| manifest_agent_id := "a"; capabilities := caps; messaging := None |} in
  allowed (decision (m [NetworkAccess ["api.example.com"; "cdn"]]) (ConnectNet "cdn")) = true.
Proof.
  intros m.
  apply (covered_capabilities_grant_no_more [NetworkAccess ["api.example.com"; "cdn"]]
           [NetworkAccess ["cdn"]] "a" None (ConnectNet "cdn")); vm_compute; reflexivity.
Defined.

(** ** Shell commands *)

Lemma exec_patterns_grant_some command cap d :
  exec_patterns_grant command cap = Some d →
  d = allow "P-1.9" ∧ ∃ patterns commands, cap = CodeExecution patterns commands ∧
  ∃ p seg, p ∈ patterns ∧ seg ∈ nonempty_segments command ∧
    starts_with seg (trim_end_matches p "*") = true.
Proof.
  destruct cap; try done. unfold exec_patterns_grant. destruct (existsb _ patterns) eqn:E; [|done].
  intros [= <-]. split; [done|]. exists patterns, commands. split; [done|].
  apply existsb_true in E as (p & Hp & (seg & Hseg & Hs)%existsb_true). by exists p, seg.
Qed.

Lemma exec_commands_match_true command cap :
  exec_commands_match command cap = Some true →
  ∃ patterns commands, cap = CodeExecution patterns commands ∧
  ∃ w seg, w ∈ commands ∧ seg ∈ nonempty_segments command ∧ contains_shell_word seg w = Some true.
Proof.
  destruct cap; try done. intros H. exists patterns, commands. split; [done|].
  destruct commands as [|w0 ws]; [done|]. unfold exec_commands_match in H.
  apply any_returning_true in H as (seg & Hseg & (w & Hw & H)%any_returning_true).
  by exists w, seg.
Qed.

Lemma exec_commands_match_returns command cap :
  (∀ patterns commands, cap = CodeExecution patterns commands → "" ∉ commands) →
  is_Some (exec_commands_match command cap).
Proof.
  intros H. destruct cap; try done. specialize (H patterns commands eq_refl).
  unfold exec_commands_match. destruct commands as [|w0 ws]; [done|].
  apply any_returning_is_some. intros seg _. apply any_returning_is_some. intros w Hw.
  apply shell_word_loop_returns; [by intros ->|lia].
Qed.

Lemma shell_allowed_by m command d :
  can_exec_shell m command = Some d → allowed d = true →
  is_safe (analyze_command command) = true ∧
  ∃ patterns commands seg, CodeExecution patterns commands ∈ capabilities m ∧
    seg ∈ nonempty_segments command ∧
    ((∃ p, p ∈ patterns ∧ starts_with seg (trim_end_matches p "*") = true) ∨
     (∃ w, w ∈ commands ∧ contains_shell_word seg w = Some true)).
Proof.
  unfold can_exec_shell, can_exec_shell_detailed.
  destruct (is_safe (analyze_command command)); cbn [negb]; [|by intros [= <-]].
  intros Hd Ha. split; [done|]. destruct (find_map _ (capabilities m)) as [d'|] eqn:Ef.
  - apply find_map_some in Ef as (cap & Hcap & Hg).
    apply exec_patterns_grant_some in Hg as (_ & ps & cs & -> & p & seg & Hp & Hseg & Hs).
    exists ps, cs, seg. split_and!; [done|done|]. left. by exists p.
  - destruct (any_returning _ _) as [[]|] eqn:Ea; simplify_eq.
    apply any_returning_true in Ea as (cap & Hcap & Hm).
    apply exec_commands_match_true in Hm as (ps & cs & -> & w & seg & Hw & Hseg & Hs).
    exists ps, cs, seg. split_and!; [done|done|]. right. by exists w.
Qed.

(** *** What the delta protects *)

Lemma exec_patterns_grants command cap patterns commands p seg :
  cap = CodeExecution patterns commands → p ∈ patterns → seg ∈ nonempty_segments command →
  starts_with seg (trim_end_matches p "*") = true →
  exec_patterns_grant command cap = Some (allow "P-1.9").
Proof.
  intros -> Hp Hseg Hs. unfold exec_patterns_grant.
  assert (existsb (λ pattern, existsb (λ trimmed, starts_with trimmed (trim_end_matches pattern "*"))
    (nonempty_segments command)) patterns = true) as ->; [|done].
  apply existsb_true. exists p. split; [done|]. apply existsb_true. by exists seg.
Qed.

Lemma contains_shell_word_returns seg w : w ≠ "" → is_Some (contains_shell_word seg w).
Proof. intros Hw. apply shell_word_loop_returns; [done|lia]. Qed.

Lemma exec_commands_grants command patterns commands w seg :
  "" ∉ commands → w ∈ commands → seg ∈ nonempty_segments command →
  contains_shell_word seg w = Some true →
  exec_commands_match command (CodeExecution patterns commands) = Some true.
Proof.
  intros Hne Hw Hseg Hs. unfold exec_commands_match.
  assert (∀ v x, v ∈ commands → is_Some (contains_shell_word x v)) as Hr.
  { intros v x Hv. apply contains_shell_word_returns. by intros ->. }
  destruct commands as [|w0 ws] eqn:E; [by apply not_elem_of_nil in Hw|]. rewrite <-E in *.
  apply any_returning_found with seg; [|done|].
  - intros x _. apply any_returning_is_some. intros v Hv. by apply Hr.
  - apply any_returning_found with w; [|done..]. intros v Hv. by apply Hr.
Qed.

(** A command that is safe is allowed by any declaration that matches it, unless
    the search for a command word does not return. *)
Lemma exec_shell_allowed m command patterns commands :
  is_safe (analyze_command command) = true → CodeExecution patterns commands ∈ capabilities m →
  (∀ ps cs, CodeExecution ps cs ∈ capabilities m → "" ∉ cs) →
  (∃ seg, seg ∈ nonempty_segments command ∧
     ((∃ p, p ∈ patterns ∧ starts_with seg (trim_end_matches p "*") = true)
      ∨ (∃ w, w ∈ commands ∧ contains_shell_word seg w = Some true))) →
  can_exec_shell m command = Some (allow "P-1.9").
Proof.
  intros Hsafe Hin Hne (seg & Hseg & H). unfold can_exec_shell, can_exec_shell_detailed.
  rewrite Hsafe. cbn [negb].
  destruct (find_map _ (capabilities m)) as [d|] eqn:Ef.
  { apply find_map_some in Ef as (cap & _ & Hd). by apply exec_patterns_grant_some in Hd as [-> _]. }
  destruct H as [(p & Hp & Hs)|(w & Hw & Hs)].
  - exfalso. pose proof (exec_patterns_grants command _ patterns commands p seg eq_refl Hp Hseg Hs) as Hg.
    revert Ef Hin Hg. clear. induction (capabilities m) as [|c l IH]; [by intros _ ?%not_elem_of_nil|].
    cbn [find_map]. destruct (exec_patterns_grant command c) eqn:E; [done|].
    intros Hf [Heq|Hin]%elem_of_cons Hg; [rewrite Heq in Hg; congruence|by apply IH].
  - rewrite (any_returning_found _ _ (CodeExecution patterns commands)); [done| |done|].
    + intros cap Hcap. apply exec_commands_match_returns. intros ps cs ->. by eapply Hne.
    + eapply exec_commands_grants; try done. by eapply Hne.
Qed.

(** No scope of the new shell declaration stood under the other heading of the old
    one, and the old one lists neither a star nor an empty word as a command:
    the delta compares the two headings as one list. *)
Definition headings_kept (previous current : AgentManifest) : Prop :=
  ∀ ps cs, CodeExecution ps cs ∈ capabilities previous →
    "*" ∉ cs ∧ "" ∉ cs ∧
    ∀ ps' cs', CodeExecution ps' cs' ∈ capabilities current →
      (∀ x, x ∈ ps' → x ∉ cs) ∧ (∀ x, x ∈ cs' → x ∉ ps).

(** The old declaration of plan operations is not the wildcard, which the delta
    takes for the widest scope although it grants no authority. *)
Definition plan_scopes_listed (previous : AgentManifest) : Prop :=
  ∀ patterns, PlanFrameAccess patterns ∈ capabilities previous → "*" ∉ patterns.

Lemma patterns_allow_mono previous current operation :
  (is_authority_operation operation = true → "*" ∉ previous) → all_scopes previous ∨ current ⊆ previous →
  patterns_allow current operation = true → patterns_allow previous operation = true.
Proof.
  intros Hauth Hs Hc. destruct (decide ("*" ∈ previous)) as [Hall|Hall].
  - apply authority_requires_exact_grant; [|done].
    destruct (is_authority_operation operation); [by destruct Hauth|done].
  - destruct Hs as [?|Hsub]; [done|]. revert Hc. unfold patterns_allow. rewrite !existsb_true.
    intros (raw & Hin & Hr). exists raw. split; [by apply Hsub|done].
Qed.



(** What the two conditions exclude: a command word that becomes a pattern admits
    every command that starts with it, and a wildcard holder may be given the
    approval of plans, without either being reported. *)
Example moved_scopes_are_not_reported :
  let m caps := {| manifest_agent_id := "a"; capabilities := caps; messaging := None |} in
  let silent p c := has_broadening (compute_capability_delta p c) = false in
  silent [CodeExecution [] ["git"]] [CodeExecution ["git"] []] ∧
  can_exec_shell (m [CodeExecution [] ["git"]]) "gitevil x" = Some (deny "P-1.9") ∧
  can_exec_shell (m [CodeExecution ["git"] []]) "gitevil x" = Some (allow "P-1.9") ∧
  silent [PlanFrameAccess ["*"]] [PlanFrameAccess ["planframe.approve"]] ∧
  can_perform (m [PlanFrameAccess ["*"]]) "planframe.approve" = false ∧
  can_perform (m [PlanFrameAccess ["planframe.approve"]]) "planframe.approve" = true.
Proof. vm_compute. split_and!; reflexivity. Qed.

(** A shell command is allowed only if the static analysis finds no threat
    in it and some [CodeExecution] capability has a pattern that is a prefix of
    one of its segments or a command word that occurs in one; a command with a
    threat is always denied with the analysis attached; and the decision
    returns unless a capability lists the empty command word. *)
Theorem shell_execution_spec m command :
  (∀ d, can_exec_shell m command = Some d → allowed d = true →
     is_safe (analyze_command command) = true ∧
     ∃ patterns commands seg, CodeExecution patterns commands ∈ capabilities m ∧
       seg ∈ nonempty_segments command ∧
       ((∃ p, p ∈ patterns ∧ starts_with seg (trim_end_matches p "*") = true) ∨
        (∃ w, w ∈ commands ∧ contains_shell_word seg w = Some true))) ∧
  (is_safe (analyze_command command) = false →
     can_exec_shell m command = Some (deny_with_analysis "P-3.8" (analyze_command command))) ∧
  ((∀ patterns commands, CodeExecution patterns commands ∈ capabilities m → "" ∉ commands) →
     is_Some (can_exec_shell m command)).
Proof.
  split; [intros d; apply shell_allowed_by|].
  unfold can_exec_shell, can_exec_shell_detailed.
  destruct (is_safe (analyze_command command)); cbn [negb]; [|by split].
  split; [done|]. intros Hne. destruct (find_map _ (capabilities m)) as [d'|]; [done|].
  destruct (any_returning_is_some (exec_commands_match command) (capabilities m)) as [b ->]; [|by destruct b].
  intros cap Hcap. apply exec_commands_match_returns. intros ps cs ->. by eapply Hne.
Qed.

Lemma shell_execution_spec_witness :
  is_safe (analyze_command "pytest -q | tee log") = true ∧
  is_Some (can_exec_shell {| manifest_agent_id := "a";
     capabilities := [CodeExecution ["py*"] []]; messaging := None |} "pytest -q | tee log").
Proof.
  set (m := {| manifest_agent_id := "a"; capabilities := [CodeExecution ["py*"] []];
               messaging := None |}).
  destruct (shell_execution_spec m "pytest -q | tee log") as (H1 & _ & H3). split.
  - apply (H1 (allow "P-1.9")); vm_compute; reflexivity.
  - apply H3. intros ps cs [Heq|H]%elem_of_cons; [|by apply not_elem_of_nil in H].
    injection Heq as -> ->. apply not_elem_of_nil.
Defined.

(** A capability that covers one segment of a pipeline admits the whole
    pipeline, a command word matches anywhere in a segment and not only as its
    first word, and an empty command word makes the decision diverge. *)
Theorem shell_grants_are_per_segment :
  let m ps cs := {| manifest_agent_id := "a"; capabilities := [CodeExecution ps cs];
                    messaging := None |} in
  can_exec_shell (m ["ls"] []) "ls; curl http://x -o y" = Some (allow "P-1.9") ∧
  can_exec_shell (m ["ls"] []) "curl http://x -o y" = Some (deny "P-1.9") ∧
  can_exec_shell (m [] ["git"]) "curl http://git" = Some (allow "P-1.9") ∧
  can_exec_shell (m [] [""]) "ls" = None.
Proof. vm_compute. split_and!; reflexivity. Qed.

(** ** Limits *)

Lemma find_map_unique {B} (f : Capability → option B) (t : string) caps c b :
  (∀ x y, f x = Some y → type_name x = t) → NoDup (type_name <$> caps) →
  c ∈ caps → f c = Some b → find_map f caps = Some b.
Proof.
  intros Hf. induction caps as [|x caps IH]; [by intros _ ?%not_elem_of_nil|].
  rewrite fmap_cons. intros [Hx Hnd]%NoDup_cons [->|Hc]%elem_of_cons Hb; simpl; [by rewrite Hb|].
  destruct (f x) as [b'|] eqn:E; [|by apply IH]. exfalso. apply Hx.
  rewrite (Hf x b' E), <-(Hf c b Hb). by apply list_elem_of_fmap_2.
Qed.

(** The gate bounds the numeric limits.  Without duplicate kinds and
    without a reported broadening, a new revision that may spawn may spawn no
    more children than the old one, and one with background wake-ups wakes no
    more often and reasons only if the old one could. *)
Theorem unbroadened_revision_limits previous current :
  NoDup (type_name <$> capabilities previous) → NoDup (type_name <$> capabilities current) →
  has_broadening (compute_capability_delta (capabilities previous) (capabilities current)) = false →
  (∀ n, spawn_agent_limit current = Some n →
     ∃ n', spawn_agent_limit previous = Some n' ∧ (n ≤ n')%Z) ∧
  (∀ i b, background_reevaluation_limits current = Some (i, b) →
     ∃ i' b', background_reevaluation_limits previous = Some (i', b') ∧
       (i' ≤ i)%Z ∧ (b = true → b' = true)).
Proof.
  intros Hp Hc Hb. pose proof (proj1 (no_broadening_spec _ _) Hb) as HB. split.
  - intros n (c & Hin & Hn)%find_map_some. destruct c as [| | | |mc md| | | | | | | | | | | | | | | | | | | | | | | | |]; try done.
    injection Hn as ->.
    destruct (HB "AgentSpawn" (AgentSpawn n md)) as (p & Hp' & Hbr);
      [by apply (declared_kind_nodup _ (AgentSpawn n md))|].
    destruct (declared_kind_elem _ _ _ Hp') as [Hpin Ht]. destruct p; try discriminate Ht.
    exists max_children. split.
    + eapply (find_map_unique _ "AgentSpawn"); [|done|exact Hpin|done]. by intros [].
    + simpl in Hbr. unfold agent_spawn_broadening in Hbr.
      destruct (Z.ltb_spec max_children n); [done|lia].
  - intros i b (c & Hin & Hn)%find_map_some. destruct c; try done. injection Hn as -> ->.
    destruct (HB "BackgroundReevaluation" (BackgroundReevaluation i b)) as (p & Hp' & Hbr);
      [by apply (declared_kind_nodup _ (BackgroundReevaluation i b))|].
    destruct (declared_kind_elem _ _ _ Hp') as [Hpin Ht]. destruct p; try discriminate Ht.
    exists min_interval_secs, allow_reasoning. split.
    + eapply (find_map_unique _ "BackgroundReevaluation"); [|done|exact Hpin|done]. by intros [].
    + simpl in Hbr. destruct (Z.ltb_spec i min_interval_secs); [done|]. split; [lia|].
      by destruct b, allow_reasoning.
Qed.

Lemma unbroadened_revision_limits_witness :
  let m caps := {| manifest_agent_id := "a"; capabilities := caps; messaging := None |} in
  ∃ n', spawn_agent_limit (m [AgentSpawn 5 3]) = Some n' ∧ (4 ≤ n')%Z.
Proof.
  intros m.
  destruct (unbroadened_revision_limits (m [AgentSpawn 5 3]) (m [AgentSpawn 4 2])) as [H _].
  - apply (bool_decide_unpack _). vm_compute. exact I.
  - apply (bool_decide_unpack _). vm_compute. exact I.
  - vm_compute. reflexivity.
  - apply H. reflexivity.
Defined.

(** What the delta does not see.  Resetting a declared spawn depth to 0
    lifts the agent's ceiling to the system's without being reported;
    widening [AnomalyAdjudicate] or [PromoteWith] is never reported; and a
    second declaration of a kind hides an earlier, wider one from the delta
    although the engine honours both. *)
Theorem delta_blind_spots :
  let m caps := {| manifest_agent_id := "a"; capabilities := caps; messaging := None |} in
  let silent p c := has_broadening (compute_capability_delta p c) = false in
  (∀ n d system, (0 < d < system)%Z →
     silent [AgentSpawn n d] [AgentSpawn n 0] ∧
     (effective_ceiling (m [AgentSpawn n d]) system < effective_ceiling (m [AgentSpawn n 0]) system)%Z) ∧
  (∀ a b, silent [AnomalyAdjudicate a] [AnomalyAdjudicate b]) ∧
  (∀ i a j b, silent [PromoteWith i a] [PromoteWith j b]) ∧
  (∀ host, host ≠ "x" →
     silent [NetworkAccess ["x"]] [NetworkAccess ["*"]; NetworkAccess ["x"]] ∧
     allowed (decision (m [NetworkAccess ["x"]]) (ConnectNet host)) = false ∧
     allowed (decision (m [NetworkAccess ["*"]; NetworkAccess ["x"]]) (ConnectNet host)) = true).
Proof.
  cbv zeta. split_and!.
  - intros n d system Hd. unfold effective_ceiling. simpl. split.
    + unfold compute_capability_delta. simpl. unfold agent_spawn_broadening.
      destruct (Z.ltb_spec n n); [lia|]. destruct (Z.eqb_spec d 0); [lia|]. simpl.
      destruct (Z.ltb_spec d 0); [lia|]. done.
    + destruct (Z.ltb_spec 0 d); lia.
  - done.
  - done.
  - intros host Hh. split_and!; [done| |].
    + cbn [decision]. unfold can_connect_net. cbn [find_map capabilities existsb].
      assert (("x" =? host)%string = false) as -> by (apply String.eqb_neq; congruence). done.
    + cbn [decision]. unfold can_connect_net. cbn [find_map capabilities existsb].
      by rewrite String.eqb_refl, orb_true_r.
Qed.
