(* ===== verification/LoopGuard.v ===== *)
(** * The loop guard of an agent session

    The model of [LoopGuard] ([autonoetic-gateway/src/runtime/guard.rs]), of
    the error fingerprints it counts ([.../error_fingerprint.rs]) and of the
    accounting of a round of tool results in the turn loop
    ([.../lifecycle.rs]).

    Every operation takes the guard and returns it; [check_loop] also returns
    the reason that its error formats.  The clock is an argument, in
    milliseconds.  [u32] counters wrap, as [+= 1] does in a release build,
    except where the source saturates.  The standard library leaves the
    algorithm of [DefaultHasher] open, so the hashes are parameters
    ([hash_strs], [hash_spawn]), as are the [regex] substitutions
    ([replace_all]) and [serde_json] ([from_str], [json_to_string]). *)

From Stdlib Require Import Ascii String ZArith Lia.
From stdpp Require Import prelude gmap strings list.
From coqutil Require Import Datatypes.RecordSetters.
From S2P Require Import Prelude RustStr Json Llm.
Import DoubleBraceUpdate.

Open Scope string_scope.
Open Scope nat_scope.
Open Scope list_scope.

(** ** Trip reasons and tool errors *)

Inductive LoopGuardTripReason : Type :=
| NoMeaningfulProgress (cycles : Z)
| ToolFailureBudget (tool : string) (failures : Z)
| RotatingPollingPattern (window_size distinct_count floor : nat)
| ChildFailureBudget (failures : Z)
| RedundantRosterPolling (tool : string) (repeats floor : Z)
| LlmFailureBudget (failures : Z)
| WorkflowTerminal (workflow_id : string)
| RecurringUnrecoverableError (error_hash : Z) (distinct_tools : list string) (occurrences : Z)
| RepeatedIrrecoverableRejection (tool : string) (error_hash : Z) (occurrences : Z)
| RepeatedSpawnIdentity (agent_id : string) (identity_hash : Z) (occurrences : Z)
| RedundantAnnotationLoop (tool : string) (rounds floor : Z)
| IrrecoverableGateFlailing (tool : string) (occurrences : Z) (distinct_rejections : nat).

Definition trip_code (r : LoopGuardTripReason) : string :=
  match r with
  | NoMeaningfulProgress _ => "no_meaningful_progress"
  | ToolFailureBudget _ _ => "tool_failure_budget"
  | RotatingPollingPattern _ _ _ => "rotating_polling_pattern"
  | ChildFailureBudget _ => "child_failure_budget"
  | RedundantRosterPolling _ _ _ => "redundant_roster_polling"
  | LlmFailureBudget _ => "llm_failure_budget"
  | WorkflowTerminal _ => "workflow_terminal"
  | RecurringUnrecoverableError _ _ _ => "recurring_unrecoverable_error"
  | RepeatedIrrecoverableRejection _ _ _ => "repeated_irrecoverable_rejection"
  | RepeatedSpawnIdentity _ _ _ => "repeated_spawn_identity"
  | RedundantAnnotationLoop _ _ _ => "redundant_annotation_loop"
  | IrrecoverableGateFlailing _ _ _ => "irrecoverable_gate_flailing"
  end.

Definition trip_rule_id (r : LoopGuardTripReason) : string :=
  match r with
  | ToolFailureBudget _ _ => "P-7.5"
  | NoMeaningfulProgress _ => "P-7.7"
  | RotatingPollingPattern _ _ _ => "P-7.19"
  | ChildFailureBudget _ => "P-7.20"
  | RedundantRosterPolling _ _ _ => "P-7.19"
  | LlmFailureBudget _ => "P-7.5"
  | WorkflowTerminal _ => "P-7.5"
  | RecurringUnrecoverableError _ _ _ => "P-7.7"
  | RepeatedIrrecoverableRejection _ _ _ => "P-7.7"
  | IrrecoverableGateFlailing _ _ _ => "P-7.7"
  | RepeatedSpawnIdentity _ _ _ => "P-7.19"
  | RedundantAnnotationLoop _ _ _ => "P-7.19"
  end.

Definition is_session_repairable (r : LoopGuardTripReason) : bool :=
  match r with
  | NoMeaningfulProgress _ | RotatingPollingPattern _ _ _ | RedundantRosterPolling _ _ _
  | RedundantAnnotationLoop _ _ _ | RepeatedSpawnIdentity _ _ _
  | RecurringUnrecoverableError _ _ _ | RepeatedIrrecoverableRejection _ _ _
  | LlmFailureBudget _ => true
  | _ => false
  end.

Inductive ToolErrorType : Type :=
| Validation | Permission | Resource | Execution | Fatal | Conflict | QuotaExceeded
| NotFound | Timeout | SandboxUnavailable.

Definition is_irrecoverable (error_type : ToolErrorType) : bool :=
  match error_type with
  | Permission | QuotaExceeded | SandboxUnavailable => true
  | _ => false
  end.

(** ** The guard *)

Record LoopGuardConfig := {
  cfg_max_loops_without_progress : Z;
  cfg_max_tool_failures : Z;
  cfg_max_consecutive_same_progress : Z;
  cfg_max_child_failures : Z;
  cfg_progress_budget_tools : gmap string Z;
  cfg_rotation_window_size : nat;
  cfg_rotation_distinct_floor : nat;
  cfg_roster_repeat_floor : Z;
  cfg_max_llm_failures : Z;
  cfg_child_failure_loop_penalty : Z;
  cfg_recurring_error_window : nat;
  cfg_recurring_error_distinct_tools : nat;
  cfg_max_irrecoverable_repeats : Z;
  cfg_max_spawn_identity_repeats : Z;
  cfg_annotation_repeat_floor : Z;
  cfg_idle_loop_floor_secs : Z;
}.

Record LoopGuard := {
  max_loops_without_progress : Z;
  max_tool_failures : Z;
  max_consecutive_same_progress : Z;
  max_child_failures : Z;
  max_window_size : nat;
  max_distinct_floor : nat;
  roster_repeat_floor : Z;
  llm_failure_count : Z;
  max_llm_failures : Z;
  progress_budget_tools : gmap string Z;
  progress_budget_used : gmap string Z;
  current_loops : Z;
  tool_failure_counts : gmap string Z;
  last_progress_fingerprint : option (string * Z);
  consecutive_progress_count : Z;
  child_failure_count : Z;
  child_failure_loop_penalty : Z;
  repair_mode : bool;
  repair_loops : Z;
  max_repair_loops : Z;
  recent_fingerprints : list Z;
  recent_error_fingerprints : list (Z * string);
  recurring_error_window : nat;
  recurring_error_distinct_tools : nat;
  irrecoverable_repeat_counts : gmap string Z;
  max_irrecoverable_repeats : Z;
  trip_reason : option LoopGuardTripReason;
  spawn_identity_counts : gmap string Z;
  max_spawn_identity_repeats : Z;
  consecutive_annotation_rounds : Z;
  annotation_repeat_floor : Z;
  last_annotation_tool : string;
  idle_loop_floor_secs : Z;
  last_loop_at_ms : option Z;
  loop_guard_repairs_used : Z;
}.

Definition MAX_LOOP_GUARD_REPAIRS : Z := 3.

Definition with_config (cfg : LoopGuardConfig) : LoopGuard :=
  {| max_loops_without_progress := cfg_max_loops_without_progress cfg;
     max_tool_failures := cfg_max_tool_failures cfg;
     max_consecutive_same_progress := cfg_max_consecutive_same_progress cfg;
     max_child_failures := cfg_max_child_failures cfg;
     max_window_size := cfg_rotation_window_size cfg;
     max_distinct_floor := cfg_rotation_distinct_floor cfg;
     roster_repeat_floor := cfg_roster_repeat_floor cfg;
     llm_failure_count := 0;
     max_llm_failures := cfg_max_llm_failures cfg;
     progress_budget_tools := cfg_progress_budget_tools cfg;
     progress_budget_used := ∅;
     current_loops := 0;
     tool_failure_counts := ∅;
     last_progress_fingerprint := None;
     consecutive_progress_count := 0;
     child_failure_count := 0;
     child_failure_loop_penalty := cfg_child_failure_loop_penalty cfg;
     repair_mode := false;
     repair_loops := 0;
     max_repair_loops := 0;
     recent_fingerprints := [];
     recent_error_fingerprints := [];
     recurring_error_window := cfg_recurring_error_window cfg;
     recurring_error_distinct_tools := cfg_recurring_error_distinct_tools cfg;
     irrecoverable_repeat_counts := ∅;
     max_irrecoverable_repeats := cfg_max_irrecoverable_repeats cfg;
     trip_reason := None;
     spawn_identity_counts := ∅;
     max_spawn_identity_repeats := cfg_max_spawn_identity_repeats cfg;
     consecutive_annotation_rounds := 0;
     annotation_repeat_floor := cfg_annotation_repeat_floor cfg;
     last_annotation_tool := "";
     idle_loop_floor_secs := cfg_idle_loop_floor_secs cfg;
     last_loop_at_ms := None;
     loop_guard_repairs_used := 0 |}.

(** [LoopGuardConfig::default()], with the [default_*] functions it calls. *)
Definition default_config : LoopGuardConfig :=
  {| cfg_max_loops_without_progress := 10;
     cfg_max_tool_failures := 8;
     cfg_max_consecutive_same_progress := 1;
     cfg_max_child_failures := 5;
     cfg_progress_budget_tools :=
       {[ "knowledge_store" := 3%Z; "knowledge_search" := 3%Z; "workflow_wait" := 3%Z ]};
     cfg_rotation_window_size := 16;
     cfg_rotation_distinct_floor := 6;
     cfg_roster_repeat_floor := 3;
     cfg_max_llm_failures := 3;
     cfg_child_failure_loop_penalty := 2;
     cfg_recurring_error_window := 10;
     cfg_recurring_error_distinct_tools := 3;
     cfg_max_irrecoverable_repeats := 3;
     cfg_max_spawn_identity_repeats := 3;
     cfg_annotation_repeat_floor := 3;
     cfg_idle_loop_floor_secs := 60 |}.

(** [u32] arithmetic: [+] of a release build, and the saturating methods. *)
Definition u32_add (a b : Z) : Z := (a + b) mod 2 ^ 32.
Definition u32_saturating_add (a b : Z) : Z := Z.min (a + b) U32_MAX.
Definition u32_saturating_mul (a b : Z) : Z := Z.min (a * b) U32_MAX.

(** [*map.entry(key).or_insert(0) += 1]. *)
Definition incr_count (m : gmap string Z) (key : string) : gmap string Z :=
  <[key := u32_add (default 0%Z (m !! key)) 1]> m.

(** [VecDeque]: evict the oldest when full, then append. *)
Definition push_window {A} (window : nat) (l : list A) (x : A) : list A :=
  (if window <=? length l then drop 1 l else l) ++ [x].

Definition distinct_count (l : list Z) : nat := size (list_to_set l : gset Z).

(** ** The check before every round *)

Definition tripped (self : LoopGuard) (reason : LoopGuardTripReason)
    : LoopGuard * result unit LoopGuardTripReason :=
  (self{{ trip_reason := Some reason }}, Err reason).

(** The first tool, in the map's iteration order, over its budget. *)
Definition exhausted_tool (self : LoopGuard) : option (string * Z) :=
  List.find (λ tc, max_tool_failures self <=? tc.2)%Z (map_to_list (tool_failure_counts self)).

Definition idle_since_last_loop (self : LoopGuard) (now_ms : Z) : bool :=
  (0 <? idle_loop_floor_secs self)%Z &&
  match last_loop_at_ms self with
  | Some prev =>
      (saturating_mul (idle_loop_floor_secs self) 1000 <=? saturating_sub now_ms prev)%Z
  | None => false
  end.

Definition check_loop (self : LoopGuard) (now_ms : Z)
    : LoopGuard * result unit LoopGuardTripReason :=
  match trip_reason self with
  | Some reason => (self, Err reason)
  | None =>
      if repair_mode self then
        if (0 <? max_repair_loops self)%Z && (max_repair_loops self <=? repair_loops self)%Z
        then tripped self (NoMeaningfulProgress (repair_loops self))
        else (self{{ repair_loops := u32_add (repair_loops self) 1 }}, Ok tt)
      else
        let self := self{{ current_loops :=
                             if idle_since_last_loop self now_ms then 0%Z
                             else current_loops self;
                           last_loop_at_ms := Some now_ms }} in
        if (max_loops_without_progress self <=? current_loops self)%Z
        then tripped self (NoMeaningfulProgress (current_loops self))
        else match exhausted_tool self with
             | Some (tool_name, count) => tripped self (ToolFailureBudget tool_name count)
             | None =>
                 if (max_child_failures self <=? child_failure_count self)%Z
                 then tripped self (ChildFailureBudget (child_failure_count self))
                 else if (max_llm_failures self <=? llm_failure_count self)%Z
                 then tripped self (LlmFailureBudget (llm_failure_count self))
                 else (self{{ current_loops := u32_add (current_loops self) 1 }}, Ok tt)
             end
  end.

Definition trip (self : LoopGuard) (reason : LoopGuardTripReason) : LoopGuard :=
  self{{ trip_reason := Some reason }}.

Definition is_sub_trip_warning (self : LoopGuard) : bool :=
  let loop_threshold := ((max_loops_without_progress self * 4 + 4) / 5)%Z in
  let failure_threshold := ((max_tool_failures self * 4 + 4) / 5)%Z in
  ((loop_threshold <=? current_loops self)%Z
   && (current_loops self <? max_loops_without_progress self)%Z)
  || existsb (λ tc, (failure_threshold <=? tc.2)%Z && (tc.2 <? max_tool_failures self)%Z)
       (map_to_list (tool_failure_counts self)).

(** ** Repair mode *)

Definition enter_repair_mode (self : LoopGuard) (max : Z) : LoopGuard :=
  self{{ repair_mode := true; repair_loops := 0%Z; max_repair_loops := max }}.

Definition exit_repair_mode (self : LoopGuard) : LoopGuard :=
  self{{ repair_mode := false; repair_loops := 0%Z }}.

Definition reset_after_successful_repair (self : LoopGuard) : LoopGuard :=
  self{{ current_loops := 0%Z; repair_mode := false; repair_loops := 0%Z }}.

Definition clear_trip_for_repair (self : LoopGuard) : LoopGuard :=
  self{{ trip_reason := None;
         current_loops := 0%Z;
         consecutive_progress_count := 0%Z;
         last_progress_fingerprint := None;
         recent_fingerprints := [];
         recent_error_fingerprints := [];
         llm_failure_count := 0%Z;
         irrecoverable_repeat_counts := ∅;
         spawn_identity_counts := ∅;
         consecutive_annotation_rounds := 0%Z;
         last_annotation_tool := "";
         loop_guard_repairs_used := u32_saturating_add (loop_guard_repairs_used self) 1 }}.

(** ** Failures, children, annotations and the model endpoint *)

Definition register_failure (self : LoopGuard) (tool_name : string)
    (error_type : option ToolErrorType) : LoopGuard * bool :=
  let excluded :=
    match error_type with
    | Some e => is_irrecoverable e || match e with Validation => true | _ => false end
    | None => false
    end in
  if excluded then (self, false)
  else (self{{ tool_failure_counts := incr_count (tool_failure_counts self) tool_name }}, true).

Definition register_child_failure (self : LoopGuard) : LoopGuard :=
  self{{ child_failure_count := u32_add (child_failure_count self) 1;
         current_loops :=
           u32_saturating_add (current_loops self) (child_failure_loop_penalty self) }}.

Definition register_llm_failure (self : LoopGuard) : LoopGuard :=
  self{{ llm_failure_count := u32_add (llm_failure_count self) 1 }}.

Definition register_llm_success (self : LoopGuard) : LoopGuard :=
  self{{ llm_failure_count := 0%Z }}.

Definition is_tripped (self : LoopGuard) : bool := bool_decide (is_Some (trip_reason self)).

Definition register_annotation_round (self : LoopGuard) (tool : string)
    : LoopGuard * option LoopGuardTripReason :=
  if (annotation_repeat_floor self =? 0)%Z || is_tripped self || repair_mode self
  then (self, None)
  else
    let self := self{{ consecutive_annotation_rounds :=
                         u32_add (consecutive_annotation_rounds self) 1;
                       last_annotation_tool := tool }} in
    if (annotation_repeat_floor self <=? consecutive_annotation_rounds self)%Z then
      let reason := RedundantAnnotationLoop tool (consecutive_annotation_rounds self)
                      (annotation_repeat_floor self) in
      (self{{ trip_reason := Some reason }}, Some reason)
    else (self, None).

Definition reset_annotation_rounds (self : LoopGuard) : LoopGuard :=
  self{{ consecutive_annotation_rounds := 0%Z; last_annotation_tool := "" }}.

Definition is_annotation_tool (tool_name : string) : bool := (tool_name =? "digest_annotate")%string.

Definition is_roster_read_tool (tool_name : string) : bool :=
  existsb (String.eqb tool_name) ["agent_list"; "agent_inspect"; "agent_discover"].

Definition is_read_only_tool (tool_name : string) : bool :=
  existsb (String.eqb tool_name)
    ["resolve"; "workflow_state"; "planframe_get"; "planframe_list"; "planframe_history";
     "approval_list"; "approval_status"; "agent_discover"; "agent_inspect"; "agent_list";
     "artifact_inspect"; "session_peek"; "tool_discover"; "agent_revision_schema";
     "promotion_query"; "knowledge_recall"; "knowledge_search"; "digest_query";
     "observability_search"; "observability_read"; "observability_read_reasoning";
     "execution_search"].

(** [format!("{hash:016x}")] of a [u64]. *)
Definition hex_digit (d : Z) : ascii :=
  if (d <? 10)%Z then ascii_of_nat (48 + Z.to_nat d) else ascii_of_nat (87 + Z.to_nat d).

Definition hex16 (hash : Z) : string :=
  string_of_list_ascii
    (map (λ i, hex_digit (Z.land (Z.shiftr hash (4 * (15 - Z.of_nat i))) 15)) (seq 0 16)).

Definition nul : ascii := ch 0.

Definition irrecoverable_key (tool_name : string) (hash : Z) : string :=
  (tool_name ++ String nul (hex16 hash))%string.

(** The rejections of one tool, and over how many distinct keys, folded over
    the counters in the map's iteration order. *)
Definition irrecoverable_of (counts : gmap string Z) (tool_name : string) : Z * nat :=
  map_fold (λ key occurrences '(total, distinct),
    match split_once nul key with
    | Some (tool, _) =>
        if (tool =? tool_name)%string then (u32_add total occurrences, S distinct)
        else (total, distinct)
    | None => (total, distinct)
    end) (0%Z, 0) counts.

(** ** Error fingerprints (error_fingerprint.rs) *)

Definition TIMESTAMP_RE : string := "\d{4}-\d{2}-\d{2}T[0-9:.+Z-]+".
Definition UUID_RE : string :=
  "[0-9a-fA-F]{8}-[0-9a-fA-F]{4}-[0-9a-fA-F]{4}-[0-9a-fA-F]{4}-[0-9a-fA-F]{12}".
Definition PREFIXED_ID_RE : string :=
  "\b(?:wf|task|session|sess|root|apr|rev|job|node|agent|child)-[A-Za-z0-9][A-Za-z0-9_./:-]*".
Definition LONG_HEX_RE : string := "\b[0-9a-fA-F]{12,}\b".
Definition NUMBER_RE : string := "\d+".
Definition WS_RE : string := "\s+".

(** [parse_tool_error_type] *)
Definition parse_tool_error_type (s : option string) : option ToolErrorType :=
  s ← s;
  if (s =? "validation")%string then Some Validation
  else if (s =? "permission")%string then Some Permission
  else if (s =? "resource")%string then Some Resource
  else if (s =? "execution")%string then Some Execution
  else if (s =? "fatal")%string then Some Fatal
  else if (s =? "conflict")%string then Some Conflict
  else if (s =? "quota_exceeded")%string then Some QuotaExceeded
  else if (s =? "not_found")%string then Some NotFound
  else if (s =? "timeout")%string then Some Timeout
  else if (s =? "sandbox_unavailable")%string then Some SandboxUnavailable
  else None.

Definition get_bool (v : Json) (key : string) : option bool := json_get v key ≫= json_as_bool.
Definition get_str (v : Json) (key : string) : option string := json_get v key ≫= json_as_str.

(** [v == Some(&Value::Bool(b))] *)
Definition is_bool (v : option Json) (b : bool) : bool :=
  match v with Some (JBool b') => Bool.eqb b b' | _ => false end.

Definition is_signal_derived_exit (value : Json) : bool :=
  (match get_bool value "ok" with Some false => true | _ => false end)
  && match json_get value "exit_code" ≫= json_as_i64 with
     | Some code => (128 <=? code)%Z
     | None => false
     end.

(** ** Classification of a tool result *)

Inductive ToolResultVerdict : Type :=
| Unparsed | Failure | Unrecognized | StagnantPoll | TerminalProgress | ReadOnlyProgress
| Progress.

Record ToolResultClassification := {
  verdict : ToolResultVerdict;
  error_type : option ToolErrorType;
  irrecoverable : bool;
  signal_derived : bool;
}.

Section Guard.
Context (from_str : string → option Json) (json_to_string : Json → string).
Context (replace_all : string → string → string → string).
Context (hash_strs : list string → Z) (hash_spawn : string → list string → string → Z).

Definition normalize_error_text (s : string) : string :=
  let s := replace_all TIMESTAMP_RE "<ts>" s in
  let s := replace_all UUID_RE "<id>" s in
  let s := replace_all PREFIXED_ID_RE "<id>" s in
  let s := replace_all LONG_HEX_RE "<hash>" s in
  let s := replace_all NUMBER_RE "<n>" s in
  let s := replace_all WS_RE " " s in
  to_lowercase (trim s).

Definition hash_normalized (normalized : string) : Z := hash_strs [normalized].

Definition failure_item_text (item : Json) : option string :=
  match get_str item "reason" with
  | Some s => Some s
  | None =>
      match get_str item "message" with
      | Some s => Some s
      | None =>
          match get_str item "result_summary" with
          | Some s => Some s
          | None => get_str item "error"
          end
      end
  end.

Definition extract_error_text (result_json : string) : option string :=
  value ← from_str result_json;
  _ ← json_as_object value;
  let has key := bool_decide (is_Some (json_get value key)) in
  let has_error := has "error" || has "error_type" in
  let any_failed := default false (get_bool value "any_failed") in
  let escalation := default false (get_bool value "escalation_required") in
  if negb (match get_bool value "ok" with Some false => true | _ => false end)
     && negb has_error && negb any_failed && negb escalation
  then None
  else
    let named := omap (λ key,
      s ← get_str value key; if str_is_empty s then None else Some s)
      ["error"; "error_type"; "message"; "reason"] in
    let summary := match json_get value "failure_summary" ≫= json_as_array with
                   | Some arr => omap failure_item_text arr
                   | None => []
                   end in
    match named ++ summary with
    | [] => None
    | parts => Some (join " " parts)
    end.

Definition fingerprint_result (result_json : string) : option Z :=
  text ← extract_error_text result_json;
  Some (hash_normalized (normalize_error_text text)).

(** [trajectory_monitor::normalize_arguments] *)
Definition normalize_arguments (arguments_json : string) : string :=
  match from_str arguments_json with
  | None => arguments_json
  | Some (JObject m) =>
      json_to_string (JObject (List.filter (λ kv, negb (kv.1 =? "intent")%string) m))
  | Some v => json_to_string v
  end.

Definition compute_fingerprint (tool_name arguments : string) : string * Z :=
  (tool_name, hash_strs [tool_name; arguments]).

Definition tool_result_counts_as_progress (result : string) : bool :=
  match from_str result with
  | None => false
  | Some parsed =>
      match get_bool parsed "ok" with
      | Some ok => ok
      | None =>
          match get_bool parsed "approval_required" with
          | Some approval_required => negb approval_required
          | None =>
              match json_get parsed "exit_code" ≫= json_as_i64 with
              | Some exit_code => (exit_code =? 0)%Z
              | None =>
                  negb (bool_decide (is_Some (json_get parsed "error"))
                        || bool_decide (is_Some (json_get parsed "error_type")))
              end
          end
      end
  end.

Definition is_stagnant_poll (tool_name result : string) : bool :=
  if (tool_name =? "workflow_wait")%string then
    match from_str result with
    | None => false
    | Some parsed =>
        let waited := default U64_MAX (json_get parsed "waited_secs" ≫= json_as_u64) in
        let satisfied := default false (get_bool parsed "join_satisfied") in
        let failed := default false (get_bool parsed "any_failed") in
        (waited =? 0)%Z && negb satisfied && negb failed
    end
  else if (tool_name =? "planframe_amend")%string then
    match from_str result with
    | None => false
    | Some parsed =>
        let ok := default false (get_bool parsed "ok") in
        let requires_regate := default false (get_bool parsed "requires_regate") in
        let progress_recorded := default true (get_bool parsed "progress_recorded") in
        ok && negb requires_regate && negb progress_recorded
    end
  else false.

Definition is_resolve_content_read (tool_name arguments_json : string) : bool :=
  if negb (tool_name =? "resolve")%string then false
  else match from_str arguments_json ≫= (λ v, get_str v "include") with
       | Some s => (s =? "content")%string
       | None => false
       end.

Definition no_finding (v : ToolResultVerdict) : ToolResultClassification :=
  {| verdict := v; error_type := None; irrecoverable := false; signal_derived := false |}.

Definition classify_tool_result (tool_name arguments result_json : string)
    : ToolResultClassification :=
  match from_str result_json with
  | None => no_finding Unparsed
  | Some parsed =>
      if is_bool (json_get parsed "ok") false then
        let et := parse_tool_error_type (get_str parsed "error_type") in
        {| verdict := Failure; error_type := et;
           irrecoverable := match et with Some e => is_irrecoverable e | None => false end
                            || is_signal_derived_exit parsed;
           signal_derived := is_signal_derived_exit parsed |}
      else if negb (tool_result_counts_as_progress result_json) then no_finding Unrecognized
      else no_finding
        (if is_stagnant_poll tool_name result_json then StagnantPoll
         else if match get_str parsed "side_effect_state" with
                 | Some s => (s =? "committed")%string | None => false end
         then TerminalProgress
         else if is_read_only_tool tool_name && negb (is_resolve_content_read tool_name arguments)
         then ReadOnlyProgress
         else Progress)
  end.

(** ** Errors *)

(** The loop over the window: the distinct tools, in order, and the number of
    occurrences of one fingerprint. *)
Definition same_error (window : list (Z * string)) (hash : Z) : list string * Z :=
  fold_left (λ '(distinct, occurrences) '(h, tool),
    if (h =? hash)%Z
    then (if existsb (String.eqb tool) distinct then distinct else distinct ++ [tool],
          u32_add occurrences 1)
    else (distinct, occurrences)) window ([], 0%Z).

Definition register_error (self : LoopGuard) (tool_name result_json : string) : LoopGuard :=
  if (recurring_error_window self =? 0) || (recurring_error_distinct_tools self <? 2)
     || is_tripped self || repair_mode self
  then self
  else match fingerprint_result result_json with
       | None => self
       | Some hash =>
           let self := self{{ recent_error_fingerprints :=
             push_window (recurring_error_window self) (recent_error_fingerprints self)
               (hash, tool_name) }} in
           let '(distinct, occurrences) := same_error (recent_error_fingerprints self) hash in
           if recurring_error_distinct_tools self <=? length distinct
           then self{{ trip_reason :=
                         Some (RecurringUnrecoverableError hash distinct occurrences) }}
           else self
       end.

Definition register_irrecoverable (self : LoopGuard) (tool_name result_json : string)
    : LoopGuard :=
  if (max_irrecoverable_repeats self =? 0)%Z || is_tripped self || repair_mode self then self
  else match fingerprint_result result_json with
       | None => self
       | Some hash =>
           let key := irrecoverable_key tool_name hash in
           let self := self{{ irrecoverable_repeat_counts :=
                                incr_count (irrecoverable_repeat_counts self) key }} in
           let count := default 0%Z (irrecoverable_repeat_counts self !! key) in
           if (max_irrecoverable_repeats self <=? count)%Z
           then self{{ trip_reason :=
                         Some (RepeatedIrrecoverableRejection tool_name hash count) }}
           else
             let '(total, distinct) :=
               irrecoverable_of (irrecoverable_repeat_counts self) tool_name in
             let flailing_floor := u32_saturating_mul (max_irrecoverable_repeats self) 2 in
             if (2 <=? distinct) && (flailing_floor <=? total)%Z
             then self{{ trip_reason :=
                           Some (IrrecoverableGateFlailing tool_name total distinct) }}
             else self
       end.

Definition register_spawn_attempt (self : LoopGuard) (agent_id : string)
    (expected_outputs : list string) (message : string)
    : LoopGuard * option LoopGuardTripReason :=
  if (max_spawn_identity_repeats self =? 0)%Z || is_tripped self then (self, None)
  else
    let identity_hash := hash_spawn agent_id expected_outputs message in
    let key := (agent_id ++ ":" ++ show_Z identity_hash)%string in
    let self := self{{ spawn_identity_counts := incr_count (spawn_identity_counts self) key }} in
    let count := default 0%Z (spawn_identity_counts self !! key) in
    if (max_spawn_identity_repeats self <=? count)%Z then
      let reason := RepeatedSpawnIdentity agent_id identity_hash count in
      (self{{ trip_reason := Some reason }}, Some reason)
    else (self, None).

(** ** Progress *)

(** The rotating-polling window after one successful call. *)
Definition track_rotation (self : LoopGuard) (fp : Z) (terminal_side_effect : bool) : LoopGuard :=
  if terminal_side_effect then self{{ recent_fingerprints := [] }}
  else if 0 <? max_window_size self then
    let self := self{{ recent_fingerprints :=
                         push_window (max_window_size self) (recent_fingerprints self) fp }} in
    let window := recent_fingerprints self in
    if (max_window_size self <=? length window)
       && (distinct_count window <=? max_distinct_floor self)
    then self{{ trip_reason := Some (RotatingPollingPattern (length window)
                                       (distinct_count window) (max_distinct_floor self)) }}
    else self
  else self.

(** Whether a reset by this tool is within its budget, spending one unit. *)
Definition spend_progress_budget (self : LoopGuard) (tool_name : string) : LoopGuard * bool :=
  match progress_budget_tools self !! tool_name with
  | None => (self, true)
  | Some budget =>
      let used := default 0%Z (progress_budget_used self !! tool_name) in
      if (budget <=? used)%Z
      then (self{{ progress_budget_used := <[tool_name := used]> (progress_budget_used self) }},
            false)
      else (self{{ progress_budget_used :=
                     <[tool_name := u32_add used 1]> (progress_budget_used self) }}, true)
  end.

Definition register_progress_inner (self : LoopGuard) (tool_name arguments : string)
    (terminal_side_effect read_only : bool) : LoopGuard :=
  let fp := compute_fingerprint tool_name (normalize_arguments arguments) in
  let self := track_rotation self fp.2 terminal_side_effect in
  let is_new := negb (bool_decide (last_progress_fingerprint self = Some fp)) in
  let self := self{{ consecutive_progress_count :=
    if is_new then 1%Z else u32_add (consecutive_progress_count self) 1 }} in
  let self :=
    if (0 <? roster_repeat_floor self)%Z && negb is_new && is_roster_read_tool tool_name
       && (roster_repeat_floor self <=? consecutive_progress_count self)%Z
       && negb (is_tripped self)
    then self{{ trip_reason := Some (RedundantRosterPolling tool_name
                  (consecutive_progress_count self) (roster_repeat_floor self)) }}
    else self in
  let would_reset_loops :=
    negb read_only
    && (is_new || (consecutive_progress_count self <=? max_consecutive_same_progress self)%Z) in
  let self :=
    if would_reset_loops then
      let '(self, allowed_by_budget) := spend_progress_budget self tool_name in
      if allowed_by_budget then self{{ current_loops := 0%Z }} else self
    else self in
  self{{ last_progress_fingerprint := Some fp }}.

Definition register_progress (self : LoopGuard) (tool_name arguments : string) : LoopGuard :=
  register_progress_inner self tool_name arguments false false.

Definition register_readonly_progress (self : LoopGuard) (tool_name arguments : string)
    : LoopGuard :=
  register_progress_inner self tool_name arguments false true.

Definition register_progress_terminal (self : LoopGuard) (tool_name arguments : string)
    : LoopGuard :=
  register_progress_inner self tool_name arguments true false.

(** ** A round of tool results (lifecycle.rs)

    What [handle_tool_batch] does to the guard with one batch of results; the
    history, the feedback events and the operator alert it writes beside that
    are not part of the guard's state. *)

Definition account_annotations (self : LoopGuard) (results : list (string * string * string))
    : LoopGuard :=
  let successes := List.filter (λ '(_, _, result), tool_result_counts_as_progress result) results in
  let annotations := List.filter (λ '(_, name, _), is_annotation_tool name) successes in
  let annotation_tool := match annotations with (_, name, _) :: _ => name | [] => "" end in
  if (0 <? length successes) && (length annotations =? length successes) then
    let '(self, reason) := register_annotation_round self annotation_tool in
    match reason with Some reason => trip self reason | None => self end
  else reset_annotation_rounds self.

Definition account_spawn (self : LoopGuard) (tc : ToolCall) : LoopGuard :=
  if negb (call_name tc =? "agent_spawn")%string then self
  else match from_str (call_arguments tc) with
       | None => self
       | Some args =>
           let spawn_agent_id := default "" (get_str args "agent_id") in
           let message_str := default "" (json_to_string <$> json_get args "message") in
           let expected :=
             match (json_get args "metadata" ≫= (λ m, json_get m "expected_outputs"))
                   ≫= json_as_array with
             | Some arr => omap json_as_str arr
             | None => []
             end in
           if str_is_empty spawn_agent_id then self
           else
             let '(self, reason) :=
               register_spawn_attempt self spawn_agent_id expected message_str in
             match reason with Some reason => trip self reason | None => self end
       end.

Definition account_call (self : LoopGuard) (tc : ToolCall) (result : string) : LoopGuard :=
  let c := classify_tool_result (call_name tc) (call_arguments tc) result in
  match verdict c with
  | Failure =>
      if irrecoverable c then register_irrecoverable self (call_name tc) result
      else (register_failure self (call_name tc) (error_type c)).1
  | StagnantPoll | Unparsed | Unrecognized => account_spawn self tc
  | ReadOnlyProgress =>
      account_spawn (register_readonly_progress self (call_name tc) (call_arguments tc)) tc
  | TerminalProgress =>
      account_spawn (register_progress_terminal self (call_name tc) (call_arguments tc)) tc
  | Progress =>
      account_spawn (register_progress self (call_name tc) (call_arguments tc)) tc
  end.

Definition account_result (tool_calls : list ToolCall) (self : LoopGuard)
    (r : string * string * string) : LoopGuard :=
  let '(id, name, result) := r in
  match from_str result with
  | None => self
  | Some parsed =>
      let self := register_error self name result in
      let self := match List.find (λ tc, (call_id tc =? id)%string) tool_calls with
                  | Some tc => account_call self tc result
                  | None => self
                  end in
      if is_bool (json_get parsed "any_failed") true then register_child_failure self else self
  end.

Definition account_round (self : LoopGuard) (tool_calls : list ToolCall)
    (results : list (string * string * string)) : LoopGuard :=
  fold_left (account_result tool_calls) results (account_annotations self results).
End Guard.

(** ** Lemmas: what an operation leaves alone *)

(** Everything the loop counter depends on, with the counter not reset. *)
Definition held (a b : LoopGuard) : Prop :=
  max_loops_without_progress b = max_loops_without_progress a ∧
  idle_loop_floor_secs b = idle_loop_floor_secs a ∧
  repair_mode b = repair_mode a ∧
  last_loop_at_ms b = last_loop_at_ms a ∧
  child_failure_loop_penalty b = child_failure_loop_penalty a ∧
  (is_tripped a = true → is_tripped b = true) ∧
  (0 ≤ child_failure_loop_penalty a → current_loops a ≤ U32_MAX →
   current_loops a ≤ current_loops b ≤ U32_MAX)%Z.

#[export] Instance held_preorder : PreOrder held.
Proof.
  split.
  - intros g. unfold held. naive_solver lia.
  - unfold held. intros a b c (E1 & E2 & E3 & E4 & E5 & T1 & H1) (F1 & F2 & F3 & F4 & F5 & T2 & H2).
    split_and!; [congruence..|naive_solver|]. intros Hp Hc.
    specialize (H1 Hp Hc). rewrite E5 in H2. specialize (H2 Hp). lia.
Qed.

(** Open the guard, so that updated fields compute. *)
Ltac open_guard :=
  repeat match goal with g : LoopGuard |- _ => destruct g end;
  unfold constant in *; simpl in *.

(** An update of fields [held] does not mention. *)
Ltac held_update :=
  unfold held, is_tripped; simpl; split_and!; try done;
  try (intros _; apply bool_decide_eq_true; by eauto); open_guard; try done; try lia.

Lemma held_reset_annotation self : held self (reset_annotation_rounds self).
Proof. held_update. Qed.

Lemma held_trip self r : held self (trip self r).
Proof. held_update. Qed.

Lemma held_annotation_round self tool : held self (register_annotation_round self tool).1.
Proof. unfold register_annotation_round. repeat case_match; simpl; held_update. Qed.

Lemma held_failure self tool e : held self (register_failure self tool e).1.
Proof. unfold register_failure. repeat case_match; simpl; held_update. Qed.

Lemma held_child_failure self : held self (register_child_failure self).
Proof.
  unfold register_child_failure, u32_saturating_add. held_update.
Qed.

Lemma held_track_rotation self fp t : held self (track_rotation self fp t).
Proof. unfold track_rotation. repeat case_match; held_update. Qed.

(** The last [n] elements. *)
Definition last_n {A} (n : nat) (l : list A) : list A := drop (length l - n) l.

Lemma push_window_last_n {A} n (h : list A) x :
  0 < n → push_window n (last_n n h) x = last_n n (h ++ [x]).
Proof.
  intros Hn. unfold push_window, last_n. rewrite length_drop, length_app. simpl.
  destruct (Nat.leb_spec n (length h - (length h - n))).
  - rewrite drop_drop, drop_app_le by lia. do 2 f_equal. lia.
  - replace (length h - n) with 0 by lia. replace (length h + 1 - n) with 0 by lia. done.
Qed.

(** ** The tally over the rejection counters *)

Definition owns (tool key : string) : bool :=
  match split_once nul key with
  | Some (t, _) => (t =? tool)%string
  | None => false
  end.

(** The counters of one tool, as a list. *)
Definition tool_entries (m : gmap string Z) (tool : string) : list (string * Z) :=
  List.filter (λ kn, owns tool kn.1) (map_to_list m).

Definition tool_total (m : gmap string Z) (tool : string) : Z :=
  foldr (λ kn acc, kn.2 + acc)%Z 0%Z (tool_entries m tool).

Lemma irrecoverable_of_entries m tool :
  irrecoverable_of m tool =
    ((tool_total m tool) mod 2 ^ 32, length (tool_entries m tool))%Z.
Proof.
  unfold irrecoverable_of, tool_total, tool_entries. rewrite map_fold_foldr.
  induction (map_to_list m) as [|[k n] l IH]; [done|]. cbn [foldr uncurry List.filter]. rewrite IH.
  cbn [fst]. destruct (owns tool k) eqn:Ho; unfold owns in Ho;
    destruct (split_once nul k) as [[a b]|]; try done; rewrite Ho; [|done].
  simpl. f_equal. unfold u32_add. rewrite Zplus_mod_idemp_l. f_equal. lia.
Qed.

Lemma filter_List_perm {A} (f : A → bool) (l k : list A) :
  l ≡ₚ k → List.filter f l ≡ₚ List.filter f k.
Proof.
  induction 1; simpl; [done| | |by etrans].
  - by destruct (f x); [constructor|].
  - destruct (f x), (f y); try done. constructor.
Qed.

Lemma sum_perm (l k : list (string * Z)) :
  l ≡ₚ k → foldr (λ kn acc, kn.2 + acc)%Z 0%Z l = foldr (λ kn acc, kn.2 + acc)%Z 0%Z k.
Proof. induction 1; simpl; lia. Qed.

Lemma tool_total_insert_fresh m key n tool :
  m !! key = None →
  tool_total (<[key := n]> m) tool = ((if owns tool key then n else 0) + tool_total m tool)%Z.
Proof.
  intros Hk. unfold tool_total, tool_entries.
  rewrite (sum_perm _ _ (filter_List_perm _ _ _ (map_to_list_insert m key n Hk))).
  simpl. by destruct (owns tool key).
Qed.

Lemma tool_total_update m key n tool :
  tool_total (<[key := n]> m) tool =
    (tool_total m tool + if owns tool key then n - default 0 (m !! key) else 0)%Z.
Proof.
  rewrite <-insert_delete_eq, tool_total_insert_fresh by apply lookup_delete_eq.
  destruct (m !! key) as [o|] eqn:E; simpl.
  - rewrite <-(insert_delete_id m key o E) at 2.
    rewrite tool_total_insert_fresh by apply lookup_delete_eq. destruct (owns tool key); lia.
  - rewrite delete_id by done. destruct (owns tool key); lia.
Qed.

Lemma owns_irrecoverable_key tool t h :
  nul ∉ list_ascii_of_string t → owns tool (irrecoverable_key t h) = (t =? tool)%string.
Proof.
  unfold owns, irrecoverable_key. intros Ht.
  assert (split_once nul (t ++ String nul (hex16 h)) = Some (t, hex16 h)) as ->; [|done].
  induction t as [|c t IH]; simpl in *; [done|].
  apply not_elem_of_cons in Ht as [Hc Ht]. rewrite IH by done.
  destruct (Ascii.eqb_spec c nul); [by subst|done].
Qed.

(** One tool with a single counter below the limit has not reached it. *)
Lemma single_entry_total m tool max :
  (0 < max)%Z → (∀ key n, m !! key = Some n → (0 ≤ n < max)%Z) →
  length (tool_entries m tool) < 2 → (tool_total m tool < max)%Z.
Proof.
  intros Hmax Hm. unfold tool_total.
  assert (∀ kn, kn ∈ tool_entries m tool → (kn.2 < max)%Z) as H.
  { intros [k n] Hin. apply list_elem_of_In, filter_In in Hin as [Hin _].
    apply list_elem_of_In, elem_of_map_to_list in Hin. naive_solver. }
  destruct (tool_entries m tool) as [|kn [|]]; simpl; [lia| |lia].
  specialize (H kn). assert (kn ∈ [kn]) by set_solver. intros _. specialize (H ltac:(done)). lia.
Qed.

Section GuardLemmas.
Context (from_str : string → option Json) (json_to_string : Json → string).
Context (replace_all : string → string → string → string).
Context (hash_strs : list string → Z) (hash_spawn : string → list string → string → Z).

Local Notation register_error := (register_error from_str replace_all hash_strs).
Local Notation register_irrecoverable := (register_irrecoverable from_str replace_all hash_strs).
Local Notation register_progress_inner :=
  (register_progress_inner from_str json_to_string hash_strs).
Local Notation account_call :=
  (account_call from_str json_to_string replace_all hash_strs hash_spawn).
Local Notation account_result :=
  (account_result from_str json_to_string replace_all hash_strs hash_spawn).
Local Notation account_round :=
  (account_round from_str json_to_string replace_all hash_strs hash_spawn).

Lemma held_error self tool res : held self (register_error self tool res).
Proof. unfold LoopGuard.register_error. repeat case_match; held_update. Qed.

Lemma held_irrecoverable self tool res : held self (register_irrecoverable self tool res).
Proof. unfold LoopGuard.register_irrecoverable. repeat case_match; held_update. Qed.

Lemma held_spawn_attempt self a e m : held self (register_spawn_attempt hash_spawn self a e m).1.
Proof. unfold register_spawn_attempt. repeat case_match; simpl; held_update. Qed.

Lemma held_account_spawn self tc :
  held self (account_spawn from_str json_to_string hash_spawn self tc).
Proof.
  unfold account_spawn. repeat case_match; try reflexivity.
  all: match goal with E : register_spawn_attempt _ ?s ?a ?e ?m = (?g, _) |- _ =>
         pose proof (held_spawn_attempt s a e m) as Hs; rewrite E in Hs; simpl in Hs end.
  all: first [exact Hs|etrans; [exact Hs|apply held_trip]].
Qed.

Lemma held_account_annotations self results :
  held self (account_annotations from_str self results).
Proof.
  unfold account_annotations. repeat case_match; try apply held_reset_annotation.
  all: match goal with E : register_annotation_round ?s ?t = (?g, _) |- _ =>
         pose proof (held_annotation_round s t) as Hs; rewrite E in Hs; simpl in Hs end.
  all: first [exact Hs|etrans; [exact Hs|apply held_trip]].
Qed.

Lemma held_readonly self tool args : held self (register_progress_inner self tool args false true).
Proof.
  unfold LoopGuard.register_progress_inner.
  set (fp := compute_fingerprint _ _ _).
  etrans; [apply (held_track_rotation self fp.2 false)|].
  generalize (track_rotation self fp.2 false). intros g.
  repeat case_match; held_update.
Qed.

(** A result resets the loop counter only by one of these two verdicts. *)
Definition advances (tool_calls : list ToolCall) (r : string * string * string) : bool :=
  let '(id, _, result) := r in
  match List.find (λ tc, (call_id tc =? id)%string) tool_calls with
  | Some tc =>
      match verdict (classify_tool_result from_str (call_name tc) (call_arguments tc) result) with
      | Progress | TerminalProgress => true
      | _ => false
      end
  | None => false
  end.

Lemma held_account_result tool_calls self r :
  advances tool_calls r = false → held self (account_result tool_calls self r).
Proof.
  destruct r as [[id name] result]. unfold advances, LoopGuard.account_result. intros Ha.
  destruct (from_str result) as [parsed|]; [|reflexivity].
  etrans; [apply (held_error self name result)|].
  generalize (register_error self name result). intros g.
  assert (held g match List.find (λ tc, (call_id tc =? id)%string) tool_calls with
                 | Some tc => account_call g tc result | None => g end) as H.
  { destruct (List.find _ _) as [tc|]; [|reflexivity]. unfold LoopGuard.account_call.
    destruct (verdict _); try done; try apply held_account_spawn.
    - case_match; [apply held_irrecoverable|apply held_failure].
    - etrans; [apply held_readonly|apply held_account_spawn]. }
  destruct (is_bool _ _); [|exact H]. etrans; [exact H|apply held_child_failure].
Qed.

Lemma held_account_round tool_calls self results :
  Forall (λ r, advances tool_calls r = false) results →
  held self (account_round self tool_calls results).
Proof.
  intros HF. unfold LoopGuard.account_round. etrans; [apply (held_account_annotations self results)|].
  generalize (account_annotations from_str self results).
  induction HF as [|r rs Hr HF IH]; intros g; simpl; [reflexivity|].
  etrans; [by apply held_account_result|apply IH].
Qed.

(** ** The turn loop: a check, then a round of results *)

Record Round := {
  round_now : Z;
  round_calls : list ToolCall;
  round_results : list (string * string * string);
}.

Fixpoint run_rounds (self : LoopGuard) (rounds : list Round)
    : LoopGuard * result unit LoopGuardTripReason :=
  match rounds with
  | [] => (self, Ok tt)
  | r :: rs =>
      match check_loop self (round_now r) with
      | (self, Err reason) => (self, Err reason)
      | (self, Ok _) => run_rounds (account_round self (round_calls r) (round_results r)) rs
      end
  end.

(** Checks that follow each other faster than the idle floor, when it is on. *)
Fixpoint brisk (floor : Z) (prev : option Z) (rounds : list Round) : Prop :=
  match rounds with
  | [] => True
  | r :: rs =>
      (∀ p, prev = Some p → (0 < floor)%Z →
         (saturating_sub (round_now r) p < saturating_mul floor 1000)%Z) ∧
      brisk floor (Some (round_now r)) rs
  end.

Definition no_progress (r : Round) : Prop :=
  Forall (λ res, advances (round_calls r) res = false) (round_results r).

(** A healthy check outside repair mode and without an idle gap. *)
Lemma check_loop_ok self now self' u :
  repair_mode self = false →
  (∀ p, last_loop_at_ms self = Some p → (0 < idle_loop_floor_secs self)%Z →
    (saturating_sub now p < saturating_mul (idle_loop_floor_secs self) 1000)%Z) →
  check_loop self now = (self', Ok u) →
  (current_loops self < max_loops_without_progress self)%Z ∧
  current_loops self' = u32_add (current_loops self) 1 ∧
  repair_mode self' = false ∧ last_loop_at_ms self' = Some now ∧
  max_loops_without_progress self' = max_loops_without_progress self ∧
  idle_loop_floor_secs self' = idle_loop_floor_secs self ∧
  child_failure_loop_penalty self' = child_failure_loop_penalty self.
Proof.
  intros Hr Hb. unfold check_loop. rewrite Hr.
  assert (idle_since_last_loop self now = false) as ->.
  { unfold idle_since_last_loop. destruct (last_loop_at_ms self) as [p|];
      [|by rewrite andb_false_r]. specialize (Hb p eq_refl).
    destruct (Z.ltb_spec 0 (idle_loop_floor_secs self)); simpl; [|done].
    apply Z.leb_gt. auto. }
  destruct (trip_reason self); [done|]. unfold tripped, exhausted_tool.
  destruct self; unfold constant; simpl in *.
  repeat case_match; try done. intros [= <- _]. simpl.
  match goal with H : (_ <=? _)%Z = false |- _ => apply Z.leb_gt in H end.
  split_and!; try done. lia.
Qed.

(** C39: A guard outside repair mode that hears of no progress and no waiting stops the
    session: when its checks follow each other faster than the idle floor (where
    there is one), the loop can run at most as many rounds as the limit leaves,
    whatever the agent calls in between (probes, failures, stagnant polls, children
    that fail); the next check trips. *)
Theorem rounds_without_progress_bounded self rounds :
  repair_mode self = false →
  (0 ≤ child_failure_loop_penalty self)%Z →
  is_u32 (max_loops_without_progress self) → is_u32 (current_loops self) →
  brisk (idle_loop_floor_secs self) (last_loop_at_ms self) rounds →
  Forall no_progress rounds →
  (run_rounds self rounds).2 = Ok tt →
  (rounds = [] ∨
   current_loops self + Z.of_nat (length rounds) ≤ max_loops_without_progress self)%Z.
Proof.
  revert self. induction rounds as [|r rs IH]; intros self Hrep Hpen Hmax Hcur Hb HF Hrun;
    [by left|]. right. simpl in *. destruct Hb as [Hgap Hb].
  apply Forall_cons in HF as [Hr HF].
  destruct (check_loop self (round_now r)) as [self' [[]|]] eqn:E; [|done].
  apply check_loop_ok in E as (Hlt & Hc & Hrep' & Hlast & Hm & Hi & Hp); [|done..].
  assert (current_loops self' = current_loops self + 1)%Z as Hc'.
  { rewrite Hc. unfold u32_add. apply Z.mod_small. unfold is_u32, U32_MAX in *. lia. }
  pose proof (held_account_round (round_calls r) self' (round_results r) Hr)
    as (Em & Ei & Er & El & Ep & _ & Ec).
  rewrite Hp in Ec. unfold is_u32, U32_MAX in *. specialize (Ec Hpen ltac:(lia)).
  destruct (IH (account_round self' (round_calls r) (round_results r))) as [->|H].
  - by rewrite Er.
  - by rewrite Ep, Hp.
  - by rewrite Em, Hm.
  - lia.
  - by rewrite Ei, El, Hi, Hlast.
  - done.
  - done.
  - simpl. lia.
  - rewrite Em, Hm in H. simpl. lia.
Qed.

(** ** Latching and repair *)

(** Everything the gateway does to the guard of a session. *)
Inductive GuardOp : Type :=
| OpCheck (now : Z)
| OpRound (tool_calls : list ToolCall) (results : list (string * string * string))
| OpEscalation (tool result : string)
| OpTrip (reason : LoopGuardTripReason)
| OpLlmFailure
| OpLlmSuccess
| OpEnterRepair (max : Z)
| OpExitRepair
| OpResetRepair
| OpClear.

Definition run_op (self : LoopGuard) (op : GuardOp) : LoopGuard :=
  match op with
  | OpCheck now => (check_loop self now).1
  | OpRound calls results => account_round self calls results
  | OpEscalation tool result => register_irrecoverable self tool result
  | OpTrip reason => trip self reason
  | OpLlmFailure => register_llm_failure self
  | OpLlmSuccess => register_llm_success self
  | OpEnterRepair max => enter_repair_mode self max
  | OpExitRepair => exit_repair_mode self
  | OpResetRepair => reset_after_successful_repair self
  | OpClear => clear_trip_for_repair self
  end.

Lemma tripped_progress self tool args t ro :
  is_tripped self = true → is_tripped (register_progress_inner self tool args t ro) = true.
Proof.
  intros Ht. unfold LoopGuard.register_progress_inner, spend_progress_budget.
  set (fp := compute_fingerprint _ _ _).
  pose proof (held_track_rotation self fp.2 t) as (_ & _ & _ & _ & _ & H & _).
  specialize (H Ht). revert H. generalize (track_rotation self fp.2 t). intros g Hg.
  unfold is_tripped in *. apply bool_decide_eq_true in Hg. apply bool_decide_eq_true.
  repeat case_match; simplify_eq/=; eauto.
Qed.

Lemma tripped_account_result calls self r :
  is_tripped self = true → is_tripped (account_result calls self r) = true.
Proof.
  destruct r as [[id name] res]. unfold LoopGuard.account_result.
  destruct (from_str res) as [parsed|]; [|done]. intros Ht.
  pose proof (held_error self name res) as (_ & _ & _ & _ & _ & He & _).
  specialize (He Ht). revert He. generalize (register_error self name res). intros g Hg.
  assert (is_tripped match List.find (λ tc, (call_id tc =? id)%string) calls with
                     | Some tc => account_call g tc res | None => g end = true) as H.
  { destruct (List.find _ _) as [tc|]; [|done]. unfold LoopGuard.account_call.
    unfold register_readonly_progress, register_progress_terminal, register_progress.
    destruct (verdict _); try case_match;
      repeat first [apply held_account_spawn | apply held_irrecoverable | apply held_failure];
      by try apply tripped_progress. }
  destruct (is_bool _ _); [by apply held_child_failure|done].
Qed.

Lemma tripped_round calls self results :
  is_tripped self = true → is_tripped (account_round self calls results) = true.
Proof.
  intros Ht. unfold LoopGuard.account_round.
  pose proof (held_account_annotations self results) as (_ & _ & _ & _ & _ & H & _).
  specialize (H Ht). revert H. generalize (account_annotations from_str self results).
  induction results as [|r rs IH]; intros g Hg; simpl; [done|].
  by apply IH, tripped_account_result.
Qed.

Lemma tripped_check self now :
  is_tripped self = true → (check_loop self now).1 = self ∧ is_ok (check_loop self now).2 = false.
Proof.
  unfold is_tripped, check_loop. intros [r ->]%bool_decide_eq_true. done.
Qed.

Lemma exhausted_tool_none self :
  exhausted_tool self = None ↔
  ¬ ∃ tool n, tool_failure_counts self !! tool = Some n ∧ (max_tool_failures self ≤ n)%Z.
Proof.
  unfold exhausted_tool. split.
  - intros H (tool & n & Hl & Hn). apply elem_of_map_to_list, list_elem_of_In in Hl.
    eapply List.find_none in H; [|exact Hl]. simpl in H. lia.
  - intros H. destruct (List.find _ _) as [[tool n]|] eqn:E; [|done].
    apply List.find_some in E as [E Hn]. apply list_elem_of_In, elem_of_map_to_list in E.
    destruct H. exists tool, n. split; [done|]. simpl in Hn. by apply Z.leb_le in Hn.
Qed.

(** The check of an untripped guard whose loop counter is zero. *)
Lemma check_loop_fresh self now :
  trip_reason self = None → current_loops self = 0%Z →
  is_ok (check_loop self now).2 = false ↔
  if repair_mode self
  then (0 < max_repair_loops self ≤ repair_loops self)%Z
  else (max_loops_without_progress self ≤ 0)%Z ∨
       (∃ tool n, tool_failure_counts self !! tool = Some n ∧ (max_tool_failures self ≤ n)%Z) ∨
       (max_child_failures self ≤ child_failure_count self)%Z ∨
       (max_llm_failures self ≤ llm_failure_count self)%Z.
Proof.
  intros Ht Hc. unfold check_loop. rewrite Ht, Hc.
  destruct (repair_mode self).
  { destruct (0 <? max_repair_loops self)%Z eqn:E1,
      (max_repair_loops self <=? repair_loops self)%Z eqn:E2; simpl;
      split; intros; try done; lia. }
  pose proof (exhausted_tool_none self) as Hx. unfold exhausted_tool in *.
  assert ((if idle_since_last_loop self now then 0 else 0) = 0)%Z as -> by by case_match.
  destruct self; unfold tripped, constant; simpl in *.
  destruct (Z.leb_spec max_loops_without_progress0 0); simpl; [by split; [left|]|].
  destruct (List.find _ _) as [[tool n]|] eqn:E; simpl.
  { apply List.find_some in E as [E Hn]. apply list_elem_of_In, elem_of_map_to_list in E.
    split; [|done]. intros _. right. left. exists tool, n. simpl in Hn. split; [done|lia]. }
  destruct Hx as [Hx _]. specialize (Hx eq_refl).
  destruct (Z.leb_spec max_child_failures0 child_failure_count0); simpl; [naive_solver|].
  destruct (Z.leb_spec max_llm_failures0 llm_failure_count0); simpl; [naive_solver|].
  split; [done|]. intros [?|[?|[?|?]]]; [lia|done|lia|lia].
Qed.

(** A trip latches.  Whatever else happens to the session, only a repair
    ([clear_trip_for_repair]) releases a tripped guard: until then every check
    before a round refuses.  A repair releases the guard but not the
    session's record: the next check refuses again exactly when the loop,
    failure or child budgets leave nothing, or the guard is still in a repair
    cycle whose own budget is spent. *)
Theorem trip_latches_until_repair self ops now :
  is_tripped self = true → OpClear ∉ ops →
  let self' := fold_left run_op ops self in
  is_ok (check_loop self' now).2 = false ∧
  let fixed := clear_trip_for_repair self' in
  (is_ok (check_loop fixed now).2 = false ↔
   if repair_mode self'
   then (0 < max_repair_loops self' ≤ repair_loops self')%Z
   else (max_loops_without_progress self' ≤ 0)%Z ∨
        (∃ tool n, tool_failure_counts self' !! tool = Some n ∧ (max_tool_failures self' ≤ n)%Z) ∨
        (max_child_failures self' ≤ child_failure_count self')%Z ∨
        (max_llm_failures self' ≤ 0)%Z).
Proof.
  intros Ht Hn self'. assert (is_tripped self' = true) as Ht'.
  { subst self'. revert self Ht. induction ops as [|op ops IH]; intros self Ht; simpl; [done|].
    apply not_elem_of_cons in Hn as [Hop Hn]. apply IH; [done|].
    destruct op; simpl; try done.
    - by rewrite (proj1 (tripped_check _ _ Ht)).
    - by apply tripped_round.
    - by apply held_irrecoverable. }
  split; [by apply tripped_check|]. intros fixed.
  by rewrite (check_loop_fresh fixed now).
Qed.

(** ** Rotating polling *)

Record ProgressCall := {
  pc_tool : string;
  pc_arguments : string;
  pc_terminal : bool;
  pc_read_only : bool;
}.

Definition run_progress (self : LoopGuard) (c : ProgressCall) : LoopGuard :=
  register_progress_inner self (pc_tool c) (pc_arguments c) (pc_terminal c) (pc_read_only c).

Definition fp_of (c : ProgressCall) : Z :=
  (compute_fingerprint hash_strs (pc_tool c)
     (normalize_arguments from_str json_to_string (pc_arguments c))).2.

(** The fingerprints of the successful calls since the last committed one. *)
Definition since_terminal (calls : list ProgressCall) : list Z :=
  fold_left (λ h c, if pc_terminal c then [] else h ++ [fp_of c]) calls [].

Definition rotation_of (g : LoopGuard) : list Z := recent_fingerprints g.
Definition rotation_limits (g : LoopGuard) : nat * nat := (max_window_size g, max_distinct_floor g).

Lemma track_rotation_eq g fp :
  0 < max_window_size g →
  let window := push_window (max_window_size g) (recent_fingerprints g) fp in
  recent_fingerprints (track_rotation g fp false) = window ∧
  trip_reason (track_rotation g fp false) =
    if (max_window_size g <=? length window) && (distinct_count window <=? max_distinct_floor g)
    then Some (RotatingPollingPattern (length window) (distinct_count window)
                 (max_distinct_floor g))
    else trip_reason g.
Proof.
  intros Hw. destruct g; unfold track_rotation, constant; simpl in *.
  destruct (Nat.ltb_spec 0 max_window_size0); [|lia]. by case_match.
Qed.

Lemma spend_keeps_rotation g tool :
  rotation_of (spend_progress_budget g tool).1 = rotation_of g ∧
  rotation_limits (spend_progress_budget g tool).1 = rotation_limits g ∧
  trip_reason (spend_progress_budget g tool).1 = trip_reason g.
Proof. unfold spend_progress_budget. repeat case_match; done. Qed.

Lemma progress_keeps_window g tool args t ro :
  let g' := track_rotation g (compute_fingerprint hash_strs tool
              (normalize_arguments from_str json_to_string args)).2 t in
  let r := register_progress_inner g tool args t ro in
  rotation_of r = rotation_of g' ∧ rotation_limits r = rotation_limits g ∧
  (trip_reason r = trip_reason g' ∨
   (trip_reason g' = None ∧ ∃ a b c, trip_reason r = Some (RedundantRosterPolling a b c))).
Proof using Type.
  intros g' r. assert (rotation_limits g' = rotation_limits g) as <-
    by (subst g'; unfold track_rotation; repeat case_match; done).
  subst r. unfold LoopGuard.register_progress_inner. fold g'. generalize g'. clear g'. intros g'.
  set (g1 := apply_update _ g').
  set (c := _ && negb (is_tripped g1)). set (g2 := if c then _ else g1).
  assert (rotation_of g2 = rotation_of g' ∧ rotation_limits g2 = rotation_limits g' ∧
    (trip_reason g2 = trip_reason g' ∨
     (trip_reason g' = None ∧ ∃ a b c, trip_reason g2 = Some (RedundantRosterPolling a b c)))) as H.
  { subst g2. destruct c eqn:Ec; [|split_and!; try done; by left]. split_and!; try done. right.
    subst c. apply andb_true_iff in Ec as [_ Ec%negb_true_iff].
    apply bool_decide_eq_false in Ec. split; [|by eauto].
    change (trip_reason g1) with (trip_reason g') in Ec.
    destruct (trip_reason g'); [|done]. destruct Ec. eauto. }
  revert H. generalize g2. intros g3 (Hr & Hl & Ht). rewrite <-Hr, <-Hl.
  destruct (negb ro && _); [|by split_and!].
  pose proof (spend_keeps_rotation g3 tool) as (E1 & E2 & E3).
  destruct (spend_progress_budget g3 tool) as [g4 []]; simpl in *; rewrite <-E1, <-E2, <-E3 in *;
    split_and!; done.
Qed.

Lemma run_progress_keeps g c :
  let g' := track_rotation g (fp_of c) (pc_terminal c) in
  let r := run_progress g c in
  rotation_of r = rotation_of g' ∧ rotation_limits r = rotation_limits g ∧
  (trip_reason r = trip_reason g' ∨
   (trip_reason g' = None ∧ ∃ a b c, trip_reason r = Some (RedundantRosterPolling a b c))).
Proof using Type. apply progress_keeps_window. Qed.

Lemma run_progress_window calls self :
  recent_fingerprints self = [] → 0 < max_window_size self →
  let self' := fold_left run_progress calls self in
  recent_fingerprints self' = last_n (max_window_size self) (since_terminal calls) ∧
  max_window_size self' = max_window_size self ∧
  max_distinct_floor self' = max_distinct_floor self.
Proof using Type.
  intros H0 Hw. induction calls as [|c calls IH] using rev_ind; simpl.
  { by rewrite H0. }
  unfold since_terminal in *. rewrite !fold_left_app. cbn [fold_left].
  destruct IH as (Hr & Hm & Hf).
  pose proof (run_progress_keeps (fold_left run_progress calls self) c) as (Er & El & _).
  split_and!; [|by rewrite <-Hm; exact (f_equal fst El)|by rewrite <-Hf; exact (f_equal snd El)].
  unfold rotation_of in Er. rewrite Er. destruct (pc_terminal c); [done|].
  rewrite (proj1 (track_rotation_eq (fold_left run_progress calls self) (fp_of c)
    (eq_ind_r (λ n, 0 < n) Hw Hm))), Hr, Hm. apply push_window_last_n. lia.
Qed.

(** The rotating-polling detector sees exactly the recent past.  After any
    run of successful calls the window holds the fingerprints of the last
    calls since the last committed side effect, and a call that is not
    committed trips the guard exactly when the window is full and holds no
    more distinct fingerprints than the floor. *)
Theorem rotating_polling_spec self calls c :
  recent_fingerprints self = [] → 0 < max_window_size self →
  let self' := fold_left run_progress calls self in
  let window := last_n (max_window_size self) (since_terminal (calls ++ [c])) in
  recent_fingerprints (run_progress self' c) = window ∧
  (trip_reason self' = None →
   (∃ n d f, trip_reason (run_progress self' c) = Some (RotatingPollingPattern n d f)) ↔
   pc_terminal c = false ∧ length window = max_window_size self ∧
   distinct_count window ≤ max_distinct_floor self).
Proof using Type.
  clear replace_all hash_spawn. intros H0 Hw self' window.
  pose proof (run_progress_window (calls ++ [c]) self H0 Hw) as (Hr & _ & _).
  rewrite fold_left_app in Hr. cbn [fold_left] in Hr. fold self' window in Hr. split; [done|].
  intros Ht. pose proof (run_progress_window calls self H0 Hw) as (Hr' & Hm & Hf).
  fold self' in Hr', Hm, Hf.
  pose proof (run_progress_keeps self' c) as (Er & _ & Htr). unfold rotation_of in Er.
  revert Hr Er Htr. generalize (run_progress self' c). intros r Hr Er Htr. rewrite Hr in Er.
  assert (length window ≤ max_window_size self) as Hlen.
  { subst window. unfold last_n. rewrite length_drop. lia. }
  destruct (pc_terminal c).
  { destruct Htr as [E|(_ & a & b & d & E)]; rewrite E; [|naive_solver].
    change (trip_reason (track_rotation self' (fp_of c) true)) with (trip_reason self').
    rewrite Ht. naive_solver. }
  pose proof (track_rotation_eq self' (fp_of c) (eq_ind_r (λ n, 0 < n) Hw Hm)) as [Ew Et].
  rewrite <-Ew, <-Er, Hm, Hf, Ht in Et. rewrite Et in Htr. clear Et Ew.
  destruct (Nat.leb_spec (max_window_size self) (length window)),
    (Nat.leb_spec (distinct_count window) (max_distinct_floor self)); simpl in Htr;
    (destruct Htr as [E|(E0 & a & b & d & E)]; rewrite E; [|try done]);
    (split; [intros (? & ? & ? & [= <- <- <-]) || (intros (? & ? & ? & ?); done)
            |intros (_ & ? & ?); try lia]); eauto with lia.
Qed.

(** ** Irrecoverable rejections *)

(** What one rejection adds to the counters: the key of its tool and its error
    fingerprint, when the error text can be fingerprinted. *)
Definition rejection_key (e : string * string) : option string :=
  irrecoverable_key e.1 <$> fingerprint_result from_str replace_all hash_strs e.2.

(** The rejections with one key, and those of one tool. *)
Definition repeats (events : list (string * string)) (key : string) : nat :=
  length (filter (λ e, rejection_key e = Some key) events).

Definition rejections (events : list (string * string)) (tool : string) : nat :=
  length (filter (λ e, e.1 = tool ∧ is_Some (rejection_key e)) events).

Definition run_irrecoverable (self : LoopGuard) (events : list (string * string)) : LoopGuard :=
  fold_left (λ g e, register_irrecoverable g e.1 e.2) events self.

Definition nul_free (tool : string) : Prop := nul ∉ list_ascii_of_string tool.

(** The counters after an untripped run. *)
Definition counts_of (max : Z) (events : list (string * string)) (m : gmap string Z) : Prop :=
  (∀ key, default 0%Z (m !! key) = Z.of_nat (repeats events key)) ∧
  (∀ key n, m !! key = Some n → (0 ≤ n < max)%Z) ∧
  (∀ tool, tool_total m tool = Z.of_nat (rejections events tool)).

Lemma repeats_snoc events e key :
  repeats (events ++ [e]) key =
    repeats events key + if decide (rejection_key e = Some key) then 1 else 0.
Proof using Type.
  unfold repeats. rewrite filter_app, length_app. f_equal. simpl.
  rewrite filter_cons, filter_nil. by case_decide.
Qed.

Lemma rejections_snoc events e tool :
  rejections (events ++ [e]) tool =
    rejections events tool + if decide (e.1 = tool ∧ is_Some (rejection_key e)) then 1 else 0.
Proof using Type.
  unfold rejections. rewrite filter_app, length_app. f_equal. simpl.
  rewrite filter_cons, filter_nil. by case_decide.
Qed.

(** No key has reached the limit and no tool twice the limit. *)
Definition within_limits (max : Z) (events : list (string * string)) : Prop :=
  (∀ key, Z.of_nat (repeats events key) < max)%Z ∧
  (∀ tool, Z.of_nat (rejections events tool) < 2 * max)%Z.

Lemma within_limits_snoc max events e :
  within_limits max (events ++ [e]) → within_limits max events.
Proof using Type.
  intros [Hk Ht]. split.
  - intros key. specialize (Hk key). rewrite repeats_snoc in Hk. lia.
  - intros tool. specialize (Ht tool). rewrite rejections_snoc in Ht. lia.
Qed.

Lemma counts_of_incr max events m e key :
  (max ≤ U32_MAX)%Z → nul_free e.1 → rejection_key e = Some key →
  counts_of max events m →
  (default 0 (m !! key) + 1 < max)%Z →
  default 0%Z (incr_count m key !! key) = (default 0%Z (m !! key) + 1)%Z ∧
  counts_of max (events ++ [e]) (incr_count m key).
Proof using Type.
  intros Hmax Hnul Hkey (Hd & Hr & Ht) Hlt.
  assert (0 ≤ default 0 (m !! key))%Z by (rewrite Hd; lia).
  assert (u32_add (default 0%Z (m !! key)) 1 = default 0 (m !! key) + 1)%Z as Hadd.
  { unfold u32_add, U32_MAX in *. apply Z.mod_small. lia. }
  unfold incr_count. rewrite Hadd, lookup_insert_eq. split; [done|]. split_and!.
  - intros k. rewrite repeats_snoc, Hkey. destruct (decide (key = k)) as [<-|Hne].
    + rewrite lookup_insert_eq. simpl. rewrite Hd, decide_True by done. lia.
    + rewrite lookup_insert_ne by done. rewrite Hd, decide_False by congruence. lia.
  - intros k n. destruct (decide (key = k)) as [<-|Hne].
    + rewrite lookup_insert_eq. intros [= <-]. lia.
    + rewrite lookup_insert_ne by done. apply Hr.
  - intros tool. rewrite tool_total_update, Ht, rejections_snoc, Hkey.
    unfold rejection_key in Hkey. apply fmap_Some in Hkey as (h & _ & ->).
    rewrite owns_irrecoverable_key by done.
    destruct (String.eqb_spec e.1 tool).
    + rewrite decide_True by eauto. lia.
    + rewrite decide_False by naive_solver. lia.
Qed.

(** The operation on an untripped guard outside repair mode. *)
Lemma register_irrecoverable_eq self e :
  trip_reason self = None → repair_mode self = false → (0 < max_irrecoverable_repeats self)%Z →
  let self' := register_irrecoverable self e.1 e.2 in
  let counts := irrecoverable_repeat_counts self in
  let max := max_irrecoverable_repeats self in
  repair_mode self' = false ∧ max_irrecoverable_repeats self' = max ∧
  irrecoverable_repeat_counts self' = from_option (incr_count counts) counts (rejection_key e) ∧
  (is_tripped self' = true ↔
   ∃ key, rejection_key e = Some key ∧
     let counts := incr_count counts key in
     ((max ≤ default 0 (counts !! key))%Z ∨
      2 ≤ length (tool_entries counts e.1) ∧
      (u32_saturating_mul max 2 ≤ tool_total counts e.1 mod 2 ^ 32)%Z)).
Proof using Type.
  clear json_to_string hash_spawn.
  intros Ht Hr Hm. unfold LoopGuard.register_irrecoverable, rejection_key.
  assert (is_tripped self = false) as Ht' by (unfold is_tripped; rewrite Ht; done).
  rewrite Hr, Ht', (proj2 (Z.eqb_neq _ _)) by lia. cbn [orb].
  destruct (fingerprint_result _ _ _ _) as [h|]; simpl.
  2:{ rewrite Ht'. split_and!; [done..|]. naive_solver. }
  rewrite irrecoverable_of_entries.
  destruct self; unfold constant, is_tripped in *; simpl in *. subst.
  destruct (Z.leb_spec max_irrecoverable_repeats0
    (default 0 (incr_count irrecoverable_repeat_counts0 (irrecoverable_key e.1 h) !!
       irrecoverable_key e.1 h)))%Z; simpl.
  { split_and!; [done..|]. split; [intros _; eauto|done]. }
  destruct (length _) as [|[|n]] eqn:El; simpl.
  3:destruct (Z.leb_spec (u32_saturating_mul max_irrecoverable_repeats0 2)
      (tool_total (incr_count irrecoverable_repeat_counts0 (irrecoverable_key e.1 h)) e.1
        mod 2 ^ 32))%Z; simpl.
  all: split_and!; try done.
  all: first [split; [done|intros (k & [= <-] & [?|[? ?]]); lia]
             |split; [intros _; eexists; split; [done|right; lia]|done]].
Qed.

Lemma incr_count_lookup m key :
  (0 ≤ default 0 (m !! key) < U32_MAX)%Z →
  default 0%Z (incr_count m key !! key) = (default 0%Z (m !! key) + 1)%Z.
Proof using Type.
  intros H. unfold incr_count. rewrite lookup_insert_eq. simpl. unfold u32_add, U32_MAX in *.
  apply Z.mod_small. lia.
Qed.

(** A rejection without a fingerprint counts for nothing. *)
Lemma silent_rejection events e :
  rejection_key e = None →
  (∀ key, repeats (events ++ [e]) key = repeats events key) ∧
  (∀ tool, rejections (events ++ [e]) tool = rejections events tool).
Proof using Type.
  intros He. split; intros ?.
  - rewrite repeats_snoc, He, decide_False by done. lia.
  - rewrite rejections_snoc, He, decide_False by (intros [_ [? ?]]; done). lia.
Qed.

(** A fingerprinted rejection below the limit of its key. *)
Lemma counted_rejection max events m e key :
  let counts := incr_count m key in
  (0 < max)%Z → (2 * max ≤ U32_MAX)%Z → nul_free e.1 → rejection_key e = Some key →
  within_limits max events → counts_of max events m →
  (default 0 (counts !! key) < max)%Z →
  counts_of max (events ++ [e]) counts ∧
  (within_limits max (events ++ [e]) ↔
   ¬ (2 ≤ length (tool_entries counts e.1) ∧
      (u32_saturating_mul max 2 ≤ tool_total counts e.1 mod 2 ^ 32)%Z)).
Proof using Type.
  intros counts Hm Hmax Hnul Hkey [Hk Ht] Hc Hlt. pose proof Hc as (Hd & _ & _).
  pose proof (Hk key) as Hkk. subst counts.
  rewrite incr_count_lookup in Hlt by (rewrite Hd; lia).
  pose proof (counts_of_incr max events m e key ltac:(lia) Hnul Hkey Hc Hlt) as [_ Hc'].
  split; [done|]. destruct Hc' as (Hd' & Hr' & Ht'). rewrite Ht'.
  pose proof (Ht e.1) as He. pose proof (rejections_snoc events e e.1) as Hs.
  rewrite decide_True in Hs by eauto.
  unfold u32_saturating_mul. rewrite Z.min_l, Z.mod_small by (unfold U32_MAX in *; lia).
  split; [intros [_ H]; specialize (H e.1); lia|]. intros Hn. split.
  - intros k. rewrite repeats_snoc, Hkey. case_decide as Ek; [|specialize (Hk k); lia].
    injection Ek as <-. rewrite Hd in Hlt. lia.
  - intros tool. destruct (decide (e.1 = tool)) as [<-|Hne].
    + pose proof (single_entry_total (incr_count m key) e.1 max Hm Hr'). rewrite Ht' in H. lia.
    + rewrite rejections_snoc, decide_False by naive_solver. specialize (Ht tool). lia.
Qed.

Lemma irrecoverable_step self events e :
  let max := max_irrecoverable_repeats self in
  trip_reason self = None → repair_mode self = false → (0 < max)%Z → (2 * max ≤ U32_MAX)%Z →
  nul_free e.1 → within_limits max events →
  counts_of max events (irrecoverable_repeat_counts self) →
  let self' := register_irrecoverable self e.1 e.2 in
  repair_mode self' = false ∧ max_irrecoverable_repeats self' = max ∧
  (is_tripped self' = false ↔ within_limits max (events ++ [e])) ∧
  (is_tripped self' = false →
   counts_of max (events ++ [e]) (irrecoverable_repeat_counts self')).
Proof using Type.
  clear json_to_string hash_spawn.
  intros max Ht Hr Hm Hmax Hnul [Hk Htot] Hc self'.
  pose proof (register_irrecoverable_eq self e Ht Hr Hm) as (Er & Em & Ec & Etrip).
  fold self' max in Er, Em, Ec, Etrip. clearbody self'. rewrite Ec.
  destruct (rejection_key e) as [key|] eqn:Ekey; simpl.
  - destruct (decide (max ≤ default 0 (incr_count (irrecoverable_repeat_counts self) key
      !! key))%Z) as [Hge|Hlt].
    + assert (is_tripped self' = true) as -> by (apply Etrip; eauto).
      split_and!; [done..| |done]. split; [done|]. intros [H _]. specialize (H key).
      rewrite repeats_snoc, decide_True in H by done. destruct Hc as (Hd & _).
      specialize (Hk key).
      rewrite incr_count_lookup in Hge by (rewrite Hd; lia). rewrite Hd in Hge. lia.
    + destruct (counted_rejection max events (irrecoverable_repeat_counts self) e key)
        as [Hc' Hw]; try done; [lia|]. rewrite Hw. split_and!; [done..| |done].
      destruct (is_tripped self').
      * split; [done|]. intros Hn.
        by destruct (proj1 Etrip eq_refl) as (k & [= <-] & [?|?]).
      * split; [|done]. intros _ H. by specialize (proj2 Etrip ltac:(eauto)).
  - apply (silent_rejection events) in Ekey as [Ek Et].
    assert (is_tripped self' = false) as ->
      by (apply not_true_iff_false; rewrite Etrip; naive_solver).
    unfold within_limits, counts_of in *. setoid_rewrite Ek. setoid_rewrite Et. done.
Qed.

(** The limits on irrecoverable rejections are exact.  A guard that starts
    clean, outside repair mode and with the limit on, is still untripped after
    a run of rejections precisely when no tool met the same error (by its
    fingerprint) as often as the limit and no tool met fingerprinted errors
    twice as often as the limit: spreading rejections over several gates
    doubles the allowance and no more.  Tool names hold no NUL, the separator
    of the counter keys. *)
Theorem irrecoverable_rejections_bounded self events :
  let max := max_irrecoverable_repeats self in
  irrecoverable_repeat_counts self = ∅ →
  trip_reason self = None → repair_mode self = false → (0 < max)%Z → (2 * max ≤ U32_MAX)%Z →
  Forall (λ e, nul_free e.1) events →
  is_tripped (run_irrecoverable self events) = false ↔
  (∀ key, Z.of_nat (repeats events key) < max)%Z ∧
  (∀ tool, Z.of_nat (rejections events tool) < 2 * max)%Z.
Proof using Type.
  clear json_to_string hash_spawn.
  intros max Hm Ht Hr Hmax H2 HF. fold (within_limits max events).
  enough (let self' := run_irrecoverable self events in
    repair_mode self' = false ∧ max_irrecoverable_repeats self' = max ∧
    (is_tripped self' = false ↔ within_limits max events) ∧
    (is_tripped self' = false → counts_of max events (irrecoverable_repeat_counts self')))
    by naive_solver.
  induction events as [|e events IH] using rev_ind.
  { simpl. rewrite Hm. unfold is_tripped. rewrite Ht. split_and!; try done.
    split; [|done]. intros _. split; intros ?; [change (0 < max)%Z|change (0 < 2 * max)%Z]; lia. }
  apply Forall_app in HF as [HF [He _]%Forall_cons]. specialize (IH HF).
  unfold run_irrecoverable in *. rewrite fold_left_app. cbn [fold_left].
  revert IH. generalize (fold_left (λ g e, register_irrecoverable g e.1 e.2) events self).
  intros g (Er & Em & Ht' & Hc). destruct (is_tripped g) eqn:Eg.
  - pose proof (held_irrecoverable g e.1 e.2) as (_ & _ & Hrep & _ & _ & Htr & _).
    cbn zeta. rewrite (Htr Eg), Hrep. split_and!; [done| |split; [done|]|done].
    + rewrite <-Em. unfold LoopGuard.register_irrecoverable. by rewrite Eg, orb_true_r.
    + intros H%within_limits_snoc. by apply Ht'.
  - rewrite <-Em in *. apply irrecoverable_step; try done; [|by apply Ht'|by apply Hc].
    unfold is_tripped in Eg. apply bool_decide_eq_false in Eg. by apply eq_None_not_Some.
Qed.

End GuardLemmas.

(** ** Witnesses *)

(** A reader that finds one error in every result, with trivial hashes. *)
Definition demo_from_str (_ : string) : option Json :=
  Some (JObject [("ok", JBool false); ("error", JString "denied")]).
Definition demo_to_string (_ : Json) : string := "".
Definition demo_replace (_ _ s : string) : string := s.
Definition demo_hash (_ : list string) : Z := 0.
Definition demo_hash_spawn (_ : string) (_ : list string) (_ : string) : Z := 0.

Definition demo_guard : LoopGuard := with_config default_config.
Definition demo_call : ToolCall :=
  {| call_id := "c1"; call_name := "shell"; call_arguments := "{}" |}.
Definition demo_round : Round :=
  {| round_now := 5; round_calls := [demo_call]; round_results := [("c1", "shell", "{}")] |}.

Lemma rounds_without_progress_bounded_witness :
  (run_rounds demo_from_str demo_to_string demo_replace demo_hash demo_hash_spawn
     demo_guard [demo_round; demo_round]).2 = Ok tt ∧
  ([demo_round; demo_round] = [] ∨
   current_loops demo_guard + Z.of_nat (length [demo_round; demo_round])
     ≤ max_loops_without_progress demo_guard)%Z.
Proof.
  split; [by vm_compute|].
  apply (rounds_without_progress_bounded demo_from_str demo_to_string demo_replace demo_hash
    demo_hash_spawn); try (by vm_compute); simpl.
  - split_and!; try done. intros p [= <-] _. vm_compute. done.
  - repeat constructor.
Defined.

Lemma trip_latches_until_repair_witness :
  let self := trip demo_guard (NoMeaningfulProgress 4) in
  let self' := fold_left (run_op demo_from_str demo_to_string demo_replace demo_hash
    demo_hash_spawn) [OpLlmSuccess; OpCheck 7] self in
  is_ok (check_loop self' 9).2 = false.
Proof.
  apply (trip_latches_until_repair demo_from_str demo_to_string demo_replace demo_hash
    demo_hash_spawn); [by vm_compute|].
  intros H. repeat (apply elem_of_cons in H as [H|H]; [done|]). by apply not_elem_of_nil in H.
Defined.

Definition demo_poll : ProgressCall :=
  {| pc_tool := "workflow_state"; pc_arguments := "{}"; pc_terminal := false;
     pc_read_only := true |}.

Lemma rotating_polling_spec_witness :
  let self' := fold_left (run_progress demo_from_str demo_to_string demo_hash)
    [demo_poll; demo_poll] demo_guard in
  recent_fingerprints (run_progress demo_from_str demo_to_string demo_hash self' demo_poll) =
    last_n (max_window_size demo_guard)
      (since_terminal demo_from_str demo_to_string demo_hash [demo_poll; demo_poll; demo_poll]).
Proof.
  apply (rotating_polling_spec demo_from_str demo_to_string demo_hash demo_guard
    [demo_poll; demo_poll] demo_poll); [done|vm_compute; lia].
Defined.

Lemma irrecoverable_rejections_bounded_witness :
  let events := [("shell", "r"); ("web", "r"); ("shell", "r")] in
  (∀ key, Z.of_nat (repeats demo_from_str demo_replace demo_hash events key) < 3)%Z ∧
  (∀ tool, Z.of_nat (rejections demo_from_str demo_replace demo_hash events tool) < 6)%Z.
Proof.
  intros events.
  apply (irrecoverable_rejections_bounded demo_from_str demo_replace demo_hash demo_guard events);
    try (by vm_compute).
  repeat apply Forall_cons_2; try apply Forall_nil_2; unfold nul_free;
    apply (bool_decide_unpack _); by vm_compute.
Defined.
