(* ===== verification/Grants.v ===== *)
(** * Session approval grants

    The network grants a root session holds: [GrantTarget], [GrantScope] and
    [SessionApprovalGrant] of autonoetic-types/src/background.rs, and the two
    tables behind them in scheduler/gateway_store/approvals.rs
    ([session_approval_grants] and its targets).

    The tables are one list of rows in insertion order, each with its targets;
    the row key [UNIQUE(root_session_id, session_id, agent_id, scope, host)] is
    computed where the source does.  Timestamps are the RFC 3339 texts the
    source stores; chrono's parser is the parameter [parse_rfc3339], and the
    clock an argument, in the parser's unit and as text.  A grant target is
    stored as its JSON and read back by serde. *)

From Stdlib Require Import Ascii String ZArith Lia.
From stdpp Require Import prelude gmap strings list.
From S2P Require Import Prelude RustStr.

Open Scope string_scope.
Open Scope nat_scope.
Open Scope list_scope.

(** ** Targets and scopes *)

Inductive GrantScope : Type := RootSession | Session.

Definition scope_as_str (self : GrantScope) : string :=
  match self with RootSession => "root_session" | Session => "session" end.

Definition from_str_lossy (s : string) : GrantScope :=
  if (s =? "session")%string then Session else RootSession.

Inductive GrantTarget : Type :=
| Any
| ExactHost (host : string)
| HostSuffix (suffix : string)
| HostAndPort (host : string) (port : Z)
| UrlPrefix (prefix : string).

Definition kind_str (self : GrantTarget) : string :=
  match self with
  | Any => "any"
  | ExactHost _ => "exact_host"
  | HostSuffix _ => "host_suffix"
  | HostAndPort _ _ => "host_and_port"
  | UrlPrefix _ => "url_prefix"
  end.

(** [suffix.trim_start_matches("*.")]: as often as it is there. *)
Fixpoint trim_wildcard (s : string) : string :=
  match s with
  | String "*" (String "." r) => trim_wildcard r
  | _ => s
  end.

(** The scheme and the authority of a URL in lower case, its path as it is. *)
Definition lower_authority (url : string) : string :=
  let scheme_end := match find url "://" with Some p => p + 3 | None => 0 end in
  let rest := skip scheme_end url in
  match find rest "/" with
  | Some pos =>
      let authority := String.substring 0 pos rest in
      let path := skip pos rest in
      if str_existsb is_ascii_upper authority
      then (to_lowercase (String.substring 0 scheme_end url) ++ to_lowercase authority ++ path)%string
      else url
  | None => to_lowercase url
  end.

Definition target_matches (self : GrantTarget) (request_target : string) : bool :=
  match self with
  | Any => true
  | ExactHost host => eq_ignore_ascii_case request_target host
  | HostSuffix suffix =>
      let suffix := to_lowercase (trim_wildcard suffix) in
      let request := to_lowercase request_target in
      (request =? suffix)%string || ends_with request ("." ++ suffix)%string
  | HostAndPort host port =>
      eq_ignore_ascii_case request_target (to_lowercase host ++ ":" ++ show_Z port)%string
  | UrlPrefix prefix => starts_with (lower_authority request_target) (lower_authority prefix)
  end.

Definition ROOT_WIDE_GRANT_AGENT : string := "*".

#[export] Instance grant_scope_eq_dec : EqDecision GrantScope.
Proof. solve_decision. Defined.
#[export] Instance grant_target_eq_dec : EqDecision GrantTarget.
Proof. solve_decision. Defined.

(** ** The tables *)

(** A grant: [SessionApprovalGrant] without its row id. *)
Record Grant := {
  g_root : string;
  g_session : string;
  g_agent : string;
  g_scope : GrantScope;
  g_targets : list GrantTarget;
  g_by : string;
  g_at : string;
  g_source : option string;
  g_expires : option string;
}.

Record GrantRow := {
  row_id : Z;
  row_host : string;
  row_grant : Grant;
  row_revoked : option (string * string);
}.

Record GrantTable := {
  grant_rows : list GrantRow;
  next_grant_id : Z;
}.

Definition no_grants : GrantTable := {| grant_rows := []; next_grant_id := 1 |}.

(** The host column of a grant: its first exact host. *)
Definition primary_host (targets : list GrantTarget) : string :=
  default "_multi_target_"
    (find_map (λ t, match t with ExactHost h => Some h | _ => None end) targets).

Definition grant_key (g : Grant) : string * string * string * GrantScope * string :=
  (g_root g, g_session g, g_agent g, g_scope g, primary_host (g_targets g)).

Definition row_key (r : GrantRow) : string * string * string * GrantScope * string :=
  (g_root (row_grant r), g_session (row_grant r), g_agent (row_grant r),
   g_scope (row_grant r), row_host r).

(** The upsert: on a key that is there, every other column is overwritten, a
    revocation is lifted and the old targets are deleted. *)
Definition insert_session_grant (t : GrantTable) (g : Grant) : GrantTable :=
  if existsb (λ r, bool_decide (row_key r = grant_key g)) (grant_rows t)
  then {| grant_rows := map (λ r, if bool_decide (row_key r = grant_key g)
            then {| row_id := row_id r; row_host := row_host r; row_grant := g;
                    row_revoked := None |}
            else r) (grant_rows t);
          next_grant_id := next_grant_id t |}
  else {| grant_rows := grant_rows t ++ [{| row_id := next_grant_id t;
            row_host := primary_host (g_targets g); row_grant := g; row_revoked := None |}];
          next_grant_id := (next_grant_id t + 1)%Z |}.

Definition insert_session_grant_hosts (t : GrantTable) (root agent : string)
    (hosts : list string) (by_ at_ : string) (source : option string) : GrantTable :=
  fold_left (λ t host, insert_session_grant t
    {| g_root := root; g_session := root; g_agent := agent; g_scope := RootSession;
       g_targets := [ExactHost host]; g_by := by_; g_at := at_; g_source := source;
       g_expires := None |}) hosts t.

(** The rows of one root that are not revoked. *)
Definition get_session_grants_structured (t : GrantTable) (root : string) : list GrantRow :=
  List.filter (λ r, (g_root (row_grant r) =? root)%string && bool_decide (row_revoked r = None))
    (grant_rows t).

(** [SELECT DISTINCT host], sorted. *)
Definition get_session_grants (t : GrantTable) (root : string) : list string :=
  sort_by String.compare
    (remove_dups (row_host <$> get_session_grants_structured t root)).

Definition update_rows (t : GrantTable) (f : GrantRow → GrantRow) : GrantTable :=
  {| grant_rows := map f (grant_rows t); next_grant_id := next_grant_id t |}.

Definition delete_rows (t : GrantTable) (p : GrantRow → bool) : GrantTable :=
  {| grant_rows := List.filter (λ r, negb (p r)) (grant_rows t);
     next_grant_id := next_grant_id t |}.

(** [UPDATE ... SET revoked_at, revoked_reason WHERE p AND revoked_at IS NULL]
    with the number of rows it changed. *)
Definition revoke_where (t : GrantTable) (p : GrantRow → bool) (now reason : string)
    : GrantTable * nat :=
  let hit r := p r && bool_decide (row_revoked r = None) in
  (update_rows t (λ r, if hit r
     then {| row_id := row_id r; row_host := row_host r; row_grant := row_grant r;
             row_revoked := Some (now, reason) |}
     else r),
   length (List.filter hit (grant_rows t))).

Definition in_root (root : string) (r : GrantRow) : bool := (g_root (row_grant r) =? root)%string.

Definition revoke_session_grants (t : GrantTable) (root : string) (host : option string)
    (now reason : string) : GrantTable * nat :=
  match host with
  | Some h =>
      let matching_ids := row_id <$> List.filter (λ r,
        existsb (λ tg, target_matches tg h) (g_targets (row_grant r)))
        (get_session_grants_structured t root) in
      match matching_ids with
      | [] => (t, 0)
      | _ => revoke_where t (λ r, existsb (Z.eqb (row_id r)) matching_ids) now reason
      end
  | None => revoke_where t (in_root root) now reason
  end.

Definition has_source (source : string) (r : GrantRow) : bool :=
  match g_source (row_grant r) with Some s => (s =? source)%string | None => false end.

Definition revoke_session_grants_by_source (t : GrantTable) (root source now reason : string)
    : GrantTable * nat :=
  revoke_where t (λ r, in_root root r && has_source source r) now reason.

Definition revoke_session_grant_by_id (t : GrantTable) (root : string) (grant_id : Z)
    (now reason : string) : GrantTable * bool :=
  let '(t, n) := revoke_where t (λ r, (row_id r =? grant_id)%Z && in_root root r) now reason in
  (t, 0 <? n).

(** The declassification grants of the root, deleted with them, are another
    table. *)
Definition delete_session_grants (t : GrantTable) (root : string) : GrantTable :=
  delete_rows t (in_root root).

(** [expires_at < ?1] compares the two texts. *)
Definition text_expired (now : string) (r : GrantRow) : bool :=
  match g_expires (row_grant r) with
  | Some e => match String.compare e now with Lt => true | _ => false end
  | None => false
  end.

Definition prune_expired_grants (t : GrantTable) (now : string) : GrantTable * nat :=
  (delete_rows t (text_expired now), length (List.filter (text_expired now) (grant_rows t))).

Section Coverage.
Context (parse_rfc3339 : string → option Z).

Definition grant_active (session_id agent_id : string) (now : Z) (g : Grant) : bool :=
  match g_expires g with
  | Some exp => match parse_rfc3339 exp with
                | Some expires_at => negb (expires_at <? now)%Z
                | None => false
                end
  | None => true
  end
  && ((g_agent g =? agent_id)%string || (g_agent g =? ROOT_WIDE_GRANT_AGENT)%string)
  && match g_scope g with
     | RootSession => true
     | Session => (g_session g =? session_id)%string
     end.

Definition grants_cover_targets (t : GrantTable) (session_id root_session_id agent_id : string)
    (now : Z) (required_targets : list string) : bool :=
  if match required_targets with [] => true | _ => false end then false
  else
    let active := List.filter (λ r, grant_active session_id agent_id now (row_grant r))
                    (get_session_grants_structured t root_session_id) in
    if match active with [] => true | _ => false end then false
    else forallb (λ req, existsb (λ r,
           existsb (λ tg, target_matches tg req) (g_targets (row_grant r))) active)
           required_targets.

Definition session_grants_cover_targets (t : GrantTable) (root_session_id agent_id : string)
    (now : Z) (required_targets : list string) : bool :=
  grants_cover_targets t root_session_id root_session_id agent_id now required_targets.
End Coverage.

(** ** The tables keep their keys *)

Definition table_ok (t : GrantTable) : Prop :=
  NoDup (row_key <$> grant_rows t) ∧ NoDup (row_id <$> grant_rows t) ∧
  Forall (λ r, (row_id r < next_grant_id t)%Z ∧ row_host r = primary_host (g_targets (row_grant r)))
    (grant_rows t).

Lemma row_key_grant r :
  row_host r = primary_host (g_targets (row_grant r)) → row_key r = grant_key (row_grant r).
Proof. unfold row_key, grant_key. by intros ->. Qed.

Lemma table_ok_update t f :
  (∀ r, row_key (f r) = row_key r ∧ row_id (f r) = row_id r ∧
        (row_host r = primary_host (g_targets (row_grant r)) →
         row_host (f r) = primary_host (g_targets (row_grant (f r))))) →
  table_ok t → table_ok (update_rows t f).
Proof.
  intros Hf (Hk & Hi & HF). unfold table_ok, update_rows; simpl.
  change (map f (grant_rows t)) with (f <$> grant_rows t). rewrite <-!list_fmap_compose.
  rewrite (list_fmap_ext (row_key ∘ f) row_key), (list_fmap_ext (row_id ∘ f) row_id)
    by (intros; simpl; apply Hf).
  split_and!; [done..|]. apply Forall_fmap. eapply Forall_impl; [exact HF|].
  intros r [H1 H2]. simpl. destruct (Hf r) as (_ & -> & H3). auto.
Qed.

Lemma table_ok_delete t p : table_ok t → table_ok (delete_rows t p).
Proof.
  intros (Hk & Hi & HF). unfold table_ok, delete_rows; simpl.
  split_and!; [by apply filter_fmap_nodup..|]. apply Forall_forall. intros r Hr.
  apply list_elem_of_In, filter_In in Hr as [Hr _]. rewrite Forall_forall in HF.
  by apply HF, list_elem_of_In.
Qed.

(** The row a grant is written to. *)
Definition granted_row (t : GrantTable) (g : Grant) : GrantRow :=
  {| row_id := match List.find (λ r, bool_decide (row_key r = grant_key g)) (grant_rows t) with
               | Some r => row_id r
               | None => next_grant_id t
               end;
     row_host := primary_host (g_targets g); row_grant := g; row_revoked := None |}.

Lemma nodup_fmap_inj {A B} (f : A → B) l x y :
  NoDup (f <$> l) → x ∈ l → y ∈ l → f x = f y → x = y.
Proof.
  intros Hnd Hx Hy E. apply list_elem_of_lookup in Hx as [i Hi], Hy as [j Hj].
  assert (i = j) as <-.
  { eapply (NoDup_lookup (f <$> l)); [done| |]; rewrite list_lookup_fmap.
    - by rewrite Hi.
    - rewrite Hj. simpl. by rewrite E. }
  congruence.
Qed.

Lemma find_key_none t g :
  existsb (λ r, bool_decide (row_key r = grant_key g)) (grant_rows t) = false →
  List.find (λ r, bool_decide (row_key r = grant_key g)) (grant_rows t) = None ∧
  ∀ r, r ∈ grant_rows t → row_key r ≠ grant_key g.
Proof.
  intros E. rewrite existsb_false in E. split.
  - destruct (List.find _ _) as [r|] eqn:F; [|done]. apply List.find_some in F as [Hr F].
    apply list_elem_of_In in Hr. by rewrite E in F.
  - intros r Hr. specialize (E r Hr). by apply bool_decide_eq_false in E.
Qed.

Lemma insert_rows_spec t g r :
  table_ok t →
  r ∈ grant_rows (insert_session_grant t g) ↔
  r = granted_row t g ∨ (r ∈ grant_rows t ∧ row_key r ≠ grant_key g).
Proof.
  intros (Hk & Hi & HF). rewrite Forall_forall in HF. unfold insert_session_grant, granted_row.
  destruct (existsb _ _) eqn:E; simpl.
  - apply existsb_true in E as (r0 & Hr0 & E0). apply bool_decide_eq_true in E0.
    destruct (List.find _ _) as [r1|] eqn:F.
    2:{ eapply List.find_none in F; [|by apply list_elem_of_In]. simpl in F.
        by apply bool_decide_eq_false in F. }
    apply List.find_some in F as [Hr1 E1]. apply list_elem_of_In in Hr1.
    apply bool_decide_eq_true in E1.
    assert (row_host r1 = primary_host (g_targets g)) as Hh by (by injection E1).
    change (map ?f (grant_rows t)) with (f <$> grant_rows t). rewrite list_elem_of_fmap. split.
    + intros (r' & -> & Hr'). case_bool_decide as Ek; [|by right].
      left. assert (r' = r1) as -> by (eapply nodup_fmap_inj; [exact Hk|done..|congruence]).
      by rewrite Hh.
    + intros [->|[Hr Ek]].
      * exists r1. rewrite bool_decide_true by done. by rewrite Hh.
      * exists r. by rewrite bool_decide_false.
  - apply find_key_none in E as [-> Hne]. rewrite elem_of_app, list_elem_of_singleton.
    split; [|naive_solver]. intros [Hr| ->]; [right; auto|by left].
Qed.

Lemma table_ok_insert t g : table_ok t → table_ok (insert_session_grant t g).
Proof.
  intros (Hk & Hi & HF). unfold insert_session_grant. destruct (existsb _ _) eqn:E.
  - apply (table_ok_update t (λ r, if bool_decide (row_key r = grant_key g)
      then {| row_id := row_id r; row_host := row_host r; row_grant := g; row_revoked := None |}
      else r)); [|done]. intros r. case_bool_decide as Ek; [|done]. simpl.
    split_and!; [|done|by injection Ek]. rewrite Ek. unfold row_key. simpl.
    by injection Ek as _ _ _ _ ->.
  - apply find_key_none in E as [_ Hne]. unfold table_ok; simpl. rewrite !fmap_app. simpl.
    rewrite Forall_forall in HF. split_and!.
    + apply NoDup_app. split_and!; [done| |apply NoDup_singleton].
      intros k Hin ->%list_elem_of_singleton. apply list_elem_of_fmap in Hin as (r & Er & Hr).
      by apply (Hne r).
    + apply NoDup_app. split_and!; [done| |apply NoDup_singleton].
      intros k Hin ->%list_elem_of_singleton. apply list_elem_of_fmap in Hin as (r & Er & Hr).
      destruct (HF r Hr). simpl in *. lia.
    + apply Forall_app. split; [|by repeat constructor; simpl; lia].
      apply Forall_forall. intros r Hr. destruct (HF r Hr). split; [lia|done].
Qed.

(** ** Every operation on the tables *)

Inductive GrantOp : Type :=
| OpGrant (g : Grant)
| OpRevoke (root : string) (host : option string) (now reason : string)
| OpRevokeSource (root source now reason : string)
| OpRevokeId (root : string) (grant_id : Z) (now reason : string)
| OpDelete (root : string)
| OpPrune (now : string).

Definition run_grant_op (t : GrantTable) (op : GrantOp) : GrantTable :=
  match op with
  | OpGrant g => insert_session_grant t g
  | OpRevoke root host now reason => (revoke_session_grants t root host now reason).1
  | OpRevokeSource root source now reason =>
      (revoke_session_grants_by_source t root source now reason).1
  | OpRevokeId root grant_id now reason => (revoke_session_grant_by_id t root grant_id now reason).1
  | OpDelete root => delete_session_grants t root
  | OpPrune now => (prune_expired_grants t now).1
  end.

Definition run_grant_ops (ops : list GrantOp) : GrantTable :=
  fold_left run_grant_op ops no_grants.

(** The operations that end a live grant: a revocation or a deletion that
    selects it, a prune whose clock text exceeds its expiry text, or a later
    grant with the same key. *)
Definition ends (op : GrantOp) (r : GrantRow) : bool :=
  match op with
  | OpGrant g => bool_decide (row_key r = grant_key g)
  | OpRevoke root None _ _ => in_root root r
  | OpRevoke root (Some h) _ _ =>
      in_root root r && existsb (λ tg, target_matches tg h) (g_targets (row_grant r))
  | OpRevokeSource root source _ _ => in_root root r && has_source source r
  | OpRevokeId root grant_id _ _ => (row_id r =? grant_id)%Z && in_root root r
  | OpDelete root => in_root root r
  | OpPrune now => text_expired now r
  end.

Definition live (t : GrantTable) (r : GrantRow) : Prop :=
  r ∈ grant_rows t ∧ row_revoked r = None.

Lemma live_revoke_where t p now reason r :
  live (revoke_where t p now reason).1 r ↔ live t r ∧ p r = false.
Proof.
  unfold live, revoke_where, update_rows; simpl.
  change (map ?f (grant_rows t)) with (f <$> grant_rows t). rewrite list_elem_of_fmap. split.
  - intros [(r' & -> & Hr') Hn]. destruct (p r') eqn:Ep; simpl in *; [|done].
    case_bool_decide; simpl in *; [done|]. done.
  - intros [[Hr Hn] Hp]. split; [|done]. exists r. by rewrite Hp.
Qed.

Lemma live_delete t p r : live (delete_rows t p) r ↔ live t r ∧ p r = false.
Proof.
  unfold live, delete_rows; simpl. rewrite list_elem_of_In, filter_In, <-list_elem_of_In.
  destruct (p r); simpl; naive_solver.
Qed.

Lemma table_ok_revoke_where t p now reason :
  table_ok t → table_ok (revoke_where t p now reason).1.
Proof. intros H. apply table_ok_update; [|done]. intros r. by case_match. Qed.

Lemma elem_of_structured t root r :
  r ∈ get_session_grants_structured t root ↔ live t r ∧ in_root root r = true.
Proof.
  unfold get_session_grants_structured, live, in_root.
  rewrite list_elem_of_In, filter_In, <-list_elem_of_In, andb_true_iff, bool_decide_eq_true. tauto.
Qed.

Lemma live_revoke_host t root h now reason r :
  table_ok t →
  live (revoke_session_grants t root (Some h) now reason).1 r ↔
  live t r ∧ (in_root root r && existsb (λ tg, target_matches tg h) (g_targets (row_grant r))) = false.
Proof.
  intros (_ & Hi & _). unfold revoke_session_grants. set (ids := row_id <$> _).
  assert (live t r → existsb (Z.eqb (row_id r)) ids =
    (in_root root r && existsb (λ tg, target_matches tg h) (g_targets (row_grant r)))) as Hids.
  { intros [Hr Hn]. apply eq_true_iff_eq. rewrite existsb_true, andb_true_iff. subst ids. split.
    - intros (i & (r' & -> & Hr')%list_elem_of_fmap & Heq%Z.eqb_eq).
      apply list_elem_of_In, filter_In in Hr' as [Hr' Hm].
      apply list_elem_of_In, elem_of_structured in Hr' as [[Hr' _] Hroot].
      assert (r = r') as -> by (eapply nodup_fmap_inj; [exact Hi|done..|]; congruence). done.
    - intros [Hroot Hm]. exists (row_id r). rewrite Z.eqb_refl. split; [|done].
      apply list_elem_of_fmap_2, list_elem_of_In, filter_In. split; [|done].
      by apply list_elem_of_In, elem_of_structured. }
  destruct ids as [|i ids'] eqn:E.
  - simpl. split; [|tauto]. intros H. split; [done|]. by rewrite <-Hids.
  - rewrite live_revoke_where. split; intros [H1 H2]; (split; [done|]);
      [by rewrite <-Hids|by rewrite Hids].
Qed.

Lemma run_grant_op_ok t op : table_ok t → table_ok (run_grant_op t op).
Proof.
  destruct op; simpl; intros H.
  - by apply table_ok_insert.
  - unfold revoke_session_grants. repeat case_match; try done; by apply table_ok_revoke_where.
  - by apply table_ok_revoke_where.
  - unfold revoke_session_grant_by_id. by apply (table_ok_revoke_where t).
  - by apply table_ok_delete.
  - by apply table_ok_delete.
Qed.

Lemma run_grant_ops_ok ops : table_ok (run_grant_ops ops).
Proof.
  unfold run_grant_ops. induction ops as [|op ops IH] using rev_ind.
  - split_and!; constructor.
  - rewrite fold_left_app. by apply run_grant_op_ok.
Qed.

(** One step: a live row is the one just granted or one the step does not end. *)
Lemma live_step t op r :
  table_ok t →
  live (run_grant_op t op) r ↔
  (live t r ∧ ends op r = false) ∨ (∃ g, op = OpGrant g ∧ r = granted_row t g).
Proof.
  intros Hok. destruct op as [g|root [h|] now reason|root s now reason|root i now reason|root|now].
  - unfold live. simpl. rewrite insert_rows_spec by done. split.
    + intros [[->|[Hr Hk]] Hn]; [right; eauto|left]. by rewrite bool_decide_false.
    + intros [[[Hr Hn] Hk]|(g' & [= <-] & ->)]; [|by split; [left|]].
      apply bool_decide_eq_false in Hk. split; [by right|done].
  - cbn [run_grant_op ends]. rewrite live_revoke_host by done. naive_solver.
  - cbn [run_grant_op ends]. unfold revoke_session_grants. rewrite live_revoke_where. naive_solver.
  - cbn [run_grant_op ends]. unfold revoke_session_grants_by_source. rewrite live_revoke_where. naive_solver.
  - pose proof (live_revoke_where t (λ r, (row_id r =? i)%Z && in_root root r) now reason r) as H.
    change (live (run_grant_op t (OpRevokeId root i now reason)) r) with
      (live (revoke_where t (λ r, (row_id r =? i)%Z && in_root root r) now reason).1 r).
    rewrite H. cbn [ends]. naive_solver.
  - cbn [run_grant_op ends]. unfold delete_session_grants. rewrite live_delete. naive_solver.
  - cbn [run_grant_op ends prune_expired_grants fst]. rewrite live_delete. naive_solver.
Qed.

(** A live row was granted, and nothing since ended it. *)
Lemma live_trace ops r :
  live (run_grant_ops ops) r ↔
  ∃ pre g post, ops = pre ++ OpGrant g :: post ∧ r = granted_row (run_grant_ops pre) g ∧
    Forall (λ op, ends op r = false) post.
Proof.
  unfold run_grant_ops. induction ops as [|op ops IH] using rev_ind.
  { split; [by intros [?%not_elem_of_nil _]|]. intros (pre & g & post & E & _).
    by destruct pre. }
  rewrite fold_left_app. simpl. rewrite live_step by apply run_grant_ops_ok. rewrite IH. split.
  - intros [[(pre & g & post & -> & -> & HF) He]|(g & -> & ->)].
    + exists pre, g, (post ++ [op]). split_and!; [by rewrite <-app_assoc|done|].
      apply Forall_app. split; [done|]. by constructor.
    + by exists ops, g, [].
  - intros (pre & g & post & E & Hr & HF). destruct post as [|op' post _] using rev_ind.
    + apply app_inj_tail in E as [-> ->]. right. eauto.
    + rewrite app_comm_cons, app_assoc in E. apply app_inj_tail in E as [-> ->]. left.
      apply Forall_app in HF as [HF [He _]%Forall_cons]. split; [|exact He].
      by exists pre, g, post.
Qed.

Lemma cover_spec parse t session root agent now targets :
  grants_cover_targets parse t session root agent now targets = true ↔
  targets ≠ [] ∧ ∀ req, req ∈ targets → ∃ r, live t r ∧ in_root root r = true ∧
    grant_active parse session agent now (row_grant r) = true ∧
    ∃ tg, tg ∈ g_targets (row_grant r) ∧ target_matches tg req = true.
Proof.
  unfold grants_cover_targets. destruct targets as [|req0 targets]; [naive_solver|].
  set (active := List.filter _ _).
  assert (∀ r, r ∈ active ↔ live t r ∧ in_root root r = true ∧
    grant_active parse session agent now (row_grant r) = true) as Hact.
  { intros r. subst active. rewrite list_elem_of_In, filter_In, <-list_elem_of_In,
      elem_of_structured. tauto. }
  clearbody active. destruct active as [|r0 active].
  - split; [done|]. intros [_ H]. destruct (H req0) as (r & Hl & Hr & Ha & _); [by left|].
    destruct (not_elem_of_nil r). by apply Hact.
  - rewrite forallb_true. split.
    + intros H. split; [done|]. intros req Hreq. specialize (H req Hreq).
      apply existsb_true in H as (r & Hr & H). apply existsb_true in H as (tg & Htg & H).
      apply Hact in Hr as (? & ? & ?). exists r. split_and!; eauto.
    + intros [_ H] req Hreq. destruct (H req Hreq) as (r & Hl & Hr & Ha & tg & Htg & Hm).
      apply existsb_true. exists r. split; [by apply Hact|]. apply existsb_true. eauto.
Qed.

(** C10: Network authority is exactly what was granted and not withdrawn.  After
    any sequence of grants, revocations, deletions and prunes, an agent's
    targets are covered precisely when each of them matches a target of a
    grant of that root, made for the agent or root-wide, whose scope includes
    the session and whose expiry has not passed, and which no later operation
    ended. *)
Theorem coverage_traces_to_grants parse ops session root agent now targets :
  grants_cover_targets parse (run_grant_ops ops) session root agent now targets = true ↔
  targets ≠ [] ∧ ∀ req, req ∈ targets → ∃ pre g post,
    ops = pre ++ OpGrant g :: post ∧ g_root g = root ∧
    grant_active parse session agent now g = true ∧
    (∃ tg, tg ∈ g_targets g ∧ target_matches tg req = true) ∧
    Forall (λ op, ends op (granted_row (run_grant_ops pre) g) = false) post.
Proof.
  rewrite cover_spec. split; intros [Hne H]; (split; [done|]); intros req Hreq.
  - destruct (H req Hreq) as (r & Hl & Hr & Ha & Hm).
    apply live_trace in Hl as (pre & g & post & -> & -> & HF). apply str_eqb_spec in Hr.
    by exists pre, g, post.
  - destruct (H req Hreq) as (pre & g & post & -> & Hr & Ha & Hm & HF).
    exists (granted_row (run_grant_ops pre) g). split_and!; [|by apply str_eqb_spec|done..].
    apply live_trace. eauto 6.
Qed.

(** ** Targets *)

(** A suffix grant matches the bare domain and whole labels below it, never a
    name that merely ends or begins with its text. *)
Lemma host_suffix_spec suffix req :
  target_matches (HostSuffix suffix) req = true ↔
  let domain := to_lowercase (trim_wildcard suffix) in
  to_lowercase req = domain ∨ ∃ sub, to_lowercase req = (sub ++ "." ++ domain)%string.
Proof.
  cbn [target_matches]. rewrite orb_true_iff, str_eqb_spec, ends_with_spec. done.
Qed.

(** ** Where the tables surprise *)

(** The row written by a grant replaces every other grant of its key. *)
Lemma later_grant_replaces parse t g session agent now req :
  table_ok t →
  (∀ r, live t r → g_root (row_grant r) = g_root g → row_key r = grant_key g) →
  (∀ tg, tg ∈ g_targets g → target_matches tg req = false) →
  grants_cover_targets parse (insert_session_grant t g) session (g_root g) agent now [req] = false.
Proof.
  intros Hok Hsame Hm. apply not_true_iff_false. rewrite cover_spec. intros [_ H].
  destruct (H req) as (r & Hl & Hr & _ & tg & Htg & Hmt); [by left|].
  apply str_eqb_spec in Hr. apply (live_step t (OpGrant g)) in Hl; [|done].
  destruct Hl as [[Hl He]|(g' & [= <-] & ->)].
  - simpl in He. apply bool_decide_eq_false in He. by apply He, Hsame.
  - by rewrite Hm in Hmt.
Qed.

Definition demo_grant (targets : list GrantTarget) (expires : option string) : Grant :=
  {| g_root := "r"; g_session := "r"; g_agent := "a"; g_scope := RootSession;
     g_targets := targets; g_by := "operator"; g_at := "t"; g_source := None;
     g_expires := expires |}.

(** Three surprises of the grant tables.  A second grant of the same agent
    silently withdraws the first when both have the same first exact host, or
    none at all, as two wildcard hosts have.  A grant for a URL without a path
    also covers longer host names that start with it.  And pruning compares
    timestamps as text, so a grant whose expiry carries another offset is
    deleted while it is still active. *)
Theorem grant_table_surprises parse now soon :
  parse "2026-01-01T10:00:00-05:00" = Some soon → (now ≤ soon)%Z →
  let cover t req := grants_cover_targets parse t "r" "r" "a" now [req] in
  let first := insert_session_grant no_grants (demo_grant [HostSuffix "one.com"] None) in
  let both := insert_session_grant first (demo_grant [HostSuffix "two.com"] None) in
  (cover first "x.one.com" = true ∧ cover both "x.one.com" = false) ∧
  cover (insert_session_grant no_grants (demo_grant [UrlPrefix "https://api.github.com"] None))
    "https://api.github.com.evil.example/" = true ∧
  let zoned := insert_session_grant no_grants
    (demo_grant [ExactHost "one.com"] (Some "2026-01-01T10:00:00-05:00")) in
  cover zoned "one.com" = true ∧
  cover (prune_expired_grants zoned "2026-01-01T12:00:00+00:00").1 "one.com" = false.
Proof.
  intros Hp Hn. cbv zeta. split_and!; [by vm_compute..| |by vm_compute].
  unfold grants_cover_targets, grant_active. simpl. rewrite Hp.
  destruct (Z.ltb_spec soon now); [lia|]. by vm_compute.
Qed.

Lemma grant_table_surprises_witness :
  let parse := λ e, if (e =? "2026-01-01T10:00:00-05:00")%string then Some 54000%Z else None in
  parse "2026-01-01T10:00:00-05:00" = Some 54000%Z ∧
  grants_cover_targets parse (insert_session_grant no_grants
    (demo_grant [UrlPrefix "https://api.github.com"] None)) "r" "r" "a" 43200
    ["https://api.github.com.evil.example/"] = true.
Proof.
  split; [done|]. apply (grant_table_surprises _ 43200 54000); [done|lia].
Defined.
