(* ===== verification/SessionEnvelope.v ===== *)
(** * Session capability envelopes

    The model of runtime/session_envelope.rs and of the envelope table of
    scheduler/gateway_store/session_envelopes.rs: an envelope is proposed from
    observed or declared capabilities, locked, and its network hosts become a
    grant of the root session; revoking it withdraws that grant.

    The hosts a session was observed to use ([discover_observed_hosts], which
    reads execution traces and approvals through the command analyser) are an
    argument.  The clock is an argument.  A write to the grant table may fail:
    [db_ok] says whether it succeeds.  The timeline events, which are best
    effort and change no decision, are left out. *)

From Stdlib Require Import Ascii String ZArith Lia.
From stdpp Require Import prelude gmap strings list sorting.
From S2P Require Import Prelude RustStr Capability Grants.

Open Scope string_scope.
Open Scope nat_scope.
Open Scope list_scope.

(** ** The table *)

Record SessionEnvelopeRecord := {
  env_id : Z;
  env_root : string;
  env_capability : Capability;
  env_source : string;
  env_observed_at : option string;
  env_locked_at : option string;
  env_locked_by : option string;
  env_plan_id : option string;
  env_created_at : string;
}.

Record EnvelopeStore := {
  env_rows : list SessionEnvelopeRecord;
  next_env_id : Z;
  grants : GrantTable;
}.

Definition with_rows (st : EnvelopeStore) (rows : list SessionEnvelopeRecord) : EnvelopeStore :=
  {| env_rows := rows; next_env_id := next_env_id st; grants := grants st |}.

Definition with_grants (st : EnvelopeStore) (g : GrantTable) : EnvelopeStore :=
  {| env_rows := env_rows st; next_env_id := next_env_id st; grants := g |}.

Definition insert_envelope_proposal (st : EnvelopeStore) (root : string) (capability : Capability)
    (source : string) (observed_at plan_id : option string) (created_at : string)
    : EnvelopeStore * Z :=
  ({| env_rows := env_rows st ++ [{| env_id := next_env_id st; env_root := root;
        env_capability := capability; env_source := source; env_observed_at := observed_at;
        env_locked_at := None; env_locked_by := None; env_plan_id := plan_id;
        env_created_at := created_at |}];
      next_env_id := (next_env_id st + 1)%Z;
      grants := grants st |}, next_env_id st).

Definition lock_row (locked_by locked_at : string) (r : SessionEnvelopeRecord)
    : SessionEnvelopeRecord :=
  {| env_id := env_id r; env_root := env_root r; env_capability := env_capability r;
     env_source := env_source r; env_observed_at := env_observed_at r;
     env_locked_at := Some locked_at; env_locked_by := Some locked_by;
     env_plan_id := env_plan_id r; env_created_at := env_created_at r |}.

Definition is_locked (r : SessionEnvelopeRecord) : bool := bool_decide (is_Some (env_locked_at r)).

(** [UPDATE ... WHERE id = ? AND locked_at IS NULL], and whether it hit. *)
Definition lock_envelope (st : EnvelopeStore) (envelope_id : Z) (locked_by locked_at : string)
    : EnvelopeStore * bool :=
  let hit r := (env_id r =? envelope_id)%Z && negb (is_locked r) in
  (with_rows st (map (λ r, if hit r then lock_row locked_by locked_at r else r) (env_rows st)),
   existsb hit (env_rows st)).

Definition by_created_at (rows : list SessionEnvelopeRecord) : list SessionEnvelopeRecord :=
  sort_by (λ a b, String.compare (env_created_at a) (env_created_at b)) rows.

Definition get_active_envelopes (st : EnvelopeStore) (root : string)
    : list SessionEnvelopeRecord :=
  by_created_at (List.filter (λ r, (env_root r =? root)%string && is_locked r) (env_rows st)).

Definition get_proposed_envelopes (st : EnvelopeStore) (root : string)
    : list SessionEnvelopeRecord :=
  by_created_at (List.filter (λ r, (env_root r =? root)%string && negb (is_locked r))
    (env_rows st)).

Definition get_envelope_by_id (st : EnvelopeStore) (envelope_id : Z)
    : option SessionEnvelopeRecord :=
  last (List.filter (λ r, (env_id r =? envelope_id)%Z) (env_rows st)).

Definition revoke_session_envelopes_for_root (st : EnvelopeStore) (root : string)
    : EnvelopeStore * nat :=
  (with_rows st (List.filter (λ r, negb (env_root r =? root)%string) (env_rows st)),
   length (List.filter (λ r, (env_root r =? root)%string) (env_rows st))).

Definition revoke_session_envelope_by_id (st : EnvelopeStore) (envelope_id : Z)
    : EnvelopeStore * bool :=
  (with_rows st (List.filter (λ r, negb (env_id r =? envelope_id)%Z) (env_rows st)),
   existsb (λ r, (env_id r =? envelope_id)%Z) (env_rows st)).

(** ** Hosts and grants *)

Definition capabilities_from_hosts (hosts : list string) : list Capability :=
  match hosts with [] => [] | _ => [NetworkAccess hosts] end.

Definition is_concrete_host (host : string) : bool :=
  negb (str_is_empty host) && negb (host =? "*")%string.

(** [Vec::dedup] of a sorted vector. *)
Fixpoint dedup_sorted (l : list string) : list string :=
  match l with
  | x :: (y :: _) as rest =>
      if (x =? y)%string then dedup_sorted rest else x :: dedup_sorted rest
  | _ => l
  end.

Definition concrete_hosts (hosts : list string) : list string :=
  dedup_sorted (sort_by String.compare (List.filter is_concrete_host hosts)).

(** A declared [*.example.com] is a suffix, anything else an exact host. *)
Definition host_target (h : string) : GrantTarget :=
  match strip_prefix h "*." with
  | Some suffix => HostSuffix suffix
  | None => ExactHost h
  end.

Definition materialize_network_grant (db_ok : bool) (st : EnvelopeStore) (root : string)
    (hosts : list string) (locked_by source now : string) (agent_id : option string)
    : EnvelopeStore * nat :=
  match concrete_hosts hosts with
  | [] => (st, 0)
  | concrete =>
      if db_ok then
        (with_grants st (insert_session_grant (grants st)
           {| g_root := root; g_session := root;
              g_agent := default ROOT_WIDE_GRANT_AGENT agent_id;
              g_scope := RootSession; g_targets := host_target <$> concrete;
              g_by := locked_by; g_at := now; g_source := Some source; g_expires := None |}), 1)
      else (st, 0)
  end.

Definition materialize_envelope (db_ok : bool) (st : EnvelopeStore) (root : string)
    (envelope : list Capability) (locked_by source now : string) : EnvelopeStore * nat :=
  fold_left (λ '(st, count) cap,
    match cap with
    | NetworkAccess hosts =>
        let '(st, n) := materialize_network_grant db_ok st root hosts locked_by source now None in
        (st, count + n)
    | _ => (st, count)
    end) envelope (st, 0).

Definition network_hosts (cap : Capability) : list string :=
  match cap with NetworkAccess hosts => hosts | _ => [] end.

(** A [BTreeSet] read in order. *)
Definition locked_network_hosts (st : EnvelopeStore) (root : string) : list string :=
  concrete_hosts (get_active_envelopes st root ≫= (λ r, network_hosts (env_capability r))).

Definition hosts_pending_proposal (st : EnvelopeStore) (root : string) (discovered : list string)
    : list string :=
  let locked := locked_network_hosts st root in
  List.filter (λ h, negb (existsb (String.eqb h) locked)) discovered.

Definition find_matching_pending_envelope_id (st : EnvelopeStore) (root : string)
    (hosts : list string) : option Z :=
  env_id <$> List.find (λ p,
    match env_capability p with
    | NetworkAccess pending => bool_decide (pending = hosts)
    | _ => false
    end) (get_proposed_envelopes st root).

(** ** Locking and revoking *)

Inductive EnvelopeError : Type :=
| EnvelopeNotFound (envelope_id : Z)
| AlreadyLocked (envelope_id : Z)
| LockFailed (envelope_id : Z)
| EmptyAgentId
| NestedPromoteWith.

Record EnvelopeLockResult := {
  lock_envelope_id : Z;
  grants_materialized : nat;
  locked_at : string;
  locked_hosts : list string;
}.

Definition envelope_source (envelope_id : Z) : string :=
  ("session-envelope:" ++ show_Z envelope_id)%string.

Definition lock_session_envelope (db_ok : bool) (st : EnvelopeStore) (envelope_id : Z)
    (locked_by now : string) : EnvelopeStore * result EnvelopeLockResult EnvelopeError :=
  match get_envelope_by_id st envelope_id with
  | None => (st, Err (EnvelopeNotFound envelope_id))
  | Some record =>
      if is_locked record then (st, Err (AlreadyLocked envelope_id))
      else
        let '(st, hit) := lock_envelope st envelope_id locked_by now in
        if negb hit then (st, Err (LockFailed envelope_id))
        else
          let '(st, n) := materialize_envelope db_ok st (env_root record)
            [env_capability record] locked_by (envelope_source envelope_id) now in
          (st, Ok {| lock_envelope_id := envelope_id; grants_materialized := n;
                     locked_at := now;
                     locked_hosts := match env_capability record with
                                     | NetworkAccess hosts => concrete_hosts hosts
                                     | _ => []
                                     end |})
  end.

Definition revoke_session_envelope (st : EnvelopeStore) (envelope_id : Z) (revoked_by now : string)
    : EnvelopeStore * option SessionEnvelopeRecord :=
  match get_envelope_by_id st envelope_id with
  | None => (st, None)
  | Some record =>
      let st :=
        if is_locked record
        then with_grants st (revoke_session_grants_by_source (grants st) (env_root record)
               (envelope_source envelope_id) now
               ("envelope revoked by " ++ revoked_by)%string).1
        else st in
      let '(st, hit) := revoke_session_envelope_by_id st envelope_id in
      (st, if hit then Some record else None)
  end.

(** ** Proposals *)

Record EnvelopeProposalResult := {
  proposal_envelope_id : Z;
  proposal_hosts : list string;
  proposal_capabilities : list Capability;
  skipped : bool;
}.

Definition propose_discovered_envelope (db_ok : bool) (st : EnvelopeStore) (root source : string)
    (plan_id : option string) (actor_id now : string) (discovered : list string)
    : EnvelopeStore * option EnvelopeProposalResult :=
  match hosts_pending_proposal st root discovered with
  | [] => (st, None)
  | hosts =>
      let '(st, envelope_id, skipped) :=
        match find_matching_pending_envelope_id st root hosts with
        | Some envelope_id => (st, envelope_id, true)
        | None =>
            let '(st, envelope_id) := insert_envelope_proposal st root (NetworkAccess hosts)
              source (Some now) plan_id now in
            (st, envelope_id, false)
        end in
      let '(st, _) := lock_session_envelope db_ok st envelope_id actor_id now in
      (st, Some {| proposal_envelope_id := envelope_id; proposal_hosts := hosts;
                   proposal_capabilities := capabilities_from_hosts hosts;
                   skipped := skipped |})
  end.

Definition is_network (c : Capability) : bool :=
  match c with NetworkAccess _ => true | _ => false end.

Definition propose_envelope_from_capabilities (db_ok : bool) (st : EnvelopeStore) (root : string)
    (capabilities : list Capability) (source : string) (plan_id : option string)
    (actor_id now : string) (discovered : list string)
    : EnvelopeStore * option EnvelopeProposalResult :=
  let hosts := concrete_hosts (capabilities ≫= (λ c, concrete_hosts (network_hosts c))) in
  match hosts with
  | [] => propose_discovered_envelope db_ok st root source plan_id actor_id now discovered
  | _ =>
      match find_matching_pending_envelope_id st root hosts with
      | Some envelope_id =>
          (st, Some {| proposal_envelope_id := envelope_id; proposal_hosts := hosts;
                       proposal_capabilities := capabilities; skipped := true |})
      | None =>
          let '(st, envelope_id) := insert_envelope_proposal st root (NetworkAccess hosts)
            source (Some now) plan_id now in
          let st := fold_left (λ st cap,
            if is_network cap then st
            else (insert_envelope_proposal st root cap source (Some now) plan_id now).1)
            capabilities st in
          (st, Some {| proposal_envelope_id := envelope_id; proposal_hosts := hosts;
                       proposal_capabilities := capabilities; skipped := false |})
      end
  end.

Definition is_promote_with (c : Capability) : bool :=
  match c with PromoteWith _ _ => true | _ => false end.

(** The first locked [PromoteWith] of the agent, or of any agent, that covers
    the capabilities. *)
Definition find_promote_with_envelope_id (st : EnvelopeStore) (root agent : string)
    (artifact_capabilities : list Capability) : option Z :=
  find_map (λ record,
    match env_capability record with
    | PromoteWith pw_agent capabilities =>
        if (str_is_empty pw_agent || (pw_agent =? agent)%string)
           && capability_set_covers capabilities artifact_capabilities
        then Some (env_id record) else None
    | _ => None
    end) (get_active_envelopes st root).

Definition promotion_preauthorized_by_envelope (st : EnvelopeStore) (root agent : string)
    (artifact_capabilities : list Capability) : bool :=
  bool_decide (is_Some (find_promote_with_envelope_id st root agent artifact_capabilities)).

Definition promote_with_sets_equivalent (a b : list Capability) : bool :=
  capability_set_covers a b && capability_set_covers b a.

Definition has_matching_pending_promote_with (st : EnvelopeStore) (root agent : string)
    (capabilities : list Capability) : bool :=
  existsb (λ record,
    match env_capability record with
    | PromoteWith pw pending =>
        (pw =? agent)%string && promote_with_sets_equivalent pending capabilities
    | _ => false
    end) (get_proposed_envelopes st root).

Definition propose_promote_with_envelope (st : EnvelopeStore) (root agent : string)
    (capabilities : list Capability) (source now : string)
    : EnvelopeStore * result (option Z) EnvelopeError :=
  match capabilities with
  | [] => (st, Ok None)
  | _ =>
      if str_is_empty agent then (st, Err EmptyAgentId)
      else if existsb is_promote_with capabilities then (st, Err NestedPromoteWith)
      else if promotion_preauthorized_by_envelope st root agent capabilities then (st, Ok None)
      else if has_matching_pending_promote_with st root agent capabilities then (st, Ok None)
      else
        let '(st, envelope_id) := insert_envelope_proposal st root
          (PromoteWith agent capabilities) source (Some now) None now in
        (st, Ok (Some envelope_id))
  end.

(** What follows an artifact build; [bundle] is the manifest in the [SKILL.md]
    of an agent bundle, its agent and capabilities. *)
Definition propose_envelopes_after_artifact_build (db_ok : bool) (st : EnvelopeStore)
    (root artifact_id : string) (bundle : option (string * list Capability))
    (actor_id now : string) (discovered : list string)
    : EnvelopeStore * result unit EnvelopeError :=
  let st := (propose_discovered_envelope db_ok st root "discovered" None actor_id now
               discovered).1 in
  match bundle with
  | None | Some (_, []) => (st, Ok tt)
  | Some (agent, capabilities) =>
      match propose_promote_with_envelope st root agent capabilities
              ("artifact:" ++ artifact_id)%string now with
      | (st, Ok _) => (st, Ok tt)
      | (st, Err e) => (st, Err e)
      end
  end.

(** The hosts a request names that were observed before and are not locked,
    with all the observed ones. *)
Definition envelope_expansion_hint (st : EnvelopeStore) (root : string) (targets : list string)
    (discovered : list string) : option (list string * list string) :=
  match hosts_pending_proposal st root discovered with
  | [] => None
  | pending =>
      match List.filter (λ h, existsb (String.eqb h) targets) pending with
      | [] => None
      | overlap => Some (pending, overlap)
      end
  end.

(** ** The table keeps its ids *)

Definition envelopes_ok (st : EnvelopeStore) : Prop :=
  NoDup (env_id <$> env_rows st) ∧ (0 < next_env_id st)%Z ∧
  Forall (λ r, (0 < env_id r < next_env_id st)%Z) (env_rows st) ∧ table_ok (grants st).

Lemma get_envelope_by_id_spec st id r :
  envelopes_ok st → get_envelope_by_id st id = Some r ↔ r ∈ env_rows st ∧ env_id r = id.
Proof.
  intros (Hnd & _ & _ & _). unfold get_envelope_by_id. split.
  - intros [l Hl]%last_Some.
    assert (r ∈ List.filter (λ r, (env_id r =? id)%Z) (env_rows st)) as Hr by (rewrite Hl; set_solver).
    apply list_elem_of_In, filter_In in Hr as [Hr Hid]. split; [by apply list_elem_of_In|lia].
  - intros [Hr Hid]. destruct (last _) as [r'|] eqn:E.
    + apply last_Some in E as [l Hl].
      assert (r' ∈ List.filter (λ r, (env_id r =? id)%Z) (env_rows st)) as Hr'
        by (rewrite Hl; set_solver).
      apply list_elem_of_In, filter_In in Hr' as [Hr' Hid']. f_equal.
      eapply nodup_fmap_inj; [exact Hnd|by apply list_elem_of_In|done|lia].
    + apply last_None in E. exfalso. apply (not_elem_of_nil r). rewrite <-E.
      apply list_elem_of_In, filter_In. split; [by apply list_elem_of_In|lia].
Qed.

Lemma elem_of_active st root r :
  r ∈ get_active_envelopes st root ↔ r ∈ env_rows st ∧ env_root r = root ∧ is_locked r = true.
Proof.
  unfold get_active_envelopes, by_created_at.
  rewrite elem_of_sort_by, list_elem_of_In, filter_In, <-list_elem_of_In, andb_true_iff, str_eqb_spec.
  done.
Qed.

Lemma elem_of_proposed st root r :
  r ∈ get_proposed_envelopes st root ↔ r ∈ env_rows st ∧ env_root r = root ∧ is_locked r = false.
Proof.
  unfold get_proposed_envelopes, by_created_at.
  rewrite elem_of_sort_by, list_elem_of_In, filter_In, <-list_elem_of_In, andb_true_iff, str_eqb_spec,
    negb_true_iff. done.
Qed.

Lemma elem_of_dedup_sorted l x : x ∈ dedup_sorted l ↔ x ∈ l.
Proof.
  induction l as [|a [|b l] IH]; [done..|]. cbn [dedup_sorted].
  destruct (String.eqb_spec a b) as [<-|_]; rewrite ?elem_of_cons, IH, ?elem_of_cons; tauto.
Qed.

Lemma elem_of_concrete_hosts hosts h :
  h ∈ concrete_hosts hosts ↔ h ∈ hosts ∧ is_concrete_host h = true.
Proof.
  unfold concrete_hosts.
  by rewrite elem_of_dedup_sorted, elem_of_sort_by, list_elem_of_In, filter_In, <-list_elem_of_In.
Qed.

Lemma envelopes_ok_insert st root cap source observed plan now :
  envelopes_ok st →
  envelopes_ok (insert_envelope_proposal st root cap source observed plan now).1.
Proof.
  intros (Hnd & Hp & HF & Hg). unfold envelopes_ok; simpl. rewrite Forall_forall in HF.
  split_and!; [|lia| |done].
  - rewrite fmap_app. apply NoDup_app. split_and!; [done| |apply NoDup_singleton].
    intros i Hi ->%list_elem_of_singleton. apply list_elem_of_fmap in Hi as (r & Er & Hr).
    specialize (HF r Hr). simpl in *. lia.
  - apply Forall_app. split; [|repeat constructor; simpl; lia]. apply Forall_forall.
    intros r Hr. specialize (HF r Hr). lia.
Qed.

Lemma envelopes_ok_map st f :
  (∀ r, env_id (f r) = env_id r) → envelopes_ok st →
  envelopes_ok (with_rows st (map f (env_rows st))).
Proof.
  intros Hf (Hnd & Hp & HF & Hg). unfold envelopes_ok; simpl.
  change (map f (env_rows st)) with (f <$> env_rows st). rewrite <-list_fmap_compose.
  rewrite (list_fmap_ext (env_id ∘ f) env_id) by (intros; simpl; apply Hf).
  split_and!; [done..| |done]. apply Forall_fmap. eapply Forall_impl; [exact HF|].
  intros r Hr. simpl. by rewrite Hf.
Qed.

Lemma envelopes_ok_filter st p :
  envelopes_ok st → envelopes_ok (with_rows st (List.filter p (env_rows st))).
Proof.
  intros (Hnd & Hp & HF & Hg). unfold envelopes_ok; simpl.
  split_and!; [by apply filter_fmap_nodup|done| |done]. rewrite Forall_forall in HF.
  apply Forall_forall. intros r [Hr _]%list_elem_of_In%filter_In. by apply HF, list_elem_of_In.
Qed.

Lemma envelopes_ok_grants st g : table_ok g → envelopes_ok st → envelopes_ok (with_grants st g).
Proof. intros Hg (Hnd & Hp & HF & _). done. Qed.

Lemma lock_hit st id r :
  envelopes_ok st → r ∈ env_rows st → env_id r = id → is_locked r = false →
  ∀ by_ now, (lock_envelope st id by_ now).2 = true.
Proof.
  intros Hok Hr Hid Hl by_ now. apply existsb_true. exists r. split; [done|].
  rewrite Hid, Hl, Z.eqb_refl. done.
Qed.

(** The grant of one network envelope. *)
Definition envelope_grant (root : string) (hosts : list string) (locked_by source now : string)
    : Grant :=
  {| g_root := root; g_session := root; g_agent := ROOT_WIDE_GRANT_AGENT; g_scope := RootSession;
     g_targets := host_target <$> concrete_hosts hosts; g_by := locked_by; g_at := now;
     g_source := Some source; g_expires := None |}.

Lemma materialize_one st root cap by_ source now :
  (materialize_envelope true st root [cap] by_ source now).1 =
    match concrete_hosts (network_hosts cap) with
    | [] => st
    | _ => with_grants st (insert_session_grant (grants st)
             (envelope_grant root (network_hosts cap) by_ source now))
    end.
Proof.
  unfold materialize_envelope, envelope_grant. destruct cap; try done. cbn -[concrete_hosts].
  unfold materialize_network_grant. by destruct (concrete_hosts hosts).
Qed.

(** What a successful lock does, for an envelope of any kind. *)
Lemma lock_session_envelope_eq st r by_ now :
  envelopes_ok st → r ∈ env_rows st → is_locked r = false →
  let st1 := (lock_envelope st (env_id r) by_ now).1 in
  let res := lock_session_envelope true st (env_id r) by_ now in
  is_ok res.2 = true ∧
  res.1 = match concrete_hosts (network_hosts (env_capability r)) with
          | [] => st1
          | _ => with_grants st1 (insert_session_grant (grants st)
                   (envelope_grant (env_root r) (network_hosts (env_capability r)) by_
                      (envelope_source (env_id r)) now))
          end.
Proof.
  intros Hok Hr Hl st1. unfold lock_session_envelope.
  rewrite (proj2 (get_envelope_by_id_spec st (env_id r) r Hok)) by done. rewrite Hl.
  pose proof (lock_hit st (env_id r) r Hok Hr eq_refl Hl by_ now) as Hhit.
  pose proof (materialize_one st1 (env_root r) (env_capability r) by_
    (envelope_source (env_id r)) now) as Hm. subst st1.
  destruct (lock_envelope st (env_id r) by_ now) as [st1 hit] eqn:E.
  simpl in Hhit, Hm. subst hit. cbn [negb]. simpl.
  destruct (materialize_envelope true st1 _ _ _ _ _) as [st2 n]. simpl in *.
  split; [done|]. rewrite Hm. unfold lock_envelope in E. by injection E as <-.
Qed.

Lemma lock_envelope_ok st id by_ now :
  envelopes_ok st → envelopes_ok (lock_envelope st id by_ now).1.
Proof. intros H. apply envelopes_ok_map; [|done]. intros r. by case_match. Qed.

Lemma lock_row_elem st r by_ now :
  r ∈ env_rows st → is_locked r = false →
  lock_row by_ now r ∈ env_rows (lock_envelope st (env_id r) by_ now).1.
Proof.
  intros Hr Hl. simpl. change (map ?f (env_rows st)) with (f <$> env_rows st).
  apply list_elem_of_fmap. exists r. by rewrite Z.eqb_refl, Hl.
Qed.

(** Under a root-wide grant every agent and session of the root is covered. *)
Lemma envelope_grant_covers parse t root hosts by_ source now session agent at_ h req :
  table_ok t → h ∈ hosts → is_concrete_host h = true → target_matches (host_target h) req = true →
  grants_cover_targets parse (insert_session_grant t (envelope_grant root hosts by_ source now))
    session root agent at_ [req] = true.
Proof.
  intros Hok Hh Hc Hm. apply cover_spec. split; [done|]. intros ? ->%list_elem_of_singleton.
  exists (granted_row t (envelope_grant root hosts by_ source now)). split_and!.
  - apply (live_step t (OpGrant _)); [done|]. right. eauto.
  - apply str_eqb_spec. done.
  - unfold grant_active; simpl. by rewrite orb_true_r.
  - exists (host_target h). split; [|done]. apply list_elem_of_fmap_2. by apply elem_of_concrete_hosts.
Qed.

Lemma other_root_coverage parse t g session root agent at_ targets :
  table_ok t → g_root g ≠ root →
  grants_cover_targets parse (insert_session_grant t g) session root agent at_ targets =
  grants_cover_targets parse t session root agent at_ targets.
Proof.
  intros Hok Hne. apply eq_true_iff_eq. rewrite !cover_spec.
  assert (∀ r, in_root root r = true →
    live (insert_session_grant t g) r ↔ live t r) as Hl.
  { intros r Hr. apply str_eqb_spec in Hr. rewrite (live_step t (OpGrant g)) by done. simpl. split.
    - intros [[H _]|(g' & [= <-] & ->)]; [done|]. simpl in Hr. congruence.
    - intros H. left. split; [done|]. apply bool_decide_eq_false. intros Hk.
      unfold row_key, grant_key in Hk. congruence. }
  split; intros [Hn H]; (split; [done|]); intros req Hreq;
    destruct (H req Hreq) as (r & Hlr & Hr & Ha & Hm); exists r; (split_and!; [|done..]);
    by apply Hl.
Qed.

(** Locking a network envelope grants its hosts and nothing else: it succeeds
    once and only once; afterwards every agent and session of the root may
    reach each concrete host it declares, a wildcard entry being a suffix; and
    what other roots may reach is unchanged. *)
Theorem envelope_lock_grants_hosts st r hosts by_ now :
  envelopes_ok st → r ∈ env_rows st → is_locked r = false →
  env_capability r = NetworkAccess hosts →
  let res := lock_session_envelope true st (env_id r) by_ now in
  is_ok res.2 = true ∧ lock_row by_ now r ∈ env_rows res.1 ∧
  (∀ by2 now2, (lock_session_envelope true res.1 (env_id r) by2 now2).2
               = Err (AlreadyLocked (env_id r))) ∧
  (∀ parse session agent at_ h req,
     h ∈ hosts → is_concrete_host h = true → target_matches (host_target h) req = true →
     grants_cover_targets parse (grants res.1) session (env_root r) agent at_ [req] = true) ∧
  (∀ parse session root agent at_ targets, root ≠ env_root r →
     grants_cover_targets parse (grants res.1) session root agent at_ targets =
     grants_cover_targets parse (grants st) session root agent at_ targets).
Proof.
  intros Hok Hr Hl Hcap res.
  pose proof (lock_session_envelope_eq st r by_ now Hok Hr Hl) as [Hres Est].
  fold res in Hres, Est. rewrite Hcap in Est. cbn [network_hosts] in Est.
  assert (table_ok (grants st)) as Hg by apply Hok.
  pose proof (lock_row_elem st r by_ now Hr Hl) as Hlr.
  assert (env_rows res.1 = env_rows (lock_envelope st (env_id r) by_ now).1) as Erows.
  { rewrite Est. by destruct (concrete_hosts hosts). }
  assert (envelopes_ok res.1) as Hok'.
  { rewrite Est. pose proof (lock_envelope_ok st (env_id r) by_ now Hok) as H1.
    destruct (concrete_hosts hosts); [done|]. apply envelopes_ok_grants; [|done].
    by apply table_ok_insert. }
  split_and!; [done|by rewrite Erows| | |].
  - intros by2 now2. unfold lock_session_envelope.
    rewrite (proj2 (get_envelope_by_id_spec res.1 (env_id r) (lock_row by_ now r) Hok'));
      [done|]. by rewrite Erows.
  - intros parse session agent at_ h req Hh Hc Hm. rewrite Est.
    assert (h ∈ concrete_hosts hosts) as Hin by by apply elem_of_concrete_hosts.
    destruct (concrete_hosts hosts) eqn:E; [by apply not_elem_of_nil in Hin|].
    simpl. by eapply envelope_grant_covers.
  - intros parse session root agent at_ targets Hne. rewrite Est.
    destruct (concrete_hosts hosts); [done|]. simpl. apply other_root_coverage; done.
Qed.

(** Revoking a locked envelope removes it and withdraws exactly the grants that
    carry its name as their source in its root; every other grant stays. *)
Theorem envelope_revocation_withdraws st r by_ now :
  envelopes_ok st → r ∈ env_rows st → is_locked r = true →
  let res := revoke_session_envelope st (env_id r) by_ now in
  res.2 = Some r ∧ get_envelope_by_id res.1 (env_id r) = None ∧
  ∀ g, live (grants res.1) g ↔ live (grants st) g ∧
    ¬ (g_root (row_grant g) = env_root r ∧
       g_source (row_grant g) = Some (envelope_source (env_id r))).
Proof.
  intros Hok Hr Hl. unfold revoke_session_envelope.
  rewrite (proj2 (get_envelope_by_id_spec st (env_id r) r Hok)) by done. rewrite Hl. simpl.
  split_and!.
  - rewrite (proj2 (existsb_true _ _)); [done|]. exists r. by rewrite Z.eqb_refl.
  - unfold get_envelope_by_id. simpl. apply last_None, elem_of_nil_inv.
    intros x [Hx Hi]%list_elem_of_In%filter_In. apply filter_In in Hx as [_ Hx].
    destruct (Z.eqb_spec (env_id x) (env_id r)); done.
  - intros g. unfold revoke_session_grants_by_source.
    change (update_rows (grants st) _) with
      (revoke_where (grants st) (λ x, in_root (env_root r) x && has_source
        (envelope_source (env_id r)) x) now ("envelope revoked by " ++ by_)%string).1.
    rewrite live_revoke_where, andb_false_iff. unfold in_root, has_source.
    destruct (g_source (row_grant g)) as [s|]; [|naive_solver].
    destruct (String.eqb_spec (g_root (row_grant g)) (env_root r)),
      (String.eqb_spec s (envelope_source (env_id r))); naive_solver.
Qed.

(** ** Discovery *)

Lemma elem_of_locked_hosts st root h :
  h ∈ locked_network_hosts st root ↔
  is_concrete_host h = true ∧ ∃ r, r ∈ env_rows st ∧ env_root r = root ∧ is_locked r = true ∧
    h ∈ network_hosts (env_capability r).
Proof.
  unfold locked_network_hosts. rewrite elem_of_concrete_hosts, list_elem_of_bind.
  setoid_rewrite elem_of_active. naive_solver.
Qed.

Lemma elem_of_pending st root discovered h :
  h ∈ hosts_pending_proposal st root discovered ↔
  h ∈ discovered ∧ h ∉ locked_network_hosts st root.
Proof.
  unfold hosts_pending_proposal.
  rewrite list_elem_of_In, filter_In, <-list_elem_of_In, negb_true_iff, existsb_false.
  split; intros [Hd H]; (split; [done|]).
  - intros Hl. specialize (H h Hl). by rewrite String.eqb_refl in H.
  - intros x Hx. destruct (String.eqb_spec h x); [by subst|done].
Qed.

(** A lock keeps what was locked and adds the row it locks. *)
Lemma locked_hosts_after_lock st r by_ now root h :
  envelopes_ok st → r ∈ env_rows st → is_locked r = false →
  let st' := (lock_session_envelope true st (env_id r) by_ now).1 in
  h ∈ locked_network_hosts st root ∨
    (root = env_root r ∧ is_concrete_host h = true ∧ h ∈ network_hosts (env_capability r)) →
  h ∈ locked_network_hosts st' root.
Proof.
  intros Hok Hr Hl st'. rewrite !elem_of_locked_hosts.
  assert (env_rows st' = env_rows (lock_envelope st (env_id r) by_ now).1) as ->.
  { subst st'. destruct (lock_session_envelope_eq st r by_ now Hok Hr Hl) as [_ ->].
    by destruct (concrete_hosts _). }
  intros [[Hc (x & Hx & Hroot & Hlx & Hh)]|(-> & Hc & Hh)]; (split; [done|]).
  - exists x. split_and!; [|done..]. simpl. change (map ?f (env_rows st)) with (f <$> env_rows st).
    apply list_elem_of_fmap. exists x. by rewrite Hlx, andb_false_r.
  - exists (lock_row by_ now r). split_and!; [by apply lock_row_elem|done..].
Qed.

Lemma locked_hosts_after_insert st root cap source obs plan now root' h :
  h ∈ locked_network_hosts st root' →
  h ∈ locked_network_hosts (insert_envelope_proposal st root cap source obs plan now).1 root'.
Proof.
  rewrite !elem_of_locked_hosts. intros [Hc (r & Hr & H)]. split; [done|]. exists r.
  split; [|done]. simpl. apply elem_of_app. by left.
Qed.

Lemma find_matching_pending_some st root hosts id :
  envelopes_ok st → find_matching_pending_envelope_id st root hosts = Some id →
  ∃ r, r ∈ env_rows st ∧ env_id r = id ∧ env_root r = root ∧ is_locked r = false ∧
    env_capability r = NetworkAccess hosts.
Proof.
  intros Hok. unfold find_matching_pending_envelope_id. intros (r & Hf & ->)%fmap_Some.
  apply List.find_some in Hf as [Hr Hc]. apply list_elem_of_In, elem_of_proposed in Hr as (? & ? & ?).
  exists r. split_and!; try done. destruct (env_capability r); try done.
  by apply bool_decide_eq_true in Hc as ->.
Qed.

(** The proposal a discovery locks: found or inserted, it is an unlocked row
    with the pending hosts. *)
Lemma discovery_row st root source plan now hosts :
  envelopes_ok st →
  let '(st1, id, _) :=
    match find_matching_pending_envelope_id st root hosts with
    | Some id => (st, id, true)
    | None =>
        let '(st', id) := insert_envelope_proposal st root (NetworkAccess hosts) source
          (Some now) plan now in (st', id, false)
    end in
  envelopes_ok st1 ∧ grants st1 = grants st ∧
  (∀ root' h, h ∈ locked_network_hosts st root' → h ∈ locked_network_hosts st1 root') ∧
  ∃ r, r ∈ env_rows st1 ∧ env_id r = id ∧ env_root r = root ∧ is_locked r = false ∧
    env_capability r = NetworkAccess hosts.
Proof.
  intros Hok. destruct (find_matching_pending_envelope_id st root hosts) as [id|] eqn:E.
  - split_and!; [done..|]. by apply find_matching_pending_some.
  - pose proof (envelopes_ok_insert st root (NetworkAccess hosts) source (Some now) plan now Hok).
    pose proof (locked_hosts_after_insert st root (NetworkAccess hosts) source (Some now) plan now).
    destruct (insert_envelope_proposal _ _ _ _ _ _ _) as [st' id] eqn:Ei.
    split_and!; [done|by injection Ei as <- _|intros; by auto|].
    injection Ei as <- <-. eexists. split_and!; [simpl; apply elem_of_app; right; by left|done..].
Qed.

(** Discovery settles.  Proposing the observed hosts of a session leaves none
    of them pending: it does nothing exactly when all were locked before, and
    otherwise every agent of the root may reach each host that was not. *)
Theorem discovery_settles st root source plan actor now discovered :
  envelopes_ok st → (∀ h, h ∈ discovered → is_concrete_host h = true) →
  let res := propose_discovered_envelope true st root source plan actor now discovered in
  let pending := hosts_pending_proposal st root discovered in
  hosts_pending_proposal res.1 root discovered = [] ∧ (res.2 = None ↔ pending = []) ∧
  (∀ parse session agent at_ h req, h ∈ pending → target_matches (host_target h) req = true →
     grants_cover_targets parse (grants res.1) session root agent at_ [req] = true).
Proof.
  intros Hok Hcon. unfold propose_discovered_envelope.
  destruct (hosts_pending_proposal st root discovered) as [|h0 hs] eqn:Eh.
  { split_and!; [done..|]. by intros ????? ? ?%not_elem_of_nil. }
  set (hosts := h0 :: hs) in *. pose proof (discovery_row st root source plan now hosts Hok) as H.
  destruct (match find_matching_pending_envelope_id st root hosts with Some _ => _ | None => _ end)
    as [[st1 id] sk]. destruct H as (Hok1 & Hg1 & Hmono & r & Hr & <- & Hroot & Hl & Hcap).
  pose proof (locked_hosts_after_lock st1 r actor now root) as Hlock.
  destruct (lock_session_envelope_eq st1 r actor now Hok1 Hr Hl) as [Hres Est].
  destruct (lock_session_envelope true st1 (env_id r) actor now) as [st2 res] eqn:E.
  simpl in *. split_and!; [|done|].
  - apply elem_of_nil_inv. intros h [Hd Hn]%elem_of_pending. apply Hn, (Hlock h); [done..|].
    destruct (decide (h ∈ locked_network_hosts st root)) as [Hin|Hout]; [left; auto|right].
    split_and!; [done|auto|]. rewrite Hcap. simpl.
    change (h ∈ hosts). rewrite <-Eh. by apply elem_of_pending.
  - intros parse session agent at_ h req Hh Hm. rewrite Est, Hcap. simpl network_hosts.
    assert (h ∈ concrete_hosts hosts) as Hc.
    { apply elem_of_concrete_hosts. split; [done|]. apply Hcon.
      rewrite <-Eh in Hh. by apply elem_of_pending in Hh as [? _]. }
    destruct (concrete_hosts hosts) eqn:Ec; [by apply not_elem_of_nil in Hc|]. simpl.
    rewrite Hroot. rewrite <-Ec in Hc. apply elem_of_concrete_hosts in Hc as [_ Hc].
    eapply envelope_grant_covers; [apply Hok1|done..].
Qed.

(** ** Witnesses *)

Definition demo_row (cap : Capability) (locked : option string) : SessionEnvelopeRecord :=
  {| env_id := 1; env_root := "r"; env_capability := cap; env_source := "plan:p";
     env_observed_at := None; env_locked_at := locked; env_locked_by := locked;
     env_plan_id := None; env_created_at := "t0" |}.

Definition demo_store (cap : Capability) (locked : option string) : EnvelopeStore :=
  {| env_rows := [demo_row cap locked]; next_env_id := 2; grants := no_grants |}.

Lemma demo_store_ok cap locked : envelopes_ok (demo_store cap locked).
Proof.
  unfold envelopes_ok; simpl. split_and!; [apply NoDup_singleton|lia|repeat constructor; simpl; lia|].
  split_and!; constructor.
Qed.

Lemma envelope_lock_grants_hosts_witness :
  let st := demo_store (NetworkAccess ["*.x.org"; "*"]) None in
  let st' := (lock_session_envelope true st 1 "operator" "t1").1 in
  grants_cover_targets (λ _, None) (grants st') "r/child" "r" "coder" 0 ["api.x.org"] = true.
Proof.
  intros st.
  apply (envelope_lock_grants_hosts st (demo_row (NetworkAccess ["*.x.org"; "*"]) None)
    ["*.x.org"; "*"] "operator" "t1") with "*.x.org";
    [apply demo_store_ok|by left|done|done|by left|done|by vm_compute].
Defined.

Lemma envelope_revocation_withdraws_witness :
  let st := demo_store (NetworkAccess ["x.org"]) (Some "t1") in
  (revoke_session_envelope st 1 "operator" "t2").2 = Some (demo_row (NetworkAccess ["x.org"]) (Some "t1")).
Proof.
  intros st.
  apply (envelope_revocation_withdraws st (demo_row (NetworkAccess ["x.org"]) (Some "t1"))
    "operator" "t2"); [apply demo_store_ok|by left|done].
Defined.

Lemma discovery_settles_witness :
  let st := demo_store (NetworkAccess ["x.org"]) (Some "t1") in
  hosts_pending_proposal
    (propose_discovered_envelope true st "r" "discovered" None "operator" "t2"
       ["x.org"; "y.org"]).1 "r" ["x.org"; "y.org"] = [].
Proof.
  intros st. apply (discovery_settles st); [apply demo_store_ok|].
  intros h [->|[->|?%not_elem_of_nil]%elem_of_cons]%elem_of_cons; by vm_compute.
Defined.
