(* ===== verification/PlanFrame.v ===== *)
(** * Plan frames: the plan an agent proposes and an operator approves

    The model of [autonoetic-types/src/plan_frame.rs]: the plan data, the
    validation of the step dependencies, the steps that still block a step,
    and the diff between two revisions that decides whether an amendment keeps
    the operator's approval.

    A [HashMap] built from a list keeps the last entry of a key; the vectors
    read off a [HashMap] are sorted by the source before they leave the
    function, so the iteration order does not show.  The depth-first search is
    written with fuel; [dfs_has_cycle_returns] shows the fuel given by
    [validate_step_dag] is enough. *)

From Stdlib Require Import Ascii String Wellfounded.
From stdpp Require Import prelude gmap strings list sorting relations.
From S2P Require Import Prelude RustStr Capability.

Open Scope string_scope.
Open Scope nat_scope.
Open Scope list_scope.

(** ** Data *)

Record PlanRef := {
  ref_plan_id : string;
  ref_version : Z;
}.

Inductive PlanStatus : Type :=
| AwaitingApproval | Approved | PlanCompleted | Cancelled | Stale.

Definition plan_status_str (self : PlanStatus) : string :=
  match self with
  | AwaitingApproval => "awaiting_approval"
  | Approved => "approved"
  | PlanCompleted => "completed"
  | Cancelled => "cancelled"
  | Stale => "stale"
  end.

Inductive StepOwner : Type := Planner | Agent | Operator | Shared.

Definition step_owner_str (self : StepOwner) : string :=
  match self with
  | Planner => "planner"
  | Agent => "agent"
  | Operator => "operator"
  | Shared => "shared"
  end.

Inductive StepStatus : Type := Pending | InProgress | Completed | Failed | Skipped.

Definition step_status_str (self : StepStatus) : string :=
  match self with
  | Pending => "pending"
  | InProgress => "in_progress"
  | Completed => "completed"
  | Failed => "failed"
  | Skipped => "skipped"
  end.

Record PlanStep := {
  step_id : string;
  title : string;
  owner : StepOwner;
  depends_on : list string;
  agent_id : option string;
  notes : option string;
  status : StepStatus;
  required_capabilities : list string;
}.

Inductive ValidationClass : Type :=
| MechanicalSafety | SecurityReview | CorrectnessCheck | QualityCheck | PackagingCheck.

Definition validation_class_str (self : ValidationClass) : string :=
  match self with
  | MechanicalSafety => "mechanical_safety"
  | SecurityReview => "security_review"
  | CorrectnessCheck => "correctness_check"
  | QualityCheck => "quality_check"
  | PackagingCheck => "packaging_check"
  end.

Inductive ValidationRequirement : Type := Required | Advisory | Waived.

Definition validation_requirement_str (self : ValidationRequirement) : string :=
  match self with
  | Required => "required"
  | Advisory => "advisory"
  | Waived => "waived"
  end.

Record ValidationEntry := {
  validation_id : string;
  validation_title : string;
  class : ValidationClass;
  requirement : ValidationRequirement;
}.

Definition ValidationPolicy : Type := list ValidationEntry.

Record PlanFrame := {
  plan_id : string;
  version : Z;
  parent_version : option Z;
  workflow_id : string;
  root_session_id : string;
  plan_title : string;
  objective : string;
  plan_status : PlanStatus;
  steps : list PlanStep;
  validation_policy : ValidationPolicy;
  capability_envelope : list Capability;
  approved_by : option string;
  approved_at : option string;
  created_by_agent_id : string;
  reason : option string;
  created_at : string;
  expires_at : option string;
}.

#[export] Instance plan_status_eq_dec : EqDecision PlanStatus.
Proof. solve_decision. Defined.
#[export] Instance step_owner_eq_dec : EqDecision StepOwner.
Proof. solve_decision. Defined.
#[export] Instance step_status_eq_dec : EqDecision StepStatus.
Proof. solve_decision. Defined.
#[export] Instance validation_class_eq_dec : EqDecision ValidationClass.
Proof. solve_decision. Defined.
#[export] Instance validation_requirement_eq_dec : EqDecision ValidationRequirement.
Proof. solve_decision. Defined.
#[export] Instance plan_step_eq_dec : EqDecision PlanStep.
Proof. solve_decision. Defined.
#[export] Instance validation_entry_eq_dec : EqDecision ValidationEntry.
Proof. solve_decision. Defined.

(** ** Agents of steps *)

Definition infer_agent_id_from_step_title (title : string) : option string :=
  let t := to_lowercase title in
  if contains t "research" || contains t "data source" || contains t "market data"
     || (contains t "api" && (contains t "source" || contains t "survey"))
  then Some "researcher.default"
  else if contains t "architect" || contains t "architecture" || contains t "design"
          || contains t "data flow"
  then Some "architect.default"
  else if contains t "implement" || contains t "coding" || contains t "build"
          || contains t "develop"
  then Some "coder.default"
  else if contains t "federation" || contains t "audit" || contains t "evaluat"
          || contains t "promotion"
  then Some "auditor.default"
  else None.

Definition resolved_agent_id (self : PlanStep) : option string :=
  let inferred := if bool_decide (owner self = Operator) then None
                  else infer_agent_id_from_step_title (title self) in
  match agent_id self with
  | Some id => if str_is_empty (trim id) then inferred else Some (trim id)
  | None => inferred
  end.

(** ** The dependency graph *)

Definition find_step (steps : list PlanStep) (id : string) : option PlanStep :=
  List.find (λ s, (step_id s =? id)%string) steps.

(** The loop over [depends_on], which stops at the first cycle; [visited] is 1
    for a step on the stack and 2 for a finished one. *)
Fixpoint dfs_deps (dfs : string → gmap string nat → option (bool * gmap string nat))
    (deps : list string) (visited : gmap string nat) : option (bool * gmap string nat) :=
  match deps with
  | [] => Some (false, visited)
  | dep :: deps =>
      '(cycle, visited) ← dfs dep visited;
      if (cycle : bool) then Some (true, visited) else dfs_deps dfs deps visited
  end.

Fixpoint dfs_has_cycle (fuel : nat) (steps : list PlanStep) (start : string)
    (visited : gmap string nat) : option (bool * gmap string nat) :=
  match fuel with
  | 0 => None
  | S fuel =>
      match visited !! start with
      | Some 2 => Some (false, visited)
      | Some 1 => Some (true, visited)
      | _ =>
          let visited := <[start := 1]> visited in
          '(cycle, visited) ←
            match find_step steps start with
            | Some s => dfs_deps (dfs_has_cycle fuel steps) (depends_on s) visited
            | None => Some (false, visited)
            end;
          if (cycle : bool) then Some (true, visited) else Some (false, <[start := 2]> visited)
      end
  end.

(** The first step whose identifier an earlier step has. *)
Fixpoint first_duplicate (seen : list string) (steps : list PlanStep) : option string :=
  match steps with
  | [] => None
  | s :: rest =>
      if existsb (String.eqb (step_id s)) seen then Some (step_id s)
      else first_duplicate (step_id s :: seen) rest
  end.

(** The first dependency of a step on itself or on a step that is not there. *)
Definition bad_dependency (ids : list string) (s : PlanStep) : option string :=
  find_map (λ dep,
    if (dep =? step_id s)%string
    then Some ("step `" ++ step_id s ++ "` depends on itself")%string
    else if negb (existsb (String.eqb dep) ids)
    then Some ("step `" ++ step_id s ++ "` depends on `" ++ dep
               ++ "` which does not exist in this plan")%string
    else None) (depends_on s).

(** The searches from every step in turn, with the marks kept. *)
Fixpoint dfs_all (fuel : nat) (all steps : list PlanStep) (visited : gmap string nat)
    : option (result unit string) :=
  match steps with
  | [] => Some (Ok tt)
  | s :: rest =>
      '(cycle, visited) ← dfs_has_cycle fuel all (step_id s) visited;
      if (cycle : bool)
      then Some (Err ("cycle detected in plan step dependencies involving `"
                      ++ step_id s ++ "`")%string)
      else dfs_all fuel all rest visited
  end.

Definition validate_step_dag (steps : list PlanStep) : option (result unit string) :=
  let ids := step_id <$> steps in
  match first_duplicate [] steps with
  | Some id => Some (Err ("duplicate step_id `" ++ id
                          ++ "` — step_ids must be unique within a plan")%string)
  | None =>
      match find_map (bad_dependency ids) steps with
      | Some message => Some (Err message)
      | None => dfs_all (S (length steps)) steps steps ∅
      end
  end.

(** The dependencies of a step that are not completed, with their status. *)
Definition unsatisfied_dependencies (plan : PlanFrame) (id : string)
    : list (string * StepStatus) :=
  match find_step (steps plan) id with
  | None => []
  | Some step =>
      omap (λ dep_id,
        dep ← find_step (steps plan) dep_id;
        if bool_decide (status dep = Completed) then None
        else Some (step_id dep, status dep)) (depends_on step)
  end.

(** ** Summaries *)

Definition first_agent_step (self : PlanFrame) : option PlanStep :=
  List.find (λ s, bool_decide (owner s = Agent) || bool_decide (owner s = Shared)) (steps self).

Definition execution_wake_hint (self : PlanFrame) : option string :=
  if bool_decide (plan_status self = Approved) then
    step ← first_agent_step self;
    agent ← resolved_agent_id step;
    Some ("Start approved plan " ++ plan_id self ++ " v" ++ show_Z (version self)
      ++ " at step " ++ step_id step ++ " (" ++ title step ++ "): call agent_spawn on `"
      ++ agent ++ "` with a task message drawn from the plan objective. "
      ++ "Do not call agent_list or agent_discover — agent_id is already known.")%string
  else None.

Record PlanFrameSummary := {
  sum_plan_id : string;
  sum_version : Z;
  sum_parent_version : option Z;
  sum_status : PlanStatus;
  sum_title : string;
  step_count : nat;
  operator_steps : list string;
  agent_steps : list string;
  required_validations : list string;
  advisory_validations : list string;
}.

Definition compact_summary (self : PlanFrame) : PlanFrameSummary :=
  let validations r := validation_id <$>
    List.filter (λ v, bool_decide (requirement v = r)) (validation_policy self) in
  {| sum_plan_id := plan_id self;
     sum_version := version self;
     sum_parent_version := parent_version self;
     sum_status := plan_status self;
     sum_title := plan_title self;
     step_count := length (steps self);
     operator_steps := step_id <$> List.filter (λ s,
       bool_decide (owner s = Operator) || bool_decide (owner s = Shared)) (steps self);
     agent_steps := step_id <$> List.filter (λ s, bool_decide (owner s = Agent)) (steps self);
     required_validations := validations Required;
     advisory_validations := validations Advisory |}.

(** ** The envelope diff between two revisions *)

Record PlanEnvelopeDiff := {
  steps_added : list string;
  steps_removed : list string;
  owners_changed : list (string * StepOwner * StepOwner);
  agents_changed : list (string * option string * option string);
  validation_removed : list string;
  validation_weakened : list (string * ValidationRequirement * ValidationRequirement);
  capability_delta : CapabilityDelta;
}.

Definition is_nil {A} (l : list A) : bool := match l with [] => true | _ => false end.

Definition requires_regate (self : PlanEnvelopeDiff) : bool :=
  negb (is_nil (steps_added self))
  || negb (is_nil (steps_removed self))
  || negb (is_nil (owners_changed self))
  || negb (is_nil (agents_changed self))
  || negb (is_nil (validation_removed self))
  || negb (is_nil (validation_weakened self))
  || has_broadening (capability_delta self).

Definition is_cosmetic_only (self : PlanEnvelopeDiff) : bool := negb (requires_regate self).

Definition requirement_rank (r : ValidationRequirement) : Z :=
  match r with Required => 2 | Advisory => 1 | Waived => 0 end.

Definition is_weaker (new old : ValidationRequirement) : bool :=
  (requirement_rank new <? requirement_rank old)%Z.

(** [HashMap] from an iterator: a later entry replaces an earlier one. *)
Definition hash_map {A} (key : A → string) (l : list A) : gmap string A :=
  fold_left (λ m x, <[key x := x]> m) l ∅.

Definition sort_keys {A} (l : list (string * A * A)) : list (string * A * A) :=
  sort_by (λ a b, String.compare a.1.1 b.1.1) l.

Definition plan_envelope_diff (parent child : PlanFrame) : PlanEnvelopeDiff :=
  let parent_steps := hash_map step_id (steps parent) in
  let child_steps := hash_map step_id (steps child) in
  let parent_val := hash_map validation_id (validation_policy parent) in
  let child_val := hash_map validation_id (validation_policy child) in
  {| steps_added := sort_by String.compare
       (List.filter (λ sid, negb (bool_decide (is_Some (parent_steps !! sid))))
          (map_to_list child_steps).*1);
     steps_removed := sort_by String.compare
       (List.filter (λ sid, negb (bool_decide (is_Some (child_steps !! sid))))
          (map_to_list parent_steps).*1);
     owners_changed := sort_keys (omap (λ '(sid, pstep),
       cstep ← child_steps !! sid;
       if bool_decide (owner pstep = owner cstep) then None
       else Some (sid, owner pstep, owner cstep)) (map_to_list parent_steps));
     agents_changed := sort_keys (omap (λ '(sid, pstep),
       cstep ← child_steps !! sid;
       if bool_decide (agent_id pstep = agent_id cstep) then None
       else Some (sid, agent_id pstep, agent_id cstep)) (map_to_list parent_steps));
     validation_removed := sort_by String.compare
       (List.filter (λ vid, negb (bool_decide (is_Some (child_val !! vid))))
          (map_to_list parent_val).*1);
     validation_weakened := sort_keys (omap (λ '(vid, pve),
       cve ← child_val !! vid;
       if is_weaker (requirement cve) (requirement pve)
       then Some (vid, requirement pve, requirement cve) else None) (map_to_list parent_val));
     capability_delta :=
       compute_capability_delta (capability_envelope parent) (capability_envelope child) |}.

Definition diff_summary (self : PlanEnvelopeDiff) : string :=
  let when (b : bool) (s : list string) := if b then s else [] in
  let parts :=
    when (negb (is_nil (steps_added self)))
      [("+step " ++ join "," (steps_added self))%string]
    ++ when (negb (is_nil (steps_removed self)))
      [("−step " ++ join "," (steps_removed self))%string]
    ++ ((λ '(sid, old, new),
          ("owner " ++ sid ++ ":" ++ step_owner_str old ++ "→" ++ step_owner_str new)%string)
          <$> owners_changed self)
    ++ ((λ '(sid, old, new),
          ("agent " ++ sid ++ ":" ++ default "—" old ++ "→" ++ default "—" new)%string)
          <$> agents_changed self)
    ++ when (negb (is_nil (validation_removed self)))
      [("−validation " ++ join "," (validation_removed self))%string]
    ++ ((λ '(vid, old, new),
          ("weaken " ++ vid ++ ":" ++ validation_requirement_str old ++ "→"
           ++ validation_requirement_str new)%string) <$> validation_weakened self)
    ++ when (has_broadening (capability_delta self))
      [("+capability " ++ join "," (sort_by String.compare
          (added (capability_delta self)
           ++ (capability_type <$> broadened (capability_delta self)))))%string] in
  if is_nil parts then "no envelope change" else join "  " parts.

(** ** The depth-first search decides acyclicity *)

(** [edge steps a b]: step [a] waits for step [b]. *)
Definition edge (steps : list PlanStep) (a b : string) : Prop :=
  ∃ s, find_step steps a = Some s ∧ b ∈ depends_on s.

Definition acyclic (steps : list PlanStep) : Prop := ∀ a, ¬ tc (edge steps) a a.

(** A step from which every chain of dependencies ends. *)
Definition grounded (steps : list PlanStep) : string → Prop := Acc (λ b a, edge steps a b).

Lemma grounded_no_cycle steps a : grounded steps a → ¬ tc (edge steps) a a.
Proof.
  intros H. induction H as [a _ IH]. intros Hc.
  inversion Hc as [? ? He|? b ? He Hr]; subst.
  - by apply (IH a He), tc_once.
  - apply (IH b He). by eapply tc_r.
Qed.

Section Search.
Context (all : list PlanStep).

Definition on_stack (visited : gmap string nat) (x : string) : Prop := visited !! x = Some 1.
Definition finished (visited : gmap string nat) (x : string) : Prop := visited !! x = Some 2.

Definition marks_ok (visited : gmap string nat) : Prop :=
  (∀ x n, visited !! x = Some n → n = 1 ∨ n = 2) ∧
  (∀ x, finished visited x → grounded all x).

(** What a search without a cycle leaves behind. *)
Definition searched (visited visited' : gmap string nat) : Prop :=
  marks_ok visited' ∧
  (∀ x, on_stack visited' x ↔ on_stack visited x) ∧
  (∀ x, finished visited x → finished visited' x).

Definition search_spec (dfs : string → gmap string nat → option (bool * gmap string nat)) : Prop :=
  ∀ start visited cycle visited',
    marks_ok visited → (∀ g, on_stack visited g → tc (edge all) g start) →
    dfs start visited = Some (cycle, visited') →
    if (cycle : bool) then ∃ x, tc (edge all) x x
    else finished visited' start ∧ searched visited visited'.

Lemma dfs_deps_spec dfs deps visited cycle visited' :
  search_spec dfs →
  marks_ok visited → (∀ g dep, on_stack visited g → dep ∈ deps → tc (edge all) g dep) →
  dfs_deps dfs deps visited = Some (cycle, visited') →
  if (cycle : bool) then ∃ x, tc (edge all) x x
  else (∀ dep, dep ∈ deps → finished visited' dep) ∧ searched visited visited'.
Proof.
  intros Hdfs. revert visited. induction deps as [|dep deps IH]; intros visited Hm Hg; simpl.
  { intros [= <- <-]. split; [by intros ? ?%not_elem_of_nil|done]. }
  intros ([c v1] & Hd & H)%bind_Some.
  apply Hdfs in Hd; [|done|intros; apply Hg; [done|by left]].
  destruct c; [by injection H as <- <-|]. destruct Hd as [Hf (Hm1 & Hs1 & Hf1)].
  apply IH in H; [|done|intros g d Hsg Hd; apply Hg; [by apply Hs1|by right]].
  destruct cycle; [done|]. destruct H as [Hall (Hm2 & Hs2 & Hf2)]. split_and!.
  - intros d [->|Hd]%elem_of_cons; [by apply Hf2|by apply Hall].
  - split_and!; [done|intros x; by rewrite Hs2|intros x Hx; by apply Hf2, Hf1].
Qed.

Lemma marks_ok_push visited start :
  visited !! start = None → marks_ok visited → marks_ok (<[start := 1]> visited).
Proof.
  intros Hn [H1 H2]. split.
  - intros x n [[<- <-]|[_ Hx]]%lookup_insert_Some; eauto.
  - unfold finished. intros x [[<- ?]|[_ Hx]]%lookup_insert_Some; [done|auto].
Qed.

Lemma searched_finish visited visited' start :
  visited !! start = None → searched (<[start := 1]> visited) visited' →
  grounded all start →
  finished (<[start := 2]> visited') start ∧ searched visited (<[start := 2]> visited').
Proof.
  intros Hn ((H1 & H2) & Hs & Hf) Hgr. unfold searched, marks_ok, on_stack, finished in *.
  split; [by rewrite lookup_insert_eq|]. split_and!.
  - intros x n [[<- <-]|[_ Hx]]%lookup_insert_Some; eauto.
  - intros x [[<- _]|[_ Hx]]%lookup_insert_Some; [done|by apply H2].
  - intros x. destruct (decide (start = x)) as [<-|Hne].
    + rewrite lookup_insert_eq, Hn. naive_solver.
    + rewrite lookup_insert_ne by done. rewrite Hs. by rewrite lookup_insert_ne.
  - intros x Hx. destruct (decide (start = x)) as [<-|Hne]; [by rewrite lookup_insert_eq|].
    rewrite lookup_insert_ne by done. apply Hf. by rewrite lookup_insert_ne.
Qed.

Lemma dfs_has_cycle_spec fuel : search_spec (dfs_has_cycle fuel all).
Proof.
  induction fuel as [|fuel IH]; intros start visited cycle visited' Hm Hg; simpl; [done|].
  destruct (visited !! start) as [n|] eqn:Ev.
  { destruct (proj1 Hm _ _ Ev) as [->| ->]; intros [= <- <-].
    - exists start. by apply Hg.
    - split_and!; done. }
  intros ([c v1] & Hr & H)%bind_Some. unfold search_spec in IH.
  assert (marks_ok (<[start := 1]> visited)) as Hm1 by by apply marks_ok_push.
  destruct (find_step all start) as [s|] eqn:Es.
  - apply dfs_deps_spec in Hr; [|done|done|].
    2:{ intros g dep Hgs Hd. assert (edge all start dep) by (by exists s).
        apply lookup_insert_Some in Hgs as [[<- _]|[_ Hgs]]; [by apply tc_once|].
        eapply tc_rtc_r; [by apply Hg|]. by apply rtc_once. }
    destruct c; [by injection H as <- <-|]. injection H as <- <-.
    destruct Hr as [Hall Hs]. apply searched_finish; [done|done|].
    constructor. intros b (s' & Es' & Hb). simplify_eq. apply (proj1 Hs). by apply Hall.
  - injection Hr as <- <-. injection H as <- <-. apply searched_finish; [done|by split_and!|].
    constructor. intros b (s' & Es' & Hb). simplify_eq.
Qed.

(** The fuel: each level of the recursion marks one more step. *)
Definition unmarked (visited : gmap string nat) : nat :=
  length (filter (λ s, visited !! step_id s = None) all).

Definition marks (visited : gmap string nat) : Prop :=
  ∀ x n, visited !! x = Some n → n = 1 ∨ n = 2.

(** Marking more steps leaves fewer unmarked. *)
Lemma count_unmarked_mono l (visited visited' : gmap string nat) :
  (∀ x, visited' !! x = None → visited !! x = None) →
  length (filter (λ s, visited' !! step_id s = None) l)
    ≤ length (filter (λ s, visited !! step_id s = None) l).
Proof.
  intros H. induction l as [|s l IH]; simpl; [done|]. rewrite !filter_cons.
  specialize (H (step_id s)). repeat case_decide; simpl; naive_solver lia.
Qed.

Lemma insert_unmarked_keys x n (visited : gmap string nat) y :
  <[x := n]> visited !! y = None → visited !! y = None.
Proof. by intros [? _]%lookup_insert_None. Qed.

Lemma insert_unmarked x n (visited : gmap string nat) :
  unmarked (<[x := n]> visited) ≤ unmarked visited.
Proof. apply count_unmarked_mono, insert_unmarked_keys. Qed.

Lemma unmarked_push start s visited :
  find_step all start = Some s → visited !! start = None →
  unmarked (<[start := 1]> visited) < unmarked visited.
Proof.
  unfold find_step, unmarked. intros [Hin Heq]%List.find_some Hn.
  apply str_eqb_spec in Heq as <-. apply list_elem_of_In, list_elem_of_split in Hin as (l1 & l2 & ->).
  rewrite !filter_app, !length_app, !filter_cons, lookup_insert_eq, Hn.
  rewrite decide_False, decide_True by done. simpl.
  pose proof (count_unmarked_mono l1 visited _ (insert_unmarked_keys (step_id s) 1 visited)).
  pose proof (count_unmarked_mono l2 visited _ (insert_unmarked_keys (step_id s) 1 visited)). lia.
Qed.

Definition returns (bound : nat)
    (dfs : string → gmap string nat → option (bool * gmap string nat)) : Prop :=
  ∀ start visited, marks visited → unmarked visited < bound →
    ∃ cycle visited', dfs start visited = Some (cycle, visited') ∧
      marks visited' ∧ unmarked visited' ≤ unmarked visited.

Lemma dfs_deps_returns bound dfs deps visited :
  returns bound dfs → marks visited → unmarked visited < bound →
  ∃ cycle visited', dfs_deps dfs deps visited = Some (cycle, visited') ∧
    marks visited' ∧ unmarked visited' ≤ unmarked visited.
Proof.
  intros Hdfs. revert visited. induction deps as [|dep deps IH]; intros visited Hm Hu; simpl.
  { by exists false, visited. }
  destruct (Hdfs dep visited Hm Hu) as (c & v1 & -> & Hm1 & Hu1). simpl.
  destruct c; [by exists true, v1|].
  destruct (IH v1 Hm1) as (c & v2 & -> & Hm2 & Hu2); [lia|]. exists c, v2. split_and!; [done..|lia].
Qed.

Lemma marks_insert x n visited : n = 1 ∨ n = 2 → marks visited → marks (<[x := n]> visited).
Proof. intros Hn Hm y k [[<- <-]|[_ Hy]]%lookup_insert_Some; eauto. Qed.

Lemma dfs_has_cycle_returns fuel : returns fuel (dfs_has_cycle fuel all).
Proof.
  induction fuel as [|fuel IH]; intros start visited Hm Hu; [lia|]. simpl.
  destruct (visited !! start) as [n|] eqn:Ev.
  { destruct (Hm _ _ Ev) as [->| ->]; eauto. }
  pose proof (marks_insert start 1 visited ltac:(auto) Hm) as Hm1.
  pose proof (insert_unmarked start 1 visited) as Hu1.
  destruct (find_step all start) as [s|] eqn:Es.
  - pose proof (unmarked_push start s visited Es Ev) as Hlt.
    destruct (dfs_deps_returns fuel (dfs_has_cycle fuel all) (depends_on s) _ IH Hm1)
      as (c & v1 & -> & Hm2 & Hu2); [lia|]. simpl.
    destruct c; [exists true, v1; split_and!; [done..|lia]|].
    exists false, (<[start := 2]> v1). pose proof (insert_unmarked start 2 v1).
    split_and!; [done|by apply marks_insert; auto|lia].
  - simpl. eexists false, _. pose proof (insert_unmarked start 2 (<[start := 1]> visited)).
    split_and!; [done|by apply marks_insert; auto|lia].
Qed.
End Search.

(** ** Validation is exact *)

Definition well_formed_steps (steps : list PlanStep) : Prop :=
  NoDup (step_id <$> steps) ∧
  (∀ s dep, s ∈ steps → dep ∈ depends_on s → dep ∈ (step_id <$> steps)) ∧
  acyclic steps.

Lemma first_duplicate_none seen steps :
  first_duplicate seen steps = None ↔
  NoDup (step_id <$> steps) ∧ ∀ id, id ∈ (step_id <$> steps) → id ∉ seen.
Proof.
  revert seen. induction steps as [|s steps IH]; intros seen; simpl.
  { split; [intros _; split; [constructor|by intros ? ?%not_elem_of_nil]|done]. }
  rewrite NoDup_cons. destruct (existsb (String.eqb (step_id s)) seen) eqn:E.
  - apply existsb_true in E as (x & Hx & Heq). apply str_eqb_spec in Heq as <-.
    split; [done|]. intros [_ H]. destruct (H (step_id s)); [left|done].
  - rewrite existsb_false in E. rewrite IH. setoid_rewrite elem_of_cons. split.
    + intros [Hnd H]. split_and!; [intros Hin; by destruct (H _ Hin); left|done|].
      intros id [->|Hid] Hs; [|by destruct (H id Hid); right].
      specialize (E _ Hs). by rewrite String.eqb_refl in E.
    + intros [[Hn Hnd] H]. split; [done|]. intros id Hid [->|Hs]; [done|]. by apply (H id); [right|].
Qed.

Lemma bad_dependency_none ids s :
  bad_dependency ids s = None ↔
  ∀ dep, dep ∈ depends_on s → dep ≠ step_id s ∧ dep ∈ ids.
Proof.
  unfold bad_dependency. rewrite find_map_none. split; intros H dep Hd; specialize (H dep Hd).
  - destruct (String.eqb_spec dep (step_id s)); [done|]. split; [done|].
    destruct (existsb (String.eqb dep) ids) eqn:E; [|done].
    apply existsb_true in E as (x & Hx & Heq). by apply str_eqb_spec in Heq as <-.
  - destruct H as [Hne Hin]. destruct (String.eqb_spec dep (step_id s)); [done|].
    assert (existsb (String.eqb dep) ids = true) as ->; [|done].
    apply existsb_true. exists dep. by rewrite String.eqb_refl.
Qed.

Lemma find_step_elem steps s :
  NoDup (step_id <$> steps) → s ∈ steps → find_step steps (step_id s) = Some s.
Proof.
  unfold find_step. induction steps as [|t steps IH]; [by intros _ ?%not_elem_of_nil|].
  rewrite fmap_cons. intros [Ht Hnd]%NoDup_cons [->|Hs]%elem_of_cons; simpl.
  { by rewrite String.eqb_refl. }
  destruct (String.eqb_spec (step_id t) (step_id s)) as [E|_]; [|by apply IH].
  destruct Ht. rewrite E. by apply list_elem_of_fmap_2.
Qed.

Lemma find_step_some steps id s : find_step steps id = Some s → s ∈ steps ∧ step_id s = id.
Proof.
  intros [Hin Heq]%List.find_some. apply str_eqb_spec in Heq. by apply list_elem_of_In in Hin.
Qed.

Lemma dfs_all_spec fuel all steps visited :
  marks_ok all visited → (∀ x, ¬ on_stack visited x) → unmarked all visited < fuel →
  ∃ r, dfs_all fuel all steps visited = Some r ∧
    if is_ok r then ∀ s, s ∈ steps → grounded all (step_id s)
    else ∃ x, tc (edge all) x x.
Proof.
  revert visited. induction steps as [|s steps IH]; intros visited Hm Hst Hu; simpl.
  { exists (Ok tt). split; [done|]. by intros ? ?%not_elem_of_nil. }
  destruct (dfs_has_cycle_returns all fuel (step_id s) visited (proj1 Hm) Hu)
    as (c & v1 & E & _ & Hu1). rewrite E. simpl.
  apply dfs_has_cycle_spec in E; [|done|by intros g ?%Hst].
  destruct c; [eexists; by split|]. destruct E as [Hf (Hm1 & Hs1 & _)].
  destruct (IH v1) as (r & -> & Hr); [done|intros x; by rewrite Hs1|lia|].
  exists r. split; [done|]. destruct (is_ok r); [|done].
  intros t [->|Ht]%elem_of_cons; [by apply Hm1|by apply Hr].
Qed.

Lemma marks_ok_empty all : marks_ok all ∅.
Proof. split; [intros x n|intros x]; unfold finished; by rewrite lookup_empty. Qed.

Lemma unmarked_empty all : unmarked all ∅ ≤ length all.
Proof. unfold unmarked. apply length_filter. Qed.

Lemma validate_step_dag_spec steps :
  ∃ r, validate_step_dag steps = Some r ∧ (is_ok r = true ↔ well_formed_steps steps).
Proof.
  unfold validate_step_dag, well_formed_steps.
  destruct (first_duplicate [] steps) as [id|] eqn:Ed.
  { eexists. split; [done|]. split; [done|]. intros [Hnd _].
    assert (first_duplicate [] steps = None); [|congruence].
    apply first_duplicate_none. split; [done|]. by intros ? _ ?%not_elem_of_nil. }
  apply first_duplicate_none in Ed as [Hnd _].
  destruct (find_map _ steps) as [m|] eqn:Eb.
  { eexists. split; [done|]. split; [done|]. intros (_ & Href & Hac).
    assert (find_map (bad_dependency (step_id <$> steps)) steps = None); [|congruence].
    apply find_map_none. intros s Hs. apply bad_dependency_none. intros dep Hd.
    split; [|by eapply Href]. intros ->. apply (Hac (step_id s)), tc_once.
    exists s. by rewrite find_step_elem. }
  rewrite find_map_none in Eb.
  destruct (dfs_all_spec (S (length steps)) steps steps ∅) as (r & -> & Hr).
  - apply marks_ok_empty.
  - intros x. unfold on_stack. by rewrite lookup_empty.
  - pose proof (unmarked_empty steps). lia.
  - exists r. split; [done|]. destruct (is_ok r); [split; [intros _|done]|split; [done|]].
    + split_and!; [done| |].
      * intros s dep Hs Hd. by apply (proj1 (bad_dependency_none _ _) (Eb s Hs)).
      * intros a Hc. assert (∃ s, find_step steps a = Some s) as [s Hs].
        { inversion Hc as [? ? (s & Hs & _)|? ? ? (s & Hs & _)]; eauto. }
        apply find_step_some in Hs as [Hs <-]. by apply (grounded_no_cycle steps (step_id s)); [apply Hr|].
    + intros (_ & _ & Hac). destruct Hr as [x Hx]. exfalso. by apply (Hac x).
Qed.

(** C36: The validation of a plan's dependencies is exact and always returns: it
    accepts precisely the plans whose steps have distinct identifiers, depend
    only on steps of the plan, and form no cycle. *)
Theorem dag_validation_exact steps :
  ∃ r, validate_step_dag steps = Some r ∧ (is_ok r = true ↔ well_formed_steps steps).
Proof. apply validate_step_dag_spec. Qed.

(** ** A plan can move *)

Lemma acyclic_grounded steps s : acyclic steps → s ∈ steps → grounded steps (step_id s).
Proof.
  intros Hac Hs.
  destruct (dfs_all_spec (S (length steps)) steps steps ∅) as (r & _ & Hr).
  - apply marks_ok_empty.
  - intros x. unfold on_stack. by rewrite lookup_empty.
  - pose proof (unmarked_empty steps). lia.
  - destruct (is_ok r); [by apply Hr|]. destruct Hr as [x Hx]. by destruct (Hac x).
Qed.

(** A step whose dependencies are all completed. *)
Definition ready (steps : list PlanStep) (s : PlanStep) : Prop :=
  ∀ dep d, dep ∈ depends_on s → find_step steps dep = Some d → status d = Completed.

Lemma ready_unsatisfied plan s :
  find_step (steps plan) (step_id s) = Some s → ready (steps plan) s →
  unsatisfied_dependencies plan (step_id s) = [].
Proof.
  unfold unsatisfied_dependencies. intros -> Hr.
  destruct (omap _ _) as [|x l] eqn:E; [done|]. exfalso.
  assert (x ∈ x :: l) as Hx by by left. rewrite <-E in Hx.
  apply list_elem_of_omap in Hx as (dep & Hd & (d & Hf & Hs)%bind_Some).
  by rewrite bool_decide_true in Hs by eauto.
Qed.

(** As long as a step of a well-formed plan is not completed, one such step has
    only completed dependencies. *)
Lemma some_step_ready steps s :
  well_formed_steps steps → s ∈ steps → status s ≠ Completed →
  ∃ t, t ∈ steps ∧ status t ≠ Completed ∧ ready steps t.
Proof.
  intros (Hnd & _ & Hac) Hs Hst. pose proof (acyclic_grounded _ _ Hac Hs) as Hg.
  remember (step_id s) as a eqn:Ha. revert s Hs Hst Ha.
  induction Hg as [a _ IH]. intros s Hs Hst ->.
  destruct (decide (Forall (λ dep, default true
    ((λ d, bool_decide (status d = Completed)) <$> find_step steps dep) = true) (depends_on s)))
    as [Hall|Hex].
  - exists s. split_and!; [done..|]. intros dep d Hd Hf.
    rewrite Forall_forall in Hall. specialize (Hall dep Hd). rewrite Hf in Hall. simpl in Hall.
    by apply bool_decide_eq_true in Hall.
  - apply not_Forall_Exists in Hex; [|apply _]. apply Exists_exists in Hex as (dep & Hd & Hn).
    cbn beta delta [compose] in Hn.
    destruct (find_step steps dep) as [d|] eqn:Hf; [|by destruct Hn]. simpl in Hn.
    pose proof (find_step_some _ _ _ Hf) as [Hin Hid].
    apply (IH dep) with d; [|done| |by symmetry].
    + exists s. split; [by apply find_step_elem|done].
    + intros Hc. by rewrite bool_decide_true in Hn.
Qed.

(** Progress does not change the graph. *)
Lemma find_step_map f steps a :
  (∀ s, step_id (f s) = step_id s) → find_step (map f steps) a = f <$> find_step steps a.
Proof.
  intros Hf. unfold find_step. induction steps as [|s steps IH]; simpl; [done|].
  rewrite Hf. by destruct (step_id s =? a)%string.
Qed.

Lemma well_formed_map f steps :
  (∀ s, step_id (f s) = step_id s) → (∀ s, depends_on (f s) = depends_on s) →
  well_formed_steps steps → well_formed_steps (map f steps).
Proof.
  intros Hf Hd (Hnd & Href & Hac).
  assert (step_id <$> map f steps = step_id <$> steps) as Hids.
  { rewrite <-list_fmap_compose. apply list_fmap_ext. intros ? s _. apply Hf. }
  unfold well_formed_steps. rewrite Hids. split_and!; [done| |].
  - intros ? dep (s & -> & Hs)%list_elem_of_fmap. rewrite Hd. by apply Href.
  - intros a Ha. apply (Hac a). revert Ha. generalize a at 2 4. intros b Hab.
    assert (∀ x y, edge (map f steps) x y → edge steps x y) as He.
    { intros x y (s & Hs & Hy). rewrite find_step_map in Hs by done.
      apply fmap_Some in Hs as (s0 & Hs0 & ->). rewrite Hd in Hy. by exists s0. }
    induction Hab as [x y Hxy|x y z Hxy _ IH]; [by apply tc_once, He|].
    eapply tc_l; [by apply He|done].
Qed.

(** ** What an amendment may change without a new approval *)

Lemma hash_map_snoc {A} (key : A → string) l x :
  hash_map key (l ++ [x]) = <[key x := x]> (hash_map key l).
Proof. unfold hash_map. by rewrite fold_left_app. Qed.

(** The last entry with a key is the one in the map. *)
Lemma hash_map_lookup {A} (key : A → string) l k :
  hash_map key l !! k = last (filter (λ x, key x = k) l).
Proof.
  induction l as [|x l IH] using rev_ind; [done|]. rewrite hash_map_snoc, filter_app.
  destruct (decide (key x = k)) as [<-|Hne].
  - rewrite filter_cons_True, filter_nil, last_snoc by done. apply lookup_insert_eq.
  - rewrite filter_cons_False, filter_nil, app_nil_r by done. by rewrite lookup_insert_ne, IH.
Qed.

Lemma hash_map_elem {A} (key : A → string) l k x :
  hash_map key l !! k = Some x → x ∈ l ∧ key x = k.
Proof.
  rewrite hash_map_lookup. intros [l' Hl]%last_Some.
  assert (x ∈ filter (λ x, key x = k) l) as Hin by (rewrite Hl; set_solver).
  apply list_elem_of_filter in Hin. naive_solver.
Qed.

Lemma hash_map_is_some {A} (key : A → string) l k :
  is_Some (hash_map key l !! k) ↔ k ∈ (key <$> l).
Proof.
  split.
  - intros [x [Hx <-]%hash_map_elem]. by apply list_elem_of_fmap_2.
  - intros (x & -> & Hx)%list_elem_of_fmap. rewrite hash_map_lookup, last_is_Some.
    intros Hn. apply (not_elem_of_nil x). rewrite <-Hn. by apply list_elem_of_filter.
Qed.

(** With distinct keys the map holds every element. *)
Lemma hash_map_nodup {A} (key : A → string) l x :
  NoDup (key <$> l) → x ∈ l → hash_map key l !! key x = Some x.
Proof.
  intros Hnd Hx. destruct (proj2 (hash_map_is_some key l (key x))) as [y Hy].
  { by apply list_elem_of_fmap_2. }
  rewrite Hy. apply hash_map_elem in Hy as [Hy E]. f_equal.
  clear -Hnd Hx Hy E. induction l as [|z l IH]; [by apply not_elem_of_nil in Hx|].
  rewrite fmap_cons in Hnd. apply NoDup_cons in Hnd as [Hz Hnd].
  apply elem_of_cons in Hx as [->|Hx], Hy as [->|Hy]; try done; [| |by apply IH].
  - destruct Hz. rewrite <-E. by apply list_elem_of_fmap_2.
  - destruct Hz. rewrite E. by apply list_elem_of_fmap_2.
Qed.

Lemma is_nil_spec {A} (l : list A) : is_nil l = true ↔ ∀ x, x ∉ l.
Proof.
  destruct l; simpl; split; try done; [by intros _ ? ?%not_elem_of_nil|].
  intros H. by destruct (H a); left.
Qed.

(** Every list of the diff is a sorted scan of a map. *)
Lemma sorted_keys_nil {A} (m : gmap string A) (p : string → bool) :
  is_nil (sort_by String.compare (List.filter (λ k, negb (p k)) (map_to_list m).*1)) = true ↔
  ∀ k, is_Some (m !! k) → p k = true.
Proof.
  rewrite is_nil_spec. setoid_rewrite elem_of_sort_by. split.
  - intros H k [x Hx]. destruct (p k) eqn:E; [done|]. destruct (H k).
    apply list_elem_of_In, filter_In. rewrite E. split; [|done]. apply list_elem_of_In.
    apply list_elem_of_fmap. exists (k, x). split; [done|]. by apply elem_of_map_to_list.
  - intros H k Hin. apply list_elem_of_In, filter_In in Hin as [Hin Hp].
    apply list_elem_of_In, list_elem_of_fmap in Hin as ([k' x] & -> & Hx%elem_of_map_to_list).
    simpl in *. rewrite H in Hp; by eauto.
Qed.

Lemma sorted_scan_nil {A B} (m : gmap string A) (f : string * A → option (string * B * B)) :
  is_nil (sort_keys (omap f (map_to_list m))) = true ↔
  ∀ k x, m !! k = Some x → f (k, x) = None.
Proof.
  rewrite is_nil_spec. unfold sort_keys. setoid_rewrite elem_of_sort_by. split.
  - intros H k x Hx. destruct (f (k, x)) as [y|] eqn:E; [|done]. destruct (H y).
    apply list_elem_of_omap. exists (k, x). by rewrite elem_of_map_to_list.
  - intros H y Hy. apply list_elem_of_omap in Hy as ([k x] & Hx%elem_of_map_to_list & E).
    by rewrite H in E.
Qed.

(** A revision that keeps the approved envelope: the same steps with the same
    owners and agents, every validation kept at least as strict, and no
    broader capability envelope.  An entry stands for its identifier when it
    is the last one listed with it. *)
Definition same_envelope (parent child : PlanFrame) : Prop :=
  let psteps := hash_map step_id (steps parent) in
  let csteps := hash_map step_id (steps child) in
  let pvals := hash_map validation_id (validation_policy parent) in
  let cvals := hash_map validation_id (validation_policy child) in
  (∀ id, id ∈ (step_id <$> steps parent) ↔ id ∈ (step_id <$> steps child)) ∧
  (∀ id p c, psteps !! id = Some p → csteps !! id = Some c →
     owner p = owner c ∧ agent_id p = agent_id c) ∧
  (∀ id p, pvals !! id = Some p → ∃ c, cvals !! id = Some c ∧
     (requirement_rank (requirement p) ≤ requirement_rank (requirement c))%Z) ∧
  (∀ t c, declared_kind (capability_envelope child) t = Some c →
     ∃ p, declared_kind (capability_envelope parent) t = Some p ∧
       capability_broadening t p c = None).

Lemma bind_decision_none {A B C} `{EqDecision B} (o : option A) (f : A → B) (b : B) (y : A → C) :
  (c ← o; if bool_decide (b = f c) then None else Some (y c)) = None ↔
  ∀ c, o = Some c → b = f c.
Proof.
  destruct o as [c|]; simpl; [|naive_solver]. case_bool_decide; naive_solver.
Qed.

Lemma requires_regate_false parent child :
  requires_regate (plan_envelope_diff parent child) = false ↔ same_envelope parent child.
Proof.
  unfold requires_regate, same_envelope. rewrite !orb_false_iff, !negb_false_iff. cbn -[sort_keys].
  rewrite !sorted_keys_nil, !sorted_scan_nil, no_broadening_spec.
  setoid_rewrite bool_decide_eq_true. setoid_rewrite bind_decision_none.
  setoid_rewrite hash_map_is_some. split.
  - intros ((((((Ha & Hr) & Ho) & Hg) & Hvr) & Hvw) & Hc). split_and!; [naive_solver| | |done].
    + intros id p c Hp Hcs. split; [by eapply Ho|by eapply Hg].
    + intros id p Hp. assert (id ∈ validation_id <$> validation_policy child) as Hin.
      { apply Hvr, hash_map_is_some. by rewrite Hp. }
      apply hash_map_is_some in Hin as [c Hcv]. exists c. split; [done|].
      specialize (Hvw id p Hp). rewrite Hcv in Hvw. simpl in Hvw. unfold is_weaker in Hvw.
      destruct (Z.ltb_spec (requirement_rank (requirement c)) (requirement_rank (requirement p)));
        [done|lia].
  - intros (Hs & Hoa & Hv & Hc). split_and!; try done.
    + intros id. by apply Hs.
    + intros id. by apply Hs.
    + intros id p Hp c Hcs. by destruct (Hoa id p c Hp Hcs).
    + intros id p Hp c Hcs. by destruct (Hoa id p c Hp Hcs).
    + intros id [p Hp]%hash_map_is_some. destruct (Hv id p Hp) as (c & Hcv & _).
      apply hash_map_is_some. by rewrite Hcv.
    + intros id p Hp. destruct (Hv id p Hp) as (c & Hcv & Hle). rewrite Hcv. simpl.
      unfold is_weaker. destruct (Z.ltb_spec (requirement_rank (requirement c))
        (requirement_rank (requirement p))); [lia|done].
Qed.

(** An amendment keeps the operator's approval exactly when it keeps the
    approved envelope: titles, objective, notes, progress, dependencies and
    required capabilities are free, everything else asks again. *)
Theorem regate_spec parent child :
  is_cosmetic_only (plan_envelope_diff parent child) = true ↔ same_envelope parent child.
Proof. unfold is_cosmetic_only. rewrite negb_true_iff. apply requires_regate_false. Qed.
