(* ===== verification/PlanTools.v ===== *)
(** * Plan frames in the store: propose, decide, amend

    The plan table of scheduler/gateway_store/plan_frames.rs, the
    [planframe_propose], [planframe_approve] and [planframe_amend] tools of
    runtime/tools/plan_frame.rs, the effects of a decision on a plan
    ([apply_decision] of scheduler/approval.rs), the spawn check of router.rs
    and the stuck-plan predicate of scheduler/plan_watchdog.rs.

    The state is the plan table, the approval rows of plans, the active plan
    of each workflow, and the envelope and grant tables ([SessionEnvelope.v]).
    Arguments stand for what comes from elsewhere: the parsed tool input, fresh
    identifiers, the clock, the verdict of the gate service on a new revision
    ([gate]), whether the decider passed the checks on deciders ([decider_ok]),
    the hosts observed in the session, and the hosts declared by the promoted
    revision of an agent ([agent_hosts]).  The workflow events, the timeline
    and the advisory preflight are left out. *)

From Stdlib Require Import Ascii String ZArith Lia.
From stdpp Require Import prelude gmap strings list sorting relations.
From S2P Require Import Prelude RustStr Capability Grants SessionEnvelope PlanFrame.

Open Scope string_scope.
Open Scope nat_scope.
Open Scope list_scope.

(** ** State *)

Inductive ApprovalStatus : Type :=
| GatePending | GateApproved | GateRejected | GateCancelled | GateStale.

#[export] Instance approval_status_eq_dec : EqDecision ApprovalStatus.
Proof. solve_decision. Defined.

(** The approval row of a plan revision: its [ScheduledAction::PlanFrame], the
    root session and the decision. *)
Record PlanApproval := {
  apr_plan_id : string;
  apr_version : Z;
  apr_envelope : list Capability;
  apr_root : option string;
  apr_status : ApprovalStatus;
  apr_decided_by : option string;
}.

Record PlanDb := {
  plan_frames : list PlanFrame;
  approvals : gmap string PlanApproval;
  active_plan_ref : gmap string PlanRef;
  env_store : EnvelopeStore;
}.

Definition with_frames (db : PlanDb) (rows : list PlanFrame) : PlanDb :=
  {| plan_frames := rows; approvals := approvals db;
     active_plan_ref := active_plan_ref db; env_store := env_store db |}.

Definition with_approvals (db : PlanDb) (m : gmap string PlanApproval) : PlanDb :=
  {| plan_frames := plan_frames db; approvals := m;
     active_plan_ref := active_plan_ref db; env_store := env_store db |}.

Definition with_refs (db : PlanDb) (m : gmap string PlanRef) : PlanDb :=
  {| plan_frames := plan_frames db; approvals := approvals db;
     active_plan_ref := m; env_store := env_store db |}.

Definition with_env (db : PlanDb) (st : EnvelopeStore) : PlanDb :=
  {| plan_frames := plan_frames db; approvals := approvals db;
     active_plan_ref := active_plan_ref db; env_store := st |}.

(** ** The plan table (plan_frames.rs) *)

Definition plan_key (p : PlanFrame) : string * Z := (plan_id p, version p).

(** [INSERT] with [PRIMARY KEY (plan_id, version)]: a key that is there is an
    error and changes nothing. *)
Definition save_plan_frame (db : PlanDb) (plan : PlanFrame) : option PlanDb :=
  if existsb (λ p, bool_decide (plan_key p = plan_key plan)) (plan_frames db) then None
  else Some (with_frames db (plan_frames db ++ [plan])).

Definition set_status (p : PlanFrame) (status : PlanStatus) (by_ at_ : option string)
    : PlanFrame :=
  {| plan_id := plan_id p; version := version p; parent_version := parent_version p;
     workflow_id := workflow_id p; root_session_id := root_session_id p;
     plan_title := plan_title p; objective := objective p; plan_status := status;
     steps := steps p; validation_policy := validation_policy p;
     capability_envelope := capability_envelope p; approved_by := by_; approved_at := at_;
     created_by_agent_id := created_by_agent_id p; reason := reason p;
     created_at := created_at p; expires_at := expires_at p |}.

Definition update_plan_frame_status (db : PlanDb) (id : string) (v : Z) (status : PlanStatus)
    (by_ at_ : option string) : PlanDb :=
  with_frames db (map (λ p, if bool_decide (plan_key p = (id, v))
                            then set_status p status by_ at_ else p) (plan_frames db)).

(** The row of a list with the highest version. *)
Definition latest (rows : list PlanFrame) : option PlanFrame :=
  fold_left (λ acc p,
    match acc with
    | Some q => if (version q <? version p)%Z then Some p else acc
    | None => Some p
    end) rows None.

Definition load_plan_frame (db : PlanDb) (id : string) : option PlanFrame :=
  latest (List.filter (λ p, (plan_id p =? id)%string) (plan_frames db)).

Definition load_plan_frame_revision (db : PlanDb) (id : string) (v : Z) : option PlanFrame :=
  List.find (λ p, bool_decide (plan_key p = (id, v))) (plan_frames db).

Definition load_active_plan_for_workflow (db : PlanDb) (wf : string) : option PlanFrame :=
  latest (List.filter (λ p, (workflow_id p =? wf)%string
    && (bool_decide (plan_status p = AwaitingApproval) || bool_decide (plan_status p = Approved)))
    (plan_frames db)).

(** No row of the same plan that satisfies [among] has a higher version. *)
Definition is_max_version (rows : list PlanFrame) (among : PlanFrame → bool) (p : PlanFrame)
    : bool :=
  forallb (λ q, negb ((plan_id q =? plan_id p)%string && among q) || (version q <=? version p)%Z)
    rows.

Definition created_asc (rows : list PlanFrame) : list PlanFrame :=
  sort_by (λ a b, String.compare (created_at a) (created_at b)) rows.

Definition created_desc (rows : list PlanFrame) : list PlanFrame :=
  sort_by (λ a b, String.compare (created_at b) (created_at a)) rows.

Definition is_status (s : PlanStatus) (p : PlanFrame) : bool := bool_decide (plan_status p = s).

Definition list_plan_frames_for_workflow (db : PlanDb) (wf : string) : list PlanFrame :=
  created_desc (List.filter (λ p, (workflow_id p =? wf)%string
    && is_max_version (plan_frames db) (λ _, true) p) (plan_frames db)).

Definition list_approved_plan_frames (db : PlanDb) : list PlanFrame :=
  created_desc (List.filter (λ p, is_status Approved p
    && is_max_version (plan_frames db) (is_status Approved) p) (plan_frames db)).

Definition list_pending_plan_frames_for_root (db : PlanDb) (root : string) : list PlanFrame :=
  created_asc (List.filter (λ p, (root_session_id p =? root)%string
    && is_status AwaitingApproval p && is_max_version (plan_frames db) (λ _, true) p)
    (plan_frames db)).

Definition get_stale_plan_frames_for_root (db : PlanDb) (root : string) : list PlanFrame :=
  created_asc (List.filter (λ p, (root_session_id p =? root)%string
    && is_status Stale p && is_max_version (plan_frames db) (λ _, true) p) (plan_frames db)).

Definition list_latest_plan_frames_for_root (db : PlanDb) (root : string) : list PlanFrame :=
  created_desc (List.filter (λ p, (root_session_id p =? root)%string
    && is_status Approved p && is_max_version (plan_frames db) (is_status Approved) p)
    (plan_frames db)).

Definition list_plan_revisions (db : PlanDb) (id : string) : list PlanFrame :=
  sort_by (λ a b, Z.compare (version a) (version b))
    (List.filter (λ p, (plan_id p =? id)%string) (plan_frames db)).

Definition plan_timed_out (now : string) (p : PlanFrame) : bool :=
  is_status AwaitingApproval p
  && match expires_at p with
     | Some e => match String.compare e now with Lt => true | _ => false end
     | None => false
     end.

(** Only the status changes: the approval columns stay. *)
Definition expire_timed_out_plan_frames (db : PlanDb) (now : string)
    : PlanDb * list (string * Z) :=
  (with_frames db (map (λ p, if plan_timed_out now p
     then set_status p Stale (approved_by p) (approved_at p) else p) (plan_frames db)),
   plan_key <$> List.filter (plan_timed_out now) (plan_frames db)).

Definition parse_plan_status (s : string) : PlanStatus :=
  if (s =? "awaiting_approval")%string then AwaitingApproval
  else if (s =? "approved")%string then Approved
  else if (s =? "completed")%string then PlanCompleted
  else if (s =? "cancelled")%string then Cancelled
  else if (s =? "stale")%string then Stale
  else AwaitingApproval.

(** ** Approval rows *)

Definition plan_approval_request_id (id : string) (v : Z) : string :=
  ("apr-plan-" ++ id ++ "-v" ++ show_Z v)%string.

Definition set_gate (a : PlanApproval) (s : ApprovalStatus) (by_ : string) : PlanApproval :=
  {| apr_plan_id := apr_plan_id a; apr_version := apr_version a;
     apr_envelope := apr_envelope a; apr_root := apr_root a; apr_status := s;
     apr_decided_by := Some by_ |}.

(** [cancel_approval]: only a pending row. *)
Definition cancel_approval (db : PlanDb) (request_id by_ : string) : option PlanDb :=
  a ← approvals db !! request_id;
  if bool_decide (apr_status a = GatePending)
  then Some (with_approvals db (<[request_id := set_gate a GateCancelled by_]> (approvals db)))
  else None.

(** [record_decision]: only a pending or stale row. *)
Definition record_decision (db : PlanDb) (request_id : string) (s : ApprovalStatus) (by_ : string)
    : option PlanDb :=
  a ← approvals db !! request_id;
  if bool_decide (apr_status a = GatePending) || bool_decide (apr_status a = GateStale)
  then Some (with_approvals db (<[request_id := set_gate a s by_]> (approvals db)))
  else None.

(** The row of an expired request in [flag_expired_standalone_approvals]: it
    stays decidable. *)
Definition flag_stale_approval (db : PlanDb) (request_id : string) : PlanDb :=
  match approvals db !! request_id with
  | Some a =>
      if bool_decide (apr_status a = GatePending)
      then with_approvals db (<[request_id :=
             {| apr_plan_id := apr_plan_id a; apr_version := apr_version a;
                apr_envelope := apr_envelope a; apr_root := apr_root a;
                apr_status := GateStale; apr_decided_by := apr_decided_by a |}]> (approvals db))
      else db
  | None => db
  end.

(** The verdict of the gate service on a new revision. *)
Inductive PlanGateOutcome : Type := OutcomePending | OutcomeApproved | OutcomeError.

(** A pending verdict leaves a pending row under the revision's request id. *)
Definition create_plan_approval_request (db : PlanDb) (plan : PlanFrame) (gate : PlanGateOutcome)
    : PlanDb :=
  match gate with
  | OutcomePending =>
      let request_id := plan_approval_request_id (plan_id plan) (version plan) in
      match approvals db !! request_id with
      | Some _ => db
      | None => with_approvals db (<[request_id :=
          {| apr_plan_id := plan_id plan; apr_version := version plan;
             apr_envelope := capability_envelope plan; apr_root := Some (root_session_id plan);
             apr_status := GatePending; apr_decided_by := None |}]> (approvals db))
      end
  | _ => db
  end.

(** The verdict applied: a gate that cleared at once saves the revision again
    as approved, and ignores the failure of that save. *)
Definition gate_revision (db : PlanDb) (plan : PlanFrame) (gate : PlanGateOutcome) (now : string)
    : PlanDb :=
  let db := create_plan_approval_request db plan gate in
  match gate with
  | OutcomeApproved =>
      default db (save_plan_frame db (set_status plan Approved (Some "gate_service") (Some now)))
  | _ => db
  end.

(** ** Tool input *)

Record StepInput := {
  si_step_id : string;
  si_title : option string;
  si_owner : option string;
  si_agent_id : option string;
  si_depends_on : option (list string);
  si_notes : option string;
  si_required_capabilities : option (list string);
  si_step_status : option string;
}.

Record ValidationInput := {
  vi_validation_id : string;
  vi_title : string;
  vi_class : option string;
  vi_requirement : option string;
}.

Record StepUpdateInput := {
  su_step_id : string;
  su_title : option string;
  su_notes : option string;
  su_step_status : option string;
}.

Definition opt_is (o : option string) (s : string) : bool :=
  match o with Some t => (t =? s)%string | None => false end.

Definition propose_step (s : StepInput) : PlanStep :=
  {| step_id := si_step_id s;
     title := default "" (si_title s);
     owner := if opt_is (si_owner s) "agent" then Agent
              else if opt_is (si_owner s) "operator" then Operator
              else if opt_is (si_owner s) "shared" then Shared
              else Planner;
     depends_on := default [] (si_depends_on s);
     agent_id := si_agent_id s;
     notes := si_notes s;
     status := Pending;
     required_capabilities := default [] (si_required_capabilities s) |}.

Definition validation_entry (v : ValidationInput) : ValidationEntry :=
  {| validation_id := vi_validation_id v;
     validation_title := vi_title v;
     class := if opt_is (vi_class v) "security_review" then SecurityReview
              else if opt_is (vi_class v) "correctness_check" then CorrectnessCheck
              else if opt_is (vi_class v) "quality_check" then QualityCheck
              else if opt_is (vi_class v) "packaging_check" then PackagingCheck
              else MechanicalSafety;
     requirement := if opt_is (vi_requirement v) "advisory" then Advisory
                    else if opt_is (vi_requirement v) "waived" then Waived
                    else Required |}.

Definition VALID_STATUSES : list string :=
  ["pending"; "in_progress"; "completed"; "failed"; "skipped"].

Definition valid_status_input (o : option string) : bool :=
  match o with Some s => existsb (String.eqb s) VALID_STATUSES | None => true end.

Definition parse_step_status (s : string) : StepStatus :=
  if (s =? "in_progress")%string then InProgress
  else if (s =? "completed")%string then Completed
  else if (s =? "failed")%string then Failed
  else if (s =? "skipped")%string then Skipped
  else Pending.

(** A step of [steps], filled from the step of that name in the current plan. *)
Definition amend_step (previous : gmap string PlanStep) (s : StepInput) : PlanStep :=
  let prev := previous !! si_step_id s in
  {| step_id := si_step_id s;
     title := default (default (si_step_id s) (title <$> prev)) (si_title s);
     owner := if opt_is (si_owner s) "agent" then Agent
              else if opt_is (si_owner s) "operator" then Operator
              else if opt_is (si_owner s) "shared" then Shared
              else if opt_is (si_owner s) "planner" then Planner
              else default Agent (owner <$> prev);
     depends_on := match si_depends_on s with
                   | Some (_ :: _ as d) => d
                   | _ => default [] (depends_on <$> prev)
                   end;
     agent_id := match si_agent_id s with
                 | Some id => if str_is_empty (trim id) then prev ≫= agent_id else Some id
                 | None => prev ≫= agent_id
                 end;
     notes := match si_notes s with Some n => Some n | None => prev ≫= notes end;
     status := match si_step_status s with
               | Some ss => if existsb (String.eqb ss) VALID_STATUSES then parse_step_status ss
                            else default Pending (status <$> prev)
               | None => default Pending (status <$> prev)
               end;
     required_capabilities :=
       default (default [] (required_capabilities <$> prev)) (si_required_capabilities s) |}.

(** A step of the current plan with its progress update. *)
Definition update_step (updates : gmap string StepUpdateInput) (prev : PlanStep) : PlanStep :=
  let u := updates !! step_id prev in
  {| step_id := step_id prev;
     title := default (title prev) (u ≫= su_title);
     owner := owner prev;
     depends_on := depends_on prev;
     agent_id := agent_id prev;
     notes := match u ≫= su_notes with Some n => Some n | None => notes prev end;
     status := default (status prev) (parse_step_status <$> (u ≫= su_step_status));
     required_capabilities := required_capabilities prev |}.

Definition apply_step_updates (updates : list StepUpdateInput) (current : list PlanStep)
    : list PlanStep :=
  map (update_step (hash_map su_step_id updates)) current.

Inductive PlanToolError : Type :=
| InvalidStepDependencies (message : string)
| PlanNotFound
| PlanWrongStatus (status : PlanStatus)
| ConflictingStepInputs
| InvalidStepStatus
| PlanAmendIdentical
| PlanApprovalFailed
| InvalidEnvelope (message : string)
| SaveFailed.


(** ** Deciding a revision (scheduler/approval.rs) *)

(** What a tool call reads from outside the tables. *)
Record PlanWorld := {
  now_rfc3339 : string;
  after_secs : Z → string;
  db_ok : bool;
  decider_ok : bool;
  discovered : string → list string;
  agent_hosts : string → option (list string);
}.

Definition propose_plan_envelope_on_approval (w : PlanWorld) (st : EnvelopeStore)
    (plan : PlanFrame) (approver : string) : EnvelopeStore * option EnvelopeProposalResult :=
  let source := ("plan:" ++ plan_id plan)%string in
  let root := root_session_id plan in
  match capability_envelope plan with
  | [] => propose_discovered_envelope (db_ok w) st root source (Some (plan_id plan)) approver
            (now_rfc3339 w) (discovered w root)
  | caps => propose_envelope_from_capabilities (db_ok w) st root caps source
              (Some (plan_id plan)) approver (now_rfc3339 w) (discovered w root)
  end.

(** The effects of a decision on the plan it names. *)
Definition apply_plan_decision (w : PlanWorld) (db : PlanDb) (request_id : string)
    (a : PlanApproval) (approved : bool) (decided_by : string) : PlanDb :=
  let db := update_plan_frame_status db (apr_plan_id a) (apr_version a)
              (if approved then Approved else Cancelled)
              (Some decided_by) (Some (now_rfc3339 w)) in
  if negb approved then db
  else match apr_root a with
       | None => db
       | Some root =>
           let st := (materialize_envelope (db_ok w) (env_store db) root (apr_envelope a)
                        decided_by request_id (now_rfc3339 w)).1 in
           let db := with_env db st in
           match load_plan_frame_revision db (apr_plan_id a) (apr_version a) with
           | Some plan =>
               with_env db (propose_plan_envelope_on_approval w (env_store db) plan decided_by).1
           | None => db
           end
       end.

(** The decision is refused when the row is missing or decided, or the decider
    fails the checks; then nothing changes. *)
Definition decide_plan (w : PlanWorld) (db : PlanDb) (request_id : string) (approved : bool)
    (decided_by : string) : option PlanDb :=
  a ← approvals db !! request_id;
  if bool_decide (apr_status a = GatePending) || bool_decide (apr_status a = GateStale) then
    if decider_ok w then
      db ← record_decision db request_id (if approved then GateApproved else GateRejected)
             decided_by;
      Some (apply_plan_decision w db request_id a approved decided_by)
    else None
  else None.

(** The hosts a plan's envelope declares, else those of its steps' agents, as
    a grant to the agent that wrote the plan. *)
Definition materialize_plan_grants (w : PlanWorld) (st : EnvelopeStore) (plan : PlanFrame)
    (approver : string) : EnvelopeStore * nat :=
  let grant hosts := materialize_network_grant (db_ok w) st (root_session_id plan) hosts approver
                       (plan_id plan) (now_rfc3339 w) (Some (created_by_agent_id plan)) in
  match concrete_hosts (capability_envelope plan ≫= network_hosts) with
  | [] =>
      let hosts := steps plan ≫= (λ s,
        let raw := trim (default "" (agent_id s)) in
        if str_is_empty raw then [] else default [] (agent_hosts w raw)) in
      match List.filter (λ h, negb (h =? "*")%string) hosts with
      | [] => (st, 0)
      | hosts => grant hosts
      end
  | declared => grant declared
  end.

(** ** The tools (runtime/tools/plan_frame.rs) *)

Definition root_of (session_id : string) : string :=
  default session_id (head (split (Ascii.eqb "/"%char) session_id)).

Record PlanConfig := {
  plan_auto_approve : bool;
  plan_auto_approver : string;
  plan_frame_timeout_secs : Z;
}.

Definition expiry (cfg : PlanConfig) (w : PlanWorld) : option string :=
  if (plan_frame_timeout_secs cfg =? 0)%Z then None
  else Some (after_secs w (plan_frame_timeout_secs cfg)).

(** The envelope is given as the outcome of reading its items. *)
Record ProposeArgs := {
  pa_title : string;
  pa_objective : string;
  pa_steps : option (list StepInput);
  pa_validation_policy : option (option (list ValidationInput));
  pa_capability_envelope : result (list Capability) string;
}.

Record ProposeOk := {
  po_plan_id : string;
  po_status : string;
  po_auto_approved : bool;
}.

Definition policy_of (entries : option (list ValidationInput)) : ValidationPolicy :=
  map validation_entry (default [] entries).

(** The dependency check of a step list; it always returns
    ([validate_step_dag_spec]). *)
Definition check_dag (steps : list PlanStep) : option PlanToolError :=
  match validate_step_dag steps with
  | Some (Ok _) => None
  | Some (Err e) => Some (InvalidStepDependencies e)
  | None => Some (InvalidStepDependencies "")
  end.

(** [approve_request] and the plan's own grants after it. *)
Definition approve_and_grant (w : PlanWorld) (db : PlanDb) (plan : PlanFrame) (approver : string)
    : option (PlanDb * nat) :=
  db ← decide_plan w db (plan_approval_request_id (plan_id plan) (version plan)) true approver;
  let '(st, n) := materialize_plan_grants w (env_store db) plan approver in
  Some (with_env db st, n).

(** [planframe_propose], with the identifiers [new_plan_id] and the workflow of
    the root session. *)
Definition propose (cfg : PlanConfig) (w : PlanWorld) (gate : PlanGateOutcome) (db : PlanDb)
    (author session_id new_plan_id wf : string) (args : ProposeArgs)
    : PlanDb * result ProposeOk PlanToolError :=
  let steps := map propose_step (default [] (pa_steps args)) in
  match pa_capability_envelope args with
  | Err e => (db, Err (InvalidEnvelope e))
  | Ok envelope =>
      match check_dag steps with
      | Some e => (db, Err e)
      | None =>
          let plan := {|
            plan_id := new_plan_id; version := 1; parent_version := None; workflow_id := wf;
            root_session_id := root_of session_id; plan_title := pa_title args;
            objective := pa_objective args; plan_status := AwaitingApproval; steps := steps;
            validation_policy := default [] (policy_of <$> pa_validation_policy args);
            capability_envelope := envelope; approved_by := None; approved_at := None;
            created_by_agent_id := author; reason := None; created_at := now_rfc3339 w;
            expires_at := expiry cfg w |} in
          match save_plan_frame db plan with
          | None => (db, Err SaveFailed)
          | Some db =>
              let db := gate_revision db plan gate (now_rfc3339 w) in
              let db := with_refs db (<[wf := {| ref_plan_id := new_plan_id; ref_version := 1 |}]>
                                        (active_plan_ref db)) in
              match (if plan_auto_approve cfg
                     then approve_and_grant w db plan (plan_auto_approver cfg) else None) with
              | Some (db, _) => (db, Ok {| po_plan_id := new_plan_id; po_status := "approved";
                                           po_auto_approved := true |})
              | None => (db, Ok {| po_plan_id := new_plan_id; po_status := "awaiting_approval";
                                   po_auto_approved := false |})
              end
          end
      end
  end.

(** [planframe_approve]: the number of grants. *)
Definition approve (w : PlanWorld) (db : PlanDb) (caller id : string) (approver : option string)
    : PlanDb * result nat PlanToolError :=
  match load_plan_frame db id with
  | None => (db, Err PlanNotFound)
  | Some plan =>
      if negb (bool_decide (plan_status plan = AwaitingApproval))
      then (db, Err (PlanWrongStatus (plan_status plan)))
      else match approve_and_grant w db plan (default caller approver) with
           | None => (db, Err PlanApprovalFailed)
           | Some (db, n) => (db, Ok n)
           end
  end.

(** The gate of a still pending revision is closed and the revision cancelled;
    a gate that was decided meanwhile is left alone. *)
Definition supersede_pending_plan_revision (db : PlanDb) (id : string) (old_version : Z)
    (actor now : string) : PlanDb :=
  match cancel_approval db (plan_approval_request_id id old_version) actor with
  | None => db
  | Some db => update_plan_frame_status db id old_version Cancelled (Some actor) (Some now)
  end.

Record AmendArgs := {
  aa_plan_id : string;
  aa_title : option string;
  aa_objective : option string;
  aa_steps : option (list StepInput);
  aa_step_updates : option (list StepUpdateInput);
  aa_validation_policy : option (option (list ValidationInput));
  aa_capability_envelope : option (result (list Capability) string);
  aa_reason : option string;
}.

Record AmendOk := {
  ao_version : Z;
  ao_inherited : bool;
  ao_requires_regate : bool;
  ao_grants_revoked : nat;
  ao_progress_recorded : bool;
}.

(** The steps of the amended revision. *)
Definition amended_steps (current : PlanFrame) (args : AmendArgs)
    : result (list PlanStep) PlanToolError :=
  match aa_steps args, aa_step_updates args with
  | Some l, _ =>
      if forallb (λ s, valid_status_input (si_step_status s)) l
      then Ok (map (amend_step (hash_map step_id (steps current))) l)
      else Err InvalidStepStatus
  | None, Some updates =>
      if forallb (λ u, valid_status_input (su_step_status u)) updates
      then Ok (apply_step_updates updates (steps current))
      else Err InvalidStepStatus
  | None, None => Ok (steps current)
  end.

Definition step_status_changed (current : PlanFrame) (new : list PlanStep) : bool :=
  let prev_status := hash_map step_id (steps current) in
  existsb (λ s, match prev_status !! step_id s with
                | Some p => negb (bool_decide (status p = status s))
                | None => false
                end) new.

(** The current plan with the fields an amendment may change. *)
Definition with_content (p : PlanFrame) (new_title new_objective : string)
    (new_steps : list PlanStep) (policy : ValidationPolicy) (envelope : list Capability)
    : PlanFrame :=
  {| plan_id := plan_id p; version := version p; parent_version := parent_version p;
     workflow_id := workflow_id p; root_session_id := root_session_id p;
     plan_title := new_title; objective := new_objective; plan_status := plan_status p;
     steps := new_steps; validation_policy := policy; capability_envelope := envelope;
     approved_by := approved_by p; approved_at := approved_at p;
     created_by_agent_id := created_by_agent_id p; reason := reason p;
     created_at := created_at p; expires_at := expires_at p |}.

(** The amended content, or the reason it is refused. *)
Definition amended_content (current : PlanFrame) (args : AmendArgs)
    : result PlanFrame PlanToolError :=
  match amended_steps current args with
  | Err e => Err e
  | Ok new_steps =>
      match check_dag new_steps with
      | Some e => Err e
      | None =>
          let policy := match aa_validation_policy args with
                        | Some entries => policy_of entries
                        | None => validation_policy current
                        end in
          match default (Ok (capability_envelope current)) (aa_capability_envelope args) with
          | Err e => Err (InvalidEnvelope e)
          | Ok envelope =>
              let new_title := default (plan_title current) (aa_title args) in
              let new_objective := default (objective current) (aa_objective args) in
              if bool_decide (new_steps = steps current)
                 && (new_title =? plan_title current)%string
                 && (new_objective =? objective current)%string
                 && bool_decide (policy = validation_policy current)
                 && bool_decide (envelope = capability_envelope current)
              then Err PlanAmendIdentical
              else Ok (with_content current new_title new_objective new_steps policy envelope)
          end
      end
  end.

(** The new revision: [u32] addition wraps. *)
Definition amended_revision (cfg : PlanConfig) (w : PlanWorld) (author : string)
    (current content : PlanFrame) (inherit : bool) (why : option string) : PlanFrame :=
  {| plan_id := plan_id current; version := ((version current + 1) mod 2 ^ 32)%Z;
     parent_version := Some (version current); workflow_id := workflow_id current;
     root_session_id := root_session_id current; plan_title := plan_title content;
     objective := objective content;
     plan_status := if inherit then Approved else AwaitingApproval;
     steps := steps content; validation_policy := validation_policy content;
     capability_envelope := capability_envelope content;
     approved_by := if inherit then approved_by current else None;
     approved_at := if inherit then Some (now_rfc3339 w) else None;
     created_by_agent_id := author; reason := why; created_at := now_rfc3339 w;
     expires_at := expiry cfg w |}.

(** The gate of a revision that does not inherit the approval. *)
Definition regate (w : PlanWorld) (gate : PlanGateOutcome) (db : PlanDb) (author : string)
    (current new_revision : PlanFrame) : PlanDb :=
  let db := if bool_decide (plan_status current = AwaitingApproval)
            then supersede_pending_plan_revision db (plan_id current) (version current) author
                   (now_rfc3339 w)
            else db in
  gate_revision db new_revision gate (now_rfc3339 w).

(** The grants of an approved plan whose envelope an amendment changes. *)
Definition withdraw_plan_grants (w : PlanWorld) (db : PlanDb) (current : PlanFrame)
    (expanded : bool) : PlanDb * nat :=
  if bool_decide (plan_status current = Approved) && expanded then
    let '(t, n) := revoke_session_grants_by_source (grants (env_store db))
      (root_session_id current) (plan_id current) (now_rfc3339 w)
      "plan-amended (envelope expanded)" in
    (with_env db (with_grants (env_store db) t), n)
  else (db, 0).

(** The approval carries over when the current revision has it and the
    amendment keeps the envelope. *)
Definition inherits (current content : PlanFrame) : bool :=
  bool_decide (plan_status current = Approved)
  && is_cosmetic_only (plan_envelope_diff current content).

(** Storing an accepted amendment. *)
Definition commit_amendment (cfg : PlanConfig) (w : PlanWorld) (gate : PlanGateOutcome)
    (db : PlanDb) (author : string) (workflow_exists : bool) (current content : PlanFrame)
    (why : option string) : PlanDb * result AmendOk PlanToolError :=
  let expanded := requires_regate (plan_envelope_diff current content) in
  let inherit := inherits current content in
  let new_revision := amended_revision cfg w author current content inherit why in
  match save_plan_frame db new_revision with
  | None => (db, Err SaveFailed)
  | Some db =>
      let db := if inherit then db else regate w gate db author current new_revision in
      let '(db, revoked) := withdraw_plan_grants w db current expanded in
      let db := if workflow_exists
        then with_refs db (<[workflow_id current :=
               {| ref_plan_id := plan_id current; ref_version := version new_revision |}]>
                 (active_plan_ref db))
        else db in
      (db, Ok {| ao_version := version new_revision; ao_inherited := inherit;
                 ao_requires_regate := expanded; ao_grants_revoked := revoked;
                 ao_progress_recorded :=
                   step_status_changed current (steps content) || expanded |})
  end.

(** [planframe_amend]; [workflow_exists]: the plan's workflow is found. *)
Definition amend (cfg : PlanConfig) (w : PlanWorld) (gate : PlanGateOutcome) (db : PlanDb)
    (author : string) (workflow_exists : bool) (args : AmendArgs)
    : PlanDb * result AmendOk PlanToolError :=
  if bool_decide (is_Some (aa_steps args)) && bool_decide (is_Some (aa_step_updates args))
  then (db, Err ConflictingStepInputs)
  else
    match load_plan_frame db (aa_plan_id args) with
    | None => (db, Err PlanNotFound)
    | Some current =>
        if bool_decide (plan_status current = PlanCompleted)
           || bool_decide (plan_status current = Cancelled)
        then (db, Err (PlanWrongStatus (plan_status current)))
        else match amended_content current args with
             | Err e => (db, Err e)
             | Ok content => commit_amendment cfg w gate db author workflow_exists current content
                               (aa_reason args)
             end
    end.

(** ** The spawn check and the stuck plan *)

Inductive SpawnBlock : Type :=
| UnknownStep (step plan : string) (v : Z)
| UnmetDependencies (step : string) (deps : list (string * StepStatus)).

(** [check_plan_step_dependencies] of router.rs, for the step named in the
    metadata of a spawn, if any: [None] lets the spawn through. *)
Definition check_plan_step_dependencies (db : PlanDb) (step : option string) (session_id : string)
    : option SpawnBlock :=
  step ← step;
  plan ← head (list_latest_plan_frames_for_root db (root_of session_id));
  if negb (existsb (λ s, (step_id s =? step)%string) (steps plan))
  then Some (UnknownStep step (plan_id plan) (version plan))
  else match unsatisfied_dependencies plan step with
       | [] => None
       | deps => Some (UnmetDependencies step deps)
       end.

(** [plan_incomplete_nudge] of scheduler/plan_watchdog.rs: the incomplete steps
    of an approved plan when its own session ends a turn with no child and no
    decision outstanding. *)
Definition plan_incomplete_nudge (db : PlanDb) (wf : option string) (session_id : string)
    (has_children has_pending : bool) : option (string * Z * list (string * string)) :=
  wf ← wf;
  plan ← load_active_plan_for_workflow db wf;
  if negb (bool_decide (plan_status plan = Approved)) then None
  else if negb (session_id =? root_session_id plan)%string then None
  else
    match map (λ s, (step_id s, title s)) (List.filter (λ s,
            (bool_decide (status s = Pending) || bool_decide (status s = InProgress))
            && negb (bool_decide (owner s = Operator))) (steps plan)) with
    | [] => None
    | incomplete =>
        if has_children then None
        else if has_pending then None
        else Some (plan_id plan, version plan, incomplete)
    end.

(** ** The store over time *)

(** Everything that changes the plan tables: the tools, the decisions of
    operators, the two sweeps, and the envelope and grant operations. *)
Inductive plan_transition (db : PlanDb) : PlanDb → Prop :=
| do_propose cfg w gate author session id wf args :
    plan_transition db (propose cfg w gate db author session id wf args).1
| do_approve w caller id approver :
    plan_transition db (approve w db caller id approver).1
| do_amend cfg w gate author exists_ args :
    plan_transition db (amend cfg w gate db author exists_ args).1
| do_decide w request_id approved by_ db' :
    decide_plan w db request_id approved by_ = Some db' → plan_transition db db'
| do_expire now : plan_transition db (expire_timed_out_plan_frames db now).1
| do_flag request_id : plan_transition db (flag_stale_approval db request_id)
| do_env st : plan_transition db (with_env db st).

Definition empty_plan_db : PlanDb :=
  {| plan_frames := []; approvals := ∅; active_plan_ref := ∅;
     env_store := {| env_rows := []; next_env_id := 1; grants := no_grants |} |}.

Definition plan_reachable : PlanDb → Prop := rtc plan_transition empty_plan_db.

(** A revision that goes back to one the gate approved: through amendments that
    each kept the envelope of the revision before. *)
Definition decided (db : PlanDb) (p : PlanFrame) : Prop :=
  ∃ q rid a, q ∈ plan_frames db ∧ plan_id q = plan_id p ∧
    approvals db !! rid = Some a ∧ apr_status a = GateApproved ∧
    (apr_plan_id a, apr_version a) = plan_key q ∧ apr_envelope a = capability_envelope q ∧
    rtc same_envelope q p.

Record plan_db_ok (db : PlanDb) : Prop := {
  ok_keys : NoDup (plan_key <$> plan_frames db);
  ok_dags : ∀ p, p ∈ plan_frames db → well_formed_steps (steps p);
  ok_gates : ∀ rid a, approvals db !! rid = Some a →
    ∃ q, q ∈ plan_frames db ∧ (apr_plan_id a, apr_version a) = plan_key q ∧
      apr_envelope a = capability_envelope q;
  ok_approved : ∀ p, p ∈ plan_frames db → plan_status p = Approved → decided db p;
}.

(** Rows keep their content: only the status columns change. *)
Definition status_map (f : PlanFrame → PlanFrame) : Prop :=
  ∀ p, ∃ s b a, f p = set_status p s b a.

Lemma set_status_self p : p = set_status p (plan_status p) (approved_by p) (approved_at p).
Proof. by destruct p. Qed.

Lemma status_map_envelope f q p :
  status_map f → rtc same_envelope q p → rtc same_envelope (f q) (f p).
Proof.
  intros Hf. apply rtc_congruence. intros x y Hxy.
  destruct (Hf x) as (? & ? & ? & ->), (Hf y) as (? & ? & ? & ->). exact Hxy.
Qed.

Lemma status_map_key f p : status_map f → plan_key (f p) = plan_key p.
Proof. intros Hf. by destruct (Hf p) as (? & ? & ? & ->). Qed.

Lemma status_map_steps f p : status_map f → steps (f p) = steps p.
Proof. intros Hf. by destruct (Hf p) as (? & ? & ? & ->). Qed.

Lemma status_map_caps f p : status_map f → capability_envelope (f p) = capability_envelope p.
Proof. intros Hf. by destruct (Hf p) as (? & ? & ? & ->). Qed.

Lemma status_map_if (c : PlanFrame → bool) s b a :
  status_map (λ p, if c p then set_status p (s p) (b p) (a p) else p).
Proof. intros p. destruct (c p); eauto using set_status_self. Qed.

(** Approval rows keep what they name, and an approved row is never touched. *)
Definition gates_kept (db db' : PlanDb) : Prop :=
  (∀ rid a', approvals db' !! rid = Some a' → ∃ a, approvals db !! rid = Some a ∧
     apr_plan_id a' = apr_plan_id a ∧ apr_version a' = apr_version a ∧
     apr_envelope a' = apr_envelope a) ∧
  (∀ rid a, approvals db !! rid = Some a → apr_status a = GateApproved →
     approvals db' !! rid = Some a).

Lemma gates_kept_same db db' : approvals db' = approvals db → gates_kept db db'.
Proof. unfold gates_kept. intros ->. naive_solver. Qed.

Lemma gates_kept_insert db rid a a' :
  approvals db !! rid = Some a → apr_status a ≠ GateApproved →
  apr_plan_id a' = apr_plan_id a → apr_version a' = apr_version a →
  apr_envelope a' = apr_envelope a →
  gates_kept db (with_approvals db (<[rid := a']> (approvals db))).
Proof.
  intros Ha Hs H1 H2 H3. split; intros rid' b; simpl.
  - intros [[<- <-]|[? ?]]%lookup_insert_Some; eauto 10.
  - intros Hb Hst. rewrite lookup_insert_ne; congruence.
Qed.

Lemma decided_map f db db' p :
  status_map f → plan_frames db' = map f (plan_frames db) → gates_kept db db' →
  decided db p → decided db' (f p).
Proof.
  intros Hf Hr [_ Hg] (q & rid & a & Hq & Hid & Ha & Hs & Hk & He & Hc).
  exists (f q), rid, a. rewrite status_map_key, status_map_caps, Hr by done.
  assert (plan_id (f q) = plan_id (f p)).
  { destruct (Hf q) as (? & ? & ? & ->), (Hf p) as (? & ? & ? & ->). exact Hid. }
  split_and!; eauto using status_map_envelope. by apply list_elem_of_fmap_2.
Qed.

Lemma plan_ok_map f db db' :
  status_map f → plan_frames db' = map f (plan_frames db) → gates_kept db db' →
  (∀ p, p ∈ plan_frames db → plan_status (f p) = Approved →
     plan_status p = Approved ∨ decided db' (f p)) →
  plan_db_ok db → plan_db_ok db'.
Proof.
  intros Hf Hr Hg Ha [Hk Hd Hgt Hap]. split; rewrite ?Hr.
  - rewrite <-list_fmap_compose.
    erewrite (list_fmap_ext _ plan_key); [done|]. intros ? p _. by apply status_map_key.
  - intros p (p0 & -> & Hp)%list_elem_of_fmap. rewrite status_map_steps by done. eauto.
  - intros rid a' H. apply Hg in H as (a & H & -> & -> & ->).
    apply Hgt in H as (q & Hq & Hk' & He). exists (f q).
    rewrite status_map_key, status_map_caps by done. split_and!; [by apply list_elem_of_fmap_2|done..].
  - intros p (p0 & -> & Hp)%list_elem_of_fmap Hst.
    destruct (Ha p0 Hp Hst) as [H|H]; [|done]. eauto using decided_map.
Qed.

(** Steps that keep the plan rows. *)
Lemma plan_ok_gates db db' :
  plan_frames db' = plan_frames db → gates_kept db db' → plan_db_ok db → plan_db_ok db'.
Proof.
  intros Hr Hg. apply (plan_ok_map id); [|by rewrite map_id|done|naive_solver].
  intros p. eauto using set_status_self.
Qed.

Lemma plan_ok_save db plan db' :
  save_plan_frame db plan = Some db' → well_formed_steps (steps plan) →
  (plan_status plan = Approved → decided db plan) → plan_db_ok db →
  plan_db_ok db' ∧ plan ∈ plan_frames db'.
Proof.
  unfold save_plan_frame. destruct (existsb _ _) eqn:E; [done|]. intros [= <-] Hw Hap [Hk Hd Hg Ha].
  assert (plan_key plan ∉ plan_key <$> plan_frames db) as Hnew.
  { intros (q & Hq & Hin)%list_elem_of_fmap. apply not_true_iff_false in E. apply E.
    apply existsb_exists. exists q. rewrite <-list_elem_of_In, bool_decide_eq_true. done. }
  assert (∀ p, decided db p →
    decided (with_frames db (plan_frames db ++ [plan])) p) as Hmono.
  { intros p (q & rid & a & Hq & H). exists q, rid, a. simpl.
    split; [by apply elem_of_app; left|done]. }
  split; [split; simpl|simpl; apply elem_of_app; right; by left].
  - rewrite fmap_app. apply NoDup_app. split_and!; [done| |apply NoDup_singleton].
    by intros x Hx ->%list_elem_of_singleton.
  - intros p [?| ->%list_elem_of_singleton]%elem_of_app; auto.
  - intros rid a H. destruct (Hg rid a H) as (q & ? & ?). exists q.
    split; [by apply elem_of_app; left|done].
  - intros p [?| ->%list_elem_of_singleton]%elem_of_app ?; auto.
Qed.

Lemma check_dag_none l : check_dag l = None → well_formed_steps l.
Proof.
  unfold check_dag. destruct (validate_step_dag_spec l) as (r & -> & Hr).
  destruct r; [|done]. intros _. by apply Hr.
Qed.

Lemma key_unique db p q :
  plan_db_ok db → p ∈ plan_frames db → q ∈ plan_frames db → plan_key p = plan_key q → p = q.
Proof. intros [Hk _ _ _]. exact (nodup_fmap_inj plan_key (plan_frames db) p q Hk). Qed.

Lemma plan_ok_update db id v s by_ at_ :
  (s = Approved → ∃ rid a, approvals db !! rid = Some a ∧ apr_status a = GateApproved ∧
     (apr_plan_id a, apr_version a) = (id, v)) →
  plan_db_ok db → plan_db_ok (update_plan_frame_status db id v s by_ at_).
Proof.
  intros Ha Hok.
  pose proof (status_map_if (λ p, bool_decide (plan_key p = (id, v)))
                (λ _, s) (λ _, by_) (λ _, at_)) as Hf.
  eapply (plan_ok_map _ db); [exact Hf|done|by apply gates_kept_same| |done].
  intros p Hp. cbn beta. case_bool_decide as Hk; [|by left].
  cbn [plan_status set_status]. intros Hs. right.
  destruct (Ha Hs) as (rid & a & Hrid & Hst & Hkey).
  destruct (ok_gates _ Hok rid a Hrid) as (q & Hq & Hqk & He).
  assert (q = p) as -> by (eapply key_unique; eauto; congruence).
  exists (set_status p s by_ at_), rid, a. split_and!; try done.
  unfold update_plan_frame_status. cbn [with_frames plan_frames].
  apply list_elem_of_fmap. exists p. rewrite bool_decide_true by done. done.
Qed.

Lemma save_existing db p : p ∈ plan_frames db → ∀ q, plan_key q = plan_key p →
  save_plan_frame db q = None.
Proof.
  intros Hp q Hk. unfold save_plan_frame.
  destruct (existsb _ _) eqn:E; [done|]. apply not_true_iff_false in E. exfalso. apply E.
  apply existsb_exists. exists p. by rewrite <-list_elem_of_In, bool_decide_eq_true.
Qed.

Lemma create_ok db plan gate :
  plan ∈ plan_frames db → plan_db_ok db → plan_db_ok (create_plan_approval_request db plan gate).
Proof.
  intros Hp Hok. destruct gate; simpl; try done.
  destruct (approvals db !! _) eqn:E; [done|]. destruct Hok as [Hk Hd Hg Ha].
  split; simpl; try done.
  - intros rid a [[<- <-]|[_ H]]%lookup_insert_Some; [|by apply (Hg rid)].
    exists plan. by split_and!.
  - intros p Hin Hst. destruct (Ha p Hin Hst) as (q & rid & a & Hq & Hid & Hl & H).
    exists q, rid, a. split_and!; try done. simpl. rewrite lookup_insert_ne; [done|congruence].
    all: naive_solver.
Qed.

Lemma create_frames db plan gate :
  plan_frames (create_plan_approval_request db plan gate) = plan_frames db.
Proof. destruct gate; simpl; try done. by destruct (approvals db !! _). Qed.

(** A gate that clears at once cannot store the approval: the revision is in
    the table already. *)
Lemma gate_revision_eq db plan gate now :
  plan ∈ plan_frames db →
  gate_revision db plan gate now = create_plan_approval_request db plan gate.
Proof.
  intros Hp. destruct gate; try done. simpl. by erewrite save_existing by done.
Qed.

Lemma plan_ok_with_env db st : plan_db_ok db → plan_db_ok (with_env db st).
Proof. apply plan_ok_gates; [done|by apply gates_kept_same]. Qed.

Lemma plan_ok_with_refs db m : plan_db_ok db → plan_db_ok (with_refs db m).
Proof. apply plan_ok_gates; [done|by apply gates_kept_same]. Qed.

Lemma record_decision_inv db rid s by_ db' :
  record_decision db rid s by_ = Some db' →
  ∃ a, approvals db !! rid = Some a ∧ apr_status a ≠ GateApproved ∧
    db' = with_approvals db (<[rid := set_gate a s by_]> (approvals db)).
Proof.
  unfold record_decision. intros (a & Ha & H)%bind_Some.
  destruct (_ || _) eqn:E; [|done]. injection H as <-. exists a. split_and!; try done.
  intros Hs. rewrite Hs in E. done.
Qed.

Lemma cancel_approval_inv db rid by_ db' :
  cancel_approval db rid by_ = Some db' →
  ∃ a, approvals db !! rid = Some a ∧ apr_status a ≠ GateApproved ∧
    db' = with_approvals db (<[rid := set_gate a GateCancelled by_]> (approvals db)).
Proof.
  unfold cancel_approval. intros (a & Ha & H)%bind_Some. case_bool_decide as E; [|done].
  injection H as <-. exists a. split_and!; try done. congruence.
Qed.

Lemma decide_plan_ok w db rid approved by_ db' :
  decide_plan w db rid approved by_ = Some db' → plan_db_ok db → plan_db_ok db'.
Proof.
  unfold decide_plan. intros (a & Ha & H)%bind_Some Hok.
  destruct (_ || _); [|done]. destruct (decider_ok w); [|done].
  apply bind_Some in H as (db1 & H1 & [= <-]).
  apply record_decision_inv in H1 as (a' & Ha' & Hs & ->).
  rewrite Ha in Ha'. injection Ha' as <-.
  set (db1 := with_approvals _ _). assert (plan_db_ok db1) as Hok1.
  { apply (plan_ok_gates db); [done|by eapply gates_kept_insert|done]. }
  unfold apply_plan_decision. set (db2 := update_plan_frame_status _ _ _ _ _ _).
  assert (plan_db_ok db2) as Hok2.
  { apply plan_ok_update; [|done]. intros Happ. destruct approved; [|done].
    exists rid. eexists. unfold db1. simpl. rewrite lookup_insert_eq. split_and!; done. }
  destruct approved; simpl; [|done]. destruct (apr_root a); [|done].
  set (db3 := with_env _ _).
  destruct (load_plan_frame_revision db3 _ _); repeat apply plan_ok_with_env; done.
Qed.

Lemma approve_and_grant_ok w db plan by_ db' n :
  approve_and_grant w db plan by_ = Some (db', n) → plan_db_ok db → plan_db_ok db'.
Proof.
  unfold approve_and_grant. intros (db1 & H1 & H2)%bind_Some Hok.
  destruct (materialize_plan_grants _ _ _ _). injection H2 as <- _.
  apply plan_ok_with_env. by eapply decide_plan_ok.
Qed.

Lemma gate_revision_ok db plan gate now :
  plan ∈ plan_frames db → plan_db_ok db → plan_db_ok (gate_revision db plan gate now).
Proof. intros Hp Hok. rewrite gate_revision_eq by done. by apply create_ok. Qed.

Lemma propose_ok cfg w gate db author session id wf args :
  plan_db_ok db → plan_db_ok (propose cfg w gate db author session id wf args).1.
Proof.
  intros Hok. unfold propose. destruct (pa_capability_envelope args); [|done].
  destruct (check_dag _) eqn:Hdag; [done|]. destruct (save_plan_frame db _) eqn:Hsave; [|done].
  apply plan_ok_save in Hsave as [Hok1 Hin]; [|by apply check_dag_none|done|done].
  eapply gate_revision_ok in Hok1; [|exact Hin].
  eapply plan_ok_with_refs in Hok1.
  destruct (plan_auto_approve cfg); [|exact Hok1].
  destruct (approve_and_grant _ _ _ _) as [[db2 n]|] eqn:Happ; [|exact Hok1].
  eapply approve_and_grant_ok in Happ; [exact Happ|exact Hok1].
Qed.

Lemma latest_app rows p :
  latest (rows ++ [p]) =
  match latest rows with
  | Some q => if (version q <? version p)%Z then Some p else Some q
  | None => Some p
  end.
Proof. unfold latest. rewrite fold_left_app. simpl. by destruct (fold_left _ _ _). Qed.

Lemma latest_spec rows p :
  latest rows = Some p → p ∈ rows ∧ ∀ q, q ∈ rows → (version q ≤ version p)%Z.
Proof.
  revert p. induction rows as [|r rows IH] using rev_ind; intros p; [done|].
  rewrite latest_app. destruct (latest rows) as [q|] eqn:E.
  - destruct (IH q eq_refl) as [Hq Hmax]. setoid_rewrite elem_of_app.
    setoid_rewrite list_elem_of_singleton.
    destruct (Z.ltb_spec (version q) (version r)); intros [= <-]; split; auto;
      intros x [Hx| ->]; try apply Hmax in Hx; lia.
  - intros [= <-]. destruct rows as [|x rows _] using rev_ind.
    + split; [by left|]. intros q ->%list_elem_of_singleton. done.
    + rewrite latest_app in E. destruct (latest rows); repeat case_match; done.
Qed.

Lemma load_plan_frame_spec db id p :
  load_plan_frame db id = Some p →
  p ∈ plan_frames db ∧ plan_id p = id ∧
  ∀ q, q ∈ plan_frames db → plan_id q = id → (version q ≤ version p)%Z.
Proof.
  intros [Hp Hmax]%latest_spec. apply list_elem_of_In, filter_In in Hp as [Hp He%String.eqb_eq].
  split_and!; [by apply list_elem_of_In|done|]. intros q Hq Hid. apply Hmax.
  apply list_elem_of_In, filter_In. split; [by apply list_elem_of_In|by apply String.eqb_eq].
Qed.

Lemma supersede_ok db id v actor now :
  plan_db_ok db → plan_db_ok (supersede_pending_plan_revision db id v actor now).
Proof.
  intros Hok. unfold supersede_pending_plan_revision.
  destruct (cancel_approval _ _ _) eqn:E; [|done].
  apply cancel_approval_inv in E as (a & Ha & Hs & ->).
  apply plan_ok_update; [done|]. apply (plan_ok_gates db); [done| |done].
  by eapply gates_kept_insert.
Qed.

(** A superseded revision stays in the table, cancelled. *)
Lemma supersede_keeps db id v actor now p :
  plan_key p ≠ (id, v) → p ∈ plan_frames db →
  p ∈ plan_frames (supersede_pending_plan_revision db id v actor now).
Proof.
  intros Hk Hp. unfold supersede_pending_plan_revision.
  destruct (cancel_approval _ _ _) eqn:E; [|done].
  apply cancel_approval_inv in E as (a & Ha & Hs & ->). simpl.
  apply list_elem_of_fmap. exists p. by rewrite bool_decide_false.
Qed.

Lemma withdraw_ok w db current expanded :
  plan_db_ok db → plan_db_ok (withdraw_plan_grants w db current expanded).1.
Proof.
  intros Hok. unfold withdraw_plan_grants. destruct (_ && _); [|done].
  destruct (revoke_session_grants_by_source _ _ _ _ _). by apply plan_ok_with_env.
Qed.

Lemma amended_content_inv current args content :
  amended_content current args = Ok content →
  amended_steps current args = Ok (steps content) ∧ well_formed_steps (steps content) ∧
  plan_id content = plan_id current.
Proof.
  unfold amended_content. destruct (amended_steps current args) as [l|]; [|done].
  destruct (check_dag l) eqn:Hdag; [done|]. apply check_dag_none in Hdag.
  destruct (default _ _); [|done]. destruct (_ && _); [done|]. intros [= <-]. done.
Qed.

Lemma saved_key_new db p db' q :
  save_plan_frame db p = Some db' → q ∈ plan_frames db → plan_key p ≠ plan_key q.
Proof.
  intros Hs Hq Hk. by rewrite (save_existing db q) in Hs.
Qed.

Lemma regate_ok w gate db author current new :
  new ∈ plan_frames db → plan_key new ≠ plan_key current → plan_db_ok db →
  plan_db_ok (regate w gate db author current new).
Proof.
  intros Hin Hk Hok. unfold regate. case_bool_decide; [|by apply gate_revision_ok].
  apply gate_revision_ok; [by apply supersede_keeps|by apply supersede_ok].
Qed.

(** An inherited approval goes back to the same decision. *)
Lemma inherits_decided cfg w author db current content why :
  plan_db_ok db → current ∈ plan_frames db → inherits current content = true →
  decided db (amended_revision cfg w author current content true why).
Proof.
  intros Hok Hcur [Hap%bool_decide_eq_true Hd]%andb_true_iff.
  apply negb_true_iff, requires_regate_false in Hd.
  destruct (ok_approved _ Hok _ Hcur Hap) as (q & rid & a & Hq & Hid & Ha & Hs & Hk & He & Hc).
  exists q, rid, a. split_and!; try done. eapply rtc_r; [exact Hc|exact Hd].
Qed.

Lemma commit_ok cfg w gate db author ex current content why :
  plan_db_ok db → current ∈ plan_frames db → well_formed_steps (steps content) →
  plan_db_ok (commit_amendment cfg w gate db author ex current content why).1.
Proof.
  intros Hok Hcur Hw. unfold commit_amendment.
  set (new := amended_revision _ _ _ _ _ _ _).
  destruct (save_plan_frame db new) as [db1|] eqn:Hsave; [|done].
  pose proof (saved_key_new _ _ _ _ Hsave Hcur) as Hk.
  assert (plan_status new = Approved → decided db new) as Hd.
  { unfold new. destruct (inherits current content) eqn:Hi; [|done].
    intros _. by apply inherits_decided. }
  apply plan_ok_save in Hsave as [Hok1 Hin]; [|done..].
  set (db2 := if inherits current content then db1 else _).
  assert (plan_db_ok db2) as Hok2 by (unfold db2; destruct (inherits _ _); [done|by apply regate_ok]).
  pose proof (withdraw_ok w db2 current (requires_regate (plan_envelope_diff current content)) Hok2)
    as Hok3.
  destruct (withdraw_plan_grants _ _ _ _) as [db3 n]. destruct ex; [by apply plan_ok_with_refs|done].
Qed.

Lemma amend_ok cfg w gate db author ex args :
  plan_db_ok db → plan_db_ok (amend cfg w gate db author ex args).1.
Proof.
  intros Hok. unfold amend. destruct (_ && _); [done|].
  destruct (load_plan_frame db _) as [current|] eqn:Hload; [|done].
  apply load_plan_frame_spec in Hload as (Hcur & _ & _).
  destruct (_ || _); [done|]. destruct (amended_content _ _) as [content|] eqn:Hc; [|done].
  apply amended_content_inv in Hc as (_ & Hw & _). by apply commit_ok.
Qed.

Lemma flag_stale_ok db rid : plan_db_ok db → plan_db_ok (flag_stale_approval db rid).
Proof.
  intros Hok. unfold flag_stale_approval. destruct (approvals db !! rid) eqn:E; [|done].
  case_bool_decide as Hs; [|done]. apply (plan_ok_gates db); [done| |done].
  eapply gates_kept_insert; try done. congruence.
Qed.

Lemma expire_ok db now : plan_db_ok db → plan_db_ok (expire_timed_out_plan_frames db now).1.
Proof.
  apply (plan_ok_map (λ p, if plan_timed_out now p
     then set_status p Stale (approved_by p) (approved_at p) else p)).
  - apply (status_map_if (plan_timed_out now) (λ _, Stale) approved_by approved_at).
  - done.
  - by apply gates_kept_same.
  - intros p _. cbn beta. destruct (plan_timed_out now p); [done|by left].
Qed.

Lemma approve_ok w db caller id approver : plan_db_ok db → plan_db_ok (approve w db caller id approver).1.
Proof.
  intros Hok. unfold approve. destruct (load_plan_frame db id); [|done].
  destruct (negb _); [done|]. destruct (approve_and_grant _ _ _ _) as [[db' n]|] eqn:E; [|done].
  by eapply approve_and_grant_ok.
Qed.

Lemma transition_ok db db' : plan_transition db db' → plan_db_ok db → plan_db_ok db'.
Proof.
  destruct 1; eauto using propose_ok, approve_ok, amend_ok, decide_plan_ok, expire_ok,
    flag_stale_ok, plan_ok_with_env.
Qed.

Lemma reachable_ok db : plan_reachable db → plan_db_ok db.
Proof.
  apply (rtc_ind_r plan_db_ok).
  - split; simpl; [constructor|set_solver|set_solver|set_solver].
  - intros x y _ Hstep Hok. by eapply transition_ok.
Qed.

(** What a chain of kept envelopes preserves: the steps, who owns each and
    which agent runs it, every validation at its strictness, and no kind of
    capability that was not declared. *)
Definition accountable (q p : PlanFrame) : Prop :=
  (∀ id, id ∈ (step_id <$> steps q) ↔ id ∈ (step_id <$> steps p)) ∧
  (∀ id sq sp, hash_map step_id (steps q) !! id = Some sq →
     hash_map step_id (steps p) !! id = Some sp → owner sq = owner sp ∧ agent_id sq = agent_id sp) ∧
  (∀ id vq, hash_map validation_id (validation_policy q) !! id = Some vq →
     ∃ vp, hash_map validation_id (validation_policy p) !! id = Some vp ∧
       (requirement_rank (requirement vq) ≤ requirement_rank (requirement vp))%Z) ∧
  (∀ t, is_Some (declared_kind (capability_envelope p) t) →
     is_Some (declared_kind (capability_envelope q) t)).

Lemma accountable_refl p : accountable p p.
Proof. repeat split; naive_solver. Qed.

Lemma accountable_envelope p q r : same_envelope p q → accountable q r → accountable p r.
Proof.
  intros (Hs & Ho & Hv & Hc) (Hs' & Ho' & Hv' & Hc'). split_and!.
  - intros id. by rewrite Hs.
  - intros id sp sr Hp Hr.
    assert (is_Some (hash_map step_id (steps q) !! id)) as [sq Hq].
    { apply hash_map_is_some, Hs'. apply hash_map_is_some. eauto. }
    destruct (Ho id sp sq Hp Hq) as [-> ->]. by apply (Ho' id).
  - intros id vp Hp. destruct (Hv id vp Hp) as (vq & Hq & ?).
    destruct (Hv' id vq Hq) as (vr & Hr & ?). exists vr. split; [done|lia].
  - intros t Ht. destruct (Hc' t Ht) as [c Hq]. destruct (Hc t c Hq) as (d & Hd & _). eauto.
Qed.

Lemma accountable_chain q p : rtc same_envelope q p → accountable q p.
Proof. induction 1; eauto using accountable_refl, accountable_envelope. Qed.

(** C9: Whatever the agents propose and amend, and however decisions and sweeps are
    interleaved with that, an approved revision of a plan is one the gate
    approved or differs from it only in what needs no approval: the plan has a
    revision whose approval row, with the same envelope, was decided as
    approved, and from it the approved one has the same steps with the same
    owners and agents, no validation weakened, and no new kind of capability.
    Its steps have distinct identifiers and no cyclic dependencies. *)
Theorem approved_plan_was_decided db p :
  plan_reachable db → p ∈ plan_frames db → plan_status p = Approved →
  well_formed_steps (steps p) ∧
  ∃ q rid a, q ∈ plan_frames db ∧ plan_id q = plan_id p ∧
    approvals db !! rid = Some a ∧ apr_status a = GateApproved ∧
    (apr_plan_id a, apr_version a) = plan_key q ∧ apr_envelope a = capability_envelope q ∧
    accountable q p.
Proof.
  intros Hok%reachable_ok Hp Hs. split; [by eapply ok_dags|].
  destruct (ok_approved _ Hok _ Hp Hs) as (q & rid & a & ? & ? & ? & ? & ? & ? & Hc).
  exists q, rid, a. split_and!; try done. by apply accountable_chain.
Qed.

(** ** An approved plan can be carried out *)

Definition complete (id : string) : StepUpdateInput :=
  {| su_step_id := id; su_title := None; su_notes := None; su_step_status := Some "completed" |}.

Definition completion (plan id : string) : AmendArgs :=
  {| aa_plan_id := plan; aa_title := None; aa_objective := None; aa_steps := None;
     aa_step_updates := Some [complete id]; aa_validation_policy := None;
     aa_capability_envelope := None; aa_reason := None |}.

Lemma update_step_id m s : step_id (update_step m s) = step_id s.
Proof. done. Qed.

Lemma update_step_complete id s :
  status (update_step (hash_map su_step_id [complete id]) s) =
  if bool_decide (step_id s = id) then Completed else status s.
Proof.
  unfold update_step. cbn [status]. unfold hash_map. cbn [fold_left su_step_id complete].
  case_bool_decide as E.
  - subst. by rewrite lookup_insert_eq.
  - by rewrite lookup_insert_ne, lookup_empty.
Qed.

Lemma hash_map_map {A} (key : A → string) (f : A → A) l k :
  (∀ x, key (f x) = key x) → hash_map key (map f l) !! k = f <$> hash_map key l !! k.
Proof.
  intros Hf. induction l as [|x l IH] using rev_ind; [done|].
  rewrite map_app. cbn [map]. rewrite !hash_map_snoc, Hf.
  destruct (decide (key x = k)) as [<-|Hk]; [by rewrite !lookup_insert_eq|].
  by rewrite !lookup_insert_ne.
Qed.

(** Progress keeps the envelope. *)
Lemma same_envelope_updates p m t o :
  same_envelope p (with_content p t o (map (update_step m) (steps p)) (validation_policy p)
                     (capability_envelope p)).
Proof.
  unfold same_envelope. cbn [steps validation_policy capability_envelope with_content].
  split_and!.
  - intros id. by rewrite <-list_fmap_compose.
  - intros id s c Hs. rewrite hash_map_map by done. rewrite Hs. by intros [= <-].
  - intros id v Hv. exists v. split; [done|lia].
  - intros ty c Hc. exists c. split; [done|apply capability_broadening_refl].
Qed.

Lemma save_next db p new :
  (∀ q, q ∈ plan_frames db → plan_id q = plan_id p → (version q ≤ version p)%Z) →
  plan_id new = plan_id p → (version p < version new)%Z →
  save_plan_frame db new = Some (with_frames db (plan_frames db ++ [new])).
Proof.
  intros Hmax Hid Hv. unfold save_plan_frame. destruct (existsb _ _) eqn:E; [|done]. exfalso.
  apply existsb_exists in E as (q & Hq%list_elem_of_In & [= Hi Hq2]%bool_decide_eq_true).
  apply Hmax in Hq; [lia|congruence].
Qed.

Lemma load_saved db p new :
  load_plan_frame db (plan_id p) = Some p → plan_id new = plan_id p →
  (version p < version new)%Z →
  ∀ db', plan_frames db' = plan_frames db ++ [new] → load_plan_frame db' (plan_id p) = Some new.
Proof.
  unfold load_plan_frame. intros Hl Hid Hv db' ->. rewrite List.filter_app. cbn [List.filter].
  rewrite Hid, String.eqb_refl, latest_app, Hl. by rewrite (proj2 (Z.ltb_lt _ _)).
Qed.

(** Completing one step of an approved plan: the new revision inherits the
    approval. *)
Lemma complete_step cfg w gate db author ex p s :
  load_plan_frame db (plan_id p) = Some p → plan_status p = Approved →
  well_formed_steps (steps p) → (0 ≤ version p)%Z → (version p + 1 < 2 ^ 32)%Z →
  s ∈ steps p → status s ≠ Completed →
  ∃ db' r new, amend cfg w gate db author ex (completion (plan_id p) (step_id s)) = (db', Ok r) ∧
    ao_inherited r = true ∧ load_plan_frame db' (plan_id p) = Some new ∧
    plan_id new = plan_id p ∧ plan_status new = Approved ∧ version new = (version p + 1)%Z ∧
    steps new = map (update_step (hash_map su_step_id [complete (step_id s)])) (steps p).
Proof.
  intros Hl Hap Hw Hv0 Hv Hs Hst. pose proof (load_plan_frame_spec _ _ _ Hl) as (Hin & _ & Hmax).
  set (f := update_step (hash_map su_step_id [complete (step_id s)])).
  unfold amend. cbn [aa_steps aa_step_updates aa_plan_id aa_reason completion].
  rewrite bool_decide_false by (by intros [? ?]). cbn [andb]. rewrite Hl, Hap. cbn [orb bool_decide].
  assert (amended_content p (completion (plan_id p) (step_id s)) =
    Ok (with_content p (plan_title p) (objective p) (map f (steps p)) (validation_policy p)
          (capability_envelope p))) as ->.
  { unfold amended_content, amended_steps. cbn [aa_steps aa_step_updates completion].
    cbn [forallb valid_status_input complete su_step_status VALID_STATUSES existsb].
    cbn -[check_dag apply_step_updates].
    replace (apply_step_updates _ _) with (map f (steps p)) by done.
    unfold check_dag. destruct (validate_step_dag_spec (map f (steps p))) as (r & -> & Hr).
    destruct r as [u|e]; [|destruct Hr as [_ Hr]; discriminate Hr; by apply well_formed_map].
    rewrite bool_decide_false; [done|]. intros E. apply Hst.
    assert (f s = s) as <-.
    { apply (nodup_fmap_inj step_id (steps p)); [apply Hw| |done|done].
      rewrite <-E. by apply list_elem_of_fmap_2. }
    unfold f. by rewrite update_step_complete, bool_decide_true. }
  unfold commit_amendment. set (content := with_content _ _ _ _ _ _).
  assert (requires_regate (plan_envelope_diff p content) = false) as Hd.
  { apply requires_regate_false, same_envelope_updates. }
  assert (inherits p content = true) as Hi.
  { unfold inherits, is_cosmetic_only. by rewrite Hap, Hd. }
  rewrite Hi, Hd. set (new := amended_revision _ _ _ _ _ _ _).
  assert (version new = (version p + 1)%Z) as Hnv by (simpl; by rewrite Z.mod_small by lia).
  rewrite (save_next db p new) by (done || lia).
  unfold withdraw_plan_grants. rewrite andb_false_r.
  eexists _, _, new. split; [done|]. split; [done|]. split; [|done].
  eapply (load_saved db p new); [done|done|lia|]. by destruct ex.
Qed.

(** Completing the steps in the given order, each through an amendment that
    must inherit the approval, and only when its dependencies are satisfied. *)
Fixpoint complete_in_order (cfg : PlanConfig) (w : PlanWorld) (gate : PlanGateOutcome)
    (author : string) (ex : bool) (db : PlanDb) (plan : string) (order : list string)
    : option PlanDb :=
  match order with
  | [] => Some db
  | id :: rest =>
      current ← load_plan_frame db plan;
      match unsatisfied_dependencies current id, amend cfg w gate db author ex (completion plan id) with
      | [], (db, Ok r) =>
          if ao_inherited r then complete_in_order cfg w gate author ex db plan rest else None
      | _, _ => None
      end
  end.

Definition incomplete (l : list PlanStep) : list PlanStep :=
  List.filter (λ s, negb (bool_decide (status s = Completed))) l.

Lemma incomplete_complete id l s :
  s ∈ l → step_id s = id → status s ≠ Completed →
  length (incomplete (map (update_step (hash_map su_step_id [complete id])) l))
  < length (incomplete l).
Proof.
  set (f := update_step (hash_map su_step_id [complete id])). intros Hs Hid Hst.
  assert (∀ t, status (f t) = Completed ∨ status (f t) = status t) as Hf.
  { intros t. unfold f. rewrite update_step_complete. case_bool_decide; auto. }
  assert (∀ k, length (incomplete (map f k)) ≤ length (incomplete k)) as Hle.
  { intros k. induction k as [|t k IH]; [done|]. unfold incomplete in *. cbn [map List.filter].
    destruct (Hf t) as [->| ->]; simpl; repeat case_bool_decide; simpl; lia. }
  unfold incomplete in *. induction l as [|t l IH]; [by apply not_elem_of_nil in Hs|].
  cbn [map List.filter]. apply elem_of_cons in Hs as [<-|Hs].
  - assert (status (f s) = Completed) as ->.
    { unfold f. by rewrite update_step_complete, bool_decide_true. }
    rewrite (bool_decide_false (status s = Completed)) by done. simpl.
    apply Nat.lt_succ_r, Hle.
  - specialize (IH Hs). destruct (Hf t) as [->| ->]; simpl; repeat case_bool_decide; simpl; lia.
Qed.

Lemma incomplete_nil l : incomplete l = [] → Forall (λ s, status s = Completed) l.
Proof.
  intros H. apply Forall_forall. intros s Hs. destruct (decide (status s = Completed)); [done|].
  assert (s ∈ incomplete l) as Hin; [|rewrite H in Hin; by apply not_elem_of_nil in Hin].
  apply list_elem_of_In, filter_In. split; [by apply list_elem_of_In|].
  by rewrite bool_decide_false.
Qed.

Lemma finish_from cfg w gate author ex n db p :
  length (incomplete (steps p)) = n →
  load_plan_frame db (plan_id p) = Some p → plan_status p = Approved →
  well_formed_steps (steps p) → (0 ≤ version p)%Z → (version p + Z.of_nat n < 2 ^ 32)%Z →
  ∃ order db' q, complete_in_order cfg w gate author ex db (plan_id p) order = Some db' ∧
    length order ≤ n ∧ load_plan_frame db' (plan_id p) = Some q ∧ plan_status q = Approved ∧
    step_id <$> steps q = step_id <$> steps p ∧ Forall (λ s, status s = Completed) (steps q).
Proof.
  revert db p. induction n as [n IH] using lt_wf_ind. intros db p Hn Hl Hap Hw Hv0 Hv.
  destruct (incomplete (steps p)) as [|s rest] eqn:E.
  { exists [], db, p. split_and!; try done; [simpl; lia|by apply incomplete_nil]. }
  assert (s ∈ incomplete (steps p)) as Hs by (rewrite E; by left).
  apply list_elem_of_In, filter_In in Hs as [Hs Hst%negb_true_iff%bool_decide_eq_false].
  apply list_elem_of_In in Hs.
  destruct (some_step_ready _ _ Hw Hs Hst) as (t & Ht & Htst & Hr).
  assert (1 ≤ n) by (rewrite <-Hn; simpl; lia).
  destruct (complete_step cfg w gate db author ex p t) as
    (db1 & r & new & Ham & Hinh & Hl1 & Hid & Hap1 & Hv1 & Hst1); [done..|lia|done|done|].
  assert (length (incomplete (steps new)) < n) as Hlt.
  { rewrite Hst1, <-Hn, <-E. by apply (incomplete_complete _ _ t). }
  destruct (IH _ Hlt db1 new) as (order & db' & q & Hrun & Hlen & Hl2 & Hap2 & Hids & Hall);
    rewrite ?Hid; [done..| |lia|lia|].
  { rewrite Hst1. by apply well_formed_map. }
  exists (step_id t :: order), db', q. rewrite Hid in Hrun, Hl2.
  assert (unsatisfied_dependencies p (step_id t) = []) as Hu.
  { apply ready_unsatisfied; [by apply find_step_elem; [apply Hw|]|done]. }
  split_and!; try done; [|simpl; lia|].
  - cbn [complete_in_order]. rewrite Hl. cbn [mbind option_bind]. by rewrite Hu, Ham, Hinh.
  - rewrite Hids, Hst1, <-list_fmap_compose. done.
Qed.

(** An approved plan never gets stuck: whatever progress was recorded, there is
    an order of its open steps in which each has only completed dependencies
    when its turn comes, and completing them in that order needs no further
    approval and ends with every step completed. *)
Theorem approved_plan_can_finish cfg w gate author ex db p :
  plan_reachable db → load_plan_frame db (plan_id p) = Some p → plan_status p = Approved →
  (0 ≤ version p)%Z → (version p + Z.of_nat (length (incomplete (steps p))) < 2 ^ 32)%Z →
  ∃ order db' q, complete_in_order cfg w gate author ex db (plan_id p) order = Some db' ∧
    length order ≤ length (incomplete (steps p)) ∧
    load_plan_frame db' (plan_id p) = Some q ∧ plan_status q = Approved ∧
    step_id <$> steps q = step_id <$> steps p ∧ Forall (λ s, status s = Completed) (steps q).
Proof.
  intros Hok%reachable_ok Hl Hap Hv0 Hv. eapply finish_from; try done.
  eapply ok_dags; [done|]. by apply load_plan_frame_spec in Hl as (? & _).
Qed.

(** ** What an amendment withdraws *)

Lemma gate_revision_env db p gate now :
  env_store (gate_revision db p gate now) = env_store db.
Proof.
  assert (∀ d, env_store (create_plan_approval_request d p gate) = env_store d) as Hc.
  { intros d. destruct gate; simpl; try done. by destruct (approvals d !! _). }
  unfold gate_revision. destruct gate; rewrite ?Hc; try done.
  unfold save_plan_frame. simpl. by destruct (existsb _ _).
Qed.

Lemma supersede_env db id v actor now :
  env_store (supersede_pending_plan_revision db id v actor now) = env_store db.
Proof.
  unfold supersede_pending_plan_revision. destruct (cancel_approval _ _ _) eqn:E; [|done].
  by apply cancel_approval_inv in E as (a & _ & _ & ->).
Qed.

Lemma save_env db p db' : save_plan_frame db p = Some db' → env_store db' = env_store db.
Proof. unfold save_plan_frame. destruct (existsb _ _); [done|]. by intros [= <-]. Qed.

Lemma load_plan_id db id p : load_plan_frame db id = Some p → plan_id p = id.
Proof. intros H. by apply load_plan_frame_spec in H as (_ & ? & _). Qed.

(** An amendment leaves alone every grant whose source is not the plan. *)
Lemma amend_keeps_grant cfg w gate db author ex args row :
  live (grants (env_store db)) row → has_source (aa_plan_id args) row = false →
  live (grants (env_store (amend cfg w gate db author ex args).1)) row.
Proof.
  intros Hlive Hsrc. unfold amend. destruct (_ && _); [done|].
  destruct (load_plan_frame db _) as [current|] eqn:Hload; [|done].
  apply load_plan_id in Hload. destruct (_ || _); [done|].
  destruct (amended_content _ _) as [content|]; [|done]. unfold commit_amendment.
  destruct (save_plan_frame db _) as [db1|] eqn:Hsave; [|done]. apply save_env in Hsave.
  set (db2 := if inherits current content then db1 else _).
  assert (env_store db2 = env_store db) as Henv.
  { unfold db2. destruct (inherits _ _); [done|]. unfold regate. rewrite gate_revision_env.
    case_bool_decide; [|done]. by rewrite supersede_env. }
  unfold withdraw_plan_grants. rewrite Henv, Hload. destruct (_ && _).
  - unfold revoke_session_grants_by_source.
    destruct (revoke_where _ _ _ _) as [t n] eqn:Hr.
    assert (live t row) as Ht.
    { change t with (t, n).1. rewrite <-Hr. apply live_revoke_where. split; [done|].
      by rewrite Hsrc, andb_false_r. }
    by destruct ex.
  - rewrite <-Henv in Hlive. by destruct ex.
Qed.

Lemma propose_envelope_grants ok st root caps source plan actor now disc h :
  h ∈ (caps ≫= network_hosts) → is_concrete_host h = true →
  grants (propose_envelope_from_capabilities ok st root caps source plan actor now disc).1
  = grants st.
Proof.
  intros Hh Hc. unfold propose_envelope_from_capabilities.
  assert (h ∈ concrete_hosts (caps ≫= (λ c, concrete_hosts (network_hosts c)))) as Hin.
  { apply elem_of_concrete_hosts. split; [|done].
    apply list_elem_of_bind in Hh as (c & Hh & Hcs). apply list_elem_of_bind. exists c.
    split; [by apply elem_of_concrete_hosts|done]. }
  destruct (concrete_hosts _) as [|x l] eqn:E; [by apply not_elem_of_nil in Hin|].
  destruct (find_matching_pending_envelope_id _ _ _); [done|].
  destruct (insert_envelope_proposal st _ _ _ _ _ _) as [st1 id] eqn:E1. cbn [fst].
  assert (grants st1 = grants st) as <- by (unfold insert_envelope_proposal in E1; by injection E1 as <-).
  clear. revert st1. induction caps as [|c caps IH]; intros st1; [done|]. simpl.
  rewrite IH. by destruct (is_network c).
Qed.

(** Approving a plan through its gate grants the declared hosts to the whole
    root, under the identifier of the request. *)
Lemma decide_grants w db rid a root hosts by_ db' h :
  plan_reachable db → table_ok (grants (env_store db)) → db_ok w = true →
  approvals db !! rid = Some a → apr_root a = Some root → apr_envelope a = [NetworkAccess hosts] →
  h ∈ hosts → is_concrete_host h = true →
  decide_plan w db rid true by_ = Some db' →
  live (grants (env_store db'))
    (granted_row (grants (env_store db)) (envelope_grant root hosts by_ rid (now_rfc3339 w))).
Proof.
  intros Hok%reachable_ok Ht Hdb Ha Hroot Henv Hh Hc. unfold decide_plan. rewrite Ha.
  cbn [mbind option_bind]. destruct (_ || _); [|done]. destruct (decider_ok w); [|done].
  intros (db1 & H1 & [= <-])%bind_Some.
  apply record_decision_inv in H1 as (a' & Ha' & Hs & ->). rewrite Ha in Ha'. injection Ha' as <-.
  set (db1 := with_approvals _ _).
  assert (plan_db_ok db1) as Hok1.
  { apply (plan_ok_gates db); [done|by eapply gates_kept_insert|done]. }
  unfold apply_plan_decision. rewrite Hroot, Henv, Hdb. cbn [negb].
  set (db2 := update_plan_frame_status _ _ _ _ _ _).
  assert (plan_db_ok db2) as Hok2.
  { apply plan_ok_update; [|done]. intros _. exists rid. eexists. unfold db1. simpl.
    rewrite lookup_insert_eq. split_and!; done. }
  assert (concrete_hosts hosts ≠ []) as Hne.
  { intros E. apply (not_elem_of_nil h). rewrite <-E. by apply elem_of_concrete_hosts. }
  rewrite materialize_one. cbn [network_hosts].
  set (g := envelope_grant _ _ _ _ _).
  assert (live (insert_session_grant (grants (env_store db)) g)
            (granted_row (grants (env_store db)) g)) as Hlive.
  { apply (live_step _ (OpGrant g)); [done|]. right. eauto. }
  destruct (concrete_hosts hosts) as [|x l]; [done|].
  destruct (load_plan_frame_revision _ _ _) as [plan|] eqn:Hl; [|exact Hlive].
  apply List.find_some in Hl as [Hin%list_elem_of_In Hk%bool_decide_eq_true].
  destruct (ok_gates _ Hok2 rid (set_gate a GateApproved by_)) as (q & Hq & Hqk & He).
  { unfold db2, db1. simpl. by rewrite lookup_insert_eq. }
  assert (plan = q) as ->.
  { apply (key_unique db2); [done..|]. by rewrite Hk, <-Hqk. }
  simpl in He. unfold propose_plan_envelope_on_approval. rewrite <-He, Henv.
  cbn [env_store with_env]. rewrite (propose_envelope_grants _ _ _ _ _ _ _ _ _ h); [exact Hlive| |done].
  simpl. by rewrite app_nil_r.
Qed.

(** A plan's own approval outlives the plan it was given for.  Approving a plan
    whose envelope declares a network host lets every agent of the root reach
    it, under the identifier of the approval request; an amendment that changes
    the envelope, and so needs a new approval, withdraws only grants whose
    source is the plan's identifier: the host stays reachable while the new
    revision waits. *)
Theorem amended_plan_keeps_hosts parse cfg w w' gate db rid a root hosts by_ db1
    author ex args db2 r h req agent at_ :
  plan_reachable db → table_ok (grants (env_store db)) → db_ok w = true →
  approvals db !! rid = Some a → apr_root a = Some root → apr_envelope a = [NetworkAccess hosts] →
  h ∈ hosts → is_concrete_host h = true → target_matches (host_target h) req = true →
  decide_plan w db rid true by_ = Some db1 →
  amend cfg w' gate db1 author ex args = (db2, Ok r) → ao_requires_regate r = true →
  rid ≠ aa_plan_id args →
  ao_inherited r = false ∧
  session_grants_cover_targets parse (grants (env_store db2)) root agent at_ [req] = true.
Proof.
  intros Hreach Ht Hdb Ha Hroot Henv Hh Hc Hm Hdec Ham Hre Hne. split.
  { revert Ham. unfold amend. destruct (_ && _); [done|].
    destruct (load_plan_frame db1 _) as [p|]; [|done]. destruct (_ || _); [done|].
    destruct (amended_content p args) as [content|]; [|done]. unfold commit_amendment.
    destruct (save_plan_frame db1 _); [|done]. destruct (withdraw_plan_grants _ _ _ _) as [db3 n].
    intros [= <- <-]. simpl in *. unfold inherits, is_cosmetic_only. by rewrite Hre, andb_false_r. }
  pose proof (decide_grants _ _ _ _ _ _ _ _ _ Hreach Ht Hdb Ha Hroot Henv Hh Hc Hdec) as Hlive.
  set (row := granted_row _ _) in Hlive.
  apply (amend_keeps_grant cfg w' gate db1 author ex args) in Hlive.
  2:{ unfold row, has_source, granted_row. simpl. by apply String.eqb_neq. }
  rewrite Ham in Hlive. cbn [fst] in Hlive. unfold session_grants_cover_targets.
  apply cover_spec. split; [done|]. intros ? ->%list_elem_of_singleton. exists row.
  split_and!; [done|by apply String.eqb_eq| |].
  - unfold grant_active. simpl. by rewrite orb_true_r.
  - exists (host_target h). split; [|done]. simpl. apply list_elem_of_fmap_2.
    by apply elem_of_concrete_hosts.
Qed.

(** A gate that clears at once leaves the plan waiting.  Whatever session grant
    or policy let the gate service approve a proposal on the spot, the revision
    is stored first and storing it again as approved fails on its key: unless
    the configuration approves plans itself, the stored plan awaits an approval
    for which there is no request, and [planframe_approve] fails on it. *)
Theorem cleared_plan_is_stranded cfg w db author session id wf args db' r :
  plan_auto_approve cfg = false → load_plan_frame db id = None →
  approvals db !! plan_approval_request_id id 1 = None →
  propose cfg w OutcomeApproved db author session id wf args = (db', Ok r) →
  ∃ p, load_plan_frame db' id = Some p ∧ plan_status p = AwaitingApproval ∧
    ∀ w' caller approver, approve w' db' caller id approver = (db', Err PlanApprovalFailed).
Proof.
  intros Hauto Hnone Hapr. unfold propose. destruct (pa_capability_envelope args); [|done].
  destruct (check_dag _); [done|]. set (plan := {| plan_id := id |}).
  destruct (save_plan_frame db plan) as [db1|] eqn:Hsave; [|done]. rewrite Hauto.
  assert (plan ∈ plan_frames db1 ∧ plan_frames db1 = plan_frames db ++ [plan]
          ∧ approvals db1 = approvals db) as (Hin & Hrows & Ha1).
  { unfold save_plan_frame in Hsave. destruct (existsb _ _); [done|]. injection Hsave as <-. simpl.
    split_and!; [apply elem_of_app; right; by left|done|done]. }
  rewrite gate_revision_eq by done. cbn [create_plan_approval_request].
  intros [= <- _].
  assert (load_plan_frame db1 id = Some plan) as Hload.
  { unfold load_plan_frame in *. rewrite Hrows, List.filter_app. cbn [List.filter].
    unfold plan at 1. cbn [plan_id]. by rewrite String.eqb_refl, latest_app, Hnone. }
  exists plan. split_and!; [done|done|]. intros w' caller approver. unfold approve.
  replace (load_plan_frame _ id) with (Some plan) by (symmetry; exact Hload). simpl.
  unfold approve_and_grant, decide_plan. simpl. by rewrite Ha1, Hapr.
Qed.

(** ** Examples *)

Definition demo_world : PlanWorld :=
  {| now_rfc3339 := "2026-01-01T00:00:00Z"; after_secs := λ _, "2026-01-02T00:00:00Z";
     db_ok := true; decider_ok := true; discovered := λ _, []; agent_hosts := λ _, None |}.

Definition demo_config : PlanConfig :=
  {| plan_auto_approve := false; plan_auto_approver := "auto"; plan_frame_timeout_secs := 0 |}.

Definition demo_step (id : string) (deps : list string) : StepInput :=
  {| si_step_id := id; si_title := Some id; si_owner := Some "agent"; si_agent_id := None;
     si_depends_on := Some deps; si_notes := None; si_required_capabilities := None;
     si_step_status := None |}.

Definition demo_args : ProposeArgs :=
  {| pa_title := "t"; pa_objective := "o";
     pa_steps := Some [demo_step "b" ["a"]; demo_step "a" []];
     pa_validation_policy := None;
     pa_capability_envelope := Ok [NetworkAccess ["api.example.com"]] |}.

Definition demo_proposed : PlanDb :=
  (propose demo_config demo_world OutcomePending empty_plan_db "planner" "root/child" "plan-1"
     "wf" demo_args).1.

Definition demo_approved : PlanDb :=
  default empty_plan_db (decide_plan demo_world demo_proposed "apr-plan-plan-1-v1" true "operator").

Definition demo_expand : AmendArgs :=
  {| aa_plan_id := "plan-1"; aa_title := None; aa_objective := None; aa_steps := None;
     aa_step_updates := None; aa_validation_policy := None;
     aa_capability_envelope := Some (Ok [NetworkAccess ["evil.example.com"]]); aa_reason := None |}.

Definition demo_blank : PlanFrame :=
  {| plan_id := ""; version := 0; parent_version := None; workflow_id := "";
     root_session_id := ""; plan_title := ""; objective := ""; plan_status := Stale; steps := [];
     validation_policy := []; capability_envelope := []; approved_by := None; approved_at := None;
     created_by_agent_id := ""; reason := None; created_at := ""; expires_at := None |}.

Definition demo_row_of (db : PlanDb) : PlanFrame :=
  default demo_blank (load_plan_frame db "plan-1").

Lemma demo_proposed_reachable : plan_reachable demo_proposed.
Proof. apply rtc_once. apply do_propose. Qed.

Lemma demo_approved_reachable : plan_reachable demo_approved.
Proof.
  eapply rtc_r; [exact demo_proposed_reachable|].
  apply (do_decide _ demo_world "apr-plan-plan-1-v1" true "operator"). reflexivity.
Qed.

Lemma approved_plan_was_decided_witness :
  let p := demo_row_of demo_approved in
  plan_status p = Approved ∧
  ∃ q rid a, q ∈ plan_frames demo_approved ∧ plan_id q = plan_id p ∧
    approvals demo_approved !! rid = Some a ∧ apr_status a = GateApproved ∧
    (apr_plan_id a, apr_version a) = plan_key q ∧ apr_envelope a = capability_envelope q ∧
    accountable q p.
Proof.
  split; [reflexivity|].
  apply (approved_plan_was_decided demo_approved (demo_row_of demo_approved)
    demo_approved_reachable); [|reflexivity].
  apply (proj1 (load_plan_frame_spec demo_approved "plan-1" _ eq_refl)).
Defined.

Lemma approved_plan_can_finish_witness :
  let p := demo_row_of demo_approved in
  (∃ order db' q, complete_in_order demo_config demo_world OutcomePending "planner" true
      demo_approved (plan_id p) order = Some db' ∧
    length order ≤ length (incomplete (steps p)) ∧
    load_plan_frame db' (plan_id p) = Some q ∧ plan_status q = Approved ∧
    step_id <$> steps q = step_id <$> steps p ∧ Forall (λ s, status s = Completed) (steps q)) ∧
  unsatisfied_dependencies p "b" = [("a", Pending)].
Proof.
  split; [|reflexivity].
  apply (approved_plan_can_finish demo_config demo_world OutcomePending "planner" true
    demo_approved (demo_row_of demo_approved) demo_approved_reachable);
    [reflexivity|reflexivity|vm_compute; discriminate|vm_compute; reflexivity].
Defined.

Lemma amended_plan_keeps_hosts_witness :
  let res := amend demo_config demo_world OutcomePending demo_approved "planner" true demo_expand in
  session_grants_cover_targets (λ _, None) (grants (env_store res.1)) "root" "anyone" 0
    ["api.example.com"] = true ∧
  plan_status (demo_row_of res.1) = AwaitingApproval.
Proof.
  split; [|reflexivity].
  eapply (amended_plan_keeps_hosts (λ _, None) demo_config demo_world demo_world OutcomePending
    demo_proposed "apr-plan-plan-1-v1" _ "root" ["api.example.com"] "operator" demo_approved
    "planner" true demo_expand _ _ "api.example.com" "api.example.com" "anyone" 0%Z
    demo_proposed_reachable); try reflexivity; [|by left|done].
  split; [constructor|]. split; constructor.
Defined.

Lemma cleared_plan_is_stranded_witness :
  ∃ p, load_plan_frame (propose demo_config demo_world OutcomeApproved empty_plan_db "planner"
         "root" "plan-1" "wf" demo_args).1 "plan-1" = Some p ∧ plan_status p = AwaitingApproval ∧
    ∀ w' caller approver,
      (approve w' (propose demo_config demo_world OutcomeApproved empty_plan_db "planner"
         "root" "plan-1" "wf" demo_args).1 caller "plan-1" approver).2 = Err PlanApprovalFailed.
Proof.
  destruct (cleared_plan_is_stranded demo_config demo_world empty_plan_db "planner" "root" "plan-1"
    "wf" demo_args _ _ eq_refl eq_refl eq_refl eq_refl) as (p & Hp & Hs & Ha).
  exists p. split; [exact Hp|]. split; [exact Hs|]. intros w' caller approver.
  exact (f_equal snd (Ha w' caller approver)).
Defined.
