(* ===== verification/Budget.v ===== *)
(** * Session and session-tree budgets

    The model of [SessionBudgetRegistry]
    ([autonoetic-gateway/src/runtime/session_budget.rs]) and of
    [RootSessionBudgetRegistry] ([.../root_session_budget.rs]).

    A registry is its limits, the [HashMap] behind the mutex and the mutex's
    poison flag.  Every operation takes the registry and returns the registry
    and a [result], so a refused operation still shows what it recorded.  The
    clock is an argument: [now] is what [Instant::now()] returns and [later]
    what [elapsed()] reads, in nanoseconds of the monotonic clock.  Token
    counters are [u64] with saturating addition.  Prices are IEEE-754 binary64
    values ([spec_float] with 53 bits of precision), added and compared with
    their rounding and their special values. *)

From Stdlib Require Import ZArith Lia SpecFloat.
From stdpp Require Import prelude gmap strings list.
From S2P Require Import Prelude RustStr.

Open Scope Z_scope.

(** ** Prices: [f64] *)

Notation f64 := spec_float.

Definition f64_add (a b : f64) : f64 := SFadd 53 1024 a b.
Definition f64_zero : f64 := S754_zero false.
(** [a >= b] and [a > b]. *)
Definition f64_ge (a b : f64) : bool := SFleb b a.
Definition f64_gt (a b : f64) : bool := SFltb b a.
Definition f64_is_finite (a : f64) : bool :=
  match a with S754_zero _ | S754_finite _ _ _ => true | _ => false end.

(** ** State *)

(** [SessionBudgetConfig] and [RootSessionBudgetConfig] have the same limits. *)
Record BudgetConfig := {
  max_llm_rounds : option Z;
  max_tool_invocations : option Z;
  max_llm_tokens : option Z;
  max_wall_clock_secs : option Z;
  max_session_price_usd : option f64;
}.

(** [ScopeCounters] and [TreeCounters]. *)
Record Counters := {
  llm_rounds : Z;
  tool_invocations : Z;
  llm_tokens : Z;
  session_cost_usd : f64;
  clock_start : option Z;
}.

Definition counters_default : Counters :=
  {| llm_rounds := 0; tool_invocations := 0; llm_tokens := 0; session_cost_usd := f64_zero;
     clock_start := None |}.

Record Registry := {
  limits : BudgetConfig;
  scopes : gmap string Counters;
  poisoned : bool;
}.

Definition new_registry (limits : BudgetConfig) : Registry :=
  {| limits := limits; scopes := ∅; poisoned := false |}.

(** The [bail!]s of the two registries. *)
Inductive BudgetError : Type :=
| LockPoisoned
| WallClockExceeded (max_secs : Z) (scope : string)
| LlmRoundsReached (max_rounds : Z) (scope : string)
| MaxLlmRounds (max_rounds would_be : Z) (scope : string)
| PriceUnavailable (scope : string)
| MaxLlmTokens (max_tok used : Z) (scope : string)
| MaxSessionPrice (max_price used : f64) (scope : string)
| MaxToolInvocations (max_tools would_be : Z) (scope : string).

Definition is_enabled (self : Registry) : bool :=
  let l := limits self in
  bool_decide (is_Some (max_llm_rounds l)) || bool_decide (is_Some (max_tool_invocations l))
  || bool_decide (is_Some (max_llm_tokens l)) || bool_decide (is_Some (max_wall_clock_secs l))
  || bool_decide (is_Some (max_session_price_usd l)).

(** ** Updates of an entry *)

Definition set_scope (self : Registry) (scope : string) (st : Counters) : Registry :=
  {| limits := limits self; scopes := <[scope := st]> (scopes self); poisoned := poisoned self |}.

(** [map.entry(scope).or_default()], then starting the clock. *)
Definition touch (self : Registry) (now : Z) (scope : string) : Counters :=
  let st := default counters_default (scopes self !! scope) in
  match clock_start st with
  | Some _ => st
  | None => {| llm_rounds := llm_rounds st; tool_invocations := tool_invocations st;
               llm_tokens := llm_tokens st; session_cost_usd := session_cost_usd st;
               clock_start := Some now |}
  end.

(** [started.elapsed().as_secs()]: whole seconds, zero if the clock reads
    earlier. *)
Definition elapsed_secs (started later : Z) : Z := Z.max 0 (later - started) / 1000000000.

Definition add_round (st : Counters) : Counters :=
  {| llm_rounds := saturating_add (llm_rounds st) 1; tool_invocations := tool_invocations st;
     llm_tokens := llm_tokens st; session_cost_usd := session_cost_usd st;
     clock_start := clock_start st |}.

Definition set_rounds (st : Counters) (n : Z) : Counters :=
  {| llm_rounds := n; tool_invocations := tool_invocations st;
     llm_tokens := llm_tokens st; session_cost_usd := session_cost_usd st;
     clock_start := clock_start st |}.

Definition add_tokens (st : Counters) (input_tokens output_tokens : Z) : Counters :=
  {| llm_rounds := llm_rounds st; tool_invocations := tool_invocations st;
     llm_tokens := saturating_add (llm_tokens st) (saturating_add input_tokens output_tokens);
     session_cost_usd := session_cost_usd st; clock_start := clock_start st |}.

Definition add_cost (st : Counters) (c : f64) : Counters :=
  {| llm_rounds := llm_rounds st; tool_invocations := tool_invocations st;
     llm_tokens := llm_tokens st; session_cost_usd := f64_add (session_cost_usd st) c;
     clock_start := clock_start st |}.

Definition set_tools (st : Counters) (n : Z) : Counters :=
  {| llm_rounds := llm_rounds st; tool_invocations := n;
     llm_tokens := llm_tokens st; session_cost_usd := session_cost_usd st;
     clock_start := clock_start st |}.

Definition wall_clock_exceeded (self : Registry) (st : Counters) (later : Z) : option Z :=
  max_secs ← max_wall_clock_secs (limits self);
  started ← clock_start st;
  if max_secs <=? elapsed_secs started later then Some max_secs else None.

(** The price step and the checks that follow it, common to both registries:
    [st] already carries the tokens of the completion. *)
Definition settle_completion (self : Registry) (scope : string) (st : Counters)
    (estimated_cost_usd : option f64) (allow_unpriced_completion : bool)
    : Registry * result unit BudgetError :=
  let st := match estimated_cost_usd with
            | Some c => if f64_is_finite c && f64_ge c f64_zero then add_cost st c else st
            | None => st
            end in
  let self' := set_scope self scope st in
  let unpriced_refused :=
    match estimated_cost_usd, max_session_price_usd (limits self) with
    | None, Some max_price => f64_ge max_price f64_zero && negb allow_unpriced_completion
    | _, _ => false
    end in
  let price_check :=
    match max_session_price_usd (limits self) with
    | Some max_price =>
        if f64_ge max_price f64_zero && f64_gt (session_cost_usd st) max_price
        then Err (MaxSessionPrice max_price (session_cost_usd st) scope)
        else Ok tt
    | None => Ok tt
    end in
  if unpriced_refused then (self', Err (PriceUnavailable scope))
  else
    match max_llm_tokens (limits self) with
    | Some max_tok =>
        if max_tok <? llm_tokens st
        then (self', Err (MaxLlmTokens max_tok (llm_tokens st) scope))
        else (self', price_check)
    | None => (self', price_check)
    end.

(** ** [SessionBudgetRegistry] *)

Definition session_check_pre_llm (self : Registry) (now later : Z) (scope : string)
    : Registry * result unit BudgetError :=
  if negb (is_enabled self) then (self, Ok tt)
  else if poisoned self then (self, Err LockPoisoned)
  else
    let st := touch self now scope in
    let self' := set_scope self scope st in
    match wall_clock_exceeded self st later with
    | Some max_secs => (self', Err (WallClockExceeded max_secs scope))
    | None =>
        match max_llm_rounds (limits self) with
        | Some max_rounds =>
            if max_rounds <=? llm_rounds st
            then (self', Err (LlmRoundsReached max_rounds scope))
            else (self', Ok tt)
        | None => (self', Ok tt)
        end
    end.

Definition session_record_with_override (self : Registry) (now : Z) (scope : string)
    (input_tokens output_tokens : Z) (estimated_cost_usd : option f64)
    (allow_unpriced_completion : bool) : Registry * result unit BudgetError :=
  if negb (is_enabled self) then (self, Ok tt)
  else if poisoned self then (self, Err LockPoisoned)
  else settle_completion self scope
         (add_tokens (add_round (touch self now scope)) input_tokens output_tokens)
         estimated_cost_usd allow_unpriced_completion.

Definition session_record_llm_completion (self : Registry) (now : Z) (scope : string)
    (input_tokens output_tokens : Z) (estimated_cost_usd : option f64)
    : Registry * result unit BudgetError :=
  session_record_with_override self now scope input_tokens output_tokens estimated_cost_usd false.

(** The two registries reserve tool invocations with the same code. *)
Definition reserve_tool_invocations (self : Registry) (now : Z) (scope : string) (count : Z)
    : Registry * result unit BudgetError :=
  if negb (is_enabled self) || (count =? 0) then (self, Ok tt)
  else match max_tool_invocations (limits self) with
       | None => (self, Ok tt)
       | Some max_tools =>
           if poisoned self then (self, Err LockPoisoned)
           else
             let st := touch self now scope in
             let next := saturating_add (tool_invocations st) count in
             if max_tools <? next
             then (set_scope self scope st, Err (MaxToolInvocations max_tools next scope))
             else (set_scope self scope (set_tools st next), Ok tt)
       end.

Definition snapshot_counters (self : Registry) (scope : string) : option (Z * Z * f64) :=
  if poisoned self then None
  else st ← scopes self !! scope; Some (llm_rounds st, llm_tokens st, session_cost_usd st).

(** ** [RootSessionBudgetRegistry] *)

Definition root_check_pre_llm (self : Registry) (now later : Z) (root_session_id : string)
    : Registry * result unit BudgetError :=
  if negb (is_enabled self) then (self, Ok tt)
  else if poisoned self then (self, Err LockPoisoned)
  else
    let st := touch self now root_session_id in
    let self' := set_scope self root_session_id st in
    match wall_clock_exceeded self st later with
    | Some max_secs => (self', Err (WallClockExceeded max_secs root_session_id))
    | None => (self', Ok tt)
    end.

Definition reserve_llm_round (self : Registry) (now : Z) (root_session_id : string)
    : Registry * result unit BudgetError :=
  if negb (is_enabled self) then (self, Ok tt)
  else match max_llm_rounds (limits self) with
       | None => (self, Ok tt)
       | Some max_rounds =>
           if poisoned self then (self, Err LockPoisoned)
           else
             let st := touch self now root_session_id in
             let next := saturating_add (llm_rounds st) 1 in
             if max_rounds <? next
             then (set_scope self root_session_id st,
                   Err (MaxLlmRounds max_rounds next root_session_id))
             else (set_scope self root_session_id (set_rounds st next), Ok tt)
       end.

Definition root_record_with_override (self : Registry) (now : Z) (root_session_id : string)
    (input_tokens output_tokens : Z) (estimated_cost_usd : option f64)
    (allow_unpriced_completion : bool) : Registry * result unit BudgetError :=
  if negb (is_enabled self) then (self, Ok tt)
  else if poisoned self then (self, Err LockPoisoned)
  else settle_completion self root_session_id
         (add_tokens (touch self now root_session_id) input_tokens output_tokens)
         estimated_cost_usd allow_unpriced_completion.

Definition root_record_llm_completion (self : Registry) (now : Z) (root_session_id : string)
    (input_tokens output_tokens : Z) (estimated_cost_usd : option f64)
    : Registry * result unit BudgetError :=
  root_record_with_override self now root_session_id input_tokens output_tokens
    estimated_cost_usd false.

(** These three are, line for line, those of the session registry. *)
Definition root_is_enabled (self : Registry) : bool := is_enabled self.
Definition root_reserve_tool_invocations (self : Registry) (now : Z) (root_session_id : string)
    (count : Z) : Registry * result unit BudgetError :=
  reserve_tool_invocations self now root_session_id count.
Definition root_snapshot_counters (self : Registry) (root_session_id : string)
    : option (Z * Z * f64) := snapshot_counters self root_session_id.

Definition remove_tree (self : Registry) (root_session_id : string) : Registry :=
  if poisoned self then self
  else {| limits := limits self; scopes := delete root_session_id (scopes self);
          poisoned := poisoned self |}.

(** ** Runs of a registry *)

Inductive Op : Type :=
| SessionCheck (now later : Z) (scope : string)
| SessionRecord (now : Z) (scope : string) (input_tokens output_tokens : Z)
    (cost : option f64) (allow_unpriced : bool)
| ReserveTools (now : Z) (scope : string) (count : Z)
| RootCheck (now later : Z) (scope : string)
| ReserveRound (now : Z) (scope : string)
| RootRecord (now : Z) (scope : string) (input_tokens output_tokens : Z)
    (cost : option f64) (allow_unpriced : bool)
| RemoveTree (scope : string)
| Poison.

Definition run_op (self : Registry) (op : Op) : Registry * result unit BudgetError :=
  match op with
  | SessionCheck now later scope => session_check_pre_llm self now later scope
  | SessionRecord now scope i o c a => session_record_with_override self now scope i o c a
  | ReserveTools now scope count => reserve_tool_invocations self now scope count
  | RootCheck now later scope => root_check_pre_llm self now later scope
  | ReserveRound now scope => reserve_llm_round self now scope
  | RootRecord now scope i o c a => root_record_with_override self now scope i o c a
  | RemoveTree scope => (remove_tree self scope, Ok tt)
  | Poison => ({| limits := limits self; scopes := scopes self; poisoned := true |}, Ok tt)
  end.

Definition run_ops (self : Registry) (ops : list Op) : Registry :=
  fold_left (λ s op, (run_op s op).1) ops self.

(** The operations of each registry; a panic elsewhere may poison the lock. *)
Definition session_op (op : Op) : bool :=
  match op with SessionCheck _ _ _ | SessionRecord _ _ _ _ _ _ | ReserveTools _ _ _ | Poison => true
  | _ => false end.
Definition root_op (op : Op) : bool :=
  match op with RootCheck _ _ _ | RootRecord _ _ _ _ _ _ | ReserveTools _ _ _ | ReserveRound _ _
  | RemoveTree _ | Poison => true | _ => false end.

(** Arguments within their machine types. *)
Definition op_typed (op : Op) : Prop :=
  match op with
  | SessionRecord _ _ i o _ _ | RootRecord _ _ i o _ _ => is_u64 i ∧ is_u64 o
  | ReserveTools _ _ count => is_u64 count
  | _ => True
  end.

(** ** Lemmas: one entry *)

Lemma limits_run_op self op : limits (run_op self op).1 = limits self.
Proof.
  destruct op; simpl; unfold session_check_pre_llm, session_record_with_override,
    reserve_tool_invocations, root_check_pre_llm, reserve_llm_round, root_record_with_override,
    settle_completion, remove_tree; repeat case_match; done.
Qed.

Lemma limits_run_ops self ops : limits (run_ops self ops) = limits self.
Proof.
  revert self. unfold run_ops. induction ops as [|op ops IH]; intros self; simpl; [done|].
  by rewrite IH, limits_run_op.
Qed.

Definition op_scope (op : Op) : option string :=
  match op with
  | SessionCheck _ _ k | SessionRecord _ k _ _ _ _ | ReserveTools _ k _ | RootCheck _ _ k
  | ReserveRound _ k | RootRecord _ k _ _ _ _ | RemoveTree k => Some k
  | Poison => None
  end.

(** Counters within their machine types. *)
Definition counters_typed (st : Counters) : Prop :=
  is_u64 (llm_rounds st) ∧ is_u64 (tool_invocations st) ∧ is_u64 (llm_tokens st).

Definition registry_typed (self : Registry) : Prop :=
  ∀ k st, scopes self !! k = Some st → counters_typed st.

(** Counters only grow and the clock is started once. *)
Definition grows (a b : Counters) : Prop :=
  llm_rounds a ≤ llm_rounds b ∧ tool_invocations a ≤ tool_invocations b ∧
  llm_tokens a ≤ llm_tokens b ∧ (∀ t, clock_start a = Some t → clock_start b = Some t).

#[export] Instance grows_preorder : PreOrder grows.
Proof.
  split; [by intros a; split_and!|].
  intros a b c (?&?&?&?) (?&?&?&?). split_and!; [lia..|]. eauto.
Qed.

Lemma saturating_add_0 b : is_u64 b → saturating_add 0 b = b.
Proof. unfold is_u64, saturating_add. lia. Qed.

Section Entry.
Context (self : Registry) (Htyped : registry_typed self).

Lemma touch_typed now k : counters_typed (touch self now k).
Proof.
  unfold touch. destruct (scopes self !! k) as [st|] eqn:E; simpl.
  - specialize (Htyped k st E). by destruct (clock_start st).
  - unfold counters_typed, is_u64, U64_MAX; simpl. lia.
Qed.

Lemma touch_grows now k st : scopes self !! k = Some st → grows st (touch self now k).
Proof.
  intros E. unfold touch. rewrite E; simpl. destruct (clock_start st) eqn:Ec; [done|].
  split_and!; simpl; [done..|]. congruence.
Qed.

Lemma touch_counts now k :
  let st := default counters_default (scopes self !! k) in
  llm_rounds (touch self now k) = llm_rounds st ∧
  tool_invocations (touch self now k) = tool_invocations st ∧
  llm_tokens (touch self now k) = llm_tokens st ∧
  session_cost_usd (touch self now k) = session_cost_usd st.
Proof. intros st. unfold touch. fold st. by destruct (clock_start st). Qed.
End Entry.

Lemma add_round_grows st : counters_typed st → grows st (add_round st) ∧ counters_typed (add_round st).
Proof.
  intros (H1 & H2 & H3). assert (is_u64 1) by (unfold is_u64, U64_MAX; lia).
  split; split_and!; simpl; try done;
    [by apply saturating_add_ge|by apply saturating_add_u64].
Qed.

Lemma add_tokens_grows st i o :
  counters_typed st → is_u64 i → is_u64 o →
  grows st (add_tokens st i o) ∧ counters_typed (add_tokens st i o).
Proof.
  intros (H1 & H2 & H3) Hi Ho. pose proof (saturating_add_u64 i o Hi Ho).
  split; split_and!; simpl; try done;
    [by apply saturating_add_ge|by apply saturating_add_u64].
Qed.

(** The entry a completion leaves, before the checks. *)
Definition settled (st : Counters) (cost : option f64) : Counters :=
  match cost with
  | Some c => if f64_is_finite c && f64_ge c f64_zero then add_cost st c else st
  | None => st
  end.

Lemma settled_counts st cost :
  llm_rounds (settled st cost) = llm_rounds st ∧
  tool_invocations (settled st cost) = tool_invocations st ∧
  llm_tokens (settled st cost) = llm_tokens st ∧ clock_start (settled st cost) = clock_start st.
Proof. unfold settled. by repeat case_match. Qed.

Lemma settle_completion_scopes self k st cost a :
  (settle_completion self k st cost a).1 = set_scope self k (settled st cost).
Proof. unfold settle_completion. fold (settled st cost). by repeat case_match. Qed.

(** The entry an operation leaves behind, if it writes one. *)
Definition written (self : Registry) (op : Op) (k : string) (st : Counters) : Prop :=
  match op with
  | SessionCheck now _ s | RootCheck now _ s => s = k ∧ st = touch self now k
  | SessionRecord now s i o c _ =>
      s = k ∧ st = settled (add_tokens (add_round (touch self now k)) i o) c
  | RootRecord now s i o c _ => s = k ∧ st = settled (add_tokens (touch self now k) i o) c
  | ReserveTools now s count =>
      s = k ∧ (st = touch self now k ∨
        st = set_tools (touch self now k)
               (saturating_add (tool_invocations (touch self now k)) count) ∧
        ∀ m, max_tool_invocations (limits self) = Some m →
             saturating_add (tool_invocations (touch self now k)) count ≤ m)
  | ReserveRound now s =>
      s = k ∧ (st = touch self now k ∨
        st = set_rounds (touch self now k) (saturating_add (llm_rounds (touch self now k)) 1) ∧
        ∀ m, max_llm_rounds (limits self) = Some m →
             saturating_add (llm_rounds (touch self now k)) 1 ≤ m)
  | RemoveTree _ | Poison => False
  end.

Lemma run_op_written self op :
  (scopes (run_op self op).1 = scopes self) ∨
  (∃ k, op = RemoveTree k ∧ scopes (run_op self op).1 = delete k (scopes self)) ∨
  (∃ k st, written self op k st ∧ scopes (run_op self op).1 = <[k := st]> (scopes self)).
Proof.
  destruct op; cbn [run_op fst scopes written]; try (by left).
  - unfold session_check_pre_llm. repeat case_match; try (by left); right; right; by eexists _, _.
  - unfold session_record_with_override. repeat case_match; try (by left).
    right; right. rewrite settle_completion_scopes. by eexists _, _.
  - unfold reserve_tool_invocations. repeat case_match; try (by left); right; right;
      (eexists _, _; split; [split; [done|]|done]); [by left|]. right. split; [done|].
    intros m [= <-]. by apply Z.ltb_ge.
  - unfold root_check_pre_llm. repeat case_match; try (by left); right; right; by eexists _, _.
  - unfold reserve_llm_round. repeat case_match; try (by left); right; right;
      (eexists _, _; split; [split; [done|]|done]); [by left|]. right. split; [done|].
    intros m [= <-]. by apply Z.ltb_ge.
  - unfold root_record_with_override. repeat case_match; try (by left).
    right; right. rewrite settle_completion_scopes. by eexists _, _.
  - unfold remove_tree. case_match; [by left|]. right; left. by eexists.
Qed.

Lemma written_grows self op k st :
  registry_typed self → op_typed op → written self op k st →
  counters_typed st ∧ ∀ old, scopes self !! k = Some old → grows old st.
Proof.
  intros HT Ho Hw.
  assert (∀ now, counters_typed (touch self now k)) as Ht by (intros; by apply touch_typed).
  assert (∀ now st', grows (touch self now k) st' →
    ∀ old, scopes self !! k = Some old → grows old st') as Hg.
  { intros now st' H old Hold. trans (touch self now k); [by apply touch_grows|done]. }
  destruct op; cbn [written op_typed] in *; try done; destruct Hw as [-> Hw].
  - subst. split; [done|]. by eapply Hg.
  - destruct Ho as [Hi Ho]. destruct (add_round_grows _ (Ht now)) as [G1 T1].
    destruct (add_tokens_grows _ _ _ T1 Hi Ho) as [G2 T2]. subst.
    destruct (settled_counts (add_tokens (add_round (touch self now k)) input_tokens output_tokens) cost)
      as (E1 & E2 & E3 & E4).
    unfold counters_typed. rewrite E1, E2, E3. split; [done|]. apply (Hg now).
    trans (add_tokens (add_round (touch self now k)) input_tokens output_tokens); [by etrans|].
    unfold grows. rewrite E1, E2, E3, E4. by split_and!.
  - destruct (Ht now) as (T1 & T2 & T3). destruct Hw as [->|[-> Hm]].
    + split; [done|]. by eapply Hg.
    + split; [split_and!; [done|by apply saturating_add_u64|done]|]. apply (Hg now).
      split_and!; simpl; try done. by apply saturating_add_ge.
  - subst. split; [done|]. by eapply Hg.
  - destruct (Ht now) as (T1 & T2 & T3). assert (is_u64 1) by (unfold is_u64, U64_MAX; lia).
    destruct Hw as [->|[-> Hm]].
    + split; [done|]. by eapply Hg.
    + split; [split_and!; [by apply saturating_add_u64|done|done]|]. apply (Hg now).
      split_and!; simpl; try done. by apply saturating_add_ge.
  - destruct Ho as [Hi Ho]. destruct (add_tokens_grows _ _ _ (Ht now) Hi Ho) as [G2 T2]. subst.
    destruct (settled_counts (add_tokens (touch self now k) input_tokens output_tokens) cost)
      as (E1 & E2 & E3 & E4).
    unfold counters_typed. rewrite E1, E2, E3. split; [done|]. apply (Hg now).
    trans (add_tokens (touch self now k) input_tokens output_tokens); [done|].
    unfold grows. rewrite E1, E2, E3, E4. by split_and!.
Qed.

Lemma run_op_typed self op :
  registry_typed self → op_typed op → registry_typed (run_op self op).1.
Proof.
  intros HT Ho k st. destruct (run_op_written self op) as [->|[(k' & _ & ->)|(k' & st' & Hw & ->)]].
  - apply HT.
  - intros [_ H]%lookup_delete_Some. by eapply HT.
  - intros [[<- <-]|[_ H]]%lookup_insert_Some; [|by eapply HT].
    by apply (written_grows self op k' st').
Qed.

Lemma run_op_grows self op k st :
  registry_typed self → op_typed op → op ≠ RemoveTree k → scopes self !! k = Some st →
  ∃ st', scopes (run_op self op).1 !! k = Some st' ∧ grows st st'.
Proof.
  intros HT Ho Hne Hk. destruct (run_op_written self op) as [->|[(k' & -> & ->)|(k' & st' & Hw & ->)]].
  - by exists st.
  - exists st. split; [|done]. rewrite lookup_delete_ne; [done|]. congruence.
  - destruct (decide (k' = k)) as [->|].
    + exists st'. rewrite lookup_insert_eq. split; [done|].
      destruct (written_grows self op k st') as [_ H]; auto.
    + exists st. by rewrite lookup_insert_ne.
Qed.

(** The other scopes are untouched. *)
Lemma run_op_other self op k :
  op_scope op ≠ Some k → scopes (run_op self op).1 !! k = scopes self !! k.
Proof.
  intros Hne. destruct (run_op_written self op) as [->|[(k' & -> & ->)|(k' & st' & Hw & ->)]].
  - done.
  - rewrite lookup_delete_ne; [done|]. simpl in Hne. congruence.
  - rewrite lookup_insert_ne; [done|]. intros ->. apply Hne. destruct op; simpl in *; naive_solver.
Qed.

Lemma run_ops_typed self ops :
  registry_typed self → Forall op_typed ops → registry_typed (run_ops self ops).
Proof.
  intros HT HF. revert self HT. unfold run_ops.
  induction HF as [|op ops Ho _ IH]; intros self HT; simpl; [done|]. apply IH. by apply run_op_typed.
Qed.

Lemma run_ops_grows self ops k st :
  registry_typed self → Forall op_typed ops → RemoveTree k ∉ ops → scopes self !! k = Some st →
  ∃ st', scopes (run_ops self ops) !! k = Some st' ∧ grows st st'.
Proof.
  intros HT HF. revert self st HT. unfold run_ops.
  induction HF as [|op ops Ho _ IH]; intros self st HT Hr Hk; simpl; [by exists st|].
  apply not_elem_of_cons in Hr as [Hne Hr].
  destruct (run_op_grows self op k st) as (st1 & H1 & G1); [done..| |done|]; [congruence|].
  destruct (IH (run_op self op).1 st1) as (st2 & H2 & G2); [by apply run_op_typed|done|done|].
  exists st2. split; [done|]. by trans st1.
Qed.

(** ** Limits are never exceeded *)

Definition config_typed (c : BudgetConfig) : Prop :=
  (∀ m, max_llm_rounds c = Some m → is_u64 m) ∧ (∀ m, max_tool_invocations c = Some m → is_u64 m).

Definition tools_within (self : Registry) : Prop :=
  ∀ k st m, scopes self !! k = Some st → max_tool_invocations (limits self) = Some m →
    tool_invocations st ≤ m.

Definition rounds_within (self : Registry) : Prop :=
  ∀ k st m, scopes self !! k = Some st → max_llm_rounds (limits self) = Some m → llm_rounds st ≤ m.

Lemma touch_within self now k :
  config_typed (limits self) →
  (tools_within self → ∀ m, max_tool_invocations (limits self) = Some m →
     tool_invocations (touch self now k) ≤ m) ∧
  (rounds_within self → ∀ m, max_llm_rounds (limits self) = Some m →
     llm_rounds (touch self now k) ≤ m).
Proof.
  intros [HR HTl]. destruct (touch_counts self now k) as (E1 & E2 & _ & _). rewrite E1, E2.
  destruct (scopes self !! k) as [st|] eqn:E; simpl.
  - split; intros H m Hm; by eapply H.
  - split; intros _ m Hm; [apply HTl in Hm|apply HR in Hm]; by destruct Hm.
Qed.

Lemma run_op_tools_within self op :
  config_typed (limits self) → tools_within self → tools_within (run_op self op).1.
Proof.
  intros Hc Hw k st m. rewrite limits_run_op.
  destruct (run_op_written self op) as [->|[(k' & _ & ->)|(k' & st' & Hwr & ->)]].
  - apply Hw.
  - intros [_ H]%lookup_delete_Some. by eapply Hw.
  - intros [[<- <-]|[_ H]]%lookup_insert_Some Hm; [|by eapply Hw].
    assert (∀ now, tool_invocations (touch self now k') ≤ m) as Ht
      by (intros; by apply touch_within).
    destruct op; cbn [written] in Hwr; try done; destruct Hwr as [_ Hwr]; subst; try apply Ht.
    + rewrite (proj1 (proj2 (settled_counts _ _))). apply Ht.
    + destruct Hwr as [->|[-> H]]; [apply Ht|by apply H].
    + destruct Hwr as [->|[-> _]]; apply Ht.
    + rewrite (proj1 (proj2 (settled_counts _ _))). apply Ht.
Qed.

Lemma run_op_rounds_within self op :
  config_typed (limits self) → root_op op = true → rounds_within self →
  rounds_within (run_op self op).1.
Proof.
  intros Hc Hop Hw k st m. rewrite limits_run_op.
  destruct (run_op_written self op) as [->|[(k' & _ & ->)|(k' & st' & Hwr & ->)]].
  - apply Hw.
  - intros [_ H]%lookup_delete_Some. by eapply Hw.
  - intros [[<- <-]|[_ H]]%lookup_insert_Some Hm; [|by eapply Hw].
    assert (∀ now, llm_rounds (touch self now k') ≤ m) as Ht
      by (intros; by apply touch_within).
    destruct op; cbn [written] in Hwr; try done; destruct Hwr as [_ Hwr]; subst; try apply Ht.
    + destruct Hwr as [->|[-> _]]; apply Ht.
    + destruct Hwr as [->|[-> H]]; [apply Ht|by apply H].
    + rewrite (proj1 (settled_counts _ _)). apply Ht.
Qed.

(** C35: No run of a session-tree registry, whatever the interleaving of its
    operations over the trees and whatever they return, takes a tree above its
    round limit or above its tool limit. *)
Theorem root_budget_never_exceeded c ops k st :
  config_typed c → Forall (λ op, root_op op = true) ops →
  scopes (run_ops (new_registry c) ops) !! k = Some st →
  (∀ m, max_llm_rounds c = Some m → llm_rounds st ≤ m) ∧
  (∀ m, max_tool_invocations c = Some m → tool_invocations st ≤ m).
Proof.
  intros Hc HF.
  assert (∀ self, limits self = c → tools_within self → rounds_within self →
    tools_within (run_ops self ops) ∧ rounds_within (run_ops self ops)) as H.
  { unfold run_ops. induction HF as [|op ops Ho _ IH]; intros self <- HT HR; simpl; [done|].
    apply IH; [by apply limits_run_op|by apply run_op_tools_within|by apply run_op_rounds_within]. }
  destruct (H (new_registry c)) as [HT HR]; [done|by intros ???|by intros ???|].
  intros Hk. split; intros m Hm; [eapply HR|eapply HT]; try exact Hk; by rewrite limits_run_ops.
Qed.

Definition demo_limits (rounds tools : Z) : BudgetConfig :=
  {| max_llm_rounds := Some rounds; max_tool_invocations := Some tools; max_llm_tokens := Some 100;
     max_wall_clock_secs := Some 60; max_session_price_usd := None |}.

Lemma demo_limits_typed r t : is_u64 r → is_u64 t → config_typed (demo_limits r t).
Proof. intros Hr Ht. split; by intros m [= <-]. Qed.

Lemma root_budget_never_exceeded_witness :
  let ops := [ReserveRound 0 "t"; ReserveRound 1 "t"; ReserveRound 2 "t"; ReserveTools 3 "t" 5] in
  ∃ st, scopes (run_ops (new_registry (demo_limits 2 9)) ops) !! "t" = Some st ∧
    llm_rounds st = 2 ∧ tool_invocations st ≤ 9.
Proof.
  intros ops. eexists. split; [vm_compute; reflexivity|]. split; [reflexivity|].
  refine (proj2 (root_budget_never_exceeded (demo_limits 2 9) ops "t" _ _ _ _) 9 eq_refl).
  - apply demo_limits_typed; unfold is_u64, U64_MAX; lia.
  - repeat constructor.
  - vm_compute. reflexivity.
Defined.

(** ** Budgets latch *)

Lemma session_record_over_tokens self now k i o c a st m :
  registry_typed self → is_u64 i → is_u64 o →
  scopes self !! k = Some st → max_llm_tokens (limits self) = Some m → m < llm_tokens st →
  (session_record_with_override self now k i o c a).2 ≠ Ok tt.
Proof.
  intros HT Hi Ho Hk Hm Hlt. unfold session_record_with_override.
  assert (is_enabled self = true) as ->.
  { unfold is_enabled. rewrite Hm. simpl. by rewrite !orb_true_r. }
  simpl. destruct (poisoned self); [done|]. unfold settle_completion. rewrite Hm.
  set (st' := add_tokens _ _ _). fold (settled st' c).
  destruct (settled_counts st' c) as (_ & _ & E & _). rewrite E.
  assert (m < llm_tokens st') as Hlt'.
  { destruct (add_round_grows (touch self now k)) as [G1 T1]; [by apply touch_typed|].
    destruct (add_tokens_grows (add_round (touch self now k)) i o) as [G2 T2]; [done..|].
    pose proof (touch_grows self now k st Hk) as G0.
    destruct G0 as (_ & _ & ? & _), G1 as (_ & _ & ? & _), G2 as (_ & _ & ? & _).
    subst st'. lia. }
  repeat case_match; simpl; try done; by rewrite Z.ltb_ge in *; lia.
Qed.

Lemma elapsed_secs_mono s a b : a ≤ b → elapsed_secs s a ≤ elapsed_secs s b.
Proof. intros H. unfold elapsed_secs. apply Z.div_le_mono; lia. Qed.

(** An exhausted session budget stays exhausted.  Once the tokens of a
    session exceed their limit, the rounds have reached theirs, or the wall
    clock has run out, then after any further operations of the registry, on
    this session or others, every later completion is refused, respectively
    every later pre-flight check. *)
Theorem session_budget_latches self ops k st :
  registry_typed self → Forall (λ op, session_op op = true ∧ op_typed op) ops →
  scopes self !! k = Some st →
  let self' := run_ops self ops in
  (∀ m now i o c a, max_llm_tokens (limits self) = Some m → m < llm_tokens st →
     is_u64 i → is_u64 o → (session_record_with_override self' now k i o c a).2 ≠ Ok tt) ∧
  (∀ m now later, max_llm_rounds (limits self) = Some m → m ≤ llm_rounds st →
     (session_check_pre_llm self' now later k).2 ≠ Ok tt) ∧
  (∀ m t0 now later0 later, max_wall_clock_secs (limits self) = Some m →
     clock_start st = Some t0 → m ≤ elapsed_secs t0 later0 → later0 ≤ later →
     (session_check_pre_llm self' now later k).2 ≠ Ok tt).
Proof.
  intros HT HF Hk self'.
  assert (Forall op_typed ops) as HF1 by (eapply Forall_impl; [exact HF|naive_solver]).
  assert (RemoveTree k ∉ ops) as Hr.
  { intros Hin. eapply Forall_forall in HF as [H _]; [|exact Hin]. done. }
  destruct (run_ops_grows self ops k st HT HF1 Hr Hk) as (st' & Hk' & GR & GT & GK & GC).
  assert (registry_typed self') as HT' by (by apply run_ops_typed).
  assert (limits self' = limits self) as HL by apply limits_run_ops.
  fold self' in Hk'. clearbody self'.
  assert (∀ now later, (∃ m, max_llm_rounds (limits self') = Some m ∧ m ≤ llm_rounds st') ∨
    (∃ m t0, max_wall_clock_secs (limits self') = Some m ∧ clock_start st' = Some t0 ∧
       m ≤ elapsed_secs t0 later) →
    (session_check_pre_llm self' now later k).2 ≠ Ok tt) as HC.
  { intros now later H. unfold session_check_pre_llm.
    assert (is_enabled self' = true) as ->.
    { unfold is_enabled. destruct H as [(m & -> & _)|(m & t0 & -> & _)]; simpl;
        by rewrite ?orb_true_r. }
    simpl. destruct (poisoned self'); [done|].
    destruct (touch_counts self' now k) as (E1 & _). rewrite E1, Hk'. simpl.
    destruct H as [(m & -> & Hm)|(m & t0 & Hw & Ht & Hm)].
    - destruct (wall_clock_exceeded _ _ _); [done|]. by destruct (Z.leb_spec m (llm_rounds st')); [|lia].
    - unfold wall_clock_exceeded. rewrite Hw. simpl.
      destruct (touch_grows self' now k st' Hk') as (_ & _ & _ & Hc).
      rewrite (Hc t0 Ht). simpl. by destruct (Z.leb_spec m (elapsed_secs t0 later)); [|lia]. }
  split_and!.
  - intros m now i o c a Hm Hlt Hi Ho. eapply session_record_over_tokens; eauto; [by rewrite HL|lia].
  - intros m now later Hm Hle. apply HC. left. exists m. rewrite HL. split; [done|lia].
  - intros m t0 now later0 later Hm Ht Hle Hla. apply HC. right. exists m, t0. rewrite HL.
    split_and!; [done|by apply GC|]. pose proof (elapsed_secs_mono t0 later0 later Hla). lia.
Qed.

Lemma session_budget_latches_witness :
  let self := run_ops (new_registry (demo_limits 2 9)) [SessionRecord 0 "s" 60 50 None false] in
  (session_record_with_override (run_ops self [ReserveTools 5 "s" 1; SessionCheck 6 7 "u"])
     8 "s" 0 0 None false).2 ≠ Ok tt.
Proof.
  intros self. assert (∀ z, 0 <= z <= 1000 → is_u64 z) as Hu by (unfold is_u64, U64_MAX; lia).
  refine (proj1 (session_budget_latches self _ "s" _ _ _ _) 100 8 0 0 None false _ _ _ _).
  - subst self. apply run_ops_typed; [by intros ? ?|]. by repeat constructor.
  - by repeat constructor.
  - vm_compute. reflexivity.
  - reflexivity.
  - reflexivity.
  - apply Hu. lia.
  - apply Hu. lia.
Defined.

(** ** Workers sharing one session *)

(** [inflight] workers have passed the pre-flight check of session [k] and have
    not yet recorded their completion. *)
Record World := { registry : Registry; inflight : Z }.

Section Workers.
Context (workers : Z) (k : string).

(** One worker's turn: check, complete, record; the provider call may fail, and
    anything may happen on the other scopes and on the tool counter. *)
Inductive world_step : World → World → Prop :=
| step_start reg reg' n now later :
    n < workers → session_check_pre_llm reg now later k = (reg', Ok tt) →
    world_step {| registry := reg; inflight := n |} {| registry := reg'; inflight := n + 1 |}
| step_refused reg reg' n now later e :
    session_check_pre_llm reg now later k = (reg', Err e) →
    world_step {| registry := reg; inflight := n |} {| registry := reg'; inflight := n |}
| step_finish reg reg' n now i o c a r :
    0 < n → session_record_with_override reg now k i o c a = (reg', r) →
    world_step {| registry := reg; inflight := n |} {| registry := reg'; inflight := n - 1 |}
| step_abandon reg n :
    0 < n → world_step {| registry := reg; inflight := n |} {| registry := reg; inflight := n - 1 |}
| step_other reg n op :
    op_scope op ≠ Some k →
    world_step {| registry := reg; inflight := n |} {| registry := (run_op reg op).1; inflight := n |}
| step_tools reg n now count :
    world_step {| registry := reg; inflight := n |}
      {| registry := (reserve_tool_invocations reg now k count).1; inflight := n |}.

Definition rounds_of (reg : Registry) : Z :=
  llm_rounds (default counters_default (scopes reg !! k)).

Definition world_inv (m : Z) (w : World) : Prop :=
  max_llm_rounds (limits (registry w)) = Some m ∧ 0 ≤ inflight w ∧
  rounds_of (registry w) + inflight w ≤ m + workers - 1.

Lemma rounds_of_insert reg st : rounds_of (set_scope reg k st) = llm_rounds st.
Proof. unfold rounds_of, set_scope; simpl. by rewrite lookup_insert_eq. Qed.

Lemma rounds_of_touch reg now : llm_rounds (touch reg now k) = rounds_of reg.
Proof. apply touch_counts. Qed.

Lemma session_check_rounds reg now later :
  rounds_of (session_check_pre_llm reg now later k).1 = rounds_of reg ∧
  ((session_check_pre_llm reg now later k).2 = Ok tt → poisoned reg = false →
   ∀ m, max_llm_rounds (limits reg) = Some m → rounds_of reg < m).
Proof.
  unfold session_check_pre_llm. destruct (is_enabled reg) eqn:Een; simpl.
  - destruct (poisoned reg); simpl; [done|].
    destruct (wall_clock_exceeded _ _ _); simpl; [by rewrite rounds_of_insert, rounds_of_touch|].
    destruct (max_llm_rounds (limits reg)) as [mr|] eqn:Em;
      [destruct (Z.leb_spec mr (llm_rounds (touch reg now k)))|]; simpl;
      rewrite rounds_of_insert, rounds_of_touch in *; (split; [done|]); try done.
    intros _ _ m [= <-]. done.
  - split; [done|]. intros _ _ m Hm. unfold is_enabled in Een. by rewrite Hm in Een.
Qed.

Lemma session_record_rounds reg now i o c a :
  rounds_of (session_record_with_override reg now k i o c a).1 ≤ rounds_of reg + 1.
Proof.
  unfold session_record_with_override. destruct (negb (is_enabled reg)); simpl; [lia|].
  destruct (poisoned reg); simpl; [lia|]. rewrite settle_completion_scopes, rounds_of_insert.
  destruct (settled_counts (add_tokens (add_round (touch reg now k)) i o) c) as (-> & _).
  simpl. rewrite rounds_of_touch. unfold saturating_add. lia.
Qed.

Lemma check_not_poisoned reg now later reg' m :
  session_check_pre_llm reg now later k = (reg', Ok tt) →
  max_llm_rounds (limits reg) = Some m → poisoned reg = false.
Proof.
  unfold session_check_pre_llm. intros H Hm.
  assert (is_enabled reg = true) as Een by (unfold is_enabled; by rewrite Hm).
  rewrite Een in H. simpl in H. by destruct (poisoned reg).
Qed.

Lemma world_step_inv m w w' : 1 ≤ m → world_inv m w → world_step w w' → world_inv m w'.
Proof.
  intros Hm (HM & Hn & Hr) Hs. unfold world_inv.
  destruct Hs as [reg reg' n now later Hlt Hck|reg reg' n now later e Hck
    |reg reg' n now i o c a r Hpos Hrec|reg n Hpos|reg n op Hop|reg n now count]; simpl in *.
  - destruct (session_check_rounds reg now later) as [E1 E2].
    pose proof (limits_run_op reg (SessionCheck now later k)) as HL. simpl in HL.
    pose proof (check_not_poisoned _ _ _ _ _ Hck HM) as Hp.
    rewrite Hck in E1, E2, HL. simpl in *. rewrite HL, E1. specialize (E2 eq_refl Hp m HM).
    split_and!; [done|lia|lia].
  - destruct (session_check_rounds reg now later) as [E1 _].
    pose proof (limits_run_op reg (SessionCheck now later k)) as HL. simpl in HL.
    rewrite Hck in E1, HL. simpl in *. by rewrite HL, E1.
  - pose proof (session_record_rounds reg now i o c a) as E1.
    pose proof (limits_run_op reg (SessionRecord now k i o c a)) as HL. simpl in HL.
    rewrite Hrec in E1, HL. simpl in *. rewrite HL. split_and!; [done|lia|lia].
  - split_and!; [done|lia|lia].
  - rewrite limits_run_op. split_and!; [done..|]. unfold rounds_of. by rewrite run_op_other.
  - pose proof (limits_run_op reg (ReserveTools now k count)) as HL. simpl in HL. rewrite HL.
    split_and!; [done..|].
    assert (rounds_of (reserve_tool_invocations reg now k count).1 = rounds_of reg) as ->; [|done].
    unfold reserve_tool_invocations. repeat case_match; simpl; try done;
      rewrite rounds_of_insert; simpl; apply rounds_of_touch.
Qed.

(** The round limit of a session is checked before a completion and
    counted after it, so workers that share the session can overshoot it, by
    at most one less than their number; a session with a single worker never
    exceeds it. *)
Theorem session_rounds_overshoot_bounded c m w :
  max_llm_rounds c = Some m → 1 ≤ m → 1 ≤ workers →
  rtc world_step {| registry := new_registry c; inflight := 0 |} w →
  rounds_of (registry w) ≤ m + workers - 1.
Proof.
  intros Hc Hm Hw Hr.
  assert (world_inv m w) as (_ & ? & ?); [|lia].
  remember {| registry := new_registry c; inflight := 0 |} as w0 eqn:E0.
  assert (world_inv m w0) as H0.
  { subst. split_and!; simpl; [done|lia|]. unfold rounds_of. simpl. rewrite lookup_empty. simpl. lia. }
  clear E0. induction Hr as [|w0 w1 w2 Hs _ IH]; [done|]. apply IH. by eapply world_step_inv.
Qed.
End Workers.

Lemma session_rounds_overshoot_bounded_witness :
  ∃ w, rtc (world_step 2 "s") {| registry := new_registry (demo_limits 1 9); inflight := 0 |} w ∧
    rounds_of "s" (registry w) = 2 ∧ rounds_of "s" (registry w) ≤ 1 + 2 - 1.
Proof.
  assert (∃ w, rtc (world_step 2 "s") {| registry := new_registry (demo_limits 1 9); inflight := 0 |} w
    ∧ rounds_of "s" (registry w) = 2) as (w & Hw & H2).
  { eexists. split.
    - eapply rtc_l; [eapply (step_start 2 "s" _ _ 0 0 0); [lia|vm_compute; reflexivity]|].
      eapply rtc_l; [eapply (step_start 2 "s" _ _ _ 0 0); [lia|vm_compute; reflexivity]|].
      eapply rtc_l; [eapply (step_finish 2 "s" _ _ _ 0 1 1 None true _); [lia|vm_compute; reflexivity]|].
      eapply rtc_l; [eapply (step_finish 2 "s" _ _ _ 0 1 1 None true _); [lia|vm_compute; reflexivity]|].
      apply rtc_refl.
    - vm_compute. reflexivity. }
  exists w. split_and!; [exact Hw|exact H2|].
  apply (session_rounds_overshoot_bounded 2 "s" (demo_limits 1 9) 1 w); [reflexivity|lia|lia|exact Hw].
Defined.

(** ** Behaviour of the operations *)

(** The used amounts of a scope, zero before its first use. *)
Definition used (self : Registry) (k : string) : Counters :=
  default counters_default (scopes self !! k).

(** The three refusals of a completion. *)
Definition unpriced_refused (l : BudgetConfig) (c : option f64) (a : bool) : bool :=
  match c, max_session_price_usd l with
  | None, Some p => f64_ge p f64_zero && negb a
  | _, _ => false
  end.
Definition tokens_refused (l : BudgetConfig) (tokens : Z) : bool :=
  match max_llm_tokens l with Some m => m <? tokens | None => false end.
Definition price_refused (l : BudgetConfig) (cost : f64) : bool :=
  match max_session_price_usd l with
  | Some p => f64_ge p f64_zero && f64_gt cost p
  | None => false
  end.

Lemma settle_completion_ok self k st c a :
  (settle_completion self k st c a).2 = Ok tt ↔
  unpriced_refused (limits self) c a = false ∧
  tokens_refused (limits self) (llm_tokens (settled st c)) = false ∧
  price_refused (limits self) (session_cost_usd (settled st c)) = false.
Proof.
  unfold settle_completion, unpriced_refused, tokens_refused, price_refused. fold (settled st c).
  destruct (match c with Some _ => _ | None => _ end); simpl; [by split; [|intros [? _]]|].
  destruct (max_llm_tokens _) as [m|]; [destruct (m <? _); simpl; [by split; [|intros (_ & ? & _)]|]|];
    simpl; (destruct (max_session_price_usd _) as [p|]; [|done]);
    destruct (f64_ge p f64_zero && _); simpl; (split; [done|by intros (_ & _ & ?)]).
Qed.

(** A completion is counted whatever the answer.  With the lock healthy and
    some limit configured, recording adds one round and the tokens, and the
    cost when it is a finite non-negative estimate; it succeeds exactly when
    the completion is priced (or needs no price), the tokens are within their
    limit and the cost does not exceed its own.  The tree registry does the
    same without the round. *)
Theorem completion_is_counted_and_judged self now k i o c a :
  is_enabled self = true → poisoned self = false →
  let st := settled (add_tokens (add_round (used self k)) i o) c in
  let root_st := settled (add_tokens (used self k) i o) c in
  let judged st r :=
    r = Ok tt ↔
    unpriced_refused (limits self) c a = false ∧
    tokens_refused (limits self) (llm_tokens st) = false ∧
    price_refused (limits self) (session_cost_usd st) = false in
  let after st self' :=
    llm_rounds (used self' k) = llm_rounds st ∧ llm_tokens (used self' k) = llm_tokens st ∧
    session_cost_usd (used self' k) = session_cost_usd st ∧
    tool_invocations (used self' k) = tool_invocations (used self k) in
  (after st (session_record_with_override self now k i o c a).1 ∧
   judged st (session_record_with_override self now k i o c a).2) ∧
  (after root_st (root_record_with_override self now k i o c a).1 ∧
   judged root_st (root_record_with_override self now k i o c a).2).
Proof.
  intros He Hp st root_st judged after.
  assert (∀ st0 st1, llm_rounds st0 = llm_rounds st1 → llm_tokens st0 = llm_tokens st1 →
    session_cost_usd st0 = session_cost_usd st1 → tool_invocations st0 = tool_invocations (used self k) →
    after (settled st1 c) (settle_completion self k st0 c a).1 ∧
    judged (settled st1 c) (settle_completion self k st0 c a).2) as H.
  { intros st0 st1 E1 E2 E3 E4. subst after judged. cbv beta.
    rewrite settle_completion_scopes, settle_completion_ok.
    unfold used at 1 2 3 4. simpl. rewrite lookup_insert_eq. simpl.
    assert (session_cost_usd (settled st0 c) = session_cost_usd (settled st1 c)) as ->.
    { unfold settled. repeat case_match; simpl; congruence. }
    destruct (settled_counts st0 c) as (-> & -> & -> & _), (settled_counts st1 c) as (-> & _ & -> & _).
    by rewrite E1, E2, E4. }
  destruct (touch_counts self now k) as (T1 & T2 & T3 & T4). fold (used self k) in *.
  unfold session_record_with_override, root_record_with_override. rewrite He, Hp. simpl.
  split; apply H; simpl; congruence.
Qed.

Lemma completion_is_counted_and_judged_witness :
  let self := new_registry (demo_limits 2 9) in
  (session_record_with_override self 0 "s" 60 40 None false).2 = Ok tt ∧
  llm_tokens (used (session_record_with_override self 0 "s" 60 50 None false).1 "s") = 110.
Proof.
  intros self. split.
  - apply (completion_is_counted_and_judged self 0 "s" 60 40 None false);
      [reflexivity|reflexivity|]. vm_compute. split_and!; reflexivity.
  - destruct (completion_is_counted_and_judged self 0 "s" 60 50 None false) as [[(_ & H & _) _] _];
      [reflexivity|reflexivity|]. rewrite H. vm_compute. reflexivity.
Defined.

(** A tool batch is reserved entirely or not at all: with the limit set and
    the lock healthy, a non-empty batch succeeds exactly when the total stays
    within the limit and then adds the batch, and a refused batch leaves the
    count as it was.  No other scope and no other counter changes. *)
Theorem tool_reservation_all_or_nothing self now k count m :
  max_tool_invocations (limits self) = Some m → poisoned self = false → count ≠ 0 →
  let next := saturating_add (tool_invocations (used self k)) count in
  let '(self', r) := reserve_tool_invocations self now k count in
  (r = Ok tt ↔ next ≤ m) ∧
  tool_invocations (used self' k) = (if is_ok r then next else tool_invocations (used self k)) ∧
  llm_rounds (used self' k) = llm_rounds (used self k) ∧
  llm_tokens (used self' k) = llm_tokens (used self k) ∧
  ∀ k', k' ≠ k → scopes self' !! k' = scopes self !! k'.
Proof.
  intros Hm Hp Hc next. unfold reserve_tool_invocations. rewrite Hm, Hp.
  assert (is_enabled self = true) as ->.
  { unfold is_enabled. rewrite Hm. simpl. by rewrite !orb_true_r. }
  destruct (Z.eqb_spec count 0); [done|]. simpl.
  destruct (touch_counts self now k) as (T1 & T2 & T3 & _). fold (used self k) in *.
  rewrite T2. fold next. unfold used.
  destruct (Z.ltb_spec m next); simpl; rewrite lookup_insert_eq; simpl; rewrite ?T1, ?T2, ?T3;
    (split_and!; [|done|done|done|intros; by rewrite lookup_insert_ne]).
  - split; [done|lia].
  - done.
Qed.

Lemma tool_reservation_all_or_nothing_witness :
  (reserve_tool_invocations (new_registry (demo_limits 2 9)) 0 "s" 10).2 ≠ Ok tt.
Proof.
  pose proof (tool_reservation_all_or_nothing (new_registry (demo_limits 2 9)) 0 "s" 10 9
    eq_refl eq_refl ltac:(lia)) as H.
  destruct (reserve_tool_invocations _ _ _ _) as [self' r]. destruct H as [H _]. simpl.
  rewrite H. vm_compute. intros Hc. by apply Hc.
Defined.
