(* ===== verification/CausalChain.v ===== *)
(** * The hash-chained causal log

    The model of [autonoetic-gateway/src/causal_chain.rs], of
    [read_all_entries_across_segments] in [.../causal_chain/rotation.rs] and of
    the entry type in [autonoetic-types/src/causal_chain.rs].

    A witness is its file (absent or a byte string), the content-addressed
    payload store beside it, the in-memory chain tip and the mutex's poison
    flag.  The clock, the fresh identifiers and the outcome of each write are
    arguments.  [sha256_hex] (the [sha2] crate) and the serde encoders and
    decoders are parameters; the laws the code relies on are the fields of
    [Sha256Hex], [JsonEncoder] and [EntryCodec]. *)

From Stdlib Require Import Ascii String.
From stdpp Require Import prelude gmap strings list.
From S2P Require Import Prelude RustStr Json.

Open Scope string_scope.
Open Scope nat_scope.
Open Scope list_scope.

(** ** Entries *)

Inductive EntryStatus : Type := StatusSuccess | StatusDenied | StatusError.

#[export] Instance EntryStatus_eq_dec : EqDecision EntryStatus.
Proof. solve_decision. Defined.

Definition status_str (s : EntryStatus) : string :=
  match s with StatusSuccess => "SUCCESS" | StatusDenied => "DENIED" | StatusError => "ERROR" end.

Definition WITNESS_FORMAT_VERSION_V1 : Z := 1.
Definition WITNESS_FORMAT_VERSION_V2 : Z := 2.

Record CausalChainEntry := {
  timestamp : string;
  log_id : string;
  actor_id : string;
  session_id : string;
  turn_id : option string;
  event_seq : Z;
  category : string;
  action : string;
  target : option string;
  status : EntryStatus;
  entry_reason : option string;
  payload : option Json;
  entry_payload_hash : option string;
  payload_ref : option string;
  enforced_rules : list string;
  format_version : Z;
  prev_hash : string;
  entry_hash : string;
}.

Definition is_lean_witness (self : CausalChainEntry) : bool :=
  (WITNESS_FORMAT_VERSION_V2 <=? format_version self)%Z.

(** ** Bytes *)

Definition newline : ascii := ch 10.

Definition lf_split (s : string) : list string := split (Ascii.eqb newline) s.

(** [str::from_utf8(..).is_ok()]: well-formed sequences of one to four bytes. *)
Definition byte_in (lo hi : nat) (c : ascii) : bool :=
  (lo <=? nat_of_ascii c) && (nat_of_ascii c <=? hi).

Fixpoint utf8_valid (s : string) : bool :=
  match s with
  | "" => true
  | String a r =>
      if byte_in 0 127 a then utf8_valid r
      else if byte_in 194 223 a then
        match r with String b r1 => byte_in 128 191 b && utf8_valid r1 | _ => false end
      else if byte_in 224 239 a then
        match r with
        | String b (String c r2) =>
            byte_in (if byte_in 224 224 a then 160 else 128)
                    (if byte_in 237 237 a then 159 else 191) b
            && byte_in 128 191 c && utf8_valid r2
        | _ => false
        end
      else if byte_in 240 244 a then
        match r with
        | String b (String c (String d r3)) =>
            byte_in (if byte_in 240 240 a then 144 else 128)
                    (if byte_in 244 244 a then 143 else 191) b
            && byte_in 128 191 c && byte_in 128 191 d && utf8_valid r3
        | _ => false
        end
      else false
  end.

(** ** The tail read *)

Definition blank (chunk : string) : bool := str_is_empty (trim_ascii chunk).

(** [chunks.iter().enumerate().rev().find(|(_, chunk)| ..)] *)
Definition last_nonblank_chunk (chunks : list string) : option (nat * string) :=
  List.find (λ c, negb (blank c.2)) (rev (imap pair chunks)).

(** The window loop of [read_tail_last_line]; the outer [None] is a run out of
    fuel. *)
Fixpoint tail_loop (fuel : nat) (file : string) (window : nat) : option (option string) :=
  match fuel with
  | 0 => None
  | S fuel' =>
      let len := String.length file in
      let start := len - window in
      let tail := skip start file in
      let retry_or_none :=
        if 0 <? start then tail_loop fuel' file (Nat.min (window * 4) len) else Some None in
      match last_nonblank_chunk (lf_split tail) with
      | Some (idx, chunk) =>
          if (0 <? idx) || (start =? 0) then Some (Some chunk) else retry_or_none
      | None => retry_or_none
      end
  end.

Definition TAIL_WINDOW : nat := 64 * 1024.

Definition read_tail_last_line (file : string) : option string :=
  default None (tail_loop (S (String.length file)) file TAIL_WINDOW).

(** ** Errors and outcomes of writes *)

Inductive ChainError : Type :=
| MutexPoisoned
| IoFailed
| ParseFailed
| UnsupportedVersion (v : Z)
| PayloadRefMissing (log_id : string)
| PayloadUnavailable (reference : string)
| PayloadMismatch (reference actual : string)
| SegmentBroken (filename expected got : string)
| CurrentBroken (expected got : string).

(** The message of the one error verification can meet. *)
Definition chain_error_display (e : ChainError) : string :=
  match e with
  | UnsupportedVersion v => ("unsupported witness format version: " ++ show_Z v)%string
  | _ => ""
  end.

(** What the file system did with an append of [n] bytes or more. *)
Inductive AppendIo : Type :=
| AppendDone
| AppendFailed (written : nat)
| SyncFailed.

Record Witness := {
  log_path : string;
  log_file : option string;
  payload_cas : gmap string string;
  last_hash : string;
  mutex_poisoned : bool;
}.

Definition is_noop_witness (log_path : string) : bool := (log_path =? "/dev/null")%string.

(** The arguments of [log] and [log_durable]. *)
Record LogRequest := {
  rq_actor_id : string;
  rq_session_id : string;
  rq_turn_id : option string;
  rq_event_seq : Z;
  rq_category : string;
  rq_action : string;
  rq_status : EntryStatus;
  rq_target : option string;
  rq_enforced_rules : list string;
  rq_payload : option Json;
}.

Record ChainVerification := {
  total_entries : nat;
  verified_entries : nat;
  broken_at : option nat;
  break_reason : option string;
}.

Definition is_intact (self : ChainVerification) : bool :=
  match broken_at self with None => true | Some _ => false end.

Record SegmentIndex := {
  segments : list string;
  current_segment_filename : string;
}.

Section Chain.
Context (sha256_hex : string → string) (json_to_string : Json → string)
        (json_from_str : string → option Json)
        (entry_to_string : CausalChainEntry → string)
        (entry_from_str : string → option CausalChainEntry).

(** ** Hashes *)

Definition payload_hash (payload : option Json) : option string :=
  (λ p, sha256_hex (json_to_string p)) <$> payload.

Definition canonical_v1 (timestamp log_id actor_id session_id : string) (turn_id : option string)
    (event_seq : Z) (category action : string) (status : EntryStatus)
    (payload_hash : option string) (prev_hash : string) : Json :=
  json_object
    [("timestamp", JString timestamp); ("log_id", JString log_id); ("actor_id", JString actor_id);
     ("session_id", JString session_id); ("turn_id", json_opt_str turn_id);
     ("event_seq", JNumber event_seq); ("category", JString category); ("action", JString action);
     ("status", JString (status_str status)); ("payload_hash", json_opt_str payload_hash);
     ("prev_hash", JString prev_hash)].

Definition compute_entry_hash (timestamp log_id actor_id session_id : string)
    (turn_id : option string) (event_seq : Z) (category action : string) (status : EntryStatus)
    (payload_hash : option string) (prev_hash : string) : string :=
  sha256_hex (json_to_string (canonical_v1 timestamp log_id actor_id session_id turn_id event_seq
    category action status payload_hash prev_hash)).

Definition canonical_v2 (timestamp log_id actor_id session_id : string) (turn_id : option string)
    (event_seq : Z) (category action : string) (target : option string) (status : EntryStatus)
    (enforced_rules : list string) (payload_hash payload_ref : option string)
    (prev_hash : string) : Json :=
  json_object
    [("timestamp", JString timestamp); ("log_id", JString log_id); ("actor_id", JString actor_id);
     ("session_id", JString session_id); ("turn_id", json_opt_str turn_id);
     ("event_seq", JNumber event_seq); ("category", JString category); ("action", JString action);
     ("target", json_opt_str target); ("status", JString (status_str status));
     ("enforced_rules", JArray (JString <$> enforced_rules));
     ("payload_hash", json_opt_str payload_hash); ("payload_ref", json_opt_str payload_ref);
     ("prev_hash", JString prev_hash); ("v", JNumber WITNESS_FORMAT_VERSION_V2)].

Definition compute_entry_hash_v2 (timestamp log_id actor_id session_id : string)
    (turn_id : option string) (event_seq : Z) (category action : string) (target : option string)
    (status : EntryStatus) (enforced_rules : list string) (payload_hash payload_ref : option string)
    (prev_hash : string) : string :=
  sha256_hex (json_to_string (canonical_v2 timestamp log_id actor_id session_id turn_id event_seq
    category action target status enforced_rules payload_hash payload_ref prev_hash)).

Definition verify_entry_hash (entry : CausalChainEntry) : result bool ChainError :=
  let e := entry in
  if (format_version e =? WITNESS_FORMAT_VERSION_V1)%Z then
    Ok (compute_entry_hash (timestamp e) (log_id e) (actor_id e) (session_id e) (turn_id e)
          (event_seq e) (category e) (action e) (status e) (entry_payload_hash e) (prev_hash e)
        =? entry_hash e)%string
  else if (format_version e =? WITNESS_FORMAT_VERSION_V2)%Z then
    Ok (compute_entry_hash_v2 (timestamp e) (log_id e) (actor_id e) (session_id e) (turn_id e)
          (event_seq e) (category e) (action e) (target e) (status e) (enforced_rules e)
          (entry_payload_hash e) (payload_ref e) (prev_hash e)
        =? entry_hash e)%string
  else Err (UnsupportedVersion (format_version e)).

(** ** Payload store *)

(** [cas_io]: whether the file-system calls of the store succeed. *)
Definition put_payload (cas : gmap string string) (value : Json) (cas_io : bool)
    : result (string * gmap string string) ChainError :=
  let encoded := json_to_string value in
  let key := sha256_hex encoded in
  if negb cas_io then Err IoFailed
  else
    let intact := bool_decide (cas !! key = Some encoded) in
    Ok (key, if intact then cas else <[key := encoded]> cas).

Definition resolve_entry_payload (cas : gmap string string) (entry : CausalChainEntry)
    : result (option Json) ChainError :=
  if negb (is_lean_witness entry) then Ok (payload entry)
  else match payload_ref entry with
       | None =>
           match entry_payload_hash entry with
           | Some _ => Err (PayloadRefMissing (log_id entry))
           | None => Ok None
           end
       | Some reference =>
           match cas !! reference with
           | None => Err (PayloadUnavailable reference)
           | Some encoded =>
               let actual := sha256_hex encoded in
               if bool_decide (Some actual = entry_payload_hash entry)
               then Ok (json_from_str encoded)
               else Err (PayloadMismatch reference actual)
           end
       end.

(** ** The logger *)

(** [now] and [fresh_id] are the clock reading and the generated identifier. *)
Definition build_entry (self : Witness) (rq : LogRequest) (now fresh_id : string) (cas_io : bool)
    (prev_hash : string) : result (CausalChainEntry * gmap string string) ChainError :=
  let payload_hash := payload_hash (rq_payload rq) in
  refs <-? match rq_payload rq with
           | Some value =>
               if negb (is_noop_witness (log_path self))
               then kc <-? put_payload (payload_cas self) value cas_io; Ok (Some kc.1, kc.2)
               else Ok (None, payload_cas self)
           | None => Ok (None, payload_cas self)
           end;
  let entry_hash := compute_entry_hash_v2 now fresh_id (rq_actor_id rq) (rq_session_id rq)
    (rq_turn_id rq) (rq_event_seq rq) (rq_category rq) (rq_action rq) (rq_target rq)
    (rq_status rq) (rq_enforced_rules rq) payload_hash refs.1 prev_hash in
  Ok ({| timestamp := now; log_id := fresh_id; actor_id := rq_actor_id rq;
         session_id := rq_session_id rq; turn_id := rq_turn_id rq; event_seq := rq_event_seq rq;
         category := rq_category rq; action := rq_action rq; target := rq_target rq;
         status := rq_status rq; entry_reason := None; payload := None;
         entry_payload_hash := payload_hash; payload_ref := refs.1;
         enforced_rules := rq_enforced_rules rq; format_version := WITNESS_FORMAT_VERSION_V2;
         prev_hash := prev_hash; entry_hash := entry_hash |}, refs.2).

Definition entry_line (entry : CausalChainEntry) : string :=
  (entry_to_string entry ++ String newline "")%string.

(** [OpenOptions::new().create(true).append(true)] and [writeln!]: the bytes
    that reach the file, and whether the call succeeds.  Bytes sent to
    [/dev/null] are gone. *)
Definition append_entry (self : Witness) (entry : CausalChainEntry) (io : AppendIo)
    : option string * bool :=
  let line := entry_line entry in
  let old := default "" (log_file self) in
  if is_noop_witness (log_path self)
  then (log_file self, match io with AppendFailed _ => false | _ => true end)
  else match io with
       | AppendDone | SyncFailed => (Some (old ++ line)%string, true)
       | AppendFailed n => (Some (old ++ String.substring 0 n line)%string, false)
       end.

Definition with_file (self : Witness) (file : option string) (cas : gmap string string)
    (tip : string) : Witness :=
  {| log_path := log_path self; log_file := file; payload_cas := cas; last_hash := tip;
     mutex_poisoned := mutex_poisoned self |}.

Definition log (self : Witness) (rq : LogRequest) (now fresh_id : string) (cas_io : bool)
    (io : AppendIo) : Witness * result unit ChainError :=
  if mutex_poisoned self then (self, Err MutexPoisoned)
  else
    let prev_hash := last_hash self in
    match build_entry self rq now fresh_id cas_io prev_hash with
    | Err e => (self, Err e)
    | Ok (entry, cas) =>
        let '(file, done) := append_entry self entry io in
        if done then (with_file self file cas (entry_hash entry), Ok tt)
        else (with_file self file cas prev_hash, Err IoFailed)
    end.

(** As [log], with [flush] and [sync_all] before the tip moves. *)
Definition log_durable (self : Witness) (rq : LogRequest) (now fresh_id : string) (cas_io : bool)
    (io : AppendIo) : Witness * result unit ChainError :=
  if mutex_poisoned self then (self, Err MutexPoisoned)
  else
    let prev_hash := last_hash self in
    match build_entry self rq now fresh_id cas_io prev_hash with
    | Err e => (self, Err e)
    | Ok (entry, cas) =>
        let '(file, done) := append_entry self entry io in
        let synced := match io with SyncFailed => false | _ => true end in
        if done && synced then (with_file self file cas (entry_hash entry), Ok tt)
        else (with_file self file cas prev_hash, Err IoFailed)
    end.

(** ** Reading *)

Definition load_last_hash_tail (file : option string) : string :=
  match file with
  | None | Some "" => "genesis"
  | Some bytes =>
      match read_tail_last_line bytes with
      | None => "genesis"
      | Some last_line =>
          let last_line := trim_ascii last_line in
          if negb (utf8_valid last_line) then "genesis"
          else if str_is_empty last_line then "genesis"
          else
            match entry_from_str last_line with
            | Some entry =>
                if negb (str_is_empty (trim (entry_hash entry))) then entry_hash entry
                else sha256_hex last_line
            | None => sha256_hex last_line
            end
      end
  end.

Definition last_entry_event_seq (file : option string) : Z :=
  match file with
  | None | Some "" => 0
  | Some bytes =>
      match read_tail_last_line bytes with
      | None => 0
      | Some last_line =>
          match entry_from_str (trim_ascii last_line) with
          | Some entry => event_seq entry
          | None => 0
          end
      end
  end.

(** [CausalLogger::new] on an existing or absent file. *)
Definition open_logger (path : string) (file : option string) (cas : gmap string string) : Witness :=
  {| log_path := path; log_file := file; payload_cas := cas;
     last_hash := load_last_hash_tail file; mutex_poisoned := false |}.

(** [BufRead::lines]: no empty line after a final line feed; the carriage
    return a line may end in falls to the [trim] that follows. *)
Definition lines (s : string) : list string :=
  let chunks := lf_split s in
  match last chunks with
  | Some "" => take (pred (length chunks)) chunks
  | _ => chunks
  end.

Fixpoint parse_lines (ls : list string) : result (list CausalChainEntry) ChainError :=
  match ls with
  | [] => Ok []
  | line :: rest =>
      if negb (utf8_valid line) then Err IoFailed
      else
        let trimmed := trim line in
        if str_is_empty trimmed then parse_lines rest
        else match entry_from_str trimmed with
             | None => Err ParseFailed
             | Some entry => es <-? parse_lines rest; Ok (entry :: es)
             end
  end.

Definition read_entries (file : option string) : result (list CausalChainEntry) ChainError :=
  match file with None => Ok [] | Some bytes => parse_lines (lines bytes) end.

(** One file's entries, appended to those read before it. *)
Fixpoint link_entries (broken : string → string → ChainError) (prev : option string)
    (entries : list CausalChainEntry) : result (option string) ChainError :=
  match entries with
  | [] => Ok prev
  | entry :: rest =>
      match prev with
      | Some p =>
          if (prev_hash entry =? p)%string then link_entries broken (Some (entry_hash entry)) rest
          else Err (broken p (prev_hash entry))
      | None => link_entries broken (Some (entry_hash entry)) rest
      end
  end.

(** The files of the history directory by name. *)
Fixpoint read_segments (dir : gmap string string) (segs : list string) (prev : option string)
    : result (list CausalChainEntry * option string) ChainError :=
  match segs with
  | [] => Ok ([], prev)
  | seg :: rest =>
      match dir !! seg with
      | None => read_segments dir rest prev
      | Some bytes =>
          entries <-? read_entries (Some bytes);
          prev' <-? link_entries (SegmentBroken seg) prev entries;
          r <-? read_segments dir rest prev';
          Ok (entries ++ r.1, r.2)
      end
  end.

Definition read_all_entries_across_segments (dir : gmap string string)
    (index : option SegmentIndex) : result (list CausalChainEntry) ChainError :=
  match index with
  | Some idx =>
      r <-? read_segments dir (segments idx) None;
      match dir !! current_segment_filename idx with
      | None => Ok r.1
      | Some bytes =>
          entries <-? read_entries (Some bytes);
          p <-? link_entries CurrentBroken r.2 entries;
          Ok (r.1 ++ entries)
      end
  | None => read_entries (dir !! "causal_chain.jsonl")
  end.

(** ** Verification *)

Fixpoint verify_loop (entries : list CausalChainEntry) (total index verified : nat)
    (expected_prev : string) : ChainVerification :=
  match entries with
  | [] => {| total_entries := total; verified_entries := verified; broken_at := None;
             break_reason := None |}
  | entry :: rest =>
      let broken reason := {| total_entries := total; verified_entries := verified;
                              broken_at := Some index; break_reason := Some reason |} in
      if negb (prev_hash entry =? expected_prev)%string
      then broken ("broken prev-hash linkage: expected " ++ expected_prev ++ ", got "
                   ++ prev_hash entry)%string
      else match verify_entry_hash entry with
           | Ok true => verify_loop rest total (S index) (S verified) (entry_hash entry)
           | Ok false => broken "entry_hash does not match re-derived hash"
           | Err e => broken (chain_error_display e)
           end
  end.

Definition verify_entries (entries : list CausalChainEntry) : ChainVerification :=
  verify_loop entries (length entries) 0 0 "genesis".

Definition verify_chain (dir : gmap string string) (index : option SegmentIndex)
    : result ChainVerification ChainError :=
  entries <-? read_all_entries_across_segments dir index; Ok (verify_entries entries).
End Chain.

(** ** Lemmas: chunks *)

Lemma split_app p a t :
  ∃ pre x hd tl, split p a = pre ++ [x] ∧ split p t = hd :: tl ∧
    split p (a ++ t) = pre ++ (x ++ hd)%string :: tl.
Proof.
  destruct (split p t) as [|hd tl] eqn:Et; [by apply split_nonempty in Et|].
  induction a as [|c a IH].
  - exists [], "", hd, tl. done.
  - destruct IH as (pre & x & hd' & tl' & Ha & [= <- <-] & Hat). simpl.
    destruct (p c); [exists ("" :: pre), x, hd, tl; by rewrite Ha, Hat|].
    rewrite Ha, Hat. destruct pre as [|y pre]; simpl.
    + exists [], (String c x), hd, tl. done.
    + exists (String c y :: pre), x, hd, tl. done.
Qed.

(** The reference: the last line of the whole file that is not blank. *)
Definition last_line (file : string) : option string :=
  last (filter (λ c, blank c = false) (lf_split file)).

Lemma last_nonblank_chunk_spec chunks :
  match last_nonblank_chunk chunks with
  | Some (idx, c) => ∃ pre post, chunks = pre ++ c :: post ∧ length pre = idx ∧
      blank c = false ∧ Forall (λ d, blank d = true) post
  | None => Forall (λ d, blank d = true) chunks
  end.
Proof.
  unfold last_nonblank_chunk. induction chunks as [|d chunks IH] using rev_ind; [constructor|].
  rewrite imap_app, rev_app_distr. simpl. rewrite Nat.add_0_r.
  destruct (blank d) eqn:Ed; simpl.
  - destruct (List.find _ _) as [[idx c]|].
    + destruct IH as (pre & post & -> & Hl & Hb & Hp). exists pre, (post ++ [d]).
      split_and!; [by rewrite <-app_assoc|done|done|]. apply Forall_app. by repeat constructor.
    + apply Forall_app. by repeat constructor.
  - exists chunks, []. by split_and!.
Qed.

Lemma filter_blank_nil l :
  Forall (λ d, blank d = true) l → filter (λ c, blank c = false) l = [].
Proof.
  induction 1 as [|d l Hd _ IH]; [done|]. rewrite filter_cons_False; [done|]. congruence.
Qed.

Lemma last_line_chunks file pre c post :
  lf_split file = pre ++ c :: post → blank c = false → Forall (λ d, blank d = true) post →
  last_line file = Some c.
Proof.
  intros H Hc Hp. unfold last_line. rewrite H, filter_app.
  rewrite (filter_cons_True (λ c, blank c = false) c post Hc), (filter_blank_nil _ Hp).
  by rewrite last_snoc.
Qed.

Lemma skip_spec n s : ∃ a, s = (a ++ skip n s)%string ∧ String.length a = Nat.min n (String.length s).
Proof.
  revert s. induction n as [|n IH]; intros s; [by exists ""|].
  destruct s as [|c s]; [by exists ""|]. destruct (IH s) as (a & Ha & Hl).
  exists (String c a). simpl. split; [by rewrite <-Ha|by rewrite Hl].
Qed.

(** One window: a complete candidate is the file's last line. *)
Lemma window_candidate file start idx c :
  start ≤ String.length file →
  last_nonblank_chunk (lf_split (skip start file)) = Some (idx, c) → 0 < idx ∨ start = 0 →
  last_line file = Some c.
Proof.
  intros Hle Hf Hc. pose proof (last_nonblank_chunk_spec (lf_split (skip start file))) as H.
  rewrite Hf in H. destruct H as (pre & post & Hs & Hl & Hb & Hp).
  destruct (skip_spec start file) as (a & Ha & Hla).
  destruct Hc as [Hi| ->]; [|by eapply last_line_chunks].
  destruct (split_app (Ascii.eqb newline) a (skip start file)) as (pre' & x & hd & tl & _ & Ht & Hat).
  rewrite <-Ha in Hat. unfold lf_split in Hs. rewrite Ht in Hs.
  destruct pre as [|y pre]; [simpl in *; lia|]. injection Hs as -> Hs.
  eapply (last_line_chunks file (pre' ++ (x ++ y)%string :: pre)); [|done|done].
  unfold lf_split. rewrite Hat, Hs. by rewrite <-app_assoc.
Qed.

Lemma tail_loop_spec fuel file window :
  0 < window → String.length file < fuel + window → 0 < fuel →
  tail_loop fuel file window = Some (last_line file).
Proof.
  revert window. induction fuel as [|fuel IH]; intros window Hw Hf Hf0; [lia|].
  cbn [tail_loop]. set (len := String.length file). set (start := len - window).
  assert (0 < start → tail_loop fuel file (Nat.min (window * 4) len) = Some (last_line file)) as Hretry.
  { intros Hs. apply IH; subst start; lia. }
  assert (start ≤ len) by lia.
  pose proof (last_nonblank_chunk_spec (lf_split (skip start file))) as Hspec.
  destruct (last_nonblank_chunk _) as [[idx c]|] eqn:Ec.
  - destruct (Nat.ltb_spec 0 idx); [by rewrite (window_candidate file start idx c) by auto|].
    destruct (Nat.eqb_spec start 0); simpl; [by rewrite (window_candidate file start idx c) by auto|].
    destruct (Nat.ltb_spec 0 start); [by apply Hretry|lia].
  - destruct (Nat.ltb_spec 0 start); [by apply Hretry|].
    assert (start = 0) as E by lia. rewrite E in Hspec. simpl skip in Hspec.
    unfold last_line.
    by rewrite (filter_blank_nil _ Hspec).
Qed.

Lemma read_tail_last_line_eq file : read_tail_last_line file = last_line file.
Proof.
  unfold read_tail_last_line. rewrite tail_loop_spec; [done|unfold TAIL_WINDOW; lia|lia|lia].
Qed.

(** The backward read terminates and finds the last non-blank line of the
    whole file, however long that line is and wherever the window starts:
    growing the window never changes the answer, only the bytes read. *)
Theorem tail_read_is_last_line file fuel window :
  read_tail_last_line file = last_line file ∧
  (0 < window → 0 < fuel → String.length file < fuel + window →
   tail_loop fuel file window = Some (last_line file)).
Proof. split; [apply read_tail_last_line_eq|]. intros. by apply tail_loop_spec. Qed.

(** ** Laws of the parameters *)

(** [format!("{:x}", Sha256::digest(..))]: 64 hexadecimal digits. *)
Class Sha256Hex (sha256_hex : string → string) : Prop := {
  sha_len s : String.length (sha256_hex s) = 64;
  sha_digits s : str_existsb (λ c, negb (is_ascii_hexdigit c)) (sha256_hex s) = false;
}.

(** [serde_json::to_string] on objects: values that print alike are equal. *)
Class JsonEncoder (json_to_string : Json → string) : Prop := {
  json_inj m m' : bt_wf m → bt_wf m' →
    json_to_string (JObject m) = json_to_string (JObject m') → m = m';
}.

(** The derived serde implementation of an entry: compact JSON on one line that
    reads back as the entry, when it has no inline payload. *)
Class EntryCodec (to_string : CausalChainEntry → string)
    (from_str : string → option CausalChainEntry) : Prop := {
  codec_roundtrip e : payload e = None → from_str (to_string e) = Some e;
  codec_one_line e : str_existsb (Ascii.eqb newline) (to_string e) = false;
  codec_utf8 e : utf8_valid (to_string e) = true;
  codec_braces e : ∃ body, to_string e = ("{" ++ body ++ "}")%string;
}.

(** ** Lemmas: lines *)

Lemma trim_start_by_id p c s : p c = false → trim_start_by p (String c s) = String c s.
Proof. intros H. simpl. by rewrite H. Qed.

Lemma trim_end_by_id p s c : p c = false → trim_end_by p (s ++ String c "") = (s ++ String c "")%string.
Proof.
  intros H. induction s as [|d s IH]; simpl; [by rewrite H|]. rewrite IH.
  by destruct (s ++ String c "")%string eqn:E; [destruct s|].
Qed.

Lemma trim_braces p body :
  p "{"%char = false → p "}"%char = false →
  trim_end_by p (trim_start_by p ("{" ++ body ++ "}")) = ("{" ++ body ++ "}")%string.
Proof.
  intros H1 H2. change ("{" ++ body ++ "}")%string with (String "{" (body ++ "}")).
  rewrite trim_start_by_id by done.
  change (String "{" (body ++ "}")) with ((String "{" body) ++ String "}" "")%string.
  by apply trim_end_by_id.
Qed.

Section Lines.
Context (to_string : CausalChainEntry → string) (from_str : string → option CausalChainEntry)
        `{!EntryCodec to_string from_str}.

Lemma codec_trim e : trim (to_string e) = to_string e.
Proof. destruct (codec_braces e) as [body ->]. by apply trim_braces. Qed.

Lemma codec_trim_ascii e : trim_ascii (to_string e) = to_string e.
Proof. destruct (codec_braces e) as [body ->]. by apply trim_braces. Qed.

Lemma codec_nonempty e : str_is_empty (to_string e) = false.
Proof. destruct (codec_braces e) as [body ->]. done. Qed.

Lemma codec_not_blank e : blank (to_string e) = false.
Proof. unfold blank. by rewrite codec_trim_ascii, codec_nonempty. Qed.

(** The file a sequence of appends leaves. *)
Fixpoint file_of (es : list CausalChainEntry) : string :=
  match es with [] => "" | e :: es' => (entry_line to_string e ++ file_of es')%string end.

Lemma file_of_snoc es e : file_of (es ++ [e]) = (file_of es ++ entry_line to_string e)%string.
Proof.
  induction es as [|d es IH]; simpl; [by rewrite str_app_nil_r|]. by rewrite IH, str_app_assoc.
Qed.

Lemma split_line s t :
  str_existsb (Ascii.eqb newline) s = false →
  lf_split (s ++ String newline t) = s :: lf_split t.
Proof.
  unfold lf_split. induction s as [|c s IH]; simpl; [done|].
  intros [Hc Hs]%orb_false_iff. by rewrite Hc, IH.
Qed.

Lemma file_of_chunks es : lf_split (file_of es) = (to_string <$> es) ++ [""].
Proof.
  induction es as [|e es IH]; [done|]. cbn [file_of fmap list_fmap]. unfold entry_line.
  rewrite str_app_assoc. change (String newline "" ++ file_of es)%string
    with (String newline (file_of es)).
  rewrite split_line by apply codec_one_line. by rewrite IH.
Qed.

Lemma file_of_lines es : lines (file_of es) = to_string <$> es.
Proof.
  unfold lines. rewrite file_of_chunks, last_snoc, length_app. simpl.
  replace (pred (length (to_string <$> es) + 1)) with (length (to_string <$> es)) by lia.
  by rewrite take_app_length.
Qed.

Lemma file_of_last_line es e : last_line (file_of (es ++ [e])) = Some (to_string e).
Proof.
  eapply (last_line_chunks _ (to_string <$> es) _ [""]).
  - rewrite file_of_chunks, fmap_app. simpl. by rewrite <-app_assoc.
  - apply codec_not_blank.
  - by repeat constructor.
Qed.

Lemma parse_lines_file es :
  Forall (λ e, payload e = None) es → parse_lines from_str (to_string <$> es) = Ok es.
Proof.
  induction 1 as [|e es He _ IH]; [done|]. cbn [fmap list_fmap parse_lines].
  rewrite codec_utf8, codec_trim, codec_nonempty. simpl. by rewrite codec_roundtrip, IH.
Qed.

Lemma read_entries_file es :
  Forall (λ e, payload e = None) es → read_entries from_str (Some (file_of es)) = Ok es.
Proof. intros H. unfold read_entries. rewrite file_of_lines. by apply parse_lines_file. Qed.
End Lines.

(** ** Lemmas: verification *)

Definition tip (es : list CausalChainEntry) : string :=
  match last es with Some e => entry_hash e | None => "genesis" end.

Section Verify.
Context (sha256_hex : string → string) (json_to_string : Json → string).
Notation verify_entry_hash := (verify_entry_hash sha256_hex json_to_string).
Notation verify_loop := (verify_loop sha256_hex json_to_string).
Notation verify_entries := (verify_entries sha256_hex json_to_string).

(** Linked from [prev] on, every entry hash re-derivable. *)
Fixpoint intact_from (prev : string) (es : list CausalChainEntry) : Prop :=
  match es with
  | [] => True
  | e :: r => prev_hash e = prev ∧ verify_entry_hash e = Ok true ∧ intact_from (entry_hash e) r
  end.

Definition tip_from (prev : string) (es : list CausalChainEntry) : string :=
  match last es with Some e => entry_hash e | None => prev end.

Lemma intact_from_app prev es es' :
  intact_from prev (es ++ es') ↔ intact_from prev es ∧ intact_from (tip_from prev es) es'.
Proof.
  revert prev. induction es as [|e es IH]; intros prev; simpl; [tauto|].
  rewrite IH. assert (tip_from prev (e :: es) = tip_from (entry_hash e) es) as ->.
  { unfold tip_from. rewrite last_cons. by destruct (last es). }
  tauto.
Qed.

Lemma verify_loop_spec es total index verified prev :
  let v := verify_loop es total index verified prev in
  total_entries v = total ∧
  match broken_at v with
  | None => verified_entries v = verified + length es ∧ intact_from prev es
  | Some i => ∃ good bad rest, es = good ++ bad :: rest ∧ i = index + length good ∧
      verified_entries v = verified + length good ∧
      intact_from prev good ∧ ¬ intact_from (tip_from prev good) [bad]
  end.
Proof.
  revert index verified prev. induction es as [|e es IH]; intros index verified prev; simpl.
  { split_and!; [done|lia|done]. }
  destruct (String.eqb_spec (prev_hash e) prev) as [Hp|Hp]; simpl.
  2: { split; [done|]. exists [], e, es. simpl. split_and!; [done|lia|lia|done|]. by intros [? _]. }
  destruct (verify_entry_hash e) as [[]|err] eqn:Ev; simpl.
  2,3: split; [done|]; exists [], e, es; simpl; split_and!; [done|lia|lia|done|];
       rewrite Ev; by intros (_ & ? & _).
  destruct (IH (S index) (S verified) (entry_hash e)) as [HT HB]. split; [done|].
  destruct (broken_at _) as [i|].
  - destruct HB as (good & bad & rest & -> & -> & -> & Hg & Hb). exists (e :: good), bad, rest.
    simpl. split_and!; [done|lia|lia|done|done|done|].
    intros H. apply Hb. revert H. unfold tip_from. rewrite last_cons. by destruct (last good).
  - destruct HB as [-> HI]. split_and!; [lia|done|done|done].
Qed.

Lemma is_intact_spec es : is_intact (verify_entries es) = true ↔ intact_from "genesis" es.
Proof.
  unfold verify_entries, is_intact.
  destruct (verify_loop_spec es (length es) 0 0 "genesis") as [_ H].
  destruct (broken_at _) as [i|]; [|tauto]. split; [done|]. intros Hi.
  destruct H as (good & bad & rest & -> & _ & _ & _ & Hb). exfalso. apply Hb.
  apply intact_from_app in Hi as [_ (H1 & H2 & _)]. by simpl.
Qed.

(** Verification finds the first break.  A log is reported intact exactly
    when it starts at genesis, every entry names its predecessor's hash and
    every hash re-derives; otherwise the reported index is that of the first
    entry that is not linked or does not re-derive, everything before it being
    intact and counted as verified. *)
Theorem verify_reports_first_break es :
  let v := verify_entries es in
  total_entries v = length es ∧
  (broken_at v = None ↔ intact_from "genesis" es) ∧
  (∀ i, broken_at v = Some i →
     ∃ good bad rest, es = good ++ bad :: rest ∧ length good = i ∧ verified_entries v = i ∧
       intact_from "genesis" good ∧ ¬ intact_from (tip good) [bad]).
Proof.
  intros v. pose proof (verify_loop_spec es (length es) 0 0 "genesis") as [HT HB].
  change (verify_loop es (length es) 0 0 "genesis") with v in HT, HB. split_and!.
  - exact HT.
  - rewrite <-is_intact_spec. fold v. unfold is_intact. by destruct (broken_at v).
  - intros i Hi. rewrite Hi in HB. destruct HB as (good & bad & rest & ? & ? & ? & ? & ?).
    exists good, bad, rest. split_and!; [done|lia|simpl in *; congruence|done|done].
Qed.

(** ** What the hash commits to *)

(** The object hashed under the entry's own format version. *)
Definition commitment (e : CausalChainEntry) : Json :=
  if (format_version e =? WITNESS_FORMAT_VERSION_V1)%Z
  then canonical_v1 (timestamp e) (log_id e) (actor_id e) (session_id e) (turn_id e) (event_seq e)
         (category e) (action e) (status e) (entry_payload_hash e) (prev_hash e)
  else canonical_v2 (timestamp e) (log_id e) (actor_id e) (session_id e) (turn_id e) (event_seq e)
         (category e) (action e) (target e) (status e) (enforced_rules e) (entry_payload_hash e)
         (payload_ref e) (prev_hash e).

(** The fields an entry hash protects: all but the free-text reason and, in
    the first format, the target, the rules and the payload reference. *)
Definition committed (e : CausalChainEntry) :=
  (timestamp e, log_id e, actor_id e, session_id e, turn_id e, event_seq e, category e, action e,
   status e, entry_payload_hash e, prev_hash e,
   if (format_version e =? WITNESS_FORMAT_VERSION_V1)%Z then None
   else Some (target e, enforced_rules e, payload_ref e)).

Lemma verify_entry_hash_true e :
  verify_entry_hash e = Ok true → entry_hash e = sha256_hex (json_to_string (commitment e)).
Proof.
  unfold CausalChain.verify_entry_hash, commitment. destruct (_ =? WITNESS_FORMAT_VERSION_V1)%Z.
  - intros [= H]. by apply String.eqb_eq in H.
  - destruct (_ =? WITNESS_FORMAT_VERSION_V2)%Z; [|done]. intros [= H]. by apply String.eqb_eq in H.
Qed.

Lemma json_opt_str_inj a b : json_opt_str a = json_opt_str b → a = b.
Proof. by destruct a, b; simpl; intros [=->] || intros [=]. Qed.

#[local] Instance JString_inj : Inj (=) (=) JString.
Proof. by intros a b [=]. Qed.

Lemma status_str_inj a b : status_str a = status_str b → a = b.
Proof. by destruct a, b. Qed.

Lemma commitment_fields e e' : commitment e = commitment e' → committed e = committed e'.
Proof.
  intros H. unfold committed.
  assert (∀ k, json_get (commitment e) k = json_get (commitment e') k) as HG by (intros; by rewrite H).
  unfold commitment in HG. revert HG. clear H.
  destruct (_ =? _)%Z, (format_version e' =? _)%Z; intros HG;
    try (specialize (HG "v"); discriminate HG);
    pose proof (HG "timestamp") as [= ->]; pose proof (HG "log_id") as [= ->];
    pose proof (HG "actor_id") as [= ->]; pose proof (HG "session_id") as [= ->];
    pose proof (HG "turn_id") as [= ->%json_opt_str_inj]; pose proof (HG "event_seq") as [= ->];
    pose proof (HG "category") as [= ->]; pose proof (HG "action") as [= ->];
    pose proof (HG "status") as [= ->%status_str_inj];
    pose proof (HG "payload_hash") as [= ->%json_opt_str_inj];
    pose proof (HG "prev_hash") as [= ->]; [done|].
  pose proof (HG "target") as [= ->%json_opt_str_inj].
  pose proof (HG "payload_ref") as [= ->%json_opt_str_inj].
  pose proof (HG "enforced_rules") as [= Hr]. apply (list_fmap_eq_inj JString JString_inj) in Hr as ->. done.
Qed.
End Verify.

Lemma commitment_object e : ∃ m, commitment e = JObject m ∧ bt_wf m.
Proof.
  assert (∀ kvs, ∃ m, json_object kvs = JObject m ∧ bt_wf m) as H.
  { intros kvs. eexists. split; [done|].
    assert (∀ m, bt_wf m → bt_wf (fold_left (λ m kv, bt_insert kv.1 kv.2 m) kvs m)) as HF;
      [|apply HF; constructor].
    induction kvs as [|kv kvs IH]; intros m Hm; simpl; [done|]. by apply IH, bt_insert_wf. }
  unfold commitment. case_match; apply H.
Qed.

Section Tamper.
Context (sha256_hex : string → string) (json_to_string : Json → string)
        `{!Sha256Hex sha256_hex, !JsonEncoder json_to_string}.
Notation verify_entries := (verify_entries sha256_hex json_to_string).
Notation intact_from := (intact_from sha256_hex json_to_string).

(** The strings whose hashes make up the chain. *)
Definition preimages (es : list CausalChainEntry) : list string :=
  (λ e, json_to_string (commitment e)) <$> es.

Lemma intact_snoc es e :
  intact_from "genesis" (es ++ [e]) →
  intact_from "genesis" es ∧ prev_hash e = tip es ∧
  entry_hash e = sha256_hex (json_to_string (commitment e)).
Proof.
  rewrite intact_from_app. intros (H1 & H2 & H3 & _). split_and!; [done|done|].
  by apply verify_entry_hash_true.
Qed.

Lemma tip_snoc es e : tip (es ++ [e]) = entry_hash e.
Proof. unfold tip. by rewrite last_snoc. Qed.

Lemma sha_not_genesis s : sha256_hex s ≠ "genesis".
Proof. intros H. pose proof (sha_len s) as Hl. by rewrite H in Hl. Qed.

(** C19: The chain tip is tamper-evident.  Two logs that verify and end in the
    same hash have the same length and agree, entry by entry, on every
    committed field; otherwise two different strings hashed in the two logs
    are an explicit collision of the hash function. *)
Theorem tip_determines_log es es' :
  is_intact (verify_entries es) = true → is_intact (verify_entries es') = true →
  tip es = tip es' →
  (committed <$> es = committed <$> es' ∧ entry_hash <$> es = entry_hash <$> es') ∨
  (∃ a b, a ∈ preimages es ∧ b ∈ preimages es' ∧ a ≠ b ∧ sha256_hex a = sha256_hex b).
Proof.
  rewrite !is_intact_spec. revert es'.
  induction es as [|e es IH] using rev_ind; intros es' Hi Hi' Ht.
  - destruct es' as [|e' es' _] using rev_ind; [by left|]. exfalso.
    apply intact_snoc in Hi' as (_ & _ & He). rewrite tip_snoc, He in Ht. by apply (sha_not_genesis _ (eq_sym Ht)).
  - apply intact_snoc in Hi as (Hi & Hp & He). rewrite tip_snoc in Ht.
    destruct es' as [|e' es' _] using rev_ind.
    { exfalso. rewrite He in Ht. by apply sha_not_genesis in Ht. }
    apply intact_snoc in Hi' as (Hi' & Hp' & He'). rewrite tip_snoc in Ht.
    unfold preimages. rewrite !fmap_app. simpl.
    destruct (decide (json_to_string (commitment e) = json_to_string (commitment e'))) as [Heq|Hne].
    + assert (committed e = committed e') as Hc.
      { apply commitment_fields. destruct (commitment_object e) as (m & Em & Hm),
          (commitment_object e') as (m' & Em' & Hm'). rewrite Em, Em' in *.
        by rewrite (json_inj m m' Hm Hm' Heq). }
      assert (prev_hash e = prev_hash e') as Hpp by (unfold committed in Hc; congruence).
      destruct (IH es' Hi Hi') as [[HC HE]|(a & b & Ha & Hb & Hab)]; [congruence| |].
      * left. by rewrite HC, HE, Hc, Ht.
      * right. exists a, b. rewrite !elem_of_app. auto.
    + right. exists (json_to_string (commitment e)), (json_to_string (commitment e')).
      rewrite !elem_of_app, !list_elem_of_singleton. split_and!; [by right|by right|done|congruence].
Qed.
End Tamper.

(** ** Runs of a logger *)

Section Runs.
Context (sha256_hex : string → string) (json_to_string : Json → string)
        (json_from_str : string → option Json)
        (entry_to_string : CausalChainEntry → string)
        (entry_from_str : string → option CausalChainEntry).
Context `{!Sha256Hex sha256_hex, !EntryCodec entry_to_string entry_from_str}.
Notation log := (log sha256_hex json_to_string entry_to_string).
Notation log_durable := (log_durable sha256_hex json_to_string entry_to_string).
Notation build_entry := (build_entry sha256_hex json_to_string).
Notation intact_from := (intact_from sha256_hex json_to_string).
Notation file_of := (file_of entry_to_string).
Notation load_last_hash_tail := (load_last_hash_tail sha256_hex entry_from_str).
Notation resolve_entry_payload := (resolve_entry_payload sha256_hex json_from_str).

Definition witness_ok (w : Witness) (es : list CausalChainEntry) : Prop :=
  is_noop_witness (log_path w) = false ∧
  (log_file w = Some (file_of es) ∨ log_file w = None ∧ es = []) ∧
  intact_from "genesis" es ∧ Forall (λ e, payload e = None) es ∧ last_hash w = tip es.

(** The entry a request turns into. *)
Definition entry_records (rq : LogRequest) (e : CausalChainEntry) : Prop :=
  actor_id e = rq_actor_id rq ∧ session_id e = rq_session_id rq ∧ turn_id e = rq_turn_id rq ∧
  event_seq e = rq_event_seq rq ∧ category e = rq_category rq ∧ action e = rq_action rq ∧
  target e = rq_target rq ∧ status e = rq_status rq ∧ enforced_rules e = rq_enforced_rules rq ∧
  entry_payload_hash e = payload_hash sha256_hex json_to_string (rq_payload rq).

Lemma build_entry_spec w rq now id cas_io prev e cas :
  build_entry w rq now id cas_io prev = Ok (e, cas) →
  prev_hash e = prev ∧ verify_entry_hash sha256_hex json_to_string e = Ok true ∧ payload e = None ∧
  entry_records rq e ∧
  (is_noop_witness (log_path w) = false →
   resolve_entry_payload cas e = Ok (rq_payload rq ≫= λ v, json_from_str (json_to_string v))).
Proof.
  unfold CausalChain.build_entry. rewrite rbind_ok. intros (refs & Hr & [= <- <-]).
  split_and!; cbn [prev_hash payload]; try done.
  - unfold verify_entry_hash. cbn -[compute_entry_hash_v2]. by rewrite String.eqb_refl.
  - intros Hn. unfold CausalChain.resolve_entry_payload. simpl.
    destruct (rq_payload rq) as [v|]; [|injection Hr as <-; done].
    rewrite Hn in Hr. simpl in Hr. apply rbind_ok in Hr as ([k c] & Hp & [= <-]). simpl.
    unfold put_payload in Hp. destruct cas_io; [|done]. injection Hp as <- <-.
    case_bool_decide as Hc; [rewrite Hc|rewrite lookup_insert_eq]; by rewrite bool_decide_true.
Qed.

Lemma append_ok w es e cas :
  witness_ok w es → prev_hash e = last_hash w →
  verify_entry_hash sha256_hex json_to_string e = Ok true → payload e = None →
  witness_ok (with_file w (Some (default "" (log_file w) ++ entry_line entry_to_string e)%string)
                cas (entry_hash e)) (es ++ [e]).
Proof.
  intros (Hn & Hf & Hi & Hp & Ht) Hprev Hv Hpl. split_and!; simpl.
  - done.
  - left. rewrite file_of_snoc. by destruct Hf as [->|[-> ->]].
  - apply intact_from_app. split; [done|]. split_and!; [by rewrite Hprev|done|done].
  - apply Forall_app. by repeat constructor.
  - symmetry. apply tip_snoc.
Qed.

Lemma hex_trim s : str_is_empty (trim (sha256_hex s)) = false.
Proof.
  pose proof (sha_len s) as Hl. pose proof (sha_digits s) as Hd.
  destruct (sha256_hex s) as [|c r] eqn:E; [done|].
  cbn [str_existsb] in Hd. apply orb_false_iff in Hd as [Hc _]. apply negb_false_iff in Hc.
  assert (is_whitespace c = false) as Hw.
  { revert Hc. clear. by destruct c as [[] [] [] [] [] [] [] []]. }
  unfold trim. rewrite trim_start_by_id by done. simpl. rewrite Hw.
  by destruct (trim_end_by is_whitespace r).
Qed.

(** Reopening the file finds the tip the writer had. *)
Lemma load_last_hash_tip w es :
  witness_ok w es → load_last_hash_tail (log_file w) = tip es.
Proof.
  intros (_ & Hf & Hi & Hp & _). destruct es as [|e es _] using rev_ind.
  - by destruct Hf as [->|[-> _]].
  - destruct Hf as [->|[_ H]]; [|by destruct es].
    unfold CausalChain.load_last_hash_tail.
    assert (file_of (es ++ [e]) ≠ "") as Hne.
    { rewrite file_of_snoc. unfold entry_line. destruct (codec_braces e) as [b ->].
      by destruct (file_of es). }
    pose proof (file_of_last_line entry_to_string entry_from_str es e) as Hl.
    rewrite <-read_tail_last_line_eq in Hl.
    destruct (file_of (es ++ [e])) as [|c r]; [done|]. rewrite Hl.
    rewrite (codec_trim_ascii entry_to_string entry_from_str), codec_utf8,
      (codec_nonempty entry_to_string entry_from_str). simpl.
    apply Forall_app in Hp as [_ Hp]. apply Forall_cons in Hp as [Hp _]. rewrite (codec_roundtrip e Hp).
    rewrite tip_snoc. apply intact_snoc in Hi as (_ & _ & He). rewrite He, hex_trim. done.
Qed.

Definition clean_io (io : AppendIo) : Prop := io = AppendDone ∨ io = AppendFailed 0.

(** What one call leaves: a new entry, or the log as it was. *)
Definition logged (w : Witness) (es : list CausalChainEntry) (rq : LogRequest) (w' : Witness)
    (r : result unit ChainError) : Prop :=
  match r with
  | Ok _ => ∃ e, witness_ok w' (es ++ [e]) ∧ entry_records rq e ∧
      resolve_entry_payload (payload_cas w') e =
        Ok (rq_payload rq ≫= λ v, json_from_str (json_to_string v))
  | Err _ => witness_ok w' es
  end.

Lemma substring_zero s : String.substring 0 0 s = "".
Proof. by destruct s. Qed.

Lemma failed_append_ok w es e cas n :
  witness_ok w es → n = 0 →
  witness_ok (with_file w (Some (default "" (log_file w) ++
                String.substring 0 n (entry_line entry_to_string e))%string) cas (last_hash w)) es.
Proof.
  intros (Hn & Hf & Hi & Hp & Ht) ->. rewrite substring_zero, str_app_nil_r.
  split_and!; simpl; try done. left. by destruct Hf as [->|[-> ->]].
Qed.

Lemma log_logged w es rq now id cas_io io :
  witness_ok w es → clean_io io →
  logged w es rq (log w rq now id cas_io io).1 (log w rq now id cas_io io).2 ∧
  logged w es rq (log_durable w rq now id cas_io io).1 (log_durable w rq now id cas_io io).2.
Proof.
  intros Hok Hio. pose proof Hok as (Hn & _).
  unfold CausalChain.log, CausalChain.log_durable, append_entry. rewrite Hn.
  destruct (mutex_poisoned w); simpl; [done|].
  destruct (build_entry w rq now id cas_io (last_hash w)) as [[e cas]|err] eqn:Eb; simpl; [|done].
  apply build_entry_spec in Eb as (Hprev & Hv & Hpl & Hrec & Hres).
  destruct Hio as [-> | ->]; simpl.
  - split; exists e; (split_and!; [by apply append_ok|done|by apply Hres]).
  - split; by apply failed_append_ok.
Qed.

(** A successful [log] or [log_durable] appends exactly one entry, which
    carries the request's fields and the hash of the previous tip, re-derives,
    and whose payload resolves from the store to what was logged; a refused
    call that wrote nothing leaves the log as it was. *)
Theorem log_appends_one_entry w es rq now id cas_io io :
  witness_ok w es → clean_io io →
  logged w es rq (log w rq now id cas_io io).1 (log w rq now id cas_io io).2 ∧
  logged w es rq (log_durable w rq now id cas_io io).1 (log_durable w rq now id cas_io io).2.
Proof. apply log_logged. Qed.

(** A process that logs, restarts and may panic while holding the lock. *)
Inductive witness_step (w : Witness) : Witness → Prop :=
| step_log rq now id cas_io io :
    clean_io io → witness_step w (log w rq now id cas_io io).1
| step_log_durable rq now id cas_io io :
    clean_io io → witness_step w (log_durable w rq now id cas_io io).1
| step_reopen :
    witness_step w (open_logger sha256_hex entry_from_str (log_path w) (log_file w) (payload_cas w))
| step_poison :
    witness_step w {| log_path := log_path w; log_file := log_file w; payload_cas := payload_cas w;
                      last_hash := last_hash w; mutex_poisoned := true |}.

Lemma witness_step_ok w w' es :
  witness_ok w es → witness_step w w' → ∃ es', witness_ok w' es'.
Proof.
  intros Hok [rq now id cas_io io Hio|rq now id cas_io io Hio| |].
  - destruct (log_logged w es rq now id cas_io io Hok Hio) as [H _].
    unfold logged in H. destruct (log w rq now id cas_io io).2; naive_solver.
  - destruct (log_logged w es rq now id cas_io io Hok Hio) as [_ H].
    unfold logged in H. destruct (log_durable w rq now id cas_io io).2; naive_solver.
  - exists es. pose proof (load_last_hash_tip w es Hok) as Ht.
    destruct Hok as (Hn & Hf & Hi & Hp & _). by split_and!.
  - exists es. by destruct Hok as (Hn & Hf & Hi & Hp & Ht).
Qed.

(** The history directory of an unrotated log. *)
Definition history_dir (w : Witness) : gmap string string :=
  match log_file w with Some f => {["causal_chain.jsonl" := f]} | None => ∅ end.

Lemma witness_ok_read w es :
  witness_ok w es → read_entries entry_from_str (history_dir w !! "causal_chain.jsonl") = Ok es.
Proof.
  intros (_ & Hf & _ & Hp & _). unfold history_dir. destruct Hf as [->|[-> ->]].
  - rewrite lookup_singleton_eq. by apply read_entries_file.
  - by rewrite lookup_empty.
Qed.

(** C18: Whatever a logger does, across restarts, refused calls and failed opens, the
    file it leaves reads back and verifies from genesis to the tip the logger
    holds in memory - provided every write that was begun completed and was
    synced: a call may fail before it writes, but not half way through a line or
    in its sync, which leave a torn line or fork the chain. *)
Theorem reachable_log_verifies path cas w :
  is_noop_witness path = false →
  rtc witness_step (open_logger sha256_hex entry_from_str path None cas) w →
  ∃ es v, read_entries entry_from_str (log_file w) = Ok es ∧
    verify_chain sha256_hex json_to_string entry_from_str (history_dir w) None = Ok v ∧
    is_intact v = true ∧ total_entries v = length es ∧ last_hash w = tip es.
Proof.
  intros Hn Hr.
  assert (∃ es, witness_ok w es) as [es Hok].
  { assert (witness_ok (open_logger sha256_hex entry_from_str path None cas) []) as H0.
    { split_and!; simpl; try done. by right. }
    revert H0. generalize (@nil CausalChainEntry) as es0. induction Hr as [w0|w0 w1 w2 Hs _ IH];
      intros es0 H0; [by exists es0|].
    destruct (witness_step_ok w0 w1 es0 H0 Hs) as [es1 H1]. by eapply IH. }
  exists es, (verify_entries sha256_hex json_to_string es).
  pose proof (witness_ok_read w es Hok) as Hread.
  destruct Hok as (_ & Hf & Hi & Hp & Ht). split_and!.
  - destruct Hf as [->|[-> ->]]; [by apply read_entries_file|done].
  - unfold verify_chain, read_all_entries_across_segments. by rewrite Hread.
  - by apply is_intact_spec.
  - destruct (verify_loop_spec sha256_hex json_to_string es (length es) 0 0 "genesis") as [H _].
    exact H.
  - done.
Qed.

(** A durable append whose [fsync] fails has written its entry but reports
    an error and keeps the old tip, so the next append names the same
    predecessor and verification breaks at that entry, unless the lost entry's
    hash happens to equal the old tip. *)
Theorem failed_sync_forks_the_chain w es rq now id cas_io w1 err rq2 now2 id2 cas_io2 w2 :
  witness_ok w es → mutex_poisoned w = false →
  (∃ e cas, build_entry w rq now id cas_io (last_hash w) = Ok (e, cas) ∧ entry_hash e ≠ tip es) →
  log_durable w rq now id cas_io SyncFailed = (w1, Err err) →
  log w1 rq2 now2 id2 cas_io2 AppendDone = (w2, Ok tt) →
  ∃ es2, read_entries entry_from_str (log_file w2) = Ok es2 ∧ length es2 = length es + 2 ∧
    broken_at (verify_entries sha256_hex json_to_string es2) = Some (length es + 1).
Proof.
  intros Hok Hm (e1 & cas1 & Hb1 & Hne). pose proof Hok as (Hn & Hf & Hi & Hp & Ht).
  unfold CausalChain.log_durable, append_entry. rewrite Hm, Hb1, Hn. simpl. intros [= <- _].
  unfold CausalChain.log, append_entry. simpl. rewrite Hm.
  destruct (CausalChain.build_entry _ _ _ rq2 _ _ _ _) as [[e2 cas2]|] eqn:Hb2; [|done].
  rewrite Hn. simpl. intros [= <-].
  apply build_entry_spec in Hb1 as (Hp1 & Hv1 & Hpl1 & _), Hb2 as (Hp2 & Hv2 & Hpl2 & _).
  exists (es ++ [e1; e2]). simpl.
  assert ((default "" (log_file w) ++ entry_line entry_to_string e1)
           ++ entry_line entry_to_string e2 = file_of (es ++ [e1; e2]))%string as ->.
  { change [e1; e2] with ([e1] ++ [e2]). rewrite app_assoc, !file_of_snoc.
    by destruct Hf as [->|[-> ->]]. }
  split_and!.
  - apply read_entries_file; [apply _|]. apply Forall_app. by repeat constructor.
  - by rewrite length_app.
  - pose proof (verify_loop_spec sha256_hex json_to_string (es ++ [e1; e2])
      (length (es ++ [e1; e2])) 0 0 "genesis") as [_ HB].
    fold (verify_entries sha256_hex json_to_string (es ++ [e1; e2])) in HB.
    assert (intact_from "genesis" (es ++ [e1])) as Hi1.
    { apply intact_from_app. split; [done|]. simpl. by rewrite Hp1, Ht. }
    assert (¬ intact_from "genesis" (es ++ [e1; e2])) as Hbad.
    { change [e1; e2] with ([e1] ++ [e2]). rewrite app_assoc. intros H.
      apply intact_snoc in H as (_ & H & _). rewrite tip_snoc, Hp2, Ht in H. congruence. }
    destruct (broken_at _) as [i|]; [|tauto]. f_equal.
    destruct HB as (good & bad & rest & Heq & -> & _ & Hg & Hbd). simpl.
    destruct (decide (length good ≤ length es)) as [Hle|Hgt].
    + exfalso. apply Hbd. change [e1; e2] with ([e1] ++ [e2]) in Heq. rewrite app_assoc in Heq.
      assert ((es ++ [e1]) !! length good = Some bad) as Hl.
      { rewrite <-(lookup_app_l _ [e2]) by (rewrite length_app; simpl; lia).
        by rewrite Heq, list_lookup_middle. }
      apply list_elem_of_split_length in Hl as (l1 & l2 & Hl & Hlen).
      assert (l1 = good) as ->.
      { rewrite Hl, <-app_assoc in Heq. by apply app_inj_1 in Heq as [? _]. }
      rewrite Hl in Hi1. apply intact_from_app in Hi1 as [_ (H1 & H2 & _)]. by simpl.
    + apply (f_equal length) in Heq. rewrite !length_app in Heq. simpl in Heq. lia.
Qed.
End Runs.

(** ** Instances of the parameters

    Concrete encoders that satisfy the laws: values are numbered through
    their trees and printed in decimal, and the hash repeats one digit. *)

Fixpoint json_tree (j : Json) : gen_tree (bool + Z + string) :=
  match j with
  | JNull => GenNode 0 []
  | JBool b => GenLeaf (inl (inl b))
  | JNumber z => GenLeaf (inl (inr z))
  | JString s => GenLeaf (inr s)
  | JArray l => GenNode 1 (map json_tree l)
  | JObject m => GenNode 2 (map (λ kv, GenNode 3 [GenLeaf (inr kv.1); json_tree kv.2]) m)
  end.

Fixpoint tree_json (t : gen_tree (bool + Z + string)) : Json :=
  match t with
  | GenLeaf (inl (inl b)) => JBool b
  | GenLeaf (inl (inr z)) => JNumber z
  | GenLeaf (inr s) => JString s
  | GenNode 1 l => JArray (map tree_json l)
  | GenNode 2 l =>
      JObject (map (λ t, match t with
                         | GenNode _ [GenLeaf (inr k); v] => (k, tree_json v)
                         | _ => ("", JNull)
                         end) l)
  | GenNode _ _ => JNull
  end.

Lemma tree_json_tree : ∀ j, tree_json (json_tree j) = j.
Proof.
  fix IH 1. intros [|b|z|s|l|m]; simpl; try done; f_equal.
  - induction l as [|x l IHl]; simpl; [done|]. by rewrite IH, IHl.
  - induction m as [|[k v] m IHm]; simpl; [done|]. by rewrite IH, IHm.
Qed.

Definition toy_number (j : Json) : string := show_N (Npos (encode (json_tree j))).

Definition toy_unnumber (s : string) : option Json :=
  n ← parse_digits s 0;
  match n with N0 => None | Npos p => tree_json <$> decode p end.

Lemma toy_unnumber_number j : toy_unnumber (toy_number j) = Some j.
Proof.
  unfold toy_unnumber, toy_number. rewrite show_N_parse. simpl. rewrite decode_encode. simpl.
  by rewrite tree_json_tree.
Qed.

Definition toy_hash (s : string) : string :=
  String.concat "" (repeat (String (digit_char (N.of_nat (String.length s) mod 10)) "") 64).

#[export] Instance toy_hash_law : Sha256Hex toy_hash.
Proof.
  assert (∀ d s, s = String.concat "" (repeat (String (digit_char d) "") 64) →
    (d < 10)%N → String.length s = 64 ∧ str_existsb (λ c, negb (is_ascii_hexdigit c)) s = false) as H.
  { intros d s -> Hd. split; [done|]. simpl.
    assert (is_ascii_hexdigit (digit_char d) = true) as ->; [|done].
    unfold is_ascii_hexdigit. by rewrite digit_char_digit. }
  split; intros s; eapply H; try done; apply N.mod_upper_bound; done.
Qed.

#[export] Instance toy_json_law : JsonEncoder toy_number.
Proof.
  split. intros m m' _ _ H. apply (f_equal toy_unnumber) in H. rewrite !toy_unnumber_number in H.
  congruence.
Qed.

(** An entry as an array of its fields, and back. *)
Definition status_of_str (s : string) : EntryStatus :=
  if (s =? "SUCCESS")%string then StatusSuccess
  else if (s =? "DENIED")%string then StatusDenied else StatusError.
Definition opt_str_of_json (j : Json) : option string :=
  match j with JString s => Some s | _ => None end.
Definition str_of_json (j : Json) : string := match j with JString s => s | _ => "" end.

Definition entry_json (e : CausalChainEntry) : Json :=
  JArray [JString (timestamp e); JString (log_id e); JString (actor_id e); JString (session_id e);
    json_opt_str (turn_id e); JNumber (event_seq e); JString (category e); JString (action e);
    json_opt_str (target e); JString (status_str (status e)); json_opt_str (entry_reason e);
    json_opt_str (entry_payload_hash e); json_opt_str (payload_ref e);
    JArray (JString <$> enforced_rules e); JNumber (format_version e); JString (prev_hash e);
    JString (entry_hash e)].

Definition json_entry (j : Json) : option CausalChainEntry :=
  match j with
  | JArray [JString ts; JString id; JString ac; JString se; tu; JNumber sq; JString ca; JString an;
      ta; JString st; re; ph; pr; JArray ru; JNumber v; JString pv; JString eh] =>
      Some {| timestamp := ts; log_id := id; actor_id := ac; session_id := se;
              turn_id := opt_str_of_json tu; event_seq := sq; category := ca; action := an;
              target := opt_str_of_json ta; status := status_of_str st;
              entry_reason := opt_str_of_json re; payload := None;
              entry_payload_hash := opt_str_of_json ph; payload_ref := opt_str_of_json pr;
              enforced_rules := str_of_json <$> ru; format_version := v; prev_hash := pv;
              entry_hash := eh |}
  | _ => None
  end.

Lemma json_entry_json e : payload e = None → json_entry (entry_json e) = Some e.
Proof.
  assert (∀ o, opt_str_of_json (json_opt_str o) = o) as Ho by (by intros []).
  assert (∀ l : list string, str_of_json <$> (JString <$> l) = l) as Hl.
  { induction l as [|x l IH]; [done|]. simpl. f_equal. exact IH. }
  intros Hp. destruct e; simpl in *. rewrite !Ho, Hl. subst.
  by destruct status0.
Qed.

Definition toy_entry_to_string (e : CausalChainEntry) : string :=
  ("{" ++ toy_number (entry_json e) ++ "}")%string.

Definition toy_entry_from_str (s : string) : option CausalChainEntry :=
  j ← toy_unnumber (String.substring 1 (String.length s - 2) s); json_entry j.

Lemma digits_utf8 s t :
  str_existsb (λ c, negb (is_ascii_digit c)) s = false → utf8_valid t = true →
  utf8_valid (s ++ t) = true.
Proof.
  intros Hs Ht. induction s as [|c s IH]; [done|]. cbn [str_existsb] in Hs.
  apply orb_false_iff in Hs as [Hc Hs]. apply negb_false_iff in Hc.
  cbn [String.append utf8_valid]. rewrite IH by done.
  assert (byte_in 0 127 c = true) as ->; [|done].
  revert Hc. clear. by destruct c as [[] [] [] [] [] [] [] []].
Qed.

Lemma digits_no_newline s :
  str_existsb (λ c, negb (is_ascii_digit c)) s = false → str_existsb (Ascii.eqb newline) s = false.
Proof.
  induction s as [|c s IH]; [done|]. cbn [str_existsb]. intros [Hc Hs]%orb_false_iff.
  rewrite IH by done. apply negb_false_iff in Hc. rewrite orb_false_r.
  revert Hc. clear. by destruct c as [[] [] [] [] [] [] [] []].
Qed.

#[export] Instance toy_entry_law : EntryCodec toy_entry_to_string toy_entry_from_str.
Proof.
  split; intros e; unfold toy_entry_to_string.
  - intros Hp. unfold toy_entry_from_str. rewrite !str_length_app. simpl.
    replace (String.length (toy_number (entry_json e)) + 1 - 1)
      with (String.length (toy_number (entry_json e))) by lia.
    rewrite substring_app, toy_unnumber_number. simpl. by apply json_entry_json.
  - rewrite !str_existsb_app, (digits_no_newline (toy_number (entry_json e))) by apply show_N_digits. done.
  - apply (digits_utf8 (toy_number (entry_json e)) "}"); [apply show_N_digits|done].
  - by exists (toy_number (entry_json e)).
Qed.

(** ** Concrete runs *)

Definition demo_request (act : string) : LogRequest :=
  {| rq_actor_id := "planner"; rq_session_id := "s"; rq_turn_id := None; rq_event_seq := 1;
     rq_category := "tool"; rq_action := act; rq_status := StatusSuccess; rq_target := None;
     rq_enforced_rules := ["I-6"]; rq_payload := None |}.

Definition demo_logger : Witness :=
  open_logger toy_hash toy_entry_from_str "h/causal_chain.jsonl" None ∅.

Lemma demo_logger_ok : witness_ok toy_hash toy_number toy_entry_to_string demo_logger [].
Proof. split_and!; try done. by right. Qed.

Lemma log_appends_one_entry_witness :
  ∃ e, witness_ok toy_hash toy_number toy_entry_to_string
         (log toy_hash toy_number toy_entry_to_string demo_logger (demo_request "exec") "t" "id"
            true AppendDone).1 [e] ∧ action e = "exec".
Proof.
  destruct (log_appends_one_entry toy_hash toy_number toy_unnumber toy_entry_to_string
    demo_logger [] (demo_request "exec") "t" "id" true AppendDone)
    as [(e & Hok & Hr & _) _].
  - exact demo_logger_ok.
  - left. reflexivity.
  - exists e. split; [exact Hok|]. apply Hr.
Defined.

Lemma reachable_log_verifies_witness :
  ∃ es v, read_entries toy_entry_from_str
      (log_file (log toy_hash toy_number toy_entry_to_string demo_logger (demo_request "exec")
         "t" "id" true AppendDone).1) = Ok es ∧ is_intact v = true ∧ total_entries v = length es.
Proof.
  destruct (reachable_log_verifies toy_hash toy_number toy_unnumber toy_entry_to_string
    toy_entry_from_str "h/causal_chain.jsonl" ∅
    (log toy_hash toy_number toy_entry_to_string demo_logger (demo_request "exec") "t" "id" true
       AppendDone).1) as (es & v & H1 & _ & H3 & H4 & _).
  - reflexivity.
  - apply rtc_once. apply step_log. left. reflexivity.
  - exists es, v. split_and!; assumption.
Defined.

Definition demo_entry : CausalChainEntry :=
  {| timestamp := "t"; log_id := "1"; actor_id := "a"; session_id := "s"; turn_id := None;
     event_seq := 1; category := "c"; action := "x"; target := None; status := StatusDenied;
     entry_reason := None; payload := None; entry_payload_hash := None; payload_ref := None;
     enforced_rules := []; format_version := 2; prev_hash := "genesis";
     entry_hash := compute_entry_hash_v2 toy_hash toy_number "t" "1" "a" "s" None 1 "c" "x" None
       StatusDenied [] None None "genesis" |}.

Lemma demo_entry_verifies : verify_entry_hash toy_hash toy_number demo_entry = Ok true.
Proof.
  unfold verify_entry_hash, demo_entry. cbn -[compute_entry_hash_v2]. by rewrite String.eqb_refl.
Qed.

Lemma demo_entry_intact : is_intact (verify_entries toy_hash toy_number [demo_entry]) = true.
Proof. apply is_intact_spec. split; [done|]. split; [apply demo_entry_verifies|done]. Qed.

Lemma tip_determines_log_witness :
  (committed <$> [demo_entry] = committed <$> [demo_entry] ∧
   entry_hash <$> [demo_entry] = entry_hash <$> [demo_entry]) ∨
  (∃ a b, a ∈ preimages toy_number [demo_entry] ∧ b ∈ preimages toy_number [demo_entry] ∧ a ≠ b ∧
     toy_hash a = toy_hash b).
Proof.
  exact (tip_determines_log toy_hash toy_number [demo_entry] [demo_entry]
    demo_entry_intact demo_entry_intact eq_refl).
Defined.

Lemma failed_sync_forks_the_chain_witness :
  let w1 := (log_durable toy_hash toy_number toy_entry_to_string demo_logger (demo_request "grant")
               "t1" "1" true SyncFailed).1 in
  let w2 := (log toy_hash toy_number toy_entry_to_string w1 (demo_request "exec") "t2" "2" true
               AppendDone).1 in
  ∃ es2, read_entries toy_entry_from_str (log_file w2) = Ok es2 ∧ length es2 = 2 ∧
    broken_at (verify_entries toy_hash toy_number es2) = Some 1.
Proof.
  intros w1 w2.
  apply (failed_sync_forks_the_chain toy_hash toy_number toy_unnumber toy_entry_to_string
    toy_entry_from_str demo_logger [] (demo_request "grant") "t1" "1" true w1 IoFailed
    (demo_request "exec") "t2" "2" true w2).
  - exact demo_logger_ok.
  - reflexivity.
  - eexists _, _. split; [reflexivity|]. apply (sha_not_genesis toy_hash).
  - reflexivity.
  - reflexivity.
Defined.
