(* ===== verification/Cron.v ===== *)
(** * Schedules: cron expressions and schedule phrases

    The model of [autonoetic-gateway/src/scheduler/cron_parser.rs].  The
    [regex] crate is a parameter ([captures]: the groups of a pattern in a
    text); the laws used of it are the fields of [RegexLaws].  A [DateTime<Utc>]
    is its number of nanoseconds since the epoch; minutes, hours and weekdays
    follow from it, and the month and the day of the month of a day number are
    given by a [Calendar] (the [chrono] crate).  [None] in place of a parse
    result is a panic ([unwrap] on an integer that does not fit). *)

From Stdlib Require Import Ascii String ZArith Lia.
From stdpp Require Import prelude gmap strings list.
From S2P Require Import Prelude RustStr.

Open Scope string_scope.
Open Scope nat_scope.
Open Scope list_scope.

(** ** Data *)

Inductive CronField : Type :=
| FieldAny
| FieldExact (v : Z)
| FieldRange (s e : Z)
| FieldStep (start step : Z)
| FieldList (items : list CronField).

Record CronExpression := {
  interval_seconds : option Z;
  minute : CronField;
  hour : CronField;
  day_of_month : CronField;
  month : CronField;
  day_of_week : CronField;
  original : string;
}.

Inductive ScheduleParseError : Type :=
| InvalidCron (msg : string)
| AmbiguousPhrase (msg : string)
| UnsupportedPhrase (msg : string).

Definition parsed (A : Type) : Type := result A ScheduleParseError.

(** [CronField::matches].  The remainder by a zero step panics in the source;
    parsed steps are positive ([field_wf] below). *)
Fixpoint field_matches (self : CronField) (value : Z) : bool :=
  match self with
  | FieldAny => true
  | FieldExact v => (v =? value)%Z
  | FieldRange s e => (s <=? value)%Z && (value <=? e)%Z
  | FieldStep start step => (start <=? value)%Z && ((value - start) mod step =? 0)%Z
  | FieldList items => existsb (λ i, field_matches i value) items
  end.

(** ** [Display] *)

Fixpoint show_field (self : CronField) : string :=
  match self with
  | FieldAny => "*"
  | FieldExact v => show_Z v
  | FieldRange s e => (show_Z s ++ "-" ++ show_Z e)%string
  | FieldStep v s => (show_Z v ++ "/" ++ show_Z s)%string
  | FieldList items => join "," (map show_field items)
  end.

Definition show_cron (self : CronExpression) : string :=
  match interval_seconds self with
  | Some interval => ("every " ++ show_Z interval ++ " seconds")%string
  | None =>
      (show_field (minute self) ++ " " ++ show_field (hour self) ++ " "
       ++ show_field (day_of_month self) ++ " " ++ show_field (month self) ++ " "
       ++ show_field (day_of_week self))%string
  end.

(** ** [str::parse::<u32>()] with its error *)

Fixpoint parse_u32_digits (s : string) (acc : Z) : result Z string :=
  match s with
  | "" => Ok acc
  | String c r =>
      if negb (is_ascii_digit c) then Err "invalid digit found in string"
      else
        let acc' := (acc * 10 + Z.of_N (N_of_ascii c - 48))%Z in
        if (U32_MAX <? acc')%Z then Err "number too large to fit in target type"
        else parse_u32_digits r acc'
  end.

Definition parse_int (s : string) : result Z string :=
  match s with
  | "" => Err "cannot parse integer from empty string"
  | "+" => Err "invalid digit found in string"
  | String "+" r => parse_u32_digits r 0
  | _ => parse_u32_digits s 0
  end.

Definition parse_int_or (s : string) (msg : string → string) : parsed Z :=
  match parse_int s with Ok v => Ok v | Err e => Err (InvalidCron (msg e)) end.

(** ** Cron syntax *)

Definition in_range (min_val max_val v : Z) : bool := (min_val <=? v)%Z && (v <=? max_val)%Z.

Definition bounds_str (min_val max_val : Z) : string :=
  ("[" ++ show_Z min_val ++ ", " ++ show_Z max_val ++ "]")%string.

Definition parse_step (input : string) (min_val max_val : Z) : parsed CronField :=
  match split (Ascii.eqb "/") input with
  | [p0; p1] =>
      start <-? (if (p0 =? "*")%string then Ok min_val
                 else parse_int_or p0 (λ e, "Invalid step start '" ++ p0 ++ "': " ++ e)%string);
      step <-? parse_int_or p1 (λ e, "Invalid step value '" ++ p1 ++ "': " ++ e)%string;
      if (step =? 0)%Z then Err (InvalidCron "Step value cannot be zero")
      else if negb (in_range min_val max_val start)
      then Err (InvalidCron ("Step start " ++ show_Z start ++ " out of range "
                             ++ bounds_str min_val max_val)%string)
      else Ok (FieldStep start step)
  | _ => Err (InvalidCron ("Invalid step syntax: " ++ input)%string)
  end.

Definition parse_range (input : string) (min_val max_val : Z) : parsed CronField :=
  match split (Ascii.eqb "-") input with
  | [p0; p1] =>
      start <-? parse_int_or p0 (λ e, "Invalid range start '" ++ p0 ++ "': " ++ e)%string;
      end_ <-? parse_int_or p1 (λ e, "Invalid range end '" ++ p1 ++ "': " ++ e)%string;
      if negb (in_range min_val max_val start && in_range min_val max_val end_)
      then Err (InvalidCron ("Range " ++ show_Z start ++ "-" ++ show_Z end_ ++ " out of bounds "
                             ++ bounds_str min_val max_val)%string)
      else if (end_ <? start)%Z
      then Err (InvalidCron ("Range start " ++ show_Z start ++ " > end " ++ show_Z end_)%string)
      else Ok (FieldRange start end_)
  | _ => Err (InvalidCron ("Invalid range syntax: " ++ input)%string)
  end.

(** The function on an input without a comma. *)
Definition parse_plain_field (input : string) (min_val max_val : Z) : parsed CronField :=
  if (input =? "*")%string then Ok FieldAny
  else if contains_char input "/" then parse_step input min_val max_val
  else if contains_char input "-" then parse_range input min_val max_val
  else
    val <-? parse_int_or input (λ e, "Invalid field value '" ++ input ++ "': " ++ e)%string;
    if negb (in_range min_val max_val val)
    then Err (InvalidCron ("Value " ++ show_Z val ++ " out of range "
                           ++ bounds_str min_val max_val)%string)
    else Ok (FieldExact val).

(** The recursive call of the source is on parts that hold no comma. *)
Definition parse_cron_field (input : string) (min_val max_val : Z) : parsed CronField :=
  if (input =? "*")%string then Ok FieldAny
  else if contains_char input "," then
    parts <-? try_collect (λ p, parse_plain_field (trim p) min_val max_val)
                (split (Ascii.eqb ",") input);
    Ok (FieldList parts)
  else parse_plain_field input min_val max_val.

Definition parse_cron_expression (input : string) : parsed CronExpression :=
  match split_whitespace input with
  | [p0; p1; p2; p3; p4] =>
      minute <-? parse_cron_field p0 0 59;
      hour <-? parse_cron_field p1 0 23;
      day_of_month <-? parse_cron_field p2 1 31;
      month <-? parse_cron_field p3 1 12;
      day_of_week <-? parse_cron_field p4 0 6;
      Ok {| interval_seconds := None; minute := minute; hour := hour;
            day_of_month := day_of_month; month := month; day_of_week := day_of_week;
            original := input |}
  | parts => Err (InvalidCron ("Expected 5 fields, got " ++ show_N (N.of_nat (length parts)))%string)
  end.

(** ** Phrases *)

Definition EVERY_INTERVAL_RE : string :=
  "^every\s+(\d+)\s+(second|seconds|minute|minutes|hour|hours)$".
Definition WEEKDAY_RE : string :=
  "^every\s+(monday|tuesday|wednesday|thursday|friday|saturday|sunday)\s+at\s+(\d{1,2}):(\d{2})$".
Definition DAILY_RE : string := "^every\s+day\s+at\s+(\d{1,2}):(\d{2})$".

(** [{:02}]. *)
Definition pad2 (z : Z) : string := (if z <? 10 then "0" ++ show_Z z else show_Z z)%Z%string.

Definition weekday_number (weekday : string) : option Z :=
  if (weekday =? "sunday")%string then Some 0%Z
  else if (weekday =? "monday")%string then Some 1%Z
  else if (weekday =? "tuesday")%string then Some 2%Z
  else if (weekday =? "wednesday")%string then Some 3%Z
  else if (weekday =? "thursday")%string then Some 4%Z
  else if (weekday =? "friday")%string then Some 5%Z
  else if (weekday =? "saturday")%string then Some 6%Z
  else None.

Definition at_time (input : string) (hour minute : Z) (day_of_week : CronField)
    : parsed CronExpression :=
  if (23 <? hour)%Z || (59 <? minute)%Z
  then Err (InvalidCron ("Invalid time " ++ pad2 hour ++ ":" ++ pad2 minute)%string)
  else Ok {| interval_seconds := None; minute := FieldExact minute; hour := FieldExact hour;
             day_of_month := FieldAny; month := FieldAny; day_of_week := day_of_week;
             original := input |}.

Section Phrases.
Context (captures : string → string → option (list string)).

(** [caps\[i\].parse().unwrap()]: [None] is the panic. *)
Definition parse_unwrap (s : string) : option Z :=
  match parse_int s with Ok v => Some v | Err _ => None end.

Definition interval_phrase (input : string) (n : Z) (unit : string)
    : option (parsed CronExpression) :=
  if (n =? 0)%Z then Some (Err (InvalidCron "Interval cannot be zero"))
  else if starts_with unit "second" then
    Some (Ok {| interval_seconds := Some n; minute := FieldAny; hour := FieldAny;
                day_of_month := FieldAny; month := FieldAny; day_of_week := FieldAny;
                original := input |})
  else if starts_with unit "minute" then
    Some (if (59 <? n)%Z
          then Err (InvalidCron ("Minute interval " ++ show_Z n ++ " exceeds maximum of 59")%string)
          else Ok {| interval_seconds := None; minute := FieldStep 0 n; hour := FieldAny;
                     day_of_month := FieldAny; month := FieldAny; day_of_week := FieldAny;
                     original := input |})
  else if starts_with unit "hour" then
    Some (if (23 <? n)%Z
          then Err (InvalidCron ("Hour interval " ++ show_Z n ++ " exceeds maximum of 23")%string)
          else Ok {| interval_seconds := None; minute := FieldExact 0; hour := FieldStep 0 n;
                     day_of_month := FieldAny; month := FieldAny; day_of_week := FieldAny;
                     original := input |})
  else None.

Definition unsupported_phrase (input lower : string) : parsed CronExpression :=
  if starts_with lower "every "
  then Err (UnsupportedPhrase ("'" ++ input ++ "' is not a supported schedule phrase. Supported patterns: 'every N seconds/minutes/hours', 'every day at HH:MM', 'every <weekday> at HH:MM'")%string)
  else Err (InvalidCron "Not a recognized cron expression (expected 5 space-separated fields)").

Definition daily_phrase (input lower : string) : option (parsed CronExpression) :=
  match captures DAILY_RE lower with
  | Some [h; m] =>
      hour ← parse_unwrap h; minute ← parse_unwrap m;
      Some (at_time input hour minute FieldAny)
  | _ => Some (unsupported_phrase input lower)
  end.

Definition weekday_phrase (input lower : string) : option (parsed CronExpression) :=
  match captures WEEKDAY_RE lower with
  | Some [w; h; m] =>
      hour ← parse_unwrap h; minute ← parse_unwrap m;
      if (23 <? hour)%Z || (59 <? minute)%Z then Some (at_time input hour minute FieldAny)
      else dow ← weekday_number w; Some (at_time input hour minute (FieldExact dow))
  | _ => daily_phrase input lower
  end.

Definition parse_natural_language (input : string) : option (parsed CronExpression) :=
  let lower := to_lowercase input in
  match captures EVERY_INTERVAL_RE lower with
  | Some [digits; unit] =>
      n ← parse_unwrap digits;
      match interval_phrase input n unit with
      | Some r => Some r
      | None => weekday_phrase input lower
      end
  | _ => weekday_phrase input lower
  end.

Definition parse_schedule (input : string) : option (parsed CronExpression) :=
  let trimmed := trim input in
  if contains_char trimmed "/" || contains_char trimmed "," || contains_char trimmed "-"
     || (length (split_whitespace trimmed) =? 5)
  then Some (parse_cron_expression trimmed)
  else parse_natural_language trimmed.
End Phrases.

(** ** Occurrences *)

(** [chrono]'s month and day of the month of a day since the epoch. *)
Record Calendar := { cal_month : Z → Z; cal_day : Z → Z }.

Definition NANOS : Z := 1000000000.
Definition MINUTE : Z := 60 * NANOS.

(** [DateTime<Utc>]: nanoseconds since the epoch. *)
Definition dt_minute (dt : Z) : Z := (dt / MINUTE) mod 60.
Definition dt_hour (dt : Z) : Z := (dt / (60 * MINUTE)) mod 24.
Definition dt_days (dt : Z) : Z := dt / (24 * 60 * MINUTE).
(** The epoch was a Thursday. *)
Definition dt_weekday (dt : Z) : Z := (dt_days dt + 4) mod 7.
Definition dt_month (cal : Calendar) (dt : Z) : Z := cal_month cal (dt_days dt).
Definition dt_day (cal : Calendar) (dt : Z) : Z := cal_day cal (dt_days dt).

Definition matches_cron (cal : Calendar) (dt : Z) (cron : CronExpression) : bool :=
  if negb (field_matches (minute cron) (dt_minute dt)) then false
  else if negb (field_matches (hour cron) (dt_hour dt)) then false
  else if negb (field_matches (month cron) (dt_month cal dt)) then false
  else if negb (field_matches (day_of_month cron) (dt_day cal dt)) then false
  else if negb (field_matches (day_of_week cron) (dt_weekday dt)) then false
  else true.

(** [with_second(0)] and [with_nanosecond(0)], which succeed on every instant. *)
Definition floor_to (unit dt : Z) : Z := dt / unit * unit.

Fixpoint occurrence_scan (cal : Calendar) (cron : CronExpression) (n : nat) (candidate : Z)
    : option Z :=
  match n with
  | 0 => None
  | S n' =>
      if matches_cron cal candidate cron then Some candidate
      else occurrence_scan cal cron n' (candidate + MINUTE)%Z
  end.

Definition MAX_ITERATIONS : nat := N.to_nat (366 * 24 * 60).

Definition next_occurrence (cal : Calendar) (cron : CronExpression) (after : Z) : option Z :=
  match interval_seconds cron with
  | Some interval_secs => Some (floor_to NANOS (after + interval_secs * NANOS)%Z)
  | None =>
      occurrence_scan cal cron MAX_ITERATIONS (floor_to MINUTE (after + MINUTE)%Z)
  end.

(** ** Lemmas: integers *)

Lemma parse_digits_ge s acc n : parse_digits s acc = Some n → (acc <= n)%N.
Proof.
  revert acc. induction s as [|c s IH]; simpl; intros acc; [by intros [= ->]|].
  destruct (is_ascii_digit c); [|done]. intros H%IH. lia.
Qed.

Lemma parse_u32_digits_ok s acc n :
  parse_digits s acc = Some n → (Z.of_N n ≤ U32_MAX)%Z →
  parse_u32_digits s (Z.of_N acc) = Ok (Z.of_N n).
Proof.
  revert acc. induction s as [|c s IH]; intros acc; simpl; [by intros [= ->]|].
  destruct (is_ascii_digit c); [|done]. simpl. intros H Hn.
  pose proof (parse_digits_ge _ _ _ H).
  replace (Z.of_N acc * 10 + Z.of_N (N_of_ascii c - 48))%Z
    with (Z.of_N (acc * 10 + (N_of_ascii c - 48)))%N by lia.
  destruct (Z.ltb_spec U32_MAX (Z.of_N (acc * 10 + (N_of_ascii c - 48))%N)); [lia|]. by apply IH.
Qed.

Lemma parse_u32_digits_u32 s acc v :
  is_u32 acc → parse_u32_digits s acc = Ok v → is_u32 v.
Proof.
  revert acc. induction s as [|c s IH]; intros acc Ha; simpl; [by intros [= ->]|].
  destruct (negb _); [done|]. case_match eqn:E; [done|]. apply Z.ltb_ge in E. apply IH.
  split; [|done]. destruct Ha. lia.
Qed.

Lemma parse_int_cases s v : parse_int s = Ok v → ∃ r, parse_u32_digits r 0 = Ok v.
Proof. unfold parse_int. intros H. repeat case_match; try done; eauto. Qed.

Lemma parse_int_u32 s v : parse_int s = Ok v → is_u32 v.
Proof.
  intros [r Hr]%parse_int_cases. eapply parse_u32_digits_u32; [|exact Hr].
  unfold is_u32, U32_MAX. lia.
Qed.

Lemma show_Z_first z : ∃ c r, show_Z z = String c r ∧ is_ascii_digit c = true.
Proof.
  pose proof (show_N_digits (Z.to_N z)) as Hd. unfold show_Z.
  destruct (show_N (Z.to_N z)) as [|c r] eqn:E; [|exists c, r; split; [done|]].
  - exfalso. revert E. apply show_digits_nonempty. by left.
  - cbn [str_existsb] in Hd. by apply orb_false_iff in Hd as [Hc%negb_false_iff _].
Qed.

Lemma parse_int_show z : is_u32 z → parse_int (show_Z z) = Ok z.
Proof.
  intros [H0 H1]. destruct (show_Z_first z) as (c & r & Hs & Hc).
  assert (parse_int (show_Z z) = parse_u32_digits (show_Z z) 0) as ->.
  { rewrite Hs. by destruct c as [[] [] [] [] [] [] [] []]. }
  pose proof (show_N_parse (Z.to_N z)) as Hp.
  rewrite <-(Z2N.id z H0) at 2. apply (parse_u32_digits_ok _ 0); [exact Hp|]. by rewrite Z2N.id.
Qed.

(** ** Fields that parsing produces *)

Definition atom_wf (lo hi : Z) (f : CronField) : Prop :=
  match f with
  | FieldAny => True
  | FieldExact v => lo ≤ v ≤ hi
  | FieldRange s e => lo ≤ s ∧ s ≤ e ∧ e ≤ hi
  | FieldStep s n => lo ≤ s ≤ hi ∧ 0 < n ≤ U32_MAX
  | FieldList _ => False
  end%Z.

Definition field_wf (lo hi : Z) (f : CronField) : Prop :=
  match f with
  | FieldList items => 2 ≤ length items ∧ Forall (atom_wf lo hi) items
  | _ => atom_wf lo hi f
  end.

Definition cron_wf (c : CronExpression) : Prop :=
  match interval_seconds c with
  | Some n => (0 < n ≤ U32_MAX)%Z ∧ minute c = FieldAny ∧ hour c = FieldAny ∧
              day_of_month c = FieldAny ∧ month c = FieldAny ∧ day_of_week c = FieldAny
  | None => field_wf 0 59 (minute c) ∧ field_wf 0 23 (hour c) ∧ field_wf 1 31 (day_of_month c) ∧
            field_wf 1 12 (month c) ∧ field_wf 0 6 (day_of_week c)
  end.

Lemma parse_int_or_ok s msg v : parse_int_or s msg = Ok v → parse_int s = Ok v.
Proof. unfold parse_int_or. destruct (parse_int s); [by intros [= ->]|done]. Qed.

Lemma in_range_spec lo hi v : in_range lo hi v = true ↔ (lo ≤ v ≤ hi)%Z.
Proof. unfold in_range. rewrite andb_true_iff, !Z.leb_le. lia. Qed.

Lemma parse_plain_field_wf s lo hi f :
  parse_plain_field s lo hi = Ok f → atom_wf lo hi f.
Proof.
  unfold parse_plain_field, parse_step, parse_range. destruct (s =? "*")%string; [by intros [= <-]|].
  destruct (contains_char s "/").
  { destruct (split (Ascii.eqb "/") s) as [|p0 [|p1 [|? ?]]]; try done.
    intros H. apply rbind_ok in H as (st & _ & H). apply rbind_ok in H as (n & Hn & H).
    destruct (Z.eqb_spec n 0); [done|]. destruct (in_range lo hi st) eqn:E; [|done].
    injection H as <-. apply in_range_spec in E. apply parse_int_or_ok, parse_int_u32 in Hn as [? ?].
    simpl. lia. }
  destruct (contains_char s "-").
  { destruct (split (Ascii.eqb "-") s) as [|p0 [|p1 [|? ?]]]; try done.
    intros H. apply rbind_ok in H as (a & _ & H). apply rbind_ok in H as (b & _ & H).
    destruct (in_range lo hi a && in_range lo hi b) eqn:E; [|done]. simpl in H.
    destruct (Z.ltb_spec b a); [done|]. injection H as <-.
    apply andb_true_iff in E as [?%in_range_spec ?%in_range_spec]. simpl. lia. }
  intros H. apply rbind_ok in H as (v & _ & H). destruct (in_range lo hi v) eqn:E; [|done].
  injection H as <-. by apply in_range_spec in E.
Qed.

Lemma split_length_sep p s : str_existsb p s = true → 2 ≤ length (split p s).
Proof.
  induction s as [|c s IH]; simpl; [done|]. destruct (p c); simpl.
  - intros _. destruct (split p s) eqn:E; [by apply split_nonempty in E|]. simpl. lia.
  - intros H%IH. destruct (split p s); [simpl in *; lia|done].
Qed.

Lemma parse_cron_field_wf s lo hi f : parse_cron_field s lo hi = Ok f → field_wf lo hi f.
Proof.
  unfold parse_cron_field. destruct (s =? "*")%string; [by intros [= <-]|].
  destruct (contains_char s ",") eqn:Ec.
  - intros H. apply rbind_ok in H as (parts & Hp & [= <-]). apply try_collect_ok in Hp. split.
    + rewrite <-(Forall2_length _ _ _ Hp). by apply split_length_sep.
    + clear Ec. induction Hp as [|x y l l' Hxy _ IH]; constructor; [|done].
      by eapply parse_plain_field_wf.
  - intros H%parse_plain_field_wf. by destruct f.
Qed.

Lemma parse_cron_expression_wf s c : parse_cron_expression s = Ok c → cron_wf c.
Proof.
  unfold parse_cron_expression.
  destruct (split_whitespace s) as [|p0 [|p1 [|p2 [|p3 [|p4 [|? ?]]]]]]; try done.
  intros H. apply rbind_ok in H as (f0 & H0 & H). apply rbind_ok in H as (f1 & H1 & H).
  apply rbind_ok in H as (f2 & H2 & H). apply rbind_ok in H as (f3 & H3 & H).
  apply rbind_ok in H as (f4 & H4 & [= <-]).
  by split_and!; eapply parse_cron_field_wf.
Qed.

(** ** Lemmas: printing *)

(** The characters of a printed field without a list. *)
Definition field_char (c : ascii) : bool :=
  is_ascii_digit c || Ascii.eqb c "*" || Ascii.eqb c "-" || Ascii.eqb c "/".

Lemma show_Z_chars (p : ascii → bool) z :
  (∀ c, p c = true → is_ascii_digit c = false) → str_existsb p (show_Z z) = false.
Proof.
  intros H. unfold show_Z. eapply str_existsb_impl; [|apply show_N_digits].
  intros c Hc%H. simpl. by rewrite Hc.
Qed.

Ltac char_cases := intros [[] [] [] [] [] [] [] []]; vm_compute; congruence.

Lemma show_Z_contains z c : is_ascii_digit c = false → contains_char (show_Z z) c = false.
Proof. intros H. apply show_Z_chars. intros d Hd%Ascii.eqb_eq. by subst. Qed.

Lemma show_atom_chars lo hi f :
  atom_wf lo hi f → str_existsb (λ c, negb (field_char c)) (show_field f) = false.
Proof.
  assert (∀ z, str_existsb (λ c, negb (field_char c)) (show_Z z) = false) as Hz.
  { intros z. apply show_Z_chars. char_cases. }
  destruct f; simpl; intros Hf; try done; rewrite ?str_existsb_app; simpl; by rewrite !Hz.
Qed.

Lemma show_atom_no lo hi f (p : ascii → bool) :
  atom_wf lo hi f → (∀ c, p c = true → field_char c = false) →
  str_existsb p (show_field f) = false.
Proof.
  intros Hf Hp. eapply str_existsb_impl; [|by eapply show_atom_chars].
  intros c Hc. apply negb_true_iff. by apply Hp.
Qed.

Lemma show_Z_not_star z r : (show_Z z ++ r =? "*")%string = false.
Proof.
  destruct (show_Z_first z) as (c & t & -> & Hc).
  destruct c as [[] [] [] [] [] [] [] []]; try discriminate Hc; reflexivity.
Qed.

Lemma parse_int_or_show z msg : is_u32 z → parse_int_or (show_Z z) msg = Ok z.
Proof. intros H. unfold parse_int_or. by rewrite parse_int_show. Qed.

Section FieldRoundTrip.
Context (lo hi : Z) (Hlo : (0 ≤ lo)%Z) (Hhi : (hi ≤ U32_MAX)%Z).

Lemma in_range_u32 z : (lo ≤ z ≤ hi)%Z → is_u32 z ∧ in_range lo hi z = true.
Proof. intros H. split; [unfold is_u32; lia|]. by apply in_range_spec. Qed.

Lemma parse_plain_show f : atom_wf lo hi f → parse_plain_field (show_field f) lo hi = Ok f.
Proof.
  assert (∀ z c, is_ascii_digit c = false → str_existsb (Ascii.eqb c) (show_Z z) = false) as Hno
    by (intros z c; apply show_Z_contains).
  unfold parse_plain_field. destruct f as [|v|s e|s n|items]; simpl; intros Hf; try done.
  - rewrite <-(str_app_nil_r (show_Z v)) at 1. rewrite show_Z_not_star.
    rewrite !show_Z_contains by done. destruct (in_range_u32 v Hf) as [Hu Hr].
    rewrite parse_int_or_show by done. simpl. by rewrite Hr.
  - rewrite show_Z_not_star. unfold parse_range.
    change ("-" ++ show_Z e)%string with (String "-" (show_Z e)).
    rewrite !contains_char_app, !show_Z_contains by done. simpl.
    change (contains_char (String "-" (show_Z e)) "/") with (contains_char (show_Z e) "/").
    rewrite show_Z_contains by done. simpl.
    rewrite split_sep, split_no_sep_id by (done || by apply Hno).
    destruct (in_range_u32 s) as [Hu Hr]; [lia|]. destruct (in_range_u32 e) as [Hu' Hr']; [lia|].
    rewrite !parse_int_or_show by done. simpl. rewrite Hr, Hr'. simpl.
    destruct (Z.ltb_spec e s); [lia|done].
  - rewrite show_Z_not_star. unfold parse_step.
    change ("/" ++ show_Z n)%string with (String "/" (show_Z n)).
    rewrite contains_char_app, show_Z_contains by done. simpl.
    rewrite split_sep, split_no_sep_id by (done || by apply Hno).
    rewrite <-(str_app_nil_r (show_Z s)) at 1. rewrite show_Z_not_star.
    destruct Hf as [Hs Hn]. destruct (in_range_u32 s Hs) as [Hu Hr].
    rewrite parse_int_or_show by done. simpl.
    rewrite parse_int_or_show by (unfold is_u32; lia). simpl.
    destruct (Z.eqb_spec n 0); [lia|]. by rewrite Hr.
Qed.

Lemma parse_field_show f : field_wf lo hi f → parse_cron_field (show_field f) lo hi = Ok f.
Proof.
  intros Hf. unfold parse_cron_field.
  assert (atom_wf lo hi f → (if (show_field f =? "*")%string then Ok FieldAny
     else if contains_char (show_field f) "," then
       parts <-? try_collect (λ p, parse_plain_field (trim p) lo hi)
                   (split (Ascii.eqb ",") (show_field f)); Ok (FieldList parts)
     else parse_plain_field (show_field f) lo hi) = Ok f) as Hatom.
  { intros Ha. assert (contains_char (show_field f) "," = false) as ->
      by (eapply show_atom_no; [done|char_cases]).
    rewrite parse_plain_show by done. destruct (String.eqb_spec (show_field f) "*") as [He|]; [|done].
    pose proof (parse_plain_show f Ha) as Hp. by rewrite He in Hp. }
  destruct f as [|v|s e|s n|items]; try by apply Hatom. clear Hatom.
  destruct Hf as [Hlen HF]. simpl.
  assert (Forall (λ s, str_existsb (Ascii.eqb ",") s = false) (map show_field items)) as Hc.
  { apply Forall_map. eapply Forall_impl; [exact HF|]. intros f Hf. eapply show_atom_no; [done|].
    char_cases. }
  assert (split (Ascii.eqb ",") (join "," (map show_field items)) = map show_field items) as Hsp.
  { apply (split_join _ ","%char); [done| |done]. destruct items; [simpl in Hlen; lia|done]. }
  assert (contains_char (join "," (map show_field items)) "," = true) as Hcm.
  { apply not_false_iff_true. intros Hn. rewrite (split_no_sep_id _ _ Hn) in Hsp.
    apply (f_equal length) in Hsp. rewrite length_map in Hsp. simpl in Hsp. lia. }
  destruct (String.eqb_spec (join "," (map show_field items)) "*") as [He|_];
    [by rewrite He in Hcm|]. rewrite Hcm, Hsp.
  assert (try_collect (λ p, parse_plain_field (trim p) lo hi) (map show_field items) = Ok items)
    as ->; [|done].
  apply try_collect_ok. clear -HF Hlo Hhi. induction HF as [|f items Hf _ IH]; constructor; [|done].
  rewrite trim_no_whitespace; [by apply parse_plain_show|]. eapply show_atom_no; [done|]. char_cases.
Qed.
End FieldRoundTrip.

(** ** Lemmas: expressions *)

Lemma show_atom_nonempty lo hi f : atom_wf lo hi f → show_field f ≠ "".
Proof.
  assert (∀ z r, (show_Z z ++ r)%string ≠ "") as Hz.
  { intros z r. by destruct (show_Z_first z) as (c & t & -> & _). }
  destruct f; simpl; try done. intros _. rewrite <-(str_app_nil_r (show_Z v)). apply Hz.
Qed.

Lemma join_existsb p sep l :
  str_existsb p sep = false → Forall (λ s, str_existsb p s = false) l →
  str_existsb p (join sep l) = false.
Proof.
  intros Hs. unfold join. induction 1 as [|x l Hx HF IH]; [done|]. destruct l as [|y l]; [done|].
  change (String.concat sep (x :: y :: l)) with (x ++ sep ++ String.concat sep (y :: l))%string.
  by rewrite !str_existsb_app, Hx, Hs, IH.
Qed.

Lemma show_field_shape lo hi f :
  field_wf lo hi f → str_existsb is_whitespace (show_field f) = false ∧ show_field f ≠ "".
Proof.
  destruct f as [|v|s e|s n|items]; intros Hf;
    try (split; [eapply (show_atom_no lo hi); [exact Hf|char_cases]|by apply (show_atom_nonempty lo hi)]).
  destruct Hf as [Hl HF]. simpl. split.
  - apply join_existsb; [done|]. apply Forall_map. eapply Forall_impl; [exact HF|]. intros f Hf.
    eapply show_atom_no; [exact Hf|char_cases].
  - destruct HF as [|f l Hf HF]; [simpl in Hl; lia|]. destruct l as [|g l]; [simpl in Hl; lia|].
    unfold join. simpl. pose proof (show_atom_nonempty _ _ _ Hf). by destruct (show_field f).
Qed.

Lemma split_whitespace_5 a b c d e :
  Forall (λ s, str_existsb is_whitespace s = false ∧ s ≠ "") [a; b; c; d; e] →
  split_whitespace (a ++ " " ++ b ++ " " ++ c ++ " " ++ d ++ " " ++ e) = [a; b; c; d; e].
Proof.
  intros HF. unfold split_whitespace.
  assert (split is_whitespace (a ++ " " ++ b ++ " " ++ c ++ " " ++ d ++ " " ++ e) = [a; b; c; d; e])
    as ->.
  { apply (split_join is_whitespace " "%char [a; b; c; d; e]); [done|done|].
    eapply Forall_impl; [exact HF|]. naive_solver. }
  repeat (apply Forall_cons in HF as [[_ ?] HF]).
  by destruct a, b, c, d, e.
Qed.

Lemma first_last_trim a b :
  str_existsb is_whitespace a = false → a ≠ "" → str_existsb is_whitespace b = false → b ≠ "" →
  ∀ m, trim (a ++ m ++ b) = (a ++ m ++ b)%string.
Proof.
  intros Ha Hna Hb Hnb m. destruct a as [|c a]; [done|].
  destruct (last_char_some b Hnb) as [d Hd].
  assert (last_char (String c a ++ m ++ b) = Some d) as Hl.
  { rewrite last_char_app. rewrite last_char_app, Hd. destruct (m ++ b)%string eqn:E.
    - by destruct m, b.
    - by destruct b. }
  eapply trim_id; [done| |exact Hl|].
  - simpl in Ha. by apply orb_false_iff in Ha as [? _].
  - apply not_true_iff_false. intros Hw. by rewrite (last_char_existsb _ _ _ Hd Hw) in Hb.
Qed.

Definition with_original (c : CronExpression) (s : string) : CronExpression :=
  {| interval_seconds := interval_seconds c; minute := minute c; hour := hour c;
     day_of_month := day_of_month c; month := month c; day_of_week := day_of_week c;
     original := s |}.

Lemma parse_cron_show c :
  interval_seconds c = None → cron_wf c →
  trim (show_cron c) = show_cron c ∧ length (split_whitespace (show_cron c)) = 5 ∧
  parse_cron_expression (show_cron c) = Ok (with_original c (show_cron c)).
Proof.
  intros Hi Hw. unfold cron_wf in Hw. rewrite Hi in Hw. destruct Hw as (H0 & H1 & H2 & H3 & H4).
  unfold show_cron. rewrite Hi.
  destruct (show_field_shape _ _ _ H0), (show_field_shape _ _ _ H1), (show_field_shape _ _ _ H2),
    (show_field_shape _ _ _ H3), (show_field_shape _ _ _ H4).
  set (a := show_field (minute c)) in *. set (b := show_field (hour c)) in *.
  set (d := show_field (day_of_month c)) in *. set (e := show_field (month c)) in *.
  set (f := show_field (day_of_week c)) in *.
  assert (split_whitespace (a ++ " " ++ b ++ " " ++ d ++ " " ++ e ++ " " ++ f) = [a; b; d; e; f]) as Hsp
    by (apply split_whitespace_5; by repeat constructor).
  split_and!.
  - assert ((a ++ " " ++ b ++ " " ++ d ++ " " ++ e ++ " " ++ f) =
            a ++ (" " ++ b ++ " " ++ d ++ " " ++ e ++ " ") ++ f)%string as ->
      by (by rewrite !str_app_assoc).
    by apply first_last_trim.
  - by rewrite Hsp.
  - unfold parse_cron_expression. rewrite Hsp. subst a b d e f.
    rewrite !parse_field_show by (done || (unfold U32_MAX; lia)). simpl. unfold with_original.
    by rewrite Hi.
Qed.

(** What the schedule code relies on of the [regex] crate: the interval pattern
    accepts a canonical phrase and captures its number and its unit. *)
Class RegexLaws (captures : string → string → option (list string)) : Prop := {
  interval_captures d : d ≠ "" → str_existsb (λ c, negb (is_ascii_digit c)) d = false →
    captures EVERY_INTERVAL_RE ("every " ++ d ++ " seconds")%string = Some [d; "seconds"];
}.

Section Schedule.
Context (captures : string → string → option (list string)).

Lemma at_time_wf input h m dow c :
  (0 ≤ h)%Z → (0 ≤ m)%Z → field_wf 0 6 dow → at_time input h m dow = Ok c → cron_wf c.
Proof.
  intros Hh Hm Hd. unfold at_time.
  destruct (Z.ltb_spec 23 h); [done|]. destruct (Z.ltb_spec 59 m); [done|]. simpl.
  intros [= <-]. unfold cron_wf; simpl. by split_and!; try lia.
Qed.

Lemma parse_unwrap_u32 s v : parse_unwrap s = Some v → is_u32 v.
Proof.
  unfold parse_unwrap. destruct (parse_int s) eqn:E; [|done]. intros [= ->].
  by eapply parse_int_u32.
Qed.

Lemma weekday_number_range w d : weekday_number w = Some d → (0 ≤ d ≤ 6)%Z.
Proof. unfold weekday_number. repeat case_match; intros; simplify_eq; lia. Qed.

Lemma parse_natural_language_wf s c :
  parse_natural_language captures s = Some (Ok c) → cron_wf c.
Proof.
  assert (∀ lower, daily_phrase captures s lower = Some (Ok c) → cron_wf c) as Hdaily.
  { intros lower. unfold daily_phrase, unsupported_phrase.
    destruct (captures DAILY_RE lower) as [[|h [|m [|? ?]]]|]; try (case_match; naive_solver).
    intros H. apply bind_Some in H as (hv & Hh%parse_unwrap_u32 & H).
    apply bind_Some in H as (mv & Hm%parse_unwrap_u32 & [= H]).
    by eapply at_time_wf in H; [|apply Hh|apply Hm|]. }
  assert (∀ lower, weekday_phrase captures s lower = Some (Ok c) → cron_wf c) as Hweek.
  { intros lower. unfold weekday_phrase.
    destruct (captures WEEKDAY_RE lower) as [[|w [|h [|m [|? ?]]]]|]; try apply Hdaily.
    intros H. apply bind_Some in H as (hv & Hh%parse_unwrap_u32 & H).
    apply bind_Some in H as (mv & Hm%parse_unwrap_u32 & H).
    destruct (_ || _); [injection H as H; by eapply at_time_wf in H; [|apply Hh|apply Hm|]|].
    apply bind_Some in H as (d & Hd%weekday_number_range & [= H]).
    by eapply at_time_wf in H; [|apply Hh|apply Hm|simpl; lia]. }
  unfold parse_natural_language. destruct (captures EVERY_INTERVAL_RE _) as [[|d [|u [|? ?]]]|];
    try apply Hweek.
  intros H. apply bind_Some in H as (n & Hn%parse_unwrap_u32 & H). revert H. unfold interval_phrase.
  destruct (Z.eqb_spec n 0); [by intros [= ?]|]. destruct Hn as [Hn0 Hn1].
  destruct (starts_with u "second"); [intros [= <-]; unfold cron_wf; simpl; split_and!; (lia || done)|].
  destruct (starts_with u "minute").
  { destruct (Z.ltb_spec 59 n); [by intros [= ?]|]. intros [= <-]. unfold cron_wf; simpl.
    split_and!; (lia || done). }
  destruct (starts_with u "hour"); [|apply Hweek].
  destruct (Z.ltb_spec 23 n); [by intros [= ?]|]. intros [= <-]. unfold cron_wf; simpl.
  split_and!; (lia || done).
Qed.

Lemma parse_schedule_wf s c : parse_schedule captures s = Some (Ok c) → cron_wf c.
Proof.
  unfold parse_schedule. destruct (_ || _ || _ || _).
  - intros [= H]. by eapply parse_cron_expression_wf.
  - apply parse_natural_language_wf.
Qed.

Context `{!RegexLaws captures}.

Lemma show_interval_text n :
  let s := ("every " ++ show_Z n ++ " seconds")%string in
  trim s = s ∧ to_lowercase s = s ∧ contains_char s "/" = false ∧ contains_char s "," = false ∧
  contains_char s "-" = false ∧ length (split_whitespace s) = 3.
Proof.
  intros s. subst s.
  assert (∀ c, is_ascii_digit c = false → contains_char "every " c = false →
    contains_char " seconds" c = false → contains_char ("every " ++ show_Z n ++ " seconds")%string c = false)
    as Hc.
  { intros c H1 H2 H3. by rewrite !contains_char_app, show_Z_contains, H2, H3. }
  split_and!; try by apply Hc.
  - assert (("every " ++ show_Z n ++ " seconds") = "every" ++ (" " ++ show_Z n ++ " ") ++ "seconds")%string
      as -> by (simpl; by rewrite !str_app_assoc). by apply first_last_trim.
  - assert (∀ t, str_existsb (λ c, negb (is_ascii_digit c)) t = false →
      to_lowercase (t ++ " seconds") = (t ++ " seconds")%string) as Ht.
    { induction t as [|c t IH]; [done|]. cbn [str_existsb]. intros [Hc' Ht]%orb_false_iff.
      unfold to_lowercase in *. cbn [String.append str_map]. rewrite IH by done. f_equal.
      apply negb_false_iff in Hc'. revert Hc'. clear. by destruct c as [[] [] [] [] [] [] [] []]. }
    unfold to_lowercase in *. simpl. rewrite Ht by apply show_N_digits. done.
  - unfold split_whitespace.
    assert (split is_whitespace ("every " ++ show_Z n ++ " seconds") = ["every"; show_Z n; "seconds"])
      as ->.
    { apply (split_join is_whitespace " "%char ["every"; show_Z n; "seconds"]); [done|done|].
      repeat constructor. apply show_Z_chars. char_cases. }
    simpl. by destruct (show_Z_first n) as (c & r & -> & _).
Qed.

Lemma parse_schedule_show c :
  cron_wf c → parse_schedule captures (show_cron c) = Some (Ok (with_original c (show_cron c))).
Proof.
  intros Hw. destruct (interval_seconds c) as [n|] eqn:Ei.
  - unfold cron_wf in Hw. rewrite Ei in Hw. unfold show_cron. rewrite Ei.
    destruct (show_interval_text n) as (H1 & H2 & H3 & H4 & H5 & H6).
    unfold parse_schedule. rewrite H1, H3, H4, H5, H6. simpl orb. cbv iota.
    unfold parse_natural_language. rewrite H2.
    rewrite interval_captures; [|by destruct (show_Z_first n) as (? & ? & -> & _)|apply show_N_digits].
    unfold parse_unwrap. rewrite parse_int_show by (unfold is_u32; lia). simpl.
    unfold interval_phrase. destruct (Z.eqb_spec n 0); [lia|].
    change (starts_with "seconds" "second") with true. cbv iota.
    destruct Hw as (_ & W0 & W1 & W2 & W3 & W4). unfold with_original.
    by rewrite Ei, W0, W1, W2, W3, W4.
  - destruct (parse_cron_show c Ei Hw) as (H1 & H2 & H3). unfold parse_schedule.
    rewrite H1, H2, H3. by rewrite !orb_true_r.
Qed.

(** Schedules round-trip.  Every schedule the parser accepts, as cron
    syntax or as a phrase, prints to a text the parser reads back as the same
    schedule, and its fields are within their calendar bounds with positive
    steps, so matching never divides by zero. *)
Theorem schedule_roundtrip s c :
  parse_schedule captures s = Some (Ok c) →
  cron_wf c ∧
  parse_schedule captures (show_cron c) = Some (Ok (with_original c (show_cron c))).
Proof. intros H%parse_schedule_wf. split; [done|by apply parse_schedule_show]. Qed.

(** The interval phrase is parsed with [unwrap]: a number above the 32-bit
    range makes the parser panic instead of reporting an error. *)
Theorem oversized_interval_panics :
  parse_schedule captures "every 99999999999 seconds" = None.
Proof.
  unfold parse_schedule. change (trim "every 99999999999 seconds") with "every 99999999999 seconds".
  simpl orb. cbv iota. unfold parse_natural_language.
  change (to_lowercase "every 99999999999 seconds") with ("every " ++ "99999999999" ++ " seconds")%string.
  rewrite interval_captures by done. done.
Qed.
End Schedule.

(** ** Lemmas: occurrences *)

Section Occurrences.
Context (cal : Calendar) (cron : CronExpression).

Lemma occurrence_scan_spec n k :
  match occurrence_scan cal cron n (k * MINUTE) with
  | Some d => ∃ i, d = (i * MINUTE)%Z ∧ (k ≤ i < k + Z.of_nat n)%Z ∧
      matches_cron cal d cron = true ∧
      ∀ j, (k ≤ j < i)%Z → matches_cron cal (j * MINUTE) cron = false
  | None => ∀ j, (k ≤ j < k + Z.of_nat n)%Z → matches_cron cal (j * MINUTE) cron = false
  end.
Proof.
  revert k. induction n as [|n IH]; intros k; cbn [occurrence_scan]; [intros j Hj; lia|].
  destruct (matches_cron cal (k * MINUTE) cron) eqn:E.
  - exists k. split_and!; [done|lia|lia|done|]. intros j Hj. lia.
  - replace (k * MINUTE + MINUTE)%Z with ((k + 1) * MINUTE)%Z by lia.
    specialize (IH (k + 1)%Z). destruct (occurrence_scan cal cron n _) as [d|].
    + destruct IH as (i & -> & Hi & Hm & Hn). exists i. split_and!; [done|lia|lia|done|].
      intros j Hj. destruct (decide (j = k)) as [->|]; [done|]. apply Hn. lia.
    + intros j Hj. destruct (decide (j = k)) as [->|]; [done|]. apply IH. lia.
Qed.

(** The instants that can be an occurrence after [after]: whole minutes within
    the next 366 days. *)
Definition eligible (after d : Z) : Prop :=
  (d mod MINUTE = 0 ∧ after < d ∧ d ≤ after + 366 * 24 * 60 * MINUTE)%Z.

Lemma eligible_minutes after d :
  eligible after d ↔
  ∃ i, d = (i * MINUTE)%Z ∧
       (after / MINUTE + 1 ≤ i < after / MINUTE + 1 + Z.of_nat MAX_ITERATIONS)%Z.
Proof.
  unfold eligible. assert (Z.of_nat MAX_ITERATIONS = 527040)%Z as ->
    by (unfold MAX_ITERATIONS; rewrite N_nat_Z; reflexivity).
  unfold MINUTE, NANOS. split.
  - intros (Hd & Ha & Hb). exists (d / 60000000000)%Z. Z.to_euclidean_division_equations; lia.
  - intros (i & -> & Hi). Z.to_euclidean_division_equations; lia.
Qed.

(** The next occurrence of a cron schedule is the earliest matching whole
    minute strictly after the given instant, searched up to 366 days ahead; the
    search fails exactly when no minute of that window matches.  An interval
    schedule always has a next occurrence, strictly later and at most one
    interval away. *)
Theorem next_occurrence_spec after :
  match interval_seconds cron with
  | None =>
      match next_occurrence cal cron after with
      | Some d => eligible after d ∧ matches_cron cal d cron = true ∧
          ∀ d', eligible after d' → d' < d → matches_cron cal d' cron = false
      | None => ∀ d', eligible after d' → matches_cron cal d' cron = false
      end
  | Some n =>
      0 < n → ∃ d, next_occurrence cal cron after = Some d ∧
        d mod NANOS = 0 ∧ after < d ∧ d ≤ after + n * NANOS
  end%Z.
Proof.
  unfold next_occurrence. destruct (interval_seconds cron) as [n|].
  - intros Hn. eexists. split; [done|]. unfold floor_to, NANOS.
    Z.to_euclidean_division_equations; lia.
  - assert (floor_to MINUTE (after + MINUTE) = (after / MINUTE + 1) * MINUTE)%Z as ->.
    { unfold floor_to, MINUTE, NANOS. Z.to_euclidean_division_equations; lia. }
    pose proof (occurrence_scan_spec MAX_ITERATIONS (after / MINUTE + 1)) as H.
    destruct (occurrence_scan _ _ _ _) as [d|].
    + destruct H as (i & -> & Hi & Hm & Hn). split_and!; [|done|].
      * apply eligible_minutes. by exists i.
      * intros d' (j & -> & Hj)%eligible_minutes Hlt. apply Hn. unfold MINUTE, NANOS in Hlt. lia.
    + intros d' (j & -> & Hj)%eligible_minutes. by apply H.
Qed.
End Occurrences.

(** ** Instances of the parameters *)

(** The proleptic Gregorian calendar. *)
Definition gregorian : Calendar :=
  let day_of_year days :=
    let z := (days + 719468)%Z in
    let doe := (z - z / 146097 * 146097)%Z in
    let yoe := ((doe - doe / 1460 + doe / 36524 - doe / 146096) / 365)%Z in
    (doe - (365 * yoe + yoe / 4 - yoe / 100))%Z in
  {| cal_month days :=
       let mp := ((5 * day_of_year days + 2) / 153)%Z in
       if (mp <? 10)%Z then (mp + 3)%Z else (mp - 9)%Z;
     cal_day days :=
       let doy := day_of_year days in
       let mp := ((5 * doy + 2) / 153)%Z in
       (doy - (153 * mp + 2) / 5 + 1)%Z |}.

(** The interval pattern on ASCII text. *)
Definition ascii_captures (pattern text : string) : option (list string) :=
  if (pattern =? EVERY_INTERVAL_RE)%string then
    match split is_whitespace text with
    | ["every"; d; u] =>
        if negb (str_is_empty d) && negb (str_existsb (λ c, negb (is_ascii_digit c)) d)
           && existsb (String.eqb u) ["second"; "seconds"; "minute"; "minutes"; "hour"; "hours"]
        then Some [d; u] else None
    | _ => None
    end
  else None.

#[export] Instance ascii_captures_laws : RegexLaws ascii_captures.
Proof.
  split. intros d Hne Hd. unfold ascii_captures. rewrite String.eqb_refl.
  assert (split is_whitespace ("every " ++ d ++ " seconds") = ["every"; d; "seconds"]) as ->.
  { apply (split_join is_whitespace " "%char ["every"; d; "seconds"]); [done|done|].
    repeat constructor. eapply str_existsb_impl; [|exact Hd]. char_cases. }
  rewrite Hd. by destruct d.
Qed.

Lemma schedule_roundtrip_witness :
  cron_wf {| interval_seconds := None; minute := FieldStep 0 15; hour := FieldRange 9 17;
             day_of_month := FieldAny; month := FieldAny;
             day_of_week := FieldList [FieldExact 1; FieldExact 3];
             original := "*/15 9-17 * * 1,3" |} ∧
  parse_schedule ascii_captures "0/15 9-17 * * 1,3" =
    Some (Ok {| interval_seconds := None; minute := FieldStep 0 15; hour := FieldRange 9 17;
                day_of_month := FieldAny; month := FieldAny;
                day_of_week := FieldList [FieldExact 1; FieldExact 3];
                original := "0/15 9-17 * * 1,3" |}).
Proof.
  apply (schedule_roundtrip ascii_captures " */15 9-17 * * 1,3 "). vm_compute. reflexivity.
Defined.

(** 2025-03-01T00:00:00Z and 2028-02-29T00:00:00Z. *)
Definition march_2025 : Z := 20148 * 24 * 60 * MINUTE.
Definition leap_day_2028 : Z := 21243 * 24 * 60 * MINUTE.

Definition leap_day_cron : CronExpression :=
  {| interval_seconds := None; minute := FieldExact 0; hour := FieldExact 0;
     day_of_month := FieldExact 29; month := FieldExact 2; day_of_week := FieldAny;
     original := "0 0 29 2 *" |}.

Definition is_leap_day (days : Z) : bool :=
  (2 =? cal_month gregorian days)%Z && (29 =? cal_day gregorian days)%Z.

Lemma no_leap_day_for_a_year days :
  (20148 ≤ days ≤ 20514)%Z → is_leap_day days = false.
Proof.
  intros Hd.
  assert (forallb (λ i, negb (is_leap_day (20148 + Z.of_nat i))) (seq 0 367) = true) as H
    by (vm_compute; reflexivity).
  rewrite forallb_true in H. specialize (H (Z.to_nat (days - 20148))).
  rewrite elem_of_seq, negb_true_iff in H.
  replace (20148 + Z.of_nat (Z.to_nat (days - 20148)))%Z with days in H by lia. apply H. lia.
Qed.

Lemma leap_day_cron_matches dt :
  matches_cron gregorian dt leap_day_cron = true → is_leap_day (dt_days dt) = true.
Proof.
  unfold matches_cron, is_leap_day, dt_month, dt_day. cbn [minute hour month day_of_month
    leap_day_cron field_matches].
  destruct (0 =? dt_minute dt)%Z; [|done]. destruct (0 =? dt_hour dt)%Z; [|done].
  destruct (2 =? _)%Z; [|done]. by destruct (29 =? _)%Z.
Qed.

(** The 366-day window is too short for leap days: a schedule for
    29 February has no next occurrence in March 2025, although it matches
    29 February 2028. *)
Theorem leap_day_schedule_is_lost :
  parse_schedule ascii_captures "0 0 29 2 *" = Some (Ok leap_day_cron) ∧
  next_occurrence gregorian leap_day_cron march_2025 = None ∧
  matches_cron gregorian leap_day_2028 leap_day_cron = true.
Proof.
  split_and!; [vm_compute; reflexivity| |vm_compute; reflexivity].
  pose proof (occurrence_scan_spec gregorian leap_day_cron MAX_ITERATIONS (march_2025 / MINUTE + 1))
    as H.
  assert (next_occurrence gregorian leap_day_cron march_2025 =
    occurrence_scan gregorian leap_day_cron MAX_ITERATIONS ((march_2025 / MINUTE + 1) * MINUTE)) as ->.
  { unfold next_occurrence. cbn [interval_seconds leap_day_cron]. f_equal. }
  destruct (occurrence_scan _ _ _ _) as [d|]; [|done]. exfalso.
  destruct H as (i & -> & Hi & Hm%leap_day_cron_matches & _).
  assert (Z.of_nat MAX_ITERATIONS = 527040)%Z as Hmax
    by (unfold MAX_ITERATIONS; rewrite N_nat_Z; reflexivity).
  rewrite Hmax in Hi. clear Hmax. change (march_2025 / MINUTE)%Z with 29013120%Z in Hi.
  rewrite no_leap_day_for_a_year in Hm; [done|]. unfold dt_days, MINUTE, NANOS.
  Z.to_euclidean_division_equations; lia.
Qed.
