(* ===== verification/ContentStore.v ===== *)
(** * The content store

    runtime/content_store.rs: immutable blobs named by their digest, and a
    manifest per session that maps names and short aliases to blobs, with the
    visibility rules that let a session read what another one wrote.

    The state of one [ContentStore] is the directory it works on and its own
    cache of manifests; several stores on one directory are several caches with
    the same disk.  The disk carries the outcomes of the coming file writes: a
    write succeeds, is refused before anything changes, or is torn and leaves a
    prefix.  A manifest file is kept as the manifest it decodes to, [None] when
    it does not decode.  The digest is a parameter.  [project_live] and [stats],
    which only copy out of the store, are left out. *)

From Stdlib Require Import Ascii String.
From stdpp Require Import prelude gmap strings list sorting.
From S2P Require Import Prelude RustStr.

Open Scope string_scope.
Open Scope nat_scope.
Open Scope list_scope.

(** ** State *)

Inductive ContentVisibility : Type := Private | SessionWide | Global.

#[export] Instance content_visibility_eq_dec : EqDecision ContentVisibility.
Proof. solve_decision. Defined.

Record SessionManifest := {
  names : gmap string string;
  aliases : gmap string string;
  manifest_root : option string;
  visibility : gmap string ContentVisibility;
}.

Definition manifest_default : SessionManifest :=
  {| names := ∅; aliases := ∅; manifest_root := None; visibility := ∅ |}.

(** The outcome of one file write: a torn write leaves the first [n] bytes. *)
Inductive IoOutcome : Type := IoOk | IoRefused | IoTorn (n : nat).

Record Disk := {
  blobs : gmap string string;
  manifest_files : gmap string (option SessionManifest);
  io : list IoOutcome;
}.

Record ContentStore := {
  disk : Disk;
  manifests : gmap string SessionManifest;
}.

Inductive StoreError : Type :=
| ContentNotFound | NameNotFound | AliasNotFound | HandleNotVisible | NotUtf8
| BadManifest | IoFailed | BadHandle.

Definition GLOBAL_SESSION_ID : string := "__global__".
Definition SHORT_ALIAS_LEN : nat := 8.

Definition root_session_id (session_id : string) : string :=
  default session_id (head (split (Ascii.eqb "/"%char) session_id)).

(** [Path::components] of a relative path: empty and [.] segments vanish. *)
Definition safe_relative_path (s : string) : bool :=
  let parts := split (Ascii.eqb "/"%char) s in
  negb (starts_with s "/")
  && forallb (λ p, negb (p =? "..")%string) parts
  && existsb (λ p, negb (str_is_empty p) && negb (p =? ".")%string) parts.

(** ** Store computations: state and error *)

Definition StoreM (A : Type) : Type := ContentStore → ContentStore * result A StoreError.

#[export] Instance storem_ret : MRet StoreM := λ A a st, (st, Ok a).
#[export] Instance storem_bind : MBind StoreM := λ A B k m st,
  match m st with
  | (st, Ok a) => k a st
  | (st, Err e) => (st, Err e)
  end.

Definition fail {A} (e : StoreError) : StoreM A := λ st, (st, Err e).
Definition gets {A} (f : ContentStore → A) : StoreM A := λ st, (st, Ok (f st)).

(** [if let Ok(x) = m]: the error is dropped, what [m] did stays. *)
Definition attempt {A} (m : StoreM A) : StoreM (option A) := λ st,
  match m st with
  | (st, Ok a) => (st, Ok (Some a))
  | (st, Err _) => (st, Ok None)
  end.

Definition set_cached (session_id : string) (m : SessionManifest) : StoreM unit := λ st,
  ({| disk := disk st; manifests := <[session_id := m]> (manifests st) |}, Ok tt).

Definition next_io (d : Disk) : IoOutcome * list IoOutcome :=
  match io d with [] => (IoOk, []) | o :: rest => (o, rest) end.

(** A torn manifest file does not decode: the text of a manifest is one JSON
    object, no proper prefix of which is JSON. *)
Definition save_manifest (session_id : string) (m : SessionManifest) : StoreM unit := λ st,
  let d := disk st in
  let '(o, rest) := next_io d in
  let files := match o with
               | IoOk => <[session_id := Some m]> (manifest_files d)
               | IoRefused => manifest_files d
               | IoTorn _ => <[session_id := None]> (manifest_files d)
               end in
  ({| disk := {| blobs := blobs d; manifest_files := files; io := rest |};
      manifests := manifests st |},
   match o with IoOk => Ok tt | _ => Err IoFailed end).

Definition load_manifest_from_disk_uncached (session_id : string) : StoreM SessionManifest := λ st,
  match manifest_files (disk st) !! session_id with
  | Some (Some m) => (st, Ok m)
  | Some None => (st, Err BadManifest)
  | None => (st, Ok manifest_default)
  end.

(** Also the first lines of every update: the manifest is read into the cache
    unless it is there. *)
Definition load_manifest (session_id : string) : StoreM SessionManifest :=
  cached ← gets (λ st, manifests st !! session_id);
  match cached with
  | Some m => mret m
  | None =>
      m ← load_manifest_from_disk_uncached session_id;
      set_cached session_id m;;
      mret m
  end.

(** The cached manifest is changed first, then saved. *)
Definition update_manifest (session_id : string) (f : SessionManifest → SessionManifest)
    : StoreM unit :=
  m ← load_manifest session_id;
  set_cached session_id (f m);;
  save_manifest session_id (f m).

(** ** Operations *)

Section Store.
Context (sha256_hex : string → string).

Definition compute_handle (content : string) : string :=
  ("sha256:" ++ sha256_hex content)%string.

(** The digest, which names the blob's file. *)
Definition blob_key (handle : string) : string := default handle (strip_prefix handle "sha256:").

Definition handle_to_short_alias (handle : string) : string :=
  match strip_prefix handle "sha256:" with
  | Some h => if SHORT_ALIAS_LEN <=? String.length h
              then String.substring 0 SHORT_ALIAS_LEN h else handle
  | None => handle
  end.

Definition write (content : string) : StoreM string := λ st,
  let handle := compute_handle content in
  let d := disk st in
  match blobs d !! blob_key handle with
  | Some _ => (st, Ok handle)
  | None =>
      let '(o, rest) := next_io d in
      let stored := match o with
                    | IoOk => <[blob_key handle := content]> (blobs d)
                    | IoRefused => blobs d
                    | IoTorn n => <[blob_key handle := String.substring 0 n content]> (blobs d)
                    end in
      ({| disk := {| blobs := stored; manifest_files := manifest_files d; io := rest |};
          manifests := manifests st |},
       match o with IoOk => Ok handle | _ => Err IoFailed end)
  end.

(** [handle_to_path] slices the first two bytes of the digest: [BadHandle] is
    the panic on a handle that has fewer. *)
Definition read (handle : string) : StoreM string := λ st,
  if String.length (blob_key handle) <? 2 then (st, Err BadHandle)
  else match blobs (disk st) !! blob_key handle with
       | Some content => (st, Ok content)
       | None => (st, Err ContentNotFound)
       end.

(** [String::from_utf8]: the well-formed byte sequences of the Unicode
    standard. *)
Definition byte_in (lo hi : nat) (c : ascii) : bool :=
  (lo <=? nat_of_ascii c) && (nat_of_ascii c <=? hi).

Fixpoint valid_utf8 (s : string) : bool :=
  match s with
  | "" => true
  | String a r1 =>
      if byte_in 0 127 a then valid_utf8 r1
      else match r1 with
      | "" => false
      | String b r2 =>
          if byte_in 194 223 a then byte_in 128 191 b && valid_utf8 r2
          else match r2 with
          | "" => false
          | String c r3 =>
              if byte_in 224 239 a
              then byte_in (if byte_in 224 224 a then 160 else 128)
                           (if byte_in 237 237 a then 159 else 191) b
                   && byte_in 128 191 c && valid_utf8 r3
              else match r3 with
              | "" => false
              | String d r4 =>
                  byte_in 240 244 a
                  && byte_in (if byte_in 240 240 a then 144 else 128)
                             (if byte_in 244 244 a then 143 else 191) b
                  && byte_in 128 191 c && byte_in 128 191 d && valid_utf8 r4
              end
          end
      end
  end.

Definition read_string (handle : string) : StoreM string :=
  content ← read handle;
  if valid_utf8 content then mret content else fail NotUtf8.

Definition blob_exists (st : ContentStore) (handle : string) : bool :=
  bool_decide (is_Some (blobs (disk st) !! blob_key handle)).

Definition register_name (session_id name handle : string) : StoreM unit :=
  update_manifest session_id (λ m,
    {| names := <[name := handle]> (names m);
       aliases := <[handle_to_short_alias handle := handle]> (aliases m);
       manifest_root := manifest_root m; visibility := visibility m |}).

Definition set_root_session (session_id root : string) : StoreM unit :=
  update_manifest session_id (λ m,
    {| names := names m; aliases := aliases m; manifest_root := Some root;
       visibility := visibility m |}).

Definition set_visibility (session_id handle : string) (v : ContentVisibility) : StoreM unit :=
  update_manifest session_id (λ m,
    {| names := names m; aliases := aliases m; manifest_root := manifest_root m;
       visibility := <[handle := v]> (visibility m) |}).

Definition register_name_with_visibility (session_id name handle : string)
    (v : ContentVisibility) : StoreM unit :=
  register_name session_id name handle;;
  set_visibility session_id handle v;;
  if bool_decide (v = Private) then mret tt
  else
    manifest ← load_manifest session_id;
    match manifest_root manifest with
    | Some root_id => if (root_id =? session_id)%string then mret tt
                      else register_name root_id name handle
    | None => mret tt
    end;;
    if bool_decide (v = Global) then register_name GLOBAL_SESSION_ID name handle
    else mret tt.

Definition resolve_name (session_id name : string) : StoreM string :=
  manifest ← load_manifest session_id;
  match names manifest !! name with
  | Some handle => mret handle
  | None => fail NameNotFound
  end.

(** The manifests a session reads besides its own, in order. *)
Definition other_root (session_id : string) (manifest : SessionManifest) : option string :=
  root ← manifest_root manifest; if (root =? session_id)%string then None else Some root.

Definition resolve_name_with_root (session_id name : string) : StoreM string :=
  own ← attempt (resolve_name session_id name);
  match own with
  | Some handle => mret handle
  | None =>
      manifest ← load_manifest session_id;
      in_root ← match other_root session_id manifest with
                | Some root_id => attempt (resolve_name root_id name)
                | None => mret None
                end;
      match in_root with
      | Some handle => mret handle
      | None =>
          in_global ← (if (session_id =? GLOBAL_SESSION_ID)%string then mret None
                       else attempt (resolve_name GLOBAL_SESSION_ID name));
          match in_global with
          | Some handle => mret handle
          | None => fail NameNotFound
          end
      end
  end.

(** The manifests consulted by the lookups that propagate errors: the
    session's, its root's and the global one. *)
Definition visible_manifests (session_id : string) : StoreM (list SessionManifest) :=
  manifest ← load_manifest session_id;
  root ← match other_root session_id manifest with
         | Some root_id => m ← load_manifest root_id; mret [m]
         | None => mret []
         end;
  global ← (if (session_id =? GLOBAL_SESSION_ID)%string then mret []
            else m ← load_manifest GLOBAL_SESSION_ID; mret [m]);
  mret (manifest :: root ++ global).

(** The lookup stops at the first manifest that has the alias. *)
Definition resolve_alias_with_root (session_id alias : string) : StoreM string :=
  manifest ← load_manifest session_id;
  match aliases manifest !! alias with
  | Some handle => mret handle
  | None =>
      in_root ← match other_root session_id manifest with
                | Some root_id => m ← load_manifest root_id; mret (aliases m !! alias)
                | None => mret None
                end;
      match in_root with
      | Some handle => mret handle
      | None =>
          in_global ← (if (session_id =? GLOBAL_SESSION_ID)%string then mret None
                       else m ← load_manifest GLOBAL_SESSION_ID; mret (aliases m !! alias));
          match in_global with
          | Some handle => mret handle
          | None => fail AliasNotFound
          end
      end
  end.

(** Registered by name or alias. *)
Definition mentions (handle : string) (m : SessionManifest) : bool :=
  existsb (λ e, (e.2 =? handle)%string) (map_to_list (names m))
  || existsb (λ e, (e.2 =? handle)%string) (map_to_list (aliases m)).

Definition is_handle_visible (session_id handle : string) : StoreM bool :=
  manifest ← load_manifest session_id;
  if mentions handle manifest then mret true
  else
    in_root ← match other_root session_id manifest with
              | Some root_id => m ← load_manifest root_id; mret (mentions handle m)
              | None => mret false
              end;
    if in_root : bool then mret true
    else if (session_id =? GLOBAL_SESSION_ID)%string then mret false
    else m ← load_manifest GLOBAL_SESSION_ID; mret (mentions handle m).

(** The names of a handle, sorted. *)
Definition find_names_for_handle (session_id handle : string) : StoreM (list string) :=
  ms ← visible_manifests session_id;
  mret (sort_by String.compare (remove_dups (ms ≫= (λ m,
    (List.filter (λ e, (e.2 =? handle)%string) (map_to_list (names m))).*1)))).

Definition is_short_alias (s : string) : bool :=
  (String.length s =? SHORT_ALIAS_LEN)
  && negb (str_existsb (λ c, negb (is_ascii_hexdigit c)) s).

(** The alias of a [cnt_] or [cnt:] reference. *)
Definition cnt_alias (s : string) : option string :=
  match strip_prefix s "cnt_" with
  | Some rest => if is_short_alias rest then Some rest else None
  | None =>
      match strip_prefix s "cnt:" with
      | Some rest => if is_short_alias rest then Some rest else None
      | None => None
      end
  end.

Definition resolve_name_or_handle_to_handle (session_id raw : string) : StoreM string :=
  let name_or_handle := trim raw in
  match cnt_alias name_or_handle with
  | Some alias => resolve_alias_with_root session_id alias
  | None =>
      match strip_prefix name_or_handle "sha256:" with
      | Some after_prefix =>
          if is_short_alias after_prefix then resolve_alias_with_root session_id after_prefix
          else
            visible ← is_handle_visible session_id name_or_handle;
            if visible : bool then mret name_or_handle else fail HandleNotVisible
      | None =>
          if is_short_alias name_or_handle then resolve_alias_with_root session_id name_or_handle
          else resolve_name_with_root session_id name_or_handle
      end
  end.

Definition read_by_name (session_id name : string) : StoreM string :=
  handle ← resolve_name session_id name; read handle.

Definition read_by_name_or_handle (session_id name_or_handle : string) : StoreM string :=
  handle ← resolve_name_or_handle_to_handle session_id name_or_handle; read handle.

Definition list_names (session_id : string) : StoreM (list string) :=
  manifest ← load_manifest session_id;
  mret (sort_by String.compare ((map_to_list (names manifest)).*1)).

Definition list_names_with_handles (session_id : string) : StoreM (list (string * string)) :=
  manifest ← load_manifest session_id;
  mret (sort_by (λ a b, String.compare a.1 b.1) (map_to_list (names manifest))).

(** Only the cache is cleared. *)
Definition cleanup_session (session_id : string) : StoreM nat :=
  manifest ← load_manifest session_id;
  set_cached session_id manifest_default;;
  mret (size (names manifest)).

(** [import_skill_resources], for the files of the skill in the order they are
    listed. *)
Fixpoint import_files (session_id : string) (files : list (string * string)) : StoreM (list string) :=
  match files with
  | [] => mret []
  | (name, content) :: rest =>
      handle ← write content;
      register_name session_id name handle;;
      registered ← import_files session_id rest;
      mret (name :: registered)
  end.

End Store.

(** ** Computations that keep an invariant *)

(** [m] keeps [P] whether or not it fails, and what it returns satisfies [Q]. *)
Definition keeps {A} (P : ContentStore → Prop) (m : StoreM A) (Q : A → Prop) : Prop :=
  ∀ st, P st → P (m st).1 ∧ ∀ a, (m st).2 = Ok a → Q a.

Lemma keeps_ret {A} P (a : A) (Q : A → Prop) : Q a → keeps P (mret a) Q.
Proof. intros Ha st HP. split; [done|]. by intros b [= <-]. Qed.

Lemma keeps_fail {A} P e (Q : A → Prop) : keeps P (fail e) Q.
Proof. intros st HP. split; [done|]. by intros b. Qed.

Lemma keeps_bind {A B} P (m : StoreM A) (k : A → StoreM B) (Q : A → Prop) (R : B → Prop) :
  keeps P m Q → (∀ a, Q a → keeps P (k a) R) → keeps P (m ≫= k) R.
Proof.
  intros Hm Hk st HP. unfold mbind, storem_bind. destruct (Hm st HP) as [HP1 HQ].
  destruct (m st) as [st1 [a|e]]; [|done]. apply Hk; [by apply HQ|done].
Qed.

Lemma keeps_attempt {A} P (m : StoreM A) (Q : A → Prop) :
  keeps P m Q → keeps P (attempt m) (λ o, ∀ a, o = Some a → Q a).
Proof.
  intros Hm st HP. unfold attempt. destruct (Hm st HP) as [HP1 HQ].
  destruct (m st) as [st1 [a|e]]; (split; [done|]); intros o [= <-]; naive_solver.
Qed.

Lemma holds_weaken {A} P (m : StoreM A) (Q Q' : A → Prop) :
  keeps P m Q → (∀ a, Q a → Q' a) → keeps P m Q'.
Proof. intros Hm HQ st HP. destruct (Hm st HP). naive_solver. Qed.

(** ** Who can reach what *)

Inductive StoreOp : Type :=
| OpWrite (content : string)
| OpRegister (session name handle : string) (v : ContentVisibility)
| OpName (session name handle : string)
| OpSetRoot (session root : string)
| OpCleanup (session : string)
| OpResolve (session name_or_handle : string).

(** A registration; one without a visibility reaches the session's own manifest
    only, like a private one. *)
Definition registers (log : list StoreOp) (w name handle : string) (v : ContentVisibility) : Prop :=
  OpRegister w name handle v ∈ log ∨ (OpName w name handle ∈ log ∧ v = Private).

(** Such a registration reaches the manifest of [t]. *)
Definition reaches (log : list StoreOp) (w : string) (v : ContentVisibility) (t : string) : Prop :=
  w = t ∨ (v ≠ Private ∧ OpSetRoot w t ∈ log) ∨ (v = Global ∧ t = GLOBAL_SESSION_ID).

(** The log says that [name] stands for [handle] in the manifest of [t]. *)
Definition published (log : list StoreOp) (t name handle : string) : Prop :=
  ∃ w v, registers log w name handle v ∧ reaches log w v t.

Definition manifest_sound (log : list StoreOp) (t : string) (m : SessionManifest) : Prop :=
  (∀ n h, names m !! n = Some h → published log t n h) ∧
  (∀ a h, aliases m !! a = Some h → ∃ n, published log t n h) ∧
  (∀ r, manifest_root m = Some r → OpSetRoot t r ∈ log).

Definition disk_sound (log : list StoreOp) (d : Disk) : Prop :=
  ∀ t m, manifest_files d !! t = Some (Some m) → manifest_sound log t m.

Definition cache_sound (log : list StoreOp) (c : gmap string SessionManifest) : Prop :=
  ∀ t m, c !! t = Some m → manifest_sound log t m.

Definition store_sound (log : list StoreOp) (st : ContentStore) : Prop :=
  disk_sound log (disk st) ∧ cache_sound log (manifests st).

Lemma manifest_default_sound log t : manifest_sound log t manifest_default.
Proof. by split_and!. Qed.

Lemma cache_sound_insert log c t m :
  manifest_sound log t m → cache_sound log c → cache_sound log (<[t := m]> c).
Proof. intros Hm Hc t' m' [[<- <-]|[_ H]]%lookup_insert_Some; [done|by apply Hc]. Qed.

Section Soundness.
Context (log : list StoreOp).

Lemma load_manifest_sound t : keeps (store_sound log) (load_manifest t) (manifest_sound log t).
Proof.
  intros st [Hd Hc]. unfold load_manifest, mbind, storem_bind, gets.
  destruct (manifests st !! t) as [m|] eqn:E; [split; [done|]; intros a [= <-]; by apply Hc|].
  unfold load_manifest_from_disk_uncached.
  destruct (manifest_files (disk st) !! t) as [[m|]|] eqn:Ef; simpl.
  - split; [|intros a [= <-]; by apply Hd]. split; [done|].
    apply cache_sound_insert; [by apply Hd|done].
  - done.
  - split; [|intros a [= <-]; apply manifest_default_sound]. split; [done|].
    apply cache_sound_insert; [apply manifest_default_sound|done].
Qed.

Lemma update_manifest_sound t f :
  (∀ m, manifest_sound log t m → manifest_sound log t (f m)) →
  keeps (store_sound log) (update_manifest t f) (λ _, True).
Proof.
  intros Hf. unfold update_manifest. eapply keeps_bind; [apply load_manifest_sound|].
  intros m Hm. apply (keeps_bind _ _ _ (λ _, True)).
  - intros st [Hd Hc]. split; [|done]. split; [done|]. apply cache_sound_insert; auto.
  - intros _ _ st [Hd Hc]. unfold save_manifest. destruct (next_io (disk st)) as [o rest].
    simpl. split; [|done]. split; [|done]. intros t' m'. simpl.
    destruct o; [|by apply Hd|];
      intros [[<- Heq]|[_ H]]%lookup_insert_Some; try by apply Hd.
    injection Heq as <-. by apply Hf.
Qed.

Lemma register_name_sound t n h :
  published log t n h → keeps (store_sound log) (register_name t n h) (λ _, True).
Proof.
  intros Hp. apply update_manifest_sound. intros m (Hn & Ha & Hr). split_and!; simpl; [| |done].
  - intros n' h' [[<- <-]|[_ H]]%lookup_insert_Some; eauto.
  - intros a h' [[<- <-]|[_ H]]%lookup_insert_Some; eauto.
Qed.

Lemma set_root_sound t r :
  OpSetRoot t r ∈ log → keeps (store_sound log) (set_root_session t r) (λ _, True).
Proof.
  intros Hp. apply update_manifest_sound. intros m (Hn & Ha & Hr). split_and!; simpl; [done..|].
  by intros r' [= <-].
Qed.

Lemma register_sound t n h v :
  OpRegister t n h v ∈ log →
  keeps (store_sound log) (register_name_with_visibility t n h v) (λ _, True).
Proof.
  intros Hin. unfold register_name_with_visibility.
  eapply keeps_bind; [apply register_name_sound; exists t, v; by split; left|intros _ _].
  eapply keeps_bind; [by apply update_manifest_sound|intros _ _].
  case_bool_decide as Hv; [by apply keeps_ret|].
  eapply keeps_bind; [apply load_manifest_sound|]. intros m (_ & _ & Hr).
  apply (keeps_bind _ _ _ (λ _, True)).
  - destruct (manifest_root m) as [r|] eqn:Er; [|by apply keeps_ret].
    destruct (r =? t)%string; [by apply keeps_ret|]. apply register_name_sound.
    exists t, v. split; [by left|]. right; left. auto.
  - intros _ _. case_bool_decide as Hg; [|by apply keeps_ret].
    apply register_name_sound. exists t, v. split; [by left|]. by right; right.
Qed.

(** Where a session looks names up. *)
Definition looks_in (s t : string) : Prop :=
  t = s ∨ OpSetRoot s t ∈ log ∨ t = GLOBAL_SESSION_ID.

Definition reachable_by (s h : string) : Prop := ∃ t n, looks_in s t ∧ published log t n h.

Lemma resolve_name_sound t n :
  keeps (store_sound log) (resolve_name t n) (λ h, published log t n h).
Proof.
  unfold resolve_name. eapply keeps_bind; [apply load_manifest_sound|]. intros m (Hn & _).
  destruct (names m !! n) eqn:E; [apply keeps_ret; by apply Hn|apply keeps_fail].
Qed.

Lemma other_root_sound s m r :
  manifest_sound log s m → other_root s m = Some r → OpSetRoot s r ∈ log.
Proof.
  intros (_ & _ & Hr). unfold other_root. intros (r' & Hm & H)%bind_Some.
  destruct (r' =? s)%string; [done|]. injection H as <-. by apply Hr.
Qed.

(** A lookup in another manifest returns what that manifest says. *)
Lemma lookup_sound {A} t (f : SessionManifest → A) (Q : A → Prop) :
  (∀ m, manifest_sound log t m → Q (f m)) →
  keeps (store_sound log) (m ← load_manifest t; mret (f m)) Q.
Proof.
  intros HQ. eapply keeps_bind; [apply load_manifest_sound|].
  intros m Hm. apply keeps_ret. by apply HQ.
Qed.

Lemma resolve_name_with_root_sound s n :
  keeps (store_sound log) (resolve_name_with_root s n)
    (λ h, ∃ t, looks_in s t ∧ published log t n h).
Proof.
  unfold resolve_name_with_root.
  eapply keeps_bind; [apply keeps_attempt, resolve_name_sound|]. intros [h|] Hown.
  { apply keeps_ret. exists s. split; [by left|by apply Hown]. }
  eapply keeps_bind; [apply load_manifest_sound|]. intros m Hm.
  apply (keeps_bind _ _ _ (λ o, ∀ h, o = Some h → ∃ t, looks_in s t ∧ published log t n h)).
  - destruct (other_root s m) as [r|] eqn:Er; [|by apply keeps_ret].
    eapply holds_weaken; [apply keeps_attempt, resolve_name_sound|].
    intros o Ho h ->. exists r. split; [right; left; by eapply other_root_sound|by apply Ho].
  - intros [h|] Ho; [apply keeps_ret; by apply Ho|].
    apply (keeps_bind _ _ _ (λ o, ∀ h, o = Some h → ∃ t, looks_in s t ∧ published log t n h)).
    + destruct (s =? _)%string; [by apply keeps_ret|].
      eapply holds_weaken; [apply keeps_attempt, resolve_name_sound|].
      intros o Ho' h ->. exists GLOBAL_SESSION_ID. split; [by right; right|by apply Ho'].
    + intros [h|] Ho'; [apply keeps_ret; by apply Ho'|apply keeps_fail].
Qed.

Lemma alias_reachable s t m a h :
  looks_in s t → manifest_sound log t m → aliases m !! a = Some h → reachable_by s h.
Proof. intros Hl (_ & Ha & _) H. destruct (Ha a h H) as [n Hn]. by exists t, n. Qed.

Lemma mentions_reachable s t m h :
  looks_in s t → manifest_sound log t m → mentions h m = true → reachable_by s h.
Proof.
  intros Hl (Hn & Ha & _) [H|H]%orb_true_iff; apply existsb_true in H as ([k h'] & Hin & Heq);
    apply str_eqb_spec in Heq; simpl in Heq; subst h'; apply elem_of_map_to_list in Hin.
  - exists t, k. auto.
  - destruct (Ha k h Hin) as [n Hp]. by exists t, n.
Qed.

Lemma resolve_alias_sound s a :
  keeps (store_sound log) (resolve_alias_with_root s a) (reachable_by s).
Proof.
  unfold resolve_alias_with_root.
  eapply keeps_bind; [apply load_manifest_sound|]. intros m Hm.
  destruct (aliases m !! a) as [h|] eqn:E.
  { apply keeps_ret. eapply alias_reachable; eauto. by left. }
  apply (keeps_bind _ _ _ (λ o, ∀ h, o = Some h → reachable_by s h)).
  - destruct (other_root s m) as [r|] eqn:Er; [|by apply keeps_ret]. apply lookup_sound.
    intros m' Hm' h Hh. eapply alias_reachable; eauto. right; left. by eapply other_root_sound.
  - intros [h|] Ho; [apply keeps_ret; by apply Ho|].
    apply (keeps_bind _ _ _ (λ o, ∀ h, o = Some h → reachable_by s h)).
    + destruct (s =? _)%string; [by apply keeps_ret|]. apply lookup_sound.
      intros m' Hm' h Hh. eapply alias_reachable; eauto. by right; right.
    + intros [h|] Ho'; [apply keeps_ret; by apply Ho'|apply keeps_fail].
Qed.

Lemma is_handle_visible_sound s h :
  keeps (store_sound log) (is_handle_visible s h) (λ b, b = true → reachable_by s h).
Proof.
  unfold is_handle_visible.
  eapply keeps_bind; [apply load_manifest_sound|]. intros m Hm.
  destruct (mentions h m) eqn:E.
  { apply keeps_ret. intros _. eapply mentions_reachable; eauto. by left. }
  apply (keeps_bind _ _ _ (λ b, b = true → reachable_by s h)).
  - destruct (other_root s m) as [r|] eqn:Er; [|by apply keeps_ret]. apply lookup_sound.
    intros m' Hm' Hh. eapply mentions_reachable; eauto. right; left. by eapply other_root_sound.
  - intros [] Ho; [apply keeps_ret; auto|]. destruct (s =? _)%string; [by apply keeps_ret|].
    apply lookup_sound. intros m' Hm' Hh. eapply mentions_reachable; eauto. by right; right.
Qed.

(** Whatever an agent names, it gets only what was published to it. *)
Lemma resolve_sound s raw :
  keeps (store_sound log) (resolve_name_or_handle_to_handle s raw) (reachable_by s).
Proof.
  unfold resolve_name_or_handle_to_handle.
  destruct (cnt_alias (trim raw)); [apply resolve_alias_sound|].
  destruct (strip_prefix (trim raw) "sha256:").
  - destruct (is_short_alias _); [apply resolve_alias_sound|].
    eapply keeps_bind; [apply is_handle_visible_sound|]. intros [] H.
    + apply keeps_ret. by apply H.
    + apply keeps_fail.
  - destruct (is_short_alias _); [apply resolve_alias_sound|].
    eapply holds_weaken; [apply resolve_name_with_root_sound|].
    intros h (t & Hl & Hp). by exists t, (trim raw).
Qed.

Lemma cleanup_sound s : keeps (store_sound log) (cleanup_session s) (λ _, True).
Proof.
  unfold cleanup_session. eapply keeps_bind; [apply load_manifest_sound|]. intros m _.
  apply (keeps_bind _ _ _ (λ _, True)); [|intros; by apply keeps_ret].
  intros st [Hd Hc]. split; [|done]. split; [done|].
  apply cache_sound_insert; [apply manifest_default_sound|done].
Qed.

End Soundness.

Lemma write_sound sha256_hex log c : keeps (store_sound log) (write sha256_hex c) (λ _, True).
Proof.
  intros st [Hd Hc]. unfold write. destruct (blobs _ !! _); [done|].
  by destruct (next_io (disk st)).
Qed.

(** ** Several stores on one directory *)

Record StoreWorld := {
  shared_disk : Disk;
  caches : gmap nat (gmap string SessionManifest);
}.

Definition empty_disk (faults : list IoOutcome) : Disk :=
  {| blobs := ∅; manifest_files := ∅; io := faults |}.

Definition world_store (w : StoreWorld) (i : nat) : ContentStore :=
  {| disk := shared_disk w; manifests := default ∅ (caches w !! i) |}.

Section World.
Context (sha256_hex : string → string).

Definition run_store_op (op : StoreOp) (st : ContentStore) : ContentStore :=
  match op with
  | OpWrite content => (write sha256_hex content st).1
  | OpRegister s n h v => (register_name_with_visibility s n h v st).1
  | OpName s n h => (register_name s n h st).1
  | OpSetRoot s r => (set_root_session s r st).1
  | OpCleanup s => (cleanup_session s st).1
  | OpResolve s raw => (resolve_name_or_handle_to_handle s raw st).1
  end.

(** One operation of store [i]; a number that was not used before is a store
    just opened. *)
Definition run_world_op (w : StoreWorld) (e : nat * StoreOp) : StoreWorld :=
  let st := run_store_op e.2 (world_store w e.1) in
  {| shared_disk := disk st; caches := <[e.1 := manifests st]> (caches w) |}.

Definition run_world (faults : list IoOutcome) (ops : list (nat * StoreOp)) : StoreWorld :=
  fold_left run_world_op ops {| shared_disk := empty_disk faults; caches := ∅ |}.

Lemma run_world_snoc faults ops e :
  run_world faults (ops ++ [e]) = run_world_op (run_world faults ops) e.
Proof. unfold run_world. by rewrite fold_left_app. Qed.

Definition world_sound (log : list StoreOp) (w : StoreWorld) : Prop :=
  disk_sound log (shared_disk w) ∧ ∀ i c, caches w !! i = Some c → cache_sound log c.

Lemma manifest_sound_mono log log' t m :
  log ⊆ log' → manifest_sound log t m → manifest_sound log' t m.
Proof.
  intros Hsub (Hn & Ha & Hr).
  assert (∀ n h, published log t n h → published log' t n h) as Hp.
  { unfold published, registers, reaches. intros n h (w & v & Hin & H). exists w, v. naive_solver. }
  split_and!; [naive_solver| |naive_solver]. intros a h H.
  destruct (Ha a h H) as [n Hn']. eauto.
Qed.

Lemma world_store_sound log w i : world_sound log w → store_sound log (world_store w i).
Proof.
  intros [Hd Hc]. split; [done|]. simpl. destruct (caches w !! i) as [c|] eqn:E; simpl.
  - by eapply Hc.
  - done.
Qed.

Lemma run_store_op_sound log op st :
  op ∈ log → store_sound log st → store_sound log (run_store_op op st).
Proof.
  intros Hin Hst. destruct op; simpl.
  - by apply (write_sound sha256_hex log content).
  - by apply (register_sound log session name handle v).
  - apply (register_name_sound log session name handle); [|done]. exists session, Private.
    split; [right|left]; done.
  - by apply (set_root_sound log session root).
  - by apply (cleanup_sound log session).
  - by apply (resolve_sound log session name_or_handle).
Qed.

Lemma run_world_sound faults ops : world_sound (ops.*2) (run_world faults ops).
Proof.
  induction ops as [|[i op] ops IH] using rev_ind.
  { by split. }
  rewrite run_world_snoc, fmap_app. simpl.
  assert (world_sound (ops.*2 ++ [op]) (run_world faults ops)) as [Hd Hc].
  { destruct IH as [Hd Hc]. split.
    - intros t m H. eapply manifest_sound_mono; [|by apply Hd]. set_solver.
    - intros j c Hj t m H. eapply manifest_sound_mono; [|by eapply Hc]. set_solver. }
  pose proof (run_store_op_sound (ops.*2 ++ [op]) op (world_store (run_world faults ops) i)
    ltac:(set_solver) (world_store_sound _ _ _ (conj Hd Hc))) as [Hd' Hc'].
  split; [done|]. simpl. intros j c [[<- <-]|[_ H]]%lookup_insert_Some; [done|by eapply Hc].
Qed.

(** C11: Private content stays with the session that wrote it.  Whatever the stores
    on a directory do, in any interleaving and with any file failures: when another
    session resolves a name, short alias, reference or digest to a handle, it is
    never by what a session that is nobody's root registered as private, or under a
    plain name.  There is another registration of that content, and one the reader
    can see: its own, its root's, one shared by a session under a root it reads, or
    a global one. *)
Theorem private_content_is_private faults ops i w h s raw :
  (∀ t, OpSetRoot t w ∉ ops.*2) → w ≠ GLOBAL_SESSION_ID → s ≠ w →
  (resolve_name_or_handle_to_handle s raw (world_store (run_world faults ops) i)).2 = Ok h →
  ∃ w' n v t, registers (ops.*2) w' n h v ∧ ¬ (w' = w ∧ v = Private) ∧
    looks_in (ops.*2) s t ∧ reaches (ops.*2) w' v t.
Proof.
  intros Hroot Hglob Hne Hres.
  pose proof (world_store_sound _ _ i (run_world_sound faults ops)) as Hst.
  destruct (resolve_sound (ops.*2) s raw _ Hst) as [_ H].
  destruct (H h Hres) as (t & n & Hlook & w' & v & Hreg & Hpub).
  exists w', n, v, t. split_and!; [done| |done..].
  intros [-> ->]. destruct Hpub as [<-|[[? _]|[? _]]]; [|done..].
  destruct Hlook as [?|[?|?]]; [done|by eapply Hroot|done].
Qed.
End World.

(** ** Blobs *)

Lemma blob_key_handle sha256_hex c : blob_key (compute_handle sha256_hex c) = sha256_hex c.
Proof. unfold blob_key, compute_handle. by rewrite (proj2 (strip_prefix_some _ _ (sha256_hex c))). Qed.

(** What a computation may do to the disk besides the manifest files: use up
    outcomes. *)
Definition blobs_kept (st st' : ContentStore) : Prop :=
  blobs (disk st') = blobs (disk st) ∧ ∃ used, io (disk st) = used ++ io (disk st').

Lemma blobs_kept_trans st st' st'' : blobs_kept st st' → blobs_kept st' st'' → blobs_kept st st''.
Proof.
  intros [H1 [u Hu]] [H2 [v Hv]]. split; [congruence|]. exists (u ++ v). by rewrite Hu, Hv, app_assoc.
Qed.

Definition manifests_only {A} (m : StoreM A) : Prop := ∀ st, blobs_kept st (m st).1.

Lemma blobs_kept_refl st : blobs_kept st st.
Proof. split; [done|by exists []]. Qed.

Lemma only_ret {A} (a : A) : manifests_only (mret a).
Proof. intros st. apply blobs_kept_refl. Qed.

Lemma only_fail {A} e : manifests_only (@fail A e).
Proof. intros st. apply blobs_kept_refl. Qed.

Lemma only_bind {A B} (m : StoreM A) (k : A → StoreM B) :
  manifests_only m → (∀ a, manifests_only (k a)) → manifests_only (m ≫= k).
Proof.
  intros Hm Hk st. unfold mbind, storem_bind. specialize (Hm st).
  destruct (m st) as [st1 [a|e]]; [|done]. eapply blobs_kept_trans; [exact Hm|apply Hk].
Qed.

Lemma only_attempt {A} (m : StoreM A) : manifests_only m → manifests_only (attempt m).
Proof. intros Hm st. specialize (Hm st). unfold attempt. by destruct (m st) as [st1 [a|e]]. Qed.

Lemma only_load t : manifests_only (load_manifest t).
Proof.
  intros st. unfold load_manifest, mbind, storem_bind, gets. destruct (manifests st !! t);
    [apply blobs_kept_refl|]. unfold load_manifest_from_disk_uncached.
  destruct (manifest_files (disk st) !! t) as [[m|]|]; (split; [done|by exists []]).
Qed.

Create HintDb store.
#[export] Hint Resolve only_ret only_fail only_attempt only_load : store.
#[export] Hint Extern 1 (manifests_only (_ ≫= _)) => apply only_bind : store.

Lemma only_update t f : manifests_only (update_manifest t f).
Proof.
  unfold update_manifest. apply only_bind; [apply only_load|intros m]. apply only_bind.
  - intros st. split; [done|by exists []].
  - intros _ st. unfold save_manifest, next_io. split; [by destruct (io (disk st))|].
    destruct (io (disk st)) as [|o rest]; simpl; [by exists []|by exists [o]].
Qed.
#[export] Hint Resolve only_update : store.

Ltac only_tac := repeat first
  [ progress intros | solve [auto with store] | apply only_bind | apply only_attempt
  | match goal with |- manifests_only (match ?x with _ => _ end) => destruct x end ].

Lemma only_register t n h v : manifests_only (register_name_with_visibility t n h v).
Proof. unfold register_name_with_visibility, register_name, set_visibility. only_tac. Qed.

Lemma only_resolve s raw : manifests_only (resolve_name_or_handle_to_handle s raw).
Proof.
  unfold resolve_name_or_handle_to_handle, resolve_alias_with_root, resolve_name_with_root,
    is_handle_visible, resolve_name. only_tac.
Qed.

Lemma only_cleanup s : manifests_only (cleanup_session s).
Proof.
  unfold cleanup_session. apply only_bind; [apply only_load|intros m].
  apply only_bind; [|intros; apply only_ret]. intros st.
  split; [done|by exists []].
Qed.

Lemma substring_all c : String.substring 0 (String.length c) c = c.
Proof. induction c as [|a c IH]; simpl; [done|by rewrite IH]. Qed.

Section Blobs.
Context (sha256_hex : string → string).

Definition whole_writes (l : list IoOutcome) : Prop := ∀ n, IoTorn n ∉ l.

(** One operation adds at most the blob it writes, or a prefix of it. *)
Lemma op_blobs op st :
  let st' := run_store_op sha256_hex op st in
  (∃ used, io (disk st) = used ++ io (disk st')) ∧
  (blobs (disk st') = blobs (disk st) ∨
   ∃ content n, op = OpWrite content ∧ blobs (disk st) !! sha256_hex content = None ∧
     (whole_writes (io (disk st)) → n = String.length content) ∧
     blobs (disk st') = <[sha256_hex content := String.substring 0 n content]> (blobs (disk st))).
Proof.
  destruct op as [c|s n h v|s n h|s r|s|s raw]; simpl.
  - unfold write. rewrite blob_key_handle. destruct (blobs (disk st) !! sha256_hex c) eqn:E; simpl.
    { split; [by exists []|by left]. }
    unfold next_io. destruct (io (disk st)) as [|[| |n] rest] eqn:Eio; simpl.
    + split; [by exists []|]. right. exists c, (String.length c). by rewrite substring_all.
    + split; [by exists [IoOk]|]. right. exists c, (String.length c). by rewrite substring_all.
    + split; [by exists [IoRefused]|by left].
    + split; [by exists [IoTorn n]|]. right. exists c, n. split_and!; try done.
      intros Hw. destruct (Hw n). by left.
  - destruct (only_register s n h v st) as [-> Hu]. auto.
  - unfold register_name. destruct (only_update s (λ m, {| names := <[n := h]> (names m);
      aliases := <[handle_to_short_alias h := h]> (aliases m); manifest_root := manifest_root m;
      visibility := visibility m |}) st) as [-> Hu]. auto.
  - unfold set_root_session. destruct (only_update s (λ m, {| names := names m;
      aliases := aliases m; manifest_root := Some r; visibility := visibility m |}) st)
      as [-> Hu]. auto.
  - destruct (only_cleanup s st) as [-> Hu]. auto.
  - destruct (only_resolve s raw st) as [-> Hu]. auto.
Qed.

Definition blobs_of (faults : list IoOutcome) (ops : list (nat * StoreOp)) : gmap string string :=
  blobs (shared_disk (run_world sha256_hex faults ops)).

Lemma io_suffix faults ops :
  ∃ used, faults = used ++ io (shared_disk (run_world sha256_hex faults ops)).
Proof.
  induction ops as [|[i op] ops [used IH]] using rev_ind; [by exists []|].
  rewrite run_world_snoc.
  destruct (op_blobs op (world_store (run_world sha256_hex faults ops) i)) as [[u Hu] _].
  exists (used ++ u). rewrite <-app_assoc. simpl in *. by rewrite <-Hu.
Qed.

Lemma blobs_snoc faults ops i op :
  blobs_of faults (ops ++ [(i, op)]) = blobs_of faults ops ∨
  ∃ content n, op = OpWrite content ∧ blobs_of faults ops !! sha256_hex content = None ∧
    (whole_writes faults → n = String.length content) ∧
    blobs_of faults (ops ++ [(i, op)]) =
      <[sha256_hex content := String.substring 0 n content]> (blobs_of faults ops).
Proof.
  unfold blobs_of. rewrite run_world_snoc.
  destruct (op_blobs op (world_store (run_world sha256_hex faults ops) i))
    as [_ [H|(c & n & Hop & Hn & Hw & H)]]; [by left|]. right. exists c, n.
  split_and!; try done. intros Hall. apply Hw. intros k Hk.
  destruct (io_suffix faults ops) as [used Hf]. apply (Hall k). rewrite Hf.
  apply elem_of_app. by right.
Qed.

(** Blobs are immutable and named by their content.  A stored blob is never
    changed, whatever the stores on the directory do afterwards; it is what some
    write was given, or a prefix of it when that write was torn; and as long as
    no write is torn, every blob is stored under its own digest. *)
Theorem blobs_are_content_addressed faults ops more :
  (∀ k c, blobs_of faults ops !! k = Some c → blobs_of faults (ops ++ more) !! k = Some c) ∧
  (∀ k c, blobs_of faults ops !! k = Some c →
     ∃ content n, OpWrite content ∈ ops.*2 ∧ k = sha256_hex content ∧
       c = String.substring 0 n content ∧ (whole_writes faults → c = content)).
Proof.
  split.
  - intros k c Hk. induction more as [|[i op] more IH] using rev_ind; [by rewrite app_nil_r|].
    rewrite app_assoc. destruct (blobs_snoc faults (ops ++ more) i op)
      as [->|(c' & n & _ & Hn & _ & ->)]; [done|].
    rewrite lookup_insert_ne; [done|]. congruence.
  - induction ops as [|[i op] ops IH] using rev_ind; intros k c.
    { unfold blobs_of. simpl. intros H. by rewrite lookup_empty in H. }
    assert (∀ x, x ∈ ops.*2 → x ∈ (ops ++ [(i, op)]).*2) as Hsub by set_solver.
    destruct (blobs_snoc faults ops i op) as [->|(c' & n & -> & Hn & Hw & ->)].
    { intros H. destruct (IH k c H) as (x & m & ? & ?). exists x, m. auto. }
    intros [[<- <-]|[_ H]]%lookup_insert_Some.
    + exists c', n. split_and!; try done.
      { rewrite fmap_app. apply elem_of_app. right. by left. }
      intros Hall.
      rewrite (Hw Hall). apply substring_all.
    + destruct (IH k c H) as (x & m & ? & ?). exists x, m. auto.
Qed.
End Blobs.

(** ** One store and no failures: what the operations do *)

(** The manifest the store would load. *)
Definition view (st : ContentStore) (t : string) : option SessionManifest :=
  match manifests st !! t with
  | Some m => Some m
  | None => default (Some manifest_default) (manifest_files (disk st) !! t)
  end.

(** No failure is coming, and every manifest can be loaded. *)
Definition healthy (st : ContentStore) : Prop :=
  io (disk st) = [] ∧ ∀ t, is_Some (view st t).

Definition loaded (st : ContentStore) (t : string) : SessionManifest :=
  default manifest_default (view st t).

(** The same contents to every reader. *)
Definition same_view (st st' : ContentStore) : Prop :=
  blobs (disk st') = blobs (disk st) ∧ ∀ t, loaded st' t = loaded st t.

Lemma load_loaded st t :
  healthy st → ∃ st', load_manifest t st = (st', Ok (loaded st t)) ∧ healthy st' ∧ same_view st st'.
Proof.
  intros [Hio Hv]. destruct (Hv t) as [m Hm]. unfold loaded. rewrite Hm. simpl.
  unfold load_manifest, mbind, storem_bind, gets. unfold view in Hm.
  destruct (manifests st !! t) as [m'|] eqn:E.
  { injection Hm as ->. exists st. by split_and!. }
  unfold load_manifest_from_disk_uncached.
  assert (∀ u, view {| disk := disk st; manifests := <[t := m]> (manifests st) |} u = view st u)
    as Hu.
  { intros u. unfold view. simpl. destruct (decide (u = t)) as [->|].
    - rewrite lookup_insert_eq, E. done.
    - by rewrite lookup_insert_ne. }
  assert (∀ res : result SessionManifest StoreError, res = Ok m →
    ∃ st', ({| disk := disk st; manifests := <[t := m]> (manifests st) |}, res)
           = (st', Ok m) ∧ healthy st' ∧ same_view st st') as Hgo.
  { intros res ->. eexists. split; [done|]. split; [split; [done|]; intros u; by rewrite Hu|].
    split; [done|]. intros u. unfold loaded. by rewrite Hu. }
  destruct (manifest_files (disk st) !! t) as [[m'|]|]; simpl in Hm; simplify_eq; by apply Hgo.
Qed.

Lemma update_loaded st t f :
  healthy st → ∃ st', update_manifest t f st = (st', Ok tt) ∧ healthy st' ∧
    blobs (disk st') = blobs (disk st) ∧
    ∀ u, loaded st' u = if (u =? t)%string then f (loaded st t) else loaded st u.
Proof.
  intros Hh. destruct (load_loaded st t Hh) as (st1 & E1 & [Hio1 Hv1] & Hb1 & Hl1).
  unfold update_manifest, mbind, storem_bind. rewrite E1. simpl.
  unfold save_manifest, next_io. cbn [disk]. rewrite Hio1. simpl.
  set (m := f (loaded st t)).
  assert (∀ u, view {| disk := {| blobs := blobs (disk st1);
      manifest_files := <[t := Some m]> (manifest_files (disk st1)); io := [] |};
      manifests := <[t := m]> (manifests st1) |} u
    = if (u =? t)%string then Some m else view st1 u) as Hu.
  { intros u. unfold view. simpl. destruct (String.eqb_spec u t) as [->|Hne].
    - by rewrite lookup_insert_eq.
    - by rewrite !lookup_insert_ne. }
  eexists. split; [done|]. split_and!; try done.
  - split; [done|]. intros u. rewrite Hu. destruct (u =? t)%string; [done|apply Hv1].
  - intros u. unfold loaded at 1. rewrite Hu. destruct (u =? t)%string; [done|]. apply Hl1.
Qed.

(** What a registration makes of the manifest of [t]. *)
Definition add_name (name handle : string) (m : SessionManifest) : SessionManifest :=
  {| names := <[name := handle]> (names m);
     aliases := <[handle_to_short_alias handle := handle]> (aliases m);
     manifest_root := manifest_root m; visibility := visibility m |}.

Lemma register_name_loaded st t n h :
  healthy st → ∃ st', register_name t n h st = (st', Ok tt) ∧ healthy st' ∧
    blobs (disk st') = blobs (disk st) ∧
    ∀ u, loaded st' u = if (u =? t)%string then add_name n h (loaded st t) else loaded st u.
Proof. apply (update_loaded st t (add_name n h)). Qed.

(** The manifests a registration writes the name to. *)
Definition publishes_to (m : SessionManifest) (s : string) (v : ContentVisibility) (t : string)
    : bool :=
  (t =? s)%string
  || (negb (bool_decide (v = Private))
      && (bool_decide (manifest_root m = Some t)
          || (bool_decide (v = Global) && (t =? GLOBAL_SESSION_ID)%string))).

(** Since [st0], exactly the manifests [P] got the name. *)
Definition named_in (st0 : ContentStore) (n h : string) (P : string → bool) (st : ContentStore)
    : Prop :=
  healthy st ∧ blobs (disk st) = blobs (disk st0) ∧
  ∀ t, manifest_root (loaded st t) = manifest_root (loaded st0 t) ∧
    names (loaded st t) = if P t then <[n := h]> (names (loaded st0 t)) else names (loaded st0 t).

Lemma named_in_ext st0 n h P Q st :
  (∀ t, P t = Q t) → named_in st0 n h P st → named_in st0 n h Q st.
Proof.
  intros HPQ (Hh & Hb & H). split_and!; try done. intros t. rewrite <-HPQ. apply H.
Qed.

Lemma named_in_register st0 n h P st r :
  named_in st0 n h P st → ∃ st', register_name r n h st = (st', Ok tt) ∧
    named_in st0 n h (λ t, P t || (t =? r)%string) st'.
Proof.
  intros (Hh & Hb & H). destruct (register_name_loaded st r n h Hh) as (st' & E & Hh' & Hb' & Hl).
  exists st'. split; [done|]. split_and!; [done|congruence|]. intros t. rewrite Hl.
  destruct (H t) as [Hr Hn]. destruct (String.eqb_spec t r) as [->|]; [|by rewrite orb_false_r].
  rewrite orb_true_r. simpl. rewrite Hr, Hn. split; [done|].
  destruct (P r); [apply insert_insert_eq|done].
Qed.

Lemma named_in_same st0 n h P st st' :
  named_in st0 n h P st → healthy st' → same_view st st' → named_in st0 n h P st'.
Proof.
  intros (Hh & Hb & H) Hh' [Hb' Hl]. split_and!; [done|congruence|]. intros t. rewrite Hl. apply H.
Qed.

Lemma register_loaded st s n h v :
  healthy st → ∃ st', register_name_with_visibility s n h v st = (st', Ok tt) ∧
    named_in st n h (publishes_to (loaded st s) s v) st'.
Proof.
  intros Hh. destruct (named_in_register st n h (λ _, false) st s) as (st1 & E1 & H1).
  { by split_and!. }
  destruct (update_loaded st1 s (λ m, {| names := names m; aliases := aliases m;
    manifest_root := manifest_root m; visibility := <[h := v]> (visibility m) |}) (proj1 H1))
    as (st2 & E2 & Hh2 & Hb2 & Hl2).
  assert (named_in st n h (λ t, (t =? s)%string) st2) as H2.
  { destruct H1 as (_ & Hb1 & H1). split_and!; [done|congruence|]. intros t. rewrite Hl2.
    destruct (H1 t) as [Hr Hn]. cbn [orb] in Hn.
    destruct (String.eqb_spec t s) as [->|Hne]; [by cbn [names manifest_root]|by rewrite Hr, Hn]. }
  unfold register_name_with_visibility, mbind, storem_bind. rewrite E1.
  unfold set_visibility. rewrite E2. case_bool_decide as Hv.
  { exists st2. split; [done|]. eapply named_in_ext; [|exact H2]. intros t.
    unfold publishes_to. by rewrite bool_decide_true, orb_false_r. }
  destruct (load_loaded st2 s Hh2) as (st3 & E3 & Hh3 & Hs3). rewrite E3.
  pose proof (named_in_same _ _ _ _ _ _ H2 Hh3 Hs3) as H3.
  assert (manifest_root (loaded st2 s) = manifest_root (loaded st s)) as -> by apply H2.
  set (P4 := λ t, (t =? s)%string || bool_decide (manifest_root (loaded st s) = Some t)).
  assert (∃ st4, match manifest_root (loaded st s) with
    | Some root_id => if (root_id =? s)%string then mret tt else register_name root_id n h
    | None => mret tt end st3 = (st4, Ok tt) ∧ named_in st n h P4 st4) as (st4 & E4 & H4).
  { unfold P4. destruct (manifest_root (loaded st s)) as [r|].
    - destruct (String.eqb_spec r s) as [->|Hrs].
      + exists st3. split; [done|]. eapply named_in_ext; [|exact H3]. intros t. cbn beta.
        destruct (String.eqb_spec t s) as [->|]; [done|]. rewrite bool_decide_false; [done|congruence].
      + destruct (named_in_register _ _ _ _ _ r H3) as (st4 & E4 & H4). exists st4.
        split; [done|]. eapply named_in_ext; [|exact H4]. intros t. cbn beta. f_equal.
        destruct (String.eqb_spec t r) as [->|]; [by rewrite bool_decide_true|].
        rewrite bool_decide_false; [done|congruence].
    - exists st3. split; [done|]. eapply named_in_ext; [|exact H3]. intros t. cbn beta.
      by rewrite orb_false_r. }
  rewrite E4. case_bool_decide as Hg.
  - destruct (named_in_register _ _ _ _ _ GLOBAL_SESSION_ID H4) as (st5 & E5 & H5). exists st5.
    split; [done|]. eapply named_in_ext; [|exact H5]. intros t. unfold P4, publishes_to.
    rewrite (bool_decide_false (v = Private)), (bool_decide_true (v = Global)) by done. simpl.
    by rewrite orb_assoc.
  - exists st4. split; [done|]. eapply named_in_ext; [|exact H4]. intros t. unfold P4, publishes_to.
    rewrite (bool_decide_false (v = Private)), (bool_decide_false (v = Global)) by done. simpl.
    by rewrite orb_false_r.
Qed.

(** Name resolution as a function of the manifests. *)
Definition lookup_name (st : ContentStore) (s n : string) : option string :=
  match names (loaded st s) !! n with
  | Some h => Some h
  | None =>
      match other_root s (loaded st s) ≫= (λ r, names (loaded st r) !! n) with
      | Some h => Some h
      | None => if (s =? GLOBAL_SESSION_ID)%string then None
                else names (loaded st GLOBAL_SESSION_ID) !! n
      end
  end.

Lemma attempt_resolve st t n :
  healthy st → ∃ st', attempt (resolve_name t n) st = (st', Ok (names (loaded st t) !! n)) ∧
    healthy st' ∧ same_view st st'.
Proof.
  intros Hh. destruct (load_loaded st t Hh) as (st1 & E1 & Hh1 & Hs1). exists st1.
  unfold attempt, resolve_name, mbind, storem_bind. rewrite E1.
  by destruct (names (loaded st t) !! n).
Qed.

Lemma same_view_trans st st' st'' : same_view st st' → same_view st' st'' → same_view st st''.
Proof. intros [H1 H2] [H3 H4]. split; [congruence|]. intros t. by rewrite H4. Qed.

Lemma resolve_loaded st s n :
  healthy st → ∃ st', resolve_name_with_root s n st =
    (st', match lookup_name st s n with Some h => Ok h | None => Err NameNotFound end) ∧
    same_view st st'.
Proof.
  intros Hh. destruct (attempt_resolve st s n Hh) as (st1 & E1 & Hh1 & Hs1).
  unfold resolve_name_with_root, lookup_name. unfold mbind at 1, storem_bind at 1. rewrite E1.
  destruct (names (loaded st s) !! n) as [h|]; [by exists st1|].
  destruct (load_loaded st1 s Hh1) as (st2 & E2 & Hh2 & Hs2).
  pose proof (same_view_trans _ _ _ Hs1 Hs2) as Hs12.
  unfold mbind at 1, storem_bind at 1. rewrite E2, (proj2 Hs1 s).
  assert (∃ st3, match other_root s (loaded st s) with
    | Some root_id => attempt (resolve_name root_id n)
    | None => mret None end st2
    = (st3, Ok (other_root s (loaded st s) ≫= (λ r, names (loaded st r) !! n))) ∧
    healthy st3 ∧ same_view st st3) as (st3 & E3 & Hh3 & Hs3).
  { destruct (other_root s (loaded st s)) as [r|]; [|by exists st2].
    destruct (attempt_resolve st2 r n Hh2) as (st3 & E3 & Hh3 & Hs3). exists st3.
    rewrite E3, (proj2 Hs12 r). split_and!; try done. by eapply same_view_trans. }
  unfold mbind at 1, storem_bind at 1. rewrite E3.
  destruct (other_root s (loaded st s) ≫= _) as [h|]; [by exists st3|].
  unfold mbind at 1, storem_bind at 1. destruct (s =? GLOBAL_SESSION_ID)%string; [by exists st3|].
  destruct (attempt_resolve st3 GLOBAL_SESSION_ID n Hh3) as (st4 & E4 & Hh4 & Hs4).
  rewrite E4, (proj2 Hs3 GLOBAL_SESSION_ID). exists st4.
  destruct (names (loaded st GLOBAL_SESSION_ID) !! n); (split; [done|]);
    by eapply same_view_trans.
Qed.

(** A name that is not taken for a reference, an alias or a digest. *)
Definition plain_name (n : string) : bool :=
  (trim n =? n)%string && bool_decide (cnt_alias n = None)
  && bool_decide (strip_prefix n "sha256:" = None) && negb (is_short_alias n).

Lemma plain_resolve s n :
  plain_name n = true → resolve_name_or_handle_to_handle s n = resolve_name_with_root s n.
Proof.
  unfold plain_name. rewrite !andb_true_iff, !bool_decide_eq_true, negb_true_iff, str_eqb_spec.
  intros [[[Ht Hc] Hp] Ha]. unfold resolve_name_or_handle_to_handle. by rewrite Ht, Hc, Hp, Ha.
Qed.

Section RoundTrip.
Context (sha256_hex : string → string).

Lemma write_healthy st content :
  healthy st → (∀ c, blobs (disk st) !! sha256_hex content = Some c → c = content) →
  ∃ st', write sha256_hex content st = (st', Ok (compute_handle sha256_hex content)) ∧
    healthy st' ∧ (∀ t, loaded st' t = loaded st t) ∧
    blobs (disk st') !! sha256_hex content = Some content.
Proof.
  intros [Hio Hv] Hb. unfold write. rewrite blob_key_handle.
  destruct (blobs (disk st) !! sha256_hex content) as [c|] eqn:E.
  { exists st. rewrite E, (Hb c eq_refl). by split_and!. }
  unfold next_io. rewrite Hio. eexists. split; [done|]. split_and!; [by split|done|].
  simpl. apply lookup_insert_eq.
Qed.

Lemma read_plain st s n content :
  healthy st → plain_name n = true → 2 ≤ String.length (sha256_hex content) →
  lookup_name st s n = Some (compute_handle sha256_hex content) →
  blobs (disk st) !! sha256_hex content = Some content →
  (read_by_name_or_handle s n st).2 = Ok content.
Proof.
  intros Hh Hp Hlen Hl Hb. unfold read_by_name_or_handle. rewrite plain_resolve by done.
  destruct (resolve_loaded st s n Hh) as (st' & E & Hbs & _). rewrite Hl in E.
  unfold mbind, storem_bind. rewrite E. unfold read. rewrite blob_key_handle.
  destruct (Nat.ltb_spec (String.length (sha256_hex content)) 2); [lia|]. by rewrite Hbs, Hb.
Qed.

(** What is stored and registered is read back, by whom it was shared with and
    by nobody else.  On a store without failures and for a digest without a
    collision on this content: the writer reads the content under the name; so
    does every session with the same root, when the content is not private and
    the session has no name of its own; and a session none of whose manifests
    the name was published to resolves the name as before. *)
Theorem registered_content_is_read st content s n v :
  healthy st → plain_name n = true → 2 ≤ String.length (sha256_hex content) →
  (∀ c, blobs (disk st) !! sha256_hex content = Some c → c = content) →
  ∃ st1 st2, write sha256_hex content st = (st1, Ok (compute_handle sha256_hex content)) ∧
    register_name_with_visibility s n (compute_handle sha256_hex content) v st1 = (st2, Ok tt) ∧
    (read_by_name_or_handle s n st2).2 = Ok content ∧
    (∀ s' r, v ≠ Private → manifest_root (loaded st s) = Some r →
       manifest_root (loaded st s') = Some r → names (loaded st s') !! n = None →
       (read_by_name_or_handle s' n st2).2 = Ok content) ∧
    (∀ s', (∀ t, t = s' ∨ manifest_root (loaded st s') = Some t ∨ t = GLOBAL_SESSION_ID →
            publishes_to (loaded st s) s v t = false) →
       lookup_name st2 s' n = lookup_name st s' n).
Proof.
  intros Hh Hp Hlen Hb. set (h := compute_handle sha256_hex content).
  destruct (write_healthy st content Hh Hb) as (st1 & E1 & Hh1 & Hl1 & Hb1).
  destruct (register_loaded st1 s n h v Hh1) as (st2 & E2 & Hh2 & Hb2 & Hn).
  rewrite Hl1 in Hn. exists st1, st2.
  assert (∀ t, publishes_to (loaded st s) s v t = true → names (loaded st2 t) !! n = Some h) as Hpub.
  { intros t Ht. destruct (Hn t) as [_ ->]. rewrite Ht. apply lookup_insert_eq. }
  split_and!; [done|done| | |].
  - apply read_plain; try done; [|by rewrite Hb2]. unfold lookup_name. rewrite Hpub; [done|].
    unfold publishes_to. by rewrite String.eqb_refl.
  - intros s' r Hv Hr Hr' Hno. apply read_plain; try done; [|by rewrite Hb2].
    assert (publishes_to (loaded st s) s v r = true) as Hpr.
    { unfold publishes_to. rewrite (bool_decide_false (v = Private)) by done.
      rewrite (bool_decide_true (manifest_root (loaded st s) = Some r)) by done.
      by rewrite orb_true_r. }
    unfold lookup_name, other_root. rewrite (proj1 (Hn s')), Hl1, Hr'. simpl.
    destruct (names (loaded st2 s') !! n) as [h'|] eqn:E.
    + destruct (Hn s') as [_ Hns]. rewrite Hns in E.
      destruct (publishes_to (loaded st s) s v s'); [by rewrite lookup_insert_eq in E|].
      rewrite Hl1, Hno in E. done.
    + destruct (String.eqb_spec r s') as [->|]; [by rewrite Hpub in E|]. simpl. by rewrite Hpub.
  - intros s' Hnot.
    assert (∀ t, t = s' ∨ manifest_root (loaded st s') = Some t ∨ t = GLOBAL_SESSION_ID →
      names (loaded st2 t) = names (loaded st t)) as Hsame.
    { intros t Ht. destruct (Hn t) as [_ ->]. by rewrite (Hnot t Ht), Hl1. }
    unfold lookup_name, other_root. rewrite (proj1 (Hn s')), Hl1, (Hsame s') by auto.
    destruct (names (loaded st s') !! n); [done|]. rewrite (Hsame GLOBAL_SESSION_ID) by auto.
    destruct (manifest_root (loaded st s')) as [r|]; simpl; [|done].
    destruct (r =? s')%string; simpl; [done|]. by rewrite (Hsame r) by auto.
Qed.
End RoundTrip.

(** ** What the store does not promise *)

(** A store just opened on an empty directory. *)
Definition fresh_store (faults : list IoOutcome) : ContentStore :=
  {| disk := empty_disk faults; manifests := ∅ |}.

(** Four surprises.  What a root session registers as private is resolved by its
    children, who look names up in the manifest of the root.  A torn blob write
    fails, but its retry succeeds without writing and the prefix is what is read
    back.  Of two stores on one directory that have both loaded a session's
    manifest, the later registration erases the earlier one.  A session that
    was cleaned up has its names back in the next store. *)
Theorem content_store_surprises sha256_hex content n h :
  2 ≤ String.length (sha256_hex content) →
  (let '(st, _) := (set_root_session "r/child" "r";;
                    register_name_with_visibility "r" "notes" h Private) (fresh_store []) in
   (resolve_name_with_root "r/child" "notes" st).2 = Ok h) ∧
  (let st1 := (write sha256_hex content (fresh_store [IoTorn n])).1 in
   (write sha256_hex content (fresh_store [IoTorn n])).2 = Err IoFailed ∧
   write sha256_hex content st1 = (st1, Ok (compute_handle sha256_hex content)) ∧
   (read (compute_handle sha256_hex content) st1).2 = Ok (String.substring 0 n content)) ∧
  (let w := run_world sha256_hex [] [(1, OpResolve "s" "x"); (2, OpResolve "s" "x");
              (1, OpRegister "s" "x" h Private); (2, OpRegister "s" "y" h Private)] in
   (resolve_name_with_root "s" "x" (world_store w 1)).2 = Ok h ∧
   (resolve_name_with_root "s" "x" (world_store w 3)).2 = Err NameNotFound) ∧
  (let w := run_world sha256_hex [] [(1, OpRegister "s" "x" h Private); (1, OpCleanup "s")] in
   (resolve_name_with_root "s" "x" (world_store w 1)).2 = Err NameNotFound ∧
   (resolve_name_with_root "s" "x" (world_store w 2)).2 = Ok h).
Proof.
  intros Hlen. split; [reflexivity|]. split; [|split; split; reflexivity].
  assert (write sha256_hex content (fresh_store [IoTorn n]) =
    ({| disk := {| blobs := {[sha256_hex content := String.substring 0 n content]};
                   manifest_files := ∅; io := [] |}; manifests := ∅ |}, Err IoFailed)) as ->.
  { unfold write. by rewrite blob_key_handle. }
  cbn [fst snd]. split; [done|]. unfold write, read. rewrite blob_key_handle. simpl.
  destruct (Nat.ltb_spec (String.length (sha256_hex content)) 2); [lia|].
  by rewrite lookup_singleton_eq.
Qed.

(** ** Examples *)

(** A digest without collisions, in place of SHA-256. *)
Definition demo_sha (content : string) : string := ("00" ++ content)%string.

Definition demo_private_ops : list (nat * StoreOp) :=
  [(1, OpSetRoot "r/a" "r"); (1, OpSetRoot "r/b" "r"); (1, OpWrite "secret");
   (1, OpRegister "r/a" "notes" "sha256:00secret" Private)].

(** The secret of [r/a] is out of the reach of its sibling until another
    sibling shares the same content under their root. *)
Lemma private_content_is_private_witness :
  let shared := demo_private_ops ++ [(1, OpSetRoot "r/c" "r"); (1, OpRegister "r/c" "copy" "sha256:00secret" SessionWide)] in
  (resolve_name_or_handle_to_handle "r/b" "sha256:00secret"
     (world_store (run_world demo_sha [] demo_private_ops) 2)).2 = Err HandleNotVisible ∧
  (resolve_name_or_handle_to_handle "r/a" "notes"
     (world_store (run_world demo_sha [] demo_private_ops) 2)).2 = Ok "sha256:00secret" ∧
  (resolve_name_or_handle_to_handle "r/b" "sha256:00secret"
     (world_store (run_world demo_sha [] shared) 2)).2 = Ok "sha256:00secret" ∧
  ∃ w' n v t, registers (shared.*2) w' n "sha256:00secret" v ∧ ¬ (w' = "r/a" ∧ v = Private) ∧
    looks_in (shared.*2) "r/b" t ∧ reaches (shared.*2) w' v t.
Proof.
  intros shared. split_and!; [reflexivity..|].
  apply (private_content_is_private demo_sha [] shared 2 "r/a" "sha256:00secret" "r/b" "sha256:00secret");
    [|discriminate|discriminate|reflexivity].
  intros t H. apply list_elem_of_In in H. cbn in H.
  repeat (destruct H as [H|H]; [discriminate H|]). exact H.
Defined.

Lemma fresh_store_healthy : healthy (fresh_store []).
Proof. split; [done|]. intros t. by exists manifest_default. Qed.

Lemma registered_content_is_read_witness :
  ∃ st1 st2, write demo_sha "hi" (fresh_store []) = (st1, Ok "sha256:00hi") ∧
    register_name_with_visibility "s" "notes.txt" "sha256:00hi" SessionWide st1 = (st2, Ok tt) ∧
    (read_by_name_or_handle "s" "notes.txt" st2).2 = Ok "hi".
Proof.
  destruct (registered_content_is_read demo_sha (fresh_store []) "hi" "s" "notes.txt" SessionWide
    fresh_store_healthy eq_refl) as (st1 & st2 & H1 & H2 & H3 & _).
  - simpl. lia.
  - intros c H. discriminate H.
  - exists st1, st2. split; [exact H1|]. split; [exact H2|exact H3].
Defined.

Lemma content_store_surprises_witness :
  let st1 := (write demo_sha "hello" (fresh_store [IoTorn 2])).1 in
  (write demo_sha "hello" st1).2 = Ok "sha256:00hello" ∧
  (read "sha256:00hello" st1).2 = Ok "he".
Proof.
  pose proof (content_store_surprises demo_sha "hello" 2 "h") as H.
  destruct H as [_ [[_ [H2 H3]] _]]; [simpl; lia|].
  split; [rewrite H2; reflexivity|exact H3].
Defined.
