(* ===== verification/Patch.v ===== *)
(** * Targeted edits of stored content

    The [content_patch] tool: the tolerant find-and-replace of
    runtime/fuzzy_match.rs, the multi-entry patch format of runtime/v4a.rs, and
    the two modes of runtime/tools/content_patch.rs over the content store
    ([ContentStore.v]).

    Text is the sequence of its bytes; white space is ASCII white space, as in
    [RustStr.v].  A panic is [None]. *)

From Stdlib Require Import Ascii String Lia.
From stdpp Require Import prelude gmap strings list sorting.
From S2P Require Import Prelude RustStr ContentStore.

Open Scope string_scope.
Open Scope nat_scope.
Open Scope list_scope.

Definition NL : string := String "010"%char "".
Definition is_newline (c : ascii) : bool := Ascii.eqb c "010"%char.

(** ** Substring replacement: [str::matches], [replace] and [replacen] *)

(** The pieces around the occurrences of [p], from the left and without
    overlap; a step consumes at least one byte. *)
Fixpoint split_str (fuel : nat) (s p : string) : list string :=
  match fuel with
  | 0 => [s]
  | S fuel =>
      match find s p with
      | Some i => String.substring 0 i s :: split_str fuel (skip (i + String.length p) s) p
      | None => [s]
      end
  end.

Definition pieces (s p : string) : list string := split_str (S (String.length s)) s p.
Definition count_matches (s p : string) : nat := length (pieces s p) - 1.
Definition replace (s p new : string) : string := join new (pieces s p).

Definition replace_first (s p new : string) : string :=
  match find s p with
  | Some i => (String.substring 0 i s ++ new ++ skip (i + String.length p) s)%string
  | None => s
  end.

Definition strip_newline (s : string) : string := default s (strip_suffix_char s "010"%char).

(** ** fuzzy_match.rs *)

Inductive MatchStrategy : Type := Exact | LineTrimmed | WhitespaceNormalized.

Definition strategy_as_str (self : MatchStrategy) : string :=
  match self with
  | Exact => "exact"
  | LineTrimmed => "line-trimmed"
  | WhitespaceNormalized => "whitespace-normalized"
  end.

Inductive FuzzyError : Type :=
| EmptyPattern
| NotFound
| Ambiguous (strategy : MatchStrategy) (count : nat).

Record ReplaceOutcome := {
  outcome_content : string;
  outcome_strategy : MatchStrategy;
  replacements : nat;
}.

Definition text_lines (src : string) : list string := split is_newline src.

(** Each line with its byte offset. *)
Fixpoint with_offsets (start : nat) (lines : list string) : list (nat * string) :=
  match lines with
  | [] => []
  | l :: rest => (start, l) :: with_offsets (start + String.length l + 1) rest
  end.

Definition line_offsets (src : string) : list (nat * string) := with_offsets 0 (text_lines src).

Definition normalize_ws (s : string) : string := join " " (split_whitespace s).

Definition line_eq (a b : string) (strategy : MatchStrategy) : bool :=
  match strategy with
  | Exact => (a =? b)%string
  | LineTrimmed => (trim a =? trim b)%string
  | WhitespaceNormalized => (normalize_ws a =? normalize_ws b)%string
  end.

(** The window of [n] lines from line [w] matches the pattern. *)
Definition window_matches (src_lines : list (nat * string)) (pat_lines : list string)
    (strategy : MatchStrategy) (w : nat) : bool :=
  forallb (λ '(src, pat), line_eq src.2 pat strategy)
    (zip (take (length pat_lines) (drop w src_lines)) pat_lines).

Definition find_line_windows (src_lines : list (nat * string)) (pat_lines : list string)
    (strategy : MatchStrategy) : list nat :=
  let n := length pat_lines in
  if (n =? 0) || (length src_lines <? n) then []
  else List.filter (window_matches src_lines pat_lines strategy)
         (seq 0 (length src_lines - n + 1)).

Definition is_blank (c : ascii) : bool := Ascii.eqb c " "%char || Ascii.eqb c "009"%char.

Definition leading_ws (line : string) : string :=
  String.substring 0 (String.length line - String.length (trim_start_by is_blank line)) line.

Definition reindent (new old_base src_base : string) : string :=
  if (old_base =? src_base)%string then new
  else join NL (map (λ line,
         match strip_prefix line old_base with
         | Some rest => (src_base ++ rest)%string
         | None => line
         end) (text_lines new)).

(** The window is not empty and within the source. *)
Definition apply_line_replacement (source : string) (src_lines : list (nat * string))
    (pat_lines : list string) (w : nat) (new : string) : string :=
  let last := w + length pat_lines - 1 in
  let first_line := default (0, "") (src_lines !! w) in
  let last_line := default (0, "") (src_lines !! last) in
  let start_byte := first_line.1 in
  let end_byte := last_line.1 + String.length last_line.2 in
  let src_base := leading_ws first_line.2 in
  let old_base := leading_ws (default "" (head pat_lines)) in
  let reindented := reindent (strip_newline new) old_base src_base in
  (String.substring 0 start_byte source ++ reindented ++ skip end_byte source)%string.

(** The line strategies in turn: the first that matches decides. *)
Fixpoint try_strategies (source new : string) (src_lines : list (nat * string))
    (pat_lines : list string) (strategies : list MatchStrategy)
    : result ReplaceOutcome FuzzyError :=
  match strategies with
  | [] => Err NotFound
  | strategy :: rest =>
      match find_line_windows src_lines pat_lines strategy with
      | [] => try_strategies source new src_lines pat_lines rest
      | [w] => Ok {| outcome_content := apply_line_replacement source src_lines pat_lines w new;
                     outcome_strategy := strategy; replacements := 1 |}
      | windows => Err (Ambiguous strategy (length windows))
      end
  end.

Definition find_and_replace (source old new : string) (replace_all : bool)
    : result ReplaceOutcome FuzzyError :=
  if str_is_empty old then Err EmptyPattern
  else
    let exact_count := count_matches source old in
    if 0 <? exact_count then
      if replace_all
      then Ok {| outcome_content := replace source old new; outcome_strategy := Exact;
                 replacements := exact_count |}
      else if exact_count =? 1
      then Ok {| outcome_content := replace_first source old new; outcome_strategy := Exact;
                 replacements := 1 |}
      else Err (Ambiguous Exact exact_count)
    else
      try_strategies source new (line_offsets source) (text_lines (strip_newline old))
        [LineTrimmed; WhitespaceNormalized].

(** ** v4a.rs *)

Record Hunk := {
  old_block : string;
  new_block : string;
}.

Inductive V4aOp : Type :=
| Update (name : string) (hunks : list Hunk)
| Add (name content : string)
| Delete (name : string)
| Move (from to : string).

Inductive V4aError : Type :=
| MissingBegin
| MissingEnd
| NoOperations
| BadHeader (line : string)
| BadHunkLine (line : string)
| EmptyHunk (name : string).

Record ApplyError := {
  apply_name : string;
  hunk_index : nat;
  apply_source : FuzzyError;
}.

Definition BEGIN : string := "*** Begin Patch".
Definition END_ : string := "*** End Patch".
Definition UPDATE : string := "*** Update File: ".
Definition ADD : string := "*** Add File: ".
Definition DELETE : string := "*** Delete File: ".
Definition MOVE : string := "*** Move File: ".

Definition strip_cr (line : string) : string := default line (strip_suffix_char line "013"%char).

(** [str::lines], from the pieces between the newlines: the last piece counts
    only when it is not empty, and a carriage return before a newline goes with
    it. *)
Fixpoint rust_lines (l : list string) : list string :=
  match l with
  | [] => []
  | [x] => if str_is_empty x then [] else [x]
  | x :: rest => strip_cr x :: rust_lines rest
  end.

Definition patch_lines (patch : string) : list string :=
  map strip_cr (rust_lines (text_lines patch)).

Inductive SectionKind : Type := SectionUpdate | SectionAdd.

Record SectionBuilder := {
  sec_kind : SectionKind;
  sec_name : string;
  sec_hunks : list Hunk;
  sec_cur : list (ascii * string);
  sec_add_lines : list string;
}.

Definition section_start (kind : SectionKind) (name : string) : SectionBuilder :=
  {| sec_kind := kind; sec_name := name; sec_hunks := []; sec_cur := []; sec_add_lines := [] |}.

(** The two sides of the marked lines. *)
Definition old_side (cur : list (ascii * string)) : list string :=
  (List.filter (λ e, Ascii.eqb e.1 " "%char || Ascii.eqb e.1 "-"%char) cur).*2.
Definition new_side (cur : list (ascii * string)) : list string :=
  (List.filter (λ e, Ascii.eqb e.1 " "%char || Ascii.eqb e.1 "+"%char) cur).*2.

Definition close_hunk (self : SectionBuilder) : SectionBuilder :=
  match sec_cur self with
  | [] => self
  | cur => {| sec_kind := sec_kind self; sec_name := sec_name self;
              sec_hunks := sec_hunks self ++
                [{| old_block := join NL (old_side cur); new_block := join NL (new_side cur) |}];
              sec_cur := []; sec_add_lines := sec_add_lines self |}
  end.

Definition push_cur (self : SectionBuilder) (m : ascii) (text : string) : SectionBuilder :=
  {| sec_kind := sec_kind self; sec_name := sec_name self; sec_hunks := sec_hunks self;
     sec_cur := sec_cur self ++ [(m, text)]; sec_add_lines := sec_add_lines self |}.

(** [split_at(1)] of a line whose first character takes several bytes panics. *)
Definition push_body (self : SectionBuilder) (line : string)
    : option (result SectionBuilder V4aError) :=
  match sec_kind self with
  | SectionAdd =>
      Some (Ok {| sec_kind := sec_kind self; sec_name := sec_name self;
                  sec_hunks := sec_hunks self; sec_cur := sec_cur self;
                  sec_add_lines := sec_add_lines self ++ [default line (strip_prefix line "+")] |})
  | SectionUpdate =>
      if starts_with line "@@" then Some (Ok (close_hunk self))
      else match line with
           | "" => Some (Ok (push_cur self " "%char ""))
           | String m rest =>
               if 128 <=? nat_of_ascii m then None
               else if Ascii.eqb m " "%char || Ascii.eqb m "+"%char || Ascii.eqb m "-"%char
               then Some (Ok (push_cur self m rest))
               else Some (Err (BadHunkLine line))
           end
  end.

Definition finish (self : SectionBuilder) : result V4aOp V4aError :=
  match sec_kind self with
  | SectionAdd => Ok (Add (sec_name self) (join NL (sec_add_lines self)))
  | SectionUpdate =>
      let self := close_hunk self in
      match sec_hunks self with
      | [] => Err (EmptyHunk (sec_name self))
      | hunks => Ok (Update (sec_name self) hunks)
      end
  end.

Definition flush (current : option SectionBuilder) (ops : list V4aOp)
    : result (list V4aOp) V4aError :=
  match current with
  | Some sec => match finish sec with Ok op => Ok (ops ++ [op]) | Err e => Err e end
  | None => Ok ops
  end.

(** [s.split_once("->")]. *)
Definition split_arrow (spec : string) : string * string :=
  match find spec "->" with
  | Some i => (String.substring 0 i spec, skip (i + 2) spec)
  | None => (spec, "")
  end.

(** The end of the loop: the last section is closed before the end marker is
    missed. *)
Definition parse_end (current : option SectionBuilder) (ops : list V4aOp) (saw_end : bool)
    : option (result (list V4aOp) V4aError) :=
  Some (match flush current ops with
        | Err e => Err e
        | Ok ops => if negb saw_end then Err MissingEnd
                    else match ops with [] => Err NoOperations | _ => Ok ops end
        end).

Fixpoint parse_body (lines : list string) (current : option SectionBuilder) (ops : list V4aOp)
    : option (result (list V4aOp) V4aError) :=
  match lines with
  | [] => parse_end current ops false
  | line :: rest =>
      let open_section kind name :=
        match flush current ops with
        | Err e => Some (Err e)
        | Ok ops => parse_body rest (Some (section_start kind (trim name))) ops
        end in
      let push op :=
        match flush current ops with
        | Err e => Some (Err e)
        | Ok ops => parse_body rest None (ops ++ [op])
        end in
      if (trim line =? END_)%string then parse_end current ops true
      else match strip_prefix line UPDATE with
      | Some name => open_section SectionUpdate name
      | None =>
      match strip_prefix line ADD with
      | Some name => open_section SectionAdd name
      | None =>
      match strip_prefix line DELETE with
      | Some name => push (Delete (trim name))
      | None =>
      match strip_prefix line MOVE with
      | Some spec => let '(from, to) := split_arrow spec in push (Move (trim from) (trim to))
      | None =>
      if starts_with line "*** " then Some (Err (BadHeader line))
      else match current with
           | Some sec =>
               match push_body sec line with
               | None => None
               | Some (Err e) => Some (Err e)
               | Some (Ok sec) => parse_body rest (Some sec) ops
               end
           | None => if str_is_empty (trim line) then parse_body rest None ops
                     else Some (Err (BadHeader line))
           end
      end end end end
  end.

Fixpoint skip_blank (lines : list string) : list string :=
  match lines with
  | l :: rest => if str_is_empty (trim l) then skip_blank rest else lines
  | [] => []
  end.

Definition parse (patch : string) : option (result (list V4aOp) V4aError) :=
  match skip_blank (patch_lines patch) with
  | l :: rest => if (trim l =? BEGIN)%string then parse_body rest None []
                 else Some (Err MissingBegin)
  | [] => Some (Err MissingBegin)
  end.

Fixpoint apply_hunks_from (i : nat) (name content : string) (hunks : list Hunk)
    : result string ApplyError :=
  match hunks with
  | [] => Ok content
  | hunk :: rest =>
      match find_and_replace content (old_block hunk) (new_block hunk) false with
      | Ok outcome => apply_hunks_from (S i) name (outcome_content outcome) rest
      | Err e => Err {| apply_name := name; hunk_index := i; apply_source := e |}
      end
  end.

Definition apply_hunks (name current : string) (hunks : list Hunk) : result string ApplyError :=
  apply_hunks_from 0 name current hunks.

(** ** content_patch.rs *)

Inductive PatchError : Type :=
| ArgumentMissing
| EntryNotFound (name : string)
| EntryNotText (name : string)
| NoMatch (e : FuzzyError) (name : string)
| InvalidPatch (e : V4aError)
| PatchPanics
| InvalidAddName (name : string)
| UnsupportedOperation
| DuplicateName (name : string)
| HunkFailed (e : ApplyError)
| StoreFailed (e : StoreError).

Definition PatchM (A : Type) : Type := ContentStore → ContentStore * result A PatchError.

#[export] Instance patchm_ret : MRet PatchM := λ A a st, (st, Ok a).
#[export] Instance patchm_bind : MBind PatchM := λ A B k m st,
  match m st with
  | (st, Ok a) => k a st
  | (st, Err e) => (st, Err e)
  end.

Definition refuse {A} (e : PatchError) : PatchM A := λ st, (st, Err e).

(** A store operation whose failure is reported as [f]. *)
Definition or_else {A} (m : StoreM A) (f : StoreError → PatchError) : PatchM A := λ st,
  match m st with
  | (st, Ok a) => (st, Ok a)
  | (st, Err e) => (st, Err (f e))
  end.

Definition valid_content_name (name : string) : bool :=
  negb (str_is_empty (trim name))
  && negb (str_existsb (λ c, negb (is_ascii_alphanumeric c || Ascii.eqb c "_"%char
                                   || Ascii.eqb c "-"%char || Ascii.eqb c "."%char
                                   || Ascii.eqb c "/"%char)) name).

(** The recorded visibility of a handle, in the session or its root. *)
Definition current_visibility (sid handle : string) : StoreM (option ContentVisibility) :=
  manifest ← attempt (load_manifest sid);
  match manifest with
  | None => mret None
  | Some manifest =>
      match visibility manifest !! handle with
      | Some v => mret (Some v)
      | None =>
          match other_root sid manifest with
          | None => mret None
          | Some root =>
              root_manifest ← attempt (load_manifest root);
              mret (root_manifest ≫= (λ m, visibility m !! handle))
          end
      end
  end.

Definition nonblank (s : option string) : option string :=
  s ← s; if str_is_empty (trim s) then None else Some s.

(** Reading the text of an entry by its registered name. *)
Definition read_entry (sid name : string) : PatchM (string * string) :=
  handle ← or_else (resolve_name_with_root sid name) (λ _, EntryNotFound name);
  current ← or_else (read_string handle)
              (λ e, match e with BadHandle => PatchPanics | _ => EntryNotText name end);
  mret (handle, current).

Definition visibility_for (override : option ContentVisibility) (sid handle : string)
    : PatchM ContentVisibility :=
  match override with
  | Some v => mret v
  | None =>
      v ← or_else (current_visibility sid handle) StoreFailed;
      mret (default SessionWide v)
  end.

Section Tool.
Context (sha256_hex : string → string).

Definition put_entry (sid name content : string) (v : ContentVisibility) : PatchM string :=
  handle ← or_else (write sha256_hex content) StoreFailed;
  or_else (register_name_with_visibility sid name handle v) StoreFailed;;
  mret handle.

Definition run_replace (sid : string) (name old_string new_string : option string)
    (replace_all : bool) (override : option ContentVisibility)
    : PatchM (string * ReplaceOutcome) :=
  match nonblank name, old_string, new_string with
  | Some name, Some old_string, Some new_string =>
      entry ← read_entry sid name;
      match find_and_replace entry.2 old_string new_string replace_all with
      | Err e => refuse (NoMatch e name)
      | Ok outcome =>
          v ← visibility_for override sid entry.1;
          handle ← put_entry sid name (outcome_content outcome) v;
          mret (handle, outcome)
      end
  | _, _, _ => refuse ArgumentMissing
  end.

(** The operations are checked one by one: an unsupported one, a bad name, or a
    second one for a name is refused. *)
Fixpoint check_ops (seen : list string) (ops : list V4aOp) : option PatchError :=
  match ops with
  | [] => None
  | op :: rest =>
      let check name :=
        if existsb (String.eqb name) seen then Some (DuplicateName name)
        else check_ops (name :: seen) rest in
      match op with
      | Update name _ => check name
      | Add name _ => if valid_content_name name then check name else Some (InvalidAddName name)
      | Delete _ | Move _ _ => Some UnsupportedOperation
      end
  end.

Record PendingEntry := {
  pending_name : string;
  pending_content : string;
  pending_visibility : ContentVisibility;
}.

(** Phase 1, one operation: nothing is written. *)
Definition resolve_op (sid : string) (override : option ContentVisibility) (op : V4aOp)
    : PatchM PendingEntry :=
  match op with
  | Update name hunks =>
      entry ← read_entry sid name;
      match apply_hunks name entry.2 hunks with
      | Err e => refuse (HunkFailed e)
      | Ok content =>
          v ← visibility_for override sid entry.1;
          mret {| pending_name := name; pending_content := content; pending_visibility := v |}
      end
  | Add name content =>
      mret {| pending_name := name; pending_content := content;
              pending_visibility := default SessionWide override |}
  | Delete _ | Move _ _ => refuse PatchPanics
  end.

Fixpoint resolve_ops (sid : string) (override : option ContentVisibility) (ops : list V4aOp)
    : PatchM (list PendingEntry) :=
  match ops with
  | [] => mret []
  | op :: rest =>
      p ← resolve_op sid override op;
      ps ← resolve_ops sid override rest;
      mret (p :: ps)
  end.

(** Phase 2. *)
Fixpoint commit (sid : string) (pending : list PendingEntry) : PatchM (list string) :=
  match pending with
  | [] => mret []
  | p :: rest =>
      handle ← put_entry sid (pending_name p) (pending_content p) (pending_visibility p);
      handles ← commit sid rest;
      mret (handle :: handles)
  end.

Definition run_v4a (sid : string) (patch : option string) (override : option ContentVisibility)
    : PatchM (list string) :=
  match nonblank patch with
  | None => refuse ArgumentMissing
  | Some patch =>
      match parse patch with
      | None => refuse PatchPanics
      | Some (Err e) => refuse (InvalidPatch e)
      | Some (Ok ops) =>
          match check_ops [] ops with
          | Some e => refuse e
          | None =>
              pending ← resolve_ops sid override ops;
              commit sid pending
          end
      end
  end.
End Tool.

(** ** Lines and text *)

(** Lines each followed by a newline, and lines each preceded by one. *)
Fixpoint terminated (l : list string) : string :=
  match l with [] => "" | x :: r => (x ++ NL ++ terminated r)%string end.
Fixpoint preceded (l : list string) : string :=
  match l with [] => "" | x :: r => (NL ++ x ++ preceded r)%string end.

Definition no_newline (x : string) : Prop := str_existsb is_newline x = false.

Lemma join_cons x l : join NL (x :: l) = (x ++ preceded l)%string.
Proof.
  revert x. induction l as [|y l IH]; intros x; [by rewrite str_app_nil_r|].
  change (join NL (x :: y :: l)) with (x ++ NL ++ join NL (y :: l))%string. by rewrite IH.
Qed.

Lemma terminated_app k l : terminated (k ++ l) = (terminated k ++ terminated l)%string.
Proof. induction k as [|x k IH]; simpl; [done|]. by rewrite IH, str_app_assoc. Qed.

Lemma preceded_app k l : preceded (k ++ l) = (preceded k ++ preceded l)%string.
Proof. induction k as [|x k IH]; simpl; [done|]. by rewrite IH, str_app_assoc. Qed.

Lemma join_before k x l : join NL (k ++ x :: l) = (terminated k ++ join NL (x :: l))%string.
Proof.
  induction k as [|y k IH]; [done|]. cbn [app terminated]. rewrite !str_app_assoc, <-IH.
  by destruct k.
Qed.

Lemma join_after x l k : join NL (x :: l ++ k) = (join NL (x :: l) ++ preceded k)%string.
Proof. by rewrite !join_cons, preceded_app, str_app_assoc. Qed.

Lemma join_snoc l z : (terminated l ++ z)%string = join NL (l ++ [z]).
Proof. by rewrite join_before. Qed.

Lemma text_lines_sep x s :
  text_lines (x ++ NL ++ s)%string = text_lines x ++ text_lines s.
Proof.
  unfold text_lines. induction x as [|c x IH]; simpl; [done|].
  simpl in IH. rewrite IH. destruct (is_newline c); [done|].
  destruct (split is_newline x) as [|h t] eqn:E; [by destruct (split_nonempty is_newline x)|done].
Qed.

Lemma text_lines_one x : no_newline x → text_lines x = [x].
Proof. apply split_no_sep_id. Qed.

Lemma text_lines_terminated k s :
  Forall no_newline k → text_lines (terminated k ++ s)%string = k ++ text_lines s.
Proof.
  induction 1 as [|x k Hx HF IH]; [done|]. cbn [app terminated].
  by rewrite !str_app_assoc, text_lines_sep, (text_lines_one x), IH.
Qed.

Lemma text_lines_preceded x k :
  Forall no_newline k → text_lines (x ++ preceded k)%string = text_lines x ++ k.
Proof.
  intros HF. revert x. induction HF as [|y k Hy HF IH]; intros x; cbn [preceded].
  { by rewrite str_app_nil_r, app_nil_r. }
  by rewrite text_lines_sep, IH, (text_lines_one y).
Qed.

Lemma text_lines_no_newline s : Forall no_newline (text_lines s).
Proof. apply Forall_forall. intros x. apply split_no_sep. Qed.

Lemma join_text_lines s : join NL (text_lines s) = s.
Proof.
  unfold text_lines. induction s as [|c s IH]; [done|]. simpl.
  destruct (split is_newline s) as [|h t] eqn:E; [by destruct (split_nonempty is_newline s)|].
  unfold is_newline at 1. destruct (Ascii.eqb_spec c "010"%char) as [->|].
  - by rewrite <-IH.
  - rewrite join_cons in *. simpl. by rewrite IH.
Qed.

(** ** Windows *)

Lemma with_offsets_lookup k before l after :
  with_offsets k (before ++ l :: after) !! length before
  = Some (k + String.length (terminated before), l).
Proof.
  revert k. induction before as [|x before IH]; intros k; simpl; [by rewrite Nat.add_0_r|].
  rewrite IH, !str_length_app. simpl. f_equal. f_equal. lia.
Qed.

Lemma with_offsets_snd k l : (with_offsets k l).*2 = l.
Proof. revert k. induction l as [|x l IH]; intros k; simpl; [done|]. by rewrite IH. Qed.

Lemma with_offsets_length k l : length (with_offsets k l) = length l.
Proof. by rewrite <-(length_fmap snd), with_offsets_snd. Qed.

(** A window that matches cuts the source lines in three. *)
Lemma window_cut src pat strategy w :
  w + length pat ≤ length src →
  window_matches (with_offsets 0 src) pat strategy w = true →
  ∃ before window after, src = before ++ window ++ after ∧ length before = w ∧
    Forall2 (λ a b, line_eq a b strategy = true) window pat.
Proof.
  intros Hlen Hm. exists (take w src), (take (length pat) (drop w src)),
    (drop (length pat) (drop w src)). split_and!.
  - by rewrite take_drop, take_drop.
  - rewrite length_take. lia.
  - unfold window_matches in Hm. rewrite forallb_true in Hm.
    assert ((take (length pat) (drop w (with_offsets 0 src))).*2 = take (length pat) (drop w src))
      as <-.
    { by rewrite fmap_take, fmap_drop, with_offsets_snd. }
    set (win := take _ _) in *.
    assert (length win = length pat) as Hl.
    { unfold win. rewrite length_take, length_drop, with_offsets_length. lia. }
    clearbody win. clear Hlen. revert win Hm Hl. induction pat as [|p pat IH]; intros [|x win] Hm Hl;
      try done; simpl; constructor.
    + apply (Hm (x, p)). by left.
    + apply IH; [|simpl in Hl; lia]. intros e He. apply Hm. by right.
Qed.

Lemma find_line_windows_elem src_lines pat strategy w :
  w ∈ find_line_windows src_lines pat strategy ↔
  pat ≠ [] ∧ w + length pat ≤ length src_lines ∧ window_matches src_lines pat strategy w = true.
Proof.
  unfold find_line_windows. destruct pat as [|p pat]; [split; [by intros ?%not_elem_of_nil|naive_solver]|].
  cbn [Nat.eqb length orb]. destruct (Nat.ltb_spec (length src_lines) (S (length pat))).
  { split; [by intros ?%not_elem_of_nil|]. intros (_ & Hl & _). simpl in Hl. lia. }
  rewrite list_elem_of_In, filter_In, <-list_elem_of_In, elem_of_seq. simpl. split.
  - intros [Hw Hm]. split_and!; [done|lia|done].
  - intros (_ & Hl & Hm). split; [lia|done].
Qed.

Lemma cut_source source before window after :
  text_lines source = before ++ window ++ after → window ≠ [] →
  source = (terminated before ++ join NL window ++ preceded after)%string.
Proof.
  intros Hs Hne. rewrite <-(join_text_lines source), Hs.
  destruct window as [|x window]; [done|]. cbn [app]. by rewrite join_before, join_after.
Qed.

Lemma skip_app a b : skip (String.length a) (a ++ b) = b.
Proof. apply skip_length. Qed.

(** The replaced text for a window. *)
Definition replacement (pat window : list string) (new : string) : string :=
  reindent (strip_newline new) (leading_ws (default "" (head pat)))
    (leading_ws (default "" (head window))).

Lemma apply_cut source before window after pat new :
  text_lines source = before ++ window ++ after → length window = length pat → window ≠ [] →
  apply_line_replacement source (line_offsets source) pat (length before) new
  = (terminated before ++ replacement pat window new ++ preceded after)%string.
Proof.
  intros Hs Hlen Hne. pose proof (cut_source _ _ _ _ Hs Hne) as Hsrc.
  unfold apply_line_replacement, replacement, line_offsets. rewrite Hs.
  destruct window as [|x window]; [done|].
  change ((x :: window) ++ after) with (x :: (window ++ after)). cbn [head from_option id].
  rewrite (with_offsets_lookup 0 before x (window ++ after)). cbn [from_option id fst snd Nat.add].
  destruct (exists_last (l := x :: window)) as (ini & z & Hz); [done|].
  assert (length before + length pat - 1 = length (before ++ ini)) as ->.
  { rewrite length_app, <-Hlen, Hz, length_app. simpl. lia. }
  assert (before ++ (x :: window) ++ after = (before ++ ini) ++ z :: after) as Heq.
  { by rewrite Hz, <-!app_assoc. }
  change ((x :: window) ++ after) with (x :: (window ++ after)) in Heq.
  rewrite Heq, with_offsets_lookup. cbn [from_option id fst snd Nat.add].
  assert (String.length (terminated (before ++ ini)) + String.length z
          = String.length (terminated before ++ join NL (x :: window))%string) as ->.
  { rewrite <-str_length_app, terminated_app, str_app_assoc, (join_snoc ini z). by rewrite Hz. }
  rewrite Hsrc at 1. rewrite substring_app. do 2 f_equal.
  rewrite Hsrc, <-str_app_assoc. apply skip_app.
Qed.

(** What an edit by lines does to the lines. *)
Definition line_edit (source old new content : string) (strategy : MatchStrategy) : Prop :=
  let pat := text_lines (strip_newline old) in
  ∃ before window after,
    text_lines source = before ++ window ++ after ∧
    Forall2 (λ a b, line_eq a b strategy = true) window pat ∧
    text_lines content = before ++ text_lines (replacement pat window new) ++ after ∧
    ∀ w, w + length pat ≤ length (text_lines source) →
      window_matches (line_offsets source) pat strategy w = true → w = length before.

(** No window matches under the strategy. *)
Definition no_window (source old : string) (strategy : MatchStrategy) : Prop :=
  ∀ w, w + length (text_lines (strip_newline old)) ≤ length (text_lines source) →
    window_matches (line_offsets source) (text_lines (strip_newline old)) strategy w = false.

Lemma text_lines_nonempty s : text_lines s ≠ [].
Proof. apply split_nonempty. Qed.

Lemma windows_nil source old strategy :
  find_line_windows (line_offsets source) (text_lines (strip_newline old)) strategy = [] ↔
  no_window source old strategy.
Proof.
  unfold no_window. set (pat := text_lines (strip_newline old)).
  assert (length (line_offsets source) = length (text_lines source)) as Hl
    by apply with_offsets_length. split.
  - intros H w Hw. destruct (window_matches _ pat strategy w) eqn:E; [|done].
    assert (w ∈ find_line_windows (line_offsets source) pat strategy) as Hin.
    { apply find_line_windows_elem. rewrite Hl. split_and!; [apply text_lines_nonempty|done|done]. }
    rewrite H in Hin. by apply not_elem_of_nil in Hin.
  - intros H. destruct (find_line_windows _ pat strategy) as [|w l] eqn:E; [done|].
    assert (w ∈ find_line_windows (line_offsets source) pat strategy) as Hin by (rewrite E; by left).
    apply find_line_windows_elem in Hin as (_ & Hw & Hm). rewrite Hl in Hw. by rewrite H in Hm.
Qed.

Lemma windows_one source old new strategy w :
  find_line_windows (line_offsets source) (text_lines (strip_newline old)) strategy = [w] →
  line_edit source old new
    (apply_line_replacement source (line_offsets source) (text_lines (strip_newline old)) w new)
    strategy.
Proof.
  unfold line_edit. set (pat := text_lines (strip_newline old)). intros H.
  assert (length (line_offsets source) = length (text_lines source)) as Hl
    by apply with_offsets_length.
  assert (w ∈ find_line_windows (line_offsets source) pat strategy) as Hin by (rewrite H; by left).
  apply find_line_windows_elem in Hin as (Hne & Hw & Hm). rewrite Hl in Hw.
  destruct (window_cut _ _ _ _ Hw Hm) as (before & window & after & Hs & <- & HF).
  pose proof (Forall2_length _ _ _ HF) as Hlen.
  assert (window ≠ []) as Hwne by (by destruct window, pat).
  exists before, window, after. split_and!; [done|done| |].
  - pose proof (text_lines_no_newline source) as Hnl. rewrite Hs in Hnl.
    apply Forall_app in Hnl as [Hb [_ Ha]%Forall_app].
    rewrite (apply_cut _ before window after) by done.
    by rewrite text_lines_terminated, text_lines_preceded.
  - intros w' Hw' Hm'.
    assert (w' ∈ find_line_windows (line_offsets source) pat strategy) as Hin.
    { apply find_line_windows_elem. rewrite Hl. done. }
    rewrite H in Hin. by apply list_elem_of_singleton in Hin.
Qed.

(** ** Find and replace *)

Lemma split_str_length fuel s p : 1 ≤ length (split_str fuel s p).
Proof. destruct fuel; simpl; [done|]. destruct (find s p); simpl; lia. Qed.

Lemma count_zero s p : count_matches s p = 0 ↔ find s p = None.
Proof.
  unfold count_matches, pieces. cbn [split_str]. destruct (find s p); simpl; [|done].
  pose proof (split_str_length (String.length s) (skip (n + String.length p) s) p).
  split; [lia|done].
Qed.

(** One match: the first occurrence has none after it. *)
Lemma count_one s p :
  p ≠ "" → count_matches s p = 1 →
  ∃ a b, s = (a ++ p ++ b)%string ∧ contains b p = false ∧
    (∀ a' b', s = (a' ++ p ++ b')%string → String.length a ≤ String.length a') ∧
    ∀ new, replace_first s p new = (a ++ new ++ b)%string.
Proof.
  intros Hp. unfold count_matches, pieces. cbn [split_str].
  destruct (find s p) as [i|] eqn:E; [|done].
  pose proof E as E'. apply find_spec in E' as (a & b & -> & <-).
  assert (skip (String.length a + String.length p) (a ++ p ++ b) = b) as Hskip.
  { by rewrite <-str_length_app, <-str_app_assoc, skip_length. }
  rewrite Hskip. cbn [length]. intros Hlen.
  assert (find b p = None) as Hb.
  { destruct (String.length (a ++ p ++ b)) as [|n] eqn:El.
    - rewrite !str_length_app in El. destruct p; [done|]. simpl in El. lia.
    - cbn [split_str] in Hlen. destruct (find b p) as [j|] eqn:Ej; [|done]. cbn [length] in Hlen.
      pose proof (split_str_length n (skip (j + String.length p) b) p). lia. }
  exists a, b. split_and!; [done|by apply find_none| |].
  - intros a' b'. by apply find_first.
  - intros new. unfold replace_first. by rewrite E, substring_app, Hskip.
Qed.

Lemma str_is_empty_spec s : str_is_empty s = true ↔ s = "".
Proof. by destruct s. Qed.

(** Several matches: two that do not overlap. *)
Lemma count_many s p :
  p ≠ "" → 2 ≤ count_matches s p → ∃ a b c, s = (a ++ p ++ b ++ p ++ c)%string.
Proof.
  intros Hp. unfold count_matches, pieces. cbn [split_str].
  destruct (find s p) as [i|] eqn:E; [|simpl; lia].
  apply find_spec in E as (a & r & -> & <-). cbn [length].
  assert (skip (String.length a + String.length p) (a ++ p ++ r) = r) as Hskip.
  { by rewrite <-str_length_app, <-str_app_assoc, skip_length. }
  rewrite Hskip. intros Hlen. destruct (String.length (a ++ p ++ r)); simpl in Hlen; [lia|].
  destruct (find r p) as [j|] eqn:Ej; simpl in Hlen; [|lia].
  apply find_spec in Ej as (b & c & -> & _). by exists a, b, c.
Qed.

(** The windows that match, each once. *)
Definition matching_windows (source old : string) (strategy : MatchStrategy) (ws : list nat) : Prop :=
  NoDup ws ∧ ∀ w, w ∈ ws ↔
    w + length (text_lines (strip_newline old)) ≤ length (text_lines source) ∧
    window_matches (line_offsets source) (text_lines (strip_newline old)) strategy w = true.

Lemma windows_matching source old strategy :
  matching_windows source old strategy
    (find_line_windows (line_offsets source) (text_lines (strip_newline old)) strategy).
Proof.
  split.
  - unfold find_line_windows. case_match; [constructor|].
    apply NoDup_ListNoDup, List.NoDup_filter, NoDup_ListNoDup, NoDup_seq.
  - intros w. rewrite find_line_windows_elem.
    assert (length (line_offsets source) = length (text_lines source)) as ->
      by apply with_offsets_length.
    pose proof (text_lines_nonempty (strip_newline old)). tauto.
Qed.

(** What a refusal for ambiguity has found. *)
Definition ambiguous (source old : string) (strategy : MatchStrategy) (count : nat) : Prop :=
  2 ≤ count ∧
  match strategy with
  | Exact => count = count_matches source old ∧
             ∃ a b c, source = (a ++ old ++ b ++ old ++ c)%string
  | _ => ∃ ws, matching_windows source old strategy ws ∧ length ws = count
  end.

(** An edit changes one place, and guesses only where the match count cannot see
    it.  A successful edit either replaced the first literal occurrence of the
    snippet, after which there is no other, or there is no literal occurrence
    and it replaced the one window of lines that matches up to white space,
    trimmed if that is enough, every other line staying as it was.  An empty
    snippet is refused; not found means that no tolerance finds it; an
    ambiguity means two literal occurrences apart from each other, or as many
    matching windows as it counts. *)
Theorem find_and_replace_spec source old new :
  match find_and_replace source old new false with
  | Ok out =>
      old ≠ "" ∧ replacements out = 1 ∧
      match outcome_strategy out with
      | Exact =>
          ∃ a b, source = (a ++ old ++ b)%string ∧ outcome_content out = (a ++ new ++ b)%string ∧
            contains b old = false ∧
            ∀ a' b', source = (a' ++ old ++ b')%string → String.length a ≤ String.length a'
      | LineTrimmed =>
          contains source old = false ∧
          line_edit source old new (outcome_content out) LineTrimmed
      | WhitespaceNormalized =>
          contains source old = false ∧ no_window source old LineTrimmed ∧
          line_edit source old new (outcome_content out) WhitespaceNormalized
      end
  | Err EmptyPattern => old = ""
  | Err NotFound =>
      contains source old = false ∧ no_window source old LineTrimmed ∧
      no_window source old WhitespaceNormalized
  | Err (Ambiguous strategy count) => ambiguous source old strategy count
  end.
Proof.
  unfold find_and_replace. destruct (str_is_empty old) eqn:Hold.
  { by apply str_is_empty_spec. }
  assert (old ≠ "") as Hne by (by intros ->).
  assert (∀ strategy, let ws := find_line_windows (line_offsets source)
      (text_lines (strip_newline old)) strategy in
    2 ≤ length ws → strategy ≠ Exact → ambiguous source old strategy (length ws)) as Hamb.
  { intros strategy ws Hws Hs. split; [done|]. pose proof (windows_matching source old strategy).
    destruct strategy; [done|by exists ws..]. }
  destruct (Nat.ltb_spec 0 (count_matches source old)) as [Hc|Hc].
  - destruct (Nat.eqb_spec (count_matches source old) 1) as [H1|H1].
    + destruct (count_one _ _ Hne H1) as (a & b & Hs & Hb & Hf & Hr).
      cbn [outcome_strategy outcome_content replacements]. split_and!; [done..|].
      exists a, b. rewrite Hr. done.
    + assert (2 ≤ count_matches source old) as H2 by lia. split; [done|]. split; [done|].
      by apply count_many.
  - assert (contains source old = false) as Hcf by (apply find_none, count_zero; lia).
    cbn [try_strategies].
    pose proof (Hamb LineTrimmed) as Ha1. pose proof (Hamb WhitespaceNormalized) as Ha2.
    destruct (find_line_windows _ _ LineTrimmed) as [|w [|w2 ws]] eqn:E1.
    + assert (no_window source old LineTrimmed) as Hn1 by by apply windows_nil.
      destruct (find_line_windows _ _ WhitespaceNormalized) as [|w [|w2 ws]] eqn:E2.
      * split_and!; [done|done|by apply windows_nil].
      * cbn [outcome_strategy outcome_content replacements]. split_and!; [done..|].
        by apply windows_one.
      * apply Ha2; [simpl; lia|done].
    + cbn [outcome_strategy outcome_content replacements]. split_and!; [done..|].
      by apply windows_one.
    + apply Ha1; [simpl; lia|done].
Qed.

(** ** The first phase only reads *)

(** Whatever happens, the disk is as before; on a healthy store every reader
    sees the same. *)
Definition only_reads {R} (m : ContentStore → ContentStore * R) : Prop :=
  ∀ st, disk (m st).1 = disk st ∧ (healthy st → healthy (m st).1 ∧ same_view st (m st).1).

Lemma same_view_refl st : same_view st st.
Proof. done. Qed.

Lemma reads_nothing {R} (f : ContentStore → R) : only_reads (λ st, (st, f st)).
Proof. by intros st. Qed.

Lemma reads_ret {A} (a : A) : only_reads (mret a : StoreM A).
Proof. by intros st. Qed.

Lemma reads_bind {A B} (m : StoreM A) (k : A → StoreM B) :
  only_reads m → (∀ a, only_reads (k a)) → only_reads (m ≫= k).
Proof.
  intros Hm Hk st. unfold mbind, storem_bind. specialize (Hm st).
  destruct (m st) as [st1 [a|e]]; [|done]. destruct Hm as [Hd Hv], (Hk a st1) as [Hd' Hv'].
  split; [by rewrite Hd'|]. intros Hh. destruct (Hv Hh) as [Hh1 Hs1], (Hv' Hh1) as [Hh2 Hs2].
  split; [done|]. by eapply same_view_trans.
Qed.

Lemma reads_attempt {A} (m : StoreM A) : only_reads m → only_reads (attempt m).
Proof. intros Hm st. specialize (Hm st). unfold attempt. by destruct (m st) as [st1 [a|e]]. Qed.

Lemma reads_load t : only_reads (load_manifest t).
Proof.
  intros st. split.
  - unfold load_manifest, mbind, storem_bind, gets. destruct (manifests st !! t); [done|].
    unfold load_manifest_from_disk_uncached. by destruct (manifest_files (disk st) !! t) as [[m|]|].
  - intros Hh. destruct (load_loaded st t Hh) as (st' & -> & ? & ?). done.
Qed.

Lemma patch_reads_bind {A B} (m : PatchM A) (k : A → PatchM B) :
  only_reads m → (∀ a, only_reads (k a)) → only_reads (m ≫= k).
Proof.
  intros Hm Hk st. unfold mbind, patchm_bind. specialize (Hm st).
  destruct (m st) as [st1 [a|e]]; [|done]. destruct Hm as [Hd Hv], (Hk a st1) as [Hd' Hv'].
  split; [by rewrite Hd'|]. intros Hh. destruct (Hv Hh) as [Hh1 Hs1], (Hv' Hh1) as [Hh2 Hs2].
  split; [done|]. by eapply same_view_trans.
Qed.

Lemma reads_or_else {A} (m : StoreM A) f : only_reads m → only_reads (or_else m f).
Proof. intros Hm st. specialize (Hm st). unfold or_else. by destruct (m st) as [st1 [a|e]]. Qed.

#[export] Hint Resolve reads_ret reads_attempt reads_load reads_or_else : store.

Ltac reads_tac := repeat first
  [ progress intros | solve [auto with store] | apply patch_reads_bind | apply reads_bind
  | apply reads_attempt | apply reads_or_else
  | match goal with |- only_reads (match ?x with _ => _ end) => destruct x end
  | by apply (reads_nothing (λ _, _)) ].

Lemma reads_resolve sid name : only_reads (resolve_name_with_root sid name).
Proof. unfold resolve_name_with_root, resolve_name. reads_tac. Qed.

Lemma reads_read handle : only_reads (read_string handle).
Proof.
  unfold read_string. apply reads_bind; [|intros a; reads_tac].
  intros st. unfold read. destruct (_ <? 2); [done|]. by destruct (blobs (disk st) !! _).
Qed.

Lemma reads_visibility override sid handle : only_reads (visibility_for override sid handle).
Proof. unfold visibility_for, current_visibility. reads_tac. Qed.

#[export] Hint Resolve reads_resolve reads_read reads_visibility : store.

Lemma reads_entry sid name : only_reads (read_entry sid name).
Proof. unfold read_entry. reads_tac. Qed.
#[export] Hint Resolve reads_entry : store.

Lemma reads_op sid override op : only_reads (resolve_op sid override op).
Proof. unfold resolve_op. reads_tac. Qed.
#[export] Hint Resolve reads_op : store.

Lemma reads_ops sid override ops : only_reads (resolve_ops sid override ops).
Proof. induction ops as [|op ops IH]; cbn [resolve_ops]; reads_tac. Qed.

(** ** The two phases together *)

Section Atomic.
Context (sha256_hex : string → string).

(** Every blob is stored under its own digest. *)
Definition honest (st : ContentStore) : Prop :=
  ∀ k c, blobs (disk st) !! k = Some c → k = sha256_hex c.

(** What a session reads under a name. *)
Definition entry_text (st : ContentStore) (sid name : string) : option string :=
  h ← lookup_name st sid name; blobs (disk st) !! blob_key h.

Lemma lookup_name_same st st' s n : same_view st st' → lookup_name st' s n = lookup_name st s n.
Proof.
  intros [_ Hl]. unfold lookup_name. rewrite !Hl. by destruct (other_root s (loaded st s));
    simpl; rewrite ?Hl.
Qed.

Lemma entry_text_same st st' s n : same_view st st' → entry_text st' s n = entry_text st s n.
Proof. intros H. unfold entry_text. by rewrite (lookup_name_same st st'), (proj1 H). Qed.

Lemma read_entry_ok st sid name st' h c :
  healthy st → read_entry sid name st = (st', Ok (h, c)) → entry_text st sid name = Some c.
Proof.
  intros Hh. unfold read_entry, or_else, mbind, patchm_bind.
  destruct (resolve_loaded st sid name Hh) as (st1 & -> & Hb & _).
  unfold entry_text. destruct (lookup_name st sid name) as [h'|]; [|done].
  unfold read_string, read, mbind, storem_bind. destruct (_ <? 2); [done|].
  rewrite Hb. destruct (blobs (disk st) !! blob_key h') as [c'|] eqn:E; [|done].
  destruct (valid_utf8 c'); [|done]. intros [= _ <- <-]. exact E.
Qed.

(** What one operation makes of the store. *)
Definition op_name (op : V4aOp) : string :=
  match op with Update n _ => n | Add n _ => n | Delete n => n | Move n _ => n end.

Definition op_content (st : ContentStore) (sid : string) (op : V4aOp) (c : string) : Prop :=
  match op with
  | Update n hunks => ∃ old, entry_text st sid n = Some old ∧ apply_hunks n old hunks = Ok c
  | Add _ content => c = content
  | Delete _ | Move _ _ => False
  end.

Definition resolved (st : ContentStore) (sid : string) (op : V4aOp) (p : PendingEntry) : Prop :=
  pending_name p = op_name op ∧ op_content st sid op (pending_content p).

Lemma resolve_op_ok st sid override op st' p :
  healthy st → resolve_op sid override op st = (st', Ok p) → resolved st sid op p.
Proof.
  intros Hh. destruct op as [n hunks|n c|n|n n']; simpl; [| |done..].
  - unfold mbind, patchm_bind. destruct (read_entry sid n st) as [st1 [[h c]|e]] eqn:E; [|done].
    apply read_entry_ok in E; [|done]. cbn [fst snd].
    destruct (apply_hunks n c hunks) as [new|e] eqn:Ea; [|done].
    destruct (visibility_for override sid h st1) as [st2 [v|e]]; [|done].
    intros [= _ <-]. split; [done|]. exists c. by split.
  - intros [= _ <-]. by split.
Qed.

Lemma resolve_ops_ok sid override ops st st' ps :
  healthy st → resolve_ops sid override ops st = (st', Ok ps) → Forall2 (resolved st sid) ops ps.
Proof.
  revert st st' ps. induction ops as [|op ops IH]; intros st st' ps Hh; cbn [resolve_ops].
  { intros [= _ <-]. constructor. }
  unfold mbind, patchm_bind.
  pose proof (proj2 (reads_op sid override op st) Hh) as [Hh1 Hs1].
  destruct (resolve_op sid override op st) as [st1 [p|e]] eqn:E; [|done].
  apply resolve_op_ok in E; [|done]. cbn [fst] in Hh1, Hs1.
  destruct (resolve_ops sid override ops st1) as [st2 [ps'|e]] eqn:E2; [|done].
  intros [= _ <-]. apply IH in E2; [|done]. constructor; [done|].
  eapply Forall2_impl; [exact E2|]. intros op' p' [Hn Hc]. split; [done|].
  destruct op'; try done. destruct Hc as (old & Ho & ?). exists old.
  by rewrite (entry_text_same st st1) in Ho.
Qed.

(** Storing an entry whose digest is not taken by another content: the name is
    read back, the other names stay, and its blob is the only new one. *)
Lemma put_entry_ok st sid n c v :
  healthy st → (∀ c', blobs (disk st) !! sha256_hex c = Some c' → c' = c) →
  ∃ st', put_entry sha256_hex sid n c v st = (st', Ok (compute_handle sha256_hex c)) ∧
    healthy st' ∧ blobs (disk st') = <[sha256_hex c := c]> (blobs (disk st)) ∧
    lookup_name st' sid n = Some (compute_handle sha256_hex c) ∧
    (∀ s n', n' ≠ n → lookup_name st' s n' = lookup_name st s n').
Proof.
  intros Hh Hfree. set (h := compute_handle sha256_hex c).
  destruct (write_healthy sha256_hex st c Hh Hfree) as (st1 & E1 & Hh1 & Hl1 & Hb1).
  destruct (register_loaded st1 sid n h v Hh1) as (st2 & E2 & Hh2 & Hb2 & Hn).
  exists st2. unfold put_entry, or_else, mbind, patchm_bind. rewrite E1. fold h. rewrite E2.
  assert (blobs (disk st1) = <[sha256_hex c := c]> (blobs (disk st))) as Hblobs.
  { revert E1. unfold write. rewrite blob_key_handle.
    destruct (blobs (disk st) !! sha256_hex c) as [c'|] eqn:E.
    - intros [= <-]. rewrite insert_id; [done|]. rewrite E. f_equal. by apply Hfree.
    - unfold next_io. rewrite (proj1 Hh). by intros [= <-]. }
  split_and!; try done.
  - by rewrite Hb2.
  - unfold lookup_name. destruct (Hn sid) as [_ ->]. unfold publishes_to.
    rewrite String.eqb_refl. cbn [orb]. by rewrite lookup_insert_eq.
  - intros s n' Hne.
    assert (∀ t, names (loaded st2 t) !! n' = names (loaded st t) !! n') as Hsame.
    { intros t. destruct (Hn t) as [_ ->]. rewrite !Hl1. destruct (publishes_to _ _ _ t); [|done].
      by rewrite lookup_insert_ne. }
    unfold lookup_name, other_root. rewrite !Hsame, (proj1 (Hn s)), Hl1.
    destruct (names (loaded st s) !! n'); [done|].
    destruct (manifest_root (loaded st s)) as [r|]; simpl; [|done].
    destruct (r =? s)%string; simpl; [done|]. by rewrite Hsame.
Qed.

Lemma entry_text_put st st' s n :
  blobs (disk st) ⊆ blobs (disk st') → lookup_name st' s n = lookup_name st s n →
  ∀ c, entry_text st s n = Some c → entry_text st' s n = Some c.
Proof.
  unfold entry_text. intros Hsub Hl c (h & Hh & Hc)%bind_Some. rewrite Hl, Hh. simpl.
  by eapply lookup_weaken.
Qed.

(** The digests of the contents to be stored are their own, among the blobs and
    among themselves. *)
Record no_clash (m : gmap string string) (pending : list PendingEntry) : Prop := {
  nc_stored p c : p ∈ pending → m !! sha256_hex (pending_content p) = Some c → c = pending_content p;
  nc_pending p q : p ∈ pending → q ∈ pending →
    sha256_hex (pending_content p) = sha256_hex (pending_content q) → pending_content p = pending_content q;
}.

Lemma commit_entries_ok sid pending st :
  healthy st → no_clash (blobs (disk st)) pending → NoDup (pending_name <$> pending) →
  ∃ st', commit sha256_hex sid pending st
         = (st', Ok (map (λ p, compute_handle sha256_hex (pending_content p)) pending)) ∧
    healthy st' ∧ blobs (disk st) ⊆ blobs (disk st') ∧
    (∀ p, p ∈ pending → entry_text st' sid (pending_name p) = Some (pending_content p)) ∧
    (∀ s n, n ∉ pending_name <$> pending → lookup_name st' s n = lookup_name st s n).
Proof.
  revert st. induction pending as [|p pending IH]; intros st Hh [Hs Hp'] Hnd.
  { exists st. split_and!; try done. by intros p ?%not_elem_of_nil. }
  rewrite fmap_cons in Hnd. apply NoDup_cons in Hnd as [Hp Hnd].
  destruct (put_entry_ok st sid (pending_name p) (pending_content p) (pending_visibility p) Hh)
    as (st1 & E1 & Hh1 & Hb1 & Hl1 & Ho1); [intros c; apply Hs; left|].
  assert (no_clash (blobs (disk st1)) pending) as Hnc1.
  { split; [|intros q r Hq Hr; apply Hp'; by right]. intros q c Hq. rewrite Hb1.
    intros [[He <-]|[_ Hc]]%lookup_insert_Some; [|by apply (Hs q); [right|]].
    apply Hp'; [left|by right|done]. }
  assert (blobs (disk st) ⊆ blobs (disk st1)) as Hsub.
  { rewrite Hb1. apply map_subseteq_spec. intros k c Hk. rewrite lookup_insert. case_decide as E; [|done].
    subst k. f_equal. symmetry. apply (Hs p); [left|done]. }
  destruct (IH st1 Hh1 Hnc1 Hnd) as (st2 & E2 & Hh2 & Hb2 & Hr2 & Ho2).
  exists st2. cbn [commit]. unfold mbind, patchm_bind. rewrite E1, E2. split_and!; try done.
  - by etrans.
  - intros q [->|Hq]%elem_of_cons; [|by apply Hr2].
    eapply entry_text_put; [exact Hb2|by apply Ho2|].
    unfold entry_text. rewrite Hl1. simpl. rewrite blob_key_handle, Hb1. apply lookup_insert_eq.
  - intros s n. rewrite fmap_cons. intros [Hne Hn]%not_elem_of_cons.
    rewrite Ho2 by done. by apply Ho1.
Qed.

Lemma check_ops_nodup seen ops :
  check_ops seen ops = None → NoDup (op_name <$> ops) ∧ ∀ n, n ∈ op_name <$> ops → n ∉ seen.
Proof.
  revert seen. induction ops as [|op ops IH]; intros seen.
  { intros _. split; [constructor|]. by intros n ?%not_elem_of_nil. }
  assert (∀ n, (if existsb (String.eqb n) seen then Some (DuplicateName n)
                else check_ops (n :: seen) ops) = None →
    NoDup (n :: (op_name <$> ops)) ∧ ∀ m, m ∈ n :: (op_name <$> ops) → m ∉ seen) as Hgo.
  { intros n. destruct (existsb _ seen) eqn:E; [done|]. intros H. apply IH in H as [Hnd Hs].
    split.
    - apply NoDup_cons. split; [|done]. intros Hn. apply (Hs n Hn). by left.
    - intros m [->|Hm]%elem_of_cons Hin.
      + assert (existsb (String.eqb n) seen = true) as E'; [|congruence].
        apply existsb_true. exists n. by rewrite String.eqb_refl.
      + apply (Hs m Hm). by right. }
  destruct op as [n hunks|n c|n|n n']; cbn [check_ops]; [by apply Hgo| |done..].
  destruct (valid_content_name n); [by apply Hgo|done].
Qed.

(** Two contents with one digest: one that a section of the patch computes, and one
    that is stored or that another section computes. *)
Definition clash (st : ContentStore) (sid : string) (ops : list V4aOp) : Prop :=
  ∃ op a b, op ∈ ops ∧ op_content st sid op a ∧ a ≠ b ∧ sha256_hex a = sha256_hex b ∧
    ((∃ k, blobs (disk st) !! k = Some b) ∨ ∃ op', op' ∈ ops ∧ op_content st sid op' b).

(** Without a collision there is none among the entries. *)
Lemma clash_or_not st sid ops ps :
  honest st → Forall2 (resolved st sid) ops ps → clash st sid ops ∨ no_clash (blobs (disk st)) ps.
Proof.
  intros Hho E.
  assert (∀ p, p ∈ ps → ∃ op, op ∈ ops ∧ op_content st sid op (pending_content p)) as Hop.
  { intros p [i Hi]%list_elem_of_lookup. destruct (Forall2_lookup_r _ _ _ _ _ E Hi) as (op & Ho & _ & Hc).
    exists op. split; [by eapply list_elem_of_lookup_2|done]. }
  destruct (decide (Forall (λ p, default (pending_content p)
    (blobs (disk st) !! sha256_hex (pending_content p)) = pending_content p) ps)) as [H1|H1].
  - destruct (decide (Forall (λ p, Forall (λ q, sha256_hex (pending_content p) = sha256_hex (pending_content q) →
      pending_content p = pending_content q) ps) ps)) as [H2|H2].
    + right. rewrite Forall_forall in H1, H2. split.
      * intros p c Hp Hc. specialize (H1 p Hp). by rewrite Hc in H1.
      * intros p q Hp Hq. specialize (H2 p Hp). rewrite Forall_forall in H2. by apply H2.
    + left. apply not_Forall_Exists, Exists_exists in H2 as (p & Hp & H2); [|apply _].
      apply not_Forall_Exists, Exists_exists in H2 as (q & Hq & H2); [|apply _].
      destruct (Hop p Hp) as (o1 & Ho1 & Hc1), (Hop q Hq) as (o2 & Ho2 & Hc2).
      destruct (decide (sha256_hex (pending_content p) = sha256_hex (pending_content q))) as [He|He]; [|by destruct H2; intros ?].
      exists o1, (pending_content p), (pending_content q). split_and!; [done..|by intros ?; apply H2|done|right; by exists o2].
  - left. apply not_Forall_Exists, Exists_exists in H1 as (p & Hp & H1); [|apply _]. cbn in H1.
    destruct (Hop p Hp) as (o1 & Ho1 & Hc1).
    destruct (blobs (disk st) !! sha256_hex (pending_content p)) as [c|] eqn:Ec; [|by destruct H1].
    exists o1, (pending_content p), c. split_and!; [done..|intros E1; by destruct H1|by apply Hho|left; by eexists].
Qed.

(** C21: A multi-entry patch is all or nothing.  On a store without failures, whose
    blobs are their own digests, and unless a content the patch computes has the
    digest of another content, stored or computed: a patch that is refused, for
    whatever reason, has left every file as it was; a patch that is accepted has
    given each entry it names the content its section computes from what the
    session read under that name before, and no session sees a change under any
    other name. *)
Theorem v4a_all_or_nothing sid patch override st :
  healthy st → honest st →
  (∃ text ops, patch = Some text ∧ parse text = Some (Ok ops) ∧ clash st sid ops) ∨
  match run_v4a sha256_hex sid patch override st with
  | (st', Err _) => disk st' = disk st ∧ same_view st st'
  | (st', Ok _) =>
      ∃ text ops, patch = Some text ∧ parse text = Some (Ok ops) ∧
        (∀ op, op ∈ ops → ∃ c, op_content st sid op c ∧ entry_text st' sid (op_name op) = Some c) ∧
        (∀ s n, n ∉ op_name <$> ops → lookup_name st' s n = lookup_name st s n) ∧
        blobs (disk st) ⊆ blobs (disk st')
  end.
Proof.
  intros Hh Hho. unfold run_v4a, refuse. destruct patch as [text|]; [|by right].
  unfold nonblank. simpl. destruct (str_is_empty (trim text)); [by right|].
  destruct (parse text) as [[ops|e]|] eqn:Hparse; [|by right|by right].
  destruct (check_ops [] ops) as [e|] eqn:Hcheck; [by right|].
  apply check_ops_nodup in Hcheck as [Hnd _]. unfold mbind, patchm_bind.
  pose proof (reads_ops sid override ops st) as [Hd Hs]. specialize (Hs Hh) as [Hh1 Hs1].
  destruct (resolve_ops sid override ops st) as [st1 [ps|e]] eqn:E; [|by right].
  apply resolve_ops_ok in E; [|done]. cbn [fst] in *.
  assert (op_name <$> ops = pending_name <$> ps) as Hnames.
  { clear -E. induction E as [|op p ops ps [Hn _] _ IH]; [done|]. rewrite !fmap_cons. congruence. }
  destruct (clash_or_not st sid ops ps Hho E) as [Hc|Hnc]; [left; by exists text, ops|right].
  rewrite <-Hd in Hnc.
  destruct (commit_entries_ok sid ps st1 Hh1 Hnc) as (st2 & -> & Hh2 & Hb2 & Hr2 & Ho2);
    [by rewrite <-Hnames|].
  exists text, ops. split_and!; [done|done| | |by rewrite <-Hd].
  - intros op Hop. apply list_elem_of_lookup in Hop as [i Hi].
    destruct (Forall2_lookup_l _ _ _ _ _ E Hi) as (p & Hp & Hn & Hc).
    exists (pending_content p). split; [done|]. rewrite <-Hn. apply Hr2.
    by eapply list_elem_of_lookup_2.
  - intros s n Hn. rewrite Ho2 by (by rewrite <-Hnames). by apply lookup_name_same.
Qed.
End Atomic.

(** ** Writing a patch and reading it back *)

(** A section as its author sees it: marked lines in hunks, or added lines. *)
Inductive PatchSection : Type :=
| UpdateSection (name : string) (bodies : list (list (ascii * string)))
| AddSection (name : string) (lines : list string).

Definition hunk_of (body : list (ascii * string)) : Hunk :=
  {| old_block := join NL (old_side body); new_block := join NL (new_side body) |}.

Definition section_op (s : PatchSection) : V4aOp :=
  match s with
  | UpdateSection name bodies => Update name (map hunk_of bodies)
  | AddSection name lines => Add name (join NL lines)
  end.

Definition body_lines (body : list (ascii * string)) : list string :=
  map (λ e, String e.1 e.2) body.

Definition section_lines (s : PatchSection) : list string :=
  match s with
  | UpdateSection name bodies =>
      (UPDATE ++ name)%string :: (bodies ≫= (λ body, "@@" :: body_lines body))
  | AddSection name lines => (ADD ++ name)%string :: map (λ l, ("+" ++ l)%string) lines
  end.

Definition print_patch (sections : list PatchSection) : string :=
  join NL ([BEGIN] ++ (sections ≫= section_lines) ++ [END_]).

(** One line of text: no newline, and no carriage return to be dropped. *)
Definition one_line (s : string) : bool :=
  negb (str_existsb (λ c, is_newline c || Ascii.eqb c "013"%char) s).

Definition body_line_ok (e : ascii * string) : bool :=
  one_line e.2 && negb (trim e.2 =? END_)%string
  && (Ascii.eqb e.1 " "%char || Ascii.eqb e.1 "+"%char || Ascii.eqb e.1 "-"%char).

Definition section_ok (s : PatchSection) : bool :=
  match s with
  | UpdateSection name bodies =>
      one_line name && (trim name =? name)%string
      && negb (bool_decide (bodies = []))
      && forallb (λ body, negb (bool_decide (body = [])) && forallb body_line_ok body) bodies
  | AddSection name lines =>
      one_line name && (trim name =? name)%string && forallb one_line lines
  end.

Lemma trim_char c s : is_whitespace c = false → trim (String c s) ≠ END_ ∨ c = "*"%char.
Proof.
  intros Hc. destruct (Ascii.eqb_spec c "*"%char) as [->|Hne]; [by right|left].
  unfold trim. simpl. rewrite Hc. simpl. rewrite Hc, andb_false_r. intros [= ? _]. done.
Qed.

Lemma trim_space s : trim (String " "%char s) = trim s.
Proof. done. Qed.

Lemma body_line_not_end e : body_line_ok e = true → (trim (String e.1 e.2) =? END_)%string = false.
Proof.
  unfold body_line_ok. rewrite !andb_true_iff, !orb_true_iff, negb_true_iff, !Ascii.eqb_eq.
  intros [[_ Hend] [[->| ->]| ->]]; [by rewrite trim_space| |];
    apply String.eqb_neq; [destruct (trim_char "+" e.2) as [?|?]|destruct (trim_char "-" e.2) as [?|?]];
    done.
Qed.

(** One marked line. *)
Lemma parse_body_line e rest sec ops :
  sec_kind sec = SectionUpdate → body_line_ok e = true →
  parse_body (String e.1 e.2 :: rest) (Some sec) ops
  = parse_body rest (Some (push_cur sec e.1 e.2)) ops.
Proof.
  intros Hk He. cbn [parse_body]. rewrite (body_line_not_end e He).
  unfold body_line_ok in He. rewrite !andb_true_iff, !orb_true_iff, !Ascii.eqb_eq in He.
  destruct He as [_ [[->| ->]| ->]]; cbn [strip_prefix starts_with String.prefix];
    unfold push_body; rewrite Hk; reflexivity.
Qed.

Definition push_all (sec : SectionBuilder) (body : list (ascii * string)) : SectionBuilder :=
  fold_left (λ sec e, push_cur sec e.1 e.2) body sec.

Lemma push_all_eq sec body :
  push_all sec body =
  {| sec_kind := sec_kind sec; sec_name := sec_name sec; sec_hunks := sec_hunks sec;
     sec_cur := sec_cur sec ++ body; sec_add_lines := sec_add_lines sec |}.
Proof.
  revert sec. induction body as [|[m t] body IH]; intros sec; simpl.
  - rewrite app_nil_r. by destruct sec.
  - rewrite IH. simpl. by rewrite <-app_assoc.
Qed.

Lemma parse_body_lines body rest sec ops :
  sec_kind sec = SectionUpdate → forallb body_line_ok body = true →
  parse_body (body_lines body ++ rest) (Some sec) ops = parse_body rest (Some (push_all sec body)) ops.
Proof.
  revert sec. induction body as [|e body IH]; intros sec Hk; [done|]. cbn [forallb].
  intros [He Hb]%andb_true_iff.
  change (body_lines (e :: body) ++ rest) with (String e.1 e.2 :: (body_lines body ++ rest)).
  rewrite parse_body_line by done. by apply IH.
Qed.

(** A section that has read whole hunks. *)
Definition hunks_read (name : string) (done_ : list (list (ascii * string)))
    (cur : list (ascii * string)) : SectionBuilder :=
  {| sec_kind := SectionUpdate; sec_name := name; sec_hunks := map hunk_of done_; sec_cur := cur;
     sec_add_lines := [] |}.

Lemma close_hunks_read name bodies cur :
  cur ≠ [] → close_hunk (hunks_read name bodies cur) = hunks_read name (bodies ++ [cur]) [].
Proof.
  intros Hc. destruct cur as [|e cur]; [done|]. unfold close_hunk, hunks_read. simpl.
  by rewrite map_app.
Qed.

Lemma parse_hunks name bodies prev cur rest ops :
  forallb (λ body, negb (bool_decide (body = [])) && forallb body_line_ok body) bodies = true →
  (cur = [] → prev = []) → (bodies ≠ [] ∨ cur ≠ []) →
  ∃ all last, prev ++ (if decide (cur = []) then [] else [cur]) ++ bodies = all ++ [last] ∧
    last ≠ [] ∧
    parse_body ((bodies ≫= (λ body, "@@" :: body_lines body)) ++ rest)
      (Some (hunks_read name prev cur)) ops
    = parse_body rest (Some (hunks_read name all last)) ops.
Proof.
  revert prev cur. induction bodies as [|body bodies IH]; intros prev cur Hok Hprev Hne.
  - destruct Hne as [?|Hc]; [done|]. exists prev, cur. rewrite decide_False by done.
    rewrite app_nil_r. done.
  - cbn [forallb] in Hok. apply andb_true_iff in Hok as [[Hb Hlines]%andb_true_iff Hok].
    apply negb_true_iff, bool_decide_eq_false in Hb.
    set (prev' := prev ++ (if decide (cur = []) then [] else [cur])).
    assert (close_hunk (hunks_read name prev cur) = hunks_read name prev' []) as Hclose.
    { unfold prev'. case_decide as Hc; [subst; by rewrite app_nil_r|by apply close_hunks_read]. }
    destruct (IH prev' body Hok) as (all & lst & Heq & Hl & Hrun); [done|by right|].
    rewrite decide_False in Heq by done.
    exists all, lst. split; [|split; [done|]].
    + unfold prev' in Heq. by rewrite <-app_assoc in Heq.
    + change ((body :: bodies) ≫= ?f) with (f body ++ (bodies ≫= f)). cbn beta.
      rewrite <-app_assoc. change (("@@" :: ?l) ++ ?r) with ("@@" :: (l ++ r)).
      transitivity (parse_body (body_lines body ++ (bodies ≫= (λ body, "@@" :: body_lines body)) ++ rest)
        (Some (close_hunk (hunks_read name prev cur))) ops); [reflexivity|].
      rewrite Hclose, parse_body_lines by done. rewrite push_all_eq. exact Hrun.
Qed.

Lemma trim_end_marker c s :
  is_whitespace c = false → trim (String c s) = END_ → ∃ r, String c s = (END_ ++ r)%string.
Proof.
  intros Hc Ht. unfold trim in Ht. cbn [trim_start_by] in Ht. rewrite Hc in Ht.
  destruct (trim_end_by_spec is_whitespace (String c s)) as (r & Hr & _). exists r.
  by rewrite <-Ht.
Qed.

Lemma header_not_end p name :
  p = UPDATE ∨ p = ADD → (trim (p ++ name) =? END_)%string = false.
Proof.
  intros Hp. apply String.eqb_neq. intros H.
  destruct Hp as [-> | ->]; apply trim_end_marker in H as [r Hr]; done.
Qed.

Lemma open_update name rest current ops ops' :
  flush current ops = Ok ops' →
  parse_body ((UPDATE ++ name)%string :: rest) current ops
  = parse_body rest (Some (section_start SectionUpdate (trim name))) ops'.
Proof.
  intros Hf. cbn [parse_body]. rewrite header_not_end by auto.
  rewrite (proj2 (strip_prefix_some (UPDATE ++ name) UPDATE name)) by done. by rewrite Hf.
Qed.

Lemma open_add name rest current ops ops' :
  flush current ops = Ok ops' →
  parse_body ((ADD ++ name)%string :: rest) current ops
  = parse_body rest (Some (section_start SectionAdd (trim name))) ops'.
Proof.
  intros Hf. cbn [parse_body]. rewrite header_not_end by auto.
  assert (strip_prefix (ADD ++ name) UPDATE = None) as -> by reflexivity.
  rewrite (proj2 (strip_prefix_some (ADD ++ name) ADD name)) by done. by rewrite Hf.
Qed.

Lemma parse_add_lines name lines read rest ops :
  parse_body (map (λ l, ("+" ++ l)%string) lines ++ rest)
    (Some {| sec_kind := SectionAdd; sec_name := name; sec_hunks := []; sec_cur := [];
             sec_add_lines := read |}) ops
  = parse_body rest (Some {| sec_kind := SectionAdd; sec_name := name; sec_hunks := []; sec_cur := [];
             sec_add_lines := read ++ lines |}) ops.
Proof.
  revert read. induction lines as [|l lines IH]; intros read; [by rewrite app_nil_r|].
  assert (∀ sec more, parse_body (String "+"%char l :: more) (Some sec) ops
    = match push_body sec (String "+"%char l) with
      | Some (Ok sec) => parse_body more (Some sec) ops
      | Some (Err e) => Some (Err e)
      | None => None
      end) as Hline.
  { intros sec more. cbn [parse_body]. rewrite (proj2 (String.eqb_neq _ _)); [reflexivity|].
    by destruct (trim_char "+" l). }
  cbn [map app]. change ("+" ++ l)%string with (String "+"%char l). rewrite Hline.
  unfold push_body. cbn [sec_kind sec_name sec_hunks sec_cur sec_add_lines].
  rewrite (proj2 (strip_prefix_some (String "+" l) "+" l)) by done. cbn [from_option id].
  rewrite IH. by rewrite <-app_assoc.
Qed.

Lemma parse_section s rest current ops ops' :
  section_ok s = true → flush current ops = Ok ops' →
  ∃ sec, parse_body (section_lines s ++ rest) current ops = parse_body rest (Some sec) ops' ∧
    finish sec = Ok (section_op s).
Proof.
  intros Hok Hf. destruct s as [name bodies|name lines]; cbn [section_ok] in Hok.
  - rewrite !andb_true_iff, negb_true_iff, bool_decide_eq_false, str_eqb_spec in Hok.
    destruct Hok as [[[_ Ht] Hne] Hb]. cbn [section_lines app].
    rewrite (open_update _ _ _ _ _ Hf), Ht.
    destruct (parse_hunks name bodies [] [] rest ops' Hb) as (all & lst & Heq & Hl & Hrun);
      [done|by left|].
    rewrite decide_True in Heq by done. cbn [app] in Heq.
    exists (hunks_read name all lst). split; [exact Hrun|].
    unfold finish. cbn [sec_kind hunks_read]. rewrite close_hunks_read, <-Heq by done.
    cbn [sec_hunks hunks_read sec_name]. by destruct bodies.
  - rewrite !andb_true_iff, str_eqb_spec in Hok. destruct Hok as [[_ Ht] _].
    cbn [section_lines app]. rewrite (open_add _ _ _ _ _ Hf), Ht.
    eexists. split; [apply (parse_add_lines name lines [] rest ops')|done].
Qed.

Lemma parse_sections sections current ops ops' :
  Forall (λ s, section_ok s = true) sections → flush current ops = Ok ops' →
  ops' ++ map section_op sections ≠ [] →
  parse_body ((sections ≫= section_lines) ++ [END_]) current ops
  = Some (Ok (ops' ++ map section_op sections)).
Proof.
  intros HF. revert current ops ops'. induction HF as [|s sections Hs HF IH];
    intros current ops ops' Hf Hne.
  - cbn. rewrite app_nil_r in *. unfold parse_end. rewrite Hf. by destruct ops'.
  - change ((s :: sections) ≫= section_lines) with (section_lines s ++ (sections ≫= section_lines)).
    rewrite <-app_assoc.
    destruct (parse_section s ((sections ≫= section_lines) ++ [END_]) current ops ops' Hs Hf)
      as (sec & -> & Hfin).
    rewrite (IH _ _ (ops' ++ [section_op s])).
    + by rewrite <-app_assoc.
    + unfold flush. by rewrite Hfin.
    + by destruct ops'.
Qed.

(** *** The text and its lines *)

Lemma one_line_spec s :
  one_line s = true ↔ no_newline s ∧ str_existsb (Ascii.eqb "013"%char) s = false.
Proof.
  unfold one_line, no_newline. rewrite negb_true_iff. induction s as [|c s IH]; simpl; [done|].
  rewrite !orb_false_iff, IH. unfold is_newline at 1. rewrite (Ascii.eqb_sym c "013"). tauto.
Qed.

Lemma strip_cr_id s : str_existsb (Ascii.eqb "013"%char) s = false → strip_cr s = s.
Proof.
  unfold strip_cr. assert (str_existsb (Ascii.eqb "013"%char) s = false →
    strip_suffix_char s "013"%char = None) as H; [|by intros ->%H].
  induction s as [|c s IH]; [done|]. cbn [str_existsb strip_suffix_char].
  intros [Hc Hs]%orb_false_iff. rewrite (IH Hs). destruct (str_is_empty s); [|done].
  by rewrite Ascii.eqb_sym, Hc.
Qed.

Definition plain_line (s : string) : Prop := one_line s = true.

Lemma patch_lines_join l :
  Forall plain_line l → last l ≠ Some "" → l ≠ [] → patch_lines (join NL l) = l.
Proof.
  intros HF Hlast Hne. unfold patch_lines, text_lines.
  assert (Forall (λ s, str_existsb is_newline s = false) l) as Hnl.
  { eapply Forall_impl; [exact HF|]. intros s Hs. by apply one_line_spec. }
  unfold NL. rewrite (split_join is_newline "010"%char) by done. clear Hnl Hne.
  induction HF as [|x l Hx HF IH]; [done|].
  assert (strip_cr x = x) as Hcr by (apply strip_cr_id; by apply one_line_spec).
  destruct l as [|y l].
  - destruct x; [done|]. cbn [rust_lines str_is_empty map]. by rewrite Hcr.
  - change (rust_lines (x :: y :: l)) with (strip_cr x :: rust_lines (y :: l)).
    cbn [map]. rewrite !Hcr. f_equal. by apply IH.
Qed.

Lemma plain_app x s : plain_line x → plain_line s → plain_line (x ++ s)%string.
Proof.
  unfold plain_line, one_line. rewrite !negb_true_iff, str_existsb_app. by intros -> ->.
Qed.

Lemma section_lines_plain s : section_ok s = true → Forall plain_line (section_lines s).
Proof.
  destruct s as [name bodies|name lines]; cbn [section_ok section_lines].
  - rewrite !andb_true_iff. intros [[[Hn _] _] Hb]. constructor; [by apply plain_app|].
    rewrite forallb_true in Hb. apply Forall_forall. intros x Hx.
    apply list_elem_of_bind in Hx as (body & Hx & Hin).
    apply Hb, andb_true_iff in Hin as [_ Hlines]. rewrite forallb_true in Hlines.
    apply elem_of_cons in Hx as [->|Hx]; [done|].
    apply list_elem_of_fmap in Hx as (e & -> & He). apply Hlines in He.
    unfold body_line_ok in He. rewrite !andb_true_iff, !orb_true_iff, !Ascii.eqb_eq in He.
    destruct He as [[Ho _] [[-> | ->]| ->]]; exact Ho.
  - rewrite !andb_true_iff. intros [[Hn _] Hl]. constructor; [by apply plain_app|].
    rewrite forallb_true in Hl. apply Forall_forall. intros x Hx.
    apply list_elem_of_fmap in Hx as (l & -> & Hin). by apply plain_app, Hl.
Qed.

(** C37: A patch written in the format is read back as it was meant: for sections
    whose names and lines are single lines, whose hunks are not empty, and no
    marked line of which is the end marker up to white space, parsing the
    printed patch gives one operation per section, with the old and the new
    side of each hunk. *)
Theorem v4a_roundtrip sections :
  sections ≠ [] → Forall (λ s, section_ok s = true) sections →
  parse (print_patch sections) = Some (Ok (map section_op sections)).
Proof.
  intros Hne HF. unfold parse, print_patch.
  rewrite patch_lines_join.
  - change (skip_blank ([BEGIN] ++ ?l)) with (BEGIN :: l).
    change (trim BEGIN =? BEGIN)%string with true. cbv iota.
    rewrite (parse_sections sections None [] []); [done|done|done|]. by destruct sections.
  - apply Forall_app. split; [by constructor|]. apply Forall_app. split; [|by constructor].
    apply Forall_forall. intros x Hx. apply list_elem_of_bind in Hx as (s & Hx & Hs).
    rewrite Forall_forall in HF. apply HF, section_lines_plain in Hs.
    rewrite Forall_forall in Hs. by apply Hs.
  - by rewrite app_assoc, last_snoc.
  - done.
Qed.

(** ** What the tool does not promise *)

Definition patch_text (lines : list string) : string := join NL lines.

(** Five surprises.  Overlapping occurrences count once, so a snippet that
    occurs twice is edited without an ambiguity.  A context line that reads
    [*** End Patch] ends the patch, and the rest is dropped in silence.  A hunk
    line that begins with a multi-byte character panics instead of being
    refused.  A hunk that only adds lines is refused, having nothing to anchor
    on.  And when a write fails in the second phase, the entries already
    written stay: the patch is half applied. *)
Theorem patch_surprises sha256_hex :
  find_and_replace "aaa" "aa" "b" false
    = Ok {| outcome_content := "ba"; outcome_strategy := Exact; replacements := 1 |} ∧
  parse (patch_text ["*** Begin Patch"; "*** Update File: a"; "-x"; " *** End Patch"; "+y";
           "*** End Patch"])
    = Some (Ok [Update "a" [{| old_block := "x"; new_block := "" |}]]) ∧
  (∀ m rest, 128 ≤ nat_of_ascii m → starts_with (String m rest) "@@" = false →
     push_body (section_start SectionUpdate "a") (String m rest) = None) ∧
  (∀ current added, apply_hunks "a" current [{| old_block := ""; new_block := added |}]
     = Err {| apply_name := "a"; hunk_index := 0; apply_source := EmptyPattern |}) ∧
  (sha256_hex "x" ≠ sha256_hex "y" →
   let res := run_v4a sha256_hex "s" (Some (patch_text ["*** Begin Patch"; "*** Add File: a"; "+x";
                "*** Add File: b"; "+y"; "*** End Patch"])) None
                (fresh_store [IoOk; IoOk; IoOk; IoRefused]) in
   res.2 = Err (StoreFailed IoFailed) ∧
   lookup_name res.1 "s" "a" = Some (compute_handle sha256_hex "x") ∧
   lookup_name res.1 "s" "b" = None).
Proof.
  split; [reflexivity|]. split; [reflexivity|]. split; [|split; [reflexivity|]].
  - intros m rest Hm Hs. unfold push_body. cbn [sec_kind section_start]. rewrite Hs.
    by rewrite (proj2 (Nat.leb_le _ _) Hm).
  - intros Hxy. set (st0 := fresh_store [IoOk; IoOk; IoOk; IoRefused]).
    change (run_v4a _ _ _ _ _) with (commit sha256_hex "s"
      [{| pending_name := "a"; pending_content := "x"; pending_visibility := SessionWide |};
       {| pending_name := "b"; pending_content := "y"; pending_visibility := SessionWide |}] st0).
    assert (∃ st1, put_entry sha256_hex "s" "a" "x" SessionWide st0
        = (st1, Ok (compute_handle sha256_hex "x")) ∧ io (disk st1) = [IoRefused] ∧
      blobs (disk st1) = {[sha256_hex "x" := "x"]} ∧
      lookup_name st1 "s" "a" = Some (compute_handle sha256_hex "x") ∧
      lookup_name st1 "s" "b" = None) as (st1 & E1 & Hio & Hb & Ha & Hn).
    { unfold put_entry, or_else, mbind, patchm_bind, write. rewrite blob_key_handle.
      eexists. by split_and!. }
    cbn [commit pending_name pending_content pending_visibility].
    unfold mbind, patchm_bind. rewrite E1.
    unfold put_entry, or_else, mbind, patchm_bind, write. rewrite blob_key_handle, Hb.
    rewrite lookup_singleton_ne by done. unfold next_io. rewrite Hio. by split_and!.
Qed.

(** ** Examples *)

Definition demo_patch : string :=
  patch_text ["*** Begin Patch"; "*** Add File: a"; "+x"; "*** Add File: b"; "+y"; "*** End Patch"].

Lemma demo_sha_injective a b : demo_sha a = demo_sha b → a = b.
Proof. by intros [= ->]. Qed.

Lemma v4a_all_or_nothing_witness :
  (∃ handles, (run_v4a demo_sha "s" (Some demo_patch) None (fresh_store [])).2 = Ok handles) ∧
  match run_v4a demo_sha "s" (Some demo_patch) None (fresh_store []) with
  | (st', Err _) => disk st' = disk (fresh_store []) ∧ same_view (fresh_store []) st'
  | (st', Ok _) =>
      ∃ text ops, Some demo_patch = Some text ∧ parse text = Some (Ok ops) ∧
        (∀ op, op ∈ ops → ∃ c, op_content (fresh_store []) "s" op c ∧
           entry_text st' "s" (op_name op) = Some c) ∧
        (∀ s n, n ∉ op_name <$> ops → lookup_name st' s n = lookup_name (fresh_store []) s n) ∧
        blobs (disk (fresh_store [])) ⊆ blobs (disk st')
  end.
Proof.
  split; [eexists; reflexivity|].
  destruct (v4a_all_or_nothing demo_sha "s" (Some demo_patch) None (fresh_store [])) as [H|H];
    [exact fresh_store_healthy|intros k c H; discriminate H| |exact H].
  exfalso. destruct H as (text & ops & _ & _ & op & a & b & _ & _ & Hne & He & _).
  apply Hne. by apply demo_sha_injective.
Defined.

Lemma v4a_roundtrip_witness :
  let sections := [UpdateSection "src/main.rs" [[(" "%char, "keep"); ("-"%char, "old");
                                                 ("+"%char, "new")]; [("+"%char, "more")]];
                   AddSection "b" ["*** End Patch"]] in
  sections ≠ [] ∧ parse (print_patch sections) = Some (Ok (map section_op sections)).
Proof.
  split; [discriminate|]. apply v4a_roundtrip; [discriminate|].
  constructor; [reflexivity|]. constructor; [reflexivity|]. constructor.
Defined.
