(* ===== verification/ChildReply.v ===== *)
(** * Truncated results and child replies

    What is left of a text that does not fit: the tool-result truncation of
    runtime/prompt_budget.rs ([truncate_tool_result] and below), and the reply of
    a delegated child of scheduler.rs, which is stored whole in the content store
    and shortened for the field its parent reads ([prepare_child_reply]).

    A string is its UTF-8 bytes; [chars] are counted and cut at the bytes that do
    not continue a character.  Lengths are [nat]; [usize::MAX], which no string
    reaches, is [None]. *)

From Stdlib Require Import Ascii String Lia Permutation.
From stdpp Require Import prelude gmap strings list sorting.
From S2P Require Import Prelude RustStr Json ContentStore.

Open Scope string_scope.
Open Scope nat_scope.
Open Scope list_scope.

(** ** Characters of a string *)

Definition is_continuation (c : ascii) : bool := byte_in 128 191 c.

(** [s.chars().count()]. *)
Fixpoint chars_count (s : string) : nat :=
  match s with
  | EmptyString => 0
  | String c r => if is_continuation c then chars_count r else S (chars_count r)
  end.

(** [s.chars().take(n)] and [s.chars().skip(n)]. *)
Fixpoint chars_take (n : nat) (s : string) : string :=
  match s with
  | EmptyString => ""
  | String c r => if is_continuation c then String c (chars_take n r)
                  else match n with 0 => "" | S n => String c (chars_take n r) end
  end.

Fixpoint chars_skip (n : nat) (s : string) : string :=
  match s with
  | EmptyString => ""
  | String c r => if is_continuation c then chars_skip n r
                  else match n with 0 => s | S n => chars_skip n r end
  end.

Definition show_nat (n : nat) : string := show_N (N.of_nat n).

(** ** Cutting a string in the middle *)

Definition truncate_middle (s : string) (max_chars : nat) : string :=
  let len := chars_count s in
  if len <=? max_chars then s
  else
    let keep_each := (max_chars - 30) / 2 in
    if keep_each =? 0 then
      let keep := (max_chars - 1) / 2 in
      (chars_take keep s ++ "…" ++ chars_skip (len - keep) s)%string
    else
      (chars_take keep_each s ++ String (ch 10) "[... " ++ show_nat (len - keep_each * 2)
         ++ " chars truncated ...]" ++ String (ch 10) "" ++ chars_skip (len - keep_each) s)%string.

(** ** Sharing a budget *)

(** The lengths in ascending order; [None] when all of them fit. *)
Fixpoint fair_share_loop (lengths : list nat) (remaining : nat) : option nat :=
  match lengths with
  | [] => None
  | len :: rest =>
      let even := remaining / List.length lengths in
      if len <=? even then fair_share_loop rest (remaining - len) else Some even
  end.

Definition fair_share_cap (lengths : list nat) (budget : nat) : option nat :=
  fair_share_loop (sort_by Nat.compare lengths) budget.

(** ** Truncating inside a JSON value *)

Definition TRUNCATION_EXEMPT_KEYS : list string :=
  ["error_type"; "error_class"; "fix_target"; "repair_hint"; "repair_class"; "available_actions";
   "enforced_rules"; "gateway_note"; "id"; "layer_id"; "digest"; "ref"; "task_id"; "workflow_id";
   "artifact_id"; "artifact_ref"; "execution_trace_id"; "trace_id"; "request_id"; "approval_ref";
   "session_id"; "root_session_id"; "message_id"; "plan_id"; "step_id"; "revision_id";
   "content_ref"].

Definition exempt_key (k : string) : bool := existsb (String.eqb k) TRUNCATION_EXEMPT_KEYS.

(** The strings outside of exempt subtrees. *)
Fixpoint non_exempt_strings (exempt : bool) (v : Json) : list string :=
  match v with
  | JString s => if exempt then [] else [s]
  | JArray l => List.concat (map (non_exempt_strings exempt) l)
  | JObject m => List.concat (map (λ kv, non_exempt_strings (exempt || exempt_key kv.1) kv.2) m)
  | _ => []
  end.

Definition non_exempt_string_lengths (v : Json) : list nat :=
  chars_count <$> non_exempt_strings false v.

(** The total; nobody asks for the number of strings. *)
Definition non_exempt_string_metrics (v : Json) : nat := sum_list (non_exempt_string_lengths v).

Definition MAX_ARRAY_ELEMENTS : nat := 6.

Definition is_string (v : Json) : bool := match v with JString _ => true | _ => false end.

Fixpoint collapse_long_string_arrays (v : Json) : Json :=
  match v with
  | JObject m => JObject (map (λ kv, (kv.1, if exempt_key kv.1 then kv.2
                                            else collapse_long_string_arrays kv.2)) m)
  | JArray arr =>
      if forallb is_string arr then
        if MAX_ARRAY_ELEMENTS <? List.length arr then
          JArray (take MAX_ARRAY_ELEMENTS arr ++
            [JString ("… " ++ show_nat (List.length arr - MAX_ARRAY_ELEMENTS)
                      ++ " more (elided to keep the result budget for payload fields)")])
        else v
      else JArray (map collapse_long_string_arrays arr)
  | _ => v
  end.

(** [None] is a budget no string exceeds. *)
Fixpoint truncate_json_strings (exempt : bool) (per_field_budget : option nat) (v : Json) : Json :=
  match v with
  | JString s => JString (if exempt then s
                          else match per_field_budget with
                               | Some b => truncate_middle s b
                               | None => s
                               end)
  | JArray l => JArray (map (truncate_json_strings exempt per_field_budget) l)
  | JObject m =>
      JObject (map (λ kv, (kv.1, truncate_json_strings (exempt || exempt_key kv.1)
                                   per_field_budget kv.2)) m)
  | _ => v
  end.

Definition truncate_json_strings_in_place (v : Json) (max_chars : nat) : Json :=
  if non_exempt_string_metrics v <=? max_chars then v
  else
    let v := collapse_long_string_arrays v in
    let struct_overhead := min (max_chars * 2 / 5) (max_chars * 3 / 4) in
    let string_budget := max_chars - struct_overhead in
    truncate_json_strings false (fair_share_cap (non_exempt_string_lengths v) string_budget) v.

Definition mark_json_truncated (v : Json) : Json :=
  match v with
  | JObject m =>
      let m := match bt_get m "truncated" with
               | Some _ => bt_insert "truncated" (JBool true) m
               | None => m
               end in
      JObject (match bt_get m "next_offset" with
               | Some JNull => bt_insert "next_offset" (JNumber (-1)) m
               | _ => m
               end)
  | _ => v
  end.

Definition is_non_empty_subtree (v : Json) : bool :=
  match v with
  | JString s => negb (str_is_empty s)
  | JObject m => negb (bool_decide (List.length m = 0))
  | JArray l => negb (bool_decide (List.length l = 0))
  | _ => false
  end.

Fixpoint has_exempt_content (exempt : bool) (v : Json) : bool :=
  match v with
  | JString _ => exempt
  | JObject m =>
      existsb (λ kv, let child_exempt := exempt || exempt_key kv.1 in
                     (child_exempt && is_non_empty_subtree kv.2)
                     || has_exempt_content child_exempt kv.2) m
  | JArray l => existsb (has_exempt_content exempt) l
  | _ => false
  end.

Section Truncation.
(** [serde_json::from_str] and [serde_json::to_string]. *)
Context (from_str : string → option Json) (json_to_string : Json → string).

Definition truncate_tool_result (s : string) (max_chars : nat) : string :=
  if chars_count s <=? max_chars then s
  else match from_str s with
  | Some value =>
      let was_truncated := max_chars <? non_exempt_string_metrics value in
      let value := truncate_json_strings_in_place value max_chars in
      let value := if was_truncated then mark_json_truncated value else value in
      let serialized := json_to_string value in
      if chars_count serialized <=? max_chars then serialized
      else if has_exempt_content false value then serialized
      else truncate_middle serialized max_chars
  | None => truncate_middle s max_chars
  end.

(** ** The reply of a child *)

Definition CHILD_REPLY_SPILL_PREFIX : string := "agent_reply".
Definition CHILD_SUMMARY_MAX_CHARS : nat := 512.
Definition CHILD_CHECKPOINT_SUMMARY_MAX_CHARS : nat := 200.

Definition reply_note : string :=
  "The child's full reply did not fit this field. Read full_result_ref with content.read instead of acting on preview or re-running the work.".

Definition reply_envelope (reply : string) (full_ref : option string) : list (string * Json) :=
  [("result_truncated", JBool true);
   ("reply_chars", JNumber (Z.of_nat (chars_count reply)));
   ("full_result_ref", json_opt_str full_ref)].

(** The envelopes by decreasing detail. *)
Definition envelope_variants (reply : string) (max_chars : nat) (full_ref : option string)
    : list Json :=
  let base := reply_envelope reply full_ref in
  let with_note := base ++ [("note", JString reply_note)] in
  let overhead := chars_count (json_to_string (json_object with_note)) + 13 in
  let preview_budget := max_chars - overhead in
  let with_preview :=
    if 0 <? preview_budget
    then with_note ++ [("preview", JString (chars_take preview_budget reply))] else with_note in
  [json_object with_preview; json_object with_note; json_object base].

Definition summarize_oversized_reply (reply : string) (max_chars : nat) (full_ref : option string)
    : string :=
  let reply_was_json := bool_decide (is_Some (from_str reply)) in
  let candidate := truncate_tool_result reply max_chars in
  let candidate_kept_shape := negb reply_was_json || bool_decide (is_Some (from_str candidate)) in
  if (chars_count candidate <=? max_chars) && candidate_kept_shape then candidate
  else default (chars_take max_chars reply)
         (List.find (λ rendered, chars_count rendered <=? max_chars)
            (json_to_string <$> envelope_variants reply max_chars full_ref)).

Definition bounded_child_summary (reply : string) (max_chars : nat) (full_ref : option string)
    : string :=
  if chars_count reply <=? max_chars then reply
  else summarize_oversized_reply reply max_chars full_ref.

Definition child_reply_spill_name (child_session_id : string) (is_json : bool) : string :=
  let last := default "" (last (split (Ascii.eqb "/"%char) child_session_id)) in
  let segment := if str_is_empty last then "child" else last in
  let ext := if is_json then "json" else "txt" in
  (CHILD_REPLY_SPILL_PREFIX ++ "." ++ segment ++ "." ++ ext)%string.

Record PreparedChildReply := {
  reply_summary : string;
  full_ref : option string;
}.

Context (sha256_hex : string → string).

(** On the store just opened. *)
Definition spill_child_reply (child_session_id reply : string) : StoreM string :=
  handle ← write sha256_hex reply;
  register_name_with_visibility child_session_id
    (child_reply_spill_name child_session_id (bool_decide (is_Some (from_str reply)))) handle
    SessionWide;;
  mret ("cnt_" ++ handle_to_short_alias handle)%string.

(** A [ContentStore] opened on a directory. *)
Definition open_store (d : Disk) : ContentStore := {| disk := d; manifests := ∅ |}.

Definition prepare_child_reply (d : Disk) (child_session_id reply : string) (max_chars : nat)
    : Disk * PreparedChildReply :=
  if chars_count reply <=? max_chars
  then (d, {| reply_summary := reply; full_ref := None |})
  else
    let '(st, spilled) := spill_child_reply child_session_id reply (open_store d) in
    let full_ref := match spilled with Ok r => Some r | Err _ => None end in
    (disk st, {| reply_summary := summarize_oversized_reply reply max_chars full_ref;
                 full_ref := full_ref |}).

End Truncation.

(** ** Characters: lemmas *)

Lemma chars_take_skip n s : (chars_take n s ++ chars_skip n s)%string = s.
Proof.
  revert n. induction s as [|c r IH]; intros n; cbn; [done|].
  destruct (is_continuation c); cbn; [by rewrite IH|].
  destruct n as [|n]; cbn; [done|by rewrite IH].
Qed.

Lemma chars_count_app s t : chars_count (s ++ t)%string = chars_count s + chars_count t.
Proof. induction s as [|c s IH]; cbn; [done|]. rewrite IH. by destruct (is_continuation c). Qed.

Lemma chars_count_take n s : chars_count (chars_take n s) = min n (chars_count s).
Proof.
  revert n. induction s as [|c r IH]; intros n; cbn; [by destruct n|].
  destruct (is_continuation c) eqn:E; cbn; [by rewrite E, IH|].
  destruct n as [|n]; cbn; [done|by rewrite E, IH].
Qed.

Lemma chars_count_skip n s : chars_count (chars_skip n s) = chars_count s - n.
Proof.
  pose proof (chars_count_app (chars_take n s) (chars_skip n s)) as H.
  rewrite chars_take_skip, chars_count_take in H. lia.
Qed.

Lemma chars_count_length s : chars_count s <= String.length s.
Proof. induction s as [|c s IH]; cbn; [done|]. destruct (is_continuation c); lia. Qed.

(** ** Sharing a budget: theorems *)

#[export] Instance nat_compare_total : TotalCmp Nat.compare.
Proof.
  split; unfold cmp_le; intros *.
  - rewrite Nat.compare_gt_iff, Nat.compare_le_iff. lia.
  - rewrite !Nat.compare_le_iff. lia.
Qed.

Lemma fair_share_loop_spec lengths budget :
  StronglySorted (cmp_le Nat.compare) lengths →
  match fair_share_loop lengths budget with
  | None => sum_list lengths <= budget
  | Some c => budget / List.length lengths <= c ∧ sum_list_with (min c) lengths <= budget ∧
              ∀ c', c < c' → budget < sum_list_with (min c') lengths
  end.
Proof.
  intros Hs. revert budget. induction Hs as [|len rest Hs IH Hall]; intros budget; [cbn; lia|].
  assert (∀ x, x ∈ rest → len <= x) as Hle.
  { intros x Hx. rewrite List.Forall_forall in Hall. apply list_elem_of_In, Hall in Hx.
    by apply Nat.compare_le_iff. }
  cbn [fair_share_loop]. set (even := budget / List.length (len :: rest)).
  assert (even * List.length (len :: rest) <= budget ∧ budget < S even * List.length (len :: rest))
    as [He1 He2].
  { pose proof (Nat.div_mod_eq budget (List.length (len :: rest))).
    pose proof (Nat.mod_upper_bound budget (List.length (len :: rest)) ltac:(done)).
    subst even. nia. }
  assert (∀ c, (∀ x, x ∈ rest → c <= x) → sum_list_with (min c) rest = c * List.length rest) as Hsum.
  { clear. induction rest as [|x rest IH]; intros c Hc; cbn; [lia|].
    rewrite IH by (intros; apply Hc; by constructor). specialize (Hc x ltac:(by constructor)). lia. }
  destruct (Nat.leb_spec len even) as [Hl|Hl].
  - specialize (IH (budget - len)). cbn [List.length] in *.
    assert (len <= budget) by nia.
    destruct (fair_share_loop rest (budget - len)) as [c|]; [|cbn; lia].
    destruct IH as (Hc & Hb & Hm). 
    assert (even <= c) as Hec.
    { destruct rest as [|y rest]; [specialize (Hm (S c)); cbn in *; lia|].
      etrans; [|exact Hc]. apply Nat.div_le_lower_bound; [done|]. cbn [List.length] in *. nia. }
    split; [done|]. cbn [sum_list_with]. split; [lia|]. intros c' Hc'. specialize (Hm c' Hc'). lia.
  - split; [done|]. cbn [sum_list_with List.length] in *. split.
    + rewrite (Hsum even) by (intros x Hx%Hle; lia). lia.
    + intros c' Hc'. eapply Nat.lt_le_trans; [exact He2|].
      enough (S even * List.length rest <= sum_list_with (min c') rest) by nia.
      clear -Hle Hl Hc'. clearbody even.
      induction rest as [|x rest IH]; cbn [List.length sum_list_with]; [lia|].
      pose proof (Hle x ltac:(by constructor)). 
      specialize (IH ltac:(intros; apply Hle; by constructor)). rewrite Nat.mul_succ_r. lia.
Qed.

(** The cap is the fairest one: with it every string keeps the smaller of its
    length and the cap, all of them fit the budget together, and no larger cap
    would let them; without a cap they fit as they are. *)
Theorem fair_share_cap_spec lengths budget :
  match fair_share_cap lengths budget with
  | None => sum_list lengths <= budget
  | Some c => sum_list_with (min c) lengths <= budget ∧
              ∀ c', c < c' → budget < sum_list_with (min c') lengths
  end.
Proof.
  unfold fair_share_cap.
  assert (∀ f, sum_list_with f (sort_by Nat.compare lengths) = sum_list_with f lengths) as E.
  { intros f. by rewrite (sort_by_perm Nat.compare lengths). }
  pose proof (fair_share_loop_spec (sort_by Nat.compare lengths) budget
    (sort_by_strongly_sorted Nat.compare lengths)) as H.
  destruct (fair_share_loop _ budget); [|by rewrite <-E]. destruct H as (_ & H1 & H2).
  split; [by rewrite <-E|]. intros c' Hc'. rewrite <-E. by apply H2.
Qed.

(** ** The summary *)

Section Summary.
Context (from_str : string → option Json) (json_to_string : Json → string)
        (sha256_hex : string → string).

Lemma summarize_fits reply max_chars r :
  chars_count (summarize_oversized_reply from_str json_to_string reply max_chars r) <= max_chars.
Proof.
  unfold summarize_oversized_reply. cbv zeta.
  match goal with |- context [if ?b then _ else _] => destruct b eqn:E end.
  { apply andb_true_iff in E as [E _]. by apply Nat.leb_le. }
  destruct (List.find _ _) as [v|] eqn:Ef; cbn [default].
  - apply List.find_some in Ef as [_ Ef]. by apply Nat.leb_le.
  - rewrite chars_count_take. lia.
Qed.

Lemma summarize_json reply max_chars r :
  is_Some (from_str reply) → (∀ v, is_Some (from_str (json_to_string v))) →
  chars_count (json_to_string (json_object (reply_envelope reply r))) <= max_chars →
  is_Some (from_str (summarize_oversized_reply from_str json_to_string reply max_chars r)).
Proof.
  intros Hj Hp Hfit. unfold summarize_oversized_reply. cbv zeta.
  rewrite (bool_decide_eq_true_2 (is_Some (from_str reply))) by done. cbn [negb orb].
  match goal with |- context [if ?b then _ else _] => destruct b eqn:E end.
  { apply andb_true_iff in E as [_ E]. by apply bool_decide_eq_true_1 in E. }
  destruct (List.find _ _) as [v|] eqn:Ef; cbn [default].
  - apply List.find_some in Ef as [Ef _]. apply list_elem_of_In, list_elem_of_fmap in Ef as (v' & -> & _).
    apply Hp.
  - apply (List.find_none _ _) with (x := json_to_string (json_object (reply_envelope reply r))) in Ef.
    { by apply Nat.leb_gt in Ef; apply Nat.lt_nge in Ef. }
    apply list_elem_of_In, list_elem_of_fmap_2. unfold envelope_variants. cbv zeta.
    do 2 apply list_elem_of_further. apply list_elem_of_here.
Qed.

(** The field a parent reads never exceeds its budget; a reply that fits is
    passed on as it is; and a reply that was JSON stays JSON, whenever the bare
    envelope that points at the full reply fits. *)
Theorem child_reply_fits d child reply max_chars :
  let p := (prepare_child_reply from_str json_to_string sha256_hex d child reply max_chars).2 in
  chars_count (reply_summary p) <= max_chars ∧
  (chars_count reply <= max_chars → p = {| reply_summary := reply; full_ref := None |}) ∧
  (is_Some (from_str reply) → (∀ v, is_Some (from_str (json_to_string v))) →
   chars_count (json_to_string (json_object (reply_envelope reply (full_ref p)))) <= max_chars →
   is_Some (from_str (reply_summary p))).
Proof.
  cbn zeta. unfold prepare_child_reply. destruct (Nat.leb_spec (chars_count reply) max_chars) as [H|H].
  { by split_and!. }
  destruct (spill_child_reply _ _ _ _ _) as [st [r|e]]; cbn [fst snd reply_summary full_ref];
    (split; [apply summarize_fits|split; [lia|apply summarize_json]]).
Qed.

(** ** The full reply *)

(** The cache holds nothing the disk does not. *)
Definition saved (st : ContentStore) : Prop :=
  io (disk st) = [] ∧ ∀ t m, manifests st !! t = Some m →
    default (Some manifest_default) (manifest_files (disk st) !! t) = Some m.

Lemma saved_load t : keeps saved (load_manifest t) (λ _, True).
Proof.
  intros st [Hio Hs]. split; [|done]. unfold load_manifest, mbind, storem_bind, gets.
  destruct (manifests st !! t) eqn:E; [done|]. unfold load_manifest_from_disk_uncached.
  destruct (manifest_files (disk st) !! t) as [[m|]|] eqn:Ef; cbn; [|done|];
    (split; [done|]; intros u m'; cbn [manifests disk set_cached fst];
     intros [[<- <-]|[_ H]]%lookup_insert_Some; [by rewrite Ef|by apply Hs]).
Qed.

Lemma saved_update t f : keeps saved (update_manifest t f) (λ _, True).
Proof.
  unfold update_manifest. eapply keeps_bind; [apply saved_load|]. intros m _ st [Hio Hs].
  split; [|done]. unfold set_cached, save_manifest, next_io, mbind, storem_bind. cbn [disk]. rewrite Hio.
  split; [done|]. intros u m'. cbn. intros [[<- <-]|[Hu H]]%lookup_insert_Some.
  - by rewrite lookup_insert_eq.
  - rewrite lookup_insert_ne by done. by apply Hs.
Qed.

Lemma saved_spill child reply :
  keeps saved (spill_child_reply from_str sha256_hex child reply) (λ _, True).
Proof.
  unfold spill_child_reply, register_name_with_visibility, register_name, set_visibility.
  eapply (keeps_bind _ _ _ (λ _, True)).
  { intros st [Hio Hs]. split; [|done]. unfold write.
    destruct (blobs (disk st) !! _); [by split|]. unfold next_io. rewrite Hio. by split. }
  intros h _. eapply (keeps_bind _ _ _ (λ _, True)); [|intros; by apply keeps_ret].
  do 2 (eapply keeps_bind; [apply saved_update|intros _ _]).
  rewrite bool_decide_eq_false_2 by done. eapply keeps_bind; [apply saved_load|intros m _].
  eapply (keeps_bind _ _ _ (λ _, True)).
  - destruct (manifest_root m) as [r|]; [|by apply keeps_ret].
    destruct (r =? child)%string; [by apply keeps_ret|apply saved_update].
  - intros _ _. by apply keeps_ret.
Qed.

Lemma saved_reopened st t : saved st → loaded (open_store (disk st)) t = loaded st t.
Proof.
  intros [_ Hs]. unfold loaded, view, open_store. cbn [manifests disk]. rewrite lookup_empty.
  destruct (manifests st !! t) as [m|] eqn:E; [by rewrite (Hs t m E)|done].
Qed.

(** Where a registration for the session tree leaves the short alias. *)
Lemma register_aliases st s n h :
  healthy st → ∃ st', register_name_with_visibility s n h SessionWide st = (st', Ok tt) ∧
    healthy st' ∧ blobs (disk st') = blobs (disk st) ∧
    ∀ t, manifest_root (loaded st' t) = manifest_root (loaded st t) ∧
      aliases (loaded st' t) =
        if (t =? s)%string || bool_decide (manifest_root (loaded st s) = Some t)
        then <[handle_to_short_alias h := h]> (aliases (loaded st t)) else aliases (loaded st t).
Proof.
  intros Hh. unfold register_name_with_visibility, mbind, storem_bind.
  destruct (register_name_loaded st s n h Hh) as (st1 & -> & Hh1 & Hb1 & Hl1).
  unfold set_visibility. destruct (update_loaded st1 s (λ m, {| names := names m; aliases := aliases m;
    manifest_root := manifest_root m; visibility := <[h := SessionWide]> (visibility m) |}) Hh1)
    as (st2 & -> & Hh2 & Hb2 & Hl2).
  rewrite bool_decide_eq_false_2 by done.
  destruct (load_loaded st2 s Hh2) as (st3 & -> & Hh3 & Hb3 & Hl3).
  assert (∀ t, manifest_root (loaded st3 t) = manifest_root (loaded st t) ∧
    aliases (loaded st3 t) = if (t =? s)%string
      then <[handle_to_short_alias h := h]> (aliases (loaded st t)) else aliases (loaded st t)) as H3.
  { intros t. rewrite Hl3, Hl2. destruct (String.eqb_spec t s) as [->|Ht]; cbn [manifest_root aliases];
      rewrite Hl1; [by rewrite String.eqb_refl|]. by apply String.eqb_neq in Ht as ->. }
  rewrite <-Hl3, (proj1 (H3 s)).
  destruct (manifest_root (loaded st s)) as [r|] eqn:Er.
  2:{ exists st3. rewrite bool_decide_eq_false_2 by done. split; [done|]. split; [done|]. split; [congruence|].
      intros t. rewrite bool_decide_eq_false_2, orb_false_r by done. apply H3. }
  destruct (String.eqb_spec r s) as [->|Hr].
  { exists st3. rewrite bool_decide_eq_false_2 by done. split; [done|]. split; [done|]. split; [congruence|].
    intros t. destruct (H3 t) as [H3r H3a]. split; [done|]. rewrite H3a.
    destruct (String.eqb_spec t s) as [->|Ht]; [done|]. by rewrite bool_decide_eq_false_2 by congruence. }
  destruct (register_name_loaded st3 r n h Hh3) as (st4 & -> & Hh4 & Hb4 & Hl4).
  exists st4. rewrite bool_decide_eq_false_2 by done. split; [done|]. split; [done|]. split; [congruence|].
  intros t. rewrite Hl4. destruct (String.eqb_spec t r) as [->|Ht].
  - rewrite bool_decide_eq_true_2, orb_true_r by done. cbn [add_name manifest_root aliases].
    destruct (H3 r) as [-> ->]. by apply String.eqb_neq in Hr as ->.
  - rewrite bool_decide_eq_false_2 by congruence. rewrite orb_false_r. apply H3.
Qed.

(** A reference found in the manifest of the session, or of its root. *)
Definition has_alias (st : ContentStore) (s a h : string) : Prop :=
  aliases (loaded st s) !! a = Some h ∨
  (aliases (loaded st s) !! a = None ∧
   ∃ r, other_root s (loaded st s) = Some r ∧ aliases (loaded st r) !! a = Some h).

Lemma resolve_alias_loaded st s a h :
  healthy st → has_alias st s a h →
  ∃ st', resolve_alias_with_root s a st = (st', Ok h) ∧ same_view st st'.
Proof.
  intros Hh Ha. unfold resolve_alias_with_root. unfold mbind at 1, storem_bind at 1.
  destruct (load_loaded st s Hh) as (st1 & -> & Hh1 & Hs1).
  destruct Ha as [->|(-> & r & -> & Hr)]; [by exists st1|].
  unfold mbind, storem_bind. destruct (load_loaded st1 r Hh1) as (st2 & -> & Hh2 & Hs2).
  cbn. rewrite (proj2 Hs1 r), Hr. exists st2. split; [done|]. by eapply same_view_trans.
Qed.

Lemma hex_no_whitespace s :
  str_existsb (λ c, negb (is_ascii_hexdigit c)) s = false → str_existsb is_whitespace s = false.
Proof.
  apply str_existsb_impl. intros c. destruct c as [[] [] [] [] [] [] [] []]; vm_compute; congruence.
Qed.

Lemma cnt_resolve s a :
  is_short_alias a = true →
  resolve_name_or_handle_to_handle s ("cnt_" ++ a)%string = resolve_alias_with_root s a.
Proof.
  intros Ha. unfold resolve_name_or_handle_to_handle. rewrite trim_no_whitespace.
  - unfold cnt_alias. rewrite (proj2 (strip_prefix_some _ "cnt_" a)) by done. by rewrite Ha.
  - cbn. apply andb_true_iff in Ha as [_ Ha]. apply hex_no_whitespace.
    by apply negb_true_iff in Ha.
Qed.

Lemma short_alias_digest content :
  is_short_alias (handle_to_short_alias (compute_handle sha256_hex content)) = true →
  8 <= String.length (sha256_hex content).
Proof.
  unfold handle_to_short_alias, compute_handle.
  rewrite (proj2 (strip_prefix_some _ "sha256:" (sha256_hex content))) by done.
  change SHORT_ALIAS_LEN with 8.
  destruct (Nat.leb_spec 8 (String.length (sha256_hex content))); [done|].
  unfold is_short_alias. intros [_ H']%andb_true_iff. by cbn in H'.
Qed.

(** Nothing of an oversized reply is lost: the reference put beside the summary
    lets the child, its root session, and every session with that root read the
    whole reply from the directory, on a disk without failures and for a digest
    without a collision on this reply; a session that has another content under
    the same short alias excepted. *)
Theorem oversized_reply_is_recoverable d child reply max_chars :
  let alias := handle_to_short_alias (compute_handle sha256_hex reply) in
  let '(d', p) := prepare_child_reply from_str json_to_string sha256_hex d child reply max_chars in
  healthy (open_store d) → max_chars < chars_count reply → is_short_alias alias = true →
  (∀ c, blobs d !! sha256_hex reply = Some c → c = reply) →
  ∃ r, full_ref p = Some r ∧
    ∀ reader,
      reader = child ∨
      (∃ root, manifest_root (loaded (open_store d) child) = Some root ∧
         (reader = root ∨
          manifest_root (loaded (open_store d) reader) = Some root ∧
          aliases (loaded (open_store d) reader) !! alias = None)) →
      (read_by_name_or_handle reader r (open_store d')).2 = Ok reply.
Proof.
  cbn zeta. set (h := compute_handle sha256_hex reply). unfold prepare_child_reply.
  destruct (Nat.leb_spec (chars_count reply) max_chars) as [Hc|Hc]; [intros; lia|].
  set (st0 := open_store d). destruct (spill_child_reply from_str sha256_hex child reply st0) as [st res] eqn:Espill.
  intros Hh _ Ha Hcol. pose proof (short_alias_digest reply Ha) as Hlen. fold h in Ha.
  assert (saved st) as Hsv.
  { pose proof (saved_spill child reply st0) as [H _]; [|by rewrite Espill in H].
    split; [apply Hh|]. intros t m Hm. by cbn in Hm; rewrite lookup_empty in Hm. }
  unfold spill_child_reply, mbind, storem_bind in Espill.
  destruct (write_healthy sha256_hex st0 reply Hh Hcol) as (st1 & E1 & Hh1 & Hl1 & Hb1).
  rewrite E1 in Espill. fold h in Espill.
  destruct (register_aliases st1 child (child_reply_spill_name child
    (bool_decide (is_Some (from_str reply)))) h Hh1) as (st2 & E2 & Hh2 & Hb2 & Hal).
  rewrite E2 in Espill. injection Espill as Est Eres. subst st res.
  exists ("cnt_" ++ handle_to_short_alias h)%string. split; [done|]. intros reader Hr.
  assert (∀ t, loaded (open_store (disk st2)) t = loaded st2 t) as Hre
    by (intros; by apply saved_reopened).
  assert (healthy (open_store (disk st2))) as Hh3.
  { split; [apply Hh2|]. intros t. unfold view, open_store. cbn [manifests disk]. rewrite lookup_empty.
    destruct (proj2 Hh2 t) as [m Hm]. unfold view in Hm. destruct (manifests st2 !! t) as [m'|] eqn:Et.
    - by rewrite (proj2 Hsv t m' Et).
    - by rewrite Hm. }
  cbn [fst snd].
  assert (has_alias (open_store (disk st2)) reader (handle_to_short_alias h) h) as Hhas.
  { unfold has_alias. rewrite !Hre. destruct Hr as [->|(root & Hroot & Hr)].
    - left. destruct (Hal child) as [_ ->]. rewrite String.eqb_refl. apply lookup_insert_eq.
    - assert (aliases (loaded st2 root) !! handle_to_short_alias h = Some h) as Hal'.
      { destruct (Hal root) as [_ ->]. rewrite Hl1, bool_decide_eq_true_2 by done. rewrite orb_true_r.
        apply lookup_insert_eq. }
      destruct Hr as [->|[Hr Hn]]; [by left|]. destruct (Hal reader) as [E3 E4].
      destruct (decide (reader = root)) as [->|Hne]; [by left|].
      destruct (_ || _) in E4.
      + left. rewrite E4. apply lookup_insert_eq.
      + right. rewrite E4, Hl1. split; [done|]. exists root. rewrite Hre. split; [|done].
        unfold other_root. rewrite E3, Hl1, Hr. cbn. by apply not_eq_sym, String.eqb_neq in Hne as ->. }
  unfold read_by_name_or_handle. rewrite cnt_resolve by done. unfold mbind, storem_bind.
  destruct (resolve_alias_loaded _ _ _ _ Hh3 Hhas) as (st4 & -> & Hb4 & _).
  unfold read, h. rewrite blob_key_handle. destruct (Nat.ltb_spec (String.length (sha256_hex reply)) 2); [lia|].
  rewrite Hb4. cbn [open_store disk]. by rewrite Hb2, Hb1.
Qed.

End Summary.

(** ** Examples *)

(** A printer and a parser of JSON-shaped text, and a digest in hexadecimal. *)
Definition toy_print (v : Json) : string :=
  match v with JObject _ => "{}" | _ => "null" end.
Definition toy_parse (s : string) : option Json :=
  if starts_with s "{" || (s =? "null")%string then Some JNull else None.
Definition toy_digest (content : string) : string := "0123456789abcdef".

Example truncate_middle_marks :
  truncate_middle "sha256:f643de099e16a990e45ce3572fcb897d94bc766a" 16 = "sha256:…4bc766a".
Proof. reflexivity. Qed.

(** The cut names how much it left out, and may exceed the budget by that. *)
Example truncate_middle_exceeds :
  chars_count (truncate_middle (String.concat "" (replicate 100 "0123456789")) 40) = 41.
Proof. vm_compute. reflexivity. Qed.

Example summary_is_pointer :
  (prepare_child_reply (λ _, None) toy_print toy_digest (empty_disk []) "root/child"
     "0123456789" 6).2 =
  {| reply_summary := "01…89"; full_ref := Some "cnt_01234567" |}.
Proof. vm_compute. reflexivity. Qed.

Lemma child_reply_fits_witness :
  is_Some (toy_parse (reply_summary
    (prepare_child_reply toy_parse toy_print toy_digest (empty_disk []) "root/child"
       "{0123456789}" 6).2)).
Proof.
  destruct (child_reply_fits toy_parse toy_print toy_digest (empty_disk []) "root/child"
    "{0123456789}" 6) as (_ & _ & H).
  apply H; [vm_compute; eauto| |vm_compute; lia].
  intros []; vm_compute; eauto.
Defined.

Definition demo_reply_disk : Disk :=
  {| blobs := ∅;
     manifest_files :=
       {[ "root/child" := Some {| names := ∅; aliases := ∅; manifest_root := Some "root";
                                  visibility := ∅ |};
          "root/other" := Some {| names := ∅; aliases := ∅; manifest_root := Some "root";
                                  visibility := ∅ |} ]};
     io := [] |}.

Lemma oversized_reply_is_recoverable_witness :
  let '(d', p) := prepare_child_reply toy_parse toy_print toy_digest demo_reply_disk "root/child"
                    "0123456789" 6 in
  ∃ r, full_ref p = Some r ∧
    (read_by_name_or_handle "root/other" r (open_store d')).2 = Ok "0123456789".
Proof.
  pose proof (oversized_reply_is_recoverable toy_parse toy_print toy_digest demo_reply_disk
    "root/child" "0123456789" 6) as H. cbv zeta in H.
  destruct (prepare_child_reply _ _ _ _ _ _ _) as [d' p].
  destruct H as (r & Hr & H).
  - split; [done|]. intros t. unfold view, open_store, demo_reply_disk. cbn [manifests disk manifest_files].
    rewrite lookup_empty.
    destruct (decide (t = "root/child")) as [->|]; [vm_compute; eauto|].
    destruct (decide (t = "root/other")) as [->|]; [vm_compute; eauto|].
    rewrite lookup_insert_ne, lookup_singleton_ne by done. cbn. eauto.
  - vm_compute. lia.
  - reflexivity.
  - intros c. cbn. by rewrite lookup_empty.
  - exists r. split; [done|]. apply H. right. exists "root". split; [reflexivity|].
    right. split; reflexivity.
Defined.
