(* ===== verification/Workflow.v ===== *)
(** * Workflow records and stage retries

    autonoetic-types/src/workflow.rs: the runs, tasks, queue rows and checkpoints
    of the workflow layer with the legal transitions of a task; and what decides
    whether a failed stage is tried again: the failure classes of tool_error.rs,
    their classification (runtime/failure_classification.rs) and
    [evaluate_stage_retry] of scheduler/workflow_store.rs. *)

From Stdlib Require Import Ascii String Lia.
From stdpp Require Import prelude strings list.
From coqutil Require Import Datatypes.RecordSetters.
From S2P Require Import Prelude RustStr Json PlanFrame.
Import DoubleBraceUpdate.

Open Scope string_scope.
Open Scope list_scope.

(** ** Statuses *)

Inductive WorkflowRunStatus : Type :=
| WfActive | WfWaitingChildren | WfBlockedApproval | WfResumable | WfEmergencyStopping
| WfEmergencyStopped | WfCompleted | WfFailed | WfCancelled.

#[export] Instance workflow_run_status_eq_dec : EqDecision WorkflowRunStatus.
Proof. solve_decision. Defined.

Definition run_status_str (self : WorkflowRunStatus) : string :=
  match self with
  | WfActive => "active"
  | WfWaitingChildren => "waiting_children"
  | WfBlockedApproval => "blocked_approval"
  | WfResumable => "resumable"
  | WfEmergencyStopping => "emergency_stopping"
  | WfEmergencyStopped => "emergency_stopped"
  | WfCompleted => "completed"
  | WfFailed => "failed"
  | WfCancelled => "cancelled"
  end.

Definition run_is_terminal (self : WorkflowRunStatus) : bool :=
  match self with
  | WfCompleted | WfFailed | WfCancelled | WfEmergencyStopped => true
  | _ => false
  end.

Definition run_try_transition (self next : WorkflowRunStatus) : bool :=
  if bool_decide (self = next) then true
  else match self, next with
  | (WfCompleted | WfFailed | WfCancelled | WfEmergencyStopped), _ => false
  | WfEmergencyStopping, WfEmergencyStopped => true
  | WfEmergencyStopping, _ => false
  | WfActive, _ => true
  | WfWaitingChildren, _ => false
  | WfBlockedApproval, (WfResumable | WfEmergencyStopping | WfFailed | WfCancelled) => true
  | WfBlockedApproval, _ => false
  | WfResumable, (WfActive | WfEmergencyStopping | WfCompleted | WfFailed | WfCancelled) => true
  | _, _ => false
  end.

Inductive TaskRunStatus : Type :=
| TPending | TRunnable | TRunning | TAwaitingApproval | TPaused | TStale | TAborting | TAborted
| TSucceeded | TFailed | TCancelled.

#[export] Instance task_run_status_eq_dec : EqDecision TaskRunStatus.
Proof. solve_decision. Defined.

Definition task_status_str (self : TaskRunStatus) : string :=
  match self with
  | TPending => "pending"
  | TRunnable => "runnable"
  | TRunning => "running"
  | TAwaitingApproval => "awaiting_approval"
  | TPaused => "paused"
  | TStale => "stale"
  | TAborting => "aborting"
  | TAborted => "aborted"
  | TSucceeded => "succeeded"
  | TFailed => "failed"
  | TCancelled => "cancelled"
  end.

Definition is_terminal (self : TaskRunStatus) : bool :=
  match self with TSucceeded | TFailed | TCancelled | TAborted => true | _ => false end.

Definition is_terminal_for_join (self : TaskRunStatus) : bool :=
  is_terminal self || bool_decide (self = TStale).

Definition is_resumable (self : TaskRunStatus) : bool :=
  match self with TAwaitingApproval | TPaused | TStale => true | _ => false end.

Definition try_transition (self next : TaskRunStatus) : bool :=
  if bool_decide (self = next) then true
  else match self, next with
  | (TSucceeded | TFailed | TAborted | TCancelled), _ => false
  | TPending, (TRunnable | TCancelled | TSucceeded | TFailed) => true
  | TPending, _ => false
  | TRunnable, (TRunning | TCancelled | TFailed) => true
  | TRunnable, _ => false
  | TRunning, (TAwaitingApproval | TPaused | TAborting | TSucceeded | TFailed | TCancelled) => true
  | TRunning, _ => false
  | TAwaitingApproval,
      (TRunnable | TAborting | TFailed | TStale | TSucceeded | TCancelled) => true
  | TAwaitingApproval, _ => false
  | TStale, (TRunnable | TFailed | TCancelled) => true
  | TStale, _ => false
  | TPaused, (TRunnable | TAborting | TFailed | TCancelled) => true
  | TPaused, _ => false
  | TAborting, TAborted => true
  | TAborting, _ => false
  end.

(** ** Failures *)

Inductive FailureClass : Type :=
| TransientInfra | ApprovalPending | AwaitingUserInput | TimeoutClass | ChildCancelled
| ArtifactInvalid | DependencyMissing | GateUnsatisfied | GateUnableToEvaluate
| InstallConflict | PolicyDenied | SchemaValidationFailed | TaskContractInvalid
| OutputContractUnmet | ChildGaveUp | BadReference | UnknownClass.

(** The name [serde] writes. *)
Definition failure_class_key (c : FailureClass) : string :=
  match c with
  | TransientInfra => "transient_infra"
  | ApprovalPending => "approval_pending"
  | AwaitingUserInput => "awaiting_user_input"
  | TimeoutClass => "timeout"
  | ChildCancelled => "child_cancelled"
  | ArtifactInvalid => "artifact_invalid"
  | DependencyMissing => "dependency_missing"
  | GateUnsatisfied => "gate_unsatisfied"
  | GateUnableToEvaluate => "gate_unable_to_evaluate"
  | InstallConflict => "install_conflict"
  | PolicyDenied => "policy_denied"
  | SchemaValidationFailed => "schema_validation_failed"
  | TaskContractInvalid => "task_contract_invalid"
  | OutputContractUnmet => "output_contract_unmet"
  | ChildGaveUp => "child_gave_up"
  | BadReference => "bad_reference"
  | UnknownClass => "unknown"
  end.

Inductive RetryAdvice : Type :=
| Wait | RetrySameStage | RetryAfterExternalRecovery | DoNotRetry | EscalateHuman
| FixArtifactThenRetry.

Inductive SideEffectState : Type := NoSideEffect | Committed | UnknownEffect.

Record WorkflowFailureMetadata := {
  failure_class : option FailureClass;
  retry_advice : option RetryAdvice;
  retryable : option bool;
  requires_external_event : option bool;
  requires_human : option bool;
  side_effect_state : option SideEffectState;
}.

(** The constructors of [WorkflowFailureMetadata] differ in these values only. *)
Definition failure_metadata (c : FailureClass) (advice : option RetryAdvice)
    (retry : option bool) (event human : bool) (effect : SideEffectState)
    : WorkflowFailureMetadata :=
  {| failure_class := Some c; retry_advice := advice; retryable := retry;
     requires_external_event := Some event; requires_human := Some human;
     side_effect_state := Some effect |}.

Definition approval_pending :=
  failure_metadata ApprovalPending (Some Wait) (Some false) true true NoSideEffect.
Definition policy_denied :=
  failure_metadata PolicyDenied (Some DoNotRetry) (Some false) false true NoSideEffect.
Definition child_cancelled :=
  failure_metadata ChildCancelled (Some DoNotRetry) (Some false) false false UnknownEffect.
Definition install_conflict :=
  failure_metadata InstallConflict (Some DoNotRetry) (Some false) false false NoSideEffect.
Definition timeout := failure_metadata TimeoutClass None (Some true) false false UnknownEffect.
Definition timeout_waiting_on_human :=
  failure_metadata TimeoutClass (Some Wait) (Some false) true true NoSideEffect.
Definition transient_infra :=
  failure_metadata TransientInfra None (Some true) false false NoSideEffect.
Definition schema_validation_failed :=
  failure_metadata SchemaValidationFailed (Some FixArtifactThenRetry) (Some true) false false
    NoSideEffect.
Definition unknown_failure := failure_metadata UnknownClass None None false false UnknownEffect.
Definition output_contract_unmet :=
  failure_metadata OutputContractUnmet (Some DoNotRetry) (Some false) false false UnknownEffect.
Definition child_gave_up :=
  failure_metadata ChildGaveUp (Some DoNotRetry) (Some false) false false UnknownEffect.
Definition bad_reference :=
  failure_metadata BadReference (Some DoNotRetry) (Some false) false false NoSideEffect.

Definition metadata_for_failure_class (c : FailureClass) : WorkflowFailureMetadata :=
  match c with
  | ApprovalPending => approval_pending
  | PolicyDenied => policy_denied
  | ChildCancelled => child_cancelled
  | InstallConflict => install_conflict
  | TimeoutClass => timeout
  | TransientInfra => transient_infra
  | SchemaValidationFailed => schema_validation_failed
  | OutputContractUnmet => output_contract_unmet
  | ChildGaveUp => child_gave_up
  | BadReference => bad_reference
  | AwaitingUserInput | ArtifactInvalid | DependencyMissing | GateUnsatisfied
  | GateUnableToEvaluate | TaskContractInvalid | UnknownClass => unknown_failure
  end.

(** The phrases of provider errors that are worth another attempt. *)
Definition transient_phrases : list string :=
  ["connection refused"; "transport reset"; "502"; "503"; "504"; "500"; "529"; "api error 5";
   "overloaded"; "peg-native"; "internal server error"; "temporarily unavailable"].

Definition classify_failure_summary (summary : string) : WorkflowFailureMetadata :=
  if starts_with summary "approval_rejected" then policy_denied
  else if contains summary "approval timed out" then timeout_waiting_on_human
  else if contains summary "install conflict" || contains summary "active revision exists"
          || contains summary "archived revision exists" then install_conflict
  else if contains summary "llm_transport:timeout" then timeout
  else if contains summary "llm_transport:" then transient_infra
  else if existsb (contains summary) transient_phrases then transient_infra
  else if contains summary "timed out" || contains summary "timeout" then timeout
  else if contains summary "validation failed" || contains summary "response_validation"
          || contains summary "schema" then schema_validation_failed
  else unknown_failure.

Definition classify_task_status (status : TaskRunStatus) (result_summary : option string)
    : option WorkflowFailureMetadata :=
  match status with
  | TAwaitingApproval => Some approval_pending
  | TCancelled => Some child_cancelled
  | TAborted => Some unknown_failure
  | TFailed => Some (classify_failure_summary (to_lowercase (default "" result_summary)))
  | _ => None
  end.

(** ** Records *)

(** [join_policy] is stored and copied, never consulted. *)
Inductive JoinPolicy : Type := AllOf | AnyOf | FirstSuccess | Manual.

Record WorkflowRun := {
  wf_id : string;
  wf_root_session_id : string;
  lead_agent_id : string;
  wf_status : WorkflowRunStatus;
  wf_created_at : string;
  wf_updated_at : string;
  active_task_ids : list string;
  queued_task_ids : list string;
  join_policy : JoinPolicy;
  join_task_ids : list string;
  wf_plan_ref : option PlanRef;
  reactivated_for_root_spawn : bool;
}.

Record TaskRun := {
  task_id : string;
  task_workflow_id : string;
  task_agent_id : string;
  task_session_id : string;
  parent_session_id : string;
  task_status : TaskRunStatus;
  task_created_at : string;
  task_updated_at : string;
  task_source_agent_id : option string;
  result_summary : option string;
  join_group : option string;
  message : option string;
  metadata : option Json;
  retry_count : Z;
  last_failure_class : option FailureClass;
  retry_policy : option Json;
  task_side_effect_state : option SideEffectState;
  dedupe_key : option string;
}.

Record LockedCredentialMount := {
  service : string;
  credential_id : option string;
}.

Record QueuedTaskRun := {
  q_task_id : string;
  q_workflow_id : string;
  q_agent_id : string;
  q_message : string;
  child_session_id : string;
  q_parent_session_id : string;
  q_source_agent_id : string;
  q_metadata : option Json;
  q_join_group : option string;
  blocks_planner : bool;
  enqueued_at : string;
  credential_bindings : list LockedCredentialMount;
}.

(** The version is a [u32] that grows by one per checkpoint of the task; it is not
    wrapped here, so the model stands for tasks of fewer than 2^32 checkpoints. *)
Record TaskCheckpoint := {
  cp_version : Z;
  cp_step : string;
  cp_state : Json;
}.

(** ** Retries *)

Definition retry_policy_from_metadata (metadata : option Json) : option Json :=
  m ← metadata; _ ← json_as_object m; json_get m "retry_policy".

Definition default_child_retry_policy : option Json :=
  Some (json_object [("transient_infra", json_object [("max_retries", JNumber 1)]);
                     ("timeout", json_object [("max_retries", JNumber 1)])]).

(** [u32::try_from]. *)
Definition retry_budget_for_failure (policy : Json) (c : FailureClass) : option Z :=
  entry ← json_get policy (failure_class_key c);
  v ← json_get entry "max_retries";
  n ← json_as_u64 v;
  if bool_decide (is_u32 n) then Some n else None.

Record StageRetryDecision := {
  failure : option WorkflowFailureMetadata;
  retry_scheduled : bool;
  budget_exhausted : bool;
  next_retry_count : Z;
  max_retries : option Z;
}.

Definition with_advice (f : WorkflowFailureMetadata) (advice : RetryAdvice) (retry : option bool)
    : WorkflowFailureMetadata :=
  f{{ retry_advice := Some advice; retryable := retry }}.

(** The recorded class of the task comes before a classification of the new
    failure. *)
Definition observed_failure (task : TaskRun) (status : TaskRunStatus) (summary : option string)
    : option WorkflowFailureMetadata :=
  match last_failure_class task with
  | Some c =>
      let m := metadata_for_failure_class c in
      Some (match task_side_effect_state task with
            | Some e => m{{ side_effect_state := Some e }}
            | None => m
            end)
  | None => classify_task_status status summary
  end.

Definition evaluate_stage_retry (task : TaskRun) (status : TaskRunStatus)
    (summary : option string) : StageRetryDecision :=
  let decision f scheduled exhausted next max :=
    {| failure := f; retry_scheduled := scheduled; budget_exhausted := exhausted;
       next_retry_count := next; max_retries := max |} in
  let same f max := decision f false false (retry_count task) max in
  let failure := observed_failure task status summary in
  if negb (bool_decide (status = TFailed)) then same failure None
  else match failure, retry_policy task with
  | Some f, Some policy =>
      match failure_class f with
      | None => same failure None
      | Some c =>
          match retry_budget_for_failure policy c with
          | None => same failure None
          | Some max =>
              if negb (bool_decide (retryable f = Some true))
                 || bool_decide (requires_external_event f = Some true)
                 || bool_decide (requires_human f = Some true)
              then same failure (Some max)
              else match side_effect_state f with
              | Some UnknownEffect =>
                  same (Some (with_advice f EscalateHuman (Some false))) (Some max)
              | Some Committed => same (Some (with_advice f DoNotRetry (Some false))) (Some max)
              | _ =>
                  if (retry_count task <? max)%Z
                  then decision (Some (with_advice f RetrySameStage (retryable f))) true false
                         (retry_count task + 1)%Z (Some max)
                  else decision (Some (with_advice f DoNotRetry (Some false))) false true
                         (retry_count task) (Some max)
              end
          end
      end
  | _, _ => same failure None
  end.

(** What [schedule_task_stage_retry] writes into the task. *)
Definition stage_retry_task (now : string) (task : TaskRun) (summary : option string)
    (decision : StageRetryDecision) : TaskRun :=
  let task := task{{ task_status := TRunnable; task_updated_at := now; result_summary := summary;
                     retry_count := next_retry_count decision }} in
  match failure decision with
  | Some f => task{{ last_failure_class := failure_class f;
                     task_side_effect_state := side_effect_state f }}
  | None => task
  end.

(** ** Retries: theorems *)

(** When a failed stage runs again: its failure has a class with a budget in
    the policy, is retryable without anybody's help, certainly had no side
    effect, and the budget is not used up. *)
Definition may_retry (task : TaskRun) (summary : option string) : Prop :=
  ∃ f policy c max, observed_failure task TFailed summary = Some f ∧
    retry_policy task = Some policy ∧ failure_class f = Some c ∧
    retry_budget_for_failure policy c = Some max ∧
    retryable f = Some true ∧ requires_external_event f ≠ Some true ∧
    requires_human f ≠ Some true ∧
    side_effect_state f ≠ Some UnknownEffect ∧ side_effect_state f ≠ Some Committed ∧
    (retry_count task < max)%Z.

Ltac refused :=
  cbn; split; [split; [done|]|done];
  intros (_ & f' & p' & c' & m' & ? & ? & ? & ? & ? & ? & ? & ? & ? & ?);
  simplify_eq; try done; lia.

(** A stage is tried again exactly when its failure allows it, and then once
    more is counted; otherwise the count stays. *)
Theorem stage_retry_spec task status summary :
  let d := evaluate_stage_retry task status summary in
  (retry_scheduled d = true ↔ status = TFailed ∧ may_retry task summary) ∧
  next_retry_count d = (if retry_scheduled d then retry_count task + 1 else retry_count task)%Z.
Proof.
  unfold evaluate_stage_retry. destruct (decide (status = TFailed)) as [->|Hs].
  2:{ rewrite bool_decide_eq_false_2 by done. cbn. split; [|done]. split; [done|by intros [??]]. }
  rewrite bool_decide_eq_true_2 by done. cbn [negb].
  destruct (observed_failure task TFailed summary) as [f|] eqn:Ef; [|refused].
  destruct (retry_policy task) as [policy|] eqn:Ep; [|refused].
  destruct (failure_class f) as [c|] eqn:Ec; [|refused].
  destruct (retry_budget_for_failure policy c) as [max|] eqn:Em; [|refused].
  repeat case_bool_decide; cbn [negb orb]; try refused.
  destruct (side_effect_state f) as [[]|] eqn:Es; try refused.
  all: destruct (Z.ltb_spec (retry_count task) max); [|refused].
  all: cbn; split; [|done]; split; [|done]; intros _; split; [done|];
    exists f, policy, c, max; by rewrite Es.
Qed.

(** The stage fails again and again; before each failure the recorded class and
    side effect may be anything.  The number of times it is scheduled again. *)
Fixpoint scheduled_retries (task : TaskRun)
    (failures : list (option FailureClass * option SideEffectState * string)) : nat :=
  match failures with
  | [] => 0
  | (c, e, summary) :: rest =>
      let task := task{{ last_failure_class := c; task_side_effect_state := e }} in
      let d := evaluate_stage_retry task TFailed (Some summary) in
      if retry_scheduled d
      then S (scheduled_retries (stage_retry_task "" task (Some summary) d) rest)
      else scheduled_retries task rest
  end.

Lemma stage_retry_task_fields now task summary d :
  retry_policy (stage_retry_task now task summary d) = retry_policy task ∧
  retry_count (stage_retry_task now task summary d) = next_retry_count d.
Proof. unfold stage_retry_task. by destruct (failure d). Qed.

(** Automatic retries are bounded, whatever the failures are called: a stage
    runs again at most as often as the largest budget of its policy allows
    beyond the retries already counted. *)
Theorem stage_retries_bounded task policy failures bound :
  retry_policy task = Some policy →
  (∀ c max, retry_budget_for_failure policy c = Some max → (max ≤ bound)%Z) →
  (Z.of_nat (scheduled_retries task failures) ≤ Z.max 0 (bound - retry_count task))%Z.
Proof.
  intros Hp Hb. revert task Hp. induction failures as [|[[c e] summary] rest IH]; intros task Hp.
  { cbn. lia. }
  cbn [scheduled_retries].
  set (t := task{{ last_failure_class := c; task_side_effect_state := e }}).
  destruct (stage_retry_spec t TFailed (Some summary)) as [Hspec Hnext].
  destruct (retry_scheduled _) eqn:Hs; [|by apply (IH t)].
  destruct Hspec as [Hspec _]. destruct (Hspec eq_refl) as (_ & f & p & c' & max & _ & Hp' & _ & Hm & _ & _ & _ & _ & _ & Hlt).
  change (retry_policy t) with (retry_policy task) in Hp'. rewrite Hp in Hp'.
  injection Hp' as <-. apply Hb in Hm.
  destruct (stage_retry_task_fields "" t (Some summary) (evaluate_stage_retry t TFailed (Some summary)))
    as [Hp2 Hc2].
  specialize (IH (stage_retry_task "" t (Some summary) (evaluate_stage_retry t TFailed (Some summary)))).
  rewrite Hp2, Hc2, Hnext in IH. specialize (IH Hp).
  change (retry_count t) with (retry_count task) in *. lia.
Qed.

(** Two surprises of the retry decision.  A failure classified as a timeout is
    never tried again, although the default policy grants it one attempt: its
    side effects count as unknown.  And once a class is recorded, later failures
    are not classified any more: whatever the new one says, a stage whose first
    failure was transient is retried as long as the budget lasts. *)
Theorem retry_surprises task summary policy max :
  (last_failure_class task = None →
   classify_failure_summary (to_lowercase summary) = timeout →
   retry_scheduled (evaluate_stage_retry task TFailed (Some summary)) = false) ∧
  (last_failure_class task = Some TransientInfra → task_side_effect_state task = Some NoSideEffect →
   retry_policy task = Some policy → retry_budget_for_failure policy TransientInfra = Some max →
   (retry_count task < max)%Z →
   retry_scheduled (evaluate_stage_retry task TFailed (Some summary)) = true).
Proof.
  split.
  - intros Hc Ht. apply not_true_iff_false. intros H. apply stage_retry_spec in H.
    destruct H as (_ & f & p & c & m & Hf & _ & _ & _ & _ & _ & _ & Hu & _).
    unfold observed_failure in Hf. rewrite Hc in Hf.
    change (Some (classify_failure_summary (to_lowercase summary)) = Some f) in Hf.
    rewrite Ht in Hf. by simplify_eq.
  - intros Hc He Hp Hm Hlt. apply stage_retry_spec. split; [done|].
    unfold may_retry, observed_failure. rewrite Hc, He.
    by eexists _, policy, TransientInfra, max.
Qed.

(** ** Examples *)

Definition demo_task : TaskRun :=
  {| task_id := "task-1"; task_workflow_id := "wf-1"; task_agent_id := "coder";
     task_session_id := "root/coder-1"; parent_session_id := "root"; task_status := TRunning;
     task_created_at := "t0"; task_updated_at := "t0"; task_source_agent_id := None;
     result_summary := None; join_group := None; message := None; metadata := None;
     retry_count := 0; last_failure_class := None; retry_policy := default_child_retry_policy;
     task_side_effect_state := None; dedupe_key := None |}.

Example overloaded_is_retried :
  retry_scheduled (evaluate_stage_retry demo_task TFailed (Some "API error 529: Overloaded")) = true.
Proof. reflexivity. Qed.

Lemma default_policy_budget c max :
  retry_budget_for_failure (default JNull default_child_retry_policy) c = Some max → (max ≤ 1)%Z.
Proof. intros H. destruct c; vm_compute in H; simplify_eq; lia. Qed.

Lemma stage_retries_bounded_witness :
  let failures := replicate 5 (None, None, "503 service unavailable") in
  scheduled_retries demo_task failures = 1 ∧
  (Z.of_nat (scheduled_retries demo_task failures) ≤ Z.max 0 (1 - retry_count demo_task))%Z.
Proof.
  split; [reflexivity|].
  apply (stage_retries_bounded demo_task (default JNull default_child_retry_policy));
    [reflexivity|exact default_policy_budget].
Defined.

Lemma retry_surprises_witness :
  retry_scheduled (evaluate_stage_retry demo_task TFailed (Some "read timed out")) = false ∧
  (let task := demo_task{{ last_failure_class := Some TransientInfra;
                           task_side_effect_state := Some NoSideEffect }} in
   retry_scheduled (evaluate_stage_retry task TFailed (Some "approval_rejected")) = true).
Proof.
  split.
  - apply (retry_surprises demo_task "read timed out" JNull 0); reflexivity.
  - apply (retry_surprises
      (demo_task{{ last_failure_class := Some TransientInfra;
                   task_side_effect_state := Some NoSideEffect }})
      "approval_rejected" (default JNull default_child_retry_policy) 1); reflexivity.
Defined.
