(* ===== verification/WorkflowStore.v ===== *)
(** * The workflow store

    scheduler/workflow_store.rs on top of the task, queue and claim tables of
    gateway_store/workflow_tasks.rs and the singleton index of
    gateway_store/singleton_index.rs: every operation that changes a workflow
    run, a task, a queue row, a claim or a singleton slot.

    One value holds the tables and the files.  What an operation tells other
    parts of the gateway (timeline events, signals to a waiting session, the
    closing of a transcript, the release of a reservation, ...) is appended to
    [effects] in order.  Queries answered by those parts (artifact references,
    the outcome a reply reports) are arguments.  Reads and writes succeed;
    legacy JSON files are migrated already.  One clock reading serves a whole
    operation. *)

From Stdlib Require Import Ascii String Lia.
From stdpp Require Import prelude gmap strings list sorting.
From coqutil Require Import Datatypes.RecordSetters.
From S2P Require Import Prelude RustStr Json ContentStore Workflow.
Import DoubleBraceUpdate.

Open Scope string_scope.
Open Scope list_scope.

(** ** State *)

Inductive AgentOutcome : Type := Pass | OutcomeFail | Partial | UnableToEvaluate | ClarificationNeeded.

#[export] Instance agent_outcome_eq_dec : EqDecision AgentOutcome.
Proof. solve_decision. Defined.

#[export] Instance failure_class_eq_dec : EqDecision FailureClass.
Proof. solve_decision. Defined.

Record ChildStateNotification := {
  n_workflow_id : string;
  n_task_id : string;
  n_child_session_id : string;
  child_status : string;
  n_failure_class : option FailureClass;
  install_conflict_detail : option string;
  n_retry_advice : option RetryAdvice;
  n_side_effect_state : option SideEffectState;
  agent_outcome : option AgentOutcome;
  summary : option string;
  artifact_refs : list string;
}.

(** What an operation asks of other parts of the gateway. *)
Inductive Effect : Type :=
| TimelineEvent (wf : string) (task : option string) (event_type : string)
| SessionTerminated (session status : string)
| ApprovalCancelled (task reason : string)
| ArtifactCreated (task : string)
| ReservationReleased (wf key : string)
| JoinSatisfied (root wf : string) (tasks : list string) (summaries : list ChildStateNotification)
| JoinHookDispatched (root wf : string) (tasks : list string)
| ChildState (target : string) (n : ChildStateNotification)
| NotificationsSuppressed (wf : string)
| Launched (q : QueuedTaskRun)
| ActiveExecution (task status : string)
| CausalEvent (session action : string)
| WaiterNotified (session : string)
| ExecutionsAborted (wf : string) (tasks : list string)
| SessionCheckpointsRemoved (session : string)
| LateDecision (wf task : string)
| WaitersCleared (request : string)
| ValidationNoted (base_session error : string) (repair_attempted : bool).

Record TaskExecutionClaim := {
  scheduler_instance_id : string;
  claimed_at : string;
  heartbeat_at : string;
}.

Inductive SlotStatus : Type := SlotPending | SlotRunning | SlotTerminal.

Record SingletonSlot := {
  slot_task : string;
  slot_status : SlotStatus;
}.

Notation Key := (string * string)%type.

Record WorkflowDb := {
  runs : gmap string WorkflowRun;
  root_index : gmap string string;
  tasks : gmap Key TaskRun;
  queue : gmap Key QueuedTaskRun;
  claims : gmap Key TaskExecutionClaim;
  checkpoints : gmap Key TaskCheckpoint;
  slots : gmap (string * string * string) SingletonSlot;
  effects : list Effect;
}.

Definition emit (db : WorkflowDb) (e : Effect) : WorkflowDb :=
  db{{ effects := effects db ++ [e] }}.

Inductive WorkflowError : Type :=
| WorkflowNotFound (wf : string)
| TaskNotFound (wf task : string)
| InEmergencyStop (wf : string)
| RetryNotScheduled
| NotRetryable (task : string) (status : TaskRunStatus)
| EmptyRootSession.

(** ** Runs *)

Definition save_workflow_run (db : WorkflowDb) (run : WorkflowRun) : WorkflowDb :=
  db{{ runs := <[wf_id run := run]> (runs db) }}.

Definition load_workflow_run (db : WorkflowDb) (wf : string) : option WorkflowRun := runs db !! wf.

Definition is_workflow_terminal (db : WorkflowDb) (wf : string) : bool :=
  match load_workflow_run db wf with
  | Some run => run_is_terminal (wf_status run)
  | None => false
  end.

Definition resolve_workflow_id_for_root_session (db : WorkflowDb) (root : string) : option string :=
  root_index db !! root.

Definition new_run (now wf root lead : string) : WorkflowRun :=
  {| wf_id := wf; wf_root_session_id := root; lead_agent_id := lead; wf_status := WfActive;
     wf_created_at := now; wf_updated_at := now; active_task_ids := []; queued_task_ids := [];
     join_policy := AllOf; join_task_ids := []; wf_plan_ref := None;
     reactivated_for_root_spawn := false |}.

(** [fresh] is the random identifier of a new workflow. *)
Definition ensure_workflow_for_root_session (now fresh : string) (db : WorkflowDb) (root : string)
    (lead : option string) : WorkflowDb * result WorkflowRun WorkflowError :=
  if str_is_empty (trim root) then (db, Err EmptyRootSession)
  else match root_index db !! root with
  | Some wf =>
      let run := default (new_run now wf root (default "" lead)) (load_workflow_run db wf) in
      match lead with
      | Some l =>
          if str_is_empty (lead_agent_id run) && negb (str_is_empty l)
          then let run := run{{ lead_agent_id := l; wf_updated_at := now }} in
               (save_workflow_run db run, Ok run)
          else (db, Ok run)
      | None => (db, Ok run)
      end
  | None =>
      let run := new_run now fresh root (default "" lead) in
      let db := save_workflow_run db run in
      let db := db{{ root_index := <[root := fresh]> (root_index db) }} in
      (emit db (TimelineEvent fresh None "workflow.started"), Ok run)
  end.

(** ** Tasks *)

Definition task_key (t : TaskRun) : Key := (task_workflow_id t, task_id t).

Definition upsert_task_run (db : WorkflowDb) (t : TaskRun) : WorkflowDb :=
  db{{ tasks := <[task_key t := t]> (tasks db) }}.

Definition load_task_run (db : WorkflowDb) (wf tid : string) : option TaskRun :=
  tasks db !! (wf, tid).

(** [ORDER BY created_at ASC, task_id ASC]. *)
Definition task_order (a b : TaskRun) : comparison :=
  match String.compare (task_created_at a) (task_created_at b) with
  | Eq => String.compare (task_id a) (task_id b)
  | c => c
  end.

Definition list_task_runs (db : WorkflowDb) (wf : string) : list TaskRun :=
  sort_by task_order
    (List.filter (λ e, (e.1.1 =? wf)%string) (map_to_list (tasks db))).*2.

Definition push_id (ids : list string) (id : string) : list string :=
  if existsb (String.eqb id) ids then ids else ids ++ [id].

Definition without_id (ids : list string) (id : string) : list string :=
  List.filter (λ x, negb (x =? id)%string) ids.

Definition track_active (now : string) (run : WorkflowRun) (t : TaskRun) : WorkflowRun :=
  run{{ active_task_ids := if is_terminal_for_join (task_status t)
                           then without_id (active_task_ids run) (task_id t)
                           else push_id (active_task_ids run) (task_id t);
        wf_updated_at := now }}.

Definition save_task_run (now : string) (db : WorkflowDb) (t : TaskRun)
    : WorkflowDb * result unit WorkflowError :=
  let db := upsert_task_run db t in
  match load_workflow_run db (task_workflow_id t) with
  | None => (db, Err (WorkflowNotFound (task_workflow_id t)))
  | Some run => (save_workflow_run db (track_active now run t), Ok tt)
  end.

Definition update_task_run_metadata (now : string) (db : WorkflowDb) (wf tid : string) (m : Json)
    : WorkflowDb * result unit WorkflowError :=
  match load_task_run db wf tid with
  | None => (db, Err (TaskNotFound wf tid))
  | Some t => save_task_run now db (t{{ metadata := Some m; task_updated_at := now }})
  end.

Definition refresh_task_run_heartbeat (now : string) (db : WorkflowDb) (wf tid : string)
    : WorkflowDb * result unit WorkflowError :=
  match load_task_run db wf tid with
  | Some t => if bool_decide (task_status t = TRunning)
              then save_task_run now db (t{{ task_updated_at := now }}) else (db, Ok tt)
  | None => (db, Ok tt)
  end.

(** [checkpoint_task]: a new version of the task's checkpoint. *)
Definition checkpoint_task (db : WorkflowDb) (wf tid step : string) (state : Json) : WorkflowDb :=
  let version := match checkpoints db !! (wf, tid) with Some cp => cp_version cp | None => 0%Z end in
  let db := db{{ checkpoints := <[(wf, tid) := {| cp_version := (version + 1)%Z; cp_step := step;
                                                   cp_state := state |}]> (checkpoints db) }} in
  emit db (TimelineEvent wf (Some tid) "task.checkpoint.saved").

Definition any_awaiting (db : WorkflowDb) (wf : string) : bool :=
  existsb (λ t, bool_decide (task_status t = TAwaitingApproval)) (list_task_runs db wf).

Definition stopping (s : WorkflowRunStatus) : bool :=
  match s with WfEmergencyStopping | WfEmergencyStopped => true | _ => false end.

Definition sync_workflow_blocked_approval_status (now : string) (db : WorkflowDb) (wf : string)
    : WorkflowDb :=
  match load_workflow_run db wf with
  | None => db
  | Some run =>
      match wf_status run with
      | WfEmergencyStopping | WfEmergencyStopped | WfCompleted | WfFailed | WfCancelled => db
      | s =>
          let save s := save_workflow_run db (run{{ wf_status := s; wf_updated_at := now }}) in
          if any_awaiting db wf
          then if bool_decide (s = WfBlockedApproval) then db else save WfBlockedApproval
          else if bool_decide (s = WfBlockedApproval) then save WfWaitingChildren else db
      end
  end.

(** [workflow_approval_gate_active], without the request identifiers. *)
Definition awaiting_task_ids (db : WorkflowDb) (wf : string) : list string :=
  task_id <$> List.filter (λ t, bool_decide (task_status t = TAwaitingApproval))
                (list_task_runs db wf).

Definition workflow_approval_gate_active (db : WorkflowDb) (wf : string) : option (list string) :=
  run ← load_workflow_run db wf;
  if bool_decide (wf_status run = WfBlockedApproval)
     || negb (bool_decide (awaiting_task_ids db wf = []))
  then Some (awaiting_task_ids db wf) else None.

(** ** Singleton slots *)

Definition slot_active (s : SingletonSlot) : bool :=
  match slot_status s with SlotPending | SlotRunning => true | SlotTerminal => false end.

Definition try_acquire_singleton_slot (db : WorkflowDb) (wf agent : string)
    (revision : option string) (tid : string) : WorkflowDb * option string :=
  let k := (wf, agent, default "" revision) in
  let db := match slots db !! k with
            | Some s => if slot_active s then db
                        else db{{ slots := <[k := {| slot_task := tid; slot_status := SlotPending |}]>
                                             (slots db) }}
            | None => db{{ slots := <[k := {| slot_task := tid; slot_status := SlotPending |}]>
                                      (slots db) }}
            end in
  (db, s ← slots db !! k;
       if slot_active s && negb (slot_task s =? tid)%string then Some (slot_task s) else None).

Definition singleton_indexed_task_is_terminal (db : WorkflowDb) (wf tid : string) : bool :=
  match load_task_run db wf tid with Some t => is_terminal (task_status t) | None => false end.

Definition release_singleton_slot_by_task_id (db : WorkflowDb) (wf tid : string) : WorkflowDb :=
  db{{ slots := map_imap (λ k s,
         Some (if (k.1.1 =? wf)%string && (slot_task s =? tid)%string && slot_active s
               then {| slot_task := slot_task s; slot_status := SlotTerminal |} else s)) (slots db) }}.

(** Two passes at most, then one more attempt. *)
Fixpoint acquire_singleton_loop (fuel : nat) (db : WorkflowDb) (wf agent : string)
    (revision : option string) (tid : string) : WorkflowDb * option string :=
  let '(db, existing) := try_acquire_singleton_slot db wf agent revision tid in
  match existing, fuel with
  | None, _ => (db, None)
  | Some id, S fuel =>
      if singleton_indexed_task_is_terminal db wf id
      then acquire_singleton_loop fuel (release_singleton_slot_by_task_id db wf id) wf agent
             revision tid
      else (db, Some id)
  | Some id, 0 => (db, Some id)
  end.

Definition acquire_singleton_slot := acquire_singleton_loop 2.

Definition activate_singleton_task (db : WorkflowDb) (wf agent : string) (revision : option string)
    (tid : string) : WorkflowDb :=
  let k := (wf, agent, default "" revision) in
  match slots db !! k with
  | Some {| slot_task := t; slot_status := SlotPending |} =>
      if (t =? tid)%string
      then db{{ slots := <[k := {| slot_task := t; slot_status := SlotRunning |}]> (slots db) }}
      else db
  | _ => db
  end.

Definition delete_singleton_slots_for_workflow (db : WorkflowDb) (wf : string) : WorkflowDb :=
  db{{ slots := filter (λ e, negb (e.1.1.1 =? wf)%string = true) (slots db) }}.


(** ** Claims *)

Section Claims.
(** [parse_from_rfc3339], in nanoseconds, of the [chrono] crate. *)
Context (parse_rfc3339 : string → option Z).

Definition claim_is_stale (now_ns : Z) (claim : TaskExecutionClaim) (stale_after_secs : Z) : bool :=
  match parse_rfc3339 (heartbeat_at claim) with
  | None => true
  | Some t => bool_decide (stale_after_secs * 1000000000 < now_ns - t)%Z
  end.

(** [instance] is a fresh identifier. *)
Definition acquire_task_claim (now : string) (now_ns : Z) (instance : string) (db : WorkflowDb)
    (wf tid : string) (stale_after_secs : Z) : WorkflowDb * option TaskExecutionClaim :=
  let claim := {| scheduler_instance_id := instance; claimed_at := now; heartbeat_at := now |} in
  let write := (db{{ claims := <[(wf, tid) := claim]> (claims db) }}, Some claim) in
  match claims db !! (wf, tid) with
  | Some old => if claim_is_stale now_ns old stale_after_secs then write else (db, None)
  | None => write
  end.
End Claims.

Definition refresh_task_claim_heartbeat (now : string) (db : WorkflowDb) (wf tid : string)
    : WorkflowDb :=
  db{{ claims := alter (λ c, c{{ heartbeat_at := now }}) (wf, tid) (claims db) }}.

Definition release_task_claim (db : WorkflowDb) (wf tid : string) : WorkflowDb :=
  db{{ claims := delete (wf, tid) (claims db) }}.

(** ** Queue *)

Definition queue_order (a b : QueuedTaskRun) : comparison :=
  String.compare (enqueued_at a) (enqueued_at b).

Definition load_queued_tasks (db : WorkflowDb) (wf : string) : list QueuedTaskRun :=
  sort_by queue_order (List.filter (λ e, (e.1.1 =? wf)%string) (map_to_list (queue db))).*2.

Definition enqueue_task (now : string) (db : WorkflowDb) (q : QueuedTaskRun)
    : WorkflowDb * result unit WorkflowError :=
  match load_workflow_run db (q_workflow_id q) with
  | None => (db, Err (WorkflowNotFound (q_workflow_id q)))
  | Some run =>
      if stopping (wf_status run) then (db, Err (InEmergencyStop (q_workflow_id q)))
      else
        let db := db{{ queue := <[(q_workflow_id q, q_task_id q) := q]> (queue db) }} in
        let run := run{{ queued_task_ids := push_id (queued_task_ids run) (q_task_id q);
                         join_task_ids := if blocks_planner q
                                          then push_id (join_task_ids run) (q_task_id q)
                                          else join_task_ids run;
                         wf_status := if blocks_planner q && bool_decide (wf_status run = WfActive)
                                      then WfWaitingChildren else wf_status run;
                         wf_updated_at := now }} in
        let db := save_workflow_run db run in
        (emit db (TimelineEvent (q_workflow_id q) (Some (q_task_id q)) "task.queued"), Ok tt)
  end.

(** A workflow that is gone leaves the claim in place. *)
Definition dequeue_task (now : string) (db : WorkflowDb) (wf tid : string) : WorkflowDb :=
  let db := db{{ queue := delete (wf, tid) (queue db) }} in
  match load_workflow_run db wf with
  | None => db
  | Some run =>
      let run := run{{ queued_task_ids := without_id (queued_task_ids run) tid;
                       active_task_ids := without_id (active_task_ids run) tid;
                       wf_updated_at := now }} in
      release_task_claim (save_workflow_run db run) wf tid
  end.


(** ** Outcome of a child *)

(** [parse_status_str]. *)
Definition parse_status_str (s : string) : option AgentOutcome :=
  let s := to_lowercase (trim s) in
  if existsb (String.eqb s) ["pass"; "passed"; "ok"; "success"; "succeeded"] then Some Pass
  else if existsb (String.eqb s) ["fail"; "failed"; "error"] then Some OutcomeFail
  else if (s =? "partial")%string then Some Partial
  else if existsb (String.eqb s) ["unable_to_evaluate"; "unable"; "skip"; "skipped"]
  then Some UnableToEvaluate
  else if existsb (String.eqb s) ["clarification_needed"; "needs_clarification"]
  then Some ClarificationNeeded
  else None.

Definition gate_keys : list string :=
  ["evaluator_pass"; "auditor_pass"; "static_evaluator_pass"; "unit_test_runner_pass";
   "sealed_evaluator_pass"].

Definition outcome_from_value (v : Json) : option AgentOutcome :=
  match json_get v "status" ≫= json_as_str with
  | Some status => parse_status_str status
  | None => find_map (λ key, b ← json_get v key ≫= json_as_bool;
                             Some (if (b : bool) then Pass else OutcomeFail)) gate_keys
  end.

(** [check_output_contract]: the declared outputs nobody produced. *)
Definition check_output_contract (expected_outputs produced_content_names
    produced_artifact_files : list string) : list string :=
  omap (λ expected,
    let name := trim expected in
    if str_is_empty name || existsb (String.eqb name) produced_content_names
       || existsb (String.eqb name) produced_artifact_files
    then None else Some name) expected_outputs.

(** Metadata that is no object is left alone. *)
Definition set_metadata (task : TaskRun) (key : string) (v : Json) : TaskRun :=
  let m := default (JObject []) (metadata task) in
  task{{ metadata := Some (match m with JObject o => JObject (bt_insert key v o) | _ => m end) }}.

Definition record_output_contract_check (now : string) (task : TaskRun) (unmet : list string)
    : TaskRun :=
  set_metadata task "output_contract_check"
    (json_object [("unmet", json_strings unmet); ("checked_at", JString now)]).

Definition record_full_result_ref (task : TaskRun) (cnt_ref : string) : TaskRun :=
  set_metadata task "full_result_ref" (JString cnt_ref).

(** The unmet outputs recorded in the metadata. *)
Definition recorded_unmet (task : TaskRun) : list string :=
  match (m ← metadata task; v ← json_get m "output_contract_check"; json_get v "unmet")
        ≫= json_as_array with
  | Some unmet => omap json_as_str unmet
  | None => []
  end.

Section Child.
(** [extract_reply_json_value]: the JSON found in a reply; and the references, the
    global ones excepted, a session sees. *)
Context (extract_reply_json_value : string → option Json)
        (artifact_refs_of : string → list string).

Definition extract_agent_outcome (reply : string) : option AgentOutcome :=
  v ← extract_reply_json_value reply; outcome_from_value v.

(** The class a succeeded task is reported with when no failure is recorded. *)
Definition succeeded_class (task : TaskRun) (result_summary : option string)
    (outcome : option AgentOutcome) : option FailureClass :=
  if negb (bool_decide (recorded_unmet task = [])) then Some OutputContractUnmet
  else if str_is_empty (trim (default "" result_summary)) && bool_decide (outcome = None)
  then Some ChildGaveUp else None.

Definition build_child_state_notification (task : TaskRun) (status : TaskRunStatus)
    (result_summary : option string) (task_failure : option WorkflowFailureMetadata)
    : ChildStateNotification :=
  let succeeded := bool_decide (status = TSucceeded) in
  let outcome := if succeeded then result_summary ≫= extract_agent_outcome else None in
  let class :=
    match task_failure ≫= failure_class with
    | Some c => Some c
    | None => if succeeded then succeeded_class task result_summary outcome else None
    end in
  let gave_up := bool_decide (class = Some ChildGaveUp) in
  {| n_workflow_id := task_workflow_id task;
     n_task_id := task_id task;
     n_child_session_id := task_session_id task;
     child_status := task_status_str status;
     n_failure_class := class;
     install_conflict_detail :=
       if bool_decide (class = Some InstallConflict)
       then s ← result_summary; if str_is_empty (trim s) then None else Some (trim s)
       else None;
     n_retry_advice := match task_failure ≫= retry_advice with
                       | Some a => Some a
                       | None => if gave_up then Some DoNotRetry else None
                       end;
     n_side_effect_state := match task_failure ≫= side_effect_state with
                            | Some e => Some e
                            | None => if gave_up then Some UnknownEffect else None
                            end;
     agent_outcome := outcome;
     summary := result_summary;
     artifact_refs := [] |}.

Definition with_artifact_refs (n : ChildStateNotification) : ChildStateNotification :=
  n{{ artifact_refs := artifact_refs_of (n_child_session_id n) }}.

(** ** Joins *)

Definition join_group_of (t : TaskRun) : string := default "" (join_group t).

(** The join tasks by [join_group]; the order of the groups plays no role. *)
Definition check_join_condition (db : WorkflowDb) (wf : string) : bool :=
  match load_workflow_run db wf with
  | None => false
  | Some run =>
      if bool_decide (join_task_ids run = []) then true
      else match mapM (load_task_run db wf) (join_task_ids run) with
      | None => false
      | Some ts =>
          existsb (λ g, forallb (λ t, negb (join_group_of t =? g)%string
                                      || is_terminal_for_join (task_status t)) ts)
                  (join_group_of <$> ts)
      end
  end.

Definition gather_join_child_summaries (db : WorkflowDb) (wf : string) (ids : list string)
    : list ChildStateNotification :=
  let ids := if bool_decide (ids = []) then task_id <$> list_task_runs db wf else ids in
  omap (λ id,
    t ← load_task_run db wf id;
    if is_terminal (task_status t)
    then Some (with_artifact_refs (build_child_state_notification t (task_status t) (result_summary t)
                            (metadata_for_failure_class <$> last_failure_class t)))
    else None) ids.

Definition child_state_event_type (s : TaskRunStatus) : option string :=
  match s with
  | TAwaitingApproval | TPaused => Some "workflow.child.waiting"
  | TRunnable | TSucceeded | TFailed | TCancelled | TAborted => Some "workflow.child.resolved"
  | _ => None
  end.

Definition task_event_type (s : TaskRunStatus) : string :=
  match s with
  | TSucceeded => "task.completed"
  | TFailed | TCancelled | TAborted => "task.failed"
  | TAwaitingApproval => "task.awaiting_approval"
  | TRunning => "task.started"
  | _ => "task.updated"
  end.

(** ** Parked tasks *)

Definition is_child_of (session : string) (t : TaskRun) : bool :=
  (parent_session_id t =? session)%string
  || (str_is_empty (parent_session_id t) && (session =? root_session_id session)%string).

Definition session_has_non_terminal_children (db : WorkflowDb) (wf session : string) : bool :=
  existsb (λ t, is_child_of session t && negb (is_terminal_for_join (task_status t)))
    (list_task_runs db wf).

Definition child_wait_step : string := "paused_child_wait".

(** A task that ended its turn to wait for its children. *)
Definition parked (db : WorkflowDb) (wf : string) (t : TaskRun) : bool :=
  bool_decide (task_status t = TPaused)
  && match checkpoints db !! (wf, task_id t) with
     | Some cp => (cp_step cp =? child_wait_step)%string
     | None => false
     end.

(** A loop whose body may return early with an error. *)
Fixpoint try_for_each {A} (f : WorkflowDb → A → WorkflowDb * result unit WorkflowError)
    (l : list A) (db : WorkflowDb) : WorkflowDb * result unit WorkflowError :=
  match l with
  | [] => (db, Ok tt)
  | x :: l => match f db x with
              | (db, Ok _) => try_for_each f l db
              | (db, Err e) => (db, Err e)
              end
  end.

Definition wake_task (now wf : string) (db : WorkflowDb) (t : TaskRun)
    : WorkflowDb * result unit WorkflowError :=
  if negb (parked db wf t) then (db, Ok tt)
  else if session_has_non_terminal_children db wf (task_session_id t) then (db, Ok tt)
  else match save_task_run now db (t{{ task_status := TRunnable; task_updated_at := now }}) with
  | (db, Err e) => (db, Err e)
  | (db, Ok _) => (emit db (TimelineEvent wf (Some (task_id t)) "task.updated"), Ok tt)
  end.

Definition wake_paused_child_wait_tasks (now : string) (db : WorkflowDb) (wf : string)
    : WorkflowDb * result unit WorkflowError :=
  try_for_each (wake_task now wf) (list_task_runs db wf) db.

(** ** Changing the status of a task *)

(** After the status is saved, and before anybody is told. *)
Definition close_task (now : string) (db : WorkflowDb) (task : TaskRun)
    (previous status : TaskRunStatus) (result_summary : option string) : WorkflowDb :=
  let wf := task_workflow_id task in
  let ends := is_terminal status && negb (is_terminal previous) in
  let db := if ends && negb (str_is_empty (task_session_id task))
            then emit db (SessionTerminated (task_session_id task)
                            (if bool_decide (status = TSucceeded) then "completed" else "failed"))
            else db in
  let db := if ends then release_singleton_slot_by_task_id db wf (task_id task) else db in
  let db := if bool_decide (status = TCancelled) && bool_decide (previous = TAwaitingApproval)
            then emit db (ApprovalCancelled (task_id task)
                            (default "workflow_task_cancelled" result_summary))
            else db in
  let db := if bool_decide (previous = TAwaitingApproval) || bool_decide (status = TAwaitingApproval)
            then sync_workflow_blocked_approval_status now db wf else db in
  if bool_decide (status = TSucceeded) && negb (bool_decide (previous = TSucceeded))
  then emit db (ArtifactCreated (task_id task)) else db.

Definition announce_task (db : WorkflowDb) (task : TaskRun) (status : TaskRunStatus)
    (exhausted : bool) : WorkflowDb :=
  let wf := task_workflow_id task in
  let event db type := emit db (TimelineEvent wf (Some (task_id task)) type) in
  let db := event db (task_event_type status) in
  let db := if exhausted then event db "workflow.stage_budget_exhausted" else db in
  let db := match dedupe_key task with
            | Some key => if is_terminal status then emit db (ReservationReleased wf key) else db
            | None => db
            end in
  match child_state_event_type status with Some type => event db type | None => db end.

(** The join of a task that ended: the workflow becomes resumable and its root
    session is told, by the hook if one delivers this signal ([Some true]). *)
Definition satisfy_join (now : string) (hook : option bool) (db : WorkflowDb) (run : WorkflowRun)
    : WorkflowDb :=
  let wf := wf_id run in
  let root := wf_root_session_id run in
  let db := save_workflow_run db (run{{ wf_status := WfResumable; wf_updated_at := now }}) in
  let db := emit db (TimelineEvent wf None "workflow.join.satisfied") in
  let db := if negb (bool_decide (hook = Some true)) && negb (starts_with wf "sched-")
            then emit db (JoinSatisfied root wf (join_task_ids run)
                            (gather_join_child_summaries db wf (join_task_ids run)))
            else db in
  if bool_decide (is_Some hook) then emit db (JoinHookDispatched root wf (join_task_ids run)) else db.

(** The fields an update writes. *)
Definition updated_task (now : string) (task : TaskRun) (status : TaskRunStatus)
    (reply : option string) (decision : StageRetryDecision) : TaskRun :=
  let task := task{{ task_status := status; task_updated_at := now; result_summary := reply }} in
  match failure decision with
  | Some f => task{{ last_failure_class := failure_class f;
                     task_side_effect_state := side_effect_state f }}
  | None => task
  end.

Definition update_task_run_status (now : string) (hook : option bool) (db : WorkflowDb)
    (wf tid : string) (status : TaskRunStatus) (reply : option string)
    : WorkflowDb * result unit WorkflowError :=
  match load_task_run db wf tid with
  | None => (db, Err (TaskNotFound wf tid))
  | Some task =>
      let previous := task_status task in
      if negb (try_transition previous status) then (db, Ok tt)
      else
        let decision := evaluate_stage_retry task status reply in
        let notification :=
          with_artifact_refs (build_child_state_notification task status reply (failure decision)) in
        let task := updated_task now task status reply decision in
        match save_task_run now db task with
        | (db, Err e) => (db, Err e)
        | (db, Ok _) =>
            let db := close_task now db task previous status reply in
            let db := announce_task db task status (budget_exhausted decision) in
            match load_workflow_run db wf with
            | None => (db, Ok tt)
            | Some run =>
                let db := if bool_decide (status = TAwaitingApproval)
                             && negb (bool_decide (wf_status run = WfBlockedApproval))
                          then save_workflow_run db (run{{ wf_status := WfBlockedApproval;
                                                           wf_updated_at := now }})
                          else db in
                let joined := is_terminal_for_join status && negb (stopping (wf_status run))
                              && negb (bool_decide (wf_status run = WfResumable))
                              && check_join_condition db wf in
                let db := if joined then satisfy_join now hook db run else db in
                let root := wf_root_session_id run in
                let target := if str_is_empty (parent_session_id task) then root
                              else parent_session_id task in
                let db := match child_state_event_type status with
                          | Some _ => if negb joined || negb (target =? root)%string
                                      then emit db (ChildState target notification) else db
                          | None => db
                          end in
                (if is_terminal_for_join status
                 then (wake_paused_child_wait_tasks now db wf).1 else db, Ok tt)
            end
        end
  end.

(** ** The janitor *)

Definition repaired_active_ids (run : WorkflowRun) (ts : list TaskRun) : list string :=
  let live := task_id <$> List.filter (λ t, negb (is_terminal_for_join (task_status t))) ts in
  fold_left push_id live
    (List.filter (λ id, existsb (String.eqb id) live) (active_task_ids run)).

Definition orphaned_wait : string := "workflow terminated while parked in child-wait".

Definition fail_orphan (now wf : string) (db : WorkflowDb) (t : TaskRun) : WorkflowDb :=
  if parked db wf t
  then (update_task_run_status now None db wf (task_id t) TFailed (Some orphaned_wait)).1 else db.

Definition reconcile_workflow (now : string) (db : WorkflowDb) (wf : string)
    : WorkflowDb * result unit WorkflowError :=
  match load_workflow_run db wf with
  | None => (db, Ok tt)
  | Some run =>
      let ts := list_task_runs db wf in
      let repaired := repaired_active_ids run ts in
      let db := if bool_decide (repaired = active_task_ids run) then db
                else save_workflow_run db (run{{ active_task_ids := repaired;
                                                 wf_updated_at := now }}) in
      if run_is_terminal (wf_status run)
      then (fold_left (fail_orphan now wf) ts db, Ok tt)
      else wake_paused_child_wait_tasks now db wf
  end.

(** [dirs] are the directories under [runs/], in any order. *)
Definition reconcile_paused_child_wait_tasks (now : string) (db : WorkflowDb) (dirs : list string)
    : WorkflowDb * result unit WorkflowError :=
  try_for_each (reconcile_workflow now) dirs db.

(** ** Retries *)

Definition schedule_task_stage_retry (now : string) (db : WorkflowDb) (wf tid : string)
    (reply : option string) (decision : StageRetryDecision)
    : WorkflowDb * result unit WorkflowError :=
  if negb (retry_scheduled decision) then (db, Err RetryNotScheduled)
  else match load_task_run db wf tid with
  | None => (db, Err (TaskNotFound wf tid))
  | Some task =>
      match save_task_run now db (stage_retry_task now task reply decision) with
      | (db, Err e) => (db, Err e)
      | (db, Ok _) => (emit db (TimelineEvent wf (Some tid) "task.updated"), Ok tt)
      end
  end.

Definition is_failed_or_aborted (s : TaskRunStatus) : bool :=
  match s with TFailed | TAborted => true | _ => false end.

(** [u32::saturating_add]. *)
Definition saturating_add_u32 (a b : Z) : Z := Z.min (a + b) U32_MAX.

Definition retry_workflow_task (now : string) (db : WorkflowDb) (wf tid : string)
    (note : option string) : WorkflowDb * result TaskRun WorkflowError :=
  match load_task_run db wf tid with
  | None => (db, Err (TaskNotFound wf tid))
  | Some task =>
      if negb (is_failed_or_aborted (task_status task))
      then (db, Err (NotRetryable tid (task_status task)))
      else
        let reply := default ("operator retry at " ++ now)%string note in
        let task := task{{ task_status := TRunnable; task_updated_at := now;
                           retry_count := saturating_add_u32 (retry_count task) 1;
                           result_summary := Some reply; last_failure_class := None;
                           task_side_effect_state := None }} in
        match save_task_run now db task with
        | (db, Err e) => (db, Err e)
        | (db, Ok _) =>
            let db :=
              match load_workflow_run db wf with
              | Some run =>
                  if run_is_terminal (wf_status run)
                  then save_workflow_run db (run{{ wf_status := WfResumable;
                                                   reactivated_for_root_spawn := true;
                                                   wf_updated_at := now }})
                  else db
              | None => db
              end in
            (emit db (TimelineEvent wf (Some tid) "task.updated"), Ok task)
        end
  end.

Definition nonblank_arg (s : option string) : option string :=
  t ← s; if str_is_empty (trim t) then None else Some (trim t).

(** [Err true]: no workflow of this root; [Err false]: neither was given. *)
Definition resolve_workflow_id_for_operator_retry (db : WorkflowDb)
    (workflow_id root_session : option string) : result string bool :=
  match nonblank_arg workflow_id, nonblank_arg root_session with
  | Some w, _ => Ok w
  | None, Some r => match resolve_workflow_id_for_root_session db r with
                    | Some w => Ok w
                    | None => Err true
                    end
  | None, None => Err false
  end.

(** ** The end of a workflow *)

Inductive TerminatedReason : Type := RCompleted | RFailed | RSuspended.

Inductive SessionLifecycleState : Type :=
| SActive | SHibernated | SAwaitingGate | SIdle | SPaused | STerminated (r : TerminatedReason).

Definition lifecycle_str (s : SessionLifecycleState) : string :=
  match s with
  | SActive => "active"
  | SHibernated => "hibernated"
  | SAwaitingGate => "awaiting_gate"
  | SIdle => "idle"
  | SPaused => "paused"
  | STerminated RCompleted => "terminated:completed"
  | STerminated RFailed => "terminated:failed"
  | STerminated RSuspended => "terminated:suspended"
  end.

Definition lifecycle_states : list SessionLifecycleState :=
  [SActive; SHibernated; SAwaitingGate; SIdle; SPaused; STerminated RCompleted;
   STerminated RFailed; STerminated RSuspended].

Definition lifecycle_from_str (s : string) : option SessionLifecycleState :=
  List.find (λ st, (lifecycle_str st =? s)%string) lifecycle_states.

Definition permits_workflow_completion (s : SessionLifecycleState) : bool :=
  match s with STerminated _ | SHibernated | SIdle => true | _ => false end.

Inductive StoredLifecycle : Type := Known (s : SessionLifecycleState) | UnknownTerminal | Unrecognised.

Definition TERMINATED_PREFIX : string := "terminated:".

Definition classify_stored (raw : string) : StoredLifecycle :=
  match lifecycle_from_str raw with
  | Some s => Known s
  | None => if starts_with raw TERMINATED_PREFIX then UnknownTerminal else Unrecognised
  end.

Definition stored_permits_completion (s : StoredLifecycle) : bool :=
  match s with
  | Known s => permits_workflow_completion s
  | UnknownTerminal => true
  | Unrecognised => false
  end.

(** [lifecycle] is the stored state of the root session, [pending_escalations]
    the fallback for a session without one, [workbenches] whether an active
    workbench is left unreconciled. *)
Definition try_complete_workflow (now : string) (db : WorkflowDb) (root : string)
    (lifecycle : option string) (pending_escalations workbenches : bool) : WorkflowDb * bool :=
  match (wf ← resolve_workflow_id_for_root_session db root; run ← load_workflow_run db wf;
         Some (wf, run)) with
  | None => (db, false)
  | Some (wf, run) =>
      if negb (bool_decide (wf_status run = WfResumable)) then (db, false)
      else if negb (bool_decide (active_task_ids run = []))
              || negb (bool_decide (queued_task_ids run = [])) then (db, false)
      else if negb (check_join_condition db wf) then (db, false)
      else if negb (match lifecycle with
                    | Some raw => stored_permits_completion (classify_stored raw)
                    | None => negb pending_escalations
                    end) then (db, false)
      else
        let db := if workbenches
                  then emit db (TimelineEvent wf None "workflow.unreconciled_workbenches")
                  else db in
        let db := save_workflow_run db (run{{ wf_status := WfCompleted;
                                              reactivated_for_root_spawn := false;
                                              wf_updated_at := now }}) in
        let db := emit db (NotificationsSuppressed wf) in
        (emit db (TimelineEvent wf None "workflow.completed"), true)
  end.

(** The number of tasks failed; an error of one of them is logged. *)
Definition fail_running_tasks_for_session (now : string) (db : WorkflowDb) (session reason : string)
    : WorkflowDb * nat :=
  match resolve_workflow_id_for_root_session db (root_session_id session) with
  | None => (db, 0)
  | Some wf =>
      fold_left (λ '(db, failed) t,
        if (task_session_id t =? session)%string && bool_decide (task_status t = TRunning)
        then let '(db, r) := update_task_run_status now None db wf (task_id t) TFailed
                               (Some ("child session terminated: " ++ reason)%string) in
             (db, if is_ok r then S failed else failed)
        else (db, failed)) (list_task_runs db wf) (db, 0)
  end.

(** One task of a workflow whose root session failed. *)
Definition fail_task (now reason : string) (db : WorkflowDb) (t : TaskRun) : WorkflowDb :=
  if is_terminal (task_status t) then db
  else match save_task_run now db
               (t{{ task_status := TFailed; task_updated_at := now;
                    result_summary := Some ("root session terminated: " ++ reason)%string }}) with
  | (db, Err _) => db
  | (db, Ok _) => if str_is_empty (task_session_id t) then db
                  else emit db (SessionTerminated (task_session_id t) "failed")
  end.

Definition fail_workflow_for_root_session (now : string) (db : WorkflowDb) (root reason : string)
    (mark_workflow_failed : bool) : WorkflowDb * bool :=
  match resolve_workflow_id_for_root_session db root with
  | None => (db, false)
  | Some wf =>
      let db := fold_left (fail_task now reason) (list_task_runs db wf) db in
      let db :=
        match load_workflow_run db wf with
        | Some run =>
            if mark_workflow_failed && negb (stopping (wf_status run))
            then save_workflow_run db (run{{ wf_status := WfFailed; wf_updated_at := now }})
            else db
        | None => db
        end in
      (emit db (NotificationsSuppressed wf), true)
  end.

(** ** Emergency stop *)

Record EmergencyStopWorkflowSummary := {
  tasks_aborted : nat;
  queued_removed : nat;
  already_stopped : bool;
}.

Definition abort_task (now stop_id wf : string) (db : WorkflowDb) (t : TaskRun)
    : WorkflowDb * result unit WorkflowError :=
  if is_terminal (task_status t) then (db, Ok tt)
  else
    let db := release_task_claim db wf (task_id t) in
    match save_task_run now db
            (t{{ task_status := TAborted; task_updated_at := now;
                 result_summary := Some ("emergency_stop:" ++ stop_id)%string }}) with
    | (db, Err e) => (db, Err e)
    | (db, Ok _) =>
        let db := if str_is_empty (task_session_id t) then db
                  else emit db (SessionTerminated (task_session_id t) "failed") in
        (emit db (TimelineEvent wf (Some (task_id t)) "task.failed"), Ok tt)
    end.

(** The run read at the start is what the last save writes back. *)
Definition apply_emergency_stop_to_workflow (now : string) (db : WorkflowDb) (wf stop_id : string)
    : WorkflowDb * result EmergencyStopWorkflowSummary WorkflowError :=
  match load_workflow_run db wf with
  | None => (db, Err (WorkflowNotFound wf))
  | Some run =>
      if bool_decide (wf_status run = WfEmergencyStopped)
      then (db, Ok {| tasks_aborted := 0; queued_removed := 0; already_stopped := true |})
      else
        let run := run{{ wf_status := WfEmergencyStopping; wf_updated_at := now }} in
        let db := save_workflow_run db run in
        let queued := load_queued_tasks db wf in
        let db := fold_left (λ db q,
                    release_task_claim (dequeue_task now db wf (q_task_id q)) wf (q_task_id q))
                    queued db in
        let ts := list_task_runs db wf in
        match try_for_each (abort_task now stop_id wf) ts db with
        | (db, Err e) => (db, Err e)
        | (db, Ok _) =>
            let run := run{{ queued_task_ids := []; wf_status := WfEmergencyStopped;
                             wf_updated_at := now }} in
            let db := delete_singleton_slots_for_workflow (save_workflow_run db run) wf in
            (emit db (TimelineEvent wf None "workflow.emergency_stopped"),
             Ok {| tasks_aborted :=
                     length (List.filter (λ t, negb (is_terminal (task_status t))) ts);
                   queued_removed := length queued; already_stopped := false |})
        end
  end.

End Child.
