(* ===== verification/WorkflowInv.v ===== *)
(** * The workflow store: theorems

    What the operations of WorkflowStore.v promise each other and the scheduler:
    which status changes happen, that a parked task is never left behind, when a
    join is satisfied and who is told, what an emergency stop leaves, when a
    workflow completes, and who holds a claim or a singleton slot. *)

From Stdlib Require Import Ascii String Lia.
From stdpp Require Import prelude gmap strings list sorting.
From coqutil Require Import Datatypes.RecordSetters.
From S2P Require Import Prelude RustStr Json ContentStore Workflow WorkflowStore.
Import DoubleBraceUpdate.

Open Scope string_scope.
Open Scope list_scope.

(** ** The tables *)

(** A row is found under its own key. *)
Record well_keyed (db : WorkflowDb) : Prop := {
  task_keys : ∀ k t, tasks db !! k = Some t → task_key t = k;
  run_keys : ∀ wf r, runs db !! wf = Some r → wf_id r = wf;
  queue_keys : ∀ k q, queue db !! k = Some q → (q_workflow_id q, q_task_id q) = k;
}.

Lemma elem_of_list_task_runs db wf t :
  t ∈ list_task_runs db wf ↔ ∃ tid, load_task_run db wf tid = Some t.
Proof.
  unfold list_task_runs, load_task_run. rewrite elem_of_sort_by, list_elem_of_fmap. split.
  - intros ([[w tid] t'] & -> & H). apply list_elem_of_In, filter_In in H as [H E].
    apply list_elem_of_In, elem_of_map_to_list in H. apply str_eqb_spec in E. cbn in E. subst w.
    by exists tid.
  - intros [tid H]. exists (wf, tid, t). split; [done|].
    apply list_elem_of_In, filter_In. split; [|by apply str_eqb_spec].
    by apply list_elem_of_In, elem_of_map_to_list.
Qed.

Lemma load_task_key db wf tid t :
  well_keyed db → load_task_run db wf tid = Some t → task_workflow_id t = wf ∧ task_id t = tid.
Proof. intros Hk H. apply (task_keys db Hk) in H. unfold task_key in H. by simplify_eq. Qed.

Lemma listed_task db wf t :
  well_keyed db →
  t ∈ list_task_runs db wf ↔ load_task_run db wf (task_id t) = Some t ∧ task_workflow_id t = wf.
Proof.
  intros Hk. rewrite elem_of_list_task_runs. split.
  - intros [tid H]. by destruct (load_task_key _ _ _ _ Hk H) as [? <-].
  - intros [H _]. by exists (task_id t).
Qed.

Lemma NoDup_task_ids db wf : well_keyed db → NoDup (task_id <$> list_task_runs db wf).
Proof.
  intros Hk. unfold list_task_runs.
  rewrite (fmap_Permutation _ _ _ (sort_by_perm task_order _)).
  set (l := map_to_list (tasks db)). assert (∀ k t, (k, t) ∈ l → task_key t = k) as Hl.
  { intros k t H. apply elem_of_map_to_list in H. by apply (task_keys db Hk). }
  assert (NoDup l.*1) as Hnd by apply NoDup_fst_map_to_list.
  clearbody l. induction l as [|[k t] l IH]; [constructor|]. cbn in *.
  apply NoDup_cons in Hnd as [Hn Hnd].
  assert (NoDup (task_id <$> (List.filter (λ e, (e.1.1 =? wf)%string) l).*2)) as IH'.
  { apply IH; [intros ???; apply Hl; by right|done]. }
  destruct (k.1 =? wf)%string eqn:E; [|done]. cbn. apply NoDup_cons. split; [|done].
  intros H. apply list_elem_of_fmap in H as (t' & Eid & H).
  apply list_elem_of_fmap in H as ([k' ?] & -> & H). cbn in *.
  apply list_elem_of_In, filter_In in H as [H E'].
  apply list_elem_of_In in H. apply str_eqb_spec in E, E'.
  assert (task_key t = k) as Hk1 by (apply Hl; left).
  assert (task_key t0 = k') as Hk2 by (apply Hl; by right).
  apply Hn, list_elem_of_fmap. exists (k', t0). split; [|done]. cbn.
  unfold task_key in *. destruct k, k'. cbn in *. congruence.
Qed.

Lemma workflow_run_saved db run wf :
  load_workflow_run (save_workflow_run db run) wf
  = if decide (wf_id run = wf) then Some run else load_workflow_run db wf.
Proof.
  unfold load_workflow_run, save_workflow_run. apply lookup_insert.
Qed.

Lemma load_run_emit db e wf : load_workflow_run (emit db e) wf = load_workflow_run db wf.
Proof. done. Qed.

Lemma well_keyed_emit db e : well_keyed db → well_keyed (emit db e).
Proof. intros []. by split. Qed.

Lemma well_keyed_save_run db run : well_keyed db → well_keyed (save_workflow_run db run).
Proof.
  intros [Ht Hr Hq]. split; [done| |done]. intros wf r H.
  change (load_workflow_run (save_workflow_run db run) wf = Some r) in H.
  rewrite workflow_run_saved in H. destruct (decide _); [by simplify_eq|by apply Hr].
Qed.

(** [save_task_run] on a workflow that exists. *)
Lemma save_task_run_ok now db t run :
  load_workflow_run db (task_workflow_id t) = Some run →
  save_task_run now db t
  = (save_workflow_run (upsert_task_run db t) (track_active now run t), Ok tt).
Proof.
  intros H. unfold save_task_run.
  change (load_workflow_run (upsert_task_run db t) (task_workflow_id t))
    with (load_workflow_run db (task_workflow_id t)). by rewrite H.
Qed.

Lemma save_task_run_cases now db t db' r :
  save_task_run now db t = (db', r) →
  tasks db' = <[task_key t := t]> (tasks db) ∧
  (r = Ok tt ∧ (∃ run, load_workflow_run db (task_workflow_id t) = Some run ∧
     db' = save_workflow_run (upsert_task_run db t) (track_active now run t)) ∨
   r = Err (WorkflowNotFound (task_workflow_id t)) ∧
     load_workflow_run db (task_workflow_id t) = None ∧ db' = upsert_task_run db t).
Proof.
  unfold save_task_run. change (load_workflow_run (upsert_task_run db t) (task_workflow_id t))
    with (load_workflow_run db (task_workflow_id t)).
  destruct (load_workflow_run db _) as [run|]; intros [= <- <-]; (split; [done|]); [left|right]; eauto.
Qed.

Lemma well_keyed_upsert db t : well_keyed db → well_keyed (upsert_task_run db t).
Proof.
  intros [Ht Hr Hq]. split; [|done..]. intros k t' H. cbn in H.
  apply lookup_insert_Some in H as [[<- <-]|[_ H]]; [done|by apply Ht].
Qed.

Lemma well_keyed_save_task now db t :
  well_keyed db → well_keyed (save_task_run now db t).1.
Proof.
  intros Hk. destruct (save_task_run now db t) as [db' r] eqn:E. cbn.
  destruct (save_task_run_cases _ _ _ _ _ E) as [_ [(_ & run & _ & ->)|(_ & _ & ->)]].
  - by apply well_keyed_save_run, well_keyed_upsert.
  - by apply well_keyed_upsert.
Qed.

(** ** Waking parked tasks *)

Definition live (t : TaskRun) : bool := negb (is_terminal_for_join (task_status t)).

Lemma session_children_spec db wf s :
  session_has_non_terminal_children db wf s = true ↔
  ∃ tid u, load_task_run db wf tid = Some u ∧ is_child_of s u = true ∧ live u = true.
Proof.
  unfold session_has_non_terminal_children. rewrite existsb_true.
  setoid_rewrite elem_of_list_task_runs. setoid_rewrite andb_true_iff. unfold live. naive_solver.
Qed.

(** The next turn of a parked task can start: nothing it waits for is live. *)
Definition ready (db : WorkflowDb) (wf : string) (t : TaskRun) : bool :=
  parked db wf t && negb (session_has_non_terminal_children db wf (task_session_id t)).

Definition woken (now : string) (t : TaskRun) : TaskRun :=
  t{{ task_status := TRunnable; task_updated_at := now }}.

Lemma parked_paused db wf t : parked db wf t = true → task_status t = TPaused.
Proof. unfold parked. intros H. bool_norm. by case_bool_decide. Qed.

(** Waking a paused task changes what no session waits for. *)
Lemma children_after_wake now db db' wf t s :
  load_task_run db wf (task_id t) = Some t → task_workflow_id t = wf → task_status t = TPaused →
  tasks db' = <[task_key t := woken now t]> (tasks db) →
  session_has_non_terminal_children db' wf s = session_has_non_terminal_children db wf s.
Proof.
  intros Hl <- Hp E. apply eq_true_iff_eq. rewrite !session_children_spec.
  unfold load_task_run in *. rewrite E. unfold task_key.
  split; intros (tid & u & Hu & Hc & Hv).
  - destruct (decide (tid = task_id t)) as [->|Hne].
    + rewrite lookup_insert_eq in Hu. simplify_eq. exists (task_id t), t.
      split; [done|]. split; [done|]. unfold live. by rewrite Hp.
    + rewrite lookup_insert_ne in Hu by congruence. by exists tid, u.
  - destruct (decide (tid = task_id t)) as [->|Hne].
    + rewrite Hl in Hu. simplify_eq. exists (task_id u), (woken now u).
      rewrite lookup_insert_eq. done.
    + exists tid, u. by rewrite lookup_insert_ne by congruence.
Qed.

Definition after_wake (now : string) (db : WorkflowDb) (wf : string) (ids : list string) (k : Key)
    : option TaskRun :=
  t ← tasks db !! k;
  Some (if bool_decide (k.1 = wf) && bool_decide (k.2 ∈ ids) && ready db wf t
        then woken now t else t).

Lemma wake_task_spec now wf db t :
  load_task_run db wf (task_id t) = Some t → task_workflow_id t = wf →
  is_Some (load_workflow_run db wf) → well_keyed db →
  ∃ db', wake_task now wf db t = (db', Ok tt) ∧
    tasks db' = (if ready db wf t then <[task_key t := woken now t]> (tasks db) else tasks db) ∧
    checkpoints db' = checkpoints db ∧ is_Some (load_workflow_run db' wf) ∧ well_keyed db'.
Proof.
  intros Hl Hw Hr Hk. unfold wake_task, ready.
  destruct (parked db wf t); [|by exists db].
  destruct (session_has_non_terminal_children db wf (task_session_id t)); [by exists db|].
  destruct Hr as [run Hr]. cbn [negb andb].
  assert (load_workflow_run db (task_workflow_id (woken now t)) = Some run) as Hr'
    by (change (task_workflow_id (woken now t)) with (task_workflow_id t); by rewrite Hw).
  change (t{{ task_status := TRunnable; task_updated_at := now }}) with (woken now t).
  rewrite (save_task_run_ok now db _ run Hr'). eexists. split; [reflexivity|].
  split; [done|]. split; [done|]. split.
  - rewrite load_run_emit, workflow_run_saved. case_decide; [done|].
    change (is_Some (load_workflow_run db wf)). by exists run.
  - by apply well_keyed_emit, well_keyed_save_run, well_keyed_upsert.
Qed.

Lemma wake_loop_spec now wf l db :
  (∀ t, t ∈ l → load_task_run db wf (task_id t) = Some t ∧ task_workflow_id t = wf) →
  NoDup (task_id <$> l) → is_Some (load_workflow_run db wf) → well_keyed db →
  ∃ db', try_for_each (wake_task now wf) l db = (db', Ok tt) ∧
    (∀ k : Key, tasks db' !! k = after_wake now db wf (task_id <$> l) k) ∧
    checkpoints db' = checkpoints db ∧ is_Some (load_workflow_run db' wf) ∧ well_keyed db'.
Proof.
  revert db. induction l as [|t l IH]; intros db Hl Hnd Hr Hk.
  { exists db. split; [done|]. split; [|done]. intros k. unfold after_wake.
    destruct (tasks db !! k) as [t|]; [|done]. cbn [fmap list_fmap mbind option_bind].
    rewrite (bool_decide_eq_false_2 (k.2 ∈ [])) by apply not_elem_of_nil. by rewrite andb_false_r. }
  destruct (Hl t) as [Ht Hw]; [left|].
  apply NoDup_cons in Hnd as [Hni Hnd].
  destruct (wake_task_spec now wf db t Ht Hw Hr Hk) as (db1 & E1 & T1 & C1 & R1 & K1).
  cbn [try_for_each]. rewrite E1.
  assert (∀ s, session_has_non_terminal_children db1 wf s = session_has_non_terminal_children db wf s) as Hch.
  { intros s. destruct (ready db wf t) eqn:Er; [|by unfold session_has_non_terminal_children, list_task_runs; rewrite T1].
    apply (children_after_wake now db db1 wf t s Ht Hw); [|done].
    unfold ready in Er. bool_norm. by eapply parked_paused. }
  assert (∀ u, ready db1 wf u = ready db wf u) as Hrd.
  { intros u. unfold ready, parked. by rewrite Hch, C1. }
  destruct (IH db1) as (db2 & E2 & T2 & C2 & R2 & K2).
  - intros u Hu. destruct (Hl u) as [Hlu Hwu]; [by right|]. split; [|done].
    unfold load_task_run in *. rewrite T1. destruct (ready db wf t); [|done].
    rewrite lookup_insert_ne; [done|]. unfold task_key. intros [= _ E].
    apply Hni. rewrite E. by apply list_elem_of_fmap_2.
  - done.
  - done.
  - done.
  - exists db2. split; [done|]. split; [|by rewrite C2].
    intros k. rewrite T2. unfold after_wake. rewrite T1.
    destruct (decide (k = task_key t)) as [->|Hne].
    + assert (tasks db !! task_key t = Some t) as Et by (unfold task_key; by rewrite Hw).
      rewrite Et. cbn [mbind option_bind]. unfold task_key. cbn [fst snd].
      rewrite (bool_decide_eq_true_2 (task_workflow_id t = wf)) by done. cbn [andb].
      rewrite (bool_decide_eq_true_2 (task_id t ∈ task_id <$> t :: l)) by left.
      rewrite (bool_decide_eq_false_2 (task_id t ∈ task_id <$> l)) by done. cbn [andb].
      destruct (ready db wf t); [by rewrite lookup_insert_eq|].
      change (task_workflow_id t, task_id t) with (task_key t). by rewrite Et.
    + replace ((if ready db wf t then <[task_key t:=woken now t]> (tasks db) else tasks db) !! k)
        with (tasks db !! k) by (destruct (ready db wf t); [by rewrite lookup_insert_ne|done]).
      destruct (tasks db !! k) as [u|] eqn:Eu; [|done]. cbn [mbind option_bind].
      f_equal. rewrite Hrd. destruct (bool_decide_reflect (k.1 = wf)) as [Ek|]; [|done]. cbn [andb].
      erewrite (bool_decide_ext (k.2 ∈ task_id <$> l)); [done|].
      rewrite fmap_cons, elem_of_cons. split; [by right|]. intros [E|]; [|done].
      destruct Hne. destruct k. unfold task_key. cbn in *. congruence.
Qed.

(** The scan wakes exactly the tasks that are ready. *)
Lemma wake_spec now db wf :
  is_Some (load_workflow_run db wf) → well_keyed db →
  ∃ db', wake_paused_child_wait_tasks now db wf = (db', Ok tt) ∧
    (∀ k : Key, tasks db' !! k = t ← tasks db !! k;
       Some (if bool_decide (k.1 = wf) && ready db wf t then woken now t else t)) ∧
    checkpoints db' = checkpoints db ∧ is_Some (load_workflow_run db' wf) ∧ well_keyed db'.
Proof.
  intros Hr Hk.
  destruct (wake_loop_spec now wf (list_task_runs db wf) db) as (db' & E & T & rest); [|by apply NoDup_task_ids|done|done|].
  { intros t. by apply listed_task. }
  exists db'. split; [done|]. split; [|done]. intros k. rewrite T. unfold after_wake.
  destruct (tasks db !! k) as [t|] eqn:Et; [|done]. cbn [mbind option_bind]. f_equal.
  destruct (bool_decide_reflect (k.1 = wf)) as [Ek|]; [|done]. cbn [andb].
  rewrite bool_decide_eq_true_2; [done|]. apply list_elem_of_fmap. exists t.
  destruct k as [w tid]. cbn in *. subst w. split; [by destruct (load_task_key _ _ _ _ Hk Et)|].
  apply elem_of_list_task_runs. by exists tid.
Qed.

(** No parked task waits for nothing: the wait of each has a live child. *)
Definition no_lost_wakeup (db : WorkflowDb) (wf : string) : Prop :=
  ∀ tid t, load_task_run db wf tid = Some t → parked db wf t = true →
    session_has_non_terminal_children db wf (task_session_id t) = true.

Lemma wake_no_lost_wakeup now db wf :
  is_Some (load_workflow_run db wf) → well_keyed db →
  no_lost_wakeup (wake_paused_child_wait_tasks now db wf).1 wf.
Proof.
  intros Hr Hk. destruct (wake_spec now db wf Hr Hk) as (db' & E & T & C & _ & _).
  rewrite E. cbn [fst]. intros tid t Ht Hp. unfold load_task_run in Ht. rewrite T in Ht.
  destruct (tasks db !! (wf, tid)) as [u|] eqn:Eu; [|done]. cbn [mbind option_bind] in Ht.
  rewrite bool_decide_eq_true_2 in Ht by done. cbn [andb] in Ht.
  destruct (ready db wf u) eqn:Er; injection Ht as <-; [apply parked_paused in Hp; discriminate|].
  unfold ready in Er. replace (parked db wf u) with true in Er.
  2:{ rewrite <-Hp. unfold parked. by rewrite C. }
  cbn in Er. bool_norm. apply session_children_spec in Er as (tid' & v & Hv & Hc & Hl).
  apply session_children_spec. unfold load_task_run in *. exists tid'.
  destruct (ready db wf v) eqn:Erv.
  - exists (woken now v). rewrite T, Hv. cbn [mbind option_bind].
    rewrite bool_decide_eq_true_2 by done. by rewrite Erv.
  - exists v. rewrite T, Hv. cbn [mbind option_bind].
    rewrite bool_decide_eq_true_2 by done. by rewrite Erv.
Qed.

(** ** Writes that leave the tasks alone *)

Record keeps_tasks (db db' : WorkflowDb) : Prop := {
  kt_tasks : tasks db' = tasks db;
  kt_checkpoints : checkpoints db' = checkpoints db;
  kt_queue : queue db' = queue db;
  kt_claims : claims db' = claims db;
  kt_index : root_index db' = root_index db;
  kt_keyed : well_keyed db → well_keyed db';
  kt_runs wf : is_Some (load_workflow_run db wf) → is_Some (load_workflow_run db' wf);
}.

#[export] Instance keeps_tasks_preorder : PreOrder keeps_tasks.
Proof.
  split; [by intros db; split|]. intros a b c [] []. split; try congruence; auto.
Qed.

Lemma kt_emit db e : keeps_tasks db (emit db e).
Proof. split; try done. apply well_keyed_emit. Qed.

Lemma kt_save_run db run : keeps_tasks db (save_workflow_run db run).
Proof.
  split; try done; [apply well_keyed_save_run|].
  intros wf H. rewrite workflow_run_saved. by case_decide.
Qed.

Lemma kt_release db wf tid : keeps_tasks db (release_singleton_slot_by_task_id db wf tid).
Proof. by split; try done; intros []; split. Qed.

Create HintDb keeps_tasks discriminated.
#[export] Hint Resolve kt_emit kt_save_run kt_release : keeps_tasks.

(** One step of a chain of writes: the last one is known to keep the tasks. *)
Ltac kt_step := etrans; [|solve [eauto with keeps_tasks]].
Ltac kt := repeat first [reflexivity | case_match; [|] | solve [eauto with keeps_tasks] | kt_step].

Lemma kt_sync now db wf : keeps_tasks db (sync_workflow_blocked_approval_status now db wf).
Proof.
  unfold sync_workflow_blocked_approval_status.
  destruct (load_workflow_run db wf) as [run|]; [|done].
  destruct (wf_status run); try done; repeat case_match; try done; apply kt_save_run.
Qed.
#[export] Hint Resolve kt_sync : keeps_tasks.

Lemma kt_close now db task previous status reply :
  keeps_tasks db (close_task now db task previous status reply).
Proof.
  unfold close_task. repeat (case_match; try kt_step); done.
Qed.

Lemma kt_announce db task status exhausted : keeps_tasks db (announce_task db task status exhausted).
Proof. unfold announce_task. repeat (case_match; try kt_step); kt. Qed.


(** ** Status changes *)

(** [db'] keeps every run, what is new in the queue or the index of roots names a run
    that exists, and checkpoints only get newer. *)
Record grows (db db' : WorkflowDb) : Prop := {
  gr_runs w : is_Some (load_workflow_run db w) → is_Some (load_workflow_run db' w);
  gr_queue k : is_Some (queue db' !! k) →
    is_Some (queue db !! k) ∨ is_Some (load_workflow_run db' k.1);
  gr_index r wf : root_index db' !! r = Some wf →
    root_index db !! r = Some wf ∨ is_Some (load_workflow_run db' wf);
  gr_checkpoints k cp : checkpoints db !! k = Some cp →
    ∃ cp', checkpoints db' !! k = Some cp' ∧ (cp_version cp ≤ cp_version cp')%Z;
  gr_versions : (∀ k cp, checkpoints db !! k = Some cp → (0 < cp_version cp)%Z) →
    ∀ k cp, checkpoints db' !! k = Some cp → (0 < cp_version cp)%Z;
}.

#[export] Instance grows_preorder : PreOrder grows.
Proof.
  split.
  - intros db. split; auto. intros k cp H. exists cp. split; [done|lia].
  - intros a b c [R1 Q1 I1 C1 V1] [R2 Q2 I2 C2 V2]. split; auto.
    + intros k H. destruct (Q2 k H) as [H'|]; [|by right]. destruct (Q1 k H'); auto.
    + intros r wf H. destruct (I2 r wf H) as [H'|]; [|by right]. destruct (I1 r wf H'); auto.
    + intros k cp H. destruct (C1 k cp H) as (cp1 & H1 & L1). destruct (C2 k cp1 H1) as (cp2 & H2 & L2).
      exists cp2. split; [done|lia].
    + intros HV. by apply V2, V1.
Qed.

Lemma grows_same db db' :
  (∀ w, is_Some (load_workflow_run db w) → is_Some (load_workflow_run db' w)) →
  (∀ k, is_Some (queue db' !! k) → is_Some (queue db !! k)) →
  root_index db' = root_index db → checkpoints db' = checkpoints db → grows db db'.
Proof.
  intros HR HQ HI HC. split; auto; rewrite ?HI, ?HC; auto.
  intros k cp H. exists cp. split; [done|lia].
Qed.

Lemma keeps_grows db db' : keeps_tasks db db' → grows db db'.
Proof. intros []. apply grows_same; auto. intros k. by rewrite kt_queue0. Qed.

Lemma save_task_grows now db t : grows db (save_task_run now db t).1.
Proof.
  destruct (save_task_run now db t) as [db' r] eqn:E. cbn [fst].
  destruct (save_task_run_cases _ _ _ _ _ E) as [_ [(_ & run & _ & ->)|(_ & _ & ->)]]; [|by apply grows_same].
  apply grows_same; try done. intros w H. by apply (kt_runs _ _ (kt_save_run (upsert_task_run db t) _)).
Qed.

Lemma checkpoint_grows db wf tid step state : grows db (checkpoint_task db wf tid step state).
Proof.
  unfold checkpoint_task. etrans; [|apply keeps_grows, kt_emit].
  set (v := match checkpoints db !! (wf, tid) with Some cp => cp_version cp | None => 0%Z end).
  set (cp := {| cp_version := (v + 1)%Z; cp_step := step; cp_state := state |}).
  split; auto; change (checkpoints (db{{ checkpoints := _ }})) with (<[(wf, tid) := cp]> (checkpoints db)).
  - intros k old H. destruct (decide (k = (wf, tid))) as [->|Hne].
    + exists cp. rewrite lookup_insert_eq. split; [done|]. unfold cp, v. rewrite H. cbn. lia.
    + exists old. rewrite lookup_insert_ne by done. split; [done|lia].
  - intros HV k cp' [[<- <-]|[_ H]]%lookup_insert_Some; [|by eapply HV]. unfold cp, v. cbn.
    destruct (checkpoints db !! (wf, tid)) as [old|] eqn:E; [|lia]. specialize (HV _ _ E). lia.
Qed.

(** [db'] keeps every task of [db]; what happened to its status is in [R]. *)
Record moves (R : relation TaskRunStatus) (db db' : WorkflowDb) : Prop := {
  mv_keyed : well_keyed db → well_keyed db';
  mv_grows : grows db db';
  mv_rows k t : tasks db !! k = Some t →
    ∃ t', tasks db' !! k = Some t' ∧ R (task_status t) (task_status t');
}.

#[export] Instance moves_preorder R : PreOrder R → PreOrder (moves R).
Proof.
  intros HR. split.
  - intros db. split; [done..|]. intros k t H. by exists t.
  - intros a b c [K1 C1 R1] [K2 C2 R2]. split; [auto|by etrans|].
    intros k t H. destruct (R1 k t H) as (t1 & H1 & S1). destruct (R2 k t1 H1) as (t2 & H2 & S2).
    exists t2. split; [done|]. by etrans.
Qed.

Section Moves.
Context (R : relation TaskRunStatus) `{!PreOrder R}.

Lemma keeps_moves db db' : keeps_tasks db db' → moves R db db'.
Proof.
  intros HK. pose proof HK as [E _ _ _ _ K _]. split; [done|by apply keeps_grows|].
  intros k t H. exists t. by rewrite E.
Qed.

Lemma save_task_checkpoints now db t :
  checkpoints (save_task_run now db t).1 = checkpoints db.
Proof.
  unfold save_task_run. by destruct (load_workflow_run (upsert_task_run db t) (task_workflow_id t)).
Qed.

Lemma save_moves now db t' :
  (∀ t, tasks db !! task_key t' = Some t → R (task_status t) (task_status t')) →
  moves R db (save_task_run now db t').1.
Proof.
  intros H. split; [apply well_keyed_save_task|apply save_task_grows|]. intros k t Hk.
  destruct (save_task_run now db t') as [db' r] eqn:E.
  destruct (save_task_run_cases _ _ _ _ _ E) as [T _]. cbn. rewrite T.
  destruct (decide (task_key t' = k)) as [<-|].
  - exists t'. rewrite lookup_insert_eq. auto.
  - exists t. by rewrite lookup_insert_ne.
Qed.

Lemma same_tasks_moves db db' :
  tasks db' = tasks db → grows db db' → (well_keyed db → well_keyed db') → moves R db db'.
Proof. intros E G K. split; [done..|]. intros k t H. exists t. by rewrite E. Qed.

Lemma tables_moves db db' :
  tasks db' = tasks db → checkpoints db' = checkpoints db → root_index db' = root_index db →
  runs db' = runs db → queue db' = queue db → moves R db db'.
Proof.
  intros ET EC EI ER EQ. apply same_tasks_moves; [done|..].
  - apply grows_same; [unfold load_workflow_run; by rewrite ER|by rewrite EQ|done..].
  - intros [Ht Hr Hq]. split; [by rewrite ET|by rewrite ER|by rewrite EQ].
Qed.

Lemma checkpoint_moves db wf tid step state : moves R db (checkpoint_task db wf tid step state).
Proof. apply same_tasks_moves; [done|apply checkpoint_grows|by intros []]. Qed.

(** A row of a run that exists may be queued. *)
Lemma queued_grows db q :
  is_Some (load_workflow_run db (q_workflow_id q)) →
  grows db (db{{ queue := <[(q_workflow_id q, q_task_id q) := q]> (queue db) }}).
Proof.
  intros Hr. split; auto.
  - intros k [q' H]. change (<[(q_workflow_id q, q_task_id q) := q]> (queue db) !! k = Some q') in H.
    apply lookup_insert_Some in H as [[<- _]|[_ H]]; [by right|left; by exists q'].
  - intros k cp H. exists cp. split; [done|lia].
Qed.

Lemma queued_moves db q :
  is_Some (load_workflow_run db (q_workflow_id q)) →
  moves R db (db{{ queue := <[(q_workflow_id q, q_task_id q) := q]> (queue db) }}).
Proof.
  intros Hr. apply same_tasks_moves; [done|by apply queued_grows|].
  intros [Ht Hu Hq]. split; [done..|]. intros k q' H.
  change (<[(q_workflow_id q, q_task_id q) := q]> (queue db) !! k = Some q') in H.
  apply lookup_insert_Some in H as [[<- <-]|[_ H]]; [done|by apply Hq].
Qed.

Lemma enqueue_moves now db q : moves R db (enqueue_task now db q).1.
Proof.
  unfold enqueue_task. destruct (load_workflow_run db (q_workflow_id q)) as [run|] eqn:Hr; [|done].
  destruct (stopping _); [done|]. cbn [fst]. etrans; [|apply keeps_moves, kt_emit].
  etrans; [|apply keeps_moves, kt_save_run]. apply queued_moves. by exists run.
Qed.

Lemma index_grows db root wf :
  is_Some (load_workflow_run db wf) → grows db (db{{ root_index := <[root := wf]> (root_index db) }}).
Proof.
  intros Hr. split; auto.
  - intros r w H. change (<[root := wf]> (root_index db) !! r = Some w) in H.
    apply lookup_insert_Some in H as [[_ <-]|[_ H]]; auto.
  - intros k cp H. exists cp. split; [done|lia].
Qed.

Lemma fold_moves {A} (f : WorkflowDb → A → WorkflowDb) l db :
  (∀ db x, well_keyed db → moves R db (f db x)) → well_keyed db → moves R db (fold_left f l db).
Proof.
  intros H. revert db. induction l as [|x l IH]; intros db Hk; cbn; [done|].
  etrans; [by apply H|]. apply IH. by apply (mv_keyed _ _ _ (H db x Hk)).
Qed.

Lemma for_each_moves {A} (f : WorkflowDb → A → WorkflowDb * result unit WorkflowError) l db :
  (∀ db x, well_keyed db → moves R db (f db x).1) → well_keyed db →
  moves R db (try_for_each f l db).1.
Proof.
  intros H. revert db. induction l as [|x l IH]; intros db Hk; cbn; [done|].
  specialize (H db x Hk). destruct (f db x) as [db' [|]]; cbn in *; [|done].
  etrans; [done|]. apply IH. by apply H.
Qed.

(** A loop over a snapshot of the tasks, each turn of which writes its own row. *)
Lemma snapshot_moves_aux wf (f : WorkflowDb → TaskRun → WorkflowDb * result unit WorkflowError)
    l db :
  (∀ db t k, k ≠ task_key t → tasks (f db t).1 !! k = tasks db !! k) →
  (∀ db t, tasks db !! task_key t = Some t → moves R db (f db t).1) →
  NoDup (task_id <$> l) →
  (∀ t, t ∈ l → load_task_run db wf (task_id t) = Some t ∧ task_workflow_id t = wf) →
  moves R db (try_for_each f l db).1.
Proof.
  intros Hown Hmv. revert db. induction l as [|t l IH]; intros db Hnd Hl; cbn; [done|].
  apply NoDup_cons in Hnd as [Hn Hnd]. destruct (Hl t) as [Ht Hw]; [left|].
  assert (task_key t = (wf, task_id t)) as Ek by (unfold task_key; by rewrite Hw).
  assert (moves R db (f db t).1) as M by (apply Hmv; by rewrite Ek).
  specialize (Hown db t). destruct (f db t) as [db' [|]]; cbn in *; [|done].
  etrans; [done|]. apply IH; [done|]. intros u Hu. destruct (Hl u) as [Hlu Hwu]; [by right|].
  split; [|done]. unfold load_task_run. rewrite Hown; [done|]. rewrite Ek.
  intros [= E]. apply Hn. rewrite <-E. by apply list_elem_of_fmap_2.
Qed.

Lemma snapshot_moves wf (f : WorkflowDb → TaskRun → WorkflowDb * result unit WorkflowError) db :
  well_keyed db →
  (∀ db t k, k ≠ task_key t → tasks (f db t).1 !! k = tasks db !! k) →
  (∀ db t, tasks db !! task_key t = Some t → moves R db (f db t).1) →
  ∀ db0, tasks db0 = tasks db → moves R db0 (try_for_each f (list_task_runs db wf) db0).1.
Proof.
  intros Hk Hown Hmv db0 E. apply (snapshot_moves_aux wf); [done..|by apply NoDup_task_ids|].
  intros t. rewrite listed_task by done. unfold load_task_run. by rewrite E.
Qed.
End Moves.

(** The steps [try_transition] allows, one after the other. *)
Definition legal : relation TaskRunStatus := rtc (λ s s', try_transition s s' = true).

Lemma legal_once s s' : try_transition s s' = true → legal s s'.
Proof. intros H. by apply rtc_once. Qed.

Lemma legal_terminal s s' : is_terminal s = true → legal s s' → s' = s.
Proof.
  intros Ht H. induction H as [|s s1 s2 H1 H IH]; [done|].
  assert (s1 = s) as -> by (by destruct s, s1). auto.
Qed.

Section Updates.
Context (extract : string → option Json) (refs : string → list string).

Lemma kt_satisfy now hook db run :
  keeps_tasks db (satisfy_join extract refs now hook db run).
Proof. unfold satisfy_join. repeat (case_match; try kt_step); kt. Qed.
#[local] Hint Resolve kt_close kt_announce kt_satisfy : keeps_tasks.

(** What an update does to the tasks: it changes its own and, if that one ended,
    scans for parked tasks. *)
Lemma update_tasks now hook db wf tid status reply task :
  well_keyed db → load_task_run db wf tid = Some task → is_Some (load_workflow_run db wf) →
  try_transition (task_status task) status = true →
  ∃ db1, tasks db1 = <[(wf, tid) := updated_task now task status reply
                                      (evaluate_stage_retry task status reply)]> (tasks db) ∧
    checkpoints db1 = checkpoints db ∧ queue db1 = queue db ∧ well_keyed db1 ∧
    is_Some (load_workflow_run db1 wf) ∧ grows db db1 ∧
    update_task_run_status extract refs now hook db wf tid status reply =
      ((if is_terminal_for_join status then (wake_paused_child_wait_tasks now db1 wf).1 else db1),
       Ok tt).
Proof.
  intros Hk Hl [run Hr] Htr. unfold update_task_run_status. rewrite Hl, Htr. cbn [negb].
  set (d := evaluate_stage_retry task status reply). set (t := updated_task now task status reply d).
  destruct (load_task_key _ _ _ _ Hk Hl) as [Hw Hi].
  assert (task_key t = (wf, tid) ∧ task_workflow_id t = wf) as [Ht Htw].
  { rewrite <-Hw, <-Hi. unfold t, updated_task. by destruct (failure d). }
  rewrite (save_task_run_ok now db t run) by (by rewrite Htw).
  set (db0 := save_workflow_run _ _).
  assert (tasks db0 = <[(wf, tid) := t]> (tasks db)) as T0 by (by rewrite <-Ht).
  assert (checkpoints db0 = checkpoints db ∧ queue db0 = queue db) as [C0 Q0] by done.
  assert (well_keyed db0) as K0 by (by apply well_keyed_save_run, well_keyed_upsert).
  assert (is_Some (load_workflow_run db0 wf)) as R0.
  { apply kt_save_run. by exists run. }
  assert (grows db db0) as G0.
  { pose proof (save_task_grows now db t) as G. by rewrite (save_task_run_ok now db t run) in G by (by rewrite Htw). }
  clearbody db0. set (db2 := announce_task _ _ _ _).
  assert (keeps_tasks db0 db2) as K2 by (unfold db2; kt_step; kt).
  destruct (kt_runs _ _ K2 wf R0) as [run2 Hr2]. rewrite Hr2.
  match goal with |- context [(if _ then (wake_paused_child_wait_tasks _ ?x _).1 else _, _)] =>
    set (db3 := x); exists db3 end.
  assert (keeps_tasks db0 db3) as K3.
  { etrans; [exact K2|]. clear K2. subst db3. clearbody db2. repeat (case_match; try kt_step); kt. }
  pose proof (keeps_grows _ _ K3) as G3.
  destruct K3 as [E1 E2 E3 _ _ E4 E5]. rewrite E1, E2, E3. split_and!; auto. by etrans.
Qed.

Section StatusChanges.
Context (R : relation TaskRunStatus) `{!PreOrder R} (legal_R : ∀ s s', try_transition s s' = true → R s s').

Lemma wake_task_own now wf db t k :
  k ≠ task_key t → tasks (wake_task now wf db t).1 !! k = tasks db !! k.
Proof.
  intros Hk. unfold wake_task. repeat (case_match; [done|]).
  destruct (save_task_run _ _ _) as [db' r] eqn:E.
  destruct (save_task_run_cases _ _ _ _ _ E) as [T _].
  trans (tasks db' !! k); [by destruct r|]. rewrite T. by apply lookup_insert_ne.
Qed.

Lemma wake_moves now db wf : well_keyed db → moves R db (wake_paused_child_wait_tasks now db wf).1.
Proof.
  intros Hk. apply (snapshot_moves R wf _ db); try done; [apply wake_task_own|].
  intros db' t Ht. unfold wake_task. destruct (parked db' wf t) eqn:Hp; [|done]. cbn [negb].
  destruct (session_has_non_terminal_children _ _ _); [done|].
  pose proof (save_moves R now db' (woken now t)) as M.
  unfold woken in M. destruct (save_task_run _ _ _) as [db1 [|]]; cbn [fst] in *.
  - etrans; [apply M|apply (keeps_moves R), kt_emit].
    intros u Hu. change (tasks db' !! task_key t = Some u) in Hu. simplify_eq.
    apply legal_R. by rewrite (parked_paused _ _ _ Hp).
  - apply M. intros u Hu. change (tasks db' !! task_key t = Some u) in Hu. simplify_eq.
    apply legal_R. by rewrite (parked_paused _ _ _ Hp).
Qed.

Lemma update_moves now hook db wf tid status reply :
  well_keyed db →
  moves R db (update_task_run_status extract refs now hook db wf tid status reply).1.
Proof.
  intros Hk. destruct (load_task_run db wf tid) as [task|] eqn:Hl.
  2:{ unfold update_task_run_status. by rewrite Hl. }
  destruct (try_transition (task_status task) status) eqn:Htr.
  2:{ unfold update_task_run_status. by rewrite Hl, Htr. }
  set (d := evaluate_stage_retry task status reply). set (t := updated_task now task status reply d).
  destruct (load_task_key _ _ _ _ Hk Hl) as [Hw Hi].
  assert (task_key t = (wf, tid) ∧ task_workflow_id t = wf ∧ task_status t = status) as (Ht & Htw & Hs).
  { rewrite <-Hw, <-Hi. unfold t, updated_task. by destruct (failure d). }
  assert (moves R db (save_task_run now db t).1) as M.
  { apply save_moves; [done|]. rewrite Ht. intros u Hu. unfold load_task_run in Hl. simplify_eq.
    rewrite Hs. by apply legal_R. }
  destruct (load_workflow_run db wf) as [run|] eqn:Hr.
  2:{ unfold update_task_run_status. rewrite Hl, Htr. cbn [negb]. fold d t.
      unfold save_task_run in *. rewrite Htw in *.
      change (load_workflow_run (upsert_task_run db t) wf) with (load_workflow_run db wf) in *.
      by rewrite Hr in *. }
  destruct (update_tasks now hook db wf tid status reply task Hk Hl) as (db1 & T1 & C1 & _ & K1 & _ & G1 & ->);
    [by exists run|done|].
  assert (moves R db db1) as M1.
  { split; [done..|]. intros k u Hu. rewrite T1. fold d t. destruct M as [_ _ M].
    destruct (M k u Hu) as (u' & Hu' & HR). exists u'. split; [|done].
    destruct (save_task_run_cases now db t _ _ (surjective_pairing _)) as [T _].
    by rewrite <-Ht, <-T. }
  cbn [fst]. destruct (is_terminal_for_join status); [|done].
  etrans; [done|]. by apply wake_moves.
Qed.

Lemma reconcile_moves now db wf :
  well_keyed db → moves R db (reconcile_workflow extract refs now db wf).1.
Proof.
  intros Hk. unfold reconcile_workflow. destruct (load_workflow_run db wf) as [run|]; [|done].
  set (db1 := if bool_decide _ then _ else _).
  assert (keeps_tasks db db1) as K by (unfold db1; case_bool_decide; [done|apply kt_save_run]).
  clearbody db1. etrans; [apply (keeps_moves R), K|]. apply (kt_keyed _ _ K) in Hk.
  destruct (run_is_terminal (wf_status run)); [|by apply wake_moves].
  apply fold_moves; [done| |done]. intros db' t Hk'. unfold fail_orphan.
  destruct (parked db' wf t); [by apply update_moves|done].
Qed.

Lemma fail_session_moves now db session reason :
  well_keyed db → moves R db (fail_running_tasks_for_session extract refs now db session reason).1.
Proof.
  intros Hk. unfold fail_running_tasks_for_session.
  destruct (resolve_workflow_id_for_root_session _ _) as [wf|]; [|done].
  generalize 0 (list_task_runs db wf). intros n l. revert db n Hk.
  induction l as [|t l IH]; intros db n Hk; cbn; [done|].
  destruct (_ && _); [|by apply IH].
  pose proof (update_moves now None db wf (task_id t) TFailed
    (Some ("child session terminated: " ++ reason)%string) Hk) as M.
  destruct (update_task_run_status _ _ _ _ _ _ _ _ _) as [db' r]. cbn [fst] in M.
  etrans; [exact M|]. apply IH, M, Hk.
Qed.

Lemma fail_workflow_moves now db root reason mark :
  (∀ s, is_terminal s = false → R s TFailed) → well_keyed db →
  moves R db (fail_workflow_for_root_session now db root reason mark).1.
Proof.
  intros HF Hk. unfold fail_workflow_for_root_session.
  destruct (resolve_workflow_id_for_root_session _ _) as [wf|]; [|done]. cbn [fst].
  set (f := λ db t, (fail_task now reason db t, Ok (E := WorkflowError) tt)).
  assert (∀ l db, fold_left (fail_task now reason) l db = (try_for_each f l db).1) as ->.
  { intros l. induction l as [|t l IH]; intros d; cbn; [done|apply IH]. }
  assert (moves R db (try_for_each f (list_task_runs db wf) db).1) as M.
  { apply (snapshot_moves R wf f db); [done|..|done].
    - intros d t k Hne. cbn. unfold fail_task. case_match; [done|].
      destruct (save_task_run _ _ _) as [d' r] eqn:E.
      destruct (save_task_run_cases _ _ _ _ _ E) as [T _].
      trans (tasks d' !! k); [by destruct r; [case_match|]|]. rewrite T. by apply lookup_insert_ne.
    - intros d t Ht. cbn. unfold fail_task. destruct (is_terminal (task_status t)) eqn:Et; [done|].
      match goal with |- context [save_task_run now d ?x] => set (u := x) end.
      assert (moves R d (save_task_run now d u).1) as M.
      { apply save_moves; [done|]. intros v Hv. change (task_key u) with (task_key t) in Hv.
        simplify_eq. by apply HF. }
      destruct (save_task_run now d u) as [d' [|]]; cbn [fst] in M; [|done].
      destruct (str_is_empty _); [done|]. etrans; [exact M|]. apply (keeps_moves R), kt_emit. }
  etrans; [exact M|]. etrans; [|apply (keeps_moves R), kt_emit].
  destruct (load_workflow_run _ _); [|done].
  destruct (_ && _); [|done]. apply (keeps_moves R), kt_save_run.
Qed.

Lemma abort_task_own now stop_id wf db t k :
  k ≠ task_key t → tasks (abort_task now stop_id wf db t).1 !! k = tasks db !! k.
Proof.
  intros Hk. unfold abort_task. destruct (is_terminal _); [done|].
  destruct (save_task_run _ _ _) as [d' r] eqn:E.
  destruct (save_task_run_cases _ _ _ _ _ E) as [T _].
  trans (tasks d' !! k); [by destruct r; [case_match|]|]. rewrite T. by apply lookup_insert_ne.
Qed.

Lemma dequeue_tasks now db wf tid : tasks (dequeue_task now db wf tid) = tasks db.
Proof. unfold dequeue_task. by case_match. Qed.

Lemma dequeue_queue now db wf tid :
  queue (dequeue_task now db wf tid) = delete (wf, tid) (queue db).
Proof. unfold dequeue_task. by case_match. Qed.

Lemma dequeue_checkpoints now db wf tid :
  checkpoints (dequeue_task now db wf tid) = checkpoints db.
Proof. unfold dequeue_task. by case_match. Qed.

Lemma well_keyed_dequeue now db wf tid : well_keyed db → well_keyed (dequeue_task now db wf tid).
Proof.
  intros Hk. unfold dequeue_task.
  set (db0 := db{{ queue := _ }}). assert (well_keyed db0) as Hk0.
  { destruct Hk as [Ht Hr Hq]. split; [done..|]. intros k q H.
    change (delete (wf, tid) (queue db) !! k = Some q) in H.
    apply lookup_delete_Some in H as [_ H]. by apply Hq. }
  destruct (load_workflow_run db0 wf) as [run|]; [|done].
  apply (well_keyed_save_run db0 (run{{ queued_task_ids := without_id (queued_task_ids run) tid;
    active_task_ids := without_id (active_task_ids run) tid; wf_updated_at := now }})) in Hk0.
  destruct Hk0. by split.
Qed.

Lemma dequeue_grows now db wf tid : grows db (dequeue_task now db wf tid).
Proof.
  apply grows_same.
  - intros w H. unfold dequeue_task. set (db0 := db{{ queue := _ }}).
    destruct (load_workflow_run db0 wf) as [run|]; [|done]. by apply (kt_runs _ _ (kt_save_run db0 _)).
  - intros k. rewrite dequeue_queue. intros [q [_ H]%lookup_delete_Some]. by exists q.
  - unfold dequeue_task. by case_match.
  - apply dequeue_checkpoints.
Qed.

Lemma dequeue_moves now db wf tid : moves R db (dequeue_task now db wf tid).
Proof.
  apply (same_tasks_moves R); [apply dequeue_tasks|apply dequeue_grows|apply well_keyed_dequeue].
Qed.

Lemma stop_moves now db wf stop_id :
  (∀ s, is_terminal s = false → R s TAborted) → well_keyed db →
  moves R db (apply_emergency_stop_to_workflow now db wf stop_id).1.
Proof.
  intros HA Hk. unfold apply_emergency_stop_to_workflow.
  destruct (load_workflow_run db wf) as [run|]; [|done]. destruct (bool_decide _); [done|].
  set (db0 := save_workflow_run db _).
  assert (moves R db db0) as M0 by apply (keeps_moves R), kt_save_run.
  set (db1 := fold_left _ _ db0).
  assert (moves R db0 db1) as M1.
  { apply fold_moves; [done| |by apply M0]. intros d q Hd. apply (same_tasks_moves R).
    - apply dequeue_tasks.
    - etrans; [apply (dequeue_grows now d wf (q_task_id q))|by apply grows_same].
    - intros _. apply (well_keyed_dequeue now d wf (q_task_id q)) in Hd as []. by split. }
  assert (well_keyed db1) as Hk1 by (by apply M1, M0).
  assert (moves R db1 (try_for_each (abort_task now stop_id wf) (list_task_runs db1 wf) db1).1) as M2.
  { apply (snapshot_moves R wf _ db1); [done|apply abort_task_own| |done].
    intros d t Ht. unfold abort_task. destruct (is_terminal (task_status t)) eqn:Et; [done|].
    match goal with |- context [save_task_run now ?d' ?x] => set (u := x); set (d1 := d') end.
    assert (moves R d d1) as Md.
    { apply (same_tasks_moves R); [done|by apply grows_same|]. intros []. by split. }
    assert (moves R d1 (save_task_run now d1 u).1) as M.
    { apply save_moves; [done|]. intros v Hv. change (tasks d !! task_key t = Some v) in Hv.
      simplify_eq. by apply HA. }
    destruct (save_task_run now d1 u) as [d' [|]]; cbn [fst] in *; (etrans; [exact Md|]); [|done].
    etrans; [exact M|]. apply (keeps_moves R). destruct (str_is_empty _); [apply kt_emit|].
    etrans; apply kt_emit. }
  etrans; [exact M0|]. etrans; [exact M1|].
  destruct (try_for_each _ _ db1) as [db2 [|]]; cbn [fst] in *; [|done].
  etrans; [exact M2|]. etrans; [|apply (keeps_moves R), kt_emit].
  match goal with |- moves R _ (delete_singleton_slots_for_workflow ?x _) =>
    assert (moves R db2 x) as M3 by apply (keeps_moves R), kt_save_run end.
  etrans; [exact M3|]. apply (same_tasks_moves R); [done|by apply grows_same|]. intros []. by split.
Qed.
End StatusChanges.

(** ** Any operation of the store *)

Inductive Op : Type :=
| OpEnsure (fresh root : string) (lead : option string)
| OpSpawn (t : TaskRun)
| OpMetadata (wf tid : string) (m : Json)
| OpHeartbeat (wf tid : string)
| OpCheckpoint (wf tid step : string) (state : Json)
| OpUpdate (hook : option bool) (wf tid : string) (status : TaskRunStatus) (reply : option string)
| OpJanitor (dirs : list string)
| OpStageRetry (wf tid : string) (reply : option string) (decision : StageRetryDecision)
| OpRetry (wf tid : string) (note : option string)
| OpEnqueue (q : QueuedTaskRun)
| OpDequeue (wf tid : string)
| OpComplete (root : string) (lifecycle : option string) (escalations workbenches : bool)
| OpFailSession (session reason : string)
| OpFailWorkflow (root reason : string) (mark : bool)
| OpStop (wf stop_id : string)
| OpSlot (wf agent : string) (revision : option string) (tid : string)
| OpActivate (wf agent : string) (revision : option string) (tid : string)
| OpClaim (parse_rfc3339 : string → option Z) (now_ns : Z) (instance wf tid : string) (stale_after_secs : Z)
| OpRelease (wf tid : string).

(** [OpSpawn] saves the row of a new task ([agent.spawn]); its identifier is
    random, so a row that exists is left alone. *)
Definition step (db : WorkflowDb) (e : string * Op) : WorkflowDb :=
  let '(now, op) := e in
  match op with
  | OpEnsure fresh root lead => (ensure_workflow_for_root_session now fresh db root lead).1
  | OpSpawn t => match tasks db !! task_key t with
                 | Some _ => db
                 | None => (save_task_run now db t).1
                 end
  | OpMetadata wf tid m => (update_task_run_metadata now db wf tid m).1
  | OpHeartbeat wf tid => (refresh_task_run_heartbeat now db wf tid).1
  | OpCheckpoint wf tid step state => checkpoint_task db wf tid step state
  | OpUpdate hook wf tid status reply =>
      (update_task_run_status extract refs now hook db wf tid status reply).1
  | OpJanitor dirs => (reconcile_paused_child_wait_tasks extract refs now db dirs).1
  | OpStageRetry wf tid reply decision => (schedule_task_stage_retry now db wf tid reply decision).1
  | OpRetry wf tid note => (retry_workflow_task now db wf tid note).1
  | OpEnqueue q => (enqueue_task now db q).1
  | OpDequeue wf tid => dequeue_task now db wf tid
  | OpComplete root lifecycle escalations workbenches =>
      (try_complete_workflow now db root lifecycle escalations workbenches).1
  | OpFailSession session reason =>
      (fail_running_tasks_for_session extract refs now db session reason).1
  | OpFailWorkflow root reason mark => (fail_workflow_for_root_session now db root reason mark).1
  | OpStop wf stop_id => (apply_emergency_stop_to_workflow now db wf stop_id).1
  | OpSlot wf agent revision tid => (acquire_singleton_slot db wf agent revision tid).1
  | OpActivate wf agent revision tid => activate_singleton_task db wf agent revision tid
  | OpClaim parse now_ns instance wf tid secs =>
      (acquire_task_claim parse now now_ns instance db wf tid secs).1
  | OpRelease wf tid => release_task_claim db wf tid
  end.

(** The changes an operation makes past [try_transition]. *)
Definition forced (op : Op) (s s' : TaskRunStatus) : Prop :=
  match op with
  | OpStop _ _ => is_terminal s = false ∧ s' = TAborted
  | OpFailWorkflow _ _ _ => is_terminal s = false ∧ s' = TFailed
  | OpRetry _ _ _ => is_failed_or_aborted s = true ∧ s' = TRunnable
  | OpStageRetry _ _ _ d => retry_scheduled d = true ∧ s' = TRunnable
  | _ => False
  end.

Definition change (op : Op) : relation TaskRunStatus :=
  rtc (λ s s', try_transition s s' = true ∨ forced op s s').

#[local] Instance change_preorder op : PreOrder (change op).
Proof. unfold change. apply _. Qed.

Lemma change_legal op s s' : try_transition s s' = true → change op s s'.
Proof. intros H. apply rtc_once. by left. Qed.

Lemma change_forced op s s' : forced op s s' → change op s s'.
Proof. intros H. apply rtc_once. by right. Qed.

Lemma save_loaded_moves op now db wf tid t u :
  well_keyed db → load_task_run db wf tid = Some t → task_key u = task_key t →
  change op (task_status t) (task_status u) → moves (change op) db (save_task_run now db u).1.
Proof.
  intros Hk Hl E H. apply save_moves; [apply _|]. intros v Hv. rewrite E in Hv.
  destruct (load_task_key _ _ _ _ Hk Hl) as [<- <-]. unfold load_task_run in Hl.
  unfold task_key in Hv. by simplify_eq.
Qed.

(** Closes the step of an operation on the claims or the slots only. *)
Ltac claims_or_slots := first [done | by apply (tables_moves (change _))].

Lemma step_moves db now op : well_keyed db → moves (change op) db (step db (now, op)).
Proof.
  intros Hk. pose proof (change_legal op) as HL. destruct op; cbn [step].
  - unfold ensure_workflow_for_root_session. destruct (str_is_empty (trim root)); [done|].
    destruct (root_index db !! root).
    + destruct lead as [l|]; [|done]. destruct (_ && _); [|done].
      apply (keeps_moves (change _)), kt_save_run.
    + etrans; [|apply (keeps_moves (change _)), kt_emit].
      set (run := new_run now fresh root (default "" lead)). set (d := save_workflow_run db run).
      assert (moves (change (OpEnsure fresh root lead)) db d) as M
        by apply (keeps_moves (change _)), kt_save_run.
      etrans; [exact M|]. apply (same_tasks_moves (change _)); [done|by apply index_grows; eexists; apply lookup_insert_eq|].
      intros []. by split.
  - destruct (tasks db !! task_key t) eqn:E; [done|].
    apply save_moves; [apply _|]. intros u Hu. by rewrite E in Hu.
  - unfold update_task_run_metadata. destruct (load_task_run db wf tid) as [t|] eqn:Hl; [|done].
    by apply (save_loaded_moves _ _ _ wf tid t).
  - unfold refresh_task_run_heartbeat. destruct (load_task_run db wf tid) as [t|] eqn:Hl; [|done].
    destruct (bool_decide _); [|done]. by apply (save_loaded_moves _ _ _ wf tid t).
  - apply (checkpoint_moves (change _)).
  - by apply update_moves; [apply _|..].
  - apply for_each_moves; [apply _| |done]. intros. by apply reconcile_moves; [apply _|..].
  - unfold schedule_task_stage_retry. destruct (retry_scheduled decision) eqn:Ed; [|done].
    cbn [negb]. destruct (load_task_run db wf tid) as [t|] eqn:Hl; [|done].
    set (u := stage_retry_task now t reply decision).
    assert (task_key u = task_key t ∧ task_status u = TRunnable) as [Ku Su]
      by (unfold u, stage_retry_task; by destruct (failure decision)).
    pose proof (save_loaded_moves (OpStageRetry wf tid reply decision) now db wf tid t u Hk Hl Ku) as M.
    destruct (save_task_run now db u) as [d [|]]; cbn [fst] in *.
    1: etrans; [|apply (keeps_moves (change _)), kt_emit].
    all: apply M; rewrite Su; by apply change_forced.
  - unfold retry_workflow_task. destruct (load_task_run db wf tid) as [t|] eqn:Hl; [|done].
    destruct (is_failed_or_aborted (task_status t)) eqn:Et; [|done]. cbn [negb].
    match goal with |- context [save_task_run now db ?x] => set (u := x) end.
    pose proof (save_loaded_moves (OpRetry wf tid note) now db wf tid t u Hk Hl eq_refl) as M.
    destruct (save_task_run now db u) as [d [|]]; cbn [fst] in *.
    1: etrans; [|apply (keeps_moves (change _)), kt_emit];
       etrans; [|case_match; [case_match; [apply (keeps_moves (change _)), kt_save_run|]|]; reflexivity].
    all: apply M; by apply change_forced.
  - by apply enqueue_moves; [apply _|..].
  - by apply dequeue_moves; [apply _|..].
  - unfold try_complete_workflow. repeat (case_match; [done|]). case_match; [|done].
    repeat (case_match; [done|]). apply (keeps_moves (change _)). cbn [fst].
    repeat (case_match; try kt_step); kt.
  - by apply fail_session_moves; [apply _|..].
  - apply fail_workflow_moves; [apply _| |done]. intros s Hs. by apply change_forced.
  - apply stop_moves; [apply _| |done]. intros s Hs. by apply change_forced.
  - unfold acquire_singleton_slot. generalize 2%nat. intros fuel. revert db Hk.
    induction fuel as [|fuel IH]; intros db Hk; cbn [acquire_singleton_loop].
    { unfold try_acquire_singleton_slot. repeat (case_match; simplify_eq/=); by claims_or_slots. }
    destruct (try_acquire_singleton_slot db wf agent revision tid) as [d existing] eqn:E.
    assert (moves (change (OpSlot wf agent revision tid)) db d) as M.
    { unfold try_acquire_singleton_slot in E. injection E as <- _. repeat case_match; by claims_or_slots. }
    destruct existing as [id|]; [|done]. destruct (singleton_indexed_task_is_terminal d wf id); [|done].
    etrans; [exact M|]. assert (moves (change (OpSlot wf agent revision tid)) d
      (release_singleton_slot_by_task_id d wf id)) as M2 by claims_or_slots.
    etrans; [exact M2|]. apply IH, M2, M, Hk.
  - unfold activate_singleton_task. repeat case_match; by claims_or_slots.
  - unfold acquire_task_claim. repeat case_match; by claims_or_slots.
  - by claims_or_slots.
Qed.

Definition empty_db : WorkflowDb :=
  {| runs := ∅; root_index := ∅; tasks := ∅; queue := ∅; claims := ∅; checkpoints := ∅;
     slots := ∅; effects := [] |}.

(** The state after a sequence of operations, each at its own time. *)
Definition run_ops (ops : list (string * Op)) : WorkflowDb := fold_left step ops empty_db.

Lemma run_well_keyed ops : well_keyed (run_ops ops).
Proof.
  unfold run_ops. assert (well_keyed empty_db) as Hk.
  { split; intros ?? H; cbn [tasks runs queue empty_db] in H; by rewrite lookup_empty in H. }
  revert Hk. generalize empty_db. induction ops as [|[now op] ops IH]; intros db Hk; [done|].
  cbn [fold_left]. apply IH, (step_moves db now op Hk), Hk.
Qed.

(** An ended task is not touched again, unless an operator or the stage policy
    retries it. *)
Lemma run_terminal ops db k t :
  well_keyed db → tasks db !! k = Some t → is_terminal (task_status t) = true →
  Forall (λ e, match e.2 with OpRetry _ _ _ | OpStageRetry _ _ _ _ => False | _ => True end) ops →
  ∃ t', tasks (fold_left step ops db) !! k = Some t' ∧ task_status t' = task_status t.
Proof.
  revert db t. induction ops as [|[now op] ops IH]; intros db t Hk Ht Hterm Hops; cbn [fold_left].
  { by exists t. }
  apply Forall_cons in Hops as [Hop Hops]. destruct (step_moves db now op Hk) as [K _ M].
  destruct (M k t Ht) as (t1 & H1 & C).
  assert (task_status t1 = task_status t) as E.
  { revert Hterm C. generalize (task_status t), (task_status t1). clear -Hop.
    intros s s1 Hs H. induction H as [|s s1 s2 [H1|H1] H IH]; [done|..].
    - assert (s1 = s) as -> by (by destruct s, s1). auto.
    - destruct op; cbn in *; try done; destruct H1 as [H1 _]; congruence. }
  destruct (IH _ t1 (K Hk) H1) as (t' & Ht' & E'); [congruence|done|].
  exists t'. split; [done|congruence].
Qed.

(** ** Orphans of an ended workflow *)

Lemma parked_same db db' wf t : checkpoints db' = checkpoints db → parked db' wf t = parked db wf t.
Proof. unfold parked. by intros ->. Qed.

(** Failing a task parks none, and its own row is not parked any more. *)
Lemma update_failed_paused now d wf tid task reply :
  well_keyed d → is_Some (load_workflow_run d wf) → load_task_run d wf tid = Some task →
  try_transition (task_status task) TFailed = true →
  let d' := (update_task_run_status extract refs now None d wf tid TFailed reply).1 in
  well_keyed d' ∧ is_Some (load_workflow_run d' wf) ∧ checkpoints d' = checkpoints d ∧
  ∀ id u, load_task_run d' wf id = Some u → task_status u = TPaused →
    id ≠ tid ∧ load_task_run d wf id = Some u.
Proof.
  intros Hk Hr Hl Htr d'. unfold d'. clear d'.
  destruct (update_tasks now None d wf tid TFailed reply task Hk Hl Hr Htr)
    as (d1 & T1 & C1 & _ & K1 & R1 & _ & ->).
  destruct (wake_spec now d1 wf R1 K1) as (d2 & E2 & T2 & C2 & R2 & K2).
  cbn [fst is_terminal_for_join]. change (is_terminal_for_join TFailed) with true. cbn match.
  rewrite E2. cbn [fst]. split; [done|]. split; [done|]. split; [congruence|].
  intros id u H Hs. unfold load_task_run in *. rewrite T2, T1 in H.
  destruct (decide (id = tid)) as [->|Hne].
  - rewrite lookup_insert_eq in H. cbn [mbind option_bind] in H.
    destruct (_ && _); injection H as <-; [done|].
    unfold updated_task in Hs. by destruct (failure _).
  - rewrite lookup_insert_ne in H by congruence. split; [done|].
    destruct (tasks d !! (wf, id)) as [v|]; [|done]. cbn [mbind option_bind] in H.
    by destruct (_ && _); injection H as <-.
Qed.

Lemma fail_orphans_spec now wf l d :
  well_keyed d → is_Some (load_workflow_run d wf) →
  (∀ tid u, load_task_run d wf tid = Some u → parked d wf u = true → u ∈ l) →
  ∀ tid u, load_task_run (fold_left (fail_orphan extract refs now wf) l d) wf tid = Some u →
    parked (fold_left (fail_orphan extract refs now wf) l d) wf u = false.
Proof.
  revert d. induction l as [|t l IH]; intros d Hk Hr Hp tid u; cbn [fold_left].
  { intros Hu. apply not_true_iff_false. intros H. by apply (Hp _ _ Hu), not_elem_of_nil in H. }
  revert tid u. change (∀ tid u, load_task_run (fold_left (fail_orphan extract refs now wf) l
    (fail_orphan extract refs now wf d t)) wf tid = Some u → parked (fold_left (fail_orphan extract refs now wf) l
    (fail_orphan extract refs now wf d t)) wf u = false).
  assert (∀ u, u ∈ t :: l → u ≠ t → u ∈ l) as Hcons.
  { intros u Hu Hne. apply elem_of_cons in Hu as [|]; done. }
  unfold fail_orphan at 2 4. destruct (parked d wf t) eqn:Ept.
  2:{ apply IH; [done..|]. intros tid u Hu Hpu. apply Hcons; [by apply (Hp tid)|congruence]. }
  destruct (load_task_run d wf (task_id t)) as [task|] eqn:El.
  2:{ unfold update_task_run_status. rewrite El. cbn [fst]. apply IH; [done..|]. intros tid u Hu Hpu.
      apply Hcons; [by apply (Hp tid)|]. intros ->.
      destruct (load_task_key _ _ _ _ Hk Hu) as [_ <-]. congruence. }
  destruct (try_transition (task_status task) TFailed) eqn:Etr.
  - destruct (update_failed_paused now d wf (task_id t) task (Some orphaned_wait) Hk Hr El Etr)
      as (K & R & C & P).
    apply IH; [done..|]. intros tid u Hu Hpu. rewrite (parked_same _ _ wf u C) in Hpu.
    destruct (P tid u Hu (parked_paused _ _ _ Hpu)) as [Hne Hu'].
    apply Hcons; [by apply (Hp tid)|]. intros ->.
    by destruct (load_task_key _ _ _ _ Hk Hu') as [_ <-].
  - unfold update_task_run_status. rewrite El, Etr. cbn [negb fst]. apply IH; [done..|]. intros tid u Hu Hpu.
    apply Hcons; [by apply (Hp tid)|]. intros ->. apply parked_paused in Hpu.
    destruct (load_task_key _ _ _ _ Hk Hu) as [_ <-].
    assert (task = t) as -> by congruence. by rewrite Hpu in Etr.
Qed.

(** ** Properties of every run *)

(** Rows stay under their own keys, no task row is ever lost, and whatever an
    operation does to a task is a sequence of transitions [try_transition]
    allows, save for three overrides: an emergency stop aborts, the failure of
    the root session fails what had not ended, and a retry (of the operator, who
    may retry failed and aborted tasks only, or of the stage policy) makes a task
    runnable again. *)
Theorem status_changes ops now op k t :
  let db := run_ops ops in
  let db' := step db (now, op) in
  tasks db !! k = Some t →
  task_key t = k ∧
  ∃ t', tasks db' !! k = Some t' ∧ task_key t' = k ∧ change op (task_status t) (task_status t').
Proof.
  cbn zeta. intros H. pose proof (run_well_keyed ops) as Hk.
  destruct (step_moves (run_ops ops) now op Hk) as [K _ M]. split; [by apply (task_keys _ Hk)|].
  destruct (M k t H) as (t' & H' & C). exists t'. split; [done|].
  split; [by apply (task_keys _ (K Hk))|done].
Qed.

(** A task that ended keeps its status whatever happens, until somebody retries
    it: no late result, sweep, stop or janitor run reopens it. *)
Theorem terminal_is_final ops ops' k t :
  tasks (run_ops ops) !! k = Some t → is_terminal (task_status t) = true →
  Forall (λ e, match e.2 with OpRetry _ _ _ | OpStageRetry _ _ _ _ => False | _ => True end) ops' →
  ∃ t', tasks (run_ops (ops ++ ops')) !! k = Some t' ∧ task_status t' = task_status t.
Proof.
  intros H Ht Hops. unfold run_ops at 1. rewrite fold_left_app.
  apply run_terminal; [apply run_well_keyed|done..].
Qed.

(** C12: No wakeup is lost.  When a task of a workflow ends (succeeds, fails,
    is cancelled, or goes stale), every task still parked for its children has one
    that is live; the janitor restores this for any workflow that goes on, and
    leaves nothing parked in one that ended. *)
Theorem no_parked_task_is_forgotten ops now hook wf run :
  let db := run_ops ops in
  load_workflow_run db wf = Some run →
  (∀ tid task status reply, load_task_run db wf tid = Some task →
     try_transition (task_status task) status = true → is_terminal_for_join status = true →
     no_lost_wakeup (update_task_run_status extract refs now hook db wf tid status reply).1 wf) ∧
  (let db' := (reconcile_workflow extract refs now db wf).1 in
   if run_is_terminal (wf_status run)
   then ∀ tid t, load_task_run db' wf tid = Some t → parked db' wf t = false
   else no_lost_wakeup db' wf).
Proof.
  cbn zeta. pose proof (run_well_keyed ops) as Hk. revert Hk. generalize (run_ops ops).
  intros db Hk Hr. split.
  - intros tid task status reply Hl Htr Hj.
    destruct (update_tasks now hook db wf tid status reply task Hk Hl) as (db1 & _ & _ & _ & K1 & R1 & _ & ->);
      [by exists run|done|].
    rewrite Hj. by apply wake_no_lost_wakeup.
  - unfold reconcile_workflow. rewrite Hr.
    set (db1 := if bool_decide _ then _ else _).
    assert (keeps_tasks db db1) as K by (unfold db1; case_bool_decide; [done|apply kt_save_run]).
    clearbody db1. destruct K as [T C _ _ _ K R]. specialize (R wf ltac:(by exists run)).
    destruct (run_is_terminal (wf_status run)); cbn [fst].
    + intros tid t Ht. apply (fail_orphans_spec now wf _ db1 (K Hk) R) with (tid := tid); [|done].
      intros id u Hu _. apply elem_of_list_task_runs. exists id. unfold load_task_run in *. by rewrite <-T.
    + by apply wake_no_lost_wakeup; [|apply K].
Qed.

(** [t] waits for its live child [u]. *)
Definition waits_for (db : WorkflowDb) (wf : string) (t u : TaskRun) : Prop :=
  (∃ tid, load_task_run db wf tid = Some u) ∧ is_child_of (task_session_id t) u = true ∧
  live u = true.

Lemma bounded_sessions db wf : ∃ n, ∀ tid t,
  load_task_run db wf tid = Some t → String.length (task_session_id t) < n.
Proof.
  exists (S (list_max (String.length <$> (task_session_id <$> list_task_runs db wf)))).
  intros tid t H.
  assert (String.length (task_session_id t) ∈
    String.length <$> (task_session_id <$> list_task_runs db wf)) as E.
  { do 2 apply list_elem_of_fmap_2. apply elem_of_list_task_runs. by exists tid. }
  assert (∀ l x, x ∈ l → x <= list_max l) as Hmax.
  { intros l x Hx. pose proof (list_max_le l (list_max l)) as [Hl _].
    specialize (Hl (le_n _)). rewrite Forall_forall in Hl. auto. }
  specialize (Hmax _ _ E). lia.
Qed.

(** No deadlock.  If the session of a child extends that of its parent (a path
    below it, as [agent.spawn] names them), following the wait of a parked task
    from child to child arrives at a task that is live and not parked itself:
    one that can run, or waits for something other than a task. *)
Theorem no_deadlock ops now hook wf tid task status reply id t :
  let db := run_ops ops in
  let db' := (update_task_run_status extract refs now hook db wf tid status reply).1 in
  is_Some (load_workflow_run db wf) → load_task_run db wf tid = Some task →
  try_transition (task_status task) status = true → is_terminal_for_join status = true →
  (∀ i j u v, load_task_run db' wf i = Some u → load_task_run db' wf j = Some v →
     is_child_of (task_session_id u) v = true →
     String.length (task_session_id u) < String.length (task_session_id v)) →
  load_task_run db' wf id = Some t → parked db' wf t = true →
  ∃ u, tc (waits_for db' wf) t u ∧ parked db' wf u = false.
Proof.
  cbn zeta. intros Hr Hl Htr Hj. 
  assert (no_lost_wakeup (update_task_run_status extract refs now hook (run_ops ops) wf tid status reply).1 wf) as Hn.
  { destruct (update_tasks now hook (run_ops ops) wf tid status reply task (run_well_keyed ops) Hl Hr Htr)
      as (db1 & _ & _ & _ & K1 & R1 & _ & ->). rewrite Hj. by apply wake_no_lost_wakeup. }
  revert Hn. generalize (update_task_run_status extract refs now hook (run_ops ops) wf tid status reply).1.
  clear. intros db Hn Hlen Hi Hp. destruct (bounded_sessions db wf) as [n Hb].
  assert (∃ m, m = n - String.length (task_session_id t)) as [m Hm] by eauto.
  revert id t Hi Hp Hm. induction (lt_wf m) as [m _ IH]. intros id t Hi Hp Hm.
  destruct (proj1 (session_children_spec _ _ _) (Hn id t Hi Hp)) as (j & u & Hu & Hc & Hv).
  assert (waits_for db wf t u) as Hw by (split; [by exists j|done]).
  destruct (parked db wf u) eqn:Epu; [|exists u; split; [by apply tc_once|done]].
  pose proof (Hlen id j t u Hi Hu Hc). pose proof (Hb j u Hu).
  destruct (IH (n - String.length (task_session_id u)) ltac:(lia) j u Hu Epu eq_refl) as (v & Htc & Hv').
  exists v. split; [by eapply tc_l|done].
Qed.

(** ** Who is told *)

Definition is_signal (e : Effect) : bool :=
  match e with ChildState _ _ | JoinSatisfied _ _ _ _ => true | _ => false end.

(** What sessions are sent. *)
Definition signals (db : WorkflowDb) : list Effect := List.filter is_signal (effects db).

Lemma signals_emit db e : signals (emit db e) = signals db ++ (if is_signal e then [e] else []).
Proof. apply (List.filter_app is_signal (effects db) [e]). Qed.

(** The parts of a run the join depends on. *)
Definition same_join (r r' : WorkflowRun) : Prop :=
  wf_id r' = wf_id r ∧ join_task_ids r' = join_task_ids r ∧
  wf_root_session_id r' = wf_root_session_id r ∧
  stopping (wf_status r') = stopping (wf_status r) ∧
  (wf_status r ≠ WfResumable → wf_status r' ≠ WfResumable).

(** Nothing is sent, and every run keeps these parts. *)
Record quiet (db db' : WorkflowDb) : Prop := {
  q_signals : signals db' = signals db;
  q_run wf : option_Forall2 same_join (load_workflow_run db wf) (load_workflow_run db' wf);
}.

#[local] Instance quiet_preorder : PreOrder quiet.
Proof.
  split.
  - intros db. split; [done|]. intros wf. by destruct (load_workflow_run db wf); constructor.
  - intros a b c [E1 R1] [E2 R2]. split; [congruence|]. intros wf.
    specialize (R1 wf). specialize (R2 wf). revert R1 R2.
    generalize (load_workflow_run a wf), (load_workflow_run b wf), (load_workflow_run c wf).
    intros x y z H1 H2. destruct H1; inversion H2; constructor. unfold same_join in *.
    intuition congruence.
Qed.

Lemma quiet_emit db e : is_signal e = false → quiet db (emit db e).
Proof.
  intros H. split; [by rewrite signals_emit, H, app_nil_r|]. intros wf. rewrite load_run_emit.
  by destruct (load_workflow_run db wf); constructor.
Qed.

Lemma quiet_save_run db run r :
  load_workflow_run db (wf_id run) = Some r → same_join r run → quiet db (save_workflow_run db run).
Proof.
  intros H Hs. split; [done|]. intros wf. rewrite workflow_run_saved.
  destruct (decide (wf_id run = wf)) as [<-|]; [rewrite H; by constructor|].
  by destruct (load_workflow_run db wf); constructor.
Qed.

Lemma quiet_release db wf tid : quiet db (release_singleton_slot_by_task_id db wf tid).
Proof.
  split; [done|]. intros w. change (load_workflow_run (release_singleton_slot_by_task_id db wf tid) w)
    with (load_workflow_run db w). by destruct (load_workflow_run db w); constructor.
Qed.

Lemma quiet_upsert db t : quiet db (upsert_task_run db t).
Proof.
  split; [done|]. intros w. change (load_workflow_run (upsert_task_run db t) w)
    with (load_workflow_run db w). by destruct (load_workflow_run db w); constructor.
Qed.

Lemma quiet_save_task now db t : well_keyed db → quiet db (save_task_run now db t).1.
Proof.
  intros Hk. destruct (save_task_run now db t) as [d r] eqn:E.
  destruct (save_task_run_cases _ _ _ _ _ E) as [_ [(_ & run & Hr & ->)|(_ & _ & ->)]]; cbn [fst].
  - etrans; [apply quiet_upsert|]. apply (quiet_save_run _ _ run); try done.
    assert (wf_id run = task_workflow_id t) as Hi by (by apply (run_keys _ Hk)).
    change (load_workflow_run db (wf_id run) = Some run). by rewrite Hi.
  - apply quiet_upsert.
Qed.

Lemma quiet_sync now db wf : well_keyed db → quiet db (sync_workflow_blocked_approval_status now db wf).
Proof.
  intros Hk. unfold sync_workflow_blocked_approval_status.
  destruct (load_workflow_run db wf) as [run|] eqn:E; [|done].
  assert (wf_id run = wf) as Hi by (by apply (run_keys _ Hk)).
  destruct (wf_status run) eqn:Es; try done; repeat case_match; try done;
    (apply (quiet_save_run _ _ run);
      [change (load_workflow_run db (wf_id run) = Some run); by rewrite Hi
      |unfold same_join; by rewrite Es]).
Qed.

Lemma quiet_close now db task previous status reply :
  well_keyed db → quiet db (close_task now db task previous status reply).
Proof.
  intros Hk. unfold close_task.
  match goal with |- context [release_singleton_slot_by_task_id ?x _ _] => set (d1 := x) end.
  assert (quiet db d1) as Q1 by (unfold d1; destruct (_ && _); [by apply quiet_emit|done]).
  assert (keeps_tasks db d1) as T1 by (unfold d1; destruct (_ && _); [apply kt_emit|done]).
  clearbody d1.
  match goal with |- context [emit ?x (ApprovalCancelled _ _)] => set (d2 := x) end.
  assert (quiet d1 d2) as Q2 by (unfold d2; case_match; [by apply quiet_release|done]).
  assert (keeps_tasks d1 d2) as T2 by (unfold d2; case_match; [apply kt_release|done]).
  clearbody d2.
  match goal with |- context [sync_workflow_blocked_approval_status _ ?x _] => set (d3 := x) end.
  assert (quiet d2 d3) as Q3 by (unfold d3; destruct (_ && _); [by apply quiet_emit|done]).
  assert (keeps_tasks d2 d3) as T3 by (unfold d3; destruct (_ && _); [apply kt_emit|done]).
  clearbody d3. assert (well_keyed d3) as K3 by (by apply T3, T2, T1).
  etrans; [exact Q1|]. etrans; [exact Q2|]. etrans; [exact Q3|].
  case_match; case_match.
  - etrans; [by apply quiet_sync|by apply quiet_emit].
  - by apply quiet_emit.
  - by apply quiet_sync.
  - done.
Qed.

Lemma quiet_announce db task status exhausted : quiet db (announce_task db task status exhausted).
Proof.
  unfold announce_task. repeat case_match;
    repeat first [reflexivity | etrans; [|by apply quiet_emit]].
Qed.

Lemma quiet_wake_task now wf db t :
  well_keyed db → quiet db (wake_task now wf db t).1 ∧ well_keyed (wake_task now wf db t).1.
Proof.
  intros Hk. unfold wake_task. repeat (case_match; [done|]).
  pose proof (well_keyed_save_task now db (woken now t) Hk) as K.
  pose proof (quiet_save_task now db (woken now t) Hk) as Q. unfold woken in K, Q.
  destruct (save_task_run now db _) as [d [|]]; cbn [fst] in *; [|done].
  split; [|by apply well_keyed_emit]. etrans; [exact Q|by apply quiet_emit].
Qed.

Lemma quiet_wake now db wf : well_keyed db → quiet db (wake_paused_child_wait_tasks now db wf).1.
Proof.
  unfold wake_paused_child_wait_tasks. generalize (list_task_runs db wf). intros l. revert db.
  induction l as [|t l IH]; intros db Hk; cbn; [done|].
  destruct (quiet_wake_task now wf db t Hk) as [Q K].
  destruct (wake_task now wf db t) as [d [|]]; cbn [fst] in *; [|done]. etrans; [done|by apply IH].
Qed.

Lemma check_join_tasks db db' wf run run' :
  load_workflow_run db wf = Some run → load_workflow_run db' wf = Some run' →
  join_task_ids run' = join_task_ids run → tasks db' = tasks db →
  check_join_condition db' wf = check_join_condition db wf.
Proof.
  intros H H' E T. unfold check_join_condition, load_task_run. by rewrite H, H', E, T.
Qed.

Lemma gather_tasks db db' wf ids :
  tasks db' = tasks db →
  gather_join_child_summaries extract refs db' wf ids = gather_join_child_summaries extract refs db wf ids.
Proof. intros T. unfold gather_join_child_summaries, list_task_runs, load_task_run. by rewrite T. Qed.

Lemma signals_satisfy now hook db run :
  signals (satisfy_join extract refs now hook db run) = signals db ++
    (if negb (bool_decide (hook = Some true)) && negb (starts_with (wf_id run) "sched-")
     then [JoinSatisfied (wf_root_session_id run) (wf_id run) (join_task_ids run)
             (gather_join_child_summaries extract refs db (wf_id run) (join_task_ids run))]
     else []).
Proof.
  unfold satisfy_join. set (d1 := emit _ (TimelineEvent _ _ _)).
  assert (signals d1 = signals db) as E by (unfold d1; rewrite signals_emit; apply app_nil_r).
  assert (tasks d1 = tasks db) as T by done. clearbody d1. rewrite (gather_tasks _ _ _ _ T).
  destruct (_ && _); destruct (bool_decide (is_Some hook));
    by rewrite ?signals_emit, ?E; cbn [is_signal]; rewrite ?app_nil_r.
Qed.

(** What sessions hear of an update, exactly.  When it completes a join, the
    root session gets the join signal with a summary of every ended task, unless
    a hook delivers it or the workflow is a scheduled job; and if the status is
    one a parent waits for, the parent (the root, for a task without one) gets a
    notification carrying the outcome, unless it is the root and the join was
    completed by this very update.  A parent is never left without a wake and
    never woken twice. *)
Theorem signals_of_update ops now hook wf tid status reply task run :
  let db := run_ops ops in
  let d := evaluate_stage_retry task status reply in
  let up := upsert_task_run db (updated_task now task status reply d) in
  let root := wf_root_session_id run in
  let target := if str_is_empty (parent_session_id task) then root else parent_session_id task in
  load_task_run db wf tid = Some task → load_workflow_run db wf = Some run →
  try_transition (task_status task) status = true →
  ∃ joined : bool,
    (joined = true → is_terminal_for_join status = true ∧ check_join_condition up wf = true ∧
       stopping (wf_status run) = false) ∧
    (wf_status run ≠ WfResumable → stopping (wf_status run) = false →
       joined = is_terminal_for_join status && check_join_condition up wf) ∧
    signals (update_task_run_status extract refs now hook db wf tid status reply).1 = signals db
      ++ (if joined && negb (bool_decide (hook = Some true)) && negb (starts_with wf "sched-")
          then [JoinSatisfied root wf (join_task_ids run)
                  (gather_join_child_summaries extract refs up wf (join_task_ids run))]
          else [])
      ++ (match child_state_event_type status with
          | Some _ => if negb joined || negb (target =? root)%string
                      then [ChildState target (with_artifact_refs refs
                              (build_child_state_notification extract task status reply (failure d)))]
                      else []
          | None => []
          end).
Proof.
  cbn zeta. pose proof (run_well_keyed ops) as Hk. revert Hk. generalize (run_ops ops).
  intros db Hk Hl Hr Htr. unfold update_task_run_status. rewrite Hl, Htr. cbn [negb].
  set (d := evaluate_stage_retry task status reply). set (t := updated_task now task status reply d).
  set (n := with_artifact_refs refs _).
  destruct (load_task_key _ _ _ _ Hk Hl) as [Hw Hi].
  assert (task_workflow_id t = wf ∧ parent_session_id t = parent_session_id task) as [Htw Hpar].
  { rewrite <-Hw. unfold t, updated_task. by destruct (failure d). }
  pose proof (quiet_save_task now db t Hk) as Q0. pose proof (well_keyed_save_task now db t Hk) as K0.
  destruct (save_task_run now db t) as [db0 r] eqn:E. cbn [fst] in Q0, K0.
  destruct (save_task_run_cases _ _ _ _ _ E) as [T0 [(-> & _ & _)|(_ & Hnone & _)]];
    [|rewrite Htw in Hnone; congruence].
  set (db2 := announce_task _ _ _ _).
  assert (quiet db0 db2) as Q2.
  { unfold db2. etrans; [|apply quiet_announce]. by apply quiet_close. }
  assert (keeps_tasks db0 db2) as T2 by (unfold db2; kt_step; kt).
  assert (quiet db db2) as Q by (by etrans). clearbody db2. clear Q0 Q2.
  pose proof (q_run _ _ Q wf) as Hq. rewrite Hr in Hq. inversion Hq as [? run2 Hs Hr1 Hr2|]; subst x.
  symmetry in Hr2. destruct Hs as (Ewf & Ejoin & Eroot & Estop & Eres).
  assert (wf_id run2 = wf) as Hi2 by (rewrite Ewf; by apply (run_keys _ Hk)).
  assert (tasks db2 = tasks (upsert_task_run db t)) as Tup by (by rewrite (kt_tasks _ _ T2), T0).
  set (db3 := if _ && negb (bool_decide (wf_status run2 = WfBlockedApproval)) then _ else _).
  assert (tasks db3 = tasks (upsert_task_run db t) ∧ signals db3 = signals db ∧
    ∃ run3, load_workflow_run db3 wf = Some run3 ∧ join_task_ids run3 = join_task_ids run) as (T3 & S3 & run3 & Hr3 & J3).
  { unfold db3. destruct (_ && _); [|split; [done|]; split; [apply Q|by exists run2]].
    split; [done|]. split; [apply (q_signals _ _ Q)|]. eexists. rewrite workflow_run_saved.
    rewrite decide_True by done. split; [reflexivity|done]. }
  assert (check_join_condition db3 wf = check_join_condition (upsert_task_run db t) wf) as CJ.
  { by apply (check_join_tasks _ _ _ run run3). }
  rewrite CJ. set (joined := _ && negb (bool_decide (wf_status run2 = WfResumable)) && check_join_condition _ wf).
  exists joined. split; [|split].
  - unfold joined. intros H. bool_norm. rewrite <-Estop. by split_and!.
  - intros Hnr Hns. unfold joined. rewrite Estop, Hns.
    rewrite (bool_decide_eq_false_2 (wf_status run2 = WfResumable)) by auto. cbn [negb].
    by rewrite !andb_true_r.
  - set (db4 := if joined then _ else db3).
    assert (signals db4 = signals db ++ if joined && negb (bool_decide (hook = Some true)) && negb (starts_with wf "sched-")
      then [JoinSatisfied (wf_root_session_id run) wf (join_task_ids run)
              (gather_join_child_summaries extract refs (upsert_task_run db t) wf (join_task_ids run))]
      else []) as S4.
    { unfold db4. destruct joined; [|by rewrite S3, app_nil_r]. rewrite signals_satisfy, S3, Hi2, Eroot, Ejoin.
      by rewrite (gather_tasks _ _ _ _ T3). }
    rewrite Hpar, Eroot, app_assoc, <-S4.
    set (db5 := match child_state_event_type status with Some _ => _ | None => _ end).
    match goal with |- _ = ?x => assert (signals db5 = x) as S5 end.
    { unfold db5. destruct (child_state_event_type status); [|by rewrite app_nil_r].
      destruct (_ || _); [by rewrite signals_emit|by rewrite app_nil_r]. }
    rewrite <-S5. destruct (is_terminal_for_join status); [|done]. cbn [fst].
    apply q_signals, quiet_wake.
    assert (keeps_tasks db0 db5) as K5.
    { etrans; [exact T2|]. clear T2. unfold db5, db4, db3. repeat (case_match; try kt_step); kt. }
    by apply K5.
Qed.
End Updates.

(** ** Examples *)

Definition parse_nothing (reply : string) : option Json := None.
Definition no_refs (session : string) : list string := [].

Definition demo_row (id session parent : string) (status : TaskRunStatus) : TaskRun :=
  demo_task{{ task_id := id; task_session_id := session; parent_session_id := parent;
              task_status := status }}.

(** A planner parked for two children. *)
Definition demo_ops : list (string * Op) :=
  [("t0", OpEnsure "wf-1" "root" (Some "lead"));
   ("t1", OpSpawn (demo_row "planner" "root/planner" "root" TRunning));
   ("t2", OpSpawn (demo_row "coder" "root/planner/coder" "root/planner" TRunning));
   ("t3", OpSpawn (demo_row "tester" "root/planner/tester" "root/planner" TRunning));
   ("t4", OpUpdate None "wf-1" "planner" TPaused None);
   ("t5", OpCheckpoint "wf-1" "planner" child_wait_step JNull)].

Lemma is_some_value {A} (o : option A) : (if o then true else false) = true → is_Some o.
Proof. by destruct o. Qed.

Definition demo_db : WorkflowDb := run_ops parse_nothing no_refs demo_ops.

Definition demo_end (db : WorkflowDb) (tid : string) : WorkflowDb :=
  (update_task_run_status parse_nothing no_refs "t9" None db "wf-1" tid TSucceeded (Some "done")).1.

Definition demo_status (db : WorkflowDb) (tid : string) : option TaskRunStatus :=
  task_status <$> load_task_run db "wf-1" tid.

(** The planner goes on when the second child has ended, not before. *)
Example planner_waits_for_both :
  demo_status (demo_end demo_db "coder") "planner" = Some TPaused ∧
  demo_status (demo_end (demo_end demo_db "coder") "tester") "planner" = Some TRunnable.
Proof. vm_compute. done. Qed.

Lemma status_changes_witness :
  ∃ t', tasks (step parse_nothing no_refs demo_db ("t6", OpStop "wf-1" "stop-1")) !! ("wf-1", "coder")
          = Some t' ∧ task_status t' = TAborted.
Proof.
  assert (tasks demo_db !! ("wf-1", "coder")
    = Some (demo_row "coder" "root/planner/coder" "root/planner" TRunning)) as H by (vm_compute; reflexivity).
  destruct (status_changes parse_nothing no_refs demo_ops "t6" (OpStop "wf-1" "stop-1") _ _ H)
    as [_ (t' & Ht & _)].
  exists t'. split; [exact Ht|]. vm_compute in Ht. injection Ht as <-. reflexivity.
Defined.

Lemma terminal_is_final_witness :
  ∃ t', tasks (run_ops parse_nothing no_refs
                 ((demo_ops ++ [("t6", OpUpdate None "wf-1" "coder" TSucceeded None)])
                  ++ [("t7", OpStop "wf-1" "stop-1")])) !! ("wf-1", "coder") = Some t' ∧
        task_status t' = TSucceeded.
Proof.
  assert (is_Some (load_task_run (run_ops parse_nothing no_refs
    (demo_ops ++ [("t6", OpUpdate None "wf-1" "coder" TSucceeded None)])) "wf-1" "coder")) as [t E]
    by (apply is_some_value; vm_compute; reflexivity).
  assert (task_status t = TSucceeded) as Es by (vm_compute in E; injection E as <-; reflexivity).
  destruct (terminal_is_final parse_nothing no_refs _ [("t7", OpStop "wf-1" "stop-1")] _ t E)
    as (t' & Ht & Hs); [by rewrite Es|by repeat constructor|].
  exists t'. split; [exact Ht|by rewrite Hs].
Defined.

Lemma no_parked_task_is_forgotten_witness :
  no_lost_wakeup (demo_end demo_db "coder") "wf-1" ∧
  demo_status (demo_end demo_db "coder") "planner" = Some TPaused.
Proof.
  split; [|vm_compute; reflexivity].
  assert (is_Some (load_workflow_run demo_db "wf-1")) as [run Er]
    by (apply is_some_value; vm_compute; reflexivity).
  assert (is_Some (load_task_run demo_db "wf-1" "coder")) as [task Et]
    by (apply is_some_value; vm_compute; reflexivity).
  apply (no_parked_task_is_forgotten parse_nothing no_refs demo_ops "t9" None "wf-1" run Er)
    with (task := task); [exact Et| |reflexivity].
  vm_compute in Et. injection Et as <-. reflexivity.
Defined.

Lemma no_deadlock_witness :
  ∃ t u, load_task_run (demo_end demo_db "coder") "wf-1" "planner" = Some t ∧
    tc (waits_for (demo_end demo_db "coder") "wf-1") t u ∧
    parked (demo_end demo_db "coder") "wf-1" u = false.
Proof.
  assert (is_Some (load_task_run demo_db "wf-1" "coder")) as [task Et]
    by (apply is_some_value; vm_compute; reflexivity).
  assert (is_Some (load_task_run (demo_end demo_db "coder") "wf-1" "planner")) as [t Ep]
    by (apply is_some_value; vm_compute; reflexivity).
  assert (forallb (λ u, forallb (λ v, negb (is_child_of (task_session_id u) v)
    || (String.length (task_session_id u) <? String.length (task_session_id v))%nat)
    (list_task_runs (demo_end demo_db "coder") "wf-1"))
    (list_task_runs (demo_end demo_db "coder") "wf-1") = true) as Hall by (vm_compute; reflexivity).
  assert (is_Some (load_workflow_run demo_db "wf-1")) as Er
    by (apply is_some_value; vm_compute; reflexivity).
  assert (try_transition (task_status task) TSucceeded = true) as Htr
    by (vm_compute in Et; injection Et as <-; reflexivity).
  assert (parked (demo_end demo_db "coder") "wf-1" t = true) as Hp
    by (vm_compute in Ep; injection Ep as <-; vm_compute; reflexivity).
  destruct (no_deadlock parse_nothing no_refs demo_ops "t9" None "wf-1" "coder" task TSucceeded
    (Some "done") "planner" t Er Et Htr eq_refl) as (u & Hu & Hn); [|exact Ep|exact Hp|].
  - intros i j u v Hu Hv Hc.
    apply forallb_true with (x := u) in Hall; [|apply elem_of_list_task_runs; exists i; exact Hu].
    apply forallb_true with (x := v) in Hall; [|apply elem_of_list_task_runs; exists j; exact Hv].
    rewrite Hc in Hall. apply Nat.ltb_lt. exact Hall.
  - exists t, u. split; [exact Ep|]. split; [exact Hu|exact Hn].
Defined.

Lemma signals_of_update_witness :
  ∃ joined, signals (demo_end demo_db "coder") = signals demo_db ++ joined ∧ length joined = 2.
Proof.
  assert (is_Some (load_workflow_run demo_db "wf-1")) as [run Er]
    by (apply is_some_value; vm_compute; reflexivity).
  assert (is_Some (load_task_run demo_db "wf-1" "coder")) as [task Et]
    by (apply is_some_value; vm_compute; reflexivity).
  destruct (signals_of_update parse_nothing no_refs demo_ops "t9" None "wf-1" "coder" TSucceeded
    (Some "done") task run Et Er) as (j & _ & Hj & E).
  { vm_compute in Et. injection Et as <-. reflexivity. }
  assert (j = true) as ->.
  { rewrite Hj; vm_compute in Et; injection Et as <-; vm_compute in Er; injection Er as <-.
    - vm_compute. reflexivity.
    - vm_compute. discriminate.
    - reflexivity. }
  eexists. split; [exact E|].
  vm_compute in Et. injection Et as <-. vm_compute in Er. injection Er as <-.
  clear E Hj. vm_compute. reflexivity.
Defined.
