(* ===== verification/WorkflowEnd.v ===== *)
(** * The workflow store: joins, completion, stops, slots and claims

    When the join of a workflow is satisfied and the workflow may complete, what
    an emergency stop leaves behind, and who holds a singleton slot or an
    execution claim. *)

From Stdlib Require Import Ascii String Lia.
From stdpp Require Import prelude gmap strings list sorting.
From coqutil Require Import Datatypes.RecordSetters.
From S2P Require Import Prelude RustStr Json ContentStore Workflow WorkflowStore WorkflowInv.
Import DoubleBraceUpdate.

Open Scope string_scope.
Open Scope list_scope.

(** ** Joins *)

Lemma forall2_elem_l {A B} (P : A → B → Prop) l k x :
  Forall2 P l k → x ∈ l → ∃ y, P x y ∧ y ∈ k.
Proof.
  induction 1 as [|a b l k Hab _ IH]; [by intros ?%not_elem_of_nil|].
  setoid_rewrite elem_of_cons. naive_solver.
Qed.

Lemma forall2_elem_r {A B} (P : A → B → Prop) l k y :
  Forall2 P l k → y ∈ k → ∃ x, P x y ∧ x ∈ l.
Proof. intros H%Forall2_flip Hy. by apply (forall2_elem_l _ _ _ _ H). Qed.

(** The join is satisfied exactly when the workflow exists and either awaits no
    task, or knows all tasks it awaits and those of one join group have all
    ended (gone stale included). *)
Theorem check_join_condition_spec db wf :
  check_join_condition db wf = true ↔
  ∃ run, load_workflow_run db wf = Some run ∧
    (join_task_ids run = [] ∨
     (∀ id, id ∈ join_task_ids run → is_Some (load_task_run db wf id)) ∧
     ∃ id t, id ∈ join_task_ids run ∧ load_task_run db wf id = Some t ∧
       ∀ id' t', id' ∈ join_task_ids run → load_task_run db wf id' = Some t' →
         join_group_of t' = join_group_of t → is_terminal_for_join (task_status t') = true).
Proof.
  unfold check_join_condition. destruct (load_workflow_run db wf) as [run|]; [|naive_solver].
  case_bool_decide as He; [naive_solver|].
  destruct (mapM (load_task_run db wf) (join_task_ids run)) as [ts|] eqn:Em.
  - apply mapM_Some in Em. rewrite existsb_true. split.
    + intros (g & Hg & Hall). apply list_elem_of_fmap in Hg as (t & -> & Ht).
      exists run. split; [done|]. right. split.
      * intros id Hid. destruct (forall2_elem_l _ _ _ _ Em Hid) as (t' & -> & _). done.
      * destruct (forall2_elem_r _ _ _ _ Em Ht) as (id & Hl & Hid).
        exists id, t. split; [done|]. split; [done|]. intros id' t' Hid' Hl' Eg.
        destruct (forall2_elem_l _ _ _ _ Em Hid') as (t2 & Hl2 & Ht2). simplify_eq.
        apply forallb_true with (x := t') in Hall; [|done]. apply str_eqb_spec in Eg.
        by rewrite Eg in Hall.
    + intros (r & [= <-] & [?|(_ & id & t & Hid & Hl & Hall)]); [done|].
      exists (join_group_of t). destruct (forall2_elem_l _ _ _ _ Em Hid) as (t2 & Hl2 & Ht2).
      assert (t2 = t) as -> by congruence. split; [by apply list_elem_of_fmap_2|]. apply forallb_true. intros u Hu.
      destruct (forall2_elem_r _ _ _ _ Em Hu) as (id' & Hl' & Hid').
      destruct (join_group_of u =? join_group_of t)%string eqn:Eg; [|done]. cbn.
      apply str_eqb_spec in Eg. by apply (Hall id').
  - split; [done|]. intros (r & [= <-] & [?|(Hall & _)]); [done|].
    apply mapM_None in Em. apply Exists_exists in Em as (id & Hid & Hn).
    destruct (Hall id Hid) as [? ?]. congruence.
Qed.

(** ** Emergency stop *)

Definition ok_value {A E} (r : result A E) : option A :=
  match r with Ok a => Some a | Err _ => None end.

Lemma elem_of_queued db wf q :
  well_keyed db →
  q ∈ load_queued_tasks db wf ↔ queue db !! (wf, q_task_id q) = Some q ∧ q_workflow_id q = wf.
Proof.
  intros Hk. unfold load_queued_tasks. rewrite elem_of_sort_by, list_elem_of_fmap. split.
  - intros ([[w tid] q'] & -> & H). apply list_elem_of_In, filter_In in H as [H E].
    apply list_elem_of_In, elem_of_map_to_list in H. apply str_eqb_spec in E. cbn in *. subst w.
    pose proof (queue_keys _ Hk _ _ H) as [= <- <-]. done.
  - intros [H _]. exists (wf, q_task_id q, q). split; [done|].
    apply list_elem_of_In, filter_In. split; [|by apply str_eqb_spec].
    by apply list_elem_of_In, elem_of_map_to_list.
Qed.

(** What the stop leaves of the other workflows, and of the tasks of this one. *)
Record stops_only (wf : string) (db db' : WorkflowDb) : Prop := {
  so_keyed : well_keyed db → well_keyed db';
  so_run : is_Some (load_workflow_run db wf) → is_Some (load_workflow_run db' wf);
  so_runs w : w ≠ wf → load_workflow_run db' w = load_workflow_run db w;
  so_queue k : k.1 ≠ wf → queue db' !! k = queue db !! k;
  so_queue_none k : queue db !! k = None → queue db' !! k = None;
  so_claims k : k.1 ≠ wf → claims db' !! k = claims db !! k;
  so_claims_none k : claims db !! k = None → claims db' !! k = None;
}.

#[export] Instance stops_only_preorder wf : PreOrder (stops_only wf).
Proof.
  split; [by intros db; split|]. intros a b c A B.
  split; intros; [by apply B, A|by apply B, A|..|by apply B, A| |by apply B, A].
  - rewrite (so_runs _ _ _ B) by done. by apply A.
  - rewrite (so_queue _ _ _ B) by done. by apply A.
  - rewrite (so_claims _ _ _ B) by done. by apply A.
Qed.

Lemma so_save_run wf db run : wf_id run = wf → stops_only wf db (save_workflow_run db run).
Proof.
  intros E. split; try done; [apply well_keyed_save_run|..]; intros.
  - rewrite workflow_run_saved. by case_decide.
  - rewrite workflow_run_saved. case_decide; [congruence|done].
Qed.

Lemma so_emit wf db e : stops_only wf db (emit db e).
Proof. split; try done. apply well_keyed_emit. Qed.

Lemma so_release wf db tid : stops_only wf db (release_task_claim db wf tid).
Proof.
  split; try done.
  - intros []. by split.
  - intros k Hk. change (delete (wf, tid) (claims db) !! k = claims db !! k).
    apply lookup_delete_ne. intros <-. by cbn in Hk.
  - intros k Hk. change (delete (wf, tid) (claims db) !! k = None). by apply lookup_delete_None; right.
Qed.

Lemma so_dequeue now wf db tid :
  well_keyed db → stops_only wf db (dequeue_task now db wf tid) ∧
  queue (dequeue_task now db wf tid) !! (wf, tid) = None.
Proof.
  intros Hk. unfold dequeue_task. set (db0 := db{{ queue := _ }}).
  assert (well_keyed db0) as Hk0.
  { destruct Hk as [Ht Hr Hq]. split; [done..|]. intros k q H.
    change (delete (wf, tid) (queue db) !! k = Some q) in H.
    apply lookup_delete_Some in H as [_ H]. by apply Hq. }
  assert (stops_only wf db db0) as S0.
  { split; try done; intros k H.
    - change (delete (wf, tid) (queue db) !! k = queue db !! k). apply lookup_delete_ne.
      intros <-. by cbn in H.
    - change (delete (wf, tid) (queue db) !! k = None). by apply lookup_delete_None; right. }
  assert (queue db0 !! (wf, tid) = None) as Q0.
  { change (delete (wf, tid) (queue db) !! (wf, tid) = None). apply lookup_delete_eq. }
  destruct (load_workflow_run db0 wf) as [run|] eqn:Er; [|done].
  match goal with |- context [save_workflow_run db0 ?x] => set (run' := x) end.
  assert (wf_id run' = wf) as Ei by exact (run_keys _ Hk0 wf run Er).
  split; [|done]. etrans; [exact S0|]. etrans; [by apply (so_save_run wf _ run')|apply so_release].
Qed.

Definition aborted (now stop_id : string) (t : TaskRun) : TaskRun :=
  t{{ task_status := TAborted; task_updated_at := now;
      result_summary := Some ("emergency_stop:" ++ stop_id)%string }}.

Lemma abort_task_spec now stop_id wf db t :
  tasks db !! task_key t = Some t → task_workflow_id t = wf →
  is_Some (load_workflow_run db wf) → well_keyed db →
  ∃ db', abort_task now stop_id wf db t = (db', Ok tt) ∧ stops_only wf db db' ∧
    tasks db' = (if is_terminal (task_status t) then tasks db
                 else <[task_key t := aborted now stop_id t]> (tasks db)) ∧
    (is_terminal (task_status t) = false → claims db' !! task_key t = None).
Proof.
  intros Ht Hw [run Hr] Hk. unfold abort_task.
  destruct (is_terminal (task_status t)); [by exists db|].
  set (db0 := release_task_claim db wf (task_id t)).
  assert (stops_only wf db db0) as S0 by apply so_release.
  change (t{{ task_status := _; task_updated_at := _; result_summary := _ }})
    with (aborted now stop_id t).
  assert (load_workflow_run db0 (task_workflow_id (aborted now stop_id t)) = Some run) as Hr'.
  { change (load_workflow_run db (task_workflow_id t) = Some run). by rewrite Hw. }
  rewrite (save_task_run_ok now db0 _ run Hr'). eexists. split; [reflexivity|].
  set (run' := track_active now run _).
  assert (wf_id run' = wf) as Ei by exact (run_keys _ Hk wf run Hr).
  split; [|split].
  - etrans; [exact S0|].
    assert (stops_only wf db0 (upsert_task_run db0 (aborted now stop_id t))) as S1.
    { split; try done. apply well_keyed_upsert. }
    etrans; [exact S1|]. etrans; [by apply (so_save_run wf _ run')|].
    destruct (str_is_empty _); [apply so_emit|]. etrans; apply so_emit.
  - by destruct (str_is_empty _).
  - intros _. assert (claims db0 !! task_key t = None) as C0.
    { unfold task_key. rewrite Hw. apply lookup_delete_eq. }
    by destruct (str_is_empty _).
Qed.

Lemma abort_loop_spec now stop_id wf l db :
  (∀ t, t ∈ l → load_task_run db wf (task_id t) = Some t ∧ task_workflow_id t = wf) →
  NoDup (task_id <$> l) → is_Some (load_workflow_run db wf) → well_keyed db →
  ∃ db', try_for_each (abort_task now stop_id wf) l db = (db', Ok tt) ∧ stops_only wf db db' ∧
    (∀ k : string * string, tasks db' !! k = t ← tasks db !! k;
       Some (if bool_decide (k.1 = wf) && bool_decide (k.2 ∈ task_id <$> l)
                && negb (is_terminal (task_status t)) then aborted now stop_id t else t)) ∧
    (∀ t, t ∈ l → is_terminal (task_status t) = false → claims db' !! (wf, task_id t) = None).
Proof.
  revert db. induction l as [|t l IH]; intros db Hl Hnd Hr Hk.
  { exists db. split; [done|]. split; [done|]. split; [|by intros ? ?%not_elem_of_nil].
    intros k. destruct (tasks db !! k); [|done]. cbn [fmap list_fmap mbind option_bind].
    rewrite (bool_decide_eq_false_2 (k.2 ∈ [])) by apply not_elem_of_nil. by rewrite andb_false_r. }
  destruct (Hl t) as [Ht Hw]; [left|]. apply NoDup_cons in Hnd as [Hni Hnd].
  assert (task_key t = (wf, task_id t)) as Ek by (unfold task_key; by rewrite Hw).
  assert (tasks db !! task_key t = Some t) as Et by (by rewrite Ek).
  destruct (abort_task_spec now stop_id wf db t Et Hw Hr Hk) as (db1 & E1 & S1 & T1 & C1).
  cbn [try_for_each]. rewrite E1.
  assert (∀ k, k ≠ task_key t → tasks db1 !! k = tasks db !! k) as O1.
  { intros k Hne. rewrite T1. destruct (is_terminal _); [done|]. by apply lookup_insert_ne. }
  destruct (IH db1) as (db2 & E2 & S2 & T2 & C2); [|done|by apply S1|by apply S1|].
  { intros u Hu. destruct (Hl u) as [Hlu Hwu]; [by right|]. split; [|done].
    unfold load_task_run. rewrite O1; [done|]. rewrite Ek. intros [= E].
    apply Hni. rewrite <-E. by apply list_elem_of_fmap_2. }
  exists db2. split; [done|]. split; [by etrans|]. split.
  - intros k. rewrite T2. destruct (decide (k = task_key t)) as [->|Hne].
    + rewrite Et, T1, Ek. cbn [fst snd mbind option_bind].
      rewrite (bool_decide_eq_true_2 (wf = wf)) by done. cbn [andb].
      rewrite (bool_decide_eq_true_2 (task_id t ∈ task_id <$> t :: l)) by left.
      rewrite (bool_decide_eq_false_2 (task_id t ∈ task_id <$> l)) by done. cbn [andb].
      destruct (is_terminal (task_status t)); [by rewrite <-Ek, Et|by rewrite lookup_insert_eq].
    + rewrite O1 by done. destruct (tasks db !! k) as [u|]; [|done]. cbn [mbind option_bind]. f_equal.
      destruct (bool_decide_reflect (k.1 = wf)) as [Ek'|]; [|done]. cbn [andb].
      erewrite (bool_decide_ext (k.2 ∈ task_id <$> l)); [done|].
      rewrite fmap_cons, elem_of_cons. split; [by right|]. intros [E|]; [|done].
      destruct Hne. rewrite Ek. destruct k. cbn in *. congruence.
  - intros u Hu Hnt. apply elem_of_cons in Hu as [->|Hu]; [|by apply C2].
    apply (so_claims_none _ _ _ S2). rewrite <-Ek. by apply C1.
Qed.

Lemma dequeue_loop_spec now wf (l : list QueuedTaskRun) db :
  well_keyed db →
  let f db q := release_task_claim (dequeue_task now db wf (q_task_id q)) wf (q_task_id q) in
  stops_only wf db (fold_left f l db) ∧ tasks (fold_left f l db) = tasks db ∧
  slots (fold_left f l db) = slots db ∧
  ∀ q, q ∈ l → queue (fold_left f l db) !! (wf, q_task_id q) = None.
Proof.
  intros Hk f. revert db Hk. induction l as [|q l IH]; intros db Hk; cbn [fold_left].
  { split; [done|]. split; [done|]. split; [done|]. by intros ? ?%not_elem_of_nil. }
  destruct (so_dequeue now wf db (q_task_id q) Hk) as [S0 Q0].
  assert (stops_only wf db (f db q)) as S1 by (etrans; [exact S0|apply so_release]).
  destruct (IH (f db q)) as (S2 & T2 & L2 & Q2); [by apply S1|].
  split; [by etrans|]. split.
  { rewrite T2. apply (dequeue_tasks now db wf (q_task_id q)). }
  split.
  { rewrite L2. unfold f, dequeue_task. by case_match. }
  intros u Hu. apply elem_of_cons in Hu as [->|Hu]; [|by apply Q2].
  by apply (so_queue_none _ _ _ S2).
Qed.

(** C17: An emergency stop is total and reaches nothing else.  In every state the
    store's operations reach - claims and singleton slots taken and released among
    them - and unless the workflow was stopped already, which changes nothing, it
    succeeds: no task of the workflow is left in the queue, every task that had not
    ended is aborted with the stop's identifier and loses its claim and the ended
    ones are untouched, no singleton slot is held, new work is refused from then
    on, and other workflows keep their runs, tasks, queues and claims.  The list of
    active tasks is the one read at the start, so it still names the aborted
    tasks. *)
Theorem emergency_stop_spec extract refs ops now wf stop_id run :
  let db := run_ops extract refs ops in
  let '(db', r) := apply_emergency_stop_to_workflow now db wf stop_id in
  load_workflow_run db wf = Some run →
  if bool_decide (wf_status run = WfEmergencyStopped)
  then db' = db ∧ (already_stopped <$> ok_value r) = Some true
  else (already_stopped <$> ok_value r) = Some false ∧
    (∃ run', load_workflow_run db' wf = Some run' ∧ wf_status run' = WfEmergencyStopped ∧
       queued_task_ids run' = [] ∧ active_task_ids run' = active_task_ids run) ∧
    (∀ k t, tasks db !! k = Some t → tasks db' !! k =
       Some (if bool_decide (k.1 = wf) && negb (is_terminal (task_status t))
             then aborted now stop_id t else t)) ∧
    (∀ tid, queue db' !! (wf, tid) = None) ∧
    (∀ tid t, load_task_run db wf tid = Some t → is_terminal (task_status t) = false →
       claims db' !! (wf, tid) = None) ∧
    (∀ agent revision, slots db' !! (wf, agent, revision) = None) ∧
    (∀ q now', q_workflow_id q = wf → enqueue_task now' db' q = (db', Err (InEmergencyStop wf))) ∧
    (∀ w, w ≠ wf → load_workflow_run db' w = load_workflow_run db w ∧
       ∀ tid, queue db' !! (w, tid) = queue db !! (w, tid) ∧
              claims db' !! (w, tid) = claims db !! (w, tid)).
Proof.
  cbn zeta. pose proof (run_well_keyed extract refs ops) as Hk. revert Hk.
  generalize (run_ops extract refs ops). intros db Hk.
  destruct (apply_emergency_stop_to_workflow now db wf stop_id) as [db' r] eqn:E. intros Hr.
  unfold apply_emergency_stop_to_workflow in E. rewrite Hr in E.
  destruct (bool_decide (wf_status run = WfEmergencyStopped)); [by simplify_eq|].
  set (db0 := save_workflow_run db _) in E.
  assert (stops_only wf db db0) as S0 by (apply so_save_run; exact (run_keys _ Hk wf run Hr)).
  assert (well_keyed db0) as K0 by by apply S0.
  destruct (dequeue_loop_spec now wf (load_queued_tasks db0 wf) db0 K0) as (S1 & T1 & _ & Q1).
  cbv beta zeta in S1, T1, Q1. set (db1 := fold_left _ _ db0) in *.
  assert (stops_only wf db db1) as S01 by by etrans.
  assert (well_keyed db1) as K1 by by apply S01.
  destruct (abort_loop_spec now stop_id wf (list_task_runs db1 wf) db1)
    as (db2 & E2 & S2 & T2 & C2); [by intros t; apply listed_task|by apply NoDup_task_ids| |done|].
  { apply (so_run _ _ _ S01). by exists run. }
  rewrite E2 in E. injection E as <- <-.
  set (db3 := save_workflow_run db2 _).
  assert (stops_only wf db2 db3) as S3 by (apply so_save_run; exact (run_keys _ Hk wf run Hr)).
  assert (stops_only wf db db3) as S by (etrans; [exact S01|by etrans]).
  assert (load_workflow_run db3 wf = Some (run{{ wf_status := WfEmergencyStopped;
    wf_updated_at := now; queued_task_ids := [] }})) as R3.
  { unfold db3. rewrite workflow_run_saved. rewrite decide_True by exact (run_keys _ Hk wf run Hr). done. }
  assert (∀ k t, tasks db !! k = Some t → tasks db3 !! k =
       Some (if bool_decide (k.1 = wf) && negb (is_terminal (task_status t))
             then aborted now stop_id t else t)) as T3.
  { intros k t Ht. change (tasks db3) with (tasks db2). rewrite T2, T1.
    change (tasks db0) with (tasks db). rewrite Ht. cbn [mbind option_bind]. f_equal.
    destruct (bool_decide_reflect (k.1 = wf)) as [Ek|]; [|done]. cbn [andb].
    rewrite bool_decide_eq_true_2; [done|]. apply list_elem_of_fmap. exists t.
    rewrite <-(task_keys _ Hk _ _ Ht). split; [done|]. apply elem_of_list_task_runs. exists k.2.
    unfold load_task_run. rewrite T1. change (tasks db0) with (tasks db).
    destruct k as [w tid]. cbn in *. by subst w. }
  split; [done|]. split; [by eexists|]. split; [exact T3|]. split; [|split; [|split; [|split]]].
  - intros tid. apply (so_queue_none _ _ _ S3), (so_queue_none _ _ _ S2).
    destruct (queue db0 !! (wf, tid)) as [q|] eqn:Eq; [|by apply (so_queue_none _ _ _ S1)].
    pose proof (queue_keys _ K0 _ _ Eq) as [= Ew <-]. by apply Q1, elem_of_queued.
  - intros tid t Ht Hnt. apply (so_claims_none _ _ _ S3).
    destruct (load_task_key _ _ _ _ Hk Ht) as [Hw <-]. apply C2; [|done].
    apply elem_of_list_task_runs. exists (task_id t). unfold load_task_run. by rewrite T1.
  - intros agent revision. cbn. apply map_lookup_filter_None_2. right. intros s _. cbn.
    by rewrite (proj2 (str_eqb_spec wf wf) eq_refl).
  - intros q now' Hq. unfold enqueue_task. rewrite Hq.
    match goal with |- context [load_workflow_run ?d wf] => change (load_workflow_run d wf) with (load_workflow_run db3 wf) end.
    by rewrite R3.
  - intros w Hw. split; [by apply (so_runs _ _ _ S)|]. intros tid.
    split; [by apply (so_queue _ _ _ S)|by apply (so_claims _ _ _ S)].
Qed.

(** ** Completion *)

(** Every live task of the workflow is listed as active. *)
Definition covers (db : WorkflowDb) (wf : string) : Prop :=
  ∃ run, load_workflow_run db wf = Some run ∧
    ∀ tid t, load_task_run db wf tid = Some t → live t = true → tid ∈ active_task_ids run.

Lemma elem_of_push_id l x y : y ∈ push_id l x ↔ y ∈ l ∨ y = x.
Proof.
  unfold push_id. destruct (existsb (String.eqb x) l) eqn:E.
  - apply existsb_true in E as (z & Hz & E). apply str_eqb_spec in E as <-. naive_solver.
  - rewrite elem_of_app, list_elem_of_singleton. done.
Qed.

Lemma elem_of_fold_push l k y : y ∈ fold_left push_id l k ↔ y ∈ k ∨ y ∈ l.
Proof.
  revert k. induction l as [|x l IH]; intros k; cbn.
  - split; [by left|]. intros [?|H]; [done|by apply not_elem_of_nil in H].
  - rewrite IH, elem_of_push_id, elem_of_cons. naive_solver.
Qed.

Lemma repaired_covers run ts t : t ∈ ts → live t = true → task_id t ∈ repaired_active_ids run ts.
Proof.
  intros Ht Hl. unfold repaired_active_ids. apply elem_of_fold_push. right.
  apply list_elem_of_fmap_2, list_elem_of_In, filter_In. split; [by apply list_elem_of_In|done].
Qed.

Lemma wake_task_covers now wf db t :
  tasks db !! task_key t = Some t → task_workflow_id t = wf → well_keyed db →
  covers db wf → covers (wake_task now wf db t).1 wf.
Proof.
  intros Ht Hw Hk (run & Hr & Hc). unfold wake_task.
  destruct (parked db wf t) eqn:Hp; [|by exists run]. cbn [negb].
  destruct (session_has_non_terminal_children _ _ _); [by exists run|].
  change (t{{ task_status := _; task_updated_at := _ }}) with (woken now t).
  assert (load_workflow_run db (task_workflow_id (woken now t)) = Some run) as Hr'
    by (change (load_workflow_run db (task_workflow_id t) = Some run); by rewrite Hw).
  rewrite (save_task_run_ok now db _ run Hr'). cbn [fst].
  exists (track_active now run (woken now t)). split.
  - rewrite load_run_emit, workflow_run_saved.
    rewrite decide_True by exact (run_keys _ Hk wf run Hr). done.
  - intros tid u Hu Hl. change (active_task_ids (track_active now run (woken now t)))
      with (push_id (active_task_ids run) (task_id t)).
    apply elem_of_push_id. destruct (decide (tid = task_id t)) as [->|Hne]; [by right|left].
    apply (Hc tid u); [|done]. unfold load_task_run in *.
    change (<[task_key t := woken now t]> (tasks db) !! (wf, tid) = Some u) in Hu.
    rewrite lookup_insert_ne in Hu; [done|]. unfold task_key. congruence.
Qed.

Lemma wake_loop_covers now wf l db :
  (∀ t, t ∈ l → load_task_run db wf (task_id t) = Some t ∧ task_workflow_id t = wf) →
  NoDup (task_id <$> l) → well_keyed db → covers db wf →
  covers (try_for_each (wake_task now wf) l db).1 wf.
Proof.
  revert db. induction l as [|t l IH]; intros db Hl Hnd Hk Hc; cbn [try_for_each]; [done|].
  destruct (Hl t) as [Ht Hw]; [left|]. apply NoDup_cons in Hnd as [Hni Hnd].
  assert (is_Some (load_workflow_run db wf)) as Hr by (destruct Hc as (run & ? & _); by exists run).
  assert (task_key t = (wf, task_id t)) as Ek by (unfold task_key; by rewrite Hw).
  assert (covers (wake_task now wf db t).1 wf) as Hc1 by (apply wake_task_covers; [by rewrite Ek|done..]).
  destruct (wake_task_spec now wf db t Ht Hw Hr Hk) as (db1 & E1 & T1 & _ & _ & K1).
  rewrite E1 in *. apply IH; [|done..]. intros u Hu. destruct (Hl u) as [Hlu Hwu]; [by right|].
  split; [|done]. unfold load_task_run in *. rewrite T1. destruct (ready _ _ _); [|done].
  rewrite lookup_insert_ne; [done|]. rewrite Ek. intros [= E]. apply Hni. rewrite E.
  by apply list_elem_of_fmap_2.
Qed.

(** The janitor's repair: a workflow that goes on lists all its live tasks. *)
Lemma reconcile_covers extract refs now db wf run :
  well_keyed db → load_workflow_run db wf = Some run → run_is_terminal (wf_status run) = false →
  covers (reconcile_workflow extract refs now db wf).1 wf.
Proof.
  intros Hk Hr Hnt. unfold reconcile_workflow. rewrite Hr, Hnt.
  set (db1 := if bool_decide _ then _ else _).
  assert (covers db1 wf ∧ well_keyed db1) as [Hc K1].
  { unfold db1. pose proof (λ t, repaired_covers run (list_task_runs db wf) t) as Hrep.
    case_bool_decide as E.
    - split; [|done]. exists run. split; [done|]. intros tid t Ht Hl. rewrite <-E.
      destruct (load_task_key _ _ _ _ Hk Ht) as [_ <-]. apply Hrep; [|done].
      apply elem_of_list_task_runs. by exists (task_id t).
    - split; [|by apply well_keyed_save_run]. eexists. split.
      + rewrite workflow_run_saved. rewrite decide_True by exact (run_keys _ Hk wf run Hr). reflexivity.
      + intros tid t Ht Hl. destruct (load_task_key _ _ _ _ Hk Ht) as [_ <-]. apply Hrep; [|done].
        apply elem_of_list_task_runs. by exists (task_id t). }
  clearbody db1. apply wake_loop_covers; [by intros t; apply listed_task|by apply NoDup_task_ids|done..].
Qed.

(** When a workflow completes, exactly: its root session has one, it is resumable
    with nothing active or queued, its join is satisfied, and the root session is
    at rest (ended, between turns or idle; without a recorded state, has no
    pending escalation).  Then its run is completed and its pending notifications
    are suppressed; otherwise nothing changes. *)
Theorem try_complete_workflow_spec now db root lifecycle escalations workbenches :
  let '(db', b) := try_complete_workflow now db root lifecycle escalations workbenches in
  (b = true ↔ ∃ wf run, root_index db !! root = Some wf ∧ load_workflow_run db wf = Some run ∧
     wf_status run = WfResumable ∧ active_task_ids run = [] ∧ queued_task_ids run = [] ∧
     check_join_condition db wf = true ∧
     match lifecycle with
     | Some raw => stored_permits_completion (classify_stored raw) = true
     | None => escalations = false
     end) ∧
  (if b
   then ∃ wf run, root_index db !! root = Some wf ∧ load_workflow_run db wf = Some run ∧
     runs db' = <[wf_id run := run{{ wf_status := WfCompleted; reactivated_for_root_spawn := false;
                                     wf_updated_at := now }}]> (runs db) ∧
     tasks db' = tasks db ∧ NotificationsSuppressed wf ∈ effects db'
   else db' = db).
Proof.
  unfold try_complete_workflow, resolve_workflow_id_for_root_session.
  destruct (root_index db !! root) as [wf|]; [|naive_solver]. cbn [mbind option_bind].
  destruct (load_workflow_run db wf) as [run|] eqn:Hr; [|naive_solver]. cbn [mbind option_bind].
  case_bool_decide as H1; cbn [negb]; [|naive_solver].
  case_bool_decide as H2; cbn [negb orb]; [|naive_solver].
  case_bool_decide as H3; cbn [negb orb]; [|naive_solver].
  destruct (check_join_condition db wf) eqn:H4; cbn [negb]; [|naive_solver].
  destruct (match lifecycle with Some _ => _ | None => _ end) eqn:H5; cbn [negb].
  - split.
    + split; [intros _|done]. exists wf, run. repeat split; try done.
      destruct lifecycle; [done|]. by destruct escalations.
    + exists wf, run. split; [done|]. split; [done|]. split; [by destruct workbenches|].
      split; [by destruct workbenches|]. cbn. rewrite !elem_of_app, !list_elem_of_singleton. auto.
  - split; [|done]. split; [done|]. intros (wf' & run' & [= <-] & E & _ & _ & _ & _ & H).
    destruct lifecycle; [by rewrite H in H5|by subst].
Qed.

(** A workflow that completes right after its janitor ran has no live task. *)
Theorem completion_after_janitor extract refs ops now now' root wf run lifecycle escalations workbenches :
  let db := (reconcile_workflow extract refs now (run_ops extract refs ops) wf).1 in
  load_workflow_run (run_ops extract refs ops) wf = Some run →
  run_is_terminal (wf_status run) = false → root_index db !! root = Some wf →
  let '(db', b) := try_complete_workflow now' db root lifecycle escalations workbenches in
  b = true → ∀ tid t, load_task_run db' wf tid = Some t → is_terminal_for_join (task_status t) = true.
Proof.
  cbn zeta. intros Hr Hnt Hroot.
  pose proof (reconcile_covers extract refs now _ wf run (run_well_keyed extract refs ops) Hr Hnt)
    as (run' & Hr' & Hc).
  revert Hroot Hr' Hc. generalize (reconcile_workflow extract refs now (run_ops extract refs ops) wf).1.
  intros db Hroot Hr' Hc. unfold try_complete_workflow, resolve_workflow_id_for_root_session.
  rewrite Hroot. cbn [mbind option_bind]. rewrite Hr'. cbn [mbind option_bind].
  destruct (negb (bool_decide _)); [done|].
  case_bool_decide as Ha; cbn [negb orb]; [|done]. destruct (negb (bool_decide _)); [done|].
  destruct (negb (check_join_condition _ _)); [done|]. destruct (negb _); [done|].
  intros _ tid t Ht. apply not_false_iff_true. intros Hlive.
  assert (load_task_run db wf tid = Some t) as Ht'.
  { revert Ht. by destruct workbenches. }
  assert (tid ∈ active_task_ids run') as Hin by (apply (Hc tid t Ht'); unfold live; by rewrite Hlive).
  rewrite Ha in Hin. by apply not_elem_of_nil in Hin.
Qed.

(** Without that, it may: taking a task off the queue also takes it off the list
    of active tasks, also when it is only parked.  A resumable workflow whose
    only task waits for its child completes, and the task stays live. *)
Theorem completion_forgets_parked_task now now' db wf root run tid t :
  well_keyed db → root_index db !! root = Some wf → load_workflow_run db wf = Some run →
  wf_status run = WfResumable → join_task_ids run = [] →
  active_task_ids run = [tid] → queued_task_ids run = [tid] →
  load_task_run db wf tid = Some t → parked db wf t = true →
  let '(db', b) := try_complete_workflow now' (dequeue_task now db wf tid) root (Some "hibernated")
                     false false in
  b = true ∧ load_task_run db' wf tid = Some t ∧ live t = true.
Proof.
  intros Hk Hroot Hr Hs Hj Ha Hq Ht Hp. unfold try_complete_workflow, resolve_workflow_id_for_root_session.
  unfold dequeue_task. set (db0 := db{{ queue := _ }}).
  change (load_workflow_run db0 wf) with (load_workflow_run db wf). rewrite Hr.
  set (run' := run{{ queued_task_ids := _; active_task_ids := _; wf_updated_at := _ }}).
  set (db1 := release_task_claim _ _ _).
  change (root_index db1) with (root_index db). rewrite Hroot. cbn [mbind option_bind].
  assert (load_workflow_run db1 wf = Some run') as Hr1.
  { change (load_workflow_run (save_workflow_run db0 run') wf = Some run').
    rewrite workflow_run_saved. rewrite decide_True by exact (run_keys _ Hk wf run Hr). done. }
  assert (without_id [tid] tid = []) as Hw by (cbn; by rewrite (proj2 (str_eqb_spec tid tid) eq_refl)).
  assert (active_task_ids run' = [] ∧ queued_task_ids run' = []) as [Ha' Hq'].
  { unfold run'. cbn. by rewrite Ha, Hq, Hw. }
  rewrite Hr1. cbn [mbind option_bind].
  rewrite (bool_decide_eq_true_2 (wf_status run' = WfResumable)) by done.
  rewrite Ha', Hq'. cbn [negb orb bool_decide]. rewrite !bool_decide_eq_true_2 by done. cbn [negb orb].
  assert (check_join_condition db1 wf = true) as ->.
  { unfold check_join_condition. rewrite Hr1. rewrite bool_decide_eq_true_2 by exact Hj. done. }
  cbn. split; [done|]. split; [done|]. unfold live. by rewrite (parked_paused _ _ _ Hp).
Qed.

(** ** Singleton slots *)

(** Asking for a singleton slot always decides.  Either the caller holds it, or
    another task holds it that has not ended; a holder that ended is evicted.
    Nothing else of the state changes. *)
Theorem acquire_singleton_slot_spec db wf agent revision tid :
  let '(db', existing) := acquire_singleton_slot db wf agent revision tid in
  let k := (wf, agent, default "" revision) in
  (∃ s, slots db' !! k = Some s ∧ slot_active s = true ∧
     match existing with
     | None => slot_task s = tid
     | Some id => slot_task s = id ∧ id ≠ tid ∧ singleton_indexed_task_is_terminal db wf id = false
     end) ∧
  db'{{ slots := slots db }} = db.
Proof.
  unfold acquire_singleton_slot. set (k := (wf, agent, default "" revision)).
  assert (db{{ slots := slots db }} = db) as Eta by (by destruct db).
  assert (∀ d, (match slots d !! k with Some s => slot_active s | None => false end) = false →
    ∃ d', try_acquire_singleton_slot d wf agent revision tid = (d', None) ∧
      (∃ s, slots d' !! k = Some s ∧ slot_active s = true ∧ slot_task s = tid) ∧
      d'{{ slots := slots db }} = d{{ slots := slots db }}) as Hfree.
  { intros d Hd. unfold try_acquire_singleton_slot. fold k.
    set (d' := match slots d !! k with Some _ => _ | None => _ end).
    assert (d' = d{{ slots := <[k := {| slot_task := tid; slot_status := SlotPending |}]> (slots d) }}) as ->.
    { unfold d'. destruct (slots d !! k); [by rewrite Hd|done]. }
    eexists. split.
    - f_equal. cbn. rewrite lookup_insert_eq. cbn. by rewrite (proj2 (str_eqb_spec tid tid) eq_refl).
    - split; [|done]. eexists. cbn. rewrite lookup_insert_eq. done. }
  destruct (match slots db !! k with Some s => slot_active s | None => false end) eqn:Ha.
  2:{ destruct (Hfree db Ha) as (d' & E & H & Hf). cbn [acquire_singleton_loop]. rewrite E.
      split; [done|]. by rewrite Hf, Eta. }
  destruct (slots db !! k) as [s|] eqn:Es; [|done].
  assert (try_acquire_singleton_slot db wf agent revision tid
    = (db, if negb (slot_task s =? tid)%string then Some (slot_task s) else None)) as E.
  { unfold try_acquire_singleton_slot. fold k. rewrite Es, Ha, Es. cbn. by rewrite Ha. }
  cbn [acquire_singleton_loop]. rewrite E. destruct (slot_task s =? tid)%string eqn:Et; cbn [negb].
  { apply str_eqb_spec in Et. split; [by exists s|exact Eta]. }
  destruct (singleton_indexed_task_is_terminal db wf (slot_task s)) eqn:Ht.
  2:{ split; [|exact Eta]. exists s. split; [done|]. split; [done|]. split; [done|].
      split; [|done]. intros E'. rewrite E' in Et.
      by rewrite (proj2 (str_eqb_spec tid tid) eq_refl) in Et. }
  set (d := release_singleton_slot_by_task_id db wf (slot_task s)).
  destruct (Hfree d) as (d' & E' & H & Hf).
  { assert (slots d !! k = Some {| slot_task := slot_task s; slot_status := SlotTerminal |}) as ->;
      [|done]. unfold d, release_singleton_slot_by_task_id.
    change (slots (db{{ slots := ?m }})) with m. rewrite map_lookup_imap, Es. cbn.
    by rewrite Ha, !(proj2 (str_eqb_spec _ _) eq_refl). }
  rewrite E'. split; [done|]. by rewrite Hf.
Qed.

(** ** Claims *)

(** What happens to the claim of one task; the second component of an event is
    the clock in nanoseconds. *)
Inductive ClaimEvent : Type :=
| Acquire (now : string) (ns : Z) (instance : string)
| Refresh (now : string) (ns : Z).

Section ClaimRuns.
Context (parse_rfc3339 : string → option Z) (wf tid : string) (secs : Z).

Definition claim_step (db : WorkflowDb) (e : ClaimEvent) : WorkflowDb * bool :=
  match e with
  | Acquire now ns instance =>
      let '(db, c) := acquire_task_claim parse_rfc3339 now ns instance db wf tid secs in
      (db, bool_decide (is_Some c))
  | Refresh now _ => (refresh_task_claim_heartbeat now db wf tid, false)
  end.

(** The number of successful acquisitions. *)
Fixpoint winners (db : WorkflowDb) (events : list ClaimEvent) : nat :=
  match events with
  | [] => 0
  | e :: events => let '(db, won) := claim_step db e in (if won then 1 else 0) + winners db events
  end.

(** Every attempt comes within [secs] of the last heartbeat. *)
Fixpoint in_time (last : Z) (events : list ClaimEvent) : Prop :=
  match events with
  | [] => True
  | Acquire _ ns _ :: events => (ns - last ≤ secs * 1000000000)%Z ∧ in_time last events
  | Refresh now ns :: events => parse_rfc3339 now = Some ns ∧ in_time ns events
  end.

Lemma held_claim_wins_nothing db c last events :
  claims db !! (wf, tid) = Some c → parse_rfc3339 (heartbeat_at c) = Some last →
  in_time last events → winners db events = 0.
Proof.
  revert db c last. induction events as [|[now ns i|now ns] events IH]; intros db c last Hc Hp Ht; [done|..].
  - destruct Ht as [Hle Ht]. cbn [winners claim_step]. unfold acquire_task_claim. rewrite Hc.
    unfold claim_is_stale. rewrite Hp, bool_decide_eq_false_2 by lia. cbn.
    by apply (IH db c last).
  - destruct Ht as [Hp' Ht]. cbn [winners claim_step Nat.add].
    apply (IH _ (c{{ heartbeat_at := now }}) ns); [|done..].
    change (alter (λ c, c{{ heartbeat_at := now }}) (wf, tid) (claims db) !! (wf, tid)
      = Some (c{{ heartbeat_at := now }})). by rewrite lookup_alter_eq, Hc.
Qed.
End ClaimRuns.

(** A claim is exclusive while its heartbeat lives.  Once one scheduler holds a
    task, no attempt that comes within the staleness limit of the last heartbeat
    succeeds, however refreshes and attempts interleave; after a release, or with
    a heartbeat too old or unreadable, the next attempt does.  (A release names
    the task, not the holder: anybody's release frees it.) *)
Theorem claim_is_exclusive parse_rfc3339 db now ns instance wf tid secs db' c :
  acquire_task_claim parse_rfc3339 now ns instance db wf tid secs = (db', Some c) →
  parse_rfc3339 now = Some ns →
  (∀ events, in_time parse_rfc3339 secs ns events →
     winners parse_rfc3339 wf tid secs db' events = 0) ∧
  (∀ now' ns' instance',
     (acquire_task_claim parse_rfc3339 now' ns' instance' (release_task_claim db' wf tid) wf tid secs).2
       = Some {| scheduler_instance_id := instance'; claimed_at := now'; heartbeat_at := now' |}) ∧
  (∀ now' ns' instance', (secs * 1000000000 < ns' - ns)%Z →
     is_Some (acquire_task_claim parse_rfc3339 now' ns' instance' db' wf tid secs).2).
Proof.
  intros Ha Hp.
  assert (claims db' !! (wf, tid) = Some c ∧ heartbeat_at c = now) as [Hc Hh].
  { unfold acquire_task_claim in Ha. set (w := {| scheduler_instance_id := _ |}) in Ha.
    assert ((db{{ claims := <[(wf, tid):=w]> (claims db) }}, Some w) = (db', Some c)) as [= <- <-].
    { destruct (claims db !! (wf, tid)); [|done]. by destruct (claim_is_stale _ _ _ _). }
    split; [apply lookup_insert_eq|done]. }
  split; [|split].
  - intros events Ht. apply (held_claim_wins_nothing _ _ _ _ _ c ns); [done|by rewrite Hh|done].
  - intros now' ns' instance'. unfold acquire_task_claim.
    assert (claims (release_task_claim db' wf tid) !! (wf, tid) = None) as -> by apply lookup_delete_eq.
    done.
  - intros now' ns' instance' Hlt. unfold acquire_task_claim. rewrite Hc. unfold claim_is_stale.
    rewrite Hh, Hp, bool_decide_eq_true_2 by done. done.
Qed.

(** ** Stored lifecycles *)

(** Every state is read back as written, and a text is taken for a terminal
    state exactly when it carries the prefix. *)
Theorem classify_stored_roundtrip :
  (∀ s, classify_stored (lifecycle_str s) = Known s) ∧
  ∀ raw, starts_with raw TERMINATED_PREFIX = true →
    stored_permits_completion (classify_stored raw) = true.
Proof.
  split; [intros [| | | | |[]]; reflexivity|].
  intros raw Hp. unfold classify_stored. rewrite Hp.
  destruct (lifecycle_from_str raw) as [s|] eqn:E; [|done].
  unfold lifecycle_from_str in E. apply List.find_some in E as [_ E]. apply str_eqb_spec in E as <-.
  by destruct s.
Qed.

(** ** What a parent is told of a success *)

(** A task that failed once and succeeded on a retry is reported with the class
    of the old failure; its output contract is not looked at. *)
Theorem retried_success_keeps_failure_class extract task reply c :
  last_failure_class task = Some c →
  n_failure_class (build_child_state_notification extract task TSucceeded reply
                     (failure (evaluate_stage_retry task TSucceeded reply)))
  = failure_class (metadata_for_failure_class c).
Proof.
  intros H. unfold evaluate_stage_retry, observed_failure. rewrite H. cbn.
  by destruct (task_side_effect_state task), c.
Qed.

Lemma retried_success_keeps_failure_class_witness :
  let task := demo_task{{ last_failure_class := Some TransientInfra }} in
  n_failure_class (build_child_state_notification parse_nothing task TSucceeded (Some "all good")
                     (failure (evaluate_stage_retry task TSucceeded (Some "all good"))))
  = Some TransientInfra.
Proof. cbv zeta. rewrite retried_success_keeps_failure_class with (c := TransientInfra); reflexivity. Defined.

(** ** Examples *)

Definition demo_clock (s : string) : option Z :=
  if (s =? "t0")%string then Some 0%Z else if (s =? "t1")%string then Some 60000000000%Z else None.

(** A run with a claim on its task and a singleton slot. *)
Definition demo_held : list (string * Op) :=
  demo_ops ++ [("t5", OpClaim demo_clock 0 "a" "wf-1" "coder" 120);
               ("t5", OpSlot "wf-1" "coder" None "coder"); ("t5", OpActivate "wf-1" "coder" None "coder")].

Lemma emergency_stop_spec_witness :
  let db := run_ops parse_nothing no_refs demo_held in
  let db' := (apply_emergency_stop_to_workflow "t9" db "wf-1" "stop-1").1 in
  is_Some (claims db !! ("wf-1", "coder")) ∧ claims db' !! ("wf-1", "coder") = None ∧
  is_Some (slots db !! ("wf-1", "coder", "")) ∧ slots db' !! ("wf-1", "coder", "") = None ∧
  demo_status db' "coder" = Some TAborted ∧ demo_status db' "planner" = Some TAborted ∧
  ∀ tid, queue db' !! ("wf-1", tid) = None.
Proof.
  intros db. assert (is_Some (load_workflow_run db "wf-1")) as [run Er]
    by (apply is_some_value; vm_compute; reflexivity).
  pose proof (emergency_stop_spec parse_nothing no_refs demo_held "t9" "wf-1" "stop-1" run) as H.
  fold db in H. cbv zeta in H |- *.
  destruct (apply_emergency_stop_to_workflow "t9" db "wf-1" "stop-1") as [db' r] eqn:E.
  specialize (H Er). assert (wf_status run = WfActive) as Es
    by (vm_compute in Er; injection Er as <-; reflexivity).
  rewrite Es in H. destruct H as (_ & _ & T & Q & C & S & _). cbn [fst].
  assert (tasks db !! ("wf-1", "coder") = Some (demo_row "coder" "root/planner/coder" "root/planner" TRunning)) as Ec
    by (vm_compute; reflexivity).
  assert (is_Some (tasks db !! ("wf-1", "planner"))) as [t Et] by (apply is_some_value; vm_compute; reflexivity).
  split; [apply is_some_value; vm_compute; reflexivity|].
  split; [apply (C "coder" _ Ec); reflexivity|].
  split; [apply is_some_value; vm_compute; reflexivity|]. split; [apply S|].
  split; [|split; [|exact Q]]; unfold demo_status, load_task_run.
  - rewrite (T _ _ Ec). reflexivity.
  - rewrite (T _ _ Et). vm_compute in Et. injection Et as <-. reflexivity.
Defined.

(** The workflow after all its tasks ended and the janitor ran. *)
Definition demo_ended : list (string * Op) :=
  demo_ops ++ [("t6", OpUpdate None "wf-1" "coder" TSucceeded (Some "done"));
               ("t7", OpUpdate None "wf-1" "tester" TFailed (Some "broken"));
               ("t8", OpUpdate None "wf-1" "planner" TFailed (Some "child failed"))].

Lemma completion_after_janitor_witness :
  let db := (reconcile_workflow parse_nothing no_refs "t9"
               (run_ops parse_nothing no_refs demo_ended) "wf-1").1 in
  let '(db', b) := try_complete_workflow "t10" db "root" (Some "hibernated") false false in
  b = true ∧ ∀ tid t, load_task_run db' "wf-1" tid = Some t →
    is_terminal_for_join (task_status t) = true.
Proof.
  assert (is_Some (load_workflow_run (run_ops parse_nothing no_refs demo_ended) "wf-1")) as [run Er]
    by (apply is_some_value; vm_compute; reflexivity).
  pose proof (completion_after_janitor parse_nothing no_refs demo_ended "t9" "t10" "root" "wf-1" run
    (Some "hibernated") false false Er) as H.
  assert (run_is_terminal (wf_status run) = false) as Hn
    by (vm_compute in Er; injection Er as <-; reflexivity).
  specialize (H Hn ltac:(vm_compute; reflexivity)). cbv zeta in H |- *.
  assert ((try_complete_workflow "t10" (reconcile_workflow parse_nothing no_refs "t9"
    (run_ops parse_nothing no_refs demo_ended) "wf-1").1 "root" (Some "hibernated") false false).2 = true) as Hb
    by (vm_compute; reflexivity).
  destruct (try_complete_workflow _ _ _ _ _ _) as [db' b]. cbn [snd] in Hb.
  split; [exact Hb|exact (H Hb)].
Defined.

Lemma claim_is_exclusive_witness :
  let db := (acquire_task_claim demo_clock "t0" 0 "a" demo_db "wf-1" "coder" 120).1 in
  winners demo_clock "wf-1" "coder" 120 db
    [Acquire "t1" 100000000000 "b"; Refresh "t1" 60000000000; Acquire "t1" 170000000000 "b"] = 0.
Proof.
  cbv zeta.
  apply (claim_is_exclusive demo_clock demo_db "t0" 0 "a" "wf-1" "coder" 120 _
    {| scheduler_instance_id := "a"; claimed_at := "t0"; heartbeat_at := "t0" |}).
  - assert (claims demo_db !! ("wf-1", "coder") = None) as E by (vm_compute; reflexivity).
    unfold acquire_task_claim. rewrite E. reflexivity.
  - reflexivity.
  - cbn. repeat split; try reflexivity; lia.
Defined.

Lemma completion_forgets_parked_task_witness :
  let db := save_workflow_run demo_db
              ((new_run "t9" "wf-1" "root" "lead"){{ wf_status := WfResumable;
                 active_task_ids := ["planner"]; queued_task_ids := ["planner"] }}) in
  (try_complete_workflow "t10" (dequeue_task "t9" db "wf-1" "planner") "root" (Some "hibernated")
     false false).2 = true.
Proof.
  set (run := (new_run "t9" "wf-1" "root" "lead"){{ wf_status := WfResumable;
                 active_task_ids := ["planner"]; queued_task_ids := ["planner"] }}).
  cbv zeta. assert (is_Some (load_task_run demo_db "wf-1" "planner")) as [t Et]
    by (apply is_some_value; vm_compute; reflexivity).
  pose proof (completion_forgets_parked_task "t9" "t10" (save_workflow_run demo_db run) "wf-1" "root"
    run "planner" t) as H.
  destruct (try_complete_workflow _ _ _ _ _ _) as [db' b].
  apply H; [apply well_keyed_save_run, run_well_keyed|vm_compute; reflexivity|vm_compute; reflexivity
           |reflexivity..|exact Et|].
  vm_compute in Et. injection Et as <-. vm_compute. reflexivity.
Defined.
