(* ===== verification/Scheduler.v ===== *)
(** * The scheduler of workflow tasks

    scheduler.rs on the workflow store: the requeueing of runnable tasks and the
    draining of the queue ([process_runnable_workflow_tasks],
    [process_queued_workflow_tasks]); what becomes of a task when its execution
    returns ([finish_execution], the second half of [spawn_task_execution]) or
    outlives the hard timeout; the sweeper of stuck tasks, the approval timeouts
    and the reaper of orphaned sessions.  With them what moves a task from
    outside: the decision on an approval (scheduler/approval.rs) and the tools
    that cancel or complete a task (runtime/tools/workflow.rs).

    The turn of the agent itself is the argument of [finish_execution].  Session
    checkpoints, the files a finished session leaves and pending approval
    requests are answers of other parts, given as arguments.  Of two readings of
    the clock in one operation there is one; timestamps are strings, and
    [now_ns] is the same instant in nanoseconds. *)

From Stdlib Require Import Ascii String Lia.
From stdpp Require Import prelude gmap strings list sorting.
From coqutil Require Import Datatypes.RecordSetters.
From S2P Require Import Prelude RustStr Json ContentStore ChildReply Workflow WorkflowStore.
Import DoubleBraceUpdate.

Open Scope string_scope.
Open Scope list_scope.

(** ** Configuration *)

Inductive StuckTaskNoEvidenceAction : Type := StuckFail | StuckSucceed.

#[export] Instance stuck_action_eq_dec : EqDecision StuckTaskNoEvidenceAction.
Proof. solve_decision. Defined.

Record SchedulerConfig := {
  background_tick_secs : Z;
  approval_timeout_secs : Z;
  workflow_task_heartbeat_secs : option Z;
  stuck_task_timeout_secs : option Z;
  stuck_task_no_evidence_action : StuckTaskNoEvidenceAction;
  stuck_task_hard_timeout_secs : option Z;
}.

(** [Ord::clamp]. *)
Definition clamp (z lo hi : Z) : Z := Z.max lo (Z.min hi z).

Definition workflow_task_heartbeat_interval_secs (cfg : SchedulerConfig) : Z :=
  clamp (default (clamp (background_tick_secs cfg) 1 5) (workflow_task_heartbeat_secs cfg)) 1 30.

(** [saturating_mul] never saturates on an interval of at most 30. *)
Definition task_claim_stale_after_secs (cfg : SchedulerConfig) : Z :=
  Z.max (workflow_task_heartbeat_interval_secs cfg * 4) 30.

Definition task_claim_stuck_hard_timeout_secs (cfg : SchedulerConfig) : Z :=
  default 1800%Z (stuck_task_hard_timeout_secs cfg).

(** ** Texts *)

(** [is_char_boundary] of a byte index within the string. *)
Definition is_char_boundary (s : string) (i : nat) : bool :=
  match String.get i s with
  | Some c => negb (is_continuation c)
  | None => (i =? String.length s)%nat
  end.

Fixpoint char_boundary_before (s : string) (cut : nat) : nat :=
  match cut with
  | 0 => 0
  | S n => if is_char_boundary s cut then cut else char_boundary_before s n
  end.

Definition truncate_to_byte_boundary (s : string) (max_bytes : nat) : string :=
  String.substring 0 (char_boundary_before s (min (String.length s) max_bytes)) s.

Definition wake_notice : string :=
  "[gateway child state notification] All spawned child tasks have resolved. This does NOT mean your task is complete: if your objective has outstanding steps (reading a child's result, running follow-up work, finishing a multi-step procedure), take the next action NOW with tool calls — do not end your turn on intent alone, and do not re-issue a wait on already-resolved tasks. Produce your final result only when the delegated objective itself is actually satisfied.".

(** ** Requeueing runnable tasks *)

Definition queued_task_exists (db : WorkflowDb) (wf tid : string) : bool :=
  bool_decide (is_Some (queue db !! (wf, tid))).

Section Requeue.
(** [serde_json::to_string]. *)
Context (json_to_string : Json → string).

(** The message an approval leaves for the task it resumes. *)
Definition approval_message (state : Json) : option string :=
  match json_get state "request_id" with
  | Some (JString s) =>
      let action := default "unknown" (json_get state "action_type" ≫= json_as_str) in
      let status := default "unknown" (json_get state "status" ≫= json_as_str) in
      Some ("approval_resumed:" ++ action ++ ":" ++ s ++ ":" ++ status)%string
  | Some v => Some (json_to_string v)
  | None => None
  end.

Definition refresh_queued_task_message_from_task_checkpoint (db : WorkflowDb) (wf tid : string)
    : WorkflowDb :=
  match queue db !! (wf, tid), checkpoints db !! (wf, tid) with
  | Some q, Some cp =>
      if negb (cp_step cp =? "approval_resolved")%string then db
      else match approval_message (cp_state cp) with
      | Some rm => if (q_message q =? rm)%string then db
                   else db{{ queue := <[(wf, tid) := q{{ q_message := rm }}]> (queue db) }}
      | None => db
      end
  | _, _ => db
  end.

Definition is_child_wait_wake (db : WorkflowDb) (wf tid : string) : bool :=
  match checkpoints db !! (wf, tid) with
  | Some cp => (cp_step cp =? child_wait_step)%string
  | None => false
  end.

Definition resume_message (db : WorkflowDb) (wf : string) (t : TaskRun) : string :=
  if is_child_wait_wake db wf (task_id t) then wake_notice
  else default ("Resume after approval: " ++ task_session_id t)%string (message t).

Definition requeued (now wf : string) (run : option WorkflowRun) (db : WorkflowDb) (t : TaskRun)
    : QueuedTaskRun :=
  {| q_task_id := task_id t;
     q_workflow_id := wf;
     q_agent_id := task_agent_id t;
     q_message := resume_message db wf t;
     child_session_id := task_session_id t;
     q_parent_session_id := parent_session_id t;
     q_source_agent_id := default "" (task_source_agent_id t);
     q_metadata := metadata t;
     q_join_group := join_group t;
     blocks_planner := match run with
                       | Some run => existsb (String.eqb (task_id t)) (join_task_ids run)
                       | None => false
                       end;
     enqueued_at := now;
     credential_bindings := [] |}.

(** One task of the list read at the start. *)
Definition requeue_task (now wf : string) (run : option WorkflowRun) (db : WorkflowDb) (t : TaskRun)
    : WorkflowDb * result unit WorkflowError :=
  if negb (bool_decide (task_status t = TRunnable)) then (db, Ok tt)
  else if queued_task_exists db wf (task_id t)
  then (refresh_queued_task_message_from_task_checkpoint db wf (task_id t), Ok tt)
  else enqueue_task now db (requeued now wf run db t).

Definition requeue_workflow (now : string) (db : WorkflowDb) (wf : string)
    : WorkflowDb * result unit WorkflowError :=
  let run := load_workflow_run db wf in
  if match run with Some run => stopping (wf_status run) | None => false end then (db, Ok tt)
  else try_for_each (requeue_task now wf run) (list_task_runs db wf) db.

(** [dirs] are the directories under [runs/], in any order. *)
Definition process_runnable_workflow_tasks (now : string) (db : WorkflowDb) (dirs : list string)
    : WorkflowDb * result unit WorkflowError :=
  try_for_each (requeue_workflow now) dirs db.
End Requeue.

(** ** Draining the queue *)

Definition load_all_queued_tasks (db : WorkflowDb) : list QueuedTaskRun :=
  sort_by queue_order (map_to_list (queue db)).*2.

Definition spawn_revision (metadata : option Json) : option string :=
  m ← metadata; json_get m "_autonoetic_spawn_revision_id" ≫= json_as_str.

(** The row of a task that starts, again or for the first time. *)
Definition started_row (now : string) (q : QueuedTaskRun) (existing : option TaskRun) : TaskRun :=
  match existing with
  | Some t =>
      let t := t{{ task_status := TRunning; task_updated_at := now; message := Some (q_message q);
                   metadata := q_metadata q }} in
      match retry_policy_from_metadata (q_metadata q) with
      | Some p => t{{ retry_policy := Some p }}
      | None => t
      end
  | None =>
      {| task_id := q_task_id q; task_workflow_id := q_workflow_id q; task_agent_id := q_agent_id q;
         task_session_id := child_session_id q; parent_session_id := q_parent_session_id q;
         task_status := TRunning; task_created_at := now; task_updated_at := now;
         task_source_agent_id := Some (q_source_agent_id q); result_summary := None;
         join_group := q_join_group q; message := Some (q_message q); metadata := q_metadata q;
         retry_count := 0; last_failure_class := None;
         retry_policy := retry_policy_from_metadata (q_metadata q);
         task_side_effect_state := None; dedupe_key := None |}
  end.

Definition is_running (t : option TaskRun) : bool :=
  match t with Some t => bool_decide (task_status t = TRunning) | None => false end.

Definition not_launchable (t : option TaskRun) : bool :=
  match t with
  | Some t => is_terminal (task_status t) || bool_decide (task_status t = TPaused)
  | None => false
  end.

Definition launch (db : WorkflowDb) (q : QueuedTaskRun) : WorkflowDb :=
  emit (activate_singleton_task db (q_workflow_id q) (q_agent_id q) (spawn_revision (q_metadata q))
          (q_task_id q)) (Launched q).

Section Drain.
Context (parse_rfc3339 : string → option Z) (cfg : SchedulerConfig).

Definition drain_task (now : string) (now_ns : Z) (instance : string) (db : WorkflowDb)
    (q : QueuedTaskRun) : WorkflowDb :=
  let wf := q_workflow_id q in
  let tid := q_task_id q in
  let existing := load_task_run db wf tid in
  if not_launchable existing then dequeue_task now db wf tid
  else match acquire_task_claim parse_rfc3339 now now_ns instance db wf tid
               (task_claim_stale_after_secs cfg) with
  | (db, None) => db
  | (db, Some _) =>
      if is_running existing then launch db q
      else match save_task_run now db (started_row now q existing) with
      | (db, Err _) => release_task_claim db wf tid
      | (db, Ok _) => launch (emit db (TimelineEvent wf (Some tid) "task.started")) q
      end
  end.

Definition process_queued_workflow_tasks (now : string) (now_ns : Z) (instance : string)
    (db : WorkflowDb) : WorkflowDb :=
  fold_left (drain_task now now_ns instance) (load_all_queued_tasks db) db.

(** The part of a tick that moves tasks: what is runnable is queued, what is
    queued starts. *)
Definition run_tick (json_to_string : Json → string) (now : string) (now_ns : Z) (instance : string)
    (dirs : list string) (db : WorkflowDb) : WorkflowDb :=
  process_queued_workflow_tasks now now_ns instance
    (process_runnable_workflow_tasks json_to_string now db dirs).1.
End Drain.

(** ** An execution *)

(** What a launched execution does before the turn of its agent: the checkpoint
    of the previous execution, if the workflow is there to run it in. *)
Definition begin_execution (db : WorkflowDb) (q : QueuedTaskRun)
    : WorkflowDb * option (option TaskCheckpoint) :=
  let wf := q_workflow_id q in
  let tid := q_task_id q in
  let prev := checkpoints db !! (wf, tid) in
  let context := [("agent_id", JString (q_agent_id q));
                  ("session_id", JString (child_session_id q));
                  ("message_preview", JString (truncate_to_byte_boundary (q_message q) 120))] in
  let context := match prev with
                 | Some cp => context ++ [("resuming_from",
                     json_object [("step", JString (cp_step cp)); ("version", JNumber (cp_version cp));
                                  ("state", cp_state cp)])]
                 | None => context
                 end in
  let db := checkpoint_task db wf tid "starting" (json_object context) in
  match load_workflow_run db wf with
  | None => (db, None)
  | Some _ => (emit db (ActiveExecution tid "running"), Some prev)
  end.

Record SpawnResult := {
  assistant_reply : option string;
  suspended_for_approval : option string;
  suspended_for_user_input : bool;
  suspended_for_child_wait : bool;
  file_names : list string;
  artifact_files : list string;
}.

(** An error, shown alone and with its causes. *)
Record SpawnError := {
  error_str : string;
  error_chain : string;
}.

Definition is_context_overflow (e : SpawnError) : bool :=
  contains (error_chain e) "context_overflow:".

Section Execution.
Context (extract : string → option Json) (refs : string → list string).
(** [serde_json::from_str], [serde_json::to_string] and the digest. *)
Context (from_str : string → option Json) (json_to_string : Json → string)
        (sha256_hex : string → string).

Definition derive_child_task_status (reply : option string) : TaskRunStatus :=
  match reply ≫= from_str with
  | Some v =>
      if match json_get v "status" ≫= json_as_str with
         | Some s => (s =? "failed")%string || (s =? "error")%string
         | None => false
         end
         || match json_get v "ok" with Some (JBool false) => true | _ => false end
      then TFailed else TSucceeded
  | None => TSucceeded
  end.

(** A status is recorded, with a checkpoint, and the task leaves the queue; an
    error of the update is logged. *)
Definition settle (now : string) (db : WorkflowDb) (wf tid : string) (status : TaskRunStatus)
    (summary : option string) (step : string) (state : Json) : WorkflowDb :=
  let db := (update_task_run_status extract refs now None db wf tid status summary).1 in
  dequeue_task now (checkpoint_task db wf tid step state) wf tid.

Definition awaiting_state (request : string) : Json :=
  json_object [("status", JString "awaiting_approval"); ("approval_request_id", JString request)].

Definition suspend_for_approval (now : string) (db : WorkflowDb) (wf tid request : string)
    : WorkflowDb :=
  settle now db wf tid TAwaitingApproval (Some ("awaiting approval " ++ request)%string)
    "awaiting_approval" (awaiting_state request).

(** [pending] is the first approval request open for the session. *)
Definition suspend_for_input (now : string) (db : WorkflowDb) (wf tid : string)
    (pending : option string) : WorkflowDb :=
  match pending with
  | Some request => suspend_for_approval now db wf tid request
  | None =>
      settle now db wf tid TPaused (Some "paused: awaiting user input") "paused"
        (json_object [("status", JString "paused");
                      ("reason", JString "awaiting_user_input_or_operator_guidance")])
  end.

Definition pause_for_children (now : string) (db : WorkflowDb) (wf tid : string)
    (completed_by : list (string * Json)) : WorkflowDb :=
  settle now db wf tid TPaused (Some "paused: awaiting async child completion") child_wait_step
    (json_object ([("status", JString "paused");
                   ("reason", JString "awaiting_async_child_completion")] ++ completed_by)).

Definition expected_outputs (t : TaskRun) : list string :=
  match (m ← metadata t; json_get m "expected_outputs") ≫= json_as_array with
  | Some arr => omap json_as_str arr
  | None => []
  end.

(** What is recorded on the task before its result is. *)
Definition record_outputs (now : string) (db : WorkflowDb) (wf tid : string) (r : SpawnResult)
    (full_reply_ref : option string) : WorkflowDb :=
  match load_task_run db wf tid with
  | None => db
  | Some task =>
      let expected := expected_outputs task in
      let checked := negb (bool_decide (expected = [])) in
      let task := if checked
                  then record_output_contract_check now task
                         (check_output_contract expected (file_names r) (artifact_files r))
                  else task in
      let task := match full_reply_ref with
                  | Some cnt_ref => record_full_result_ref task cnt_ref
                  | None => task
                  end in
      if checked || bool_decide (is_Some full_reply_ref) then (save_task_run now db task).1 else db
  end.

Definition complete_task (now : string) (db : WorkflowDb) (d : Disk) (wf tid session : string)
    (r : SpawnResult) : WorkflowDb * Disk :=
  let '(d, prepared) :=
    match assistant_reply r with
    | Some s => let '(d, p) := prepare_child_reply from_str json_to_string sha256_hex d session s
                                 CHILD_SUMMARY_MAX_CHARS in (d, Some p)
    | None => (d, None)
    end in
  let full_reply_ref := prepared ≫= full_ref in
  let db := record_outputs now db wf tid r full_reply_ref in
  let status := derive_child_task_status (assistant_reply r) in
  let bounded := (λ s, bounded_child_summary from_str json_to_string s
                         CHILD_CHECKPOINT_SUMMARY_MAX_CHARS full_reply_ref) <$> assistant_reply r in
  (settle now db wf tid status (reply_summary <$> prepared) "completed"
     (json_object [("status", JString (task_status_str status));
                   ("result_summary", json_opt_str bounded);
                   ("full_result_ref", json_opt_str full_reply_ref)]), d).

(** The first overflow asks for another try, the second is final. *)
Definition overflow_retry (now : string) (db : WorkflowDb) (wf tid session : string)
    (e : SpawnError) : WorkflowDb :=
  let db := emit db (CausalEvent session "overflow_retry_started") in
  let db := checkpoint_task db wf tid "failed"
              (json_object [("status", JString "failed"); ("error", JString (error_str e));
                            ("overflow_recovery_attempted", JBool true)]) in
  let existing := default (JObject []) (t ← load_task_run db wf tid; metadata t) in
  let merged := match existing with
                | JObject m => JObject (bt_insert "overflow_recovery" (JBool true) m)
                | _ => json_object [("overflow_recovery", JBool true)]
                end in
  let db := (update_task_run_metadata now db wf tid merged).1 in
  let db := (update_task_run_status extract refs now None db wf tid TRunnable
               (Some "overflow_recovery_retry")).1 in
  dequeue_task now db wf tid.

Definition overflow_exhausted (now : string) (db : WorkflowDb) (wf tid session : string)
    (e : SpawnError) : WorkflowDb :=
  let terminal_error := ("context_overflow_terminal: task=" ++ tid ++ " " ++ error_str e)%string in
  settle now (emit db (CausalEvent session "overflow_retry_exhausted")) wf tid TFailed
    (Some terminal_error) "failed"
    (json_object [("status", JString "failed"); ("error", JString terminal_error);
                  ("overflow_recovery_exhausted", JBool true)]).

(** The names [serde] writes. *)
Definition retry_advice_key (a : RetryAdvice) : string :=
  match a with
  | Wait => "wait"
  | RetrySameStage => "retry_same_stage"
  | RetryAfterExternalRecovery => "retry_after_external_recovery"
  | DoNotRetry => "do_not_retry"
  | EscalateHuman => "escalate_human"
  | FixArtifactThenRetry => "fix_artifact_then_retry"
  end.

Definition retry_state (d : StageRetryDecision) (error : string) : Json :=
  json_object
    [("status", JString "runnable"); ("retry_count", JNumber (next_retry_count d));
     ("failure_class", json_opt_str (failure_class_key <$> (failure d ≫= failure_class)));
     ("retry_advice", json_opt_str (retry_advice_key <$> (failure d ≫= retry_advice)));
     ("error", JString error)].

(** The first segment of the identifier. *)
Definition base_session_id (session : string) : string :=
  default session (head (split (Ascii.eqb "/"%char) session)).

Definition is_validation_error (error : string) : bool :=
  contains error "validation failed" || contains error "response_validation"
  || contains error "artifact_build_evidence" || contains error "repair".

(** A validation error goes into the digest of the session, too. *)
Definition fail_execution (now : string) (db : WorkflowDb) (wf tid session error : string)
    : WorkflowDb :=
  let db := (update_task_run_status extract refs now None db wf tid TFailed (Some error)).1 in
  let db := checkpoint_task db wf tid "failed"
              (json_object [("status", JString "failed"); ("error", JString error)]) in
  let db := if is_validation_error error
            then emit db (ValidationNoted (base_session_id session) error
                            (contains error "repair" || contains error "deadline"))
            else db in
  dequeue_task now db wf tid.

Definition retry_or_fail (now : string) (db : WorkflowDb) (wf tid session error : string)
    : WorkflowDb :=
  match load_task_run db wf tid with
  | None => fail_execution now db wf tid session error
  | Some task =>
      let decision := evaluate_stage_retry task TFailed (Some error) in
      if retry_scheduled decision then
        match schedule_task_stage_retry now db wf tid (Some error) decision with
        | (db, Err _) => fail_execution now db wf tid session error
        | (db, Ok _) =>
            dequeue_task now (checkpoint_task db wf tid "retry_scheduled" (retry_state decision error))
              wf tid
        end
      else fail_execution now db wf tid session error
  end.

Definition already_retried (prev : option TaskCheckpoint) : bool :=
  default false (cp ← prev; json_get (cp_state cp) "overflow_recovery_attempted" ≫= json_as_bool).

(** The end of an execution: [prev] is the checkpoint it began with, [pending] the
    first approval request open for its session. *)
Definition finish_execution (now : string) (db : WorkflowDb) (d : Disk) (wf tid session : string)
    (prev : option TaskCheckpoint) (pending : option string) (result : result SpawnResult SpawnError)
    : WorkflowDb * Disk :=
  let '(db, d) :=
    match result with
    | Ok r =>
        match suspended_for_approval r with
        | Some request => (suspend_for_approval now db wf tid request, d)
        | None =>
            if suspended_for_user_input r then (suspend_for_input now db wf tid pending, d)
            else if suspended_for_child_wait r then (pause_for_children now db wf tid [], d)
            else complete_task now db d wf tid session r
        end
    | Err e =>
        (if is_context_overflow e
         then if already_retried prev then overflow_exhausted now db wf tid session e
              else overflow_retry now db wf tid session e
         else retry_or_fail now db wf tid session (error_str e), d)
    end in
  (emit db (ActiveExecution tid "stopped"), d).

(** ** The hard timeout *)

Definition checkpoint_label (cp : option TaskCheckpoint) : string :=
  match cp with
  | Some cp => ("step: " ++ cp_step cp ++ ", version: " ++ show_Z (cp_version cp))%string
  | None => "none"
  end.

(** One beat of a running execution that is [elapsed] seconds old; [false] when
    it was the last one. *)
Definition heartbeat (cfg : SchedulerConfig) (now : string) (elapsed : Z) (db : WorkflowDb)
    (wf tid : string) : WorkflowDb * bool :=
  let hard := task_claim_stuck_hard_timeout_secs cfg in
  if match load_task_run db wf tid with Some t => is_terminal (task_status t) | None => true end
  then (db, false)
  else if bool_decide (0 < hard ∧ hard ≤ elapsed)%Z then
    let label := checkpoint_label (checkpoints db !! (wf, tid)) in
    let summary := ("stuck_executor: turn alive but uncompleted for " ++ show_Z elapsed
      ++ "s (last task checkpoint: " ++ label
      ++ "); claim heartbeat was fresh, so sweeper/poller were exempting it — hard timeout adjudicated the task as Failed")%string in
    let db := settle now db wf tid TFailed (Some summary) "stuck_failed"
      (json_object [("status", JString "failed"); ("reason", JString "stuck_executor_hard_timeout");
                    ("elapsed_secs", JNumber elapsed); ("last_checkpoint", JString label);
                    ("completed_by", JString "claim_heartbeat_loop")]) in
    let db := emit db (TimelineEvent wf (Some tid) "task.stuck") in
    (release_task_claim (emit db (ActiveExecution tid "failed")) wf tid, false)
  else ((refresh_task_run_heartbeat now (refresh_task_claim_heartbeat now db wf tid) wf tid).1, true).

End Execution.
