(* ===== verification/Supervisor.v ===== *)
(** * Supervision of workflow tasks

    What moves a task besides its own execution: the sweeper of tasks stuck as
    running, the timeout of approvals and the reaper of orphaned sessions
    (scheduler.rs), the decision on an approval (scheduler/approval.rs), and the
    tools [workflow_cancel_task] and [workflow_force_complete]
    (runtime/tools/workflow.rs).

    A closed approval request closes its waiters, too: like the request itself
    they belong to the approval store, and the effect [ApprovalCancelled] stands
    for both.  The entry a timed-out approval makes in the session report is left
    out. *)

From Stdlib Require Import Ascii String Lia.
From stdpp Require Import prelude gmap strings list sorting.
From coqutil Require Import Datatypes.RecordSetters.
From S2P Require Import Prelude RustStr Json Workflow WorkflowStore Scheduler.
Import DoubleBraceUpdate.

Open Scope string_scope.
Open Scope list_scope.

(** ** Evidence of a finished session *)

(** The latest checkpoint of a session. *)
Record SessionCheckpoint := {
  waiting_for_child : bool;
  suspended_at : option string;
}.

(** The files of a session that has a directory: of the manifest, the string at
    [visibility.status] when it has one; the text of the digest. *)
Record SessionFiles := {
  manifest : option (option string);
  digest : option string;
}.

Record SessionEvidence := {
  session_files : option SessionFiles;
  implicit_artifact : bool;
}.

Definition manifest_done (f : SessionFiles) : bool :=
  match manifest f with
  | Some (Some s) => (s =? "completed")%string || (s =? "done")%string
  | _ => false
  end.

Definition digest_done (f : SessionFiles) : bool :=
  match digest f with
  | Some d => contains d "Session summary" || contains d "jsonrpc_spawn_complete"
  | None => false
  end.

Definition note (b : bool) (s : string) : list string := if b then [s] else [].

Definition file_evidence (f : SessionFiles) : list string :=
  note (bool_decide (is_Some (manifest f))) "session manifest exists"
  ++ note (bool_decide (is_Some (digest f))) "session digest exists"
  ++ note (manifest_done f) "session manifest shows completed status"
  ++ note (digest_done f) "session digest contains completion markers".

Definition checkpoint_evidence (cp : option TaskCheckpoint) : list string :=
  match cp with
  | Some cp => ["checkpoint exists (step: " ++ cp_step cp ++ ", version: " ++ show_Z (cp_version cp)
                ++ ")"]%string
  | None => []
  end.

Definition session_completed (task : TaskRun) (e : SessionEvidence) : bool :=
  negb (str_is_empty (task_session_id task))
  && (match session_files e with Some f => manifest_done f || digest_done f | None => false end
      || implicit_artifact e).

Definition implicit_evidence (task : TaskRun) (e : SessionEvidence) : list string :=
  note (negb (str_is_empty (task_session_id task)) && implicit_artifact e)
    "implicit artifact exists (impl_task)".

(** The evidence of the sweeper. *)
Definition stuck_evidence (task : TaskRun) (e : SessionEvidence) (cp : option TaskCheckpoint)
    : list string :=
  (if str_is_empty (task_session_id task) then []
   else match session_files e with Some f => file_evidence f | None => [] end)
  ++ checkpoint_evidence cp ++ implicit_evidence task e.

Definition stuck_diagnostics (task : TaskRun) (e : SessionEvidence) : list string :=
  note (negb (str_is_empty (task_session_id task)) && negb (bool_decide (is_Some (session_files e))))
    "session directory does not exist".

(** ** Ages *)

(** A cast of [i64] to [u64]. *)
Definition as_u64 (z : Z) : Z := z mod 2 ^ 64.

Section Supervision.
Context (extract : string → option Json) (refs : string → list string).
(** [parse_from_rfc3339], in nanoseconds. *)
Context (parse_rfc3339 : string → option Z).
Context (cfg : SchedulerConfig).

(** [(now - ts).num_seconds()], towards zero. *)
Definition num_seconds (now_ns ts : Z) : Z := Z.quot (now_ns - ts) 1000000000.

Definition task_elapsed_secs (now_ns : Z) (task : TaskRun) : Z :=
  match parse_rfc3339 (task_updated_at task) with
  | Some ts => as_u64 (num_seconds now_ns ts)
  | None => 0
  end.

Definition claim_fresh (now_ns : Z) (db : WorkflowDb) (wf tid : string) (stale_after : Z) : bool :=
  match claims db !! (wf, tid) with
  | Some claim => negb (claim_is_stale parse_rfc3339 now_ns claim stale_after)
  | None => false
  end.

(** ** The sweeper of stuck tasks *)

Definition stuck_timeout : Z := default 600%Z (stuck_task_timeout_secs cfg).

Inductive StuckVerdict : Type :=
| LeftAlone
| PauseInterrupted
| StuckEnd (status : TaskRunStatus) (summary step event_type : string)
    (heartbeat_age : list (string * Json)).

Definition heartbeat_age_label (age : option Z) : string :=
  match age with
  | None => "unknown"
  | Some secs => if bool_decide (0 ≤ secs)%Z then (show_Z secs ++ "s ago")%string
                 else (show_Z (- secs) ++ "s in the future")%string
  end.

Definition auto_resolved (elapsed : Z) (notes : list string) : string :=
  ("Auto-resolved stuck task: Succeeded (elapsed: " ++ show_Z elapsed ++ "s, evidence: "
   ++ join "; " notes ++ ")")%string.

(** [latest] is the latest checkpoint of the session: [Err] when it cannot be
    read.  A task without a session is not asked for one. *)
Definition stuck_verdict (now_ns : Z) (db : WorkflowDb) (wf : string) (task : TaskRun)
    (latest : result (option SessionCheckpoint) unit) (e : SessionEvidence) : StuckVerdict :=
  let tid := task_id task in
  let elapsed := task_elapsed_secs now_ns task in
  let exempt := bool_decide (elapsed < stuck_timeout)%Z
                || claim_fresh now_ns db wf tid stuck_timeout in
  let has_session := negb (str_is_empty (task_session_id task)) in
  if negb (bool_decide (task_status task = TRunning)) then LeftAlone
  else if has_session && negb (is_ok latest) then LeftAlone
  else if has_session && match latest with Ok (Some cp) => waiting_for_child cp | _ => false end
  then if exempt then LeftAlone else PauseInterrupted
  else if exempt then LeftAlone
  else
    let evidence := stuck_evidence task e (checkpoints db !! (wf, tid)) in
    let diagnostics := stuck_diagnostics task e in
    if negb (session_completed task e) && bool_decide (evidence = []) then
      let age := claim ← claims db !! (wf, tid); ts ← parse_rfc3339 (heartbeat_at claim);
                 Some (num_seconds now_ns ts) in
      let recorded := [("heartbeat_age_secs", match age with Some n => JNumber n | None => JNull end)] in
      match stuck_task_no_evidence_action cfg with
      | StuckFail =>
          if bool_decide (elapsed < Z.min (stuck_timeout * 2) U64_MAX)%Z then LeftAlone
          else
            StuckEnd TFailed
              ("stuck_no_evidence: task running for " ++ show_Z elapsed
               ++ "s with no completion evidence; last heartbeat " ++ heartbeat_age_label age)%string
              "stuck_failed" "task.stuck" recorded
      | StuckSucceed =>
          StuckEnd TSucceeded
            (auto_resolved elapsed
               (evidence ++ ["no evidence found — proceeding based on elapsed time"] ++ diagnostics))
            "stuck_auto_resolved" "task.stuck_resolved" recorded
      end
    else StuckEnd TSucceeded (auto_resolved elapsed (evidence ++ diagnostics))
           "stuck_auto_resolved" "task.stuck_resolved" [].

Definition sweep_task (now : string) (now_ns : Z)
    (latest : string → result (option SessionCheckpoint) unit) (ev : TaskRun → SessionEvidence)
    (wf : string) (db : WorkflowDb) (task : TaskRun) : WorkflowDb :=
  let tid := task_id task in
  match stuck_verdict now_ns db wf task (latest (task_session_id task)) (ev task) with
  | LeftAlone => db
  | PauseInterrupted =>
      match update_task_run_status extract refs now None db wf tid TPaused
              (Some "paused: awaiting async child completion") with
      | (db, Err _) => db
      | (db, Ok _) =>
          dequeue_task now
            (checkpoint_task db wf tid child_wait_step
               (json_object [("status", JString "paused");
                             ("reason", JString "awaiting_async_child_completion");
                             ("completed_by", JString "stuck_task_sweeper")])) wf tid
      end
  | StuckEnd status summary step event_type heartbeat_age =>
      let state := json_object
        ([("status", JString (task_status_str status));
         ("evidence", json_strings (stuck_evidence task (ev task) (checkpoints db !! (wf, tid))));
         ("diagnostics", json_strings (stuck_diagnostics task (ev task)));
         ("session_completed", JBool (session_completed task (ev task)));
         ("elapsed_secs", JNumber (task_elapsed_secs now_ns task))] ++ heartbeat_age) in
      emit (settle extract refs now db wf tid status (Some summary) step state)
        (TimelineEvent wf (Some tid) event_type)
  end.

Definition check_stuck_running_tasks (now : string) (now_ns : Z)
    (latest : string → result (option SessionCheckpoint) unit) (ev : TaskRun → SessionEvidence)
    (db : WorkflowDb) (dirs : list string) : WorkflowDb :=
  if bool_decide (stuck_timeout = 0)%Z then db
  else fold_left (λ db wf, fold_left (sweep_task now now_ns latest ev wf) (list_task_runs db wf) db)
         dirs db.

(** ** Approvals that nobody decides *)

(** An unreadable checkpoint counts as none. *)
Definition approval_timed_out (now_ns : Z) (latest : result (option SessionCheckpoint) unit) : bool :=
  match latest with
  | Ok (Some cp) =>
      match suspended_at cp ≫= parse_rfc3339 with
      | Some ts => bool_decide (approval_timeout_secs cfg < num_seconds now_ns ts)%Z
      | None => false
      end
  | _ => false
  end.

Definition expire_approval (now : string) (now_ns : Z)
    (latest : string → result (option SessionCheckpoint) unit) (wf : string) (db : WorkflowDb)
    (task : TaskRun) : WorkflowDb :=
  let tid := task_id task in
  if bool_decide (task_status task = TAwaitingApproval)
     && approval_timed_out now_ns (latest (task_session_id task))
  then
    let reason := "Approval timed out" in
    let db := (update_task_run_status extract refs now None db wf tid TStale (Some reason)).1 in
    let db := checkpoint_task db wf tid "approval_timeout"
                (json_object [("reason", JString reason);
                              ("timeout_secs", JNumber (approval_timeout_secs cfg))]) in
    dequeue_task now (emit db (TimelineEvent wf (Some tid) "task.approval_timeout")) wf tid
  else db.

Definition check_approval_timeouts (now : string) (now_ns : Z)
    (latest : string → result (option SessionCheckpoint) unit) (db : WorkflowDb)
    (dirs : list string) : WorkflowDb :=
  if bool_decide (approval_timeout_secs cfg = 0)%Z then db
  else fold_left (λ db wf, fold_left (expire_approval now now_ns latest wf) (list_task_runs db wf) db)
         dirs db.

(** ** Orphaned sessions *)

(** [open_gate] tells whether an approval request of the task is pending. *)
Definition reap_task (now child : string) (open_gate : string → bool)
    (acc : WorkflowDb * list string) (task : TaskRun) : WorkflowDb * list string :=
  let '(db, cancelled) := acc in
  if negb (task_session_id task =? child)%string || is_terminal (task_status task) then acc
  else
    let wf := task_workflow_id task in
    let tid := task_id task in
    let db := (save_task_run now db
      (task{{ task_status := TCancelled; task_updated_at := now;
              result_summary := Some "child_abandoned: parent session terminated (P-7.16)" }})).1 in
    let db := release_singleton_slot_by_task_id db wf tid in
    let db := if open_gate tid
              then sync_workflow_blocked_approval_status now
                     (emit db (ApprovalCancelled tid "orphan_child_reaper")) wf
              else db in
    let db := dequeue_task now db wf tid in
    let db := if str_is_empty (parent_session_id task) then db
              else emit db (WaiterNotified (parent_session_id task)) in
    (db, cancelled ++ [tid]).

Definition reap_workflow (now child : string) (open_gate : string → bool) (db : WorkflowDb)
    (wf : string) : WorkflowDb :=
  let '(db, cancelled) := fold_left (reap_task now child open_gate) (list_task_runs db wf) (db, []) in
  if bool_decide (cancelled = []) then db else emit db (ExecutionsAborted wf cancelled).

Definition reap_session (now : string) (open_gate : string → bool) (dirs : list string)
    (db : WorkflowDb) (child : string) : WorkflowDb :=
  let db := emit db (SessionTerminated child "failed") in
  let db := emit db (CausalEvent child "parent_terminated") in
  let db := fold_left (reap_workflow now child open_gate) dirs db in
  emit db (SessionCheckpointsRemoved child).

(** [orphans] are the sessions whose parent is terminated. *)
Definition reap_orphaned_sessions (now : string) (open_gate : string → bool) (dirs : list string)
    (db : WorkflowDb) (orphans : list string) : WorkflowDb :=
  fold_left (reap_session now open_gate dirs) orphans db.

(** ** The decision on an approval *)

Inductive DecidedStatus : Type := DApproved | DRejected | DCancelled | DStale.

#[export] Instance decided_status_eq_dec : EqDecision DecidedStatus.
Proof. solve_decision. Defined.

Definition decided_str (s : DecidedStatus) : string :=
  match s with
  | DApproved => "approved"
  | DRejected => "rejected"
  | DCancelled => "cancelled"
  | DStale => "stale"
  end.

(** [dec_action_type] is the name of the action's variant in the continuation. *)
Record ApprovalDecision := {
  dec_request_id : string;
  dec_status : DecidedStatus;
  dec_reason : option string;
  dec_workflow_id : option string;
  dec_task_id : option string;
  dec_action_type : string;
}.

Definition surface_decision_after_terminal (db : WorkflowDb) (dec : ApprovalDecision)
    (wf tid : string) : WorkflowDb :=
  match dec_status dec with
  | DApproved | DRejected =>
      emit (emit db (TimelineEvent wf (Some tid) "task.approval_resolved_after_terminal"))
        (LateDecision wf tid)
  | _ => db
  end.

Definition decided_task_status (s : DecidedStatus) : option TaskRunStatus :=
  match s with
  | DApproved => Some TRunnable
  | DRejected | DCancelled => Some TFailed
  | DStale => None
  end.

(** Why the task failed, when a reason was given. *)
Definition decision_summary (dec : ApprovalDecision) (status : TaskRunStatus) : option string :=
  if bool_decide (status = TFailed)
  then r ← dec_reason dec; Some ("approval_" ++ decided_str (dec_status dec) ++ ": " ++ r)%string
  else None.

Definition clear_blocked_approval (now : string) (db : WorkflowDb) (wf : string) : WorkflowDb :=
  if any_awaiting db wf then db
  else match load_workflow_run db wf with
  | Some run => if bool_decide (wf_status run = WfBlockedApproval)
                then save_workflow_run db (run{{ wf_status := WfWaitingChildren;
                                                 wf_updated_at := now }})
                else db
  | None => db
  end.

Definition unblock_task_on_approval (now : string) (db : WorkflowDb) (dec : ApprovalDecision)
    : WorkflowDb :=
  match dec_workflow_id dec, dec_task_id dec with
  | Some wf, Some tid =>
      if match load_task_run db wf tid with Some t => is_terminal (task_status t) | None => false end
      then surface_decision_after_terminal db dec wf tid
      else match decided_task_status (dec_status dec) with
      | None => db
      | Some status =>
          let db := emit db (TimelineEvent wf (Some tid)
                      ("task." ++ decided_str (dec_status dec))%string) in
          match update_task_run_status extract refs now None db wf tid status
                  (decision_summary dec status) with
          | (db, Err _) => db
          | (db, Ok _) =>
              let db := checkpoint_task db wf tid "approval_resolved"
                (json_object
                   [("approval_resolved", JBool true); ("request_id", JString (dec_request_id dec));
                    ("status", JString (if bool_decide (dec_status dec = DApproved)
                                        then "approved" else "rejected"));
                    ("action_type", JString (dec_action_type dec))]) in
              clear_blocked_approval now db wf
          end
      end
  | _, _ => db
  end.

(** One task that joined the request of another; it need not have a workflow. *)
Definition unblock_waiter (now : string) (dec : ApprovalDecision) (status : TaskRunStatus)
    (db : WorkflowDb) (w : option string * option string) : WorkflowDb :=
  match w with
  | (Some wf, Some tid) =>
      if match load_task_run db wf tid with Some t => is_terminal (task_status t) | None => false end
      then db
      else
        let prefix := if bool_decide (dec_status dec = DCancelled)
                      then "approval_cancelled" else "approval_rejected" in
        let summary := if bool_decide (status = TFailed)
                       then r ← dec_reason dec; Some (prefix ++ ": " ++ r)%string else None in
        match update_task_run_status extract refs now None db wf tid status summary with
        | (db, Err _) => db
        | (db, Ok _) =>
            checkpoint_task db wf tid "approval_resolved"
              (json_object [("approval_resolved", JBool true);
                            ("request_id", JString (dec_request_id dec));
                            ("status", JString (decided_str (dec_status dec)));
                            ("joined_waiter", JBool true)])
        end
  | _ => db
  end.

Definition fan_in_approval_waiters (now : string) (db : WorkflowDb) (dec : ApprovalDecision)
    (waiters : list (option string * option string)) : WorkflowDb :=
  if bool_decide (waiters = []) then db
  else
    let db := match decided_task_status (dec_status dec) with
              | Some status => fold_left (unblock_waiter now dec status) waiters db
              | None => db
              end in
    emit db (WaitersCleared (dec_request_id dec)).

(** ** Tools *)

Inductive ToolOutcome : Type :=
| ToolDone
| ToolRefused (code : string)
| ToolFailed (e : WorkflowError).

Definition cancellable (s : TaskRunStatus) : bool :=
  match s with TAwaitingApproval | TPending | TRunnable => true | _ => false end.

Definition cancel_task (now : string) (db : WorkflowDb) (wf tid : string) (reason : option string)
    : WorkflowDb * ToolOutcome :=
  match load_task_run db wf tid with
  | None => (db, ToolFailed (TaskNotFound wf tid))
  | Some task =>
      if negb (cancellable (task_status task)) then (db, ToolRefused "task_cannot_be_cancelled")
      else match update_task_run_status extract refs now None db wf tid TCancelled
                   (Some (default "Cancelled by operator" reason)) with
      | (db, Err e) => (db, ToolFailed e)
      | (db, Ok _) => (dequeue_task now db wf tid, ToolDone)
      end
  end.

(** The evidence of the tool also says what is missing. *)
Definition force_evidence (task : TaskRun) (e : SessionEvidence) (cp : option TaskCheckpoint)
    : list string :=
  (if str_is_empty (task_session_id task) then []
   else match session_files e with
        | Some f =>
            file_evidence f
            ++ note (negb (bool_decide (is_Some (manifest f))) && negb (bool_decide (is_Some (digest f))))
                 "session directory exists but is empty (likely crashed)"
        | None => ["session directory does not exist"]
        end)
  ++ checkpoint_evidence cp ++ implicit_evidence task e
  ++ note (negb (session_completed task e))
       "WARNING: could not confirm child session completed — proceeding based on caller judgment".

Definition force_complete (now : string) (db : WorkflowDb) (wf tid : string) (e : SessionEvidence)
    (target : option string) (summary : option string) : WorkflowDb * ToolOutcome :=
  if is_workflow_terminal db wf then (db, ToolRefused "workflow_already_completed")
  else match load_task_run db wf tid with
  | None => (db, ToolFailed (TaskNotFound wf tid))
  | Some task =>
      let target := default "succeeded" target in
      if negb (bool_decide (task_status task = TRunning)) then (db, ToolRefused "task_not_running")
      else match (if (target =? "succeeded")%string then Some TSucceeded
                  else if (target =? "failed")%string then Some TFailed else None) with
      | None => (db, ToolRefused "invalid_force_complete_status")
      | Some status =>
          if bool_decide (status = TSucceeded) && negb (session_completed task e)
          then (db, ToolRefused "force_complete_no_evidence")
          else
            let evidence := force_evidence task e (checkpoints db !! (wf, tid)) in
            let text := default ("Force-completed: " ++ target ++ " (evidence: "
                                 ++ join "; " evidence ++ ")")%string summary in
            match update_task_run_status extract refs now None db wf tid status (Some text) with
            | (db, Err e) => (db, ToolFailed e)
            | (db, Ok _) =>
                (dequeue_task now
                   (checkpoint_task db wf tid "force_completed"
                      (json_object [("status", JString (if bool_decide (status = TSucceeded)
                                                        then "Succeeded" else "Failed"));
                                    ("evidence", json_strings evidence);
                                    ("session_completed", JBool (session_completed task e))])) wf tid,
                 ToolDone)
            end
      end
  end.

End Supervision.
