(* ===== verification/SchedulerInv.v ===== *)
(** * The scheduler: status changes

    Every operation of Scheduler.v and Supervisor.v beside those of the store, as
    one step on the database; which status changes a step makes, and that they
    keep the tables well formed. *)

From Stdlib Require Import Ascii String Lia.
From stdpp Require Import prelude gmap strings list sorting.
From coqutil Require Import Datatypes.RecordSetters.
From S2P Require Import Prelude RustStr Json ContentStore ChildReply Workflow WorkflowStore.
From S2P Require Import WorkflowInv Scheduler Supervisor.
Import DoubleBraceUpdate.

Open Scope string_scope.
Open Scope list_scope.

(** ** Writes beside the tasks *)

Section Parts.
Context (R : relation TaskRunStatus) `{!PreOrder R}.

Lemma emit_moves db e : moves R db (emit db e).
Proof. by apply (tables_moves R). Qed.

Lemma release_claim_moves db wf tid : moves R db (release_task_claim db wf tid).
Proof. by apply (tables_moves R). Qed.

Lemma activate_moves db wf agent revision tid :
  moves R db (activate_singleton_task db wf agent revision tid).
Proof. unfold activate_singleton_task. repeat case_match; try done; by apply (tables_moves R). Qed.

Lemma launch_moves db q : moves R db (launch db q).
Proof. unfold launch. etrans; [apply activate_moves|apply emit_moves]. Qed.

Lemma refresh_moves print db wf tid :
  moves R db (refresh_queued_task_message_from_task_checkpoint print db wf tid).
Proof.
  unfold refresh_queued_task_message_from_task_checkpoint.
  destruct (queue db !! (wf, tid)) as [q|] eqn:Eq; [|done].
  repeat (case_match; try done). apply (same_tasks_moves R); [done|..].
  - apply grows_same; try done. intros k [q' H'].
    assert (<[(wf, tid) := q{{ q_message := s }}]> (queue db) !! k = Some q') as HH by exact H'.
    apply lookup_insert_Some in HH as [[<- <-]|[_ HH]]; by eexists.
  - intros [Ht Hr Hq]. split; [done..|]. intros k q' H'.
    assert (<[(wf, tid) := q{{ q_message := s }}]> (queue db) !! k = Some q') as HH by exact H'.
    apply lookup_insert_Some in HH as [[<- <-]|[_ HH]]; [|by apply Hq]. exact (Hq _ _ Eq).
Qed.

Lemma requeue_moves print now db dirs :
  well_keyed db → moves R db (process_runnable_workflow_tasks print now db dirs).1.
Proof.
  intros Hk. apply for_each_moves; [done| |done]. clear db Hk. intros db wf Hk.
  unfold requeue_workflow. destruct (match load_workflow_run db wf with Some _ => _ | None => _ end); [done|].
  apply for_each_moves; [done| |done]. intros db' t _. unfold requeue_task.
  destruct (bool_decide _); [|done]. cbn [negb].
  destruct (queued_task_exists _ _ _); [apply refresh_moves|apply (enqueue_moves R)].
Qed.

Lemma acquire_tables parse now ns instance db wf tid secs db' c :
  acquire_task_claim parse now ns instance db wf tid secs = (db', c) →
  tasks db' = tasks db ∧ runs db' = runs db ∧ queue db' = queue db ∧
  checkpoints db' = checkpoints db ∧ root_index db' = root_index db ∧ effects db' = effects db.
Proof. unfold acquire_task_claim. intros H. repeat case_match; by simplify_eq. Qed.

(** ** Draining *)

Lemma started_row_key now q existing wf tid :
  q_workflow_id q = wf → q_task_id q = tid →
  (∀ t, existing = Some t → task_key t = (wf, tid)) →
  task_key (started_row now q existing) = (wf, tid) ∧
  task_status (started_row now q existing) = TRunning.
Proof.
  intros <- <- H. unfold started_row. destruct existing as [t|]; [|done].
  specialize (H t eq_refl). by destruct (retry_policy_from_metadata _).
Qed.

Lemma drain_moves parse cfg now ns instance db q :
  (∀ s, is_terminal s = false → s ≠ TPaused → R s TRunning) → well_keyed db →
  moves R db (drain_task parse cfg now ns instance db q).
Proof.
  intros HR Hk. unfold drain_task.
  set (existing := load_task_run db (q_workflow_id q) (q_task_id q)).
  destruct (not_launchable existing) eqn:En; [apply (dequeue_moves R)|].
  destruct (acquire_task_claim _ _ _ _ _ _ _ _) as [db1 c] eqn:Ea.
  destruct (acquire_tables _ _ _ _ _ _ _ _ _ _ Ea) as (T & Rn & Q & P & I & _).
  assert (moves R db db1) as M1 by (by apply (tables_moves R)).
  etrans; [exact M1|]. destruct c as [c|]; [|done].
  destruct (is_running existing); [apply launch_moves|].
  destruct (started_row_key now q existing _ _ eq_refl eq_refl) as [Ek Es].
  { intros t Ht. by apply (task_keys db Hk). }
  assert (moves R db1 (save_task_run now db1 (started_row now q existing)).1) as M2.
  { apply save_moves; [done|]. rewrite Ek, Es, T. intros t Ht. apply HR.
    - unfold not_launchable, existing, load_task_run in En. rewrite Ht in En. by bool_norm.
    - unfold not_launchable, existing, load_task_run in En. rewrite Ht in En. bool_norm.
      by case_bool_decide. }
  destruct (save_task_run _ _ _) as [db2 [|]]; cbn [fst] in M2; (etrans; [exact M2|]).
  - etrans; [apply emit_moves|apply launch_moves].
  - apply release_claim_moves.
Qed.

Lemma tick_moves parse cfg print now ns instance dirs db :
  (∀ s, is_terminal s = false → s ≠ TPaused → R s TRunning) → well_keyed db →
  moves R db (run_tick parse cfg print now ns instance dirs db).
Proof.
  intros HR Hk. unfold run_tick. pose proof (requeue_moves print now db dirs Hk) as M.
  etrans; [exact M|]. apply fold_moves; [done| |by apply M]. intros. by apply drain_moves.
Qed.
End Parts.

(** ** Executions and supervision *)

Section Moves.
Context (extract : string → option Json) (refs : string → list string).
Context (R : relation TaskRunStatus) `{!PreOrder R}
        (legal_R : ∀ s s', try_transition s s' = true → R s s').

Lemma settle_moves now db wf tid status summary step state :
  well_keyed db → moves R db (settle extract refs now db wf tid status summary step state).
Proof.
  intros Hk. unfold settle. etrans; [by apply (update_moves extract refs R)|].
  etrans; [by apply (checkpoint_moves R)|by apply (dequeue_moves R)].
Qed.

Lemma fail_moves now db wf tid session error :
  well_keyed db → moves R db (fail_execution extract refs now db wf tid session error).
Proof.
  intros Hk. unfold fail_execution. etrans; [by apply (update_moves extract refs R)|].
  etrans; [|by apply (dequeue_moves R)]. etrans; [by apply (checkpoint_moves R)|].
  destruct (is_validation_error error); [by apply emit_moves|done].
Qed.

Lemma save_own_moves now db wf tid t u :
  well_keyed db → load_task_run db wf tid = Some t → task_key u = task_key t →
  R (task_status t) (task_status u) → moves R db (save_task_run now db u).1.
Proof.
  intros Hk Hl E H. apply save_moves; [done|]. intros v Hv. rewrite E in Hv.
  destruct (load_task_key _ _ _ _ Hk Hl) as [<- <-]. unfold load_task_run, task_key in *. by simplify_eq.
Qed.

Lemma metadata_moves now db wf tid m :
  well_keyed db → moves R db (update_task_run_metadata now db wf tid m).1.
Proof.
  intros Hk. unfold update_task_run_metadata. destruct (load_task_run db wf tid) as [t|] eqn:Hl; [|done].
  by apply (save_own_moves now db wf tid t).
Qed.

Lemma beat_moves now db wf tid :
  well_keyed db → moves R db (refresh_task_run_heartbeat now db wf tid).1.
Proof.
  intros Hk. unfold refresh_task_run_heartbeat. destruct (load_task_run db wf tid) as [t|] eqn:Hl; [|done].
  case_bool_decide; [|done]. by apply (save_own_moves now db wf tid t).
Qed.

Lemma stage_retry_moves now db wf tid reply d :
  (∀ s, R s TRunnable) → well_keyed db →
  moves R db (schedule_task_stage_retry now db wf tid reply d).1.
Proof.
  intros HR Hk. unfold schedule_task_stage_retry. destruct (retry_scheduled d); [|done]. cbn [negb].
  destruct (load_task_run db wf tid) as [t|] eqn:Hl; [|done].
  set (u := stage_retry_task now t reply d).
  assert (task_key u = task_key t ∧ task_status u = TRunnable) as [Ku Su]
    by (unfold u, stage_retry_task; by destruct (failure d)).
  assert (moves R db (save_task_run now db u).1) as M
    by (apply (save_own_moves now db wf tid t); [done..|]; by rewrite Su).
  destruct (save_task_run now db u) as [d' [|]]; cbn [fst] in *; [|done].
  etrans; [exact M|]. by apply emit_moves.
Qed.

Lemma outputs_moves now db wf tid r cnt :
  well_keyed db → moves R db (record_outputs now db wf tid r cnt).
Proof.
  intros Hk. unfold record_outputs. destruct (load_task_run db wf tid) as [t|] eqn:Hl; [|done].
  destruct (_ || _); [|done]. apply (save_own_moves now db wf tid t); [done|done|..];
    by destruct (negb _), cnt.
Qed.

Lemma finish_moves from_str print sha now db d wf tid session prev pending result :
  (∀ s, R s TRunnable) → well_keyed db →
  moves R db (finish_execution extract refs from_str print sha now db d wf tid session prev pending
                result).1.
Proof.
  intros HR Hk. unfold finish_execution.
  match goal with |- context [let '(_, _) := ?x in _] => set (p := x) end.
  assert (moves R db p.1) as M; [|destruct p; cbn [fst] in *; etrans; [exact M|by apply emit_moves]].
  unfold p. clear p. destruct result as [r|e].
  - destruct (suspended_for_approval r); [by apply settle_moves|].
    destruct (suspended_for_user_input r); [unfold suspend_for_input; case_match; by apply settle_moves|].
    destruct (suspended_for_child_wait r); [by apply settle_moves|].
    unfold complete_task. set (dp := match assistant_reply r with Some _ => _ | None => _ end).
    destruct dp as [d' prepared]. cbn [fst].
    etrans; [by apply outputs_moves|]. apply settle_moves. by apply outputs_moves.
  - cbn [fst]. destruct (is_context_overflow e).
    + destruct (already_retried prev).
      * unfold overflow_exhausted. etrans; [by apply emit_moves|].
        by apply settle_moves, well_keyed_emit.
      * unfold overflow_retry. set (db1 := emit db _). set (db2 := checkpoint_task _ _ _ _ _).
        assert (moves R db db2) as M2 by (etrans; [by apply emit_moves|apply (checkpoint_moves R)]).
        etrans; [exact M2|]. set (merged := match default _ _ with JObject _ => _ | _ => _ end).
        assert (moves R db2 (update_task_run_metadata now db2 wf tid merged).1) as M3
          by (apply metadata_moves; by apply M2).
        etrans; [exact M3|]. etrans; [|by apply (dequeue_moves R)].
        apply (update_moves extract refs R); [done..|]. by apply M3, M2.
    + unfold retry_or_fail. destruct (load_task_run db wf tid) as [t|]; [|by apply fail_moves].
      set (dec := evaluate_stage_retry _ _ _). destruct (retry_scheduled dec); [|by apply fail_moves].
      pose proof (stage_retry_moves now db wf tid (Some (error_str e)) dec HR Hk) as M.
      destruct (schedule_task_stage_retry _ _ _ _ _ _) as [db' [|]]; cbn [fst] in M; (etrans; [exact M|]).
      * etrans; [by apply (checkpoint_moves R)|by apply (dequeue_moves R)].
      * apply fail_moves. by apply M.
Qed.

Lemma heartbeat_moves cfg now elapsed db wf tid :
  well_keyed db → moves R db (heartbeat extract refs cfg now elapsed db wf tid).1.
Proof.
  intros Hk. unfold heartbeat. destruct (match load_task_run db wf tid with Some _ => _ | None => _ end); [done|].
  case_bool_decide; cbn [fst].
  - etrans; [|by apply release_claim_moves]. etrans; [|by apply emit_moves].
    etrans; [|by apply emit_moves]. by apply settle_moves.
  - set (db1 := refresh_task_claim_heartbeat now db wf tid).
    assert (moves R db db1) as M by (by apply (tables_moves R)).
    etrans; [exact M|]. apply beat_moves. by apply M.
Qed.

Lemma sweep_moves parse cfg now ns latest ev db dirs :
  well_keyed db → moves R db (check_stuck_running_tasks extract refs parse cfg now ns latest ev db dirs).
Proof.
  intros Hk. unfold check_stuck_running_tasks. case_bool_decide; [done|].
  apply fold_moves; [done| |done]. clear db Hk. intros db wf Hk. apply fold_moves; [done| |done].
  clear db Hk. intros db t Hk. unfold sweep_task. destruct (stuck_verdict _ _ _ _ _ _ _ _); [done|..].
  - pose proof (update_moves extract refs R legal_R now None db wf (task_id t) TPaused
      (Some "paused: awaiting async child completion") Hk) as M.
    destruct (update_task_run_status _ _ _ _ _ _ _ _ _) as [db' [|]]; cbn [fst] in M; [|done].
    etrans; [exact M|]. etrans; [by apply (checkpoint_moves R)|by apply (dequeue_moves R)].
  - etrans; [by apply settle_moves|by apply emit_moves].
Qed.

Lemma timeouts_moves parse cfg now ns latest db dirs :
  well_keyed db → moves R db (check_approval_timeouts extract refs parse cfg now ns latest db dirs).
Proof.
  intros Hk. unfold check_approval_timeouts. case_bool_decide; [done|].
  apply fold_moves; [done| |done]. clear db Hk. intros db wf Hk. apply fold_moves; [done| |done].
  clear db Hk. intros db t Hk. unfold expire_approval. destruct (_ && _); [|done].
  etrans; [by apply (update_moves extract refs R)|]. etrans; [by apply (checkpoint_moves R)|].
  etrans; [by apply emit_moves|by apply (dequeue_moves R)].
Qed.

Lemma decide_moves now db dec :
  well_keyed db → moves R db (unblock_task_on_approval extract refs now db dec).
Proof.
  intros Hk. unfold unblock_task_on_approval.
  destruct (dec_workflow_id dec) as [wf|]; [|done]. destruct (dec_task_id dec) as [tid|]; [|done].
  destruct (match load_task_run db wf tid with Some _ => _ | None => _ end).
  { unfold surface_decision_after_terminal. destruct (dec_status dec); try done; by apply (tables_moves R). }
  destruct (decided_task_status _) as [status|]; [|done].
  set (db1 := emit db _). assert (moves R db db1) as M1 by (by apply emit_moves).
  etrans; [exact M1|].
  pose proof (update_moves extract refs R legal_R now None db1 wf tid status
    (decision_summary dec status) ltac:(by apply M1)) as M2.
  destruct (update_task_run_status _ _ _ _ _ _ _ _ _) as [db2 [|]]; cbn [fst] in M2; [|done].
  etrans; [exact M2|]. set (db3 := checkpoint_task _ _ _ _ _).
  assert (moves R db2 db3) as M3 by (by apply (checkpoint_moves R)). etrans; [exact M3|].
  unfold clear_blocked_approval. destruct (any_awaiting _ _); [done|].
  destruct (load_workflow_run _ _); [|done]. clearbody db3. destruct (bool_decide _); [|done]. apply (keeps_moves R), kt_save_run.
Qed.

Lemma fan_in_moves now db dec waiters :
  well_keyed db → moves R db (fan_in_approval_waiters extract refs now db dec waiters).
Proof.
  intros Hk. unfold fan_in_approval_waiters. case_bool_decide; [done|].
  etrans; [|by apply emit_moves]. destruct (decided_task_status _) as [status|]; [|done].
  apply fold_moves; [done| |done]. clear db Hk. intros db [[wf|] [tid|]] Hk; try done.
  unfold unblock_waiter. destruct (match load_task_run db wf tid with Some _ => _ | None => _ end); [done|].
  match goal with |- context [update_task_run_status _ _ _ _ _ _ _ _ ?s] => set (reply := s) end.
  pose proof (update_moves extract refs R legal_R now None db wf tid status reply Hk) as M.
  destruct (update_task_run_status _ _ _ _ _ _ _ _ _) as [db2 [|]]; cbn [fst] in M; [|done].
  etrans; [exact M|]. by apply (checkpoint_moves R).
Qed.

Lemma cancel_moves now db wf tid reason :
  well_keyed db → moves R db (cancel_task extract refs now db wf tid reason).1.
Proof.
  intros Hk. unfold cancel_task. destruct (load_task_run db wf tid) as [t|]; [|done].
  destruct (cancellable _); [|done]. cbn [negb].
  pose proof (update_moves extract refs R legal_R now None db wf tid TCancelled
    (Some (default "Cancelled by operator" reason)) Hk) as M.
  destruct (update_task_run_status _ _ _ _ _ _ _ _ _) as [db2 [|]]; cbn [fst] in M; [|done].
  etrans; [exact M|]. by apply (dequeue_moves R).
Qed.

Lemma force_moves now db wf tid e target summary :
  well_keyed db → moves R db (force_complete extract refs now db wf tid e target summary).1.
Proof.
  intros Hk. unfold force_complete. destruct (is_workflow_terminal db wf); [done|].
  destruct (load_task_run db wf tid) as [t|]; [|done]. case_bool_decide; [|done]. cbn [negb].
  set (o := if (_ =? "succeeded")%string then _ else _). destruct o as [status|]; [|done].
  destruct (_ && _); [done|].
  match goal with |- context [update_task_run_status _ _ _ _ _ _ _ _ ?s] => set (reply := s) end.
  pose proof (update_moves extract refs R legal_R now None db wf tid status reply Hk) as M.
  destruct (update_task_run_status _ _ _ _ _ _ _ _ _) as [db2 [|]]; cbn [fst] in M; [|done].
  etrans; [exact M|]. etrans; [by apply (checkpoint_moves R)|by apply (dequeue_moves R)].
Qed.

(** The writes of a reaped task, apart from the list of identifiers. *)
Definition reap_write now child open_gate db t : WorkflowDb :=
  (reap_task now child open_gate (db, []) t).1.

Lemma reap_fold now child open_gate l db ids :
  (fold_left (reap_task now child open_gate) l (db, ids)).1
  = fold_left (reap_write now child open_gate) l db.
Proof.
  revert db ids. induction l as [|t l IH]; intros db ids; [done|]. cbn [fold_left].
  assert (∃ ids', reap_task now child open_gate (db, ids) t = (reap_write now child open_gate db t, ids'))
    as [ids' ->]; [|apply IH].
  unfold reap_write, reap_task. destruct (_ || _); cbn [fst]; by eexists.
Qed.

(** What the reaper makes of a task of an orphaned session that has not ended. *)
Definition abandoned (now : string) (t : TaskRun) : TaskRun :=
  t{{ task_status := TCancelled; task_updated_at := now;
      result_summary := Some "child_abandoned: parent session terminated (P-7.16)" }}.

Definition reapable (child : string) (t : TaskRun) : bool :=
  (task_session_id t =? child)%string && negb (is_terminal (task_status t)).

Lemma reap_write_cases now child open_gate db t :
  if reapable child t
  then tasks (reap_write now child open_gate db t) = <[task_key t := abandoned now t]> (tasks db) ∧
    (well_keyed db → well_keyed (reap_write now child open_gate db t)) ∧
    grows db (reap_write now child open_gate db t) ∧
    queue (reap_write now child open_gate db t) !! task_key t = None ∧
    ∀ k, queue db !! k = None → queue (reap_write now child open_gate db t) !! k = None
  else reap_write now child open_gate db t = db.
Proof.
  unfold reap_write, reap_task, reapable.
  destruct (_ =? _)%string; [|done]. destruct (is_terminal _); [done|]. cbn [negb orb andb].
  fold (abandoned now t). destruct (save_task_run now db (abandoned now t)) as [db1 r] eqn:Es. cbn [fst].
  destruct (save_task_run_cases _ _ _ _ _ Es) as [T Er].
  pose proof (well_keyed_save_task now db (abandoned now t)) as K.
  pose proof (save_task_grows now db (abandoned now t)) as G1. rewrite Es in K, G1.
  assert (queue db1 = queue db) as Q1 by (by destruct Er as [(_ & run & _ & ->)|(_ & _ & ->)]).
  cbn [fst] in K, G1. clear Es Er.
  set (db2 := release_singleton_slot_by_task_id _ _ _).
  assert (keeps_tasks db1 db2) as K2 by apply kt_release. clearbody db2.
  set (db3 := if open_gate _ then _ else _).
  assert (keeps_tasks db1 db3) as K3
    by (unfold db3; destruct (open_gate _); [etrans; [exact K2|etrans; [apply kt_emit|apply kt_sync]]|done]).
  pose proof (keeps_grows _ _ K3) as G3. destruct K3 as [KT _ KQ _ _ KK _].
  clearbody db3. set (db4 := dequeue_task now db3 (task_workflow_id t) (task_id t)).
  assert (tasks db4 = <[task_key t := abandoned now t]> (tasks db)) as T4
    by (unfold db4; by rewrite dequeue_tasks, KT, T).
  assert (grows db db4) as G4 by (etrans; [exact G1|]; etrans; [exact G3|apply dequeue_grows]).
  assert (well_keyed db → well_keyed db4) as K4 by (intros; by apply well_keyed_dequeue, KK, K).
  assert (queue db4 = delete (task_key t) (queue db)) as Q4
    by (unfold db4; rewrite dequeue_queue, KQ, Q1; done).
  assert (∀ k, queue db !! k = None → queue db4 !! k = None) as N4
    by (intros k Hk; rewrite Q4; apply lookup_delete_None; by right).
  assert (queue db4 !! task_key t = None) as D4 by (rewrite Q4; apply lookup_delete_eq).
  clearbody db4. destruct (str_is_empty _); [by split_and!|].
  split_and!; try done; [intros; apply well_keyed_emit; auto|]. etrans; [exact G4|apply keeps_grows, kt_emit].
Qed.

Lemma reap_moves now open_gate dirs db orphans :
  (∀ s, is_terminal s = false → R s TCancelled) → well_keyed db →
  moves R db (reap_orphaned_sessions now open_gate dirs db orphans).
Proof.
  intros HR Hk. unfold reap_orphaned_sessions. apply fold_moves; [done| |done].
  clear db Hk. intros db child Hk. unfold reap_session. etrans; [|by apply emit_moves].
  set (db1 := emit (emit db _) _). assert (moves R db db1) as M1 by (by apply (tables_moves R)).
  etrans; [exact M1|]. apply fold_moves; [done| |by apply M1]. clear db Hk db1 M1.
  intros db wf Hk. unfold reap_workflow.
  pose proof (reap_fold now child open_gate (list_task_runs db wf) db []) as E.
  destruct (fold_left _ _ (db, [])) as [db1 ids]. cbn [fst] in E.
  assert (moves R db db1) as M.
  { rewrite E. clear E db1 ids.
    set (f := λ db t, (reap_write now child open_gate db t, Ok (E := WorkflowError) tt)).
    assert (∀ l db, fold_left (reap_write now child open_gate) l db = (try_for_each f l db).1) as ->.
    { intros l. induction l as [|t l IH]; intros d; cbn; [done|apply IH]. }
    apply (snapshot_moves R wf f db); [done|..|done].
    - intros d t k Hne. unfold f. cbn [fst].
      pose proof (reap_write_cases now child open_gate d t) as H.
      destruct (reapable child t); [destruct H as [-> _]; by apply lookup_insert_ne|by rewrite H].
    - intros d t Ht. unfold f. cbn [fst].
      pose proof (reap_write_cases now child open_gate d t) as H.
      destruct (reapable child t) eqn:Er; [|by rewrite H]. destruct H as (T & K & C & _).
      split; [done..|]. intros k v Hv. rewrite T. destruct (decide (k = task_key t)) as [->|Hne].
      + exists (abandoned now t). rewrite lookup_insert_eq. split; [done|]. simplify_eq. apply HR.
        unfold reapable in Er. by bool_norm.
      + exists v. by rewrite lookup_insert_ne. }
  case_bool_decide; [done|]. etrans; [exact M|]. by apply emit_moves.
Qed.
End Moves.

(** ** Any operation of the scheduler *)

(** [SStore] is any operation of the store; the clock reading in nanoseconds and
    the answers of other parts belong to the operation. *)
Inductive SchedOp : Type :=
| SStore (op : Op)
| STick (now_ns : Z) (instance : string) (dirs : list string)
| SBegin (q : QueuedTaskRun)
| SFinish (d : Disk) (wf tid session : string) (prev : option TaskCheckpoint)
    (pending : option string) (result : result SpawnResult SpawnError)
| SBeat (elapsed : Z) (wf tid : string)
| SSweep (now_ns : Z) (latest : string → result (option SessionCheckpoint) unit)
    (ev : TaskRun → SessionEvidence) (dirs : list string)
| STimeouts (now_ns : Z) (latest : string → result (option SessionCheckpoint) unit)
    (dirs : list string)
| SReap (open_gate : string → bool) (dirs orphans : list string)
| SDecide (dec : ApprovalDecision) (waiters : list (option string * option string))
| SCancel (wf tid : string) (reason : option string)
| SForce (wf tid : string) (e : SessionEvidence) (target summary : option string).

Section Steps.
Context (extract : string → option Json) (refs : string → list string)
        (parse_rfc3339 : string → option Z) (cfg : SchedulerConfig)
        (from_str : string → option Json) (json_to_string : Json → string)
        (sha256_hex : string → string).

Definition sched_step (db : WorkflowDb) (e : string * SchedOp) : WorkflowDb :=
  let '(now, op) := e in
  match op with
  | SStore op => step extract refs db (now, op)
  | STick now_ns instance dirs =>
      run_tick parse_rfc3339 cfg json_to_string now now_ns instance dirs db
  | SBegin q => (begin_execution db q).1
  | SFinish d wf tid session prev pending result =>
      (finish_execution extract refs from_str json_to_string sha256_hex now db d wf tid session prev
         pending result).1
  | SBeat elapsed wf tid => (heartbeat extract refs cfg now elapsed db wf tid).1
  | SSweep now_ns latest ev dirs =>
      check_stuck_running_tasks extract refs parse_rfc3339 cfg now now_ns latest ev db dirs
  | STimeouts now_ns latest dirs =>
      check_approval_timeouts extract refs parse_rfc3339 cfg now now_ns latest db dirs
  | SReap open_gate dirs orphans => reap_orphaned_sessions now open_gate dirs db orphans
  | SDecide dec waiters =>
      fan_in_approval_waiters extract refs now (unblock_task_on_approval extract refs now db dec) dec
        waiters
  | SCancel wf tid reason => (cancel_task extract refs now db wf tid reason).1
  | SForce wf tid e target summary => (force_complete extract refs now db wf tid e target summary).1
  end.

Definition run_sched (ops : list (string * SchedOp)) : WorkflowDb := fold_left sched_step ops empty_db.

(** The changes made past [try_transition]. *)
Definition sched_forced (op : SchedOp) (s s' : TaskRunStatus) : Prop :=
  match op with
  | SStore op => forced op s s'
  | STick _ _ _ => is_terminal s = false ∧ s ≠ TPaused ∧ s' = TRunning
  | SFinish _ _ _ _ _ _ (Err _) => s' = TRunnable
  | SReap _ _ _ => is_terminal s = false ∧ s' = TCancelled
  | _ => False
  end.

Definition sched_change (op : SchedOp) : relation TaskRunStatus :=
  rtc (λ s s', try_transition s s' = true ∨ sched_forced op s s').

#[local] Instance sched_change_preorder op : PreOrder (sched_change op).
Proof. unfold sched_change. apply _. Qed.

Lemma sched_change_legal op s s' : try_transition s s' = true → sched_change op s s'.
Proof. intros H. apply rtc_once. by left. Qed.

Lemma sched_change_forced op s s' : sched_forced op s s' → sched_change op s s'.
Proof. intros H. apply rtc_once. by right. Qed.

Lemma moves_mono (R R' : relation TaskRunStatus) db db' :
  (∀ s s', R s s' → R' s s') → moves R db db' → moves R' db db'.
Proof. intros H [K G M]. split; [done..|]. intros k t Ht. destruct (M k t Ht) as (t' & ? & ?). eauto. Qed.

Lemma sched_step_moves db now op :
  well_keyed db → moves (sched_change op) db (sched_step db (now, op)).
Proof.
  intros Hk. pose proof (sched_change_legal op) as HL.
  destruct op as [op|ns i dirs|q|d wf tid session prev pending result|elapsed wf tid|ns latest ev dirs
                 |ns latest dirs|gate dirs orphans|dec waiters|wf tid reason|wf tid e target summary];
    cbn [sched_step].
  - apply (moves_mono (change op)); [|by apply step_moves]. done.
  - apply tick_moves; [apply _| |done]. intros s H1 H2. by apply sched_change_forced.
  - unfold begin_execution.
    destruct (load_workflow_run _ _); [etrans; [|by apply emit_moves; apply _]|];
      by apply checkpoint_moves; apply _.
  - destruct result as [r|e]; [|apply finish_moves; [apply _|done| |done]; intros; by apply sched_change_forced].
    apply (moves_mono legal); [intros s s' H; by eapply rtc_subrel; [|exact H]; auto|].
    unfold finish_execution.
    match goal with |- context [let '(_, _) := ?x in _] => set (p := x) end.
    assert (moves legal db p.1) as M; [|destruct p; cbn [fst] in *; etrans; [exact M|by apply emit_moves; apply _]].
    unfold p. destruct (suspended_for_approval r); [by apply settle_moves; [apply _|apply legal_once|]|].
    destruct (suspended_for_user_input r).
    { unfold suspend_for_input. case_match; by apply settle_moves; [apply _|apply legal_once|]. }
    destruct (suspended_for_child_wait r); [by apply settle_moves; [apply _|apply legal_once|]|].
    unfold complete_task. set (dp := match assistant_reply r with Some _ => _ | None => _ end).
    destruct dp as [d' prepared]. cbn [fst].
    set (db1 := record_outputs _ _ _ _ _ _).
    assert (moves legal db db1) as M1 by (by apply outputs_moves; [apply _|]).
    etrans; [exact M1|]. apply settle_moves; [apply _|apply legal_once|by apply M1].
  - by apply heartbeat_moves; [apply _|..].
  - by apply sweep_moves; [apply _|..].
  - by apply timeouts_moves; [apply _|..].
  - apply reap_moves; [apply _| |done]. intros s Hs. by apply sched_change_forced.
  - pose proof (decide_moves extract refs _ HL now db dec Hk) as M. etrans; [exact M|].
    apply fan_in_moves; [apply _|done|by apply M].
  - by apply cancel_moves; [apply _|..].
  - by apply force_moves; [apply _|..].
Qed.

Lemma run_sched_keyed ops : well_keyed (run_sched ops).
Proof.
  unfold run_sched. assert (well_keyed empty_db) as Hk by apply (run_well_keyed extract refs []).
  revert Hk. generalize empty_db. induction ops as [|[now op] ops IH]; intros db Hk; [done|].
  cbn [fold_left]. apply IH, (sched_step_moves db now op Hk), Hk.
Qed.
End Steps.
