(* ===== verification/SchedulerSpec.v ===== *)
(** * The scheduler: what it promises

    Which status changes a sequence of scheduler operations makes; that a tick
    starts what is runnable, once; and what an ended execution leaves. *)

From Stdlib Require Import Ascii String Lia.
From stdpp Require Import prelude gmap strings list sorting.
From coqutil Require Import Datatypes.RecordSetters.
From S2P Require Import Prelude RustStr Json ContentStore ChildReply Workflow WorkflowStore.
From S2P Require Import WorkflowInv WorkflowEnd Scheduler Supervisor SchedulerInv.
Import DoubleBraceUpdate.

Open Scope string_scope.
Open Scope list_scope.

(** ** Status changes *)

Section Spec.
Context (extract : string → option Json) (refs : string → list string)
        (parse_rfc3339 : string → option Z) (cfg : SchedulerConfig)
        (from_str : string → option Json) (json_to_string : Json → string)
        (sha256_hex : string → string).

Notation run_sched := (run_sched extract refs parse_rfc3339 cfg from_str json_to_string sha256_hex).
Notation sched_step := (sched_step extract refs parse_rfc3339 cfg from_str json_to_string sha256_hex).

(** No operation of the scheduler or the store loses a task, and what one
    does to its status is a sequence of transitions [try_transition] allows,
    save for the overrides: a tick starts whatever is neither ended nor paused,
    an execution that ends in an error makes its task runnable again for a
    retry, the reaper cancels what had not ended, an emergency stop aborts it,
    the failure of the root session fails it, and an operator may retry what
    failed. *)
Theorem scheduler_status_changes ops now op k t :
  let db := run_sched ops in
  let db' := sched_step db (now, op) in
  tasks db !! k = Some t →
  task_key t = k ∧
  ∃ t', tasks db' !! k = Some t' ∧ task_key t' = k ∧ sched_change op (task_status t) (task_status t').
Proof.
  cbn zeta. intros H.
  pose proof (run_sched_keyed extract refs parse_rfc3339 cfg from_str json_to_string sha256_hex ops) as Hk.
  destruct (sched_step_moves extract refs parse_rfc3339 cfg from_str json_to_string sha256_hex
    (run_sched ops) now op Hk) as [K _ M]. split; [by apply (task_keys _ Hk)|].
  destruct (M k t H) as (t' & H' & C). exists t'. split; [done|].
  split; [by apply (task_keys _ (K Hk))|done].
Qed.

(** ** Well-formed databases *)

Record well_formed (db : WorkflowDb) : Prop := {
  wfd_keyed : well_keyed db;
  wfd_queue k q : queue db !! k = Some q → is_Some (load_workflow_run db k.1);
  wfd_index root wf : root_index db !! root = Some wf → is_Some (load_workflow_run db wf);
  wfd_versions k cp : checkpoints db !! k = Some cp → (0 < cp_version cp)%Z;
}.

Lemma well_formed_grows db db' :
  well_formed db → grows db db' → well_keyed db' → well_formed db'.
Proof.
  intros [K Q I V] G K'. split; [done|..].
  - intros k q H. destruct (gr_queue _ _ G k) as [[q' H']|]; [by exists q| |done].
    by apply (gr_runs _ _ G), (Q k q').
  - intros root wf H. destruct (gr_index _ _ G root wf H) as [H'|]; [|done].
    by apply (gr_runs _ _ G), (I root wf).
  - by apply (gr_versions _ _ G).
Qed.

Lemma run_sched_app ops ops' :
  run_sched (ops ++ ops') = fold_left sched_step ops' (run_sched ops).
Proof. apply fold_left_app. Qed.

Lemma sched_steps_grow ops db : well_keyed db →
  well_keyed (fold_left sched_step ops db) ∧ grows db (fold_left sched_step ops db).
Proof.
  revert db. induction ops as [|[now op] ops IH]; intros db Hk; [done|]. cbn [fold_left].
  pose proof (sched_step_moves extract refs parse_rfc3339 cfg from_str json_to_string sha256_hex
                db now op Hk) as [K G _].
  destruct (IH (sched_step db (now, op)) (K Hk)) as [K' G']. split; [done|by etrans].
Qed.

(** C16: Whatever the store and the scheduler do, the database stays well formed: each
    row is filed under its own key, a queued task and an indexed root session name
    a workflow that exists, and checkpoints are numbered from one.  No workflow is
    ever lost, and the checkpoint of a task is only replaced by one with at least
    its version (for tasks of fewer than 2^32 checkpoints, the width of a
    version). *)
Theorem database_well_formed ops ops' :
  well_formed (run_sched ops) ∧
  (∀ wf, is_Some (load_workflow_run (run_sched ops) wf) →
     is_Some (load_workflow_run (run_sched (ops ++ ops')) wf)) ∧
  (∀ k cp, checkpoints (run_sched ops) !! k = Some cp →
     ∃ cp', checkpoints (run_sched (ops ++ ops')) !! k = Some cp' ∧ (cp_version cp ≤ cp_version cp')%Z).
Proof.
  rewrite run_sched_app.
  assert (well_formed empty_db) as H0.
  { split; [apply (run_well_keyed extract refs [])|..]; intros ??;
      cbn [queue root_index checkpoints empty_db]; by rewrite lookup_empty. }
  destruct (sched_steps_grow ops empty_db (wfd_keyed _ H0)) as [K G].
  destruct (sched_steps_grow ops' (run_sched ops) K) as [_ G'].
  split; [by apply (well_formed_grows empty_db)|]. split; apply G'.
Qed.

(** ** Requeueing *)

(** What requeueing leaves alone. *)
Record requeues (db db' : WorkflowDb) : Prop := {
  rq_tasks : tasks db' = tasks db;
  rq_claims : claims db' = claims db;
  rq_checkpoints : checkpoints db' = checkpoints db;
  rq_runs w r : load_workflow_run db w = Some r →
    ∃ r', load_workflow_run db' w = Some r' ∧ stopping (wf_status r') = stopping (wf_status r);
  rq_queue k : is_Some (queue db !! k) → is_Some (queue db' !! k);
  rq_effects : ∃ es, effects db' = effects db ++ es;
}.

#[local] Instance requeues_preorder : PreOrder requeues.
Proof.
  split.
  - intros db. split; try done; [by eauto|]. exists []. by rewrite app_nil_r.
  - intros a b c [] []. split; try congruence.
    + intros w r H. destruct (rq_runs0 w r H) as (r1 & H1 & E1).
      destruct (rq_runs1 w r1 H1) as (r2 & H2 & E2). exists r2. split; [done|congruence].
    + auto.
    + destruct rq_effects1 as [e2 ->], rq_effects0 as [e1 ->]. exists (e1 ++ e2). by rewrite app_assoc.
Qed.

Lemma requeues_list db db' wf : requeues db db' → list_task_runs db' wf = list_task_runs db wf.
Proof. intros []. unfold list_task_runs. by rewrite rq_tasks0. Qed.

Lemma enqueue_ok now db q run :
  load_workflow_run db (q_workflow_id q) = Some run → stopping (wf_status run) = false →
  well_keyed db →
  ∃ db', enqueue_task now db q = (db', Ok tt) ∧ requeues db db' ∧
    queue db' = <[(q_workflow_id q, q_task_id q) := q]> (queue db).
Proof.
  intros Hr Hs Hk. unfold enqueue_task. rewrite Hr, Hs. eexists. split; [reflexivity|]. split; [|done].
  split; try done.
  - intros w r Hw. rewrite load_run_emit, workflow_run_saved. case_decide as E; [|by exists r].
    cbn [wf_id] in E. pose proof (run_keys _ Hk _ _ Hr) as Ek.
    assert (w = q_workflow_id q) as -> by (rewrite <-E; exact Ek).
    eexists. split; [reflexivity|]. rewrite Hr in Hw. injection Hw as <-. cbn.
    rewrite Hs. destruct (wf_status run); cbn in *; try done; by destruct (blocks_planner q).
  - intros k [q' Hq]. destruct (decide (k = (q_workflow_id q, q_task_id q))) as [->|Hne].
    + exists q. apply lookup_insert_eq.
    + exists q'. by etrans; [apply lookup_insert_ne|].
  - eexists [_]. reflexivity.
Qed.

Lemma refresh_requeues db wf tid :
  requeues db (refresh_queued_task_message_from_task_checkpoint json_to_string db wf tid).
Proof.
  unfold refresh_queued_task_message_from_task_checkpoint.
  destruct (queue db !! (wf, tid)) as [q|] eqn:Eq; [|done].
  destruct (checkpoints db !! (wf, tid)) as [cp|]; [|done].
  destruct (negb _); [done|]. destruct (approval_message _ _) as [rm|]; [|done].
  destruct (_ =? _)%string; [done|]. split; try done; [by eauto| |exists []; by rewrite app_nil_r].
  intros k [q' Hq]. destruct (decide (k = (wf, tid))) as [->|Hne].
  - eexists. apply lookup_insert_eq.
  - exists q'. by etrans; [apply lookup_insert_ne|].
Qed.

(** A row that is new, of a task parked for its children, carries the notice. *)
Definition wakes_noticed (db db' : WorkflowDb) : Prop :=
  ∀ k q, queue db !! k = None → queue db' !! k = Some q →
    is_child_wait_wake db k.1 k.2 = true → q_message q = wake_notice.

Lemma wakes_noticed_trans db1 db2 db3 :
  requeues db1 db2 → wakes_noticed db1 db2 →
  (∀ k q, is_child_wait_wake db2 k.1 k.2 = true → queue db3 !! k = Some q →
     queue db2 !! k = Some q ∨ q_message q = wake_notice) →
  wakes_noticed db1 db3.
Proof.
  intros Hrq H12 H23 k q Hn Hq Hw.
  assert (is_child_wait_wake db2 k.1 k.2 = true) as Hw2.
  { unfold is_child_wait_wake in *. by rewrite (rq_checkpoints _ _ Hrq). }
  destruct (H23 k q Hw2 Hq) as [Hq2|Hm]; [by eapply H12|done].
Qed.

Lemma requeue_one now wf run run' db t :
  load_workflow_run db wf = Some run' → stopping (wf_status run') = false → well_keyed db →
  ∃ db', requeue_task json_to_string now wf run db t = (db', Ok tt) ∧ requeues db db' ∧
    well_keyed db' ∧
    (task_status t = TRunnable → is_Some (queue db' !! (wf, task_id t))) ∧
    ∀ k q, is_child_wait_wake db k.1 k.2 = true → queue db' !! k = Some q →
      queue db !! k = Some q ∨ q_message q = wake_notice.
Proof.
  intros Hr Hs Hk. unfold requeue_task. case_bool_decide as Ht; cbn [negb].
  2:{ exists db. split_and!; try done. by left. }
  destruct (queued_task_exists db wf (task_id t)) eqn:Eq.
  - unfold queued_task_exists in Eq. apply bool_decide_eq_true_1 in Eq.
    pose proof (refresh_requeues db wf (task_id t)) as Hrq.
    eexists. split; [reflexivity|]. split; [done|].
    split; [by apply (mv_keyed _ _ _ (refresh_moves eq json_to_string db wf (task_id t)))|].
    split; [intros _; by apply (rq_queue _ _ Hrq)|].
    intros k q Hw. unfold refresh_queued_task_message_from_task_checkpoint.
    destruct (queue db !! (wf, task_id t)) as [q0|]; [|by left].
    destruct (checkpoints db !! (wf, task_id t)) as [cp|] eqn:Ecp; [|by left].
    destruct (String.eqb_spec (cp_step cp) "approval_resolved") as [E|]; [|by left].
    cbn [negb]. destruct (approval_message _ _) as [rm|]; [|by left].
    destruct (_ =? _)%string; [by left|]. intros H. left.
    assert (<[(wf, task_id t) := q0{{ q_message := rm }}]> (queue db) !! k = Some q) as HH by exact H.
    apply lookup_insert_Some in HH as [[<- _]|[_ HH]]; [|done].
    unfold is_child_wait_wake in Hw. cbn in Hw. rewrite Ecp, E in Hw. done.
  - set (q := requeued now wf run db t).
    destruct (enqueue_ok now db q run') as (db' & E & Hrq & Q); [done..|].
    exists db'. rewrite E. split; [done|]. split; [done|].
    split. { pose proof (mv_keyed _ _ _ (enqueue_moves eq now db q)) as K. rewrite E in K. by apply K. }
    rewrite Q. split; [intros _; eexists; apply lookup_insert_eq|].
    intros k q' Hw [[<- <-]|[_ H]]%lookup_insert_Some; [|by left]. right.
    change (resume_message db wf t = wake_notice). unfold resume_message.
    cbn in Hw. by rewrite Hw.
Qed.

Lemma requeue_tasks_loop now wf run l db run' :
  load_workflow_run db wf = Some run' → stopping (wf_status run') = false → well_keyed db →
  ∃ db', try_for_each (requeue_task json_to_string now wf run) l db = (db', Ok tt) ∧ requeues db db' ∧
    well_keyed db' ∧
    (∀ t, t ∈ l → task_status t = TRunnable → is_Some (queue db' !! (wf, task_id t))) ∧
    ∀ k q, is_child_wait_wake db k.1 k.2 = true → queue db' !! k = Some q →
      queue db !! k = Some q ∨ q_message q = wake_notice.
Proof.
  revert db run'. induction l as [|t l IH]; intros db run' Hr Hs Hk.
  { exists db. split_and!; try done; [by intros ? []%not_elem_of_nil|by left]. }
  destruct (requeue_one now wf run run' db t Hr Hs Hk) as (db1 & E1 & Rq1 & K1 & Q1 & W1).
  cbn [try_for_each]. rewrite E1. destruct (rq_runs _ _ Rq1 wf run' Hr) as (run1 & Hr1 & Hs1).
  destruct (IH db1 run1 Hr1) as (db2 & E2 & Rq2 & K2 & Q2 & W2); [congruence|done|].
  exists db2. split; [done|]. split; [by etrans|]. split; [done|]. split.
  - intros u [->|Hu]%elem_of_cons Hst; [|by apply Q2]. apply (rq_queue _ _ Rq2). auto.
  - intros k q Hw Hq. destruct (W2 k q) as [H|H]; [|done| |by right].
    + unfold is_child_wait_wake in *. by rewrite (rq_checkpoints _ _ Rq1).
    + by apply W1.
Qed.

(** If every directory is that of a workflow, the pass reaches all of them. *)
Lemma requeue_all now dirs db :
  (∀ w, w ∈ dirs → is_Some (load_workflow_run db w)) → well_keyed db →
  ∃ db', process_runnable_workflow_tasks json_to_string now db dirs = (db', Ok tt) ∧ requeues db db' ∧
    well_keyed db' ∧
    (∀ wf run t, wf ∈ dirs → load_workflow_run db wf = Some run → stopping (wf_status run) = false →
       load_task_run db wf (task_id t) = Some t → task_status t = TRunnable →
       is_Some (queue db' !! (wf, task_id t))) ∧
    wakes_noticed db db'.
Proof.
  intros Hd Hk.
  enough (∀ dirs db0, requeues db db0 → well_keyed db0 → wakes_noticed db db0 → dirs ⊆ dirs →
    (∀ w, w ∈ dirs → is_Some (load_workflow_run db w)) →
    ∃ db', try_for_each (requeue_workflow json_to_string now) dirs db0 = (db', Ok tt) ∧
      requeues db0 db' ∧ well_keyed db' ∧
      (∀ wf run t, wf ∈ dirs → load_workflow_run db wf = Some run → stopping (wf_status run) = false →
         load_task_run db wf (task_id t) = Some t → task_status t = TRunnable →
         is_Some (queue db' !! (wf, task_id t))) ∧ wakes_noticed db db') as Hloop.
  { apply (Hloop dirs db); try done. intros k q Hn Hq. by rewrite Hn in Hq. }
  clear dirs Hd. intros dirs. induction dirs as [|wf dirs IH]; intros db0 R0 K0 W0 _ Hd.
  { exists db0. split_and!; try done. by intros ??? []%not_elem_of_nil. }
  cbn [try_for_each]. destruct (Hd wf) as [run Hr]; [left|].
  destruct (rq_runs _ _ R0 wf run Hr) as (run0 & Hr0 & Hs0).
  assert (∃ db1, requeue_workflow json_to_string now db0 wf = (db1, Ok tt) ∧ requeues db0 db1 ∧
    well_keyed db1 ∧ wakes_noticed db db1 ∧
    (stopping (wf_status run) = false → ∀ t, load_task_run db wf (task_id t) = Some t →
       task_status t = TRunnable → is_Some (queue db1 !! (wf, task_id t))))
    as (db1 & E1 & Rq1 & K1 & W1 & Q1).
  { unfold requeue_workflow. rewrite Hr0, Hs0. destruct (stopping (wf_status run)) eqn:Es.
    { exists db0. by split_and!. }
    destruct (requeue_tasks_loop now wf (Some run0) (list_task_runs db0 wf) db0 run0 Hr0)
      as (db1 & E & Rq & K & Q & W); [congruence|done|].
    exists db1. split; [done|]. split; [done|]. split; [done|]. split.
    - by apply (wakes_noticed_trans db db0 db1).
    - intros _ t Ht Hst. apply Q; [|done]. rewrite (requeues_list _ _ wf R0).
      apply elem_of_list_task_runs. by exists (task_id t). }
  rewrite E1. destruct (IH db1) as (db2 & E2 & Rq2 & K2 & Q2 & W2);
    [by etrans|done|done|done|intros; apply Hd; by right|].
  exists db2. split; [done|]. split; [by etrans|]. split; [done|]. split; [|done].
  intros w r t [->|Hw]%elem_of_cons Hl Hs Ht Hst; [|by eapply Q2].
  apply (rq_queue _ _ Rq2), Q1; [congruence|done..].
Qed.

(** ** Draining *)

(** What was launched, in order. *)
Definition launches (db : WorkflowDb) : list QueuedTaskRun :=
  omap (λ e, match e with Launched q => Some q | _ => None end) (effects db).

Definition queue_key (q : QueuedTaskRun) : Key := (q_workflow_id q, q_task_id q).

Definition claim_free (now_ns : Z) (db : WorkflowDb) (k : Key) : bool :=
  match claims db !! k with
  | Some c => claim_is_stale parse_rfc3339 now_ns c (task_claim_stale_after_secs cfg)
  | None => true
  end.

(** A queued task a pass starts: neither ended nor paused, claimed by nobody
    alive, of a workflow that exists or running already. *)
Definition startable (now_ns : Z) (db : WorkflowDb) (q : QueuedTaskRun) : bool :=
  let existing := tasks db !! queue_key q in
  negb (not_launchable existing) && claim_free now_ns db (queue_key q)
  && (is_running existing || bool_decide (is_Some (load_workflow_run db (q_workflow_id q)))).

(** What the handling of one queue row leaves of everything else. *)
Record drained (kq : Key) (db db' : WorkflowDb) : Prop := {
  dr_keyed : well_keyed db →
    well_keyed db' ∧ ∀ w, is_Some (load_workflow_run db' w) ↔ is_Some (load_workflow_run db w);
  dr_tasks k : k ≠ kq → tasks db' !! k = tasks db !! k;
  dr_claims k : k ≠ kq → claims db' !! k = claims db !! k;
  dr_checkpoints : checkpoints db' = checkpoints db;
}.

#[local] Instance drained_preorder kq : PreOrder (drained kq).
Proof.
  split; [by split|]. intros a b c [K1 T1 C1 P1] [K2 T2 C2 P2]. split.
  - intros Hk. destruct (K1 Hk) as [K E1], (K2 K) as [K' E2]. split; [done|].
    intros w. by rewrite E2, E1.
  - intros. by rewrite T2, T1.
  - intros. by rewrite C2, C1.
  - by rewrite P2.
Qed.

Lemma dr_effect kq db e : drained kq db (emit db e).
Proof. split; try done. intros. split; [by apply well_keyed_emit|done]. Qed.

Lemma saved_run_exists db run r w :
  well_keyed db → load_workflow_run db (wf_id run) = Some r →
  is_Some (load_workflow_run (save_workflow_run db run) w) ↔ is_Some (load_workflow_run db w).
Proof.
  intros Hk Hr. rewrite workflow_run_saved. case_decide as E; [|done]. subst w. rewrite Hr.
  split; intros _; by eexists.
Qed.

Lemma dr_save kq now db t : task_key t = kq → drained kq db (save_task_run now db t).1.
Proof.
  intros <-. pose proof (well_keyed_save_task now db t) as K.
  destruct (save_task_run now db t) as [db' r] eqn:E. cbn [fst] in *.
  destruct (save_task_run_cases _ _ _ _ _ E) as [T C]. split; [|intros k Hk..|by destruct C as [(_ & run & _ & ->)|(_ & _ & ->)]].
  - intros Hk. split; [auto|]. intros w. destruct C as [(_ & run & Hr & ->)|(_ & _ & ->)]; [|done].
    apply (saved_run_exists (upsert_task_run db t) (track_active now run t) run w);
      [by apply well_keyed_upsert|].
    change (load_workflow_run db (wf_id run) = Some run). by rewrite (run_keys _ Hk _ _ Hr).
  - rewrite T. by apply lookup_insert_ne.
  - by destruct C as [(_ & run & _ & ->)|(_ & _ & ->)].
Qed.

Lemma dr_release db wf tid : drained (wf, tid) db (release_task_claim db wf tid).
Proof.
  split; [intros []; by split|done| |done]. intros k Hk.
  change (delete (wf, tid) (claims db) !! k = claims db !! k). by apply lookup_delete_ne.
Qed.

Lemma dr_dequeue now db wf tid : drained (wf, tid) db (dequeue_task now db wf tid).
Proof.
  split.
  - intros Hk. split; [by apply well_keyed_dequeue|]. intros w. unfold dequeue_task.
    set (db0 := db{{ queue := _ }}). change (load_workflow_run db0 wf) with (load_workflow_run db wf).
    destruct (load_workflow_run db wf) as [run|] eqn:Hr; [|done].
    match goal with |- context [save_workflow_run db0 ?r] => set (run' := r) end.
    change (is_Some (load_workflow_run (save_workflow_run db run') w)
            ↔ is_Some (load_workflow_run db w)).
    apply (saved_run_exists db run' run w Hk).
    change (load_workflow_run db (wf_id run) = Some run). by rewrite (run_keys _ Hk _ _ Hr).
  - intros. by rewrite dequeue_tasks.
  - intros k Hk. unfold dequeue_task. destruct (load_workflow_run _ wf); [|done].
    change (delete (wf, tid) (claims db) !! k = claims db !! k). by apply lookup_delete_ne.
  - unfold dequeue_task. by case_match.
Qed.

Lemma dr_acquire now now_ns instance db wf tid secs db' c :
  acquire_task_claim parse_rfc3339 now now_ns instance db wf tid secs = (db', c) →
  drained (wf, tid) db db'.
Proof.
  unfold acquire_task_claim. intros H. split.
  - repeat case_match; simplify_eq; intros []; by split.
  - repeat case_match; by simplify_eq.
  - intros k Hk. repeat case_match; simplify_eq; try done;
      (etrans; [by apply lookup_insert_ne|done]).
  - repeat case_match; by simplify_eq.
Qed.

Lemma dr_launch kq db q : drained kq db (launch db q).
Proof.
  unfold launch. etrans; [|apply dr_effect]. unfold activate_singleton_task.
  repeat case_match; try done; split; try done; by intros [].
Qed.

Lemma launches_emit db e :
  launches (emit db e) = launches db ++ match e with Launched q => [q] | _ => [] end.
Proof. unfold launches. change (effects (emit db e)) with (effects db ++ [e]).
  rewrite omap_app. by destruct e. Qed.

Lemma launches_save now db t : launches (save_task_run now db t).1 = launches db.
Proof.
  unfold save_task_run. by destruct (load_workflow_run (upsert_task_run db t) (task_workflow_id t)).
Qed.

Lemma launches_dequeue now db wf tid : launches (dequeue_task now db wf tid) = launches db.
Proof. unfold dequeue_task. by case_match. Qed.

Lemma launch_spec db q :
  launches (launch db q) = launches db ++ [q] ∧ tasks (launch db q) = tasks db ∧
  claims (launch db q) = claims db.
Proof.
  unfold launch. rewrite launches_emit. unfold activate_singleton_task. by repeat case_match.
Qed.

(** A claim that is free is taken; another is left. *)
Lemma acquire_cases now now_ns instance db wf tid :
  let '(db', c) := acquire_task_claim parse_rfc3339 now now_ns instance db wf tid
                     (task_claim_stale_after_secs cfg) in
  effects db' = effects db ∧
  if claim_free now_ns db (wf, tid)
  then c = Some {| scheduler_instance_id := instance; claimed_at := now; heartbeat_at := now |} ∧
    claims db' !! (wf, tid) = c
  else c = None.
Proof.
  unfold acquire_task_claim, claim_free.
  destruct (claims db !! (wf, tid)) as [old|]; [destruct (claim_is_stale _ _ _ _)|];
    try done; (split; [done|]); (split; [done|]); cbn; apply lookup_insert_eq.
Qed.

(** One row of the queue: it starts exactly when it is startable. *)
Lemma drain_one now now_ns instance db q :
  well_keyed db →
  let db' := drain_task parse_rfc3339 cfg now now_ns instance db q in
  drained (queue_key q) db db' ∧
  if startable now_ns db q
  then launches db' = launches db ++ [q] ∧
    (∃ t, tasks db' !! queue_key q = Some t ∧ task_status t = TRunning) ∧
    claims db' !! queue_key q
      = Some {| scheduler_instance_id := instance; claimed_at := now; heartbeat_at := now |}
  else launches db' = launches db.
Proof.
  intros Hk. unfold drain_task, startable. cbn zeta.
  set (wf := q_workflow_id q). set (tid := q_task_id q). change (queue_key q) with (wf, tid).
  change (tasks db !! (wf, tid)) with (load_task_run db wf tid).
  set (existing := load_task_run db wf tid).
  destruct (not_launchable existing); cbn [negb andb].
  { split; [apply dr_dequeue|apply launches_dequeue]. }
  pose proof (acquire_cases now now_ns instance db wf tid) as A.
  destruct (acquire_task_claim _ _ _ _ _ _ _ _) as [db1 c] eqn:Ea.
  pose proof (dr_acquire _ _ _ _ _ _ _ _ _ Ea) as D1.
  destruct (acquire_tables _ _ _ _ _ _ _ _ _ _ Ea) as (T1 & R1 & _).
  destruct A as [E1 A].
  assert (launches db1 = launches db) as L1 by (unfold launches; by rewrite E1).
  destruct (claim_free _ _ _); cbn [andb]; [|by subst c].
  destruct A as [-> C1]. destruct (is_running existing) eqn:Er; cbn [orb].
  { destruct (launch_spec db1 q) as (L & T & C). split; [etrans; [exact D1|apply dr_launch]|].
    rewrite L, T, C, L1. split; [done|]. split; [|done]. rewrite T1. unfold is_running in Er.
    destruct existing as [t|] eqn:Ee; [|done]. exists t. split; [done|]. by case_bool_decide. }
  destruct (started_row_key now q existing wf tid eq_refl eq_refl) as [Ek Es].
  { intros t Ht. by apply (task_keys _ Hk). }
  pose proof (dr_save (wf, tid) now db1 _ Ek) as D2.
  pose proof (launches_save now db1 (started_row now q existing)) as L2.
  destruct (save_task_run now db1 _) as [db2 r] eqn:E2. cbn [fst] in D2, L2.
  destruct (save_task_run_cases _ _ _ _ _ E2) as [T2 C2]. rewrite Ek in T2.
  assert (task_workflow_id (started_row now q existing) = wf) as Ew
    by (unfold task_key in Ek; by injection Ek).
  assert (load_workflow_run db1 wf = load_workflow_run db wf) as Erun
    by (unfold load_workflow_run; by rewrite R1).
  rewrite Ew, Erun in C2. destruct C2 as [(-> & run & Hr & Edb)|(-> & Hr & _)].
  - rewrite bool_decide_eq_true_2 by eauto.
    destruct (launch_spec (emit db2 (TimelineEvent wf (Some tid) "task.started")) q) as (L & T & C).
    split. { etrans; [exact D1|]. etrans; [exact D2|]. etrans; [apply dr_effect|apply dr_launch]. }
    rewrite L, T, C, launches_emit, app_nil_r, L2, L1. split; [done|]. split.
    + eexists. split; [|exact Es]. change (tasks db2 !! (wf, tid) = Some (started_row now q existing)).
      rewrite T2. apply lookup_insert_eq.
    + rewrite <-C1. by rewrite Edb.
  - rewrite bool_decide_eq_false_2 by (rewrite Hr; by intros [? ?]).
    split; [|by etrans]. etrans; [exact D1|]. etrans; [exact D2|]. apply dr_release.
Qed.

Lemma startable_frame now_ns kq db db' q :
  well_keyed db → drained kq db db' → queue_key q ≠ kq → startable now_ns db' q = startable now_ns db q.
Proof.
  intros Hk [K T C _] Hne. unfold startable, claim_free. rewrite T, C by done.
  f_equal. f_equal. apply bool_decide_ext. by apply K.
Qed.

(** A pass over rows of different tasks starts those that are startable. *)
Lemma drain_loop now now_ns instance l db :
  well_keyed db → NoDup (queue_key <$> l) →
  let db' := fold_left (drain_task parse_rfc3339 cfg now now_ns instance) l db in
  let started := List.filter (startable now_ns db) l in
  well_keyed db' ∧ checkpoints db' = checkpoints db ∧
  (∀ k, k ∉ queue_key <$> l → tasks db' !! k = tasks db !! k ∧ claims db' !! k = claims db !! k) ∧
  launches db' = launches db ++ started ∧
  ∀ q, q ∈ started →
    (∃ t, tasks db' !! queue_key q = Some t ∧ task_status t = TRunning) ∧
    claims db' !! queue_key q
      = Some {| scheduler_instance_id := instance; claimed_at := now; heartbeat_at := now |}.
Proof.
  revert db. induction l as [|q l IH]; intros db Hk Hnd; cbn zeta.
  { split_and!; [done..|by rewrite app_nil_r|]. by intros q ?%not_elem_of_nil. }
  apply NoDup_cons in Hnd as [Hni Hnd]. cbn [fold_left].
  destruct (drain_one now now_ns instance db q Hk) as [D O].
  set (db1 := drain_task _ _ _ _ _ _ _) in *. clearbody db1.
  destruct (IH db1) as (K & P & F & L & S); [by apply D|done|].
  set (db' := fold_left _ _ _) in *. clearbody db'.
  assert (List.filter (startable now_ns db1) l = List.filter (startable now_ns db) l) as Ef.
  { apply List.filter_ext_in. intros r Hr. apply (startable_frame now_ns (queue_key q)); [done..|].
    intros E. apply Hni. rewrite <-E. apply list_elem_of_fmap_2. by apply list_elem_of_In. }
  rewrite Ef in *. destruct (F (queue_key q) Hni) as [Ft Fc].
  split; [done|]. split; [by rewrite P; apply D|]. split; [|split].
  - intros k Hk'. apply not_elem_of_cons in Hk' as [Hne Hk'].
    destruct (F k Hk') as [-> ->]. split; [by apply D|by apply D].
  - rewrite L. cbn [List.filter]. destruct (startable now_ns db q); [|by rewrite O].
    destruct O as (-> & _). by rewrite <-app_assoc.
  - intros r Hr. cbn [List.filter] in Hr. destruct (startable now_ns db q); [|by apply S].
    apply elem_of_cons in Hr as [->|Hr]; [|by apply S]. destruct O as (_ & Ot & Oc).
    by rewrite Ft, Fc.
Qed.

Lemma NoDup_queue_keys db : well_keyed db → NoDup (queue_key <$> load_all_queued_tasks db).
Proof.
  intros Hk. unfold load_all_queued_tasks. rewrite (fmap_Permutation _ _ _ (sort_by_perm queue_order _)).
  assert (queue_key <$> (map_to_list (queue db)).*2 = (map_to_list (queue db)).*1) as ->.
  { rewrite <-list_fmap_compose. apply list_fmap_ext. intros i [k q] H. cbn.
    apply (queue_keys _ Hk). apply elem_of_map_to_list. by eapply list_elem_of_lookup_2. }
  apply NoDup_fst_map_to_list.
Qed.

Lemma elem_of_all_queued db q : well_keyed db → q ∈ load_all_queued_tasks db ↔ queue db !! queue_key q = Some q.
Proof.
  intros Hk. unfold load_all_queued_tasks. rewrite elem_of_sort_by, list_elem_of_fmap. split.
  - intros ([k q'] & -> & H%elem_of_map_to_list). cbn. by rewrite (queue_keys _ Hk k q' H : queue_key q' = k).
  - intros H. exists (queue_key q, q). split; [done|]. by apply elem_of_map_to_list.
Qed.

#[local] Instance queue_order_total : TotalCmp queue_order.
Proof.
  split; unfold cmp_le, queue_order.
  - intros x y. apply (cmp_flip String.compare).
  - intros x y z. apply (cmp_trans String.compare).
Qed.

Lemma filter_strongly_sorted {A} (R : relation A) (f : A → bool) l :
  StronglySorted R l → StronglySorted R (List.filter f l).
Proof.
  induction 1 as [|x l Hs IH Hx]; cbn [List.filter]; [constructor|].
  destruct (f x); [|done]. constructor; [done|].
  rewrite Forall_forall in *. intros y Hy%list_elem_of_In. apply filter_In in Hy as [Hy _].
  apply Hx. by apply list_elem_of_In.
Qed.

(** C14: A pass over the queue launches exactly the rows that are startable before
    it, oldest first and each once: every one of them is of another task, and is
    then running under a claim of this scheduler.  A second pass, by whoever, that
    begins before those claims go stale launches none of these tasks again. *)
Theorem pass_launches_startable ops now now_ns instance :
  let db := run_sched ops in
  let db' := process_queued_workflow_tasks parse_rfc3339 cfg now now_ns instance db in
  let started := List.filter (startable now_ns db) (load_all_queued_tasks db) in
  launches db' = launches db ++ started ∧ NoDup (queue_key <$> started) ∧
  StronglySorted (cmp_le queue_order) started ∧
  (∀ q, q ∈ started → queue db !! queue_key q = Some q ∧
     (∃ t, tasks db' !! queue_key q = Some t ∧ task_status t = TRunning) ∧
     claims db' !! queue_key q
       = Some {| scheduler_instance_id := instance; claimed_at := now; heartbeat_at := now |}) ∧
  ∀ now2 ns2 instance2, parse_rfc3339 now = Some now_ns →
    (ns2 - now_ns ≤ task_claim_stale_after_secs cfg * 1000000000)%Z →
    ∃ started2, launches (process_queued_workflow_tasks parse_rfc3339 cfg now2 ns2 instance2 db')
                = launches db' ++ started2 ∧
      ∀ q, q ∈ started → queue_key q ∉ queue_key <$> started2.
Proof.
  cbn zeta. pose proof (run_sched_keyed extract refs parse_rfc3339 cfg from_str json_to_string sha256_hex ops) as Hk.
  set (db := run_sched ops) in *.
  destruct (drain_loop now now_ns instance (load_all_queued_tasks db) db Hk (NoDup_queue_keys db Hk))
    as (K' & _ & _ & L & S).
  change (fold_left _ _ db) with (process_queued_workflow_tasks parse_rfc3339 cfg now now_ns instance db) in *.
  set (db' := process_queued_workflow_tasks _ _ _ _ _ _) in *. clearbody db'.
  set (l := load_all_queued_tasks db) in *.
  assert (sublist (List.filter (startable now_ns db) l) l) as Hsub.
  { clear. induction l as [|q l IH]; cbn [List.filter]; [done|].
    destruct (startable now_ns db q); by constructor. }
  split; [done|]. split; [|split; [|split]].
  - eapply sublist_NoDup; [|by apply (fmap_sublist queue_key); exact Hsub]. by apply NoDup_queue_keys.
  - apply filter_strongly_sorted, sort_by_strongly_sorted. apply _.
  - intros q Hq. split; [|by apply S]. apply elem_of_all_queued; [done|].
    apply list_elem_of_In in Hq. apply filter_In in Hq as [Hq _]. by apply list_elem_of_In.
  - intros now2 ns2 instance2 Hp Hle.
    destruct (drain_loop now2 ns2 instance2 (load_all_queued_tasks db') db' K' (NoDup_queue_keys db' K'))
      as (_ & _ & _ & L2 & _).
    eexists. split; [exact L2|]. intros q Hq (r & E & Hr)%list_elem_of_fmap.
    apply list_elem_of_In, filter_In in Hr as [_ Hr]. unfold startable, claim_free in Hr.
    rewrite <-E in Hr. destruct (S q Hq) as [_ Hc]. rewrite Hc in Hr. bool_norm.
    unfold claim_is_stale in *. cbn [heartbeat_at] in *. rewrite Hp in *.
    by rewrite bool_decide_eq_false_2 in * by lia.
Qed.

(** ** Liveness *)

Lemma updated_task_fields now t s reply d :
  task_id (updated_task now t s reply d) = task_id t ∧
  task_status (updated_task now t s reply d) = s.
Proof. unfold updated_task. by destruct (failure d). Qed.

(** A runnable task that no living scheduler claims is launched by the next tick. *)
Lemma tick_starts now now_ns instance dirs db wf run t :
  well_keyed db → (∀ w, w ∈ dirs → is_Some (load_workflow_run db w)) → wf ∈ dirs →
  load_workflow_run db wf = Some run → stopping (wf_status run) = false →
  load_task_run db wf (task_id t) = Some t → task_status t = TRunnable →
  claim_free now_ns db (wf, task_id t) = true →
  let db' := run_tick parse_rfc3339 cfg json_to_string now now_ns instance dirs db in
  ∃ started q, launches db' = launches db ++ started ∧ q ∈ started ∧ queue_key q = (wf, task_id t) ∧
    (∃ t', tasks db' !! (wf, task_id t) = Some t' ∧ task_status t' = TRunning) ∧
    checkpoints db' = checkpoints db ∧
    (queue db !! (wf, task_id t) = None → is_child_wait_wake db wf (task_id t) = true →
     q_message q = wake_notice).
Proof.
  intros Hk Hd Hin Hr Hs Ht Hst Hc. cbn zeta. unfold run_tick.
  destruct (requeue_all now dirs db Hd Hk) as (db1 & E & Rq & K1 & Q & W). rewrite E. cbn [fst].
  destruct (Q wf run t Hin Hr Hs Ht Hst) as [q Hq].
  destruct (drain_loop now now_ns instance (load_all_queued_tasks db1) db1 K1 (NoDup_queue_keys db1 K1))
    as (_ & P & _ & L & S).
  pose proof (queue_keys _ K1 _ _ Hq : queue_key q = _) as Ek.
  assert (startable now_ns db1 q = true) as Hstart.
  { unfold startable, claim_free. rewrite Ek, (rq_tasks _ _ Rq), (rq_claims _ _ Rq).
    unfold claim_free in Hc. rewrite Hc. unfold load_task_run in Ht. rewrite Ht. cbn. rewrite Hst.
    destruct (rq_runs _ _ Rq wf run Hr) as (run1 & Hr1 & _).
    injection Ek as -> _. rewrite Hr1. rewrite (bool_decide_eq_true_2 (is_Some _)) by eauto.
    by rewrite orb_true_r. }
  assert (q ∈ List.filter (startable now_ns db1) (load_all_queued_tasks db1)) as Hel.
  { apply list_elem_of_In, filter_In. split; [|done]. apply list_elem_of_In, elem_of_all_queued; [done|].
    by rewrite Ek. }
  destruct (rq_effects _ _ Rq) as [es Ees].
  exists (omap (λ e, match e with Launched q => Some q | _ => None end) es
          ++ List.filter (startable now_ns db1) (load_all_queued_tasks db1)), q.
  unfold process_queued_workflow_tasks. rewrite L, P, (rq_checkpoints _ _ Rq).
  split. { unfold launches. rewrite Ees, omap_app. by rewrite <-app_assoc. }
  split; [apply elem_of_app; by right|]. split; [done|]. split.
  - rewrite <-Ek. by apply S.
  - split; [done|]. intros Hn Hw. by apply (W _ _ Hn Hq).
Qed.

(** C13: A task parked for its children is not forgotten: when a child ends and
    that leaves its session without one that has not, the very next tick launches
    it, provided every workflow directory the tick lists has a workflow that loads
    - one that does not ends the pass, and the workflows behind it wait - and the
    task's own workflow is listed and not being stopped, and unless a live
    scheduler holds a claim on the task; if it was in no queue, it is told that its
    children resolved. *)
Theorem woken_task_is_launched ops now now2 ns2 instance hook dirs wf tid task status reply t run :
  let db := run_sched ops in
  let db1 := (update_task_run_status extract refs now hook db wf tid status reply).1 in
  let db2 := run_tick parse_rfc3339 cfg json_to_string now2 ns2 instance dirs db1 in
  is_Some (load_workflow_run db wf) → load_task_run db wf tid = Some task →
  try_transition (task_status task) status = true → is_terminal_for_join status = true →
  load_task_run db wf (task_id t) = Some t → parked db wf t = true → task_id t ≠ tid →
  session_has_non_terminal_children db1 wf (task_session_id t) = false →
  load_workflow_run db1 wf = Some run → stopping (wf_status run) = false →
  (∀ w, w ∈ dirs → is_Some (load_workflow_run db1 w)) → wf ∈ dirs →
  claim_free ns2 db1 (wf, task_id t) = true →
  ∃ started q, launches db2 = launches db1 ++ started ∧ q ∈ started ∧
    queue_key q = (wf, task_id t) ∧
    (∃ t', load_task_run db2 wf (task_id t) = Some t' ∧ task_status t' = TRunning) ∧
    (queue db1 !! (wf, task_id t) = None → q_message q = wake_notice).
Proof.
  cbn zeta. pose proof (run_sched_keyed extract refs parse_rfc3339 cfg from_str json_to_string sha256_hex ops) as Hk.
  set (db := run_sched ops) in *. clearbody db.
  intros Hr Ht Htr Hterm Hp Hpark Hne Hch Hr1 Hs Hd Hin Hc.
  destruct (update_tasks extract refs now hook db wf tid status reply task Hk Ht Hr Htr)
    as (db0 & T & C & Q & K & R0 & _ & E). rewrite Hterm in E.
  destruct (wake_spec now db0 wf R0 K) as (db1 & E1 & T1 & C1 & R1 & K1).
  rewrite E1 in E. cbn [fst] in E. rewrite E in *. cbn [fst] in *.
  pose proof (wake_no_lost_wakeup now db0 wf R0 K) as NL. rewrite E1 in NL. cbn [fst] in NL.
  assert (tasks db0 !! (wf, task_id t) = Some t) as Ht0.
  { rewrite T. rewrite lookup_insert_ne by congruence. done. }
  assert (parked db0 wf t = true) as Hp0 by (by rewrite (parked_same db)).
  assert (ready db0 wf t = true) as Hrd.
  { unfold ready. rewrite Hp0. cbn [andb]. apply negb_true_iff, not_true_iff_false. intros Hch0.
    specialize (T1 (wf, task_id t)). rewrite Ht0 in T1. cbn in T1.
    rewrite bool_decide_eq_true_2 in T1 by done. cbn [andb] in T1. unfold ready in T1.
    rewrite Hp0, Hch0 in T1. cbn in T1.
    pose proof (NL _ t T1) as H. rewrite (parked_same db0) in H by done. by rewrite H in Hch. }
  assert (load_task_run db1 wf (task_id t) = Some (woken now t)) as Ht1.
  { unfold load_task_run. rewrite T1, Ht0. cbn. by rewrite bool_decide_eq_true_2, Hrd by done. }
  destruct (tick_starts now2 ns2 instance dirs db1 wf run (woken now t))
    as (started & q & L & Hq & Ek & St & _ & M); try done.
  exists started, q. split_and!; try done. intros Hn. apply M; [done|].
  unfold is_child_wait_wake. rewrite C1, C. change (task_id (woken now t)) with (task_id t).
  unfold parked in Hpark. bool_norm. by destruct (checkpoints db !! (wf, task_id t)).
Qed.

(** An approval resumes what waits for it: approving the request of a task that
    awaits it (or whose approval went stale) makes it runnable, and the next tick
    launches it with the decision as its latest checkpoint, in every workflow that
    is not being stopped, unless a live scheduler holds a claim on it. *)
Theorem approved_task_is_launched ops now now2 ns2 instance dirs dec wf t run :
  let db := run_sched ops in
  let db1 := unblock_task_on_approval extract refs now db dec in
  let db2 := run_tick parse_rfc3339 cfg json_to_string now2 ns2 instance dirs db1 in
  dec_workflow_id dec = Some wf → dec_task_id dec = Some (task_id t) → dec_status dec = DApproved →
  load_task_run db wf (task_id t) = Some t →
  task_status t = TAwaitingApproval ∨ task_status t = TStale →
  is_Some (load_workflow_run db wf) →
  load_workflow_run db1 wf = Some run → stopping (wf_status run) = false →
  (∀ w, w ∈ dirs → is_Some (load_workflow_run db1 w)) → wf ∈ dirs →
  claim_free ns2 db1 (wf, task_id t) = true →
  ∃ started q cp, launches db2 = launches db1 ++ started ∧ q ∈ started ∧
    queue_key q = (wf, task_id t) ∧
    (∃ t', load_task_run db2 wf (task_id t) = Some t' ∧ task_status t' = TRunning) ∧
    checkpoints db2 !! (wf, task_id t) = Some cp ∧ cp_step cp = "approval_resolved" ∧
    json_get (cp_state cp) "request_id" = Some (JString (dec_request_id dec)).
Proof.
  cbn zeta. pose proof (run_sched_keyed extract refs parse_rfc3339 cfg from_str json_to_string sha256_hex ops) as Hk.
  set (db := run_sched ops) in *. clearbody db.
  intros Hw Hi Hst Ht Hawait Hr.
  assert (is_terminal (task_status t) = false ∧ try_transition (task_status t) TRunnable = true)
    as [Hnt Htr] by (by destruct Hawait as [-> | ->]).
  assert (∃ cp t1, let db1 := unblock_task_on_approval extract refs now db dec in
    well_keyed db1 ∧ load_task_run db1 wf (task_id t) = Some t1 ∧ task_id t1 = task_id t ∧
    task_status t1 = TRunnable ∧ checkpoints db1 !! (wf, task_id t) = Some cp ∧
    cp_step cp = "approval_resolved" ∧
    json_get (cp_state cp) "request_id" = Some (JString (dec_request_id dec))) as (cp & t1 & H).
  { set (db0 := emit db (TimelineEvent wf (Some (task_id t)) ("task." ++ decided_str DApproved)%string)).
    destruct (update_tasks extract refs now None db0 wf (task_id t) TRunnable
      (decision_summary dec TRunnable) t) as (d & T & C & _ & K & R & _ & E);
      [by apply well_keyed_emit|done..|].
    set (st := json_object [("approval_resolved", JBool true);
      ("request_id", JString (dec_request_id dec)); ("status", JString "approved");
      ("action_type", JString (dec_action_type dec))]).
    set (d1 := checkpoint_task d wf (task_id t) "approval_resolved" st).
    assert (unblock_task_on_approval extract refs now db dec = clear_blocked_approval now d1 wf) as ->.
    { unfold unblock_task_on_approval. rewrite Hw, Hi, Ht, Hnt, Hst. cbn [decided_task_status].
      fold db0. by rewrite E. }
    assert (keeps_tasks d1 (clear_blocked_approval now d1 wf)) as [KT KC _ _ _ KK _].
    { unfold clear_blocked_approval. repeat (case_match; try done); by apply kt_save_run. }
    eexists _, _. cbn zeta. rewrite KC. unfold load_task_run at 1. rewrite KT.
    assert (tasks d1 = tasks d) as -> by done. rewrite T, lookup_insert_eq.
    split; [apply KK; by destruct K|]. split; [reflexivity|].
    split; [by apply updated_task_fields|]. split; [by apply updated_task_fields|].
    split; [apply lookup_insert_eq|]. split; [done|]. reflexivity. }
  cbn zeta in H. destruct H as (K1 & Ht1 & Ei & Hs1 & Hcp & Hstep & Hreq).
  intros Hr1 Hs Hd Hin Hc. rewrite <-Ei in *.
  destruct (tick_starts now2 ns2 instance dirs _ wf run t1 K1 Hd Hin Hr1 Hs Ht1 Hs1 Hc)
    as (started & q & L & Hq & Ek & St & P & _).
  exists started, q, cp. rewrite P. by split_and!.
Qed.

End Spec.

(** ** Examples *)

Definition demo_cfg : SchedulerConfig :=
  {| background_tick_secs := 5; approval_timeout_secs := 3600; workflow_task_heartbeat_secs := None;
     stuck_task_timeout_secs := None; stuck_task_no_evidence_action := StuckFail;
     stuck_task_hard_timeout_secs := None |}.

(** The claim of a task lasts 30 seconds without a heartbeat. *)
Example demo_claims : task_claim_stale_after_secs demo_cfg = 30%Z.
Proof. reflexivity. Qed.

Definition print_nothing (v : Json) : string := "".
Definition no_digest (s : string) : string := s.

Definition demo_sched (ops : list (string * SchedOp)) : WorkflowDb :=
  run_sched parse_nothing no_refs demo_clock demo_cfg parse_nothing print_nothing no_digest ops.

Definition stored (ops : list (string * Op)) : list (string * SchedOp) :=
  (λ e, (e.1, SStore e.2)) <$> ops.

Definition demo_queued (tid : string) : QueuedTaskRun :=
  {| q_task_id := tid; q_workflow_id := "wf-1"; q_agent_id := "coder"; q_message := "go on";
     child_session_id := ("root/" ++ tid)%string; q_parent_session_id := "root";
     q_source_agent_id := "lead"; q_metadata := None; q_join_group := None; blocks_planner := true;
     enqueued_at := "t0"; credential_bindings := [] |}.

Lemma scheduler_status_changes_witness :
  ∃ t', tasks (sched_step parse_nothing no_refs demo_clock demo_cfg parse_nothing print_nothing no_digest
                 (demo_sched (stored demo_ops)) ("t6", SCancel "wf-1" "coder" None)) !! ("wf-1", "coder")
          = Some t' ∧ task_status t' = TRunning.
Proof.
  assert (is_Some (tasks (demo_sched (stored demo_ops)) !! ("wf-1", "coder"))) as [t H]
    by (apply is_some_value; vm_compute; reflexivity).
  destruct (scheduler_status_changes parse_nothing no_refs demo_clock demo_cfg parse_nothing print_nothing
    no_digest (stored demo_ops) "t6" (SCancel "wf-1" "coder" None) _ t H) as [_ (t' & Ht & _)].
  exists t'. split; [exact Ht|]. vm_compute in Ht. injection Ht as <-. reflexivity.
Defined.

(** Two rows: the task of one is new, that of the other is claimed. *)
Definition demo_queue : list (string * SchedOp) :=
  stored (demo_ops ++ [("t0", OpEnqueue (demo_queued "coder")); ("t0", OpEnqueue (demo_queued "writer"))])
  ++ [("t0", STick 0 "first" []); ("t0", SStore (OpEnqueue (demo_queued "editor")))].

Lemma pass_launches_startable_witness :
  let db := demo_sched demo_queue in
  let db' := process_queued_workflow_tasks demo_clock demo_cfg "t0" 0 "a" db in
  launches db' = launches db ++ [demo_queued "editor"] ∧
  ∃ started2, launches (process_queued_workflow_tasks demo_clock demo_cfg "t1" 20000000000 "b" db')
              = launches db' ++ started2 ∧ ("wf-1", "editor") ∉ queue_key <$> started2.
Proof.
  cbv zeta.
  destruct (pass_launches_startable parse_nothing no_refs demo_clock demo_cfg parse_nothing print_nothing
    no_digest demo_queue "t0" 0 "a") as (L & _ & _ & _ & Hsecond).
  change (SchedulerInv.run_sched _ _ _ _ _ _ _ demo_queue) with (demo_sched demo_queue) in *.
  assert (List.filter (startable demo_clock demo_cfg 0 (demo_sched demo_queue))
            (load_all_queued_tasks (demo_sched demo_queue)) = [demo_queued "editor"]) as E
    by (vm_compute; reflexivity).
  split; [by rewrite <-E|].
  destruct (Hsecond "t1" 20000000000%Z "b") as (started2 & L2 & Hn); [reflexivity|vm_compute; discriminate|].
  exists started2. split; [exact L2|]. apply (Hn (demo_queued "editor")). rewrite E. by left.
Defined.

(** The tester is the last child of the planner. *)
Definition demo_last_child : list (string * SchedOp) :=
  stored (demo_ops ++ [("t6", OpUpdate None "wf-1" "coder" TSucceeded (Some "done"))]).

Lemma woken_task_is_launched_witness :
  let db1 := (update_task_run_status parse_nothing no_refs "t9" None (demo_sched demo_last_child) "wf-1"
                "tester" TSucceeded (Some "done")).1 in
  ∃ started q, launches (run_tick demo_clock demo_cfg print_nothing "t1" 60000000000 "a" ["wf-1"] db1)
                 = launches db1 ++ started ∧ q ∈ started ∧ q_task_id q = "planner" ∧
    q_message q = wake_notice.
Proof.
  set (db := demo_sched demo_last_child).
  assert (is_Some (load_task_run db "wf-1" "tester")) as [u Hu]
    by (apply is_some_value; vm_compute; reflexivity).
  assert (is_Some (load_task_run db "wf-1" "planner")) as [t Ht]
    by (apply is_some_value; vm_compute; reflexivity).
  assert (task_id t = "planner") as Ei by (vm_compute in Ht; injection Ht as <-; reflexivity).
  assert (task_session_id t = "root/planner") as Es by (vm_compute in Ht; injection Ht as <-; reflexivity).
  cbv zeta. set (db1 := (update_task_run_status _ _ _ _ _ _ _ _ _).1).
  assert (is_Some (load_workflow_run db1 "wf-1")) as [run Hr]
    by (apply is_some_value; vm_compute; reflexivity).
  destruct (woken_task_is_launched parse_nothing no_refs demo_clock demo_cfg parse_nothing print_nothing
    no_digest demo_last_child "t9" "t1" 60000000000 "a" None ["wf-1"] "wf-1" "tester" u TSucceeded
    (Some "done") t run) as (started & q & L & Hq & Ek & _ & Hm).
  - apply is_some_value. vm_compute. reflexivity.
  - exact Hu.
  - vm_compute in Hu. injection Hu as <-. reflexivity.
  - reflexivity.
  - rewrite Ei. exact Ht.
  - vm_compute in Ht. injection Ht as <-. vm_compute. reflexivity.
  - by rewrite Ei.
  - rewrite Es. vm_compute. reflexivity.
  - exact Hr.
  - vm_compute in Hr. injection Hr as <-. reflexivity.
  - intros w ->%list_elem_of_singleton. apply is_some_value. vm_compute. reflexivity.
  - by left.
  - rewrite Ei. vm_compute. reflexivity.
  - exists started, q. split; [exact L|]. split; [exact Hq|]. rewrite Ei in Ek, Hm.
    split; [unfold queue_key in Ek; congruence|]. apply Hm. vm_compute. reflexivity.
Defined.

Definition demo_approval : ApprovalDecision :=
  {| dec_request_id := "apr-1"; dec_status := DApproved; dec_reason := None;
     dec_workflow_id := Some "wf-1"; dec_task_id := Some "coder"; dec_action_type := "SandboxExec" |}.

Definition demo_awaiting : list (string * SchedOp) :=
  stored (demo_ops ++ [("t6", OpUpdate None "wf-1" "coder" TAwaitingApproval None)]).

Lemma approved_task_is_launched_witness :
  let db1 := unblock_task_on_approval parse_nothing no_refs "t7" (demo_sched demo_awaiting) demo_approval in
  ∃ started q, launches (run_tick demo_clock demo_cfg print_nothing "t1" 60000000000 "a" ["wf-1"] db1)
                 = launches db1 ++ started ∧ q ∈ started ∧ q_task_id q = "coder".
Proof.
  set (db := demo_sched demo_awaiting).
  assert (is_Some (load_task_run db "wf-1" "coder")) as [t Ht]
    by (apply is_some_value; vm_compute; reflexivity).
  assert (task_id t = "coder" ∧ task_status t = TAwaitingApproval) as [Ei Es]
    by (vm_compute in Ht; injection Ht as <-; split; reflexivity).
  cbv zeta. set (db1 := unblock_task_on_approval _ _ _ _ _).
  assert (is_Some (load_workflow_run db1 "wf-1")) as [run Hr]
    by (apply is_some_value; vm_compute; reflexivity).
  destruct (approved_task_is_launched parse_nothing no_refs demo_clock demo_cfg parse_nothing print_nothing
    no_digest demo_awaiting "t7" "t1" 60000000000 "a" ["wf-1"] demo_approval "wf-1" t run)
    as (started & q & cp & L & Hq & Ek & _).
  - reflexivity.
  - by rewrite Ei.
  - reflexivity.
  - rewrite Ei. exact Ht.
  - by left.
  - apply is_some_value. vm_compute. reflexivity.
  - exact Hr.
  - vm_compute in Hr. injection Hr as <-. reflexivity.
  - intros w ->%list_elem_of_singleton. apply is_some_value. vm_compute. reflexivity.
  - by left.
  - rewrite Ei. vm_compute. reflexivity.
  - exists started, q. split; [exact L|]. split; [exact Hq|]. rewrite Ei in Ek.
    unfold queue_key in Ek. congruence.
Defined.
