(* ===== verification/ExecutionSpec.v ===== *)
(** * Executions and supervision: what they promise

    The status, the checkpoint and the queue an execution leaves when it ends,
    for every way it can end; the verdicts of the sweeper of stuck tasks; and
    that the reaper leaves no task of an orphaned session alive. *)

From Stdlib Require Import Ascii String Lia.
From stdpp Require Import prelude gmap strings list sorting.
From coqutil Require Import Datatypes.RecordSetters.
From S2P Require Import Prelude RustStr Json ContentStore ChildReply Workflow WorkflowStore.
From S2P Require Import WorkflowInv WorkflowEnd Scheduler Supervisor SchedulerInv SchedulerSpec.
Import DoubleBraceUpdate.

Open Scope string_scope.
Open Scope list_scope.

(** ** One task at rest *)

(** The status an update leaves: a refused one changes nothing. *)
Definition after_update (s target : TaskRunStatus) : TaskRunStatus :=
  if try_transition s target then target else s.

Record task_at (db : WorkflowDb) (wf tid : string) (s : TaskRunStatus) : Prop := {
  at_keyed : well_keyed db;
  at_run : is_Some (load_workflow_run db wf);
  at_task : ∃ t, load_task_run db wf tid = Some t ∧ task_status t = s;
}.

(** Neither queued nor claimed, and with this as its last step. *)
Record rests (db : WorkflowDb) (wf tid step : string) : Prop := {
  rests_queue : queue db !! (wf, tid) = None;
  rests_claims : claims db !! (wf, tid) = None;
  rests_step : ∃ cp, checkpoints db !! (wf, tid) = Some cp ∧ cp_step cp = step;
}.

Section Execution.
Context (extract : string → option Json) (refs : string → list string).

Lemma at_emit db e wf tid s : task_at db wf tid s → task_at (emit db e) wf tid s.
Proof. intros [K R T]. split; [by apply well_keyed_emit|done..]. Qed.

Lemma at_checkpoint db w i step state wf tid s :
  task_at db wf tid s → task_at (checkpoint_task db w i step state) wf tid s.
Proof. intros [[] R T]. by repeat split. Qed.

Lemma at_save now db wf tid s t :
  task_at db wf tid s → task_key t = (wf, tid) →
  ∃ db', save_task_run now db t = (db', Ok tt) ∧ task_at db' wf tid (task_status t) ∧
    load_task_run db' wf tid = Some t ∧ checkpoints db' = checkpoints db.
Proof.
  intros [K [run R] _] Hk. assert (task_workflow_id t = wf) as Hw by (unfold task_key in Hk; congruence).
  rewrite (save_task_run_ok now db t run) by (by rewrite Hw). eexists. split; [reflexivity|].
  assert (load_task_run (save_workflow_run (upsert_task_run db t) (track_active now run t)) wf tid = Some t)
    as Hl by (unfold load_task_run; rewrite <-Hk; apply lookup_insert_eq).
  split; [|by split]. split.
  - by apply well_keyed_save_run, well_keyed_upsert.
  - rewrite workflow_run_saved. case_decide; [by eexists|by exists run].
  - by exists t.
Qed.

Lemma at_update now db wf tid s target reply :
  task_at db wf tid s →
  ∃ db', update_task_run_status extract refs now None db wf tid target reply = (db', Ok tt) ∧
    task_at db' wf tid (after_update s target) ∧ checkpoints db' = checkpoints db.
Proof.
  intros [K R (t & Ht & Es)]. destruct (try_transition s target) eqn:Htr; unfold after_update; rewrite Htr.
  2:{ exists db. unfold update_task_run_status. rewrite Ht, Es, Htr. cbn [negb]. split; [done|].
      split; [|done]. split; eauto. }
  destruct (update_tasks extract refs now None db wf tid target reply t K Ht R)
    as (db1 & T & C & _ & K1 & R1 & _ & E); [by rewrite Es|].
  eexists. split; [exact E|]. set (t1 := updated_task _ _ _ _ _) in T.
  destruct (updated_task_fields now t target reply (evaluate_stage_retry t target reply)) as [_ Es1].
  fold t1 in Es1.
  assert (load_task_run db1 wf tid = Some t1) as Hl1 by (unfold load_task_run; rewrite T; apply lookup_insert_eq).
  destruct (is_terminal_for_join target) eqn:Hj; [|by split; [split; eauto|]].
  clearbody t1. destruct (wake_spec now db1 wf R1 K1) as (db2 & E2 & T2 & C2 & R2 & K2). rewrite E2. cbn [fst].
  split; [|by rewrite C2, C]. split; [done|done|]. exists t1. split; [|done].
  unfold load_task_run in *. rewrite T2, Hl1. cbn. destruct (ready db1 wf t1) eqn:Hr; [|by rewrite andb_false_r].
  unfold ready in Hr. bool_norm. match goal with H : parked _ _ _ = true |- _ => apply parked_paused in H end.
  assert (target = TPaused) as -> by congruence. done.
Qed.

(** Leaving the queue releases the claim. *)
Lemma dequeue_rests now db wf tid s step cp :
  task_at db wf tid s → checkpoints db !! (wf, tid) = Some cp → cp_step cp = step →
  task_at (dequeue_task now db wf tid) wf tid s ∧ rests (dequeue_task now db wf tid) wf tid step.
Proof.
  intros [K [run R] T] Hc Hs.
  assert (task_at (dequeue_task now db wf tid) wf tid s) as A.
  { split; [by apply well_keyed_dequeue|..].
    - apply (dr_keyed _ _ _ (dr_dequeue now db wf tid) K). by exists run.
    - unfold load_task_run. by rewrite dequeue_tasks. }
  split; [done|]. clear A.
  unfold dequeue_task. change (load_workflow_run (db{{ queue := _ }}) wf) with (load_workflow_run db wf).
  rewrite R. split; [apply lookup_delete_eq..|]. by exists cp.
Qed.

Lemma settle_spec now db wf tid s target summary step state :
  task_at db wf tid s →
  let db' := settle extract refs now db wf tid target summary step state in
  task_at db' wf tid (after_update s target) ∧ rests db' wf tid step.
Proof.
  intros A. unfold settle. destruct (at_update now db wf tid s target summary A) as (db1 & -> & A1 & _).
  cbn [fst]. eapply dequeue_rests; [by apply at_checkpoint|apply lookup_insert_eq|done].
Qed.

(** ** The end of an execution *)

Context (from_str : string → option Json) (json_to_string : Json → string)
        (sha256_hex : string → string).

(** The status a task has after its execution, and the step of its checkpoint. *)
Definition ended (t : TaskRun) (prev : option TaskCheckpoint) (pending : option string)
    (result : result SpawnResult SpawnError) : TaskRunStatus * string :=
  let s := task_status t in
  match result with
  | Ok r =>
      if bool_decide (is_Some (suspended_for_approval r))
         || suspended_for_user_input r && bool_decide (is_Some pending)
      then (after_update s TAwaitingApproval, "awaiting_approval")
      else if suspended_for_user_input r then (after_update s TPaused, "paused")
      else if suspended_for_child_wait r then (after_update s TPaused, child_wait_step)
      else (after_update s (derive_child_task_status from_str (assistant_reply r)), "completed")
  | Err e =>
      if is_context_overflow e
      then (after_update s (if already_retried prev then TFailed else TRunnable), "failed")
      else if retry_scheduled (evaluate_stage_retry t TFailed (Some (error_str e)))
      then (TRunnable, "retry_scheduled")
      else (after_update s TFailed, "failed")
  end.

Lemma outputs_at now db wf tid s r cnt :
  task_at db wf tid s → task_at (record_outputs now db wf tid r cnt) wf tid s.
Proof.
  intros A. pose proof A as [K R (t & Ht & Es)]. unfold record_outputs. rewrite Ht.
  destruct (_ || _); [|done].
  match goal with |- task_at (save_task_run now db ?x).1 _ _ _ => set (u := x) end.
  assert (task_key u = (wf, tid) ∧ task_status u = s) as [Ku Su].
  { rewrite <-Es, <-(task_keys _ K _ _ Ht). unfold u. by destruct (negb _), cnt. }
  destruct (at_save now db wf tid s u A Ku) as (db' & -> & A' & _). by rewrite Su in A'.
Qed.

Lemma rests_emit db e wf tid step : rests db wf tid step → rests (emit db e) wf tid step.
Proof. by intros []. Qed.

Lemma overflow_retry_spec now db wf tid session e s :
  task_at db wf tid s →
  let db' := overflow_retry extract refs now db wf tid session e in
  task_at db' wf tid (after_update s TRunnable) ∧ rests db' wf tid "failed".
Proof.
  intros A. unfold overflow_retry.
  set (db1 := emit db _). set (st := json_object _). set (db2 := checkpoint_task db1 wf tid "failed" st).
  assert (task_at db2 wf tid s) as A2 by (by apply at_checkpoint, at_emit).
  assert (∃ cp, checkpoints db2 !! (wf, tid) = Some cp ∧ cp_step cp = "failed") as (cp & C2 & Ecp)
    by (eexists; split; [apply lookup_insert_eq|done]).
  clearbody db2. pose proof A2 as [K2 R2 (t & Ht & Es)].
  set (merged := match default _ _ with JObject _ => _ | _ => _ end). clearbody merged.
  unfold update_task_run_metadata. rewrite Ht.
  match goal with |- context [save_task_run now db2 ?x] => set (u := x) end.
  assert (task_key u = (wf, tid) ∧ task_status u = s) as [Ku Su]
    by (rewrite <-Es, <-(task_keys _ K2 _ _ Ht); done).
  destruct (at_save now db2 wf tid s u A2 Ku) as (db3 & -> & A3 & _ & C3). rewrite Su in A3. cbn [fst].
  destruct (at_update now db3 wf tid s TRunnable (Some "overflow_recovery_retry") A3)
    as (db4 & -> & A4 & C4). cbn [fst].
  apply (dequeue_rests now db4 wf tid _ _ cp); [done|by rewrite C4, C3|done].
Qed.

Lemma fail_execution_spec now db wf tid session error s :
  task_at db wf tid s →
  let db' := fail_execution extract refs now db wf tid session error in
  task_at db' wf tid (after_update s TFailed) ∧ rests db' wf tid "failed".
Proof.
  intros A. unfold fail_execution.
  destruct (at_update now db wf tid s TFailed (Some error) A) as (db1 & -> & A1 & _). cbn [fst].
  set (st := json_object _). set (db2 := checkpoint_task db1 wf tid "failed" st).
  assert (task_at db2 wf tid (after_update s TFailed)) as A2 by (by apply at_checkpoint).
  eapply dequeue_rests; [by destruct (is_validation_error error); [apply at_emit|]| |].
  - destruct (is_validation_error error); apply lookup_insert_eq.
  - done.
Qed.

Lemma finish_execution_outcome now db d wf tid session prev pending result t :
  well_keyed db → is_Some (load_workflow_run db wf) → load_task_run db wf tid = Some t →
  let db' := (finish_execution extract refs from_str json_to_string sha256_hex now db d wf tid session
                prev pending result).1 in
  (∃ t', load_task_run db' wf tid = Some t' ∧ task_status t' = (ended t prev pending result).1) ∧
  rests db' wf tid (ended t prev pending result).2.
Proof.
  intros K R Ht.
  assert (task_at db wf tid (task_status t)) as A by (split; eauto).
  enough (∃ db0, (finish_execution extract refs from_str json_to_string sha256_hex now db d wf tid
      session prev pending result).1 = emit db0 (ActiveExecution tid "stopped") ∧
    task_at db0 wf tid (ended t prev pending result).1 ∧
    rests db0 wf tid (ended t prev pending result).2) as (db0 & -> & A0 & R0).
  { split; [apply A0|by apply rests_emit]. }
  unfold finish_execution, ended. destruct result as [r|e].
  - unfold suspend_for_input. destruct (suspended_for_approval r) as [req|].
    { eexists. split; [reflexivity|]. by apply settle_spec. }
    rewrite bool_decide_eq_false_2 by (by intros [? ?]). cbn [orb].
    destruct (suspended_for_user_input r); cbn [andb].
    { destruct pending as [req|]; (eexists; split; [reflexivity|]); by apply settle_spec. }
    destruct (suspended_for_child_wait r); [eexists; split; [reflexivity|]; by apply settle_spec|].
    unfold complete_task.
    set (dp := match assistant_reply r with Some _ => _ | None => _ end). destruct dp as [d' prepared].
    cbn [fst]. eexists. split; [reflexivity|]. by apply settle_spec, outputs_at.
  - cbn [fst]. eexists. split; [reflexivity|]. destruct (is_context_overflow e).
    { destruct (already_retried prev); [by apply settle_spec, at_emit|by apply overflow_retry_spec]. }
    unfold retry_or_fail. rewrite Ht. set (dec := evaluate_stage_retry _ _ _).
    destruct (retry_scheduled dec) eqn:Ed; [|by apply fail_execution_spec].
    unfold schedule_task_stage_retry. rewrite Ed, Ht. cbn [negb].
    set (u := stage_retry_task now t (Some (error_str e)) dec).
    assert (task_key u = (wf, tid) ∧ task_status u = TRunnable) as [Ku Su].
    { rewrite <-(task_keys _ K _ _ Ht). unfold u, stage_retry_task. by destruct (failure dec). }
    destruct (at_save now db wf tid _ u A Ku) as (db1 & -> & A1 & _). rewrite Su in A1.
    eapply dequeue_rests; [by apply at_checkpoint, at_emit|apply lookup_insert_eq|done].
Qed.

(** C15: However an execution ends, its task ends up off the queue, claimed by nobody, and
    with a checkpoint whose step says what happened: parked for what it waits for
    (an approval, the user, its children), ended with the outcome its reply
    reports, runnable again when its failure may be retried, or failed.  An outcome
    [try_transition] refuses leaves the status as it was: so a task that ended
    meanwhile keeps its verdict, unless a retry brings it back, and so a running
    task that overflows its context for the first time is left running, its step
    "failed": the code means to make it runnable for its one retry, and a
    running task may not become runnable. *)
Theorem execution_outcome_spec now db d wf tid session prev pending result t :
  well_keyed db → is_Some (load_workflow_run db wf) → load_task_run db wf tid = Some t →
  let db' := (finish_execution extract refs from_str json_to_string sha256_hex now db d wf tid session
                prev pending result).1 in
  (∃ t', load_task_run db' wf tid = Some t' ∧ task_status t' = (ended t prev pending result).1) ∧
  rests db' wf tid (ended t prev pending result).2 ∧
  (∀ e, result = Err e → is_context_overflow e = true → already_retried prev = false →
     task_status t = TRunning → ended t prev pending result = (TRunning, "failed")).
Proof.
  intros K R Ht. cbv zeta. apply and_assoc. split; [by apply finish_execution_outcome|].
  intros e -> He Hp Hs. unfold ended. by rewrite He, Hp, Hs.
Qed.


(** A decision that comes before the suspension it belongs to is recorded is lost:
    approving a request while its task still runs changes nothing, and when the
    execution then suspends for the approval, the task awaits it, off the queue, as
    if nobody had decided. *)
Theorem early_approval_is_lost now now2 db dec d wf tid session prev pending r request t :
  well_keyed db → is_Some (load_workflow_run db wf) → load_task_run db wf tid = Some t →
  task_status t = TRunning →
  dec_workflow_id dec = Some wf → dec_task_id dec = Some tid → dec_status dec = DApproved →
  suspended_for_approval r = Some request →
  let db1 := unblock_task_on_approval extract refs now db dec in
  let db2 := (finish_execution extract refs from_str json_to_string sha256_hex now2 db1 d wf tid
                session prev pending (Ok r)).1 in
  tasks db1 = tasks db ∧ queue db1 = queue db ∧
  (∃ t', load_task_run db2 wf tid = Some t' ∧ task_status t' = TAwaitingApproval) ∧
  rests db2 wf tid "awaiting_approval".
Proof.
  intros K R Ht Hs Hw Hi Hd Hr. cbn zeta.
  assert (∃ db0, unblock_task_on_approval extract refs now db dec = clear_blocked_approval now db0 wf ∧
    tasks db0 = tasks db ∧ queue db0 = queue db ∧ task_at db0 wf tid TRunning) as (db0 & E & T & Q & A).
  { unfold unblock_task_on_approval. rewrite Hw, Hi, Ht, Hs, Hd. cbn [is_terminal decided_task_status].
    unfold update_task_run_status.
    match goal with |- context [load_task_run ?x wf tid] => change (load_task_run x wf tid)
      with (load_task_run db wf tid) end.
    rewrite Ht, Hs. cbn [try_transition negb]. eexists. split; [reflexivity|]. split; [done|]. split; [done|].
    apply at_checkpoint, at_emit. split; eauto. }
  rewrite E. assert (keeps_tasks db0 (clear_blocked_approval now db0 wf)) as [KT _ KQ _ _ KK KR].
  { unfold clear_blocked_approval. repeat (case_match; try done); by apply kt_save_run. }
  set (db1 := clear_blocked_approval now db0 wf) in *. clearbody db1.
  split; [by rewrite KT|]. split; [by rewrite KQ|].
  assert (load_task_run db1 wf tid = Some t) as Ht1 by (unfold load_task_run; by rewrite KT, T).
  destruct (finish_execution_outcome now2 db1 d wf tid session prev pending (Ok r) t) as [H1 H2];
    [apply KK, A|apply KR, A|done|].
  unfold ended in *. rewrite Hr, Hs in *. by split.
Qed.

End Execution.

(** ** The sweeper *)

Section Sweeper.
Context (extract : string → option Json) (refs : string → list string)
        (parse_rfc3339 : string → option Z) (cfg : SchedulerConfig)
        (from_str : string → option Json) (json_to_string : Json → string)
        (sha256_hex : string → string).

Notation run_sched := (run_sched extract refs parse_rfc3339 cfg from_str json_to_string sha256_hex).
Notation sched_step := (sched_step extract refs parse_rfc3339 cfg from_str json_to_string sha256_hex).

(** A task that outlived its claim and the timeout, and whose session is known not
    to wait for a child. *)
Record hangs (now_ns : Z) (db : WorkflowDb) (wf : string) (t : TaskRun)
    (latest : result (option SessionCheckpoint) unit) : Prop := {
  hangs_running : task_status t = TRunning;
  hangs_elapsed : (stuck_timeout cfg ≤ task_elapsed_secs parse_rfc3339 now_ns t)%Z;
  hangs_claim : claim_fresh parse_rfc3339 now_ns db wf (task_id t) (stuck_timeout cfg) = false;
  hangs_latest : str_is_empty (task_session_id t) = true ∨
    ∃ o, latest = Ok o ∧ ∀ cp, o = Some cp → waiting_for_child cp = false;
}.

Lemma checkpoint_is_evidence t e cp : stuck_evidence t e (Some cp) ≠ [].
Proof. unfold stuck_evidence, checkpoint_evidence. by destruct (if str_is_empty _ then _ else _). Qed.

Lemma verdict_with_checkpoint now_ns db wf t latest e cp :
  checkpoints db !! (wf, task_id t) = Some cp →
  let v := stuck_verdict parse_rfc3339 cfg now_ns db wf t latest e in
  v = LeftAlone ∨ v = PauseInterrupted ∨
  ∃ summary, v = StuckEnd TSucceeded summary "stuck_auto_resolved" "task.stuck_resolved" [].
Proof.
  intros Hc. unfold stuck_verdict. rewrite Hc.
  destruct (negb _); [auto|]. destruct (_ && negb (is_ok latest)); [auto|].
  destruct (_ && match latest with Ok _ => _ | Err _ => _ end); [destruct (_ || _); auto|].
  destruct (_ || _); [auto|].
  rewrite (bool_decide_eq_false_2 (stuck_evidence _ _ _ = [])) by apply checkpoint_is_evidence.
  rewrite andb_false_r. eauto.
Qed.

Lemma hanging_verdict now_ns db wf t latest e cp :
  checkpoints db !! (wf, task_id t) = Some cp → hangs now_ns db wf t latest →
  ∃ summary, stuck_verdict parse_rfc3339 cfg now_ns db wf t latest e
             = StuckEnd TSucceeded summary "stuck_auto_resolved" "task.stuck_resolved" [].
Proof.
  intros Hc [Hr He Hcl Hl]. unfold stuck_verdict. rewrite Hc, Hcl.
  rewrite (bool_decide_eq_true_2 (task_status t = TRunning)) by done. cbn [negb].
  rewrite (bool_decide_eq_false_2 (task_elapsed_secs _ _ _ < _)%Z) by lia. cbn [orb].
  rewrite (bool_decide_eq_false_2 (stuck_evidence _ _ _ = [])) by apply checkpoint_is_evidence.
  rewrite andb_false_r.
  destruct Hl as [->|(o & -> & Ho)]; cbn [negb andb is_ok]; [by eexists|].
  rewrite andb_false_r. destruct o as [c|]; [rewrite (Ho c) by done|]; rewrite andb_false_r; by eexists.
Qed.

Lemma run_sched_checkpoints ops ops' k :
  is_Some (checkpoints (run_sched ops) !! k) → is_Some (checkpoints (run_sched (ops ++ ops')) !! k).
Proof.
  intros [cp H]. rewrite run_sched_app.
  destruct (sched_steps_grow extract refs parse_rfc3339 cfg from_str json_to_string sha256_hex ops'
    (run_sched ops)) as [_ G]; [apply run_sched_keyed|].
  destruct (gr_checkpoints _ _ G k cp H) as (cp' & H' & _). by exists cp'.
Qed.

(** Once a task has begun an execution, the sweeper never fails it, whatever
    happens in between and whatever the configuration says: the checkpoint every
    execution begins with counts as evidence of completion.  If the task hangs,
    its claim gone stale, the sweeper declares it succeeded. *)
Theorem begun_task_is_swept_as_succeeded ops now q ops' now_ns t latest e :
  let db := run_sched (ops ++ [(now, SBegin q)] ++ ops') in
  let v := stuck_verdict parse_rfc3339 cfg now_ns db (q_workflow_id q) t latest e in
  task_id t = q_task_id q →
  (∀ summary step event age, v ≠ StuckEnd TFailed summary step event age) ∧
  (hangs now_ns db (q_workflow_id q) t latest →
   ∃ summary, v = StuckEnd TSucceeded summary "stuck_auto_resolved" "task.stuck_resolved" []).
Proof.
  cbn zeta. intros Ei. rewrite app_assoc.
  destruct (run_sched_checkpoints (ops ++ [(now, SBegin q)]) ops' (q_workflow_id q, q_task_id q))
    as [cp Hcp].
  { unfold SchedulerInv.run_sched. rewrite fold_left_app. cbn [fold_left].
    eexists. unfold SchedulerInv.sched_step, begin_execution.
    by destruct (load_workflow_run _ _); apply lookup_insert_eq. }
  rewrite <-Ei in Hcp. split.
  - intros summary step event age.
    destruct (verdict_with_checkpoint now_ns _ _ t latest e cp Hcp) as [->|[->|[? ->]]]; congruence.
  - intros H. by eapply hanging_verdict.
Qed.

Lemma overflow_row now db wf tid session e t :
  well_keyed db → is_Some (load_workflow_run db wf) → load_task_run db wf tid = Some t →
  task_status t = TRunning →
  ∃ t1, load_task_run (overflow_retry extract refs now db wf tid session e) wf tid = Some t1 ∧
    task_id t1 = tid ∧ task_status t1 = TRunning ∧ task_updated_at t1 = now ∧
    task_session_id t1 = task_session_id t.
Proof.
  intros K R Ht Hs. unfold overflow_retry.
  set (db2 := checkpoint_task _ _ _ _ _).
  assert (task_at db2 wf tid TRunning) as A2 by (apply at_checkpoint, at_emit; split; eauto).
  assert (load_task_run db2 wf tid = Some t) as Ht2 by done. clearbody db2.
  set (merged := match default _ _ with JObject _ => _ | _ => _ end). clearbody merged.
  unfold update_task_run_metadata. rewrite Ht2.
  match goal with |- context [save_task_run now db2 ?x] => set (u := x) end.
  assert (task_key u = (wf, tid)) as Ku by (rewrite <-(task_keys _ K _ _ Ht); done).
  destruct (at_save now db2 wf tid _ u A2 Ku) as (db3 & -> & _ & Hu & _). cbn [fst].
  unfold update_task_run_status. rewrite Hu. change (task_status u) with (task_status t). rewrite Hs.
  cbn [try_transition negb fst]. exists u. unfold load_task_run in *. rewrite dequeue_tasks.
  split; [exact Hu|]. split; [unfold task_key in Ku; congruence|]. done.
Qed.

(** An agent that overflows its context is not run again, though the code asks
    for it: the task stays running, in no queue and claimed by nobody, since
    [try_transition] refuses to make a running task runnable; and when the
    timeout has passed the sweeper reports it as succeeded. *)
Theorem overflowed_task_is_reported_succeeded now now2 ns ns2 db d wf tid session prev pending e t
    latest ev :
  well_keyed db → is_Some (load_workflow_run db wf) → load_task_run db wf tid = Some t →
  task_status t = TRunning → is_context_overflow e = true → already_retried prev = false →
  parse_rfc3339 now = Some ns →
  (stuck_timeout cfg ≤ num_seconds ns2 ns < 2 ^ 64)%Z → (0 ≤ num_seconds ns2 ns)%Z →
  (∃ o, latest (task_session_id t) = Ok o ∧ ∀ cp, o = Some cp → waiting_for_child cp = false) →
  let db1 := (finish_execution extract refs from_str json_to_string sha256_hex now db d wf tid session
                prev pending (Err e)).1 in
  ∃ t1, load_task_run db1 wf tid = Some t1 ∧ task_status t1 = TRunning ∧
    queue db1 !! (wf, tid) = None ∧ claims db1 !! (wf, tid) = None ∧
    ∃ t2, load_task_run (sweep_task extract refs parse_rfc3339 cfg now2 ns2 latest ev wf db1 t1) wf tid
          = Some t2 ∧ task_status t2 = TSucceeded.
Proof.
  intros K R Ht Hs Ho Hp Hn Hto Hpos Hl. cbn zeta. unfold finish_execution. rewrite Ho, Hp. cbn [fst].
  assert (task_at db wf tid TRunning) as A by (split; eauto).
  destruct (overflow_retry_spec extract refs now db wf tid session e TRunning A)
    as [A1 [Q1 C1 (cp & P1 & _)]].
  destruct (overflow_row now db wf tid session e t K R Ht Hs) as (t1 & Ht1 & Ei & Hs1 & Hu & Hsess).
  set (db1 := overflow_retry _ _ _ _ _ _ _ _) in *. clearbody db1.
  exists t1. do 4 (split; [done|]).
  set (db2 := emit db1 _). assert (task_at db2 wf tid TRunning) as A2 by (by apply at_emit).
  unfold sweep_task.
  destruct (hanging_verdict ns2 db2 wf t1 (latest (task_session_id t1)) (ev t1) cp) as [summary ->].
  { by rewrite Ei. }
  { split; [done|..].
    - unfold task_elapsed_secs. rewrite Hu, Hn. unfold as_u64. rewrite Z.mod_small by lia. lia.
    - unfold claim_fresh. rewrite Ei. change (claims db2) with (claims db1). by rewrite C1.
    - right. by rewrite Hsess. }
  rewrite Ei. set (st := json_object _).
  destruct (settle_spec extract refs now2 db2 wf tid TRunning TSucceeded (Some summary)
    "stuck_auto_resolved" st A2) as [[_ _ (t2 & Ht2 & Es2)] _].
  exists t2. by split.
Qed.

End Sweeper.

(** ** The reaper *)

(** A loop over a snapshot of the tasks of a workflow that overwrites some rows. *)
Lemma fold_snapshot (g : WorkflowDb → TaskRun → WorkflowDb) (c : TaskRun → bool)
    (upd : TaskRun → TaskRun) wf db :
  (∀ db t, tasks (g db t) = if c t then <[task_key t := upd t]> (tasks db) else tasks db) →
  well_keyed db → ∀ k : Key,
  tasks (fold_left g (list_task_runs db wf) db) !! k
  = t ← tasks db !! k; Some (if bool_decide (k.1 = wf) && c t then upd t else t).
Proof.
  intros Hg Hk k.
  assert (∀ l db, (∀ t, t ∈ l → task_workflow_id t = wf) → NoDup (task_id <$> l) →
    tasks (fold_left g l db) !! k
    = match List.find (λ t, bool_decide (task_key t = k)) l with
      | Some t => if c t then Some (upd t) else tasks db !! k
      | None => tasks db !! k
      end) as Hloop.
  { clear Hk db. intros l. induction l as [|t l IH]; intros db Hw Hnd; [done|].
    cbn [fold_left List.find]. apply NoDup_cons in Hnd as [Hn Hnd].
    rewrite IH by (try done; intros u Hu; apply Hw; by right). rewrite (Hg db t).
    case_bool_decide as E.
    - destruct (List.find _ l) as [u|] eqn:Ef.
      + apply List.find_some in Ef as [Hu Eu]. apply bool_decide_eq_true_1 in Eu. exfalso. apply Hn.
        assert (task_id t = task_id u) as -> by (unfold task_key in *; congruence).
        apply list_elem_of_fmap_2. by apply list_elem_of_In.
      + destruct (c t); [|done]. rewrite E. apply lookup_insert_eq.
    - destruct (c t); [|done]. rewrite lookup_insert_ne by done. done. }
  rewrite Hloop; [|by intros t (?&?)%listed_task|by apply NoDup_task_ids].
  destruct (List.find _ (list_task_runs db wf)) as [t|] eqn:Ef.
  - apply List.find_some in Ef as [Ht Ek]. apply bool_decide_eq_true_1 in Ek.
    apply list_elem_of_In, listed_task in Ht as [Ht Hw]; [|done].
    assert (k = (wf, task_id t)) as -> by (rewrite <-Ek; unfold task_key; by rewrite Hw).
    unfold load_task_run in Ht. rewrite Ht. cbn. rewrite bool_decide_eq_true_2 by done. cbn. by destruct (c t).
  - destruct (tasks db !! k) as [t|] eqn:Et; [|done]. cbn. case_bool_decide as Ew; [|done]. exfalso.
    pose proof (task_keys _ Hk _ _ Et) as Ek.
    assert (t ∈ list_task_runs db wf) as Hin.
    { apply elem_of_list_task_runs. exists k.2. unfold load_task_run. rewrite <-Ew. by destruct k. }
    apply list_elem_of_In in Hin. apply (List.find_none _ _ Ef) in Hin.
    by rewrite bool_decide_eq_true_2 in Hin.
Qed.

Section Reaper.
Context (now : string) (open_gate : string → bool).

(** The tasks in [S] are cancelled and off the queue, the others are as they were. *)
Record reaps (S : Key → TaskRun → bool) (db db' : WorkflowDb) : Prop := {
  reaps_keyed : well_keyed db → well_keyed db';
  reaps_tasks k t : tasks db !! k = Some t →
    if S k t then tasks db' !! k = Some (abandoned now t) ∧ queue db' !! k = None
    else tasks db' !! k = Some t;
  reaps_queue k : queue db !! k = None → queue db' !! k = None;
}.

Lemma reaps_trans S1 S2 db db1 db2 :
  (∀ k t, S2 k (abandoned now t) = false) → reaps S1 db db1 → reaps S2 db1 db2 →
  reaps (λ k t, S1 k t || S2 k t) db db2.
Proof.
  intros HS [K1 T1 Q1] [K2 T2 Q2]. split; [auto| |auto].
  intros k t Ht. specialize (T1 k t Ht). destruct (S1 k t); cbn [orb]; [|by apply T2].
  destruct T1 as [T1 Hq]. specialize (T2 k _ T1). rewrite HS in T2. split; [done|auto].
Qed.

Lemma reaps_ext S S' db db' : (∀ k t, S k t = S' k t) → reaps S db db' → reaps S' db db'.
Proof. intros E [K T Q]. split; [done| |done]. intros k t. rewrite <-E. apply T. Qed.

Lemma reaps_nothing db : reaps (λ _ _, false) db db.
Proof. by split. Qed.

(** A loop whose turns reap. *)
Lemma fold_reaps {A} (f : WorkflowDb → A → WorkflowDb) (S : A → Key → TaskRun → bool) l db :
  (∀ x k t, S x k (abandoned now t) = false) →
  (∀ db x, well_keyed db → reaps (S x) db (f db x)) → well_keyed db →
  reaps (λ k t, existsb (λ x, S x k t) l) db (fold_left f l db).
Proof.
  intros HS Hf. revert db. induction l as [|x l IH]; intros db Hk; [apply reaps_nothing|].
  cbn [existsb fold_left]. eapply reaps_trans; [|by apply Hf|apply IH; by apply (Hf db x)].
  intros k t. cbn beta. apply not_true_iff_false. intros (y & _ & Hy)%List.existsb_exists.
  cbn beta in Hy. by rewrite HS in Hy.
Qed.

Definition in_workflow (child wf : string) (k : Key) (t : TaskRun) : bool :=
  bool_decide (k.1 = wf) && reapable child t.

Lemma reap_workflow_spec child db wf :
  well_keyed db → reaps (in_workflow child wf) db (reap_workflow now child open_gate db wf).
Proof.
  intros Hk. unfold reap_workflow.
  pose proof (reap_fold now child open_gate (list_task_runs db wf) db []) as E.
  destruct (fold_left _ _ (db, [])) as [db1 ids]. cbn [fst] in E.
  enough (reaps (in_workflow child wf) db db1) as H.
  { case_bool_decide; [done|]. destruct H. split; [intros; apply well_keyed_emit; auto|done..]. }
  subst db1. set (g := reap_write now child open_gate).
  assert (∀ l d, (well_keyed d → well_keyed (fold_left g l d)) ∧
    (∀ k, queue d !! k = None → queue (fold_left g l d) !! k = None) ∧
    ∀ t, t ∈ l → reapable child t = true → queue (fold_left g l d) !! task_key t = None) as Hq.
  { intros l. induction l as [|t l IH]; intros d; cbn [fold_left].
    { split_and!; [done..|by intros ? ?%not_elem_of_nil]. }
    pose proof (reap_write_cases now child open_gate d t) as H. fold g in H.
    destruct (IH (g d t)) as (K & Q & D).
    destruct (reapable child t) eqn:Er.
    - destruct H as (_ & HK & _ & HD & HQ). split_and!; [auto..|].
      intros u [->|Hu]%elem_of_cons Hr; auto.
    - rewrite H in *. split_and!; [done..|]. intros u [->|Hu]%elem_of_cons Hr; [congruence|auto]. }
  destruct (Hq (list_task_runs db wf) db) as (HK & HQ & HD). split; [done| |done].
  intros k t Ht.
  assert (tasks (fold_left g (list_task_runs db wf) db) !! k
          = Some (if in_workflow child wf k t then abandoned now t else t)) as Hl.
  { rewrite (fold_snapshot g (reapable child) (abandoned now) wf db); [by rewrite Ht| |done].
    intros d u. pose proof (reap_write_cases now child open_gate d u) as H.
    destruct (reapable child u); [by destruct H|by unfold g; rewrite H]. }
  destruct (in_workflow child wf k t) eqn:Ew; [|done]. split; [done|].
  unfold in_workflow in Ew. apply andb_true_iff in Ew as [Ew%bool_decide_eq_true_1 Er].
  pose proof (task_keys _ Hk _ _ Ht) as Ek. rewrite <-Ek. apply HD; [|done].
  apply elem_of_list_task_runs. exists k.2. unfold load_task_run. rewrite <-Ew. by destruct k.
Qed.

Lemma not_reapable_twice child wf k t : in_workflow child wf k (abandoned now t) = false.
Proof. unfold in_workflow, reapable. cbn. by rewrite !andb_false_r. Qed.

Lemma reap_session_spec dirs db child :
  well_keyed db →
  reaps (λ k t, existsb (λ wf, in_workflow child wf k t) dirs) db
    (reap_session now open_gate dirs db child).
Proof.
  intros Hk. unfold reap_session. set (db1 := emit (emit db _) _).
  assert (well_keyed db1) as K1 by (by do 2 apply well_keyed_emit).
  pose proof (fold_reaps (reap_workflow now child open_gate) (in_workflow child) dirs db1
    (not_reapable_twice child) (reap_workflow_spec child) K1) as [K T Q].
  split; [|exact T|exact Q]. intros _. by apply well_keyed_emit, K.
Qed.

Lemma reap_all_spec dirs db orphans :
  well_keyed db →
  reaps (λ k t, existsb (λ child, existsb (λ wf, in_workflow child wf k t) dirs) orphans) db
    (reap_orphaned_sessions now open_gate dirs db orphans).
Proof.
  intros Hk. apply (fold_reaps (reap_session now open_gate dirs)
    (λ child k t, existsb (λ wf, in_workflow child wf k t) dirs)); [|intros; by apply reap_session_spec|done].
  intros child k t. apply not_true_iff_false. intros (wf & _ & H)%List.existsb_exists.
  cbn beta in H. by rewrite not_reapable_twice in H.
Qed.

End Reaper.

(** Of the sessions whose parent is terminated, the reaper leaves no task alive in
    the workflows it visits: what had not ended is cancelled and off the queue.
    Every other task stays exactly as it was. *)
Theorem orphans_are_reaped extract refs parse_rfc3339 cfg from_str json_to_string sha256_hex ops now
    open_gate dirs orphans k t :
  let db := run_sched extract refs parse_rfc3339 cfg from_str json_to_string sha256_hex ops in
  let db' := reap_orphaned_sessions now open_gate dirs db orphans in
  tasks db !! k = Some t →
  if bool_decide (k.1 ∈ dirs ∧ task_session_id t ∈ orphans) && negb (is_terminal (task_status t))
  then tasks db' !! k = Some (abandoned now t) ∧ queue db' !! k = None
  else tasks db' !! k = Some t.
Proof.
  cbn zeta. intros Ht.
  pose proof (run_sched_keyed extract refs parse_rfc3339 cfg from_str json_to_string sha256_hex ops) as Hk.
  pose proof (reaps_tasks _ _ _ _ (reap_all_spec now open_gate dirs _ orphans Hk) k t Ht) as H.
  cbn beta in H. set (b := existsb _ orphans) in H.
  assert (b = bool_decide (k.1 ∈ dirs ∧ task_session_id t ∈ orphans) && negb (is_terminal (task_status t)))
    as <-; [|done].
  apply eq_true_iff_eq. unfold b. rewrite andb_true_iff, bool_decide_eq_true, existsb_true.
  setoid_rewrite existsb_true. unfold in_workflow, reapable. setoid_rewrite andb_true_iff.
  setoid_rewrite andb_true_iff. setoid_rewrite bool_decide_eq_true. setoid_rewrite String.eqb_eq.
  naive_solver.
Qed.

(** ** Examples *)

Definition demo_disk : Disk := empty_disk [].

Definition demo_result (reply : string) : SpawnResult :=
  {| assistant_reply := Some reply; suspended_for_approval := None; suspended_for_user_input := false;
     suspended_for_child_wait := false; file_names := []; artifact_files := [] |}.

Definition demo_suspended : SpawnResult :=
  (demo_result ""){{ suspended_for_approval := Some "apr-1" }}.

Definition overflow : SpawnError :=
  {| error_str := "turn failed"; error_chain := "turn failed: context_overflow: 210000 tokens" |}.

Lemma demo_db_keyed : well_keyed demo_db.
Proof. apply (run_well_keyed parse_nothing no_refs demo_ops). Qed.

Lemma demo_coder : ∃ t, load_task_run demo_db "wf-1" "coder" = Some t ∧ task_status t = TRunning ∧
  task_session_id t = "root/planner/coder".
Proof.
  assert (is_Some (load_task_run demo_db "wf-1" "coder")) as [t Ht]
    by (apply is_some_value; vm_compute; reflexivity).
  exists t. split; [exact Ht|]. vm_compute in Ht. injection Ht as <-. by split.
Qed.

Lemma demo_run : is_Some (load_workflow_run demo_db "wf-1").
Proof. apply is_some_value. vm_compute. reflexivity. Qed.

(** A failure that may be retried, and a success. *)
Lemma execution_outcome_spec_witness :
  let finish := finish_execution parse_nothing no_refs parse_nothing print_nothing no_digest "t9" demo_db
                  demo_disk "wf-1" "coder" "root/planner/coder" None None in
  let failed := finish (Err {| error_str := "503 service unavailable"; error_chain := "" |}) in
  let done := finish (Ok (demo_result "all good")) in
  demo_status failed.1 "coder" = Some TRunnable ∧ rests failed.1 "wf-1" "coder" "retry_scheduled" ∧
  demo_status done.1 "coder" = Some TSucceeded ∧ rests done.1 "wf-1" "coder" "completed".
Proof.
  cbv zeta. destruct demo_coder as (t & Ht & Hs & _).
  assert (retry_scheduled (evaluate_stage_retry t TFailed (Some "503 service unavailable")) = true) as Er
    by (vm_compute in Ht; injection Ht as <-; reflexivity).
  destruct (execution_outcome_spec parse_nothing no_refs parse_nothing print_nothing no_digest "t9"
    demo_db demo_disk "wf-1" "coder" "root/planner/coder" None None
    (Err {| error_str := "503 service unavailable"; error_chain := "" |}) t demo_db_keyed demo_run Ht)
    as [(t1 & Ht1 & E1) [R1 _]].
  destruct (execution_outcome_spec parse_nothing no_refs parse_nothing print_nothing no_digest "t9"
    demo_db demo_disk "wf-1" "coder" "root/planner/coder" None None (Ok (demo_result "all good")) t
    demo_db_keyed demo_run Ht) as [(t2 & Ht2 & E2) [R2 _]].
  unfold ended in *. cbn [error_str is_context_overflow error_chain] in *.
  rewrite Er in *. rewrite Hs in *. unfold demo_status. rewrite Ht1, Ht2. cbn [fmap option_fmap option_map].
  rewrite E1, E2. split; [reflexivity|]. split; [exact R1|]. split; [reflexivity|exact R2].
Defined.

Lemma early_approval_is_lost_witness :
  let db1 := unblock_task_on_approval parse_nothing no_refs "t8" demo_db demo_approval in
  let db2 := (finish_execution parse_nothing no_refs parse_nothing print_nothing no_digest "t9" db1 demo_disk
                "wf-1" "coder" "root/planner/coder" None None (Ok demo_suspended)).1 in
  demo_status db2 "coder" = Some TAwaitingApproval ∧ rests db2 "wf-1" "coder" "awaiting_approval".
Proof.
  cbv zeta. destruct demo_coder as (t & Ht & Hs & _).
  destruct (early_approval_is_lost parse_nothing no_refs parse_nothing print_nothing no_digest "t8" "t9"
    demo_db demo_approval demo_disk "wf-1" "coder" "root/planner/coder" None None
    demo_suspended "apr-1" t demo_db_keyed demo_run Ht Hs
    eq_refl eq_refl eq_refl eq_refl) as (_ & _ & (t2 & Ht2 & E2) & R2).
  unfold demo_status. rewrite Ht2. cbn [fmap option_fmap option_map]. rewrite E2. by split.
Defined.

Definition no_evidence (t : TaskRun) : SessionEvidence :=
  {| session_files := None; implicit_artifact := false |}.

(** An hour later, without a claim. *)
Definition demo_hung : list (string * SchedOp) :=
  stored demo_ops ++ [("t6", SBegin (demo_queued "coder"))] ++ [].

Lemma begun_task_is_swept_as_succeeded_witness :
  let t := demo_row "coder" "root/planner/coder" "root/planner" TRunning in
  ∃ summary, stuck_verdict demo_clock demo_cfg 3600000000000 (demo_sched demo_hung) "wf-1" t (Ok None)
               (no_evidence t)
             = StuckEnd TSucceeded summary "stuck_auto_resolved" "task.stuck_resolved" [].
Proof.
  cbv zeta. apply (begun_task_is_swept_as_succeeded parse_nothing no_refs demo_clock demo_cfg parse_nothing
    print_nothing no_digest (stored demo_ops) "t6" (demo_queued "coder") [] 3600000000000
    (demo_row "coder" "root/planner/coder" "root/planner" TRunning) (Ok None)); [reflexivity|].
  split; [reflexivity|vm_compute; discriminate|vm_compute; reflexivity|].
  right. exists None. by split.
Defined.

Lemma overflowed_task_is_reported_succeeded_witness :
  let latest (s : string) : result (option SessionCheckpoint) unit := Ok None in
  let db1 := (finish_execution parse_nothing no_refs parse_nothing print_nothing no_digest "t1" demo_db
                demo_disk "wf-1" "coder" "root/planner/coder" None None (Err overflow)).1 in
  ∃ t1, load_task_run db1 "wf-1" "coder" = Some t1 ∧ task_status t1 = TRunning ∧
    demo_status (sweep_task parse_nothing no_refs demo_clock demo_cfg "t9" 3600000000000 latest no_evidence
                   "wf-1" db1 t1) "coder" = Some TSucceeded.
Proof.
  cbv zeta. destruct demo_coder as (t & Ht & Hs & Esess).
  destruct (overflowed_task_is_reported_succeeded parse_nothing no_refs demo_clock demo_cfg parse_nothing
    print_nothing no_digest "t1" "t9" 60000000000 3600000000000 demo_db demo_disk "wf-1" "coder"
    "root/planner/coder" None None overflow t (λ _, Ok None) no_evidence demo_db_keyed demo_run Ht Hs
    eq_refl eq_refl eq_refl) as (t1 & Ht1 & Hs1 & _ & _ & t2 & Ht2 & Hs2).
  - vm_compute. split; [discriminate|reflexivity].
  - vm_compute. discriminate.
  - exists None. by split.
  - exists t1. split; [exact Ht1|]. split; [exact Hs1|]. unfold demo_status. rewrite Ht2.
    cbn [fmap option_fmap option_map]. by rewrite Hs2.
Defined.

Lemma orphans_are_reaped_witness :
  let db' := reap_orphaned_sessions "t9" (λ _, false) ["wf-1"] (demo_sched (stored demo_ops))
               ["root/planner/coder"] in
  demo_status db' "coder" = Some TCancelled ∧ queue db' !! ("wf-1", "coder") = None.
Proof.
  cbv zeta.
  assert (is_Some (tasks (demo_sched (stored demo_ops)) !! ("wf-1", "coder"))) as [t Ht]
    by (apply is_some_value; vm_compute; reflexivity).
  pose proof (orphans_are_reaped parse_nothing no_refs demo_clock demo_cfg parse_nothing print_nothing
    no_digest (stored demo_ops) "t9" (λ _, false) ["wf-1"] ["root/planner/coder"] ("wf-1", "coder") t Ht) as H.
  cbv zeta in H.
  assert (bool_decide (("wf-1", "coder").1 ∈ ["wf-1"] ∧ task_session_id t ∈ ["root/planner/coder"])
    && negb (is_terminal (task_status t)) = true) as Hb
    by (vm_compute in Ht; injection Ht as <-; vm_compute; reflexivity).
  rewrite Hb in H. destruct H as [Ht' Hq]. split; [|exact Hq].
  unfold demo_status, load_task_run.
  change (demo_sched (stored demo_ops)) with (run_sched parse_nothing no_refs demo_clock demo_cfg
    parse_nothing print_nothing no_digest (stored demo_ops)).
  rewrite Ht'. reflexivity.
Defined.
