(* ===== verification/Promotion.v ===== *)
(** * Promotion verdicts

    What the gateway knows about the review of an artifact: the role verdicts
    of autonoetic-types/src/promotion.rs, the registry of
    runtime/promotion_store.rs, the execution evidence of
    runtime/promotion_evidence.rs, the tool that records a verdict
    (runtime/tools/promotion.rs) and the carry-forward of a verdict to a rebuilt
    artifact (runtime/federation_carry_forward.rs).

    The fields [<role>_id], [<role>_pass], [<role>_findings],
    [<role>_timestamp] and [<role>_execution_trace_id] of a record are grouped
    in a [RoleSlot] per role; the trace field of the auditor, which the source
    does not have, is never written.  A [PromotionStore] is the map it has in
    memory; the registry file is the map [save] wrote last.  Reads and writes of
    the file succeed. *)

From Stdlib Require Import Ascii String Lia.
From stdpp Require Import prelude gmap strings list sorting.
From coqutil Require Import Datatypes.RecordSetters.
From S2P Require Import Prelude RustStr.
Import DoubleBraceUpdate.

Open Scope string_scope.
Open Scope nat_scope.
Open Scope list_scope.

(** ** Findings, roles and records *)

Inductive FindingSeverity : Type := SevInfo | SevWarning | SevError | SevCritical.

#[export] Instance finding_severity_eq_dec : EqDecision FindingSeverity.
Proof. solve_decision. Defined.

Record Finding := {
  severity : FindingSeverity;
  description : string;
  evidence : option string;
}.

Inductive PromotionRole : Type :=
| Evaluator | Auditor | StaticEvaluator | UnitTestRunner | SealedEvaluator.

#[export] Instance promotion_role_eq_dec : EqDecision PromotionRole.
Proof. solve_decision. Defined.

Definition role_as_str (r : PromotionRole) : string :=
  match r with
  | Evaluator => "evaluator"
  | Auditor => "auditor"
  | StaticEvaluator => "static_evaluator"
  | UnitTestRunner => "unit_test_runner"
  | SealedEvaluator => "sealed_evaluator"
  end.

Definition for_agent_id (agent_id : string) : option PromotionRole :=
  let base := default agent_id (head (split (Ascii.eqb ".") agent_id)) in
  if (base =? "evaluator")%string then Some Evaluator
  else if (base =? "auditor")%string then Some Auditor
  else if (base =? "static_evaluator")%string then Some StaticEvaluator
  else if (base =? "unit_test_runner")%string then Some UnitTestRunner
  else if (base =? "sealed_evaluator")%string then Some SealedEvaluator
  else None.

(** The fields of one role of [PromotionRecord]. *)
Record RoleSlot := {
  slot_id : option string;
  pass : bool;
  findings : list Finding;
  timestamp : option string;
  execution_trace_id : option string;
}.

Definition empty_slot : RoleSlot :=
  {| slot_id := None; pass := false; findings := []; timestamp := None; execution_trace_id := None |}.

Record ResolvedPackage := { pkg_name : string; pkg_version : string }.

Record RoleCarryProvenance := {
  prior_artifact_ref : string;
  prior_artifact_id : string;
  original_agent_id : string;
  verified_at : string;
  prior_code_digest : option string;
  prior_contract_digest : option string;
  justification : option string;
  strictness_used : option string;
}.

Record PromotionRecord := {
  pr_artifact_id : string;
  artifact_digest : option string;
  pr_content_digest : option string;
  evaluator : RoleSlot;
  auditor : RoleSlot;
  static_evaluator : RoleSlot;
  unit_test_runner : RoleSlot;
  sealed_evaluator : RoleSlot;
  promotion_gate_version : string;
  blessed_packages : list ResolvedPackage;
  code_digest : option string;
  contract_digest : option string;
  prose_digest : option string;
  carried_roles : gmap string RoleCarryProvenance;
}.

Definition role_slot (r : PromotionRole) (p : PromotionRecord) : RoleSlot :=
  match r with
  | Evaluator => evaluator p
  | Auditor => auditor p
  | StaticEvaluator => static_evaluator p
  | UnitTestRunner => unit_test_runner p
  | SealedEvaluator => sealed_evaluator p
  end.

Definition set_role_slot (r : PromotionRole) (s : RoleSlot) (p : PromotionRecord) : PromotionRecord :=
  match r with
  | Evaluator => p{{ evaluator := s }}
  | Auditor => p{{ auditor := s }}
  | StaticEvaluator => p{{ static_evaluator := s }}
  | UnitTestRunner => p{{ unit_test_runner := s }}
  | SealedEvaluator => p{{ sealed_evaluator := s }}
  end.

(** The [match role] of the accessors below. *)
Definition parse_role (role : string) : option PromotionRole :=
  if (role =? "evaluator")%string then Some Evaluator
  else if (role =? "auditor")%string then Some Auditor
  else if (role =? "static_evaluator")%string then Some StaticEvaluator
  else if (role =? "unit_test_runner")%string then Some UnitTestRunner
  else if (role =? "sealed_evaluator")%string then Some SealedEvaluator
  else None.

Definition get_role_result (p : PromotionRecord) (role : string) : option (bool * list Finding) :=
  r ← parse_role role; Some (pass (role_slot r p), findings (role_slot r p)).

Definition is_some {A} (o : option A) : bool := match o with Some _ => true | None => false end.

Definition has_role_verdict (p : PromotionRecord) (role : string) : bool :=
  match parse_role role with Some r => is_some (slot_id (role_slot r p)) | None => false end.

Definition roles_with_verdicts (p : PromotionRecord) : list string :=
  (if is_some (slot_id (evaluator p)) then ["evaluator"] else []) ++
  (if is_some (slot_id (auditor p)) then ["auditor"] else []) ++
  (if is_some (slot_id (static_evaluator p)) then ["static_evaluator"] else []) ++
  (if is_some (slot_id (unit_test_runner p)) then ["unit_test_runner"] else []) ++
  (if is_some (slot_id (sealed_evaluator p)) then ["sealed_evaluator"] else []).

(** ** The registry: promotion_store.rs *)

Abbreviation Registry := (gmap string PromotionRecord).

Definition clear_role_evidence (p : PromotionRecord) : PromotionRecord :=
  p{{ evaluator := empty_slot; auditor := empty_slot; static_evaluator := empty_slot;
      unit_test_runner := empty_slot; sealed_evaluator := empty_slot }}.

(** The record [record_promotion] creates for an unknown artifact. *)
Definition new_promotion_record (artifact_id : string) (art_digest content : option string)
    : PromotionRecord :=
  {| pr_artifact_id := artifact_id; artifact_digest := art_digest; pr_content_digest := content;
     evaluator := empty_slot; auditor := empty_slot; static_evaluator := empty_slot;
     unit_test_runner := empty_slot; sealed_evaluator := empty_slot;
     promotion_gate_version := "2.2"; blessed_packages := [];
     code_digest := None; contract_digest := None; prose_digest := None; carried_roles := ∅ |}.

(** A digest other than the bound one is a new subject of review. *)
Definition rebind_content_digest (content : string) (p : PromotionRecord) : PromotionRecord :=
  if bool_decide (pr_content_digest p = Some content) then p
  else (if is_some (pr_content_digest p) then clear_role_evidence p else p)
       {{ pr_content_digest := Some content }}.

Definition write_role_verdict (role : PromotionRole) (agent_id : string) (ok : bool)
    (fs : list Finding) (now : string) (trace : option string) (p : PromotionRecord)
    : PromotionRecord :=
  set_role_slot role
    {| slot_id := Some agent_id; pass := ok; findings := fs; timestamp := Some now;
       execution_trace_id :=
         match role with Auditor => execution_trace_id (auditor p) | _ => trace end |} p.

Definition record_promotion (artifact_id : string) (art_digest content : option string)
    (role : PromotionRole) (agent_id : string) (ok : bool) (fs : list Finding)
    (trace : option string) (now : string) (st : Registry) : Registry * PromotionRecord :=
  let p := default (new_promotion_record artifact_id art_digest content) (st !! artifact_id) in
  let p := match art_digest with Some d => p{{ artifact_digest := Some d }} | None => p end in
  let p := match content with Some c => rebind_content_digest c p | None => p end in
  let p := write_role_verdict role agent_id ok fs now trace p in
  (<[artifact_id := p]> st, p).

Definition set_blessed_packages (artifact_id : string) (packages : list ResolvedPackage)
    (st : Registry) : Registry * bool :=
  match st !! artifact_id with
  | None => (st, false)
  | Some p => (<[artifact_id := p{{ blessed_packages := packages }}]> st, true)
  end.

Definition bind_content_digest_if_unset (artifact_id content : string) (st : Registry)
    : Registry * bool :=
  match st !! artifact_id with
  | None => (st, false)
  | Some p => match pr_content_digest p with
              | None => (<[artifact_id := p{{ pr_content_digest := Some content }}]> st, true)
              | Some _ => (st, false)
              end
  end.

Definition reconcile_content_digest_for_revision (artifact_id content : string) (st : Registry)
    : Registry * bool :=
  match st !! artifact_id with
  | None => (st, false)
  | Some p => if bool_decide (pr_content_digest p = Some content) then (st, false)
              else (<[artifact_id := rebind_content_digest content p]> st, true)
  end.

Definition has_passed (artifact_id : string) (role : PromotionRole) (st : Registry) : bool :=
  match st !! artifact_id with
  | Some p => match get_role_result p (role_as_str role) with Some (ok, _) => ok | None => false end
  | None => false
  end.

Definition has_federation_roles (artifact_id : string) (st : Registry) : bool :=
  match st !! artifact_id with
  | Some p => is_some (slot_id (static_evaluator p)) || is_some (slot_id (unit_test_runner p))
  | None => false
  end.

Definition federation_agent_ids (artifact_id : string) (st : Registry) : list string :=
  match st !! artifact_id with
  | Some p => option_list (slot_id (static_evaluator p)) ++ option_list (slot_id (unit_test_runner p))
              ++ option_list (slot_id (sealed_evaluator p))
  | None => []
  end.

Definition is_fully_promoted (artifact_id : string) (st : Registry) : bool :=
  match st !! artifact_id with
  | Some p =>
      (pass (evaluator p) || pass (sealed_evaluator p) || pass (static_evaluator p))
      && pass (auditor p)
      && (match slot_id (unit_test_runner p) with Some _ => pass (unit_test_runner p) | None => true end)
  | None => false
  end.

Definition set_federation_digests (artifact_id : string) (code contract prose : option string)
    (st : Registry) : Registry :=
  match st !! artifact_id with
  | Some p => <[artifact_id := p{{ code_digest := code; contract_digest := contract;
                                   prose_digest := prose }}]> st
  | None => st
  end.

(** The second half of [record_carried_verdict]: provenance and digests. *)
Definition attach_provenance (role : PromotionRole) (provenance : RoleCarryProvenance)
    (code contract prose : option string) (p : PromotionRecord) : PromotionRecord :=
  p{{ carried_roles := <[role_as_str role := provenance]> (carried_roles p);
      code_digest := match code with Some _ => code | None => code_digest p end;
      contract_digest := match contract with Some _ => contract | None => contract_digest p end;
      prose_digest := match prose with Some _ => prose | None => prose_digest p end }}.

Definition record_carried_verdict (new_artifact_id : string) (role : PromotionRole)
    (prior : PromotionRecord) (provenance : RoleCarryProvenance)
    (code contract prose : option string) (now : string) (st : Registry)
    : Registry * option PromotionRecord :=
  if negb (has_role_verdict prior (role_as_str role)) then (st, None)
  else
    let s := role_slot role prior in
    let agent := default (role_as_str role) (slot_id s) in
    let '(st, _) := record_promotion new_artifact_id (artifact_digest prior)
                      (pr_content_digest prior) role agent (pass s) (findings s) None now st in
    match st !! new_artifact_id with
    | Some p => let p := attach_provenance role provenance code contract prose p in
                (<[new_artifact_id := p]> st, Some p)
    | None => (st, None)
    end.

(** ** Execution evidence: promotion_evidence.rs *)

(** The fields of an execution trace the gates read. *)
Record ExecutionTraceRecord := {
  trace_id : string;
  exit_code : option Z;
  success : Z;
}.

Definition role_requires_execution_trace (r : PromotionRole) : bool :=
  match r with Evaluator | UnitTestRunner | SealedEvaluator => true | _ => false end.

Definition trace_indicates_pass (t : ExecutionTraceRecord) : bool :=
  bool_decide (exit_code t = Some 0%Z) && bool_decide (success t = 1%Z).

Definition auditor_critical_veto (fs : list Finding) : bool :=
  existsb (λ f, bool_decide (severity f = SevCritical)) fs.

Definition findings_block_explicit_pass (fs : list Finding) : bool :=
  existsb (λ f, match severity f with SevError | SevCritical => true | _ => false end) fs.

Definition execution_trace_id_for_role (p : PromotionRecord) (role : string) : option string :=
  match parse_role role with
  | Some Auditor | None => None
  | Some r => execution_trace_id (role_slot r p)
  end.

Definition execution_role_passed_with_trace (p : PromotionRecord) (role : string)
    (t : ExecutionTraceRecord) : bool :=
  match execution_trace_id_for_role p role with
  | None => false
  | Some stored => (stored =? trace_id t)%string && trace_indicates_pass t
  end.

Section Evidence.
(** The rows of [execution_traces]. *)
Context (get_execution_trace : string → option ExecutionTraceRecord).

Definition verify_role_trace (s : RoleSlot) : option string :=
  if negb (pass s) then None
  else match execution_trace_id s with
       | None | Some "" => Some "missing_execution_evidence"
       | Some tid =>
           match get_execution_trace tid with
           | None => Some "execution_trace_not_found"
           | Some t => if trace_indicates_pass t then None else Some "execution_trace_failed"
           end
       end.

Definition verify_stored_execution_traces (p : PromotionRecord) : option string :=
  match find_map verify_role_trace [evaluator p; unit_test_runner p; sealed_evaluator p] with
  | Some code => Some code
  | None => if pass (auditor p) && auditor_critical_veto (findings (auditor p))
            then Some "auditor_critical_veto" else None
  end.

(** ** The tool [promotion_record] *)

Definition finding_is_empty (f : Finding) : bool := str_is_empty (trim (description f)).

(** The verdict the tool derives: what passed and on which evidence. *)
Definition derive_verdict (role : PromotionRole) (trace_arg : option string) (pass_arg : option bool)
    (fs : list Finding) : result (bool * option string) string :=
  if role_requires_execution_trace role then
    match trim <$> trace_arg with
    | None | Some "" => Err "missing_execution_evidence"
    | Some tid => match get_execution_trace tid with
                  | None => Err "execution_trace_not_found"
                  | Some t => Ok (trace_indicates_pass t, Some tid)
                  end
    end
  else match role with
       | Auditor =>
           Ok (if auditor_critical_veto fs then false else default false pass_arg, None)
       | StaticEvaluator =>
           Ok (if findings_block_explicit_pass fs then false else default false pass_arg, None)
       | _ => Err "unsupported promotion role"
       end.

(** The writes of [promotion_record] for a resolved artifact: the verdict, the
    digests of the artifact when it can be inspected, and the dependencies of a
    passing one when it has any. *)
Definition promotion_record_tool (artifact_id : string) (art_digest : option string)
    (role : PromotionRole) (agent_id : string) (trace_arg : option string) (pass_arg : option bool)
    (fs : list Finding) (digests : option (option string * option string * option string))
    (closure : list ResolvedPackage) (now : string) (st : Registry)
    : Registry * result bool string :=
  if existsb finding_is_empty fs then (st, Err "Findings schema validation failed")
  else match derive_verdict role trace_arg pass_arg fs with
       | Err e => (st, Err e)
       | Ok (ok, trace) =>
           let '(st, _) := record_promotion artifact_id art_digest None role agent_id ok fs trace
                             now st in
           let st := match digests with
                     | Some (code, contract, prose) =>
                         set_federation_digests artifact_id code contract prose st
                     | None => st
                     end in
           let st := if ok && negb (bool_decide (length closure = 0))
                     then (set_blessed_packages artifact_id closure st).1 else st in
           (st, Ok ok)
       end.
End Evidence.

(** ** Two tools at work on the registry file

    Each tool call opens the registry, changes its copy and writes the copy
    back. *)

Record PromotionWorld := {
  file : Registry;
  stores : gmap nat Registry;
}.

Inductive PromotionStep : Type :=
| OpenStore (i : nat)
| RecordVerdict (i : nat) (artifact_id : string) (role : PromotionRole) (agent_id : string)
    (ok : bool) (fs : list Finding) (trace : option string) (now : string).

Definition promotion_step (w : PromotionWorld) (s : PromotionStep) : PromotionWorld :=
  match s with
  | OpenStore i => w{{ stores := <[i := file w]> (stores w) }}
  | RecordVerdict i artifact_id role agent_id ok fs trace now =>
      match stores w !! i with
      | None => w
      | Some st =>
          let st := (record_promotion artifact_id None None role agent_id ok fs trace now st).1 in
          w{{ stores := <[i := st]> (stores w); file := st }}
      end
  end.

Definition run_promotion (w : PromotionWorld) (l : list PromotionStep) : PromotionWorld :=
  fold_left promotion_step l w.

(** ** Carry-forward: federation_carry_forward.rs *)

Inductive CarryForwardStrictness : Type := CarryOff | CarryConservative.

Definition allows_carry (s : CarryForwardStrictness) (code_changed contract_changed prose_changed : bool)
    : bool :=
  match s with
  | CarryOff => false
  | CarryConservative => negb code_changed && negb contract_changed
  end.

Inductive CarryRejection : Type :=
| PriorRecordMissing
| PriorVerdictNotPassed
| DigestMismatch (field : string)
| RoleNotCarryEligible
| StrictnessDisallowed.

Definition reason_code (c : CarryRejection) : string :=
  match c with
  | PriorRecordMissing => "prior_record_missing"
  | PriorVerdictNotPassed => "prior_verdict_not_passed"
  | DigestMismatch _ => "digest_mismatch"
  | RoleNotCarryEligible => "role_not_carry_eligible"
  | StrictnessDisallowed => "strictness_disallowed"
  end.

Record FederationDigests := {
  fd_code : option string;
  fd_contract : option string;
  fd_prose : option string;
}.

Definition role_is_carry_eligible (r : PromotionRole) : bool :=
  match r with UnitTestRunner | Auditor | SealedEvaluator => true | _ => false end.

(** The two digests differ, or one is missing. *)
Definition digest_changed (a b : option string) : bool :=
  match a, b with Some x, Some y => negb (x =? y)%string | _, _ => true end.

Definition verify_carry_claim (role : PromotionRole) (prior_record : option PromotionRecord)
    (current : FederationDigests) (strictness : CarryForwardStrictness) : result unit CarryRejection :=
  if negb (role_is_carry_eligible role) then Err RoleNotCarryEligible
  else match prior_record with
  | None => Err PriorRecordMissing
  | Some prior =>
      match get_role_result prior (role_as_str role) with
      | None => Err PriorRecordMissing
      | Some (prior_passed, _) =>
          if negb (has_role_verdict prior (role_as_str role)) then Err PriorRecordMissing
          else if negb prior_passed then Err PriorVerdictNotPassed
          else if negb (is_some (code_digest prior)) || negb (is_some (contract_digest prior))
          then Err PriorRecordMissing
          else
            let code_changed := digest_changed (code_digest prior) (fd_code current) in
            let contract_changed := digest_changed (contract_digest prior) (fd_contract current) in
            if code_changed then Err (DigestMismatch "code_digest")
            else if contract_changed then Err (DigestMismatch "contract_digest")
            else if negb (allows_carry strictness code_changed contract_changed false)
            then Err StrictnessDisallowed
            else Ok tt
      end
  end.

(** The loop of [federation_escalate] body for one verdict with [carried_from]:
    the claim is checked and the verdict written to the current artifact. *)
Definition carry_verdict (artifact_id : string) (role : PromotionRole) (prior_id : string)
    (provenance : RoleCarryProvenance) (current : FederationDigests)
    (strictness : CarryForwardStrictness) (now : string) (st : Registry)
    : Registry * result unit CarryRejection :=
  match verify_carry_claim role (st !! prior_id) current strictness with
  | Err e => (st, Err e)
  | Ok _ =>
      match st !! prior_id with
      | Some prior =>
          ((record_carried_verdict artifact_id role prior provenance (fd_code current)
              (fd_contract current) (fd_prose current) now st).1, Ok tt)
      | None => (st, Err PriorRecordMissing)
      end
  end.

(** The roles [compute_artifact_diff] reports as carryable. *)
Definition digest_eq (a b : option string) : bool :=
  match a, b with Some x, Some y => (x =? y)%string | _, _ => false end.

Definition carry_eligible_roles (from to : FederationDigests) : list string :=
  let code_changed := negb (digest_eq (fd_code from) (fd_code to)) in
  let contract_changed := negb (digest_eq (fd_contract from) (fd_contract to)) in
  let prose_changed := negb (digest_eq (fd_prose from) (fd_prose to)) in
  let unchanged := negb code_changed && negb contract_changed in
  (if unchanged then ["unit_test_runner"; "auditor"; "sealed_evaluator"] else []) ++
  (if unchanged && negb prose_changed then ["static_evaluator"] else []).
