(* ===== verification/ContentDigest.v ===== *)
(** * Content digests

    The bytes behind the digests that identify reviewed content: the code and
    prose digests of runtime/federation_carry_forward.rs and the revision digest
    of runtime/tools/agent_revision.rs.  A file is its name and its bytes;
    SHA-256 in hexadecimal is a parameter.  The contract digest needs the YAML
    reader and stays an argument of the carry-forward. *)

From Stdlib Require Import Ascii String Lia.
From stdpp Require Import prelude gmap strings list sorting.
From S2P Require Import Prelude RustStr.

Open Scope string_scope.
Open Scope nat_scope.
Open Scope list_scope.

Abbreviation File := (string * string)%type.

Definition NUL : string := String (ch 0) "".

(** What the hasher is fed for a list of files: the name, a zero byte, the
    content, a zero byte. *)
Fixpoint file_bytes (files : list File) : string :=
  match files with
  | [] => ""
  | (name, content) :: r => (name ++ NUL ++ content ++ NUL ++ file_bytes r)%string
  end.

(** ** Classification *)

Definition CODE_EXTENSIONS : list string :=
  ["py"; "js"; "mjs"; "ts"; "rs"; "go"; "java"; "kt"; "rb"; "php"; "c"; "h"; "cpp"; "cc"; "hpp";
   "cxx"; "sh"; "bash"; "zsh"; "lua"; "pl"; "pm"; "r"; "swift"; "scala"; "clj"; "ex"; "exs";
   "dart"; "sql"].

Definition CODE_FILENAMES : list string :=
  ["requirements.txt"; "package.json"; "package-lock.json"; "yarn.lock"; "cargo.toml"; "cargo.lock";
   "go.mod"; "go.sum"; "gemfile"; "gemfile.lock"; "pyproject.toml"; "uv.lock"; "poetry.lock";
   "pipfile"; "pipfile.lock"; "runtime.lock"].

Definition mem_str (s : string) (l : list string) : bool := existsb (String.eqb s) l.

(** [name.rsplit(c).next().unwrap_or(name)]. *)
Definition last_segment (c : ascii) (name : string) : string :=
  default name (last (split (Ascii.eqb c) name)).

Definition is_code_file (name : string) (entrypoints : list string) : bool :=
  mem_str name entrypoints
  || mem_str (to_lowercase (last_segment "/" name)) CODE_FILENAMES
  || (contains_char name "." && mem_str (to_lowercase (last_segment "." name)) CODE_EXTENSIONS).

(** ** Digests *)

Record ArtifactLayer := {
  layer_id : string;
  layer_name : string;
  mount_path : string;
  layer_digest : string;
}.

Definition layer_cmp (a b : ArtifactLayer) : comparison :=
  match String.compare (layer_id a) (layer_id b) with
  | Eq => match String.compare (mount_path a) (mount_path b) with
          | Eq => String.compare (layer_digest a) (layer_digest b)
          | c => c
          end
  | c => c
  end.

Fixpoint layer_bytes (layers : list ArtifactLayer) : string :=
  match layers with
  | [] => ""
  | l :: r => ("layer:" ++ layer_id l ++ "@" ++ mount_path l ++ "=" ++ layer_digest l ++ NUL
               ++ layer_bytes r)%string
  end.

Definition file_cmp (a b : File) : comparison := String.compare a.1 b.1.

Definition code_entries (files : list File) (entrypoints : list string) : list File :=
  sort_by file_cmp (List.filter (λ f, is_code_file f.1 entrypoints) files).

Definition prose_entries (files : list File) (entrypoints : list string) : list File :=
  sort_by file_cmp (List.filter (λ f, negb (is_code_file f.1 entrypoints)) files).

Definition code_digest_bytes (files : list File) (entrypoints : list string)
    (layers : list ArtifactLayer) : string :=
  (layer_bytes (sort_by layer_cmp layers) ++
   match code_entries files entrypoints, layers with
   | [], [] => "<no-code-files>"
   | entries, _ => file_bytes entries
   end)%string.

Definition prose_digest_bytes (files : list File) (entrypoints : list string) : string :=
  match prose_entries files entrypoints with
  | [] => "<no-prose-files>"
  | entries => file_bytes entries
  end.

Section Digest.
Context (sha256_hex : string → string).

Definition compute_code_digest (files : list File) (entrypoints : list string)
    (layers : list ArtifactLayer) : string :=
  ("sha256:" ++ sha256_hex (code_digest_bytes files entrypoints layers))%string.

Definition compute_prose_digest (files : list File) (entrypoints : list string) : string :=
  ("sha256:" ++ sha256_hex (prose_digest_bytes files entrypoints))%string.

(** The files of a revision come from a [BTreeMap]: in the order of their
    names. *)
Definition compute_revision_content_digest_hex (files : list File) : string :=
  sha256_hex (file_bytes files).

(** Two inputs that hash alike. *)
Definition collision : Prop := ∃ a b, a ≠ b ∧ sha256_hex a = sha256_hex b.
End Digest.

(** ** What the digests identify *)

Definition nul_free (s : string) : Prop := contains_char s (ch 0) = false.
Definition nul_free_file (f : File) : Prop := nul_free f.1 ∧ nul_free f.2.

Lemma nul_app_inv a b x y :
  nul_free a → nul_free b → (a ++ NUL ++ x)%string = (b ++ NUL ++ y)%string → a = b ∧ x = y.
Proof.
  unfold nul_free, contains_char. revert b. induction a as [|c a IH]; intros b Ha Hb H.
  - destruct b as [|d b]; [by injection H|].
    exfalso. injection H as <- _. done.
  - destruct b as [|d b].
    + exfalso. injection H as -> _. done.
    + injection H as <- H. simpl in Ha, Hb. bool_norm.
      destruct (IH b) as [-> ->]; done.
Qed.

Lemma file_bytes_inj fs gs :
  Forall nul_free_file fs → Forall nul_free_file gs → file_bytes fs = file_bytes gs → fs = gs.
Proof.
  intros Hf. revert gs. induction Hf as [|[n c] fs [Hn Hc] _ IH]; intros gs Hg; simpl.
  - destruct Hg as [|[m d] gs [_ _] _]; [done|]. simpl. by destruct m.
  - destruct Hg as [|[m d] gs [Hm Hd] Hg]; simpl; [by destruct n|].
    intros [-> H]%nul_app_inv; [|done|done].
    apply nul_app_inv in H as [-> H]; [|done|done]. by rewrite (IH gs).
Qed.

(** Neither marker is the bytes of a list of files. *)
Lemma marker_not_files s f fs : nul_free s → file_bytes (f :: fs) ≠ s.
Proof.
  intros Hs <-. destruct f as [n c]. unfold nul_free, contains_char in Hs.
  simpl in Hs. rewrite str_existsb_app in Hs. by bool_norm.
Qed.

Lemma entries_nul_free (p : File → bool) fs :
  Forall nul_free_file fs → Forall nul_free_file (sort_by file_cmp (List.filter p fs)).
Proof.
  rewrite !Forall_forall. intros H f Hf.
  apply elem_of_sort_by, list_elem_of_In, List.filter_In in Hf as [Hf%list_elem_of_In _].
  by apply H.
Qed.

Lemma entries_inj s fs gs :
  nul_free s → Forall nul_free_file fs → Forall nul_free_file gs →
  match fs with [] => s | _ => file_bytes fs end = match gs with [] => s | _ => file_bytes gs end →
  fs = gs.
Proof.
  intros Hs Hf Hg H. destruct fs as [|f fs], gs as [|g gs].
  - done.
  - by destruct (marker_not_files s g gs).
  - by destruct (marker_not_files s f fs).
  - by apply file_bytes_inj.
Qed.

(** A content digest identifies the reviewed files as long as none of them
    holds a zero byte: two revisions with equal digests are the same files, two
    bundles over the same layers with equal code digests have the same code
    files, and with equal prose digests the same other files - or a collision of
    SHA-256 is at hand. *)
Theorem digest_identifies_files sha256_hex fs gs eps layers :
  Forall nul_free_file fs → Forall nul_free_file gs →
  ¬ collision sha256_hex →
  (compute_revision_content_digest_hex sha256_hex fs
   = compute_revision_content_digest_hex sha256_hex gs → fs = gs) ∧
  (compute_code_digest sha256_hex fs eps layers = compute_code_digest sha256_hex gs eps layers →
   code_entries fs eps = code_entries gs eps) ∧
  (compute_prose_digest sha256_hex fs eps = compute_prose_digest sha256_hex gs eps →
   prose_entries fs eps = prose_entries gs eps).
Proof.
  intros Hf Hg Hc.
  assert (∀ a b, sha256_hex a = sha256_hex b → a = b) as Hinj.
  { intros a b H. destruct (decide (a = b)); [done|]. destruct Hc. by exists a, b. }
  split_and!; intros H.
  - apply Hinj in H. by apply file_bytes_inj.
  - unfold compute_code_digest in H. apply str_app_inv_l, Hinj in H.
    apply str_app_inv_l in H.
    pose proof (entries_nul_free (λ f, is_code_file f.1 eps) fs Hf) as Hfe.
    pose proof (entries_nul_free (λ f, is_code_file f.1 eps) gs Hg) as Hge.
    fold (code_entries fs eps) in Hfe. fold (code_entries gs eps) in Hge.
    apply (entries_inj (if layers is [] then "<no-code-files>" else "")); [by destruct layers|done..|].
    revert H. by destruct layers, (code_entries fs eps), (code_entries gs eps).
  - unfold compute_prose_digest in H. apply str_app_inv_l, Hinj in H.
    apply (entries_inj "<no-prose-files>");
      [done|by apply entries_nul_free..|].
    unfold prose_digest_bytes in H. by repeat case_match.
Qed.

Lemma digest_identifies_files_witness :
  let fs := [("SKILL.md", "text"); ("main.py", "run()")] in
  let gs := [("SKILL.md", "text"); ("main.py", "stop()")] in
  compute_revision_content_digest_hex id fs ≠ compute_revision_content_digest_hex id gs ∧
  compute_code_digest id fs [] [] ≠ compute_code_digest id gs [] [].
Proof.
  intros fs gs.
  destruct (digest_identifies_files id fs gs [] []) as (Hrev & Hcode & _).
  1,2: repeat constructor.
  - intros (a & b & Hne & H). done.
  - split; intros H; [specialize (Hrev H)|specialize (Hcode H)]; discriminate.
Defined.

(** A zero byte inside a file reads as the end of it: whatever the hash
    function, one file and two files share their revision digest, and their code
    digest although their code files differ. *)
Theorem digest_is_ambiguous sha256_hex :
  let one := [("a.py", "x" ++ NUL ++ "b.py" ++ NUL ++ "y")%string] in
  let two := [("a.py", "x"); ("b.py", "y")] in
  bt_wf one ∧ bt_wf two ∧ code_entries one [] ≠ code_entries two [] ∧
  compute_revision_content_digest_hex sha256_hex one
  = compute_revision_content_digest_hex sha256_hex two ∧
  compute_code_digest sha256_hex one [] [] = compute_code_digest sha256_hex two [] [].
Proof.
  intros one two. split_and!.
  - repeat constructor.
  - repeat constructor.
  - by vm_compute.
  - done.
  - unfold compute_code_digest. by replace (code_digest_bytes one [] []) with (code_digest_bytes two [] [])
      by by vm_compute.
Qed.
