(* ===== verification/AgentRevision.v ===== *)
(** * Agent revisions

    The types of autonoetic-types/src/agent_revision.rs: references to a
    revision and their text form, targets, short ids, and the records of
    revisions, aliases, session bindings and promotions.

    An RFC 3339 timestamp of the gateway's clock is an [Instant]: the source
    compares such texts as strings, which orders them as the instants they
    name. *)

From Stdlib Require Import Ascii String Lia.
From stdpp Require Import prelude gmap strings list.
From S2P Require Import Prelude RustStr Json.

Open Scope string_scope.
Open Scope nat_scope.
Open Scope list_scope.

Abbreviation Instant := Z.

(** ** Targets and references *)

Inductive ParsedAgentTarget : Type :=
| AliasId (alias_id : string)
| ExplicitRef (agent_id revision_selector : string).

Definition parse_agent_target (target : string) : option ParsedAgentTarget :=
  if str_is_empty target then None
  else match split_once "@" target with
       | Some (agent_id, selector) =>
           if str_is_empty agent_id || str_is_empty selector || contains_char selector "@" then None
           else Some (ExplicitRef agent_id selector)
       | None => Some (AliasId target)
       end.

Record AgentRef := {
  ref_agent_id : string;
  ref_revision_id : string;
}.

Definition is_ascii_lower (c : ascii) : bool :=
  let n := nat_of_ascii c in (97 <=? n) && (n <=? 122).

Definition agent_id_char (c : ascii) : bool :=
  is_ascii_lower c || is_ascii_digit c || (c =? ".")%char || (c =? "_")%char || (c =? "-")%char.

Definition str_forallb (p : ascii → bool) (s : string) : bool := negb (str_existsb (λ c, negb (p c)) s).

Definition is_valid_agent_id (s : string) : bool :=
  match first_char s with
  | None => false
  | Some c => (is_ascii_lower c || is_ascii_digit c) && str_forallb agent_id_char s
  end.

Definition REVISION_PREFIX : string := "rev_sha256:".

Definition is_valid_revision_id (s : string) : bool :=
  match strip_prefix s REVISION_PREFIX with
  | None => false
  | Some hex =>
      (String.length hex =? 64)
      && str_forallb (λ c, is_ascii_hexdigit c && (is_ascii_lower c || is_ascii_digit c)) hex
  end.

(** [AgentRef::parse]. *)
Definition parse_agent_ref (s : string) : option AgentRef :=
  match split_once "@" s with
  | None => None
  | Some (agent_id, revision_id) =>
      if str_is_empty agent_id || contains_char revision_id "@" then None
      else if str_is_empty revision_id then None
      else if negb (is_valid_agent_id agent_id) then None
      else if negb (is_valid_revision_id revision_id) then None
      else Some {| ref_agent_id := agent_id; ref_revision_id := revision_id |}
  end.

(** [AgentRef::to_string]. *)
Definition show_agent_ref (r : AgentRef) : string :=
  (ref_agent_id r ++ "@" ++ ref_revision_id r)%string.

(** ** Short ids *)

Definition CROCKFORD : string := "0123456789abcdefghjkmnpqrstvwxyz".

(** [ch.to_digit(16).unwrap_or(0)]. *)
Definition hex_value (c : ascii) : N :=
  let n := N_of_ascii c in
  if is_ascii_digit c then n - 48
  else if is_ascii_hexdigit c then (if is_ascii_upper c then n - 55 else n - 87)
  else 0.

Definition nibble_bits (v : N) : list bool :=
  [N.testbit v 3; N.testbit v 2; N.testbit v 1; N.testbit v 0].

Fixpoint hex_bits (s : string) : list bool :=
  match s with "" => [] | String c r => nibble_bits (hex_value c) ++ hex_bits r end.

Definition chunk_char (chunk : list bool) : ascii :=
  default zero (String.get (fold_left (λ idx b, 2 * idx + Nat.b2n b) chunk 0) CROCKFORD).

(** [bits.chunks(5)] of [n] whole chunks. *)
Fixpoint encode_chunks (n : nat) (bits : list bool) : string :=
  match n with
  | 0 => ""
  | S n => String (chunk_char (take 5 bits)) (encode_chunks n (drop 5 bits))
  end.

Definition strip_digest_prefix (digest : string) : string :=
  match strip_prefix digest REVISION_PREFIX with
  | Some h => h
  | None =>
      match strip_prefix digest "sha256:" with
      | Some h => h
      | None =>
          match strip_prefix digest "sha384:" with
          | Some h => h
          | None => default digest (strip_prefix digest "sha512:")
          end
      end
  end.

(** [short_id(digest, Some(len))]; the slice is taken on a character boundary
    for every digest in hexadecimal. *)
Definition short_id (digest : string) (len : nat) : string :=
  let hex := strip_digest_prefix digest in
  let hex_chars_needed := (len * 5 + 3) / 4 in
  let bits := hex_bits (String.substring 0 (Nat.min hex_chars_needed (String.length hex)) hex) in
  let needed := len * 5 in
  encode_chunks len (take needed (bits ++ replicate (needed - length bits) false)).

Definition short_id_collides (digest : string) (existing : list string) (len : nat) : bool :=
  existsb (λ d, (short_id d len =? short_id digest len)%string) existing.

(** The loop: [n] lengths are left before the safety valve. *)
Fixpoint short_id_loop (digest : string) (existing : list string) (n len : nat) : string :=
  if negb (short_id_collides digest existing len) then short_id digest len
  else match n with
       | 0 => short_id digest (S len)
       | S n => short_id_loop digest existing n (S len)
       end.

Definition short_id_unique (digest : string) (existing : list string) (min_len : option nat) : string :=
  let len := default 8 min_len in short_id_loop digest existing (16 - len) len.

Definition format_short_ref (agent_id revision_id : string) : string :=
  (agent_id ++ "@rev_" ++ short_id revision_id 8)%string.

(** ** Records *)

Inductive AgentRevisionStatus : Type := Candidate | Ready | Archived.

#[export] Instance agent_revision_status_eq_dec : EqDecision AgentRevisionStatus.
Proof. solve_decision. Defined.

Record AgentRevisionRecord := {
  revision_id : string;
  rev_agent_id : string;
  base_revision_id : option string;
  rev_artifact_id : option string;
  rev_content_digest : string;
  runtime_lock_hash : string;
  manifest_hash : string;
  rev_created_at : Instant;
  rev_created_by_type : string;
  rev_created_by_id : string;
  requested_by_type : option string;
  requested_by_id : option string;
  source_kind : string;
  source_ref : option string;
  rev_origin_node_id : string;
  trust_domain : string;
  rev_status : AgentRevisionStatus;
  metadata_json : Json;
  rev_short_id : string;
  detected_network_hosts : option (list string);
  signature : option string;
  signer_id : option string;
}.

Record AgentAliasRecord := {
  alias_id : string;
  al_agent_id : string;
  al_revision_id : string;
  updated_at : Instant;
  updated_by_type : string;
  updated_by_id : string;
  al_reason : option string;
  suspended_at : option Instant;
  suspended_reason : option string;
  suspended_by : option string;
}.

Record SessionAgentBinding := {
  sb_session_id : string;
  sb_root_session_id : string;
  sb_alias_id : option string;
  sb_agent_id : string;
  sb_revision_id : string;
  sb_runtime_lock_hash : string;
  constitution_version : option string;
  constitution_digest : option string;
  home_node_id : string;
  sb_created_at : Instant;
  requested_target : string;
}.

Inductive PromotionKind : Type := Promote | Rollback.

#[export] Instance promotion_kind_eq_dec : EqDecision PromotionKind.
Proof. solve_decision. Defined.

(** [PromotionRecord] of agent_revision.rs: a row of [promotion_history]. *)
Record PromotionHistoryRow := {
  promotion_id : string;
  kind : PromotionKind;
  ph_alias_id : string;
  ph_agent_id : string;
  previous_revision_id : option string;
  new_revision_id : string;
  source_eval_run_id : option string;
  ph_reason : option string;
  ph_created_at : Instant;
  ph_created_by_type : string;
  ph_created_by_id : string;
  ph_origin_node_id : string;
  pre_authorization : option string;
}.

(** ** Lemmas *)

Lemma split_once_some c s a b :
  split_once c s = Some (a, b) ↔ s = (a ++ String c b)%string ∧ contains_char a c = false.
Proof.
  revert a b. induction s as [|x s IH]; intros a b; simpl.
  - split; [done|]. by intros [? _]; destruct a.
  - destruct (Ascii.eqb_spec x c) as [->|Hx].
    + split; [by intros [= <- <-]|]. intros [H Hc]. destruct a as [|y a]; [by injection H as ->|].
      injection H as <- _. unfold contains_char in Hc. simpl in Hc. by rewrite Ascii.eqb_refl in Hc.
    + destruct (split_once c s) as [[a' b']|] eqn:E; simpl.
      * split.
        -- intros [= <- <-]. destruct (proj1 (IH a' b') eq_refl) as [-> Hc].
           unfold contains_char in *. simpl. rewrite Hc.
           split; [done|]. apply orb_false_iff. split; [|done]. by apply Ascii.eqb_neq.
        -- intros [H Hc]. destruct a as [|y a]; [by injection H as -> _|].
           injection H as -> H. apply orb_false_iff in Hc as [Hy Ha].
           by pose proof (proj2 (IH a b) (conj H Ha)) as [= -> ->].
      * split; [done|]. intros [H Hc]. destruct a as [|y a]; [by injection H as -> _|].
        injection H as -> H. apply orb_false_iff in Hc as [Hy Ha].
        by pose proof (proj2 (IH a b) (conj H Ha)).
Qed.

Lemma short_id_length digest len : String.length (short_id digest len) = len.
Proof.
  unfold short_id. generalize (take (len * 5) (hex_bits
    (String.substring 0 (Nat.min ((len * 5 + 3) / 4) (String.length (strip_digest_prefix digest)))
       (strip_digest_prefix digest)) ++ replicate (len * 5 - length (hex_bits
    (String.substring 0 (Nat.min ((len * 5 + 3) / 4) (String.length (strip_digest_prefix digest)))
       (strip_digest_prefix digest)))) false)).
  induction len as [|len IH]; intros bits; simpl; [done|]. by rewrite IH.
Qed.

Lemma short_id_loop_spec digest existing n len :
  let s := short_id_loop digest existing n len in
  ∃ k, len ≤ k ≤ S (n + len) ∧ s = short_id digest k ∧
       (k ≤ n + len → short_id_collides digest existing k = false).
Proof.
  revert len. induction n as [|n IH]; intros len; simpl;
    (destruct (short_id_collides digest existing len) eqn:E; simpl;
       [|exists len; split_and!; [lia..|done|done]]).
  - exists (S len). split_and!; [lia..|done|lia].
  - destruct (IH (S len)) as (k & Hk & -> & Hc). exists k.
    split_and!; [lia..|done|]. intros ?. apply Hc. lia.
Qed.
