(* ===== verification/AgentRegistry.v ===== *)
(** * The agent registry

    scheduler/gateway_store/agent_registry.rs and residency.rs: the tables of
    revisions, aliases, session bindings, promotions, promotion attempts and
    session liveness; agent/repository.rs: how a target is resolved and a session
    pinned; the store writes of the tools [agent_revision_create],
    [agent_revision_create_from_intent] and [agent_revision_rollback]
    (runtime/tools/agent_revision.rs) and of capsule/import.rs.

    A table with a primary key is a map; the append-only tables are lists in the
    order of insertion.  A statement that violates a unique index fails and its
    transaction leaves the tables alone.  SQLite is assumed to answer; one clock
    reading serves a whole operation.  The generated id of an attempt is left
    out. *)

From Stdlib Require Import Ascii String Lia.
From stdpp Require Import prelude gmap strings list sorting.
From coqutil Require Import Datatypes.RecordSetters.
From S2P Require Import Prelude RustStr Json AgentRevision.
Import DoubleBraceUpdate.

Open Scope string_scope.
Open Scope list_scope.

(** ** Tables *)

Record PromotionAttempt := {
  pa_alias_id : string;
  pa_revision_id : string;
  pa_content_digest : string;
  outcome : string;
  gate : option string;
  error_code : option string;
  pa_session_id : option string;
  pa_workflow_id : option string;
  pa_created_at : Instant;
}.

Record SessionLiveness := {
  last_woken_at : option Instant;
  last_closed_at : option Instant;
  resumable : bool;
}.

Record SessionResidency := {
  sr_session_id : string;
  sr_root_session_id : string;
  sr_agent_id : string;
  sr_turn_id : string;
  since : Instant;
  expires_at : Instant;
}.

(** The columns of [memories] a rollback touches. *)
Record MemoryRow := {
  mem_revision_id : option string;
  quarantine_reason : option string;
}.

Record AgentDb := {
  revisions : gmap string AgentRevisionRecord;
  short_ids : gmap string string;
  agent_aliases : gmap string AgentAliasRecord;
  bindings : gmap string SessionAgentBinding;
  promotion_history : list PromotionHistoryRow;
  promotion_attempts : list PromotionAttempt;
  session_outcomes : gset string;
  session_liveness : gmap string SessionLiveness;
  session_residency : gmap string SessionResidency;
  memories : gmap string MemoryRow;
}.

Definition empty_db : AgentDb :=
  {| revisions := ∅; short_ids := ∅; agent_aliases := ∅; bindings := ∅; promotion_history := [];
     promotion_attempts := []; session_outcomes := ∅; session_liveness := ∅;
     session_residency := ∅; memories := ∅ |}.

Inductive RegistryError : Type :=
| UniqueViolation
| RevisionNotFound (revision_id : string)
| RevisionOfOther (revision_id agent_id : string)
| BadStatus (status : AgentRevisionStatus)
| NoAlias (alias_id : string) (candidate : option string)
| InvalidTarget (target : string)
| InvalidAgentRef (target : string)
| AgentSuspended (agent_id : string)
| NotInLineage (revision_id : string)
| NoPreviousRevision (agent_id : string).

(** ** Revisions *)

Definition get_agent_revision (db : AgentDb) (rid : string) : option AgentRevisionRecord :=
  revisions db !! rid.

Definition same_content (rev : AgentRevisionRecord) (r : AgentRevisionRecord) : bool :=
  (rev_agent_id r =? rev_agent_id rev)%string && (rev_content_digest r =? rev_content_digest rev)%string.

Definition insert_agent_revision_transactional (rev : AgentRevisionRecord) (db : AgentDb)
    : AgentDb * result (option string) RegistryError :=
  let short :=
    if str_is_empty (trim (rev_short_id rev))
    then short_id_unique (revision_id rev)
           (List.filter (λ d, negb (d =? revision_id rev)%string) (map_to_list (revisions db)).*1) None
    else rev_short_id rev in
  match revisions db !! revision_id rev with
  | Some _ => (db, Ok None)
  | None =>
      if existsb (same_content rev) (map_to_list (revisions db)).*2 then (db, Err UniqueViolation)
      else (db{{ revisions := <[revision_id rev := rev{{ rev_short_id := short }}]> (revisions db);
                 short_ids := match short_ids db !! short with
                              | Some _ => short_ids db
                              | None => <[short := revision_id rev]> (short_ids db)
                              end }}, Ok (Some short))
  end.

Definition newest_first (a b : AgentRevisionRecord) : comparison :=
  Z.compare (rev_created_at b) (rev_created_at a).

Definition list_agent_revisions (db : AgentDb) (agent_id : string) : list AgentRevisionRecord :=
  sort_by newest_first
    (List.filter (λ r, (rev_agent_id r =? agent_id)%string) (map_to_list (revisions db)).*2).

Definition update_agent_revision_status (rid : string) (s : AgentRevisionStatus) (db : AgentDb) : AgentDb :=
  db{{ revisions := alter (λ r, r{{ rev_status := s }}) rid (revisions db) }}.

Definition lookup_short_id (db : AgentDb) (short : string) : option string := short_ids db !! short.

Definition register_short_id (rid short : string) (db : AgentDb) : AgentDb :=
  db{{ short_ids := match short_ids db !! short with
                    | Some _ => short_ids db
                    | None => <[short := rid]> (short_ids db)
                    end }}.

(** The store writes of a create: a new row, or, for content already known, the
    reactivation of an archived one. *)
Inductive CreateStatus : Type := Created (short : string) | AlreadyExists | Reactivated.

Definition reuse_revision (existing : AgentRevisionRecord) (db : AgentDb) : AgentDb * CreateStatus :=
  if bool_decide (rev_status existing = Archived)
  then (update_agent_revision_status (revision_id existing) Candidate db, Reactivated)
  else (db, AlreadyExists).

Definition create_revision (rev : AgentRevisionRecord) (db : AgentDb)
    : AgentDb * result CreateStatus RegistryError :=
  match get_agent_revision db (revision_id rev) with
  | Some existing => let '(db, s) := reuse_revision existing db in (db, Ok s)
  | None =>
      match insert_agent_revision_transactional rev db with
      | (db, Ok (Some short)) => (db, Ok (Created short))
      | (db, Ok None) =>
          match get_agent_revision db (revision_id rev) with
          | Some existing => let '(db, s) := reuse_revision existing db in (db, Ok s)
          | None => (db, Err (RevisionNotFound (revision_id rev)))
          end
      | (db, Err e) => (db, Err e)
      end
  end.

(** [create_from_intent] archives the candidates among the revisions it has
    read; [seen] is what it read. *)
Definition archive_candidates (seen : list AgentRevisionRecord) (db : AgentDb) : AgentDb :=
  fold_left (λ db r, if bool_decide (rev_status r = Candidate)
                     then update_agent_revision_status (revision_id r) Archived db else db) seen db.

(** Reclamation (gateway_store/reclamation.rs): archived revisions older than the
    limit that no session is bound to.  Their short ids stay in the index. *)
Definition reclaimable (db : AgentDb) (cutoff : Instant) (rid : string) (r : AgentRevisionRecord) : bool :=
  bool_decide (rev_status r = Archived) && (rev_created_at r <? cutoff)%Z
  && negb (existsb (λ b, (sb_revision_id b =? rid)%string) (map_to_list (bindings db)).*2).

Definition delete_archived_revisions (max_age_days : nat) (now : Instant) (db : AgentDb) : AgentDb :=
  if (max_age_days =? 0)%nat then db
  else db{{ revisions :=
              filter (λ kv, reclaimable db (now - Z.of_nat max_age_days * 86400 * 10 ^ 9) kv.1 kv.2 = false)
                (revisions db) }}.

(** ** Aliases *)

Definition resolve_alias (db : AgentDb) (alias : string) : option AgentAliasRecord :=
  agent_aliases db !! alias.

(** [INSERT OR REPLACE]: rows with the same alias or the same agent go. *)
Definition replace_alias (al : AgentAliasRecord) (m : gmap string AgentAliasRecord)
    : gmap string AgentAliasRecord :=
  <[alias_id al := al]> (filter (λ kv, al_agent_id kv.2 ≠ al_agent_id al) m).

Definition upsert_agent_alias (al : AgentAliasRecord) (db : AgentDb) : AgentDb :=
  db{{ agent_aliases := replace_alias al (agent_aliases db) }}.

Definition alias_before (x y : AgentAliasRecord) : comparison :=
  match String.compare (al_agent_id x) (al_agent_id y) with
  | Eq => String.compare (alias_id x) (alias_id y)
  | c => c
  end.

Definition list_agent_aliases (db : AgentDb) (flt : option string) : list AgentAliasRecord :=
  sort_by alias_before
    (List.filter (λ al, match flt with
                        | Some v => (al_agent_id al =? v)%string || (alias_id al =? v)%string
                        | None => true
                        end) (map_to_list (agent_aliases db)).*2).

(** ** Promotion and rollback *)

Definition current_revision (db : AgentDb) (agent_id : string) : option string :=
  match agent_aliases db !! agent_id with
  | Some al => if (al_agent_id al =? agent_id)%string then Some (al_revision_id al) else None
  | None => None
  end.

(** The writes both transactions share: the alias moves to [rid], which becomes
    ready, and the revision it leaves is archived. *)
Definition move_alias (agent_id rid by_type by_id : string) (reason : option string)
    (keep_suspension : bool) (now : Instant) (db : AgentDb) : AgentDb :=
  let previous := current_revision db agent_id in
  let old := agent_aliases db !! agent_id in
  let susp {A} (f : AgentAliasRecord → option A) : option A :=
    if keep_suspension then al ← old; f al else None in
  let al := {| alias_id := agent_id; al_agent_id := agent_id; al_revision_id := rid;
               updated_at := now; updated_by_type := by_type; updated_by_id := by_id;
               al_reason := reason; suspended_at := susp suspended_at;
               suspended_reason := susp suspended_reason; suspended_by := susp suspended_by |} in
  let db := update_agent_revision_status rid Ready (upsert_agent_alias al db) in
  match previous with
  | Some prev => if (prev =? rid)%string then db else update_agent_revision_status prev Archived db
  | None => db
  end.

Definition history_row (pid : string) (k : PromotionKind) (agent_id : string) (previous : option string)
    (rid by_type by_id : string) (eval_run reason pre_auth : option string) (now : Instant)
    : PromotionHistoryRow :=
  {| promotion_id := pid; kind := k; ph_alias_id := agent_id; ph_agent_id := agent_id;
     previous_revision_id := previous; new_revision_id := rid; source_eval_run_id := eval_run;
     ph_reason := reason; ph_created_at := now; ph_created_by_type := by_type;
     ph_created_by_id := by_id; ph_origin_node_id := "gateway"; pre_authorization := pre_auth |}.

Definition insert_promotion_record (row : PromotionHistoryRow) (db : AgentDb)
    : AgentDb * result unit RegistryError :=
  if existsb (λ p, (promotion_id p =? promotion_id row)%string) (promotion_history db)
  then (db, Err UniqueViolation)
  else (db{{ promotion_history := promotion_history db ++ [row] }}, Ok tt).

Definition atomic_promote (agent_id rid pid by_type by_id : string)
    (reason eval_run pre_auth : option string) (now : Instant) (db : AgentDb)
    : AgentDb * result (option string) RegistryError :=
  let previous := current_revision db agent_id in
  match revisions db !! rid with
  | None => (db, Err (RevisionNotFound rid))
  | Some rev =>
      if negb (rev_agent_id rev =? agent_id)%string
      then (db, Err (RevisionOfOther rid (rev_agent_id rev)))
      else if bool_decide (rev_status rev = Archived) then (db, Err (BadStatus (rev_status rev)))
      else
        let moved := move_alias agent_id rid by_type by_id reason
                       (match pre_auth with Some _ => true | None => false end) now db in
        match insert_promotion_record
                (history_row pid Promote agent_id previous rid by_type by_id eval_run reason
                   pre_auth now) moved with
        | (db', Ok _) => (db', Ok previous)
        | (_, Err e) => (db, Err e)
        end
  end.

Definition quarantine_row (rid : string) (m : MemoryRow) : MemoryRow :=
  if bool_decide (mem_revision_id m = Some rid) && bool_decide (quarantine_reason m = None)
  then m{{ quarantine_reason := Some ("revision_rollback:" ++ rid)%string }} else m.

Definition quarantine_memories (rid : string) (db : AgentDb) : AgentDb :=
  db{{ memories := quarantine_row rid <$> memories db }}.

Definition atomic_rollback (agent_id rid pid by_type by_id : string) (reason : option string)
    (now : Instant) (db : AgentDb) : AgentDb * result (option string) RegistryError :=
  let current := current_revision db agent_id in
  match revisions db !! rid with
  | None => (db, Err (RevisionNotFound rid))
  | Some rev =>
      if negb (rev_agent_id rev =? agent_id)%string
      then (db, Err (RevisionOfOther rid (rev_agent_id rev)))
      else
        let moved := move_alias agent_id rid by_type by_id reason true now db in
        let moved := match current with
                     | Some curr => if (curr =? rid)%string then moved else quarantine_memories curr moved
                     | None => moved
                     end in
        match insert_promotion_record
                (history_row pid Rollback agent_id current rid by_type by_id None reason None now)
                moved with
        | (db', Ok _) => (db', Ok current)
        | (_, Err e) => (db, Err e)
        end
  end.

Definition suspend_agent (agent_id by_id : string) (reason : option string) (now : Instant)
    (db : AgentDb) : AgentDb * bool :=
  match agent_aliases db !! agent_id with
  | Some al =>
      match suspended_at al with
      | Some _ => (db, false)
      | None =>
          (db{{ agent_aliases := <[agent_id := al{{ suspended_at := Some now; suspended_reason := reason;
                                                    suspended_by := Some by_id }}]>
                                   (agent_aliases db) }}, true)
      end
  | None => (db, false)
  end.

Definition unsuspend_agent (agent_id : string) (db : AgentDb) : AgentDb * bool :=
  match agent_aliases db !! agent_id with
  | Some al =>
      match suspended_at al with
      | None => (db, false)
      | Some _ =>
          (db{{ agent_aliases := <[agent_id := al{{ suspended_at := None; suspended_reason := None;
                                                    suspended_by := None }}]>
                                   (agent_aliases db) }}, true)
      end
  | None => (db, false)
  end.

(** [capsule import --activate]. *)
Definition bind_alias (agent_id rid : string) (now : Instant) (db : AgentDb) : AgentDb :=
  upsert_agent_alias
    {| alias_id := agent_id; al_agent_id := agent_id; al_revision_id := rid; updated_at := now;
       updated_by_type := "script"; updated_by_id := "capsule_import";
       al_reason := Some "capsule import --activate"; suspended_at := None;
       suspended_reason := None; suspended_by := None |} db.

(** The registry writes of a capsule import: the revision when it is new, and the
    alias on request. *)
Definition import_revision (rev : AgentRevisionRecord) (activate : bool) (now : Instant) (db : AgentDb)
    : AgentDb * result unit RegistryError :=
  match (match get_agent_revision db (revision_id rev) with
         | Some _ => (db, Ok None)
         | None => insert_agent_revision_transactional rev db
         end) with
  | (db, Err e) => (db, Err e)
  | (db, Ok _) =>
      (if activate then bind_alias (rev_agent_id rev) (revision_id rev) now db else db, Ok tt)
  end.

(** ** The promotion history *)

Definition newest_promotion_first (a b : PromotionHistoryRow) : comparison :=
  Z.compare (ph_created_at b) (ph_created_at a).

Definition list_promotion_history (db : AgentDb) (agent_id : string) : list PromotionHistoryRow :=
  sort_by newest_promotion_first
    (List.filter (λ p, (ph_agent_id p =? agent_id)%string) (promotion_history db)).

Definition list_recent_promotion_history (db : AgentDb) (agent_id : string) (limit : nat)
    : list PromotionHistoryRow := take limit (list_promotion_history db agent_id).

Definition count_promotions_since (db : AgentDb) (agent_id : string) (start : Instant) : nat :=
  length (List.filter (λ p, (ph_agent_id p =? agent_id)%string && bool_decide (kind p = Promote)
                            && bool_decide (start ≤ ph_created_at p)%Z) (promotion_history db)).

(** The target of [agent_revision_rollback]. *)
Definition rollback_target (db : AgentDb) (agent_id : string) (rid : option string)
    : result string RegistryError :=
  match rid with
  | Some rid =>
      match get_agent_revision db rid with
      | None => Err (RevisionNotFound rid)
      | Some rev =>
          if negb (rev_agent_id rev =? agent_id)%string
          then Err (RevisionOfOther rid (rev_agent_id rev))
          else if existsb (λ p, (new_revision_id p =? rid)%string
                                || bool_decide (previous_revision_id p = Some rid))
                    (list_promotion_history db agent_id)
          then Ok rid else Err (NotInLineage rid)
      end
  | None =>
      match p ← head (list_promotion_history db agent_id); previous_revision_id p with
      | Some prev => Ok prev
      | None => Err (NoPreviousRevision agent_id)
      end
  end.

Definition rollback_tool (agent_id : string) (rid : option string) (pid by_id : string)
    (reason : option string) (now : Instant) (db : AgentDb)
    : AgentDb * result (option string) RegistryError :=
  match rollback_target db agent_id rid with
  | Err e => (db, Err e)
  | Ok target =>
      match get_agent_revision db target with
      | None => (db, Err (RevisionNotFound target))
      | Some _ => atomic_rollback agent_id target pid "agent" by_id reason now db
      end
  end.

(** ** The promotion-attempt ledger *)

Definition is_rejection (alias digest : string) (a : PromotionAttempt) : bool :=
  (pa_alias_id a =? alias)%string && (pa_content_digest a =? digest)%string
  && (outcome a =? "rejected")%string.

Definition record_promotion_attempt (a : PromotionAttempt) (db : AgentDb) : AgentDb :=
  db{{ promotion_attempts := promotion_attempts db ++ [a] }}.

Definition count_promotion_attempt_rejections (db : AgentDb) (alias digest : string) : nat :=
  length (List.filter (is_rejection alias digest) (promotion_attempts db)).

Definition reset_promotion_attempts (alias digest : string) (db : AgentDb) : AgentDb * nat :=
  (db{{ promotion_attempts :=
          List.filter (λ a, negb (is_rejection alias digest a)) (promotion_attempts db) }},
   count_promotion_attempt_rejections db alias digest).

Definition record_rejected_promotion_attempt (alias rid digest : string) (gate error session wf : option string)
    (max_attempts : nat) (now : Instant) (db : AgentDb) : AgentDb * option nat :=
  let a := {| pa_alias_id := alias; pa_revision_id := rid; pa_content_digest := digest;
              outcome := "rejected"; gate := gate; error_code := error; pa_session_id := session;
              pa_workflow_id := wf; pa_created_at := now |} in
  let count := count_promotion_attempt_rejections db alias digest in
  if negb (max_attempts =? 0)%nat && (max_attempts <=? count)%nat then (db, Some count)
  else (record_promotion_attempt a db, None).

(** SQL [LIKE] without [ESCAPE], on ASCII. *)
Fixpoint sql_like (pattern s : string) : bool :=
  match pattern with
  | "" => str_is_empty s
  | String p r =>
      if (p =? "%")%char then
        (fix any (s : string) : bool :=
           sql_like r s || match s with "" => false | String _ s' => any s' end) s
      else match s with
           | "" => false
           | String c s' =>
               ((p =? "_")%char || (to_ascii_lowercase p =? to_ascii_lowercase c)%char) && sql_like r s'
           end
  end.

Definition attempt_older (a b : PromotionAttempt) : comparison :=
  Z.compare (pa_created_at a) (pa_created_at b).

Definition list_promoted_agents_by_root_session (db : AgentDb) (root : string)
    : list (string * string * Instant) :=
  map (λ a, (pa_alias_id a, pa_revision_id a, pa_created_at a))
    (sort_by attempt_older
       (List.filter (λ a, (outcome a =? "promoted")%string &&
          match pa_session_id a with
          | Some s => (s =? root)%string || sql_like (root ++ "/%") s
          | None => false
          end) (promotion_attempts db))).

(** ** Sessions *)

Definition upsert_session_agent_binding (b : SessionAgentBinding) (db : AgentDb) : AgentDb :=
  db{{ bindings := <[sb_session_id b := b]> (bindings db) }}.

Definition get_session_agent_binding (db : AgentDb) (session : string) : option SessionAgentBinding :=
  bindings db !! session.

Definition record_session_wake (session : string) (now : Instant) (db : AgentDb) : AgentDb :=
  db{{ session_liveness :=
         <[session := match session_liveness db !! session with
                      | Some l => l{{ last_woken_at := Some now }}
                      | None => {| last_woken_at := Some now; last_closed_at := None;
                                   resumable := false |}
                      end]> (session_liveness db) }}.

Definition record_session_close (session : string) (can_resume : bool) (now : Instant) (db : AgentDb)
    : AgentDb :=
  db{{ session_liveness :=
         <[session := match session_liveness db !! session with
                      | Some l => l{{ last_closed_at := Some now; resumable := can_resume }}
                      | None => {| last_woken_at := None; last_closed_at := Some now;
                                   resumable := can_resume |}
                      end]> (session_liveness db) }}.

(** The [CASE] over the liveness and outcome rows of a session. *)
Definition ledger_unfinished (db : AgentDb) (session : string) : bool :=
  match session_liveness db !! session with
  | None => negb (bool_decide (session ∈ session_outcomes db))
  | Some l =>
      match last_closed_at l with
      | None => true
      | Some closed =>
          resumable l
          || match last_woken_at l with Some woken => bool_decide (closed < woken)%Z | None => false end
      end
  end.

Definition binding_older (a b : SessionAgentBinding) : comparison :=
  Z.compare (sb_created_at a) (sb_created_at b).

Definition list_unfinished_sessions_for_agent (db : AgentDb) (agent_id : string) : list string :=
  map sb_session_id
    (sort_by binding_older
       (List.filter (λ b, (sb_agent_id b =? agent_id)%string && ledger_unfinished db (sb_session_id b))
          (map_to_list (bindings db)).*2)).

Definition list_sessions_for_agent (db : AgentDb) (agent_id : string) : list string :=
  map sb_session_id (List.filter (λ b, (sb_agent_id b =? agent_id)%string) (map_to_list (bindings db)).*2).

(** *** Residency *)

Definition upsert_residency (r : SessionResidency) (db : AgentDb) : AgentDb :=
  db{{ session_residency :=
         <[sr_session_id r := match session_residency db !! sr_session_id r with
                              | Some old => old{{ sr_turn_id := sr_turn_id r; since := since r;
                                                  expires_at := expires_at r }}
                              | None => r
                              end]> (session_residency db) }}.

Definition clear_residency (session : string) (db : AgentDb) : AgentDb :=
  db{{ session_residency := delete session (session_residency db) }}.

Definition update_residency_agent (session agent_id : string) (db : AgentDb) : AgentDb :=
  db{{ session_residency := alter (λ r, r{{ sr_agent_id := agent_id }}) session (session_residency db) }}.

Definition get_residency (db : AgentDb) (session : string) : option SessionResidency :=
  session_residency db !! session.

Definition resident_since (a b : SessionResidency) : comparison := Z.compare (since a) (since b).

Definition list_resident_sessions_for_agent (db : AgentDb) (agent_id : string) (now : Instant)
    : list string :=
  map sr_session_id
    (sort_by resident_since
       (List.filter (λ r, (sr_agent_id r =? agent_id)%string && bool_decide (now < expires_at r)%Z)
          (map_to_list (session_residency db)).*2)).

Definition expires_first (a b : SessionResidency) : comparison := Z.compare (expires_at a) (expires_at b).

Definition list_expired_residencies (db : AgentDb) (now : Instant) : list SessionResidency :=
  sort_by expires_first
    (List.filter (λ r, bool_decide (expires_at r ≤ now)%Z) (map_to_list (session_residency db)).*2).

(** *** Addressability *)

(** Append what was not seen yet. *)
Definition push_unseen (l : list string) (s : string) : list string :=
  if bool_decide (s ∈ l) then l else l ++ [s].

Definition list_addressable_sessions_for_agent (db : AgentDb) (agent_id : string) (now : Instant)
    : list string :=
  fold_left push_unseen (list_unfinished_sessions_for_agent db agent_id)
    (list_resident_sessions_for_agent db agent_id now).

Definition is_session_addressable (db : AgentDb) (session : string) (now : Instant) : bool :=
  match session_residency db !! session with
  | Some r => if bool_decide (now < expires_at r)%Z then true else ledger_unfinished db session
  | None => ledger_unfinished db session
  end.

(** ** Resolution: agent/repository.rs *)

Definition resolve_explicit (db : AgentDb) (target agent_part rev_part : string)
    : result (AgentRef * AgentRevisionRecord) RegistryError :=
  match parse_agent_ref target with
  | Some r =>
      match get_agent_revision db (ref_revision_id r) with
      | None => Err (RevisionNotFound (ref_revision_id r))
      | Some rev =>
          if negb (rev_agent_id rev =? ref_agent_id r)%string
          then Err (RevisionOfOther (ref_revision_id r) (rev_agent_id rev))
          else Ok (r, rev)
      end
  | None =>
      match strip_prefix rev_part "rev_" with
      | Some (String c short) =>
          match lookup_short_id db (String c short) with
          | Some full =>
              match get_agent_revision db full with
              | None => Err (RevisionNotFound full)
              | Some rev =>
                  if negb (rev_agent_id rev =? agent_part)%string
                  then Err (RevisionOfOther full (rev_agent_id rev))
                  else Ok ({| ref_agent_id := rev_agent_id rev; ref_revision_id := revision_id rev |}, rev)
              end
          | None => Err (InvalidAgentRef target)
          end
      | _ => Err (InvalidAgentRef target)
      end
  end.

Definition candidate_hint (db : AgentDb) (alias : string) : option string :=
  revision_id <$> List.find (λ r, bool_decide (rev_status r = Candidate)) (list_agent_revisions db alias).

Definition resolve_agent (db : AgentDb) (target : string)
    : result (AgentRef * AgentRevisionRecord) RegistryError :=
  match parse_agent_target target with
  | Some (ExplicitRef agent_part rev_part) => resolve_explicit db target agent_part rev_part
  | Some (AliasId alias) =>
      match resolve_alias db alias with
      | None => Err (NoAlias alias (candidate_hint db alias))
      | Some al =>
          match get_agent_revision db (al_revision_id al) with
          | None => Err (RevisionNotFound (al_revision_id al))
          | Some rev => Ok ({| ref_agent_id := al_agent_id al; ref_revision_id := al_revision_id al |}, rev)
          end
      end
  | None => Err (InvalidTarget target)
  end.

(** The revision a new session is to run: the one asked for, or what the target
    resolves to. *)
Definition choose_revision (db : AgentDb) (target : string) (revision : option string)
    : result (AgentRef * AgentRevisionRecord) RegistryError :=
  match revision with
  | Some rid =>
      let agent := match parse_agent_target target with
                   | Some (AliasId alias) => match resolve_alias db alias with
                                             | Some al => al_agent_id al
                                             | None => alias
                                             end
                   | Some (ExplicitRef agent _) => agent
                   | None => target
                   end in
      match get_agent_revision db rid with
      | None => Err (RevisionNotFound rid)
      | Some rev =>
          if negb (rev_agent_id rev =? agent)%string
          then Err (RevisionOfOther rid (rev_agent_id rev))
          else Ok ({| ref_agent_id := agent; ref_revision_id := rid |}, rev)
      end
  | None => resolve_agent db target
  end.

Definition is_suspended (db : AgentDb) (agent_id : string) : bool :=
  match resolve_alias db agent_id with
  | Some al => match suspended_at al with Some _ => true | None => false end
  | None => false
  end.

Definition resolve_and_pin_session_with_revision (session root target : string)
    (revision : option string) (home_node : string) (constitution : option (string * string))
    (now : Instant) (db : AgentDb)
    : AgentDb * result (AgentRef * AgentRevisionRecord * SessionAgentBinding) RegistryError :=
  match get_session_agent_binding db session with
  | Some existing =>
      match get_agent_revision db (sb_revision_id existing) with
      | None => (db, Err (RevisionNotFound (sb_revision_id existing)))
      | Some rev => (db, Ok ({| ref_agent_id := sb_agent_id existing;
                                ref_revision_id := sb_revision_id existing |}, rev, existing))
      end
  | None =>
      match choose_revision db target revision with
      | Err e => (db, Err e)
      | Ok (r, rev) =>
          if is_suspended db (ref_agent_id r) then (db, Err (AgentSuspended (ref_agent_id r)))
          else
            let b := {| sb_session_id := session; sb_root_session_id := root;
                        sb_alias_id := match parse_agent_target target with
                                       | Some (AliasId alias) => Some alias
                                       | _ => None
                                       end;
                        sb_agent_id := ref_agent_id r; sb_revision_id := ref_revision_id r;
                        sb_runtime_lock_hash := runtime_lock_hash rev;
                        constitution_version := fst <$> constitution;
                        constitution_digest := snd <$> constitution;
                        home_node_id := home_node; sb_created_at := now; requested_target := target |} in
            (upsert_session_agent_binding b db, Ok (r, rev, b))
      end
  end.
