(* ===== verification/PromotionGate.v ===== *)
(** * The promotion gate

    Gates [agent_revision_promote] passes before the alias moves
    (runtime/tools/agent_revision.rs): which review a revision needs, the review
    itself, the jury of the federation roles, the protected agents, and the
    safety governor of runtime/promotion_governor.rs with its ledger of rejected
    attempts.  A refusal is its stable error code; its message is left out.

    The approval of the operator comes from the approvals and is an argument. *)

From Stdlib Require Import Ascii String Lia.
From stdpp Require Import prelude gmap strings list sorting.
From coqutil Require Import Datatypes.RecordSetters.
From S2P Require Import Prelude RustStr Json Capability Promotion AgentRevision AgentRegistry.
Import DoubleBraceUpdate.

Open Scope string_scope.
Open Scope list_scope.

(** ** The governor: promotion_governor.rs *)

Record PromotionGovernorConfig := {
  governor_enabled : bool;
  velocity_window_hours : nat;
  max_promotions_per_window : nat;
  flapping_lookback : nat;
  eval_regression_streak : nat;
  eval_regression_lookback : nat;
  max_promotion_attempts_per_revision : nat;
}.

Inductive GovernorRejection : Type :=
| VelocityExceeded (recent_promotions : nat) (next_allowed_at : option Instant)
| FlappingDetected (recent_revisions : list string)
| EvalRegression (recent_finding_counts : list nat)
| AttemptsExhausted (rejected_attempts : nat).

Definition rejection_error (r : GovernorRejection) : string :=
  match r with
  | VelocityExceeded _ _ => "promotion_velocity_exceeded"
  | FlappingDetected _ => "promotion_flapping_detected"
  | EvalRegression _ => "promotion_eval_regression"
  | AttemptsExhausted _ => "promotion_attempts_exhausted"
  end.

(** An [Instant] counts nanoseconds; a window chrono cannot represent is out of
    the model. *)
Definition window_of (cfg : PromotionGovernorConfig) : Z :=
  (Z.of_nat (velocity_window_hours cfg) * 3600 * 10 ^ 9)%Z.

Definition is_promote (p : PromotionHistoryRow) : bool := bool_decide (kind p = Promote).

Definition compute_next_allowed_at (db : AgentDb) (agent_id : string) (cfg : PromotionGovernorConfig)
    (now : Instant) : option Instant :=
  let start := (now - window_of cfg)%Z in
  let in_window :=
    sort_by Z.compare
      (List.filter (λ t, bool_decide (start ≤ t)%Z)
         (map ph_created_at
            (List.filter is_promote
               (list_recent_promotion_history db agent_id (max_promotions_per_window cfg))))) in
  if (length in_window <? max_promotions_per_window cfg)%nat then None
  else (λ t, (t + window_of cfg)%Z) <$> head in_window.

Definition check_velocity (cfg : PromotionGovernorConfig) (db : AgentDb) (agent_id : string)
    (now : Instant) : option GovernorRejection :=
  if (max_promotions_per_window cfg =? 0)%nat || (velocity_window_hours cfg =? 0)%nat then None
  else
    let count := count_promotions_since db agent_id (now - window_of cfg)%Z in
    if (count <? max_promotions_per_window cfg)%nat then None
    else Some (VelocityExceeded count (compute_next_allowed_at db agent_id cfg now)).

Definition check_flapping (cfg : PromotionGovernorConfig) (db : AgentDb) (agent_id candidate : string)
    : option GovernorRejection :=
  if (flapping_lookback cfg =? 0)%nat then None
  else
    let recent := List.filter is_promote
                    (list_recent_promotion_history db agent_id (flapping_lookback cfg)) in
    if negb (existsb (λ p, (new_revision_id p =? candidate)%string) recent) then None
    else Some (FlappingDetected (map new_revision_id recent)).

Definition is_non_info (f : Finding) : bool := negb (bool_decide (severity f = SevInfo)).

Definition non_info_finding_count (p : PromotionRecord) : nat :=
  length (List.filter is_non_info
    (findings (evaluator p) ++ findings (auditor p) ++ findings (static_evaluator p)
     ++ findings (unit_test_runner p) ++ findings (sealed_evaluator p))).

(** The count of a promoted revision that has an artifact with a record. *)
Definition finding_count_of (db : AgentDb) (st : Registry) (row : PromotionHistoryRow) : option nat :=
  rev ← get_agent_revision db (new_revision_id row);
  artifact ← rev_artifact_id rev;
  p ← st !! artifact;
  Some (non_info_finding_count p).

(** [tail.windows(2).all(|w| w[0] < w[1])]. *)
Fixpoint strictly_increasing (l : list nat) : bool :=
  match l with
  | x :: ((y :: _) as r) => (x <? y)%nat && strictly_increasing r
  | _ => true
  end.

Definition check_eval_regression (cfg : PromotionGovernorConfig) (db : AgentDb) (st : Registry)
    (agent_id : string) : option GovernorRejection :=
  if (eval_regression_streak cfg =? 0)%nat || (eval_regression_lookback cfg =? 0)%nat then None
  else
    let recent := List.filter is_promote
                    (list_recent_promotion_history db agent_id (eval_regression_lookback cfg)) in
    let counts := omap (finding_count_of db st) (rev recent) in
    let need := eval_regression_streak cfg in
    if (length counts <? need + 1)%nat then None
    else
      let tail := drop (length counts - (need + 1)) counts in
      if negb (strictly_increasing tail) then None else Some (EvalRegression tail).

Definition run_governor_checks (cfg : PromotionGovernorConfig) (db : AgentDb) (st : Registry)
    (agent_id rid : string) (now : Instant) : option GovernorRejection :=
  if governor_enabled cfg then
    match check_velocity cfg db agent_id now with
    | Some r => Some r
    | None => match check_flapping cfg db agent_id rid with
              | Some r => Some r
              | None => check_eval_regression cfg db st agent_id
              end
    end
  else None.

Definition check_attempt_exhaustion (cfg : PromotionGovernorConfig) (db : AgentDb) (agent_id digest : string)
    : option GovernorRejection :=
  let count := count_promotion_attempt_rejections db agent_id digest in
  if (max_promotion_attempts_per_revision cfg =? 0)%nat
     || (count <? max_promotion_attempts_per_revision cfg)%nat then None
  else Some (AttemptsExhausted count).

Definition record_rejected_attempt (cfg : PromotionGovernorConfig) (agent_id rid digest : string)
    (gate error session wf : option string) (now : Instant) (db : AgentDb)
    : AgentDb * option GovernorRejection :=
  let '(db, c) := record_rejected_promotion_attempt agent_id rid digest gate error session wf
                    (max_promotion_attempts_per_revision cfg) now db in
  (db, AttemptsExhausted <$> c).

(** ** The attempt under way *)

Record PromoteCall := {
  call_rev : AgentRevisionRecord;
  call_agent_id : string;
  call_session : option string;
  call_workflow : option string;
  call_cfg : PromotionGovernorConfig;
  call_now : Instant;
}.

(** The closure [record_attempt] and what a caller of it answers: the exhaustion
    when the cap is reached, the code of the gate otherwise. *)
Definition record_attempt (c : PromoteCall) (out : string) (gate error : option string) (db : AgentDb)
    : AgentDb * option GovernorRejection :=
  let rev := call_rev c in
  if (out =? "rejected")%string then
    record_rejected_attempt (call_cfg c) (call_agent_id c) (revision_id rev) (rev_content_digest rev)
      gate error (call_session c) (call_workflow c) (call_now c) db
  else
    (record_promotion_attempt
       {| pa_alias_id := call_agent_id c; pa_revision_id := revision_id rev;
          pa_content_digest := rev_content_digest rev; outcome := out; gate := gate;
          error_code := error; pa_session_id := call_session c; pa_workflow_id := call_workflow c;
          pa_created_at := call_now c |} db, None).

Definition refuse (c : PromoteCall) (gate code : string) (db : AgentDb) : AgentDb * option string :=
  match record_attempt c "rejected" (Some gate) (Some code) db with
  | (db, Some r) => (db, Some (rejection_error r))
  | (db, None) => (db, Some code)
  end.

(** ** The review *)

Inductive PromotionGateMode : Type := FullMode | AuditOnly | FullJury.

Definition is_high_risk_capability (cap : Capability) : bool :=
  match cap with
  | NetworkAccess _ | CodeExecution _ _ | ArtifactExecution | AgentSpawn _ _ => true
  | _ => false
  end.

Definition requires_artifact_review (cap : Capability) : bool :=
  match cap with CodeExecution _ _ | ArtifactExecution | AgentSpawn _ _ => true | _ => false end.

(** [evaluator_id.or(sealed_evaluator_id).or(static_evaluator_id)]. *)
Definition evaluator_identity (p : PromotionRecord) : option string :=
  match slot_id (evaluator p) with
  | Some id => Some id
  | None => match slot_id (sealed_evaluator p) with
            | Some id => Some id
            | None => slot_id (static_evaluator p)
            end
  end.

Definition mode_checks (mode : PromotionGateMode) (rev : AgentRevisionRecord) (p : PromotionRecord)
    (audit_id : string) : option string :=
  match mode with
  | FullMode =>
      if negb (pass (evaluator p) || pass (sealed_evaluator p) || pass (static_evaluator p))
      then Some "evaluator_pass_missing"
      else match evaluator_identity p with
           | None => Some "evaluator_identity_missing"
           | Some eval_id => if (eval_id =? audit_id)%string then Some "gate_identity_collision" else None
           end
  | AuditOnly => if (audit_id =? rev_created_by_id rev)%string then Some "gate_identity_collision" else None
  | FullJury => None
  end.

Definition has_unresolved_dependencies (rev : AgentRevisionRecord) : bool :=
  default false (v ← json_get (metadata_json rev) "has_unresolved_dependencies"; json_as_bool v).

Definition gate_checks (mode : PromotionGateMode) (rev : AgentRevisionRecord) (p : PromotionRecord)
    : option string :=
  if negb (bool_decide (pr_content_digest p = Some (rev_content_digest rev)))
  then Some "promotion_gate_content_digest_mismatch"
  else if negb (pass (auditor p)) then Some "auditor_pass_missing"
  else match slot_id (auditor p) with
  | None => Some "auditor_identity_missing"
  | Some audit_id =>
      match mode_checks mode rev p audit_id with
      | Some code => Some code
      | None =>
          if is_some (slot_id (unit_test_runner p)) && negb (pass (unit_test_runner p))
          then Some "unit_test_runner_pass_missing"
          else if has_unresolved_dependencies rev then Some "unresolved_dependencies"
          else None
      end
  end.

Section Gate.
Context (get_execution_trace : string → option ExecutionTraceRecord).

Definition enforce_promotion_gate (c : PromoteCall) (artifact_id : string) (mode : PromotionGateMode)
    (st : Registry) (db : AgentDb) : Registry * (AgentDb * option string) :=
  let st := (bind_content_digest_if_unset artifact_id (rev_content_digest (call_rev c)) st).1 in
  match st !! artifact_id with
  | None => (st, refuse c "promotion_gate" "promotion_record_missing" db)
  | Some p =>
      match gate_checks mode (call_rev c) p with
      | Some code => (st, refuse c "promotion_gate" code db)
      | None =>
          match verify_stored_execution_traces get_execution_trace p with
          | Some code =>
              (st, ((record_attempt c "rejected" (Some "promotion_gate") (Some code) db).1, Some code))
          | None => (st, (db, None))
          end
      end
  end.

(** Which review a revision needs. *)
Inductive ReviewKind : Type :=
| Review (artifact_id : string) (mode : PromotionGateMode)
| DirectPromote
| Incomplete
| ArtifactMissing.

Definition select_review (caps : list Capability) (artifact : option string) (allow_direct : bool)
    : ReviewKind :=
  let needs_artifact_gate := existsb requires_artifact_review caps in
  let has_high_risk := existsb is_high_risk_capability caps in
  let inoffensive := bool_decide (length caps = 0) in
  match artifact with
  | Some a =>
      if needs_artifact_gate || has_high_risk then Review a FullMode
      else if negb inoffensive then Review a AuditOnly
      else if allow_direct then DirectPromote else Incomplete
  | None =>
      if needs_artifact_gate then ArtifactMissing
      else if inoffensive && allow_direct then DirectPromote else Incomplete
  end.

(** A refusal with its code, or the error of a revision that needs an artifact. *)
Inductive ReviewRefusal : Type := Refused (code : string) | NoArtifact.

Definition review_gate (c : PromoteCall) (caps : list Capability) (allow_direct : bool)
    (st : Registry) (db : AgentDb) : Registry * (AgentDb * option ReviewRefusal) :=
  match select_review caps (rev_artifact_id (call_rev c)) allow_direct with
  | Review a mode =>
      let '(st, (db, r)) := enforce_promotion_gate c a mode st db in (st, (db, Refused <$> r))
  | DirectPromote => (st, (db, None))
  | Incomplete =>
      (st, ((record_attempt c "rejected" (Some "promotion_incomplete") (Some "promotion_incomplete") db).1,
            Some (Refused "promotion_incomplete")))
  | ArtifactMissing => (st, (db, Some NoArtifact))
  end.

(** The jury of the federation roles; [approved]: the operator approved the
    escalation of this revision. *)
Definition jury_gate (c : PromoteCall) (approved : bool) (st : Registry) (db : AgentDb)
    : AgentDb * option string :=
  match rev_artifact_id (call_rev c) with
  | None => (db, None)
  | Some a =>
      if negb (has_federation_roles a st) then (db, None)
      else
        let ids := federation_agent_ids a st in
        if existsb (λ id, (id =? rev_created_by_id (call_rev c))%string) ids
        then refuse c "full_jury" "jury_identity_collision" db
        else if negb (bool_decide (NoDup ids)) then refuse c "full_jury" "jury_identity_collision" db
        else if negb approved then refuse c "full_jury" "jury_escalation_required" db
        else (db, None)
  end.

(** [protected_agents], when enabled, and the governor with its override. *)
Definition protected_gate (c : PromoteCall) (protected : list string) (eval_run : option string)
    (db : AgentDb) : AgentDb * option string :=
  if existsb (λ a, (a =? call_agent_id c)%string) protected && negb (is_some eval_run)
  then refuse c "protected_agent" "protected_agent_requires_eval_run" db
  else (db, None).

Definition governor_gate (c : PromoteCall) (force : bool) (force_reason : option string)
    (st : Registry) (db : AgentDb) : AgentDb * option string :=
  if force then
    let reason := trim (default "" force_reason) in
    if str_is_empty reason then
      ((record_attempt c "validation_failed" (Some "governor_force")
          (Some "governor_force_requires_reason") db).1, Some "governor_force_requires_reason")
    else if (512 <? String.length reason)%nat then
      ((record_attempt c "validation_failed" (Some "governor_force")
          (Some "governor_force_reason_too_long") db).1, Some "governor_force_reason_too_long")
    else (db, None)
  else match run_governor_checks (call_cfg c) db st (call_agent_id c) (revision_id (call_rev c)) (call_now c) with
       | Some r => refuse c "governor" (rejection_error r) db
       | None => (db, None)
       end.

(** The end of the handler: the alias moves and the ledger says so. *)
Definition commit_promotion (c : PromoteCall) (pid by_id : string) (reason eval_run pre_auth : option string)
    (db : AgentDb) : AgentDb * result (option string) RegistryError :=
  match atomic_promote (call_agent_id c) (revision_id (call_rev c)) pid "agent" by_id reason eval_run
          pre_auth (call_now c) db with
  | (db, Ok previous) => ((record_attempt c "promoted" None None db).1, Ok previous)
  | (db, Err e) => (db, Err e)
  end.
End Gate.
