(* ===== verification/RegistrySpec.v ===== *)
(** * The agent registry: invariants and contracts

    What the tables of [AgentRegistry] keep true under every operation of the
    store that moves a revision or an alias, and what the promotion history, the
    pins of sessions, suspension and short references promise. *)

From Stdlib Require Import Ascii String Lia.
From stdpp Require Import prelude gmap strings list sorting.
From coqutil Require Import Datatypes.RecordSetters.
From S2P Require Import Prelude RustStr Json AgentRevision AgentRegistry.
Import DoubleBraceUpdate.

Open Scope string_scope.
Open Scope list_scope.

(** ** Operations *)

Inductive RegistryOp : Type :=
| OpCreate (rev : AgentRevisionRecord)
| OpArchiveCandidates (seen : list AgentRevisionRecord)
| OpPromote (agent_id rid pid by_type by_id : string) (reason eval_run pre_auth : option string)
| OpRollback (agent_id rid pid by_type by_id : string) (reason : option string)
| OpRollbackTool (agent_id : string) (rid : option string) (pid by_id : string) (reason : option string)
| OpSuspend (agent_id by_id : string) (reason : option string)
| OpUnsuspend (agent_id : string)
| OpPin (session root target : string) (revision : option string) (home : string)
    (constitution : option (string * string))
| OpWake (session : string)
| OpClose (session : string) (can_resume : bool)
| OpPark (r : SessionResidency)
| OpUnpark (session : string)
| OpAttempt (a : PromotionAttempt)
| OpRejected (alias rid digest : string) (gate error session wf : option string) (cap : nat)
| OpResetAttempts (alias digest : string)
| OpImport (rev : AgentRevisionRecord) (activate : bool)
| OpReclaim (max_age_days : nat).

Definition registry_step (now : Instant) (db : AgentDb) (op : RegistryOp) : AgentDb :=
  match op with
  | OpCreate rev => (create_revision (rev{{ rev_status := Candidate }}) db).1
  | OpArchiveCandidates seen => archive_candidates seen db
  | OpPromote a r p bt bi reason eval pre => (atomic_promote a r p bt bi reason eval pre now db).1
  | OpRollback a r p bt bi reason => (atomic_rollback a r p bt bi reason now db).1
  | OpRollbackTool a r p bi reason => (rollback_tool a r p bi reason now db).1
  | OpSuspend a bi reason => (suspend_agent a bi reason now db).1
  | OpUnsuspend a => (unsuspend_agent a db).1
  | OpPin s root t r h k => (resolve_and_pin_session_with_revision s root t r h k now db).1
  | OpWake s => record_session_wake s now db
  | OpClose s r => record_session_close s r now db
  | OpPark r => upsert_residency r db
  | OpUnpark s => clear_residency s db
  | OpAttempt a => record_promotion_attempt a db
  | OpRejected al r d g e s w cap => (record_rejected_promotion_attempt al r d g e s w cap now db).1
  | OpResetAttempts al d => (reset_promotion_attempts al d db).1
  | OpImport rev activate => (import_revision (rev{{ rev_status := Candidate }}) activate now db).1
  | OpReclaim days => delete_archived_revisions days now db
  end.

Definition run_registry (db : AgentDb) (ops : list (Instant * RegistryOp)) : AgentDb :=
  fold_left (λ db op, registry_step op.1 db op.2) ops db.

(** The two writers that go round the promotion transaction: a capsule import that
    binds the alias itself, and the clean-up of [create_from_intent], which
    archives the candidates of a list it read earlier - here when one of them has
    become ready since. *)
Definition undisturbing (db : AgentDb) (op : RegistryOp) : Prop :=
  match op with
  | OpImport _ activate => activate = false
  | OpArchiveCandidates seen => ∀ r r', r ∈ seen → rev_status r = Candidate →
      revisions db !! revision_id r = Some r' → rev_status r' ≠ Ready
  | _ => True
  end.

Fixpoint undisturbed (db : AgentDb) (ops : list (Instant * RegistryOp)) : Prop :=
  match ops with
  | [] => True
  | op :: ops => undisturbing db op.2 ∧ undisturbed (registry_step op.1 db op.2) ops
  end.

(** ** The invariant *)

(** What a row of the history made active for its agent, oldest row first. *)
Definition replay (h : list PromotionHistoryRow) : gmap string string :=
  fold_left (λ m p, <[ph_agent_id p := new_revision_id p]> m) h ∅.

(** Every row names the revision its agent left. *)
Fixpoint chained (active : gmap string string) (h : list PromotionHistoryRow) : Prop :=
  match h with
  | [] => True
  | p :: h => previous_revision_id p = active !! ph_agent_id p ∧
              chained (<[ph_agent_id p := new_revision_id p]> active) h
  end.

Record registry_wf (db : AgentDb) : Prop := {
  wf_keys : map_Forall (λ k r, revision_id r = k) (revisions db);
  wf_alias : map_Forall (λ k al, alias_id al = k ∧ al_agent_id al = k ∧
    ∃ r, revisions db !! al_revision_id al = Some r ∧ rev_agent_id r = k ∧ rev_status r = Ready)
    (agent_aliases db);
  wf_ready : map_Forall (λ k r, rev_status r = Ready → current_revision db (rev_agent_id r) = Some k)
    (revisions db);
  wf_replay : ∀ a, current_revision db a = replay (promotion_history db) !! a;
  wf_chain : chained ∅ (promotion_history db);
}.

(** ** Lemmas *)

Lemma replay_snoc h p : replay (h ++ [p]) = <[ph_agent_id p := new_revision_id p]> (replay h).
Proof. unfold replay. by rewrite fold_left_app. Qed.

Lemma chained_snoc m h p :
  chained m (h ++ [p]) ↔ chained m h ∧
    previous_revision_id p = fold_left (λ m p, <[ph_agent_id p := new_revision_id p]> m) h m !! ph_agent_id p.
Proof. revert m. induction h as [|q h IH]; intros m; simpl; [tauto|]. rewrite IH. tauto. Qed.

Lemma chained_app m h h' : chained m (h ++ h') → chained m h.
Proof. revert m. induction h as [|q h IH]; intros m; simpl; [done|]. intros [? ?]. split; [done|by apply IH]. Qed.

Lemma replay_is_some h a : is_Some (replay h !! a) ↔ ∃ p, p ∈ h ∧ ph_agent_id p = a.
Proof.
  induction h as [|p h IH] using rev_ind.
  - split; [by intros []|]. by intros (p & ?%not_elem_of_nil & _).
  - rewrite replay_snoc, lookup_insert. setoid_rewrite elem_of_app. setoid_rewrite list_elem_of_singleton.
    case_decide; [naive_solver|]. rewrite IH. naive_solver.
Qed.

(** A database with the same three tables. *)
Lemma wf_same db db' :
  revisions db' = revisions db → agent_aliases db' = agent_aliases db →
  promotion_history db' = promotion_history db → registry_wf db → registry_wf db'.
Proof.
  intros Hr Ha Hh H. destruct H. split; unfold current_revision in *; rewrite ?Hr, ?Ha, ?Hh in *; done.
Qed.

Lemma lookup_update_status k s db k' :
  revisions (update_agent_revision_status k s db) !! k' =
  if decide (k = k') then (λ r, r{{ rev_status := s }}) <$> revisions db !! k' else revisions db !! k'.
Proof.
  cbn. case_decide as E; [subst; apply lookup_alter_eq|by apply lookup_alter_ne].
Qed.

Lemma set_status_wf k s r db :
  registry_wf db → revisions db !! k = Some r → rev_status r ≠ Ready → s ≠ Ready →
  registry_wf (update_agent_revision_status k s db).
Proof.
  intros [Hk Ha Hr Hp Hc] Hkr Hst Hs. split; [| | |done..].
  - intros k' r'. rewrite lookup_update_status. case_decide; [|by apply Hk].
    intros (r0 & H0 & ->)%fmap_Some. by apply Hk in H0.
  - intros k' al Hal. destruct (Ha k' al Hal) as (E1 & E2 & r0 & H0 & E3 & E4). split_and!; [done..|].
    exists r0. rewrite lookup_update_status. case_decide; [|done]. naive_solver.
  - intros k' r'. rewrite lookup_update_status. case_decide; [|by apply Hr].
    by intros (r0 & H0 & ->)%fmap_Some.
Qed.

(** *** Moving an alias *)

Lemma current_revision_alias db a k :
  registry_wf db → current_revision db a = Some k →
  ∃ r, revisions db !! k = Some r ∧ rev_agent_id r = a ∧ rev_status r = Ready.
Proof.
  intros H. unfold current_revision. destruct (agent_aliases db !! a) as [al|] eqn:E; [|done].
  destruct (wf_alias db H a al E) as (_ & E2 & r & Hr & Hag & Hst). rewrite E2, (String.eqb_refl a).
  intros [= <-]. by exists r.
Qed.

Definition moved_revisions (rid : string) (previous : option string)
    (m : gmap string AgentRevisionRecord) (k : string) : option AgentRevisionRecord :=
  if decide (k = rid) then (λ r, r{{ rev_status := Ready }}) <$> m !! k
  else if decide (previous = Some k) then (λ r, r{{ rev_status := Archived }}) <$> m !! k
  else m !! k.

Section Move.
Context (a rid bt bi : string) (reason : option string) (keep : bool) (now : Instant) (db : AgentDb).
Notation db' := (move_alias a rid bt bi reason keep now db).

Lemma move_revisions k :
  revisions db' !! k = moved_revisions rid (current_revision db a) (revisions db) k.
Proof.
  unfold move_alias, moved_revisions.
  destruct (current_revision db a) as [prev|] eqn:Ep.
  - destruct (String.eqb_spec prev rid) as [->|Hne].
    + rewrite lookup_update_status. cbn. repeat case_decide; naive_solver.
    + rewrite lookup_update_status, lookup_update_status. cbn. repeat case_decide; naive_solver.
  - rewrite lookup_update_status. cbn. repeat case_decide; naive_solver.
Qed.

Lemma move_history : promotion_history db' = promotion_history db.
Proof. unfold move_alias. destruct (current_revision db a); [case_match|]; done. Qed.

Lemma move_aliases :
  agent_aliases db' = replace_alias
    {| alias_id := a; al_agent_id := a; al_revision_id := rid; updated_at := now;
       updated_by_type := bt; updated_by_id := bi; al_reason := reason;
       suspended_at := if keep then al ← agent_aliases db !! a; suspended_at al else None;
       suspended_reason := if keep then al ← agent_aliases db !! a; suspended_reason al else None;
       suspended_by := if keep then al ← agent_aliases db !! a; suspended_by al else None |}
    (agent_aliases db).
Proof. unfold move_alias. destruct (current_revision db a); [case_match|]; done. Qed.

Hypothesis wf : registry_wf db.

Lemma move_alias_other k : k ≠ a → agent_aliases db' !! k = agent_aliases db !! k.
Proof.
  intros Hk. rewrite move_aliases. unfold replace_alias. cbn. rewrite lookup_insert_ne by done.
  rewrite map_lookup_filter. destruct (agent_aliases db !! k) as [al|] eqn:E; [|done]. simpl.
  destruct (wf_alias db wf k al E) as (_ & -> & _). by case_guard.
Qed.

Lemma move_alias_here : ∃ al, agent_aliases db' !! a = Some al ∧ alias_id al = a ∧ al_agent_id al = a ∧
  al_revision_id al = rid ∧
  suspended_at al = if keep then al ← agent_aliases db !! a; suspended_at al else None.
Proof.
  rewrite move_aliases. unfold replace_alias. cbn. rewrite lookup_insert_eq. by eexists.
Qed.

Lemma move_current x :
  current_revision db' x = if decide (x = a) then Some rid else current_revision db x.
Proof.
  unfold current_revision at 1. case_decide as E.
  - subst x. destruct move_alias_here as (al & -> & _ & -> & -> & _). by rewrite String.eqb_refl.
  - by rewrite move_alias_other.
Qed.

Context (rev : AgentRevisionRecord) (row : PromotionHistoryRow).
Hypothesis (Hrev : revisions db !! rid = Some rev) (Hag : rev_agent_id rev = a).
Hypothesis (Hrow : ph_agent_id row = a ∧ new_revision_id row = rid ∧
  previous_revision_id row = current_revision db a).

Lemma move_wf db'' :
  revisions db'' = revisions db' → agent_aliases db'' = agent_aliases db' →
  promotion_history db'' = promotion_history db ++ [row] → registry_wf db''.
Proof.
  intros Hr Ha Hh. destruct Hrow as (Era & Ern & Erp). pose proof wf as [Wk Wa Wr Wp Wc].
  assert (∀ x, current_revision db'' x = if decide (x = a) then Some rid else current_revision db x) as Hcur.
  { intros x. unfold current_revision at 1. rewrite Ha. apply move_current. }
  split.
  - intros k r. rewrite Hr, move_revisions. unfold moved_revisions.
    repeat case_decide; [intros (r0 & Hlk & ->)%fmap_Some; by apply Wk in Hlk..|apply Wk].
  - intros k al. rewrite Ha. destruct (decide (k = a)) as [->|Hk].
    + destruct move_alias_here as (al' & -> & E1 & E2 & E3 & _). intros [= <-].
      split_and!; [done..|]. rewrite Hr, E3, move_revisions. unfold moved_revisions.
      rewrite decide_True, Hrev by done. by eexists.
    + rewrite move_alias_other by done. intros Hal.
      destruct (Wa k al Hal) as (E1 & E2 & r & Hlk & Eag & Est). split_and!; [done..|]. exists r.
      rewrite Hr, move_revisions. unfold moved_revisions.
      rewrite decide_False by congruence. rewrite decide_False; [done|].
      intros Hc. apply (current_revision_alias db a) in Hc as (r' & ? & ? & _); [congruence|done].
  - intros k r. rewrite Hr, move_revisions. unfold moved_revisions. rewrite Hcur.
    case_decide as E1; [|case_decide as E2].
    + subst k. intros (r0 & H0 & ->)%fmap_Some _. rewrite Hrev in H0. injection H0 as <-. simpl.
      by rewrite decide_True.
    + by intros (r0 & _ & ->)%fmap_Some.
    + intros Hk Hst. rewrite decide_False; [by apply Wr|].
      intros Hea. apply E2. rewrite <-Hea. by apply Wr.
  - intros x. rewrite Hh, replay_snoc, Era, Ern, Hcur, lookup_insert. rewrite <-Wp.
    repeat case_decide; naive_solver.
  - rewrite Hh. apply chained_snoc. split; [done|]. rewrite Erp, Era, Wp. done.
Qed.
End Move.

(** *** Every operation *)

Lemma insert_promotion_ok row db db' u :
  insert_promotion_record row db = (db', Ok u) →
  db' = db{{ promotion_history := promotion_history db ++ [row] }}.
Proof. unfold insert_promotion_record. case_match; naive_solver. Qed.

(** A promotion that succeeds moved the alias and logged it; one that fails did
    nothing. *)
Lemma atomic_promote_cases a rid pid bt bi reason eval pre now db :
  (∃ e, atomic_promote a rid pid bt bi reason eval pre now db = (db, Err e)) ∨
  (∃ rev, let row := history_row pid Promote a (current_revision db a) rid bt bi eval reason pre now in
     let moved := move_alias a rid bt bi reason (match pre with Some _ => true | None => false end) now db in
     revisions db !! rid = Some rev ∧ rev_agent_id rev = a ∧ rev_status rev ≠ Archived ∧
     atomic_promote a rid pid bt bi reason eval pre now db =
       (moved{{ promotion_history := promotion_history moved ++ [row] }}, Ok (current_revision db a))).
Proof.
  unfold atomic_promote. destruct (revisions db !! rid) as [rev|]; [|left; eauto].
  destruct (String.eqb_spec (rev_agent_id rev) a) as [Ha|]; simpl; [|left; eauto].
  case_bool_decide as Hs; [left; eauto|].
  destruct (insert_promotion_record _ _) as [db' [u|e]] eqn:E; [|left; eauto].
  right. exists rev. split_and!; [done..|]. by rewrite (insert_promotion_ok _ _ _ _ E).
Qed.

Lemma atomic_rollback_cases a rid pid bt bi reason now db :
  (∃ e, atomic_rollback a rid pid bt bi reason now db = (db, Err e)) ∨
  (∃ rev, let row := history_row pid Rollback a (current_revision db a) rid bt bi None reason None now in
     let moved := move_alias a rid bt bi reason true now db in
     let moved := match current_revision db a with
                  | Some curr => if (curr =? rid)%string then moved else quarantine_memories curr moved
                  | None => moved
                  end in
     revisions db !! rid = Some rev ∧ rev_agent_id rev = a ∧
     atomic_rollback a rid pid bt bi reason now db =
       (moved{{ promotion_history := promotion_history moved ++ [row] }}, Ok (current_revision db a))).
Proof.
  unfold atomic_rollback. destruct (revisions db !! rid) as [rev|]; [|left; eauto].
  destruct (String.eqb_spec (rev_agent_id rev) a) as [Ha|]; simpl; [|left; eauto].
  destruct (insert_promotion_record _ _) as [db' [u|e]] eqn:E; [|left; eauto].
  right. exists rev. split_and!; [done..|]. by rewrite (insert_promotion_ok _ _ _ _ E).
Qed.

Lemma atomic_promote_wf a rid pid bt bi reason eval pre now db :
  registry_wf db → registry_wf (atomic_promote a rid pid bt bi reason eval pre now db).1.
Proof.
  intros H. destruct (atomic_promote_cases a rid pid bt bi reason eval pre now db)
    as [[e ->]|(rev & Hr & Ha & _ & ->)]; [done|].
  apply (move_wf a rid bt bi reason (match pre with Some _ => true | None => false end) now db H rev
    (history_row pid Promote a (current_revision db a) rid bt bi eval reason pre now));
    cbn; by rewrite ?move_history.
Qed.

Lemma atomic_rollback_wf a rid pid bt bi reason now db :
  registry_wf db → registry_wf (atomic_rollback a rid pid bt bi reason now db).1.
Proof.
  intros H. destruct (atomic_rollback_cases a rid pid bt bi reason now db)
    as [[e ->]|(rev & Hr & Ha & ->)]; [done|].
  apply (move_wf a rid bt bi reason true now db H rev
    (history_row pid Rollback a (current_revision db a) rid bt bi None reason None now)); try done;
    rewrite <-1?(move_history a rid bt bi reason true now db);
    destruct (current_revision db a); try case_match; done.
Qed.

Lemma reuse_wf k existing db :
  registry_wf db → revisions db !! k = Some existing → registry_wf (reuse_revision existing db).1.
Proof.
  intros H Hk. unfold reuse_revision. case_bool_decide as E; [|done]. simpl.
  pose proof (wf_keys db H k existing Hk) as ->.
  apply (set_status_wf k _ existing); [done..|congruence|done].
Qed.

(** The short id an insert gives a revision. *)
Definition chosen_short_id (rev : AgentRevisionRecord) (db : AgentDb) : string :=
  if str_is_empty (trim (rev_short_id rev))
  then short_id_unique (revision_id rev)
         (List.filter (λ d, negb (d =? revision_id rev)%string) (map_to_list (revisions db)).*1) None
  else rev_short_id rev.

(** The three ends of an insert. *)
Lemma insert_revision_cases rev db :
  (is_Some (revisions db !! revision_id rev) ∧
     insert_agent_revision_transactional rev db = (db, Ok None)) ∨
  insert_agent_revision_transactional rev db = (db, Err UniqueViolation) ∨
  (∃ db', let short := chosen_short_id rev db in
     insert_agent_revision_transactional rev db = (db', Ok (Some short)) ∧
     revisions db !! revision_id rev = None ∧
     revisions db' = <[revision_id rev := rev{{ rev_short_id := short }}]> (revisions db) ∧
     agent_aliases db' = agent_aliases db ∧ promotion_history db' = promotion_history db ∧
     bindings db' = bindings db ∧
     short_ids db' = match short_ids db !! short with
                     | Some _ => short_ids db
                     | None => <[short := revision_id rev]> (short_ids db)
                     end).
Proof.
  unfold insert_agent_revision_transactional. fold (chosen_short_id rev db).
  generalize (chosen_short_id rev db). intros short.
  destruct (revisions db !! revision_id rev) eqn:E; [left; split; [by eexists|done]|].
  case_match; [by right; left|]. right; right. by eexists.
Qed.

Lemma insert_revision_wf rev db :
  registry_wf db → rev_status rev ≠ Ready →
  registry_wf (insert_agent_revision_transactional rev db).1.
Proof.
  intros H Hs. destruct (insert_revision_cases rev db)
    as [[_ ->]|[->|(db' & -> & E & Er & Ea & Eh & _)]]; [done..|]. simpl.
  destruct H as [Hk Ha Hr Hp Hc]. split; unfold current_revision in *; rewrite ?Er, ?Ea, ?Eh; [| | |done..].
  - by apply map_Forall_insert_2.
  - intros k al Hal. destruct (Ha k al Hal) as (E1 & E2 & r & Hlk & E3 & E4). split_and!; [done..|].
    exists r. rewrite lookup_insert_ne; [done|congruence].
  - by apply map_Forall_insert_2.
Qed.

Lemma create_revision_wf rev db :
  registry_wf db → rev_status rev ≠ Ready → registry_wf (create_revision rev db).1.
Proof.
  intros H Hs. unfold create_revision, get_agent_revision.
  destruct (revisions db !! revision_id rev) as [ex|] eqn:E.
  - pose proof (reuse_wf _ ex db H E). by destruct (reuse_revision ex db).
  - pose proof (insert_revision_wf rev db H Hs) as Hw.
    destruct (insert_agent_revision_transactional rev db) as [db' [[s|]|e]]; [done| |done].
    destruct (revisions db' !! revision_id rev) as [ex|] eqn:E'; [|done].
    pose proof (reuse_wf _ ex db' Hw E'). by destruct (reuse_revision ex db').
Qed.

Lemma set_absent_status k s db :
  revisions db !! k = None → update_agent_revision_status k s db = db.
Proof.
  intros Hk. assert (revisions (update_agent_revision_status k s db) = revisions db) as E.
  { apply map_eq. intros i. rewrite lookup_update_status. case_decide; [subst; by rewrite Hk|done]. }
  destruct db. unfold update_agent_revision_status in *. cbn in E |- *. by rewrite E.
Qed.

Lemma archive_candidates_wf seen db :
  registry_wf db →
  (∀ r r', r ∈ seen → rev_status r = Candidate → revisions db !! revision_id r = Some r' →
     rev_status r' ≠ Ready) →
  registry_wf (archive_candidates seen db).
Proof.
  unfold archive_candidates. revert db. induction seen as [|r seen IH]; intros db H Hseen; simpl; [done|].
  case_bool_decide as E; [|apply IH; [done|]; intros q q' Hq; apply Hseen; by right].
  destruct (revisions db !! revision_id r) as [r'|] eqn:Er.
  - apply IH.
    + apply (set_status_wf _ _ r'); [done..| |done]. apply (Hseen r r'); [left|done..].
    + intros q q' Hq Hc. rewrite lookup_update_status. case_decide.
      * by intros (x & _ & ->)%fmap_Some.
      * apply Hseen; [by right|done].
  - rewrite set_absent_status by done. apply IH; [done|]. intros q q' Hq. apply Hseen. by right.
Qed.

(** Deleting rows that are archived. *)
Lemma reclaim_lookup days now db k :
  revisions (delete_archived_revisions days now db) !! k =
  r ← revisions db !! k;
  if negb (days =? 0)%nat && reclaimable db (now - Z.of_nat days * 86400 * 10 ^ 9) k r then None else Some r.
Proof.
  unfold delete_archived_revisions. destruct (days =? 0)%nat; simpl; [by destruct (revisions db !! k)|].
  etrans; [apply map_lookup_filter|]. destruct (revisions db !! k) as [r|]; [|done]. simpl.
  destruct (reclaimable db _ k r) eqn:E; case_guard; naive_solver.
Qed.

Lemma reclaim_rest days now db :
  let db' := delete_archived_revisions days now db in
  agent_aliases db' = agent_aliases db ∧ promotion_history db' = promotion_history db ∧
  short_ids db' = short_ids db ∧ bindings db' = bindings db ∧ promotion_attempts db' = promotion_attempts db ∧
  session_residency db' = session_residency db.
Proof. unfold delete_archived_revisions. by destruct (days =? 0)%nat. Qed.

Lemma reclaim_some days now db k r :
  revisions (delete_archived_revisions days now db) !! k = Some r → revisions db !! k = Some r.
Proof. rewrite reclaim_lookup. destruct (revisions db !! k); [|done]. simpl. case_match; naive_solver. Qed.

Lemma reclaim_stays days now db k r :
  revisions db !! k = Some r →
  rev_status r ≠ Archived ∨ (∃ s b, bindings db !! s = Some b ∧ sb_revision_id b = k) →
  revisions (delete_archived_revisions days now db) !! k = Some r.
Proof.
  intros Hr Hw. rewrite reclaim_lookup, Hr. simpl.
  assert (∀ c, reclaimable db c k r = false) as E; [|by rewrite E, andb_false_r].
  intros c. unfold reclaimable. destruct Hw as [Hs|(s & b & Hb & <-)].
  - by rewrite bool_decide_false.
  - rewrite andb_false_iff. right. apply negb_false_iff, existsb_true. exists b.
    split; [|apply String.eqb_refl]. apply list_elem_of_fmap. exists (s, b).
    split; [done|by apply elem_of_map_to_list].
Qed.

Lemma reclaim_wf days now db : registry_wf db → registry_wf (delete_archived_revisions days now db).
Proof.
  intros [Hk Ha Hr Hp Hc]. destruct (reclaim_rest days now db) as (Ea & Eh & _).
  split; unfold current_revision in *; rewrite ?Ea, ?Eh; [| | |done..].
  - intros k r Hlk%reclaim_some. by apply Hk.
  - intros k al Hal. destruct (Ha k al Hal) as (? & ? & r & Hlk & ? & Hs). split_and!; [done..|].
    exists r. split_and!; [|done..]. apply reclaim_stays; [done|]. left. by rewrite Hs.
  - intros k r Hlk%reclaim_some. by apply Hr.
Qed.

(** A change of an alias that leaves its name, its agent and its revision. *)
Lemma update_alias_wf a al al' db db' :
  registry_wf db → agent_aliases db !! a = Some al →
  alias_id al' = alias_id al → al_agent_id al' = al_agent_id al → al_revision_id al' = al_revision_id al →
  revisions db' = revisions db → agent_aliases db' = <[a := al']> (agent_aliases db) →
  promotion_history db' = promotion_history db → registry_wf db'.
Proof.
  intros [Hk Ha Hr Hp Hc] Hal E1 E2 E3 Er Ea Eh.
  assert (∀ x, current_revision db' x = current_revision db x) as Hcur.
  { intros x. unfold current_revision. rewrite Ea, lookup_insert. case_decide as E; [|done].
    subst x. by rewrite Hal, E2, E3. }
  split; rewrite ?Er, ?Ea, ?Eh; [done| | | |done].
  - apply map_Forall_insert_2; [|done]. rewrite E1, E2, E3. by apply Ha.
  - intros k r Hlk Hs. rewrite Hcur. by apply Hr.
  - intros x. rewrite Hcur. apply Hp.
Qed.

Lemma suspend_wf a bi reason now db : registry_wf db → registry_wf (suspend_agent a bi reason now db).1.
Proof.
  intros H. unfold suspend_agent. destruct (agent_aliases db !! a) as [al|] eqn:E; [|done].
  case_match; [done|]. eapply (update_alias_wf a al _ db _ H E); [..|reflexivity|reflexivity|reflexivity]; done.
Qed.

Lemma unsuspend_wf a db : registry_wf db → registry_wf (unsuspend_agent a db).1.
Proof.
  intros H. unfold unsuspend_agent. destruct (agent_aliases db !! a) as [al|] eqn:E; [|done].
  case_match; [|done]. eapply (update_alias_wf a al _ db _ H E); [..|reflexivity|reflexivity|reflexivity]; done.
Qed.

Lemma pin_same_tables s root t r h k now db :
  let db' := (resolve_and_pin_session_with_revision s root t r h k now db).1 in
  revisions db' = revisions db ∧ agent_aliases db' = agent_aliases db ∧
  promotion_history db' = promotion_history db ∧
  short_ids db' = short_ids db ∧
  (∀ s' b, bindings db !! s' = Some b → bindings db' !! s' = Some b).
Proof.
  unfold resolve_and_pin_session_with_revision, get_session_agent_binding.
  destruct (bindings db !! s) eqn:E; [by destruct (get_agent_revision _ _)|].
  destruct (choose_revision db t r) as [[ref rev]|]; [|done].
  destruct (is_suspended db (ref_agent_id ref)); [done|]. cbn. split_and!; [done..|].
  intros s' b Hb. rewrite lookup_insert_ne; [done|congruence].
Qed.

Lemma import_wf rev now db :
  registry_wf db → rev_status rev ≠ Ready → registry_wf (import_revision rev false now db).1.
Proof.
  intros H Hs. unfold import_revision. destruct (get_agent_revision db (revision_id rev)); [done|].
  pose proof (insert_revision_wf rev db H Hs) as Hw.
  by destruct (insert_agent_revision_transactional rev db) as [db' [?|?]].
Qed.

Lemma registry_step_wf now db op :
  undisturbing db op → registry_wf db → registry_wf (registry_step now db op).
Proof.
  intros Hu H. destruct op; simpl.
  - by apply create_revision_wf.
  - by apply archive_candidates_wf.
  - by apply atomic_promote_wf.
  - by apply atomic_rollback_wf.
  - unfold rollback_tool. destruct (rollback_target db agent_id rid); [|done].
    destruct (get_agent_revision db a); [by apply atomic_rollback_wf|done].
  - by apply suspend_wf.
  - by apply unsuspend_wf.
  - destruct (pin_same_tables session root target revision home constitution now db) as (? & ? & ? & _).
    by apply (wf_same db).
  - by apply (wf_same db).
  - by apply (wf_same db).
  - by apply (wf_same db).
  - by apply (wf_same db).
  - by apply (wf_same db).
  - unfold record_rejected_promotion_attempt. case_match; by apply (wf_same db).
  - by apply (wf_same db).
  - simpl in Hu. subst activate. by apply import_wf.
  - by apply reclaim_wf.
Qed.

Lemma run_registry_ind (P : AgentDb → Prop) ops db :
  (∀ now db op, P db → P (registry_step now db op)) → P db → P (run_registry db ops).
Proof.
  intros Hs. unfold run_registry. revert db. induction ops as [|[now op] ops IH]; intros db H; simpl; [done|].
  by apply IH, Hs.
Qed.

Lemma empty_db_wf : registry_wf empty_db.
Proof. by split. Qed.

Lemma run_registry_wf ops : undisturbed empty_db ops → registry_wf (run_registry empty_db ops).
Proof.
  pose proof empty_db_wf as H. revert H. unfold run_registry. generalize empty_db.
  induction ops as [|[now op] ops IH]; intros db H; [done|].
  intros [Hu Hops]. apply IH; [|done]. by apply registry_step_wf.
Qed.


(** C5: The alias table is the promotion history replayed: the revision an agent's
    alias points to is the new revision of its last row, an agent without a row has
    no alias, and every row names as previous revision the one the rows before it
    had made active.  It holds in every state reached without an activated capsule
    import, which moves an alias and writes no row, and without a clean-up that
    archives a revision promoted after it read its list. *)
Theorem aliases_replay_history ops :
  undisturbed empty_db ops →
  let db := run_registry empty_db ops in
  (∀ a, current_revision db a = replay (promotion_history db) !! a) ∧
  (∀ a, is_Some (agent_aliases db !! a) ↔ ∃ p, p ∈ promotion_history db ∧ ph_agent_id p = a) ∧
  (∀ before p after, promotion_history db = before ++ p :: after →
     previous_revision_id p = replay before !! ph_agent_id p).
Proof.
  intros Hu db. pose proof (run_registry_wf ops Hu) as H. fold db in H. split_and!.
  - apply (wf_replay db H).
  - intros a. transitivity (is_Some (current_revision db a)).
    + unfold current_revision. split; [|by destruct (agent_aliases db !! a); [|intros []]].
      intros [al Hal]. destruct (wf_alias db H a al Hal) as (_ & E & _).
      rewrite Hal, E, String.eqb_refl. by eexists.
    + rewrite (wf_replay db H). apply replay_is_some.
  - intros before p after E. pose proof (wf_chain db H) as Hc. rewrite E in Hc.
    replace (before ++ p :: after) with ((before ++ [p]) ++ after) in Hc by by rewrite <-app_assoc.
    apply chained_app, chained_snoc in Hc as [_ Hc]. apply Hc.
Qed.

(** ** Sessions stay on their revision *)

(** What no operation takes back: a revision keeps everything but its status, a
    session its binding, a short id its revision. *)
Record keeps (db db' : AgentDb) : Prop := {
  keeps_revisions k r : revisions db !! k = Some r →
    ∃ s, revisions db' !! k = Some (r{{ rev_status := s }});
  keeps_bindings s b : bindings db !! s = Some b → bindings db' !! s = Some b;
  keeps_short_ids s k : short_ids db !! s = Some k → short_ids db' !! s = Some k;
  keeps_keys : map_Forall (λ k r, revision_id r = k) (revisions db) →
    map_Forall (λ k r, revision_id r = k) (revisions db');
}.

(** The same when rows are reclaimed: only those of a session are sure to stay. *)
Definition pinned (db : AgentDb) (k : string) : Prop :=
  ∃ s b, bindings db !! s = Some b ∧ sb_revision_id b = k.

Record keeps_pinned (db db' : AgentDb) : Prop := {
  kp_revisions k r : pinned db k → revisions db !! k = Some r →
    ∃ s, revisions db' !! k = Some (r{{ rev_status := s }});
  kp_bindings s b : bindings db !! s = Some b → bindings db' !! s = Some b;
  kp_short_ids s k : short_ids db !! s = Some k → short_ids db' !! s = Some k;
  kp_keys : map_Forall (λ k r, revision_id r = k) (revisions db) →
    map_Forall (λ k r, revision_id r = k) (revisions db');
}.

Lemma keeps_weaken db db' : keeps db db' → keeps_pinned db db'.
Proof. intros []. split; [|done..]. intros k r _. by apply keeps_revisions0. Qed.

Lemma set_same_status r : r = r{{ rev_status := rev_status r }}.
Proof. by destruct r. Qed.

Lemma keeps_same db db' :
  revisions db' = revisions db → bindings db' = bindings db → short_ids db' = short_ids db → keeps db db'.
Proof.
  intros Hr Hb Hs. split; rewrite ?Hr, ?Hb, ?Hs; [|done..]. intros k r ->. eexists. by rewrite <-set_same_status.
Qed.

#[export] Instance keeps_preorder : PreOrder keeps.
Proof.
  split; [intros db; by apply keeps_same|]. intros d1 d2 d3 [R1 B1 S1 K1] [R2 B2 S2 K2]. split; [|naive_solver..].
  intros k r (s & Hs)%R1. apply R2 in Hs as (s' & ->). by exists s'.
Qed.

#[export] Instance keeps_pinned_preorder : PreOrder keeps_pinned.
Proof.
  split; [intros db; by apply keeps_weaken|]. intros d1 d2 d3 [R1 B1 S1 K1] [R2 B2 S2 K2].
  split; [|naive_solver..]. intros k r Hp (s & Hs)%R1; [|done].
  apply R2 in Hs as (s' & ->); [by exists s'|]. destruct Hp as (x & b & Hb%B1 & Hk). by exists x, b.
Qed.

Lemma update_status_keeps k s db : keeps db (update_agent_revision_status k s db).
Proof.
  split; [|done..|].
  - intros k' r Hr. rewrite lookup_update_status, Hr.
    case_decide; [by eexists|]. eexists. by rewrite <-set_same_status.
  - intros H k' r. rewrite lookup_update_status. case_decide; [|by apply H].
    intros (r0 & Hr & ->)%fmap_Some. by apply H in Hr.
Qed.

Lemma move_alias_keeps a rid bt bi reason keep now db :
  keeps db (move_alias a rid bt bi reason keep now db).
Proof.
  unfold move_alias.
  assert (∀ db' : AgentDb, keeps db db' → keeps db (match current_revision db a with
    | Some prev => if (prev =? rid)%string then db' else update_agent_revision_status prev Archived db'
    | None => db' end)) as H.
  { intros db' H. do 2 (case_match; try done). by rewrite H, <-update_status_keeps. }
  apply H. rewrite <-update_status_keeps. by apply keeps_same.
Qed.

Lemma insert_revision_keeps rev db : keeps db (insert_agent_revision_transactional rev db).1.
Proof.
  destruct (insert_revision_cases rev db) as [[_ ->]|[->|(d & -> & En & Er & _ & _ & Eb & Es)]]; [done..|].
  change (keeps db d). split; rewrite ?Er, ?Eb, ?Es; [|done| |].
  - intros k r Hr. exists (rev_status r).
    rewrite lookup_insert_ne, <-set_same_status; [done|congruence].
  - intros s k Hk. case_match; [done|]. rewrite lookup_insert_ne; [done|congruence].
  - intros H. by apply map_Forall_insert_2.
Qed.

Lemma create_revision_keeps rev db : keeps db (create_revision rev db).1.
Proof.
  assert (∀ ex d, keeps d (reuse_revision ex d).1) as Hre.
  { intros ex d. unfold reuse_revision. case_bool_decide; [apply update_status_keeps|done]. }
  unfold create_revision, get_agent_revision.
  destruct (revisions db !! revision_id rev) as [ex|] eqn:E.
  { pose proof (Hre ex db). by destruct (reuse_revision ex db). }
  pose proof (insert_revision_keeps rev db) as Hi.
  destruct (insert_agent_revision_transactional rev db) as [db' [[s|]|e]]; [done| |done].
  destruct (revisions db' !! revision_id rev) as [ex|]; [|done].
  pose proof (Hre ex db') as H. destruct (reuse_revision ex db'). by rewrite Hi.
Qed.

Lemma import_keeps rev activate now db : keeps db (import_revision rev activate now db).1.
Proof.
  unfold import_revision.
  assert (∀ d, keeps db d → keeps db (if activate then bind_alias (rev_agent_id rev) (revision_id rev) now d else d)) as Hb.
  { intros d Hd. destruct activate; [|done]. rewrite Hd. by apply keeps_same. }
  destruct (get_agent_revision db (revision_id rev)); [by apply Hb|].
  pose proof (insert_revision_keeps rev db) as Hi.
  destruct (insert_agent_revision_transactional rev db) as [d [?|?]]; [by apply Hb|done].
Qed.

Lemma archive_candidates_keeps seen db : keeps db (archive_candidates seen db).
Proof.
  unfold archive_candidates. revert db. induction seen as [|r seen IH]; intros db; simpl; [done|].
  rewrite <-IH. case_bool_decide; [apply update_status_keeps|done].
Qed.

Lemma atomic_promote_keeps a rid pid bt bi reason eval pre now db :
  keeps db (atomic_promote a rid pid bt bi reason eval pre now db).1.
Proof.
  destruct (atomic_promote_cases a rid pid bt bi reason eval pre now db)
    as [[e ->]|(rev & _ & _ & _ & ->)]; [done|].
  etrans; [apply move_alias_keeps|by apply keeps_same].
Qed.

Lemma atomic_rollback_keeps a rid pid bt bi reason now db :
  keeps db (atomic_rollback a rid pid bt bi reason now db).1.
Proof.
  destruct (atomic_rollback_cases a rid pid bt bi reason now db)
    as [[e ->]|(rev & _ & _ & ->)]; [done|].
  etrans; [apply move_alias_keeps|]. apply keeps_same; repeat case_match; done.
Qed.

Lemma registry_step_keeps now db op :
  match op with OpReclaim _ => True | _ => keeps db (registry_step now db op) end.
Proof.
  destruct op; simpl; try done; try by apply keeps_same.
  - apply create_revision_keeps.
  - apply archive_candidates_keeps.
  - apply atomic_promote_keeps.
  - apply atomic_rollback_keeps.
  - unfold rollback_tool. repeat case_match; [apply atomic_rollback_keeps|done..].
  - unfold suspend_agent. repeat case_match; by apply keeps_same.
  - unfold unsuspend_agent. repeat case_match; by apply keeps_same.
  - destruct (pin_same_tables session root target revision home constitution now db) as (Er & _ & _ & Es & Hb).
    split; rewrite ?Er, ?Es; [|done..]. intros k r ->. eexists. by rewrite <-set_same_status.
  - unfold record_rejected_promotion_attempt. case_match; by apply keeps_same.
  - apply import_keeps.
Qed.

Lemma reclaim_keeps days now db : keeps_pinned db (delete_archived_revisions days now db).
Proof.
  destruct (reclaim_rest days now db) as (_ & _ & Es & Eb & _). split; rewrite ?Es, ?Eb; [|done..|].
  - intros k r Hp Hr. exists (rev_status r). rewrite <-set_same_status. apply reclaim_stays; [done|by right].
  - intros H k r Hr%reclaim_some. by apply H.
Qed.

Lemma registry_step_pinned now db op : keeps_pinned db (registry_step now db op).
Proof.
  pose proof (registry_step_keeps now db op) as H.
  destruct op; try exact (keeps_weaken _ _ H). apply reclaim_keeps.
Qed.

Lemma run_registry_keeps db ops : keeps_pinned db (run_registry db ops).
Proof.
  apply (run_registry_ind (keeps_pinned db)); [|done]. intros now db' op H. by rewrite H, <-registry_step_pinned.
Qed.

(** Whatever happened, a row is stored under its id. *)
Lemma run_registry_keys ops : map_Forall (λ k r, revision_id r = k) (revisions (run_registry empty_db ops)).
Proof. apply (kp_keys _ _ (run_registry_keeps empty_db ops)), map_Forall_empty. Qed.

Lemma resolve_agent_found db t r rev :
  map_Forall (λ k r, revision_id r = k) (revisions db) → resolve_agent db t = Ok (r, rev) → revisions db !! ref_revision_id r = Some rev.
Proof.
  intros H. unfold resolve_agent, get_agent_revision, resolve_alias.
  destruct (parse_agent_target t) as [[al|ag sel]|]; [| |done].
  - destruct (agent_aliases db !! al) as [x|]; [|done].
    destruct (revisions db !! al_revision_id x) eqn:E; [|done]. by intros [= <- <-].
  - unfold resolve_explicit, get_agent_revision. destruct (parse_agent_ref t) as [ar|].
    + destruct (revisions db !! ref_revision_id ar) eqn:E; [|done]. case_match; [done|].
      by intros [= <- <-].
    + destruct (strip_prefix sel "rev_") as [[|c short]|]; [done| |done].
      destruct (lookup_short_id db (String c short)) as [full|]; [|done].
      destruct (revisions db !! full) as [x|] eqn:E; [|done]. case_match; [done|].
      intros [= <- <-]. simpl. by rewrite (H full x E).
Qed.

Lemma choose_revision_found db t rv r rev :
  map_Forall (λ k r, revision_id r = k) (revisions db) → choose_revision db t rv = Ok (r, rev) → revisions db !! ref_revision_id r = Some rev.
Proof.
  intros H. destruct rv as [rid|]; [|by apply resolve_agent_found].
  unfold choose_revision, get_agent_revision. destruct (revisions db !! rid) eqn:E; [|done].
  case_match; [done|]. by intros [= <- <-].
Qed.

