(* ===== verification/PromotionHistory.v ===== *)
(** * Rollback, suspension and short references

    Contracts of the agent registry beyond its invariant: what a rollback, a
    second rollback and a suspension do, when a short reference is read back, who
    can be sent a message, and what the writes outside the promotion transaction
    leave behind. *)

From Stdlib Require Import Ascii String Lia.
From stdpp Require Import prelude gmap strings list sorting.
From coqutil Require Import Datatypes.RecordSetters.
From S2P Require Import Prelude RustStr Json AgentRevision AgentRegistry RegistrySpec.
Import DoubleBraceUpdate.

Open Scope string_scope.
Open Scope list_scope.

(** ** A concrete registry *)

Definition demo_rev (agent rid digest : string) : AgentRevisionRecord :=
  {| revision_id := rid; rev_agent_id := agent; base_revision_id := None; rev_artifact_id := Some "art_1";
     rev_content_digest := digest; runtime_lock_hash := "sha256:lock"; manifest_hash := "sha256:manifest";
     rev_created_at := 1; rev_created_by_type := "autonoetic_agent"; rev_created_by_id := "builder";
     requested_by_type := None; requested_by_id := None; source_kind := "artifact"; source_ref := None;
     rev_origin_node_id := "gateway"; trust_domain := "local"; rev_status := Candidate;
     metadata_json := JNull; rev_short_id := ""; detected_network_hosts := None; signature := None;
     signer_id := None |}.

(** Two revisions of one agent, both promoted in turn. *)
Definition demo_ops : list (Instant * RegistryOp) :=
  [(1%Z, OpCreate (demo_rev "coder" "rev_sha256:aa" "sha256:aa"));
   (2%Z, OpPromote "coder" "rev_sha256:aa" "prom-1" "agent" "op" None None None);
   (3%Z, OpCreate (demo_rev "coder" "rev_sha256:bb" "sha256:bb"));
   (4%Z, OpPromote "coder" "rev_sha256:bb" "prom-2" "agent" "op" None None None)].

Definition demo_db : AgentDb := run_registry empty_db demo_ops.

Example demo_undisturbed : undisturbed empty_db demo_ops.
Proof. by repeat split. Qed.


Lemma aliases_replay_history_witness :
  replay (promotion_history demo_db) !! "coder" = Some "rev_sha256:bb".
Proof.
  destruct (aliases_replay_history demo_ops demo_undisturbed) as (H & _).
  change (run_registry empty_db demo_ops) with demo_db in H. rewrite <-H. vm_compute. reflexivity.
Defined.


(** ** The newest row *)

Lemma insert_by_after {A} (cmp : A → A → comparison) x p l :
  cmp x p = Gt → insert_by cmp x (p :: l) = p :: insert_by cmp x l.
Proof. simpl. by intros ->. Qed.

Lemma sort_by_last {A} (cmp : A → A → comparison) l p :
  (∀ x, x ∈ l → cmp x p = Gt) → sort_by cmp (l ++ [p]) = p :: sort_by cmp l.
Proof.
  induction l as [|x l IH]; intros H; [done|].
  change (insert_by cmp x (sort_by cmp (l ++ [p])) = p :: insert_by cmp x (sort_by cmp l)).
  rewrite IH by (intros y Hy; apply H; by right).
  apply insert_by_after, H. left.
Qed.

Lemma list_history_newest db p :
  (∀ q, q ∈ promotion_history db → (ph_created_at q < ph_created_at p)%Z) →
  list_promotion_history (db{{ promotion_history := promotion_history db ++ [p] }}) (ph_agent_id p)
  = p :: list_promotion_history db (ph_agent_id p).
Proof.
  intros H. unfold list_promotion_history. cbn [promotion_history].
  change (promotion_history (db{{ promotion_history := promotion_history db ++ [p] }}))
    with (promotion_history db ++ [p]).
  rewrite List.filter_app. simpl. rewrite String.eqb_refl. apply sort_by_last.
  intros q [Hq%list_elem_of_In _]%list_elem_of_In%List.filter_In. unfold newest_promotion_first.
  apply Z.compare_gt_iff. by apply H.
Qed.

(** ** A second rollback *)

(** A rollback that succeeds, with the row it writes. *)
Lemma rollback_tool_ok a t p bi reason now db db' prev :
  rollback_tool a t p bi reason now db = (db', Ok prev) →
  ∃ target rev, rollback_target db a t = Ok target ∧ revisions db !! target = Some rev ∧
    rev_agent_id rev = a ∧ prev = current_revision db a ∧
    (∀ q, q ∈ promotion_history db → promotion_id q ≠ p) ∧
    let moved := move_alias a target "agent" bi reason true now db in
    let moved := match current_revision db a with
                 | Some curr => if (curr =? target)%string then moved else quarantine_memories curr moved
                 | None => moved
                 end in
    db' = moved{{ promotion_history := promotion_history moved ++
            [history_row p Rollback a prev target "agent" bi None reason None now] }}.
Proof.
  unfold rollback_tool, get_agent_revision. destruct (rollback_target db a t) as [target|]; [|done].
  destruct (revisions db !! target) as [rev|] eqn:Er; [|done].
  unfold atomic_rollback. rewrite Er. destruct (String.eqb_spec (rev_agent_id rev) a) as [Ha|]; [simpl|done].
  destruct (insert_promotion_record _ _) as [d [u|]] eqn:E; [|done]. intros [= <- <-].
  exists target, rev. split_and!; [done..| |by rewrite (insert_promotion_ok _ _ _ _ E)].
  unfold insert_promotion_record in E. destruct (existsb _ _) eqn:Ee; [done|].
  rewrite existsb_false in Ee. intros q Hq Hp. assert (promotion_history db = promotion_history
    (match current_revision db a with
     | Some curr => if (curr =? target)%string then move_alias a target "agent" bi reason true now db
                    else quarantine_memories curr (move_alias a target "agent" bi reason true now db)
     | None => move_alias a target "agent" bi reason true now db end)) as Eh.
  { rewrite <-(move_history a target "agent" bi reason true now db). repeat case_match; done. }
  rewrite Eh in Hq. specialize (Ee q Hq). simpl in Ee. by rewrite Hp, String.eqb_refl in Ee.
Qed.

Definition quarantined (db : AgentDb) (k : string) : Prop :=
  ∃ m, memories db !! k = Some m ∧ is_Some (quarantine_reason m).

Lemma lookup_quarantine rid db k :
  memories (quarantine_memories rid db) !! k = quarantine_row rid <$> memories db !! k.
Proof. apply lookup_fmap. Qed.

Lemma quarantine_row_some rid m :
  is_Some (quarantine_reason m) ∨ mem_revision_id m = Some rid →
  is_Some (quarantine_reason (quarantine_row rid m)).
Proof.
  unfold quarantine_row. intros [[q H]|H].
  - rewrite H, andb_false_r. by exists q.
  - rewrite (bool_decide_true (mem_revision_id m = Some rid)) by done. simpl.
    case_bool_decide; [by eexists|]. by destruct (quarantine_reason m); [eexists|].
Qed.

Lemma quarantine_spec rid db k m :
  memories db !! k = Some m → mem_revision_id m = Some rid → quarantined (quarantine_memories rid db) k.
Proof.
  intros Hk Hr. unfold quarantined. rewrite lookup_quarantine, Hk. eexists. split; [done|].
  apply quarantine_row_some. by right.
Qed.

Lemma quarantined_stays rid db k : quarantined db k → quarantined (quarantine_memories rid db) k.
Proof.
  intros (m & Hk & Hq). unfold quarantined. rewrite lookup_quarantine, Hk. eexists. split; [done|].
  apply quarantine_row_some. by left.
Qed.

Lemma move_alias_memories a rid bt bi reason keep now db :
  memories (move_alias a rid bt bi reason keep now db) = memories db.
Proof. unfold move_alias. repeat case_match; done. Qed.

(** What a successful rollback to another revision leaves: the alias on the
    target, the revision it left archived and its memories quarantined, and the
    row as the newest of its agent. *)
Lemma rollback_tool_effect a t p bi reason now db db' target bad :
  registry_wf db → rollback_tool a t p bi reason now db = (db', Ok (Some bad)) →
  rollback_target db a t = Ok target → target ≠ bad →
  (∀ q, q ∈ promotion_history db → (ph_created_at q < now)%Z) →
  let row := history_row p Rollback a (Some bad) target "agent" bi None reason None now in
  current_revision db' a = Some target ∧
  promotion_history db' = promotion_history db ++ [row] ∧
  list_promotion_history db' a = row :: list_promotion_history db a ∧
  (∀ k m, memories db !! k = Some m → mem_revision_id m = Some bad → quarantined db' k) ∧
  (∀ k, quarantined db k → quarantined db' k).
Proof.
  intros Hwf H Ht Hne Hclock row.
  apply rollback_tool_ok in H as (target' & rev & Ht' & Hr & Ha & Hp & Hid & ->).
  rewrite Ht in Ht'. injection Ht' as <-. rewrite <-Hp.
  rewrite (proj2 (String.eqb_neq bad target)) by congruence.
  set (moved := move_alias a target "agent" bi reason true now db).
  assert (promotion_history moved = promotion_history db) as Eh by apply move_history.
  split_and!.
  - change (current_revision moved a = Some target). unfold moved. rewrite move_current by done.
    by rewrite decide_True.
  - change (promotion_history moved ++ [row] = promotion_history db ++ [row]). by rewrite Eh.
  - pose proof (list_history_newest (quarantine_memories bad moved) row) as Hl.
    change (promotion_history (quarantine_memories bad moved)) with (promotion_history moved) in Hl.
    rewrite Eh in Hl. specialize (Hl Hclock). unfold list_promotion_history in *.
    change (promotion_history (quarantine_memories bad moved)) with (promotion_history moved) in *.
    by rewrite Eh in *.
  - intros k m Hk Hm. change (quarantined (quarantine_memories bad moved) k).
    apply (quarantine_spec _ _ _ m); [|done]. unfold moved. by rewrite move_alias_memories.
  - intros k Hk. change (quarantined (quarantine_memories bad moved) k). apply quarantined_stays.
    unfold quarantined, moved. by rewrite move_alias_memories.
Qed.

Lemma atomic_rollback_succeeds a rid pid bt bi reason now db rev :
  revisions db !! rid = Some rev → rev_agent_id rev = a →
  (∀ q, q ∈ promotion_history db → promotion_id q ≠ pid) →
  ∃ db', atomic_rollback a rid pid bt bi reason now db = (db', Ok (current_revision db a)).
Proof.
  intros Hr <- Hid. unfold atomic_rollback. rewrite Hr, String.eqb_refl. simpl.
  unfold insert_promotion_record at 1.
  match goal with |- context [existsb ?f ?l] => replace (existsb f l) with false; [by eexists|] end.
  symmetry. apply existsb_false. intros q Hq. apply String.eqb_neq, Hid.
  rewrite <-(move_history (rev_agent_id rev) rid bt bi reason true now db).
  destruct (current_revision db (rev_agent_id rev)); [destruct (_ =? _)%string|]; exact Hq.
Qed.

(** Rolling back twice undoes the rollback: asked again for the previous
    revision, [agent_revision_rollback] takes the one the first call left.  The
    revision that was rolled back is active and ready again, and the memories it
    wrote stay quarantined. *)
Theorem second_rollback_undoes_first ops a p1 p2 bi1 bi2 r1 r2 now1 now2 db1 bad good :
  let db := run_registry empty_db ops in
  undisturbed empty_db ops →
  rollback_tool a None p1 bi1 r1 now1 db = (db1, Ok (Some bad)) →
  rollback_target db a None = Ok good → good ≠ bad →
  (∀ q, q ∈ promotion_history db → (ph_created_at q < now1)%Z ∧ promotion_id q ≠ p2) →
  (now1 < now2)%Z → p1 ≠ p2 →
  ∃ db2, rollback_tool a None p2 bi2 r2 now2 db1 = (db2, Ok (Some good)) ∧
    current_revision db2 a = Some bad ∧
    (∃ r, revisions db2 !! bad = Some r ∧ rev_status r = Ready) ∧
    (∀ k m, memories db !! k = Some m → mem_revision_id m = Some bad → quarantined db2 k).
Proof.
  intros db Hu H1 Ht Hne Hq Hnow Hp. pose proof (run_registry_wf ops Hu) as Hwf. fold db in Hwf.
  destruct (rollback_tool_effect a None p1 bi1 r1 now1 db db1 good bad Hwf H1 Ht Hne (λ q H, proj1 (Hq q H)))
    as (Hc1 & Hh1 & Hl1 & Hm1 & _).
  assert (registry_wf db1 ∧ keeps db db1) as [Hwf1 Hk1].
  { pose proof (registry_step_wf now1 db (OpRollbackTool a None p1 bi1 r1) I Hwf) as Hw.
    pose proof (registry_step_keeps now1 db (OpRollbackTool a None p1 bi1 r1)) as Hk.
    simpl in Hw, Hk. by rewrite H1 in Hw, Hk. }
  assert (current_revision db a = Some bad) as Hcur.
  { by apply rollback_tool_ok in H1 as (? & ? & _ & _ & _ & ? & _). }
  apply current_revision_alias in Hcur as (rb & Hrb & Hab & _); [|done].
  apply (keeps_revisions _ _ Hk1) in Hrb as (st & Hrb).
  assert (rollback_target db1 a None = Ok bad) as Ht1.
  { unfold rollback_target. by rewrite Hl1. }
  destruct (atomic_rollback_succeeds a bad p2 "agent" bi2 r2 now2 db1 _ Hrb Hab) as [db2 H2].
  { intros q. rewrite Hh1, elem_of_app, list_elem_of_singleton. intros [Hin| ->]; [by apply Hq|done]. }
  assert (rollback_tool a None p2 bi2 r2 now2 db1 = (db2, Ok (Some good))) as H2'.
  { unfold rollback_tool, get_agent_revision. by rewrite Ht1, Hrb, H2, Hc1. }
  destruct (rollback_tool_effect a None p2 bi2 r2 now2 db1 db2 bad good Hwf1 H2' Ht1 (not_eq_sym Hne))
    as (Hc2 & _ & _ & _ & Hm2).
  { intros q. rewrite Hh1, elem_of_app, list_elem_of_singleton. intros [Hin| ->]; [|done].
    apply Hq in Hin as [? _]. lia. }
  exists db2. split_and!; [done..| |].
  - pose proof (registry_step_wf now2 db1 (OpRollbackTool a None p2 bi2 r2) I Hwf1) as Hw2. simpl in Hw2.
    rewrite H2' in Hw2. apply current_revision_alias in Hc2 as (r & ? & _ & ?); [by exists r|done].
  - intros k m Hk Hm. by apply Hm2, (Hm1 k m).
Qed.

Lemma second_rollback_undoes_first_witness :
  ∃ db1 db2, rollback_tool "coder" None "prom-3" "op" None 5 demo_db = (db1, Ok (Some "rev_sha256:bb")) ∧
    rollback_tool "coder" None "prom-4" "op" None 6 db1 = (db2, Ok (Some "rev_sha256:aa")) ∧
    current_revision db2 "coder" = Some "rev_sha256:bb".
Proof.
  destruct (rollback_tool "coder" None "prom-3" "op" None 5 demo_db) as [db1 r] eqn:E.
  assert (r = Ok (Some "rev_sha256:bb")) as -> by (vm_compute in E; by injection E as _ <-).
  destruct (second_rollback_undoes_first demo_ops "coder" "prom-3" "prom-4" "op" "op" None None 5 6 db1
    "rev_sha256:bb" "rev_sha256:aa" demo_undisturbed E) as (db2 & H2 & Hc & _).
  - by vm_compute.
  - done.
  - intros q Hq. change (promotion_history (run_registry empty_db demo_ops))
      with (promotion_history demo_db) in Hq.
    assert (Forall (λ q, (ph_created_at q < 5)%Z ∧ promotion_id q ≠ "prom-4") (promotion_history demo_db))
      as Hall by (vm_compute; repeat constructor; done).
    rewrite Forall_forall in Hall. by apply Hall.
  - lia.
  - done.
  - exists db1, db2. exact (conj eq_refl (conj H2 Hc)).
Defined.

(** ** Suspension *)

Lemma is_suspended_alias db a al :
  agent_aliases db !! a = Some al → is_suspended db a = match suspended_at al with Some _ => true | None => false end.
Proof. unfold is_suspended, resolve_alias. by intros ->. Qed.

Lemma move_alias_suspended a rid bt bi reason keep now db :
  is_suspended (move_alias a rid bt bi reason keep now db) a = keep && is_suspended db a.
Proof.
  destruct (move_alias_here a rid bt bi reason keep now db) as (al & Hal & _ & _ & _ & Hs).
  rewrite (is_suspended_alias _ _ _ Hal), Hs. unfold is_suspended, resolve_alias.
  by destruct keep, (agent_aliases db !! a).
Qed.

(** A suspended agent starts no session, however it is addressed: for every
    session without a binding, every target and every requested revision of that
    agent the start is refused and nothing is written.  Only a promotion without
    pre-authorization lifts the suspension; a pre-authorized one and a rollback
    keep it. *)
Theorem suspension_spec ops a :
  let db := run_registry empty_db ops in
  (is_suspended db a = true → ∀ s root t rv h k now r rev, bindings db !! s = None →
     choose_revision db t rv = Ok (r, rev) → ref_agent_id r = a →
     resolve_and_pin_session_with_revision s root t rv h k now db = (db, Err (AgentSuspended a))) ∧
  (∀ rid pid bt bi reason eval pre now db' prev,
     atomic_promote a rid pid bt bi reason eval pre now db = (db', Ok prev) →
     is_suspended db' a = match pre with Some _ => is_suspended db a | None => false end) ∧
  (∀ rid pid bt bi reason now db' prev,
     atomic_rollback a rid pid bt bi reason now db = (db', Ok prev) →
     is_suspended db' a = is_suspended db a) ∧
  (∀ bi reason now, is_Some (agent_aliases db !! a) →
     is_suspended (suspend_agent a bi reason now db).1 a = true ∧
     is_suspended (unsuspend_agent a (suspend_agent a bi reason now db).1).1 a = false).
Proof.
  intros db. split_and!.
  - intros Hs s root t rv h k now r rev Hb Hc <-.
    unfold resolve_and_pin_session_with_revision, get_session_agent_binding.
    by rewrite Hb, Hc, Hs.
  - intros rid pid bt bi reason eval pre now db' prev H.
    destruct (atomic_promote_cases a rid pid bt bi reason eval pre now db)
      as [[e E]|(rev & _ & _ & _ & E)]; rewrite E in H; [done|]. injection H as <- _.
    etrans; [apply (move_alias_suspended a rid bt bi reason)|]. by destruct pre.
  - intros rid pid bt bi reason now db' prev H.
    destruct (atomic_rollback_cases a rid pid bt bi reason now db) as [[e E]|(rev & _ & _ & E)];
      rewrite E in H; [done|]. injection H as <- _.
    etrans; [|apply (move_alias_suspended a rid bt bi reason true now)].
    by destruct (current_revision db a) as [c|]; [destruct (c =? rid)%string|].
  - intros bi reason now [al Hal].
    assert (∃ al', agent_aliases (suspend_agent a bi reason now db).1 !! a = Some al' ∧
              is_Some (suspended_at al')) as (al' & Hal' & t & Ht).
    { unfold suspend_agent. rewrite Hal. destruct (suspended_at al) as [t|] eqn:Es; simpl.
      - exists al. split; [done|by exists t].
      - eexists. split; [apply lookup_insert_eq|by eexists]. }
    split; [by rewrite (is_suspended_alias _ _ _ Hal'), Ht|].
    revert Hal'. generalize (suspend_agent a bi reason now db).1. intros db' Hal'.
    unfold unsuspend_agent. rewrite Hal', Ht. simpl.
    by erewrite is_suspended_alias by apply lookup_insert_eq.
Qed.

(** ** Writes outside the transaction *)

Lemma archive_candidates_archives seen r db :
  r ∈ seen → rev_status r = Candidate → is_Some (revisions db !! revision_id r) →
  ∃ r', revisions (archive_candidates seen db) !! revision_id r = Some r' ∧ rev_status r' = Archived.
Proof.
  unfold archive_candidates. intros Hin Hc. revert db.
  assert (∀ seen db, (∃ r', revisions db !! revision_id r = Some r' ∧ rev_status r' = Archived) →
    ∃ r', revisions (fold_left (λ db r, if bool_decide (rev_status r = Candidate)
       then update_agent_revision_status (revision_id r) Archived db else db) seen db) !! revision_id r
      = Some r' ∧ rev_status r' = Archived) as Hstay.
  { clear. intros seen. induction seen as [|q seen IH]; intros db (r' & Hr & Hs); simpl; [by exists r'|].
    apply IH. case_bool_decide; [|by exists r']. rewrite lookup_update_status, Hr.
    case_decide; simpl; by eexists. }
  induction Hin as [r seen|r q seen Hin IH]; intros db Hdb; simpl.
  - rewrite bool_decide_true by done. apply Hstay. rewrite lookup_update_status, decide_True by done.
    destruct Hdb as [x ->]. by eexists.
  - apply IH; [done..|]. case_bool_decide; [|done]. rewrite lookup_update_status.
    case_decide; [by apply fmap_is_Some|done].
Qed.

(** The clean-up of [create_from_intent] can archive the active revision: a
    candidate it has read and that is promoted before the status is written ends
    up archived with the alias on it, and can no longer be promoted. *)
Theorem stale_cleanup_archives_active ops a rid pid bt bi reason eval pre now db' prev seen r :
  undisturbed empty_db ops →
  atomic_promote a rid pid bt bi reason eval pre now (run_registry empty_db ops) = (db', Ok prev) →
  r ∈ seen → revision_id r = rid → rev_status r = Candidate →
  let db'' := archive_candidates seen db' in
  current_revision db'' a = Some rid ∧
  (∃ r', revisions db'' !! rid = Some r' ∧ rev_status r' = Archived) ∧
  (∀ pid' now', (atomic_promote a rid pid' bt bi reason eval pre now' db'').2 = Err (BadStatus Archived)).
Proof.
  intros Hu H Hin <- Hc db''. pose proof (run_registry_wf ops Hu) as Hwf.
  pose proof (atomic_promote_wf a (revision_id r) pid bt bi reason eval pre now _ Hwf) as Hwf'.
  rewrite H in Hwf'. simpl in Hwf'.
  assert (current_revision db' a = Some (revision_id r)) as Hcur.
  { destruct (atomic_promote_cases a (revision_id r) pid bt bi reason eval pre now (run_registry empty_db ops))
      as [[e E]|(rev & _ & _ & _ & E)]; rewrite E in H; [done|]. injection H as <- _.
    etrans; [by apply (move_current a (revision_id r) bt bi reason)|]. by rewrite decide_True. }
  destruct (current_revision_alias db' a _ Hwf' Hcur) as (r0 & Hr0 & Ha & _).
  destruct (archive_candidates_archives seen r db' Hin Hc) as (r' & Hr' & Hs'); [by exists r0|].
  fold db'' in Hr'. split_and!.
  - assert (agent_aliases db'' = agent_aliases db') as E.
    { unfold db'', archive_candidates. generalize db'. clear. induction seen as [|q seen IH]; intros db'; simpl; [done|].
      rewrite IH. by case_bool_decide. }
    unfold current_revision. rewrite E. exact Hcur.
  - by exists r'.
  - intros pid' now'. unfold atomic_promote. rewrite Hr'.
    destruct (archive_candidates_keeps seen db') as [Kr _ _]. apply Kr in Hr0 as (st & Hr0).
    fold db'' in Hr0. rewrite Hr' in Hr0. injection Hr0 as Er.
    assert (rev_agent_id r' = a) as -> by by rewrite Er.
    rewrite String.eqb_refl. simpl. by rewrite Hs'.
Qed.

Lemma stale_cleanup_archives_active_witness :
  let ops := [(1%Z, OpCreate (demo_rev "coder" "rev_sha256:aa" "sha256:aa"))] in
  let db := run_registry empty_db ops in
  ∃ db', atomic_promote "coder" "rev_sha256:aa" "prom-1" "agent" "op" None None None 2 db = (db', Ok None) ∧
    current_revision (archive_candidates (list_agent_revisions db "coder") db') "coder" = Some "rev_sha256:aa".
Proof.
  intros ops db.
  destruct (atomic_promote "coder" "rev_sha256:aa" "prom-1" "agent" "op" None None None 2 db)
    as [db' r] eqn:E.
  assert (r = Ok None) as -> by (vm_compute in E; by injection E as _ <-).
  exists db'. split; [done|].
  refine (proj1 (stale_cleanup_archives_active ops "coder" "rev_sha256:aa" "prom-1" "agent" "op" None None
    None 2 db' None (list_agent_revisions db "coder")
    ((demo_rev "coder" "rev_sha256:aa" "sha256:aa"){{ rev_short_id := short_id "rev_sha256:aa" 8 }}) _ E _ _ _)).
  - by repeat split.
  - vm_compute. left.
  - by vm_compute.
  - by vm_compute.
Defined.

(** An activated capsule import moves the alias without a promotion: the alias
    points to a candidate, the revision it left stays ready, and the history -
    the source of the next rollback - has no row of it. *)
Theorem capsule_activation_skips_the_transaction ops a old rev now db' :
  let db := run_registry empty_db ops in
  undisturbed empty_db ops → current_revision db a = Some old → rev_agent_id rev = a → rev_status rev = Candidate →
  revisions db !! revision_id rev = None →
  import_revision rev true now db = (db', Ok tt) →
  current_revision db' a = Some (revision_id rev) ∧
  (∃ r, revisions db' !! revision_id rev = Some r ∧ rev_status r = Candidate) ∧
  (∃ r, revisions db' !! old = Some r ∧ rev_status r = Ready) ∧
  promotion_history db' = promotion_history db.
Proof.
  intros db Hu Hcur Ha Hs Hfresh. pose proof (run_registry_wf ops Hu) as Hwf. fold db in Hwf.
  destruct (current_revision_alias db a old Hwf Hcur) as (ro & Hro & _ & Hrs).
  unfold import_revision, get_agent_revision. rewrite Hfresh.
  destruct (insert_revision_cases rev db) as [[[x Hx] _]|[->|(d & -> & _ & Er & _ & Eh & _)]];
    [congruence|done|].
  intros [= <-]. rewrite Ha. split_and!.
  - unfold current_revision, bind_alias, upsert_agent_alias, replace_alias. cbn.
    rewrite lookup_insert_eq. simpl. by rewrite String.eqb_refl.
  - exists (rev{{ rev_short_id := chosen_short_id rev db }}). split; [|done].
    etrans; [apply (f_equal (λ m, m !! revision_id rev) Er)|]. apply lookup_insert_eq.
  - exists ro. split; [|done]. etrans; [apply (f_equal (λ m, m !! old) Er)|].
    rewrite lookup_insert_ne; congruence.
  - exact Eh.
Qed.

Lemma capsule_activation_skips_the_transaction_witness :
  let rev := demo_rev "coder" "rev_sha256:cc" "sha256:cc" in
  ∃ db', import_revision rev true 9 demo_db = (db', Ok tt) ∧
    current_revision db' "coder" = Some "rev_sha256:cc" ∧
    promotion_history db' = promotion_history demo_db.
Proof.
  intros rev. destruct (import_revision rev true 9 demo_db) as [db' r] eqn:E.
  assert (r = Ok tt) as -> by (vm_compute in E; by injection E as _ <-).
  exists db'. split; [done|].
  destruct (capsule_activation_skips_the_transaction demo_ops "coder" "rev_sha256:bb" rev 9 db'
    demo_undisturbed ltac:(by vm_compute) ltac:(done) ltac:(done) ltac:(by vm_compute) E) as (Hc & _ & _ & Hh).
  exact (conj Hc Hh).
Defined.

(** ** What the alias operations leave alone *)

Record frame (db db' : AgentDb) : Prop := {
  fr_short_ids : short_ids db' = short_ids db;
  fr_bindings : bindings db' = bindings db;
  fr_attempts : promotion_attempts db' = promotion_attempts db;
  fr_residency : session_residency db' = session_residency db;
}.

#[export] Instance frame_preorder : PreOrder frame.
Proof. split; [by split|]. intros d1 d2 d3 [] []. split; congruence. Qed.

Definition alias_op (op : RegistryOp) : Prop :=
  match op with
  | OpArchiveCandidates _ | OpPromote _ _ _ _ _ _ _ _ | OpRollback _ _ _ _ _ _ | OpRollbackTool _ _ _ _ _
  | OpSuspend _ _ _ | OpUnsuspend _ => True
  | _ => False
  end.

Lemma move_alias_frame a rid bt bi reason keep now db :
  frame db (move_alias a rid bt bi reason keep now db).
Proof. split; unfold move_alias; by repeat case_match. Qed.

Lemma archive_candidates_frame seen db : frame db (archive_candidates seen db).
Proof.
  unfold archive_candidates. revert db. induction seen as [|r seen IH]; intros db; simpl; [done|].
  rewrite <-IH. by destruct (bool_decide (rev_status r = Candidate)).
Qed.

Lemma atomic_rollback_frame a rid pid bt bi reason now db :
  frame db (atomic_rollback a rid pid bt bi reason now db).1.
Proof.
  destruct (atomic_rollback_cases a rid pid bt bi reason now db) as [[e ->]|(rev & _ & _ & ->)]; [done|].
  etrans; [apply (move_alias_frame a rid bt bi reason true now)|].
  by destruct (current_revision db a) as [c|]; [destruct (c =? rid)%string|].
Qed.

Lemma alias_op_frame now db op : alias_op op → frame db (registry_step now db op).
Proof.
  destruct op; try done; intros _; simpl.
  - apply archive_candidates_frame.
  - destruct (atomic_promote_cases agent_id rid pid by_type by_id reason eval_run pre_auth now db)
      as [[e ->]|(rev & _ & _ & _ & ->)]; [done|].
    etrans; [apply (move_alias_frame agent_id rid by_type by_id reason)|done].
  - apply atomic_rollback_frame.
  - unfold rollback_tool. repeat case_match; [apply atomic_rollback_frame|done..].
  - unfold suspend_agent. by repeat case_match.
  - unfold unsuspend_agent. by repeat case_match.
Qed.

Lemma import_frame rev activate now db :
  let db' := (import_revision rev activate now db).1 in
  bindings db' = bindings db ∧ promotion_attempts db' = promotion_attempts db ∧
  session_residency db' = session_residency db.
Proof.
  unfold import_revision, insert_agent_revision_transactional, get_agent_revision.
  destruct activate; repeat (case_match; simplify_eq/=); done.
Qed.

(** ** Short references *)

Lemma chunk_char_no_at chunk : (chunk_char chunk =? "@")%char = false.
Proof.
  unfold chunk_char. generalize (fold_left (λ idx b, (2 * idx + Nat.b2n b)%nat) chunk 0%nat). intros n.
  unfold CROCKFORD. do 32 (destruct n as [|n]; [done|]). done.
Qed.

Lemma short_id_no_at d len : contains_char (short_id d len) "@" = false.
Proof.
  unfold short_id. generalize (take (len * 5) (hex_bits
    (String.substring 0 (Nat.min ((len * 5 + 3) / 4) (String.length (strip_digest_prefix d)))
       (strip_digest_prefix d)) ++ replicate (len * 5 - length (hex_bits
    (String.substring 0 (Nat.min ((len * 5 + 3) / 4) (String.length (strip_digest_prefix d)))
       (strip_digest_prefix d)))) false)).
  unfold contains_char. induction len as [|len IH]; intros bits; [done|].
  cbn [encode_chunks str_existsb].
  rewrite IH, orb_false_r, Ascii.eqb_sym. apply chunk_char_no_at.
Qed.

(** Creates that leave the short id to the store, and imports that do or that
    bring a prefix code of the revision. *)
Definition mints (op : RegistryOp) : Prop :=
  match op with
  | OpCreate rev => rev_short_id rev = ""
  | OpImport rev _ => rev_short_id rev = "" ∨ ∃ n, rev_short_id rev = short_id (revision_id rev) n
  | _ => True
  end.

(** Every registered short id is a prefix code of its revision, which may have been
    reclaimed since. *)
Definition index_ok (db : AgentDb) : Prop :=
  map_Forall (λ s k, ∃ n, s = short_id k n) (short_ids db).

Lemma chosen_short_id_spec rev db :
  rev_short_id rev = "" → ∃ k, (8 ≤ k ≤ 17)%nat ∧ chosen_short_id rev db = short_id (revision_id rev) k ∧
    ((k ≤ 16)%nat → ∀ k' r, revisions db !! k' = Some r → k' ≠ revision_id rev →
       short_id k' k ≠ short_id (revision_id rev) k).
Proof.
  intros Hs.
  pose proof (short_id_loop_spec (revision_id rev)
    (List.filter (λ d, negb (d =? revision_id rev)%string) (map_to_list (revisions db)).*1) 8 8)
    as (k & Hk & Hloop & Hc). exists k.
  assert (chosen_short_id rev db = short_id (revision_id rev) k) as ->.
  { rewrite <-Hloop. unfold chosen_short_id. by rewrite Hs. } split_and!; [lia..|done|].
  intros Hk' k' r Hr Hne Heq. unfold short_id_collides in Hc. specialize (Hc Hk').
  rewrite existsb_false in Hc. specialize (Hc k'). apply String.eqb_neq in Hc; [done|].
  apply list_elem_of_In, List.filter_In. split; [|by apply negb_true_iff, String.eqb_neq].
  apply list_elem_of_In, list_elem_of_fmap. exists (k', r). split; [done|by apply elem_of_map_to_list].
Qed.

Lemma chosen_short_id_code rev db :
  rev_short_id rev = "" ∨ (∃ n, rev_short_id rev = short_id (revision_id rev) n) →
  ∃ n, chosen_short_id rev db = short_id (revision_id rev) n.
Proof.
  assert (rev_short_id rev = "" → ∃ n, chosen_short_id rev db = short_id (revision_id rev) n) as H0.
  { intros H. destruct (chosen_short_id_spec rev db H) as (k & _ & E & _). by exists k. }
  intros [H|[n H]]; [by apply H0|]. unfold chosen_short_id. destruct (str_is_empty (trim (rev_short_id rev))) eqn:E;
    [|by exists n].
  pose proof (short_id_loop_spec (revision_id rev)
    (List.filter (λ d, negb (d =? revision_id rev)%string) (map_to_list (revisions db)).*1) 8 8)
    as (k & Hk & Hloop & Hc). exists k. exact Hloop.
Qed.

Lemma insert_index rev db :
  index_ok db → (∃ n, chosen_short_id rev db = short_id (revision_id rev) n) →
  index_ok (insert_agent_revision_transactional rev db).1.
Proof.
  intros Hi Hn. destruct (insert_revision_cases rev db)
    as [[_ ->]|[->|(db' & -> & _ & _ & _ & _ & _ & Es)]]; [done..|].
  change (index_ok db'). intros s k. rewrite Es.
  destruct (short_ids db !! chosen_short_id rev db) eqn:E; [apply Hi|].
  rewrite lookup_insert_Some. intros [[<- <-]|[_ Hk]]; [done|by apply Hi].
Qed.

Lemma reuse_short_ids ex d : short_ids (reuse_revision ex d).1 = short_ids d.
Proof. unfold reuse_revision. by case_bool_decide. Qed.

Lemma create_index rev db :
  index_ok db → (∃ n, chosen_short_id rev db = short_id (revision_id rev) n) →
  index_ok (create_revision rev db).1.
Proof.
  intros Hi Hn. pose proof (insert_index rev db Hi Hn) as H.
  assert (∀ ex d, index_ok d → index_ok (reuse_revision ex d).1) as Hre
    by (intros ex d; unfold index_ok; by rewrite reuse_short_ids).
  unfold create_revision, get_agent_revision. destruct (revisions db !! revision_id rev) as [ex|].
  { pose proof (Hre ex db Hi) as Hr. by destruct (reuse_revision ex db). }
  destruct (insert_agent_revision_transactional rev db) as [d [[s|]|e]]; [done| |done].
  destruct (revisions d !! revision_id rev) as [ex|]; [|done].
  pose proof (Hre ex d H) as Hr. by destruct (reuse_revision ex d).
Qed.

Lemma import_index rev activate now db :
  index_ok db → (∃ n, chosen_short_id rev db = short_id (revision_id rev) n) →
  index_ok (import_revision rev activate now db).1.
Proof.
  intros Hi Hn. pose proof (insert_index rev db Hi Hn) as H. unfold import_revision.
  destruct (get_agent_revision db (revision_id rev)); [by destruct activate|].
  destruct (insert_agent_revision_transactional rev db) as [d [?|?]]; [by destruct activate|done].
Qed.

(** A new revision is registered under the short id the create answers, unless
    that id is beyond sixteen characters or still belongs to a reclaimed row. *)
Lemma create_registers rev db db1 short :
  index_ok db → rev_short_id rev = "" → create_revision rev db = (db1, Ok (Created short)) →
  (String.length short ≤ 16)%nat →
  revisions db1 !! revision_id rev = Some (rev{{ rev_short_id := short }}) ∧
  (∃ n, (8 ≤ n)%nat ∧ short = short_id (revision_id rev) n) ∧
  (short_ids db1 !! short = Some (revision_id rev) ∨
   ∃ k, k ≠ revision_id rev ∧ short_ids db !! short = Some k ∧ revisions db !! k = None).
Proof.
  intros Hi Hs Hc Hl. unfold create_revision, get_agent_revision in Hc.
  destruct (revisions db !! revision_id rev) as [ex|] eqn:E.
  { unfold reuse_revision in Hc. case_bool_decide; naive_solver. }
  destruct (insert_revision_cases rev db)
    as [[[x Hx] _]|[Ei|(db' & Ei & _ & Er & _ & _ & _ & Es)]]; [congruence|by rewrite Ei in Hc|].
  rewrite Ei in Hc. injection Hc as <- <-.
  destruct (chosen_short_id_spec rev db Hs) as (n & Hn & Hcs & Hfresh). rewrite Hcs in *.
  rewrite short_id_length in Hl. split_and!.
  - by rewrite Er, lookup_insert_eq.
  - exists n. split; [lia|done].
  - destruct (short_ids db !! short_id (revision_id rev) n) as [k|] eqn:Ek.
    + rewrite Es, Ek. destruct (decide (k = revision_id rev)) as [->|Hne]; [by left|right].
      exists k. split_and!; [done..|]. destruct (revisions db !! k) as [r|] eqn:Hr; [|done]. exfalso.
      destruct (Hi _ _ Ek) as [n' Hn']. pose proof (f_equal String.length Hn') as Hln.
      rewrite !short_id_length in Hln. subst n'. by apply (Hfresh Hl k r Hr).
    + left. rewrite Es. apply lookup_insert_eq.
Qed.

(** Only a create and an import write the index of short ids. *)
Lemma registry_step_short_ids now db op :
  match op with OpCreate _ | OpImport _ _ => True | _ => short_ids (registry_step now db op) = short_ids db end.
Proof.
  destruct op; try done; try by apply alias_op_frame.
  - apply pin_same_tables.
  - simpl. unfold record_rejected_promotion_attempt. by case_match.
  - simpl. by apply reclaim_rest.
Qed.

Lemma run_registry_index ops :
  Forall (λ op, mints op.2) ops → index_ok (run_registry empty_db ops).
Proof.
  intros H. assert (∀ db, index_ok db → index_ok (run_registry db ops)) as Hrun;
    [|apply Hrun; by apply map_Forall_empty].
  induction H as [|[now op] ops Hop _ IH]; intros db Hi; [done|].
  change (index_ok (run_registry (registry_step now db op) ops)). apply IH.
  pose proof (registry_step_short_ids now db op) as Hs.
  destruct op; try (by unfold index_ok; rewrite Hs); cbn [mints snd] in Hop; cbn [registry_step].
  - apply create_index; [done|].
    apply (chosen_short_id_code (rev{{ rev_status := Candidate }})). by left.
  - apply import_index; [done|]. by apply (chosen_short_id_code (rev{{ rev_status := Candidate }})).
Qed.

(** A short reference is not a full one: it is too short to hold a digest. *)
Lemma short_ref_not_full agent short :
  contains_char agent "@" = false → (String.length short ≤ 16)%nat →
  parse_agent_ref (agent ++ "@rev_" ++ short) = None.
Proof.
  intros Ha Hl. unfold parse_agent_ref.
  rewrite (proj2 (split_once_some "@" _ agent ("rev_" ++ short))) by done.
  assert (is_valid_revision_id ("rev_" ++ short) = false) as ->; [|by repeat case_match].
  unfold is_valid_revision_id. destruct (strip_prefix ("rev_" ++ short) REVISION_PREFIX) as [hex|] eqn:E; [|done].
  apply strip_prefix_some, (f_equal String.length) in E. rewrite !str_length_app in E. simpl in E.
  apply andb_false_iff. left. apply Nat.eqb_neq. lia.
Qed.

(** The row of a revision is there now and after every one of the operations. *)
Fixpoint stays (rid : string) (db : AgentDb) (ops : list (Instant * RegistryOp)) : Prop :=
  is_Some (revisions db !! rid) ∧
  match ops with
  | [] => True
  | op :: ops => stays rid (registry_step op.1 db op.2) ops
  end.

Lemma stays_keeps rid ops db r :
  stays rid db ops → revisions db !! rid = Some r →
  ∃ st, revisions (run_registry db ops) !! rid = Some (r{{ rev_status := st }}).
Proof.
  revert db r. induction ops as [|[now op] ops IH]; intros db r [_ Hst] Hr.
  { exists (rev_status r). by rewrite <-set_same_status. }
  assert (∃ st, revisions (registry_step now db op) !! rid = Some (r{{ rev_status := st }})) as [st Hr'].
  { pose proof (registry_step_keeps now db op) as Hk. destruct op; try by apply (keeps_revisions _ _ Hk).
    exists (rev_status r). rewrite <-set_same_status. cbn [fst snd] in Hst.
    assert (is_Some (revisions (registry_step now db (OpReclaim max_age_days)) !! rid)) as [r' Hr']
      by (destruct ops; apply Hst).
    pose proof (reclaim_some _ _ _ _ _ Hr'). simpl in *. congruence. }
  by destruct (IH _ _ Hst Hr') as [st' H]; exists st'.
Qed.

(** What a short reference resolves to. *)
Lemma resolve_short_ref db agent short rid :
  agent ≠ "" → contains_char agent "@" = false → short ≠ "" → contains_char short "@" = false →
  (String.length short ≤ 16)%nat → short_ids db !! short = Some rid →
  resolve_agent db (agent ++ "@rev_" ++ short) =
  match revisions db !! rid with
  | Some r => if negb (rev_agent_id r =? agent)%string then Err (RevisionOfOther rid (rev_agent_id r))
              else Ok ({| ref_agent_id := rev_agent_id r; ref_revision_id := revision_id r |}, r)
  | None => Err (RevisionNotFound rid)
  end.
Proof.
  intros Hne Hat Hshort Hsat Hl Hi. unfold resolve_agent, parse_agent_target.
  rewrite (proj2 (split_once_some "@" _ agent ("rev_" ++ short))) by done.
  destruct agent as [|a0 ar] eqn:Ea; [done|]. destruct short as [|c short']; [done|].
  simpl str_is_empty. replace (contains_char ("rev_" ++ String c short') "@") with false.
  simpl orb. unfold resolve_explicit. rewrite <-Ea in *. rewrite short_ref_not_full by done.
  rewrite (proj2 (strip_prefix_some _ "rev_" (String c short'))) by done.
  unfold lookup_short_id. rewrite Hi. unfold get_agent_revision. by destruct (revisions db !! rid).
Qed.

(** C38: The short reference a create answers names that revision and never another: as
    long as the ids are minted by the store or are prefix codes, [agent@rev_<short>]
    resolves to the new revision right away and after every later operation for
    as long as its row is in the table - an archived revision without a session
    may be reclaimed - and whatever it resolves to later bears the same revision
    id, for every short id of at most sixteen characters.  The exception is an id
    that is still registered to a revision reclaimed before: the code is then
    not registered again. *)
Theorem short_ref_resolves ops rev short db1 :
  let db := run_registry empty_db ops in
  Forall (λ op, mints op.2) ops → rev_short_id rev = "" →
  rev_agent_id rev ≠ "" → contains_char (rev_agent_id rev) "@" = false →
  create_revision rev db = (db1, Ok (Created short)) →
  (String.length short ≤ 16)%nat →
  (∃ k, k ≠ revision_id rev ∧ short_ids db !! short = Some k ∧ revisions db !! k = None) ∨
  ∀ later, let db2 := run_registry db1 later in
    (stays (revision_id rev) db1 later → ∃ st,
       resolve_agent db2 (rev_agent_id rev ++ "@rev_" ++ short)
       = Ok ({| ref_agent_id := rev_agent_id rev; ref_revision_id := revision_id rev |},
             rev{{ rev_short_id := short }}{{ rev_status := st }})) ∧
    (∀ ref r, resolve_agent db2 (rev_agent_id rev ++ "@rev_" ++ short) = Ok (ref, r) →
       ref = {| ref_agent_id := rev_agent_id rev; ref_revision_id := revision_id rev |} ∧
       revisions db2 !! revision_id rev = Some r).
Proof.
  intros db Hm Hs Hne Hat Hc Hl.
  destruct (create_registers rev db db1 short) as (Hr & (n & Hn & Hsn) & [Hi|Hk]);
    [by apply run_registry_index|done..| |by left]. right. intros later db2.
  destruct (run_registry_keeps db1 later) as [_ _ Ks _]. apply Ks in Hi. fold db2 in Hi.
  assert (short ≠ "") as Hshort by (intros ->; apply (f_equal String.length) in Hsn;
    rewrite short_id_length in Hsn; simpl in Hsn; lia).
  assert (contains_char short "@" = false) as Hsat by (rewrite Hsn; apply short_id_no_at).
  assert (map_Forall (λ k r, revision_id r = k) (revisions db2)) as Hkeys.
  { apply (kp_keys _ _ (run_registry_keeps db1 later)).
    pose proof (keeps_keys _ _ (create_revision_keeps rev db) (run_registry_keys ops)) as H. by rewrite Hc in H. }
  rewrite (resolve_short_ref db2 _ short (revision_id rev)) by done. split.
  - intros Hst. destruct (stays_keeps _ _ _ _ Hst Hr) as [st Hr2]. fold db2 in Hr2. exists st.
    rewrite Hr2. simpl. by rewrite String.eqb_refl.
  - intros ref r. destruct (revisions db2 !! revision_id rev) as [r2|] eqn:E; [|done].
    destruct (String.eqb_spec (rev_agent_id r2) (rev_agent_id rev)) as [Ha|]; [|done].
    intros [= <- <-]. by rewrite (Hkeys _ _ E), Ha.
Qed.

Lemma short_ref_resolves_witness :
  let rev := demo_rev "coder" "rev_sha256:cc" "sha256:cc" in
  let later := [(9%Z, OpArchiveCandidates [rev]); (10 ^ 18, OpReclaim 30)%Z] in
  ∃ db1, create_revision rev demo_db = (db1, Ok (Created "sg000000")) ∧
   (∃ st,
    resolve_agent (run_registry db1 (take 1 later)) "coder@rev_sg000000"
    = Ok ({| ref_agent_id := "coder"; ref_revision_id := "rev_sha256:cc" |},
          rev{{ rev_short_id := "sg000000" }}{{ rev_status := st }})) ∧
   resolve_agent (run_registry db1 later) "coder@rev_sg000000" = Err (RevisionNotFound "rev_sha256:cc").
Proof.
  intros rev later. destruct (create_revision rev demo_db) as [db1 r] eqn:E.
  assert (r = Ok (Created "sg000000")) as -> by (vm_compute in E; by injection E as _ <-).
  exists db1. split; [done|].
  destruct (short_ref_resolves demo_ops rev "sg000000" db1 ltac:(repeat constructor) eq_refl
    ltac:(done) eq_refl E ltac:(simpl; lia)) as [(k & _ & Hk & _)|H].
  - exfalso. vm_compute in Hk. discriminate Hk.
  - split; [|vm_compute in E; injection E as <-; vm_compute; reflexivity].
    apply (H (take 1 later)). vm_compute in E. injection E as <-. vm_compute. by repeat split; eexists.
Defined.

(** The exception is real: a code that a reclaimed revision holds is answered again
    by the create of a revision that shares it, and the reference does not
    resolve. *)
Example reclaimed_code_shadows_a_create :
  let rev a b := (demo_rev "coder" a b) in
  let ops := [(1%Z, OpCreate (rev "rev_sha256:cccccccccca" "sha256:a"));
              (2%Z, OpArchiveCandidates [rev "rev_sha256:cccccccccca" "sha256:a"]);
              ((10 ^ 18)%Z, OpReclaim 30)] in
  let '(db1, r) := create_revision (rev "rev_sha256:ccccccccccb" "sha256:b") (run_registry empty_db ops) in
  r = Ok (Created "sk6csk6c") ∧
  resolve_agent db1 "coder@rev_sk6csk6c" = Err (RevisionNotFound "rev_sha256:cccccccccca").
Proof. vm_compute. split; reflexivity. Qed.

(** ** Who can be messaged *)

(** The keys of the session tables. *)
Record sessions_ok (db : AgentDb) : Prop := {
  so_bindings : map_Forall (λ s b, sb_session_id b = s) (bindings db);
  so_residency : map_Forall (λ s r, sr_session_id r = s) (session_residency db);
}.

Lemma sessions_ok_same db db' :
  bindings db' = bindings db → session_residency db' = session_residency db →
  sessions_ok db → sessions_ok db'.
Proof. intros Hb Hr [? ?]. split; by rewrite ?Hb, ?Hr. Qed.

Lemma create_revision_sessions rev db : sessions_ok db → sessions_ok (create_revision rev db).1.
Proof.
  apply sessions_ok_same; unfold create_revision, reuse_revision, insert_agent_revision_transactional,
    get_agent_revision; repeat (case_match; simplify_eq/=); done.
Qed.

Lemma registry_step_sessions now db op : sessions_ok db → sessions_ok (registry_step now db op).
Proof.
  intros H. destruct op; try (by revert H; apply sessions_ok_same);
    try (revert H; apply sessions_ok_same; by apply alias_op_frame); simpl.
  - by apply create_revision_sessions.
  - unfold resolve_and_pin_session_with_revision. repeat case_match; try done;
      (split; [|apply H]; apply map_Forall_insert_2; [done|apply H]).
  - split; [apply H|]. apply map_Forall_insert_2; [|apply H].
    destruct (session_residency db !! sr_session_id r) as [old|] eqn:E; [|done].
    by apply (so_residency _ H) in E.
  - split; [apply H|]. apply map_Forall_delete, H.
  - revert H. apply sessions_ok_same; unfold record_rejected_promotion_attempt; by case_match.
  - revert H. apply sessions_ok_same; by apply import_frame.
  - revert H. apply sessions_ok_same; by apply reclaim_rest.
Qed.

Lemma run_registry_sessions ops : sessions_ok (run_registry empty_db ops).
Proof.
  apply run_registry_ind; [|split; by apply map_Forall_empty]. intros now db op. apply registry_step_sessions.
Qed.

Lemma elem_of_push_unseen l l' s : s ∈ fold_left push_unseen l' l ↔ s ∈ l ∨ s ∈ l'.
Proof.
  revert l. induction l' as [|x l' IH]; intros l; simpl; [set_solver|].
  rewrite IH. unfold push_unseen. case_bool_decide; set_solver.
Qed.

Lemma elem_of_rows {A} (m : gmap string A) (key : A → string) (cmp : A → A → comparison) p s :
  map_Forall (λ k x, key x = k) m →
  s ∈ map key (sort_by cmp (List.filter p (map_to_list m).*2)) ↔ ∃ x, m !! s = Some x ∧ p x = true.
Proof.
  intros Hk. rewrite list_elem_of_fmap. setoid_rewrite elem_of_sort_by.
  setoid_rewrite list_elem_of_In. setoid_rewrite List.filter_In. setoid_rewrite <-list_elem_of_In.
  setoid_rewrite list_elem_of_fmap. split.
  - intros (x & -> & ([k y] & -> & Hy%elem_of_map_to_list) & Hp). simpl. exists y.
    by rewrite (Hk k y Hy).
  - intros (x & Hx & Hp). exists x. split; [symmetry; by apply Hk|]. split; [|done].
    exists (s, x). split; [done|by apply elem_of_map_to_list].
Qed.

(** The two answers to "can this session be messaged" agree: for a session
    bound to an agent, whose residency, if any, is recorded under that agent, the
    session is in the agent's list of addressable sessions exactly when the direct
    check says so. *)
Theorem addressability_in_lockstep ops s b now :
  let db := run_registry empty_db ops in
  bindings db !! s = Some b →
  (∀ r, session_residency db !! s = Some r → sr_agent_id r = sb_agent_id b) →
  s ∈ list_addressable_sessions_for_agent db (sb_agent_id b) now ↔ is_session_addressable db s now = true.
Proof.
  intros db Hb Hr. destruct (run_registry_sessions ops) as [Kb Kr]. fold db in Kb, Kr.
  unfold list_addressable_sessions_for_agent, list_unfinished_sessions_for_agent,
    list_resident_sessions_for_agent, is_session_addressable.
  rewrite elem_of_push_unseen, !elem_of_rows by done. rewrite Hb. split.
  - intros [(r & E & H)|(b' & [= <-] & H)]; apply andb_true_iff in H as [_ H].
    + by rewrite E, H.
    + rewrite (Kb s b Hb) in H. destruct (session_residency db !! s); [by case_bool_decide|done].
  - assert (ledger_unfinished db s = true → ∃ x, Some b = Some x ∧
      (sb_agent_id x =? sb_agent_id b)%string && ledger_unfinished db (sb_session_id x) = true) as Hl.
    { intros H. exists b. by rewrite String.eqb_refl, (Kb s b Hb), H. }
    destruct (session_residency db !! s) as [r|] eqn:E; [|by right; apply Hl].
    case_bool_decide as Ht; [|by right; apply Hl]. intros _. left. exists r.
    rewrite (Hr r eq_refl), String.eqb_refl. by rewrite bool_decide_true.
Qed.

Lemma addressability_in_lockstep_witness :
  let ops := demo_ops ++ [(5%Z, OpPin "s" "s" "coder" None "node" None); (6%Z, OpClose "s" false)] in
  let db := run_registry empty_db ops in
  ∃ b, bindings db !! "s" = Some b ∧
    (("s" ∈ list_addressable_sessions_for_agent db (sb_agent_id b) 7)
     ↔ is_session_addressable db "s" 7 = true).
Proof.
  intros ops db. destruct (bindings db !! "s") as [b|] eqn:E; [|vm_compute in E; discriminate E].
  exists b. split; [done|]. apply (addressability_in_lockstep ops "s" b 7 E).
  intros r Hr. vm_compute in Hr. discriminate Hr.
Defined.
