(* ===== verification/PromotionSpec.v ===== *)
(** * What the promotion gate lets through

    Contracts of the review gate and of the verdicts it reads: when exactly a
    revision passes, what a carried verdict is worth, whom the identity check
    compares, and what two tools writing the registry file leave. *)

From Stdlib Require Import Ascii String Lia.
From stdpp Require Import prelude gmap strings list sorting relations.
From coqutil Require Import Datatypes.RecordSetters.
From S2P Require Import Prelude RustStr Json Capability Promotion AgentRevision AgentRegistry.
From S2P Require Import PromotionGate.
Import DoubleBraceUpdate.

Open Scope string_scope.
Open Scope list_scope.

(** ** Specifications *)

(** What each mode asks of the evaluator's side. *)
Definition mode_ok (mode : PromotionGateMode) (rev : AgentRevisionRecord) (p : PromotionRecord)
    (audit_id : string) : Prop :=
  match mode with
  | FullMode => (∃ r, r ∈ [Evaluator; SealedEvaluator; StaticEvaluator] ∧ pass (role_slot r p) = true) ∧
                ∃ eval_id, evaluator_identity p = Some eval_id ∧ eval_id ≠ audit_id
  | AuditOnly => audit_id ≠ rev_created_by_id rev
  | FullJury => True
  end.

(** A verdict with its run on record. *)
Definition run_backed (get : string → option ExecutionTraceRecord) (s : RoleSlot) : Prop :=
  ∃ tid t, execution_trace_id s = Some tid ∧ tid ≠ "" ∧ get tid = Some t ∧
    exit_code t = Some 0%Z ∧ success t = 1%Z.

(** A record that lets a revision through. *)
Record gate_ready (get : string → option ExecutionTraceRecord) (mode : PromotionGateMode)
    (rev : AgentRevisionRecord) (p : PromotionRecord) : Prop := {
  gr_digest : pr_content_digest p = None ∨ pr_content_digest p = Some (rev_content_digest rev);
  gr_audit : ∃ audit_id, slot_id (auditor p) = Some audit_id ∧ mode_ok mode rev p audit_id;
  gr_audit_pass : pass (auditor p) = true;
  gr_veto : ∀ f, f ∈ findings (auditor p) → severity f ≠ SevCritical;
  gr_tests : is_Some (slot_id (unit_test_runner p)) → pass (unit_test_runner p) = true;
  gr_dependencies : has_unresolved_dependencies rev = false;
  gr_runs : ∀ r, r ∈ [Evaluator; UnitTestRunner; SealedEvaluator] →
    pass (role_slot r p) = true → run_backed get (role_slot r p);
}.

(** A write to the registry that is no verdict of [role] on artifact [a]: a verdict
    recorded or carried for another role or artifact, a binding, a reconciliation. *)
Inductive writes_beside (get : string → option ExecutionTraceRecord) (role : PromotionRole) (a : string)
    (st : Registry) : Registry → Prop :=
| wb_record x d r agent trace ok fs digests closure now : x ≠ a ∨ r ≠ role →
    writes_beside get role a st (promotion_record_tool get x d r agent trace ok fs digests closure now st).1
| wb_carry x r prior_id prov current strictness now : x ≠ a ∨ r ≠ role →
    writes_beside get role a st (carry_verdict x r prior_id prov current strictness now st).1
| wb_bind x content : writes_beside get role a st (bind_content_digest_if_unset x content st).1
| wb_reconcile x content : writes_beside get role a st (reconcile_content_digest_for_revision x content st).1.

(** ** The gate *)

Lemma is_some_spec {A} (o : option A) : is_some o = true ↔ is_Some o.
Proof. destruct o; simpl; split; [by eexists|done|done|by intros [? ?]]. Qed.

Lemma trace_indicates_pass_spec t :
  trace_indicates_pass t = true ↔ exit_code t = Some 0%Z ∧ success t = 1%Z.
Proof. unfold trace_indicates_pass. by rewrite andb_true_iff, !bool_decide_eq_true. Qed.

Lemma verify_role_trace_ok get s :
  verify_role_trace get s = None ↔ (pass s = true → run_backed get s).
Proof.
  unfold verify_role_trace, run_backed. destruct (pass s); simpl; [|by split].
  destruct (execution_trace_id s) as [[|c tid]|]; simpl.
  - split; [done|]. intros H. destruct (H eq_refl) as (? & ? & [= <-] & ? & _). done.
  - destruct (get (String c tid)) as [t|] eqn:E.
    + destruct (trace_indicates_pass t) eqn:Et.
      * apply trace_indicates_pass_spec in Et. split; [|done]. intros _ _. by exists (String c tid), t.
      * split; [done|]. intros H. destruct (H eq_refl) as (? & t' & [= <-] & _ & Ht & Hp).
        rewrite E in Ht. injection Ht as <-. apply trace_indicates_pass_spec in Hp. congruence.
    + split; [done|]. intros H. destruct (H eq_refl) as (? & t' & [= <-] & _ & Ht & _). congruence.
  - split; [done|]. intros H. by destruct (H eq_refl) as (? & ? & ? & _).
Qed.

Lemma verify_stored_ok get p :
  verify_stored_execution_traces get p = None ↔
  (∀ r, r ∈ [Evaluator; UnitTestRunner; SealedEvaluator] →
     pass (role_slot r p) = true → run_backed get (role_slot r p)) ∧
  (pass (auditor p) = true → ∀ f, f ∈ findings (auditor p) → severity f ≠ SevCritical).
Proof.
  unfold verify_stored_execution_traces. simpl find_map.
  assert (pass (auditor p) && auditor_critical_veto (findings (auditor p)) = false ↔
    (pass (auditor p) = true → ∀ f, f ∈ findings (auditor p) → severity f ≠ SevCritical)) as Hv.
  { unfold auditor_critical_veto. destruct (pass (auditor p)); simpl; [|by split].
    rewrite existsb_false. setoid_rewrite bool_decide_eq_false. naive_solver. }
  rewrite <-Hv. setoid_rewrite <-verify_role_trace_ok. clear Hv. split.
  - destruct (verify_role_trace get (evaluator p)) eqn:E1; [done|].
    destruct (verify_role_trace get (unit_test_runner p)) eqn:E2; [done|].
    destruct (verify_role_trace get (sealed_evaluator p)) eqn:E3; [done|].
    case_match eqn:E; [done|]. intros _. split; [|done].
    intros r [->|[->|[->|[]%not_elem_of_nil]%elem_of_cons]%elem_of_cons]%elem_of_cons; done.
  - intros [H ->]. pose proof (H Evaluator) as H1. pose proof (H UnitTestRunner) as H2.
    pose proof (H SealedEvaluator) as H3. simpl in H1, H2, H3. by rewrite H1, H2, H3 by set_solver.
Qed.

Lemma mode_checks_ok mode rev p audit_id :
  mode_checks mode rev p audit_id = None ↔ mode_ok mode rev p audit_id.
Proof.
  destruct mode; simpl.
  - assert (pass (evaluator p) || pass (sealed_evaluator p) || pass (static_evaluator p) = true ↔
      ∃ r, r ∈ [Evaluator; SealedEvaluator; StaticEvaluator] ∧ pass (role_slot r p) = true) as Hp.
    { rewrite !orb_true_iff. split.
      - intros [[H|H]|H]; [exists Evaluator|exists SealedEvaluator|exists StaticEvaluator]; split; set_solver.
      - intros (r & Hr & H). destruct r; simpl in H; set_solver. }
    rewrite <-Hp. clear Hp.
    destruct (pass (evaluator p) || pass (sealed_evaluator p) || pass (static_evaluator p)); simpl;
      [|split; [done|by intros [? _]]].
    destruct (evaluator_identity p) as [eval_id|]; [|split; [done|by intros [_ (? & ? & _)]]].
    destruct (String.eqb_spec eval_id audit_id) as [->|Hne].
    + split; [done|]. by intros [_ (? & [= <-] & ?)].
    + split; [|done]. intros _. split; [done|by exists eval_id].
  - destruct (String.eqb_spec audit_id (rev_created_by_id rev)); by split.
  - by split.
Qed.

Lemma refuse_some c gate code db : ∃ e, (refuse c gate code db).2 = Some e.
Proof. unfold refuse. destruct (record_attempt _ _ _ _ db) as [? [?|]]; by eexists. Qed.

Lemma gate_checks_ok mode rev p :
  gate_checks mode rev p = None ↔
  pr_content_digest p = Some (rev_content_digest rev) ∧ pass (auditor p) = true ∧
  (∃ audit_id, slot_id (auditor p) = Some audit_id ∧ mode_ok mode rev p audit_id) ∧
  (is_Some (slot_id (unit_test_runner p)) → pass (unit_test_runner p) = true) ∧
  has_unresolved_dependencies rev = false.
Proof.
  unfold gate_checks. case_bool_decide as Hd; simpl; [|split; [done|by intros [? _]]].
  destruct (pass (auditor p)); simpl; [|split; [done|by intros (_ & ? & _)]].
  destruct (slot_id (auditor p)) as [audit_id|]; [|split; [done|by intros (_ & _ & (? & ? & _) & _)]].
  destruct (mode_checks mode rev p audit_id) as [e|] eqn:Em.
  - split; [done|]. intros (_ & _ & (? & [= <-] & H%mode_checks_ok) & _). congruence.
  - apply mode_checks_ok in Em.
    assert (is_some (slot_id (unit_test_runner p)) && negb (pass (unit_test_runner p)) = false ↔
      (is_Some (slot_id (unit_test_runner p)) → pass (unit_test_runner p) = true)) as <-.
    { rewrite <-is_some_spec. by destruct (is_some _), (pass (unit_test_runner p)); simpl; intuition. }
    destruct (is_some _ && _); [split; [done|by intros (_ & _ & _ & ? & _)]|].
    destruct (has_unresolved_dependencies rev); [split; [done|by intros (_ & _ & _ & _ & ?)]|].
    split; [|done]. intros _. split_and!; [done..|by exists audit_id|done|done].
Qed.

(** The subject of the gate: the record, bound to the digest of the revision when
    it had none. *)
Lemma bind_lookup a content st p :
  st !! a = Some p →
  (bind_content_digest_if_unset a content st).1 !! a
  = Some (match pr_content_digest p with Some _ => p | None => p{{ pr_content_digest := Some content }} end).
Proof.
  intros H. unfold bind_content_digest_if_unset. rewrite H.
  destruct (pr_content_digest p); simpl; [done|apply lookup_insert_eq].
Qed.

Lemma enforce_gate_ok get c a mode st db :
  (enforce_promotion_gate get c a mode st db).2.2 = None ↔
  ∃ p, st !! a = Some p ∧ gate_ready get mode (call_rev c) p.
Proof.
  unfold enforce_promotion_gate. set (rev := call_rev c).
  destruct (st !! a) as [p|] eqn:E.
  - rewrite (bind_lookup _ _ _ _ E).
    set (q := match pr_content_digest p with Some _ => p | None => _ end).
    assert (∀ r, role_slot r q = role_slot r p) as Hq by (intros r; unfold q; by destruct (pr_content_digest p), r).
    pose proof (Hq Auditor) as Ha. pose proof (Hq UnitTestRunner) as Hu. simpl in Ha, Hu.
    assert (evaluator_identity q = evaluator_identity p) as He by (unfold q; by destruct (pr_content_digest p)).
    assert (gate_checks mode rev q = None ∧ verify_stored_execution_traces get q = None ↔
            gate_ready get mode rev p) as Hr.
    { rewrite gate_checks_ok, verify_stored_ok, Ha, Hu. setoid_rewrite Hq.
      assert (∀ i, mode_ok mode rev q i ↔ mode_ok mode rev p i) as Hm.
      { intros i. destruct mode; simpl; [|done..]. setoid_rewrite Hq. by rewrite He. }
      setoid_rewrite Hm.
      assert (pr_content_digest q = Some (rev_content_digest rev) ↔
        pr_content_digest p = None ∨ pr_content_digest p = Some (rev_content_digest rev)) as ->.
      { unfold q. destruct (pr_content_digest p) as [d|] eqn:Ed; [rewrite Ed; naive_solver|by split; [left|]]. }
      split; [intros [(? & ? & ? & ? & ?) [? ?]]; split; auto|intros []; split_and!; auto]. }
    destruct (gate_checks mode rev q) as [e|] eqn:Eg.
    + destruct (refuse_some c "promotion_gate" e db) as [e' H].
      simpl. rewrite H. split; [done|]. intros (? & [= <-] & Hp%Hr). naive_solver.
    + destruct (verify_stored_execution_traces get q) as [e|] eqn:Ev.
      * split; [done|]. intros (? & [= <-] & H%Hr). naive_solver.
      * split; [|done]. intros _. exists p. split; [done|by apply Hr].
  - assert ((bind_content_digest_if_unset a (rev_content_digest rev) st).1 !! a = None) as ->.
    { unfold bind_content_digest_if_unset. by rewrite E. }
    destruct (refuse_some c "promotion_gate" "promotion_record_missing" db) as [e H].
    simpl. rewrite H. naive_solver.
Qed.

Lemma enforce_gate_same get c a mode st db :
  (enforce_promotion_gate get c a mode st db).2.2 = None →
  (enforce_promotion_gate get c a mode st db).2.1 = db.
Proof.
  unfold enforce_promotion_gate, refuse. repeat (case_match; simpl); done.
Qed.

(** C3: The promotion gate, exactly: a revision passes just when its artifact has a
    record bound to its content digest (or to none yet) with a passing auditor
    who raised no critical finding, the evaluator's side its mode asks for, unit
    tests that passed if they ran, a successful recorded run behind every passing
    execution role, and no unresolved dependencies.  The gate writes the
    binding and nothing else to the registry, and a pass writes no attempt. *)
Theorem promotion_gate_exact get c a mode st db :
  let out := enforce_promotion_gate get c a mode st db in
  (out.2.2 = None ↔ ∃ p, st !! a = Some p ∧ gate_ready get mode (call_rev c) p) ∧
  out.1 = (bind_content_digest_if_unset a (rev_content_digest (call_rev c)) st).1 ∧
  (out.2.2 = None → out.2.1 = db).
Proof.
  split; [apply enforce_gate_ok|]. split; [|apply enforce_gate_same].
  unfold enforce_promotion_gate. by repeat case_match.
Qed.

(** ** Carried verdicts *)

Lemma digest_changed_same a b : digest_changed a b = false ↔ ∃ x, a = Some x ∧ b = Some x.
Proof.
  destruct a as [x|], b as [y|]; simpl; try (split; [done|by intros (? & ? & ?)]).
  rewrite negb_false_iff, String.eqb_eq. naive_solver.
Qed.

Lemma role_result p r : get_role_result p (role_as_str r) = Some (pass (role_slot r p), findings (role_slot r p)).
Proof. by destruct r. Qed.

Lemma role_verdict p r : has_role_verdict p (role_as_str r) = is_some (slot_id (role_slot r p)).
Proof. by destruct r. Qed.

Lemma verify_carry_ok role prior current strictness :
  verify_carry_claim role prior current strictness = Ok tt ↔
   strictness = CarryConservative ∧ role ∈ [UnitTestRunner; Auditor; SealedEvaluator] ∧
   ∃ p code contract, prior = Some p ∧ is_Some (slot_id (role_slot role p)) ∧
     pass (role_slot role p) = true ∧
     code_digest p = Some code ∧ fd_code current = Some code ∧
     contract_digest p = Some contract ∧ fd_contract current = Some contract.
Proof.
  assert (role_is_carry_eligible role = true ↔ role ∈ [UnitTestRunner; Auditor; SealedEvaluator]) as <-.
  { destruct role; simpl; split; set_solver. }
  unfold verify_carry_claim. destruct (role_is_carry_eligible role); [|split; [done|by intros (_ & ? & _)]].
  destruct prior as [p|]; [|split; [done|by intros (_ & _ & ? & ? & ? & ? & _)]]. simpl.
  rewrite role_result, role_verdict.
  destruct (slot_id (role_slot role p)) as [i|] eqn:Ei; simpl;
    [|split; [done|intros (_ & _ & q & _ & _ & [= <-] & [? H] & _); congruence]].
  destruct (pass (role_slot role p)) eqn:Ep; simpl;
    [|split; [done|intros (_ & _ & q & _ & _ & [= <-] & _ & H & _); congruence]].
  transitivity (strictness = CarryConservative ∧
    digest_changed (code_digest p) (fd_code current) = false ∧
    digest_changed (contract_digest p) (fd_contract current) = false).
  - assert (∀ a b, is_some a = false → digest_changed a b = true) as Hn by (intros [|]; done).
    destruct (is_some (code_digest p)) eqn:E1; simpl; [|split; [done|rewrite Hn by done; naive_solver]].
    destruct (is_some (contract_digest p)) eqn:E2; simpl;
      [|split; [done|rewrite (Hn (contract_digest p)) by done; naive_solver]].
    destruct (digest_changed (code_digest p) _); [split; [done|naive_solver]|].
    destruct (digest_changed (contract_digest p) _); [split; [done|naive_solver]|].
    destruct strictness; simpl; [split; [done|naive_solver]|done].
  - rewrite !digest_changed_same. split.
    + intros (-> & (x & Hx & Hx') & (y & Hy & Hy')). split_and!; [done..|]. exists p, x, y.
      by split_and!.
    + intros (-> & _ & q & x & y & [= <-] & _ & _ & ? & ? & ? & ?). split_and!; [done|by exists x|by exists y].
Qed.

(** A claim to carry a verdict forward, exactly: it stands just when carrying is
    on, the role is one of the three that judge code only, the prior record has a
    passing verdict of that role, and both its code and its contract digest are
    those of the rebuilt artifact.  The static evaluator and the evaluator never
    carry - although the artifact diff offers the static evaluator when nothing
    changed. *)
Theorem carry_claim_exact role prior current strictness :
  (verify_carry_claim role prior current strictness = Ok tt ↔
   strictness = CarryConservative ∧ role ∈ [UnitTestRunner; Auditor; SealedEvaluator] ∧
   ∃ p code contract, prior = Some p ∧ is_Some (slot_id (role_slot role p)) ∧
     pass (role_slot role p) = true ∧
     code_digest p = Some code ∧ fd_code current = Some code ∧
     contract_digest p = Some contract ∧ fd_contract current = Some contract) ∧
  (∀ code contract prose, let d := {| fd_code := Some code; fd_contract := Some contract; fd_prose := Some prose |} in
     "static_evaluator" ∈ carry_eligible_roles d d ∧
     verify_carry_claim StaticEvaluator prior d strictness = Err RoleNotCarryEligible).
Proof.
  split; [apply verify_carry_ok|].
  intros code contract prose d. split; [|done].
  unfold carry_eligible_roles, digest_eq. simpl. rewrite !String.eqb_refl. simpl. set_solver.
Qed.

Lemma write_role_verdict_slots r agent ok fs now trace p :
  let q := write_role_verdict r agent ok fs now trace p in
  role_slot r q = {| slot_id := Some agent; pass := ok; findings := fs; timestamp := Some now;
    execution_trace_id := match r with Auditor => execution_trace_id (auditor p) | _ => trace end |} ∧
  (∀ r', r' ≠ r → role_slot r' q = role_slot r' p) ∧ pr_content_digest q = pr_content_digest p.
Proof. by destruct r, p; split_and!; try intros []. Qed.

Lemma set_artifact_digest_slots d p :
  let q := match d with Some d => p{{ artifact_digest := Some d }} | None => p end in
  (∀ r, role_slot r q = role_slot r p) ∧ pr_content_digest q = pr_content_digest p.
Proof. by destruct d, p; split; try intros []. Qed.

Definition prior_record (a : string) (d content : option string) (st : Registry) : PromotionRecord :=
  default (new_promotion_record a d content) (st !! a).

(** Recording a verdict without a content digest touches only its own slot. *)
Lemma record_promotion_here a d r agent ok fs trace now st :
  ∃ q, (record_promotion a d None r agent ok fs trace now st).1 !! a = Some q ∧
    role_slot r q = {| slot_id := Some agent; pass := ok; findings := fs; timestamp := Some now;
      execution_trace_id := match r with
        | Auditor => execution_trace_id (auditor (prior_record a d None st)) | _ => trace end |} ∧
    (∀ r', r' ≠ r → role_slot r' q = role_slot r' (prior_record a d None st)) ∧
    pr_content_digest q = pr_content_digest (prior_record a d None st).
Proof.
  unfold record_promotion. fold (prior_record a d None st).
  destruct (set_artifact_digest_slots d (prior_record a d None st)) as [Hs Hd]. revert Hs Hd.
  generalize (match d with Some e => (prior_record a d None st){{ artifact_digest := Some e }}
              | None => prior_record a d None st end).
  intros p1 Hs Hd. destruct (write_role_verdict_slots r agent ok fs now trace p1) as (H1 & H2 & H3).
  eexists. split; [apply lookup_insert_eq|]. split_and!.
  - rewrite H1. pose proof (Hs Auditor) as Ha. simpl in Ha. by rewrite Ha.
  - intros r' Hr. by rewrite H2, Hs.
  - by rewrite H3, Hd.
Qed.

(** With a content digest the record is bound to it. *)
Lemma record_promotion_bound a d content r agent ok fs trace now st :
  ∃ q, (record_promotion a d content r agent ok fs trace now st).1 !! a = Some q ∧
    pass (role_slot r q) = ok ∧ (r ≠ Auditor → execution_trace_id (role_slot r q) = trace) ∧
    (∀ c, content = Some c → pr_content_digest q = Some c).
Proof.
  unfold record_promotion. fold (prior_record a d content st).
  generalize (match d with Some e => (prior_record a d content st){{ artifact_digest := Some e }}
              | None => prior_record a d content st end). intros p1.
  assert (∀ c, content = Some c → pr_content_digest
    (match content with Some c => rebind_content_digest c p1 | None => p1 end) = Some c) as Hb.
  { intros c ->. unfold rebind_content_digest. case_bool_decide; [done|]. destruct p1 as [? ? []]; done. }
  revert Hb. generalize (match content with Some c => rebind_content_digest c p1 | None => p1 end).
  intros p2 Hb. destruct (write_role_verdict_slots r agent ok fs now trace p2) as (H1 & _ & H3).
  eexists. split; [apply lookup_insert_eq|]. rewrite H1, H3. split_and!; [done|by destruct r|done].
Qed.

(** What other writes do to a verdict: they wipe it, or leave it and the binding. *)
Definition evolves (role : PromotionRole) (p q : PromotionRecord) : Prop :=
  pass (role_slot role q) = false ∨
  (role_slot role q = role_slot role p ∧
   (is_Some (pr_content_digest p) → pr_content_digest q = pr_content_digest p)).

#[export] Instance evolves_preorder role : PreOrder (evolves role).
Proof.
  split; [by right|]. intros p q r [H1|[S1 D1]] [H2|[S2 D2]]; [by left|left; by rewrite S2|by left|].
  right. split; [congruence|]. intros H. rewrite D2; [by apply D1|]. by rewrite D1.
Qed.

Lemma rebind_evolves role c p : evolves role p (rebind_content_digest c p).
Proof.
  unfold rebind_content_digest. case_bool_decide; [done|]. destruct p as [? ? dg], dg as [d|].
  - left. by destruct role.
  - right. split; [by destruct role|]. by intros [? [=]].
Qed.

Lemma record_promotion_evolves role a d content r agent ok fs trace now st p :
  r ≠ role → st !! a = Some p →
  ∃ q, (record_promotion a d content r agent ok fs trace now st).1 !! a = Some q ∧ evolves role p q.
Proof.
  intros Hr Hp. unfold record_promotion. rewrite Hp. cbn [default]. unfold id.
  eexists. split; [apply lookup_insert_eq|].
  transitivity (match d with Some e => p{{ artifact_digest := Some e }} | None => p end).
  { right. destruct (set_artifact_digest_slots d p) as [Hs Hd]. by rewrite Hs, Hd. }
  generalize (match d with Some e => p{{ artifact_digest := Some e }} | None => p end). intros p1.
  transitivity (match content with Some c => rebind_content_digest c p1 | None => p1 end).
  { destruct content; [apply rebind_evolves|done]. }
  match goal with |- evolves _ ?x _ => generalize x end. intros p2. right.
  destruct (write_role_verdict_slots r agent ok fs now trace p2) as (_ & H2 & H3).
  by rewrite H2, H3.
Qed.

Lemma record_promotion_other a x d content r agent ok fs trace now st :
  x ≠ a → (record_promotion x d content r agent ok fs trace now st).1 !! a = st !! a.
Proof. intros Hx. by apply lookup_insert_ne. Qed.

Lemma record_tool_evolves get role a x d r agent trace ok fs digests closure now st p :
  x ≠ a ∨ r ≠ role → st !! a = Some p →
  ∃ q, (promotion_record_tool get x d r agent trace ok fs digests closure now st).1 !! a = Some q ∧
       evolves role p q.
Proof.
  intros Hxr Hp. unfold promotion_record_tool. destruct (existsb _ fs); [by exists p|].
  destruct (derive_verdict get r trace ok fs) as [[b tr]|e]; [|by exists p].
  assert (∃ q, (record_promotion x d None r agent b fs tr now st).1 !! a = Some q ∧ evolves role p q) as (q & Hq & He).
  { destruct (decide (x = a)) as [->|Hx]; [|rewrite record_promotion_other by done; by exists p].
    apply record_promotion_evolves; [naive_solver|done]. }
  destruct (record_promotion x d None r agent b fs tr now st) as [st1 q1]. simpl in Hq.
  assert (∃ q', (match digests with
    | Some (code, contract, prose) => set_federation_digests x code contract prose st1
    | None => st1 end) !! a = Some q' ∧ evolves role p q') as (q' & Hq' & He').
  { destruct digests as [[[code contract] prose]|]; [|by exists q]. unfold set_federation_digests.
    destruct (st1 !! x) as [p1|] eqn:E1; [|by exists q].
    destruct (decide (x = a)) as [->|Hx]; [|rewrite lookup_insert_ne by done; by exists q].
    eexists. split; [apply lookup_insert_eq|]. rewrite Hq in E1. injection E1 as <-. rewrite He. right.
    split; [by destruct role|done]. }
  revert Hq'. generalize (match digests with Some (code, contract, prose) =>
    set_federation_digests x code contract prose st1 | None => st1 end). intros st2 Hq'.
  destruct (b && _); [|by exists q']. unfold set_blessed_packages.
  destruct (st2 !! x) as [p1|] eqn:E1; [|by exists q']. cbn [fst].
  destruct (decide (x = a)) as [->|Hx]; [|rewrite lookup_insert_ne by done; by exists q'].
  eexists. split; [apply lookup_insert_eq|]. rewrite Hq' in E1. injection E1 as <-. rewrite He'. right.
  split; [by destruct role|done].
Qed.

Lemma carry_evolves role a x r prior_id prov current strictness now st p :
  x ≠ a ∨ r ≠ role → st !! a = Some p →
  ∃ q, (carry_verdict x r prior_id prov current strictness now st).1 !! a = Some q ∧ evolves role p q.
Proof.
  intros Hxr Hp. unfold carry_verdict, record_carried_verdict.
  destruct (verify_carry_claim _ _ _ _); [|by exists p]. destruct (st !! prior_id) as [prior|]; [|by exists p].
  destruct (negb _); [by exists p|].
  match goal with |- context [record_promotion x ?d ?c r ?ag ?ok ?fs ?tr now st] =>
    assert (∃ q, (record_promotion x d c r ag ok fs tr now st).1 !! a = Some q ∧ evolves role p q) as (q & Hq & He);
      [|destruct (record_promotion x d c r ag ok fs tr now st) as [st1 q1]; simpl in Hq] end.
  { destruct (decide (x = a)) as [->|Hx]; [|rewrite record_promotion_other by done; by exists p].
    apply record_promotion_evolves; [naive_solver|done]. }
  destruct (st1 !! x) as [p1|] eqn:E1; [|by exists q]. simpl.
  destruct (decide (x = a)) as [->|Hx]; [|rewrite lookup_insert_ne by done; by exists q].
  eexists. split; [apply lookup_insert_eq|]. rewrite Hq in E1. injection E1 as <-. rewrite He. right.
  split; [by destruct role|done].
Qed.

Lemma writes_beside_evolves get role a st st' p :
  writes_beside get role a st st' → st !! a = Some p → ∃ q, st' !! a = Some q ∧ evolves role p q.
Proof.
  intros [x d r agent trace ok fs digests closure now Hx|x r prior_id prov current strictness now Hx|x content|x content] Hp.
  - by apply record_tool_evolves.
  - by apply carry_evolves.
  - unfold bind_content_digest_if_unset. destruct (st !! x) as [p1|] eqn:E1; [|by exists p].
    destruct (pr_content_digest p1) eqn:Ed; [by exists p|]. simpl.
    destruct (decide (x = a)) as [->|]; [|rewrite lookup_insert_ne by done; by exists p].
    eexists. split; [apply lookup_insert_eq|]. rewrite Hp in E1. injection E1 as <-. right.
    split; [by destruct role|]. rewrite Ed. by intros [? [=]].
  - unfold reconcile_content_digest_for_revision. destruct (st !! x) as [p1|] eqn:E1; [|by exists p].
    case_bool_decide; [by exists p|]. simpl.
    destruct (decide (x = a)) as [->|]; [|rewrite lookup_insert_ne by done; by exists p].
    eexists. split; [apply lookup_insert_eq|]. rewrite Hp in E1. injection E1 as <-. apply rebind_evolves.
Qed.

Lemma writes_beside_rtc get role a st st' p :
  rtc (writes_beside get role a) st st' → st !! a = Some p → ∃ q, st' !! a = Some q ∧ evolves role p q.
Proof.
  intros H. revert p. induction H as [st|st st1 st2 H1 _ IH]; intros p Hp; [by exists p|].
  destruct (writes_beside_evolves _ _ _ _ _ _ H1 Hp) as (p1 & Hp1 & E1).
  destruct (IH p1 Hp1) as (p2 & ? & E2). exists p2. split; [done|]. by rewrite E1.
Qed.

(** A carried verdict: passing, without a run, on a record bound like the prior
    one. *)
Lemma carry_verdict_here a role prior_id prov current strictness now st st' :
  carry_verdict a role prior_id prov current strictness now st = (st', Ok tt) →
  ∃ prior q, st !! prior_id = Some prior ∧ st' !! a = Some q ∧ pass (role_slot role q) = true ∧
    (role ≠ Auditor → execution_trace_id (role_slot role q) = None) ∧
    (is_Some (pr_content_digest prior) → pr_content_digest q = pr_content_digest prior).
Proof.
  unfold carry_verdict. destruct (verify_carry_claim role (st !! prior_id) current strictness) as [[]|] eqn:Ev;
    [|done].
  apply verify_carry_ok in Ev as (_ & _ & prior & _ & _ & Hp & [i Hi] & Hpass & _).
  rewrite Hp. intros [= <-]. exists prior.
  unfold record_carried_verdict. rewrite role_verdict, Hi. simpl negb. cbv iota.
  destruct (record_promotion_bound a (artifact_digest prior) (pr_content_digest prior) role
    (default (role_as_str role) (slot_id (role_slot role prior))) (pass (role_slot role prior))
    (findings (role_slot role prior)) None now st) as (q & Hq & Hs & Ht & Hd).
  rewrite Hi in Hq. revert Hq. destruct (record_promotion _ _ _ _ _ _ _ _ _ st) as [st1 q1].
  simpl fst. intros Hq. rewrite Hq. exists (attach_provenance role prov (fd_code current) (fd_contract current)
    (fd_prose current) q). simpl fst.
  assert (role_slot role (attach_provenance role prov (fd_code current) (fd_contract current)
    (fd_prose current) q) = role_slot role q) as Hsame by (by destruct role, q).
  rewrite Hsame, Hs. split_and!; [done|apply lookup_insert_eq|done|exact Ht|].
  intros [c Hc]. rewrite Hc. rewrite <-(Hd c Hc). by destruct q.
Qed.

Lemma carry_verdict_role a role prior_id prov current strictness now st st' :
  carry_verdict a role prior_id prov current strictness now st = (st', Ok tt) →
  role ∈ [UnitTestRunner; Auditor; SealedEvaluator].
Proof.
  unfold carry_verdict. destruct (verify_carry_claim role (st !! prior_id) current strictness) as [[]|] eqn:Ev;
    [|done]. by apply verify_carry_ok in Ev as (_ & ? & _).
Qed.

(** C7: A carried verdict lets nothing through, whatever is written to the registry
    next to it - verdicts recorded or carried for other roles and artifacts,
    bindings, reconciliations - until its role speaks again on the artifact.  A
    carried verdict of a role that runs code names no run, so as long as it stands
    the gate refuses every revision in every mode; it stands until a rebinding
    wipes the record, and then counts for nothing.  A verdict carried from a record
    that was bound to a content lets no other content through: this covers the
    auditor too, but not an auditor's verdict carried from a record that was never
    bound, which can pass the audit-only gate. *)
Theorem carried_verdict_never_promotes get a role prior_id prov current strictness now st st1 st2 :
  carry_verdict a role prior_id prov current strictness now st = (st1, Ok tt) →
  rtc (writes_beside get role a) st1 st2 →
  ∀ c mode db,
    role ≠ Auditor ∨
      (∃ p d, st !! prior_id = Some p ∧ pr_content_digest p = Some d ∧ d ≠ rev_content_digest (call_rev c)) →
    (∃ code, (enforce_promotion_gate get c a mode st2 db).2.2 = Some code) ∨
    (role ≠ Auditor ∧ ∃ q, st2 !! a = Some q ∧ pass (role_slot role q) = false).
Proof.
  intros Hc Hlater c mode db Hwhy.
  destruct (carry_verdict_here _ _ _ _ _ _ _ _ _ Hc) as (prior & q & Hp & Hq & Hpass & Htrace & Hdig).
  destruct (writes_beside_rtc _ _ _ _ _ _ Hlater Hq) as (q2 & Hq2 & Hev).
  pose proof (proj1 (enforce_gate_ok get c a mode st2 db)) as Hg.
  destruct ((enforce_promotion_gate get c a mode st2 db).2.2) as [code|]; [left; by exists code|].
  destruct (Hg eq_refl) as (q' & Hq' & [Hdigest _ Haudit _ _ _ Hruns]).
  rewrite Hq2 in Hq'. injection Hq' as <-. destruct Hev as [Hwiped|[Hs2 Hd2]].
  { right. split; [|by exists q2]. intros ->. simpl in Hwiped. congruence. }
  exfalso. destruct Hwhy as [Hr|(p & d & Hp' & Hd & Hne)].
  - specialize (Htrace Hr). rewrite <-Hs2 in Hpass, Htrace.
    apply carry_verdict_role in Hc. destruct (Hruns role) as (tid & t & Ht & _); [set_solver|done|congruence].
  - rewrite Hp in Hp'. injection Hp' as ->. rewrite Hd in Hdig.
    rewrite Hd2, Hdig in Hdigest by (by rewrite ?Hdig; eexists). naive_solver.
Qed.

(** *** A concrete registry *)

Definition demo_trace (tid : string) : option ExecutionTraceRecord :=
  if (tid =? "t1")%string then Some {| trace_id := "t1"; exit_code := Some 0%Z; success := 1%Z |} else None.

Definition demo_digests : FederationDigests :=
  {| fd_code := Some "code"; fd_contract := Some "contract"; fd_prose := Some "prose" |}.

Definition demo_record (role : PromotionRole) (agent : string) (trace : option string) (ok : option bool)
    (st : Registry) : Registry :=
  (promotion_record_tool demo_trace "art_1" None role agent trace ok []
     (Some (Some "code", Some "contract", Some "prose")) [] "now" st).1.

Definition demo_provenance : RoleCarryProvenance :=
  {| prior_artifact_ref := "ar.1"; prior_artifact_id := "art_1"; original_agent_id := "tester";
     verified_at := "now"; prior_code_digest := Some "code"; prior_contract_digest := Some "contract";
     justification := None; strictness_used := Some "conservative" |}.

Definition demo_call : PromoteCall :=
  {| call_rev := {| revision_id := "rev_sha256:aa"; rev_agent_id := "coder"; base_revision_id := None;
       rev_artifact_id := Some "art_2"; rev_content_digest := "sha256:aa"; runtime_lock_hash := "";
       manifest_hash := ""; rev_created_at := 1; rev_created_by_type := "autonoetic_agent";
       rev_created_by_id := "builder"; requested_by_type := None; requested_by_id := None;
       source_kind := "artifact"; source_ref := None; rev_origin_node_id := "gateway";
       trust_domain := "local"; rev_status := Candidate; metadata_json := JNull; rev_short_id := "";
       detected_network_hosts := None; signature := None; signer_id := None |};
     call_agent_id := "coder"; call_session := None; call_workflow := None;
     call_cfg := {| governor_enabled := true; velocity_window_hours := 24; max_promotions_per_window := 2;
       flapping_lookback := 5; eval_regression_streak := 3; eval_regression_lookback := 10;
       max_promotion_attempts_per_revision := 3 |};
     call_now := 100 |}.

Lemma carried_verdict_never_promotes_witness :
  let st := demo_record UnitTestRunner "tester" (Some "t1") None ∅ in
  ∃ st1, carry_verdict "art_2" UnitTestRunner "art_1" demo_provenance demo_digests CarryConservative "now" st
         = (st1, Ok tt) ∧
    ∃ code, (enforce_promotion_gate demo_trace demo_call "art_2" AuditOnly
      (promotion_record_tool demo_trace "art_2" None Auditor "judge" None (Some true) [] None [] "now" st1).1
      empty_db).2.2 = Some code.
Proof.
  intros st.
  destruct (carry_verdict "art_2" UnitTestRunner "art_1" demo_provenance demo_digests CarryConservative "now" st)
    as [st1 r] eqn:E.
  assert (r = Ok tt) as -> by (vm_compute in E; by injection E as _ <-).
  exists st1. split; [done|].
  assert (Auditor ≠ UnitTestRunner ∧ UnitTestRunner ≠ Auditor) as [Hau Hua] by done.
  destruct (carried_verdict_never_promotes demo_trace "art_2" UnitTestRunner "art_1" demo_provenance demo_digests
    CarryConservative "now" st st1
    (promotion_record_tool demo_trace "art_2" None Auditor "judge" None (Some true) [] None [] "now" st1).1
    E (rtc_once _ _ (wb_record _ _ _ _ _ _ _ _ _ _ _ _ _ _ (or_intror Hau))) demo_call AuditOnly empty_db
    (or_introl Hua)) as [H|(_ & q & Hq & Hp)]; [exact H|].
  exfalso. vm_compute in E. injection E as <-. vm_compute in Hq. injection Hq as <-. discriminate Hp.
Defined.

(** The case left out: an auditor's verdict carried from a record without a binding
    is enough for the audit-only gate. *)
Example unbound_auditor_carry_passes :
  let st := demo_record Auditor "judge" None (Some true) ∅ in
  let '(st1, r) := carry_verdict "art_2" Auditor "art_1" demo_provenance demo_digests CarryConservative "now" st in
  r = Ok tt ∧ (enforce_promotion_gate demo_trace demo_call "art_2" AuditOnly st1 empty_db).2.2 = None.
Proof. vm_compute. split; reflexivity. Qed.

(** ** One agent on both sides *)

(** A call without findings, digests or dependencies records just the verdict. *)
Lemma tool_records get a d r agent trace ok now st b tr :
  derive_verdict get r trace ok [] = Ok (b, tr) →
  ∃ q, (promotion_record_tool get a d r agent trace ok [] None [] now st).1 !! a = Some q ∧
    slot_id (role_slot r q) = Some agent ∧ pass (role_slot r q) = b ∧ findings (role_slot r q) = [] ∧
    (r ≠ Auditor → execution_trace_id (role_slot r q) = tr) ∧
    (∀ r', r' ≠ r → role_slot r' q = role_slot r' (prior_record a d None st)) ∧
    pr_content_digest q = pr_content_digest (prior_record a d None st).
Proof.
  intros H. destruct (record_promotion_here a d r agent b [] tr now st) as (q & Hq & Hs & Hr & Hd).
  exists q. unfold promotion_record_tool. simpl existsb. rewrite H.
  destruct (record_promotion _ _ _ _ _ _ _ _ _ st) as [st1 q1]. rewrite andb_false_r, Hs.
  split_and!; [done..|by destruct r|done|done].
Qed.

(** C8: The identity check of the full gate compares the auditor with the first
    evaluator's name on the record, passing or not.  Once some other agent has
    recorded a failed evaluation, one agent can record both the passing sealed
    evaluation - from any successful run - and the passing audit, and the
    revision goes through. *)
Theorem one_agent_passes_the_full_gate get a st db c x y tid failed t d1 d2 d3 now1 now2 now3 :
  get failed = Some t → trace_indicates_pass t = false → trim failed = failed → failed ≠ "" →
  run_backed get {| slot_id := None; pass := true; findings := []; timestamp := None;
                    execution_trace_id := Some tid |} → trim tid = tid →
  st !! a = None → x ≠ y → has_unresolved_dependencies (call_rev c) = false →
  let st := (promotion_record_tool get a d1 Evaluator x (Some failed) None [] None [] now1 st).1 in
  let st := (promotion_record_tool get a d2 SealedEvaluator y (Some tid) None [] None [] now2 st).1 in
  let st := (promotion_record_tool get a d3 Auditor y None (Some true) [] None [] now3 st).1 in
  (enforce_promotion_gate get c a FullMode st db).2.2 = None.
Proof.
  intros Hf Ht Htrim Hne (tid' & t' & Htid & Htne & Hget & Hok) Htt Ha Hxy Hdep st1 st2 st3.
  simpl in Htid. injection Htid as <-.
  destruct (tool_records get a d1 Evaluator x (Some failed) None now1 st false (Some failed))
    as (q1 & Hq1 & I1 & P1 & _ & _ & S1 & D1).
  { unfold derive_verdict. simpl. rewrite Htrim. destruct failed; [done|]. by rewrite Hf, Ht. }
  fold st1 in Hq1. unfold prior_record in S1, D1. rewrite Ha in S1, D1.
  destruct (tool_records get a d2 SealedEvaluator y (Some tid) None now2 st1 true (Some tid))
    as (q2 & Hq2 & _ & P2 & _ & T2 & S2 & D2).
  { unfold derive_verdict. simpl. rewrite Htt. destruct tid; [done|]. rewrite Hget.
    by rewrite (proj2 (trace_indicates_pass_spec t') Hok). }
  fold st2 in Hq2. unfold prior_record in S2, D2. rewrite Hq1 in S2, D2.
  destruct (tool_records get a d3 Auditor y None (Some true) now3 st2 true None)
    as (q3 & Hq3 & I3 & P3 & F3 & _ & S3 & D3); [done|].
  fold st3 in Hq3. unfold prior_record in S3, D3. rewrite Hq2 in S3, D3. simpl in S2, S3, D2, D3.
  apply enforce_gate_ok. exists q3. split; [done|].
  pose proof (S3 Evaluator) as E3. pose proof (S2 Evaluator) as E2. pose proof (S3 SealedEvaluator) as L3.
  pose proof (S3 UnitTestRunner) as U3. pose proof (S2 UnitTestRunner) as U2.
  pose proof (S1 UnitTestRunner) as U1. simpl in E3, E2, L3, U3, U2, U1.
  rewrite E2 in E3 by done. rewrite U2, U1 in U3 by done. specialize (E3 ltac:(done)).
  specialize (L3 ltac:(done)). specialize (U3 ltac:(done)).
  split.
  - left. by rewrite D3, D2, D1.
  - exists y. split; [done|]. split.
    + exists SealedEvaluator. split; [set_solver|]. simpl. by rewrite L3.
    + exists x. split; [|done]. unfold evaluator_identity. simpl in I1. by rewrite E3, I1.
  - done.
  - simpl in F3. rewrite F3. set_solver.
  - rewrite U3. by intros [? ?].
  - done.
  - intros r Hr. repeat (apply elem_of_cons in Hr as [->|Hr]); [..|by apply not_elem_of_nil in Hr]; simpl.
    + rewrite E3. simpl in P1. congruence.
    + by rewrite U3.
    + intros _. rewrite L3. exists tid, t'. split_and!; [by apply T2|done..|apply Hok|apply Hok].
Qed.

Lemma one_agent_passes_the_full_gate_witness :
  let get := λ tid : string, if (tid =? "t0")%string
    then Some {| trace_id := "t0"; exit_code := Some 1%Z; success := 0%Z |} else demo_trace tid in
  let record a r agent trace ok st := (promotion_record_tool get a None r agent trace ok [] None [] "now" st).1 in
  (enforce_promotion_gate get demo_call "art_2" FullMode
    (record "art_2" Auditor "judge" None (Some true)
      (record "art_2" SealedEvaluator "judge" (Some "t1") None
        (record "art_2" Evaluator "tester" (Some "t0") None ∅))) empty_db).2.2 = None.
Proof.
  intros get record.
  apply (one_agent_passes_the_full_gate get "art_2" ∅ empty_db demo_call "tester" "judge" "t1" "t0"
    {| trace_id := "t0"; exit_code := Some 1%Z; success := 0%Z |}); try done.
  exists "t1", {| trace_id := "t1"; exit_code := Some 0%Z; success := 1%Z |}. by split_and!.
Defined.

(** ** Two writers of the registry file *)

Lemma record_step i a r x ok fs t n w st :
  stores w !! i = Some st →
  let st' := (record_promotion a None None r x ok fs t n st).1 in
  promotion_step w (RecordVerdict i a r x ok fs t n) = {| file := st'; stores := <[i := st']> (stores w) |}.
Proof. intros H. simpl. by rewrite H. Qed.

(** Two tools that open the registry before either has written it lose the
    first verdict: the file the second one leaves is as if the first had never
    run, so a jury that reports in parallel can end up with a record that misses a
    member.  One after the other, both verdicts are on the record. *)
Theorem concurrent_verdict_is_lost w a r1 x1 ok1 fs1 t1 n1 r2 x2 ok2 fs2 t2 n2 :
  let v1 i := RecordVerdict i a r1 x1 ok1 fs1 t1 n1 in
  let v2 i := RecordVerdict i a r2 x2 ok2 fs2 t2 n2 in
  file (run_promotion w [OpenStore 1; OpenStore 2; v1 1; v2 2])
  = file (run_promotion w [OpenStore 2; v2 2]) ∧
  (r1 ≠ r2 → ∃ q, file (run_promotion w [OpenStore 1; v1 1; OpenStore 2; v2 2]) !! a = Some q ∧
    slot_id (role_slot r1 q) = Some x1 ∧ pass (role_slot r1 q) = ok1 ∧
    slot_id (role_slot r2 q) = Some x2 ∧ pass (role_slot r2 q) = ok2).
Proof.
  intros v1 v2. destruct w as [f s]. unfold run_promotion, v1, v2. cbn [fold_left].
  set (st1 := (record_promotion a None None r1 x1 ok1 fs1 t1 n1 f).1).
  split.
  - rewrite (record_step 1 _ _ _ _ _ _ _ _ f)
      by (change (<[2:=f]> (<[1:=f]> s) !! 1 = Some f); by rewrite lookup_insert_ne, lookup_insert_eq by done).
    rewrite (record_step 2 _ _ _ _ _ _ _ _ f)
      by (change (<[1:=st1]> (<[2:=f]> (<[1:=f]> s)) !! 2 = Some f);
          by rewrite lookup_insert_ne, lookup_insert_eq by done).
    by rewrite (record_step 2 _ _ _ _ _ _ _ _ f) by apply lookup_insert_eq.
  - intros Hr. rewrite (record_step 1 _ _ _ _ _ _ _ _ f) by apply lookup_insert_eq. fold st1.
    rewrite (record_step 2 _ _ _ _ _ _ _ _ st1) by apply lookup_insert_eq.
    destruct (record_promotion_here a None r1 x1 ok1 fs1 t1 n1 f) as (q1 & Hq1 & S1 & _ & _).
    fold st1 in Hq1.
    destruct (record_promotion_here a None r2 x2 ok2 fs2 t2 n2 st1) as (q2 & Hq2 & S2 & K2 & _).
    exists q2. unfold prior_record in K2. rewrite Hq1 in K2. simpl in K2.
    rewrite (K2 r1 Hr), S1, S2. by split_and!.
Qed.
