(* ===== verification/GovernorSpec.v ===== *)
(** * The governor and its ledger

    Contracts of the governor's bookkeeping: how many rejections the ledger
    counts, that it blocks no promotion, and when the slot the velocity check
    promises is free. *)

From Stdlib Require Import Ascii String Lia.
From stdpp Require Import prelude gmap strings list sorting.
From coqutil Require Import Datatypes.RecordSetters.
From S2P Require Import Prelude RustStr Json Promotion AgentRevision AgentRegistry PromotionGate.
From S2P Require Import RegistrySpec PromotionHistory PromotionSpec.
Import DoubleBraceUpdate.

Open Scope string_scope.
Open Scope list_scope.

(** ** The ledger of attempts *)

(** The writes of the ledger one promotion can make: rejections under one cap and
    rows with another outcome. *)
Definition ledger_op (cap : nat) (op : RegistryOp) : Prop :=
  match op with
  | OpRejected _ _ _ _ _ _ _ k => k = cap
  | OpAttempt a => outcome a ≠ "rejected"
  | _ => True
  end.

Lemma count_rejections_snoc db alias digest a :
  count_promotion_attempt_rejections (record_promotion_attempt a db) alias digest
  = (count_promotion_attempt_rejections db alias digest + Nat.b2n (is_rejection alias digest a))%nat.
Proof.
  unfold count_promotion_attempt_rejections, record_promotion_attempt.
  change (promotion_attempts (db{{ promotion_attempts := promotion_attempts db ++ [a] }}))
    with (promotion_attempts db ++ [a]).
  rewrite List.filter_app, length_app. simpl. by destruct (is_rejection alias digest a).
Qed.

Lemma filter_filter_length {A} (f g : A → bool) l :
  (length (List.filter f (List.filter g l)) ≤ length (List.filter f l))%nat.
Proof. induction l as [|x l IH]; simpl; [done|]. destruct (g x), (f x) eqn:E; simpl; rewrite ?E; simpl; lia. Qed.


Lemma registry_step_attempts now db op :
  match op with
  | OpAttempt _ | OpRejected _ _ _ _ _ _ _ _ | OpResetAttempts _ _ => True
  | _ => promotion_attempts (registry_step now db op) = promotion_attempts db
  end.
Proof.
  destruct op; try done; try by apply alias_op_frame.
  - simpl. unfold create_revision, reuse_revision, insert_agent_revision_transactional, get_agent_revision.
    repeat (case_match; simplify_eq/=); done.
  - simpl. unfold resolve_and_pin_session_with_revision. by repeat case_match.
  - simpl. by apply import_frame.
  - simpl. by apply reclaim_rest.
Qed.

(** One more rejection: counted below the cap, answered with the count at it. *)
Lemma record_rejected_cases al rid d g e s w cap now db :
  (0 < cap)%nat →
  (count_promotion_attempt_rejections db al d < cap ∧
   ∃ a, record_rejected_promotion_attempt al rid d g e s w cap now db = (record_promotion_attempt a db, None) ∧
        ∀ al' d', is_rejection al' d' a = (al =? al')%string && (d =? d')%string)%nat ∨
  (cap ≤ count_promotion_attempt_rejections db al d ∧
   record_rejected_promotion_attempt al rid d g e s w cap now db
   = (db, Some (count_promotion_attempt_rejections db al d)))%nat.
Proof.
  intros Hcap. unfold record_rejected_promotion_attempt. destruct (Nat.eqb_spec cap 0); [lia|]. simpl.
  destruct (Nat.leb_spec cap (count_promotion_attempt_rejections db al d)); [by right|]. left.
  split; [lia|]. eexists. split; [done|]. intros al' d'. unfold is_rejection. simpl. by rewrite andb_true_r.
Qed.

(** The ledger never holds more rejections of a revision's content than the
    cap: over any run of the registry from an empty store the count stays at or
    under it, each rejection below it adds one, and at the cap a rejection writes
    nothing and answers the count. *)
Theorem rejections_are_capped ops cap al rid d g e s w now :
  (0 < cap)%nat → Forall (λ op, ledger_op cap op.2) ops →
  let db := run_registry empty_db ops in
  let count db := count_promotion_attempt_rejections db al d in
  let '(db', r) := record_rejected_promotion_attempt al rid d g e s w cap now db in
  (count db ≤ cap ∧ count db' ≤ cap ∧
   count db' = Nat.min cap (S (count db)) ∧
   (r = None ↔ count db < cap) ∧ (count db = cap → db' = db ∧ r = Some cap))%nat.
Proof.
  intros Hcap Hops db count.
  assert (count db ≤ cap)%nat as Hle.
  { assert (∀ db, (count db ≤ cap)%nat → (count (run_registry db ops) ≤ cap)%nat) as H;
      [|apply H; unfold count, count_promotion_attempt_rejections; simpl; lia].
    clear db. induction Hops as [|[t op] ops Hop _ IH]; intros db Hdb; [done|].
    change (count (run_registry (registry_step t db op) ops) ≤ cap)%nat. apply IH. clear IH.
    pose proof (registry_step_attempts t db op) as Hs. unfold count in *.
    destruct op; try (by unfold count_promotion_attempt_rejections in *; rewrite Hs);
      unfold registry_step, ledger_op in *; cbn [snd] in Hop.
    - rewrite count_rejections_snoc. assert (is_rejection al d a = false) as ->; [|simpl; lia].
      unfold is_rejection. apply andb_false_iff. right. by apply String.eqb_neq.
    - subst cap0. destruct (record_rejected_cases alias rid0 digest gate error session wf cap t db Hcap)
        as [(Hlt & a & -> & Ha)|[_ ->]]; [|done].
      cbn [fst]. rewrite count_rejections_snoc, Ha. destruct (String.eqb_spec alias al) as [->|]; simpl; [|lia].
      destruct (String.eqb_spec digest d) as [->|]; simpl; lia.
    - pose proof (filter_filter_length (is_rejection al d) (λ a, negb (is_rejection alias digest a))
        (promotion_attempts db)) as Hf.
      transitivity (count_promotion_attempt_rejections db al d); [exact Hf|done]. }
  destruct (record_rejected_cases al rid d g e s w cap now db Hcap) as [(Hlt & a & -> & Ha)|[Hge ->]].
  - unfold count in *. rewrite count_rejections_snoc, Ha, !String.eqb_refl. simpl.
    split_and!; [lia..|by split|lia].
  - fold (count db) in *. assert (count db = cap) as -> by lia. split_and!; try lia; [split; [done|lia]|done].
Qed.

Lemma rejections_are_capped_witness :
  let op t := (t, OpRejected "coder" "r" "d" None None None None 2) in
  let db := run_registry empty_db [op 1%Z; op 2%Z; op 3%Z] in
  count_promotion_attempt_rejections db "coder" "d" = 2%nat ∧
  (record_rejected_promotion_attempt "coder" "r" "d" None None None None 2 4 db).2 = Some 2%nat.
Proof.
  intros op db.
  pose proof (rejections_are_capped [op 1%Z; op 2%Z; op 3%Z] 2 "coder" "r" "d" None None None None 4
    ltac:(lia) ltac:(repeat constructor)) as H. cbv zeta in H. fold db in H.
  assert (count_promotion_attempt_rejections db "coder" "d" = 2%nat) as Hc by (vm_compute; reflexivity).
  destruct (record_rejected_promotion_attempt "coder" "r" "d" None None None None 2 4 db) as [db' r].
  split; [exact Hc|]. exact (proj2 (proj2 (proj2 (proj2 (proj2 H))) Hc)).
Defined.

Lemma atomic_promote_result a rid pid bt bi reason eval pre now db :
  (atomic_promote a rid pid bt bi reason eval pre now db).2 =
  match revisions db !! rid with
  | None => Err (RevisionNotFound rid)
  | Some rev =>
      if negb (rev_agent_id rev =? a)%string then Err (RevisionOfOther rid (rev_agent_id rev))
      else if bool_decide (rev_status rev = Archived) then Err (BadStatus (rev_status rev))
      else if existsb (λ p, (promotion_id p =? pid)%string) (promotion_history db) then Err UniqueViolation
      else Ok (current_revision db a)
  end.
Proof.
  unfold atomic_promote. destruct (revisions db !! rid) as [r|]; [|done].
  destruct (negb _); [done|]. destruct (bool_decide _); [done|].
  unfold insert_promotion_record. rewrite move_history. cbn [history_row promotion_id].
  by destruct (existsb _ _).
Qed.

Lemma refuse_not_none c gate code db : (refuse c gate code db).2 ≠ None.
Proof. by destruct (refuse_some c gate code db) as [e ->]. Qed.

(** The ledger of attempts blocks no promotion: with any other ledger the
    review, the jury, the protected agents, the governor and the transaction
    answer the same to a revision they let through.  A revision over the cap is
    told [promotion_attempts_exhausted] instead of the gate's own code, each time
    it is refused, and nothing is written. *)
Theorem attempts_block_no_promotion get c caps direct approved protected force freason pid bi reason eval pre st db l :
  let db' := db{{ promotion_attempts := l }} in
  ((review_gate get c caps direct st db').2.2 = None ↔ (review_gate get c caps direct st db).2.2 = None) ∧
  ((jury_gate c approved st db').2 = None ↔ (jury_gate c approved st db).2 = None) ∧
  ((protected_gate c protected eval db').2 = None ↔ (protected_gate c protected eval db).2 = None) ∧
  ((governor_gate c force freason st db').2 = None ↔ (governor_gate c force freason st db).2 = None) ∧
  (commit_promotion c pid bi reason eval pre db').2 = (commit_promotion c pid bi reason eval pre db).2 ∧
  (∀ gate code, is_Some (check_attempt_exhaustion (call_cfg c) db (call_agent_id c)
       (rev_content_digest (call_rev c))) →
     refuse c gate code db = (db, Some "promotion_attempts_exhausted")).
Proof.
  intros db'. split_and!.
  - unfold review_gate. destruct (select_review _ _ _); [|done..].
    pose proof (enforce_gate_ok get c artifact_id mode st db) as H.
    pose proof (enforce_gate_ok get c artifact_id mode st db') as H'.
    destruct (enforce_promotion_gate get c artifact_id mode st db) as [s1 [d1 r1]].
    destruct (enforce_promotion_gate get c artifact_id mode st db') as [s2 [d2 r2]].
    simpl in *. rewrite !fmap_None. by rewrite H, H'.
  - unfold jury_gate. repeat case_match; try done; by split; intros ?%refuse_not_none.
  - unfold protected_gate. repeat case_match; try done; by split; intros ?%refuse_not_none.
  - unfold governor_gate. destruct force; [by repeat case_match|].
    assert (run_governor_checks (call_cfg c) db' st (call_agent_id c) (revision_id (call_rev c)) (call_now c)
      = run_governor_checks (call_cfg c) db st (call_agent_id c) (revision_id (call_rev c)) (call_now c)) as ->
      by (unfold db'; by destruct db).
    case_match; [|done]. by split; intros ?%refuse_not_none.
  - unfold commit_promotion.
    assert ((atomic_promote (call_agent_id c) (revision_id (call_rev c)) pid "agent" bi reason eval pre (call_now c) db').2
      = (atomic_promote (call_agent_id c) (revision_id (call_rev c)) pid "agent" bi reason eval pre (call_now c) db).2)
      as H by (rewrite !atomic_promote_result; unfold db'; by destruct db).
    revert H. destruct (atomic_promote _ _ _ _ _ _ _ _ _ db') as [? [?|?]], (atomic_promote _ _ _ _ _ _ _ _ _ db) as [? [?|?]];
      simpl; by intros [= <-].
  - intros gate code [x Hx]. unfold check_attempt_exhaustion in Hx.
    destruct (Nat.eqb_spec (max_promotion_attempts_per_revision (call_cfg c)) 0); [done|]. simpl in Hx.
    case_match eqn:Hlt; [done|]. apply Nat.ltb_ge in Hlt.
    unfold refuse, record_attempt, record_rejected_attempt. simpl.
    destruct (record_rejected_cases (call_agent_id c) (revision_id (call_rev c)) (rev_content_digest (call_rev c))
      (Some gate) (Some code) (call_session c) (call_workflow c) (max_promotion_attempts_per_revision (call_cfg c))
      (call_now c) db) as [[? _]|[_ ->]]; [lia..|done].
Qed.

(** ** The next slot *)

Lemma newest_first_le x y : cmp_le newest_promotion_first x y ↔ (ph_created_at y ≤ ph_created_at x)%Z.
Proof. unfold cmp_le, newest_promotion_first. rewrite Z.compare_ngt_iff. lia. Qed.

#[export] Instance newest_promotion_total : TotalCmp newest_promotion_first.
Proof.
  split; unfold newest_promotion_first, cmp_le.
  - intros x y H%Z.compare_gt_iff. rewrite Z.compare_ngt_iff. lia.
  - intros x y z. rewrite !Z.compare_ngt_iff. lia.
Qed.

#[export] Instance Z_compare_total : TotalCmp Z.compare.
Proof.
  split; unfold cmp_le.
  - intros x y H%Z.compare_gt_iff. rewrite Z.compare_ngt_iff. lia.
  - intros x y z. rewrite !Z.compare_ngt_iff. lia.
Qed.

Definition promoted_since (start : Instant) (p : PromotionHistoryRow) : bool :=
  is_promote p && bool_decide (start ≤ ph_created_at p)%Z.

Lemma filter_perm_length {A} (f : A → bool) l l' :
  l ≡ₚ l' → length (List.filter f l) = length (List.filter f l').
Proof.
  induction 1 as [|x l l' _ IH|x y l|l l1 l2 _ IH1 _ IH2]; simpl; try done; [|by destruct (f x), (f y)|congruence].
  destruct (f x); simpl; by rewrite IH.
Qed.

Lemma filter_some_length {A} (f : A → bool) l x :
  x ∈ l → f x = false → (length (List.filter f l) < length l)%nat.
Proof.
  intros Hx Hf. induction Hx as [x l|x y l _ IH]; simpl.
  - rewrite Hf. pose proof (List.filter_length_le f l). lia.
  - specialize (IH Hf). destruct (f y); simpl; lia.
Qed.

Lemma count_since_history db a start :
  count_promotions_since db a start
  = length (List.filter (promoted_since start) (list_promotion_history db a)).
Proof.
  unfold count_promotions_since, list_promotion_history.
  rewrite (filter_perm_length (promoted_since start) _ _ (sort_by_perm newest_promotion_first _)).
  induction (promotion_history db) as [|p h IH]; simpl; [done|].
  unfold promoted_since in *. destruct (ph_agent_id p =? a)%string; simpl; [|done].
  unfold is_promote at 1. destruct (bool_decide (kind p = Promote)); simpl; [|done].
  destruct (bool_decide _); simpl; by rewrite IH.
Qed.

Section Slot.
Context (L : list PromotionHistoryRow).
Context (sorted : StronglySorted (cmp_le newest_promotion_first) L).

(** As many recent promotions as rows: the newest rows are all recent. *)
Lemma newest_in_window m start :
  (m ≤ length (List.filter (promoted_since start) L))%nat →
  (m ≤ length L)%nat ∧ ∀ p, p ∈ take m L → (start ≤ ph_created_at p)%Z.
Proof.
  revert m. induction sorted as [|p l Hs IH Hf]; intros m; simpl.
  { intros ?. assert (m = 0%nat) as -> by lia. split; [done|]. intros p. by rewrite take_nil, elem_of_nil. }
  destruct m as [|m]; [split; [lia|]; intros q; by rewrite elem_of_nil|].
  rewrite Forall_forall in Hf. intros Hm.
  assert (start ≤ ph_created_at p)%Z as Hp.
  { destruct (promoted_since start p) eqn:E.
    - unfold promoted_since in E. apply andb_true_iff in E as [_ E]. by apply bool_decide_eq_true in E.
    - destruct (List.filter (promoted_since start) l) as [|q r] eqn:Eq; simpl in Hm; [lia|].
      assert (q ∈ List.filter (promoted_since start) l) as Hq by (rewrite Eq; left).
      apply list_elem_of_In, List.filter_In in Hq as [Hq%list_elem_of_In Hqs].
      apply Hf in Hq. rewrite newest_first_le in Hq. unfold promoted_since in Hqs.
      apply andb_true_iff in Hqs as [_ Hqs%bool_decide_eq_true]. lia. }
  destruct (IH Hs m) as [Hl Ht]; [revert Hm; destruct (promoted_since start p); simpl; lia|].
  split; [lia|]. intros q [->|Hq]%elem_of_cons; [done|by apply Ht].
Qed.

(** Past the oldest of the newest rows there are fewer. *)
Lemma fewer_after m start p :
  p ∈ take m L → (ph_created_at p < start)%Z → (∀ q, q ∈ take m L → (ph_created_at p ≤ ph_created_at q)%Z) →
  (length (List.filter (promoted_since start) L) < m)%nat.
Proof.
  intros Hp Hlt Hmin. rewrite <-(take_drop m L), List.filter_app, length_app.
  assert (List.filter (promoted_since start) (drop m L) = []) as ->.
  { apply filter_none. intros q Hq. unfold promoted_since. apply andb_false_iff. right.
    apply bool_decide_eq_false. pose proof sorted as Hs. rewrite <-(take_drop m L) in Hs.
    assert (cmp_le newest_promotion_first p q) as H by (by eapply StronglySorted_app_1_elem_of).
    rewrite newest_first_le in H. lia. }
  pose proof (filter_some_length (promoted_since start) (take m L) p Hp) as H. rewrite length_take in H.
  simpl. rewrite Nat.add_0_r. eapply Nat.lt_le_trans; [apply H|lia].
  unfold promoted_since. apply andb_false_iff. right. apply bool_decide_eq_false. lia.
Qed.
End Slot.

(** ** The promised slot *)

Lemma head_sort_min (l : list Z) :
  l ≠ [] → ∃ t, head (sort_by Z.compare l) = Some t ∧ t ∈ l ∧ ∀ u, u ∈ l → (t ≤ u)%Z.
Proof.
  intros Hl. pose proof (sort_by_perm Z.compare l) as Hp.
  pose proof (sort_by_strongly_sorted Z.compare l) as Hs.
  destruct (sort_by Z.compare l) as [|t r]; [by apply Permutation_nil_l in Hp|].
  exists t. split; [done|]. apply StronglySorted_inv in Hs as [_ Hs]. rewrite Forall_forall in Hs.
  split; [rewrite <-Hp; left|]. intros u. rewrite <-Hp. intros [->|Hu]%elem_of_cons; [done|].
  by apply Hs, Z.compare_ngt_iff, Z.nlt_ge in Hu.
Qed.

(** The slot the velocity check promises is exact.  When the cap of the window
    is reached it names no time just when one of the agent's last rows is a
    rollback; otherwise the time it names is the last instant at which the check
    still refuses - any later one passes, as long as nothing else is promoted. *)
Theorem next_slot_exact cfg db a now n next :
  check_velocity cfg db a now = Some (VelocityExceeded n next) →
  let rows := take (max_promotions_per_window cfg) (list_promotion_history db a) in
  (next = None ↔ ∃ p, p ∈ rows ∧ kind p = Rollback) ∧
  (∀ t, next = Some t → (now ≤ t)%Z ∧ check_velocity cfg db a t ≠ None ∧
     ∀ t', (t < t')%Z → check_velocity cfg db a t' = None).
Proof.
  unfold check_velocity. rewrite count_since_history.
  destruct (Nat.eqb_spec (max_promotions_per_window cfg) 0) as [|Hm]; [done|].
  destruct (Nat.eqb_spec (velocity_window_hours cfg) 0) as [|Hw]; [done|]. simpl orb. cbv iota.
  destruct (Nat.ltb_spec (length (List.filter (promoted_since (now - window_of cfg)) (list_promotion_history db a)))
    (max_promotions_per_window cfg)) as [|Hlt]; [done|]. intros [= _ <-].
  set (m := max_promotions_per_window cfg) in *. set (L := list_promotion_history db a) in *.
  set (rows := take m L).
  assert (StronglySorted (cmp_le newest_promotion_first) L) as HS by (apply sort_by_strongly_sorted; apply _).
  destruct (newest_in_window L HS m _ Hlt) as [Hlen Hwin]. fold rows in Hwin.
  assert (∀ s, (length (List.filter (promoted_since s) L) <? m)%nat = true ↔
    (length (List.filter (promoted_since s) L) < m)%nat) as Hltb by (intros; apply Nat.ltb_lt).
  assert ((∃ p, p ∈ rows ∧ kind p = Rollback) ∨ (∀ p, p ∈ rows → is_promote p = true)) as [Hr|Hall].
  { destruct (existsb (λ p, negb (is_promote p)) rows) eqn:E.
    - left. apply existsb_true in E as (p & Hp & E). exists p. split; [done|].
      unfold is_promote in E. by destruct (kind p).
    - right. intros p Hp. rewrite existsb_false in E. by apply negb_false_iff, E. }
  - assert (compute_next_allowed_at db a cfg now = None) as ->; [|by split].
    unfold compute_next_allowed_at, list_recent_promotion_history. fold m L rows.
    destruct Hr as (p & Hp & Hk).
    pose proof (filter_some_length is_promote rows p Hp) as Hl. unfold rows in Hl at 2. rewrite length_take in Hl.
    unfold is_promote in Hl at 1. rewrite Hk in Hl. specialize (Hl eq_refl).
    rewrite (Permutation_length (sort_by_perm Z.compare _)).
    match goal with |- context [List.filter ?f (map ?g ?l)] =>
      pose proof (List.filter_length_le f (map g l)) as Hf end.
    rewrite length_map in Hf. by case_match eqn:E; [|apply Nat.ltb_ge in E; lia].
  - assert (rows ≠ []) as Hne.
    { intros E. apply (f_equal length) in E. unfold rows in E. rewrite length_take in E. simpl in E. lia. }
    destruct (head_sort_min (map ph_created_at rows)) as (t0 & Hhead & Ht0 & Hmin); [by destruct rows|].
    assert (compute_next_allowed_at db a cfg now = Some (t0 + window_of cfg)%Z) as ->.
    { unfold compute_next_allowed_at, list_recent_promotion_history. fold m L rows.
      rewrite (filter_all is_promote rows Hall), filter_all, Hhead, (Permutation_length (sort_by_perm Z.compare _)).
      - rewrite length_map. unfold rows. rewrite length_take. by case_match eqn:E; [apply Nat.ltb_lt in E; lia|].
      - intros u (p & -> & Hp)%list_elem_of_fmap. by apply bool_decide_eq_true, Hwin. }
    apply list_elem_of_fmap in Ht0 as (p0 & -> & Hp0).
    assert (∀ q, q ∈ rows → (ph_created_at p0 ≤ ph_created_at q)%Z) as Hmin'.
    { intros q Hq. apply Hmin, list_elem_of_fmap. by exists q. }
    split; [split; [done|intros (p & Hp & Hk); specialize (Hall p Hp); unfold is_promote in Hall;
      by rewrite Hk in Hall]|].
    intros t [= <-]. split; [specialize (Hwin p0 Hp0); lia|]. split.
    + rewrite count_since_history. fold L. case_match eqn:E; [|done]. apply Nat.ltb_lt in E. exfalso.
      rewrite <-(take_drop m L) in E. fold rows in E. rewrite List.filter_app, length_app in E.
      rewrite (filter_all _ rows) in E.
      * unfold rows in E at 1. rewrite length_take in E. lia.
      * intros q Hq. unfold promoted_since. rewrite Hall by done. apply bool_decide_eq_true.
        specialize (Hmin' q Hq). lia.
    + intros t' Ht'. rewrite count_since_history. fold L. rewrite (proj2 (Nat.ltb_lt _ _)); [done|].
      apply (fewer_after L HS m _ p0); [done|lia|done].
Qed.

Lemma next_slot_exact_witness :
  let cfg := call_cfg demo_call in
  check_velocity cfg demo_db "coder" 100 = Some (VelocityExceeded 2 (Some (2 + 86400 * 10 ^ 9)%Z)) ∧
  check_velocity cfg demo_db "coder" (2 + 86400 * 10 ^ 9) ≠ None ∧
  check_velocity cfg demo_db "coder" (3 + 86400 * 10 ^ 9) = None.
Proof.
  intros cfg.
  assert (check_velocity cfg demo_db "coder" 100 = Some (VelocityExceeded 2 (Some (2 + 86400 * 10 ^ 9)%Z)))
    as H by (vm_compute; reflexivity).
  destruct (next_slot_exact cfg demo_db "coder" 100 2 _ H) as [_ Ht].
  destruct (Ht _ eq_refl) as (_ & Hat & Hafter).
  split; [exact H|]. split; [exact Hat|]. apply Hafter. lia.
Defined.
