(* ===== verification/NetworkSinks.v ===== *)
(** * Network sinks in agent code

    The model of [autonoetic-gateway/src/runtime/network_sinks.rs]: comments and
    string bodies are blanked, the import bindings of the code are collected,
    the calls are resolved through them and looked up in the closed table of
    sinks, and hostname constants passed to a sink are resolved.

    The [regex] crate is the parameter [captures_iter]: for a pattern and a text
    it gives the matches in order, each with the spans of its groups (the whole
    match first, [None] for a group that took no part); [find_iter] is the first
    span of each.  The parser of IP addresses of the standard library is the
    parameter [is_ip].  A text is its bytes, so the model speaks of ASCII code:
    byte and character positions coincide.  [chars\[i..\]] is the suffix that
    starts at [i]. *)

From Stdlib Require Import Ascii String Lia.
From stdpp Require Import prelude gmap strings list.
From S2P Require Import Prelude RustStr.

Open Scope string_scope.
Open Scope nat_scope.
Open Scope list_scope.

(** The characters that cannot be written as themselves. *)
Definition nl : ascii := ch 10.
Definition squote : ascii := ch 39.
Definition dquote : ascii := ch 34.
Definition backslash : ascii := ch 92.
Definition backtick : ascii := ch 96.
Definition dq : string := String dquote "".

Definition next_is (s : string) (c : ascii) : bool :=
  match s with "" => false | String x _ => (x =? c)%char end.

(** [&s\[a..b\]]. *)
Definition slice (s : string) (a b : nat) : string := String.substring a (b - a) s.

Fixpoint count_char (c : ascii) (s : string) : nat :=
  match s with "" => 0 | String x r => (if (x =? c)%char then 1 else 0) + count_char c r end.

(** [code\[..start\].matches('\n').count() + 1]. *)
Definition line_of (code : string) (start : nat) : nat :=
  count_char nl (String.substring 0 start code) + 1.

(** ** The sinks *)

Record DetectedSink := {
  sink : string;
  matched : string;
  sink_line : nat;
  sink_reason : string;
  sink_args : string;
}.

Definition PYTHON_SINKS : list (string * string) :=
  [ ("socket.socket", "Raw socket creation");
    ("socket.create_connection", "Outbound TCP connection");
    ("socket.create_server", "Listening TCP socket");
    ("socket.getaddrinfo", "DNS resolution");
    ("socket.gethostbyname", "DNS resolution");
    ("ssl.wrap_socket", "TLS socket wrap");
    ("http.client.HTTPConnection", "HTTP client connection");
    ("http.client.HTTPSConnection", "HTTPS client connection");
    ("urllib.request.urlopen", "Opening a URL connection");
    ("urllib.request.urlretrieve", "Downloading a URL to disk");
    ("urllib.request.build_opener", "Building a URL opener");
    ("ftplib.FTP", "FTP client connection");
    ("ftplib.FTP_TLS", "FTP-over-TLS client connection");
    ("imaplib.IMAP4", "IMAP client connection");
    ("imaplib.IMAP4_SSL", "IMAP-over-TLS client connection");
    ("imaplib.IMAP4_stream", "IMAP stream connection");
    ("poplib.POP3", "POP3 client connection");
    ("poplib.POP3_SSL", "POP3-over-TLS client connection");
    ("smtplib.SMTP", "SMTP client connection");
    ("smtplib.SMTP_SSL", "SMTP-over-TLS client connection");
    ("smtplib.LMTP", "LMTP client connection");
    ("nntplib.NNTP", "NNTP client connection");
    ("nntplib.NNTP_SSL", "NNTP-over-TLS client connection");
    ("telnetlib.Telnet", "Telnet client connection");
    ("asyncio.open_connection", "Async outbound TCP connection");
    ("asyncio.start_server", "Async listening TCP server");
    ("asyncio.open_unix_connection", "Async Unix socket connection");
    ("asyncio.streams.open_connection", "Async outbound TCP connection");
    ("xmlrpc.client.ServerProxy", "XML-RPC client connection");
    ("multiprocessing.connection.Client", "multiprocessing client connection");
    ("multiprocessing.connection.Listener", "multiprocessing listener socket") ].

Definition JAVASCRIPT_SINKS : list (string * string) :=
  [ ("net.connect", "Outbound TCP connection");
    ("net.createConnection", "Outbound TCP connection");
    ("net.createServer", "Listening TCP server");
    ("net.Socket", "Raw TCP socket");
    ("tls.connect", "Outbound TLS connection");
    ("tls.createServer", "Listening TLS server");
    ("http.request", "HTTP client request");
    ("http.get", "HTTP GET request");
    ("http.createServer", "Listening HTTP server");
    ("https.request", "HTTPS client request");
    ("https.get", "HTTPS GET request");
    ("https.createServer", "Listening HTTPS server");
    ("http2.connect", "HTTP/2 client session");
    ("http2.createServer", "Listening HTTP/2 server");
    ("dgram.createSocket", "UDP socket creation");
    ("dns.lookup", "DNS resolution");
    ("dns.resolve", "DNS resolution");
    ("dns.promises.lookup", "DNS resolution");
    ("dns.promises.resolve", "DNS resolution") ].

(** ** Masking *)

Inductive MaskDialect : Type := Python | JavaScript.
Inductive MaskScope : Type := Comments | CommentsAndStrings.

#[export] Instance mask_dialect_eq_dec : EqDecision MaskDialect.
Proof. solve_decision. Defined.

Inductive MaskState : Type :=
| Code
| LineComment
| BlockComment
| Quoted (delim : ascii) (triple : bool)
| Template.

(** One character under [blank!], and under [body!] ([keep!] leaves it). *)
Definition blank (c : ascii) : ascii := if (c =? nl)%char then nl else " "%char.
Definition body (scope : MaskScope) (c : ascii) : ascii :=
  match scope with CommentsAndStrings => blank c | Comments => c end.

(** The loop over the characters: the state, the depth of [${..}] inside template
    literals, and what is left of the text.  An arm that consumes two or three
    characters looks them up in the suffix. *)
Fixpoint mask_loop (dialect : MaskDialect) (scope : MaskScope) (state : MaskState)
    (interp_depth : nat) (s : string) : string :=
  match s with
  | "" => ""
  | String c r =>
      let js := bool_decide (dialect = JavaScript) in
      match state with
      | Code =>
          if negb js && (c =? "#")%char
          then String (blank c) (mask_loop dialect scope LineComment interp_depth r)
          else match r with
          | String n r2 =>
              if js && (c =? "/")%char && (n =? "/")%char
              then String (blank c) (String (blank n)
                     (mask_loop dialect scope LineComment interp_depth r2))
              else if js && (c =? "/")%char && (n =? "*")%char
              then String (blank c) (String (blank n)
                     (mask_loop dialect scope BlockComment interp_depth r2))
              else if js && (c =? backtick)%char
              then String (body scope c) (mask_loop dialect scope Template interp_depth r)
              else if (c =? squote)%char || (c =? dquote)%char
              then match r2 with
                   | String m r3 =>
                       if negb js && (n =? c)%char && (m =? c)%char
                       then String (body scope c) (String (body scope n) (String (body scope m)
                              (mask_loop dialect scope (Quoted c true) interp_depth r3)))
                       else String (body scope c)
                              (mask_loop dialect scope (Quoted c false) interp_depth r)
                   | "" => String (body scope c)
                             (mask_loop dialect scope (Quoted c false) interp_depth r)
                   end
              else if js && (c =? "}")%char && (0 <? interp_depth)
              then String (body scope c) (mask_loop dialect scope Template (interp_depth - 1) r)
              else String c (mask_loop dialect scope Code interp_depth r)
          | "" =>
              if js && (c =? backtick)%char then String (body scope c) ""
              else if (c =? squote)%char || (c =? dquote)%char then String (body scope c) ""
              else if js && (c =? "}")%char && (0 <? interp_depth) then String (body scope c) ""
              else String c ""
          end
      | LineComment =>
          let state := if (c =? nl)%char then Code else LineComment in
          String (blank c) (mask_loop dialect scope state interp_depth r)
      | BlockComment =>
          match r with
          | String n r2 =>
              if (c =? "*")%char && (n =? "/")%char
              then String (blank c) (String (blank n) (mask_loop dialect scope Code interp_depth r2))
              else String (blank c) (mask_loop dialect scope BlockComment interp_depth r)
          | "" => String (blank c) ""
          end
      | Quoted delim triple =>
          match r with
          | String n r2 =>
              if (c =? backslash)%char
              then String (body scope c) (String (body scope n)
                     (mask_loop dialect scope (Quoted delim triple) interp_depth r2))
              else if (c =? delim)%char
              then if triple
                   then match r2 with
                        | String m r3 =>
                            if (n =? delim)%char && (m =? delim)%char
                            then String (body scope c) (String (body scope n)
                                   (String (body scope m) (mask_loop dialect scope Code interp_depth r3)))
                            else String (body scope c)
                                   (mask_loop dialect scope (Quoted delim triple) interp_depth r)
                        | "" => String (body scope c)
                                  (mask_loop dialect scope (Quoted delim triple) interp_depth r)
                        end
                   else String (body scope c) (mask_loop dialect scope Code interp_depth r)
              else if (c =? nl)%char && negb triple
              then String (body scope c) (mask_loop dialect scope Code interp_depth r)
              else String (body scope c)
                     (mask_loop dialect scope (Quoted delim triple) interp_depth r)
          | "" => String (body scope c) ""
          end
      | Template =>
          match r with
          | String n r2 =>
              if (c =? backslash)%char
              then String (body scope c) (String (body scope n)
                     (mask_loop dialect scope Template interp_depth r2))
              else if (c =? "$")%char && (n =? "{")%char
              then String (body scope c) (String (body scope n)
                     (mask_loop dialect scope Code (interp_depth + 1) r2))
              else if (c =? backtick)%char
              then String (body scope c) (mask_loop dialect scope Code interp_depth r)
              else String (body scope c) (mask_loop dialect scope Template interp_depth r)
          | "" => String (body scope c) ""
          end
      end
  end.

Definition mask_strings_and_comments (code : string) (dialect : MaskDialect)
    (scope : MaskScope) : string :=
  mask_loop dialect scope Code 0 code.

(** ** Import bindings *)

Definition split_once_keyword (s kw : string) : option (string * string) :=
  match find s kw with
  | Some i => Some (trim (slice s 0 i), trim (skip (i + String.length kw) s))
  | None => None
  end.

Definition split_import_items (s : string) : list string :=
  let s := trim_end_matches (trim_start_by (Ascii.eqb "(") (trim s)) ")" in
  List.filter (λ p, negb (str_is_empty p)) (trim <$> split (Ascii.eqb ",") s).

Definition parse_as_clause (item : string) : string * option string :=
  match split_once_keyword item " as " with
  | Some (name, alias) => (name, Some alias)
  | None => (trim item, None)
  end.

Definition is_identifier (s : string) : bool :=
  negb (str_is_empty s)
  && negb (str_existsb (λ c,
       negb (is_ascii_alphanumeric c || (c =? "_")%char || (c =? "$")%char)) s)
  && match first_char s with Some c => negb (is_ascii_digit c) | None => true end.

Definition normalize_js_module (spec : string) : string :=
  default (trim spec) (strip_prefix (trim spec) "node:").

(** The namespace or default name of a clause: [ns], [* as ns]. *)
Definition clause_name (token : string) : string :=
  match strip_prefix token "*" with
  | Some rest => default "" (trim <$> strip_prefix (trim rest) "as")
  | None => token
  end.

(** One named binding: [a], [a as b] or [a: b]. *)
Definition named_binding (item : string) : string * string :=
  match split_once_keyword item " as " with
  | Some lr => lr
  | None => match split_once ":" item with
            | Some (l, r) => (trim l, trim r)
            | None => (item, item)
            end
  end.

Definition bind_js_clause (clause module : string) (bindings : gmap string string)
    : gmap string string :=
  let '(named_part, bare_part) :=
    match find clause "{" with
    | Some open =>
        match find (skip open clause) "}" with
        | Some close => (Some (slice clause (open + 1) (open + close)), slice clause 0 open)
        | None => (None, clause)
        end
    | None => (None, clause)
    end in
  let bindings := fold_left (λ b token,
    let token := trim (trim_end_matches (trim token) ",") in
    if str_is_empty token then b
    else let name := clause_name token in
         if is_identifier name then <[name := module]> b else b)
    (split (Ascii.eqb ",") bare_part) bindings in
  fold_left (λ b item,
    let item := trim item in
    if str_is_empty item then b
    else let '(original, bound) := named_binding item in
         if is_identifier original && is_identifier bound
         then <[bound := (module ++ "." ++ original)%string]> b else b)
    (split (Ascii.eqb ",") (default "" named_part)) bindings.

(** ** Calls *)

(** The first component of a dotted head must be bound; the rest is appended. *)
Definition resolve_call (head : string) (bindings : gmap string string) : option string :=
  match split (Ascii.eqb ".") head with
  | first :: rest =>
      base ← bindings !! first;
      Some (match rest with [] => base | _ => (base ++ "." ++ join "." rest)%string end)
  | [] => None
  end.

Fixpoint paren_args (depth : nat) (s : string) : option string :=
  match s with
  | "" => None
  | String c r =>
      if (c =? "(")%char then String c <$> paren_args (S depth) r
      else if (c =? ")")%char
      then match depth with
           | S (S d) => String c <$> paren_args (S d) r
           | _ => Some ""
           end
      else String c <$> paren_args depth r
  end.

Definition extract_paren_args (after_open_paren : string) : option string :=
  paren_args 1 after_open_paren.

Record ResolvedHostConstant := {
  rc_host : string;
  rc_ident : string;
  rc_sink : string;
  rc_line : nat;
}.

#[export] Instance resolved_host_constant_eq_dec : EqDecision ResolvedHostConstant.
Proof. solve_decision. Defined.

(** An identifier that labels the argument is not its value. *)
Definition is_arg_name_position (args : string) (end_ : nat) : bool :=
  let rest := trim_start (skip end_ args) in
  match strip_prefix rest "=" with
  | Some r => negb (starts_with r "=")
  | None => starts_with rest ":"
  end.

Definition normalize_constant (value : string) : string :=
  to_lowercase (trim_end_matches (trim value) ".").

Definition is_host_label (label : string) : bool :=
  negb (str_is_empty label) && (String.length label <=? 63)
  && negb (str_existsb (λ c, negb (is_ascii_alphanumeric c || (c =? "-")%char)) label)
  && negb (starts_with label "-") && negb (ends_with label "-").

(** ** The detectors, over the regex engine *)

Section Regex.
Context (captures_iter : string → string → list (list (option (nat * nat)))).
Context (is_ip : string → bool).

(** [caps.get(k).map(|m| m.as_str())]. *)
Definition cap_text (code : string) (caps : list (option (nat * nat))) (k : nat) : option string :=
  match caps !! k with
  | Some (Some (a, b)) => Some (slice code a b)
  | _ => None
  end.

(** [re.find_iter(code)]: the spans of the matches. *)
Definition find_iter (re code : string) : list (nat * nat) :=
  omap (λ caps, match caps with Some sp :: _ => Some sp | _ => None end) (captures_iter re code).

Definition PY_FROM : string := "(?m)^[ \t]*from[ \t]+([\w.]+)[ \t]+import[ \t]+(.+)$".
Definition PY_IMPORT : string := "(?m)^[ \t]*import[ \t]+(.+)$".

Definition bind_from_item (module : string) (b : gmap string string) (item : string)
    : gmap string string :=
  let '(name, alias) := parse_as_clause item in
  if (name =? "*")%string then b
  else <[default name alias := (module ++ "." ++ name)%string]> b.

Definition bind_import_item (b : gmap string string) (item : string) : gmap string string :=
  let '(path, alias) := parse_as_clause item in
  if str_is_empty path then b
  else match alias with
       | Some a => <[a := path]> b
       | None => let top := default path (head (split (Ascii.eqb ".") path)) in <[top := top]> b
       end.

Definition python_bindings (code : string) : gmap string string :=
  let b := fold_left (λ b caps,
    let module := default "" (cap_text code caps 1) in
    let names := default "" (cap_text code caps 2) in
    fold_left (bind_from_item module) (split_import_items names) b)
    (captures_iter PY_FROM code) ∅ in
  fold_left (λ b caps,
    fold_left bind_import_item (split_import_items (default "" (cap_text code caps 1))) b)
    (captures_iter PY_IMPORT code) b.

Definition quote_class : string := ("[" ++ dq ++ "']")%string.
Definition not_quotes : string := ("[^" ++ dq ++ "']+")%string.

Definition JS_ESM : string :=
  ("(?m)^[ \t]*import[ \t]+(.+?)[ \t]+from[ \t]*" ++ quote_class ++ "(" ++ not_quotes ++ ")"
   ++ quote_class)%string.
Definition JS_CJS : string :=
  ("(?m)^[ \t]*(?:const|let|var)[ \t]+(.+?)[ \t]*=[ \t]*require\([ \t]*" ++ quote_class ++ "("
   ++ not_quotes ++ ")" ++ quote_class ++ "[ \t]*\)")%string.

Definition javascript_bindings (code : string) : gmap string string :=
  fold_left (λ b caps,
    let clause := default "" (trim <$> cap_text code caps 1) in
    let module := normalize_js_module (default "" (cap_text code caps 2)) in
    if str_is_empty module then b else bind_js_clause clause module b)
    (captures_iter JS_ESM code ++ captures_iter JS_CJS code) ∅.

Definition CALL_RE : string :=
  "([A-Za-z_$][A-Za-z0-9_$]*(?:\.[A-Za-z_$][A-Za-z0-9_$]*)*)\s*\(".

(** One match of [CALL_RE]: the sink it is, with the arguments up to the closing
    parenthesis. *)
Definition resolve_sink (code : string) (bindings : gmap string string)
    (sinks : list (string * string)) (caps : list (option (nat * nat))) : option DetectedSink :=
  match caps !! 1 with
  | Some (Some (a, b)) =>
      let head := slice code a b in
      canonical ← resolve_call head bindings;
      '(sk, why) ← List.find (λ p, (p.1 =? canonical)%string) sinks;
      Some {| sink := sk; matched := head; sink_line := line_of code a; sink_reason := why;
              sink_args := match caps !! 0 with
                           | Some (Some (_, e)) => default "" (extract_paren_args (skip e code))
                           | _ => ""
                           end |}
  | _ => None
  end.

Definition same_sink (f g : DetectedSink) : bool :=
  (sink f =? sink g)%string && (sink_line f =? sink_line g) && (matched f =? matched g)%string.

Definition detect_sinks (code : string) (bindings : gmap string string)
    (sinks : list (string * string)) : list DetectedSink :=
  fold_left (push_unless same_sink)
    (omap (resolve_sink code bindings sinks) (captures_iter CALL_RE code)) [].

Definition detect_python_sinks (code : string) : list DetectedSink :=
  let for_bindings := mask_strings_and_comments code Python Comments in
  let for_calls := mask_strings_and_comments code Python CommentsAndStrings in
  detect_sinks for_calls (python_bindings for_bindings) PYTHON_SINKS.

Definition detect_javascript_sinks (code : string) : list DetectedSink :=
  let for_bindings := mask_strings_and_comments code JavaScript Comments in
  let for_calls := mask_strings_and_comments code JavaScript CommentsAndStrings in
  detect_sinks for_calls (javascript_bindings for_bindings) JAVASCRIPT_SINKS.

(** ** Hostname constants *)

Definition looks_like_hostname (value : string) : bool :=
  let v := trim_end_matches (trim value) "." in
  if str_is_empty v || (253 <? String.length v) || negb (contains_char v ".") then false
  else let lower := to_lowercase v in
  if (lower =? "localhost")%string || ends_with lower ".localhost" || contains lower "example.com"
  then false
  else if is_ip lower then false
  else forallb is_host_label (split (Ascii.eqb ".") lower).

Definition quoted_value : string :=
  ("(?:" ++ dq ++ "([^" ++ dq ++ "]*)" ++ dq ++ "|'([^']*)')")%string.
Definition PY_CONST : string :=
  ("(?m)^\s*([A-Za-z_][A-Za-z0-9_]*)(?:\s*:\s*[A-Za-z_][A-Za-z0-9_.\[\]]*)?\s*=\s*"
   ++ quoted_value ++ "\s*$")%string.
Definition JS_CONST : string :=
  ("(?m)^\s*(?:const|let|var)\s+([A-Za-z_$][A-Za-z0-9_$]*)\s*=\s*" ++ quoted_value ++ "\s*;?\s*$")%string.

(** Both constant tables: the two functions differ in their pattern. *)
Definition host_constants (re masked_code : string) : gmap string string :=
  fold_left (λ out caps,
    let ident := default "" (cap_text masked_code caps 1) in
    let value := match cap_text masked_code caps 2 with
                 | Some v => v
                 | None => default "" (cap_text masked_code caps 3)
                 end in
    if looks_like_hostname value then <[ident := normalize_constant value]> out else out)
    (captures_iter re masked_code) ∅.

Definition python_host_constants (masked_code : string) : gmap string string :=
  host_constants PY_CONST masked_code.
Definition javascript_host_constants (masked_code : string) : gmap string string :=
  host_constants JS_CONST masked_code.

Definition IDENT_RE : string := "[A-Za-z_][A-Za-z0-9_]*".

Definition resolve_ident (s : DetectedSink) (constants : gmap string string) (sp : nat * nat)
    : option ResolvedHostConstant :=
  let '(a, b) := sp in
  if is_arg_name_position (sink_args s) b then None
  else host ← constants !! slice (sink_args s) a b;
       Some {| rc_host := host; rc_ident := slice (sink_args s) a b; rc_sink := sink s;
               rc_line := sink_line s |}.

Definition resolve_host_constants (sinks : list DetectedSink) (constants : gmap string string)
    : list ResolvedHostConstant :=
  if bool_decide (constants = ∅) then []
  else fold_left (push_unless (λ a b, bool_decide (a = b)))
    (sinks ≫= λ s, omap (resolve_ident s constants) (find_iter IDENT_RE (sink_args s))) [].

Definition resolve_python_host_constants (code : string) : list ResolvedHostConstant :=
  let for_bindings := mask_strings_and_comments code Python Comments in
  resolve_host_constants (detect_python_sinks code) (python_host_constants for_bindings).

Definition resolve_javascript_host_constants (code : string) : list ResolvedHostConstant :=
  let for_bindings := mask_strings_and_comments code JavaScript Comments in
  resolve_host_constants (detect_javascript_sinks code) (javascript_host_constants for_bindings).
End Regex.

(** ** Masking keeps positions *)

(** [t] is [s] with some characters blanked. *)
Inductive masks : string → string → Prop :=
| masks_nil : masks "" ""
| masks_cons c d s t : d = c ∨ d = blank c → masks s t → masks (String c s) (String d t).

Lemma body_or scope c : body scope c = c ∨ body scope c = blank c.
Proof. destruct scope; [by left|by right]. Qed.

Create HintDb mask.
#[export] Hint Constructors masks : mask.
#[export] Hint Resolve body_or : mask.

Lemma string_len_ind (P : string → Prop) :
  (∀ s, (∀ t, String.length t < String.length s → P t) → P s) → ∀ s, P s.
Proof.
  intros H s. remember (String.length s) as n eqn:Hn. revert s Hn.
  induction n as [n IH] using lt_wf_ind. intros s ->. apply H. eauto.
Qed.

(** Unfolds the loop once and splits on its arms. *)
Ltac mask_step :=
  cbn [mask_loop]; repeat (case_match; cbn beta match).

Lemma mask_loop_masks dialect scope st depth s :
  masks s (mask_loop dialect scope st depth s).
Proof.
  revert st depth. induction s as [s IH] using string_len_ind. intros st depth.
  destruct s as [|c r]; [constructor|]. mask_step;
    repeat (constructor; [solve [auto with mask]|]); try constructor;
    apply IH; cbn [String.length]; lia.
Qed.

Lemma masks_length s t : masks s t → String.length t = String.length s.
Proof. induction 1; simpl; congruence. Qed.

Lemma blank_nl c : (blank c =? nl)%char = (c =? nl)%char.
Proof. unfold blank. by destruct (c =? nl)%char eqn:E. Qed.

Lemma masks_line_of s t : masks s t → ∀ p, line_of t p = line_of s p.
Proof.
  intros H p. unfold line_of. f_equal. revert p. induction H as [|c d s t Hd Hst IH].
  - done.
  - intros [|p]; simpl; [done|]. rewrite IH. f_equal.
    destruct Hd as [->| ->]; [done|by rewrite blank_nl].
Qed.

Lemma masks_slice s t : masks s t → ∀ a b, masks (slice s a b) (slice t a b).
Proof.
  unfold slice. intros H a b. generalize (b - a) as n. revert a.
  induction H as [|c d s t Hd Hst IH]; intros a n.
  { destruct a, n; constructor. }
  destruct a as [|a], n as [|n]; cbn [String.substring]; auto with mask.
Qed.

(** ** Masking removes every comment and every string *)

(** No comment and no string starts in the text. *)
Fixpoint mask_free (dialect : MaskDialect) (s : string) : bool :=
  match s with
  | "" => true
  | String c r =>
      let js := bool_decide (dialect = JavaScript) in
      negb (negb js && (c =? "#")%char)
      && negb (js && (c =? "/")%char && (next_is r "/" || next_is r "*"))
      && negb (js && (c =? backtick)%char)
      && negb ((c =? squote)%char || (c =? dquote)%char)
      && mask_free dialect r
  end.

Lemma mask_free_blank dialect c s :
  mask_free dialect (String (blank c) s) = mask_free dialect s.
Proof.
  cbn [mask_free]. unfold blank.
  destruct (c =? nl)%char; destruct (bool_decide _); reflexivity.
Qed.

Lemma next_is_masks s t c :
  masks s t → c ≠ nl → c ≠ " "%char → next_is t c = true → next_is s c = true.
Proof.
  intros [|x y s' t' [->| ->] _] Hn Hs; [done|done|]. cbn [next_is]. unfold blank.
  destruct (x =? nl)%char; intros ?%Ascii.eqb_eq; congruence.
Qed.

Lemma mask_free_kept dialect c r r' :
  masks r r' → mask_free dialect r' = true →
  (negb (bool_decide (dialect = JavaScript)) && (c =? "#")%char) = false →
  (bool_decide (dialect = JavaScript) && (c =? "/")%char
     && (next_is r "/" || next_is r "*")) = false →
  (bool_decide (dialect = JavaScript) && (c =? backtick)%char) = false →
  ((c =? squote)%char || (c =? dquote)%char) = false →
  mask_free dialect (String c r') = true.
Proof.
  intros Hm Hf H1 H2 H3 H4. cbn [mask_free]. rewrite Hf, H1, H3, H4. simpl.
  rewrite !andb_true_r. apply negb_true_iff.
  destruct (bool_decide _ && (c =? "/")%char) eqn:E; [|done].
  simpl in *. apply orb_false_iff in H2 as [Ha Hb].
  apply orb_false_iff. split; apply not_true_iff_false; intros Hx;
    (apply (next_is_masks _ _ _ Hm) in Hx; [congruence|done|done]).
Qed.

Lemma mask_loop_free dialect st depth s :
  mask_free dialect (mask_loop dialect CommentsAndStrings st depth s) = true.
Proof.
  revert st depth. induction s as [s IH] using string_len_ind. intros st depth.
  destruct s as [|c r]; [done|]. mask_step; unfold body; rewrite ?mask_free_blank;
    try (apply IH; cbn [String.length]; lia); try done.
  - apply (mask_free_kept _ c "" ""); [constructor|done|done| |done|done].
    cbn [next_is]. by rewrite andb_false_r.
  - eapply mask_free_kept; [apply mask_loop_masks| |done| |done|done].
    { apply IH. cbn [String.length]. lia. }
    cbn [next_is]. rewrite andb_orb_distrib_r. by apply orb_false_iff.
Qed.

Lemma mask_free_id dialect scope s :
  mask_free dialect s = true → mask_loop dialect scope Code 0 s = s.
Proof.
  induction s as [|c r IH]; [done|]. cbn [mask_free].
  rewrite !andb_true_iff, !negb_true_iff. intros [[[[H1 H2] H3] H4] H5].
  cbn [mask_loop]. rewrite H1, H3, H4.
  destruct r as [|n r2]; [by rewrite andb_false_r|].
  cbn [next_is] in H2. rewrite andb_orb_distrib_r in H2. apply orb_false_iff in H2 as [-> ->].
  rewrite andb_false_r, IH by done. done.
Qed.

(** Masking everything leaves a text without comments and strings, and a second
    pass leaves it as it is; whatever the scope, a blanked character is the only
    change, so lines and positions are those of the source. *)
(** Masking only blanks: every character of the result is the one of the source or
    its blank, newlines stay, so every offset is on the same line; and what
    masking comments and strings leaves holds neither, for masking it again, in
    either scope, changes nothing. *)
Theorem masking_is_a_projection code dialect scope :
  let masked := mask_strings_and_comments code dialect scope in
  let clean := mask_strings_and_comments code dialect CommentsAndStrings in
  masks code masked ∧ String.length masked = String.length code
  ∧ (∀ p, line_of masked p = line_of code p)
  ∧ mask_strings_and_comments clean dialect scope = clean.
Proof.
  pose proof (mask_loop_masks dialect scope Code 0 code) as H.
  split; [done|]. split_and!; [by apply masks_length|by apply masks_line_of|].
  apply mask_free_id, mask_loop_free.
Qed.

(** ** The arguments of a call *)

(** Reading [s] from depth [d] never closes the call, and ends at depth one. *)
Fixpoint inside_parens (d : nat) (s : string) : bool :=
  match s with
  | "" => d =? 1
  | String c r =>
      if (c =? "(")%char then inside_parens (S d) r
      else if (c =? ")")%char
      then match d with S (S e) => inside_parens (S e) r | _ => false end
      else inside_parens d r
  end.

Lemma paren_args_spec s d a :
  paren_args (S d) s = Some a ↔
  ∃ rest, s = (a ++ String ")" rest)%string ∧ inside_parens (S d) a = true.
Proof.
  revert d a. induction s as [|c r IH]; intros d a; cbn [paren_args].
  - split; [done|]. intros (rest & H & _). by destruct a.
  - destruct (Ascii.eqb_spec c "(") as [->|H1]; [|destruct (Ascii.eqb_spec c ")") as [->|H2]].
    + rewrite fmap_Some. setoid_rewrite IH. split.
      * intros (b & (rest & -> & Hb) & ->). by exists rest.
      * intros (rest & Heq & Ha). destruct a as [|x a]; [done|]. injection Heq as <- ->. eauto.
    + destruct d as [|d].
      * split; [intros [= <-]; by exists r|]. intros (rest & Heq & Ha).
        destruct a as [|x a]; [done|]. injection Heq as <- ->. done.
      * rewrite fmap_Some. setoid_rewrite IH. split.
        -- intros (b & (rest & -> & Hb) & ->). by exists rest.
        -- intros (rest & Heq & Ha). destruct a as [|x a]; [done|].
           injection Heq as <- ->. eauto.
    + rewrite fmap_Some. setoid_rewrite IH. split.
      * intros (b & (rest & -> & Hb) & ->). exists rest. split; [done|]. cbn [inside_parens].
        apply Ascii.eqb_neq in H1, H2. by rewrite H1, H2.
      * intros (rest & Heq & Ha). destruct a as [|x a]; [by injection Heq as -> _|].
        injection Heq as <- ->. exists a. split; [|done]. exists rest. split; [done|].
        cbn [inside_parens] in Ha. apply Ascii.eqb_neq in H1, H2. by rewrite H1, H2 in Ha.
Qed.

(** ** Host constants *)

Lemma str_map_length f s : String.length (str_map f s) = String.length s.
Proof. induction s; simpl; congruence. Qed.

Lemma to_lowercase_idem s : to_lowercase (to_lowercase s) = to_lowercase s.
Proof.
  unfold to_lowercase. rewrite str_map_map. apply str_map_ext. intros c. simpl.
  destruct c as [[] [] [] [] [] [] [] []]; vm_compute; reflexivity.
Qed.

Section HostConstants.
Context (captures_iter : string → string → list (list (option (nat * nat)))).
Context (is_ip : string → bool).

(** A DNS name of at least two labels that is neither an address nor local nor a
    documentation name. *)
Definition is_public_hostname (h : string) : Prop :=
  to_lowercase h = h ∧ String.length h ≤ 253
  ∧ 1 < length (split (Ascii.eqb ".") h)
  ∧ Forall (λ l, is_host_label l = true) (split (Ascii.eqb ".") h)
  ∧ is_ip h = false ∧ h ≠ "localhost" ∧ ends_with h ".localhost" = false
  ∧ contains h "example.com" = false.

Lemma split_existsb_len p s : str_existsb p s = true → 1 < length (split p s).
Proof.
  induction s as [|c r IH]; simpl; [done|]. destruct (p c); simpl.
  - intros _. destruct (split p r) eqn:E; [by apply split_nonempty in E|simpl; lia].
  - intros H. specialize (IH H). destruct (split p r); simpl in *; lia.
Qed.

Lemma looks_like_hostname_spec value :
  looks_like_hostname is_ip value = true → is_public_hostname (normalize_constant value).
Proof.
  unfold looks_like_hostname, normalize_constant. set (v := trim_end_matches _ _).
  destruct (str_is_empty v || _ || _) eqn:E; [done|].
  destruct ((to_lowercase v =? "localhost")%string || _ || _) eqn:E2; [done|].
  destruct (is_ip _) eqn:E3; [done|]. intros Hl. rewrite forallb_true in Hl.
  apply orb_false_iff in E as [[_ Hlen]%orb_false_iff Hdot%negb_false_iff].
  apply orb_false_iff in E2 as [[Hloc Hsuf]%orb_false_iff Hdoc].
  unfold is_public_hostname. apply Nat.ltb_ge in Hlen.
  split_and!; try done.
  - apply to_lowercase_idem.
  - unfold to_lowercase. by rewrite str_map_length.
  - apply split_existsb_len. unfold to_lowercase. rewrite str_existsb_map.
    revert Hdot. unfold contains_char. generalize v as w. induction w as [|c w IH]; [done|].
    cbn [str_existsb]. rewrite !orb_true_iff. intros [Hc|H]; [left|right; by apply IH].
    apply Ascii.eqb_eq in Hc as <-. reflexivity.
  - by apply Forall_forall.
  - by apply String.eqb_neq.
Qed.

Lemma host_constants_hostname re code k h :
  host_constants captures_iter is_ip re code !! k = Some h → is_public_hostname h.
Proof.
  unfold host_constants. generalize (captures_iter re code) as l. intros l.
  assert (∀ m : gmap string string,
    map_Forall (λ _ h, is_public_hostname h) m →
    map_Forall (λ _ h, is_public_hostname h) (fold_left (λ out caps,
      let ident := default "" (cap_text code caps 1) in
      let value := match cap_text code caps 2 with
                   | Some v => v | None => default "" (cap_text code caps 3) end in
      if looks_like_hostname is_ip value then <[ident := normalize_constant value]> out else out)
      l m)) as H.
  { induction l as [|caps l IH]; intros m Hm; [done|]. apply IH. cbn zeta.
    destruct (looks_like_hostname is_ip _) eqn:E; [|done].
    apply map_Forall_insert_2; [by apply looks_like_hostname_spec|done]. }
  intros Hk. by apply (H ∅ (map_Forall_empty _) k h).
Qed.
End HostConstants.

(** ** What is reported *)

Section Reported.
Context (captures_iter : string → string → list (list (option (nat * nat)))).
Context (is_ip : string → bool).

(** The call [caps] of the masked text is a sink under [bindings]: its head is
    the source's, its first component is imported, the rest follows the import. *)
Record is_sink_call (code : string) (bindings : gmap string string)
    (sinks : list (string * string)) (caps : list (option (nat * nat))) (f : DetectedSink) : Prop := {
  sc_head : ∃ a b, caps !! 1 = Some (Some (a, b)) ∧ matched f = slice code a b
              ∧ sink_line f = line_of code a;
  sc_bound : ∃ first rest base, split (Ascii.eqb ".") (matched f) = first :: rest
              ∧ bindings !! first = Some base
              ∧ sink f = match rest with [] => base | _ => (base ++ "." ++ join "." rest)%string end;
  sc_table : (sink f, sink_reason f) ∈ sinks;
  sc_args : sink_args f = "" ∨ inside_parens 1 (sink_args f) = true;
}.

Lemma resolve_call_some h b p :
  resolve_call h b = Some p ↔
  ∃ first rest base, split (Ascii.eqb ".") h = first :: rest ∧ b !! first = Some base
    ∧ p = match rest with [] => base | _ => (base ++ "." ++ join "." rest)%string end.
Proof.
  unfold resolve_call. destruct (split _ h) as [|first rest] eqn:E; [naive_solver|].
  destruct (b !! first) as [base|] eqn:Eb; simpl; [|naive_solver].
  split; [intros [= <-]; eauto 8|]. intros (? & ? & ? & ? & ? & ->). by simplify_eq.
Qed.

Lemma resolve_sink_sound code b sinks caps f :
  resolve_sink code b sinks caps = Some f → is_sink_call code b sinks caps f.
Proof.
  unfold resolve_sink.
  destruct (caps !! 1) as [[[a e]|]|] eqn:E1; [|done..]. cbv zeta.
  destruct (resolve_call _ _) as [p|] eqn:Er; simpl; [|done].
  destruct (List.find _ _) as [[sk why]|] eqn:Ef; simpl; [|done]. intros [= <-].
  apply find_some in Ef as [Hin%list_elem_of_In Hp%String.eqb_eq]. simpl in Hp. subst sk.
  constructor; simpl.
  - eauto.
  - by apply resolve_call_some.
  - done.
  - destruct (caps !! 0) as [[[]|]|]; [|by left..].
    destruct (extract_paren_args _) eqn:Ea; [|by left]. right.
    apply paren_args_spec in Ea as (? & ? & ?). done.
Qed.

Lemma detect_sinks_sound code b sinks f :
  f ∈ detect_sinks captures_iter code b sinks →
  ∃ caps, caps ∈ captures_iter CALL_RE code ∧ is_sink_call code b sinks caps f.
Proof.
  unfold detect_sinks. intros [[]%not_elem_of_nil|H]%fold_push_elem.
  apply list_elem_of_omap in H as (caps & Hc & Hf). eauto using resolve_sink_sound.
Qed.

Lemma same_sink_refl f : same_sink f f = true.
Proof. unfold same_sink. by rewrite !String.eqb_refl, Nat.eqb_refl. Qed.

Lemma detect_sinks_complete code b sinks caps f :
  caps ∈ captures_iter CALL_RE code → resolve_sink code b sinks caps = Some f →
  ∃ g, g ∈ detect_sinks captures_iter code b sinks ∧ same_sink g f = true.
Proof.
  intros Hc Hf. apply fold_push_has; [apply same_sink_refl|]. apply list_elem_of_omap. eauto.
Qed.

(** A call whose head is bound by no import is not a sink. *)
Lemma unbound_call_not_sink code b sinks caps a e :
  caps !! 1 = Some (Some (a, e)) →
  (∀ first, head (split (Ascii.eqb ".") (slice code a e)) = Some first → b !! first = None) →
  resolve_sink code b sinks caps = None.
Proof.
  intros Hc Hb. destruct (resolve_sink _ _ _ _) as [f|] eqn:E; [|done].
  destruct (resolve_sink_sound _ _ _ _ _ E) as [(a' & e' & Hc' & Hm & _) (x & r & base & Hs & Hx & _) _ _].
  rewrite Hc in Hc'. injection Hc' as <- <-. rewrite Hm in Hs.
  rewrite (Hb x) in Hx; [done|]. by rewrite Hs.
Qed.

Lemma resolve_host_constants_sound sinks constants rc :
  rc ∈ resolve_host_constants captures_iter sinks constants →
  constants !! rc_ident rc = Some (rc_host rc)
  ∧ ∃ s a b, s ∈ sinks ∧ rc_sink rc = sink s ∧ rc_line rc = sink_line s
      ∧ rc_ident rc = slice (sink_args s) a b ∧ is_arg_name_position (sink_args s) b = false.
Proof.
  unfold resolve_host_constants. case_bool_decide; [by intros ?%not_elem_of_nil|].
  intros [[]%not_elem_of_nil|H']%fold_push_elem.
  apply list_elem_of_bind in H' as (s & Hrc & Hs).
  apply list_elem_of_omap in Hrc as ([a b] & _ & Hr). unfold resolve_ident in Hr.
  destruct (is_arg_name_position _ b) eqn:En; [done|].
  destruct (constants !! _) as [h|] eqn:Ec; simpl in Hr; [|done]. injection Hr as <-. simpl.
  split; [done|]. exists s, a, b. auto.
Qed.
End Reported.
