(* ===== verification/NetworkPolicy.v ===== *)
(** * Who may reach which host

    The model of the pure network rules of the gateway:
    [autonoetic-gateway/src/runtime/network_policy.rs] (the [remote_access]
    declaration and its enforcement), the host matching of
    [runtime/network_host_contract.rs] and the per-exec decision of
    [runtime/network_grant.rs].

    The URL parser is the parameter [parse_url] (the host and the port of a URL,
    [None] when it does not parse); the YAML reader and serde's reader of a
    declaration are [parse_yaml] and [read_declaration].  Of [AgentManifest] only
    the fields these functions read are kept.  A violation keeps what its message
    names and drops the prose. *)

From Stdlib Require Import Ascii String ZArith Lia.
From stdpp Require Import prelude strings list.
From S2P Require Import Prelude RustStr Json Capability Grants NetworkSinks.

Open Scope string_scope.
Open Scope nat_scope.
Open Scope list_scope.

(** ** The declaration *)

Inductive RemoteAccessLanguage : Type := LangPython | LangJavascript | LangRust | LangGo.
Inductive RemoteAccessApprovalMode : Type := Required | Preapproved.

#[export] Instance language_eq_dec : EqDecision RemoteAccessLanguage.
Proof. solve_decision. Defined.
#[export] Instance approval_mode_eq_dec : EqDecision RemoteAccessApprovalMode.
Proof. solve_decision. Defined.

Record RemoteAccessDeclaration := {
  approval_mode : RemoteAccessApprovalMode;
  targets : list GrantTarget;
  enabled_languages : list RemoteAccessLanguage;
  python_imports : list string;
  js_imports : list string;
  rust_imports : list string;
  go_imports : list string;
  function_calls : list string;
  shell_commands : list string;
  package_manager_commands : list string;
}.

Record NetManifest := {
  nm_agent_id : string;
  nm_capabilities : list Capability;
  open_web : bool;
}.

Inductive DeclarationRequirement : Type := OptionalDeclaration | RequiredDeclaration.
Inductive CapabilityHostCheck : Type := Enforce | DeferToCaller.

Inductive NetworkPolicyViolation : Type :=
| MissingDeclaration (agent host : string)
| PreapprovalRequiresCapability (agent : string)
| AnyPreapprovalRequiresWildcard (agent : string)
| UndeclaredTarget (host : string)
| UndeclaredHost (host agent : string).

Definition error_type (v : NetworkPolicyViolation) : string :=
  match v with
  | MissingDeclaration _ _ => "missing_remote_access_declaration"
  | PreapprovalRequiresCapability _ => "remote_preapproval_requires_network_capability"
  | AnyPreapprovalRequiresWildcard _ => "remote_any_preapproval_requires_wildcard_capability"
  | UndeclaredTarget _ => "undeclared_remote_target"
  | UndeclaredHost _ _ => "undeclared_network_host"
  end.

(** [doc.split_inclusive('\n')]: every piece but the last ends in a newline. *)
Fixpoint split_inclusive (s : string) : list string :=
  match s with
  | "" => []
  | String c r =>
      if (c =? nl)%char then String c "" :: split_inclusive r
      else match split_inclusive r with
           | h :: t => String c h :: t
           | [] => [String c ""]
           end
  end.

(** The loop over the lines: the offset of the first closing delimiter. *)
Fixpoint frontmatter_end (lines : list string) (offset : nat) : option nat :=
  match lines with
  | [] => None
  | line :: rest =>
      let trimmed := trim_end_by is_whitespace line in
      if (trimmed =? "---")%string || (trimmed =? "...")%string then Some offset
      else frontmatter_end rest (offset + String.length line)
  end.

Definition crlf : string := String (ch 13) (String nl "").

Definition extract_yaml_frontmatter (doc : string) : option string :=
  rest ← strip_prefix doc "---";
  let rest := trim_start_by (λ c, (c =? " ")%char || (c =? ch 9)%char) rest in
  rest ← match strip_prefix rest (String nl "") with
         | Some r => Some r
         | None => strip_prefix rest crlf
         end;
  e ← frontmatter_end (split_inclusive rest) 0;
  Some (slice rest 0 e).

(** ** Hosts *)

Definition normalize_host (host : string) : string :=
  to_lowercase (trim_end_matches (trim host) ".").

(** [s.strip_suffix('*')]. *)
Definition wildcard_match (pattern value : string) : bool :=
  if (pattern =? "*")%string then true
  else match strip_suffix_char pattern "*" with
       | Some prefix => starts_with value prefix
       | None => match strip_prefix pattern "*" with
                 | Some suffix => ends_with value suffix
                 | None => (pattern =? value)%string
                 end
       end.

Definition capability_host_allows (declared host : string) : bool :=
  let declared := to_lowercase (trim declared) in
  let host := normalize_host host in
  if (declared =? "*")%string then true
  else if str_is_empty declared || str_is_empty host then false
  else if (host =? declared)%string then true
  else if negb (contains_char declared "*") then ends_with host ("." ++ declared)%string
  else wildcard_match declared host.

Definition declared_network_hosts (capabilities : list Capability) : list string :=
  capabilities ≫= λ cap, match cap with NetworkAccess hosts => hosts | _ => [] end.

Definition is_star (h : string) : bool := (trim h =? "*")%string.

Definition manifest_network_hosts_cover (manifest : NetManifest) (host : string) : bool :=
  let declared := declared_network_hosts (nm_capabilities manifest) in
  match declared with
  | [] => false
  | _ => existsb (λ pattern, capability_host_allows pattern host) declared
  end.

Definition network_access_allows_host (manifest : NetManifest) (host : string) : bool :=
  let declared := declared_network_hosts (nm_capabilities manifest) in
  match declared with
  | [] => false
  | _ => if existsb is_star declared then open_web manifest
         else manifest_network_hosts_cover manifest host
  end.

Definition host_outside_revision_contract (detected_network_hosts : option (list string))
    (host : string) : bool :=
  match detected_network_hosts with
  | None | Some [] => false
  | Some contract_hosts =>
      let normalized := normalize_host host in
      negb (existsb (λ contract, capability_host_allows contract normalized) contract_hosts)
  end.

Definition has_network_capability (capabilities : list Capability) : bool :=
  existsb (λ c, match c with NetworkAccess _ => true | _ => false end) capabilities.

(** ** Declaration rules *)

Definition declares_any (decl : RemoteAccessDeclaration) : bool :=
  existsb (λ t, match t with Any => true | _ => false end) (targets decl).

Definition validate_any_preapproval_shape (manifest : NetManifest) (decl : RemoteAccessDeclaration)
    : result unit NetworkPolicyViolation :=
  if negb (bool_decide (approval_mode decl = Preapproved)) || negb (declares_any decl) then Ok ()
  else
    let wildcard_capability := open_web manifest
      && existsb (λ c, match c with NetworkAccess hosts => existsb is_star hosts | _ => false end)
           (nm_capabilities manifest) in
    if wildcard_capability then Ok ()
    else Err (AnyPreapprovalRequiresWildcard (nm_agent_id manifest)).

Section Policy.
Context (parse_url : string → option (option string * option Z)).
Context (parse_yaml : string → option Json).
Context (read_declaration : Json → option RemoteAccessDeclaration).

(** [skill] is the text of SKILL.md, [None] when it cannot be read. *)
Definition load_manifest_remote_access_declaration (skill : option string)
    : option RemoteAccessDeclaration :=
  skill ← skill;
  frontmatter ← extract_yaml_frontmatter skill;
  root ← parse_yaml frontmatter;
  let direct := json_get root "remote_access" in
  let nested := m ← json_get root "metadata"; a ← json_get m "autonoetic";
                json_get a "remote_access" in
  raw ← match direct with Some d => Some d | None => nested end;
  read_declaration raw.

(** The forms of the request a target is compared with. *)
Definition request_candidates (host : string) (request_url : option string) : list string :=
  let normalized_host := normalize_host host in
  normalized_host :: match request_url with
  | None => []
  | Some url_raw =>
      match parse_url url_raw with
      | Some (Some parsed_host, port) =>
          let parsed_host := normalize_host parsed_host in
          (if negb (str_is_empty parsed_host) && negb (parsed_host =? normalized_host)%string
           then [parsed_host] else [])
          ++ match port with
             | Some p => [(parsed_host ++ ":" ++ show_Z p)%string]
             | None => []
             end
      | _ => []
      end ++ [url_raw]
  end.

Definition declaration_allows_target (declaration : RemoteAccessDeclaration) (host : string)
    (request_url : option string) : bool :=
  if str_is_empty (normalize_host host) then false
  else existsb (λ target, existsb (target_matches target) (request_candidates host request_url))
         (targets declaration).

Definition enforce_remote_target_policy (manifest : NetManifest) (skill : option string)
    (host : string) (request_url : option string) (declaration_requirement : DeclarationRequirement)
    (capability_host_check : CapabilityHostCheck)
    : result (option RemoteAccessDeclaration) NetworkPolicyViolation :=
  match load_manifest_remote_access_declaration skill with
  | None => match declaration_requirement with
            | OptionalDeclaration => Ok None
            | RequiredDeclaration => Err (MissingDeclaration (nm_agent_id manifest) host)
            end
  | Some decl =>
      let has_cap := has_network_capability (nm_capabilities manifest) in
      if bool_decide (approval_mode decl = Preapproved) && negb has_cap
      then Err (PreapprovalRequiresCapability (nm_agent_id manifest))
      else _ <-? validate_any_preapproval_shape manifest decl;
        if negb (declaration_allows_target decl host request_url) then Err (UndeclaredTarget host)
        else match capability_host_check with
             | Enforce =>
                 if has_cap && negb (network_access_allows_host manifest host)
                 then Err (UndeclaredHost host (nm_agent_id manifest)) else Ok (Some decl)
             | DeferToCaller => Ok (Some decl)
             end
  end.
End Policy.

(** ** The per-exec network decision *)

Record ShareNetInputs := {
  capability_allows_network : bool;
  approval_validated : bool;
  safe_inspection_bypass : bool;
  network_sink_excluded : bool;
  network_declassified : bool;
  force_network_off : bool;
}.

Inductive ShareNetReason : Type :=
| ForcedOff | SafeInspection | TaintNotDeclassified | GrantedByApproval
| GrantedByCapability | GrantedBySealedProxy | NoGrant.

#[export] Instance share_net_reason_eq_dec : EqDecision ShareNetReason.
Proof. solve_decision. Defined.

Definition share_net_reason_str (self : ShareNetReason) : string :=
  match self with
  | ForcedOff => "forced_off"
  | SafeInspection => "safe_inspection"
  | TaintNotDeclassified => "taint_not_declassified"
  | GrantedByApproval => "granted_by_approval"
  | GrantedByCapability => "granted_by_capability"
  | GrantedBySealedProxy => "granted_by_sealed_proxy"
  | NoGrant => "no_grant"
  end.

Record ShareNetDecision := {
  share_net : bool;
  share_reason : ShareNetReason;
  capability_ceiling_unused : bool;
}.

Definition decide_share_net (inputs : ShareNetInputs) : ShareNetDecision :=
  let reason :=
    if force_network_off inputs then ForcedOff
    else if safe_inspection_bypass inputs then SafeInspection
    else if network_sink_excluded inputs && negb (network_declassified inputs)
    then TaintNotDeclassified
    else if approval_validated inputs then GrantedByApproval
    else NoGrant in
  let share_net := bool_decide (reason = GrantedByApproval) in
  {| share_net := share_net; share_reason := reason;
     capability_ceiling_unused := negb share_net && capability_allows_network inputs |}.

Definition network_disclosure_json (share_net : bool) (reason : ShareNetReason)
    (capability_ceiling_unused : bool) : Json :=
  json_object [("share_net", JBool share_net); ("reason", JString (share_net_reason_str reason));
               ("capability_ceiling_unused", JBool capability_ceiling_unused)].

(** ** Who gets the namespace *)

(** The grant decides, the ceiling never does. *)
Lemma share_net_iff i :
  share_net (decide_share_net i) = true ↔
  approval_validated i = true ∧ force_network_off i = false ∧ safe_inspection_bypass i = false
  ∧ (network_sink_excluded i = true → network_declassified i = true).
Proof.
  unfold decide_share_net. destruct i as [cap appr safe exc decl off]. simpl.
  destruct off, safe, exc, decl, appr; simpl; naive_solver.
Qed.

Lemma share_net_reason_iff i :
  share_net (decide_share_net i) = true ↔ share_reason (decide_share_net i) = GrantedByApproval.
Proof. unfold decide_share_net. simpl. apply bool_decide_eq_true. Qed.

(** ** Frontmatter *)

Definition unlines (ls : list string) : string :=
  foldr (λ l acc, (l ++ String nl acc)%string) "" ls.

Definition no_delimiter (l : string) : Prop :=
  str_existsb (λ c, (c =? nl)%char) l = false
  ∧ trim_end_by is_whitespace (l ++ String nl "") ≠ "---"
  ∧ trim_end_by is_whitespace (l ++ String nl "") ≠ "...".

Lemma split_inclusive_line l r :
  str_existsb (λ c, (c =? nl)%char) l = false →
  split_inclusive (l ++ String nl r) = (l ++ String nl "")%string :: split_inclusive r.
Proof.
  induction l as [|c l IH]; cbn [str_existsb]; [done|].
  intros [Hc Hl]%orb_false_iff. change (String c l ++ ?x)%string with (String c (l ++ x)).
  cbn [split_inclusive]. by rewrite Hc, IH.
Qed.

Lemma frontmatter_end_lines ls tail offset :
  Forall no_delimiter ls →
  frontmatter_end (split_inclusive (unlines ls ++ "---" ++ String nl tail)) offset
    = Some (offset + String.length (unlines ls)).
Proof.
  intros H. revert offset. induction H as [|l ls (Hn & Hd & He) _ IH]; intros offset.
  - simpl. f_equal. lia.
  - cbn [unlines foldr]. rewrite str_app_assoc. cbn [String.append].
    rewrite split_inclusive_line by done. cbn [frontmatter_end].
    apply String.eqb_neq in Hd, He. rewrite Hd, He. cbn [orb].
    change (foldr _ "" ls) with (unlines ls). rewrite IH. f_equal.
    rewrite !str_length_app. simpl. lia.
Qed.

Lemma slice_app s t : slice (s ++ t) 0 (String.length s) = s.
Proof. unfold slice. rewrite Nat.sub_0_r. apply substring_app. Qed.

(** A header is read back whole, up to the first line that is a delimiter. *)
Lemma frontmatter_roundtrip ls tail :
  Forall no_delimiter ls →
  extract_yaml_frontmatter ("---" ++ String nl (unlines ls ++ "---" ++ String nl tail))
    = Some (unlines ls).
Proof.
  intros H. unfold extract_yaml_frontmatter.
  rewrite (proj2 (strip_prefix_some _ "---" _) eq_refl). cbn [mbind option_bind].
  set (r := (unlines ls ++ _)%string).
  change (trim_start_by _ (String nl r)) with (String nl r).
  rewrite (proj2 (strip_prefix_some (String nl r) (String nl "") r) eq_refl).
  cbn [mbind option_bind]. unfold r. rewrite frontmatter_end_lines by done.
  cbn [mbind option_bind]. by rewrite slice_app.
Qed.

(** ** What a host pattern covers *)

(** [d] and [h] are the pattern and the host as they are compared. *)
Inductive host_covered (d h : string) : Prop :=
| covered_any : d = "*" → host_covered d h
| covered_same : d ≠ "" → h = d → host_covered d h
| covered_subdomain p : d ≠ "" → contains_char d "*" = false → h = (p ++ "." ++ d)%string →
    host_covered d h
| covered_prefix p q : d = (p ++ "*")%string → h ≠ "" → h = (p ++ q)%string → host_covered d h
| covered_suffix s q : d = ("*" ++ s)%string → last_char d ≠ Some "*"%char → h ≠ "" →
    h = (q ++ s)%string → host_covered d h.

Lemma strip_suffix_star_none s : strip_suffix_char s "*" = None ↔ last_char s ≠ Some "*"%char.
Proof.
  induction s as [|c s IH]; [done|]. cbn [strip_suffix_char last_char].
  destruct s as [|x s]; cbn [str_is_empty].
  - cbn [last_char]. destruct (Ascii.eqb_spec c "*") as [->|Hne]; [naive_solver|].
    split; [|done]. intros _ [= ?]. done.
  - rewrite fmap_None, IH. destruct (last_char_some (String x s)) as [y Hy]; [done|].
    by rewrite Hy.
Qed.

Lemma strip_prefix_none s p : strip_prefix s p = None ↔ starts_with s p = false.
Proof. unfold strip_prefix. by destruct (starts_with s p). Qed.

Lemma last_char_snoc p c : last_char (p ++ String c "") = Some c.
Proof. by rewrite last_char_app. Qed.

Lemma wildcard_match_spec d h :
  d ≠ "*" → h ≠ "" → h ≠ d → contains_char d "*" = true →
  wildcard_match d h = true ↔ host_covered d h.
Proof.
  intros Hs Hh Hne Hc. unfold wildcard_match. rewrite (proj2 (String.eqb_neq _ _) Hs).
  destruct (strip_suffix_char d "*") as [p|] eqn:Ep.
  - rewrite starts_with_spec. split.
    + apply strip_suffix_char_spec in Ep. intros [r Hr]. by eapply covered_prefix.
    + intros [?|_ ?|q _ Hf|p' q Hd _ Hq|s q Hd Hl]; [congruence..| |].
      * rewrite Hd in Ep. rewrite (proj2 (strip_suffix_char_spec _ _ _) eq_refl) in Ep.
        injection Ep as <-. eauto.
      * apply strip_suffix_star_none in Hl. congruence.
  - pose proof (proj1 (strip_suffix_star_none _) Ep) as Hl.
    destruct (strip_prefix d "*") as [s|] eqn:Es.
    + rewrite ends_with_spec. split.
      * apply strip_prefix_some in Es. intros [r Hr]. by eapply covered_suffix.
      * intros [?|_ ?|q _ Hf|p' q Hd _ _|s' q Hd _ _ Hq]; [congruence..| |].
        -- by rewrite Hd, last_char_snoc in Hl.
        -- apply strip_prefix_some in Hd. rewrite Es in Hd. injection Hd as ->. eauto.
    + rewrite String.eqb_eq. split; [congruence|].
      intros [?|_ ?|q _ Hf|p' q Hd _ _|s' q Hd _ _ _]; [congruence..| |].
      * by rewrite Hd, last_char_snoc in Hl.
      * apply strip_prefix_some in Hd. congruence.
Qed.

Lemma covered_nonempty d h : d ≠ "*" → host_covered d h → d ≠ "" ∧ h ≠ "".
Proof.
  intros Hs [?|? ->|p ? _ ->|p q -> ? _|s q -> _ ? _]; try done.
  - split; [done|]. by destruct p.
  - split; [by destruct p|done].
Qed.

Lemma capability_host_allows_spec declared host :
  capability_host_allows declared host = true ↔
  host_covered (to_lowercase (trim declared)) (normalize_host host).
Proof.
  unfold capability_host_allows. cbv zeta. generalize (to_lowercase (trim declared)) as d.
  generalize (normalize_host host) as h. intros h d.
  destruct (String.eqb_spec d "*") as [->|Hs].
  { split; [|done]. intros _. by apply covered_any. }
  destruct (str_is_empty d || str_is_empty h) eqn:Ee.
  { split; [done|]. intros [Hd Hh]%covered_nonempty; [|done].
    by destruct d, h. }
  apply orb_false_iff in Ee as [Hd Hh].
  assert (d ≠ "" ∧ h ≠ "") as [Hd' Hh'] by (split; by intros ->).
  destruct (String.eqb_spec h d) as [->|Hne].
  { split; [|done]. intros _. by apply covered_same. }
  destruct (contains_char d "*") eqn:Ec; cbn [negb]; [by apply wildcard_match_spec|].
  rewrite ends_with_spec. split.
  - intros [r Hr]. by eapply covered_subdomain.
  - intros [?|_ ?|q _ _ Hq|p' q Hd2 _ _|s' q Hd2 _ _ _]; [congruence..|eauto| |];
      rewrite Hd2, contains_char_app in Ec; apply orb_false_iff in Ec as [Ea Eb]; done.
Qed.

(** A pattern without a star covers its host and its subdomains, nothing else. *)
Lemma plain_pattern_covers declared host :
  contains_char (to_lowercase (trim declared)) "*" = false →
  capability_host_allows declared host = true →
  normalize_host host = to_lowercase (trim declared)
  ∨ ∃ p, normalize_host host = (p ++ "." ++ to_lowercase (trim declared))%string.
Proof.
  rewrite capability_host_allows_spec. intros Hc [Hd|_ ?|q _ _ Hq|p' q Hd _ _|s' q Hd _ _ _];
    [|by left|by right; exists q| |]; rewrite Hd in Hc.
  - done.
  - rewrite contains_char_app in Hc. by apply orb_false_iff in Hc as [_ ?].
  - done.
Qed.

(** ** What the enforcement lets through *)

Lemma declares_any_elem decl : declares_any decl = true ↔ Any ∈ targets decl.
Proof.
  unfold declares_any. rewrite existsb_true. split; [|by exists Any]. by intros ([] & ? & ?).
Qed.

Lemma has_network_capability_elem caps :
  has_network_capability caps = true ↔ ∃ hosts, NetworkAccess hosts ∈ caps.
Proof.
  unfold has_network_capability. rewrite existsb_true. split.
  - intros ([] & ? & ?); try done. eauto.
  - intros [hosts H]. eauto.
Qed.

Lemma star_capability caps :
  existsb (λ c, match c with NetworkAccess hosts => existsb is_star hosts | _ => false end) caps
  = existsb is_star (declared_network_hosts caps).
Proof.
  unfold declared_network_hosts. induction caps as [|c caps IH]; [done|]. cbn [existsb mbind list_bind].
  rewrite IH, existsb_app. by destruct c.
Qed.

Lemma any_preapproval_ok m d :
  validate_any_preapproval_shape m d = Ok () ↔
  (approval_mode d = Preapproved → Any ∈ targets d →
   open_web m = true ∧ existsb is_star (declared_network_hosts (nm_capabilities m)) = true).
Proof.
  unfold validate_any_preapproval_shape. rewrite star_capability, <-declares_any_elem.
  case_bool_decide as Hm; simpl; [|naive_solver].
  destruct (declares_any d); simpl; [|naive_solver].
  destruct (open_web m), (existsb is_star _); simpl; naive_solver.
Qed.

Lemma network_access_allows_host_spec m host :
  network_access_allows_host m host = true ↔
  let declared := declared_network_hosts (nm_capabilities m) in
  (existsb is_star declared = true ∧ open_web m = true)
  ∨ (existsb is_star declared = false ∧
     ∃ p, p ∈ declared ∧ capability_host_allows p host = true).
Proof.
  unfold network_access_allows_host, manifest_network_hosts_cover. cbv zeta.
  destruct (declared_network_hosts _) as [|p ps] eqn:E.
  { split; [done|]. intros [[? _]|(_ & p & ?%not_elem_of_nil & _)]; done. }
  rewrite <-existsb_true. destruct (existsb is_star _); naive_solver.
Qed.

Section Enforcement.
Context (parse_url : string → option (option string * option Z)).
Context (parse_yaml : string → option Json).
Context (read_declaration : Json → option RemoteAccessDeclaration).

Notation load := (load_manifest_remote_access_declaration parse_yaml read_declaration).
Notation allows_target := (declaration_allows_target parse_url).

(** What a declared request satisfies. *)
Record request_permitted (m : NetManifest) (d : RemoteAccessDeclaration) (host : string)
    (url : option string) (check : CapabilityHostCheck) : Prop := {
  rp_capability : approval_mode d = Preapproved → ∃ hosts, NetworkAccess hosts ∈ nm_capabilities m;
  rp_any : approval_mode d = Preapproved → Any ∈ targets d →
    open_web m = true ∧ existsb is_star (declared_network_hosts (nm_capabilities m)) = true;
  rp_target : allows_target d host url = true;
  rp_host : check = Enforce → has_network_capability (nm_capabilities m) = true →
    network_access_allows_host m host = true;
}.

(** A request to a host passes exactly when the agent has a declaration and it
    permits it: a pre-approval needs the capability, for any host an open-web star,
    a target must match the host or the URL, and where the capability's hosts are
    enforced they must cover the host. *)
Theorem enforce_ok_iff m skill host url req check d :
  enforce_remote_target_policy parse_url parse_yaml read_declaration m skill host url req check
    = Ok (Some d) ↔
  load skill = Some d ∧ request_permitted m d host url check.
Proof.
  unfold enforce_remote_target_policy. destruct (load skill) as [d'|].
  2:{ destruct req; split; [done|by intros [? _]|done|by intros [? _]]. }
  cbv zeta. split.
  - destruct (bool_decide _ && negb _) eqn:E1; [done|]. intros H.
    apply rbind_ok in H as (u & Hv & H). destruct u.
    destruct (allows_target d' host url) eqn:Et; cbn [negb] in H; [|done].
    assert (d' = d ∧ (check = Enforce → has_network_capability (nm_capabilities m) = true →
      network_access_allows_host m host = true)) as [-> Hc].
    { destruct check; [|by injection H as ->].
      destruct (has_network_capability _), (network_access_allows_host m host); simpl in H;
        try done; injection H as ->; done. }
    split; [done|]. split; [|by apply any_preapproval_ok|done|done].
    intros Hp. apply has_network_capability_elem. rewrite bool_decide_true in E1 by done.
    by apply negb_false_iff in E1.
  - intros [[= ->] [H1 H2 H3 H4]]. rewrite (proj2 (any_preapproval_ok m d) H2), H3. cbn [negb rbind].
    assert (bool_decide (approval_mode d = Preapproved)
      && negb (has_network_capability (nm_capabilities m)) = false) as ->.
    { case_bool_decide as Hp; [|done]. apply negb_false_iff, has_network_capability_elem. auto. }
    destruct check; [|done]. destruct (has_network_capability _); [|done]. by rewrite H4.
Qed.

(** Without a declaration the requirement decides, and nothing is looked at. *)
Lemma enforce_undeclared m skill host url req check :
  load skill = None →
  enforce_remote_target_policy parse_url parse_yaml read_declaration m skill host url req check
    = match req with
      | OptionalDeclaration => Ok None
      | RequiredDeclaration => Err (MissingDeclaration (nm_agent_id m) host)
      end.
Proof. unfold enforce_remote_target_policy. by intros ->. Qed.

(** An agent without the capability is not held to its host list. *)
Lemma enforce_without_capability m skill host url req :
  has_network_capability (nm_capabilities m) = false →
  enforce_remote_target_policy parse_url parse_yaml read_declaration m skill host url req Enforce
  = enforce_remote_target_policy parse_url parse_yaml read_declaration m skill host url req DeferToCaller.
Proof. unfold enforce_remote_target_policy. by intros ->. Qed.
End Enforcement.
