(* ===== verification/RemoteAccess.v ===== *)
(** * The remote-access analyser

    The model of [autonoetic-gateway/src/runtime/remote_access.rs]: the detected
    patterns and their categories, the detectors (imports per language, calls,
    sinks, host constants, URL and address literals, network commands), their
    composition, and what the [remote_access] declaration must cover; with it the
    target normalisation of [runtime/approved_exec_cache.rs] and the detection
    half of [runtime/network_host_contract.rs].

    [captures_iter] is the [regex] crate (see [NetworkSinks]) and [regex_escape]
    its escape function; [set_order] is the order in which a [HashSet] of
    category names is walked, which only the summary text shows. *)

From Stdlib Require Import Ascii String ZArith Lia.
From stdpp Require Import prelude gmap strings list.
From S2P Require Import Prelude RustStr Capability Grants CausalChain NetworkSinks NetworkPolicy.

Open Scope string_scope.
Open Scope nat_scope.
Open Scope list_scope.

(** ** Patterns and their categories *)

Inductive DetectedPatternCategory : Type :=
| ImportPattern | FunctionCall | UrlLiteral | IpAddress | NetworkCommand | DependencyInstall
| NetworkSink | HostConstant.

#[export] Instance category_eq_dec : EqDecision DetectedPatternCategory.
Proof. solve_decision. Defined.

Definition category_as_str (self : DetectedPatternCategory) : string :=
  match self with
  | ImportPattern => "import"
  | FunctionCall => "function_call"
  | UrlLiteral => "url_literal"
  | IpAddress => "ip_address"
  | NetworkCommand => "network_command"
  | DependencyInstall => "dependency_install"
  | NetworkSink => "network_sink"
  | HostConstant => "host_constant"
  end.

Definition category_from_str (s : string) : option DetectedPatternCategory :=
  List.find (λ c, (category_as_str c =? s)%string)
    [ImportPattern; FunctionCall; UrlLiteral; IpAddress; NetworkCommand; DependencyInstall;
     NetworkSink; HostConstant].

Definition is_gating (self : DetectedPatternCategory) : bool :=
  match self with
  | UrlLiteral | IpAddress | HostConstant | NetworkCommand | DependencyInstall => true
  | _ => false
  end.

Definition is_advisory (self : DetectedPatternCategory) : bool :=
  match self with ImportPattern | FunctionCall => true | _ => false end.

Definition is_derived (self : DetectedPatternCategory) : bool :=
  match self with NetworkSink => true | _ => false end.

Record DetectedPattern := {
  category : DetectedPatternCategory;
  pattern : string;
  line_number : option nat;
  dp_reason : string;
}.

Record RemoteAccessAnalysis := {
  requires_approval : bool;
  detected_patterns : list DetectedPattern;
  summary : string;
}.

Inductive NetworkCoverage : Type :=
| Concrete (targets : list string)
| Unresolved
| NoCoverage.

Definition classify_network_coverage (patterns : list DetectedPattern)
    (concrete_targets : list string) : NetworkCoverage :=
  match concrete_targets with
  | [] => match patterns with [] => NoCoverage | _ => Unresolved end
  | _ => if existsb (λ p, bool_decide (category p = DependencyInstall)) patterns
         then Unresolved else Concrete concrete_targets
  end.

(** ** The text shown to the operator *)

(** [str::lines]. *)
Definition str_lines (s : string) : list string :=
  (λ line, match strip_suffix_char line nl with
           | Some l => default l (strip_suffix_char l (ch 13))
           | None => line
           end) <$> split_inclusive s.

Fixpoint str_filter (p : ascii → bool) (s : string) : string :=
  match s with "" => "" | String c r => if p c then String c (str_filter p r) else str_filter p r end.

(** [char::is_control] on ASCII. *)
Definition is_control (c : ascii) : bool :=
  let n := nat_of_ascii c in (n <? 32) || (n =? 127).

Definition APPROVAL_REMOTE_PATTERN_SNIPPET_CHARS : nat := 96.
Definition APPROVAL_REMOTE_HINT_CAP : nat := 8.

Definition collapse_detected_pattern_text (raw : string) : string :=
  str_filter (λ c, negb (is_control c)) (trim (default "" (head (str_lines raw)))).

Definition truncate_unicode_hint (s : string) (max_chars : nat) : string :=
  if String.length s <=? max_chars then s
  else (slice s 0 (max_chars - 3) ++ "...")%string.

(** Both loops of the suffix: a label once, at most [APPROVAL_REMOTE_HINT_CAP]. *)
Fixpoint collect_labels (label : DetectedPattern → option string) (ps : list DetectedPattern)
    (parts : list string) : list string :=
  match ps with
  | [] => parts
  | p :: rest =>
      match label p with
      | None => collect_labels label rest parts
      | Some l =>
          let parts := push_unless String.eqb parts l in
          if APPROVAL_REMOTE_HINT_CAP <=? length parts then parts
          else collect_labels label rest parts
      end
  end.

Definition snippet_label (p : DetectedPattern) : option string :=
  let snippet := truncate_unicode_hint (collapse_detected_pattern_text (pattern p))
                   APPROVAL_REMOTE_PATTERN_SNIPPET_CHARS in
  if str_is_empty snippet then None
  else Some (category_as_str (category p) ++ ":" ++ snippet)%string.

Definition approval_remote_operator_suffix (concrete_hosts : list string)
    (patterns : list DetectedPattern) : string :=
  match concrete_hosts, patterns with
  | _ :: _, _ => (" → hosts: " ++ join ", " concrete_hosts)%string
  | [], [] => ""
  | [], _ =>
      let parts := collect_labels snippet_label patterns [] in
      let parts := match parts with
        | [] => collect_labels (λ p, Some (category_as_str (category p) ++ ":*")%string) patterns []
        | _ => parts
        end in
      match parts with
      | [] => ""
      | _ => (" → signals: " ++ join "; " parts)%string
      end
  end.

(** ** Package managers and shell wrappers *)

Definition normalize_declared_pattern (s : string) : string := to_lowercase (trim s).

Definition PACKAGE_MANAGER_COMMAND_PREFIXES : list string :=
  ["pip install"; "pip3 install"; "npm install"; "yarn install"; "yarn add"; "pnpm install";
   "bun install"; "go get"; "go mod download"; "cargo install"; "gem install";
   "composer install"; "composer require"; "apt-get install"; "apt-get update"; "apk add";
   "yum install"; "dnf install"; "pacman -s"].

Definition is_package_manager_command_pattern (pat : string) : bool :=
  let p := normalize_declared_pattern pat in
  existsb (starts_with p) PACKAGE_MANAGER_COMMAND_PREFIXES.

(** The loop over the lines, left at eight candidates. *)
Fixpoint scan_install_lines (ls : list string) (out : list string) : list string :=
  match ls with
  | [] => out
  | line :: rest =>
      let t := trim line in
      let t := match strip_prefix t "- " with Some r => trim r | None => t end in
      if is_package_manager_command_pattern t
      then let out := push_unless String.eqb out (join " " (split_whitespace t)) in
           if 8 <=? length out then out else scan_install_lines rest out
      else scan_install_lines rest out
  end.

Definition scan_dependency_install_lines (text : string) : list string :=
  scan_install_lines (str_lines text) [].

Definition SHELLS : list string := ["bash"; "sh"; "zsh"; "dash"; "ash"; "ksh"].

(** The tokens up to the [-c] of a shell; [false] is an early return. *)
Fixpoint wrapper_tokens (tokens : list string) : bool :=
  match tokens with
  | [] => true
  | token :: rest =>
      if contains_char token "=" then wrapper_tokens rest
      else
        let basename := default token (last (split (Ascii.eqb "/") token)) in
        if negb (existsb (String.eqb basename) SHELLS) then false
        else match rest with flag :: _ => (flag =? "-c")%string | [] => false end
  end.

(** [s.rfind(c)]. *)
Fixpoint rfind_char (s : string) (c : ascii) : option nat :=
  match s with
  | "" => None
  | String x r => match rfind_char r c with
                  | Some i => Some (S i)
                  | None => if (x =? c)%char then Some 0 else None
                  end
  end.

Fixpoint find_char_by (p : ascii → bool) (s : string) : option nat :=
  match s with
  | "" => None
  | String x r => if p x then Some 0 else S <$> find_char_by p r
  end.

Definition shell_wrapper_body (segment : string) : option string :=
  if negb (wrapper_tokens (split_whitespace (trim_start segment))) then None
  else
    i ← find segment "-c";
    let after_flag := skip (i + 2) segment in
    open ← find_char_by (λ c, (c =? squote)%char || (c =? dquote)%char) after_flag;
    quote ← String.get open after_flag;
    close ← rfind_char (skip (open + 1) after_flag) quote;
    Some (slice after_flag (open + 1) (close + open + 1)).

(** [depth > 4] is refused, so five levels are looked at. *)
Fixpoint dependency_install_inner (levels : nat) (command : string) : bool :=
  match levels with
  | O => false
  | S levels =>
      existsb (λ segment,
        is_package_manager_command_pattern segment
        || match shell_wrapper_body segment with
           | Some body => dependency_install_inner levels body
           | None => false
           end) (split (λ c, (c =? "|")%char || (c =? "&")%char || (c =? ";")%char) command)
  end.

Definition command_looks_like_dependency_install (command : string) : bool :=
  dependency_install_inner 5 command.

Definition SAFE_INSPECTION_COMMANDS : list string :=
  ["pip list"; "pip show "; "pip --version"; "pip3 list"; "pip3 show "; "pip3 --version";
   "npm list"; "npm version"; "npm --version"].

Definition is_safe_inspection_command (command : string) : bool :=
  let lower := to_lowercase (trim command) in existsb (starts_with lower) SAFE_INSPECTION_COMMANDS.

(** ** Declared and observed *)

Definition observed_matches_declared (observed : string) (declared_patterns : list string) : bool :=
  let observed := normalize_declared_pattern observed in
  existsb (λ raw,
    let declared := normalize_declared_pattern raw in
    negb (str_is_empty declared)
    && ((observed =? declared)%string || starts_with observed declared || contains observed declared))
    declared_patterns.

Definition declared_import_patterns (decl : RemoteAccessDeclaration) : list string :=
  python_imports decl ++ js_imports decl ++ rust_imports decl ++ go_imports decl.

Section Coverage.
Context (captures_iter : string → string → list (list (option (nat * nat)))).
Context (parse_url : string → option (option string * option Z)).

Definition URL_HOST_RE : string := "(?i)^[a-z]+://([^/:]+)".

(** [re.captures(url)?.get(1)?]. *)
Definition url_host_group (url : string) : option string :=
  caps ← head (captures_iter URL_HOST_RE url); cap_text url caps 1.

Definition extract_host_from_url_literal (url : string) : option string :=
  g ← url_host_group url;
  let host := trim_end_matches g "." in
  if str_is_empty host then None else Some (to_lowercase host).

(** [approved_exec_cache::extract_host_from_url] tests the group before it trims
    the dots. *)
Definition extract_host_from_url (url : string) : option string :=
  host ← url_host_group url;
  if str_is_empty host then None else Some (to_lowercase (trim_end_matches host ".")).

Definition declaration_covers_pattern (decl : RemoteAccessDeclaration) (p : DetectedPattern) : bool :=
  match category p with
  | ImportPattern => observed_matches_declared (pattern p) (declared_import_patterns decl)
  | FunctionCall => observed_matches_declared (pattern p) (function_calls decl)
  | NetworkSink => true
  | UrlLiteral =>
      match extract_host_from_url_literal (pattern p) with
      | Some host => declaration_allows_target parse_url decl host (Some (pattern p))
      | None => false
      end
  | IpAddress | HostConstant => declaration_allows_target parse_url decl (pattern p) None
  | NetworkCommand =>
      if is_package_manager_command_pattern (pattern p)
      then observed_matches_declared (pattern p) (package_manager_commands decl)
      else observed_matches_declared (pattern p) (shell_commands decl)
  | DependencyInstall => match package_manager_commands decl with [] => false | _ => true end
  end.

Definition undeclared_patterns_against_manifest (patterns : list DetectedPattern)
    (declaration : option RemoteAccessDeclaration) : list DetectedPattern :=
  match declaration with
  | None => []
  | Some decl => List.filter (λ p, negb (declaration_covers_pattern decl p))
                   (List.filter (λ p, is_gating (category p)) patterns)
  end.

Definition advisory_undeclared_patterns (patterns : list DetectedPattern)
    (declaration : option RemoteAccessDeclaration) : list DetectedPattern :=
  match declaration with
  | None => []
  | Some decl => List.filter (λ p, negb (declaration_covers_pattern decl p))
                   (List.filter (λ p, is_advisory (category p)) patterns)
  end.

(** [approved_exec_cache::normalize_targets]: the host one pattern names. *)
Definition pattern_host (p : DetectedPattern) : option string :=
  match category p with
  | UrlLiteral => extract_host_from_url (pattern p)
  | IpAddress => Some (pattern p)
  | HostConstant =>
      let host := normalize_host (pattern p) in if str_is_empty host then None else Some host
  | _ => None
  end.

Definition normalize_targets (patterns : list DetectedPattern) : list string :=
  sort_by String.compare (fold_left (push_unless String.eqb) (omap pattern_host patterns) []).
End Coverage.

(** ** The detectors *)

Section Detectors.
Context (captures_iter : string → string → list (list (option (nat * nat)))).
Context (regex_escape : string → string).
Context (is_ip : string → bool).
Context (set_order : list string → list string).

Definition mk_pattern (cat : DetectedPatternCategory) (pat : string) (line : nat) (why : string)
    : DetectedPattern :=
  {| category := cat; pattern := pat; line_number := Some line; dp_reason := why |}.

Definition same_place (p q : DetectedPattern) : bool :=
  (pattern p =? pattern q)%string && bool_decide (line_number p = line_number q).

(** [push_unique_pattern] for every match of [regex]. *)
Definition collect_regex_matches (code regex : string) (cat : DetectedPatternCategory)
    (why : string) (patterns : list DetectedPattern) : list DetectedPattern :=
  fold_left (push_unless same_place)
    ((λ '(a, b), mk_pattern cat (trim (slice code a b)) (line_of code a) why)
       <$> find_iter captures_iter regex code) patterns.

Definition collect_all (code : string) (cat : DetectedPatternCategory)
    (regexes : list (string * string)) : list DetectedPattern :=
  fold_left (λ ps rw, collect_regex_matches code rw.1 cat rw.2 ps) regexes [].

Definition PYTHON_LIBS : list (string * string) :=
  [("requests", "HTTP client library"); ("urllib", "URL handling library");
   ("urllib.request", "URL request library"); ("urllib3", "HTTP client library");
   ("httpx", "Async HTTP client library"); ("aiohttp", "Async HTTP client library");
   ("socket", "Low-level networking library"); ("ftplib", "FTP client library");
   ("imaplib", "IMAP client library"); ("poplib", "POP3 client library");
   ("nntplib", "NNTP client library"); ("telnetlib", "Telnet client library");
   ("smtplib", "SMTP client library"); ("paramiko", "SSH client library");
   ("fabric", "SSH execution library"); ("websockets", "WebSocket client library");
   ("redis", "Redis client library"); ("pymongo", "MongoDB client library");
   ("mysql", "MySQL client library"); ("psycopg", "PostgreSQL client library");
   ("sqlalchemy", "SQL toolkit (can connect to remote DBs)");
   ("boto3", "AWS SDK (cloud access)"); ("google.cloud", "Google Cloud SDK");
   ("azure", "Azure SDK")].

Definition python_import_regex (lib : string) : string :=
  ("(?m)^\s*(?:import\s+" ++ regex_escape lib ++ "|from\s+" ++ regex_escape lib ++ "\s+import)")%string.

Definition JS_MODULES : string := "(axios|node-fetch|undici|got|ws|http|https|net|tls)".

Definition JS_IMPORT_REGEXES : list (string * string) :=
  [(("(?m)^\s*import\s+.*\s+from\s+" ++ quote_class ++ JS_MODULES ++ quote_class)%string,
    "JS/TS network-capable module import");
   (("(?m)^\s*import\s+" ++ quote_class ++ JS_MODULES ++ quote_class)%string,
    "JS/TS side-effect module import");
   (("(?m)^\s*(?:const|let|var)\s+\w+\s*=\s*require\(" ++ quote_class ++ JS_MODULES
      ++ quote_class ++ "\)")%string,
    "JS/TS require() of network-capable module")].

Definition RUST_IMPORT_REGEXES : list (string * string) :=
  [("(?m)^\s*use\s+(reqwest|hyper|ureq|tokio::net|std::net|tokio_tungstenite|redis)(::|;)",
    "Rust use import for network-capable crate/module");
   ("(?m)^\s*extern\s+crate\s+(reqwest|hyper|ureq|redis)\s*;",
    "Rust extern crate network-capable import")].

Definition go_import (path : string) : string :=
  ("(?m)^\s*(?:\w+\s+)?" ++ dq ++ path ++ dq ++ "\s*$")%string.

Definition GO_IMPORT_REGEXES : list (string * string) :=
  [(go_import "net/http", "Go net/http import"); (go_import "net", "Go net import");
   (go_import "golang\.org/x/net/websocket", "Go x/net/websocket import");
   (go_import "google\.golang\.org/grpc", "Go gRPC import")].

(** [import_detector_registry] with each detector's [detect]. *)
Definition import_regexes (lang : RemoteAccessLanguage) : list (string * string) :=
  match lang with
  | LangPython => (λ '(lib, why), (python_import_regex lib, why)) <$> PYTHON_LIBS
  | LangJavascript => JS_IMPORT_REGEXES
  | LangRust => RUST_IMPORT_REGEXES
  | LangGo => GO_IMPORT_REGEXES
  end.

Definition import_detect (lang : RemoteAccessLanguage) (code : string) : list DetectedPattern :=
  collect_all code ImportPattern (import_regexes lang).

Definition import_detector_registry : list RemoteAccessLanguage :=
  [LangPython; LangJavascript; LangRust; LangGo].

(** A set of languages is a duplicate-free or any list of them: only membership
    is asked. *)
Definition enabled_import_languages (declaration : option RemoteAccessDeclaration)
    : option (list RemoteAccessLanguage) :=
  decl ← declaration;
  match enabled_languages decl with [] => None | l => Some l end.

Record ImportScan := {
  scan_patterns : list DetectedPattern;
  scan_languages : list RemoteAccessLanguage;
}.

Definition language_enabled (set : option (list RemoteAccessLanguage)) (lang : RemoteAccessLanguage)
    : bool :=
  match set with None => true | Some l => bool_decide (lang ∈ l) end.

Definition scan_language (code : string) (enabled : option (list RemoteAccessLanguage))
    (scan : ImportScan) (lang : RemoteAccessLanguage) : ImportScan :=
  if negb (language_enabled enabled lang) then scan
  else
    let detected := import_detect lang code in
    {| scan_patterns := fold_left (push_unless same_place) detected (scan_patterns scan);
       scan_languages := match detected with
                         | [] => scan_languages scan
                         | _ => scan_languages scan ++ [lang]
                         end |}.

Definition detect_imports (code : string) (enabled : option (list RemoteAccessLanguage))
    : ImportScan :=
  fold_left (scan_language code enabled) import_detector_registry
    {| scan_patterns := []; scan_languages := [] |}.

Definition language_scope_for_code (enabled : option (list RemoteAccessLanguage))
    (import_signal : list RemoteAccessLanguage) : option (list RemoteAccessLanguage) :=
  match enabled with
  | Some (l :: ls) => Some (l :: ls)
  | _ => match import_signal with [] => None | _ => Some import_signal end
  end.

Definition pattern_applies_in_scope (tag : option RemoteAccessLanguage)
    (active : option (list RemoteAccessLanguage)) : bool :=
  match tag with None => true | Some lang => language_enabled active lang end.

Definition detect_network_sinks (code : string) (active : option (list RemoteAccessLanguage))
    : list DetectedPattern :=
  let found :=
    (if pattern_applies_in_scope (Some LangPython) active
     then detect_python_sinks captures_iter code else [])
    ++ (if pattern_applies_in_scope (Some LangJavascript) active
        then detect_javascript_sinks captures_iter code else []) in
  fold_left (push_unless same_place)
    ((λ s, mk_pattern NetworkSink (sink s) (sink_line s)
        (if (matched s =? sink s)%string then sink_reason s
         else sink_reason s ++ " (via `" ++ matched s ++ "`)")%string) <$> found) [].

Definition detect_host_constants (code : string) (active : option (list RemoteAccessLanguage))
    : list DetectedPattern :=
  let found :=
    (if pattern_applies_in_scope (Some LangPython) active
     then resolve_python_host_constants captures_iter is_ip code else [])
    ++ (if pattern_applies_in_scope (Some LangJavascript) active
        then resolve_javascript_host_constants captures_iter is_ip code else []) in
  fold_left (push_unless same_place)
    ((λ rc, mk_pattern HostConstant (rc_host rc) (rc_line rc)
        ("Hostname constant `" ++ rc_ident rc ++ "` passed to " ++ rc_sink rc
          ++ " resolves a concrete target")%string) <$> found) [].

Definition http_verbs : string := "(get|post|put|delete|patch|head|options)\s*\(".

Definition CALL_PATTERNS : list (option RemoteAccessLanguage * string * string) :=
  [(None, "\.connect\s*\(", "Socket connection initiation");
   (None, "\.send\s*\(", "Sending data over network");
   (None, "\.recv\s*\(", "Receiving data from network");
   (None, "\.bind\s*\(", "Socket binding");
   (None, "\.listen\s*\(", "Socket listening");
   (None, "\.accept\s*\(", "Socket accept connection");
   (Some LangPython, "urlopen\s*\(", "Opening URL connection");
   (Some LangPython, ("requests\." ++ http_verbs)%string, "HTTP request");
   (Some LangPython, ("httpx\." ++ http_verbs)%string, "HTTP request");
   (None, "\.get\s*\(.*http", "HTTP GET request");
   (None, "\.post\s*\(.*http", "HTTP POST request");
   (Some LangJavascript, ("axios\." ++ http_verbs)%string, "Axios HTTP request");
   (Some LangJavascript, "(http|https)\.(get|request)\s*\(", "Node HTTP/HTTPS request");
   (Some LangJavascript, "net\.connect\s*\(", "Node net.connect call");
   (Some LangJavascript, "WebSocket\s*\(", "WebSocket connection");
   (None, "connect\s*\(.*ws://", "WebSocket connection");
   (None, "connect\s*\(.*wss://", "Secure WebSocket connection");
   (Some LangRust, "(reqwest|ureq)::(get|post|put|delete|patch|head)\s*\(",
    "Rust HTTP request function call");
   (Some LangRust, "(std::net|tokio::net)::TcpStream::connect\s*\(", "Rust TCP stream connect call");
   (Some LangGo, "http\.(Get|Post|Head)\s*\(", "Go net/http request call");
   (Some LangGo, "\.Do\s*\(", "HTTP client Do() call")].

Definition is_word_byte (c : ascii) : bool := is_ascii_alphanumeric c || (c =? "_")%char.

Definition GLOBAL_FETCH_RECEIVERS : list string := ["globalThis"; "window"; "self"].

(** [while start > 0 && word(bytes\[start - 1\]) { start -= 1 }]. *)
Fixpoint receiver_start (code : string) (start : nat) : nat :=
  match start with
  | O => 0
  | S s => match String.get s code with
           | Some c => if is_word_byte c then receiver_start code s else start
           | None => start
           end
  end.

Definition is_global_fetch_receiver (code : string) (fetch_pos : nat) : bool :=
  if fetch_pos <? 2 then false
  else
    let e := fetch_pos - 2 in
    match String.get e code with
    | Some c =>
        if negb (is_word_byte c) then false
        else existsb (String.eqb (slice code (receiver_start code e) (e + 1))) GLOBAL_FETCH_RECEIVERS
    | None => false
    end.

(** The byte before a [fetch(] makes it a method or part of another name. *)
Definition prev_is_method_context (code : string) (start : nat) : bool :=
  match start with
  | O => false
  | S i => match String.get i code with
           | Some c =>
               if (c =? ".")%char then negb (is_global_fetch_receiver code start)
               else (c =? "]")%char || (c =? ")")%char || is_word_byte c
           | None => false
           end
  end.

Definition detect_function_calls (code : string) (active : option (list RemoteAccessLanguage))
    : list DetectedPattern :=
  let patterns := fold_left (λ ps '(tag, re, why),
    if pattern_applies_in_scope tag active
    then collect_regex_matches code re FunctionCall why ps else ps) CALL_PATTERNS [] in
  if pattern_applies_in_scope (Some LangJavascript) active
  then fold_left (push_unless same_place)
         ((λ '(a, b), mk_pattern FunctionCall (trim (slice code a b)) (line_of code a) "Fetch API call")
            <$> List.filter (λ sp, negb (prev_is_method_context code sp.1))
                  (find_iter captures_iter "fetch\s*\(" code)) patterns
  else patterns.

Definition URL_RE : string :=
  ("(https?|ftp)://[^\s" ++ dq ++ "'`,;)}\]]+")%string.

Definition skipped_url (url : string) : bool := contains url "example.com" || contains url "localhost".

Definition detect_url_literals (code : string) : list DetectedPattern :=
  omap (λ '(a, b),
    let url := slice code a b in
    if skipped_url url then None
    else Some (mk_pattern UrlLiteral url (line_of code a)
                 "URL literal indicates external resource access"))
    (find_iter captures_iter URL_RE code).

Definition IP_RE : string :=
  "\b(?:(?:25[0-5]|2[0-4][0-9]|[01]?[0-9][0-9]?)\.){3}(?:25[0-5]|2[0-4][0-9]|[01]?[0-9][0-9]?)\b".

Definition detect_ip_addresses (code : string) : list DetectedPattern :=
  omap (λ '(a, b),
    let ip := slice code a b in
    if starts_with ip "127." || (ip =? "0.0.0.0")%string then None
    else Some (mk_pattern IpAddress ip (line_of code a)
                 "IP address literal indicates external network access"))
    (find_iter captures_iter IP_RE code).

Definition COMMAND_PATTERNS : list (string * string) :=
  [("pip install", "pip install downloads packages from the network");
   ("pip3 install", "pip3 install downloads packages from the network");
   ("npm install", "npm install downloads packages from the network");
   ("yarn install", "yarn install downloads packages from the network");
   ("yarn add", "yarn add downloads packages from the network");
   ("pnpm install", "pnpm install downloads packages from the network");
   ("bun install", "bun install downloads packages from the network");
   ("go get", "go get downloads modules from the network");
   ("go mod download", "go mod download fetches modules from the network");
   ("cargo install", "cargo install downloads crates from the network");
   ("gem install", "gem install downloads gems from the network");
   ("composer install", "composer install downloads packages from the network");
   ("composer require", "composer require downloads packages from the network");
   ("curl ", "curl makes network requests");
   ("wget ", "wget downloads files from the network");
   ("apt-get install", "apt-get install downloads packages from the network");
   ("apt-get update", "apt-get update fetches package lists from the network");
   ("apk add", "apk add downloads packages from the network");
   ("yum install", "yum install downloads packages from the network");
   ("dnf install", "dnf install downloads packages from the network");
   ("pacman -S", "pacman -S downloads packages from the network");
   ("getent hosts", "getent hosts performs DNS resolution over the network");
   ("dig ", "dig performs DNS queries over the network");
   ("nslookup ", "nslookup performs DNS queries over the network");
   ("host ", "host performs DNS lookups over the network");
   ("git clone", "git clone fetches a repository from the network");
   ("git fetch", "git fetch contacts a remote repository");
   ("git pull", "git pull fetches and merges from a remote");
   ("git push", "git push sends commits to a remote")].

(** The first line that holds the command. *)
Definition first_line_with (code pat : string) : option nat :=
  find_map (λ '(i, line), if contains line pat then Some (i + 1) else None)
    (imap pair (str_lines code)).

Definition detect_network_commands (code : string) : list DetectedPattern :=
  fold_left (push_unless (λ p q, (pattern p =? pattern q)%string))
    (omap (λ '(pat, why),
       line ← first_line_with code pat; Some (mk_pattern NetworkCommand (trim pat) line why))
       COMMAND_PATTERNS) [].

(** ** The composition *)

Definition detected_summary (patterns : list DetectedPattern) : string :=
  ("Detected " ++ show_N (N.of_nat (length patterns)) ++ " remote access pattern(s) in categories: "
   ++ join ", " (set_order (remove_dups ((λ p, category_as_str (category p)) <$> patterns))))%string.

Definition analysis_patterns (code : string) (declaration : option RemoteAccessDeclaration)
    : list DetectedPattern :=
  let enabled_imports := enabled_import_languages declaration in
  let import_scan := detect_imports code enabled_imports in
  let active_languages := language_scope_for_code enabled_imports (scan_languages import_scan) in
  scan_patterns import_scan
  ++ detect_function_calls code active_languages
  ++ detect_network_sinks code active_languages
  ++ detect_host_constants code active_languages
  ++ detect_url_literals code
  ++ detect_ip_addresses code
  ++ detect_network_commands code.

Definition analyze_code_with_declaration (code : string)
    (declaration : option RemoteAccessDeclaration) : RemoteAccessAnalysis :=
  let patterns := analysis_patterns code declaration in
  {| requires_approval := match patterns with [] => false | _ => true end;
     detected_patterns := patterns;
     summary := match patterns with
                | [] => "No remote access patterns detected"
                | _ => detected_summary patterns
                end |}.

Definition analyze_code (code : string) : RemoteAccessAnalysis :=
  analyze_code_with_declaration code None.

Definition dependency_pattern (packages : list string) : DetectedPattern :=
  {| category := DependencyInstall;
     pattern := ("packages: [" ++ join ", " packages ++ "]")%string;
     line_number := None;
     dp_reason := ("Package installation (" ++ show_N (N.of_nat (length packages))
                   ++ " package(s)) requires network access")%string |}.

Definition analyze_command_and_dependencies_with_declaration (code : string)
    (dep_packages : option (list string)) (declaration : option RemoteAccessDeclaration)
    : RemoteAccessAnalysis :=
  let a := analyze_code_with_declaration code declaration in
  let a := match dep_packages with
           | Some (k :: ks) =>
               {| requires_approval := true;
                  detected_patterns := detected_patterns a ++ [dependency_pattern (k :: ks)];
                  summary := summary a |}
           | _ => a
           end in
  match detected_patterns a with
  | [] => a
  | ps => {| requires_approval := requires_approval a; detected_patterns := ps;
             summary := detected_summary ps |}
  end.
End Detectors.
