(* ===== verification/NetworkContract.v ===== *)
(** * The network host contract of a revision

    The model of the detection and the validation of
    [autonoetic-gateway/src/runtime/network_host_contract.rs]: the hosts the files
    of an artifact name, and the check that the declared [NetworkAccess] patterns
    cover every one of them.  The analyser is [RemoteAccess.analyze_code] over the
    regex engine [captures_iter].  A [BTreeMap] of files is an association list in
    key order, a [BTreeSet] walked in order a sorted list without duplicates. *)

From Stdlib Require Import Ascii String Lia.
From stdpp Require Import prelude strings list.
From S2P Require Import Prelude RustStr Capability CausalChain NetworkSinks NetworkPolicy RemoteAccess.

Open Scope string_scope.
Open Scope nat_scope.
Open Scope list_scope.

(** ** Paths *)

(** [Path::file_name]: the last component that is not [.], unless it is [..]. *)
Definition file_name (path : string) : option string :=
  f ← last (List.filter (λ c, negb (str_is_empty c || (c =? ".")%string)) (split (Ascii.eqb "/") path));
  if (f =? "..")%string then None else Some f.

(** [Path::extension]: what follows the last dot, unless nothing precedes it. *)
Definition extension (path : string) : option string :=
  f ← file_name path;
  i ← rfind_char f ".";
  if i =? 0 then None else Some (skip (i + 1) f).

Definition SCANNED_EXTENSIONS : list string :=
  ["py"; "js"; "ts"; "rs"; "go"; "java"; "kt"; "swift"; "c"; "cpp"; "h"; "sh"; "bash"; "yaml";
   "yml"; "json"; "toml"].

Definition is_scanned (path : string) : bool :=
  existsb (String.eqb (default "" (extension path))) SCANNED_EXTENSIONS.

Record HostContractValidation := {
  detected_hosts : list string;
  superfluous_hosts : list string;
}.

Record HostContractValidationError := {
  undeclared_hosts : list string;
  suggested_hosts : list string;
}.

Definition is_local_name (host : string) : bool :=
  (host =? "localhost")%string || ends_with host ".localhost".

Section Contract.
Context (captures_iter : string → string → list (list (option (nat * nat)))).
Context (regex_escape : string → string).
Context (is_ip : string → bool).
Context (set_order : list string → list string).

(** The host one detected pattern adds to the contract. *)
Definition contract_host (p : DetectedPattern) : option string :=
  match category p with
  | UrlLiteral =>
      host ← extract_host_from_url_literal captures_iter (pattern p);
      if str_is_empty host || is_local_name host then None else Some host
  | IpAddress =>
      let host := to_lowercase (trim (pattern p)) in
      if str_is_empty host || starts_with host "127." || (host =? "0.0.0.0")%string then None
      else Some host
  | HostConstant =>
      let host := normalize_host (pattern p) in
      if str_is_empty host || is_local_name host then None else Some host
  | _ => None
  end.

Definition file_hosts (file : string * string) : list string :=
  let '(path, bytes) := file in
  if negb (is_scanned path) then []
  else if negb (utf8_valid bytes) then []
  else omap contract_host
         (RemoteAccess.detected_patterns
            (analyze_code captures_iter regex_escape is_ip set_order bytes)).

Definition detect_network_hosts_from_file_map (file_map : list (string * string)) : list string :=
  sort_by String.compare (remove_dups (file_map ≫= file_hosts)).

Definition validate_network_host_contract (capabilities : list Capability)
    (file_map : list (string * string)) (open_web : bool)
    : result HostContractValidation HostContractValidationError :=
  let detected := detect_network_hosts_from_file_map file_map in
  let declared_patterns := declared_network_hosts capabilities in
  let has_universal_wildcard := existsb is_star declared_patterns in
  if has_universal_wildcard && negb open_web
  then Err {| undeclared_hosts := detected; suggested_hosts := detected |}
  else
    let undeclared := List.filter (λ host,
      negb (existsb (λ declared, capability_host_allows declared host) declared_patterns)) detected in
    match undeclared with
    | _ :: _ => Err {| undeclared_hosts := undeclared; suggested_hosts := detected |}
    | [] =>
        let superfluous := List.filter (λ declared,
          let declared := trim declared in
          if str_is_empty declared || (declared =? "*")%string then false
          else negb (existsb (capability_host_allows declared) detected)) declared_patterns in
        Ok {| detected_hosts := detected; superfluous_hosts := superfluous |}
    end.
End Contract.
