(* ===== verification/ExecCache.v ===== *)
(** * Replayed approvals

    The model of [autonoetic-gateway/src/runtime/approved_exec_cache.rs].

    The cache is its index file: [None] when the file does not exist, and every
    operation takes whether the write that [flush] makes succeeds; [new] reads the
    file again for each use, as the code does, so the state between two uses is
    the file.  [sha256_hex] is the hasher, [capability_json] serde's rendering of a
    capability, [parse_rfc3339] chrono's reader (in seconds) and [add_seconds] its
    addition of a duration to a date ([None] when it panics); the clock is an
    argument. *)

From Stdlib Require Import Ascii String ZArith Lia.
From stdpp Require Import prelude gmap strings list.
From S2P Require Import Prelude RustStr Capability CausalChain.

Open Scope string_scope.
Open Scope nat_scope.
Open Scope list_scope.

(** ** The approved-exec cache *)

Record ApprovedExecEntry := {
  fingerprint : string;
  e_agent_id : string;
  remote_targets : list string;
  code_content : string;
  approval_request_id : string;
  approved_at : string;
  approved_by : string;
  last_used_at : string;
}.

Abbreviation Entries := (gmap string ApprovedExecEntry).

(** The cache a process holds, over the file on disk. *)
Record ExecCache := {
  entries : Entries;
  on_disk : option Entries;
}.

Definition DEFAULT_GRANT_TTL_SECS : Z := 86400.

Definition cache_ttl_secs (config_ttl : option Z) : Z := default DEFAULT_GRANT_TTL_SECS config_ttl.

(** [ApprovedExecCache::new]: what is on disk, or nothing. *)
Definition new_cache (disk : option Entries) : ExecCache :=
  {| entries := default ∅ disk; on_disk := disk |}.

Definition flush (flush_ok : bool) (es : Entries) (disk : option Entries) : result unit unit * option Entries :=
  if flush_ok then (Ok (), Some es) else (Err (), disk).

(** [record]: the entry is in memory also when the write fails. *)
Definition record (c : ExecCache) (entry : ApprovedExecEntry) (flush_ok : bool)
    : result unit unit * ExecCache :=
  let es := <[fingerprint entry := entry]> (entries c) in
  let '(r, disk) := flush flush_ok es (on_disk c) in
  (r, {| entries := es; on_disk := disk |}).

Section Cache.
Context (parse_rfc3339 : string → option Z).
Context (add_seconds : Z → Z → option Z).

(** [i64::try_from(ttl_secs).unwrap_or(i64::MAX)]. *)
Definition ttl_i64 (ttl_secs : Z) : Z := Z.min ttl_secs (2 ^ 63 - 1).

(** The largest [chrono::Duration] in seconds: [Duration::seconds] is documented
    to panic beyond it. *)
Definition MAX_DURATION_SECS : Z := (2 ^ 63 - 1) / 1000.

(** [None] is the panic of [Duration::seconds], or of adding it to a date. *)
Definition is_expired (entry : ApprovedExecEntry) (ttl_secs now : Z) : option bool :=
  if (ttl_secs =? 0)%Z then Some false
  else match parse_rfc3339 (approved_at entry) with
       | None => Some true
       | Some approved =>
           let ttl := ttl_i64 ttl_secs in
           if (MAX_DURATION_SECS <? ttl)%Z then None
           else expiry ← add_seconds approved ttl; Some (expiry <=? now)%Z
       end.

(** [find]: an expired entry is pruned, and the prune is written back; a failed
    write is only logged. *)
Definition find (c : ExecCache) (fp : string) (ttl_secs now : Z) (flush_ok : bool)
    : option (option ApprovedExecEntry * ExecCache) :=
  match entries c !! fp with
  | None => Some (None, c)
  | Some e =>
      expired ← is_expired e ttl_secs now;
      if expired : bool
      then let es := delete fp (entries c) in
           Some (None, {| entries := es; on_disk := (flush flush_ok es (on_disk c)).2 |})
      else Some (Some e, c)
  end.

Definition remove (c : ExecCache) (fp : string) (flush_ok : bool) : result bool unit * ExecCache :=
  match entries c !! fp with
  | None => (Ok false, c)
  | Some _ =>
      let es := delete fp (entries c) in
      let '(r, disk) := flush flush_ok es (on_disk c) in
      (match r with Ok _ => Ok true | Err e => Err e end, {| entries := es; on_disk := disk |})
  end.

Definition clear (c : ExecCache) (flush_ok : bool) : result nat unit * ExecCache :=
  let n := size (entries c) in
  if 0 <? n then
    let '(r, disk) := flush flush_ok ∅ (on_disk c) in
    (match r with Ok _ => Ok n | Err e => Err e end, {| entries := ∅; on_disk := disk |})
  else (Ok n, c).

Definition touch (now_text : string) (e : ApprovedExecEntry) : ApprovedExecEntry :=
  {| fingerprint := fingerprint e; e_agent_id := e_agent_id e; remote_targets := remote_targets e;
     code_content := code_content e; approval_request_id := approval_request_id e;
     approved_at := approved_at e; approved_by := approved_by e; last_used_at := now_text |}.

Definition update_last_used (c : ExecCache) (fp now_text : string) (flush_ok : bool)
    : result unit unit * ExecCache :=
  match entries c !! fp with
  | None => (Ok (), c)
  | Some e =>
      let es := <[fp := touch now_text e]> (entries c) in
      let '(r, disk) := flush flush_ok es (on_disk c) in
      (r, {| entries := es; on_disk := disk |})
  end.

(** ** Backfill *)

Record ApprovedExecCacheBackfill := {
  bf_fingerprint : string;
  bf_agent_id : string;
  bf_remote_targets : list string;
  bf_code_content : string;
  bf_approval_request_id : string;
  bf_ttl_secs : Z;
}.

Definition backfill_entry (b : ApprovedExecCacheBackfill) (now_text : string) : ApprovedExecEntry :=
  {| fingerprint := bf_fingerprint b; e_agent_id := bf_agent_id b;
     remote_targets := bf_remote_targets b; code_content := bf_code_content b;
     approval_request_id := bf_approval_request_id b; approved_at := now_text;
     approved_by := "operator"; last_used_at := now_text |}.

(** [record_if_missing]: the state is the file. *)
Definition record_if_missing (b : ApprovedExecCacheBackfill) (disk : option Entries)
    (now : Z) (now_text : string) (prune_ok flush_ok : bool)
    : option (result unit unit * option Entries) :=
  '(hit, c) ← find (new_cache disk) (bf_fingerprint b) (bf_ttl_secs b) now prune_ok;
  match hit with
  | Some _ => Some (Ok (), on_disk c)
  | None => let '(r, c) := record c (backfill_entry b now_text) flush_ok in Some (r, on_disk c)
  end.

(** ** The uses of the cache, each on a cache read from the file *)

Inductive CacheUse : Type :=
| GatedLookup (fp : string) (ttl : Z)
| Backfill (b : ApprovedExecCacheBackfill)
| Revoke (fp : string)
| RevokeAll.

Record CacheEvent := {
  ev_use : CacheUse;
  ev_now : Z;
  ev_text : string;
  ev_write1 : bool;
  ev_write2 : bool;
}.

(** The lookup of [sandbox_exec] (a hit is touched), the backfill of a clearance,
    and the revocations of the operator; the entry is the hit. *)
Definition cache_step (disk : option Entries) (ev : CacheEvent)
    : option (option ApprovedExecEntry * option Entries) :=
  match ev_use ev with
  | GatedLookup fp ttl =>
      '(hit, c) ← find (new_cache disk) fp ttl (ev_now ev) (ev_write1 ev);
      match hit with
      | Some e => Some (Some e, on_disk (update_last_used c fp (ev_text ev) (ev_write2 ev)).2)
      | None => Some (None, on_disk c)
      end
  | Backfill b =>
      '(_, disk) ← record_if_missing b disk (ev_now ev) (ev_text ev) (ev_write1 ev) (ev_write2 ev);
      Some (None, disk)
  | Revoke fp => Some (None, on_disk (remove (new_cache disk) fp (ev_write1 ev)).2)
  | RevokeAll => Some (None, on_disk (clear (new_cache disk) (ev_write1 ev)).2)
  end.

Inductive cache_run : list CacheEvent → option Entries → Prop :=
| run_start : cache_run [] None
| run_step evs disk ev o disk' :
    cache_run evs disk → cache_step disk ev = Some (o, disk') → cache_run (evs ++ [ev]) disk'.
End Cache.

(** ** The fingerprint *)

Section Fingerprint.
Context (sha256_hex : string → string).
Context (capability_json : Capability → string).

(** [(n as u64).to_le_bytes()]. *)
Fixpoint le_bytes (k : nat) (n : N) : string :=
  match k with
  | O => ""
  | S k => String (ascii_of_N (n mod 256)) (le_bytes k (n / 256))
  end.

Definition length_prefixed (r : string) : string :=
  (le_bytes 8 (N.of_nat (String.length r)) ++ r)%string.

Definition capability_preimage (capabilities : list Capability) : string :=
  String.concat "" (length_prefixed <$> sort_by String.compare (capability_json <$> capabilities)).

Definition capability_digest (capabilities : list Capability) : string :=
  sha256_hex (capability_preimage capabilities).

(** What is fed to the hasher. *)
Definition fingerprint_preimage (agent_id : string) (targets : list string)
    (code_to_analyze : string) (artifact_canonical_digest : option string)
    (capabilities : list Capability) : string :=
  (agent_id ++ "|" ++ join "," targets ++ "|"
   ++ match artifact_canonical_digest with
      | Some canonical => "artifact:" ++ canonical
      | None => "code:" ++ code_to_analyze
      end ++ "|caps:" ++ capability_digest capabilities)%string.

Definition compute_fingerprint (agent_id : string) (targets : list string)
    (code_to_analyze : string) (artifact_canonical_digest : option string)
    (capabilities : list Capability) : string :=
  ("sha256:" ++ sha256_hex (fingerprint_preimage agent_id targets code_to_analyze
                              artifact_canonical_digest capabilities))%string.
End Fingerprint.

(** ** A hit stands for a recent clearance *)

(** Chrono adds exactly, when it adds. *)
Class AddSeconds (add_seconds : Z → Z → option Z) : Prop :=
  add_exact a b c : add_seconds a b = Some c → c = (a + b)%Z.

Section Live.
Context (parse_rfc3339 : string → option Z) (add_seconds : Z → Z → option Z).
Context `{!AddSeconds add_seconds}.

Notation find := (find parse_rfc3339 add_seconds).
Notation record_if_missing := (record_if_missing parse_rfc3339 add_seconds).

(** An entry that may stand for an approval at [now]. *)
Definition live (ttl now : Z) (e : ApprovedExecEntry) : Prop :=
  ttl = 0%Z ∨ ∃ a, parse_rfc3339 (approved_at e) = Some a ∧ (now < a + ttl)%Z.

Lemma is_expired_live e ttl now :
  (0 ≤ ttl)%Z → is_expired parse_rfc3339 add_seconds e ttl now = Some false → live ttl now e.
Proof.
  intros Ht. unfold is_expired, live. destruct (Z.eqb_spec ttl 0) as [->|Hne]; [by left|].
  destruct (parse_rfc3339 _) as [a|]; [|done]. cbv zeta.
  destruct (MAX_DURATION_SECS <? ttl_i64 ttl)%Z eqn:Em; [done|].
  destruct (add_seconds _ _) as [x|] eqn:Ea; simpl; [|done]. apply add_exact in Ea as ->.
  intros [= Hx%Z.leb_gt]. right. exists a. split; [done|]. unfold ttl_i64 in Hx. lia.
Qed.

Lemma find_hit c fp ttl now ok e c' :
  (0 ≤ ttl)%Z → find c fp ttl now ok = Some (Some e, c') →
  entries c !! fp = Some e ∧ live ttl now e ∧ c' = c.
Proof.
  intros Ht. unfold ExecCache.find. destruct (entries c !! fp) as [x|] eqn:E; [|done].
  destruct (is_expired _ _ _ _ _) as [[]|] eqn:Ex; simpl; [done| |done].
  intros [= -> <-]. by eauto using is_expired_live.
Qed.

(** An entry is dropped from the cache by [find] exactly when it is not live. *)
Lemma find_miss c fp ttl now ok c' :
  find c fp ttl now ok = Some (None, c') → entries c' !! fp = None.
Proof.
  unfold ExecCache.find. destruct (entries c !! fp) as [x|] eqn:E; [|by intros [= <-]].
  destruct (is_expired _ _ _ _ _) as [[]|]; simpl; [|done..].
  intros [= <-]. apply lookup_delete_eq.
Qed.

(** Every entry on disk was written by a clearance at the time it claims. *)
Definition backed (evs : list CacheEvent) (es : Entries) : Prop :=
  ∀ k e, es !! k = Some e →
  ∃ ev b, ev ∈ evs ∧ ev_use ev = Backfill b ∧ bf_fingerprint b = k ∧ approved_at e = ev_text ev.

Lemma backed_mono evs ev es : backed evs es → backed (evs ++ [ev]) es.
Proof. intros H k e Hk. destruct (H k e Hk) as (x & b & ? & ? & ? & ?). exists x, b. set_solver. Qed.
Lemma backed_empty evs : backed evs ∅.
Proof. intros k e. by rewrite lookup_empty. Qed.
Lemma backed_delete evs es k : backed evs es → backed evs (delete k es).
Proof. intros H k' e [_ Hk]%lookup_delete_Some. by apply H. Qed.

Lemma backed_touch evs es fp text e :
  backed evs es → es !! fp = Some e → backed evs (<[fp := touch text e]> es).
Proof.
  intros H He k e' [[<- <-]|[_ Hk]]%lookup_insert_Some; [|by apply H]. simpl. by apply H.
Qed.

Lemma backed_new evs disk :
  (∀ es, disk = Some es → backed evs es) → backed evs (entries (new_cache disk)).
Proof. intros H. destruct disk as [es|]; simpl; [by apply H|apply backed_empty]. Qed.

#[local] Hint Resolve backed_mono backed_empty backed_delete backed_touch backed_new : backed.

Lemma flush_disk ok es disk es' (P : Entries → Prop) :
  (flush ok es disk).2 = Some es' → P es → (∀ e, disk = Some e → P e) → P es'.
Proof. destruct ok; simpl; naive_solver. Qed.

Lemma find_disk c fp ttl now ok o c' (P : Entries → Prop) :
  find c fp ttl now ok = Some (o, c') → (∀ es k, P es → P (delete k es)) →
  P (entries c) → (∀ es, on_disk c = Some es → P es) →
  P (entries c') ∧ ∀ es, on_disk c' = Some es → P es.
Proof.
  unfold ExecCache.find. intros H Hdel HP Hd. destruct (entries c !! fp); [|by injection H as _ <-].
  destruct (is_expired _ _ _ _ _) as [[]|]; simpl in H; [|by injection H as _ <-|done].
  injection H as _ <-. simpl. split; [by apply Hdel|]. intros es Hes.
  eapply flush_disk; [exact Hes|by apply Hdel|done].
Qed.

Lemma cache_step_backed evs disk ev o disk' :
  (∀ es, disk = Some es → backed evs es) →
  cache_step parse_rfc3339 add_seconds disk ev = Some (o, disk') →
  ∀ es, disk' = Some es → backed (evs ++ [ev]) es.
Proof.
  intros Hd Hstep. assert (∀ es, disk = Some es → backed (evs ++ [ev]) es) as Hd'
    by auto with backed.
  unfold cache_step in Hstep. destruct (ev_use ev) as [fp ttl|b|fp|] eqn:Eu.
  - destruct (find _ _ _ _ _) as [[hit c]|] eqn:Ef; simpl in Hstep; [|done].
    destruct (find_disk _ _ _ _ _ _ _ (backed (evs ++ [ev])) Ef) as [He Hc];
      [auto with backed..|].
    destruct hit as [e|]; [|by injection Hstep as _ <-]. injection Hstep as _ <-.
    unfold update_last_used. destruct (entries c !! fp) as [e'|] eqn:Ee; [|done].
    destruct (flush _ _ _) as [r d] eqn:Efl. simpl. intros es ->.
    eapply (flush_disk _ _ _ es); [by rewrite Efl|by apply backed_touch|done].
  - destruct (record_if_missing _ _ _ _ _ _) as [[r d]|] eqn:Er; simpl in Hstep; [|done].
    injection Hstep as _ <-. unfold ExecCache.record_if_missing in Er.
    destruct (find _ _ _ _ _) as [[hit c]|] eqn:Ef; simpl in Er; [|done].
    destruct (find_disk _ _ _ _ _ _ _ (backed (evs ++ [ev])) Ef) as [He Hc];
      [auto with backed..|].
    destruct hit as [e|]; [by injection Er as _ <-|]. unfold record in Er.
    destruct (flush _ _ _) as [r' d'] eqn:Efl. injection Er as _ <-. simpl. intros es ->.
    eapply (flush_disk _ _ _ es); [by rewrite Efl| |done].
    intros k e [[<- <-]|[_ Hk]]%lookup_insert_Some; [|by apply He]. simpl.
    exists ev, b. set_solver.
  - injection Hstep as _ <-. unfold remove. destruct (entries _ !! fp) as [e|]; [|done].
    destruct (flush _ _ _) as [r d] eqn:Efl. simpl. intros es ->.
    eapply (flush_disk _ _ _ es); [by rewrite Efl|auto with backed|done].
  - injection Hstep as _ <-. unfold clear. destruct (0 <? _); [|done].
    destruct (flush _ _ _) as [r d] eqn:Efl. simpl. intros es ->.
    eapply (flush_disk _ _ _ es); [by rewrite Efl|auto with backed|done].
Qed.

Lemma cache_run_backed evs disk :
  cache_run parse_rfc3339 add_seconds evs disk → ∀ es, disk = Some es → backed evs es.
Proof. induction 1; [done|]. by eapply cache_step_backed. Qed.

(** C40: A hit of the approved-exec cache stands for a clearance of the same fingerprint:
    in every history of lookups, backfills, revocations and failed writes on the
    file, the entry a gated lookup finds was written by a backfill of that
    fingerprint, carries its time, and is younger than the lookup's time to live, where
    that is positive (zero disables expiry). *)
Theorem cache_hit_backed evs disk ev fp ttl e disk' :
  cache_run parse_rfc3339 add_seconds evs disk →
  (∀ x, x ∈ evs → parse_rfc3339 (ev_text x) = Some (ev_now x)) →
  ev_use ev = GatedLookup fp ttl → (0 < ttl)%Z →
  cache_step parse_rfc3339 add_seconds disk ev = Some (Some e, disk') →
  ∃ x b, x ∈ evs ∧ ev_use x = Backfill b ∧ bf_fingerprint b = fp
    ∧ approved_at e = ev_text x ∧ (ev_now ev < ev_now x + ttl)%Z.
Proof.
  intros Hrun Hclock Hu Ht Hstep. unfold cache_step in Hstep. rewrite Hu in Hstep.
  destruct (find _ _ _ _ _) as [[[e'|] c]|] eqn:Ef; simpl in Hstep; [|done..].
  injection Hstep as -> _.
  assert (0 ≤ ttl)%Z as Ht0 by lia.
  destruct (find_hit _ _ _ _ _ _ _ Ht0 Ef) as (He & [->|(a & Ha & Hlt)] & _); [lia|].
  destruct (backed_new evs disk (cache_run_backed _ _ Hrun) fp e He) as (x & b & Hx & Hb & Hf & Hat).
  exists x, b. split_and!; try done. rewrite Hat, (Hclock x Hx) in Ha. by injection Ha as ->.
Qed.

(** A revoked fingerprint is not found again before a new clearance. *)
Lemma revoked_misses disk ev fp ttl now ok o c :
  ev_use ev = Revoke fp → ev_write1 ev = true →
  ∀ x disk', cache_step parse_rfc3339 add_seconds disk ev = Some (x, disk') →
  find (new_cache disk') fp ttl now ok = Some (o, c) → o = None.
Proof.
  intros Hu Hw x disk' Hs. unfold cache_step in Hs. rewrite Hu, Hw in Hs. injection Hs as _ <-.
  intros Hf. destruct o as [e|]; [|done]. unfold ExecCache.find in Hf.
  assert (entries (new_cache (on_disk (remove (new_cache disk) fp true).2)) !! fp = None) as Hn.
  { unfold remove. destruct (entries (new_cache disk) !! fp) eqn:E; simpl; [apply lookup_delete_eq|].
    exact E. }
  by rewrite Hn in Hf.
Qed.
End Live.

#[export] Instance exact_add_seconds : AddSeconds (λ a b, Some (a + b)%Z).
Proof. by intros a b c [= <-]. Qed.

(** A clearance at 100 and a lookup at 150 that lives 100 seconds. *)
Definition demo_backfill : ApprovedExecCacheBackfill :=
  {| bf_fingerprint := "sha256:f"; bf_agent_id := "a"; bf_remote_targets := ["api.org"];
     bf_code_content := "curl api.org"; bf_approval_request_id := "r"; bf_ttl_secs := 100 |}.
Definition demo_event (u : CacheUse) (now : Z) : CacheEvent :=
  {| ev_use := u; ev_now := now; ev_text := "t"; ev_write1 := true; ev_write2 := true |}.

Lemma cache_hit_backed_witness :
  ∃ x b, x ∈ [demo_event (Backfill demo_backfill) 100] ∧ ev_use x = Backfill b
    ∧ bf_fingerprint b = "sha256:f" ∧ "t" = ev_text x ∧ (150 < ev_now x + 100)%Z.
Proof.
  pose (add := λ a b : Z, Some (a + b)%Z). pose (parse := λ _ : string, Some 100%Z).
  pose (ev := demo_event (Backfill demo_backfill) 100).
  pose (es := <["sha256:f" := backfill_entry demo_backfill "t"]> (∅ : Entries)).
  apply (cache_hit_backed parse add [ev] (Some es)
           (demo_event (GatedLookup "sha256:f" 100) 150) "sha256:f" 100
           (backfill_entry demo_backfill "t")
           (Some (<["sha256:f" := touch "t" (backfill_entry demo_backfill "t")]> es))).
  - apply (run_step parse add [] None ev None (Some es)); [constructor|vm_compute; reflexivity].
  - intros x ->%list_elem_of_singleton. reflexivity.
  - reflexivity.
  - lia.
  - vm_compute. reflexivity.
Defined.

(** ** What a fingerprint binds *)

(** The cut at the first occurrence of a character that the left part lacks. *)
Lemma cut_inj c a a' x x' :
  str_existsb (Ascii.eqb c) a = false → str_existsb (Ascii.eqb c) a' = false →
  (a ++ String c x)%string = (a' ++ String c x')%string → a = a' ∧ x = x'.
Proof.
  revert a'. induction a as [|d a IH]; intros [|d' a'] Ha Ha' H; simpl in *.
  - by injection H.
  - injection H as <- _. by rewrite Ascii.eqb_refl in Ha'.
  - injection H as -> _. by rewrite Ascii.eqb_refl in Ha.
  - injection H as <- H. apply orb_false_iff in Ha as [_ Ha], Ha' as [_ Ha'].
    by destruct (IH a' Ha Ha' H) as [-> ->].
Qed.

(** The cut before a suffix of known length. *)
Lemma suffix_inj a a' x x' :
  String.length x = String.length x' → (a ++ x)%string = (a' ++ x')%string → a = a' ∧ x = x'.
Proof.
  intros Hl H. assert (String.length a = String.length a') as Ha.
  { apply (f_equal String.length) in H. rewrite !str_length_app in H. lia. }
  destruct (str_app_split _ _ _ _ H ltac:(lia)) as (z & -> & ->).
  rewrite str_length_app in Ha. assert (z = "") as -> by (apply str_length_zero; lia).
  by rewrite str_app_nil_r.
Qed.

Definition clean_target (t : string) : Prop :=
  t ≠ "" ∧ contains_char t "," = false ∧ contains_char t "|" = false.

Lemma join_comma_inj l l' :
  Forall clean_target l → Forall clean_target l' → join "," l = join "," l' → l = l'.
Proof.
  intros H H' E. assert (∀ k, Forall clean_target k → k ≠ [] → split (Ascii.eqb ",") (join "," k) = k) as Hs.
  { intros k Hk Hne. apply (split_join (Ascii.eqb ",") ","); [done|done|].
    eapply Forall_impl; [exact Hk|]. by intros t (_ & ? & _). }
  assert (∀ k, Forall clean_target k → join "," k = "" → k = []) as Hn.
  { intros [|t [|u k]] Hk Hj; [done| |]; apply Forall_cons_1 in Hk as [(Ht & _) _];
      by destruct t. }
  destruct l as [|t l].
  { symmetry. by apply Hn. }
  destruct l' as [|t' l'].
  { by apply Hn in E. }
  by rewrite <-(Hs _ H), E, (Hs _ H').
Qed.

Lemma join_no_bar l : Forall clean_target l → str_existsb (Ascii.eqb "|") (join "," l) = false.
Proof.
  unfold join. induction 1 as [|t l (_ & _ & Ht) _ IH]; [done|]. destruct l as [|u l]; [done|].
  cbn [String.concat] in *. rewrite !str_existsb_app, IH. unfold contains_char in Ht. by rewrite Ht.
Qed.

Lemma le_bytes_length k n : String.length (le_bytes k n) = k.
Proof. revert n. induction k as [|k IH]; intros n; simpl; [done|]. by rewrite IH. Qed.

Lemma le_bytes_inj k n m :
  (n < 256 ^ N.of_nat k)%N → (m < 256 ^ N.of_nat k)%N → le_bytes k n = le_bytes k m → n = m.
Proof.
  revert n m. induction k as [|k IH]; intros n m Hn Hm H.
  { simpl in Hn, Hm. lia. }
  cbn [le_bytes] in H. injection H as H1 H2. rewrite Nat2N.inj_succ, N.pow_succ_r' in Hn, Hm.
  apply IH in H2; [|apply N.Div0.div_lt_upper_bound; lia..].
  assert (n mod 256 = m mod 256)%N as Hmod.
  { apply (f_equal N_of_ascii) in H1.
    rewrite !N_ascii_embedding in H1 by (apply N.mod_upper_bound; done). done. }
  rewrite (N.div_mod n 256), (N.div_mod m 256) by done. by rewrite H2, Hmod.
Qed.

(** A length prefix is read back, so the concatenation determines the pieces. *)
Lemma length_prefixed_inj l l' :
  Forall (λ r, (N.of_nat (String.length r) < 2 ^ 64)%N) l →
  Forall (λ r, (N.of_nat (String.length r) < 2 ^ 64)%N) l' →
  String.concat "" (length_prefixed <$> l) = String.concat "" (length_prefixed <$> l') → l = l'.
Proof.
  assert (∀ x k, String.concat "" (length_prefixed <$> x :: k)
    = (le_bytes 8 (N.of_nat (String.length x)) ++ (x ++ String.concat "" (length_prefixed <$> k)))%string)
    as Hc.
  { intros x k. rewrite <-str_app_assoc. destruct k as [|y k].
    - cbn [fmap list_fmap String.concat]. by rewrite str_app_nil_r.
    - reflexivity. }
  assert (∀ x k, String.concat "" (length_prefixed <$> x :: k) ≠ "") as Hne.
  { intros x k H. rewrite Hc in H. cbn [le_bytes] in H. done. }
  intros H. revert l'. induction H as [|x l Hx _ IH]; intros l' H' E.
  { destruct l' as [|y l']; [done|]. symmetry in E. by apply Hne in E. }
  destruct H' as [|y l' Hy H']; [by apply Hne in E|].
  rewrite !Hc in E. 
  pose proof (str_app_split _ _ _ _ E ltac:(rewrite !le_bytes_length; lia)) as (z & Hz & E2).
  assert (z = "") as ->.
  { apply str_length_zero. apply (f_equal String.length) in Hz.
    rewrite str_length_app, !le_bytes_length in Hz. lia. }
  rewrite str_app_nil_r in Hz. apply le_bytes_inj in Hz; [|done..].
  cbn [String.append] in E2.
  destruct (str_app_split _ _ _ _ E2 ltac:(lia)) as (z & -> & E3).
  rewrite str_length_app in Hz. assert (z = "") as -> by (apply str_length_zero; lia).
  rewrite str_app_nil_r in *. cbn [String.append] in E3. f_equal. by apply IH.
Qed.

Section Binding.
Context (sha256_hex : string → string) (capability_json : Capability → string).
Context `{!Sha256Hex sha256_hex}.

Notation cap_preimage := (capability_preimage capability_json).
Notation preimage := (fingerprint_preimage sha256_hex capability_json).

(** The hasher tells the two texts apart. *)
Definition no_collision (x y : string) : Prop := sha256_hex x = sha256_hex y → x = y.

Definition exec_identity (code : string) (artifact : option string) : string + string :=
  match artifact with Some a => inl a | None => inr code end.

Definition renders_small (caps : list Capability) : Prop :=
  Forall (λ r, (N.of_nat (String.length r) < 2 ^ 64)%N) (capability_json <$> caps).

Lemma capability_preimage_binds caps caps' :
  renders_small caps → renders_small caps' → cap_preimage caps = cap_preimage caps' →
  capability_json <$> caps ≡ₚ capability_json <$> caps'.
Proof.
  intros H H' E. apply length_prefixed_inj in E.
  - by rewrite <-(sort_by_perm String.compare (capability_json <$> caps)), E, sort_by_perm.
  - by rewrite (sort_by_perm String.compare).
  - by rewrite (sort_by_perm String.compare).
Qed.

Lemma fingerprint_binds agent agent' targets targets' code code' artifact artifact' caps caps' :
  contains_char agent "|" = false → contains_char agent' "|" = false →
  Forall clean_target targets → Forall clean_target targets' →
  renders_small caps → renders_small caps' →
  no_collision (preimage agent targets code artifact caps)
               (preimage agent' targets' code' artifact' caps') →
  no_collision (cap_preimage caps) (cap_preimage caps') →
  compute_fingerprint sha256_hex capability_json agent targets code artifact caps
    = compute_fingerprint sha256_hex capability_json agent' targets' code' artifact' caps' →
  agent = agent' ∧ targets = targets' ∧ exec_identity code artifact = exec_identity code' artifact'
  ∧ capability_json <$> caps ≡ₚ capability_json <$> caps'.
Proof.
  intros Ha Ha' Ht Ht' Hc Hc' Hnc Hncc E. unfold compute_fingerprint in E.
  apply (suffix_inj "sha256:" "sha256:") in E as [_ E]; [|by rewrite !sha_len].
  apply Hnc in E. unfold fingerprint_preimage in E. rewrite ?str_app_assoc in E.
  apply (cut_inj "|") in E as [-> E]; [|done|done].
  rewrite ?str_app_assoc in E. apply (cut_inj "|") in E as [Hj E]; [|by apply join_no_bar..].
  apply join_comma_inj in Hj as ->; [|done..].
  apply suffix_inj in E as [Hid E].
  2:{ rewrite !str_length_app. unfold capability_digest.
      by rewrite !(sha_len (sha256_hex := sha256_hex)). }
  injection E as E. apply Hncc in E. split_and!; [done|done| |by apply capability_preimage_binds].
  destruct artifact, artifact'; injection Hid as Hid; simpl; congruence.
Qed.
End Binding.
