(* ===== verification/ProbeBudget.v ===== *)
(** * Probe budgets per host

    The model of [autonoetic-gateway/src/runtime/host_probe_budget.rs]: the strikes
    of a host in a session, and the refusal of a probe once they reach the cap.
    The registry is a map from sessions to hosts; its lock is taken for a whole
    operation and never poisoned, so concurrent operations are a sequence of
    these.  [cap] is a [usize] and [strikes] a saturating [u32]. *)

From Stdlib Require Import ZArith Lia.
From stdpp Require Import prelude gmap strings list.
From S2P Require Import Prelude.

Open Scope string_scope.
Open Scope nat_scope.
Open Scope list_scope.

(** ** State and operations *)

Definition MAX_TRACKED_HOSTS_PER_SESSION : nat := 512.
Definition MAX_TRACKED_HASHES_PER_HOST : nat := 64.

Inductive ProbeOutcome : Type :=
| Progress
| Strike (strikes : Z) (duplicate reached_cap : bool)
| BudgetDisabled.

Record HostEntry := {
  strikes : Z;
  seen_hashes : gset string;
}.

Definition new_host : HostEntry := {| strikes := 0; seen_hashes := ∅ |}.

Abbreviation SessionHostBudget := (gmap string HostEntry).

Record ProbeRegistry := {
  probes : gmap string SessionHostBudget;
  cap : Z;
}.

Definition set_cap (r : ProbeRegistry) (c : Z) : ProbeRegistry := {| probes := probes r; cap := c |}.

Definition exhausted (r : ProbeRegistry) (session host : string) : option Z :=
  if (cap r =? 0)%Z then None
  else
    s ← probes r !! session;
    e ← s !! host;
    if (cap r <=? strikes e)%Z then Some (strikes e) else None.

(** [u32::saturating_add(1)]. *)
Definition strike_count (e : HostEntry) : Z := Z.min (strikes e + 1) U32_MAX.

(** The update of one host. *)
Definition probe_entry (c : Z) (e : HostEntry) (ok : bool) (output_hash : string)
    : ProbeOutcome * HostEntry :=
  if ok && negb (bool_decide (output_hash ∈ seen_hashes e))
  then (Progress,
        {| strikes := 0;
           seen_hashes := if size (seen_hashes e) <? MAX_TRACKED_HASHES_PER_HOST
                          then {[output_hash]} ∪ seen_hashes e else seen_hashes e |})
  else (Strike (strike_count e) ok (strike_count e =? c)%Z,
        {| strikes := strike_count e; seen_hashes := seen_hashes e |}).

Definition record_probe (r : ProbeRegistry) (session host : string) (ok : bool)
    (output_hash : string) : ProbeOutcome * ProbeRegistry :=
  if (cap r =? 0)%Z then (BudgetDisabled, r)
  else
    let s := default ∅ (probes r !! session) in
    if bool_decide (s !! host = None) && (MAX_TRACKED_HOSTS_PER_SESSION <=? size s)
    then (Progress, {| probes := <[session := s]> (probes r); cap := cap r |})
    else
      let '(outcome, e) := probe_entry (cap r) (default new_host (s !! host)) ok output_hash in
      (outcome, {| probes := <[session := <[host := e]> s]> (probes r); cap := cap r |}).

Definition clear_session (r : ProbeRegistry) (session : string) : ProbeRegistry :=
  {| probes := delete session (probes r); cap := cap r |}.

Definition host_strikes (r : ProbeRegistry) (session host : string) : Z :=
  default 0%Z (s ← probes r !! session; e ← s !! host; Some (strikes e)).

(** A probe as its callers make it: refused when the host is exhausted, recorded
    when it ran. *)
Inductive ProbeOp : Type :=
| Probe (session host : string) (ok : bool) (output_hash : string)
| EndSession (session : string).

Definition probe_step (r : ProbeRegistry) (op : ProbeOp) : option ProbeOutcome * ProbeRegistry :=
  match op with
  | Probe session host ok output_hash =>
      match exhausted r session host with
      | Some _ => (None, r)
      | None => let '(o, r) := record_probe r session host ok output_hash in (Some o, r)
      end
  | EndSession session => (None, clear_session r session)
  end.

Fixpoint probe_run (r : ProbeRegistry) (ops : list ProbeOp)
    : list (ProbeOp * option ProbeOutcome) * ProbeRegistry :=
  match ops with
  | [] => ([], r)
  | op :: ops =>
      let '(o, r) := probe_step r op in
      let '(os, r) := probe_run r ops in ((op, o) :: os, r)
  end.

Definition new_registry (c : Z) : ProbeRegistry := {| probes := ∅; cap := c |}.

(** ** Bounds *)

Definition entry_wf (e : HostEntry) : Prop :=
  (0 ≤ strikes e ≤ U32_MAX)%Z ∧ size (seen_hashes e) ≤ MAX_TRACKED_HASHES_PER_HOST.

Definition session_wf (s : SessionHostBudget) : Prop :=
  size s ≤ MAX_TRACKED_HOSTS_PER_SESSION ∧ map_Forall (λ _ e, entry_wf e) s.

Definition registry_wf (r : ProbeRegistry) : Prop := map_Forall (λ _ s, session_wf s) (probes r).

Lemma new_host_wf : entry_wf new_host.
Proof. split; [done|]. cbn. rewrite size_empty. unfold MAX_TRACKED_HASHES_PER_HOST. lia. Qed.

Lemma size_add h (X : gset string) : size ({[h]} ∪ X) ≤ S (size X).
Proof.
  destruct (decide (h ∈ X)) as [Hx|Hx].
  - replace ({[h]} ∪ X) with X by set_solver. lia.
  - rewrite size_union by set_solver. rewrite size_singleton. lia.
Qed.

Lemma probe_entry_wf c e ok h : entry_wf e → entry_wf (probe_entry c e ok h).2.
Proof.
  intros [Hs Hn]. unfold probe_entry. destruct (ok && _); split; cbn [snd strikes seen_hashes].
  - unfold U32_MAX. lia.
  - destruct (Nat.ltb_spec (size (seen_hashes e)) MAX_TRACKED_HASHES_PER_HOST) as [Hlt|_]; [|exact Hn].
    pose proof (size_add h (seen_hashes e)). lia.
  - unfold strike_count. lia.
  - done.
Qed.

Lemma session_wf_default r session :
  registry_wf r → session_wf (default ∅ (probes r !! session)).
Proof.
  intros H. destruct (probes r !! session) as [s|] eqn:E; [by apply (H session)|].
  split; [unfold MAX_TRACKED_HOSTS_PER_SESSION; simpl; rewrite map_size_empty; lia|apply map_Forall_empty].
Qed.

Lemma record_probe_wf r session host ok h :
  registry_wf r → registry_wf (record_probe r session host ok h).2.
Proof.
  intros H. unfold record_probe. destruct (cap r =? 0)%Z; [done|].
  destruct (session_wf_default r session H) as [Hn Hs]. cbv zeta.
  set (s := default ∅ (probes r !! session)) in *.
  destruct (bool_decide (s !! host = None) && _) eqn:E.
  - by apply map_Forall_insert_2.
  - destruct (probe_entry _ _ _ _) as [o e] eqn:Ep. simpl.
    apply map_Forall_insert_2; [|done].
    assert (entry_wf e) as He.
    { replace e with (probe_entry (cap r) (default new_host (s !! host)) ok h).2 by by rewrite Ep.
      apply probe_entry_wf. destruct (s !! host) as [e'|] eqn:Ee; [by apply (Hs host)|].
      apply new_host_wf. }
    split; [|by apply map_Forall_insert_2].
    destruct (s !! host) as [e'|] eqn:Ee.
    + by rewrite map_size_insert_Some.
    + rewrite map_size_insert_None by done. rewrite bool_decide_true in E by done.
      apply Nat.leb_gt in E. lia.
Qed.

(** ** The budget *)

Lemma exhausted_spec r session host n :
  exhausted r session host = Some n ↔
  cap r ≠ 0%Z ∧ ∃ s e, probes r !! session = Some s ∧ s !! host = Some e
    ∧ n = strikes e ∧ (cap r ≤ strikes e)%Z.
Proof.
  unfold exhausted. destruct (Z.eqb_spec (cap r) 0) as [|Hc]; [naive_solver|].
  destruct (probes r !! session) as [s|] eqn:Es; simpl; [|naive_solver].
  destruct (s !! host) as [e|] eqn:Ee; simpl; [|naive_solver].
  destruct (Z.leb_spec (cap r) (strikes e)) as [Hle|Hgt].
  - split; [intros [= <-]; eauto 10|]. intros (_ & s' & e' & ? & ? & -> & _). by simplify_eq.
  - split; [done|]. intros (_ & s' & e' & ? & ? & -> & ?). simplify_eq. lia.
Qed.

(** No host has more strikes than the cap. *)
Definition within_cap (r : ProbeRegistry) : Prop :=
  ∀ session s host e, probes r !! session = Some s → s !! host = Some e → (0 ≤ strikes e ≤ cap r)%Z.

Lemma probe_step_cap r op : cap (probe_step r op).2 = cap r.
Proof.
  destruct op as [session host ok h|session]; simpl; [|done].
  destruct (exhausted _ _ _); [done|]. unfold record_probe.
  destruct (cap r =? 0)%Z; [done|]. cbv zeta. destruct (bool_decide _ && _); [done|].
  by destruct (probe_entry _ _ _ _).
Qed.

(** The entries a recorded probe leaves. *)
Lemma record_probe_lookup r session host ok h session' host' s e :
  probes (record_probe r session host ok h).2 !! session' = Some s → s !! host' = Some e →
  (∃ s0, probes r !! session' = Some s0 ∧ s0 !! host' = Some e)
  ∨ (session' = session ∧ host' = host ∧ cap r ≠ 0%Z ∧
     e = (probe_entry (cap r) (default new_host (default ∅ (probes r !! session) !! host)) ok h).2).
Proof.
  unfold record_probe. destruct (Z.eqb_spec (cap r) 0) as [|Hc]; [by left; eauto|]. cbv zeta.
  set (s0 := default ∅ (probes r !! session)).
  assert (∀ x, s0 !! host' = Some x → ∃ s1, probes r !! session = Some s1 ∧ s1 !! host' = Some x) as Hs0.
  { intros x. unfold s0. destruct (probes r !! session); simpl; [eauto|by rewrite lookup_empty]. }
  destruct (bool_decide _ && _).
  { cbn [snd probes]. intros [[<- <-]|[_ Hs]]%lookup_insert_Some He; left; eauto. }
  destruct (probe_entry _ _ _ _) as [o x] eqn:Ep. cbn [snd probes].
  intros [[<- <-]|[_ Hs]]%lookup_insert_Some He; [|by left; eauto].
  apply lookup_insert_Some in He as [[<- <-]|[_ He]]; [by right|by left; eauto].
Qed.

Lemma within_cap_step r op :
  (0 ≤ cap r ≤ U32_MAX)%Z → within_cap r → within_cap (probe_step r op).2.
Proof.
  intros Hc H session' s host' e Hs He. rewrite probe_step_cap.
  destruct op as [session host ok h|session]; simpl in Hs.
  2:{ apply lookup_delete_Some in Hs as [_ Hs]. by eapply H. }
  destruct (exhausted r session host) as [n|] eqn:Ex; [by eapply H|].
  destruct (record_probe r session host ok h) as [o r'] eqn:Er.
  change r' with (o, r').2 in Hs. rewrite <-Er in Hs. cbn [snd] in Hs.
  destruct (record_probe_lookup _ _ _ _ _ _ _ _ _ Hs He)
    as [(s0 & Hs0 & He')|(-> & -> & Hc0 & ->)]; [by eapply H|].
  assert (0 ≤ strikes (default new_host (default ∅ (probes r !! session) !! host)) < cap r)%Z as Hlt.
  { destruct (probes r !! session) as [s1|] eqn:E1; simpl; [|rewrite lookup_empty; simpl; lia].
    destruct (s1 !! host) as [e1|] eqn:E2; simpl; [|lia].
    pose proof (H _ _ _ _ E1 E2). split; [lia|]. apply Z.lt_nge. intros Hge.
    assert (exhausted r session host = Some (strikes e1)) as Hx; [|congruence].
    apply exhausted_spec. eauto 10. }
  unfold probe_entry. destruct (ok && _); cbn [snd strikes]; [lia|]. unfold strike_count. lia.
Qed.

Lemma probe_run_cap r ops : cap (probe_run r ops).2 = cap r.
Proof.
  revert r. induction ops as [|op ops IH]; intros r; [done|]. cbn [probe_run].
  pose proof (probe_step_cap r op) as Hc. destruct (probe_step r op) as [o r1].
  specialize (IH r1). destruct (probe_run r1 ops) as [os r2]. simpl in *. congruence.
Qed.

Lemma within_cap_run r ops :
  (0 ≤ cap r ≤ U32_MAX)%Z → within_cap r → within_cap (probe_run r ops).2.
Proof.
  revert r. induction ops as [|op ops IH]; intros r Hc H; [done|]. cbn [probe_run].
  pose proof (within_cap_step r op Hc H) as H1. pose proof (probe_step_cap r op) as Hc1.
  destruct (probe_step r op) as [o r1]. simpl in H1, Hc1.
  specialize (IH r1). destruct (probe_run r1 ops) as [os r2]. apply IH; [by rewrite Hc1|done].
Qed.

(** Once a host is exhausted it stays so until its session ends. *)
Lemma exhausted_stays r op session host n :
  exhausted r session host = Some n → op ≠ EndSession session →
  exhausted (probe_step r op).2 session host = Some n.
Proof.
  intros Hx Hop. destruct op as [s' h' ok hash|s']; simpl.
  - destruct (exhausted r s' h') as [k|] eqn:E; [done|].
    assert (s' ≠ session ∨ h' ≠ host) as Hne.
    { destruct (decide (s' = session)) as [->|]; [|by left]. right. intros ->. congruence. }
    apply exhausted_spec in Hx as (Hc & s & e & Hs & He & -> & Hle).
    pose proof (probe_step_cap r (Probe s' h' ok hash)) as Hcap. simpl in Hcap. rewrite E in Hcap.
    destruct (record_probe r s' h' ok hash) as [o r'] eqn:Er. simpl in Hcap |- *.
    apply exhausted_spec. rewrite Hcap. split; [done|].
    revert Er. unfold record_probe. destruct (Z.eqb_spec (cap r) 0); [done|]. cbv zeta.
    destruct (bool_decide _ && _) eqn:Eb.
    + intros [= _ <-]. cbn [probes]. destruct (decide (s' = session)) as [->|Hs'].
      * rewrite lookup_insert_eq, Hs. exists s, e. done.
      * rewrite lookup_insert_ne by done. eauto 10.
    + destruct (probe_entry _ _ _ _) as [oo x]. intros [= _ <-]. cbn [probes].
      destruct (decide (s' = session)) as [->|Hs'].
      * rewrite lookup_insert_eq, Hs. eexists _, e. split; [done|]. simpl.
        rewrite lookup_insert_ne; [done|naive_solver].
      * rewrite lookup_insert_ne by done. eauto 10.
  - destruct (decide (s' = session)) as [->|Hs']; [done|].
    apply exhausted_spec in Hx as (Hc & s & e & Hs & He & -> & Hle).
    apply exhausted_spec. split; [done|]. exists s, e. simpl. by rewrite lookup_delete_ne.
Qed.

(** Every later probe of an exhausted host is refused. *)
Lemma exhausted_refuses r ops session host n :
  exhausted r session host = Some n → EndSession session ∉ ops →
  ∀ ok h o, (Probe session host ok h, o) ∈ (probe_run r ops).1 → o = None.
Proof.
  revert r. induction ops as [|op ops IH]; intros r Hx Hend ok h o; [by intros ?%not_elem_of_nil|].
  apply not_elem_of_cons in Hend as [Hop Hend]. cbn [probe_run].
  pose proof (exhausted_stays r op session host n Hx (not_eq_sym Hop)) as Hx1.
  destruct (probe_step r op) as [o1 r1] eqn:Es. simpl in Hx1. specialize (IH r1 Hx1 Hend).
  destruct (probe_run r1 ops) as [os r2]. simpl. intros [[= <- <-]|Hin]%elem_of_cons; [|by eapply IH].
  simpl in Es. rewrite Hx in Es. by injection Es as <- _.
Qed.

(** A strike at the cap leaves the host exhausted. *)
Lemma reached_cap_exhausts r session host ok h n d :
  probe_step r (Probe session host ok h) = (Some (Strike n d true), (probe_step r (Probe session host ok h)).2) →
  exhausted (probe_step r (Probe session host ok h)).2 session host = Some n ∧ n = cap r ∧ d = ok.
Proof.
  pose proof (probe_step_cap r (Probe session host ok h)) as Hcap. revert Hcap. simpl.
  destruct (exhausted r session host) as [k|]; [done|]. unfold record_probe.
  destruct (Z.eqb_spec (cap r) 0) as [|Hc]; [done|]. cbv zeta.
  destruct (bool_decide _ && _); [done|]. unfold probe_entry.
  destruct (ok && _); [done|]. simpl. intros _ [= <- <- Hn%Z.eqb_eq].
  split_and!; [|done|done]. apply exhausted_spec. cbn [cap probes]. split; [done|].
  rewrite lookup_insert_eq. eexists _, _. split; [done|]. rewrite lookup_insert_eq.
  split; [done|]. simpl. split; [done|lia].
Qed.

(** The events that alert the operator about a host. *)
Definition is_alert (session host : string) (x : ProbeOp * option ProbeOutcome) : bool :=
  match x with
  | (Probe s h _ _, Some (Strike _ _ true)) => (s =? session)%string && (h =? host)%string
  | _ => false
  end.

Lemma no_alert_when_exhausted r ops session host n :
  exhausted r session host = Some n → EndSession session ∉ ops →
  List.filter (is_alert session host) (probe_run r ops).1 = [].
Proof.
  intros Hx Hend. destruct (List.filter _ _) as [|[op o] l] eqn:E; [done|].
  assert (In (op, o) (List.filter (is_alert session host) (probe_run r ops).1)) as Hin
    by (rewrite E; by left).
  apply filter_In in Hin as [Hin%list_elem_of_In Ha]. unfold is_alert in Ha.
  destruct op as [s h ok hash|]; [|done]. destruct o as [[| |]|]; try done.
  destruct reached_cap; [|done]. apply andb_true_iff in Ha as [->%String.eqb_eq ->%String.eqb_eq].
  by pose proof (exhausted_refuses r ops session host n Hx Hend _ _ _ Hin).
Qed.

Lemma alert_once r ops session host :
  EndSession session ∉ ops →
  length (List.filter (is_alert session host) (probe_run r ops).1) ≤ 1.
Proof.
  revert r. induction ops as [|op ops IH]; intros r Hend; [simpl; lia|].
  apply not_elem_of_cons in Hend as [Hop Hend]. cbn [probe_run].
  destruct (probe_step r op) as [o r1] eqn:Es. specialize (IH r1 Hend).
  destruct (is_alert session host (op, o)) eqn:Ea.
  - unfold is_alert in Ea. destruct op as [s h ok hash|]; [|done].
    destruct o as [[|k d rc|]|]; try done. destruct rc; [|done].
    apply andb_true_iff in Ea as [->%String.eqb_eq ->%String.eqb_eq].
    assert (exhausted r1 session host = Some k) as Hx.
    { replace r1 with (probe_step r (Probe session host ok hash)).2 by by rewrite Es.
      eapply (reached_cap_exhausts r session host ok hash k d). by rewrite Es. }
    pose proof (no_alert_when_exhausted r1 ops session host k Hx Hend) as Hn.
    destruct (probe_run r1 ops) as [os r2]. simpl in *. rewrite Hn.
    rewrite !String.eqb_refl. simpl. lia.
  - destruct (probe_run r1 ops) as [os r2]. simpl in *. by rewrite Ea.
Qed.

(** New content resets the strikes: a host that keeps yielding it is not refused. *)
Lemma progress_not_exhausted r session host ok h r' :
  (0 ≤ cap r)%Z → probe_step r (Probe session host ok h) = (Some Progress, r') →
  exhausted r' session host = None.
Proof.
  intros Hc Hs. simpl in Hs. destruct (exhausted r session host) as [k|] eqn:Ex; [done|].
  unfold record_probe in Hs. destruct (Z.eqb_spec (cap r) 0) as [|Hne]; [done|]. cbv zeta in Hs.
  destruct (exhausted r' session host) as [n|] eqn:E; [|done].
  apply exhausted_spec in E as (_ & s & e & H1 & H2 & _ & Hle).
  destruct (bool_decide _ && _) eqn:Eb.
  - injection Hs as <-. cbn [probes cap] in *. rewrite lookup_insert_eq in H1. injection H1 as <-.
    apply andb_true_iff in Eb as [Hn _]. apply bool_decide_eq_true in Hn. congruence.
  - unfold probe_entry in Hs. destruct (ok && _); [|done]. injection Hs as <-.
    cbn [probes cap] in *. rewrite lookup_insert_eq in H1. injection H1 as <-.
    rewrite lookup_insert_eq in H2. injection H2 as <-. simpl in Hle. lia.
Qed.

(** With the memory of a host full, content it does not hold is new every time. *)
Lemma full_memory_forgets c e h :
  size (seen_hashes e) = MAX_TRACKED_HASHES_PER_HOST → h ∉ seen_hashes e →
  probe_entry c e true h = (Progress, {| strikes := 0; seen_hashes := seen_hashes e |}).
Proof. intros Hn Hh. unfold probe_entry. rewrite bool_decide_false by done. by rewrite Hn. Qed.

(** ** The contract of the budget *)

Lemma within_cap_new c : within_cap (new_registry c).
Proof. intros session s host e. simpl. by rewrite lookup_empty. Qed.

(** The probe budget of a host is enforced: starting from an empty registry no host
    ever counts more strikes than the cap; the strike that reaches the cap raises
    the one alert of the host in its session; and from then on, until the session
    ends, every probe of that host is refused. *)
Theorem probe_budget_enforced c before ops session host :
  (0 ≤ c ≤ U32_MAX)%Z → EndSession session ∉ ops →
  let r := (probe_run (new_registry c) before).2 in
  within_cap r
  ∧ length (List.filter (is_alert session host) (probe_run r ops).1) ≤ 1
  ∧ ∀ ok hash n d r1, probe_step r (Probe session host ok hash) = (Some (Strike n d true), r1) →
      n = c ∧ ∀ ok' hash' o, (Probe session host ok' hash', o) ∈ (probe_run r1 ops).1 → o = None.
Proof.
  intros Hc Hend r. assert (cap r = c) as Hr by apply probe_run_cap. split_and!.
  - apply within_cap_run; [done|apply within_cap_new].
  - by apply alert_once.
  - intros ok hash n d r1 Hs.
    destruct (reached_cap_exhausts r session host ok hash n d) as (Hx & -> & _); [by rewrite Hs|].
    rewrite Hs in Hx. split; [done|]. by apply (exhausted_refuses r1 ops session host (cap r)).
Qed.

Lemma probe_budget_enforced_witness :
  let r := (probe_run (new_registry 2) [Probe "s" "h" false ""]).2 in
  let step := probe_step r (Probe "s" "h" false "") in
  step = (Some (Strike 2 false true), step.2)
  ∧ ∀ ok' hash' o, (Probe "s" "h" ok' hash', o) ∈ (probe_run step.2 [Probe "s" "h" true "x"]).1 → o = None.
Proof.
  intros r step. split; [vm_compute; reflexivity|].
  destruct (probe_budget_enforced 2 [Probe "s" "h" false ""] [Probe "s" "h" true "x"] "s" "h")
    as (_ & _ & H); [unfold U32_MAX; lia|set_solver|].
  apply (H false "" 2%Z false). vm_compute. reflexivity.
Defined.
