(* ===== verification/NetworkSpec.v ===== *)
(** * The network rules together

    Theorems over [NetworkSinks], [NetworkPolicy], [RemoteAccess],
    [NetworkContract], [ExecCache] and [ProbeBudget]: what the analyser reports and
    misses, what the declaration and the host contract admit, and how the two
    matchers of the [NetworkAccess] capability differ. *)

From Stdlib Require Import Ascii String ZArith Lia.
From stdpp Require Import prelude gmap strings list.
From S2P Require Import Prelude RustStr Json Capability Policy Grants CausalChain NetworkSinks NetworkPolicy RemoteAccess NetworkContract ExecCache ProbeBudget.

Open Scope string_scope.
Open Scope nat_scope.
Open Scope list_scope.

(** ** The analyser *)

Section Analyser.
Context (captures_iter : string → string → list (list (option (nat * nat)))).
Context (parse_url : string → option (option string * option Z)).

Notation literal_host := (extract_host_from_url_literal captures_iter).
Notation covers := (declaration_covers_pattern captures_iter parse_url).
Notation undeclared := (undeclared_patterns_against_manifest captures_iter parse_url).
Notation allows_target := (declaration_allows_target parse_url).

Lemma category_roundtrip c : category_from_str (category_as_str c) = Some c.
Proof. by destruct c. Qed.

Lemma category_one_role c :
  (is_gating c = true ∧ is_advisory c = false ∧ is_derived c = false)
  ∨ (is_gating c = false ∧ is_advisory c = true ∧ is_derived c = false)
  ∨ (is_gating c = false ∧ is_advisory c = false ∧ is_derived c = true).
Proof. destruct c; simpl; tauto. Qed.

Lemma undeclared_nil ps d :
  undeclared ps (Some d) = [] ↔ ∀ p, p ∈ ps → is_gating (category p) = true → covers d p = true.
Proof.
  unfold undeclared_patterns_against_manifest. split.
  - intros H p Hp Hg. destruct (covers d p) eqn:E; [done|].
    assert (In p []) as Hin; [|done]. rewrite <-H. apply filter_In. rewrite E. split; [|done].
    apply filter_In. split; [by apply list_elem_of_In|done].
  - intros H. destruct (List.filter _ (List.filter _ ps)) as [|p l] eqn:E; [done|].
    assert (In p (p :: l)) as Hin by (by left). rewrite <-E in Hin.
    apply filter_In in Hin as [[Hp Hg]%filter_In Hc]. apply list_elem_of_In in Hp.
    by rewrite (H p Hp Hg) in Hc.
Qed.

Lemma undeclared_elem ps d p :
  p ∈ undeclared ps (Some d) ↔ p ∈ ps ∧ is_gating (category p) = true ∧ covers d p = false.
Proof.
  unfold undeclared_patterns_against_manifest.
  rewrite !list_elem_of_In, filter_In, filter_In, negb_true_iff. tauto.
Qed.

Lemma literal_host_cache url h :
  literal_host url = Some h → extract_host_from_url captures_iter url = Some h.
Proof.
  unfold extract_host_from_url_literal, extract_host_from_url.
  destruct (url_host_group captures_iter url) as [g|]; simpl; [|done].
  destruct (str_is_empty (trim_end_matches g ".")) eqn:E; [done|]. intros [= <-].
  destruct (str_is_empty g) eqn:Eg; [|done]. by destruct g.
Qed.

Lemma cache_host_literal url h :
  extract_host_from_url captures_iter url = Some h → h ≠ "" → literal_host url = Some h.
Proof.
  unfold extract_host_from_url_literal, extract_host_from_url.
  destruct (url_host_group captures_iter url) as [g|]; simpl; [|done].
  destruct (str_is_empty g); [done|]. intros [= <-] Hne.
  destruct (trim_end_matches g ".") eqn:E; [done|]. done.
Qed.

Lemma normalize_targets_elem ps t :
  t ∈ normalize_targets captures_iter ps ↔ ∃ p, p ∈ ps ∧ pattern_host captures_iter p = Some t.
Proof.
  unfold normalize_targets. rewrite elem_of_sort_by. split.
  - intros [[]%not_elem_of_nil|H]%fold_push_elem. by apply list_elem_of_omap in H.
  - intros (p & Hp & Ht). destruct (fold_push_has String.eqb (omap (pattern_host captures_iter) ps) [] t)
      as (y & Hy & ->%String.eqb_eq); [apply String.eqb_refl|by apply list_elem_of_omap; eauto|done].
Qed.


(** When the declaration leaves nothing undeclared, every host the operator is
    shown and the approval is keyed on, literal, address or constant, is the
    normal form of one that a target of the declaration allows. *)
Theorem gated_targets_declared ps d t :
  undeclared ps (Some d) = [] → t ∈ normalize_targets captures_iter ps →
  ∃ h url, (t = h ∨ t = normalize_host h) ∧ allows_target d h url = true.
Proof.
  rewrite undeclared_nil, normalize_targets_elem. intros Hcov (p & Hp & Ht).
  unfold pattern_host in Ht. specialize (Hcov p Hp). unfold declaration_covers_pattern in Hcov.
  destruct (category p) eqn:Ec; try done; specialize (Hcov eq_refl).
  - destruct (literal_host (pattern p)) as [h|] eqn:El; [|done].
    apply literal_host_cache in El. rewrite El in Ht. injection Ht as <-. eauto.
  - injection Ht as <-. eauto.
  - destruct (str_is_empty _); [done|]. injection Ht as <-. eauto.
Qed.

(** No reported URL names [localhost] or [example.com] anywhere, in its path or
    query as little as in its host. *)
Lemma skipped_urls code p :
  p ∈ detect_url_literals captures_iter code →
  category p = UrlLiteral ∧ contains (pattern p) "example.com" = false
  ∧ contains (pattern p) "localhost" = false.
Proof.
  unfold detect_url_literals. intros ([a b] & _ & H)%list_elem_of_omap.
  unfold skipped_url in H. destruct (contains _ "example.com") eqn:E1; [done|].
  destruct (contains _ "localhost") eqn:E2; [done|]. by injection H as <-.
Qed.

(** ** Coverage *)

Lemma coverage_concrete ps ts ts' :
  classify_network_coverage ps ts = Concrete ts' ↔
  ts' = ts ∧ ts ≠ [] ∧ ∀ p, p ∈ ps → category p ≠ DependencyInstall.
Proof.
  unfold classify_network_coverage. destruct ts as [|t ts].
  { destruct ps; split; [done|naive_solver|done|naive_solver]. }
  destruct (existsb _ ps) eqn:E.
  - split; [done|]. intros (_ & _ & H). apply existsb_true in E as (p & Hp & Hc).
    apply bool_decide_eq_true in Hc. by destruct (H p Hp).
  - rewrite existsb_false in E. split.
    + intros [= <-]. split_and!; try done. intros p Hp. by apply (proj1 (bool_decide_eq_false _)), E.
    + by intros (-> & _).
Qed.

Lemma coverage_none ps ts :
  classify_network_coverage ps ts = NoCoverage ↔ ts = [] ∧ ps = [].
Proof.
  unfold classify_network_coverage. destruct ts, ps; simpl; try naive_solver.
  all: destruct (_ || _); naive_solver.
Qed.
End Analyser.

(** ** The regex of URL hosts *)

Definition is_alpha (c : ascii) : bool :=
  let n := nat_of_ascii (to_ascii_lowercase c) in (97 <=? n) && (n <=? 122).

Fixpoint span_len (p : ascii → bool) (s : string) : nat :=
  match s with "" => 0 | String c r => if p c then S (span_len p r) else 0 end.

Definition not_delim (c : ascii) : bool := negb ((c =? "/")%char || (c =? ":")%char).

(** What [URL_HOST_RE] matches: letters, [://], and the longest run without [/]
    and [:]. *)
Definition url_host_span (url : string) : option (nat * nat) :=
  let n := span_len is_alpha url in
  if (n =? 0) || negb (starts_with (skip n url) "://") then None
  else let m := span_len not_delim (skip (n + 3) url) in
       if m =? 0 then None else Some (n + 3, n + 3 + m).

Class UrlHostRegex (captures_iter : string → string → list (list (option (nat * nat)))) : Prop :=
  url_host_captures url : captures_iter URL_HOST_RE url =
    match url_host_span url with Some (a, b) => [[Some (0, b); Some (a, b)]] | None => [] end.

(** An engine for this pattern alone. *)
Definition url_host_engine (re url : string) : list (list (option (nat * nat))) :=
  if (re =? URL_HOST_RE)%string
  then match url_host_span url with Some (a, b) => [[Some (0, b); Some (a, b)]] | None => [] end
  else [].

#[export] Instance url_host_engine_law : UrlHostRegex url_host_engine.
Proof. intros url. unfold url_host_engine. by rewrite String.eqb_refl. Qed.

Lemma span_len_app p s t :
  str_existsb (λ c, negb (p c)) s = false →
  span_len p (s ++ t) = String.length s + span_len p t.
Proof.
  induction s as [|c s IH]; [done|]. cbn [str_existsb].
  intros [Hc%negb_false_iff Hs]%orb_false_iff. cbn [String.append span_len String.length].
  by rewrite Hc, IH.
Qed.

Lemma substring_skip n m s : String.substring n m s = String.substring 0 m (skip n s).
Proof.
  revert n. induction s as [|c s IH]; intros [|n]; try done.
  - simpl. by destruct m.
  - simpl. apply IH.
Qed.

Lemma skip_app_add n s t : skip (String.length s + n) (s ++ t) = skip n t.
Proof. induction s as [|c s IH]; [done|]. apply IH. Qed.

Section UrlHost.
Context (captures_iter : string → string → list (list (option (nat * nat)))).
Context `{!UrlHostRegex captures_iter}.

(** The host of a literal is what stands between the scheme and the first [/] or
    [:]. *)
Lemma literal_host_parts scheme host rest :
  scheme ≠ "" → host ≠ "" → trim_end_matches host "." ≠ "" →
  str_existsb (λ c, negb (is_alpha c)) scheme = false →
  str_existsb (λ c, negb (not_delim c)) host = false →
  match rest with "" => True | String c _ => not_delim c = false end →
  extract_host_from_url_literal captures_iter (scheme ++ "://" ++ host ++ rest)
    = Some (to_lowercase (trim_end_matches host ".")).
Proof.
  intros Hs Hh Ht Has Hd Hr. unfold extract_host_from_url_literal, url_host_group.
  rewrite url_host_captures. unfold url_host_span.
  rewrite span_len_app by done. change (span_len is_alpha ("://" ++ host ++ rest)) with 0.
  rewrite Nat.add_0_r. pose proof (skip_app_add 0 scheme ("://" ++ host ++ rest)) as Hk.
  rewrite Nat.add_0_r in Hk. rewrite Hk. cbn [skip].
  destruct (String.length scheme =? 0) eqn:E0; [by apply Nat.eqb_eq, str_length_zero in E0|].
  rewrite (proj2 (starts_with_spec _ "://")) by eauto. cbn [orb negb].
  rewrite skip_app_add. cbn [skip String.append]. rewrite span_len_app by done.
  assert (span_len not_delim rest = 0) as -> by (destruct rest; simpl; [done|by rewrite Hr]).
  rewrite Nat.add_0_r.
  destruct (String.length host =? 0) eqn:E1; [by apply Nat.eqb_eq, str_length_zero in E1|].
  cbn [head mbind option_bind]. unfold cap_text. cbn [lookup list_lookup].
  assert (slice (scheme ++ "://" ++ host ++ rest) (String.length scheme + 3)
    (String.length scheme + 3 + String.length host) = host) as Hsl.
  { unfold slice. rewrite substring_skip, skip_app_add. cbn [skip String.append].
    replace (_ + 3 + _ - _) with (String.length host) by lia. apply substring_app. }
  cbn [String.append] in Hsl. rewrite Hsl. cbn [mbind option_bind].
  destruct (str_is_empty _) eqn:Ee; [|done]. by destruct (trim_end_matches host ".").
Qed.

(** A URL with a user name and a password is taken for the user name: whatever
    the URL parser says of it, a declaration of that name covers it. *)
Theorem userinfo_covers parse_url d line why :
  ExactHost "api.good.com" ∈ targets d →
  let url := "https://api.good.com:x@evil.org/" in
  extract_host_from_url_literal captures_iter url = Some "api.good.com"
  ∧ declaration_covers_pattern captures_iter parse_url d
      {| category := UrlLiteral; pattern := url; line_number := line; dp_reason := why |} = true.
Proof.
  intros Hd url.
  assert (extract_host_from_url_literal captures_iter url = Some "api.good.com") as Hh.
  { by apply (literal_host_parts "https" "api.good.com" ":x@evil.org/"). }
  split; [done|]. unfold declaration_covers_pattern. cbn [category pattern]. rewrite Hh.
  unfold declaration_allows_target. cbn [str_is_empty normalize_host].
  apply existsb_true. exists (ExactHost "api.good.com"). split; [done|].
  apply existsb_true. exists "api.good.com". split; [by left|done].
Qed.
End UrlHost.

(** ** The host contract *)

Section ContractSpec.
Context (captures_iter : string → string → list (list (option (nat * nat)))).
Context (regex_escape : string → string) (is_ip : string → bool).
Context (set_order : list string → list string).

Notation detect := (detect_network_hosts_from_file_map captures_iter regex_escape is_ip set_order).
Notation validate := (validate_network_host_contract captures_iter regex_escape is_ip set_order).

(** The patterns of [caps] that cover [h]. *)
Definition declared_covers (caps : list Capability) (h : string) : Prop :=
  ∃ p, p ∈ declared_network_hosts caps ∧ capability_host_allows p h = true.

Lemma declared_covers_existsb caps h :
  existsb (λ declared, capability_host_allows declared h) (declared_network_hosts caps) = true
  ↔ declared_covers caps h.
Proof. apply existsb_true. Qed.

(** The contract is accepted exactly when a star is an open-web star and every
    detected host is covered; otherwise the hosts that are not are named. *)
Theorem contract_accepted_iff caps files ow :
  (∃ v, validate caps files ow = Ok v) ↔
  (existsb is_star (declared_network_hosts caps) = true → ow = true)
  ∧ ∀ h, h ∈ detect files → declared_covers caps h.
Proof.
  unfold validate_network_host_contract. cbv zeta.
  destruct (existsb is_star _ && negb ow) eqn:E.
  { split; [by intros [? ?]|]. intros [H _]. apply andb_true_iff in E as [E1 E2%negb_true_iff].
    by rewrite (H E1) in E2. }
  assert (existsb is_star (declared_network_hosts caps) = true → ow = true) as Hs.
  { intros Hs. rewrite Hs in E. by destruct ow. }
  destruct (List.filter _ (detect files)) as [|x l] eqn:Ef.
  - split; [intros _|by eauto]. split; [done|]. intros h Hh. apply declared_covers_existsb.
    apply not_false_iff_true. intros Ec. assert (In h []) as []. rewrite <-Ef.
    apply filter_In. split; [by apply list_elem_of_In|]. by rewrite Ec.
  - split; [by intros [? ?]|]. intros [_ H]. assert (In x (x :: l)) as Hx by (by left).
    rewrite <-Ef in Hx. apply filter_In in Hx as [Hx%list_elem_of_In Hn].
    apply H, declared_covers_existsb in Hx. by rewrite Hx in Hn.
Qed.

Lemma contract_result caps files ow v :
  validate caps files ow = Ok v →
  detected_hosts v = detect files
  ∧ ∀ p, p ∈ superfluous_hosts v ↔ p ∈ declared_network_hosts caps ∧ trim p ≠ "" ∧ is_star p = false
      ∧ ∀ h, h ∈ detect files → capability_host_allows (trim p) h = false.
Proof.
  unfold validate_network_host_contract. cbv zeta. destruct (_ && _); [done|].
  destruct (List.filter _ (detect files)); [|done]. intros [= <-]. split; [done|]. intros p. cbn [superfluous_hosts].
  rewrite list_elem_of_In, filter_In, <-list_elem_of_In. unfold is_star.
  split; intros [Hp H]; (split; [done|]).
  - destruct (str_is_empty (trim p)) eqn:E1; [done|]. destruct (trim p =? "*")%string; [done|].
    apply negb_true_iff in H. rewrite existsb_false in H. split_and!; [by intros E; rewrite E in E1|done|done].
  - destruct H as (H1 & H2 & H3). rewrite H2. destruct (str_is_empty (trim p)) eqn:E; [by destruct (trim p)|].
    simpl. by apply negb_true_iff, existsb_false.
Qed.

Lemma contract_refused caps files ow e :
  validate caps files ow = Err e →
  suggested_hosts e = detect files
  ∧ (∀ h, h ∈ undeclared_hosts e → h ∈ detect files)
  ∧ (existsb is_star (declared_network_hosts caps) && negb ow = false →
     undeclared_hosts e ≠ [] ∧ ∀ h, h ∈ undeclared_hosts e ↔ h ∈ detect files ∧ ¬ declared_covers caps h).
Proof.
  unfold validate_network_host_contract. cbv zeta. destruct (_ && _).
  { intros [= <-]. done. }
  destruct (List.filter _ (detect files)) as [|x l] eqn:Ef; [done|]. intros [= <-].
  assert (∀ h, h ∈ x :: l ↔ h ∈ detect files ∧ ¬ declared_covers caps h) as Hu.
  { intros h. rewrite <-Ef, list_elem_of_In, filter_In, <-list_elem_of_In, negb_true_iff.
    rewrite <-(declared_covers_existsb caps h), not_true_iff_false. tauto. }
  cbn [suggested_hosts undeclared_hosts]. split; [done|]. split; [|done].
  intros h Hh. by apply Hu.
Qed.

(** A host in the form it is compared in. *)
Definition normal_host (h : string) : Prop :=
  h ≠ "" ∧ normalize_host h = h ∧ to_lowercase (trim h) = h.

Lemma host_covers_itself h : normal_host h → capability_host_allows h h = true.
Proof. intros (Hne & Hn & Hl). apply capability_host_allows_spec. rewrite Hn, Hl. by apply covered_same. Qed.

(** What install accepts, the runtime admits: with the manifest of an accepted
    contract every detected host passes the capability check, and is inside the
    contract that was recorded. *)
Theorem accepted_contract_admitted caps files ow agent v h :
  validate caps files ow = Ok v → h ∈ detected_hosts v → normal_host h →
  network_access_allows_host {| nm_agent_id := agent; nm_capabilities := caps; open_web := ow |} h = true
  ∧ host_outside_revision_contract (Some (detected_hosts v)) h = false.
Proof.
  intros Hv Hh Hn. destruct (contract_result _ _ _ _ Hv) as [Hd _].
  destruct (proj1 (contract_accepted_iff caps files ow)) as [Hs Hc]; [by exists v|]. split.
  - apply network_access_allows_host_spec. cbn [nm_capabilities open_web].
    destruct (existsb is_star _) eqn:E; [left; auto|right]. split; [done|].
    apply Hc. by rewrite <-Hd.
  - unfold host_outside_revision_contract. destruct (detected_hosts v) as [|x l]; [done|].
    apply negb_false_iff, existsb_true. exists h. split; [done|].
    destruct Hn as (H1 & H2 & H3). rewrite H2. by apply host_covers_itself.
Qed.
End ContractSpec.

(** A contract without hosts is no contract: nothing is outside it. *)
Lemma empty_contract_disables h :
  host_outside_revision_contract (Some []) h = false ∧ host_outside_revision_contract None h = false.
Proof. done. Qed.

Lemma outside_contract_iff hosts h :
  host_outside_revision_contract (Some hosts) h = true ↔
  hosts ≠ [] ∧ ∀ c, c ∈ hosts → capability_host_allows c (normalize_host h) = false.
Proof.
  unfold host_outside_revision_contract. destruct hosts as [|x l]; [naive_solver|].
  rewrite negb_true_iff, existsb_false. naive_solver.
Qed.

(** ** The two matchers of the network capability *)

Definition policy_manifest (m : NetManifest) : AgentManifest :=
  {| manifest_agent_id := nm_agent_id m; capabilities := nm_capabilities m; messaging := None |}.

Lemma can_connect_net_spec m host :
  allowed (can_connect_net m host) = true ↔
  ∃ h, h ∈ declared_network_hosts (capabilities m) ∧ (h = host ∨ h = "*").
Proof.
  unfold can_connect_net, declared_network_hosts. induction (capabilities m) as [|c cs IH].
  - split; [done|]. by intros (h & ?%not_elem_of_nil & _).
  - cbn [find_map mbind list_bind]. setoid_rewrite elem_of_app. destruct c;
      try (rewrite IH; split; [intros (h & ? & ?); exists h; auto
                              |intros (h & [?%not_elem_of_nil|?] & ?); [done|exists h; auto]]).
    destruct (existsb _ hosts) eqn:E.
    + split; [intros _|done]. apply existsb_true in E as (h & Hh & Hc).
      apply orb_true_iff in Hc. rewrite !String.eqb_eq in Hc. exists h. auto.
    + rewrite IH. rewrite existsb_false in E. split.
      * intros (h & Hh & Hc). exists h. auto.
      * intros (h & [Hh|Hh] & Hc); [|eauto]. specialize (E h Hh).
        apply orb_false_iff in E as [E1%String.eqb_neq E2%String.eqb_neq]. tauto.
Qed.

(** The policy engine and the host contract read the same capability
    differently. Without a star, a host the engine names is admitted by both. With
    a star, the engine admits every host, and the contract none unless the agent is
    open-web. *)
Theorem capability_matchers_differ m :
  (existsb is_star (declared_network_hosts (nm_capabilities m)) = false →
   ∀ h, normal_host h → allowed (can_connect_net (policy_manifest m) h) = true →
   network_access_allows_host m h = true)
  ∧ ("*" ∈ declared_network_hosts (nm_capabilities m) →
     ∀ h, allowed (can_connect_net (policy_manifest m) h) = true
       ∧ network_access_allows_host m h = open_web m).
Proof.
  split.
  - intros Hs h Hn (p & Hp & Hc)%can_connect_net_spec. cbn [policy_manifest capabilities] in Hp.
    apply network_access_allows_host_spec. right. split; [done|]. exists h.
    destruct Hc as [->| ->]; [by split; [|apply host_covers_itself]|].
    rewrite existsb_false in Hs. by specialize (Hs _ Hp).
  - intros Hs h. assert (existsb is_star (declared_network_hosts (nm_capabilities m)) = true) as Hx.
    { apply existsb_true. by exists "*". }
    split; [apply can_connect_net_spec; eauto|]. unfold network_access_allows_host.
    destruct (declared_network_hosts _) as [|x l]; [by apply not_elem_of_nil in Hs|]. by rewrite Hx.
Qed.

(** ** Instances *)

(** An engine that finds a URL when it is the whole text, and its host. *)
Definition whole_url_engine (re code : string) : list (list (option (nat * nat))) :=
  if (re =? URL_RE)%string && starts_with code "https://"
  then [[Some (0, String.length code); Some (0, 5)]]
  else url_host_engine re code.

Definition api_declaration : RemoteAccessDeclaration :=
  {| approval_mode := Preapproved; enabled_languages := []; targets := [ExactHost "api.org"];
     function_calls := []; python_imports := []; js_imports := []; rust_imports := [];
     go_imports := []; shell_commands := []; package_manager_commands := [] |}.

Lemma gated_targets_declared_witness :
  ∃ h url, ("api.org" = h ∨ "api.org" = normalize_host h)
    ∧ declaration_allows_target (λ _, None) api_declaration h url = true.
Proof.
  apply (gated_targets_declared whole_url_engine (λ _, None)
           (detect_url_literals whole_url_engine "https://api.org/v1") api_declaration "api.org").
  - vm_compute. reflexivity.
  - vm_compute. left.
Defined.

Definition api_contract : HostContractValidation :=
  {| detected_hosts := ["api.org"]; superfluous_hosts := ["db.org"] |}.

Lemma accepted_contract_admitted_witness :
  network_access_allows_host
    {| nm_agent_id := "a"; nm_capabilities := [NetworkAccess ["api.org"; "db.org"]]; open_web := false |}
    "api.org" = true
  ∧ host_outside_revision_contract (Some ["api.org"]) "api.org" = false.
Proof.
  apply (accepted_contract_admitted whole_url_engine (λ s, s) (λ _, false) (λ l, l)
           [NetworkAccess ["api.org"; "db.org"]] [("a.py", "https://api.org/v1")] false "a"
           api_contract "api.org").
  - vm_compute. reflexivity.
  - vm_compute. left.
  - split_and!; [discriminate|vm_compute; reflexivity|vm_compute; reflexivity].
Defined.

(** ** What masking blanks too much *)

(** A brace inside an interpolation ends it: the call behind it is blanked as text
    of the template, and no sink is found. A Python f-string has its
    interpolations blanked with the rest. *)
Example masked_interpolations :
  contains (mask_strings_and_comments "x = `${f({}) + net.connect(80)}`" JavaScript CommentsAndStrings)
    "connect" = false
  ∧ contains (mask_strings_and_comments "x = `${f(1) + net.connect(80)}`" JavaScript CommentsAndStrings)
      "connect" = true
  ∧ contains (mask_strings_and_comments "x = f'{socket.socket()}'" Python CommentsAndStrings)
      "socket" = false.
Proof. vm_compute. auto. Qed.
