(* ===== verification/Redaction.v ===== *)
(** * Redaction of secrets

    The model of [autonoetic-types/src/redaction.rs] and of the wrapper
    [RedactedPayload] of [autonoetic-gateway/src/log_redaction.rs]: which keys and
    texts look like credentials, the masking of a text, of a JSON value and of a
    log line, and which writers of a causal log mask their payloads.  [captures_iter] is the [regex] crate (see [NetworkSinks]);
    [parse_json] and [json_to_string] are [serde_json].  The vendor pattern is
    given without the white space and the comments its verbose flag ignores. *)

From Stdlib Require Import Ascii String Lia.
From stdpp Require Import prelude strings list.
From S2P Require Import Prelude RustStr Json NetworkSinks.

Open Scope string_scope.
Open Scope nat_scope.
Open Scope list_scope.

Definition REDACTED : string := "***REDACTED***".

(** ** The catalogue *)

Definition quoted_or_bare : string :=
  (dq ++ "[^" ++ dq ++ "]*" ++ dq ++ "|'[^']*'|[^\s&;]+")%string.
Definition ENV_ASSIGN_RE : string :=
  ("(?i)\b([A-Z0-9_]*(?:API[_-]?KEY|TOKEN|SECRET|PASSWORD|ACCESS[_-]?KEY|ACCESS[_-]?TOKEN|REFRESH[_-]?TOKEN|AUTHORIZATION)[A-Z0-9_]*)=("
   ++ quoted_or_bare ++ ")")%string.
Definition QUERY_ASSIGN_RE : string :=
  "(?i)([?&](?:api[_-]?key|apikey|appid|token|access_token|refresh_token|client_secret|password|secret|authorization)=)([^&#\s]+)".
Definition BEARER_RE : string := "(?i)(bearer\s+)([^\s,;]+)".
Definition SECRET_ENV_ASSIGN_RE : string :=
  "(?i)\b[A-Z0-9_]*(?:API[_-]?KEY|TOKEN|SECRET|PASSWORD|ACCESS[_-]?TOKEN|AUTHORIZATION)[A-Z0-9_]*\s*=\s*\S+".
Definition VENDOR_TOKEN_RE : string :=
  "(?x)\b(?:gh[pousr]_[A-Za-z0-9]{16,}|github_pat_[A-Za-z0-9_]{20,}|glpat-[A-Za-z0-9_\-]{16,}|xox[abprs]-[A-Za-z0-9\-]{10,}|(?:AKIA|ASIA)[A-Z0-9]{16}|AIza[A-Za-z0-9_\-]{35}|sk-[A-Za-z0-9_\-]{16,}|(?:sk|rk)_(?:live|test)_[A-Za-z0-9]{16,}|npm_[A-Za-z0-9]{36}|dop_v1_[a-f0-9]{64})".
Definition AUTH_SCHEME_RE : string :=
  ("(?i)(authorization\s*:\s*(?:basic|token|digest)\s+)([^\s'" ++ dq ++ "]+)")%string.
Definition URL_USERINFO_RE : string := "(://[^/\s:@]+:)([^/\s@]+)(@)".
Definition PEM_BLOCK_RE : string :=
  "(?s)-----BEGIN [A-Z0-9 ]*PRIVATE KEY-----.*?-----END [A-Z0-9 ]*PRIVATE KEY-----".
Definition LONG_HEX_RE : string := "\b[a-fA-F0-9]{24,}\b".
Definition JWT_RE : string := "\b[A-Za-z0-9_-]{16,}\.[A-Za-z0-9_-]{8,}\.[A-Za-z0-9_-]{8,}\b".

Definition SENSITIVE_KEY_PARTS : list string :=
  ["secret"; "token"; "password"; "api_key"; "api-key"; "apikey"; "authorization"; "access_key";
   "access-key"; "access_token"; "access-token"; "refresh_token"; "refresh-token"; "client_secret";
   "client-secret"].

Definition is_sensitive_key (key : string) : bool :=
  existsb (contains (to_lowercase key)) SENSITIVE_KEY_PARTS.

Definition PROMPT_PARTS : list string :=
  ["api key"; "apikey"; "token"; "password"; "secret"; "private key"; "bearer"; "credential value";
   "paste the key"; "paste your key"; "enter your key"].

Definition looks_like_secret_collection_prompt (text : string) : bool :=
  existsb (contains (to_lowercase text)) PROMPT_PARTS.

(** The name of [$NAME], [${NAME}] or [%NAME%]; [None] where the source returns
    early. *)
Definition reference_name (v : string) : option string :=
  match strip_prefix v "${" with
  | Some rest => strip_suffix_char rest "}"
  | None =>
      match strip_prefix v "$" with
      | Some rest => Some rest
      | None =>
          match strip_prefix v "%" with
          | Some rest =>
              if ends_with v "%" then Some (String.substring 0 (String.length rest - 1) rest) else None
          | None => None
          end
      end
  end.

Definition is_variable_reference (value : string) : bool :=
  let quote c := (c =? dquote)%char || (c =? squote)%char in
  match reference_name (trim_end_by quote (trim_start_by quote (trim value))) with
  | None => false
  | Some inner =>
      negb (str_is_empty inner)
      && negb (str_existsb (λ c, negb (is_ascii_alphanumeric c || (c =? "_")%char)) inner)
      && negb (match first_char inner with Some c => is_ascii_digit c | None => false end)
  end.

(** ** Masking *)

Section Masking.
Context (captures_iter : string → string → list (list (option (nat * nat)))).
Context (parse_json : string → option Json) (json_to_string : Json → string).

Definition is_match (re text : string) : bool :=
  match captures_iter re text with [] => false | _ => true end.

Definition looks_like_secret_value (text : string) : bool :=
  let t := trim text in
  if str_is_empty t then false
  else let lower := to_lowercase t in
    contains lower "bearer " || contains lower "api_key" || contains lower "apikey"
    || contains lower "access_token" || starts_with t "sk-" || contains t "-----BEGIN"
    || is_match VENDOR_TOKEN_RE t || is_match SECRET_ENV_ASSIGN_RE t || is_match LONG_HEX_RE t
    || is_match JWT_RE t.

(** [re.replace_all(text, f)]: what lies between the matches stays. *)
Fixpoint splice (text : string) (pos : nat) (f : list (option (nat * nat)) → string)
    (ms : list (list (option (nat * nat)))) : string :=
  match ms with
  | [] => slice text pos (String.length text)
  | caps :: ms =>
      match caps with
      | Some (a, b) :: _ => (slice text pos a ++ f caps ++ splice text b f ms)%string
      | _ => splice text pos f ms
      end
  end.

Definition replace_all (re text : string) (f : list (option (nat * nat)) → string) : string :=
  splice text 0 f (captures_iter re text).

Definition group (text : string) (caps : list (option (nat * nat))) (k : nat) : string :=
  default "" (cap_text text caps k).

(** The masked form of a named value, unless it is a reference to a variable. *)
Definition keep_refs (sep text : string) (caps : list (option (nat * nat))) : string :=
  let value := group text caps 2 in
  (group text caps 1 ++ sep ++ if is_variable_reference value then value else REDACTED)%string.

Definition redact_embedded_secrets (text : string) : string :=
  let masked_pem := replace_all PEM_BLOCK_RE text (λ _, REDACTED) in
  let masked_env := replace_all ENV_ASSIGN_RE masked_pem (keep_refs "=" masked_pem) in
  let masked_query := replace_all QUERY_ASSIGN_RE masked_env (keep_refs "" masked_env) in
  let masked_bearer := replace_all BEARER_RE masked_query (keep_refs "" masked_query) in
  let masked_scheme := replace_all AUTH_SCHEME_RE masked_bearer (keep_refs "" masked_bearer) in
  let masked_userinfo := replace_all URL_USERINFO_RE masked_scheme (λ caps,
    (group masked_scheme caps 1 ++ REDACTED ++ group masked_scheme caps 3)%string) in
  let masked_vendor := replace_all VENDOR_TOKEN_RE masked_userinfo (λ _, REDACTED) in
  let single_token := trim masked_vendor in
  if starts_with single_token "sk-" && negb (str_existsb is_whitespace single_token)
  then REDACTED else masked_vendor.

Definition redact_string (s : string) : string :=
  let masked := redact_embedded_secrets s in
  if negb (masked =? s)%string then masked
  else if contains s "-----BEGIN" then REDACTED else s.

Fixpoint redact_json_value (value : Json) : Json :=
  match value with
  | JObject m =>
      JObject (map (λ kv, (kv.1, if is_sensitive_key kv.1 then JString REDACTED
                                 else redact_json_value kv.2)) m)
  | JArray items => JArray (map redact_json_value items)
  | JString s => JString (redact_string s)
  | other => other
  end.

Definition redact_text_for_logs (text : string) : string :=
  match parse_json text with
  | Some v => json_to_string (redact_json_value v)
  | None => redact_embedded_secrets text
  end.

(** The constructors of [RedactedPayload]; the last trusts its caller. *)
Definition payload_from_raw (v : Json) : Json := redact_json_value v.
Definition payload_from_raw_str (text : string) : Json :=
  let redacted := redact_text_for_logs text in
  default (JString redacted) (parse_json redacted).
Definition payload_from_redacted (v : Json) : Json := v.

(** ** Who appends to a causal log

    Every call outside tests that hands a payload to [CausalLogger]: the request
    tracer of the gateway ([tracing/session_tracer.rs], whose logger writes to
    [/dev/null] since gateway events moved to the database), the memory bridge of the
    sandbox, the promotion tool, the session tracer
    ([runtime/session_tracer.rs], through which every event of a session goes) and
    the federation of messages. *)
Inductive LogCall : Type :=
| LogRequested (payload : option Json)
| LogCompleted (reason : option string) (payload : option Json)
| LogFailed (reason : string) (payload : option Json)
| LogSkipped (reason : string) (payload : option Json)
| LogDenied (reason : string) (payload : option Json)
| SdkBridgeEvent (payload : Json)
| SdkBridgeAbuse (violation detail : string)
| PromotionRecorded (artifact_id role : string) (pass : bool) (execution_trace_id : option string)
| SessionEvent (payload : option Json)
| FederationContinuity (payload : Json).

Definition logged_payload (c : LogCall) : option Json :=
  match c with
  | LogRequested p | LogCompleted _ p => payload_from_raw <$> p
  | LogFailed reason _ | LogSkipped reason _ | LogDenied reason _ =>
      Some (payload_from_raw (json_object [("reason", JString reason)]))
  | SdkBridgeEvent p => Some (payload_from_raw p)
  | SdkBridgeAbuse violation detail =>
      Some (payload_from_raw (json_object [("detail", JString detail); ("violation", JString violation)]))
  | PromotionRecorded artifact role pass trace =>
      Some (payload_from_raw (json_object [("arguments", json_object
        [("artifact_id", JString artifact); ("role", JString role); ("pass", JBool pass);
         ("execution_trace_id", json_opt_str trace)])]))
  | SessionEvent p => payload_from_redacted <$> p
  | FederationContinuity p => Some (payload_from_redacted p)
  end.

(** The calls that mask what they log themselves. *)
Definition masks (c : LogCall) : bool :=
  match c with SessionEvent _ | FederationContinuity _ => false | _ => true end.

(** ** What the masking of a value hides *)

(** Induction through the lists of a JSON value. *)
Lemma json_ind' (P : Json → Prop) :
  P JNull → (∀ b, P (JBool b)) → (∀ z, P (JNumber z)) → (∀ s, P (JString s)) →
  (∀ l, Forall P l → P (JArray l)) → (∀ m, Forall P m.*2 → P (JObject m)) → ∀ v, P v.
Proof.
  intros Hn Hb Hz Hs Ha Ho. fix IH 1. intros [|b|z|s|l|m]; [exact Hn|apply Hb|apply Hz|apply Hs| |].
  - apply Ha. induction l as [|v l IHl]; constructor; [apply IH|exact IHl].
  - apply Ho. induction m as [|[k v] m IHm]; constructor; [apply IH|exact IHm].
Qed.

(** Two values that differ at most below sensitive keys. *)
Inductive same_public : Json → Json → Prop :=
| public_scalar v : same_public v v
| public_array l l' : Forall2 same_public l l' → same_public (JArray l) (JArray l')
| public_object m m' :
    Forall2 (λ kv kv', kv.1 = kv'.1 ∧ (is_sensitive_key kv.1 = true ∨ same_public kv.2 kv'.2)) m m' →
    same_public (JObject m) (JObject m').

(** Nothing is left below a sensitive key, at any depth. *)
Inductive hidden : Json → Prop :=
| hidden_scalar v : json_as_array v = None → json_as_object v = None → hidden v
| hidden_array l : Forall hidden l → hidden (JArray l)
| hidden_object m :
    Forall (λ kv, (is_sensitive_key kv.1 = true → kv.2 = JString REDACTED) ∧ hidden kv.2) m →
    hidden (JObject m).

Lemma redact_hidden v : hidden (redact_json_value v).
Proof.
  induction v as [| | | |l IH|m IH] using json_ind'; simpl.
  1-4: by apply hidden_scalar.
  - apply hidden_array. by apply Forall_fmap.
  - apply hidden_object. apply Forall_fmap. rewrite Forall_fmap in IH.
    eapply Forall_impl; [exact IH|]. intros [k v] Hv. simpl in *.
    destruct (is_sensitive_key k); [split; [done|by apply hidden_scalar]|by split].
Qed.

Lemma redact_same_public v w : same_public v w → redact_json_value v = redact_json_value w.
Proof.
  revert w. induction v as [| | | |l IH|m IH] using json_ind'; intros w H; inversion H; subst; try done.
  - simpl. f_equal. match goal with H : Forall2 _ _ _ |- _ => rename H into Hl end.
    clear H. induction Hl as [|v v' l l' Hv _ IHl]; [done|]. simpl. apply Forall_cons_1 in IH as [H1 H2].
    f_equal; auto.
  - simpl. f_equal. match goal with H : Forall2 _ _ _ |- _ => rename H into Hl end.
    clear H. induction Hl as [|[k v] [k' v'] m m' [Hk Hv] _ IHl]; [done|]. simpl in *. subst k'.
    apply Forall_cons_1 in IH as [H1 H2]. f_equal; [|auto].
    destruct (is_sensitive_key k); [done|]. f_equal. apply H1. by destruct Hv.
Qed.

(** Keys, lengths and the other scalars are kept. *)
Lemma redact_keys m : ∃ m', redact_json_value (JObject m) = JObject m' ∧ m'.*1 = m.*1.
Proof. eexists. split; [reflexivity|]. rewrite <-list_fmap_compose. by apply list_fmap_ext. Qed.

(** Two calls that differ at most below sensitive keys of the payload, and in what
    the tracer drops. *)
Inductive same_call : LogCall → LogCall → Prop :=
| same_itself c : same_call c c
| same_requested v w : same_public v w → same_call (LogRequested (Some v)) (LogRequested (Some w))
| same_completed r r' v w :
    same_public v w → same_call (LogCompleted r (Some v)) (LogCompleted r' (Some w))
| same_failed r p p' : same_call (LogFailed r p) (LogFailed r p')
| same_skipped r p p' : same_call (LogSkipped r p) (LogSkipped r p')
| same_denied r p p' : same_call (LogDenied r p) (LogDenied r p')
| same_bridge v w : same_public v w → same_call (SdkBridgeEvent v) (SdkBridgeEvent w).

Lemma logged_masked c :
  masks c = true → logged_payload c = None ∨ ∃ v, logged_payload c = Some (payload_from_raw v).
Proof.
  intros Hm. destruct c as [[p|]|r [p|]|r p|r p|r p|p|vi de|a ro ps tr|p|p]; try discriminate Hm;
    by (left; reflexivity) || (right; eexists; reflexivity).
Qed.

(** C34: What a call that masks its payload with [RedactedPayload::from_raw] logs (the
    memory bridge of the sandbox, the promotion tool, and the request tracer of the
    gateway, whose log is discarded today) is a function of what is public: whatever stands below a
    credential-shaped key, at any depth, leaves no trace in the payload, and below
    such a key there is only the marker.  The session tracer and the federation
    use [from_redacted], which masks nothing, and are not covered: see
    [session_event_is_logged_as_given]. *)
Theorem payload_hides_credentials c c' :
  masks c = true → same_call c c' →
  logged_payload c = logged_payload c' ∧ ∀ v, logged_payload c = Some v → hidden v.
Proof.
  intros Hm Hs. split.
  - destruct Hs as [c|v w H|r r' v w H|r p p'|r p p'|r p p'|v w H]; try done; simpl; f_equal;
      by apply redact_same_public.
  - intros v Hv. destruct (logged_masked c Hm) as [Hn|[w Hw]]; [by rewrite Hn in Hv|].
    rewrite Hw in Hv. injection Hv as <-. apply redact_hidden.
Qed.

(** The session tracer logs a payload as its caller gives it. *)
Lemma session_event_is_logged_as_given v : logged_payload (SessionEvent (Some v)) = Some v.
Proof. done. Qed.

Lemma is_sensitive_key_case k : is_sensitive_key (to_lowercase k) = is_sensitive_key k.
Proof. unfold is_sensitive_key. by rewrite to_lowercase_idem. Qed.

(** Without a match a text is kept as it is. *)
Lemma replace_all_none re text f : captures_iter re text = [] → replace_all re text f = text.
Proof.
  unfold replace_all. intros ->. unfold splice, slice. rewrite Nat.sub_0_r.
  rewrite <-(str_app_nil_r text) at 2. apply substring_app.
Qed.

(** ** Payloads of the session tracer

    The failure of a hook script ([runtime/middleware.rs]) and of a tool
    ([runtime/tool_call_processor.rs]), as the session tracer gets them. *)
Definition hook_failed_payload (stderr : string) : Json := json_object [("error", JString stderr)].

Definition tool_failure_payload (tool_name tool_id error_type message : string)
    (repair_hint : option string) (enforced_rules : list string) (recoverable : bool) : Json :=
  json_object [("tool_name", JString tool_name); ("tool_id", JString tool_id);
    ("error_type", JString error_type); ("message", JString message); ("reason", JString message);
    ("repair_hint", json_opt_str repair_hint); ("enforced_rules", JArray (map JString enforced_rules));
    ("recoverable", JBool recoverable)].
End Masking.

(** A reference is kept in each of its spellings, a value never taken for one. *)
Example variable_references :
  forallb is_variable_reference ["$TOKEN"; "${TOKEN}"; "%TOKEN%"; "'$TOKEN'"] = true
  ∧ existsb is_variable_reference ["ghp_abc"; "$"; "${TOKEN"; "%"; "$1"; "$A-B"; ""] = false.
Proof. vm_compute. auto. Qed.

(** The credential a hook prints on its standard error is logged in the clear,
    although the same payload would have been masked by [from_raw]. *)
Example hook_error_is_logged_in_the_clear :
  let log c := logged_payload (λ _ _, []) c ≫= λ v, json_get v "error" in
  log (SessionEvent (Some (hook_failed_payload "sk-live-0123456789abcdef"))) = Some (JString "sk-live-0123456789abcdef")
  ∧ log (SdkBridgeEvent (hook_failed_payload "sk-live-0123456789abcdef")) = Some (JString REDACTED).
Proof. vm_compute. done. Qed.

Lemma payload_hides_credentials_witness :
  let call key := LogRequested (Some (JObject [("a", JNumber 1); ("api_key", JString key)])) in
  logged_payload (λ _ _, []) (call "s1") = logged_payload (λ _ _, []) (call "s2")
  ∧ ∀ v, logged_payload (λ _ _, []) (call "s1") = Some v → hidden v.
Proof.
  apply payload_hides_credentials; [reflexivity|]. apply same_requested, public_object. constructor.
  - split; [reflexivity|right; apply public_scalar].
  - constructor; [|constructor]. split; [reflexivity|left; reflexivity].
Defined.
