(* ===== verification/Checkpoint.v ===== *)
(** * Session checkpoints

    The model of [autonoetic-gateway/src/runtime/checkpoint.rs]: why a session
    yielded, what a checkpoint holds, and the directory of signed checkpoint
    files of a session with every operation that writes, reads, prunes or removes
    them, among them the copy an emergency stop leaves
    ([emergency_stop_root_session] of [execution.rs]) and the checkpoint a capsule
    restores ([capsule/import.rs]).

    The disk maps the sanitised name of a session to its files in the order
    [read_dir] lists them; a written file keeps its place, a new one comes last.
    Failures of the file system itself are left out.  [hmac_sign] is the [hmac]
    crate; [print_envelope], [read_envelope], [canonical_json] and
    [read_checkpoint] are the serde encodings of the envelope and of a checkpoint.
    The fields of a checkpoint no operation reads are one JSON value. *)

From Stdlib Require Import Ascii String ZArith Lia.
From stdpp Require Import prelude gmap strings list.
From coqutil Require Import Datatypes.RecordSetters.
From S2P Require Import Prelude RustStr Json Llm Egress ContentStore LoopGuard Workflow WorkflowStore Supervisor.
Import DoubleBraceUpdate.

Open Scope string_scope.
Open Scope nat_scope.
Open Scope list_scope.

(** ** What a checkpoint holds *)

Inductive YieldReason : Type :=
| Hibernation
| YieldIdle (since : string) (ttl_secs : Z)
| BudgetExhausted
| ApprovalRequired (approval_request_id : string)
| UserInputRequired (interaction_id : string)
| WaitingForChild (workflow : string) (task : option string)
| EmergencyStop (stop_id : string)
| MaxTurnsReached
| LoopGuardTripped (reason_code : string) (repairable : bool) (repairs : Z)
| ManualStop
| YieldError (message : string)
| HumanEscalation (escalation_request_id : string)
| ParentTerminated (parent_session_id reason : string).

Record PendingToolState := {
  completed_tool_results : list (string * string * string);
  pending_call_id : string;
  pending_tool_name : string;
  pending_arguments : string;
  pending_approval_response : option string;
  remaining_tool_calls : list ToolCall;
}.

Record SessionCheckpoint := {
  history : list Message;
  turn_counter : Z;
  loop_guard_state : LoopGuard;
  cp_egress_labels : list (string * EgressLabel);
  cp_agent_id : string;
  cp_session_id : string;
  cp_turn_id : string;
  yield_reason : YieldReason;
  pending_tool_state : option PendingToolState;
  assistant_message : option Message;
  pending_action : option Json;
  suspended_at : option string;
  suppress_until_turn : Z;
  trajectory_last_level : option string;
  feedback_events : list (Z * Json);
  cp_other : Json;
}.

(** ** Names *)

Definition is_path_char (c : ascii) : bool :=
  is_ascii_alphanumeric c || (c =? "-")%char || (c =? "_")%char || (c =? ".")%char.

Definition sanitize_path_component (s : string) : string :=
  str_map (λ c, if is_path_char c then c else "_"%char) s.

Fixpoint zeros (n : nat) : string := match n with 0 => "" | S n => String "0" (zeros n) end.

(** [format!("turn-{:06}", turn)]. *)
Definition turn_id_for (turn : Z) : string :=
  let n := show_Z turn in ("turn-" ++ zeros (6 - String.length n) ++ n)%string.

Definition turn_number_from_id (turn_id : string) : option Z :=
  n ← strip_prefix turn_id "turn-"; parse_u64 n.

Definition CHECKPOINT_SUFFIX : string := ".checkpoint.json".

Definition checkpoint_file (turn_id : string) : string :=
  (sanitize_path_component turn_id ++ CHECKPOINT_SUFFIX)%string.

Definition strip_suffix (s p : string) : option string :=
  if ends_with s p then Some (String.substring 0 (String.length s - String.length p) s) else None.

Definition is_checkpoint_file (f : string * string) : bool := ends_with f.1 CHECKPOINT_SUFFIX.

(** [checkpoint_hmac_key]: the configured key, or one derived from the node. *)
Definition checkpoint_hmac_key (continuation_key : option string) (node_id : string) : string :=
  default ("autonoetic-checkpoint-" ++ node_id)%string continuation_key.

(** [0] keeps everything. *)
Definition checkpoint_retention (session_checkpoints : nat) : option nat :=
  match session_checkpoints with 0 => None | n => Some n end.

(** ** The files of a session *)

Abbreviation Dir := (list (string * string)).
Abbreviation CheckpointDisk := (gmap string Dir).

Fixpoint put_file (name content : string) (d : Dir) : Dir :=
  match d with
  | [] => [(name, content)]
  | (n, c) :: d => if (n =? name)%string then (n, content) :: d else (n, c) :: put_file name content d
  end.

Fixpoint file_content (name : string) (d : Dir) : option string :=
  match d with
  | [] => None
  | (n, c) :: d => if (n =? name)%string then Some c else file_content name d
  end.

Definition session_dir (disk : CheckpointDisk) (session : string) : Dir :=
  default [] (disk !! sanitize_path_component session).

(** Every operation below changes one directory, if it is there. *)
Definition update_dir (disk : CheckpointDisk) (session : string) (f : Dir → Dir) : CheckpointDisk :=
  alter f (sanitize_path_component session) disk.

Inductive CheckpointError : Type :=
| IntegrityError (session turn message : string)
| UnreadableCheckpoint.

Definition is_integrity_error (e : CheckpointError) : bool :=
  match e with IntegrityError _ _ _ => true | UnreadableCheckpoint => false end.

Section Checkpoints.
Context (hmac_sign : string → string → string).
Context (print_envelope : string → string → string).
Context (read_envelope : string → option (string * string)).
Context (canonical_json : SessionCheckpoint → string).
Context (read_checkpoint : string → option SessionCheckpoint).

Definition hmac_verify (secret data signature : string) : bool :=
  (hmac_sign secret data =? signature)%string.

Definition save_checkpoint (key : string) (disk : CheckpointDisk) (cp : SessionCheckpoint)
    : CheckpointDisk :=
  let payload_json := canonical_json cp in
  let json := print_envelope payload_json (hmac_sign key payload_json) in
  let dir := sanitize_path_component (cp_session_id cp) in
  <[dir := put_file (checkpoint_file (cp_turn_id cp)) json (default [] (disk !! dir))]> disk.

Definition load_checkpoint (key : string) (disk : CheckpointDisk) (session turn_id : string)
    : result (option SessionCheckpoint) CheckpointError :=
  match file_content (checkpoint_file turn_id) (session_dir disk session) with
  | None => Ok None
  | Some json =>
      match read_envelope json with
      | Some (payload_json, hmac_hex) =>
          if negb (hmac_verify key payload_json hmac_hex)
          then Err (IntegrityError session turn_id "HMAC mismatch")
          else match read_checkpoint payload_json with
               | Some cp => Ok (Some cp)
               | None => Err UnreadableCheckpoint
               end
      | None =>
          match read_checkpoint json with
          | Some cp => Ok (Some cp)
          | None => Err UnreadableCheckpoint
          end
      end
  end.

Definition verify_and_deserialize_checkpoint (key json : string) : option SessionCheckpoint :=
  match read_envelope json with
  | Some (payload_json, hmac_hex) =>
      if negb (hmac_verify key payload_json hmac_hex) then None else read_checkpoint payload_json
  | None => read_checkpoint json
  end.

(** The checkpoint of a directory entry, when it is one and is accepted. *)
Definition entry_checkpoint (key : string) (f : string * string) : option SessionCheckpoint :=
  if is_checkpoint_file f then verify_and_deserialize_checkpoint key f.2 else None.

(** The first of the entries with the highest turn. *)
Definition newer (latest : option SessionCheckpoint) (cp : SessionCheckpoint)
    : option SessionCheckpoint :=
  match latest with
  | None => Some cp
  | Some prev => if (turn_counter prev <? turn_counter cp)%Z then Some cp else latest
  end.

Definition load_latest_checkpoint (key : string) (disk : CheckpointDisk) (session : string)
    : option SessionCheckpoint :=
  fold_left newer (omap (entry_checkpoint key) (session_dir disk session)) None.

(** The turn a file claims by its name, with its text. *)
Definition claimed_turn (f : string * string) : option (Z * string) :=
  stem ← strip_suffix f.1 CHECKPOINT_SUFFIX;
  Some (default 0%Z (turn_number_from_id stem), f.2).

Definition by_turn_desc (a b : Z * string) : comparison := Z.compare b.1 a.1.

Fixpoint first_readable (key session : string) (entries : list (Z * string))
    : result (option SessionCheckpoint) CheckpointError :=
  match entries with
  | [] => Ok None
  | (turn, json) :: entries =>
      match read_envelope json with
      | Some (payload_json, hmac_hex) =>
          if negb (hmac_verify key payload_json hmac_hex)
          then Err (IntegrityError session (turn_id_for turn) "HMAC mismatch on latest checkpoint")
          else match read_checkpoint payload_json with
               | Some cp => Ok (Some cp)
               | None => first_readable key session entries
               end
      | None =>
          match read_checkpoint json with
          | Some cp => Ok (Some cp)
          | None => first_readable key session entries
          end
      end
  end.

Definition load_latest_checkpoint_strict (key : string) (disk : CheckpointDisk) (session : string)
    : result (option SessionCheckpoint) CheckpointError :=
  first_readable key session (sort_by by_turn_desc (omap claimed_turn (session_dir disk session))).

(** The edits of the latest checkpoint of a session. *)
Definition edit_latest (key : string) (disk : CheckpointDisk) (session : string)
    (f : SessionCheckpoint → SessionCheckpoint) : CheckpointDisk :=
  match load_latest_checkpoint key disk session with
  | None => disk
  | Some cp => save_checkpoint key disk (f cp)
  end.

Definition with_guard (f : LoopGuard → LoopGuard) (cp : SessionCheckpoint) : SessionCheckpoint :=
  cp{{ loop_guard_state := f (loop_guard_state cp) }}.

Definition enter_repair_mode_on_latest_checkpoint (key : string) (disk : CheckpointDisk)
    (session : string) (max_repair_loops : Z) : CheckpointDisk :=
  edit_latest key disk session (with_guard (λ g, enter_repair_mode g max_repair_loops)).

Definition reset_after_successful_repair_on_latest_checkpoint (key : string)
    (disk : CheckpointDisk) (session : string) : CheckpointDisk :=
  edit_latest key disk session (with_guard reset_after_successful_repair).

Definition exit_repair_mode_on_latest_checkpoint (key : string) (disk : CheckpointDisk)
    (session : string) : CheckpointDisk :=
  edit_latest key disk session (with_guard exit_repair_mode).

Definition append_feedback_to_latest_checkpoint (key : string) (disk : CheckpointDisk)
    (session : string) (events : list Json) : CheckpointDisk :=
  match events with
  | [] => disk
  | _ => edit_latest key disk session (λ cp,
           cp{{ feedback_events := feedback_events cp ++ map (pair (turn_counter cp)) events }})
  end.

Definition cleanup_session_checkpoints (disk : CheckpointDisk) (session : string) : CheckpointDisk :=
  update_dir disk session (List.filter (λ f, negb (is_checkpoint_file f))).

Definition delete_checkpoint (disk : CheckpointDisk) (session turn_id : string) : CheckpointDisk :=
  update_dir disk session (List.filter (λ f, negb (f.1 =? checkpoint_file turn_id)%string)).

(** The approval a file is bound to. *)
Definition bound_approval (key : string) (f : string * string) : option string :=
  cp ← entry_checkpoint key f;
  match yield_reason cp with ApprovalRequired id => Some id | _ => None end.

Definition is_bound_to (key approval_id : string) (f : string * string) : bool :=
  match bound_approval key f with Some id => (id =? approval_id)%string | None => false end.

Definition delete_approval_bound_checkpoint (key : string) (disk : CheckpointDisk)
    (session approval_id : string) : CheckpointDisk * nat :=
  (update_dir disk session (List.filter (λ f, negb (is_bound_to key approval_id f))),
   length (List.filter (is_bound_to key approval_id) (session_dir disk session))).

(** [get_approval] as the reaper reads it: an error of the store, no row, or the
    status of the row. *)
Definition is_orphan (get_approval : string → result (option (option DecidedStatus)) unit)
    (id : string) : bool :=
  match get_approval id with
  | Ok (Some (Some DRejected)) | Ok (Some (Some DCancelled)) => true
  | Ok (Some _) => false
  | Ok None => true
  | Err _ => false
  end.

Definition is_orphan_file (key : string)
    (get_approval : string → result (option (option DecidedStatus)) unit) (f : string * string) : bool :=
  match bound_approval key f with Some id => is_orphan get_approval id | None => false end.

Definition reap_orphan_checkpoints (key : string) (disk : CheckpointDisk)
    (get_approval : string → result (option (option DecidedStatus)) unit) : CheckpointDisk :=
  List.filter (λ f, negb (is_orphan_file key get_approval f)) <$> disk.

(** The names [prune] removes: of the accepted files all but the [keep] of the
    highest turns. *)
Definition accepted_turn (key : string) (f : string * string) : option (Z * string) :=
  cp ← entry_checkpoint key f; Some (turn_counter cp, f.1).

Definition pruned_names (key : string) (keep : nat) (d : Dir) : list string :=
  snd <$> drop keep (sort_by by_turn_desc (omap (accepted_turn key) d)).

Definition prune_checkpoints (key : string) (disk : CheckpointDisk) (session : string)
    (keep_last : option nat) : CheckpointDisk :=
  match keep_last with
  | None => disk
  | Some keep =>
      update_dir disk session (λ d,
        List.filter (λ f, negb (existsb (String.eqb f.1) (pruned_names key keep d))) d)
  end.

Definition by_turn_asc (a b : Z * string) : comparison := Z.compare a.1 b.1.

Definition list_checkpoints (key : string) (disk : CheckpointDisk) (session : string) : list string :=
  snd <$> sort_by by_turn_asc
    ((λ cp, (turn_counter cp, cp_turn_id cp)) <$> omap (entry_checkpoint key) (session_dir disk session)).

(** ** The checkpoint of an emergency stop *)

(** [LoopGuard::default()] with the limits of the stub. *)
Definition stub_guard : LoopGuard :=
  (with_config default_config){{ max_loops_without_progress := 32%Z; max_tool_failures := 5%Z;
    max_consecutive_same_progress := 0%Z; max_child_failures := 3%Z; progress_budget_tools := ∅ }}.

Definition stub_checkpoint (session agent_id : string) (other : Json) : SessionCheckpoint :=
  {| history := []; turn_counter := 0; loop_guard_state := stub_guard; cp_egress_labels := [];
     cp_agent_id := agent_id; cp_session_id := session; cp_turn_id := ""; yield_reason := Hibernation;
     pending_tool_state := None; assistant_message := None; pending_action := None; suspended_at := None;
     suppress_until_turn := 0; trajectory_last_level := None; feedback_events := []; cp_other := other |}.

Definition emergency_turn_id (stop_id : string) : string := ("emergency-" ++ stop_id)%string.

(** A copy of the latest checkpoint, or a stub for the lead of the workflow;
    [touch] writes the time and the workflow. *)
Definition emergency_checkpoint (session stop_id : string) (lead : option string)
    (existing : option SessionCheckpoint) (stub_other : Json) (touch : Json → Json)
    : option SessionCheckpoint :=
  base ← match existing with
         | Some cp => Some cp
         | None => l ← lead;
                   if str_is_empty (trim l) then None else Some (stub_checkpoint session (trim l) stub_other)
         end;
  Some (base{{ yield_reason := EmergencyStop stop_id; cp_turn_id := emergency_turn_id stop_id;
               cp_other := touch (cp_other base) }}).

(** [None] is the error of a session with neither checkpoint nor lead. *)
Definition write_emergency_checkpoint (key : string) (disk : CheckpointDisk) (session stop_id : string)
    (lead : option string) (stub_other : Json) (touch : Json → Json) : option CheckpointDisk :=
  cp ← emergency_checkpoint session stop_id lead (load_latest_checkpoint key disk session) stub_other touch;
  Some (save_checkpoint key disk cp).

(** ** The checkpoint of a capsule *)

Inductive RestoreError : Type := BadHandle | NotACheckpoint | OtherAgent (agent_id : string).

Definition validate_archive_relative_path (p : string) : bool :=
  negb (str_is_empty p) && negb (starts_with p "/") && negb (str_existsb (λ c, (c =? "\")%char) p)
  && negb (existsb (λ c, (c =? "..")%string) (split (Ascii.eqb "/"%char) p)).

(** [read] gives the files of the extracted capsule. *)
Definition restore_checkpoint (key : string) (disk : CheckpointDisk) (manifest_agent_id : string)
    (checkpoint_handle : option string) (read : string → option string)
    : result (CheckpointDisk * bool) RestoreError :=
  match checkpoint_handle with
  | None => Ok (disk, false)
  | Some rel =>
      if negb (validate_archive_relative_path rel) then Err BadHandle
      else match read rel with
      | None => Ok (disk, false)
      | Some bytes =>
          match read_checkpoint bytes with
          | None => Err NotACheckpoint
          | Some ckpt =>
              if negb (cp_agent_id ckpt =? manifest_agent_id)%string then Err (OtherAgent (cp_agent_id ckpt))
              else Ok (save_checkpoint key disk ckpt, true)
          end
      end
  end.

(** ** Forks *)

Record SessionFork := {
  new_session_id : string;
  source_session_id : string;
  fork_turn : Z;
  history_handle : string;
  initial_history : list Message;
  fork_agent_id : string;
}.

Definition user_message (text : string) : Message :=
  {| msg_id := None; msg_role := RoleUser; msg_content := text; msg_tool_calls := [];
     msg_tool_call_id := None; msg_reasoning_content := None; msg_reasoning_details := None |}.

Inductive ForkError : Type := NoCheckpoint | ForkStore (e : StoreError).

Context (sha256_hex : string → string) (print_history : list Message → string).

(** The checkpoint of the fork; [session] is the given id or a fresh one. *)
Definition forked_checkpoint (cp : SessionCheckpoint) (session : string)
    (branch_message : option string) : SessionCheckpoint :=
  {| history := history cp ++ match branch_message with Some m => [user_message m] | None => [] end;
     turn_counter := turn_counter cp;
     loop_guard_state := (loop_guard_state cp){{ trip_reason := None }};
     cp_egress_labels := cp_egress_labels cp;
     cp_agent_id := cp_agent_id cp; cp_session_id := session; cp_turn_id := cp_turn_id cp;
     yield_reason := Hibernation; pending_tool_state := None; assistant_message := None;
     pending_action := None; suspended_at := None; suppress_until_turn := 0;
     trajectory_last_level := None; feedback_events := []; cp_other := cp_other cp |}.

(** The copy of the history, for display. *)
Definition copy_history (session : string) (history : list Message) : StoreM string :=
  handle ← write sha256_hex (print_history history);
  register_name session "session_history" handle;;
  mret handle.

Definition fork_from_checkpoint (key : string) (disk : CheckpointDisk) (cp : SessionCheckpoint)
    (session : string) (branch_message : option string) (store : ContentStore)
    : ContentStore * result (CheckpointDisk * SessionFork) ForkError :=
  let forked := forked_checkpoint cp session branch_message in
  match copy_history session (history forked) store with
  | (store, Err e) => (store, Err (ForkStore e))
  | (store, Ok handle) =>
      (store, Ok (save_checkpoint key disk forked,
        {| new_session_id := session; source_session_id := cp_session_id cp;
           fork_turn := turn_counter cp; history_handle := handle;
           initial_history := history forked; fork_agent_id := cp_agent_id cp |}))
  end.

Definition fork (key : string) (disk : CheckpointDisk) (source session : string)
    (branch_message : option string) (store : ContentStore)
    : ContentStore * result (CheckpointDisk * SessionFork) ForkError :=
  match load_latest_checkpoint key disk source with
  | None => (store, Err NoCheckpoint)
  | Some cp => fork_from_checkpoint key disk cp session branch_message store
  end.
End Checkpoints.

(** ** The latest checkpoint *)

(** The first of those with the highest [k]. *)
Definition newer_by (k : SessionCheckpoint → Z) (latest : option SessionCheckpoint)
    (cp : SessionCheckpoint) : option SessionCheckpoint :=
  match latest with
  | None => Some cp
  | Some prev => if (k prev <? k cp)%Z then Some cp else latest
  end.

Definition newest_by (k : SessionCheckpoint → Z) (l : list SessionCheckpoint)
    : option SessionCheckpoint := fold_left (newer_by k) l None.

Section Newest.
Context (k : SessionCheckpoint → Z).

Lemma newer_by_fold l acc :
  fold_left (newer_by k) l acc = match acc, fold_left (newer_by k) l None with
                          | None, r => r
                          | Some a, None => Some a
                          | Some a, Some r => (newer_by k) (Some a) r
                          end.
Proof.
  revert acc. induction l as [|x l IH]; intros acc; [by destruct acc|]. cbn [fold_left].
  rewrite (IH ((newer_by k) acc x)), (IH ((newer_by k) None x)). destruct acc as [a|]; [|done]. simpl.
  destruct (fold_left (newer_by k) l None) as [r|]; simpl.
  - destruct (Z.ltb_spec (k a) (k x)); simpl;
      destruct (Z.ltb_spec (k x) (k r)); simpl;
      destruct (Z.ltb_spec (k a) (k r)); simpl;
      try (destruct (Z.ltb_spec (k a) (k x))); done || lia.
  - by destruct (_ <? _)%Z.
Qed.

(** The latest is the first of those with the highest turn. *)
Lemma newest_by_spec l cp :
  fold_left (newer_by k) l None = Some cp ↔
  ∃ l1 l2, l = l1 ++ cp :: l2 ∧ (∀ x, x ∈ l1 → (k x < k cp)%Z)
    ∧ ∀ x, x ∈ l2 → (k x ≤ k cp)%Z.
Proof.
  split.
  - revert cp. induction l as [|x l IH]; intros cp; [done|]. cbn [fold_left]. rewrite newer_by_fold. simpl.
    destruct (fold_left (newer_by k) l None) as [r|] eqn:E.
    + destruct (IH r eq_refl) as (l1 & l2 & -> & H1 & H2).
      destruct (Z.ltb_spec (k x) (k r)) as [Hlt|Hge]; intros [= <-].
      * exists (x :: l1), l2. split; [done|]. split; [|done].
        intros y [->|Hy]%elem_of_cons; [done|by apply H1].
      * exists [], (l1 ++ r :: l2). split; [done|]. split; [by intros ? ?%not_elem_of_nil|].
        intros y [Hy|[->|Hy]%elem_of_cons]%elem_of_app; [specialize (H1 y Hy)| |specialize (H2 y Hy)]; lia.
    + intros [= <-]. exists [], l. split; [done|]. split; [by intros ? ?%not_elem_of_nil|].
      destruct l as [|y l]; [by intros ? ?%not_elem_of_nil|]. cbn [fold_left] in E.
      rewrite newer_by_fold in E. simpl in E. destruct (fold_left (newer_by k) l None); [|done].
      simpl in E. by destruct (_ <? _)%Z.
  - intros (l1 & l2 & -> & H1 & H2). rewrite fold_left_app. cbn [fold_left].
    assert (∀ acc, (∀ a, acc = Some a → (k a < k cp)%Z) → (newer_by k) acc cp = Some cp) as Hn.
    { intros [a|] Ha; [|done]. simpl. specialize (Ha a eq_refl). by rewrite (proj2 (Z.ltb_lt _ _)). }
    rewrite Hn.
    + clear H1. induction l2 as [|x l2 IH]; [done|]. cbn [fold_left]. simpl.
      rewrite (proj2 (Z.ltb_ge _ _)) by (apply H2; set_solver). apply IH. set_solver.
    + intros a. clear -H1. revert a. induction l1 as [|x l1 IH] using rev_ind; [done|].
      intros a. rewrite fold_left_app. cbn [fold_left].
      assert (∀ b, fold_left (newer_by k) l1 None = Some b → (k b < k cp)%Z) as IH'
        by (apply IH; set_solver).
      assert (k x < k cp)%Z by (apply H1; set_solver).
      destruct (fold_left (newer_by k) l1 None) as [b|]; simpl; [|by intros [= <-]].
      destruct (_ <? _)%Z; intros [= <-]; auto.
Qed.

Lemma newest_by_none l : newest_by k l = None ↔ l = [].
Proof.
  split; [|by intros ->]. unfold newest_by. destruct l as [|x l]; [done|]. cbn [fold_left].
  rewrite newer_by_fold. simpl. destruct (fold_left _ l None); [|done]. simpl. by destruct (_ <? _)%Z.
Qed.

Lemma newest_by_max l cp x : newest_by k l = Some cp → x ∈ l → (k x ≤ k cp)%Z.
Proof.
  intros (l1 & l2 & -> & H1 & H2)%newest_by_spec [Hx|[->|Hx]%elem_of_cons]%elem_of_app;
    [specialize (H1 x Hx)|done|specialize (H2 x Hx)]; lia.
Qed.

Lemma newest_by_elem l cp : newest_by k l = Some cp → cp ∈ l.
Proof. intros (l1 & l2 & -> & _)%newest_by_spec. set_solver. Qed.
End Newest.

(** Two orders that rank a list alike have the same newest. *)
Lemma newest_by_ext k k' l :
  Forall (λ x, k x = k' x) l → newest_by k l = newest_by k' l.
Proof.
  intros Hf. destruct (newest_by k l) as [c|] eqn:E; symmetry.
  - apply newest_by_spec in E as (l1 & l2 & -> & H1 & H2). apply newest_by_spec. exists l1, l2.
    rewrite Forall_app, Forall_cons in Hf. destruct Hf as (F1 & Hc & F2). rewrite Forall_forall in F1, F2.
    split; [done|]. rewrite <-Hc.
    split; intros x Hx; [rewrite <-F1 by done|rewrite <-F2 by done]; auto.
  - apply newest_by_none in E. by apply newest_by_none.
Qed.

Lemma newer_fold l acc :
  fold_left newer l acc = match acc, fold_left newer l None with
                          | None, r => r
                          | Some a, None => Some a
                          | Some a, Some r => newer (Some a) r
                          end.
Proof. exact (newer_by_fold turn_counter l acc). Qed.

Lemma newest_spec l cp :
  fold_left newer l None = Some cp ↔
  ∃ l1 l2, l = l1 ++ cp :: l2 ∧ (∀ x, x ∈ l1 → (turn_counter x < turn_counter cp)%Z)
    ∧ ∀ x, x ∈ l2 → (turn_counter x ≤ turn_counter cp)%Z.
Proof. exact (newest_by_spec turn_counter l cp). Qed.

Lemma desc_insert_first x l :
  (∀ y, y ∈ l → (y.1 ≤ x.1)%Z) → insert_by by_turn_desc x l = x :: l.
Proof.
  destruct l as [|y l]; [done|]. intros H. simpl. unfold by_turn_desc.
  specialize (H y ltac:(by left)). by destruct (Z.compare_spec y.1 x.1); [..|lia].
Qed.

(** The first of the highest comes first. *)
Lemma desc_sort_head x l1 l2 :
  (∀ y, y ∈ l1 → (y.1 < x.1)%Z) → (∀ y, y ∈ l2 → (y.1 ≤ x.1)%Z) →
  ∃ rest, sort_by by_turn_desc (l1 ++ x :: l2) = x :: rest ∧ rest ≡ₚ l1 ++ l2.
Proof.
  intros H1 H2. induction l1 as [|y l1 IH].
  - exists (sort_by by_turn_desc l2). split; [|by rewrite (sort_by_perm _ l2)].
    apply desc_insert_first. intros y Hy. apply H2. by rewrite (sort_by_perm _ l2) in Hy.
  - destruct IH as (rest & Hs & Hp); [set_solver|]. exists (insert_by by_turn_desc y rest).
    split; [|by rewrite insert_by_perm, Hp]. cbn [app]. unfold sort_by in *. cbn [foldr].
    rewrite Hs. cbn [insert_by]. unfold by_turn_desc at 1.
    specialize (H1 y ltac:(by left)). by destruct (Z.compare_spec x.1 y.1); [lia..|].
Qed.

(** ** Pruning *)

Section Prune.
Context (hmac_sign : string → string → string).
Context (read_envelope : string → option (string * string)).
Context (read_checkpoint : string → option SessionCheckpoint).
Context (key : string).

Notation entry := (entry_checkpoint hmac_sign read_envelope read_checkpoint key).
Notation accepted := (accepted_turn hmac_sign read_envelope read_checkpoint key).
Notation pruned := (pruned_names hmac_sign read_envelope read_checkpoint key).
Notation latest := (load_latest_checkpoint hmac_sign read_envelope read_checkpoint key).
Notation prune := (prune_checkpoints hmac_sign read_envelope read_checkpoint key).

Definition keeps (keep : nat) (d : Dir) (f : string * string) : bool :=
  negb (existsb (String.eqb f.1) (pruned keep d)).

Lemma accepted_entry f x : accepted f = Some x ↔ ∃ cp, entry f = Some cp ∧ x = (turn_counter cp, f.1).
Proof. unfold accepted_turn. destruct (entry f); simpl; naive_solver. Qed.

Lemma keeps_spec keep d f : keeps keep d f = true ↔ f.1 ∉ pruned keep d.
Proof.
  unfold keeps. rewrite negb_true_iff, existsb_false. split.
  - intros H Hin. specialize (H _ Hin). by apply String.eqb_neq in H.
  - intros H x Hx. apply String.eqb_neq. by intros <-.
Qed.

Lemma accepted_nodup d : NoDup d.*1 → NoDup (omap accepted d).*2.
Proof.
  induction d as [|f d IH]; [constructor|]. cbn [fmap list_fmap omap list_omap]. intros [Hf Hd]%NoDup_cons.
  destruct (accepted f) as [x|] eqn:E; [|by apply IH]. cbn [fmap list_fmap]. constructor; [|by apply IH].
  apply accepted_entry in E as (cp & _ & ->). simpl. intros (y & Hy & Hin)%list_elem_of_fmap.
  apply list_elem_of_omap in Hin as (g & Hg & Hy'). apply accepted_entry in Hy' as (c & _ & ->).
  apply Hf. simpl in Hy. rewrite Hy. by apply list_elem_of_fmap_2.
Qed.

(** The file of the latest checkpoint is kept. *)
Lemma keeps_latest keep d1 d2 f cp :
  NoDup (d1 ++ f :: d2).*1 → entry f = Some cp →
  (∀ x, x ∈ omap entry d1 → (turn_counter x < turn_counter cp)%Z) →
  (∀ x, x ∈ omap entry d2 → (turn_counter x ≤ turn_counter cp)%Z) →
  keeps (S keep) (d1 ++ f :: d2) f = true.
Proof.
  intros Hnd Hf H1 H2. apply keeps_spec. unfold pruned_names.
  assert (accepted f = Some (turn_counter cp, f.1)) as Ha by (apply accepted_entry; eauto).
  assert (∀ (d : Dir) (P : Z → Prop), (∀ x, x ∈ omap entry d → P (turn_counter x)) →
    ∀ y, y ∈ omap accepted d → P y.1) as Hlift.
  { intros d P H y (g & Hg & (c & Hc & ->)%accepted_entry)%list_elem_of_omap. apply H.
    apply list_elem_of_omap. eauto. }
  destruct (desc_sort_head (turn_counter cp, f.1) (omap accepted d1) (omap accepted d2))
    as (rest & Hs & Hp); [by apply (Hlift d1 (λ t, t < _)%Z)|by apply (Hlift d2 (λ t, t ≤ _)%Z)|].
  assert (omap accepted (d1 ++ f :: d2) = omap accepted d1 ++ (turn_counter cp, f.1) :: omap accepted d2)
    as Ho by (rewrite omap_app; cbn [omap list_omap]; by rewrite Ha).
  rewrite Ho, Hs. cbn [drop]. intros Hin. apply accepted_nodup in Hnd. rewrite Ho in Hnd.
  rewrite fmap_app in Hnd. cbn [fmap list_fmap] in Hnd.
  assert (f.1 ∈ (omap accepted d1 ++ omap accepted d2).*2) as Hin'.
  { rewrite <-Hp. apply list_elem_of_fmap in Hin as (y & -> & Hy). apply list_elem_of_fmap_2.
    by eapply subseteq_drop. }
  rewrite fmap_app in Hin'. apply NoDup_app in Hnd as (_ & Hd & [Hn _]%NoDup_cons).
  apply elem_of_app in Hin' as [Hin'|Hin']; [|done]. apply (Hd _ Hin'). by left.
Qed.

Lemma omap_entry_split d cp l1 l2 :
  omap entry d = l1 ++ cp :: l2 →
  ∃ d1 f d2, d = d1 ++ f :: d2 ∧ entry f = Some cp ∧ omap entry d1 = l1 ∧ omap entry d2 = l2.
Proof.
  revert l1. induction d as [|g d IH]; intros l1 H; [by destruct l1|]. cbn [omap list_omap] in H.
  destruct (entry g) as [c|] eqn:E.
  - destruct l1 as [|x l1]; injection H as <- H.
    + by exists [], g, d.
    + destruct (IH l1 H) as (d1 & f & d2 & -> & Hf & <- & <-). exists (g :: d1), f, d2.
      split_and!; try done. cbn [omap list_omap]. by rewrite E.
  - destruct (IH l1 H) as (d1 & f & d2 & -> & Hf & <- & <-). exists (g :: d1), f, d2.
    split_and!; try done. cbn [omap list_omap]. by rewrite E.
Qed.

Lemma omap_filter_elem d p x : x ∈ omap entry (List.filter p d) → x ∈ omap entry d.
Proof.
  intros (g & Hg & Hx)%list_elem_of_omap. apply list_elem_of_omap. exists g. split; [|done].
  apply list_elem_of_In, filter_In in Hg as [Hg _]. by apply list_elem_of_In.
Qed.

Lemma pruned_latest keep d :
  NoDup d.*1 →
  fold_left newer (omap entry (List.filter (keeps (S keep) d) d)) None
  = fold_left newer (omap entry d) None.
Proof.
  intros Hnd. destruct (fold_left newer (omap entry d) None) as [cp|] eqn:E.
  - apply newest_spec in E as (l1 & l2 & Hl & H1 & H2).
    destruct (omap_entry_split _ _ _ _ Hl) as (d1 & f & d2 & Hd & Hf & <- & <-).
    pose proof (keeps_latest keep d1 d2 f cp) as Hk. rewrite <-Hd in Hk. specialize (Hk Hnd Hf H1 H2).
    apply newest_spec. set (p := keeps (S keep) d) in *. clearbody p.
    rewrite Hd, List.filter_app. cbn [List.filter]. rewrite Hk.
    rewrite omap_app. cbn [omap list_omap]. rewrite Hf. eexists _, _. split; [done|].
    split; intros x Hx; apply omap_filter_elem in Hx; auto.
  - assert (omap entry d = []) as Hn.
    { destruct (omap entry d) as [|x l]; [done|]. cbn [fold_left] in E. rewrite newer_fold in E.
      simpl in E. destruct (fold_left newer l None) as [r|]; [|done]. simpl in E. by destruct (_ <? _)%Z. }
    destruct (omap entry (List.filter _ d)) as [|x l] eqn:Ef; [done|].
    assert (x ∈ omap entry d) as Hx by (apply (omap_filter_elem d (keeps (S keep) d)); rewrite Ef; by left).
    rewrite Hn in Hx. by apply not_elem_of_nil in Hx.
Qed.

Lemma pruned_count keep d :
  NoDup d.*1 → length (omap entry (List.filter (keeps keep d) d)) ≤ keep.
Proof.
  intros Hnd.
  assert (length (omap entry (List.filter (keeps keep d) d))
    = length (omap accepted (List.filter (keeps keep d) d)).*2) as ->.
  { rewrite length_fmap. generalize (List.filter (keeps keep d) d). intros e.
    induction e as [|f e IH]; [done|]. cbn [omap list_omap]. unfold accepted_turn at 1.
    destruct (entry f); simpl; [by rewrite IH|done]. }
  set (L := sort_by by_turn_desc (omap accepted d)).
  etrans; [apply (submseteq_length _ ((take keep L).*2))|rewrite length_fmap, length_take; lia].
  apply NoDup_submseteq.
  { by apply accepted_nodup, filter_fmap_nodup. }
  intros n (x & -> & Hin)%list_elem_of_fmap.
  apply list_elem_of_omap in Hin as (f & [Hf Hk]%list_elem_of_In%filter_In & Hx).
  apply list_elem_of_In in Hf. pose proof Hx as (cp & Hcp & ->)%accepted_entry. simpl.
  apply keeps_spec in Hk.
  assert ((turn_counter cp, f.1) ∈ L) as HL.
  { unfold L. rewrite (sort_by_perm _ _). apply list_elem_of_omap. eauto. }
  rewrite <-(take_drop keep L) in HL. apply elem_of_app in HL as [HL|HL].
  - apply (list_elem_of_fmap_2 snd) in HL. exact HL.
  - apply (list_elem_of_fmap_2 snd) in HL. by apply Hk in HL.
Qed.
End Prune.

(** ** Names of turns *)

Lemma parse_zeros k s : parse_digits (zeros k ++ s) 0 = parse_digits s 0.
Proof. induction k as [|k IH]; [done|]. cbn [zeros String.append parse_digits]. exact IH. Qed.

Lemma show_Z_digits t : str_existsb (λ c, negb (is_ascii_digit c)) (show_Z t) = false.
Proof. apply show_N_digits. Qed.

Lemma show_Z_head t c r : show_Z t = String c r → is_ascii_digit c = true.
Proof.
  intros H. pose proof (show_Z_digits t) as Hd. rewrite H in Hd. cbn [str_existsb] in Hd.
  by apply orb_false_iff in Hd as [?%negb_false_iff _].
Qed.

Lemma show_Z_not_empty t : show_Z t ≠ "".
Proof. intros H. pose proof (show_N_parse (Z.to_N t)) as Hp. unfold show_Z in H. rewrite H in Hp.
  injection Hp as Hp. unfold show_N in H. rewrite <-Hp in H. vm_compute in H. done. Qed.

Lemma turn_number_turn_id t : (0 ≤ t < 2 ^ 64)%Z → turn_number_from_id (turn_id_for t) = Some t.
Proof.
  intros Ht. unfold turn_number_from_id, turn_id_for.
  set (k := 6 - String.length (show_Z t)).
  assert (strip_prefix ("turn-" ++ zeros k ++ show_Z t) "turn-" = Some (zeros k ++ show_Z t)%string) as ->
    by by apply strip_prefix_some.
  simpl. assert (∃ c r, (zeros k ++ show_Z t)%string = String c r ∧ is_ascii_digit c = true) as (c & r & Hs & Hc).
  { destruct k as [|k]; [|by eexists _, _]. simpl. destruct (show_Z t) as [|c r] eqn:E.
    - by apply show_Z_not_empty in E.
    - exists c, r. split; [done|]. by eapply show_Z_head. }
  assert (parse_digits (zeros k ++ show_Z t) 0 = Some (Z.to_N t)) as Hp
    by (rewrite parse_zeros; apply show_N_parse).
  rewrite Hs in Hp |- *. unfold parse_u64.
  assert ((match String c r with String "+" r => r | _ => String c r end) = String c r) as ->.
  { destruct c as [[] [] [] [] [] [] [] []]; try done; vm_compute in Hc; done. }
  cbn [str_is_empty]. rewrite Hp. simpl. rewrite Z2N.id by lia. by rewrite (proj2 (Z.ltb_lt _ _)) by lia.
Qed.

Lemma str_map_id f s : str_existsb (λ c, negb (f c =? c)%char) s = false → str_map f s = s.
Proof.
  induction s as [|c s IH]; [done|]. cbn [str_existsb str_map].
  intros [H%negb_false_iff%Ascii.eqb_eq Hs]%orb_false_iff. by rewrite H, IH.
Qed.

Lemma digit_path_char c : is_ascii_digit c = true → is_path_char c = true.
Proof. unfold is_path_char, is_ascii_alphanumeric. by intros ->. Qed.

Lemma sanitize_turn_id t : sanitize_path_component (turn_id_for t) = turn_id_for t.
Proof.
  unfold sanitize_path_component, turn_id_for. apply str_map_id. rewrite !str_existsb_app.
  assert (∀ k, str_existsb (λ c, negb ((if is_path_char c then c else "_"%char) =? c)%char) (zeros k) = false)
    as -> by (intros k; induction k as [|k IH]; [done|]; cbn [zeros str_existsb]; by rewrite IH).
  pose proof (show_Z_digits t) as H. revert H. generalize (show_Z t). intros s.
  change (str_existsb (λ c, negb ((if is_path_char c then c else "_"%char) =? c)%char) "turn-") with false.
  cbn [orb]. induction s as [|c s IH]; [done|]. cbn [str_existsb]. intros [Hc%negb_false_iff Hs]%orb_false_iff.
  cbn [str_existsb]. rewrite (digit_path_char _ Hc), Ascii.eqb_refl. exact (IH Hs).
Qed.

Lemma strip_suffix_app a p : strip_suffix (a ++ p) p = Some a.
Proof.
  unfold strip_suffix. rewrite (proj2 (ends_with_spec _ _)) by by exists a.
  rewrite str_length_app, Nat.add_sub. by rewrite substring_app.
Qed.

Lemma strip_turn_file t : strip_suffix (checkpoint_file (turn_id_for t)) CHECKPOINT_SUFFIX = Some (turn_id_for t).
Proof. unfold checkpoint_file. rewrite sanitize_turn_id. apply strip_suffix_app. Qed.

Lemma turn_file_inj t u :
  (0 ≤ t < 2 ^ 64)%Z → (0 ≤ u < 2 ^ 64)%Z →
  checkpoint_file (turn_id_for t) = checkpoint_file (turn_id_for u) → t = u.
Proof.
  intros Ht Hu H. apply (f_equal (λ n, strip_suffix n CHECKPOINT_SUFFIX)) in H.
  rewrite !strip_turn_file in H. apply (inj Some) in H. apply (f_equal turn_number_from_id) in H.
  rewrite !turn_number_turn_id in H by done. by apply (inj Some) in H.
Qed.

(** ** The checkpoints of a gateway

    Every operation of the gateway on the disk, as steps from an empty disk. *)

(** What the gateway asks of the encoding of the envelope. *)
Class EnvelopeCodec (hmac_sign print_envelope : string → string → string)
    (read_envelope : string → option (string * string)) : Prop :=
  read_printed key payload :
    read_envelope (print_envelope payload (hmac_sign key payload)) = Some (payload, hmac_sign key payload).

Section Disk.
Context (hmac_sign print_envelope : string → string → string).
Context (read_envelope : string → option (string * string)).
Context (canonical_json : SessionCheckpoint → string).
Context (read_checkpoint : string → option SessionCheckpoint).
Context `{!EnvelopeCodec hmac_sign print_envelope read_envelope}.
Context (key : string).

Notation entry := (entry_checkpoint hmac_sign read_envelope read_checkpoint key).
Notation latest := (load_latest_checkpoint hmac_sign read_envelope read_checkpoint key).
Notation strict := (load_latest_checkpoint_strict hmac_sign read_envelope read_checkpoint key).
Notation prune := (prune_checkpoints hmac_sign read_envelope read_checkpoint key).
Notation save := (save_checkpoint hmac_sign print_envelope canonical_json key).
Notation edit := (edit_latest hmac_sign print_envelope read_envelope canonical_json read_checkpoint key).

(** The counter is a [u64], and the JSON reads back. *)
Definition storable (cp : SessionCheckpoint) : Prop :=
  (0 ≤ turn_counter cp < 2 ^ 64)%Z ∧ read_checkpoint (canonical_json cp) = Some cp.

(** How the lifecycle names its checkpoints: after the counter, except at the gate
    that asks to continue a session, which gives the turn back and keeps its name
    ([lifecycle.rs], the [session_continue] gate). *)
Definition named_after_counter (cp : SessionCheckpoint) : Prop :=
  cp_turn_id cp = turn_id_for (turn_counter cp).
Definition named_at_gate (cp : SessionCheckpoint) : Prop :=
  (turn_counter cp + 1 < 2 ^ 64)%Z ∧ cp_turn_id cp = turn_id_for (turn_counter cp + 1).
Definition stop_copy (cp : SessionCheckpoint) : Prop := ∃ stop_id, cp_turn_id cp = emergency_turn_id stop_id.

(** The turn the name of its file claims. *)
Definition claim (cp : SessionCheckpoint) : Z :=
  default 0%Z (turn_number_from_id (sanitize_path_component (cp_turn_id cp))).

Definition file_of (cp : SessionCheckpoint) : string * string :=
  (checkpoint_file (cp_turn_id cp),
   print_envelope (canonical_json cp) (hmac_sign key (canonical_json cp))).

(** The checkpoints the capsules bring. *)
Context (restored : SessionCheckpoint → Prop).

Definition saved (disk : CheckpointDisk) (session : string) : list SessionCheckpoint :=
  omap entry (session_dir disk session).

Inductive disk_step (disk : CheckpointDisk) : CheckpointDisk → Prop :=
| step_save cp : storable cp → named_after_counter cp → disk_step disk (save disk cp)
| step_gate cp : storable cp → named_at_gate cp → disk_step disk (save disk cp)
| step_edit session f :
    (∀ cp, latest disk session = Some cp →
       storable (f cp) ∧ cp_turn_id (f cp) = cp_turn_id cp ∧ turn_counter (f cp) = turn_counter cp) →
    disk_step disk (edit disk session f)
| step_stop session stop_id lead stub_other touch disk' :
    (∀ cp, emergency_checkpoint session stop_id lead (latest disk session) stub_other touch = Some cp →
       storable cp) →
    write_emergency_checkpoint hmac_sign print_envelope read_envelope canonical_json read_checkpoint key
      disk session stop_id lead stub_other touch = Some disk' →
    disk_step disk disk'
| step_fork cp source session branch_message :
    cp ∈ saved disk source → storable (forked_checkpoint cp session branch_message) →
    disk_step disk (save disk (forked_checkpoint cp session branch_message))
| step_restore agent_id handle read disk' :
    (∀ rel bytes cp, read rel = Some bytes → read_checkpoint bytes = Some cp → storable cp ∧ restored cp) →
    restore_checkpoint hmac_sign print_envelope canonical_json read_checkpoint key disk agent_id handle read
    = Ok (disk', true) →
    disk_step disk disk'
| step_prune session keep : disk_step disk (prune disk session (checkpoint_retention keep))
| step_cleanup session : disk_step disk (cleanup_session_checkpoints disk session)
| step_delete session turn_id : disk_step disk (delete_checkpoint disk session turn_id)
| step_delete_bound session approval_id :
    disk_step disk
      (delete_approval_bound_checkpoint hmac_sign read_envelope read_checkpoint key disk session approval_id).1
| step_reap get_approval :
    disk_step disk (reap_orphan_checkpoints hmac_sign read_envelope read_checkpoint key disk get_approval).

Inductive disk_reachable : CheckpointDisk → Prop :=
| disk_empty : disk_reachable ∅
| disk_next disk disk' : disk_reachable disk → disk_step disk disk' → disk_reachable disk'.

(** Every directory holds signed files of checkpoints of its session, each name
    once, and every name has one of the four origins. *)
Definition origin (cp : SessionCheckpoint) : Prop :=
  named_after_counter cp ∨ named_at_gate cp ∨ stop_copy cp
  ∨ ∃ r, restored r ∧ cp_turn_id cp = cp_turn_id r ∧ turn_counter cp = turn_counter r.

Definition sound (cp : SessionCheckpoint) : Prop := storable cp ∧ origin cp.

Definition signed_file (dir : string) (f : string * string) : Prop :=
  ∃ cp, sound cp ∧ f = file_of cp ∧ sanitize_path_component (cp_session_id cp) = dir.

Definition signed_dir (dir : string) (d : Dir) : Prop := NoDup d.*1 ∧ Forall (signed_file dir) d.

Definition signed_disk (disk : CheckpointDisk) : Prop := map_Forall signed_dir disk.

Lemma signed_filter dir p d : signed_dir dir d → signed_dir dir (List.filter p d).
Proof.
  intros [Hn Hf]. split; [by apply filter_fmap_nodup|]. rewrite Forall_forall in Hf |- *.
  intros f [Hin _]%list_elem_of_In%filter_In. apply Hf. by apply list_elem_of_In.
Qed.

Lemma file_content_put n c d : file_content n (put_file n c d) = Some c.
Proof.
  induction d as [|[m e] d IH]; simpl; [by rewrite String.eqb_refl|].
  destruct (String.eqb_spec m n) as [->|Hne]; simpl; [by rewrite String.eqb_refl|].
  by rewrite (proj2 (String.eqb_neq m n)).
Qed.

Lemma put_file_names n c d x : x ∈ (put_file n c d).*1 → x = n ∨ x ∈ d.*1.
Proof.
  induction d as [|[m e] d IH]; simpl; [set_solver|].
  destruct (String.eqb_spec m n) as [->|]; simpl; set_solver.
Qed.

Lemma signed_put cp d :
  let dir := sanitize_path_component (cp_session_id cp) in
  sound cp → signed_dir dir d → signed_dir dir (put_file (file_of cp).1 (file_of cp).2 d).
Proof.
  intros dir Hc. induction d as [|[m e] d IH]; intros [Hn Hf].
  - split; [apply NoDup_singleton|]. constructor; [by exists cp; split_and!|constructor].
  - apply Forall_cons in Hf as [Hm Hf]. cbn [fmap list_fmap] in Hn. apply NoDup_cons in Hn as [Hx Hn].
    cbn [put_file]. destruct (String.eqb_spec m (file_of cp).1) as [->|Hne].
    + split; [by constructor|]. constructor; [by exists cp; split_and!|done].
    + destruct (IH (conj Hn Hf)) as [Hn' Hf']. split; [|by constructor].
      cbn [fmap list_fmap]. constructor; [|done]. simpl. by intros [->|?]%put_file_names.
Qed.

Lemma signed_save disk cp : sound cp → signed_disk disk → signed_disk (save disk cp).
Proof.
  intros Hc Hd. apply map_Forall_insert_2; [|done]. apply (signed_put cp); [done|].
  destruct (disk !! _) as [d|] eqn:E; [by apply (Hd _ _ E)|]. split; constructor.
Qed.

Lemma signed_update disk session p :
  signed_disk disk → signed_disk (update_dir disk session (λ d, List.filter (p d) d)).
Proof.
  intros Hd k d. unfold update_dir. rewrite lookup_alter. case_decide as Hk; [|exact (Hd k d)].
  rewrite <-Hk. intros (e & He & ->)%fmap_Some. apply signed_filter. by eapply Hd.
Qed.

Lemma entry_file cp : storable cp → entry (file_of cp) = Some cp.
Proof.
  intros (_ & Hr). unfold entry_checkpoint, is_checkpoint_file, file_of, checkpoint_file. cbn [fst snd].
  rewrite (proj2 (ends_with_spec _ _)) by by eexists. unfold verify_and_deserialize_checkpoint.
  rewrite read_printed. unfold hmac_verify. rewrite String.eqb_refl. exact Hr.
Qed.

Lemma claimed_file cp : claimed_turn (file_of cp) = Some (claim cp, (file_of cp).2).
Proof.
  unfold claimed_turn. change (file_of cp).1 with (checkpoint_file (cp_turn_id cp)).
  unfold checkpoint_file. by rewrite strip_suffix_app.
Qed.

Lemma signed_entries dir d :
  signed_dir dir d → ∃ cps, d = map file_of cps ∧ Forall sound cps
    ∧ omap entry d = cps ∧ omap claimed_turn d = map (λ cp, (claim cp, (file_of cp).2)) cps.
Proof.
  intros [_ Hf]. induction Hf as [|f d (cp & Hc & -> & _) _ (cps & -> & Hcs & He & Hcl)]; [by exists []|].
  exists (cp :: cps). split; [done|]. split; [by constructor|]. cbn [omap list_omap map].
  rewrite entry_file by apply Hc. by rewrite claimed_file, He, Hcl.
Qed.

Lemma origin_same cp cp' :
  origin cp → cp_turn_id cp' = cp_turn_id cp → turn_counter cp' = turn_counter cp → origin cp'.
Proof. unfold origin, named_after_counter, named_at_gate, stop_copy. by intros Ho -> ->. Qed.

Lemma signed_session disk session : signed_disk disk → signed_dir (sanitize_path_component session) (session_dir disk session).
Proof.
  intros H. unfold session_dir. destruct (disk !! _) eqn:E; [by apply (H _ _ E)|]. split; constructor.
Qed.

Lemma signed_saved disk session : signed_disk disk → Forall sound (saved disk session).
Proof.
  intros (cps & _ & Hs & He & _)%(signed_session _ session)%signed_entries. unfold saved. by rewrite He.
Qed.

Lemma latest_saved disk session cp : latest disk session = Some cp → cp ∈ saved disk session.
Proof. apply (newest_by_elem turn_counter). Qed.

Lemma signed_reachable disk : disk_reachable disk → signed_disk disk.
Proof.
  induction 1 as [|disk disk' _ IH Hs]; [apply map_Forall_empty|].
  assert (∀ s c, c ∈ saved disk s → origin c) as Hor.
  { intros s c Hc. pose proof (signed_saved disk s IH) as Hf. rewrite Forall_forall in Hf. by apply Hf. }
  destruct Hs as [cp Hc Hn|cp Hc Hn|session f Hf|session stop lead so touch disk' Hst Hw
    |cp source session msg Hin Hst|agent handle read disk' Hst Hr|session keep|session|session t|session a|g].
  - apply signed_save; [by split; [|left]|done].
  - apply signed_save; [by split; [|right; left]|done].
  - unfold edit_latest. destruct (load_latest_checkpoint _ _ _ _ _ session) as [cp|] eqn:E; [|done].
    destruct (Hf cp eq_refl) as (Hst & Hid & Ht). apply signed_save; [|done]. split; [done|].
    eapply origin_same; [eapply Hor, latest_saved, E|done..].
  - unfold write_emergency_checkpoint in Hw. destruct (emergency_checkpoint _ _ _ _ _ _) as [cp|] eqn:E; [|done].
    injection Hw as <-. apply signed_save; [|done]. split; [by apply Hst|]. right. right. left. exists stop.
    unfold emergency_checkpoint in E. destruct (match latest disk session with Some _ => _ | None => _ end); [|done].
    by injection E as <-.
  - apply signed_save; [|done]. split; [done|]. eapply origin_same; [by eapply Hor|done..].
  - unfold restore_checkpoint in Hr. destruct handle as [rel|]; [|done]. destruct (negb _); [done|].
    destruct (read rel) as [bytes|] eqn:Er; [|done]. destruct (read_checkpoint bytes) as [cp|] eqn:Ec; [|done].
    destruct (negb _); [done|]. injection Hr as <-. destruct (Hst _ _ _ Er Ec) as [Hsc Hrc].
    apply signed_save; [|done]. split; [done|]. right. right. right. by exists cp.
  - unfold prune_checkpoints. destruct (checkpoint_retention keep); [|done]. by apply signed_update.
  - by apply (signed_update _ _ (λ _ f, _)).
  - by apply (signed_update _ _ (λ _ f, _)).
  - by apply (signed_update _ _ (λ _ f, _)).
  - intros k d. unfold reap_orphan_checkpoints. rewrite lookup_fmap.
    intros (e & He & ->)%fmap_Some. apply signed_filter. by eapply IH.
Qed.

Lemma reachable_dir disk session : disk_reachable disk → signed_dir (sanitize_path_component session) (session_dir disk session).
Proof. intros H%signed_reachable. by apply signed_session. Qed.

(** The strict loader returns the first of the highest claims. *)
Lemma strict_newest_claim disk session :
  signed_disk disk → strict disk session = Ok (newest_by claim (saved disk session)).
Proof.
  intros H. destruct (signed_entries _ _ (signed_session disk session H)) as (cps & Hd & Hcs & He & Hcl).
  unfold load_latest_checkpoint_strict, saved. rewrite He, Hcl. clear He Hcl Hd.
  destruct (newest_by claim cps) as [cp|] eqn:E; [|apply newest_by_none in E; by subst cps].
  apply newest_by_spec in E as (l1 & l2 & -> & H1 & H2). rewrite map_app. cbn [map].
  pose (g := λ cp, (claim cp, (file_of cp).2)).
  destruct (desc_sort_head (g cp) (map g l1) (map g l2)) as (rest & Hs & _).
  - by intros y (x & -> & Hx)%list_elem_of_fmap; apply H1.
  - by intros y (x & -> & Hx)%list_elem_of_fmap; apply H2.
  - apply Forall_app in Hcs as [_ [((_ & Hr) & _) _]%Forall_cons].
    match goal with |- context [sort_by _ ?l] => change l with (map g l1 ++ g cp :: map g l2) end.
    rewrite Hs. unfold g at 1. cbn [first_readable file_of snd]. rewrite read_printed. unfold hmac_verify.
    rewrite String.eqb_refl. simpl. by rewrite Hr.
Qed.

Lemma claim_of_turn cp t : cp_turn_id cp = turn_id_for t → (0 ≤ t < 2 ^ 64)%Z → claim cp = t.
Proof. intros Ht Hb. unfold claim. by rewrite Ht, sanitize_turn_id, turn_number_turn_id. Qed.

Lemma claim_of_stop cp : stop_copy cp → claim cp = 0%Z.
Proof. intros [stop Hs]. unfold claim. rewrite Hs. reflexivity. Qed.

(** One directory holds one file per name. *)
Lemma saved_names disk session : signed_disk disk → NoDup (map cp_turn_id (saved disk session)).
Proof.
  intros H%(signed_session _ session). pose proof (signed_entries _ _ H) as (cps & Hd & _ & He & _).
  destruct H as [Hn _]. unfold saved. rewrite He. rewrite Hd in Hn. clear -Hn.
  induction cps as [|c cps IH]; [constructor|]. cbn [map fmap list_fmap] in Hn |- *.
  apply NoDup_cons in Hn as [Hc Hn]. constructor; [|by apply IH].
  intros (x & Hx & Hin)%list_elem_of_fmap. apply Hc. apply list_elem_of_fmap. exists (file_of x).
  split; [by unfold file_of; simpl; rewrite Hx|]. by apply list_elem_of_fmap_2.
Qed.

Lemma same_name {A} (f : A → string) l x y : NoDup (map f l) → x ∈ l → y ∈ l → f x = f y → x = y.
Proof.
  induction l as [|z l IH]; [by intros _ ?%not_elem_of_nil|]. cbn [map]. intros [Hz Hn]%NoDup_cons.
  intros [->|Hx]%elem_of_cons [->|Hy]%elem_of_cons Hf; [done| | |by apply IH].
  - destruct Hz. rewrite Hf. by apply list_elem_of_fmap_2.
  - destruct Hz. rewrite <-Hf. by apply list_elem_of_fmap_2.
Qed.

(** What the strict loader may return beside what the lenient one does. *)
Lemma claims_keep_turn disk session l c :
  signed_disk disk → (∀ r, ¬ restored r) →
  newest_by turn_counter (saved disk session) = Some l → newest_by claim (saved disk session) = Some c →
  ¬ stop_copy l → turn_counter c = turn_counter l.
Proof.
  intros Hd Hno Hl Hc Hs. pose proof (signed_saved disk session Hd) as Hf. rewrite Forall_forall in Hf.
  pose proof (newest_by_elem _ _ _ Hl) as Hil. pose proof (newest_by_elem _ _ _ Hc) as Hic.
  pose proof (newest_by_max _ _ _ _ Hl Hic) as H1. pose proof (newest_by_max _ _ _ _ Hc Hil) as H2.
  destruct (Hf l Hil) as [(Hbl & _) Hol]. destruct (Hf c Hic) as [(Hbc & _) Hoc].
  assert (claim l = turn_counter l ∨ claim l = (turn_counter l + 1)%Z) as Hkl.
  { destruct Hol as [Hn|[[Hb Hn]|[Hn|(r & Hr & _)]]]; [left|right|done|by destruct (Hno r)].
    - by apply claim_of_turn.
    - apply claim_of_turn; [done|lia]. }
  destruct Hoc as [Hn|[[Hb Hn]|[Hn|(r & Hr & _)]]]; [| | |by destruct (Hno r)].
  - rewrite (claim_of_turn c _ Hn) in H2 by done. lia.
  - pose proof (claim_of_turn c _ Hn ltac:(lia)) as Hkc.
    destruct (Z.eq_dec (turn_counter c) (turn_counter l)) as [|Hne]; [done|].
    assert (turn_counter l = turn_counter c + 1 ∧ claim l = turn_counter l)%Z as [Heq Hcl] by lia.
    destruct Hol as [Hnl|[[Hbl' Hnl]|[Hnl|(r & Hr & _)]]]; [|by rewrite (claim_of_turn l _ Hnl) in Hcl by lia; lia|done|by destruct (Hno r)].
    assert (c = l) as ->; [|done].
    eapply (same_name cp_turn_id); [by apply saved_names|done..|]. by rewrite Hn, Hnl, Heq.
  - rewrite (claim_of_stop c Hn) in H2. lia.
Qed.

(** C33: On every disk the gateway can reach (with the checkpoints of the lifecycle and
    of its continue gate, edits, forks, the copies of emergency stops, what
    capsules restore, pruning, cleaning and reaping) the strict loader never
    fails and never comes back empty unless the lenient one does: it returns the
    first of the highest turn the file names claim.  It agrees with the lenient
    loader when every checkpoint of the session is named after its counter.  When
    no capsule brought one, what it returns has the turn counter of what the
    lenient one returns, unless that is the copy an emergency stop left, whose
    name claims no turn. *)
Theorem strict_agrees_with_latest disk session :
  disk_reachable disk →
  strict disk session = Ok (newest_by claim (saved disk session))
  ∧ (newest_by claim (saved disk session) = None ↔ latest disk session = None)
  ∧ (Forall named_after_counter (saved disk session) → strict disk session = Ok (latest disk session))
  ∧ ((∀ r, ¬ restored r) → ∀ l c, latest disk session = Some l → strict disk session = Ok (Some c) →
       stop_copy l ∨ turn_counter c = turn_counter l).
Proof.
  intros H%signed_reachable. rewrite (strict_newest_claim _ _ H).
  change (latest disk session) with (newest_by turn_counter (saved disk session)).
  pose proof (signed_saved disk session H) as Hs. split_and!; [done|by rewrite !newest_by_none| |].
  - intros Hn. f_equal. apply newest_by_ext. apply Forall_forall. intros x Hx.
    rewrite Forall_forall in Hn, Hs. apply claim_of_turn; [by apply Hn|]. by destruct (Hs x Hx) as [[? _] _].
  - intros Hno l c Hl Hc. injection Hc as Hc.
    destruct (decide (strip_prefix (cp_turn_id l) "emergency-" = None)) as [Hd|Hd].
    + right. eapply claims_keep_turn; [exact H|done|exact Hl|exact Hc|]. intros [stop Hst].
      rewrite Hst in Hd. unfold emergency_turn_id in Hd.
      by rewrite (proj2 (strip_prefix_some ("emergency-" ++ stop) "emergency-" stop) eq_refl) in Hd.
    + left. destruct (strip_prefix (cp_turn_id l) "emergency-") as [stop|] eqn:E; [|done].
      exists stop. by apply strip_prefix_some in E.
Qed.

Lemma put_file_middle n c e d1 d2 :
  n ∉ d1.*1 → put_file n c (d1 ++ (n, e) :: d2) = d1 ++ (n, c) :: d2.
Proof.
  induction d1 as [|[m x] d1 IH]; simpl; intros H; [by rewrite String.eqb_refl|].
  rewrite not_elem_of_cons in H. destruct H as [Hne H].
  rewrite (proj2 (String.eqb_neq m n)) by congruence. by rewrite IH.
Qed.

(** An edit of the latest checkpoint of a session (entering or leaving the
    repair mode, feedback) is what the session resumes from next. *)
Theorem edited_checkpoint_is_latest disk session f cp :
  disk_reachable disk → latest disk session = Some cp → storable (f cp) →
  turn_counter (f cp) = turn_counter cp → cp_session_id (f cp) = cp_session_id cp →
  cp_turn_id (f cp) = cp_turn_id cp →
  latest (edit disk session f) session = Some (f cp).
Proof.
  intros Hd Hl Hr Ht Hs Hid. pose proof (reachable_dir disk session Hd) as Hsd.
  unfold edit_latest. rewrite Hl. unfold load_latest_checkpoint in Hl |- *.
  pose proof (signed_entries _ _ Hsd) as (cps & Hcps & Hrun & He & _). rewrite He in Hl.
  apply newest_spec in Hl as (l1 & l2 & -> & H1 & H2). destruct Hsd as [Hn Hf].
  rewrite Hcps, map_app in Hn, Hf. apply Forall_app in Hf as [_ [(c' & Hc' & Hcc & Hdir) _]%Forall_cons].
  apply Forall_app in Hrun as [Hr1 [Hrc Hr2]%Forall_cons].
  assert (c' = cp) as ->.
  { pose proof (entry_file _ (proj1 Hc')) as E'. rewrite <-Hcc, (entry_file _ (proj1 Hrc)) in E'. by injection E'. }
  assert (session_dir (save disk (f cp)) session = map file_of (l1 ++ f cp :: l2)) as ->.
  { unfold save_checkpoint. rewrite Hs, Hdir. unfold session_dir. rewrite lookup_insert_eq. simpl.
    change (default [] (disk !! sanitize_path_component session)) with (session_dir disk session).
    rewrite Hcps, !map_app. cbn [map].
    unfold file_of at 5. rewrite Hid. apply put_file_middle. rewrite fmap_app in Hn.
    apply NoDup_app in Hn as (_ & Hx & _). intros Hin. apply (Hx _ Hin). cbn [map fmap list_fmap]. by left. }
  assert (∀ l, Forall storable l → omap entry (map file_of l) = l) as Hm.
  { intros l. induction 1; [done|]. cbn [map omap list_omap]. rewrite entry_file by done. by f_equal. }
  assert (∀ l, Forall sound l → Forall storable l) as Hso by (intros l Hfl; eapply Forall_impl; [exact Hfl|by intros ? []]).
  rewrite Hm by (apply Forall_app; auto). apply newest_spec. exists l1, l2. rewrite Ht. auto.
Qed.

(** A checkpoint the gateway saved is found under its turn, whatever
    happened to the disk before. *)
Theorem saved_checkpoint_loads disk cp :
  storable cp →
  load_checkpoint hmac_sign read_envelope read_checkpoint key (save disk cp) (cp_session_id cp)
    (cp_turn_id cp) = Ok (Some cp).
Proof.
  intros (_ & Hr). unfold load_checkpoint, session_dir, save_checkpoint. rewrite lookup_insert_eq.
  simpl. rewrite file_content_put, read_printed. unfold hmac_verify. rewrite String.eqb_refl. simpl.
  by rewrite Hr.
Qed.

(** Pruning to the configured retention never changes what a session
    resumes from, its own or another's, and leaves no more checkpoints than
    configured. *)
Theorem pruning_keeps_latest disk session other keep :
  disk_reachable disk →
  latest (prune disk session (checkpoint_retention keep)) other = latest disk other
  ∧ (keep ≠ 0 → length (session_dir (prune disk session (checkpoint_retention keep)) session) ≤ keep).
Proof.
  intros H. destruct keep as [|keep]; [done|].
  change (prune disk session (checkpoint_retention (S keep)))
    with (update_dir disk session (λ d, List.filter
      (keeps hmac_sign read_envelope read_checkpoint key (S keep) d) d)).
  assert (∀ s, session_dir (update_dir disk session (λ d, List.filter
      (keeps hmac_sign read_envelope read_checkpoint key (S keep) d) d)) s
    = if decide (sanitize_path_component session = sanitize_path_component s)
      then List.filter (keeps hmac_sign read_envelope read_checkpoint key (S keep) (session_dir disk s))
             (session_dir disk s)
      else session_dir disk s) as Hu.
  { intros s. unfold session_dir, update_dir. rewrite lookup_alter.
    case_decide as Hs; [|done]. rewrite Hs. by destruct (disk !! _). }
  split.
  - unfold load_latest_checkpoint. rewrite Hu. case_decide; [|done].
    apply pruned_latest, reachable_dir, H.
  - intros _. rewrite Hu, decide_True by done.
    pose proof (reachable_dir disk session H) as Hs. etrans; [|apply (pruned_count
      hmac_sign read_envelope read_checkpoint key), Hs].
    apply (signed_filter _ (keeps hmac_sign read_envelope read_checkpoint key (S keep) (session_dir disk session)))
      in Hs. destruct (signed_entries _ _ Hs) as (cps & Hd & _ & -> & _). rewrite Hd at 1.
    by rewrite length_map.
Qed.
Lemma copy_history_handle sha256_hex print_history session h st st' handle :
  copy_history sha256_hex print_history session h st = (st', Ok handle) →
  handle = compute_handle sha256_hex (print_history h).
Proof.
  unfold copy_history, mbind, storem_bind. destruct (write _ _ st) as [s [w|e]] eqn:Ew; [|done].
  destruct (register_name _ _ _ _) as [s' [[]|e]]; [|done]. injection 1 as <- <-. revert Ew. unfold write.
  destruct (blobs _ !! _); [by injection 1|]. destruct (next_io _) as [[| |n] rest]; by injection 1.
Qed.

(** A fork starts its session from the checkpoint forked, cleared of what
    belonged to the source's run, and leaves every session kept under another
    name as it was. *)
Theorem fork_starts_new_session sha256_hex print_history disk disk' fk source session
    branch_message other store store' :
  fork hmac_sign print_envelope read_envelope canonical_json read_checkpoint sha256_hex print_history
    key disk source session branch_message store = (store', Ok (disk', fk)) →
  session_dir disk session = [] →
  (∀ cp, latest disk source = Some cp →
     storable (forked_checkpoint cp session branch_message)) →
  disk_reachable disk →
  ∃ cp, latest disk source = Some cp
    ∧ latest disk' session = Some (forked_checkpoint cp session branch_message)
    ∧ initial_history fk = history cp ++ from_option (λ m, [user_message m]) [] branch_message
    ∧ history_handle fk = compute_handle sha256_hex (print_history (initial_history fk))
    ∧ (sanitize_path_component other ≠ sanitize_path_component session →
       latest disk' other = latest disk other).
Proof.
  intros Hfk Hempty Hrun Hd. unfold fork, fork_from_checkpoint in Hfk.
  destruct (load_latest_checkpoint _ _ _ _ _ source) as [cp|] eqn:E; [|done].
  destruct (copy_history _ _ session _ store) as [st [handle|e]] eqn:Ec; [|done]. injection Hfk as <- <- <-.
  exists cp. split; [done|]. unfold load_latest_checkpoint, save_checkpoint. split_and!.
  - unfold session_dir in Hempty |- *. cbn [forked_checkpoint cp_session_id].
    rewrite lookup_insert_eq. cbn [default from_option]. rewrite Hempty. cbn [put_file].
    change (checkpoint_file (cp_turn_id _), _) with (file_of (forked_checkpoint cp session branch_message)).
    unfold id. cbn [omap list_omap]. by rewrite entry_file by auto.
  - by destruct branch_message.
  - by apply copy_history_handle in Ec.
  - intros Ho. unfold session_dir. by rewrite lookup_insert_ne.
Qed.

(** An unsigned file whose text reads as a checkpoint is accepted by both
    loaders, whatever the key of the gateway: one that claims a turn above the
    saved ones is what the session resumes from. *)
Theorem unsigned_checkpoint_is_resumed disk session raw cp t :
  disk_reachable disk →
  read_envelope raw = None → read_checkpoint raw = Some cp → turn_counter cp = t → (0 ≤ t < 2 ^ 64)%Z →
  Forall (λ f, f.1 ≠ checkpoint_file (turn_id_for t)) (session_dir disk session) →
  Forall (λ c, turn_counter c < t ∧ claim c < t)%Z (saved disk session) →
  let disk' := <[sanitize_path_component session :=
                  put_file (checkpoint_file (turn_id_for t)) raw (session_dir disk session)]> disk in
  latest disk' session = Some cp ∧ strict disk' session = Ok (Some cp).
Proof.
  intros Hd Hraw Hcp Ht Hb Hfresh Hlt disk'.
  assert (session_dir disk' session
    = session_dir disk session ++ [(checkpoint_file (turn_id_for t), raw)]) as Hdir.
  { unfold disk', session_dir at 1. rewrite lookup_insert_eq. simpl.
    induction Hfresh as [|[n c] d Hne _ IH]; [done|]. simpl in Hne |- *.
    by rewrite (proj2 (String.eqb_neq _ _) Hne), IH. }
  destruct (signed_entries _ _ (reachable_dir disk session Hd)) as (cps & Hcps & Hcs & He & Hcl).
  unfold saved in Hlt. rewrite He, Forall_forall in Hlt.
  assert (verify_and_deserialize_checkpoint hmac_sign read_envelope read_checkpoint key raw = Some cp) as Hv
    by (unfold verify_and_deserialize_checkpoint; by rewrite Hraw).
  split.
  - unfold load_latest_checkpoint. rewrite Hdir, omap_app, He. cbn [omap list_omap].
    unfold entry_checkpoint, is_checkpoint_file, checkpoint_file. cbn [fst snd].
    rewrite (proj2 (ends_with_spec _ _)) by by eexists. rewrite Hv. apply newest_spec.
    exists cps, []. rewrite Ht. split_and!; [done|by intros x Hx; apply Hlt|]. by intros ? ?%not_elem_of_nil.
  - unfold load_latest_checkpoint_strict. rewrite Hdir, omap_app, Hcl. cbn [omap list_omap].
    unfold claimed_turn. cbn [fst snd]. rewrite strip_turn_file. simpl. rewrite turn_number_turn_id by done.
    destruct (desc_sort_head (t, raw) (map (λ cp, (claim cp, (file_of cp).2)) cps) [])
      as (rest & Hs & _); [by intros y (x & -> & Hx)%list_elem_of_fmap; apply Hlt
        |by intros ? ?%not_elem_of_nil|].
    match goal with |- context [sort_by _ ?l] => change l with
      (map (λ cp, (claim cp, (file_of cp).2)) cps ++ [(t, raw)]) end.
    rewrite Hs. cbn [first_readable]. by rewrite Hraw, Hcp.
Qed.
End Disk.

(** ** Concrete checkpoints *)

Definition demo_mac (_ _ : string) : string := "s".
Definition demo_print (payload mac : string) : string := (mac ++ payload)%string.
Definition demo_read (s : string) : option (string * string) :=
  match s with String "s" r => Some (r, "s") | _ => None end.
Definition demo_cp_json (cp : SessionCheckpoint) : string :=
  show_Z (turn_counter cp + (if repair_mode (loop_guard_state cp) then 100 else 0)
          + (if (cp_session_id cp =? "c")%string then 200 else 0)
          + match yield_reason cp with EmergencyStop _ => 300 | ApprovalRequired _ => 400 | _ => 0 end).
Definition demo_checkpoint_at (session : string) (t : Z) : SessionCheckpoint :=
  {| history := []; turn_counter := t; loop_guard_state := with_config default_config;
     cp_egress_labels := []; cp_agent_id := "coder"; cp_session_id := session;
     cp_turn_id := turn_id_for t; yield_reason := Hibernation; pending_tool_state := None;
     assistant_message := None; pending_action := None; suspended_at := None;
     suppress_until_turn := 0; trajectory_last_level := None; feedback_events := []; cp_other := JNull |}.
Definition demo_repaired (cp : SessionCheckpoint) : SessionCheckpoint :=
  with_guard (λ g, enter_repair_mode g 3) cp.
(** The copy of an emergency stop, and a turn that waits for an approval. *)
Definition demo_stopped_at (t : Z) : SessionCheckpoint :=
  (demo_checkpoint_at "a/b" t){{ yield_reason := EmergencyStop "s1"; cp_turn_id := emergency_turn_id "s1" }}.
Definition demo_asking_at (t : Z) : SessionCheckpoint :=
  (demo_checkpoint_at "a/b" t){{ yield_reason := ApprovalRequired "apr-1" }}.
Definition demo_read_cp (s : string) : option SessionCheckpoint :=
  n ← parse_u64 s;
  Some (if (n <? 100)%Z then demo_checkpoint_at "a/b" n
        else if (n <? 200)%Z then demo_repaired (demo_checkpoint_at "a/b" (n - 100))
        else if (n <? 300)%Z then demo_checkpoint_at "c" (n - 200)
        else if (n <? 400)%Z then demo_stopped_at (n - 300) else demo_asking_at (n - 400)).

#[local] Instance demo_codec : EnvelopeCodec demo_mac demo_print demo_read.
Proof. done. Qed.

Notation demo_save := (save_checkpoint demo_mac demo_print demo_cp_json "k").
Notation demo_reachable := (disk_reachable demo_mac demo_print demo_read demo_cp_json demo_read_cp "k" (λ _, False)).
Notation demo_latest := (load_latest_checkpoint demo_mac demo_read demo_read_cp "k").
Notation demo_strict := (load_latest_checkpoint_strict demo_mac demo_read demo_read_cp "k").
Notation demo_storable := (storable demo_cp_json demo_read_cp).

Definition demo_saved : CheckpointDisk :=
  demo_save (demo_save ∅ (demo_checkpoint_at "a/b" 1)) (demo_checkpoint_at "a/b" 2).

Lemma demo_storable_at t : t = 1%Z ∨ t = 2%Z → demo_storable (demo_checkpoint_at "a/b" t).
Proof. intros [->| ->]; (split; [cbn [turn_counter demo_checkpoint_at]; lia|vm_compute; reflexivity]). Qed.

Lemma demo_saved_reachable : demo_reachable demo_saved.
Proof.
  eapply disk_next; [eapply disk_next; [apply disk_empty|]|]; apply step_save; (apply demo_storable_at; auto) || done.
Qed.

(** Two sessions whose names differ only in what the sanitiser replaces share
    their checkpoints: the one resumes from what the other saved, and clears it. *)
Example sessions_share_a_directory :
  option_map turn_counter (demo_latest demo_saved "a_b") = Some 2%Z
  ∧ demo_latest (cleanup_session_checkpoints demo_saved "a_b") "a/b" = None.
Proof. vm_compute. done. Qed.

Lemma demo_latest_saved : demo_latest demo_saved "a/b" = Some (demo_checkpoint_at "a/b" 2).
Proof. vm_compute. reflexivity. Qed.

(** The second turn waits for an approval when the session is stopped; the reaper
    removes its checkpoint, since the stop cancelled the approval. *)
Definition demo_asked : CheckpointDisk :=
  demo_save (demo_save ∅ (demo_checkpoint_at "a/b" 1)) (demo_asking_at 2).
Definition demo_stop_written : option CheckpointDisk :=
  write_emergency_checkpoint demo_mac demo_print demo_read demo_cp_json demo_read_cp "k" demo_asked "a/b" "s1"
    None JNull id.
Definition demo_stopped : CheckpointDisk :=
  reap_orphan_checkpoints demo_mac demo_read demo_read_cp "k" (default ∅ demo_stop_written)
    (λ _, Ok (Some (Some DCancelled))).

Lemma demo_asked_reachable : demo_reachable demo_asked.
Proof.
  eapply disk_next; [eapply disk_next; [apply disk_empty|]|]; apply step_save; done.
Qed.

Lemma demo_stopped_reachable : demo_reachable demo_stopped.
Proof.
  eapply disk_next; [eapply disk_next; [exact demo_asked_reachable|]|apply step_reap].
  apply (step_stop _ _ _ _ _ _ _ _ "a/b" "s1" None JNull id); [|vm_compute; reflexivity].
  intros cp Hcp. vm_compute in Hcp. injection Hcp as <-.
  split; [vm_compute; split; congruence|vm_compute; reflexivity].
Qed.

(** The lenient loader finds the stop of turn 2, the strict one resumes turn 1; even
    before the reaper both find the turn that waits, and not the stop. *)
Example stopped_session_is_resumed :
  (yield_reason <$> demo_latest demo_stopped "a/b") = Some (EmergencyStop "s1")
  ∧ demo_strict demo_stopped "a/b" = Ok (Some (demo_checkpoint_at "a/b" 1))
  ∧ demo_strict (default ∅ demo_stop_written) "a/b" = Ok (Some (demo_asking_at 2))
  ∧ demo_latest (default ∅ demo_stop_written) "a/b" = Some (demo_asking_at 2).
Proof. vm_compute. done. Qed.

Lemma strict_agrees_with_latest_witness :
  demo_strict demo_saved "a/b" = Ok (demo_latest demo_saved "a/b")
  ∧ demo_latest demo_saved "a/b" = Some (demo_checkpoint_at "a/b" 2)
  ∧ demo_strict demo_stopped "a/b" = Ok (newest_by claim (saved demo_mac demo_read demo_read_cp "k" demo_stopped "a/b")).
Proof.
  split; [|split; [vm_compute; reflexivity|]].
  - apply (strict_agrees_with_latest demo_mac demo_print demo_read demo_cp_json demo_read_cp "k" (λ _, False)
      demo_saved "a/b" demo_saved_reachable). vm_compute. repeat constructor.
  - apply (strict_agrees_with_latest demo_mac demo_print demo_read demo_cp_json demo_read_cp "k" (λ _, False)
      demo_stopped "a/b" demo_stopped_reachable).
Defined.

Lemma saved_checkpoint_loads_witness :
  load_checkpoint demo_mac demo_read demo_read_cp "k" demo_saved "a/b" (turn_id_for 2)
  = Ok (Some (demo_checkpoint_at "a/b" 2)).
Proof.
  apply (saved_checkpoint_loads demo_mac demo_print demo_read demo_cp_json demo_read_cp "k"
    (demo_save ∅ (demo_checkpoint_at "a/b" 1)) (demo_checkpoint_at "a/b" 2)).
  apply demo_storable_at. auto.
Defined.

Lemma pruning_keeps_latest_witness :
  demo_latest (prune_checkpoints demo_mac demo_read demo_read_cp "k" demo_saved "a/b"
    (checkpoint_retention 1)) "a/b" = Some (demo_checkpoint_at "a/b" 2).
Proof.
  rewrite (proj1 (pruning_keeps_latest demo_mac demo_print demo_read demo_cp_json demo_read_cp "k" (λ _, False)
    demo_saved "a/b" "a/b" 1 demo_saved_reachable)).
  vm_compute. reflexivity.
Defined.

Lemma edited_checkpoint_is_latest_witness :
  demo_latest (enter_repair_mode_on_latest_checkpoint demo_mac demo_print demo_read demo_cp_json
    demo_read_cp "k" demo_saved "a/b" 3) "a/b" = Some (demo_repaired (demo_checkpoint_at "a/b" 2)).
Proof.
  apply (edited_checkpoint_is_latest demo_mac demo_print demo_read demo_cp_json demo_read_cp "k" (λ _, False)
    demo_saved "a/b" demo_repaired (demo_checkpoint_at "a/b" 2)).
  - exact demo_saved_reachable.
  - vm_compute. reflexivity.
  - split; [simpl; lia|vm_compute; reflexivity].
  - reflexivity.
  - reflexivity.
  - reflexivity.
Defined.

Lemma unsigned_checkpoint_is_resumed_witness :
  let disk := <["a_b" := put_file (checkpoint_file (turn_id_for 9)) "9" (session_dir demo_saved "a/b")]> demo_saved in
  demo_latest disk "a/b" = Some (demo_checkpoint_at "a/b" 9).
Proof.
  apply (unsigned_checkpoint_is_resumed demo_mac demo_print demo_read demo_cp_json demo_read_cp "k" (λ _, False)
    demo_saved "a/b" "9" (demo_checkpoint_at "a/b" 9) 9).
  - exact demo_saved_reachable.
  - reflexivity.
  - vm_compute. reflexivity.
  - reflexivity.
  - lia.
  - apply (bool_decide_unpack _). vm_compute. exact I.
  - apply (bool_decide_unpack _). vm_compute. exact I.
Defined.

Definition demo_empty_store : ContentStore :=
  {| disk := {| blobs := ∅; manifest_files := ∅; io := [] |}; manifests := ∅ |}.
Definition demo_fork : SessionCheckpoint := forked_checkpoint (demo_checkpoint_at "a/b" 2) "c" None.

Lemma demo_fork_storable : demo_storable demo_fork.
Proof. split; [vm_compute; split; congruence|vm_compute; reflexivity]. Qed.

Lemma fork_starts_new_session_witness : demo_latest (demo_save demo_saved demo_fork) "c" = Some demo_fork.
Proof.
  destruct (fork_starts_new_session demo_mac demo_print demo_read demo_cp_json demo_read_cp "k" (λ _, False)
    (λ _, "00") (λ _, "[]") demo_saved (demo_save demo_saved demo_fork)
    {| new_session_id := "c"; source_session_id := "a/b"; fork_turn := 2; history_handle := "sha256:00";
       initial_history := []; fork_agent_id := "coder" |} "a/b" "c" None "d" demo_empty_store
    (copy_history (λ _, "00") (λ _, "[]") "c" [] demo_empty_store).1) as (cp & Hl & Hf & _).
  - unfold fork. rewrite demo_latest_saved. reflexivity.
  - reflexivity.
  - intros cp. rewrite demo_latest_saved. intros Hcp. apply (inj Some) in Hcp. subst cp.
    exact demo_fork_storable.
  - exact demo_saved_reachable.
  - rewrite demo_latest_saved in Hl. apply (inj Some) in Hl. subst cp. exact Hf.
Defined.
