(* ===== verification/Timeline.v ===== *)
(** * Principals, seats and the timeline of a session

    The model of [autonoetic-types/src/principal.rs], of the roles and altitudes
    of [autonoetic-types/src/session_timeline.rs] and of
    [autonoetic-gateway/src/runtime/session_timeline.rs]: who acts, on which seat,
    how important an event is, and the events the gateway writes for chat lines,
    peer messages, comments, workflow signals and egress decisions.  The events of
    a question to the user are in [Interactions].

    An event gets its random identifier, the clock and the name of the node as
    [Stamp].  [parse_json] and [json_to_string] are [serde_json]; printing a JSON
    value does not fail. *)

From Stdlib Require Import Ascii String Lia.
From stdpp Require Import prelude gmap strings list.
From S2P Require Import Prelude RustStr Json NetworkSinks Redaction ContentStore EgressLabeler.

Open Scope string_scope.
Open Scope nat_scope.
Open Scope list_scope.

(** ** Principals *)

Inductive PrincipalKind : Type :=
| Human | AutonoeticAgent | ScriptPrincipal | ForeignAgent (provider : string) | ServedUser.

Inductive PrincipalKindTag : Type :=
| TagHuman | TagAutonoeticAgent | TagScript | TagForeignAgent | TagServedUser.

Record Principal := {
  principal_kind : PrincipalKind;
  principal_id : string;
}.

Definition tag_as_str (t : PrincipalKindTag) : string :=
  match t with
  | TagHuman => "human"
  | TagAutonoeticAgent => "autonoetic_agent"
  | TagScript => "script"
  | TagForeignAgent => "foreign_agent"
  | TagServedUser => "served_user"
  end.

Definition kind_tag (k : PrincipalKind) : PrincipalKindTag :=
  match k with
  | Human => TagHuman
  | AutonoeticAgent => TagAutonoeticAgent
  | ScriptPrincipal => TagScript
  | ForeignAgent _ => TagForeignAgent
  | ServedUser => TagServedUser
  end.

Definition tag (k : PrincipalKind) : string := tag_as_str (kind_tag k).

Definition is_foreign (k : PrincipalKind) : bool :=
  match k with ForeignAgent _ => true | _ => false end.

Definition kind_to_storage (p : Principal) : string :=
  match principal_kind p with
  | ForeignAgent provider => ("foreign_agent:" ++ provider)%string
  | other => tag other
  end.

Definition kind_from_storage (s : string) : PrincipalKind :=
  if (s =? "human")%string then Human
  else if (s =? "script")%string then ScriptPrincipal
  else if (s =? "served_user")%string then ServedUser
  else if starts_with s "foreign_agent"
  then ForeignAgent (default "" (strip_prefix s "foreign_agent:"))
  else AutonoeticAgent.

Definition human (id : string) : Principal := {| principal_kind := Human; principal_id := id |}.
Definition agent (id : string) : Principal :=
  {| principal_kind := AutonoeticAgent; principal_id := id |}.
Definition foreign (provider id : string) : Principal :=
  {| principal_kind := ForeignAgent provider; principal_id := id |}.
Definition served_user (id : string) : Principal :=
  {| principal_kind := ServedUser; principal_id := id |}.

(** Who a recorded decider is; [None] for the machinery and the unknown. *)
Definition decider_principal_kind (decided_by : string) : option PrincipalKind :=
  let s := trim decided_by in
  if (s =? "operator")%string then Some Human
  else if starts_with s "user:" then Some ServedUser
  else if str_is_empty s || (s =? "gateway")%string || (s =? "system")%string
          || starts_with s "emergency_stop:" then None
  else if starts_with s "agent:" || contains_char s "." then Some AutonoeticAgent
  else None.

Definition is_reserved_non_agent_id (id : string) : bool :=
  let s := trim id in
  str_is_empty s || (s =? "operator")%string || (s =? "gateway")%string || (s =? "system")%string
  || starts_with s "emergency_stop:".

(** ** Seats *)

Inductive SessionRole : Type :=
| Operator | Planner | Specialist (kind : string) | Sentinel | Curator | Auditor
| ToolSurface (surface : string) | ExternalSurface (surface : string) | RuntimeSeat.

Definition role_to_storage (r : SessionRole) : string :=
  match r with
  | Operator => "operator"
  | Planner => "planner"
  | Specialist kind => ("specialist:" ++ kind)%string
  | Sentinel => "sentinel"
  | Curator => "curator"
  | Auditor => "auditor"
  | ToolSurface surface => ("tool:" ++ surface)%string
  | ExternalSurface surface => ("external_surface:" ++ surface)%string
  | RuntimeSeat => "runtime"
  end.

Definition role_from_storage (s : string) : SessionRole :=
  if (s =? "operator")%string then Operator
  else if (s =? "planner")%string then Planner
  else if (s =? "sentinel")%string then Sentinel
  else if (s =? "curator")%string then Curator
  else if (s =? "auditor")%string then Auditor
  else if (s =? "runtime")%string then RuntimeSeat
  else match strip_prefix s "specialist:" with
  | Some k => Specialist k
  | None =>
      match strip_prefix s "tool:" with
      | Some sf => ToolSurface sf
      | None =>
          match strip_prefix s "external_surface:" with
          | Some sf => ExternalSurface sf
          | None => Specialist "unknown"
          end
      end
  end.

Definition derive_role (agent_id : string) : SessionRole :=
  let head := default agent_id (head (split (Ascii.eqb "."%char) agent_id)) in
  if (head =? "planner")%string then Planner
  else if (head =? "sentinel")%string then Sentinel
  else if (head =? "curator")%string then Curator
  else if (head =? "auditor")%string then Auditor
  else if (head =? "runtime")%string || (head =? "gateway")%string then RuntimeSeat
  else Specialist head.

Definition script (id : string) : Principal :=
  {| principal_kind := ScriptPrincipal; principal_id := id |}.

Definition actor_from_kind_id (kind id : string) : Principal * SessionRole :=
  if existsb (String.eqb kind) ["user"; "operator"; "human"] then (human id, Operator)
  else if existsb (String.eqb kind) ["agent"; "autonoetic_agent"] then (agent id, derive_role id)
  else (script id, RuntimeSeat).

Definition decider_seat (decided_by : string) : Principal * SessionRole :=
  match decider_principal_kind decided_by with
  | Some Human => (human decided_by, Operator)
  | Some AutonoeticAgent =>
      let id := default decided_by (strip_prefix decided_by "agent:") in
      (agent id, derive_role id)
  | Some ServedUser =>
      (served_user (default decided_by (strip_prefix decided_by "user:")), Operator)
  | _ => (script decided_by, RuntimeSeat)
  end.

(** ** Altitudes *)

Inductive Altitude : Type := Detail | Normal | Attention | ErrorAltitude.

#[export] Instance altitude_eq_dec : EqDecision Altitude.
Proof. solve_decision. Defined.

Definition altitude_as_str (a : Altitude) : string :=
  match a with
  | Detail => "detail" | Normal => "normal" | Attention => "attention" | ErrorAltitude => "error"
  end.

Definition altitude_parse_str (s : string) : option Altitude :=
  if (s =? "detail")%string then Some Detail
  else if (s =? "normal")%string then Some Normal
  else if (s =? "attention")%string then Some Attention
  else if (s =? "error")%string then Some ErrorAltitude
  else None.

(** The derived [Ord]. *)
Definition rank (a : Altitude) : nat :=
  match a with Detail => 0 | Normal => 1 | Attention => 2 | ErrorAltitude => 3 end.

Definition max_altitude (a b : Altitude) : Altitude := if rank b <? rank a then a else b.

Definition ERROR_EVENTS : list string :=
  ["llm.request_failed"; "llm.empty_response"; "guard.tripped"; "session.emergency_stop";
   "session.turn_hard_cap"; "session.dispatch_refused"; "security.sandbox_escape"; "tool.failed"].

Definition ATTENTION_EVENTS : list string :=
  ["plan.pending"; "plan.approved"; "envelope.proposed"; "envelope.locked"; "approval.pending";
   "approval.approved"; "approval.rejected"; "escalation.pending"; "user.ask.pending";
   "user.ask.resolved"; "operator.comment"; "wiki.proposed"; "wiki.promoted"; "wiki.rejected";
   "divergence.intervention"; "runtime.lock_drift"; "session.continuation_window_extended";
   "sandbox.host_budget_exhausted"; "scheduled_job.failed"; "security.escape_threshold"].

Definition NORMAL_EVENTS : list string :=
  ["agent.message"; "operator.message"; "agent.peer_message"; "session.start"; "session.end";
   "workbench.created"; "digest_annotate"; "llm.retry"; "approval.cancelled"; "wiki.withdrawn";
   "user.ask.cancelled"; "user.ask.expired"; "egress.session_policy"; "egress.envelope_withheld";
   "egress.assertion_violation"; "egress.boundary_refused"; "egress.declassified"].

Definition DETAIL_EVENTS : list string :=
  ["turn.start"; "turn.end"; "llm.round"; "agent.reasoning"; "tool.requested"; "tool.completed";
   "workbench.reconciled"; "workbench.discarded"; "workflow.child_state"; "workflow.join_satisfied";
   "workflow.signal"; "scheduled_job.triggered"; "scheduled_job.completed";
   "egress.envelope_labeled"; "egress.request_filtered"; "egress.request_forwarded";
   "egress.provider_selected"; "egress.relabel"].

Definition base_altitude (event_type : string) : Altitude :=
  if existsb (String.eqb event_type) ERROR_EVENTS then ErrorAltitude
  else if existsb (String.eqb event_type) ATTENTION_EVENTS then Attention
  else if existsb (String.eqb event_type) NORMAL_EVENTS then Normal
  else if existsb (String.eqb event_type) DETAIL_EVENTS then Detail
  else Normal.

Definition role_key (r : SessionRole) : string :=
  match r with
  | Operator => "operator" | Planner => "planner" | Specialist _ => "specialist"
  | Sentinel => "sentinel" | Curator => "curator" | Auditor => "auditor"
  | ToolSurface _ => "tool" | ExternalSurface _ => "external_surface" | RuntimeSeat => "runtime"
  end.

Definition default_floor (r : SessionRole) : Altitude :=
  match r with Sentinel => Attention | _ => Detail end.

Definition role_floor_with_config (r : SessionRole) (floors : option (gmap string string)) : Altitude :=
  default (default_floor r) (m ← floors; s ← m !! role_key r; altitude_parse_str s).

Definition role_floor (r : SessionRole) : Altitude := role_floor_with_config r None.

Definition altitude_for (event_type : string) (r : SessionRole) : Altitude :=
  max_altitude (base_altitude event_type) (role_floor r).

Definition altitude_for_with_config (event_type : string) (r : SessionRole)
    (floors : option (gmap string string)) : Altitude :=
  max_altitude (base_altitude event_type) (role_floor_with_config r floors).

(** ** Events *)

Record TimelineRefs := {
  ref_interaction_id : option string;
  ref_other : list (string * string);
}.

Definition no_refs : TimelineRefs := {| ref_interaction_id := None; ref_other := [] |}.

Record LiveDigestEventRecord := {
  lde_event_id : string;
  lde_root_session_id : string;
  lde_source_session_id : string;
  lde_turn_id : option string;
  lde_source_agent_id : option string;
  lde_source_node_id : string;
  lde_event_type : string;
  lde_payload : option string;
  lde_created_at : string;
  lde_principal_kind : option string;
  lde_principal_id : option string;
  lde_role : option string;
  lde_altitude : option string;
  lde_refs : TimelineRefs;
}.

Record Stamp := {
  stamp_id : string;
  stamp_node : string;
  stamp_now : string;
}.

Section Events.
Context (parse_json : string → option Json) (json_to_string : Json → string).
Context (captures_iter : string → string → list (list (option (nat * nat)))).
Context (st : Stamp).

Notation redact := (redact_text_for_logs captures_iter parse_json json_to_string).

Definition build_timeline_event (root session : string) (turn_id : option string) (p : Principal)
    (r : SessionRole) (event_type : string) (altitude : option Altitude) (payload : option Json)
    (refs : TimelineRefs) : LiveDigestEventRecord :=
  {| lde_event_id := stamp_id st; lde_root_session_id := root; lde_source_session_id := session;
     lde_turn_id := turn_id; lde_source_agent_id := Some (principal_id p);
     lde_source_node_id := stamp_node st; lde_event_type := event_type;
     lde_payload := json_to_string <$> payload; lde_created_at := stamp_now st;
     lde_principal_kind := Some (kind_to_storage p); lde_principal_id := Some (principal_id p);
     lde_role := Some (role_to_storage r);
     lde_altitude := Some (altitude_as_str (default (altitude_for event_type r) altitude));
     lde_refs := refs |}.

Definition egress_causal_event_to_timeline (event : CausalEventRecord)
    : option LiveDigestEventRecord :=
  if negb (ev_category event =? "egress")%string || (ev_action event =? "egress.session_policy")%string
  then None
  else Some (build_timeline_event (root_session_id (ev_session_id event)) (ev_session_id event)
         (ev_turn_id event) (agent (ev_agent_id event)) (derive_role (ev_agent_id event))
         (ev_action event) None (ev_payload event ≫= parse_json) no_refs).

Definition is_signal_delivered_chat (metadata : option Json) : bool :=
  default false (m ← metadata; v ← json_get m "signal_delivered"; json_as_bool v).

Definition peer_message_event (receiving_session sender_agent sender_session message_id redacted : string)
    : LiveDigestEventRecord :=
  let '(p, r) := actor_from_kind_id "agent" sender_agent in
  build_timeline_event (root_session_id receiving_session) receiving_session None p r
    "agent.peer_message" None
    (Some (json_object [("message_id", JString message_id); ("sender_agent_id", JString sender_agent);
                        ("sender_session_id", JString sender_session); ("message", JString redacted)]))
    no_refs.

Definition opt_json (v : option Json) : Json := default JNull v.
Definition get_str (v : Json) (key : string) : option string := json_get v key ≫= json_as_str.

(** The event type and the payload of a signal. *)
Definition signal_row (parsed : Json) (signal_type : string) : option (string * Json) :=
  let message := json_opt_str (get_str parsed "message") in
  if (signal_type =? "child_state_notification")%string then
    n ← json_get parsed "notification";
    Some ("workflow.child_state",
      json_object [("signal_type", JString signal_type); ("message", message);
        ("child_status", JString (default "unknown" (get_str n "child_status")));
        ("child_session_id", opt_json (json_get n "child_session_id"));
        ("task_id", opt_json (json_get n "task_id"));
        ("workflow_id", opt_json (json_get n "workflow_id"));
        ("failure_class", opt_json (json_get n "failure_class"));
        ("summary", JString (default "" (redact <$> get_str n "summary")))])
  else if (signal_type =? "workflow_join_satisfied")%string then
    Some ("workflow.join_satisfied",
      json_object [("signal_type", JString signal_type); ("message", message);
        ("workflow_id", opt_json (json_get parsed "workflow_id"));
        ("join_task_ids", opt_json (json_get parsed "join_task_ids"))])
  else Some ("workflow.signal",
      json_object [("signal_type", JString signal_type); ("message", message)]).

Definition workflow_signal_timeline_event (session message : string) : option LiveDigestEventRecord :=
  parsed ← parse_json message;
  signal_type ← get_str parsed "type";
  '(event_type, payload) ← signal_row parsed signal_type;
  let '(p, r) := actor_from_kind_id "system" "gateway" in
  Some (build_timeline_event (root_session_id session) session None p r event_type (Some Detail)
          (Some payload) no_refs).

Definition operator_message_event (session : string) (source_agent_id : option string)
    (redacted : string) : LiveDigestEventRecord :=
  let '(p, r) := match source_agent_id with
                 | None | Some "" => (human "operator", Operator)
                 | Some id => (agent id, derive_role id)
                 end in
  build_timeline_event (root_session_id session) session None p r "operator.message" None
    (Some (json_object [("message", JString redacted)])) no_refs.

Definition ingest_chat_timeline_event (session : string) (source_agent_id : option string)
    (message : string) (metadata : option Json) : option LiveDigestEventRecord :=
  if is_signal_delivered_chat metadata then
    if bool_decide ((m ← metadata; get_str m "signal_type") = Some "agent_message") then None
    else workflow_signal_timeline_event session message
  else Some (operator_message_event session source_agent_id message).

Definition operator_comment_event (session commented_by : string) (payload : Json)
    : LiveDigestEventRecord :=
  let by_ := if str_is_empty commented_by then "operator" else commented_by in
  build_timeline_event (root_session_id session) session None (human by_) Operator
    "operator.comment" None (Some payload) no_refs.
End Events.

(** ** Stored forms *)

Lemma strip_prefix_app p s : strip_prefix (p ++ s) p = Some s.
Proof. by apply strip_prefix_some. Qed.

Lemma role_stored r : role_from_storage (role_to_storage r) = r.
Proof.
  destruct r as [| |k| | | |sf|sf|]; try reflexivity; unfold role_to_storage.
  + change (role_from_storage ("specialist:" ++ k)) with
      (from_option Specialist (role_from_storage "") (strip_prefix ("specialist:" ++ k) "specialist:")).
    by rewrite strip_prefix_app.
  + change (role_from_storage ("tool:" ++ sf)) with
      (from_option ToolSurface (role_from_storage "") (strip_prefix ("tool:" ++ sf) "tool:")).
    by rewrite strip_prefix_app.
  + change (role_from_storage ("external_surface:" ++ sf)) with
      (from_option ExternalSurface (role_from_storage "")
         (strip_prefix ("external_surface:" ++ sf) "external_surface:")).
    by rewrite strip_prefix_app.
Qed.

(** Every seat and every kind of principal reads back from the column it is
    stored in. *)
Theorem stored_seat_reads_back r p :
  role_from_storage (role_to_storage r) = r ∧ kind_from_storage (kind_to_storage p) = principal_kind p.
Proof.
  split; [apply role_stored|].
  destruct p as [[| | |provider|] id]; try reflexivity. unfold kind_to_storage, kind_from_storage.
  cbn [principal_kind]. by rewrite strip_prefix_app.
Qed.

Lemma altitude_reads_back a : altitude_parse_str (altitude_as_str a) = Some a.
Proof. by destruct a. Qed.

Lemma rank_max a b : rank (max_altitude a b) = Nat.max (rank a) (rank b).
Proof. unfold max_altitude. destruct (Nat.ltb_spec (rank b) (rank a)); lia. Qed.

(** A seat raises the altitude of its events and never lowers it, whatever
    floors are configured. *)
Lemma altitude_raised event_type r floors :
  rank (base_altitude event_type) ≤ rank (altitude_for_with_config event_type r floors)
  ∧ rank (role_floor_with_config r floors) ≤ rank (altitude_for_with_config event_type r floors).
Proof. unfold altitude_for_with_config. rewrite rank_max. lia. Qed.

(** No event type is listed twice: the order of the classes does not matter. *)
Example classes_are_disjoint :
  bool_decide (NoDup (ERROR_EVENTS ++ ATTENTION_EVENTS ++ NORMAL_EVENTS ++ DETAIL_EVENTS)) = true.
Proof. vm_compute. reflexivity. Qed.

(** A configured floor may lie below the default one: the sentinel's need not
    stay at [Attention]. *)
Example sentinel_floor_lowered :
  altitude_for_with_config "agent.reasoning" Sentinel (Some {["sentinel" := "detail"]}) = Detail
  ∧ altitude_for_with_config "agent.reasoning" Sentinel None = Attention.
Proof. vm_compute. done. Qed.

(** ** Attribution *)

Lemma derive_role_not_operator id : derive_role id ≠ Operator.
Proof.
  unfold derive_role. set (h := default id _). clearbody h.
  by repeat case_match.
Qed.

Lemma operator_role_stored r : role_to_storage r = "operator" ↔ r = Operator.
Proof.
  split; [|by intros ->]. intros H. apply (f_equal role_from_storage) in H.
  by rewrite role_stored in H.
Qed.

(** A chat line is shown as the operator's exactly when no agent authored it
    and it is not marked as a delivered signal; a line that is not a signal is
    never below the default floor, and a signal is the gateway's own, at the
    lowest altitude. *)
Theorem chat_line_attribution parse_json json_to_string captures_iter st session source message
    metadata e :
  ingest_chat_timeline_event parse_json json_to_string captures_iter st session source message
    metadata = Some e →
  (lde_role e = Some "operator" ↔
     is_signal_delivered_chat metadata = false ∧ default "" source = "")
  ∧ (is_signal_delivered_chat metadata = false →
     lde_altitude e = Some "normal" ∨ lde_altitude e = Some "attention")
  ∧ (is_signal_delivered_chat metadata = true →
     lde_role e = Some "runtime" ∧ lde_principal_id e = Some "gateway" ∧ lde_altitude e = Some "detail").
Proof.
  unfold ingest_chat_timeline_event. destruct (is_signal_delivered_chat metadata).
  - destruct (bool_decide _); [done|]. unfold workflow_signal_timeline_event.
    destruct (parse_json message) as [parsed|]; [|done]. simpl.
    destruct (get_str parsed "type") as [ty|]; [|done]. simpl.
    destruct (signal_row _ _ _ parsed ty) as [[ev payload]|]; [|done]. simpl. intros [= <-]. simpl.
    split; [|split]; [split; [done|by intros [? _]]|done|done].
  - intros [= <-]. unfold operator_message_event. destruct source as [[|c s]|]; simpl.
    1, 3: split; [done|]; split; [by left|done].
    split; [|split]; [split; [|by intros [_ ?]]|intros _|done].
    + intros H. apply (inj Some), operator_role_stored, derive_role_not_operator in H. done.
    + unfold altitude_for. destruct (derive_role (String c s)); simpl; auto.
Qed.

(** A decision is attributed to the human operator exactly when the recorded
    decider is the operator, and to an agent only for an identifier no reserved
    actor bears. *)
Theorem decider_seat_spec decided_by :
  (principal_kind (decider_seat decided_by).1 = Human ↔ trim decided_by = "operator")
  ∧ (principal_kind (decider_seat decided_by).1 = AutonoeticAgent →
     is_reserved_non_agent_id decided_by = false).
Proof.
  unfold decider_seat, decider_principal_kind, is_reserved_non_agent_id.
  set (s := trim decided_by). clearbody s.
  destruct (String.eqb_spec s "operator") as [->|Hop]; [done|].
  destruct (starts_with s "user:") eqn:Hu; [done|].
  destruct (str_is_empty s), (s =? "gateway")%string, (s =? "system")%string,
    (starts_with s "emergency_stop:"); simpl; try done.
  by destruct (starts_with s "agent:" || contains_char s ".").
Qed.

(** The identifier is not trimmed where its kind is: the auditor's decision,
    recorded with a leading space, is given to an unknown specialist. *)
Example untrimmed_decider :
  decider_seat "agent:auditor.default" = (agent "auditor.default", Auditor)
  ∧ decider_seat " agent:auditor.default" = (agent " agent:auditor.default", Specialist " agent:auditor").
Proof. vm_compute. done. Qed.

(** The metadata of a chat line decides whether it is shown: one marked as the
    wake-up notice of a peer message leaves no row. *)
Lemma marked_line_is_hidden parse_json json_to_string captures_iter st session source message :
  ingest_chat_timeline_event parse_json json_to_string captures_iter st session source message
    (Some (JObject [("signal_delivered", JBool true); ("signal_type", JString "agent_message")])) = None.
Proof. reflexivity. Qed.

Definition demo_stamp : Stamp := {| stamp_id := "e1"; stamp_node := "n"; stamp_now := "t" |}.

Lemma chat_line_attribution_witness :
  lde_role (operator_message_event (λ _, "{}") demo_stamp "root/a" None "hi") = Some "operator".
Proof.
  refine (proj2 (proj1 (chat_line_attribution (λ _, None) (λ _, "{}") (λ _ _, []) demo_stamp "root/a" None
    "hi" None (operator_message_event (λ _, "{}") demo_stamp "root/a" None "hi") eq_refl)) _).
  split; reflexivity.
Defined.
