(* ===== verification/Interactions.v ===== *)
(** * Questions to the user

    The model of the [user_interactions] table
    ([autonoetic-gateway/src/scheduler/gateway_store/user_interactions.rs]), of the
    tools [user_ask] and [user_interaction_status]
    ([runtime/tools/user_interaction.rs]), of the gate behind the first
    ([GateService::check_user_input] of [runtime/human_gate.rs]) and of the
    timeline events of a question ([runtime/session_timeline.rs]).

    The table is the list of its rows in insertion order; its primary key is the
    identifier.  Every operation takes the clock as its RFC 3339 text, which the
    table compares as text, and the stamp of the timeline event it writes.  The
    timeline only grows; failures of SQLite and of the timeline are left out. *)

From Stdlib Require Import Ascii String ZArith Lia.
From stdpp Require Import prelude gmap strings list.
From coqutil Require Import Datatypes.RecordSetters.
From S2P Require Import Prelude RustStr Json NetworkSinks Redaction ContentStore EgressLabeler Timeline.
From S2P Require Import Workflow WorkflowStore.
Import DoubleBraceUpdate.

Open Scope string_scope.
Open Scope nat_scope.
Open Scope list_scope.

(** ** Data *)

Inductive UserInteractionKind : Type :=
| Clarification | Decision | Proposal | Confirmation | DivergenceSentinel.

#[export] Instance user_interaction_kind_eq_dec : EqDecision UserInteractionKind.
Proof. solve_decision. Defined.

Definition interaction_kind_str (k : UserInteractionKind) : string :=
  match k with
  | Clarification => "clarification" | Decision => "decision" | Proposal => "proposal"
  | Confirmation => "confirmation" | DivergenceSentinel => "divergence_sentinel"
  end.

Inductive UserInteractionStatus : Type :=
| IPending | IAnswered | ICancelled | IExpired.

#[export] Instance user_interaction_status_eq_dec : EqDecision UserInteractionStatus.
Proof. solve_decision. Defined.

Definition interaction_status_str (s : UserInteractionStatus) : string :=
  match s with
  | IPending => "pending" | IAnswered => "answered" | ICancelled => "cancelled" | IExpired => "expired"
  end.

Record UserInteractionOption := {
  opt_id : string;
  opt_label : string;
  opt_value : string;
}.

Record UserInteraction := {
  interaction_id : string;
  ui_session_id : string;
  ui_root_session_id : string;
  ui_agent_id : string;
  ui_turn_id : string;
  ui_kind : UserInteractionKind;
  question : string;
  ui_context : option string;
  ui_options : list UserInteractionOption;
  allow_freeform : bool;
  ui_status : UserInteractionStatus;
  answer_option_id : option string;
  answer_text : option string;
  answered_by : option string;
  ui_created_at : string;
  answered_at : option string;
  expires_at : option string;
  ui_workflow_id : option string;
  ui_task_id : option string;
  checkpoint_turn_id : option string;
}.

Record UserInteractionAnswer := {
  ans_interaction_id : string;
  ans_option_id : option string;
  ans_text : option string;
  ans_by : string;
}.

(** A row: the interaction and when its resume was claimed. *)
Record Row := {
  interaction : UserInteraction;
  resumed_at : option string;
}.

Record InteractionDb := {
  rows : list Row;
  gate_messages : list (string * string * string);
  timeline : list LiveDigestEventRecord;
}.

Inductive InteractionError : Type :=
| EmptyInteractionId | UnknownInteraction (id : string)
| NotPending (s : UserInteractionStatus)
| NoAnswer | TwoAnswers | InvalidOption (id : string) | FreeformRefused | EmptyReason
| DuplicateInteraction (id : string) | MissingSession.

Abbreviation ires := (result InteractionDb InteractionError).

(** ** Events *)

Section Interactions.
Context (parse_json : string → option Json) (json_to_string : Json → string).
Context (captures_iter : string → string → list (list (option (nat * nat)))).

Notation redact := (redact_text_for_logs captures_iter parse_json json_to_string).
Notation event := (build_timeline_event json_to_string).

Definition nonblank (s : string) : option string := if str_is_empty (trim s) then None else Some s.

Definition event_root (i : UserInteraction) : string :=
  if str_is_empty (ui_root_session_id i) then root_session_id (ui_session_id i)
  else ui_root_session_id i.

Definition event_turn (i : UserInteraction) : option string :=
  if str_is_empty (ui_turn_id i) || (ui_turn_id i =? "unknown")%string then None
  else Some (ui_turn_id i).

Definition ask_refs (i : UserInteraction) : TimelineRefs :=
  {| ref_interaction_id := Some (interaction_id i); ref_other := [] |}.

Definition add_event (db : InteractionDb) (e : LiveDigestEventRecord) : InteractionDb :=
  db{{ timeline := timeline db ++ [e] }}.

Definition emit_user_ask_pending_timeline_event (st : Stamp) (db : InteractionDb)
    (i : UserInteraction) : InteractionDb :=
  let ctx := c ← ui_context i; nonblank c in
  let payload := json_object (
    [("interaction_id", JString (interaction_id i)); ("question", JString (redact (question i)));
     ("kind", JString (interaction_kind_str (ui_kind i)));
     ("options_count", JNumber (Z.of_nat (length (ui_options i))));
     ("options", JArray (map (λ o, json_object [("id", JString (opt_id o)); ("label", JString (opt_label o))])
                             (ui_options i)));
     ("allow_freeform", JBool (allow_freeform i))]
    ++ match ctx with Some c => [("context", JString (redact c))] | None => [] end) in
  add_event db (event st (event_root i) (ui_session_id i) (event_turn i) (agent (ui_agent_id i))
    (derive_role (ui_agent_id i)) "user.ask.pending" None (Some payload) (ask_refs i)).

Definition resolution_event_type (status : string) : option string :=
  if (status =? "resolved")%string then Some "user.ask.resolved"
  else if (status =? "cancelled")%string then Some "user.ask.cancelled"
  else if (status =? "expired")%string then Some "user.ask.expired" else None.

Definition resolution_seat (decided_by : option string) : Principal * SessionRole :=
  match decided_by with
  | Some s => decider_seat s
  | None => (script "gateway", RuntimeSeat)
  end.

Definition answer_fields (a : UserInteractionAnswer) : list (string * Json) :=
  match o ← ans_option_id a; nonblank o with
  | Some o => [("answer_option_id", JString o)] | None => [] end
  ++ match ans_text a with
     | Some t => if str_is_empty (trim t) then [] else [("answer_text", JString (redact (trim t)))]
     | None => []
     end.

Definition resolution_fields (status : string) (answer : option UserInteractionAnswer)
    (reason : option string) : list (string * Json) :=
  if (status =? "resolved")%string then from_option answer_fields [] answer
  else match reason with
       | Some r => if str_is_empty (trim r) then [] else [("reason", JString (redact (trim r)))]
       | None => []
       end.

Definition emit_user_ask_resolution_timeline_event (st : Stamp) (db : InteractionDb)
    (i : UserInteraction) (status : string) (decided_by : option string)
    (answer : option UserInteractionAnswer) (reason : option string) : InteractionDb :=
  match resolution_event_type status with
  | None => db
  | Some event_type =>
      let '(p, r) := resolution_seat decided_by in
      let payload := json_object ([("interaction_id", JString (interaction_id i))]
        ++ match decided_by with Some by_ => [("decided_by", JString by_)] | None => [] end
        ++ resolution_fields status answer reason) in
      add_event db (event st (event_root i) (ui_session_id i) (event_turn i) p r event_type None
        (Some payload) (ask_refs i))
  end.

(** ** The table *)

Definition find_row (db : InteractionDb) (id : string) : option Row :=
  List.find (λ r, (interaction_id (interaction r) =? id)%string) (rows db).

Definition get_user_interaction (db : InteractionDb) (id : string) : option UserInteraction :=
  interaction <$> find_row db id.

(** [UPDATE ... WHERE interaction_id = id AND p]. *)
Definition update_rows (db : InteractionDb) (id : string) (p : Row → bool) (f : Row → Row)
    : InteractionDb :=
  db{{ rows := map (λ r, if (interaction_id (interaction r) =? id)%string && p r then f r else r) (rows db) }}.

Definition is_status (s : UserInteractionStatus) (r : Row) : bool :=
  bool_decide (ui_status (interaction r) = s).

(** A new row holds no answer, whatever the interaction given holds. *)
Definition asked (i : UserInteraction) : UserInteraction :=
  i{{ ui_status := IPending; answer_option_id := None; answer_text := None; answered_by := None;
      answered_at := None }}.

Definition insert_row (db : InteractionDb) (i : UserInteraction) : InteractionDb :=
  db{{ rows := rows db ++ [{| interaction := i; resumed_at := None |}] }}.

Definition create_user_interaction (st : Stamp) (db : InteractionDb) (i : UserInteraction) : ires :=
  match find_row db (interaction_id i) with
  | Some _ => Err (DuplicateInteraction (interaction_id i))
  | None => Ok (emit_user_ask_pending_timeline_event st (insert_row db (asked i)) i)
  end.

(** The answer as it is stored. *)
Definition given_option (a : UserInteractionAnswer) : option string :=
  o ← ans_option_id a; if str_is_empty (trim o) then None else Some (trim o).
Definition given_text (a : UserInteractionAnswer) : option string := t ← ans_text a; nonblank t.

Definition check_answer (i : UserInteraction) (a : UserInteractionAnswer) : result unit InteractionError :=
  match given_option a, given_text a with
  | None, None => Err NoAnswer
  | Some _, Some _ => Err TwoAnswers
  | Some oid, None =>
      if existsb (λ o, (opt_id o =? oid)%string) (ui_options i) then Ok tt else Err (InvalidOption oid)
  | None, Some _ => if allow_freeform i then Ok tt else Err FreeformRefused
  end.

Definition answered (now : string) (a : UserInteractionAnswer) (i : UserInteraction) : UserInteraction :=
  i{{ ui_status := IAnswered; answer_option_id := given_option a; answer_text := given_text a;
      answered_by := Some (ans_by a); answered_at := Some now }}.

Definition on_interaction (f : UserInteraction → UserInteraction) (r : Row) : Row :=
  {| interaction := f (interaction r); resumed_at := resumed_at r |}.

Definition answer_user_interaction (now : string) (st : Stamp) (db : InteractionDb)
    (a : UserInteractionAnswer) : ires :=
  if str_is_empty (trim (ans_interaction_id a)) then Err EmptyInteractionId
  else match get_user_interaction db (ans_interaction_id a) with
  | None => Err (UnknownInteraction (ans_interaction_id a))
  | Some i =>
      if negb (bool_decide (ui_status i = IPending)) then Err (NotPending (ui_status i))
      else match check_answer i a with
      | Err e => Err e
      | Ok _ =>
          let db := update_rows db (ans_interaction_id a) (is_status IPending)
                      (on_interaction (answered now a)) in
          Ok (emit_user_ask_resolution_timeline_event st db i "resolved" (Some (ans_by a)) (Some a) None)
      end
  end.

Definition cancel_user_interaction (st : Stamp) (db : InteractionDb) (id reason : string) : ires :=
  if str_is_empty (trim id) then Err EmptyInteractionId
  else if str_is_empty (trim reason) then Err EmptyReason
  else match get_user_interaction db id with
  | None => Err (UnknownInteraction id)
  | Some i =>
      if negb (bool_decide (ui_status i = IPending)) then Err (NotPending (ui_status i))
      else
        let db := update_rows db id (is_status IPending)
          (on_interaction (λ i, i{{ ui_status := ICancelled; answer_text := Some reason }})) in
        Ok (emit_user_ask_resolution_timeline_event st db i "cancelled" None None (Some reason))
  end.

Definition timed_out (now : string) (r : Row) : bool :=
  is_status IPending r
  && match expires_at (interaction r) with
     | Some e => bool_decide (String.compare e now = Lt)
     | None => false
     end.

Definition expire_row (r : Row) : Row := on_interaction (λ i, i{{ ui_status := IExpired }}) r.

(** One event per expired row; [st] stamps them all but for the identifier. *)
Definition expire_timed_out_interactions (now : string) (st : Stamp) (db : InteractionDb)
    : InteractionDb * list string :=
  let ids := map (λ r, interaction_id (interaction r)) (List.filter (timed_out now) (rows db)) in
  let db := fold_left (λ db id, update_rows db id (λ _, true) expire_row) ids db in
  let expired := omap (get_user_interaction db) ids in
  (fold_left (λ db i, emit_user_ask_resolution_timeline_event st db i "expired" None None None) expired db,
   map interaction_id expired).

(** ** Queries *)

Definition select (db : InteractionDb) (p : Row → bool) : list UserInteraction :=
  map interaction (List.filter p (rows db)).

Definition get_pending_interactions_for_session (db : InteractionDb) (session : string)
    : list UserInteraction :=
  select db (λ r, (ui_session_id (interaction r) =? session)%string && is_status IPending r).

Definition get_pending_interactions_for_root_session (db : InteractionDb) (root : string)
    : list UserInteraction :=
  select db (λ r, (ui_root_session_id (interaction r) =? root)%string && is_status IPending r).

Definition get_expired_interactions_for_root_session (db : InteractionDb) (root : string)
    : list UserInteraction :=
  select db (λ r, (ui_root_session_id (interaction r) =? root)%string && is_status IExpired r).

(** [ORDER BY answered_at]: [NULL] comes first, ties in insertion order. *)
Definition by_answered_at (a b : UserInteraction) : comparison :=
  match answered_at a, answered_at b with
  | None, None => Eq
  | None, Some _ => Lt
  | Some _, None => Gt
  | Some s, Some t => String.compare s t
  end.

Definition get_answered_interactions_for_root_session (db : InteractionDb) (root : string)
    : list UserInteraction :=
  sort_by (λ a b, by_answered_at b a)
    (select db (λ r, (ui_root_session_id (interaction r) =? root)%string && is_status IAnswered r)).

(** [workflow_id IS NULL OR workflow_id = '']. *)
Definition standalone (i : UserInteraction) : bool :=
  match ui_workflow_id i with Some w => str_is_empty w | None => true end.

Definition claimable (r : Row) : bool :=
  is_status IAnswered r && standalone (interaction r) && bool_decide (resumed_at r = None).

Definition get_answered_standalone_interactions (db : InteractionDb) : list UserInteraction :=
  sort_by by_answered_at (select db claimable).

Definition by_created_at (a b : UserInteraction) : comparison :=
  String.compare (ui_created_at a) (ui_created_at b).

Definition list_user_interactions_for_session_trace (db : InteractionDb) (session : string)
    : list UserInteraction :=
  sort_by by_created_at (select db (λ r, (ui_session_id (interaction r) =? session)%string
    || (ui_root_session_id (interaction r) =? session)%string)).

Definition list_user_interactions_for_workflow (db : InteractionDb) (wf : string)
    : list UserInteraction :=
  sort_by by_created_at (select db (λ r, bool_decide (ui_workflow_id (interaction r) = Some wf))).

(** ** Claims of the resume *)

Definition try_claim_answered_standalone_interaction_resume (now : string) (db : InteractionDb)
    (id : string) : result (InteractionDb * bool) InteractionError :=
  if str_is_empty (trim id) then Err EmptyInteractionId
  else Ok (update_rows db id claimable (λ r, {| interaction := interaction r; resumed_at := Some now |}),
           from_option claimable false (find_row db id)).

Definition release_answered_standalone_interaction_resume_claim (db : InteractionDb) (id : string)
    : ires :=
  if str_is_empty (trim id) then Err EmptyInteractionId
  else Ok (update_rows db id (λ r, is_status IAnswered r && standalone (interaction r))
             (λ r, {| interaction := interaction r; resumed_at := None |})).
(** ** Steps *)

Inductive interaction_step (db : InteractionDb) : InteractionDb → Prop :=
| step_create st i db' : create_user_interaction st db i = Ok db' → interaction_step db db'
| step_answer now st a db' : answer_user_interaction now st db a = Ok db' → interaction_step db db'
| step_cancel st id reason db' :
    cancel_user_interaction st db id reason = Ok db' → interaction_step db db'
| step_expire now st : interaction_step db (expire_timed_out_interactions now st db).1
| step_claim now id db' won :
    try_claim_answered_standalone_interaction_resume now db id = Ok (db', won) → interaction_step db db'
| step_release id db' :
    release_answered_standalone_interaction_resume_claim db id = Ok db' → interaction_step db db'
| step_gate_message m : interaction_step db (db{{ gate_messages := gate_messages db ++ [m] }}).

Definition no_interactions : InteractionDb := {| rows := []; gate_messages := []; timeline := [] |}.

Inductive interactions_reachable : InteractionDb → Prop :=
| reach_none : interactions_reachable no_interactions
| reach_step db db' : interactions_reachable db → interaction_step db db' → interactions_reachable db'.
End Interactions.

(** ** Rows and their updates *)

Definition row_id (r : Row) : string := interaction_id (interaction r).

Lemma find_map_row (l : list Row) id id' p f :
  (∀ r, row_id (f r) = row_id r) →
  List.find (λ r, (row_id r =? id')%string)
    (map (λ r, if (row_id r =? id)%string && p r then f r else r) l)
  = (λ r, if (id' =? id)%string && p r then f r else r) <$> List.find (λ r, (row_id r =? id')%string) l.
Proof.
  intros Hf. induction l as [|r l IH]; [done|]. cbn [map List.find].
  assert (row_id (if (row_id r =? id)%string && p r then f r else r) = row_id r) as ->
    by (destruct (_ && _); [apply Hf|done]).
  destruct (String.eqb_spec (row_id r) id') as [->|_]; [done|exact IH].
Qed.

Lemma find_row_update db id id' p f :
  (∀ r, row_id (f r) = row_id r) →
  find_row (update_rows db id p f) id'
  = (λ r, if (id' =? id)%string && p r then f r else r) <$> find_row db id'.
Proof. intros Hf. apply (find_map_row _ _ _ p f Hf). Qed.

Lemma find_row_some db id r : find_row db id = Some r → row_id r = id.
Proof. intros [_ H]%List.find_some. by apply String.eqb_eq. Qed.

Lemma row_id_update db id p f :
  (∀ r, row_id (f r) = row_id r) → map row_id (rows (update_rows db id p f)) = map row_id (rows db).
Proof.
  intros Hf. etrans; [apply List.map_map|]. apply List.map_ext. intros r.
  destruct (_ && _); [apply Hf|done].
Qed.

Lemma find_row_none db id : find_row db id = None → id ∉ map row_id (rows db).
Proof.
  intros H (r & -> & Hr)%list_elem_of_fmap. apply list_elem_of_In in Hr.
  pose proof (List.find_none _ _ H _ Hr) as Hn. simpl in Hn.
  change (interaction_id (interaction r)) with (row_id r) in Hn. by rewrite String.eqb_refl in Hn.
Qed.

Lemma find_row_in db r : NoDup (map row_id (rows db)) → r ∈ rows db → find_row db (row_id r) = Some r.
Proof.
  unfold find_row. generalize (rows db). intros l. induction l as [|x l IH]; [by intros ? ?%not_elem_of_nil|].
  cbn [map List.find]. intros [Hx Hn]%NoDup_cons [->|Hr]%elem_of_cons.
  - unfold row_id. by rewrite String.eqb_refl.
  - destruct (String.eqb_spec (interaction_id (interaction x)) (row_id r)) as [He|_]; [|by apply IH].
    exfalso. apply Hx. change (interaction_id (interaction x)) with (row_id x) in He. rewrite He.
    by apply (list_elem_of_fmap_2 row_id).
Qed.

(** ** One question

    What a step may do to a question, and the events it adds to the timeline. *)

Definition nothing_answered (i : UserInteraction) : Prop :=
  answer_option_id i = None ∧ answer_text i = None ∧ answered_by i = None ∧ answered_at i = None.

Inductive question_step : option Row → option Row → list string → Prop :=
| question_same o : question_step o o []
| question_asked i :
    ui_status i = IPending → nothing_answered i →
    question_step None (Some {| interaction := i; resumed_at := None |}) ["user.ask.pending"]
| question_answered now a r :
    is_status IPending r = true → check_answer (interaction r) a = Ok () →
    question_step (Some r) (Some (on_interaction (answered now a) r)) ["user.ask.resolved"]
| question_cancelled reason r :
    is_status IPending r = true → str_is_empty (trim reason) = false →
    question_step (Some r)
      (Some (on_interaction (λ i, i{{ ui_status := ICancelled; answer_text := Some reason }}) r))
      ["user.ask.cancelled"]
| question_expired now r :
    timed_out now r = true → question_step (Some r) (Some (expire_row r)) ["user.ask.expired"]
| question_claimed now r :
    claimable r = true →
    question_step (Some r) (Some {| interaction := interaction r; resumed_at := Some now |}) []
| question_released r :
    is_status IAnswered r && standalone (interaction r) = true →
    question_step (Some r) (Some {| interaction := interaction r; resumed_at := None |}) [].

(** The events of a question, oldest first. *)
Definition ask_events (db : InteractionDb) (id : string) : list string :=
  map lde_event_type
    (List.filter (λ e, bool_decide (ref_interaction_id (lde_refs e) = Some id)) (timeline db)).

Definition ids (db : InteractionDb) : list string := map row_id (rows db).

Definition about (i : UserInteraction) (id : string) (events : list string) : list string :=
  if (id =? interaction_id i)%string then events else [].

Lemma ask_events_add db e id :
  ask_events (add_event db e) id
  = ask_events db id ++ (if bool_decide (ref_interaction_id (lde_refs e) = Some id)
                         then [lde_event_type e] else []).
Proof.
  unfold ask_events. change (timeline (add_event db e)) with (timeline db ++ [e]).
  rewrite List.filter_app, map_app. cbn [List.filter]. by destruct (bool_decide _).
Qed.

Lemma about_ref i id (e : string) :
  (if bool_decide (Some (interaction_id i) = Some id) then [e] else []) = about i id [e].
Proof.
  unfold about. destruct (String.eqb_spec id (interaction_id i)) as [->|H].
  - by rewrite bool_decide_eq_true_2.
  - rewrite bool_decide_eq_false_2; [done|]. intros [= He]. by apply H.
Qed.

Section Steps.
Context (parse_json : string → option Json) (json_to_string : Json → string).
Context (captures_iter : string → string → list (list (option (nat * nat)))).

Notation emit_pending := (emit_user_ask_pending_timeline_event parse_json json_to_string captures_iter).
Notation emit_resolution := (emit_user_ask_resolution_timeline_event parse_json json_to_string captures_iter).
Notation step := (interaction_step parse_json json_to_string captures_iter).
Notation reachable := (interactions_reachable parse_json json_to_string captures_iter).
Notation create := (create_user_interaction parse_json json_to_string captures_iter).
Notation expire := (expire_timed_out_interactions parse_json json_to_string captures_iter).

Lemma pending_event st db i id :
  ask_events (emit_pending st db i) id = ask_events db id ++ about i id ["user.ask.pending"].
Proof. unfold emit_user_ask_pending_timeline_event. rewrite ask_events_add. by rewrite <-about_ref. Qed.

Lemma pending_rows st db i : rows (emit_pending st db i) = rows db.
Proof. reflexivity. Qed.

Lemma resolution_event st db i status by_ answer reason id :
  ask_events (emit_resolution st db i status by_ answer reason) id
  = ask_events db id ++ about i id (from_option (λ e, [e]) [] (resolution_event_type status)).
Proof.
  unfold emit_user_ask_resolution_timeline_event.
  destruct (resolution_event_type status) as [ty|]; simpl.
  - destruct (resolution_seat by_) as [p r]. rewrite ask_events_add. by rewrite <-about_ref.
  - unfold about. destruct (_ =? _)%string; by rewrite app_nil_r.
Qed.

Lemma resolution_rows st db i status by_ answer reason :
  rows (emit_resolution st db i status by_ answer reason) = rows db.
Proof.
  unfold emit_user_ask_resolution_timeline_event.
  destruct (resolution_event_type status); [|done]. by destruct (resolution_seat by_).
Qed.

Lemma find_row_rows db db' id : rows db = rows db' → find_row db id = find_row db' id.
Proof. unfold find_row. by intros ->. Qed.
(** A step of the table is a step of each of its questions. *)
Definition moves (db db' : InteractionDb) : Prop :=
  (∀ id, ∃ events, question_step (find_row db id) (find_row db' id) events
     ∧ ask_events db' id = ask_events db id ++ events)
  ∧ (NoDup (ids db) → NoDup (ids db')).

Lemma ids_rows db db' : rows db = rows db' → ids db = ids db'.
Proof. unfold ids. by intros ->. Qed.

(** Steps that update the row of one identifier. *)
Lemma moves_update db db' id r p f events :
  (∀ r, row_id (f r) = row_id r) →
  rows db' = rows (update_rows db id p f) →
  find_row db id = Some r → p r = true →
  (∀ id', ask_events db' id' = ask_events db id' ++ about (interaction r) id' events) →
  question_step (Some r) (Some (f r)) events → moves db db'.
Proof.
  intros Hf Hrows Hr Hp He Hs. split.
  - intros id'. rewrite (find_row_rows _ _ id' Hrows), find_row_update by done. rewrite He.
    pose proof (find_row_some _ _ _ Hr) as Hid. unfold row_id in Hid. unfold about. rewrite Hid.
    destruct (String.eqb_spec id' id) as [->|Hne].
    + rewrite Hr. simpl. rewrite Hp. eauto.
    + exists []. split; [|done]. destruct (find_row db id'); constructor.
  - intros Hn. rewrite (ids_rows _ _ Hrows). unfold ids. by rewrite row_id_update.
Qed.

Lemma moves_none db db' :
  rows db' = rows db → timeline db' = timeline db → moves db db'.
Proof.
  intros Hr Ht. split.
  - intros id. rewrite (find_row_rows _ _ id Hr). exists []. split; [constructor|].
    unfold ask_events. by rewrite Ht, app_nil_r.
  - by rewrite (ids_rows _ _ Hr).
Qed.

Lemma update_none db id p f : find_row db id = None → rows (update_rows db id p f) = rows db.
Proof.
  intros H%find_row_none. change (map (λ r, if (row_id r =? id)%string && p r then f r else r) (rows db) = rows db).
  revert H. generalize (rows db). intros l. induction l as [|r l IH]; [done|]. cbn [map].
  rewrite not_elem_of_cons. intros [Hne H]. rewrite IH by done.
  by rewrite (proj2 (String.eqb_neq (row_id r) id)).
Qed.

Lemma update_false db id p f r :
  NoDup (ids db) → find_row db id = Some r → p r = false → rows (update_rows db id p f) = rows db.
Proof.
  intros Hn Hr Hp.
  change (map (λ r, if (row_id r =? id)%string && p r then f r else r) (rows db) = rows db).
  rewrite <-(List.map_id (rows db)) at 2. apply List.map_ext_in. intros x Hx%list_elem_of_In.
  destruct (String.eqb_spec (row_id x) id) as [<-|]; [|done].
  rewrite (find_row_in db x Hn Hx) in Hr. injection Hr as ->. by rewrite Hp.
Qed.

Lemma list_find_app {A} (p : A → bool) l l' :
  List.find p (l ++ l') = match List.find p l with Some x => Some x | None => List.find p l' end.
Proof. induction l as [|x l IH]; [done|]. simpl. by destruct (p x). Qed.

Lemma create_moves st db i db' : create st db i = Ok db' → moves db db'.
Proof.
  unfold create_user_interaction. destruct (find_row db (interaction_id i)) eqn:E; [done|].
  intros [= <-]. set (db1 := insert_row db (asked i)).
  assert (rows db1 = rows db ++ [{| interaction := asked i; resumed_at := None |}]) as Hr by reflexivity.
  split.
  - intros id. rewrite pending_event. change (ask_events db1 id) with (ask_events db id).
    rewrite (find_row_rows (emit_pending st db1 i) db1) by apply pending_rows. unfold find_row at 2. rewrite Hr.
    rewrite list_find_app. fold (find_row db id). unfold about.
    destruct (String.eqb_spec id (interaction_id i)) as [->|Hne].
    + rewrite E. cbn [List.find]. rewrite String.eqb_refl. exists ["user.ask.pending"]. split; [|done].
      apply question_asked; [done|]. by repeat split.
    + exists []. split; [|done]. destruct (find_row db id); [constructor|]. cbn [List.find].
      change (interaction_id (interaction _)) with (interaction_id i).
      rewrite (proj2 (String.eqb_neq (interaction_id i) id)) by congruence. constructor.
  - intros Hn. rewrite (ids_rows (emit_pending st db1 i) db1) by apply pending_rows. unfold ids. rewrite Hr, map_app.
    apply NoDup_app. split; [done|]. split; [|apply NoDup_singleton].
    intros x Hx Hx'. apply find_row_none in E. apply list_elem_of_singleton in Hx'. by subst x.
Qed.

Lemma answer_moves now st a db db' :
  answer_user_interaction parse_json json_to_string captures_iter now st db a = Ok db' → moves db db'.
Proof.
  unfold answer_user_interaction. destruct (str_is_empty _); [done|]. unfold get_user_interaction.
  destruct (find_row db (ans_interaction_id a)) as [r|] eqn:E; [|done]. simpl.
  destruct (bool_decide (ui_status (interaction r) = IPending)) eqn:Hp; [|done]. simpl.
  destruct (check_answer (interaction r) a) as [[]|] eqn:Hc; [|done]. intros [= <-].
  eapply (moves_update _ _ (ans_interaction_id a) r (is_status IPending) (on_interaction (answered now a))).
  - done.
  - apply resolution_rows.
  - done.
  - done.
  - intros id'. by rewrite resolution_event.
  - by apply question_answered.
Qed.

Lemma cancel_question_moves st id reason db db' :
  cancel_user_interaction parse_json json_to_string captures_iter st db id reason = Ok db' → moves db db'.
Proof.
  unfold cancel_user_interaction. destruct (str_is_empty _); [done|].
  destruct (str_is_empty (trim reason)) eqn:Hreason; [done|]. unfold get_user_interaction.
  destruct (find_row db id) as [r|] eqn:E; [|done]. simpl.
  destruct (bool_decide (ui_status (interaction r) = IPending)) eqn:Hp; [|done]. simpl. intros [= <-].
  eapply (moves_update _ _ id r (is_status IPending)
    (on_interaction (λ i, i{{ ui_status := ICancelled; answer_text := Some reason }}))).
  - done.
  - apply resolution_rows.
  - done.
  - done.
  - intros id'. by rewrite resolution_event.
  - by apply question_cancelled.
Qed.

Lemma claim_moves now id db db' won :
  NoDup (ids db) →
  try_claim_answered_standalone_interaction_resume now db id = Ok (db', won) → moves db db'.
Proof.
  intros Hn. unfold try_claim_answered_standalone_interaction_resume. destruct (str_is_empty _); [done|].
  intros [= <- _]. destruct (find_row db id) as [r|] eqn:E; [|by apply moves_none; [apply update_none|]].
  destruct (claimable r) eqn:Hc; [|by apply moves_none; [eapply update_false|]].
  eapply (moves_update _ _ id r claimable (λ r, {| interaction := interaction r; resumed_at := Some now |}));
    [done|reflexivity|done|exact Hc| |by apply question_claimed].
  intros id'. unfold about. destruct (_ =? _)%string; by rewrite app_nil_r.
Qed.

Lemma release_moves id db db' :
  NoDup (ids db) →
  release_answered_standalone_interaction_resume_claim db id = Ok db' → moves db db'.
Proof.
  intros Hn. unfold release_answered_standalone_interaction_resume_claim. destruct (str_is_empty _); [done|].
  intros [= <-]. destruct (find_row db id) as [r|] eqn:E; [|by apply moves_none; [apply update_none|]].
  destruct (is_status IAnswered r && standalone (interaction r)) eqn:Hc;
    [|by apply moves_none; [eapply update_false|]].
  eapply (moves_update _ _ id r (λ r, is_status IAnswered r && standalone (interaction r))
    (λ r, {| interaction := interaction r; resumed_at := None |}));
    [done|reflexivity|done|exact Hc| |by apply question_released].
  intros id'. unfold about. destruct (_ =? _)%string; by rewrite app_nil_r.
Qed.

Definition expire_rows (db : InteractionDb) (l : list string) : InteractionDb :=
  fold_left (λ db id, update_rows db id (λ _, true) expire_row) l db.

Lemma find_row_expired l db id :
  find_row (expire_rows db l) id
  = (λ r, if bool_decide (id ∈ l) then expire_row r else r) <$> find_row db id.
Proof.
  revert db. induction l as [|x l IH]; intros db; unfold expire_rows; cbn [fold_left].
  - rewrite bool_decide_eq_false_2 by set_solver. by destruct (find_row db id).
  - fold (expire_rows (update_rows db x (λ _, true) expire_row) l).
    rewrite IH, find_row_update by done. destruct (find_row db id) as [r|]; [|done]. simpl. f_equal.
    destruct (String.eqb_spec id x) as [->|Hne]; simpl.
    + rewrite (bool_decide_eq_true_2 (x ∈ x :: l)) by set_solver. by destruct (bool_decide (x ∈ l)).
    + rewrite (bool_decide_ext (id ∈ x :: l) (id ∈ l)) by set_solver. done.
Qed.

Lemma expire_rows_ids l db : ids (expire_rows db l) = ids db.
Proof.
  revert db. induction l as [|x l IH]; intros db; [done|]. unfold expire_rows. cbn [fold_left].
  etrans; [apply IH|]. by apply row_id_update.
Qed.

Lemma expire_rows_timeline l db : timeline (expire_rows db l) = timeline db.
Proof. revert db. induction l as [|x l IH]; intros db; [done|]. unfold expire_rows. cbn [fold_left]. by etrans; [apply IH|]. Qed.

Lemma expiry_events st l db id :
  ask_events (fold_left (λ db i, emit_resolution st db i "expired" None None None) l db) id
  = ask_events db id ++ concat (map (λ i, about i id ["user.ask.expired"]) l).
Proof.
  revert db. induction l as [|i l IH]; intros db; cbn [fold_left map concat]; [by rewrite app_nil_r|].
  by rewrite IH, resolution_event, <-app_assoc.
Qed.

Lemma expiry_rows st l db :
  rows (fold_left (λ db i, emit_resolution st db i "expired" None None None) l db) = rows db.
Proof. revert db. induction l as [|i l IH]; intros db; [done|]. cbn [fold_left]. by rewrite IH, resolution_rows. Qed.

Lemma about_expired db l id :
  NoDup l → (∀ x, x ∈ l → is_Some (find_row db x)) →
  concat (map (λ i, about i id ["user.ask.expired"]) (omap (get_user_interaction db) l))
  = if bool_decide (id ∈ l) then ["user.ask.expired"] else [].
Proof.
  induction l as [|x l IH]; intros Hn Hl; [by rewrite bool_decide_eq_false_2 by set_solver|].
  apply NoDup_cons in Hn as [Hx Hn]. cbn [omap list_omap]. unfold get_user_interaction at 1.
  destruct (Hl x) as [r Hr]; [by left|]. rewrite Hr. cbn [fmap option_fmap option_map map concat].
  rewrite IH by (done || set_solver). unfold about. pose proof (find_row_some _ _ _ Hr) as Hid.
  unfold row_id in Hid. rewrite Hid. destruct (String.eqb_spec id x) as [->|Hne].
  - rewrite bool_decide_eq_false_2, bool_decide_eq_true_2 by set_solver. done.
  - by rewrite (bool_decide_ext (id ∈ x :: l) (id ∈ l)) by set_solver.
Qed.

Lemma timed_out_ids now db id :
  NoDup (ids db) →
  id ∈ map row_id (List.filter (timed_out now) (rows db))
  ↔ ∃ r, find_row db id = Some r ∧ timed_out now r = true.
Proof.
  intros Hn. split.
  - intros (r & -> & [Hr%list_elem_of_In Ht]%list_elem_of_In%filter_In)%list_elem_of_fmap.
    exists r. split; [by apply find_row_in|done].
  - intros (r & Hr & Ht). rewrite <-(find_row_some _ _ _ Hr). apply (list_elem_of_fmap_2 row_id).
    apply list_elem_of_In, filter_In. split; [|done]. by apply List.find_some in Hr as [? _].
Qed.

Lemma expire_moves now st db : NoDup (ids db) → moves db (expire now st db).1.
Proof.
  intros Hn. set (l := map row_id (List.filter (timed_out now) (rows db))).
  assert ((expire now st db).1 = fold_left (λ db i, emit_resolution st db i "expired" None None None)
    (omap (get_user_interaction (expire_rows db l)) l) (expire_rows db l)) as -> by reflexivity.
  assert (NoDup l) as Hl by (by apply (filter_fmap_nodup row_id (timed_out now))).
  split; [|by rewrite (ids_rows _ _ (expiry_rows _ _ _)), expire_rows_ids].
  intros id. rewrite (find_row_rows _ _ id (expiry_rows _ _ _)), find_row_expired, expiry_events.
  rewrite about_expired; [|done|].
  - assert (ask_events (expire_rows db l) id = ask_events db id) as ->
      by (unfold ask_events; by rewrite expire_rows_timeline).
    case_bool_decide as Hin.
    + apply timed_out_ids in Hin as (r & Hr & Ht); [|done]. rewrite Hr. simpl.
      exists ["user.ask.expired"]. split; [by eapply question_expired|done].
    + exists []. split; [|done]. destruct (find_row db id); constructor.
  - intros x Hx. rewrite find_row_expired. apply timed_out_ids in Hx as (r & -> & _); [|done]. simpl. eauto.
Qed.

Lemma interaction_step_moves db db' : NoDup (ids db) → step db db' → moves db db'.
Proof.
  intros Hn. destruct 1 as [st i db' H|now st a db' H|st id reason db' H|now st|now id db' won H|id db' H|m].
  - by eapply create_moves.
  - by eapply answer_moves.
  - by eapply cancel_question_moves.
  - by apply expire_moves.
  - by eapply claim_moves.
  - by eapply release_moves.
  - by apply moves_none.
Qed.

Lemma reachable_ids db : reachable db → NoDup (ids db).
Proof.
  induction 1 as [|db db' _ IH Hs]; [constructor|]. destruct (interaction_step_moves _ _ IH Hs) as [_ H]. auto.
Qed.

(** C32: Every step of the table, of any of its operations, is for each question a
    step of its life (asked, then answered, cancelled or expired, then claimed and
    released), or leaves it alone, and writes to the timeline the events of that
    step and no other. *)
Theorem table_refines_questions db db' id :
  reachable db → step db db' →
  ∃ events, question_step (find_row db id) (find_row db' id) events
    ∧ ask_events db' id = ask_events db id ++ events.
Proof. intros Hr Hs. apply (interaction_step_moves db db' (reachable_ids _ Hr) Hs). Qed.

(** What the columns of a row hold, by its status. *)
Definition valid_answer (i : UserInteraction) : Prop :=
  match answer_option_id i, answer_text i with
  | Some oid, None => ∃ o, o ∈ ui_options i ∧ opt_id o = oid
  | None, Some t => allow_freeform i = true ∧ trim t ≠ ""
  | _, _ => False
  end.

Definition row_ok (r : Row) : Prop :=
  let i := interaction r in
  match ui_status i with
  | IPending | IExpired => nothing_answered i ∧ resumed_at r = None
  | ICancelled => answer_option_id i = None ∧ answered_by i = None ∧ answered_at i = None
                  ∧ (∃ reason, answer_text i = Some reason ∧ trim reason ≠ "") ∧ resumed_at r = None
  | IAnswered => is_Some (answered_by i) ∧ is_Some (answered_at i) ∧ valid_answer i
                 ∧ (resumed_at r ≠ None → standalone i = true)
  end.

Definition closing_events (s : UserInteractionStatus) : list string :=
  match s with
  | IPending => []
  | IAnswered => ["user.ask.resolved"]
  | ICancelled => ["user.ask.cancelled"]
  | IExpired => ["user.ask.expired"]
  end.

Definition history_of (o : option Row) : list string :=
  match o with
  | None => []
  | Some r => "user.ask.pending" :: closing_events (ui_status (interaction r))
  end.

Lemma str_nonempty s : str_is_empty s = false → s ≠ "".
Proof. by destruct s. Qed.

Lemma check_answer_valid now a i : check_answer i a = Ok () → valid_answer (answered now a i).
Proof.
  unfold check_answer, valid_answer.
  change (answer_option_id (answered now a i)) with (given_option a).
  change (answer_text (answered now a i)) with (given_text a).
  change (ui_options (answered now a i)) with (ui_options i).
  change (allow_freeform (answered now a i)) with (allow_freeform i).
  destruct (given_option a) as [oid|], (given_text a) as [t|] eqn:Ht; try done.
  - destruct (existsb _ _) eqn:E; [|done]. intros _. apply existsb_exists in E as (o & Ho & He).
    exists o. split; [by apply list_elem_of_In|by apply String.eqb_eq].
  - destruct (allow_freeform i); [|done]. intros _. split; [done|].
    unfold given_text, nonblank in Ht. destruct (ans_text a) as [u|]; [|done]. simpl in Ht.
    destruct (str_is_empty (trim u)) eqn:E; [done|]. injection Ht as <-. by apply str_nonempty.
Qed.

Lemma question_step_ok o o' events :
  (∀ r, o = Some r → row_ok r) → question_step o o' events →
  (∀ r, o' = Some r → row_ok r) ∧ history_of o' = history_of o ++ events.
Proof.
  intros Hok Hs.
  destruct Hs as [o|i Hp Hn|now a r Hp Hc|reason r Hp Hreason|now r Ht|now r Hc|r Hc].
  - split; [done|by rewrite app_nil_r].
  - split; [|unfold history_of; simpl; by rewrite Hp]. intros r [= <-]. unfold row_ok. simpl. by rewrite Hp.
  - apply bool_decide_eq_true in Hp. specialize (Hok r eq_refl). unfold row_ok in Hok. rewrite Hp in Hok.
    split; [|unfold history_of; by rewrite Hp]. intros r' [= <-].
    change (is_Some (Some (ans_by a)) ∧ is_Some (Some now) ∧ valid_answer (answered now a (interaction r))
      ∧ (resumed_at r ≠ None → standalone (interaction r) = true)).
    split_and!; [eauto|eauto|by apply check_answer_valid|]. destruct Hok as [_ ->]. done.
  - apply bool_decide_eq_true in Hp. specialize (Hok r eq_refl). unfold row_ok in Hok. rewrite Hp in Hok.
    split; [|unfold history_of; by rewrite Hp]. intros r' [= <-]. destruct Hok as ((? & ? & ? & ?) & ?).
    unfold row_ok. simpl. split_and!; try done. exists reason. split; [done|by apply str_nonempty].
  - apply andb_true_iff in Ht as [Hp%bool_decide_eq_true _]. specialize (Hok r eq_refl).
    unfold row_ok in Hok. rewrite Hp in Hok.
    split; [|unfold history_of; by rewrite Hp]. intros r' [= <-]. exact Hok.
  - apply andb_true_iff in Hc as [[Hp%bool_decide_eq_true Hst]%andb_true_iff _]. specialize (Hok r eq_refl).
    unfold row_ok in Hok. rewrite Hp in Hok.
    split; [|by rewrite app_nil_r]. intros r' [= <-]. unfold row_ok. simpl. rewrite Hp.
    destruct Hok as (? & ? & ? & ?). by split_and!.
  - apply andb_true_iff in Hc as [Hp%bool_decide_eq_true Hst]. specialize (Hok r eq_refl).
    unfold row_ok in Hok. rewrite Hp in Hok.
    split; [|by rewrite app_nil_r]. intros r' [= <-]. unfold row_ok. simpl. rewrite Hp.
    destruct Hok as (? & ? & ? & ?). by split_and!.
Qed.

(** Whatever was asked, answered, cancelled, expired, claimed and released:
    the columns of every row agree with its status, an answer is one of the
    options offered or a text where one was allowed, and the timeline shows each
    question asked once and closed exactly when it is, by the event of its
    status. *)
Theorem questions_well_formed db id :
  reachable db →
  (∀ r, find_row db id = Some r → row_ok r) ∧ ask_events db id = history_of (find_row db id).
Proof.
  induction 1 as [|db db' Hr [IH1 IH2] Hs]; [done|].
  destruct (interaction_step_moves db db' (reachable_ids _ Hr) Hs) as [Hm _]. destruct (Hm id) as (ev & Hq & He).
  destruct (question_step_ok _ _ _ IH1 Hq) as [Ho Hh]. split; [done|]. by rewrite He, IH2, Hh.
Qed.

Lemma closed_stays o r o' events :
  question_step o o' events → o = Some r → ui_status (interaction r) ≠ IPending →
  ∃ r', o' = Some r' ∧ interaction r' = interaction r.
Proof.
  intros Hs -> Hne. inversion Hs as [o1|i|now a r1 Hp|reason r1 Hp|now r1 Ht|now r1 Hc|r1 Hc]; subst; eauto.
  - by apply bool_decide_eq_true in Hp.
  - by apply bool_decide_eq_true in Hp.
  - by apply andb_true_iff in Ht as [Hp%bool_decide_eq_true _].
Qed.

(** A question that is answered, cancelled or expired stays so: no later step
    of the table changes its answer, its author or anything else of it. *)
Theorem decided_question_is_final db db' id r :
  reachable db → find_row db id = Some r → ui_status (interaction r) ≠ IPending →
  rtc step db db' → get_user_interaction db' id = Some (interaction r).
Proof.
  intros Hr Hf Hne Hs. revert r Hf Hne. induction Hs as [db|db db1 db2 H1 _ IH]; intros r Hf Hne.
  - unfold get_user_interaction. by rewrite Hf.
  - destruct (interaction_step_moves _ _ (reachable_ids _ Hr) H1) as [Hm _]. destruct (Hm id) as (ev & Hq & _).
    destruct (closed_stays _ r _ _ Hq Hf Hne) as (r' & Hf' & Hi). rewrite <-Hi.
    apply IH; [by eapply reach_step|done|by rewrite Hi].
Qed.

(** Only the release of its claim takes the claim from a question. *)
Lemma claim_kept db db' id r :
  NoDup (ids db) → step db db' → find_row db id = Some r →
  ui_status (interaction r) = IAnswered → resumed_at r ≠ None →
  find_row db' id = Some r ∨ release_answered_standalone_interaction_resume_claim db id = Ok db'.
Proof.
  intros Hn Hs Hf Hst Hre. assert (is_status IPending r = false) as Hp.
  { apply bool_decide_eq_false_2. by rewrite Hst. }
  assert (∀ db1 db2 id0 p f, rows db2 = rows (update_rows db1 id0 p f) → rows db1 = rows db →
    (∀ r, row_id (f r) = row_id r) → p r = false → find_row db2 id = Some r) as Hkeep.
  { intros db1 db2 id0 p f H2 H1 Hid Hpf. rewrite (find_row_rows _ _ _ H2), find_row_update by done.
    rewrite (find_row_rows _ _ _ H1), Hf. simpl. by rewrite Hpf, andb_false_r. }
  destruct Hs as [st i db' H|now st a db' H|st id0 reason db' H|now st|now id0 db' won H|id0 db' H|m].
  - left. unfold create_user_interaction in H. destruct (find_row db _); [done|]. injection H as <-.
    rewrite (find_row_rows _ _ id (pending_rows _ _ _)). unfold find_row, insert_row.
    change (rows _) with (rows db ++ [{| interaction := asked i; resumed_at := None |}]).
    rewrite list_find_app. fold (find_row db id). by rewrite Hf.
  - left. unfold answer_user_interaction in H. destruct (str_is_empty _); [done|].
    destruct (get_user_interaction db _) as [j|]; [|done]. destruct (bool_decide _); [|done]. simpl in H.
    destruct (check_answer j a); [|done]. injection H as <-.
    by eapply Hkeep; [apply resolution_rows|..].
  - left. unfold cancel_user_interaction in H. destruct (str_is_empty _); [done|].
    destruct (str_is_empty _); [done|]. destruct (get_user_interaction db _) as [j|]; [|done].
    destruct (bool_decide _); [|done]. injection H as <-. by eapply Hkeep; [apply resolution_rows|..].
  - left. set (l := map row_id (List.filter (timed_out now) (rows db))).
    change (find_row (fold_left (λ db i, emit_resolution st db i "expired" None None None)
      (omap (get_user_interaction (expire_rows db l)) l) (expire_rows db l)) id = Some r).
    rewrite (find_row_rows _ _ id (expiry_rows _ _ _)), find_row_expired, Hf. simpl.
    rewrite bool_decide_eq_false_2; [done|]. intros (r0 & Hr0 & Ht)%timed_out_ids; [|done].
    rewrite Hf in Hr0. injection Hr0 as <-. unfold timed_out in Ht. by rewrite Hp in Ht.
  - left. unfold try_claim_answered_standalone_interaction_resume in H. destruct (str_is_empty _); [done|].
    injection H as <- _. eapply (Hkeep db); [reflexivity|done|done|]. unfold claimable.
    rewrite (bool_decide_eq_false_2 (resumed_at r = None)) by done. by rewrite andb_false_r.
  - destruct (String.eqb_spec id id0) as [->|Hne]; [by right|left].
    unfold release_answered_standalone_interaction_resume_claim in H. destruct (str_is_empty _); [done|].
    injection H as <-. rewrite find_row_update by done. rewrite Hf. simpl.
    by rewrite (proj2 (String.eqb_neq _ _) Hne).
  - by left.
Qed.

Definition without_release (id : string) (db db' : InteractionDb) : Prop :=
  step db db' ∧ release_answered_standalone_interaction_resume_claim db id ≠ Ok db'.

(** The resume of an answered question is claimed once: after a claim that
    won, every other claim loses until the claim is released. *)
Theorem resume_claimed_once now now' db db1 db2 id :
  reachable db →
  try_claim_answered_standalone_interaction_resume now db id = Ok (db1, true) →
  rtc (without_release id) db1 db2 →
  ∃ db3, try_claim_answered_standalone_interaction_resume now' db2 id = Ok (db3, false).
Proof.
  intros Hr Hc Hs. assert (reachable db1) as Hr1 by (eapply reach_step; [exact Hr|by eapply step_claim]).
  unfold try_claim_answered_standalone_interaction_resume in *.
  destruct (str_is_empty (trim id)); [done|]. injection Hc as Hdb Hwon. symmetry in Hdb.
  destruct (find_row db id) as [r|] eqn:Hf; [|done]. simpl in Hwon.
  assert (find_row db1 id = Some {| interaction := interaction r; resumed_at := Some now |}) as Hf1.
  { rewrite Hdb, find_row_update by done. rewrite Hf. simpl. by rewrite String.eqb_refl, Hwon. }
  apply andb_true_iff in Hwon as [[Hst%bool_decide_eq_true _]%andb_true_iff _].
  clear Hdb Hf. revert Hr1 Hf1. induction Hs as [db1|db1 db2 db3 [H1 H2] _ IH]; intros Hr1 Hf1.
  - eexists. rewrite Hf1. unfold claimable. simpl. by rewrite andb_false_r.
  - apply IH; [by eapply reach_step|].
    destruct (claim_kept _ _ id _ (reachable_ids _ Hr1) H1 Hf1); [done|done|done|done].
Qed.
End Steps.

(** ** A question, asked and answered *)

Definition demo_question : UserInteraction :=
  {| interaction_id := "ui-1"; ui_session_id := "r/a"; ui_root_session_id := "r"; ui_agent_id := "coder";
     ui_turn_id := "turn-000001"; ui_kind := Decision; question := "A or B?"; ui_context := None;
     ui_options := [{| opt_id := "a"; opt_label := "A"; opt_value := "a" |}]; allow_freeform := false;
     ui_status := IPending; answer_option_id := None; answer_text := None; answered_by := None;
     ui_created_at := "t0"; answered_at := None; expires_at := None; ui_workflow_id := None;
     ui_task_id := None; checkpoint_turn_id := None |}.
Definition demo_answer : UserInteractionAnswer :=
  {| ans_interaction_id := "ui-1"; ans_option_id := Some " a "; ans_text := None; ans_by := "operator" |}.

Notation demo_step := (interaction_step (λ _, None) (λ _, "{}") (λ _ _, [])).
Notation demo_interactions := (interactions_reachable (λ _, None) (λ _, "{}") (λ _ _, [])).

Definition ok_or {A E} (a : A) (r : result A E) : A := match r with Ok x => x | Err _ => a end.

Definition demo_asked : InteractionDb :=
  ok_or no_interactions
    (create_user_interaction (λ _, None) (λ _, "{}") (λ _ _, []) demo_stamp no_interactions demo_question).
Definition demo_answered : InteractionDb :=
  ok_or demo_asked
    (answer_user_interaction (λ _, None) (λ _, "{}") (λ _ _, []) "t1" demo_stamp demo_asked demo_answer).
Definition demo_claimed : InteractionDb :=
  (ok_or (demo_answered, false)
     (try_claim_answered_standalone_interaction_resume "t2" demo_answered "ui-1")).1.

Lemma demo_asked_step : demo_step no_interactions demo_asked.
Proof. apply (step_create _ _ _ _ demo_stamp demo_question). reflexivity. Qed.

Lemma demo_answered_step : demo_step demo_asked demo_answered.
Proof. apply (step_answer _ _ _ _ "t1" demo_stamp demo_answer). reflexivity. Qed.

Lemma demo_answered_reachable : demo_interactions demo_answered.
Proof. eapply reach_step, demo_answered_step. eapply reach_step, demo_asked_step. constructor. Qed.

Lemma demo_claimed_step : demo_step demo_answered demo_claimed.
Proof. apply (step_claim _ _ _ _ "t2" "ui-1" _ true). reflexivity. Qed.

Lemma table_refines_questions_witness :
  ∃ events, question_step (find_row demo_asked "ui-1") (find_row demo_answered "ui-1") events
    ∧ ask_events demo_answered "ui-1" = ask_events demo_asked "ui-1" ++ events.
Proof.
  apply (table_refines_questions (λ _, None) (λ _, "{}") (λ _ _, [])).
  - eapply reach_step, demo_asked_step. constructor.
  - exact demo_answered_step.
Defined.

Lemma questions_well_formed_witness :
  ask_events demo_answered "ui-1" = ["user.ask.pending"; "user.ask.resolved"].
Proof.
  rewrite (proj2 (questions_well_formed (λ _, None) (λ _, "{}") (λ _ _, []) demo_answered "ui-1"
    demo_answered_reachable)).
  reflexivity.
Defined.

Lemma decided_question_is_final_witness :
  option_map answer_option_id (get_user_interaction demo_claimed "ui-1") = Some (Some "a").
Proof.
  rewrite (decided_question_is_final (λ _, None) (λ _, "{}") (λ _ _, []) demo_answered demo_claimed "ui-1"
    {| interaction := answered "t1" demo_answer demo_question; resumed_at := None |}).
  - reflexivity.
  - exact demo_answered_reachable.
  - reflexivity.
  - discriminate.
  - apply rtc_once, demo_claimed_step.
Defined.

Lemma resume_claimed_once_witness :
  ∃ db, try_claim_answered_standalone_interaction_resume "t3" demo_claimed "ui-1" = Ok (db, false).
Proof.
  apply (resume_claimed_once (λ _, None) (λ _, "{}") (λ _ _, []) "t2" "t3" demo_answered demo_claimed).
  - exact demo_answered_reachable.
  - reflexivity.
  - apply rtc_refl.
Defined.
