(* ===== verification/UserAsk.v ===== *)
(** * The tools [user_ask] and [user_interaction_status]

    The model of [autonoetic-gateway/src/runtime/tools/user_interaction.rs] and of
    the gate behind a question ([GateService::check_user_input],
    [find_pending_user_input], [resolve_execution_context] and
    [parse_interaction_kind] of [runtime/human_gate.rs]).

    The arguments are given decoded.  The gateway's part of the call is an [AskEnv]:
    the session and the turn, the run context, the configured time out, whether
    there is a store, the workflow tables and the pending approvals of a root.
    [add_seconds] is [chrono].  The live digest and the live report, which only
    mirror a question that was stored, are left out.  Bytes outside ASCII keep
    their case. *)

From Stdlib Require Import Ascii String ZArith Lia.
From stdpp Require Import prelude gmap strings list.
From S2P Require Import Prelude RustStr Json NetworkSinks Redaction ContentStore EgressLabeler Timeline.
From S2P Require Import Workflow WorkflowStore Interactions.

Open Scope string_scope.
Open Scope nat_scope.
Open Scope list_scope.

Record AskArgs := {
  arg_kind : string;
  arg_question : string;
  arg_context : option string;
  arg_options : list Json;
  arg_allow_freeform : bool;
}.

Definition default_kind : string := "clarification".

(** ** The checks of a question *)

Definition str_field (v : Json) (key : string) : option string := json_get v key ≫= json_as_str.

Definition asks_for_secret (args : AskArgs) : bool :=
  looks_like_secret_collection_prompt (arg_question args)
  || from_option looks_like_secret_collection_prompt false (arg_context args)
  || existsb (λ v, existsb (λ k, from_option looks_like_secret_collection_prompt false (str_field v k))
                     ["label"; "value"; "id"]) (arg_options args).

Definition is_ascii_punctuation (c : ascii) : bool :=
  let n := nat_of_ascii c in
  ((33 <=? n) && (n <=? 47)) || ((58 <=? n) && (n <=? 64)) || ((91 <=? n) && (n <=? 96))
  || ((123 <=? n) && (n <=? 126)).

(** Nothing but dots, dashes, underscores, ellipses and en dashes; the last two
    are the bytes E2 80 A6 and E2 80 93. *)
Fixpoint all_filler (s : string) : bool :=
  match s with
  | "" => true
  | String c r =>
      if existsb (Ascii.eqb c) ["."; "-"; "_"]%char then all_filler r
      else if (c =? ch 226)%char then
        match r with
        | String d (String e r) =>
            (d =? ch 128)%char && ((e =? ch 166)%char || (e =? ch 147)%char) && all_filler r
        | _ => false
        end
      else false
  end.

Definition VACUOUS : list string :=
  ["placeholder"; "question"; "the question"; "your question"; "the question to ask the user";
   "ask the user"; "ask user"; "insert question here"; "example question"; "sample question";
   "test question"; "n/a"; "na"; "tbd"; "todo"; "lorem ipsum"].

Definition looks_vacuous_question (question : string) : bool :=
  let normalized := to_lowercase (trim (trim_end_by is_ascii_punctuation
                      (trim_start_by is_ascii_punctuation (trim question)))) in
  str_is_empty normalized || all_filler normalized || existsb (String.eqb normalized) VACUOUS.

(** ** The gate *)

Record RunContext := {
  rc_root_session_id : string;
  rc_workflow_id : option string;
  rc_task_id : option string;
}.

Definition resolve_execution_context (run : option RunContext) (sid : string)
    : option string * option string * option string :=
  match run with
  | Some rc => (if str_is_empty (rc_root_session_id rc) then None else Some (rc_root_session_id rc),
                rc_workflow_id rc, rc_task_id rc)
  | None => if str_is_empty sid then (None, None, None)
            else (Some (root_session_id sid), None, None)
  end.

Definition parse_interaction_kind (kind : string) : UserInteractionKind :=
  let k := to_lowercase kind in
  if (k =? "clarification")%string then Clarification
  else if (k =? "decision")%string then Decision
  else if (k =? "proposal")%string then Proposal
  else if (k =? "confirmation")%string then Confirmation
  else if (k =? "divergence_sentinel")%string then DivergenceSentinel
  else Clarification.

Definition find_pending_user_input (db : InteractionDb) (session : string) : option string :=
  interaction_id <$> head (get_pending_interactions_for_session db session).

Inductive GateResult : Type :=
| AlreadyPending (gate_id : string)
| Suspended (gate_id : string).

Record AskEnv := {
  env_session : option string;
  env_turn : option string;
  env_run : option RunContext;
  env_agent : string;
  env_timeout : option Z;
  env_has_store : bool;
  env_workflows : WorkflowDb;
  env_pending_approvals : string → list string;
}.

Section UserAsk.
Context (parse_json : string → option Json) (json_to_string : Json → string).
Context (captures_iter : string → string → list (list (option (nat * nat)))).
Context (add_seconds : string → Z → string).

Notation redact := (redact_text_for_logs captures_iter parse_json json_to_string).

(** [GateService::add_gate_message]. *)
Definition add_gate_message (db : InteractionDb) (gate_id sender content : string) : InteractionDb :=
  {| rows := rows db; gate_messages := gate_messages db ++ [(gate_id, sender, redact content)];
     timeline := timeline db |}.

(** The interaction a question becomes; [fresh] is its random identifier. *)
Definition new_interaction (now fresh sid : string) (env : AskEnv) (question kind : string)
    (options : list UserInteractionOption) (allow_freeform : bool) (context : option string)
    : UserInteraction :=
  let '(root, wf, task) := resolve_execution_context (env_run env) sid in
  {| interaction_id := fresh; ui_session_id := sid; ui_root_session_id := default "" root;
     ui_agent_id := env_agent env; ui_turn_id := default "unknown" (env_turn env);
     ui_kind := parse_interaction_kind kind; question := question; ui_context := context;
     ui_options := options; allow_freeform := allow_freeform; ui_status := IPending;
     answer_option_id := None; answer_text := None; answered_by := None; ui_created_at := now;
     answered_at := None;
     expires_at := ttl ← env_timeout env;
                   if (ttl =? 0)%Z then None else Some (add_seconds now ttl);
     ui_workflow_id := wf; ui_task_id := task; checkpoint_turn_id := env_turn env |}.

Definition check_user_input (now fresh : string) (st : Stamp) (db : InteractionDb) (sid : string)
    (env : AskEnv) (question kind : string) (options : list UserInteractionOption)
    (allow_freeform : bool) (context : option string)
    : result (InteractionDb * GateResult) InteractionError :=
  if str_is_empty sid then Err MissingSession
  else match find_pending_user_input db sid with
  | Some id => Ok (db, AlreadyPending id)
  | None =>
      let i := new_interaction now fresh sid env question kind options allow_freeform context in
      match create_user_interaction parse_json json_to_string captures_iter st db i with
      | Err e => Err e
      | Ok db => Ok (add_gate_message db fresh "system" ("Agent asks: " ++ question)%string,
                     Suspended fresh)
      end
  end.

(** ** [user_ask] *)

Definition is_active (s : TaskRunStatus) : bool :=
  match s with TPending | TRunnable | TRunning | TAwaitingApproval | TPaused => true | _ => false end.

(** The active tasks of the session's workflow, its own aside. *)
Definition active_children (env : AskEnv) (root : string) : list string :=
  match resolve_workflow_id_for_root_session (env_workflows env) root with
  | None => []
  | Some wf =>
      map task_id (List.filter (λ t,
        negb (bool_decide (env_session env = Some (task_session_id t))) && is_active (task_status t))
        (list_task_runs (env_workflows env) wf))
  end.

Definition ask_option (v : Json) : option UserInteractionOption :=
  id ← str_field v "id"; label ← str_field v "label"; value ← str_field v "value";
  Some {| opt_id := id; opt_label := label; opt_value := value |}.

Inductive AskOutcome : Type :=
| AskRefused (code : string) (blocking : list string)
| AskPending (interaction_id : string)
| AskSuspended (interaction_id : string).

(** What blocks a question: checked with a configuration and a store only. *)
Definition ask_blockers (db : InteractionDb) (env : AskEnv) (root : string) : option AskOutcome :=
  match env_timeout env, env_has_store env with
  | Some _, true =>
      match active_children env root with
      | [] =>
          match map (String.append "approval:") (env_pending_approvals env root)
                ++ map (λ i, ("interaction:" ++ interaction_id i)%string)
                     (get_pending_interactions_for_root_session db root) with
          | [] => None
          | blocking => Some (AskRefused "gates_pending" blocking)
          end
      | children => Some (AskRefused "workflow_tasks_active" children)
      end
  | _, _ => None
  end.

Definition user_ask (now fresh : string) (st : Stamp) (db : InteractionDb) (env : AskEnv)
    (args : AskArgs) : result (InteractionDb * AskOutcome) InteractionError :=
  if asks_for_secret args then Ok (db, AskRefused "secret_collection_not_allowed" [])
  else if looks_vacuous_question (arg_question args) then Ok (db, AskRefused "vacuous_question" [])
  else
    let sid := default "unknown" (env_session env) in
    match ask_blockers db env (root_session_id sid) with
    | Some refused => Ok (db, refused)
    | None =>
        if negb (env_has_store env)
        then Ok (db, AskRefused "user_interaction_store_unavailable" [])
        else match check_user_input now fresh st db sid env (arg_question args) (arg_kind args)
                     (omap ask_option (arg_options args)) (arg_allow_freeform args) (arg_context args) with
             | Err e => Err e
             | Ok (db, AlreadyPending id) => Ok (db, AskPending id)
             | Ok (db, Suspended id) => Ok (db, AskSuspended id)
             end
    end.

(** ** [user_interaction_status] *)

Inductive StatusReply : Type :=
| StatusUnknown | StatusDenied | StatusNotFound | StatusReport (fields : list (string * Json)).

Definition interaction_status (store : option InteractionDb) (agent_id : string)
    (session : option string) (id : string) : StatusReply :=
  match store with
  | None => StatusUnknown
  | Some db =>
      match get_user_interaction db id with
      | None => StatusNotFound
      | Some i =>
          let same_agent := (ui_agent_id i =? agent_id)%string in
          let same_root_scope := from_option (λ s, (root_session_id s =? ui_root_session_id i)%string)
                                   false session in
          if negb (same_agent || same_root_scope) then StatusDenied
          else StatusReport (
            [("status", JString (interaction_status_str (ui_status i)));
             ("kind", JString (interaction_kind_str (ui_kind i))); ("question", JString (question i));
             ("agent_id", JString (ui_agent_id i)); ("session_id", JString (ui_session_id i));
             ("created_at", JString (ui_created_at i))]
            ++ match answered_at i with Some t => [("answered_at", JString t)] | None => [] end
            ++ match answer_text i with Some t => [("answer_text", JString (redact t))] | None => [] end
            ++ match answer_option_id i with
               | Some o => [("answer_option_id", JString o)] | None => [] end)
      end
  end.
End UserAsk.

(** ** Theorems *)

Example vacuous_questions :
  forallb looks_vacuous_question
    ["placeholder"; "Placeholder?"; "..."; "---"; "<question>"; "{{question}}"; "N/A"; "   "; "";
     String (ch 226) (String (ch 128) (String (ch 166) ""))] = true
  ∧ existsb looks_vacuous_question ["Ready to proceed?"; "Which one?"; "NA for now, right?"] = false.
Proof. vm_compute. done. Qed.

(** The tool's schema offers four kinds, the gate knows a fifth: an agent may file
    a question of the sentinel's kind. *)
Example agent_files_sentinel_question :
  parse_interaction_kind "Divergence_Sentinel" = DivergenceSentinel
  ∧ parse_interaction_kind "anything else" = Clarification.
Proof. vm_compute. done. Qed.

Section Accepted.
Context (parse_json : string → option Json) (json_to_string : Json → string).
Context (captures_iter : string → string → list (list (option (nat * nat)))).
Context (add_seconds : string → Z → string).

Notation ask := (user_ask parse_json json_to_string captures_iter add_seconds).
Notation check := (check_user_input parse_json json_to_string captures_iter add_seconds).

Lemma select_insert db db' i p :
  rows db' = rows db ++ [{| interaction := i; resumed_at := None |}] →
  select db' p = select db p ++ (if p {| interaction := i; resumed_at := None |} then [i] else []).
Proof.
  intros H. unfold select. rewrite H, List.filter_app, map_app. cbn [List.filter]. by destruct (p _).
Qed.

Lemma pending_root_insert db db' i root :
  rows db' = rows db ++ [{| interaction := i; resumed_at := None |}] →
  get_pending_interactions_for_root_session db' root
  = get_pending_interactions_for_root_session db root
    ++ (if (ui_root_session_id i =? root)%string && bool_decide (ui_status i = IPending) then [i] else []).
Proof. apply select_insert. Qed.

Lemma pending_session_insert db db' i sid :
  rows db' = rows db ++ [{| interaction := i; resumed_at := None |}] →
  get_pending_interactions_for_session db' sid
  = get_pending_interactions_for_session db sid
    ++ (if (ui_session_id i =? sid)%string && bool_decide (ui_status i = IPending) then [i] else []).
Proof. apply select_insert. Qed.

Lemma check_suspended now fresh st db sid env q k opts ff ctx db' id :
  check now fresh st db sid env q k opts ff ctx = Ok (db', Suspended id) →
  id = fresh ∧ find_pending_user_input db sid = None
  ∧ rows db' = rows db ++ [{| interaction := asked (new_interaction add_seconds now fresh sid env q k opts ff ctx);
                              resumed_at := None |}].
Proof.
  unfold check_user_input. destruct (str_is_empty sid); [done|].
  destruct (find_pending_user_input db sid); [done|].
  unfold create_user_interaction. destruct (find_row db _); [done|]. intros [= <- <-].
  split_and!; [done|done|]. reflexivity.
Qed.

(** The root a question is filed under. *)
Definition filed_root (env : AskEnv) (sid : string) : string :=
  from_option rc_root_session_id (root_session_id sid) (env_run env).

Lemma new_interaction_root now fresh sid env q k opts ff ctx :
  sid ≠ "" →
  ui_root_session_id (asked (new_interaction add_seconds now fresh sid env q k opts ff ctx))
  = filed_root env sid.
Proof.
  intros Hs. unfold new_interaction, resolve_execution_context, filed_root.
  destruct (env_run env) as [rc|]; simpl.
  - by destruct (rc_root_session_id rc).
  - by destruct sid.
Qed.

Lemma new_interaction_fields now fresh sid env q k opts ff ctx :
  let i := asked (new_interaction add_seconds now fresh sid env q k opts ff ctx) in
  interaction_id i = fresh ∧ ui_session_id i = sid ∧ question i = q ∧ ui_status i = IPending.
Proof.
  unfold new_interaction. destruct (resolve_execution_context (env_run env) sid) as [[root wf] task].
  by repeat split.
Qed.

(** A question that suspends its agent is real text that asks for no
    credential, filed while no task, approval or other question of the session's
    tree was waiting; afterwards it is the one pending question of that tree. *)
Theorem accepted_question_is_alone now fresh st db env args db' id :
  ask now fresh st db env args = Ok (db', AskSuspended id) →
  is_Some (env_timeout env) →
  let sid := default "unknown" (env_session env) in
  filed_root env sid = root_session_id sid →
  asks_for_secret args = false ∧ looks_vacuous_question (arg_question args) = false
  ∧ active_children env (root_session_id sid) = [] ∧ env_pending_approvals env (root_session_id sid) = []
  ∧ get_pending_interactions_for_root_session db (root_session_id sid) = []
  ∧ ∃ i, get_pending_interactions_for_root_session db' (root_session_id sid) = [i]
      ∧ get_pending_interactions_for_session db' sid = [i]
      ∧ interaction_id i = id ∧ question i = arg_question args ∧ ui_status i = IPending.
Proof.
  intros Hask [t Ht] sid Hroot. unfold user_ask in Hask. fold sid in Hask.
  destruct (asks_for_secret args); [done|]. destruct (looks_vacuous_question _); [done|].
  destruct (ask_blockers db env (root_session_id sid)) as [o|] eqn:Hb.
  { unfold ask_blockers in Hb. rewrite Ht in Hb. destruct (env_has_store env); [|done].
    destruct (active_children _ _); [|by injection Hb as <-].
    destruct (_ ++ _); [done|by injection Hb as <-]. }
  destruct (env_has_store env) eqn:Hst; [|done]. simpl in Hask.
  unfold ask_blockers in Hb. rewrite Ht, Hst in Hb.
  destruct (active_children env (root_session_id sid)) eqn:Hac; [|done].
  destruct (map _ (env_pending_approvals env (root_session_id sid)) ++ _) as [|x l] eqn:Hbl; [|done].
  apply app_eq_nil in Hbl as [Hap%map_eq_nil Hpi%map_eq_nil].
  destruct (check _ _ _ _ _ _ _ _ _ _ _) as [[db1 g]|] eqn:Hc; [|done].
  destruct g as [g|g]; [done|]. injection Hask as <- <-.
  assert (sid ≠ "") as Hsid.
  { unfold check_user_input in Hc. apply str_nonempty. by destruct (str_is_empty sid). }
  apply check_suspended in Hc as (-> & Hnone & Hrows).
  split_and!; [done|done|done|done|done|].
  match type of Hrows with context [asked ?i] => pose (i0 := asked i) end.
  destruct (new_interaction_fields now fresh sid env (arg_question args) (arg_kind args)
    (omap ask_option (arg_options args)) (arg_allow_freeform args) (arg_context args))
    as (Hid & Hsess & Hq & Hp).
  assert (get_pending_interactions_for_session db sid = []) as Hps.
  { unfold find_pending_user_input in Hnone. by destruct (get_pending_interactions_for_session db sid). }
  exists i0. rewrite (pending_root_insert _ _ _ _ Hrows), (pending_session_insert _ _ _ _ Hrows).
  rewrite new_interaction_root, Hroot, Hsess, !String.eqb_refl, Hp, Hpi, Hps by done.
  by rewrite bool_decide_eq_true_2.
Qed.
End Accepted.

Definition demo_workflow_db : WorkflowDb :=
  {| runs := ∅; root_index := ∅; tasks := ∅; queue := ∅; claims := ∅; checkpoints := ∅; slots := ∅;
     effects := [] |}.
Definition demo_env : AskEnv :=
  {| env_session := Some "r/a"; env_turn := Some "turn-000001"; env_run := None; env_agent := "coder";
     env_timeout := Some 0%Z; env_has_store := true; env_workflows := demo_workflow_db;
     env_pending_approvals := λ _, [] |}.
Definition demo_args : AskArgs :=
  {| arg_kind := "decision"; arg_question := "A or B?"; arg_context := None; arg_options := [];
     arg_allow_freeform := true |}.

Lemma accepted_question_is_alone_witness :
  match user_ask (λ _, None) (λ _, "{}") (λ _ _, []) (λ _ _, "") "t0" "ui-1" demo_stamp no_interactions
          demo_env demo_args with
  | Ok (db, AskSuspended id) =>
      ∃ i, get_pending_interactions_for_session db "r/a" = [i] ∧ interaction_id i = id
  | _ => False
  end.
Proof.
  pose proof (accepted_question_is_alone (λ _, None) (λ _, "{}") (λ _ _, []) (λ _ _, "") "t0" "ui-1"
    demo_stamp no_interactions demo_env demo_args) as H.
  destruct (user_ask _ _ _ _ _ _ _ _ _ _) as [[db o]|] eqn:E; [|vm_compute in E; discriminate E].
  destruct o as [c b|id|id]; [vm_compute in E; discriminate E..|].
  destruct (H db id eq_refl) as (_ & _ & _ & _ & _ & i & _ & Hi & Hid & _).
  - eexists. reflexivity.
  - reflexivity.
  - exists i. split; [exact Hi|exact Hid].
Defined.
