(* ===== verification/Declassification.v ===== *)
(** * Declassification grants and the network boundary

    The model of
    [autonoetic-gateway/src/scheduler/gateway_store/egress_declassification.rs]
    (the table of grants by which the operator widens where a session's content
    may go) and of the part of [runtime/egress_labeler.rs] that reads it: the
    session-wide and host-scoped targets, the gate of network tools, and the
    events they write.

    The table is the list of its rows in insertion order, with the next row id;
    its unique key is [declass_key].  The clock is its RFC 3339 text, which
    [parse_rfc3339] ([chrono]) reads.  Failures of SQLite are left out. *)

From Stdlib Require Import Ascii String ZArith Lia.
From stdpp Require Import prelude gmap strings list.
From S2P Require Import Prelude RustStr Json Egress LabelStore EgressLabeler ContentStore Grants Timeline.

Open Scope string_scope.
Open Scope nat_scope.
Open Scope list_scope.

(** ** The table *)

Record DeclassGrant := {
  dg_root : string;
  dg_session : string;
  dg_agent : string;
  dg_target : EgressDeclassificationTarget;
  dg_sink : Sink;
  dg_scope : GrantScope;
  dg_by : string;
  dg_at : string;
  dg_source : option string;
  dg_expires : option string;
}.

Record DeclassRow := {
  dr_id : Z;
  dr_grant : DeclassGrant;
  dr_revoked : option (string * string);
}.

Record DeclassTable := {
  declass_rows : list DeclassRow;
  next_declass_id : Z;
}.

Definition no_declassifications : DeclassTable := {| declass_rows := []; next_declass_id := 1 |}.

#[export] Instance declass_target_eq_dec : EqDecision EgressDeclassificationTarget.
Proof. solve_decision. Defined.

Definition parse_target (kind value : string) : option EgressDeclassificationTarget :=
  if (kind =? "envelope_id")%string then Some (EnvelopeId value)
  else if (kind =? "source_pattern")%string then Some (SourcePattern value)
  else if (kind =? "memory_id")%string then Some (MemoryId value)
  else if (kind =? "workspace")%string then Some (Workspace value)
  else None.

Definition source_pattern_is_bound (pattern : string) : bool :=
  let p := trim pattern in
  negb (str_is_empty p) && negb (existsb (String.eqb p) ["*"; "**"; "**/*"; "*/*"]).

(** The columns of the unique constraint; a target is its kind and its value. *)
Definition declass_key (g : DeclassGrant)
    : string * string * string * GrantScope * EgressDeclassificationTarget * Sink :=
  (dg_root g, dg_session g, dg_agent g, dg_scope g, dg_target g, dg_sink g).

Definition target_is_bound (t : EgressDeclassificationTarget) : bool :=
  match t with SourcePattern p => source_pattern_is_bound p | _ => true end.

(** [None] is the error on a pattern that is not bound.  On a key that is there
    the row is overwritten and a revocation lifted. *)
Definition insert_grant (t : DeclassTable) (g : DeclassGrant) : option DeclassTable :=
  if negb (target_is_bound (dg_target g)) then None
  else if existsb (λ r, bool_decide (declass_key (dr_grant r) = declass_key g)) (declass_rows t)
  then Some {| declass_rows := map (λ r, if bool_decide (declass_key (dr_grant r) = declass_key g)
                 then {| dr_id := dr_id r; dr_grant := g; dr_revoked := None |} else r) (declass_rows t);
               next_declass_id := next_declass_id t |}
  else Some {| declass_rows := declass_rows t ++
                 [{| dr_id := next_declass_id t; dr_grant := g; dr_revoked := None |}];
               next_declass_id := (next_declass_id t + 1)%Z |}.

Definition session_under_root_session (session root : string) : bool :=
  (session =? root)%string
  || match strip_prefix session root with Some suffix => starts_with suffix "/" | None => false end.

Definition scope_matches (scope : GrantScope) (grant_session session root : string) : bool :=
  match scope with
  | RootSession => session_under_root_session session root
  | Session => (grant_session =? session)%string
  end.

Definition is_live (r : DeclassRow) : bool := bool_decide (dr_revoked r = None).

Definition list_grants_for_root (t : DeclassTable) (root : string) : list DeclassRow :=
  sort_by (λ a b, String.compare (dg_at (dr_grant b)) (dg_at (dr_grant a)))
    (List.filter (λ r, (dg_root (dr_grant r) =? root)%string && is_live r) (declass_rows t)).

Definition delete_grants_for_root (t : DeclassTable) (root : string) : DeclassTable :=
  {| declass_rows := List.filter (λ r, negb (dg_root (dr_grant r) =? root)%string) (declass_rows t);
     next_declass_id := next_declass_id t |}.

(** [UPDATE ... SET revoked_at, revoked_reason WHERE p AND revoked_at IS NULL]
    and its count. *)
Definition revoke_rows (t : DeclassTable) (p : DeclassRow → bool) (now reason : string)
    : DeclassTable * nat :=
  ({| declass_rows := map (λ r, if p r && is_live r
        then {| dr_id := dr_id r; dr_grant := dr_grant r; dr_revoked := Some (now, reason) |} else r)
        (declass_rows t);
      next_declass_id := next_declass_id t |},
   length (List.filter (λ r, p r && is_live r) (declass_rows t))).

Definition normalized_host (host : string) : string :=
  to_lowercase (trim_end_matches (trim host) ".").

Definition host_target_value (root host : string) : string :=
  ("session:" ++ root ++ ":host:" ++ normalized_host host)%string.

Definition revoke_grants_for_root (t : DeclassTable) (root : string) (host : option string)
    (reason now : string) : DeclassTable * nat :=
  revoke_rows t (λ r, (dg_root (dr_grant r) =? root)%string
    && match host with
       | Some h => bool_decide (dg_target (dr_grant r) = SourcePattern (host_target_value root h))
       | None => true
       end) now reason.

Definition revoke_grant_by_id (t : DeclassTable) (root : string) (id : Z) (now reason : string)
    : DeclassTable * bool :=
  let '(t, n) := revoke_rows t (λ r, (dr_id r =? id)%Z && (dg_root (dr_grant r) =? root)%string)
                   now reason in
  (t, 0 <? n).

(** ** Targets *)

Definition session_egress_declass_target (root : string) : EgressDeclassificationTarget :=
  SourcePattern ("session:" ++ root)%string.

Definition session_network_declass_target (root : string) : EgressDeclassificationTarget :=
  session_egress_declass_target root.

Definition session_host_network_declass_target (root host : string) : EgressDeclassificationTarget :=
  SourcePattern (host_target_value root host).

(** ** Use *)

Section Use.
Context (parse_rfc3339 : string → option Z).
Context (json_to_string : Json → string).

Definition unexpired (expires_at : option string) (now : string) : bool :=
  match expires_at with
  | None | Some "" => true
  | Some exp =>
      match parse_rfc3339 exp, parse_rfc3339 now with
      | Some e, Some n => negb (e <? n)%Z
      | _, _ => false
      end
  end.

Definition declass_active (r : DeclassRow) (now : string) : bool :=
  is_live r && unexpired (dg_expires (dr_grant r)) now.

Definition declassification_allows (t : DeclassTable) (target : EgressDeclassificationTarget)
    (sink : Sink) (session root now : string) : bool :=
  existsb (λ r, let g := dr_grant r in
    (dg_root g =? root)%string && bool_decide (dg_target g = target) && bool_decide (dg_sink g = sink)
    && scope_matches (dg_scope g) (dg_session g) session root && declass_active r now)
    (declass_rows t).

Definition session_sink_declassified (t : DeclassTable) (session root : string) (sink : Sink)
    (now : string) : bool :=
  declassification_allows t (session_egress_declass_target root) sink session root now.

Definition session_network_declassified (t : DeclassTable) (session root now : string) : bool :=
  declassification_allows t (session_network_declass_target root) Network session root now.

Definition session_network_declassified_for_hosts (t : DeclassTable) (session root : string)
    (hosts : list string) (now : string) : bool :=
  if session_network_declassified t session root now then true
  else match hosts with
       | [] => false
       | _ => forallb (λ h, declassification_allows t (session_host_network_declass_target root h)
                              Network session root now) hosts
       end.

(** ** Events *)

(** [emit_egress_event]: the clause each action enforces. *)
Definition egress_clause (action : string) : string :=
  if (action =? "egress.boundary_refused")%string then "P-15.2"
  else if existsb (String.eqb action) ["egress.declassified"; "egress.relabel"] then "P-15.3"
  else "P-15.1".

Definition last_segment (action : string) : string :=
  default action (last (split (Ascii.eqb "."%char) action)).

Definition emit_egress_event (st : Stamp) (db : LabelDb) (action target : string) (payload : option Json)
    (session agent_id : string) (turn_id : option string) (reason : string) : LabelDb :=
  create_causal_event db
    {| ev_event_id := ("egress-" ++ last_segment action ++ "-" ++ stamp_id st)%string;
       ev_agent_id := agent_id; ev_session_id := session; ev_turn_id := turn_id; ev_event_seq := 0;
       ev_timestamp := stamp_now st; ev_category := "egress"; ev_action := action;
       ev_status := "active"; ev_enforced_rules := [RULE_ID_EVENT_ATTRIBUTION; egress_clause action];
       ev_target := Some target; ev_payload := json_to_string <$> payload; ev_payload_ref := None;
       ev_evidence_ref := None; ev_reason := Some reason |}.

Definition emit_surface_boundary_refused (st : Stamp) (db : LabelDb) (session agent_id : string)
    (turn_id : option string) (surface : string) (label : EgressLabel) (envelope_ids : list string)
    (reason : string) : LabelDb :=
  emit_egress_event st db "egress.boundary_refused" (label_display_name label)
    (Some (json_object [("surface", JString surface); ("label", label_json label);
       ("label_name", JString (label_display_name label)); ("envelope_ids", json_strings envelope_ids);
       ("reason", JString reason)]))
    session agent_id turn_id "egress_boundary_refused".

Definition target_json (t : EgressDeclassificationTarget) : Json :=
  json_object [("kind", JString (Egress.kind_str t)); ("value", JString (target_value t))].

Definition emit_declassified (st : Stamp) (db : LabelDb) (session agent_id : string)
    (target : EgressDeclassificationTarget) (sink : Sink) (scope : GrantScope)
    (source_approval_id : option string) (reason : string) (expires_at : option string) : LabelDb :=
  create_causal_event db
    {| ev_event_id := ("egress-declassified-" ++ stamp_id st)%string;
       ev_agent_id := agent_id; ev_session_id := session; ev_turn_id := None; ev_event_seq := 0;
       ev_timestamp := stamp_now st; ev_category := "egress"; ev_action := "egress.declassified";
       ev_status := "active"; ev_enforced_rules := [RULE_ID_EVENT_ATTRIBUTION; "P-15.3"];
       ev_target := Some (target_value target);
       ev_payload := Some (json_to_string (json_object
         [("target", target_json target); ("allowed_sink", JString (sink_str sink));
          ("scope", JString (scope_as_str scope)); ("source_approval_id", json_opt_str source_approval_id);
          ("expires_at", json_opt_str expires_at); ("reason", JString reason)]));
       ev_payload_ref := None; ev_evidence_ref := None;
       ev_reason := Some "operator-approved egress declassification grant materialized" |}.

(** ** The network boundary *)

(** The store as the gate reads it: a read of the session taint may fail. *)
Record BoundaryStore := {
  bs_taint : string → result (option EgressLabel) unit;
  bs_grants : DeclassTable;
  bs_labels : LabelDb;
}.

Inductive TaintError : Type := NoSessionId | NoStore | TaintUnreadable.

Definition nonempty_session (session : option string) : option string :=
  s ← session; if str_is_empty s then None else Some s.

Definition require_boundary_session_taint (run_taint : option EgressLabel)
    (store : option BoundaryStore) (session : option string) : result EgressLabel TaintError :=
  match run_taint with
  | Some taint => Ok taint
  | None =>
      match nonempty_session session with
      | None => Err NoSessionId
      | Some sid =>
          match store with
          | None => Err NoStore
          | Some s =>
              match bs_taint s sid with
              | Ok (Some taint) => Ok taint
              | Ok None => Ok unrestricted
              | Err _ => Err TaintUnreadable
              end
          end
      end
  end.

(** [resolve_session_egress_taint]. *)
Definition resolve_session_egress_taint (run_taint : option EgressLabel)
    (store : option BoundaryStore) (session : option string) : result (option EgressLabel) unit :=
  match run_taint with
  | Some taint => Ok (Some taint)
  | None =>
      match nonempty_session session, store with
      | Some sid, Some s => bs_taint s sid
      | _, _ => Ok None
      end
  end.

Inductive BoundaryRefusal : Type :=
| StoreRequired | TaintUnresolved (e : TaintError) | SessionMissing | NotDeclassified (host : option string).

Definition taint_error_text (e : TaintError) : string :=
  match e with
  | NoSessionId => "egress_boundary_unknown_taint: missing session_id"
  | NoStore => "egress_boundary_unknown_taint: GatewayStore required to confirm session taint"
  | TaintUnreadable => "session taint unreadable"
  end.

(** [network_egress_boundary_refusal_json]: why a network call is refused, if it
    is, with the labels after the event of the refusal.  [run] is the taint and
    the root of the run context. *)
Definition network_egress_boundary_refusal (st : Stamp) (surface tool_name : string)
    (run : option (option EgressLabel * string)) (store : option BoundaryStore)
    (session : option string) (agent_id : string) (turn_id host : option string)
    : option BoundaryRefusal * option LabelDb :=
  match store with
  | None => (Some StoreRequired, None)
  | Some s =>
      let refuse sid taint reason why :=
        (Some why, Some (emit_surface_boundary_refused st (bs_labels s) sid agent_id turn_id surface
                           taint [] reason)) in
      match require_boundary_session_taint (run ≫= fst) store session with
      | Err e => refuse (default "" session) label_empty
                   ("session egress taint unresolved: " ++ taint_error_text e)%string (TaintUnresolved e)
      | Ok taint =>
          if allows taint Network then (None, Some (bs_labels s))
          else match nonempty_session session with
          | None => refuse "" taint "session egress taint excludes Network but session_id is missing"
                      SessionMissing
          | Some sid =>
              let root := match run with Some (_, root) => root | None => root_session_id sid end in
              if session_network_declassified_for_hosts (bs_grants s) sid root
                   (match host with Some h => [h] | None => [] end) (stamp_now st)
              then (None, Some (bs_labels s))
              else refuse sid taint
                     ("session egress taint excludes Network (" ++ tool_name ++ ", RFC §7)")%string
                     (NotDeclassified host)
          end
      end
  end.
End Use.

(** ** Histories of grants *)

Inductive DeclassOp : Type :=
| DInsert (g : DeclassGrant)
| DRevokeRoot (root : string) (host : option string) (reason now : string)
| DRevokeId (root : string) (id : Z) (now reason : string)
| DDelete (root : string).

Definition run_declass (t : DeclassTable) (op : DeclassOp) : DeclassTable :=
  match op with
  | DInsert g => default t (insert_grant t g)
  | DRevokeRoot root host reason now => (revoke_grants_for_root t root host reason now).1
  | DRevokeId root id now reason => (revoke_grant_by_id t root id now reason).1
  | DDelete root => delete_grants_for_root t root
  end.

Definition declass_op_root (op : DeclassOp) : string :=
  match op with
  | DInsert g => dg_root g
  | DRevokeRoot root _ _ _ | DRevokeId root _ _ _ | DDelete root => root
  end.

(** What the operator withdraws by root or by host. *)
Definition withdraws (root : string) (target : EgressDeclassificationTarget) (op : DeclassOp) : Prop :=
  match op with
  | DDelete r => r = root
  | DRevokeRoot r host _ _ =>
      r = root ∧ match host with
                 | None => True
                 | Some h => target = session_host_network_declass_target root h
                 end
  | _ => False
  end.

Section Histories.
Context (parse_rfc3339 : string → option Z).

Notation allows_at := (declassification_allows parse_rfc3339).

(** The grant the table would use. *)
Definition grants_use (g : DeclassGrant) (target : EgressDeclassificationTarget) (sink : Sink)
    (session root now : string) : Prop :=
  dg_root g = root ∧ dg_target g = target ∧ dg_sink g = sink
  ∧ scope_matches (dg_scope g) (dg_session g) session root = true
  ∧ unexpired parse_rfc3339 (dg_expires g) now = true.

Lemma declassification_allows_spec t target sink session root now :
  allows_at t target sink session root now = true ↔
  ∃ r, r ∈ declass_rows t ∧ dr_revoked r = None ∧ grants_use (dr_grant r) target sink session root now.
Proof.
  unfold declassification_allows, grants_use, declass_active, is_live. rewrite existsb_exists. split.
  - intros (r & Hr%list_elem_of_In & H). rewrite !andb_true_iff, String.eqb_eq, !bool_decide_eq_true in H.
    exists r. naive_solver.
  - intros (r & Hr%list_elem_of_In & Hl & H). exists r. split; [done|].
    rewrite !andb_true_iff, String.eqb_eq, !bool_decide_eq_true. naive_solver.
Qed.

Lemma revoke_rows_live t p now reason r :
  dr_revoked r = None →
  r ∈ declass_rows (revoke_rows t p now reason).1 ↔ r ∈ declass_rows t ∧ p r = false.
Proof.
  intros Hl. unfold revoke_rows. simpl. rewrite list_elem_of_fmap. unfold is_live. split.
  - intros (x & -> & Hx). destruct (p x) eqn:Hp; simpl in *.
    + destruct (bool_decide (dr_revoked x = None)) eqn:E; [done|].
      by rewrite bool_decide_eq_false in E.
    + done.
  - intros [Hr Hp]. exists r. by rewrite Hp.
Qed.

Lemma insert_grant_rows t g t' r :
  insert_grant t g = Some t' → r ∈ declass_rows t' →
  dr_grant r = g ∨ (r ∈ declass_rows t ∧ declass_key (dr_grant r) ≠ declass_key g).
Proof.
  unfold insert_grant. destruct (target_is_bound _); [|done]. simpl.
  destruct (existsb _ _) eqn:He; intros [= <-]; simpl.
  - intros (x & -> & Hx)%list_elem_of_fmap. case_bool_decide; [by left|by right].
  - intros [Hr| ->%list_elem_of_singleton]%elem_of_app; [|by left].
    right. split; [done|]. rewrite existsb_false in He. specialize (He r Hr). by apply bool_decide_eq_false in He.
Qed.

(** A bound grant allows what it grants as soon as it is inserted. *)
Lemma inserted_grant_allows t g t' session now :
  insert_grant t g = Some t' →
  scope_matches (dg_scope g) (dg_session g) session (dg_root g) = true →
  unexpired parse_rfc3339 (dg_expires g) now = true →
  allows_at t' (dg_target g) (dg_sink g) session (dg_root g) now = true.
Proof.
  intros Hi Hs He. apply declassification_allows_spec. unfold insert_grant in Hi.
  destruct (target_is_bound _); [|done]. simpl in Hi. destruct (existsb _ _) eqn:Hex; injection Hi as <-.
  - apply existsb_exists in Hex as (r & Hr%list_elem_of_In & Hk).
    exists {| dr_id := dr_id r; dr_grant := g; dr_revoked := None |}. simpl. split; [|done].
    apply list_elem_of_fmap. exists r. by rewrite Hk.
  - eexists. split; [apply elem_of_app; right; by apply list_elem_of_singleton|]. done.
Qed.

(** What is allowed was granted: some insertion of the history granted this
    target, sink and session to this root, is not expired, and was not followed
    by a withdrawal of the root's grants or of this host's. *)
Theorem allowed_use_was_granted ops target sink session root now :
  allows_at (fold_left run_declass ops no_declassifications) target sink session root now = true →
  ∃ l1 g l2, ops = l1 ++ DInsert g :: l2 ∧ target_is_bound target = true
    ∧ grants_use g target sink session root now ∧ Forall (λ op, ¬ withdraws root target op) l2.
Proof.
  induction ops as [|op ops IH] using rev_ind; [done|]. rewrite fold_left_app. cbn [fold_left].
  set (t := fold_left run_declass ops no_declassifications) in *.
  assert (∀ r, r ∈ declass_rows t → dr_revoked r = None → grants_use (dr_grant r) target sink session root now →
    ¬ withdraws root target op →
    ∃ l1 g l2, ops ++ [op] = l1 ++ DInsert g :: l2 ∧ target_is_bound target = true
      ∧ grants_use g target sink session root now ∧ Forall (λ op, ¬ withdraws root target op) l2) as Hold.
  { intros r Hr Hl Hg Hop. destruct IH as (l1 & g & l2 & -> & Hb & Hu & Hf); [apply declassification_allows_spec; eauto|].
    exists l1, g, (l2 ++ [op]). rewrite <-app_assoc. split_and!; try done. apply Forall_app. split; [done|].
    constructor; [done|constructor]. }
  intros (r & Hr & Hl & Hg)%declassification_allows_spec. destruct op as [g|rt host reason n|rt id n reason|rt]; simpl in Hr.
  - destruct (insert_grant t g) as [t'|] eqn:Hi; simpl in Hr; [|by apply (Hold r); [..|intros []]].
    destruct (insert_grant_rows _ _ _ _ Hi Hr) as [<-|[Hr' _]]; [|by apply (Hold r); [..|intros []]].
    exists ops, (dr_grant r), []. split_and!; [done| |done|constructor].
    unfold insert_grant in Hi. destruct Hg as (_ & <- & _). by destruct (target_is_bound _).
  - apply revoke_rows_live in Hr as [Hr Hp]; [|done]. apply (Hold r); try done.
    intros [-> Hh]. destruct Hg as (Hroot & Htgt & _). rewrite Hroot, String.eqb_refl in Hp. simpl in Hp.
    destruct host as [h|]; [|done]. by rewrite bool_decide_eq_true_2 in Hp by (by rewrite Htgt, Hh).
  - unfold revoke_grant_by_id in Hr. simpl in Hr. apply (revoke_rows_live t) in Hr as [Hr _]; [|done].
    by apply (Hold r); [..|intros []].
  - apply list_elem_of_In, filter_In in Hr as [Hr%list_elem_of_In Hn]. apply (Hold r); try done.
    intros ->. destruct Hg as (Hroot & _). by rewrite Hroot, String.eqb_refl in Hn.
Qed.

(** No operation on one root session's grants changes what another root may
    do, whatever row id or host it names. *)
Theorem grants_of_roots_are_apart t op target sink session root now :
  declass_op_root op ≠ root →
  allows_at (run_declass t op) target sink session root now = allows_at t target sink session root now.
Proof.
  intros Hne. apply eq_true_iff_eq. rewrite !declassification_allows_spec.
  assert (∀ p, (∀ r, dg_root (dr_grant r) = root → p r = false) → ∀ now' reason,
    (∃ r, r ∈ declass_rows (revoke_rows t p now' reason).1 ∧ dr_revoked r = None
          ∧ grants_use (dr_grant r) target sink session root now)
    ↔ ∃ r, r ∈ declass_rows t ∧ dr_revoked r = None ∧ grants_use (dr_grant r) target sink session root now)
    as Hrev.
  { intros p Hp now' reason. split; intros (r & Hr & Hl & Hg); exists r; split_and!; try done.
    - by apply revoke_rows_live in Hr as [? _].
    - apply revoke_rows_live; [done|]. split; [done|]. apply Hp. by destruct Hg as (? & _). }
  destruct op as [g|rt host reason n|rt id n reason|rt]; simpl in Hne |- *.
  - destruct (insert_grant t g) as [t'|] eqn:Hi; [|done]. simpl. split.
    + intros (r & Hr & Hl & Hg). destruct (insert_grant_rows _ _ _ _ Hi Hr) as [<-|[Hr' _]]; [|by exists r].
      by destruct Hg as (? & _).
    + intros (r & Hr & Hl & Hg). exists r. split; [|done]. unfold insert_grant in Hi.
      destruct (target_is_bound _); [|done]. simpl in Hi.
      destruct (existsb _ _); injection Hi as <-; simpl; [|apply elem_of_app; by left].
      apply list_elem_of_fmap. exists r. split; [|done]. rewrite bool_decide_eq_false_2; [done|].
      intros Hk. apply (f_equal (λ k, k.1.1.1.1.1)) in Hk. simpl in Hk. apply Hne. rewrite <-Hk.
      by destruct Hg as (? & _).
  - apply Hrev. intros r <-. apply andb_false_iff. left. apply String.eqb_neq. congruence.
  - apply (Hrev (λ r, (dr_id r =? id)%Z && (dg_root (dr_grant r) =? rt)%string)).
    intros r <-. apply andb_false_iff. right. apply String.eqb_neq. congruence.
  - split; intros (r & Hr & Hl & Hg); exists r; split_and!; try done.
    + by apply list_elem_of_In, filter_In in Hr as [Hr%list_elem_of_In _].
    + apply list_elem_of_In, filter_In. split; [by apply list_elem_of_In|].
      destruct Hg as (-> & _). apply negb_true_iff, String.eqb_neq. congruence.
Qed.

Lemma declassified_for_hosts_spec t session root hosts now :
  session_network_declassified_for_hosts parse_rfc3339 t session root hosts now = true ↔
  allows_at t (session_egress_declass_target root) Network session root now = true
  ∨ (hosts ≠ [] ∧ ∀ h, h ∈ hosts →
       allows_at t (session_host_network_declass_target root h) Network session root now = true).
Proof.
  unfold session_network_declassified_for_hosts, session_network_declassified, session_network_declass_target.
  destruct (allows_at t (session_egress_declass_target root) Network session root now); [naive_solver|].
  destruct hosts as [|h hosts]; [naive_solver|]. rewrite forallb_forall. split.
  - intros H. right. split; [done|]. intros x Hx. apply H. by apply list_elem_of_In.
  - intros [?|[_ H]]; [done|]. intros x Hx. apply H. by apply list_elem_of_In.
Qed.

(** C28: A network call passes the boundary only with a store, a taint that could
    be established, and, where the taint excludes the network, a live grant: one
    for the whole session or one for the very host of the call. *)
Theorem tainted_call_needs_grant json_to_string st surface tool run store session agent_id turn_id host :
  (network_egress_boundary_refusal parse_rfc3339 json_to_string st surface tool run store session agent_id
     turn_id host).1 = None ↔
  ∃ s taint, store = Some s ∧ require_boundary_session_taint (run ≫= fst) store session = Ok taint
    ∧ (allows taint Network = true
       ∨ ∃ sid, nonempty_session session = Some sid
          ∧ let root := from_option snd (root_session_id sid) run in
            ∃ target, (target = session_egress_declass_target root
                       ∨ ∃ h, host = Some h ∧ target = session_host_network_declass_target root h)
              ∧ ∃ r, r ∈ declass_rows (bs_grants s) ∧ dr_revoked r = None
                  ∧ grants_use (dr_grant r) target Network sid root (stamp_now st)).
Proof.
  unfold network_egress_boundary_refusal.
  destruct store as [s|]; [|split; [done|by intros (s & taint & ? & _)]].
  destruct (require_boundary_session_taint (run ≫= fst) (Some s) session) as [taint|e] eqn:Ht;
    [|split; [done|by intros (s' & taint & _ & ? & _)]].
  destruct (allows taint Network) eqn:Ha; [split; [intros _; exists s, taint; auto|done]|].
  destruct (nonempty_session session) as [sid|];
    [|split; [done|]; intros (s' & taint' & _ & [= <-] & [?|(sid & ? & _)]); congruence].
  assert (match run with Some (_, root) => root | None => root_session_id sid end
    = from_option snd (root_session_id sid) run) as -> by by destruct run as [[]|].
  set (root := from_option snd (root_session_id sid) run).
  destruct (session_network_declassified_for_hosts _ _ _ _ _ _) eqn:Hd; simpl.
  - split; [intros _|done]. exists s, taint. split_and!; [done|done|right]. exists sid. split; [done|].
    apply declassified_for_hosts_spec in Hd as [Hd|[Hne Hd]].
    + exists (session_egress_declass_target root). split; [by left|by apply declassification_allows_spec].
    + destruct host as [h|]; [|done]. exists (session_host_network_declass_target root h).
      split; [right; eauto|]. apply declassification_allows_spec, Hd. by left.
  - split; [done|]. intros (s' & taint' & [= <-] & [= <-] & [?|(sid' & [= <-] & target & Htgt & Hr)]);
      [congruence|].
    exfalso. apply not_true_iff_false in Hd. apply Hd, declassified_for_hosts_spec.
    apply (proj2 (declassification_allows_spec _ _ _ _ _ _)) in Hr. destruct Htgt as [->|(h & -> & ->)]; [by left|right].
    split; [done|]. by intros x ->%list_elem_of_singleton.
Qed.
End Histories.

(** ** A grant, used and withdrawn *)

Definition demo_declass : DeclassGrant :=
  {| dg_root := "r"; dg_session := "r/a"; dg_agent := "coder";
     dg_target := session_host_network_declass_target "r" "Example.COM."; dg_sink := Network;
     dg_scope := RootSession; dg_by := "operator"; dg_at := "t"; dg_source := None; dg_expires := None |}.

(** The host is normalised where it is granted, used and withdrawn. *)
Example host_grant_used_and_withdrawn :
  let t := run_declass no_declassifications (DInsert demo_declass) in
  let use t host := session_network_declassified_for_hosts (λ _, None) t "r/b" "r" [host] "t" in
  (use t "example.com", use t "other.com",
   use (run_declass t (DRevokeRoot "r" (Some " example.com ") "why" "t")) "example.com")
  = (true, false, false).
Proof. vm_compute. reflexivity. Qed.

Lemma allowed_use_was_granted_witness :
  ∃ l1 g l2, [DInsert demo_declass; DDelete "other"] = l1 ++ DInsert g :: l2
    ∧ target_is_bound (dg_target demo_declass) = true
    ∧ grants_use (λ _, None) g (dg_target demo_declass) Network "r/b" "r" "t"
    ∧ Forall (λ op, ¬ withdraws "r" (dg_target demo_declass) op) l2.
Proof. apply (allowed_use_was_granted (λ _, None)). vm_compute. reflexivity. Defined.

Lemma grants_of_roots_are_apart_witness :
  declassification_allows (λ _, None)
    (run_declass (run_declass no_declassifications (DInsert demo_declass)) (DRevokeId "other" 1 "t" "why"))
    (dg_target demo_declass) Network "r/b" "r" "t"
  = declassification_allows (λ _, None) (run_declass no_declassifications (DInsert demo_declass))
      (dg_target demo_declass) Network "r/b" "r" "t".
Proof. apply (grants_of_roots_are_apart (λ _, None)). discriminate. Defined.
