(* ===== verification/EgressSelection.v ===== *)
(** * The provider of a completion

    The model of [AgentExecutor::plan_egress_routing]
    ([autonoetic-gateway/src/runtime/lifecycle.rs]) and of the question it may ask
    ([file_egress_pin_ask], [apply_egress_ask_declassification] and their helpers
    in [runtime/egress_labeler.rs]): which preset a completion whose new data is
    labelled runs on, which presets it may fail over to, and what happens when the
    preset is pinned.  It composes [EgressRouting], [Interactions] and
    [Declassification].

    A driver is the name of the preset it was built for; [build_driver] tells
    whether [crate::llm] builds one.  The texts of refusals are constructors, and
    the approval offered with a refusal is an [Offer] in the plane: its gate is
    not modelled. *)

From Stdlib Require Import Ascii String ZArith Lia.
From stdpp Require Import prelude gmap strings list.
From coqutil Require Import Datatypes.RecordSetters.
From S2P Require Import Prelude RustStr Json NetworkSinks Redaction Egress LabelStore EgressLabeler EgressRouting ContentStore.
From S2P Require Import Workflow WorkflowStore Grants Timeline Interactions UserAsk Declassification.
Import DoubleBraceUpdate.

Open Scope string_scope.
Open Scope nat_scope.
Open Scope list_scope.

(** ** The plane *)

Inductive Offer : Type := DeclassifyOffer (session root agent_id : string) (batch : EgressLabel).

Record EgressPlane := {
  interactions : InteractionDb;
  declass : DeclassTable;
  labels : LabelDb;
  offers : list Offer;
}.

(** ** The question *)

Definition DECLASSIFY : string := "declassify".
Definition RUN_LOCAL : string := "run_local".
Definition ABORT : string := "abort".

Record EgressAskState := {
  ask_interaction_id : string;
  ask_turn_id : string;
  ask_batch : EgressLabel;
  pinned_preset : string;
  local_preset : option PresetCandidate;
}.

Inductive PinAskBlocker : Type := BatchTaint | BlockedByConstraint.

Definition egress_ask_options_payload (blocker : PinAskBlocker) (local : option PresetCandidate)
    : list string :=
  match blocker with BatchTaint => [DECLASSIFY] | BlockedByConstraint => [] end
  ++ match local with Some _ => [RUN_LOCAL] | None => [] end ++ [ABORT].

Section Selection.
Context (parse_json : string → option Json) (json_to_string : Json → string).
Context (captures_iter : string → string → list (list (option (nat * nat)))).
Context (parse_rfc3339 : string → option Z).
Context (build_driver : string → bool).

Definition is_egress_pin_ask (i : UserInteraction) : bool :=
  default false (c ← ui_context i; v ← parse_json c; f ← json_get v "egress_pin_ask"; json_as_bool f).

Definition blocker_str (b : PinAskBlocker) : string :=
  match b with BatchTaint => "batch_taint" | BlockedByConstraint => "provider_constraint" end.

Definition option_label (local : option PresetCandidate) (id : string) : string :=
  if (id =? DECLASSIFY)%string then "Declassify this root session to the remote model"
  else if (id =? RUN_LOCAL)%string
  then ("Run this turn on the local preset '" ++ from_option cand_name "local" local ++ "'")%string
  else "Abort this turn".

Definition run_local_clause (local : option PresetCandidate) : string :=
  match local with
  | Some c => (" run this turn on the local preset '" ++ cand_name c ++ "',")%string
  | None => ""
  end.

Definition ask_question (blocker : PinAskBlocker) (batch : EgressLabel) (pinned : string)
    (local : option PresetCandidate) : string :=
  match blocker with
  | BatchTaint =>
      ("The pinned preset '" ++ pinned ++ "' is not cleared for this turn's new data (labeled "
       ++ label_display_name batch ++ "). The gateway will not silently run it on another model. "
       ++ "Choose: declassify this root session to the remote model," ++ run_local_clause local
       ++ " or abort this turn.")%string
  | BlockedByConstraint =>
      ("This room is pinned local (session provider_constraint), so the pinned preset '" ++ pinned
       ++ "' cannot run this turn. The gateway will not silently run it on another model. Choose:"
       ++ trim_end_matches (run_local_clause local) ","
       ++ " or abort this turn. Declassification is not offered — the room pin outranks it; "
       ++ "lift the pin itself (`/private`) to use '" ++ pinned ++ "' again.")%string
  end.

Definition ask_context (blocker : PinAskBlocker) (batch : EgressLabel) (pinned : string)
    (local : option PresetCandidate) : Json :=
  json_object [("egress_pin_ask", JBool true); ("batch", label_json batch);
    ("pinned_preset", JString pinned); ("local_preset", json_opt_str (cand_name <$> local));
    ("blocker", JString (blocker_str blocker))].

Definition pin_ask (now fresh session root agent_id turn_id : string) (batch : EgressLabel)
    (pinned : string) (local : option PresetCandidate) (blocker : PinAskBlocker) : UserInteraction :=
  {| interaction_id := fresh; ui_session_id := session; ui_root_session_id := root;
     ui_agent_id := agent_id; ui_turn_id := turn_id; ui_kind := Decision;
     question := ask_question blocker batch pinned local;
     ui_context := Some (json_to_string (ask_context blocker batch pinned local));
     ui_options := map (λ id, {| opt_id := id; opt_label := option_label local id; opt_value := id |})
                     (egress_ask_options_payload blocker local);
     allow_freeform := false; ui_status := IPending; answer_option_id := None; answer_text := None;
     answered_by := None; ui_created_at := now; answered_at := None; expires_at := None;
     ui_workflow_id := None; ui_task_id := None; checkpoint_turn_id := Some turn_id |}.

(** A pending ask of the root is reused; [None] when a new one cannot be filed. *)
Definition file_egress_pin_ask (now fresh : string) (st : Stamp) (db : InteractionDb)
    (session root agent_id turn_id : string) (batch : EgressLabel) (pinned : string)
    (local : option PresetCandidate) (blocker : PinAskBlocker) : InteractionDb * option string :=
  match List.find is_egress_pin_ask (get_pending_interactions_for_root_session db root) with
  | Some i => (db, Some (interaction_id i))
  | None =>
      match create_user_interaction parse_json json_to_string captures_iter st db
              (pin_ask now fresh session root agent_id turn_id batch pinned local blocker) with
      | Ok db => (db, Some fresh)
      | Err _ => (db, None)
      end
  end.

(** [None] is the error of the insertion. *)
Definition apply_egress_ask_declassification (st : Stamp) (p : EgressPlane) (i : UserInteraction)
    : option EgressPlane :=
  if negb (is_egress_pin_ask i) || negb (bool_decide (answer_option_id i = Some DECLASSIFY)) then Some p
  else
    let root := if str_is_empty (ui_root_session_id i) then root_session_id (ui_session_id i)
                else ui_root_session_id i in
    let target := session_egress_declass_target root in
    t ← insert_grant (declass p)
          {| dg_root := root; dg_session := ui_session_id i; dg_agent := ui_agent_id i;
             dg_target := target; dg_sink := RemoteModel; dg_scope := RootSession;
             dg_by := default "gateway" (answered_by i); dg_at := default (stamp_now st) (answered_at i);
             dg_source := Some ("interaction:" ++ interaction_id i)%string; dg_expires := None |};
    Some (p{{ declass := t;
              labels := emit_declassified json_to_string st (labels p) (ui_session_id i) (ui_agent_id i)
                target RemoteModel RootSession None
                ("operator answered egress pin×taint ask " ++ interaction_id i
                 ++ ": declassify to remote model")%string None }}).

(** ** The selection *)

Record LlmPreset := {
  preset_routing : bool;
  preset_provider : option string;
  preset_model : option string;
  preset_class : option EgressClass;
}.

Inductive RefuseReason : Type :=
| AskUnbuildable (preset : string)
| AbortedByOperator (pinned : string)
| AskUnavailable (blocker : PinAskBlocker)
| NoEligibleProvider (offered : bool)
| EligibleUnbuildable (preset : string).

Record EgressRoutingSelection := {
  primary_driver : option string;
  effective_class : option EgressClass;
  effective_model : option string;
  sel_fallback_chain : list (string * string * string);
  refuse_reason : option RefuseReason;
  pending_ask : option string;
}.

(** What the executor knows of the completion. *)
Record RoutingCall := {
  rc_batch : EgressLabel;
  routed_preset : string;
  primary_class : option EgressClass;
  fallback_chain : list (string * string * string);
  rc_session_id : string;
  rc_turn_id : string;
  rc_constraint : option ProviderConstraint;
  primary_pinned : bool;
  rc_agent_id : string;
  rc_presets : list (string * LlmPreset);
}.

Definition get_preset (c : RoutingCall) (name : string) : option LlmPreset :=
  snd <$> List.find (λ e, (e.1 =? name)%string) (rc_presets c).

Definition build_driver_for_preset (c : RoutingCall) (name : string) : option string :=
  p ← get_preset c name; _ ← preset_provider p; _ ← preset_model p;
  if build_driver name then Some name else None.

(** The presets that name a provider and a model. *)
Definition is_buildable (p : LlmPreset) : bool :=
  negb (preset_routing p) && bool_decide (is_Some (preset_provider p))
  && bool_decide (is_Some (preset_model p)).

Definition candidates (c : RoutingCall) : list PresetCandidate :=
  map (λ e, {| cand_name := e.1; cand_egress_class := preset_class e.2 |})
    (List.filter (λ e, is_buildable e.2) (rc_presets c)).

Definition emit_provider_selected (st : Stamp) (db : LabelDb) (c : RoutingCall)
    (plan : EgressRoutingPlan) (chosen : option string) (skipped : list string)
    (rerouted declassified : bool) (inline : option Json) : LabelDb :=
  emit_egress_event json_to_string st db "egress.provider_selected" (default "none" chosen)
    (Some (json_object
       [("batch_label", label_json (plan_batch plan));
        ("batch_label_name", JString (label_display_name (plan_batch plan)));
        ("provider_constraint", json_opt_str (constraint_as_str <$> plan_provider_constraint plan));
        ("primary_eligible", JBool (plan_primary_eligible plan));
        ("eligible_presets", json_strings (plan_eligible plan)); ("chosen_preset", json_opt_str chosen);
        ("rerouted", JBool rerouted); ("fallback_skipped", json_strings skipped);
        ("no_eligible_provider", JBool (negb (bool_decide (is_Some chosen))));
        ("declassified_remote", JBool declassified); ("inline_ask", default JNull inline)]))
    (rc_session_id c) (rc_agent_id c) (Some (rc_turn_id c)) "egress_provider_selected".

Definition with_event (st : Stamp) (p : EgressPlane) (c : RoutingCall) (plan : EgressRoutingPlan)
    (chosen : option string) (skipped : list string) (rerouted declassified : bool)
    (inline : option Json) : EgressPlane :=
  p{{ labels := emit_provider_selected st (labels p) c plan chosen skipped rerouted declassified inline }}.

Definition answered_inline (outcome id : string) : Json :=
  json_object [("status", JString "answered"); ("outcome", JString outcome); ("interaction_id", JString id)].

Definition keep_primary (c : RoutingCall) (chain : list (string * string * string))
    (refuse : option RefuseReason) (ask : option string) : EgressRoutingSelection :=
  {| primary_driver := None; effective_class := primary_class c; effective_model := None;
     sel_fallback_chain := chain; refuse_reason := refuse; pending_ask := ask |}.

Definition run_on (c : RoutingCall) (cand : PresetCandidate) (driver : string)
    (chain : list (string * string * string)) : EgressRoutingSelection :=
  {| primary_driver := Some driver; effective_class := cand_egress_class cand;
     effective_model := p ← get_preset c (cand_name cand); preset_model p;
     sel_fallback_chain := chain; refuse_reason := None; pending_ask := None |}.

(** The completion that resumes on an ask of its own turn: the selection made
    then and there, or the state and the outcome with which routing goes on. *)
Inductive Resumed : Type :=
| Decided (p : EgressPlane) (sel : EgressRoutingSelection) (state : option EgressAskState)
| Continue (state : option EgressAskState) (outcome : option Json).

Definition resume_ask (st : Stamp) (p : EgressPlane) (c : RoutingCall) (state : EgressAskState)
    : Resumed :=
  if negb (ask_turn_id state =? rc_turn_id c)%string then Continue None None
  else match get_user_interaction (interactions p) (ask_interaction_id state) with
  | None => Continue (Some state) None
  | Some i =>
      let choice := answer_option_id i in
      if bool_decide (choice = Some RUN_LOCAL) then
        match local_preset state with
        | None => Continue None None
        | Some local =>
            let plan := {| plan_batch := ask_batch state; plan_provider_constraint := rc_constraint c;
                           plan_primary_eligible := false; plan_eligible := [cand_name local];
                           plan_reroute_to := Some local |} in
            let inline := answered_inline RUN_LOCAL (ask_interaction_id state) in
            match build_driver_for_preset c (cand_name local) with
            | Some d =>
                Decided (with_event st p c plan (Some (cand_name local)) [] false false (Some inline))
                  (run_on c local d (fallback_chain c)) (Some state)
            | None =>
                Decided (with_event st p c plan None [] false false (Some inline))
                  (keep_primary c (fallback_chain c) (Some (AskUnbuildable (cand_name local))) None)
                  (Some state)
            end
        end
      else if bool_decide (choice = Some DECLASSIFY) then
        Continue None (Some (answered_inline DECLASSIFY (ask_interaction_id state)))
      else if bool_decide (choice = Some ABORT) then
        let plan := {| plan_batch := ask_batch state; plan_provider_constraint := rc_constraint c;
                       plan_primary_eligible := false; plan_eligible := []; plan_reroute_to := None |} in
        Decided (with_event st p c plan None [] false false
                   (Some (answered_inline ABORT (ask_interaction_id state))))
          (keep_primary c [] (Some (AbortedByOperator (pinned_preset state))) None) None
      else Decided p (keep_primary c [] None (Some (ask_interaction_id state))) (Some state)
  end.

Definition class_of (c : RoutingCall) (name : string) : option EgressClass :=
  p ← get_preset c name; preset_class p.

(** The plan of the completion once grants are taken into account. *)
Definition declassified_remote (now : string) (p : EgressPlane) (c : RoutingCall) : bool :=
  bool_decide (rc_constraint c = None)
  && session_sink_declassified parse_rfc3339 (declass p) (rc_session_id c)
       (root_session_id (rc_session_id c)) RemoteModel now.

Definition effective_plan (now : string) (p : EgressPlane) (c : RoutingCall) : EgressRoutingPlan :=
  let plan := plan_taint_following_route (rc_batch c) (primary_class c) (candidates c) (rc_constraint c) in
  if declassified_remote now p c
  then {| plan_batch := plan_batch plan; plan_provider_constraint := plan_provider_constraint plan;
          plan_primary_eligible := true; plan_eligible := map cand_name (candidates c);
          plan_reroute_to := if plan_primary_eligible plan then plan_reroute_to plan else None |}
  else plan.

Definition fallback_ok (plan : EgressRoutingPlan) (c : RoutingCall) (f : string * string * string) : bool :=
  preset_batch_eligible (plan_batch plan) (class_of c f.1.1).

(** Routing without an answered ask. *)
Definition route (now fresh : string) (st : Stamp) (p : EgressPlane) (c : RoutingCall)
    (state : option EgressAskState) (outcome : option Json)
    : EgressPlane * option EgressAskState * EgressRoutingSelection :=
  let declassified := declassified_remote now p c in
  let plan := effective_plan now p c in
  let filtered := if declassified then fallback_chain c
                  else List.filter (fallback_ok plan c) (fallback_chain c) in
  let skipped := if declassified then []
                 else map (λ f, f.1.1) (List.filter (λ f, negb (fallback_ok plan c f)) (fallback_chain c)) in
  let emit p chosen rerouted inline :=
    with_event st p c plan chosen skipped rerouted declassified
      (match inline with Some i => Some i | None => outcome end) in
  if primary_pinned c && negb (plan_primary_eligible plan) then
    let local := plan_reroute_to plan in
    let blocker := match rc_constraint c with Some _ => BlockedByConstraint | None => BatchTaint end in
    match file_egress_pin_ask now fresh st (interactions p) (rc_session_id c)
            (root_session_id (rc_session_id c)) (rc_agent_id c) (rc_turn_id c) (plan_batch plan)
            (routed_preset c) local blocker with
    | (db, Some ask_id) =>
        let p := p{{ interactions := db }} in
        (emit p None false
           (Some (json_object [("status", JString "filed"); ("interaction_id", JString ask_id);
              ("options", json_strings (egress_ask_options_payload blocker local))])),
         Some {| ask_interaction_id := ask_id; ask_turn_id := rc_turn_id c; ask_batch := plan_batch plan;
                 pinned_preset := routed_preset c; local_preset := local |},
         keep_primary c filtered None (Some ask_id))
    | (db, None) =>
        (emit (p{{ interactions := db }}) None false None, state,
         keep_primary c filtered (Some (AskUnavailable blocker)) None)
    end
  else if no_eligible_provider plan then
    let offered := negb (bool_decide (candidates c = [])) in
    let p := emit p None false None in
    let p := if offered
             then p{{ offers := offers p ++ [DeclassifyOffer (rc_session_id c)
                        (root_session_id (rc_session_id c)) (rc_agent_id c) (plan_batch plan)] }}
             else p in
    (p, state, keep_primary c filtered (Some (NoEligibleProvider offered)) None)
  else match plan_reroute_to plan with
  | Some cand =>
      match build_driver_for_preset c (cand_name cand) with
      | Some d => (emit p (Some (cand_name cand)) true None, state, run_on c cand d filtered)
      | None => (emit p None false None, state,
                 keep_primary c filtered (Some (EligibleUnbuildable (cand_name cand))) None)
      end
  | None => (emit p (Some (routed_preset c)) false None, state, keep_primary c filtered None None)
  end.

Definition plan_egress_routing (now fresh : string) (st : Stamp) (p : EgressPlane)
    (state : option EgressAskState) (c : RoutingCall)
    : EgressPlane * option EgressAskState * EgressRoutingSelection :=
  match state with
  | None => route now fresh st p c None None
  | Some s =>
      match resume_ask st p c s with
      | Decided p sel state => (p, state, sel)
      | Continue state outcome => route now fresh st p c state outcome
      end
  end.
End Selection.

(** ** What a selection promises *)

Section Promises.
Context (parse_json : string → option Json) (json_to_string : Json → string).
Context (captures_iter : string → string → list (list (option (nat * nat)))).
Context (parse_rfc3339 : string → option Z).
Context (build_driver : string → bool).

Notation select_provider :=
  (plan_egress_routing parse_json json_to_string captures_iter parse_rfc3339 build_driver).
Notation resume := (resume_ask json_to_string build_driver).
Notation route_on := (route parse_json json_to_string captures_iter parse_rfc3339 build_driver).

Definition settled (sel : EgressRoutingSelection) : Prop :=
  refuse_reason sel = None ∧ pending_ask sel = None.

(** The operator answered this turn's question with the local preset. *)
Definition answered_local (p : EgressPlane) (c : RoutingCall) (state : option EgressAskState)
    (local : PresetCandidate) : Prop :=
  ∃ s i, state = Some s ∧ ask_turn_id s = rc_turn_id c ∧ local_preset s = Some local
    ∧ get_user_interaction (interactions p) (ask_interaction_id s) = Some i
    ∧ answer_option_id i = Some RUN_LOCAL.

Lemma find_key {A} (l : list (string * A)) e :
  NoDup (map fst l) → e ∈ l → List.find (λ x, (x.1 =? e.1)%string) l = Some e.
Proof.
  induction l as [|x l IH]; simpl; [by intros _ ?%elem_of_nil|].
  intros [Hx Hnd]%NoDup_cons [->|He]%elem_of_cons; [by rewrite String.eqb_refl|].
  destruct (x.1 =? e.1)%string eqn:E; [|by apply IH]. apply String.eqb_eq in E.
  destruct Hx. rewrite E. apply list_elem_of_fmap. by exists e.
Qed.

Lemma class_of_candidate c cand :
  NoDup (map fst (rc_presets c)) → cand ∈ candidates c →
  class_of c (cand_name cand) = cand_egress_class cand.
Proof.
  intros Hnd (e & -> & [He _]%list_elem_of_In%filter_In)%list_elem_of_fmap.
  unfold class_of, get_preset. simpl. by rewrite find_key by (done || by apply list_elem_of_In).
Qed.

Lemma built_name c name d : build_driver_for_preset build_driver c name = Some d → d = name.
Proof.
  unfold build_driver_for_preset. destruct (get_preset c name) as [pr|]; [|done]. simpl.
  destruct (preset_provider pr), (preset_model pr); try done. simpl.
  destruct (build_driver name); [|done]. by intros [= <-].
Qed.

(** What one completion may run on: the class of its provider and the presets it
    fails over to are cleared for the batch the constraint narrowed. *)
Definition cleared (c : RoutingCall) (sel : EgressRoutingSelection) : Prop :=
  let batch := effective_batch (rc_batch c) (rc_constraint c) in
  allows batch (preset_sink (effective_class sel)) = true
  ∧ (∀ f, f ∈ sel_fallback_chain sel → f ∈ fallback_chain c
       ∧ allows batch (preset_sink (class_of c f.1.1)) = true)
  ∧ match primary_driver sel with
    | Some d => d ∈ map fst (rc_presets c) ∧ class_of c d = effective_class sel
    | None => effective_class sel = primary_class c
    end.

Lemma plan_batch_effective b pc cs k :
  plan_batch (plan_taint_following_route b pc cs k) = effective_batch b k.
Proof. unfold plan_taint_following_route. by destruct (is_unrestricted _). Qed.

Lemma route_cleared now fresh st p c state outcome p' state' sel :
  NoDup (map fst (rc_presets c)) →
  route_on now fresh st p c state outcome = (p', state', sel) → settled sel →
  declassified_remote parse_rfc3339 now p c = false → cleared c sel.
Proof.
  intros Hnd Hr [Hs1 Hs2] Hd. unfold route, effective_plan in Hr. rewrite Hd in Hr.
  pose proof (routing_plan_spec (rc_batch c) (primary_class c) (candidates c) (rc_constraint c)) as Hspec.
  set (plan := plan_taint_following_route _ _ _ _) in *.
  assert (∀ f, f ∈ List.filter (fallback_ok plan c) (fallback_chain c) → f ∈ fallback_chain c
    ∧ allows (effective_batch (rc_batch c) (rc_constraint c)) (preset_sink (class_of c f.1.1)) = true) as Hf.
  { intros f [Hin Hok]%list_elem_of_In%filter_In. split; [by apply list_elem_of_In|].
    unfold fallback_ok, preset_batch_eligible, plan in Hok. by rewrite plan_batch_effective in Hok. }
  destruct (primary_pinned c && negb (plan_primary_eligible plan)).
  { destruct (file_egress_pin_ask _ _ _ _ _ _ _ _ _ _ _ _ _ _) as [db [a|]];
      injection Hr as <- <- <-; done. }
  destruct (no_eligible_provider plan) eqn:Hno; [injection Hr as <- <- <-; done|].
  destruct Hspec as [Hprim Hre]. destruct (plan_reroute_to plan) as [cand|] eqn:Hrt.
  - destruct (build_driver_for_preset _ _ _) as [d|] eqn:Hb; injection Hr as <- <- <-; [|done].
    destruct (Hre cand eq_refl) as [Hin Ha]. apply built_name in Hb as ->. unfold cleared. simpl.
    rewrite class_of_candidate by done. split_and!; [done|done| |done].
    apply list_elem_of_fmap in Hin as (e & -> & [He _]%list_elem_of_In%filter_In). simpl.
    apply list_elem_of_fmap. exists e. split; [done|by apply list_elem_of_In].
  - injection Hr as <- <- <-. unfold cleared. simpl. split_and!; [|done|done].
    apply Hprim. unfold no_eligible_provider in Hno. rewrite Hrt in Hno. by destruct (plan_primary_eligible plan).
Qed.

(** The grant that lifts the restriction: for the whole tree of the session, the
    remote model, not revoked and not expired. *)
Definition remote_grant (now : string) (p : EgressPlane) (c : RoutingCall) : Prop :=
  let root := root_session_id (rc_session_id c) in
  ∃ r, r ∈ declass_rows (declass p) ∧ dr_revoked r = None
    ∧ grants_use parse_rfc3339 (dr_grant r) (session_egress_declass_target root) RemoteModel
        (rc_session_id c) root now.

Lemma declassified_remote_spec now p c :
  declassified_remote parse_rfc3339 now p c = true ↔ rc_constraint c = None ∧ remote_grant now p c.
Proof.
  unfold declassified_remote, session_sink_declassified, remote_grant.
  by rewrite andb_true_iff, bool_decide_eq_true, declassification_allows_spec.
Qed.

(** C26: A completion that runs, runs on a provider and fails over to presets that its
    batch, narrowed by the session's constraint, is cleared for; unless the
    session is unconstrained and its tree holds a live grant for the remote
    model, or the operator chose the local preset for this very turn. *)
Theorem selection_is_cleared now fresh st p state c p' state' sel :
  NoDup (map fst (rc_presets c)) →
  select_provider now fresh st p state c = (p', state', sel) → settled sel →
  cleared c sel
  ∨ (rc_constraint c = None ∧ remote_grant now p c)
  ∨ ∃ local, answered_local p c state local ∧ primary_driver sel = Some (cand_name local)
      ∧ effective_class sel = cand_egress_class local.
Proof.
  intros Hnd Hsel Hs. rewrite <-declassified_remote_spec.
  assert (∀ s o, route_on now fresh st p c s o = (p', state', sel) →
    cleared c sel ∨ declassified_remote parse_rfc3339 now p c = true) as Hroute.
  { intros s o Hr. destruct (declassified_remote _ _ _ _) eqn:Hd; [by right|left].
    by eapply route_cleared. }
  unfold plan_egress_routing in Hsel. destruct state as [s|]; [|destruct (Hroute _ _ Hsel); auto].
  unfold resume_ask in Hsel.
  destruct (ask_turn_id s =? rc_turn_id c)%string eqn:Ht; [|destruct (Hroute _ _ Hsel); auto].
  simpl in Hsel. destruct (get_user_interaction _ _) as [i|] eqn:Hi; [|destruct (Hroute _ _ Hsel); auto].
  case_bool_decide as Hl.
  - destruct (local_preset s) as [local|] eqn:Hlp; [|destruct (Hroute _ _ Hsel); auto].
    destruct (build_driver_for_preset _ _ _) as [d|] eqn:Hb; injection Hsel as <- <- <-; [|by destruct Hs].
    apply built_name in Hb as ->. right. right. exists local. split; [|done].
    exists s, i. apply String.eqb_eq in Ht. done.
  - case_bool_decide; [destruct (Hroute _ _ Hsel); auto|].
    case_bool_decide; injection Hsel as <- <- <-; by destruct Hs.
Qed.

(** ** Answers *)

(** A live grant keeps an unpinned or pinned primary as it is. *)
Lemma route_declassified now fresh st p c state outcome :
  declassified_remote parse_rfc3339 now p c = true →
  pending_ask (route_on now fresh st p c state outcome).2 = None.
Proof.
  intros Hd. unfold route, effective_plan. rewrite Hd. simpl. rewrite andb_false_r.
  unfold no_eligible_provider. simpl. destruct (if plan_primary_eligible _ then _ else _); [|done].
  by destruct (build_driver_for_preset _ _ _).
Qed.

Lemma root_prefix s : ∃ r, s = (root_session_id s ++ r)%string ∧ (r = "" ∨ starts_with r "/" = true).
Proof.
  unfold root_session_id. induction s as [|a s (r & IH & Hr)]; [exists ""; auto|].
  cbn [split]. destruct (Ascii.eqb "/" a) eqn:E.
  - apply Ascii.eqb_eq in E as <-. exists (String "/" s). split; [done|]. right. by destruct s.
  - pose proof (split_nonempty (Ascii.eqb "/") s) as Hne.
    destruct (split (Ascii.eqb "/") s) as [|h t]; [done|]. exists r. split; [|done]. cbn in IH |- *. by rewrite IH at 1.
Qed.

Lemma session_under_its_root s : session_under_root_session s (root_session_id s) = true.
Proof.
  destruct (root_prefix s) as (r & Hs & Hr). unfold session_under_root_session. apply orb_true_iff.
  destruct Hr as [->|Hr]; [left; rewrite str_app_nil_r in Hs; by rewrite Hs at 1; apply String.eqb_refl|right].
  by rewrite (proj2 (strip_prefix_some s (root_session_id s) r)).
Qed.

(** Whoever filed the question: the answer opens the whole tree of its root. *)
Lemma declassify_answer_grants st p i p' session now :
  apply_egress_ask_declassification parse_json json_to_string st p i = Some p' →
  is_egress_pin_ask parse_json i = true → answer_option_id i = Some DECLASSIFY →
  ui_root_session_id i ≠ "" → session_under_root_session session (ui_root_session_id i) = true →
  session_sink_declassified parse_rfc3339 (declass p') session (ui_root_session_id i) RemoteModel now
  = true.
Proof.
  intros Ha Hp Ho Hr Hs. unfold apply_egress_ask_declassification in Ha.
  rewrite Hp, bool_decide_eq_true_2 in Ha by done. cbn [negb orb] in Ha.
  assert (str_is_empty (ui_root_session_id i) = false) as He by by destruct (ui_root_session_id i).
  rewrite He in Ha. destruct (insert_grant _ _) as [t|] eqn:Hi; [|done]. injection Ha as <-.
  eapply inserted_grant_allows in Hi; [exact Hi|exact Hs|done].
Qed.

Lemma apply_keeps_interactions st p i p' :
  apply_egress_ask_declassification parse_json json_to_string st p i = Some p' →
  interactions p' = interactions p.
Proof.
  unfold apply_egress_ask_declassification. destruct (_ || _); [by intros [= <-]|].
  destruct (insert_grant _ _); [|done]. by intros [= <-].
Qed.

Definition pin_blocker (c : RoutingCall) : PinAskBlocker :=
  match rc_constraint c with Some _ => BlockedByConstraint | None => BatchTaint end.

Lemma stored_question db id r : r ∈ rows db → row_id r = id → get_user_interaction db id ≠ None.
Proof.
  intros Hr <-. unfold get_user_interaction. destruct (find_row db (row_id r)) eqn:E; [done|].
  apply find_row_none in E. destruct E. by apply list_elem_of_fmap_2.
Qed.

Lemma created_question st db i db' :
  create_user_interaction parse_json json_to_string captures_iter st db i = Ok db' →
  get_user_interaction db' (interaction_id i) = Some (asked i).
Proof.
  unfold create_user_interaction. destruct (find_row db (interaction_id i)) eqn:E; [done|]. intros [= <-].
  unfold get_user_interaction. rewrite (find_row_rows _ (insert_row db (asked i))) by reflexivity.
  unfold find_row.
  change (rows (insert_row db (asked i))) with (rows db ++ [{| interaction := asked i; resumed_at := None |}]).
  rewrite list_find_app. fold (find_row db (interaction_id i)). rewrite E.
  cbn. change (interaction_id (asked i)) with (interaction_id i). by rewrite String.eqb_refl.
Qed.

(** The row a completion files when its question is not one of the table. *)
Lemma filed_ask now fresh st db session root agent turn batch pinned local blocker db' id :
  file_egress_pin_ask parse_json json_to_string captures_iter now fresh st db session root agent turn
    batch pinned local blocker = (db', Some id) →
  get_user_interaction db id = None →
  get_user_interaction db' id
  = Some (asked (pin_ask json_to_string now id session root agent turn batch pinned local blocker)).
Proof.
  unfold file_egress_pin_ask. intros Hf Hn. destruct (List.find _ _) as [q|] eqn:E.
  { injection Hf as <- <-. apply find_some in E as [Hq _]. apply in_map_iff in Hq as (r & <- & [Hr _]%filter_In).
    by destruct (stored_question db (interaction_id (interaction r)) r (proj2 (list_elem_of_In _ _) Hr) eq_refl). }
  destruct (create_user_interaction _ _ _ _ _ _) as [db1|] eqn:Ec; [|done]. injection Hf as <- <-.
  by apply created_question in Ec.
Qed.

Lemma filed_ask_state now fresh st p c p1 state1 sel id :
  get_user_interaction (interactions p) id = None →
  select_provider now fresh st p None c = (p1, state1, sel) → pending_ask sel = Some id →
  ∃ s q, state1 = Some s ∧ ask_interaction_id s = id ∧ ask_turn_id s = rc_turn_id c
    ∧ get_user_interaction (interactions p1) id = Some q
    ∧ ui_root_session_id q = root_session_id (rc_session_id c)
    ∧ map opt_id (ui_options q) = egress_ask_options_payload (pin_blocker c) (local_preset s).
Proof.
  unfold plan_egress_routing, route. intros Hn H Hp. destruct (primary_pinned c && _).
  { destruct (file_egress_pin_ask _ _ _ _ _ _ _ _ _ _ _ _ _ _) as [db [a|]] eqn:E;
      injection H as <- <- <-; [|done].
    injection Hp as <-. apply filed_ask in E; [|done]. eexists _, _. split_and!; [done..|exact E|done|].
    unfold asked, pin_ask. simpl. rewrite map_map. apply map_id. }
  destruct (no_eligible_provider _); [injection H as <- <- <-; done|].
  destruct (plan_reroute_to _); [|injection H as <- <- <-; done].
  destruct (build_driver_for_preset _ _ _); injection H as <- <- <-; done.
Qed.

(** C27: A completion whose question is filed by its own call (no question of the table
    had that id, so it is not the pending one of another session of the tree)
    is settled by every option the filed row lists.  The row may have changed in
    all but its context and its root, both as filed, and holds the option as its
    answer; the context reads back as the marker; the root has a name, and what
    the answer declassifies has been inserted.  Then the same session, at the same
    turn, with the constraint it had, is not sent round to a question again,
    whatever its batch, its presets and the tables have become. *)
Theorem offered_answer_settles now fresh st p c p1 state1 sel id :
  get_user_interaction (interactions p) id = None →
  select_provider now fresh st p None c = (p1, state1, sel) → pending_ask sel = Some id →
  ∃ s q, state1 = Some s ∧ get_user_interaction (interactions p1) id = Some q ∧
  ∀ o p2 i st2 p3 c3 now3 fresh3 st3,
    o ∈ map opt_id (ui_options q) →
    get_user_interaction (interactions p2) id = Some i → answer_option_id i = Some o →
    ui_context i = ui_context q → ui_root_session_id i = ui_root_session_id q →
    is_egress_pin_ask parse_json q = true → root_session_id (rc_session_id c) ≠ "" →
    apply_egress_ask_declassification parse_json json_to_string st2 p2 i = Some p3 →
    rc_session_id c3 = rc_session_id c → rc_turn_id c3 = rc_turn_id c → rc_constraint c3 = rc_constraint c →
    pending_ask (select_provider now3 fresh3 st3 p3 (Some s) c3).2 = None.
Proof.
  intros Hn Hf Hp. destruct (filed_ask_state _ _ _ _ _ _ _ _ _ Hn Hf Hp) as (s & q & -> & <- & Ht & Hq & Hqr & Ho).
  exists s, q. split; [done|]. split; [done|]. rewrite Ho.
  intros o p2 i st2 p3 c3 now3 fresh3 st3 Hin Hi Ha Hctx Hroot Hpin Hne Happ Hs3 Ht3 Hk3.
  assert (is_egress_pin_ask parse_json i = true) as Hpin' by (unfold is_egress_pin_ask in *; by rewrite Hctx).
  rewrite Hqr in Hroot. unfold plan_egress_routing, resume_ask. rewrite Ht, Ht3, String.eqb_refl. simpl.
  rewrite (apply_keeps_interactions _ _ _ _ Happ), Hi, Ha.
  unfold egress_ask_options_payload in Hin. rewrite !elem_of_app in Hin. destruct Hin as [Hin|[Hin|Hin]].
  - unfold pin_blocker in Hin. destruct (rc_constraint c) eqn:Hk; [by apply elem_of_nil in Hin|].
    apply list_elem_of_singleton in Hin as ->. simpl. apply route_declassified.
    unfold declassified_remote. rewrite Hk3, Hs3, bool_decide_eq_true_2 by done. simpl.
    rewrite <-Hroot. eapply declassify_answer_grants; try done; rewrite Hroot; [done|]. apply session_under_its_root.
  - destruct (local_preset s) as [local|]; [|by apply elem_of_nil in Hin].
    apply list_elem_of_singleton in Hin as ->. simpl. by destruct (build_driver_for_preset _ _ _).
  - apply list_elem_of_singleton in Hin as ->. done.
Qed.

(** A question that was cancelled or expired has no answer: the turn that waits
    for it waits at every resumption. *)
Lemma unanswered_ask_waits now fresh st p c s i :
  ask_turn_id s = rc_turn_id c → get_user_interaction (interactions p) (ask_interaction_id s) = Some i →
  answer_option_id i = None →
  select_provider now fresh st p (Some s) c
  = (p, Some s, keep_primary c [] None (Some (ask_interaction_id s))).
Proof. intros Ht Hi Ha. unfold plan_egress_routing, resume_ask. by rewrite Ht, String.eqb_refl, Hi, Ha. Qed.

(** After the local answer the turn's batch and the session's constraint are not
    looked at again, and the failover chain is whole. *)
Lemma local_answer_ignores_batch now fresh st p c state local d p' state' sel :
  answered_local p c state local → build_driver_for_preset build_driver c (cand_name local) = Some d →
  select_provider now fresh st p state c = (p', state', sel) →
  settled sel ∧ sel_fallback_chain sel = fallback_chain c ∧ effective_class sel = cand_egress_class local.
Proof.
  intros (s & i & -> & Ht & Hl & Hi & Ha) Hd. unfold plan_egress_routing, resume_ask.
  rewrite Ht, String.eqb_refl, Hi, Ha. simpl. rewrite Hl, Hd. by intros [= <- <- <-].
Qed.
End Promises.

(** ** A pinned remote preset, local-only data *)

Definition pin_context : string := ("{" ++ dq ++ "egress_pin_ask" ++ dq ++ ":true}")%string.
Definition demo_parse (s : string) : option Json :=
  if (s =? pin_context)%string then Some (json_object [("egress_pin_ask", JBool true)]) else None.
(** Every document prints as the marker: the examples only read that key. *)
Definition demo_print (_ : Json) : string := pin_context.
Definition demo_captures (_ _ : string) : list (list (option (nat * nat))) := [].

Definition preset_of (class : option EgressClass) : LlmPreset :=
  {| preset_routing := false; preset_provider := Some "p"; preset_model := Some "m"; preset_class := class |}.

Definition demo_call (session : string) : RoutingCall :=
  {| rc_batch := local_only; routed_preset := "cloud"; primary_class := Some ClassRemote;
     fallback_chain := [("cloud2", "p", "m"); ("house", "p", "m")]; rc_session_id := session;
     rc_turn_id := "turn-000001"; rc_constraint := None; primary_pinned := true; rc_agent_id := "coder";
     rc_presets := [("cloud", preset_of (Some ClassRemote)); ("cloud2", preset_of None);
                    ("house", preset_of (Some ClassLocal))] |}.

Definition demo_plane (db : InteractionDb) : EgressPlane :=
  {| interactions := db; declass := no_declassifications; labels := demo_db; offers := [] |}.

Definition demo_select (fresh : string) :=
  plan_egress_routing demo_parse demo_print demo_captures (λ _, None) (λ _, true) "t1" fresh demo_stamp.

Definition demo_filed := demo_select "ui-1" (demo_plane no_interactions) None (demo_call "r/a").

Definition demo_reply (option_id : string) (p : EgressPlane) : EgressPlane :=
  match answer_user_interaction demo_parse demo_print demo_captures "t2" demo_stamp (interactions p)
          {| ans_interaction_id := "ui-1"; ans_option_id := Some option_id; ans_text := None;
             ans_by := "operator" |} with
  | Ok db => match get_user_interaction db "ui-1" with
             | Some i => default p (apply_egress_ask_declassification demo_parse demo_print demo_stamp
                                      (p{{ interactions := db }}) i)
             | None => p
             end
  | Err _ => p
  end.

(** The three answers: the remote model, the local preset with every fallback of
    the chain, a refusal. *)
Example three_answers :
  let run o := let '(_, _, sel) := demo_select "ui-2" (demo_reply o demo_filed.1.1) demo_filed.1.2 (demo_call "r/a") in
               (primary_driver sel, map (λ f, f.1.1) (sel_fallback_chain sel), refuse_reason sel, pending_ask sel) in
  pending_ask demo_filed.2 = Some "ui-1"
  ∧ run DECLASSIFY = (None, ["cloud2"; "house"], None, None)
  ∧ run RUN_LOCAL = (Some "house", ["cloud2"; "house"], None, None)
  ∧ run ABORT = (None, [], Some (AbortedByOperator "cloud"), None).
Proof. vm_compute. done. Qed.

(** The question of one session of a tree is the question of all: a second
    session waits for the id of the first, and the row still names the first. *)
Example pin_ask_is_shared :
  let '(p, _, sel) := demo_select "ui-2" demo_filed.1.1 None (demo_call "r/b") in
  pending_ask sel = Some "ui-1"
  ∧ (ui_session_id <$> get_user_interaction (interactions p) "ui-1") = Some "r/a".
Proof. vm_compute. done. Qed.

(** An agent files a question of its own that carries the marker and an option
    of that name; the operator's harmless-looking answer opens the tree. *)
Example agent_files_a_pin_ask :
  let args := {| arg_kind := "decision"; arg_question := "Which summary do you prefer?";
                 arg_context := Some pin_context;
                 arg_options := [json_object [("id", JString DECLASSIFY); ("label", JString "The short one");
                                              ("value", JString "short")]];
                 arg_allow_freeform := false |} in
  match user_ask demo_parse demo_print demo_captures (λ _ _, "") "t0" "ui-1" demo_stamp no_interactions
          demo_env args with
  | Ok (db, AskSuspended _) =>
      let p := demo_reply DECLASSIFY (demo_plane db) in
      session_sink_declassified (λ _, None) (declass p) "r/c" "r" RemoteModel "t3" = true
      ∧ settled (demo_select "ui-2" p None (demo_call "r/c")).2
  | _ => False
  end.
Proof. vm_compute. done. Qed.

Lemma selection_is_cleared_witness :
  let '(_, _, sel) := demo_select "ui-2" (demo_reply RUN_LOCAL demo_filed.1.1) demo_filed.1.2 (demo_call "r/a") in
  cleared (demo_call "r/a") sel
  ∨ (rc_constraint (demo_call "r/a") = None
     ∧ remote_grant (λ _, None) "t1" (demo_reply RUN_LOCAL demo_filed.1.1) (demo_call "r/a"))
  ∨ ∃ local, answered_local (demo_reply RUN_LOCAL demo_filed.1.1) (demo_call "r/a") demo_filed.1.2 local
      ∧ primary_driver sel = Some (cand_name local) ∧ effective_class sel = cand_egress_class local.
Proof.
  pose proof (selection_is_cleared demo_parse demo_print demo_captures (λ _, None) (λ _, true) "t1" "ui-2"
    demo_stamp (demo_reply RUN_LOCAL demo_filed.1.1) demo_filed.1.2 (demo_call "r/a")) as H.
  assert (settled (demo_select "ui-2" (demo_reply RUN_LOCAL demo_filed.1.1) demo_filed.1.2
    (demo_call "r/a")).2) as Hs by (vm_compute; done).
  unfold demo_select in *. destruct (plan_egress_routing _ _ _ _ _ _ _ _ _ _ _) as [[p' s'] sel] eqn:E.
  apply (H p' s' sel); [|reflexivity|exact Hs]. apply (bool_decide_unpack _). reflexivity.
Defined.

Lemma triple_eta {A B C} (x : A * B * C) : x = (x.1.1, x.1.2, x.2).
Proof. by destruct x as [[]]. Qed.

Lemma offered_answer_settles_witness :
  ∃ s q, demo_filed.1.2 = Some s ∧ get_user_interaction (interactions demo_filed.1.1) "ui-1" = Some q
    ∧ pending_ask (demo_select "ui-2" (demo_reply RUN_LOCAL demo_filed.1.1) (Some s) (demo_call "r/a")).2 = None.
Proof.
  destruct (offered_answer_settles demo_parse demo_print demo_captures (λ _, None) (λ _, true) "t1" "ui-1"
    demo_stamp (demo_plane no_interactions) (demo_call "r/a") demo_filed.1.1 demo_filed.1.2 demo_filed.2 "ui-1"
    eq_refl (triple_eta _) eq_refl) as (s & q & Hs & Hq & H).
  exists s, q. split; [exact Hs|]. split; [exact Hq|].
  injection Hq as <-.
  apply (H RUN_LOCAL (demo_reply RUN_LOCAL demo_filed.1.1)
    (default (pin_ask demo_print "" "" "" "" "" "" local_only "" None BatchTaint)
       (get_user_interaction (interactions (demo_reply RUN_LOCAL demo_filed.1.1)) "ui-1")) demo_stamp); try reflexivity.
  - right. left.
  - discriminate.
Defined.

(** Not so for the second session that waits for a question of the first: the
    option was computed for the presets of the first.  The second knows no local
    preset, so the answer the row offered files a question again. *)
Example reused_answer_asks_again :
  let call := (demo_call "r/b"){{ rc_presets := [("cloud", preset_of (Some ClassRemote))] }} in
  let '(p, state, sel) := demo_select "ui-2" demo_filed.1.1 None call in
  pending_ask sel = Some "ui-1"
  ∧ pending_ask (demo_select "ui-3" (demo_reply RUN_LOCAL p) state call).2 = Some "ui-3".
Proof. vm_compute. done. Qed.
