(* ===== verification/InteractionAnswer.v ===== *)
(** * Answering a question and resuming what waits for it

    The model of [autonoetic-gateway/src/interaction_answer.rs] (which pending
    question an answer is for, its checks, the answer itself and what it sets in
    motion), of [resume_interaction_inner] in [execution.rs] with
    [verify_trigger_coherence] of [runtime/session_resume.rs], and of the sweep of
    [scheduler.rs] that resumes sessions whose answer came by another way.  It
    composes [Interactions], [EgressSelection], [Redaction], [Checkpoint] and
    [WorkflowStore].

    A turn that is spawned, an emergency stop, the entry in the session report and
    the nudges of the queue are effects, in order; whether the stop and the spawned
    turn succeed is the environment's.  The sweep spawns one resume per question; it
    is the sequence of them, each of which claims its question before it does
    anything else. *)

From Stdlib Require Import Ascii String ZArith Lia.
From stdpp Require Import prelude gmap strings list.
From coqutil Require Import Datatypes.RecordSetters.
From S2P Require Import Prelude RustStr Json NetworkSinks Redaction Egress LabelStore EgressLabeler EgressRouting ContentStore.
From S2P Require Import Llm LoopGuard Workflow WorkflowStore WorkflowInv Grants Checkpoint Timeline Interactions UserAsk Declassification EgressSelection.
Import DoubleBraceUpdate.

Open Scope string_scope.
Open Scope nat_scope.
Open Scope list_scope.

(** ** The gateway *)

Inductive GatewayEffect : Type :=
| RootStopped (root reason requested_by : string)
| ReportResolved (session agent_id id answer : string)
| SessionSpawned (agent_id session message : string) (workflow task : option string)
| RunnableProcessed
| QueueProcessed.

Record Gateway := {
  plane : EgressPlane;
  workflows : WorkflowDb;
  done : list GatewayEffect;
}.

Definition perform (w : Gateway) (e : GatewayEffect) : Gateway := w{{ done := done w ++ [e] }}.
Definition with_questions (w : Gateway) (db : InteractionDb) : Gateway :=
  w{{ plane := (plane w){{ EgressSelection.interactions := db }} }}.
Definition questions (w : Gateway) : InteractionDb := EgressSelection.interactions (plane w).

Record AnswerEnv := {
  orchestration_enabled : bool;
  store_present : bool;
  latest_checkpoint : string → option SessionCheckpoint;
  stop_succeeds : bool;
  report_opens : bool;
  spawn : string → result (option string) string;
}.

Record InteractionAnswerOutcome := {
  out_interaction_id : string;
  out_session_id : option string;
  out_root_session_id : option string;
  answer_applied : bool;
  resumed : bool;
  workflow_task_unblocked : bool;
  ambiguous : bool;
  ambiguous_candidates : list string;
  assistant_reply : option string;
}.

Record InteractionAnswerParams := {
  p_interaction_id : string;
  p_answer_text : option string;
  p_answer_option_id : option string;
  p_answered_by : option string;
  p_follow_up_message : option string;
}.

Record InteractionResolveAndAnswerParams := {
  r_interaction_id : option string;
  r_reply_to : option string;
  r_root_session_id : option string;
  r_answer : InteractionAnswerParams;
}.

(** ** Coherence of a resume with the checkpoint *)

Inductive ResumeTrigger : Type :=
| ApprovalResolved (request_id : string)
| InteractionAnswered (id : string)
| Manual (session : string).

Inductive TriggerIncoherence : Type :=
| InteractionMismatch (expected got : string)
| ApprovalMismatch (expected got : string)
| WaitingForApproval (request_id : string)
| WrongYieldReason (got : YieldReason)
| StoppedSession.

Definition verify_trigger_coherence (trigger : ResumeTrigger) (y : YieldReason)
    : result unit TriggerIncoherence :=
  match y, trigger with
  | EmergencyStop _, _ => Err StoppedSession
  | _, Manual _ => Ok tt
  | UserInputRequired cid, InteractionAnswered id =>
      if (cid =? id)%string then Ok tt else Err (InteractionMismatch cid id)
  | ApprovalRequired rid, InteractionAnswered _ => Err (WaitingForApproval rid)
  | ApprovalRequired rid, ApprovalResolved id =>
      if (rid =? id)%string then Ok tt else Err (ApprovalMismatch rid id)
  | other, _ => Err (WrongYieldReason other)
  end.

Inductive ResumeError : Type :=
| ResumeUnknown (id : string)
| NotAnswered (status : UserInteractionStatus)
| ResumeTerminal (wf : string)
| AlreadyClaimed (id : string)
| ClaimFault (e : InteractionError)
| Incoherent (why : TriggerIncoherence)
| SpawnFailed (e : string).

Inductive AnswerError : Type :=
| OrchestrationDisabled | NotExactlyOne | NoGatewayStore
| QuestionMissing (id : string) | NoFreeform (id : string) | SecretRefused
| AnswerFault (e : InteractionError) | GrantFault | UnexpectedStatus
| StopFailed | WorkflowEnded (wf : string) | WorkflowFault (e : WorkflowError)
| ResumeFailed (e : ResumeError)
| NoTarget | NothingPending (root : string).

(** [as_deref().map(str::trim).filter(|s| !s.is_empty())]. *)
Definition trimmed (o : option string) : option string :=
  s ← o; if str_is_empty (trim s) then None else Some (trim s).

Section Answering.
Context (parse_json : string → option Json) (json_to_string : Json → string).
Context (captures_iter : string → string → list (list (option (nat * nat)))).
Context (extract_reply_json_value : string → option Json) (artifact_refs_of : string → list string).

(** ** Resuming *)

Definition resume_message_default : string :=
  "[operator] User answered the pending question via gateway interactions.".

(** The resume claim is released by whoever failed to resume. *)
Definition release_claim (w : Gateway) (id : string) : Gateway :=
  match release_answered_standalone_interaction_resume_claim (questions w) id with
  | Ok db => with_questions w db
  | Err _ => w
  end.

Definition checkpoint_refuses (env : AnswerEnv) (i : UserInteraction) : option TriggerIncoherence :=
  cp ← latest_checkpoint env (ui_session_id i);
  match verify_trigger_coherence (InteractionAnswered (interaction_id i)) (yield_reason cp) with
  | Ok _ => None
  | Err why => Some why
  end.

Definition ended_workflow (w : Gateway) (i : UserInteraction) : option string :=
  wf ← ui_workflow_id i; if is_workflow_terminal (workflows w) wf then Some wf else None.

(** [resume_interaction_inner]. *)
Definition resume_interaction (now : string) (env : AnswerEnv) (w : Gateway) (id : string)
    (follow_up : option string) : Gateway * result (option string) ResumeError :=
  match get_user_interaction (questions w) id with
  | None => (w, Err (ResumeUnknown id))
  | Some i =>
      if negb (bool_decide (ui_status i = IAnswered)) then (w, Err (NotAnswered (ui_status i)))
      else match ended_workflow w i with
      | Some wf => (w, Err (ResumeTerminal wf))
      | None =>
          match try_claim_answered_standalone_interaction_resume now (questions w) id with
          | Err e => (w, Err (ClaimFault e))
          | Ok (db, false) => (with_questions w db, Err (AlreadyClaimed id))
          | Ok (db, true) =>
              let w := with_questions w db in
              match checkpoint_refuses env i with
              | Some why => (w, Err (Incoherent why))
              | None =>
                  let w := perform w (SessionSpawned (ui_agent_id i) (ui_session_id i)
                             (default resume_message_default follow_up) (ui_workflow_id i) (ui_task_id i)) in
                  match spawn env (ui_session_id i) with
                  | Ok reply => (w, Ok reply)
                  | Err e => (release_claim w id, Err (SpawnFailed e))
                  end
              end
          end
      end
  end.

Definition sweep_message : string :=
  "[scheduler] User answered the pending question; resuming from gateway tick.".

(** [resume_answered_standalone_interactions]. *)
Definition resume_answered_standalone_interactions (now : string) (env : AnswerEnv) (w : Gateway)
    : Gateway :=
  fold_left (λ w i, (resume_interaction now env w (interaction_id i) (Some sweep_message)).1)
    (get_answered_standalone_interactions (questions w)) w.

(** ** The checks of an answer *)

Definition validate_answer_payload (p : InteractionAnswerParams) : bool :=
  xorb (bool_decide (is_Some (trimmed (p_answer_text p))))
       (bool_decide (is_Some (trimmed (p_answer_option_id p)))).

Definition validate_answer_allows_freeform (db : InteractionDb) (p : InteractionAnswerParams)
    : result unit AnswerError :=
  match trimmed (p_answer_text p) with
  | None => Ok tt
  | Some _ =>
      match get_user_interaction db (p_interaction_id p) with
      | None => Err (QuestionMissing (p_interaction_id p))
      | Some i => if allow_freeform i then Ok tt else Err (NoFreeform (p_interaction_id p))
      end
  end.

Definition validate_nonsecret_answer_payload (p : InteractionAnswerParams) : bool :=
  match p_answer_text p with
  | Some text => negb (looks_like_secret_value captures_iter text)
  | None => true
  end.

Definition is_divergence_sentinel (i : UserInteraction) : bool :=
  bool_decide (ui_kind i = DivergenceSentinel).

Definition is_critical_divergence_stop_selection (i : UserInteraction) : bool :=
  is_divergence_sentinel i && bool_decide (answer_option_id i = Some "stop").

(** ** The answer *)

Definition outcome_of (i : UserInteraction) (applied resumed unblocked : bool)
    (reply : option string) : InteractionAnswerOutcome :=
  {| out_interaction_id := interaction_id i; out_session_id := Some (ui_session_id i);
     out_root_session_id := Some (ui_root_session_id i); answer_applied := applied;
     resumed := resumed; workflow_task_unblocked := unblocked; ambiguous := false;
     ambiguous_candidates := []; assistant_reply := reply |}.

Definition answer_of (p : InteractionAnswerParams) : UserInteractionAnswer :=
  {| ans_interaction_id := p_interaction_id p; ans_option_id := p_answer_option_id p;
     ans_text := p_answer_text p; ans_by := default "gateway" (p_answered_by p) |}.

(** The answer in the store, the grant of an egress question and the entry of the
    report. *)
Definition store_answer (now : string) (st : Stamp) (env : AnswerEnv) (w : Gateway)
    (p : InteractionAnswerParams) : Gateway * result UserInteraction AnswerError :=
  match answer_user_interaction parse_json json_to_string captures_iter now st (questions w) (answer_of p) with
  | Err e => (w, Err (AnswerFault e))
  | Ok db =>
      let w := with_questions w db in
      match get_user_interaction db (p_interaction_id p) with
      | None => (w, Err (QuestionMissing (p_interaction_id p)))
      | Some i =>
          match apply_egress_ask_declassification parse_json json_to_string st (plane w) i with
          | None => (w, Err GrantFault)
          | Some pl =>
              let w := w{{ plane := pl }} in
              let w := if report_opens env
                       then perform w (ReportResolved (ui_session_id i) (ui_agent_id i) (p_interaction_id p)
                              (match p_answer_text p with
                               | Some t => t
                               | None => default "—" (p_answer_option_id p)
                               end))
                       else w in
              (w, if bool_decide (ui_status i = IAnswered) then Ok i else Err UnexpectedStatus)
          end
      end
  end.

(** A task that waits for its children is not waiting for the answer. *)
Definition waits_for_answer (db : WorkflowDb) (wf tid : string) : option TaskRun :=
  t ← load_task_run db wf tid;
  if bool_decide (task_status t = TPaused)
     && negb (match checkpoints db !! (wf, tid) with
              | Some cp => (cp_step cp =? child_wait_step)%string
              | None => false
              end)
  then Some t else None.

Definition answered_state (id : string) : Json :=
  json_object [("interaction_id", JString id); ("status", JString "answered")].

Definition wake_answered_task (now : string) (db : WorkflowDb) (wf tid : string) (t : TaskRun)
    (follow : option string) (id : string) : WorkflowDb * result unit WorkflowError :=
  let t := match follow with Some fu => t{{ message := Some fu }} | None => t end in
  match save_task_run now db (t{{ task_updated_at := now }}) with
  | (db, Err e) => (db, Err e)
  | (db, Ok _) =>
      match update_task_run_status extract_reply_json_value artifact_refs_of now None db wf tid TRunnable
              (Some "user interaction answered; resuming task") with
      | (db, Err e) => (db, Err e)
      | (db, Ok _) => (checkpoint_task db wf tid "user_interaction_answered" (answered_state id), Ok tt)
      end
  end.

Definition default_follow : string :=
  "[operator] User answered the pending question via interaction.answer.".

(** What an answer that is stored sets in motion. *)
Definition orchestrate (now : string) (env : AnswerEnv) (w : Gateway) (p : InteractionAnswerParams)
    (i : UserInteraction) : Gateway * result InteractionAnswerOutcome AnswerError :=
  if is_critical_divergence_stop_selection i then
    let reason := ("Operator selected stop on critical trajectory divergence interaction "
                   ++ interaction_id i ++ " for agent " ++ ui_agent_id i)%string in
    (perform w (RootStopped (ui_root_session_id i) reason (default "gateway" (p_answered_by p))),
     if stop_succeeds env then Ok (outcome_of i true false false None) else Err StopFailed)
  else if is_divergence_sentinel i then
    (match try_claim_answered_standalone_interaction_resume now (questions w) (p_interaction_id p) with
     | Ok (db, _) => with_questions w db
     | Err _ => w
     end, Ok (outcome_of i true false false None))
  else
    let follow := trimmed (p_follow_up_message p) in
    match ui_workflow_id i, ui_task_id i with
    | Some wf, Some tid =>
        if is_workflow_terminal (workflows w) wf then (w, Err (WorkflowEnded wf))
        else match waits_for_answer (workflows w) wf tid with
        | None => (perform w QueueProcessed, Ok (outcome_of i true false false None))
        | Some t =>
            match wake_answered_task now (workflows w) wf tid t follow (interaction_id i) with
            | (db, Err e) => (w{{ workflows := db }}, Err (WorkflowFault e))
            | (db, Ok _) => (perform (perform (w{{ workflows := db }}) RunnableProcessed) QueueProcessed,
                             Ok (outcome_of i true true true None))
            end
        end
    | _, _ =>
        match resume_interaction now env w (p_interaction_id p)
                (Some (default default_follow follow)) with
        | (w, Err e) => (release_claim w (p_interaction_id p), Err (ResumeFailed e))
        | (w, Ok reply) => (perform w QueueProcessed, Ok (outcome_of i true true false reply))
        end
    end.

Definition answer_and_orchestrate_resume (now : string) (st : Stamp) (env : AnswerEnv) (w : Gateway)
    (p : InteractionAnswerParams) : Gateway * result InteractionAnswerOutcome AnswerError :=
  if negb (orchestration_enabled env) then (w, Err OrchestrationDisabled)
  else if negb (validate_answer_payload p) then (w, Err NotExactlyOne)
  else if negb (store_present env) then (w, Err NoGatewayStore)
  else match validate_answer_allows_freeform (questions w) p with
  | Err e => (w, Err e)
  | Ok _ =>
      if negb (validate_nonsecret_answer_payload p) then (w, Err SecretRefused)
      else
        let fresh := match store_answer now st env w p with
                     | (w, Err e) => (w, Err e)
                     | (w, Ok i) => orchestrate now env w p i
                     end in
        match get_user_interaction (questions w) (p_interaction_id p) with
        | Some existing =>
            if bool_decide (ui_status existing = IAnswered)
            then (w, Ok (outcome_of existing false false false None)) else fresh
        | None => fresh
        end
  end.

(** ** Which question is meant *)

(** The inner result: the question, or the candidates to choose from. *)
Definition resolve_interaction_id (db : InteractionDb) (p : InteractionResolveAndAnswerParams)
    : result (result string (list string)) AnswerError :=
  match trimmed (r_interaction_id p), trimmed (r_reply_to p), trimmed (r_root_session_id p) with
  | Some id, _, _ => Ok (Ok id)
  | None, Some id, _ => Ok (Ok id)
  | None, None, None => Err NoTarget
  | None, None, Some root =>
      match get_pending_interactions_for_root_session db root with
      | [] => Err (NothingPending root)
      | [i] => Ok (Ok (interaction_id i))
      | l => Ok (Err (map interaction_id l))
      end
  end.

Definition resolve_and_answer (now : string) (st : Stamp) (env : AnswerEnv) (w : Gateway)
    (p : InteractionResolveAndAnswerParams) : Gateway * result InteractionAnswerOutcome AnswerError :=
  if negb (store_present env) then (w, Err NoGatewayStore)
  else match resolve_interaction_id (questions w) p with
  | Err e => (w, Err e)
  | Ok (Ok id) =>
      answer_and_orchestrate_resume now st env w
        {| p_interaction_id := id; p_answer_text := p_answer_text (r_answer p);
           p_answer_option_id := p_answer_option_id (r_answer p); p_answered_by := p_answered_by (r_answer p);
           p_follow_up_message := p_follow_up_message (r_answer p) |}
  | Ok (Err candidates) =>
      (w, Ok {| out_interaction_id := ""; out_session_id := None; out_root_session_id := None;
                answer_applied := false; resumed := false; workflow_task_unblocked := false;
                ambiguous := true; ambiguous_candidates := candidates; assistant_reply := None |})
  end.
End Answering.

(** ** The answer in the store *)

Lemma session_pattern_is_bound root : source_pattern_is_bound ("session:" ++ root)%string = true.
Proof.
  unfold source_pattern_is_bound, trim.
  change (trim_start_by is_whitespace ("session:" ++ root)%string) with ("session:" ++ root)%string.
  destruct (trim_end_by_spec is_whitespace ("session:" ++ root)%string) as (t & Ht & Hw).
  destruct (trim_end_by _ _) as [|c u]; [cbn in Ht; by subst t|]. by injection Ht as <- _.
Qed.

Section Answers.
Context (parse_json : string → option Json) (json_to_string : Json → string).
Context (captures_iter : string → string → list (list (option (nat * nat)))).
Context (extract_reply_json_value : string → option Json) (artifact_refs_of : string → list string).

Notation answer_call :=
  (answer_and_orchestrate_resume parse_json json_to_string captures_iter extract_reply_json_value
     artifact_refs_of).
Notation orchestrate_call := (orchestrate extract_reply_json_value artifact_refs_of).
Notation store_call := (store_answer parse_json json_to_string captures_iter).
Notation apply_grant := (apply_egress_ask_declassification parse_json json_to_string).

Lemma apply_total st pl i : is_Some (apply_grant st pl i).
Proof.
  unfold apply_egress_ask_declassification. destruct (_ || _); [by eexists|].
  unfold insert_grant. cbn [dg_target].
  assert (∀ root, target_is_bound (session_egress_declass_target root) = true) as ->
    by (intros root; apply session_pattern_is_bound).
  cbn [negb]. by destruct (existsb _ _); eexists.
Qed.

Definition is_spawn (e : GatewayEffect) : bool :=
  match e with SessionSpawned _ _ _ _ _ => true | _ => false end.
Definition spawned (w : Gateway) : list GatewayEffect := List.filter is_spawn (done w).

Lemma spawned_perform w e : spawned (perform w e) = spawned w ++ (if is_spawn e then [e] else []).
Proof. unfold spawned. change (done (perform w e)) with (done w ++ [e]). rewrite List.filter_app. simpl. by destruct (is_spawn e). Qed.

(** An answer the question admits is stored, and nothing is spawned for it yet. *)
Lemma store_answer_ok now st env w p r :
  str_is_empty (trim (p_interaction_id p)) = false →
  find_row (questions w) (p_interaction_id p) = Some r → ui_status (interaction r) = IPending →
  check_answer (interaction r) (answer_of p) = Ok tt →
  ∃ w', store_call now st env w p = (w', Ok (answered now (answer_of p) (interaction r)))
    ∧ find_row (questions w') (p_interaction_id p) = Some (on_interaction (answered now (answer_of p)) r)
    ∧ workflows w' = workflows w ∧ spawned w' = spawned w.
Proof.
  intros Hid Hr Hst Hck. unfold store_answer, answer_user_interaction.
  change (ans_interaction_id (answer_of p)) with (p_interaction_id p). rewrite Hid.
  unfold get_user_interaction at 1. rewrite Hr. cbn [fmap option_fmap option_map].
  rewrite bool_decide_eq_true_2 by done. cbn [negb]. rewrite Hck.
  match goal with |- context [with_questions w ?x] => set (db := x) end.
  assert (find_row db (p_interaction_id p) = Some (on_interaction (answered now (answer_of p)) r)) as Hf.
  { subst db. rewrite (find_row_rows _ _ _ (resolution_rows _ _ _ _ _ _ _ _ _ _)), find_row_update by done.
    rewrite Hr. simpl. rewrite String.eqb_refl. unfold is_status. by rewrite bool_decide_eq_true_2. }
  unfold get_user_interaction. rewrite Hf. cbn [fmap option_fmap option_map].
  destruct (apply_total st (plane (with_questions w db)) (answered now (answer_of p) (interaction r))) as [pl Hpl].
  change (interaction (on_interaction (answered now (answer_of p)) r)) with (answered now (answer_of p) (interaction r)).
  rewrite Hpl. rewrite bool_decide_eq_true_2 by done. eexists. split; [reflexivity|].
  pose proof (apply_keeps_interactions _ _ _ _ _ _ Hpl) as Hq.
  assert (∀ w0, plane w0 = pl → find_row (questions w0) (p_interaction_id p)
    = Some (on_interaction (answered now (answer_of p)) r)) as Hw.
  { intros w0 E. unfold questions. rewrite E, Hq. exact Hf. }
  destruct (report_opens env); (split_and!; [by apply Hw|done|]); [|done].
  rewrite spawned_perform. by rewrite app_nil_r.
Qed.

Lemma claim_row now db id r :
  str_is_empty (trim id) = false → find_row db id = Some r →
  ∃ db', try_claim_answered_standalone_interaction_resume now db id = Ok (db', claimable r)
    ∧ find_row db' id = Some (if claimable r then {| interaction := interaction r; resumed_at := Some now |} else r).
Proof.
  intros Hid Hr. unfold try_claim_answered_standalone_interaction_resume. rewrite Hid, Hr. eexists.
  split; [reflexivity|]. rewrite find_row_update, Hr by done. simpl. by rewrite String.eqb_refl.
Qed.

Lemma get_of_row db id r : find_row db id = Some r → get_user_interaction db id = Some (interaction r).
Proof. unfold get_user_interaction. by intros ->. Qed.

(** A resume that finds its answer unclaimed, and the checkpoint waiting for it. *)
Lemma resume_ok now env w id r f reply :
  str_is_empty (trim id) = false → find_row (questions w) id = Some r →
  ui_status (interaction r) = IAnswered → claimable r = true →
  ended_workflow w (interaction r) = None → checkpoint_refuses env (interaction r) = None →
  spawn env (ui_session_id (interaction r)) = Ok reply →
  ∃ w', resume_interaction now env w id f = (w', Ok reply)
    ∧ find_row (questions w') id = Some {| interaction := interaction r; resumed_at := Some now |}
    ∧ spawned w' = spawned w ++ [SessionSpawned (ui_agent_id (interaction r)) (ui_session_id (interaction r))
        (default resume_message_default f) (ui_workflow_id (interaction r)) (ui_task_id (interaction r))].
Proof.
  intros Hid Hr Hst Hc He Hcp Hsp. unfold resume_interaction. rewrite (get_of_row _ _ _ Hr).
  rewrite bool_decide_eq_true_2 by done. cbn [negb]. rewrite He.
  destruct (claim_row now _ _ _ Hid Hr) as (db & -> & Hf). rewrite Hc in Hf |- *. rewrite Hcp, Hsp.
  eexists. split; [reflexivity|]. split; [exact Hf|]. by rewrite spawned_perform.
Qed.

(** A claimed answer is not resumed again. *)
Lemma claimed_not_resumed now env w id r f :
  find_row (questions w) id = Some r → resumed_at r ≠ None →
  ∃ e, (resume_interaction now env w id f).2 = Err e ∧ spawned (resume_interaction now env w id f).1 = spawned w.
Proof.
  intros Hr Hre. unfold resume_interaction. rewrite (get_of_row _ _ _ Hr).
  destruct (negb _); [by eexists|]. destruct (ended_workflow _ _); [by eexists|].
  unfold try_claim_answered_standalone_interaction_resume. destruct (str_is_empty _); [by eexists|].
  rewrite Hr. simpl. unfold claimable. rewrite (bool_decide_eq_false_2 (resumed_at r = None)) by done.
  rewrite andb_false_r. by eexists.
Qed.

Lemma checked_payload i p :
  check_answer i (answer_of p) = Ok tt →
  validate_answer_payload p = true ∧ (trimmed (p_answer_text p) ≠ None → allow_freeform i = true).
Proof.
  unfold check_answer, validate_answer_payload, given_option, given_text, trimmed, nonblank. simpl.
  destruct (p_answer_option_id p) as [o|], (p_answer_text p) as [t|]; simpl; try destruct (str_is_empty (trim o));
    try destruct (str_is_empty (trim t)); simpl; try done; destruct (allow_freeform i); done.
Qed.

(** What a call does with a question that waits for it. *)
Lemma answer_call_pending now st env w p r :
  orchestration_enabled env = true → store_present env = true →
  find_row (questions w) (p_interaction_id p) = Some r → ui_status (interaction r) = IPending →
  check_answer (interaction r) (answer_of p) = Ok tt →
  validate_nonsecret_answer_payload captures_iter p = true →
  answer_call now st env w p
  = match store_call now st env w p with
    | (w, Err e) => (w, Err e)
    | (w, Ok i) => orchestrate_call now env w p i
    end.
Proof.
  intros He Hs Hr Hst Hck Hsec. unfold answer_and_orchestrate_resume.
  destruct (checked_payload _ _ Hck) as [-> Hfree]. rewrite He, Hs. cbn [negb].
  unfold validate_answer_allows_freeform. rewrite !(get_of_row _ _ _ Hr).
  rewrite (bool_decide_eq_false_2 (ui_status (interaction r) = IAnswered)) by (by rewrite Hst).
  destruct (trimmed (p_answer_text p)); [rewrite Hfree by done|]; by rewrite Hsec.
Qed.

(** A duplicate delivery: nothing is done, and a well-formed one is told so. *)
Lemma answered_call_is_inert now st env w p r :
  find_row (questions w) (p_interaction_id p) = Some r → ui_status (interaction r) = IAnswered →
  (answer_call now st env w p).1 = w.
Proof.
  intros Hr Hst. unfold answer_and_orchestrate_resume. repeat (destruct (negb _); [done|]).
  destruct (validate_answer_allows_freeform _ _); [|done]. destruct (negb _); [done|].
  rewrite (get_of_row _ _ _ Hr). by rewrite bool_decide_eq_true_2.
Qed.

Definition sentinel_free (i : UserInteraction) : Prop := ui_kind i ≠ DivergenceSentinel.

(** C29: An answer that a pending, unresumed question of no workflow admits (not one of
    the divergence sentinel, nor a secret) resumes its session, on a gateway that
    orchestrates and has a store, when the session has no checkpoint or its latest
    one waits for this very answer, and the spawned turn succeeds: the row holds the
    answer and the claim, the session is spawned once, with the follow-up.  From
    the state the call leaves, no later delivery of an answer changes anything, and
    no later resume of that question spawns anything. *)
Theorem standalone_answer_resumes_once now st env w p r reply :
  let id := p_interaction_id p in
  let i := answered now (answer_of p) (interaction r) in
  orchestration_enabled env = true → store_present env = true → str_is_empty (trim id) = false →
  find_row (questions w) id = Some r → ui_status (interaction r) = IPending → resumed_at r = None →
  sentinel_free (interaction r) → ui_workflow_id (interaction r) = None →
  check_answer (interaction r) (answer_of p) = Ok tt →
  validate_nonsecret_answer_payload captures_iter p = true →
  checkpoint_refuses env i = None → spawn env (ui_session_id i) = Ok reply →
  ∃ w', answer_call now st env w p = (w', Ok (outcome_of i true true false reply))
    ∧ find_row (questions w') id = Some {| interaction := i; resumed_at := Some now |}
    ∧ spawned w' = spawned w ++ [SessionSpawned (ui_agent_id i) (ui_session_id i)
        (default default_follow (trimmed (p_follow_up_message p))) None (ui_task_id i)]
    ∧ (∀ now2 st2 env2 p2, p_interaction_id p2 = id → (answer_call now2 st2 env2 w' p2).1 = w')
    ∧ ∀ now2 env2 f, ∃ e, (resume_interaction now2 env2 w' id f).2 = Err e
        ∧ spawned (resume_interaction now2 env2 w' id f).1 = spawned w'.
Proof.
  intros id i He Hs Hid Hr Hst Hre Hk Hwf Hck Hsec Hcp Hsp.
  rewrite (answer_call_pending now st env w p r) by done.
  destruct (store_answer_ok now st env w p r) as (w1 & -> & Hr1 & Hw1 & Hsp1); [done..|].
  change (answered now (answer_of p) (interaction r)) with i. unfold orchestrate.
  assert (is_divergence_sentinel i = false) as Hds by by apply bool_decide_eq_false_2.
  unfold is_critical_divergence_stop_selection. rewrite Hds. cbn [andb].
  change (ui_workflow_id i) with (ui_workflow_id (interaction r)). rewrite Hwf.
  set (r1 := on_interaction (answered now (answer_of p)) r) in *.
  assert (ui_workflow_id (interaction r1) = None ∧ resumed_at r1 = None ∧ ui_status (interaction r1) = IAnswered)
    as (Hwi & Hri & Hsi) by by split_and!.
  destruct (resume_ok now env w1 id r1
    (Some (default default_follow (trimmed (p_follow_up_message p)))) reply) as (w2 & E2 & Hr2 & Hsp2); try done.
  { unfold claimable, standalone, is_status. by rewrite Hwi, Hri, Hsi. }
  { unfold ended_workflow. by rewrite Hwi. }
  unfold id in E2. rewrite E2. eexists. split; [reflexivity|].
  assert (find_row (questions (perform w2 QueueProcessed)) id = Some {| interaction := i; resumed_at := Some now |})
    as Hr3 by exact Hr2.
  split; [exact Hr3|]. split; [|split].
  - by rewrite spawned_perform, Hsp2, Hsp1, Hwi, app_nil_r.
  - intros now2 st2 env2 p2 <-. eapply answered_call_is_inert; [exact Hr3|done].
  - intros now2 env2 f. by eapply claimed_not_resumed.
Qed.

(** ** Tasks *)

Lemma waits_for_answer_some db wf tid t :
  waits_for_answer db wf tid = Some t → load_task_run db wf tid = Some t ∧ task_status t = TPaused.
Proof.
  unfold waits_for_answer. destruct (load_task_run db wf tid) as [t0|]; [|done]. simpl.
  destruct (bool_decide (task_status t0 = TPaused)) eqn:E; [|done]. apply bool_decide_eq_true in E.
  destruct (negb _); [|done]. by intros [= <-].
Qed.

(** Waking the task changes it alone: it is runnable, with the follow-up as its
    message if there is one. *)
Lemma wake_answered_task_ok now db wf tid t follow id :
  well_keyed db → is_Some (load_workflow_run db wf) → waits_for_answer db wf tid = Some t →
  ∃ db' t' cp, wake_answered_task extract_reply_json_value artifact_refs_of now db wf tid t follow id = (db', Ok tt)
    ∧ tasks db' = <[(wf, tid) := t']> (tasks db) ∧ task_status t' = TRunnable
    ∧ message t' = (match follow with Some fu => Some fu | None => message t end)
    ∧ checkpoints db' !! (wf, tid) = Some cp ∧ cp_step cp = "user_interaction_answered".
Proof.
  intros Hk [run Hrun] [Hl Hp]%waits_for_answer_some. destruct (load_task_key _ _ _ _ Hk Hl) as [Hw Hi].
  unfold wake_answered_task.
  set (t0 := match follow with Some fu => t{{ message := Some fu }} | None => t end).
  set (t1 := t0{{ task_updated_at := now }}).
  assert (task_workflow_id t1 = wf ∧ task_id t1 = tid ∧ task_status t1 = TPaused
    ∧ message t1 = match follow with Some fu => Some fu | None => message t end) as (H1 & H2 & H3 & H4)
    by by destruct follow.
  assert (task_key t1 = (wf, tid)) as Hkey by (unfold task_key; by rewrite H1, H2).
  rewrite (save_task_run_ok now db t1 run) by by rewrite H1.
  set (db1 := save_workflow_run _ _).
  assert (well_keyed db1) as Hk1 by by apply well_keyed_save_run, well_keyed_upsert.
  assert (tasks db1 = <[(wf, tid) := t1]> (tasks db)) as Ht1 by by rewrite <-Hkey.
  assert (load_task_run db1 wf tid = Some t1) as Hl1.
  { unfold load_task_run. rewrite Ht1. apply lookup_insert_eq. }
  assert (is_Some (load_workflow_run db1 wf)) as Hr1 by by apply kt_save_run; exists run.
  clearbody db1.
  destruct (update_tasks extract_reply_json_value artifact_refs_of now None db1 wf tid TRunnable
    (Some "user interaction answered; resuming task") t1) as (db2 & T2 & C2 & _ & _ & _ & _ & ->);
    [done|done|done|by rewrite H3|].
  change (is_terminal_for_join TRunnable) with false. cbv iota.
  eexists (checkpoint_task db2 wf tid _ _), _, _. split; [reflexivity|].
  change (tasks (checkpoint_task db2 wf tid "user_interaction_answered" (answered_state id))) with (tasks db2).
  rewrite T2, Ht1. split; [apply insert_insert_eq|]. split_and!.
  - unfold updated_task. by destruct (failure _).
  - unfold updated_task. rewrite <-H4. by destruct (failure _).
  - unfold checkpoint_task. apply lookup_insert_eq.
  - done.
Qed.

(** C30: The answer to a question a task of a live workflow waits for (not one of the
    divergence sentinel) makes that very task runnable, changes no other task,
    spawns nothing and takes no claim. *)
Theorem bound_answer_wakes_task now st env w p r wf tid t :
  let id := p_interaction_id p in
  let i := answered now (answer_of p) (interaction r) in
  orchestration_enabled env = true → store_present env = true → str_is_empty (trim id) = false →
  find_row (questions w) id = Some r → ui_status (interaction r) = IPending →
  sentinel_free (interaction r) → ui_workflow_id (interaction r) = Some wf →
  ui_task_id (interaction r) = Some tid →
  check_answer (interaction r) (answer_of p) = Ok tt →
  validate_nonsecret_answer_payload captures_iter p = true →
  well_keyed (workflows w) → is_Some (load_workflow_run (workflows w) wf) →
  is_workflow_terminal (workflows w) wf = false → waits_for_answer (workflows w) wf tid = Some t →
  ∃ w' t' cp, answer_call now st env w p = (w', Ok (outcome_of i true true true None))
    ∧ find_row (questions w') id = Some (on_interaction (answered now (answer_of p)) r)
    ∧ tasks (workflows w') = <[(wf, tid) := t']> (tasks (workflows w))
    ∧ task_status t' = TRunnable
    ∧ message t' = (match trimmed (p_follow_up_message p) with Some fu => Some fu | None => message t end)
    ∧ checkpoints (workflows w') !! (wf, tid) = Some cp ∧ cp_step cp = "user_interaction_answered"
    ∧ spawned w' = spawned w.
Proof.
  intros id i He Hs Hid Hr Hst Hk Hwf Htid Hck Hsec Hkey Hrun Hterm Hwait.
  rewrite (answer_call_pending now st env w p r) by done.
  destruct (store_answer_ok now st env w p r) as (w1 & -> & Hr1 & Hw1 & Hsp1); [done..|].
  change (answered now (answer_of p) (interaction r)) with i. unfold orchestrate.
  assert (is_divergence_sentinel i = false) as Hds by by apply bool_decide_eq_false_2.
  unfold is_critical_divergence_stop_selection. rewrite Hds. cbn [andb].
  assert (ui_workflow_id i = Some wf ∧ ui_task_id i = Some tid) as [-> ->] by done.
  rewrite Hw1, Hterm, Hwait.
  destruct (wake_answered_task_ok now (workflows w) wf tid t (trimmed (p_follow_up_message p)) (interaction_id i))
    as (db & t' & cp & -> & HT & Hrn & Hm & Hcp & Hstep); [done..|].
  eexists _, t', cp. split; [reflexivity|]. split_and!; try done.
  by rewrite !spawned_perform, !app_nil_r.
Qed.

(** ** Errors *)

Definition is_recorded (w : Gateway) (id : string) (i : UserInteraction) : Prop :=
  get_user_interaction (questions w) id = Some i.

(** The question that waited in [w], with the answer of the call. *)
Definition answered_by_call (now : string) (w : Gateway) (p : InteractionAnswerParams)
    (i : UserInteraction) : Prop :=
  ∃ q, get_user_interaction (questions w) (p_interaction_id p) = Some q ∧ ui_status q = IPending
    ∧ check_answer q (answer_of p) = Ok tt ∧ i = answered now (answer_of p) q.

Lemma store_answer_cases now st env w p :
  (∃ e, store_call now st env w p = (w, Err (AnswerFault e))) ∨
  ∃ w' i, store_call now st env w p = (w', Ok i) ∧ is_recorded w' (p_interaction_id p) i
    ∧ answered_by_call now w p i.
Proof.
  destruct (answer_user_interaction parse_json json_to_string captures_iter now st (questions w) (answer_of p))
    as [db|e] eqn:E; [right|left; exists e; unfold store_answer; by rewrite E].
  unfold answer_user_interaction in E. change (ans_interaction_id (answer_of p)) with (p_interaction_id p) in E.
  destruct (str_is_empty _) eqn:Hid; [done|]. unfold get_user_interaction in E.
  destruct (find_row (questions w) _) as [r|] eqn:Hr; [|done]. cbn [fmap option_fmap option_map] in E.
  destruct (bool_decide (ui_status (interaction r) = IPending)) eqn:Hst; [|done].
  apply bool_decide_eq_true in Hst. cbn [negb] in E. destruct (check_answer (interaction r) _) as [[]|] eqn:Hck; [|done].
  destruct (store_answer_ok now st env w p r) as (w' & -> & Hr' & _ & _); [done..|].
  eexists w', _. split; [reflexivity|]. split; [by apply get_of_row in Hr'|].
  exists (interaction r). by rewrite (get_of_row _ _ _ Hr).
Qed.

Lemma recorded_update w w' id p f i :
  rows (questions w') = rows (update_rows (questions w) id p f) →
  (∀ r, interaction (f r) = interaction r) → is_recorded w id i → is_recorded w' id i.
Proof.
  intros Hq Hf Hi. unfold is_recorded, get_user_interaction in *.
  rewrite (find_row_rows _ _ _ Hq), find_row_update by (intros r; unfold row_id; by rewrite Hf).
  destruct (find_row (questions w) id) as [r|]; [|done]. injection Hi as <-. simpl.
  rewrite String.eqb_refl. simpl. destruct (p r); simpl; by rewrite ?Hf.
Qed.

Lemma release_recorded w id i : is_recorded w id i → is_recorded (release_claim w id) id i.
Proof.
  unfold release_claim, release_answered_standalone_interaction_resume_claim.
  destruct (str_is_empty _); [done|]. by apply recorded_update with (p := λ r, is_status IAnswered r && standalone (interaction r))
    (f := λ r, {| interaction := interaction r; resumed_at := None |}).
Qed.

Lemma claim_recorded now w id db won i :
  try_claim_answered_standalone_interaction_resume now (questions w) id = Ok (db, won) →
  is_recorded w id i → is_recorded (with_questions w db) id i.
Proof.
  unfold try_claim_answered_standalone_interaction_resume. destruct (str_is_empty _); [done|]. intros [= <- _].
  by apply recorded_update with (p := claimable) (f := λ r, {| interaction := interaction r; resumed_at := Some now |}).
Qed.

Lemma resume_recorded now env w id f j :
  is_recorded w id j → is_recorded (resume_interaction now env w id f).1 id j.
Proof.
  intros Hrec. unfold resume_interaction. destruct (get_user_interaction _ _) as [i|]; [|done].
  destruct (negb _); [done|]. destruct (ended_workflow _ _); [done|].
  destruct (try_claim_answered_standalone_interaction_resume _ _ _) as [[db won]|] eqn:Hc; [|done].
  pose proof (claim_recorded _ _ _ _ _ _ Hc Hrec) as Hrec'. destruct won; [|done].
  destruct (checkpoint_refuses _ _); [done|]. destruct (spawn _ _); [done|]. by apply release_recorded.
Qed.

Lemma orchestrate_recorded now env w p i j :
  is_recorded w (p_interaction_id p) j → is_recorded (orchestrate_call now env w p i).1 (p_interaction_id p) j.
Proof.
  intros Hrec. unfold orchestrate. destruct (is_critical_divergence_stop_selection i); [done|].
  destruct (is_divergence_sentinel i).
  { destruct (try_claim_answered_standalone_interaction_resume _ _ _) as [[db won]|] eqn:Hc; [|done].
    by eapply claim_recorded. }
  assert (is_recorded (match resume_interaction now env w (p_interaction_id p)
      (Some (default default_follow (trimmed (p_follow_up_message p)))) with
    | (w, Err e) => (release_claim w (p_interaction_id p), Err (ResumeFailed e))
    | (w, Ok reply) => (perform w QueueProcessed, Ok (outcome_of i true true false reply))
    end).1 (p_interaction_id p) j) as Hres.
  { pose proof (resume_recorded now env w (p_interaction_id p)
      (Some (default default_follow (trimmed (p_follow_up_message p)))) j Hrec) as H.
    destruct (resume_interaction _ _ _ _ _) as [w' [reply|e]]; simpl in *; [done|by apply release_recorded]. }
  destruct (ui_workflow_id i) as [wf|]; [|done]. destruct (ui_task_id i) as [tid|]; [|done].
  destruct (is_workflow_terminal _ _); [done|]. destruct (waits_for_answer _ _ _); [|done].
  by destruct (wake_answered_task _ _ _ _ _ _ _ _ _) as [db [u|e]].
Qed.

(** The payload that was accepted once, for a question answered meanwhile. *)
Lemma duplicate_delivery now st env w p i :
  orchestration_enabled env = true → store_present env = true → validate_answer_payload p = true →
  (trimmed (p_answer_text p) ≠ None → allow_freeform i = true) →
  validate_nonsecret_answer_payload captures_iter p = true →
  is_recorded w (p_interaction_id p) i → ui_status i = IAnswered →
  answer_call now st env w p = (w, Ok (outcome_of i false false false None)).
Proof.
  intros He Hs Hv Hfree Hsec Hi Hst. unfold answer_and_orchestrate_resume.
  rewrite He, Hs, Hv. cbn [negb]. unfold validate_answer_allows_freeform. rewrite Hi, Hsec.
  rewrite (bool_decide_eq_true_2 (ui_status i = IAnswered)) by done.
  destruct (trimmed (p_answer_text p)); [by rewrite Hfree|done].
Qed.

(** C31: A call that fails either changed nothing at all, or its answer stands: the
    question that waited holds it.  The same call made again then succeeds (on a
    gateway that orchestrates and has a store), is told that nothing was applied,
    and changes nothing; no other call for that question changes anything
    either, so what failed after the answer was stored is not retried. *)
Theorem failed_answer_stands_or_left_no_trace now st env w p w' e :
  answer_call now st env w p = (w', Err e) →
  w' = w ∨ ∃ i, is_recorded w' (p_interaction_id p) i ∧ answered_by_call now w p i
    ∧ (∀ now2 st2 env2, orchestration_enabled env2 = true → store_present env2 = true →
         answer_call now2 st2 env2 w' p = (w', Ok (outcome_of i false false false None)))
    ∧ ∀ now2 st2 env2 p2, p_interaction_id p2 = p_interaction_id p →
        (answer_call now2 st2 env2 w' p2).1 = w'.
Proof.
  intros H. unfold answer_and_orchestrate_resume in H.
  destruct (orchestration_enabled env); [|injection H; auto].
  destruct (validate_answer_payload p) eqn:Hv; [|injection H; auto]. destruct (store_present env); [|injection H; auto].
  destruct (validate_answer_allows_freeform _ _); [|injection H; auto].
  destruct (validate_nonsecret_answer_payload _ _) eqn:Hsec; [|injection H; auto]. cbn [negb] in H.
  assert (match store_call now st env w p with
          | (w, Err e) => (w, Err e)
          | (w, Ok i) => orchestrate_call now env w p i
          end = (w', Err e)) as H'.
  { destruct (get_user_interaction _ _) as [i|]; [|done]. by destruct (bool_decide _). }
  clear H. destruct (store_answer_cases now st env w p) as [[e' E]|(w1 & i & E & Hrec & Hby)]; rewrite E in H';
    [injection H'; auto|right].
  assert (is_recorded w' (p_interaction_id p) i) as Hrec'.
  { pose proof (orchestrate_recorded now env w1 p i i Hrec) as Ho. by rewrite H' in Ho. }
  exists i. split; [done|]. split; [done|]. destruct Hby as (q & _ & _ & Hck & ->).
  split; [intros; apply duplicate_delivery; try done; exact (proj2 (checked_payload _ _ Hck))|].
  intros now2 st2 env2 p2 Hp. unfold is_recorded, get_user_interaction in Hrec'.
  destruct (find_row (questions w') (p_interaction_id p)) as [r|] eqn:Hr; [|done]. injection Hrec' as Hrec'.
  eapply answered_call_is_inert; [by rewrite Hp|by rewrite Hrec'].
Qed.

(** ** What goes wrong *)

(** The claim of a resume that the checkpoint refuses is kept: the sweep that
    found the session waiting for something else never looks at the answer
    again, and neither does any other resume. *)
Lemma deferred_answer_is_stranded now env w id r f why :
  str_is_empty (trim id) = false → find_row (questions w) id = Some r →
  ui_status (interaction r) = IAnswered → claimable r = true →
  ended_workflow w (interaction r) = None → checkpoint_refuses env (interaction r) = Some why →
  ∃ w', resume_interaction now env w id f = (w', Err (Incoherent why))
    ∧ find_row (questions w') id = Some {| interaction := interaction r; resumed_at := Some now |}
    ∧ ∀ now2 env2 f2, ∃ e, (resume_interaction now2 env2 w' id f2).2 = Err e
        ∧ spawned (resume_interaction now2 env2 w' id f2).1 = spawned w'.
Proof.
  intros Hid Hr Hst Hc He Hcp. unfold resume_interaction at 1. rewrite (get_of_row _ _ _ Hr).
  rewrite bool_decide_eq_true_2 by done. cbn [negb]. rewrite He.
  destruct (claim_row now _ _ _ Hid Hr) as (db & -> & Hf). rewrite Hc in Hf |- *. rewrite Hcp.
  eexists. split; [reflexivity|]. split; [exact Hf|]. intros now2 env2 f2.
  eapply claimed_not_resumed; [exact Hf|done].
Qed.

Lemma resume_keeps_workflows now env w id f : workflows (resume_interaction now env w id f).1 = workflows w.
Proof.
  unfold resume_interaction. destruct (get_user_interaction _ _); [|done]. destruct (negb _); [done|].
  destruct (ended_workflow _ _); [done|].
  destruct (try_claim_answered_standalone_interaction_resume _ _ _) as [[db []]|]; [|done..].
  destruct (checkpoint_refuses _ _); [done|]. destruct (spawn _ _); [done|].
  unfold release_claim. by destruct (release_answered_standalone_interaction_resume_claim _ _).
Qed.

(** The egress question names no task: whatever its answer does, the task whose
    turn asked it stays as it is. *)
Lemma pin_answer_leaves_tasks now env w p i fresh session root agent_id turn batch pinned local blocker t0 :
  i = pin_ask json_to_string t0 fresh session root agent_id turn batch pinned local blocker →
  ∀ a, workflows (orchestrate_call now env w p (answered t0 a i)).1 = workflows w.
Proof.
  intros -> a. unfold orchestrate. simpl ui_workflow_id. cbv iota.
  destruct (is_critical_divergence_stop_selection _); [done|]. destruct (is_divergence_sentinel _).
  { by destruct (try_claim_answered_standalone_interaction_resume _ _ _) as [[]|]. }
  pose proof (resume_keeps_workflows now env w (p_interaction_id p)
    (Some (default default_follow (trimmed (p_follow_up_message p))))) as H.
  destruct (resume_interaction _ _ _ _ _) as [w' [reply|e]]; [done|]. simpl in *. rewrite <-H.
  unfold release_claim. by destruct (release_answered_standalone_interaction_resume_claim _ _).
Qed.
End Answers.

(** ** A question of session r/a *)

Definition demo_answer_env (y : YieldReason) (cp : SessionCheckpoint) : AnswerEnv :=
  {| orchestration_enabled := true; store_present := true;
     latest_checkpoint := λ _, Some (cp{{ yield_reason := y }}); stop_succeeds := true; report_opens := true;
     spawn := λ _, Ok (Some "thanks") |}.

Definition demo_gateway (db : InteractionDb) (wfs : WorkflowDb) : Gateway :=
  {| plane := demo_plane db; workflows := wfs; done := [] |}.
Definition demo_answering (y : YieldReason) : AnswerEnv := demo_answer_env y (demo_checkpoint_at "r/a" 1).
Definition demo_params : InteractionAnswerParams :=
  {| p_interaction_id := "ui-1"; p_answer_text := None; p_answer_option_id := Some "a";
     p_answered_by := Some "operator"; p_follow_up_message := Some " go on " |}.

(** The answer is stored; before the caller resumes, the sweep does.  The caller
    is told that the answer is claimed and releases the claim of the sweep, whose
    next tick resumes the session again. *)
Example resumed_twice :
  let env := demo_answering (UserInputRequired "ui-1") in
  match store_answer demo_parse demo_print demo_captures "t1" demo_stamp env
          (demo_gateway demo_asked demo_workflow_db) demo_params with
  | (w, Ok i) =>
      let w := resume_answered_standalone_interactions "t2" env w in
      let '(w, r) := orchestrate (λ _, None) (λ _, []) "t3" env w demo_params i in
      let w := resume_answered_standalone_interactions "t4" env w in
      match r with
      | Err (ResumeFailed (AlreadyClaimed _)) => length (spawned w) = 2
      | _ => False
      end
  | _ => False
  end.
Proof. vm_compute. reflexivity. Qed.

Lemma pair_eta {A B} (x : A * B) : x = (x.1, x.2).
Proof. by destruct x. Qed.

Lemma standalone_answer_resumes_once_witness :
  ∃ w' o, answer_and_orchestrate_resume demo_parse demo_print demo_captures (λ _, None) (λ _, []) "t1" demo_stamp
            (demo_answering (UserInputRequired "ui-1")) (demo_gateway demo_asked demo_workflow_db) demo_params
          = (w', Ok o)
    ∧ spawned w' = [SessionSpawned "coder" "r/a" "go on" None None].
Proof.
  destruct (standalone_answer_resumes_once demo_parse demo_print demo_captures (λ _, None) (λ _, []) "t1" demo_stamp
    (demo_answering (UserInputRequired "ui-1")) (demo_gateway demo_asked demo_workflow_db) demo_params
    {| interaction := demo_question; resumed_at := None |} (Some "thanks"))
    as (w' & E & _ & Hs & _); [reflexivity..|discriminate|reflexivity|reflexivity|reflexivity|reflexivity|reflexivity|].
  eexists w', _. split; [exact E|exact Hs].
Defined.

(** A task of a workflow asks, and its turn ends. *)
Definition demo_asking : WorkflowDb :=
  run_ops parse_nothing WorkflowInv.no_refs (demo_ops ++ [("t6", OpUpdate None "wf-1" "coder" TPaused None)]).
Definition demo_bound : UserInteraction :=
  demo_question{{ ui_workflow_id := Some "wf-1"; ui_task_id := Some "coder" }}.
Definition demo_bound_gateway (wfs : WorkflowDb) : Gateway :=
  demo_gateway {| rows := [{| interaction := demo_bound; resumed_at := None |}]; gate_messages := [];
                  timeline := [] |} wfs.
Definition demo_answer_call (w : Gateway) :=
  answer_and_orchestrate_resume demo_parse demo_print demo_captures parse_nothing WorkflowInv.no_refs "t7" demo_stamp
    (demo_answering Hibernation) w demo_params.

Lemma bound_answer_wakes_task_witness :
  ∃ w' t o, demo_answer_call (demo_bound_gateway demo_asking) = (w', Ok o)
    ∧ load_task_run (workflows w') "wf-1" "coder" = Some t ∧ task_status t = TRunnable
    ∧ message t = Some "go on".
Proof.
  destruct (waits_for_answer demo_asking "wf-1" "coder") as [t|] eqn:Ht; [|vm_compute in Ht; discriminate Ht].
  destruct (bound_answer_wakes_task demo_parse demo_print demo_captures parse_nothing WorkflowInv.no_refs "t7" demo_stamp
    (demo_answering Hibernation) (demo_bound_gateway demo_asking) demo_params
    {| interaction := demo_bound; resumed_at := None |} "wf-1" "coder" t)
    as (w' & t' & cp & E & _ & HT & Hrun & Hm & _); [reflexivity..|discriminate| | | | | | | | |].
  - reflexivity.
  - reflexivity.
  - reflexivity.
  - reflexivity.
  - apply run_well_keyed.
  - exists (default (new_run "" "" "" "") (load_workflow_run demo_asking "wf-1")). vm_compute. reflexivity.
  - vm_compute. reflexivity.
  - exact Ht.
  - exists w', t'. eexists. split; [exact E|]. split; [|split; [exact Hrun|exact Hm]].
    unfold load_task_run. rewrite HT. apply lookup_insert_eq.
Defined.

(** The workflow has ended meanwhile. *)
Definition demo_ended : WorkflowDb :=
  run_ops parse_nothing WorkflowInv.no_refs (demo_ops ++ [("t6", OpStop "wf-1" "stop-1")]).

(** The caller is told that the workflow has ended, and the answer stands. *)
Lemma failed_answer_stands_or_left_no_trace_witness :
  (demo_answer_call (demo_bound_gateway demo_ended)).2 = Err (WorkflowEnded "wf-1")
  ∧ ∃ o, demo_answer_call (demo_answer_call (demo_bound_gateway demo_ended)).1
         = ((demo_answer_call (demo_bound_gateway demo_ended)).1, Ok o).
Proof.
  assert ((demo_answer_call (demo_bound_gateway demo_ended)).2 = Err (WorkflowEnded "wf-1")) as Hres
    by (vm_compute; reflexivity).
  split; [exact Hres|].
  destruct (failed_answer_stands_or_left_no_trace demo_parse demo_print demo_captures parse_nothing WorkflowInv.no_refs "t7"
    demo_stamp (demo_answering Hibernation) (demo_bound_gateway demo_ended) demo_params
    (demo_answer_call (demo_bound_gateway demo_ended)).1 (WorkflowEnded "wf-1")) as [Hsame|(i & _ & _ & Hrep & _)].
  - rewrite <-Hres. exact (pair_eta _).
  - exfalso. assert (ui_status <$> get_user_interaction (questions (demo_answer_call (demo_bound_gateway demo_ended)).1) "ui-1"
      = Some IAnswered) as H1 by (vm_compute; reflexivity).
    rewrite Hsame in H1. vm_compute in H1. discriminate H1.
  - eexists. exact (Hrep "t7" demo_stamp (demo_answering Hibernation) eq_refl eq_refl).
Defined.
