(* ===== verification/LlmDriver.v ===== *)
(** * LLM drivers (autonoetic-gateway/src/llm/mod.rs, llm/provider.rs)

    What a completion is: the request and the response, the driver as a record of
    its two calls and its two budgets, which errors fail over to another preset,
    and the factory: the table of known providers, the resolution of a preset to
    an endpoint with its egress class, and the precedence of overrides.

    The drivers that speak to a provider (Anthropic, Gemini, OpenAI-compatible)
    and the stall detector around a stream are not modelled: a driver is any pair
    of functions from requests to results.  An error is its text.  A float is its
    bits; [positive_as_f32] is the test [temperature > 0.0] with the narrowing
    cast.  The environment is a function. *)

From Stdlib Require Import Ascii String ZArith Lia.
From stdpp Require Import prelude gmap strings list.
From S2P Require Import Prelude RustStr Json Llm Egress.

Open Scope string_scope.
Open Scope Z_scope.
Open Scope list_scope.

(** ** Requests and responses *)

Record ToolDefinition := {
  tool_def_name : string;
  tool_description : string;
  input_schema : Json;
}.

Inductive ThinkingEffort := EffortLow | EffortMedium | EffortHigh.

Record ThinkingConfig := { effort : ThinkingEffort; budget_tokens : option Z }.

Record CompletionRequest := {
  req_model : string;
  messages : list Message;
  tools : list ToolDefinition;
  req_max_tokens : option Z;
  req_temperature : option Z;
  metadata : option (gmap string Json);
  thinking : option ThinkingConfig;
  prompt_cache_key : option string;
  system_cache_prefix_bytes : option Z;
}.

Definition simple (model : string) (msgs : list Message) : CompletionRequest :=
  {| req_model := model; messages := msgs; tools := []; req_max_tokens := None;
     req_temperature := None; metadata := None; thinking := None; prompt_cache_key := None;
     system_cache_prefix_bytes := None |}.

Definition message (role : Role) (content : string) (tool_call_id : option string) : Message :=
  {| msg_id := None; msg_role := role; msg_content := content; msg_tool_calls := [];
     msg_tool_call_id := tool_call_id; msg_reasoning_content := None; msg_reasoning_details := None |}.

Definition assistant (content : string) : Message := message RoleAssistant content None.

Definition tool_result (tool_call_id content : string) : Message :=
  message RoleTool content (Some tool_call_id).

Inductive StopReason := EndTurn | MaxTokens | ToolUse | StopSequence | OtherStop (s : string).

Record TokenUsage := {
  input_tokens : Z;
  output_tokens : Z;
  reasoning_tokens : Z;
  cached_tokens : Z;
  cache_creation_tokens : Z;
}.

Definition no_usage : TokenUsage := Build_TokenUsage 0 0 0 0 0.

Record CompletionResponse := {
  resp_text : string;
  resp_tool_calls : list ToolCall;
  resp_reasoning_content : option string;
  resp_reasoning_details : option Json;
  stop_reason : StopReason;
  usage : TokenUsage;
}.

Definition text_only (text : string) : CompletionResponse :=
  {| resp_text := text; resp_tool_calls := []; resp_reasoning_content := None;
     resp_reasoning_details := None; stop_reason := EndTurn; usage := no_usage |}.

Definition has_tool_calls (r : CompletionResponse) : bool :=
  match resp_tool_calls r with [] => false | _ => true end.

Inductive StreamEvent :=
| TextDelta (t : string)
| ToolUseStart (id name : string)
| ToolInputDelta (t : string)
| ToolUseEnd (id name arguments : string)
| StreamComplete (stop : StopReason) (u : TokenUsage).

(** ** The driver interface *)

(** A stream is what it sends on the channel and what it returns. *)
Record LlmDriver := {
  complete : CompletionRequest → result CompletionResponse string;
  stream : CompletionRequest → list StreamEvent * result CompletionResponse string;
  request_timeout : Z;
  ttfb_timeout : option Z;
}.

Definition DEFAULT_REQUEST_TIMEOUT_SECS : Z := 120.
Definition MIN_REQUEST_TIMEOUT_SECS : Z := 5.

(** The default body of [stream]. *)
Definition default_stream (complete : CompletionRequest → result CompletionResponse string)
    (request : CompletionRequest) : list StreamEvent * result CompletionResponse string :=
  match complete request with
  | Err e => ([], Err e)
  | Ok response =>
      ((if str_is_empty (resp_text response) then [] else [TextDelta (resp_text response)])
       ++ [StreamComplete (stop_reason response) (usage response)], Ok response)
  end.

(** ** Failover *)

Definition OVERFLOW_SIGNALS : list string :=
  ["context_overflow"; "context window"; "context_length_exceeded"; "max_context_window_reached";
   "resource_exhausted"].

Definition TRANSIENT_SIGNALS : list string :=
  ["429"; "rate limit"; "rate_limit"; "too many requests";
   "500"; "502"; "503"; "504"; "529"; "overloaded"; "internal server error"; "bad gateway";
   "service unavailable"; "gateway timeout"; "server_error"; "temporarily unavailable";
   "connection refused"; "connection reset"; "connection aborted"; "broken pipe"; "timed out";
   "timeout"; "error sending request"; "dns error"; "name resolution"].

Definition is_failover_eligible_error (err : string) : bool :=
  let msg := to_lowercase err in
  if existsb (contains msg) OVERFLOW_SIGNALS then false
  else existsb (contains msg) TRANSIENT_SIGNALS.

(** ** Budgets *)

Definition at_least_min (s : Z) : bool := MIN_REQUEST_TIMEOUT_SECS <=? s.

Definition only_if {A} (p : A → bool) (o : option A) : option A :=
  x ← o; if p x then Some x else None.

Definition or_else {A} (a b : option A) : option A := match a with Some _ => a | None => b end.

Definition resolve_ttfb_timeout_secs (env : option string) (preset configured : option Z) : option Z :=
  or_else (or_else (only_if at_least_min (s ← env; parse_u64 (trim s))) (only_if at_least_min preset))
    (only_if at_least_min configured).

Definition resolve_request_timeout_secs (env : option string) (preset configured : option Z) : Z :=
  default DEFAULT_REQUEST_TIMEOUT_SECS
    (or_else (or_else (only_if at_least_min (s ← env; parse_u64 (trim s))) (only_if at_least_min preset))
       (only_if at_least_min configured)).

(** ** Providers (llm/provider.rs) *)

Inductive ReasoningStyle := NoReasoning | OpenAiEffort | OpenRouterUnified | OpenCodeGo | LocalChatTemplate.

Record ProviderCapabilities := {
  supports_streaming : bool;
  supports_tool_stream_deltas : bool;
  supports_system_top_level : bool;
  supports_usage_in_stream : bool;
  supports_tools : bool;
  supports_tool_choice : bool;
  strict_schema_anyof : bool;
  reasoning : ReasoningStyle;
}.

Definition openai_compatible : ProviderCapabilities :=
  Build_ProviderCapabilities true true false false true true false NoReasoning.
Definition chat_only : ProviderCapabilities :=
  Build_ProviderCapabilities true false false false false false false NoReasoning.
Definition anthropic : ProviderCapabilities :=
  Build_ProviderCapabilities true true true true true true false NoReasoning.
Definition gemini : ProviderCapabilities :=
  Build_ProviderCapabilities false false true true true false false NoReasoning.

Inductive AuthStrategy :=
| BearerToken (k : string) | XApiKey (k : string) | GoogleApiKey (k : string) | NoAuth.

Inductive DriverKind := KindOpenAi | KindAnthropic | KindGemini.

Record ResolvedProvider := {
  kind : DriverKind;
  base_url : string;
  prov_model : string;
  auth : AuthStrategy;
  capabilities : ProviderCapabilities;
  extra_headers : list (string * string);
  prov_temperature : option Z;
  prov_max_tokens : option Z;
  egress_class : EgressClass;
  prov_request_timeout : Z;
  prov_ttfb_timeout : option Z;
}.

Definition one_of (names : list string) (p : string) : bool := existsb (String.eqb p) names.

Definition reasoning_style_for_provider (provider : string) : ReasoningStyle :=
  if one_of ["openai"; "codex"] provider then OpenAiEffort
  else if one_of ["openrouter"] provider then OpenRouterUnified
  else if one_of ["opencode"] provider then OpenCodeGo
  else if one_of ["vllm"; "llamacpp"; "llama.cpp"; "ollama"; "lmstudio"] provider then LocalChatTemplate
  else NoReasoning.

Record ProviderDefaults := {
  def_base_url : string;
  api_key_env : string;
  def_kind : DriverKind;
  def_capabilities : ProviderCapabilities;
  fixed_temperature : option Z;
  def_egress_class : EgressClass;
}.

(** The bits of the [f32] 1.0. *)
Definition F32_ONE : Z := 0x3F800000.

(** The rows of the table, one per match arm: an OpenAI-compatible cloud
    provider, and a local one, which needs no key. *)
Definition cloud (url env : string) : ProviderDefaults :=
  Build_ProviderDefaults url env KindOpenAi openai_compatible None ClassRemote.
Definition on_host (url : string) : ProviderDefaults :=
  Build_ProviderDefaults url "" KindOpenAi openai_compatible None ClassLocal.

Definition PROVIDERS : list (list string * ProviderDefaults) :=
  [(["anthropic"; "claude"],
    Build_ProviderDefaults "https://api.anthropic.com/v1/messages" "ANTHROPIC_API_KEY" KindAnthropic
      anthropic None ClassRemote);
   (["gemini"; "google"],
    Build_ProviderDefaults "https://generativelanguage.googleapis.com/v1beta" "GEMINI_API_KEY"
      KindGemini gemini None ClassRemote);
   (["openai"; "codex"], cloud "https://api.openai.com/v1/chat/completions" "OPENAI_API_KEY");
   (["opencode"], cloud "https://opencode.ai/zen/go/v1/chat/completions" "OPENCODE_API_KEY");
   (["openrouter"], cloud "https://openrouter.ai/api/v1/chat/completions" "OPENROUTER_API_KEY");
   (["groq"], cloud "https://api.groq.com/openai/v1/chat/completions" "GROQ_API_KEY");
   (["together"], cloud "https://api.together.xyz/v1/chat/completions" "TOGETHER_API_KEY");
   (["deepseek"], cloud "https://api.deepseek.com/v1/chat/completions" "DEEPSEEK_API_KEY");
   (["mistral"], cloud "https://api.mistral.ai/v1/chat/completions" "MISTRAL_API_KEY");
   (["fireworks"], cloud "https://api.fireworks.ai/inference/v1/chat/completions" "FIREWORKS_API_KEY");
   (["perplexity"], cloud "https://api.perplexity.ai/chat/completions" "PERPLEXITY_API_KEY");
   (["cohere"], cloud "https://api.cohere.com/compatibility/v1/chat/completions" "COHERE_API_KEY");
   (["ai21"], cloud "https://api.ai21.com/studio/v1/chat/completions" "AI21_API_KEY");
   (["cerebras"], cloud "https://api.cerebras.ai/v1/chat/completions" "CEREBRAS_API_KEY");
   (["sambanova"], cloud "https://api.sambanova.ai/v1/chat/completions" "SAMBANOVA_API_KEY");
   (["huggingface"], cloud "https://api-inference.huggingface.co/v1/chat/completions" "HUGGINGFACE_API_KEY");
   (["xai"], cloud "https://api.x.ai/v1/chat/completions" "XAI_API_KEY");
   (["replicate"], cloud "https://api.replicate.com/v1/deployments" "REPLICATE_API_TOKEN");
   (["moonshot"; "kimi"], cloud "https://api.moonshot.cn/v1/chat/completions" "MOONSHOT_API_KEY");
   (["kimi-code"],
    Build_ProviderDefaults "https://api.kimi.com/coding/v1/chat/completions" "KIMI_CODE_API_KEY"
      KindOpenAi openai_compatible (Some F32_ONE) ClassRemote);
   (["qwen"; "dashscope"],
    cloud "https://dashscope.aliyuncs.com/compatible-mode/v1/chat/completions" "DASHSCOPE_API_KEY");
   (["ollama"], on_host "http://localhost:11434/v1/chat/completions");
   (["vllm"], on_host "http://localhost:8000/v1/chat/completions");
   (["lmstudio"], on_host "http://localhost:1234/v1/chat/completions");
   (["llamacpp"; "llama.cpp"], on_host "http://localhost:8080/v1/chat/completions")].

Definition provider_defaults (name : string) : option ProviderDefaults :=
  snd <$> List.find (λ row, one_of row.1 name) PROVIDERS.

Definition resolve_api_key (env : string → option string) (provider : string)
    (defaults : option ProviderDefaults) (api_key_override : option string) : result string string :=
  match api_key_override, defaults with
  | Some k, _ => Ok k
  | None, Some d =>
      if str_is_empty (api_key_env d) then Ok ""
      else match env (api_key_env d) with
           | Some k => Ok k
           | None => Err ("Missing " ++ api_key_env d ++ " environment variable for provider '"
                          ++ provider ++ "'")%string
           end
  | None, None => Ok ""
  end.

Definition auth_of (k : DriverKind) (api_key : string) : AuthStrategy :=
  match k with
  | KindAnthropic => XApiKey api_key
  | KindGemini => GoogleApiKey api_key
  | KindOpenAi => if str_is_empty api_key then NoAuth else BearerToken api_key
  end.

Definition headers_of (provider : string) : list (string * string) :=
  if one_of ["openrouter"] provider
  then [("HTTP-Referer", "https://autonoetic.local"); ("X-OpenRouter-Title", "Autonoetic Gateway")]
  else if one_of ["opencode"] provider then [("x-opencode-client", "autonoetic")]
  else [].

Definition resolve (env : string → option string) (provider model : string) (temperature max_tokens : option Z)
    (base_url_override api_key_override : option string) (chat_only_override : bool)
    (egress_class_override : option EgressClass) (request_timeout : Z) (ttfb_timeout : option Z)
    : result ResolvedProvider string :=
  let defaults := provider_defaults provider in
  endpoint <-?
    match defaults, base_url_override with
    | Some d, _ => Ok (def_kind d, default (def_base_url d) base_url_override, def_capabilities d,
                       fixed_temperature d, def_egress_class d)
    | None, Some url => Ok (KindOpenAi, url, openai_compatible, None, ClassRemote)
    | None, None => Err ("Unknown provider '" ++ provider ++ "' and no base_url override provided")%string
    end;
  let '(k, url, caps, fixed, inferred) := endpoint in
  let caps := if chat_only_override then chat_only else caps in
  api_key <-? resolve_api_key env provider defaults api_key_override;
  Ok {| kind := k; base_url := url; prov_model := model; auth := auth_of k api_key;
        capabilities :=
          {| supports_streaming := supports_streaming caps;
             supports_tool_stream_deltas := supports_tool_stream_deltas caps;
             supports_system_top_level := supports_system_top_level caps;
             supports_usage_in_stream := supports_usage_in_stream caps;
             supports_tools := supports_tools caps; supports_tool_choice := supports_tool_choice caps;
             strict_schema_anyof := one_of ["moonshot"; "kimi"; "kimi-code"] provider;
             reasoning := reasoning_style_for_provider provider |};
        extra_headers := headers_of provider; prov_temperature := or_else fixed temperature;
        prov_max_tokens := max_tokens; egress_class := default inferred egress_class_override;
        prov_request_timeout := request_timeout; prov_ttfb_timeout := ttfb_timeout |}.

(** ** The factory *)

Record LlmConfig := {
  cfg_provider : string;
  cfg_model : string;
  cfg_temperature : Z;
  cfg_fallback_provider : option string;
  cfg_fallback_model : option string;
  cfg_chat_only : bool;
  cfg_context_window_tokens : option Z;
  cfg_max_tokens : option Z;
  cfg_base_url : option string;
  cfg_api_key_env : option string;
  cfg_routing_preset : option string;
  cfg_thinking : option ThinkingConfig;
  cfg_egress_class : option EgressClass;
  cfg_request_timeout_secs : option Z;
  cfg_ttfb_timeout_secs : option Z;
}.

Definition llm_env_overrides_allowed (env : string → option string) : bool :=
  match env "AUTONOETIC_ALLOW_LLM_ENV_OVERRIDES" with
  | None => false
  | Some value => one_of ["1"; "true"; "yes"; "on"] (str_map to_ascii_lowercase (trim value))
  end.

Section Factory.
(** [Some (t as f32)] when [t > 0.0]; the budgets published at startup. *)
Context (positive_as_f32 : Z → option Z) (configured_timeout configured_ttfb : option Z).

Definition base_url_override (env : string → option string) (c : LlmConfig) : option string :=
  if llm_env_overrides_allowed env then or_else (env "AUTONOETIC_LLM_BASE_URL") (cfg_base_url c)
  else cfg_base_url c.

Definition api_key_override (env : string → option string) (c : LlmConfig) : option string :=
  let preset := name ← cfg_api_key_env c; env name in
  if llm_env_overrides_allowed env then or_else (env "AUTONOETIC_LLM_API_KEY") preset else preset.

(** The endpoint of a configuration: [build_driver] before it builds. *)
Definition resolve_config (env : string → option string) (c : LlmConfig) : result ResolvedProvider string :=
  resolve env (cfg_provider c) (cfg_model c) (positive_as_f32 (cfg_temperature c)) (cfg_max_tokens c)
    (base_url_override env c) (api_key_override env c) (cfg_chat_only c) (cfg_egress_class c)
    (resolve_request_timeout_secs (env "AUTONOETIC_LLM_REQUEST_TIMEOUT_SECS") (cfg_request_timeout_secs c)
       configured_timeout)
    (resolve_ttfb_timeout_secs (env "AUTONOETIC_LLM_TTFB_TIMEOUT_SECS") (cfg_ttfb_timeout_secs c)
       configured_ttfb).

End Factory.

(** ** At work *)

(** A text of the error that merely contains a status counts as transient. *)
Example bad_request_fails_over :
  is_failover_eligible_error "HTTP 400: max_tokens 15000 exceeds the limit" = true
  ∧ is_failover_eligible_error "HTTP 400: bad request" = false.
Proof. split; vm_compute; reflexivity. Qed.

