(* ===== verification/EgressChokepoint.v ===== *)
(** * The egress chokepoint
    (autonoetic-gateway/src/llm/egress_chokepoint.rs, runtime/egress_stored.rs)

    The driver that wraps every provider driver: it reads the label map that rides
    in the metadata of a request, replaces the content of each message whose label
    excludes the sink of the provider by an indication, refuses the request when
    withheld content reappears in another message, and forwards the rest.  The
    same substitution for stored content closes the file.

    [filter_loop] shows the loop to be a map over the messages, and the
    theorems read off it: what the provider sees does not depend on withheld
    content, and the report the lifecycle recomputes is the one that was sent.

    The SHA-256 digest and the text of a [serde_json] error are parameters. *)

From Stdlib Require Import Ascii String ZArith Lia.
From stdpp Require Import prelude gmap strings list.
From coqutil Require Import Datatypes.RecordSetters.
From S2P Require Import Prelude RustStr Json Llm Egress EgressLabeler EgressRouting LlmDriver.
Import DoubleBraceUpdate.

Open Scope string_scope.
Open Scope nat_scope.
Open Scope list_scope.

(** ** Labels as JSON *)

(** The serde form of a sink, and back. *)
Definition sink_of_str (s : string) : option Sink := List.find (λ k, sink_str k =? s)%string SINK_ALL.

Definition sink_from_json (v : Json) : option Sink := s ← json_as_str v; sink_of_str s.

Definition sinks_from_json (v : Json) : option (list Sink) := l ← json_as_array v; mapM sink_from_json l.

Definition label_from_json (v : Json) : option EgressLabel := list_to_set <$> sinks_from_json v.

(** [serde_json::to_value(&labels)] and [from_value::<HashMap<String, EgressLabel>>]. *)
Definition labels_to_json (labels : gmap string EgressLabel) : Json :=
  json_object (prod_map id label_json <$> map_to_list labels).

Definition labels_from_json (v : Json) : option (gmap string EgressLabel) :=
  kvs ← json_as_object v;
  ls ← mapM (λ kv, l ← label_from_json kv.2; Some (kv.1, l)) kvs;
  Some (fold_left (λ m kl, <[kl.1 := kl.2]> m) ls ∅).

(** ** The report *)

Definition EGRESS_LABELS_KEY : string := "__egress_labels".
Definition EGRESS_DECLASSIFIED_SINKS_KEY : string := "__egress_declassified_sinks".
Definition EGRESS_FILTER_REPORT_KEY : string := "__egress_filter_report".
Definition ASSERTION_WINDOW_MESSAGES : nat := 40.

Record WithheldEntry := {
  wh_tool_call_id : string;
  wh_label : EgressLabel;
  wh_indication : string;
}.

Record AssertionViolation := {
  av_tool_call_id : string;
  payload_digest : string;
  found_in_message_index : nat;
}.

Record FilterReport := {
  rep_sink : string;
  withheld : list WithheldEntry;
  included : nat;
  declassified : nat;
  violations : list AssertionViolation;
}.

Definition empty_report (sink : Sink) : FilterReport :=
  {| rep_sink := sink_str sink; withheld := []; included := 0; declassified := 0; violations := [] |}.

Definition withheld_any (r : FilterReport) : bool := match withheld r with [] => false | _ => true end.
Definition has_violations (r : FilterReport) : bool := match violations r with [] => false | _ => true end.

Definition report_json (r : FilterReport) : Json :=
  json_object
    [("sink", JString (rep_sink r));
     ("withheld", JArray (map (λ w, json_object
        [("tool_call_id", JString (wh_tool_call_id w)); ("label", label_json (wh_label w));
         ("indication", JString (wh_indication w))]) (withheld r)));
     ("included", JNumber (Z.of_nat (included r)));
     ("declassified", JNumber (Z.of_nat (declassified r)));
     ("violations", JArray (map (λ v, json_object
        [("tool_call_id", JString (av_tool_call_id v)); ("payload_digest", JString (payload_digest v));
         ("found_in_message_index", JNumber (Z.of_nat (found_in_message_index v)))]) (violations r)))].

Definition stash_report (req : CompletionRequest) (r : FilterReport) : CompletionRequest :=
  req{{ metadata := Some (<[EGRESS_FILTER_REPORT_KEY := report_json r]> (default ∅ (metadata req))) }}.

Section Chokepoint.
Context (sha256_hex : string → string) (serde_error : Json → string).

(** ** Reading the metadata *)

Definition meta_get (req : CompletionRequest) (key : string) : option Json :=
  m ← metadata req; m !! key.

Definition read_label_map (req : CompletionRequest) : result (option (gmap string EgressLabel)) string :=
  match meta_get req EGRESS_LABELS_KEY with
  | None => Ok None
  | Some val =>
      match labels_from_json val with
      | Some m => Ok (Some m)
      | None => Err ("egress label map (__egress_labels) is present but malformed: " ++ serde_error val
                     ++ " — aborting completion (fail-closed)")%string
      end
  end.

Definition read_declassified_sinks (req : CompletionRequest) : result (list Sink) string :=
  match meta_get req EGRESS_DECLASSIFIED_SINKS_KEY with
  | None => Ok []
  | Some val =>
      match sinks_from_json val with
      | Some l => Ok l
      | None => Err ("declassified sinks (__egress_declassified_sinks) present but malformed: "
                     ++ serde_error val ++ " — aborting completion (fail-closed)")%string
      end
  end.

(** ** The filter *)

Definition tool_names (msgs : list Message) : gmap string string :=
  fold_left (λ m tc, <[call_id tc := call_name tc]> m) (flat_map msg_tool_calls msgs) ∅.

Record FilterState := {
  out : list Message;
  report : FilterReport;
  payloads : list (string * string);
}.

Section Filter.
Context (sink : Sink) (verbosity : IndicationVerbosity).
Context (labels : gmap string EgressLabel) (declassified_sinks : list Sink).
Context (names : gmap string string).

Definition indication_for (msg : Message) (key : string) (label : EgressLabel) : string :=
  ind_text (generate (if bool_decide (msg_role msg = RoleTool) then names !! key else None) 1
              label verbosity).

(** One iteration of the substitution loop. *)
Definition filter_step (st : FilterState) (msg : Message) : FilterState :=
  let pass r := {| out := out st ++ [msg]; report := r; payloads := payloads st |} in
  let r := report st in
  match message_egress_key msg with
  | None => pass r
  | Some key =>
      match labels !! key with
      | None => pass (r{{ included := S (included r) }})
      | Some label =>
          if allows label sink then pass (r{{ included := S (included r) }})
          else if bool_decide (sink ∈ declassified_sinks)
          then pass (r{{ included := S (included r) }}{{ declassified := S (declassified r) }})
          else
            let indication := indication_for msg key label in
            {| out := out st ++ [msg{{ msg_content := indication }}];
               report := r{{ withheld := withheld r ++
                              [{| wh_tool_call_id := key; wh_label := label;
                                  wh_indication := indication |}] }};
               payloads := payloads st ++ [(msg_content msg, key)] |}
      end
  end.

End Filter.

(** The first message of the window, other than the origin, that holds the payload. *)
Fixpoint find_echo (window_start idx : nat) (payload key : string) (msgs : list Message) : option nat :=
  match msgs with
  | [] => None
  | m :: rest =>
      if (idx <? window_start) || bool_decide (message_egress_key m = Some key)
         || negb (contains (msg_content m) payload)
      then find_echo window_start (S idx) payload key rest
      else Some idx
  end.

Definition violation_of (msgs : list Message) (p : string * string) : option AssertionViolation :=
  if str_is_empty p.1 then None
  else idx ← find_echo (length msgs - ASSERTION_WINDOW_MESSAGES) 0 p.1 p.2 msgs;
       Some {| av_tool_call_id := p.2; payload_digest := hash_and_truncate sha256_hex p.1 12;
               found_in_message_index := idx |}.

Definition sinks_or_none (req : CompletionRequest) : list Sink :=
  match read_declassified_sinks req with Ok l => l | Err _ => [] end.

Definition filter_request (sink : Sink) (verbosity : IndicationVerbosity) (req : CompletionRequest)
    (labels : gmap string EgressLabel) : CompletionRequest * FilterReport :=
  if bool_decide (labels = ∅) then (stash_report req (empty_report sink), empty_report sink)
  else
    let st := fold_left (filter_step sink verbosity labels (sinks_or_none req) (tool_names (messages req)))
                (messages req) {| out := []; report := empty_report sink; payloads := [] |} in
    let r := (report st){{ violations := omap (violation_of (out st)) (payloads st) }} in
    (stash_report (req{{ messages := out st }}) r, r).

(** ** The driver *)

Definition VIOLATION_ERROR (what : string) : string :=
  ("egress assertion violation: withheld payload appeared verbatim in a non-withheld message — "
   ++ what ++ " aborted (fail-closed, RFC §5.2.3)")%string.

(** What is forwarded: the two calls differ in the word of one error. *)
Definition outbound (sink : Sink) (verbosity : IndicationVerbosity) (what : string)
    (request : CompletionRequest) : result CompletionRequest string :=
  labels <-? read_label_map request;
  match labels with
  | None => Ok request
  | Some labels =>
      if bool_decide (labels = ∅) then Ok request
      else
        _ <-? read_declassified_sinks request;
        let '(filtered, report) := filter_request sink verbosity request labels in
        if has_violations report then Err (VIOLATION_ERROR what) else Ok filtered
  end.

Definition with_verbosity (inner : LlmDriver) (sink : Sink) (verbosity : IndicationVerbosity) : LlmDriver :=
  {| complete := λ request, r <-? outbound sink verbosity "completion" request; complete inner r;
     stream := λ request,
       match outbound sink verbosity "stream" request with
       | Err e => ([], Err e)
       | Ok r => stream inner r
       end;
     request_timeout := request_timeout inner; ttfb_timeout := ttfb_timeout inner |}.

Definition new (inner : LlmDriver) (sink : Sink) : LlmDriver := with_verbosity inner sink Descriptive.

(** What the lifecycle recomputes for the audit after the call. *)
Definition compute_filter_report (req : CompletionRequest) (sink : Sink) : FilterReport :=
  match read_label_map req with
  | Ok (Some m) =>
      if bool_decide (m = ∅) then empty_report sink else (filter_request sink Descriptive req m).2
  | _ => empty_report sink
  end.

(** [build_driver]: the driver of the resolved endpoint behind the chokepoint of
    the class the endpoint was resolved with. *)
Definition build_driver (positive_as_f32 : Z → option Z) (configured_timeout configured_ttfb : option Z)
    (provider_driver : ResolvedProvider → LlmDriver) (env : string → option string) (config : LlmConfig)
    : result LlmDriver string :=
  resolved <-? resolve_config positive_as_f32 configured_timeout configured_ttfb env config;
  Ok (new (provider_driver resolved) (as_sink (egress_class resolved))).

End Chokepoint.

(** ** Stored content (runtime/egress_stored.rs) *)

Definition legacy_label_from_named (n : NamedEgressLabel) : EgressLabel := to_label n.

Definition resolve_stored_label (stored : option EgressLabel) (cfg : EgressConfig) : EgressLabel :=
  default (to_label (cfg_legacy_unlabeled cfg)) stored.

Definition stored_allows_sink (label : EgressLabel) (sink : Sink) : bool := allows label sink.

Inductive FilteredStoredContent := Allowed (content : string) | Withheld (indication : string).

Definition filter_or_indicate_for_sink (content : string) (label : EgressLabel) (sink : Sink)
    (kind : option string) (verbosity : IndicationVerbosity) : FilteredStoredContent :=
  if allows label sink then Allowed content
  else
    let indication := generate kind 1 label verbosity in
    Withheld (match verbosity with
              | Terse => default (ind_text indication) (ind_terse indication)
              | Descriptive => ind_text indication
              end).

Definition query_sink_or_remote (sink : option Sink) : Sink := default RemoteModel sink.

(** ** The label map survives its passage through the metadata *)

Lemma sink_of_str_inv s : sink_of_str (sink_str s) = Some s.
Proof. by destruct s. Qed.

Lemma label_iter_set (l : EgressLabel) : list_to_set (label_iter l) = l.
Proof.
  apply set_eq. intros s. rewrite elem_of_list_to_set. unfold label_iter.
  rewrite list_elem_of_In, filter_In, <- list_elem_of_In. unfold allows. rewrite bool_decide_eq_true.
  split; [tauto|]. intros H. split; [|done]. destruct s; set_solver.
Qed.

Lemma label_json_inv l : label_from_json (label_json l) = Some l.
Proof.
  unfold label_from_json, sinks_from_json, label_json, json_strings. simpl.
  assert (mapM sink_from_json (map JString (map sink_str (label_iter l))) = Some (label_iter l)) as ->.
  { rewrite mapM_Some, Forall2_fmap_l, Forall2_fmap_l. apply Forall_Forall2_diag, Forall_forall.
    intros s _. apply sink_of_str_inv. }
  simpl. by rewrite label_iter_set.
Qed.

Lemma fold_pick_spec (kvs : list (string * Json)) k r :
  NoDup kvs.*1 →
  fold_left (λ r kv, if decide (kv.1 = k) then Some kv.2 else r) kvs r
  = match list_to_map (M := gmap string Json) kvs !! k with Some v => Some v | None => r end.
Proof.
  revert r. induction kvs as [|[a v] kvs IH]; intros r; simpl; [done|].
  intros [Hn Hd]%NoDup_cons. rewrite IH by done. case_decide as Ha.
  - subst. rewrite lookup_insert, decide_True by done. by rewrite (not_elem_of_list_to_map_1 kvs k).
  - by rewrite lookup_insert_ne.
Qed.

Lemma bt_insert_all_wf (kvs : list (string * Json)) m :
  bt_wf m → bt_wf (fold_left (λ m kv, bt_insert kv.1 kv.2 m) kvs m).
Proof. revert m. induction kvs; simpl; eauto using bt_insert_wf. Qed.

Lemma fold_insert_nodup {V} (ls : list (string * V)) (m : gmap string V) :
  NoDup ls.*1 → fold_left (λ m kl, <[kl.1 := kl.2]> m) ls m = list_to_map ls ∪ m.
Proof.
  revert m. induction ls as [|[k v] ls IH]; intros m; simpl; [by rewrite (left_id_L ∅ (∪))|].
  intros [Hn Hd]%NoDup_cons. rewrite IH by done.
  rewrite <- insert_union_r by (by apply not_elem_of_list_to_map_1). by rewrite insert_union_l.
Qed.

Lemma labels_entries_inv (m : list (string * Json)) (labels : gmap string EgressLabel) :
  NoDup m.*1 → (∀ k, list_to_map (M := gmap string Json) m !! k = label_json <$> labels !! k) →
  labels_from_json (JObject m) = Some labels.
Proof.
  intros Hd Hm. unfold labels_from_json. simpl.
  set (read := λ kv : string * Json, _).
  assert (∃ ls, mapM read m = Some ls ∧ ls.*1 = m.*1 ∧
    ∀ k, list_to_map (M := gmap string EgressLabel) ls !! k
         = list_to_map (M := gmap string Json) m !! k ≫= label_from_json) as (ls & -> & Hk & Hl).
  { assert (∀ k v, (k, v) ∈ m → ∃ l, v = label_json l) as Hv.
    { intros k v Hin. apply (elem_of_list_to_map (M := gmap string)) in Hin; [|done].
      rewrite Hm in Hin. destruct (labels !! k); naive_solver. }
    clear Hm labels. induction m as [|[k v] m IH]; [by exists []|].
    apply NoDup_cons in Hd as [_ Hd].
    destruct (Hv k v) as [l ->]; [left|].
    destruct IH as (ls & E & Hk & Hl); [done|intros; eapply Hv; by right|].
    exists ((k, l) :: ls). simpl. fold read.
    assert (read (k, label_json l) = Some (k, l)) as -> by (unfold read; simpl; by rewrite label_json_inv).
    simpl. rewrite E. split; [done|]. split; [exact (f_equal (cons k) Hk)|]. intros k'.
    destruct (decide (k = k')) as [->|Hn].
    - rewrite !lookup_insert, !decide_True by done. symmetry. apply label_json_inv.
    - by rewrite !lookup_insert_ne. }
  simpl. rewrite fold_insert_nodup by (by rewrite Hk). rewrite (right_id_L ∅ (∪)). f_equal.
  apply map_eq. intros k. rewrite Hl, Hm. destruct (labels !! k); simpl; [apply label_json_inv|done].
Qed.

(** Whatever the labels, the chokepoint reads the map the lifecycle wrote. *)
Lemma labels_json_roundtrip labels : labels_from_json (labels_to_json labels) = Some labels.
Proof.
  unfold labels_to_json. set (kvs := prod_map id label_json <$> map_to_list labels).
  assert (kvs.*1 = (map_to_list labels).*1) as Hk.
  { unfold kvs. rewrite <- list_fmap_compose. by apply list_fmap_ext. }
  assert (NoDup kvs.*1) as Hd by (rewrite Hk; apply NoDup_fst_map_to_list).
  assert (∀ k, list_to_map (M := gmap string Json) kvs !! k = label_json <$> labels !! k) as Hl.
  { intros k. unfold kvs. rewrite list_to_map_fmap, list_to_map_to_list. apply lookup_fmap. }
  unfold json_object. set (m := fold_left _ _ _).
  assert (bt_wf m) as Hw by (apply bt_insert_all_wf; constructor).
  assert (NoDup m.*1) as Hdm by (by apply bt_wf_NoDup).
  apply labels_entries_inv; [done|]. intros k. rewrite <- Hl.
  transitivity (bt_get m k).
  - apply option_eq. intros v. rewrite <- bt_get_elem by done.
    by rewrite (elem_of_list_to_map (M := gmap string)).
  - unfold m. pose proof (json_object_get kvs k) as Hg. unfold json_object in Hg.
    rewrite json_get_bt in Hg. rewrite Hg, fold_pick_spec by done. by destruct (list_to_map kvs !! k).
Qed.

(** ** The loop is a map *)

(** The key and the label under which a message is withheld. *)
Definition withheld_under (sink : Sink) (labels : gmap string EgressLabel) (declassified_sinks : list Sink)
    (msg : Message) : option (string * EgressLabel) :=
  key ← message_egress_key msg; label ← labels !! key;
  if allows label sink || bool_decide (sink ∈ declassified_sinks) then None else Some (key, label).

Section Loop.
Context (sink : Sink) (verbosity : IndicationVerbosity).
Context (labels : gmap string EgressLabel) (ds : list Sink) (names : gmap string string).

Definition forward_message (msg : Message) : Message :=
  match withheld_under sink labels ds msg with
  | Some (key, label) => msg{{ msg_content := indication_for verbosity names msg key label }}
  | None => msg
  end.

Definition withheld_entry (msg : Message) : option WithheldEntry :=
  '(key, label) ← withheld_under sink labels ds msg;
  Some {| wh_tool_call_id := key; wh_label := label;
          wh_indication := indication_for verbosity names msg key label |}.

Definition payload_of (msg : Message) : option (string * string) :=
  '(key, _) ← withheld_under sink labels ds msg; Some (msg_content msg, key).

Definition counted (msg : Message) : bool :=
  match message_egress_key msg, withheld_under sink labels ds msg with Some _, None => true | _, _ => false end.

Definition granted (msg : Message) : bool :=
  match message_egress_key msg ≫= (labels !!.) with
  | Some label => negb (allows label sink) && bool_decide (sink ∈ ds)
  | None => false
  end.

Lemma filter_loop msgs st :
  fold_left (filter_step sink verbosity labels ds names) msgs st
  = {| out := out st ++ map forward_message msgs;
       report := {| rep_sink := rep_sink (report st);
                    withheld := withheld (report st) ++ omap withheld_entry msgs;
                    included := included (report st) + length (List.filter counted msgs);
                    declassified := declassified (report st) + length (List.filter granted msgs);
                    violations := violations (report st) |};
       payloads := payloads st ++ omap payload_of msgs |}.
Proof.
  revert st. induction msgs as [|msg msgs IH]; intros [o [s w i d v] p].
  { simpl. by rewrite !app_nil_r, !Nat.add_0_r. }
  cbn [fold_left]. rewrite IH. cbn [map omap list_omap List.filter].
  unfold filter_step, forward_message at 2, withheld_entry at 2, payload_of at 2, counted at 2, granted at 2,
    withheld_under.
  destruct (message_egress_key msg) as [key|]; simpl; [|by rewrite <- app_assoc].
  destruct (labels !! key) as [label|]; simpl.
  2: { rewrite <- !app_assoc. simpl. do 2 f_equal. lia. }
  destruct (allows label sink); simpl.
  { rewrite <- !app_assoc. simpl. do 2 f_equal. lia. }
  destruct (bool_decide (sink ∈ ds)); simpl.
  - rewrite <- !app_assoc. simpl. do 2 f_equal; lia.
  - unfold constant. by rewrite <- !app_assoc.
Qed.

End Loop.

(** [filter_request], read off the loop. *)
Lemma filter_request_eq sha err sink v req labels :
  labels ≠ ∅ →
  filter_request sha err sink v req labels =
  let ds := sinks_or_none err req in
  let names := tool_names (messages req) in
  let sent := map (forward_message sink v labels ds names) (messages req) in
  let r := {| rep_sink := sink_str sink;
              withheld := omap (withheld_entry sink v labels ds names) (messages req);
              included := length (List.filter (counted sink labels ds) (messages req));
              declassified := length (List.filter (granted sink labels ds) (messages req));
              violations := omap (violation_of sha sent) (omap (payload_of sink labels ds) (messages req)) |} in
  (stash_report (req{{ messages := sent }}) r, r).
Proof.
  intros Hl. unfold filter_request. rewrite bool_decide_eq_false_2 by done. by rewrite filter_loop.
Qed.

(** ** What the provider cannot see *)

Definition erase (m : Message) : Message := m{{ msg_content := "" }}.

Section Blind.
Context (sha256_hex : string → string) (serde_error : Json → string).
Context (sink : Sink) (verbosity : IndicationVerbosity).

Definition request_labels (req : CompletionRequest) : gmap string EgressLabel :=
  match read_label_map serde_error req with Ok (Some m) => m | _ => ∅ end.

Definition withheld_in (req : CompletionRequest) (m : Message) : Prop :=
  is_Some (withheld_under sink (request_labels req) (sinks_or_none serde_error req) m).

(** Two requests alike in everything but the text of withheld messages. *)
Definition indistinguishable (r1 r2 : CompletionRequest) : Prop :=
  r1{{ messages := [] }} = r2{{ messages := [] }}
  ∧ Forall2 (λ m1 m2, m1 = m2 ∨ (erase m1 = erase m2 ∧ withheld_in r1 m1)) (messages r1) (messages r2).

Lemma erase_key m1 m2 : erase m1 = erase m2 → message_egress_key m1 = message_egress_key m2.
Proof. destruct m1, m2. by intros [= -> -> -> -> -> ->]. Qed.

Lemma erase_withheld labels ds m1 m2 :
  erase m1 = erase m2 → withheld_under sink labels ds m1 = withheld_under sink labels ds m2.
Proof. intros H. unfold withheld_under. by rewrite (erase_key _ _ H). Qed.

Lemma erase_forward labels ds names m1 m2 :
  erase m1 = erase m2 → is_Some (withheld_under sink labels ds m1) →
  forward_message sink verbosity labels ds names m1 = forward_message sink verbosity labels ds names m2
  ∧ withheld_entry sink verbosity labels ds names m1 = withheld_entry sink verbosity labels ds names m2.
Proof.
  intros H [[k l] Hk]. unfold forward_message, withheld_entry.
  rewrite <- (erase_withheld labels ds _ _ H), Hk. simpl.
  destruct m1, m2. revert H. by intros [= -> -> -> -> -> ->].
Qed.

Lemma same_metadata r1 r2 :
  r1{{ messages := [] }} = r2{{ messages := [] }} →
  read_label_map serde_error r1 = read_label_map serde_error r2
  ∧ read_declassified_sinks serde_error r1 = read_declassified_sinks serde_error r2.
Proof. destruct r1, r2. by intros [= -> -> -> -> -> -> -> ->]. Qed.

Lemma same_withheld r1 r2 m1 m2 :
  r1{{ messages := [] }} = r2{{ messages := [] }} → erase m1 = erase m2 →
  withheld_in r1 m1 → withheld_in r2 m2.
Proof.
  intros H He. destruct (same_metadata _ _ H) as [Hl Hd].
  unfold withheld_in, request_labels, sinks_or_none. by rewrite Hl, Hd, (erase_withheld _ _ _ _ He).
Qed.

#[export] Instance indistinguishable_equivalence : Equivalence indistinguishable.
Proof.
  split.
  - intros r. split; [done|]. apply Forall_Forall2_diag, Forall_forall. by left.
  - intros r1 r2 [H HF]. split; [done|]. apply Forall2_flip. eapply Forall2_impl; [exact HF|].
    intros m1 m2 [->|[He Hw]]; [by left|]. right. split; [done|]. by eapply same_withheld.
  - intros r1 r2 r3 [H12 HF] [H23 HG]. split; [by rewrite H12|].
    eapply Forall2_trans; [|exact HF|exact HG].
    intros m1 m2 m3 [->|[He Hw]] [->|[He' Hw']]; [by left| |by right|].
    + right. split; [done|]. symmetry in H12. by eapply (same_withheld r2 r1 m2 m2).
    + right. split; [by rewrite He|done].
Qed.

Lemma indistinguishable_out labels ds r1 r2 names :
  request_labels r1 = labels → sinks_or_none serde_error r1 = ds → indistinguishable r1 r2 →
  map (forward_message sink verbosity labels ds names) (messages r1)
  = map (forward_message sink verbosity labels ds names) (messages r2)
  ∧ omap (withheld_entry sink verbosity labels ds names) (messages r1)
    = omap (withheld_entry sink verbosity labels ds names) (messages r2)
  ∧ List.filter (counted sink labels ds) (messages r1) = List.filter (counted sink labels ds) (messages r2)
  ∧ length (List.filter (granted sink labels ds) (messages r1))
    = length (List.filter (granted sink labels ds) (messages r2))
  ∧ flat_map msg_tool_calls (messages r1) = flat_map msg_tool_calls (messages r2).
Proof.
  intros <- <- [_ HF]. unfold withheld_in in HF.
  set (ls := request_labels r1) in *. set (ds := sinks_or_none serde_error r1) in *.
  induction HF as [|m1 m2 l1 l2 Hm HF (E1 & E2 & E3 & E4 & E5)]; [done|].
  cbn [map omap list_omap List.filter flat_map].
  destruct Hm as [->|[He Hw]].
  { rewrite E1, E2, E3, E5. by destruct (granted sink ls ds m2); simpl; rewrite ?E4. }
  destruct (erase_forward ls ds names _ _ He Hw) as [-> ->].
  assert (∀ m, is_Some (withheld_under sink ls ds m) →
    counted sink ls ds m = false ∧ granted sink ls ds m = false) as Hg.
  { intros m [kl Hkl]. revert Hkl. unfold counted, granted, withheld_under.
    destruct (message_egress_key m) as [key|]; simpl; [|done].
    destruct (ls !! key) as [label|]; simpl; [|done].
    by destruct (allows label sink), (bool_decide (sink ∈ ds)). }
  destruct (Hg m1 Hw) as [-> ->]. rewrite (erase_withheld _ _ _ _ He) in Hw. destruct (Hg m2 Hw) as [-> ->].
  rewrite E1, E2, E3, E4, E5. repeat split. f_equal. destruct m1, m2. by revert He; intros [= -> -> -> -> -> ->].
Qed.

Lemma indistinguishable_clear r1 r2 : indistinguishable r1 r2 → request_labels r1 = ∅ → r1 = r2.
Proof.
  intros [H HF] Hl. assert (messages r1 = messages r2) as Hm.
  { apply list_eq_Forall2. eapply Forall2_impl; [exact HF|]. intros m1 m2 [->|[_ Hw]]; [done|].
    revert Hw. unfold withheld_in, withheld_under. rewrite Hl. destruct (message_egress_key m1); simpl; [|by intros []].
    rewrite lookup_empty. by intros []. }
  destruct r1, r2. simpl in Hm. subst. by injection H as -> -> -> -> -> -> -> ->.
Qed.

(** The forwarded request, when one is. *)
Lemma outbound_ok what r f :
  outbound sha256_hex serde_error sink verbosity what r = Ok f ↔
  (request_labels r = ∅ ∧ is_ok (read_label_map serde_error r) = true ∧ f = r)
  ∨ (request_labels r ≠ ∅ ∧ is_ok (read_declassified_sinks serde_error r) = true
     ∧ ∃ rep, filter_request sha256_hex serde_error sink verbosity r (request_labels r) = (f, rep)
              ∧ violations rep = []).
Proof.
  unfold outbound, request_labels. destruct (read_label_map serde_error r) as [[m|]|e]; simpl; [|naive_solver..].
  case_bool_decide as Hm; [naive_solver|].
  destruct (read_declassified_sinks serde_error r) as [ds|e]; simpl; [|naive_solver].
  destruct (filter_request _ _ _ _ r m) as [f' rep]. unfold has_violations.
  split.
  - destruct (violations rep) eqn:Ev; [|done]. intros [= ->]. right. naive_solver.
  - intros [?|(_ & _ & rep' & [= <- <-] & ->)]; [naive_solver|done].
Qed.

Definition tripped (r : CompletionRequest) : Prop :=
  ∀ what, outbound sha256_hex serde_error sink verbosity what r = Err (VIOLATION_ERROR what).

Lemma filter_indistinguishable r1 r2 labels :
  indistinguishable r1 r2 → request_labels r1 = labels → labels ≠ ∅ →
  ∀ p1 p2, filter_request sha256_hex serde_error sink verbosity r1 labels = p1 →
           filter_request sha256_hex serde_error sink verbosity r2 labels = p2 →
  violations p1.2 = [] → violations p2.2 = [] → p1 = p2.
Proof.
  intros Hi Hl Hne p1 p2 <- <-. rewrite !filter_request_eq by done. cbv zeta.
  assert (sinks_or_none serde_error r2 = sinks_or_none serde_error r1) as ->.
  { unfold sinks_or_none. by rewrite (proj2 (same_metadata _ _ (proj1 Hi))). }
  pose proof (λ names, indistinguishable_out labels _ r1 r2 names Hl eq_refl Hi) as Ho.
  assert (tool_names (messages r2) = tool_names (messages r1)) as ->.
  { unfold tool_names. by destruct (Ho ∅) as (_ & _ & _ & _ & ->). }
  destruct (Ho (tool_names (messages r1))) as (-> & -> & -> & -> & _). cbn [snd violations]. intros -> ->.
  f_equal. destruct Hi as [Hr _]. unfold stash_report. destruct r1, r2. by injection Hr as -> -> -> -> -> -> -> ->.
Qed.

End Blind.

(** C22: The provider behind the chokepoint answers two requests alike that differ
    only in withheld text, unless one of them trips the assertion: apart from
    that bit nothing the provider receives depends on withheld content.  Whatever
    the driver behind the chokepoint does with a request, by either call. *)
Theorem withheld_content_is_invisible sha256_hex serde_error inner sink verbosity r1 r2 :
  indistinguishable serde_error sink r1 r2 →
  let d := with_verbosity sha256_hex serde_error inner sink verbosity in
  (complete d r1 = complete d r2 ∧ stream d r1 = stream d r2)
  ∨ tripped sha256_hex serde_error sink verbosity r1 ∨ tripped sha256_hex serde_error sink verbosity r2.
Proof.
  intros Hi. simpl. destruct (same_metadata serde_error r1 r2 (proj1 Hi)) as [El Ed].
  unfold tripped, outbound. rewrite <- El, <- Ed.
  destruct (read_label_map serde_error r1) as [[m|]|e] eqn:E; simpl; [|left|by left].
  2: { assert (r1 = r2) as ->; [|done]. apply (indistinguishable_clear serde_error sink); [done|].
       unfold request_labels. by rewrite E. }
  case_bool_decide as Hm.
  { left. assert (r1 = r2) as ->; [|done]. apply (indistinguishable_clear serde_error sink); [done|].
    unfold request_labels. by rewrite E. }
  destruct (read_declassified_sinks serde_error r1) as [ds|e]; simpl; [|by left].
  destruct (filter_request _ _ _ _ r1 m) as [f1 rep1] eqn:F1, (filter_request _ _ _ _ r2 m) as [f2 rep2] eqn:F2.
  unfold has_violations. destruct (violations rep1) eqn:V1; [|by right; left].
  destruct (violations rep2) eqn:V2; [|by right; right].
  left. assert ((f1, rep1) = (f2, rep2)) as [= -> ->]; [|done].
  eapply (filter_indistinguishable sha256_hex serde_error sink verbosity r1 r2 m); try done.
  unfold request_labels. by rewrite E.
Qed.

(** ** What is forwarded, and what the audit says of it *)

Lemma find_echo_some ws idx payload key msgs :
  is_Some (find_echo ws idx payload key msgs) ↔
  ∃ j m, msgs !! j = Some m ∧ ws ≤ idx + j ∧ message_egress_key m ≠ Some key
         ∧ contains (msg_content m) payload = true.
Proof.
  revert idx. induction msgs as [|m msgs IH]; intros idx; cbn [find_echo].
  { split; [by intros []|]. by intros (j & m & H & _). }
  destruct ((idx <? ws) || bool_decide (message_egress_key m = Some key)
            || negb (contains (msg_content m) payload)) eqn:E.
  - rewrite IH. split; intros (j & m' & Hj & Hw & Hk & Hc).
    + exists (S j), m'. repeat split; [done|lia|done|done].
    + destruct j as [|j]; [|exists j, m'; repeat split; [done|lia|done|done]].
      exfalso. injection Hj as ->. rewrite Hc, orb_false_r in E.
      rewrite (bool_decide_eq_false_2 _ Hk), orb_false_r in E. apply Nat.ltb_lt in E. lia.
  - split; [|by eauto]. intros _. apply orb_false_iff in E as [[E1 E2]%orb_false_iff E3].
    exists 0, m. split; [done|]. split; [apply Nat.ltb_ge in E1; lia|].
    split; [by apply bool_decide_eq_false in E2|by apply negb_false_iff in E3].
Qed.

(** Withheld text that turns up in a recent message of the filtered request
    other than the one it was taken from. *)
Definition echoed (sink : Sink) (labels : gmap string EgressLabel) (ds : list Sink)
    (msgs sent : list Message) : Prop :=
  ∃ m key label j m',
    m ∈ msgs ∧ withheld_under sink labels ds m = Some (key, label) ∧ msg_content m ≠ ""
    ∧ sent !! j = Some m' ∧ length sent - ASSERTION_WINDOW_MESSAGES ≤ j
    ∧ message_egress_key m' ≠ Some key ∧ contains (msg_content m') (msg_content m) = true.

Lemma violations_echoed sha sink labels ds msgs sent :
  omap (violation_of sha sent) (omap (payload_of sink labels ds) msgs) ≠ [] ↔ echoed sink labels ds msgs sent.
Proof.
  assert (∀ p, is_Some (violation_of sha sent p) ↔
    p.1 ≠ "" ∧ is_Some (find_echo (length sent - ASSERTION_WINDOW_MESSAGES) 0 p.1 p.2 sent)) as Hv.
  { intros [p k]. unfold violation_of, str_is_empty. simpl. destruct p; simpl.
    - split; [by intros []|by intros []].
    - destruct (find_echo _ _ _ _ _); simpl; split; [eauto|eauto|by intros []|by intros [_ []]]. }
  split.
  - intros Hne. destruct (omap _ _) as [|v vs] eqn:E; [done|].
    assert (v ∈ omap (violation_of sha sent) (omap (payload_of sink labels ds) msgs)) as Hin
      by (rewrite E; left).
    apply list_elem_of_omap in Hin as ([p k] & Hp & Hpv). apply list_elem_of_omap in Hp as (m & Hm & Hmp).
    destruct (proj1 (Hv (p, k))) as [Hpe Hf]; [by eauto|].
    apply find_echo_some in Hf as (j & m' & Hj & Hw & Hk & Hc).
    unfold payload_of in Hmp. destruct (withheld_under sink labels ds m) as [[k' l]|] eqn:Hu; [|done].
    injection Hmp as <- <-. exists m, k', l, j, m'. done.
  - intros (m & key & label & j & m' & Hm & Hu & Hne & Hj & Hw & Hk & Hc) E.
    destruct (proj2 (Hv (msg_content m, key))) as [v Hvv].
    { split; [done|]. apply find_echo_some. by exists j, m'. }
    assert (v ∈ @nil AssertionViolation) as []%not_elem_of_nil.
    rewrite <- E. apply list_elem_of_omap. exists (msg_content m, key). split; [|done].
    apply list_elem_of_omap. exists m. split; [done|]. unfold payload_of. by rewrite Hu.
Qed.

(** C23: A request with labels is forwarded with every withheld message replaced by its
    indication, every other message and field as it was, and with the report the
    lifecycle recomputes for the audit.  It is refused in two cases: when the list
    of declassified sinks in its metadata is malformed; and when the text of a
    withheld message occurs in the text of one of the last forty messages of the
    filtered request that is not under the same key, an indication included - then
    the recomputed report shows a violation.  Nothing else is looked at: neither
    older messages nor the arguments of tool calls nor reasoning. *)
Theorem forwarded_and_reported_alike sha256_hex serde_error sink what r labels :
  read_label_map serde_error r = Ok (Some labels) → labels ≠ ∅ →
  let out := outbound sha256_hex serde_error sink Descriptive what r in
  match read_declassified_sinks serde_error r with
  | Err e => out = Err e
  | Ok ds =>
      let sent := map (forward_message sink Descriptive labels ds (tool_names (messages r))) (messages r) in
      let report := compute_filter_report sha256_hex serde_error r sink in
      withheld report = omap (withheld_entry sink Descriptive labels ds (tool_names (messages r))) (messages r)
      ∧ ((echoed sink labels ds (messages r) sent ∧ has_violations report = true
          ∧ out = Err (VIOLATION_ERROR what))
         ∨ (¬ echoed sink labels ds (messages r) sent ∧ has_violations report = false
            ∧ out = Ok (stash_report (r{{ messages := sent }}) report)))
  end.
Proof.
  intros Hl Hne. cbv zeta. destruct (read_declassified_sinks serde_error r) as [ds|e] eqn:Hd;
    unfold compute_filter_report, outbound; rewrite Hl, Hd; cbn [rbind];
    rewrite !bool_decide_eq_false_2 by done; [|done].
  rewrite filter_request_eq by done. cbv zeta. cbn [snd withheld].
  assert (sinks_or_none serde_error r = ds) as -> by (unfold sinks_or_none; by rewrite Hd).
  split; [done|]. set (sent := map _ (messages r)).
  pose proof (violations_echoed sha256_hex sink labels ds (messages r) sent) as Hv.
  set (vs := omap _ _) in *. set (rep := Build_FilterReport _ _ _ _ _).
  assert (has_violations rep = match vs with [] => false | _ => true end) as -> by done.
  destruct vs as [|v vs']; [right|left].
  - split; [by intros He%Hv|done].
  - split; [by apply Hv|done].
Qed.

(** A malformed map or flag is never forwarded, by either call of any driver. *)
Lemma malformed_metadata_is_refused sha256_hex serde_error inner sink verbosity r :
  is_ok (read_label_map serde_error r) = false
  ∨ (request_labels serde_error r ≠ ∅ ∧ is_ok (read_declassified_sinks serde_error r) = false) →
  let d := with_verbosity sha256_hex serde_error inner sink verbosity in
  is_ok (complete d r) = false ∧ (stream d r).1 = [] ∧ is_ok (stream d r).2 = false.
Proof.
  intros H. simpl. unfold outbound, request_labels in *.
  destruct (read_label_map serde_error r) as [[m|]|e]; simpl in *; [|naive_solver..].
  destruct H as [H|[Hm Hd]]; [done|]. rewrite bool_decide_eq_false_2 by done.
  by destruct (read_declassified_sinks serde_error r).
Qed.

(** A refusal of the assertion does not send the request to the next preset. *)
Lemma tripped_is_final what :
  what ∈ ["completion"; "stream"] → is_failover_eligible_error (VIOLATION_ERROR what) = false.
Proof. rewrite !elem_of_cons. by intros [->|[->|[]%not_elem_of_nil]]. Qed.

(** ** At work *)

Module Sample.

Definition sha (s : string) : string := "0123456789abcdef".
Definition err (v : Json) : string := "expected a map".

Definition labelled (msgs : list Message) : CompletionRequest :=
  (simple "m" msgs){{ metadata := Some {[ EGRESS_LABELS_KEY := labels_to_json
     (<["call_1" := local_only]> (<["call_2" := local_only]> {[ "msg_9" := local_only ]})) ]} }}.

Definition call (id name arguments : string) : ToolCall :=
  {| call_id := id; call_name := name; call_arguments := arguments |}.

Definition asking : Message := (assistant ""){{ msg_tool_calls := [call "call_1" "email.read" "{}"] }}.

Definition with_mail (text : string) : CompletionRequest := labelled [asking; tool_result "call_1" text].

Definition remote (r : CompletionRequest) : result CompletionRequest string :=
  outbound sha err RemoteModel Descriptive "completion" r.

Definition contents (r : result CompletionRequest string) : result (list string) string :=
  match r with Ok f => Ok (map msg_content (messages f)) | Err e => Err e end.

Example mail_is_withheld :
  contents (remote (with_mail "secret"))
  = Ok [""; "[withheld: 1× email.read result — policy local_only]"]
  ∧ contents (outbound sha err LocalModel Descriptive "completion" (with_mail "secret")) = Ok [""; "secret"].
Proof. split; vm_compute; reflexivity. Qed.

(** The arguments of the calls and the reasoning of a withheld message leave. *)
Definition thoughts : Message :=
  (assistant "the mail says: secret"){{ msg_id := Some "msg_9" }}
    {{ msg_reasoning_content := Some "secret" }}{{ msg_tool_calls := [call "c" "web.call" "secret"] }}.

Example withheld_reasoning_leaves :
  match remote (labelled [thoughts]) with
  | Ok f => map (λ m, (msg_content m, msg_reasoning_content m, map call_arguments (msg_tool_calls m))) (messages f)
            = [("[withheld: 1 result — policy local_only]", Some "secret", ["secret"])]
  | Err _ => False
  end.
Proof. vm_compute. reflexivity. Qed.

(** The assertion reads texts only: withheld text in the arguments of a call of
    another message passes. *)
Example echo_in_arguments_leaves :
  match remote (labelled [tool_result "call_1" "secret";
                          (assistant ""){{ msg_tool_calls := [call "c" "web.call" "secret"] }}]) with
  | Ok f => map (λ m, map call_arguments (msg_tool_calls m)) (messages f) = [[]; ["secret"]]
  | Err _ => False
  end.
Proof. vm_compute. reflexivity. Qed.

(** A short result blocks every completion: it occurs in the indication of the next. *)
Example short_result_trips :
  remote (labelled [tool_result "call_1" "1"; tool_result "call_2" "x"]) = Err (VIOLATION_ERROR "completion").
Proof. vm_compute. reflexivity. Qed.

End Sample.

Lemma with_mail_indistinguishable a b :
  indistinguishable Sample.err RemoteModel (Sample.with_mail a) (Sample.with_mail b).
Proof.
  split; [done|]. constructor; [by left|]. constructor; [|constructor]. right. split; [done|].
  eexists. vm_compute. reflexivity.
Qed.

Lemma withheld_content_is_invisible_witness :
  complete (new Sample.sha Sample.err
              {| complete := λ r, Ok (text_only (String.concat "," (map msg_content (messages r))));
                 stream := λ r, ([], Ok (text_only "")); request_timeout := 120; ttfb_timeout := None |}
              RemoteModel) (Sample.with_mail "secret")
  = Ok (text_only ",[withheld: 1× email.read result — policy local_only]")
  ∧ ∃ inner, let d := with_verbosity Sample.sha Sample.err inner RemoteModel Descriptive in
    (complete d (Sample.with_mail "a") = complete d (Sample.with_mail "b")
     ∧ stream d (Sample.with_mail "a") = stream d (Sample.with_mail "b"))
    ∨ tripped Sample.sha Sample.err RemoteModel Descriptive (Sample.with_mail "a")
    ∨ tripped Sample.sha Sample.err RemoteModel Descriptive (Sample.with_mail "b").
Proof.
  split; [vm_compute; reflexivity|].
  exists {| complete := λ r, Ok (text_only "x"); stream := λ r, ([], Ok (text_only "x"));
            request_timeout := 120; ttfb_timeout := None |}.
  apply withheld_content_is_invisible, with_mail_indistinguishable.
Defined.

Lemma forwarded_and_reported_alike_witness :
  let r := Sample.with_mail "secret" in
  let labels := <["call_1" := local_only]> (<["call_2" := local_only]> {[ "msg_9" := local_only ]}) in
  let sent := map (forward_message RemoteModel Descriptive labels [] (tool_names (messages r))) (messages r) in
  let report := compute_filter_report Sample.sha Sample.err r RemoteModel in
  let out := outbound Sample.sha Sample.err RemoteModel Descriptive "completion" r in
  withheld report = omap (withheld_entry RemoteModel Descriptive labels [] (tool_names (messages r))) (messages r)
  ∧ ((echoed RemoteModel labels [] (messages r) sent ∧ has_violations report = true
      ∧ out = Err (VIOLATION_ERROR "completion"))
     ∨ (¬ echoed RemoteModel labels [] (messages r) sent ∧ has_violations report = false
        ∧ out = Ok (stash_report (r{{ messages := sent }}) report))).
Proof.
  pose proof (forwarded_and_reported_alike Sample.sha Sample.err RemoteModel "completion" (Sample.with_mail "secret")
    (<["call_1" := local_only]> (<["call_2" := local_only]> {[ "msg_9" := local_only ]}))) as H.
  replace (read_declassified_sinks Sample.err (Sample.with_mail "secret")) with (Ok (A := list Sink) (E := string) []) in H
    by (vm_compute; reflexivity).
  apply H; [|done]. unfold read_label_map, meta_get, Sample.with_mail, Sample.labelled. vm_compute. reflexivity.
Defined.
