(* ===== verification/CompletionTurn.v ===== *)
(** * A completion of a turn
    (autonoetic-gateway/src/runtime/lifecycle.rs, runtime/middleware.rs, and
    [emit_chokepoint_events] of runtime/egress_labeler.rs)

    How the executor uses the chokepoint: the metadata it attaches to a request,
    the pre-process hook that may rewrite the request, the label plane put back
    after the hook, the primary call with its audit, the label of the response,
    the failover chain, and the commit of the assistant message.

    The fields of the request other than its metadata, the selection of the
    driver ([EgressSelection]), the cost preflight and the reservation of a round
    ([Budget]) are arguments; [call] is the stream of a driver under the stall
    detector.  The log of the session tracer is left out. *)

From Stdlib Require Import Ascii String ZArith Lia.
From stdpp Require Import prelude gmap strings list.
From coqutil Require Import Datatypes.RecordSetters.
From S2P Require Import Prelude RustStr Json Llm Egress LabelStore EgressLabeler EgressRouting ContentStore.
From S2P Require Import Grants Timeline Declassification LlmDriver EgressChokepoint.
Import DoubleBraceUpdate.

Open Scope string_scope.
Open Scope nat_scope.
Open Scope list_scope.

(** ** The label plane of a request *)

Section Plane.
Context (parse_rfc3339 : string → option Z).

(** The flag of the session, from the grants; [None] without a store. *)
Definition declassified_sinks_meta (labels : gmap string EgressLabel) (grants : option DeclassTable)
    (session now : string) : option Json :=
  if bool_decide (labels = ∅) then None
  else t ← grants;
       if session_sink_declassified parse_rfc3339 t session (root_session_id session) RemoteModel now
       then Some (json_strings ["remote_model"]) else None.

End Plane.

Definition request_metadata (labels : gmap string EgressLabel) (flag : option Json)
    : option (gmap string Json) :=
  if bool_decide (labels = ∅) then None
  else
    let m := {[ EGRESS_LABELS_KEY := labels_to_json labels ]} in
    Some (match flag with Some v => <[EGRESS_DECLASSIFIED_SINKS_KEY := v]> m | None => m end).

(** What is put back after the hook. *)
Definition with_labels (labels : gmap string EgressLabel) (metadata : option (gmap string Json))
    : gmap string Json :=
  let needs_reattach := match metadata with
                        | Some m => negb (bool_decide (is_Some (m !! EGRESS_LABELS_KEY)))
                        | None => true
                        end in
  let meta := default ∅ metadata in
  if needs_reattach then <[EGRESS_LABELS_KEY := labels_to_json labels]> meta else meta.

Definition reattach (labels : gmap string EgressLabel) (flag : option Json) (req : CompletionRequest)
    : CompletionRequest :=
  if bool_decide (labels = ∅) then req
  else
    let meta := with_labels labels (metadata req) in
    req{{ metadata := Some (match flag with
                            | Some v => <[EGRESS_DECLASSIFIED_SINKS_KEY := v]> meta
                            | None => delete EGRESS_DECLASSIFIED_SINKS_KEY meta
                            end) }}.

(** ** The pre-process hook *)

Record HookRun := { exit_success : bool; hook_stdout : string; hook_stderr : string }.

Section Hook.
(** [serde_json::from_str], [from_value::<CompletionRequest>]. *)
Context (parse_json : string → option Json) (request_from_json : Json → option CompletionRequest).

Definition apply_middleware_pre (req : CompletionRequest) (ran : result HookRun string)
    : result CompletionRequest string :=
  output <-? ran;
  if exit_success output then
    match parse_json (hook_stdout output) with
    | None => Err "Pre-process hook returned invalid JSON"
    | Some transformed =>
        match request_from_json transformed with
        | Some new_req => Ok new_req
        | None =>
            match json_get transformed "skip_llm" ≫= json_as_bool with
            | None => Ok req
            | Some skip =>
                let meta := <["skip_llm" := JBool skip]> (default ∅ (metadata req)) in
                Ok (req{{ metadata := Some
                  (match json_get transformed "assistant_reply" ≫= json_as_str with
                   | Some reply => <["assistant_reply" := JString reply]> meta
                   | None => meta
                   end) }})
            end
        end
    end
  else Err ("Pre-process hook failed: " ++ hook_stderr output)%string.

End Hook.

Definition skip_llm (req : CompletionRequest) : bool :=
  bool_decide ((meta_get req "skip_llm" ≫= json_as_bool) = Some true).

Definition assistant_reply (req : CompletionRequest) : string :=
  default "" (meta_get req "assistant_reply" ≫= json_as_str).

(** ** The label of the response *)

(** One message of the history; the flag tells whether any label was met. *)
Definition response_step (labels : gmap string EgressLabel) (sink : Sink) (acc : EgressLabel * bool)
    (m : Message) : EgressLabel * bool :=
  match message_egress_key m ≫= (labels !!.) with
  | Some lbl => if allows lbl sink then (restrict acc.1 lbl, true) else acc
  | None => acc
  end.

Definition response_label (labels : gmap string EgressLabel) (sink : Sink) (history : list Message)
    : option EgressLabel :=
  let '(acc, any) := fold_left (response_step labels sink) history (unrestricted, false) in
  if any && negb (is_unrestricted acc) then Some acc else None.

(** [fresh] is the minted message id. *)
Definition commit_assistant_egress (fresh : string) (msg : Message) (label : option EgressLabel)
    (labels : gmap string EgressLabel) : Message * gmap string EgressLabel :=
  match label with
  | None => (msg, labels)
  | Some label =>
      let id := default fresh (msg_id msg) in
      (msg{{ msg_id := Some id }}, <[id := label]> labels)
  end.

(** ** The audit of a call *)

Section Audit.
Context (json_to_string : Json → string).

(** [stamps] are the ids and the clock readings of the events, in order. *)
Definition emit_chokepoint_events (stamps : nat → Stamp) (db : LabelDb) (report : FilterReport)
    (preset session_id agent_id : string) (turn_id : option string) : LabelDb :=
  if negb (withheld_any report) && negb (has_violations report) then db
  else
    let n := length (withheld report) in
    let db := fold_left (λ db ie,
      emit_egress_event json_to_string (stamps ie.1) db "egress.envelope_withheld" (wh_tool_call_id ie.2)
        (Some (json_object
           [("tool_call_id", JString (wh_tool_call_id ie.2)); ("target_sink", JString (rep_sink report));
            ("label", label_json (wh_label ie.2)); ("indication", JString (wh_indication ie.2))]))
        session_id agent_id turn_id "egress_envelope_withheld") (imap pair (withheld report)) db in
    let db := emit_egress_event json_to_string (stamps n) db "egress.request_filtered" preset
      (Some (json_object
         [("target_sink", JString (rep_sink report)); ("preset", JString preset);
          ("withheld_count", JNumber (Z.of_nat n)); ("included_count", JNumber (Z.of_nat (included report)));
          ("violation_count", JNumber (Z.of_nat (length (violations report))))]))
      session_id agent_id turn_id "egress_request_filtered" in
    fold_left (λ db iv,
      emit_egress_event json_to_string (stamps (S n + iv.1)) db "egress.assertion_violation"
        (av_tool_call_id iv.2)
        (Some (json_object
           [("tool_call_id", JString (av_tool_call_id iv.2)); ("target_sink", JString (rep_sink report));
            ("payload_digest", JString (payload_digest iv.2));
            ("found_in_message_index", JNumber (Z.of_nat (found_in_message_index iv.2)))]))
        session_id agent_id turn_id "egress_assertion_violation") (imap pair (violations report)) db.

End Audit.

(** ** The failover chain *)

(** The fields of a preset in the gateway configuration that a fallback uses. *)
Record FallbackPreset := {
  fp_provider : option string;
  fp_model : option string;
  fp_temperature : option Z;
  fp_chat_only : option bool;
  fp_context_window_tokens : option Z;
  fp_base_url : option string;
  fp_api_key_env : option string;
  fp_thinking : option ThinkingConfig;
  fp_egress_class : option EgressClass;
  fp_request_timeout_secs : option Z;
  fp_ttfb_timeout_secs : option Z;
}.

(** A fallback is the names of a preset, a provider and a model. *)
Definition fallback_config (fb : string * string * string) (preset : FallbackPreset) : LlmConfig :=
  {| cfg_provider := default fb.1.2 (fp_provider preset);
     cfg_model := default fb.2 (fp_model preset);
     cfg_temperature := default 0%Z (fp_temperature preset);
     cfg_fallback_provider := None; cfg_fallback_model := None;
     cfg_chat_only := default false (fp_chat_only preset);
     cfg_context_window_tokens := fp_context_window_tokens preset;
     cfg_max_tokens := None; cfg_base_url := fp_base_url preset; cfg_api_key_env := fp_api_key_env preset;
     cfg_routing_preset := Some fb.1.1; cfg_thinking := fp_thinking preset;
     cfg_egress_class := fp_egress_class preset;
     cfg_request_timeout_secs := fp_request_timeout_secs preset;
     cfg_ttfb_timeout_secs := fp_ttfb_timeout_secs preset |}.

Inductive TurnError := CostExhausted (e : string) | RoundsExhausted (e : string) | TurnFailed (e : string).

Record CompletionResult := {
  response : CompletionResponse;
  actual_model : string;
  response_egress_label : option EgressLabel;
}.

Section Turn.
Context {B : Type}.
Context (sha256_hex : string → string) (serde_error : Json → string) (json_to_string : Json → string).
(** [build_driver] on a configuration. *)
Context (build : LlmConfig → result LlmDriver string).
(** The cost preflight of a model, the reservation of a round of the tree, and
    the stream of a driver under the stall detector. *)
Context (cost_preflight : string → option string) (reserve_llm_round : B → result B string).
Context (call : LlmDriver → CompletionRequest → result CompletionResponse string).

Definition fallback_driver (presets : option (gmap string FallbackPreset)) (fb : string * string * string)
    : option LlmDriver :=
  cfg ← presets; preset ← cfg !! fb.1.1;
  match build (fallback_config fb preset) with Ok d => Some d | Err _ => None end.

(** The checks before each call. *)
Definition admit_call (b : B) (model : string) : result B TurnError :=
  match cost_preflight model with
  | Some e => Err (CostExhausted e)
  | None => match reserve_llm_round b with Ok b => Ok b | Err e => Err (RoundsExhausted e) end
  end.

Fixpoint try_fallbacks (presets : option (gmap string FallbackPreset)) (req : CompletionRequest)
    (chain : list (string * string * string)) (b : B) (last_err : string)
    : result (CompletionResponse * string) TurnError :=
  match chain with
  | [] => Err (TurnFailed last_err)
  | fb :: rest =>
      match fallback_driver presets fb with
      | None => try_fallbacks presets req rest b last_err
      | Some d =>
          b <-? admit_call b fb.2;
          match call d req with
          | Ok resp => Ok (resp, fb.2)
          | Err e => try_fallbacks presets req rest b e
          end
      end
  end.

(** What routing chose for the completion. *)
Record Selected := {
  sel_driver : LlmDriver;
  sel_class : option EgressClass;
  sel_model : string;
  sel_chain : list (string * string * string);
}.

Definition audited_sink (class : option EgressClass) : Sink :=
  match class with Some c => as_sink c | None => RemoteModel end.

Record TurnSite := {
  site_session : string;
  site_agent : string;
  site_turn : string;
  site_routed_model : string;
}.

(** The call of the selected driver, the audit and the label, then the chain. *)
Definition run_completion (stamps : nat → Stamp) (site : TurnSite) (labels : gmap string EgressLabel)
    (history : list Message) (presets : option (gmap string FallbackPreset)) (sel : Selected)
    (req : CompletionRequest) (b : B) (db : option LabelDb) : option LabelDb * result CompletionResult TurnError :=
  match admit_call b (sel_model sel) with
  | Err e => (db, Err e)
  | Ok b =>
      let answer := call (sel_driver sel) req in
      let sink := audited_sink (sel_class sel) in
      let db := if bool_decide (labels = ∅) then db
                else db ← db; Some (emit_chokepoint_events json_to_string stamps db
                       (compute_filter_report sha256_hex serde_error req sink) (site_routed_model site)
                       (site_session site) (site_agent site) (Some (site_turn site))) in
      let label := if bool_decide (labels = ∅) then None else response_label labels sink history in
      (db,
       match answer with
       | Ok resp => Ok {| response := resp; actual_model := sel_model sel; response_egress_label := label |}
       | Err e =>
           if negb (is_failover_eligible_error e) then Err (TurnFailed e)
           else
             r <-? try_fallbacks presets req (sel_chain sel) b e;
             Ok {| response := r.1; actual_model := r.2; response_egress_label := label |}
       end)
  end.

(** A completion: [hook] is the result of the hook on a request, if one runs. *)
Definition complete_turn (stamps : nat → Stamp) (site : TurnSite) (labels : gmap string EgressLabel)
    (flag : option Json) (history : list Message) (presets : option (gmap string FallbackPreset))
    (sel : Selected) (base : CompletionRequest) (hook : option (CompletionRequest → result CompletionRequest string))
    (b : B) (db : option LabelDb) : option LabelDb * result CompletionResult TurnError :=
  let req := base{{ metadata := request_metadata labels flag }} in
  match match hook with Some h => h req | None => Ok req end with
  | Err e => (db, Err (TurnFailed e))
  | Ok req =>
      let req := reattach labels flag req in
      if skip_llm req
      then (db, Ok {| response := text_only (assistant_reply req); actual_model := site_routed_model site;
                      response_egress_label := None |})
      else run_completion stamps site labels history presets sel req b db
  end.

End Turn.

(** ** The label plane is the gateway's *)

Lemma request_labels_attached serde_error labels flag base :
  labels ≠ ∅ →
  let req := base{{ metadata := request_metadata labels flag }} in
  read_label_map serde_error req = Ok (Some labels)
  ∧ meta_get req EGRESS_DECLASSIFIED_SINKS_KEY = flag.
Proof.
  intros Hl. simpl. unfold read_label_map, meta_get, request_metadata. simpl.
  rewrite bool_decide_eq_false_2 by done. simpl. unfold constant.
  destruct flag as [v|]; simpl.
  - rewrite lookup_insert_ne by done. rewrite lookup_singleton_eq, labels_json_roundtrip.
    by rewrite lookup_insert_eq.
  - by rewrite lookup_singleton_eq, labels_json_roundtrip, lookup_singleton_ne.
Qed.

(** Whatever the hook made of the request, the sinks read as declassified are the
    gateway's, and a label map is there: the session's when the hook left no
    entry, else the entry of the hook.  Nothing else of the request changes. *)
Lemma reattach_spec labels flag req :
  labels ≠ ∅ →
  let r := reattach labels flag req in
  meta_get r EGRESS_DECLASSIFIED_SINKS_KEY = flag
  ∧ meta_get r EGRESS_LABELS_KEY
    = Some (default (labels_to_json labels) (meta_get req EGRESS_LABELS_KEY))
  ∧ messages r = messages req.
Proof.
  intros Hl. unfold reattach, meta_get. rewrite bool_decide_eq_false_2 by done. simpl. unfold constant.
  set (meta := with_labels labels (metadata req)).
  assert (meta !! EGRESS_LABELS_KEY
          = Some (default (labels_to_json labels) (m ← metadata req; m !! EGRESS_LABELS_KEY))) as Hm.
  { unfold meta, with_labels. destruct (metadata req) as [m|]; simpl; [|by rewrite lookup_insert_eq].
    case_bool_decide as Hs; simpl; [destruct Hs as [v Hv]; by rewrite Hv|].
    apply eq_None_not_Some in Hs. by rewrite lookup_insert_eq, Hs. }
  destruct flag as [v|]; simpl; split.
  - by rewrite lookup_insert_eq.
  - by rewrite lookup_insert_ne.
  - by rewrite lookup_delete_eq.
  - by rewrite lookup_delete_ne.
Qed.

(** A hook that keeps the entry of the label map, or drops it, leaves the label
    plane as the executor attached it. *)
Lemma hook_cannot_widen serde_error labels flag base hooked :
  labels ≠ ∅ →
  let req := base{{ metadata := request_metadata labels flag }} in
  meta_get hooked EGRESS_LABELS_KEY ∈ [None; meta_get req EGRESS_LABELS_KEY] →
  read_label_map serde_error (reattach labels flag hooked) = Ok (Some labels)
  ∧ read_declassified_sinks serde_error (reattach labels flag hooked)
    = read_declassified_sinks serde_error req.
Proof.
  intros Hl req Hk. destruct (request_labels_attached serde_error labels flag base Hl) as [Hr Hd].
  destruct (reattach_spec labels flag hooked Hl) as (H1 & H2 & _).
  fold req in Hr, Hd.
  split; [|unfold read_declassified_sinks; by rewrite H1, Hd].
  unfold read_label_map. rewrite H2.
  rewrite !elem_of_cons in Hk. destruct Hk as [->|[->|[]%not_elem_of_nil]]; simpl.
  - by rewrite labels_json_roundtrip.
  - revert Hr. unfold read_label_map. by destruct (meta_get req EGRESS_LABELS_KEY).
Qed.

(** ** The label of the response *)

Lemma response_flag labels sink history acc :
  (fold_left (response_step labels sink) history (acc, true)).2 = true.
Proof.
  revert acc. induction history as [|m history IH]; intros acc; [done|]. cbn [fold_left].
  unfold response_step at 2. destruct (message_egress_key m ≫= (labels !!.)) as [l|]; [|apply IH].
  destruct (allows l sink); apply IH.
Qed.

(** The members of the fold: those of the start that every label met allows. *)
Definition in_all_labels (labels : gmap string EgressLabel) (sink : Sink) (history : list Message)
    (s : Sink) : Prop :=
  ∀ m l, m ∈ history → message_egress_key m ≫= (labels !!.) = Some l → allows l sink = true → s ∈ l.

Lemma in_all_labels_cons labels sink m history s :
  in_all_labels labels sink (m :: history) s ↔
  (∀ l, message_egress_key m ≫= (labels !!.) = Some l → allows l sink = true → s ∈ l)
  ∧ in_all_labels labels sink history s.
Proof. unfold in_all_labels. setoid_rewrite elem_of_cons. naive_solver. Qed.

Lemma response_fold labels sink history acc any :
  let r := fold_left (response_step labels sink) history (acc, any) in
  (r.2 = false → r.1 = acc) ∧ ∀ s, s ∈ r.1 ↔ s ∈ acc ∧ in_all_labels labels sink history s.
Proof.
  revert acc any. induction history as [|m history IH]; intros acc any.
  { split; [done|]. intros s. split; [|by intros []]. intros H. split; [done|].
    by intros m l ?%not_elem_of_nil. }
  cbn [fold_left]. setoid_rewrite in_all_labels_cons.
  set (acc' := response_step labels sink (acc, any) m).
  assert (acc' = match message_egress_key m ≫= (labels !!.) with
                 | Some lbl => if allows lbl sink then (restrict acc lbl, true) else (acc, any)
                 | None => (acc, any)
                 end) as -> by done.
  destruct (message_egress_key m ≫= (labels !!.)) as [l|] eqn:E; [destruct (allows l sink) eqn:Ea|].
  - destruct (IH (restrict acc l) true) as [_ H2]. split; [by rewrite response_flag|].
    intros s. rewrite H2, restrict_inter, elem_of_intersection. naive_solver.
  - destruct (IH acc any) as [H1 H2]. split; [done|]. intros s. rewrite H2. naive_solver congruence.
  - destruct (IH acc any) as [H1 H2]. split; [done|]. intros s. rewrite H2. naive_solver.
Qed.

(** The label is the meet of the labels that allow the sink, and its absence
    means that the meet restricts nothing. *)
Lemma response_label_meet labels sink history s :
  s ∈ default unrestricted (response_label labels sink history) ↔ in_all_labels labels sink history s.
Proof.
  unfold response_label. pose proof (response_fold labels sink history unrestricted false) as [H1 H2].
  destruct (fold_left _ history _) as [acc any]. simpl in *.
  assert (default unrestricted (if any && negb (is_unrestricted acc) then Some acc else None) = acc) as ->.
  { destruct any; simpl; [|by rewrite H1]. destruct (is_unrestricted acc) eqn:E; simpl; [|done].
    symmetry. by apply is_unrestricted_spec. }
  rewrite H2. pose proof (elem_of_unrestricted s). tauto.
Qed.

Lemma response_label_bounds labels sink history m k l s :
  m ∈ history → message_egress_key m = Some k → labels !! k = Some l → allows l sink = true →
  allows l s = false →
  ∃ l', response_label labels sink history = Some l' ∧ allows l' s = false.
Proof.
  intros Hm Hk Hl Ha Hs. pose proof (response_label_meet labels sink history s) as H.
  assert (¬ in_all_labels labels sink history s) as Hn.
  { intros Hin. specialize (Hin m l Hm). rewrite Hk in Hin. specialize (Hin Hl Ha).
    apply allows_spec in Hin. congruence. }
  destruct (response_label labels sink history) as [l'|]; simpl in H.
  - exists l'. split; [done|]. apply not_true_iff_false. rewrite allows_spec. tauto.
  - pose proof (elem_of_unrestricted s). tauto.
Qed.

Lemma forward_withheld sink v labels ds names m k l :
  allows l sink = false → sink ∉ ds → message_egress_key m = Some k ∧ labels !! k = Some l →
  msg_content (forward_message sink v labels ds names m) = indication_for v names m k l.
Proof.
  intros Ha Hd [Hk Hl]. unfold forward_message, withheld_under. rewrite Hk. cbn [mbind option_bind].
  rewrite Hl. cbn [mbind option_bind]. by rewrite Ha, (bool_decide_eq_false_2 _ Hd).
Qed.

(** ** The turn *)

Section Facts.
Context {B : Type}.
Context (sha256_hex : string → string) (serde_error : Json → string) (json_to_string : Json → string).
Context (build : LlmConfig → result LlmDriver string).
Context (cost_preflight : string → option string) (reserve_llm_round : B → result B string).
Context (call : LlmDriver → CompletionRequest → result CompletionResponse string).

Lemma run_completion_label stamps site labels history presets sel req b db db' c :
  run_completion sha256_hex serde_error json_to_string build cost_preflight reserve_llm_round call
    stamps site labels history presets sel req b db = (db', Ok c) →
  response_egress_label c
  = if bool_decide (labels = ∅) then None else response_label labels (audited_sink (sel_class sel)) history.
Proof.
  unfold run_completion. destruct (admit_call _ _ b _) as [b'|e]; [|done]. simpl.
  destruct (call (sel_driver sel) req) as [resp|e]; [by intros [= <- <-]|].
  destruct (is_failover_eligible_error e); simpl; [|done].
  destruct (try_fallbacks _ _ _ _ _ _ _ _ _) as [r|e']; simpl; [by intros [= <- <-]|done].
Qed.

(** A refusal of the chokepoint ends the completion: no fallback sees the request. *)
Lemma tripped_ends_the_turn stamps site labels history presets sel req b db inner v :
  sel_driver sel = with_verbosity sha256_hex serde_error inner (audited_sink (sel_class sel)) v →
  (∀ d r, call d r = (stream d r).2) →
  tripped sha256_hex serde_error (audited_sink (sel_class sel)) v req →
  ∃ e, (run_completion sha256_hex serde_error json_to_string build cost_preflight reserve_llm_round call
    stamps site labels history presets sel req b db).2 = Err e.
Proof.
  intros Hd Hc Ht. unfold run_completion. destruct (admit_call _ _ b _) as [b'|e]; [|by eexists].
  cbn [snd]. rewrite Hc, Hd. simpl. rewrite (Ht "stream"). cbn [snd].
  rewrite tripped_is_final by (rewrite !elem_of_cons; tauto). by eexists.
Qed.

(** What a driver forwards holds an indication in the place of a withheld message. *)
Lemma outbound_withholds sink v what r f labels' ds i m k l :
  outbound sha256_hex serde_error sink v what r = Ok f →
  read_label_map serde_error r = Ok (Some labels') → read_declassified_sinks serde_error r = Ok ds →
  sink ∉ ds → messages r !! i = Some m → message_egress_key m = Some k → labels' !! k = Some l →
  allows l sink = false →
  ∃ m', messages f !! i = Some m' ∧ msg_content m' = indication_for v (tool_names (messages r)) m k l.
Proof.
  intros Ho Hl Hd Hn Hi Hk Hlk Ha. unfold outbound in Ho. rewrite Hl, Hd in Ho. cbn [rbind] in Ho.
  rewrite bool_decide_eq_false_2 in Ho by (intros ->; by rewrite lookup_empty in Hlk).
  rewrite filter_request_eq in Ho by (intros ->; by rewrite lookup_empty in Hlk).
  assert (sinks_or_none serde_error r = ds) as E by (unfold sinks_or_none; by rewrite Hd).
  cbv beta iota zeta in Ho. rewrite E in Ho. destruct (has_violations _); [done|]. injection Ho as <-.
  exists (forward_message sink v labels' ds (tool_names (messages r)) m). split.
  - change (map (forward_message sink v labels' ds (tool_names (messages r))) (messages r) !! i
      = Some (forward_message sink v labels' ds (tool_names (messages r)) m)).
    change (map ?g ?x) with (g <$> x). by rewrite list_lookup_fmap, Hi.
  - by apply forward_withheld.
Qed.

(** C24: No taint is lost on the way through a completion.  For a turn whose hook, if one
    runs, leaves the label map alone or drops it, that is not answered by the hook
    itself, and that the selected driver answers on the sink it was audited for,
    with no grant that declassifies that sink: for every labelled message of the
    history and every sink its label excludes, either the request the provider
    received holds an indication in its place; or the reply, once committed, is
    replaced by an indication in every later request to that sink that carries the
    labels and no grant for it. *)
Theorem taint_outlives_the_completion stamps site labels flag history presets sel base hook hooked b db db' c
    inner v ds m k l later fresh text :
  let req := base{{ metadata := request_metadata labels flag }} in
  let sent := reattach labels flag hooked in
  let sink := audited_sink (sel_class sel) in
  complete_turn sha256_hex serde_error json_to_string build cost_preflight reserve_llm_round call
    stamps site labels flag history presets sel base hook b db = (db', Ok c) →
  match hook with Some h => h req | None => Ok req end = Ok hooked →
  meta_get hooked EGRESS_LABELS_KEY ∈ [None; meta_get req EGRESS_LABELS_KEY] →
  skip_llm sent = false →
  sel_driver sel = with_verbosity sha256_hex serde_error inner sink v → (∀ d r, call d r = (stream d r).2) →
  call (sel_driver sel) sent = Ok (response c) →
  read_declassified_sinks serde_error sent = Ok ds → sink ∉ ds →
  m ∈ history → message_egress_key m = Some k → labels !! k = Some l → allows l later = false →
  (∃ f, outbound sha256_hex serde_error sink v "stream" sent = Ok f ∧ (stream inner f).2 = Ok (response c) ∧
     ∀ i, messages sent !! i = Some m → ∃ m', messages f !! i = Some m' ∧
       msg_content m' = indication_for v (tool_names (messages sent)) m k l) ∨
  (let '(reply, labels') := commit_assistant_egress fresh (assistant text) (response_egress_label c) labels in
   ∃ key l', ∀ labels'' r ds' v' what f i,
     labels' ⊆ labels'' → read_label_map serde_error r = Ok (Some labels'') →
     read_declassified_sinks serde_error r = Ok ds' → later ∉ ds' → messages r !! i = Some reply →
     outbound sha256_hex serde_error later v' what r = Ok f →
     ∃ m', messages f !! i = Some m' ∧
       msg_content m' = indication_for v' (tool_names (messages r)) reply key l').
Proof.
  intros req sent sink Hrun Hh Hkeep Hskip Hd Hcall Hans Hds Hn Hm Hk Hl Hs.
  assert (labels ≠ ∅) as Hne by (intros ->; by rewrite lookup_empty in Hl).
  unfold complete_turn in Hrun. fold req in Hrun. rewrite Hh in Hrun. fold sent in Hrun. rewrite Hskip in Hrun.
  pose proof (run_completion_label _ _ _ _ _ _ _ _ _ _ _ Hrun) as Hlab.
  rewrite bool_decide_eq_false_2 in Hlab by done. fold sink in Hlab.
  destruct (allows l sink) eqn:Ha.
  - right. destruct (response_label_bounds _ _ _ _ _ _ later Hm Hk Hl Ha Hs) as (l' & El & Hl').
    rewrite Hlab, El.
    change (commit_assistant_egress fresh (assistant text) (Some l') labels)
      with ((assistant text){{ msg_id := Some fresh }}, <[fresh := l']> labels).
    cbv beta iota. exists fresh, l'. intros labels'' r ds' v' what f i Hsub Hr Hds' Hn' Hi Ho.
    eapply outbound_withholds; [exact Ho|exact Hr|exact Hds'|done|exact Hi|done| |done].
    eapply lookup_weaken; [|exact Hsub]. apply lookup_insert_eq.
  - left. destruct (hook_cannot_widen serde_error labels flag base hooked Hne Hkeep) as [Hr _]. fold sent in Hr.
    rewrite Hcall, Hd in Hans. cbn [stream with_verbosity] in Hans.
    destruct (outbound sha256_hex serde_error sink v "stream" sent) as [f|e] eqn:Ho; [|done].
    exists f. split_and!; [done|done|]. intros i Hi. by eapply outbound_withholds.
Qed.

End Facts.

(** ** At work *)

Module TurnSample.

Definition env (s : string) : option string := None.
Definition echo (r : CompletionRequest) : result CompletionResponse string :=
  Ok (text_only (String.concat "|" (map msg_content (messages r)))).
(** A provider that repeats what it was sent, and one that is down. *)
Definition parrot (p : ResolvedProvider) : LlmDriver :=
  {| complete := echo; stream := default_stream echo; request_timeout := 120; ttfb_timeout := None |}.
Definition down : LlmDriver :=
  {| complete := λ _, Err "HTTP 503"; stream := default_stream (λ _, Err "HTTP 503");
     request_timeout := 120; ttfb_timeout := None |}.

Definition build : LlmConfig → result LlmDriver string :=
  EgressChokepoint.build_driver Sample.sha Sample.err (λ _, None) None None parrot env.

Definition stamps (n : nat) : Stamp := {| stamp_id := show_N (N.of_nat n); stamp_node := "n"; stamp_now := "t" |}.
Definition site : TurnSite :=
  {| site_session := "s"; site_agent := "a"; site_turn := "turn-1"; site_routed_model := "m" |}.

Definition labels : gmap string EgressLabel := {[ "call_1" := local_only ]}.
Definition history : list Message := [tool_result "call_1" "secret"].

Definition preset (provider : string) (class : option EgressClass) : FallbackPreset :=
  {| fp_provider := Some provider; fp_model := Some "m"; fp_temperature := None; fp_chat_only := None;
     fp_context_window_tokens := None; fp_base_url := None; fp_api_key_env := None; fp_thinking := None;
     fp_egress_class := class; fp_request_timeout_secs := None; fp_ttfb_timeout_secs := None |}.

Definition built (provider : string) (class : option EgressClass) : LlmDriver :=
  match build (fallback_config ("p", provider, "m") (preset provider class)) with Ok d => d | Err _ => down end.

Definition presets : gmap string FallbackPreset := {[ "p" := preset "ollama" (Some ClassLocal) ]}.

Definition turn (flag : option Json) (hook : option (CompletionRequest → result CompletionRequest string))
    (driver : LlmDriver) (class : option EgressClass) : result CompletionResult TurnError :=
  (complete_turn (B := unit) Sample.sha Sample.err (λ _, "") build (λ _, None) Ok (λ d r, (stream d r).2)
     stamps site labels flag history (Some presets)
     {| sel_driver := driver; sel_class := class; sel_model := "m"; sel_chain := [("p", "ollama", "m")] |}
     (simple "m" history) hook tt None).2.

Definition seen (r : result CompletionResult TurnError) : option (string * option EgressLabel) :=
  match r with Ok c => Some (resp_text (response c), response_egress_label c) | Err _ => None end.

(** A preset that says it is local: the reply carries the label. *)
Example local_reply_is_labelled :
  seen (turn None None (built "ollama" (Some ClassLocal)) (Some ClassLocal)) = Some ("secret", Some local_only).
Proof. vm_compute. reflexivity. Qed.

(** A preset of a local provider without a class: the driver infers local and
    sends the text, the executor assumes remote and leaves the reply unlabelled. *)
Example inferred_local_reply_is_unlabelled :
  seen (turn None None (built "ollama" None) None) = Some ("secret", None).
Proof. vm_compute. reflexivity. Qed.

(** The remote primary is down and the local fallback answers: the label is the
    one of the primary's sink. *)
Example failover_reply_is_unlabelled :
  seen (turn None None (new Sample.sha Sample.err down RemoteModel) (Some ClassRemote)) = Some ("secret", None).
Proof. vm_compute. reflexivity. Qed.

(** The text passed by a grant: the reply is unlabelled for every other sink. *)
Example granted_reply_is_unlabelled :
  seen (turn (Some (json_strings ["remote_model"])) None (new Sample.sha Sample.err (parrot (Build_ResolvedProvider
      KindOpenAi "" "" NoAuth openai_compatible [] None None ClassRemote 120 None)) RemoteModel) (Some ClassRemote))
  = Some ("secret", None).
Proof. vm_compute. reflexivity. Qed.

(** A hook that keeps the entry but empties it switches the filter off; a hook
    that drops the metadata, or forges the flag, does not. *)
Definition remote (hooked : option (gmap string Json)) : option (string * option EgressLabel) :=
  seen (turn None (Some (λ r, Ok (r{{ metadata := hooked }})))
    (new Sample.sha Sample.err (parrot (Build_ResolvedProvider
      KindOpenAi "" "" NoAuth openai_compatible [] None None ClassRemote 120 None)) RemoteModel) (Some ClassRemote)).

Example hook_empties_the_labels :
  remote (Some {[ EGRESS_LABELS_KEY := JObject [] ]}) = Some ("secret", None)
  ∧ remote None = Some ("[withheld: 1 result — policy local_only]", None)
  ∧ remote (Some {[ EGRESS_DECLASSIFIED_SINKS_KEY := json_strings ["remote_model"] ]})
    = Some ("[withheld: 1 result — policy local_only]", None).
Proof. repeat split; vm_compute; reflexivity. Qed.

End TurnSample.

(** A local turn repeats the mail; the reply does not leave for the remote model. *)
Lemma taint_outlives_the_completion_witness :
  let sel := {| sel_driver := TurnSample.built "ollama" (Some ClassLocal); sel_class := Some ClassLocal;
                sel_model := "m"; sel_chain := [] |} in
  let '(reply, labels') := commit_assistant_egress "msg_1" (assistant "secret") (Some local_only) TurnSample.labels in
  let r := (simple "m" [reply]){{ metadata := request_metadata labels' None }} in
  ∃ f m', outbound Sample.sha Sample.err RemoteModel Descriptive "stream" r = Ok f ∧
    messages f !! 0 = Some m' ∧ msg_content m' = "[withheld: 1 result — policy local_only]".
Proof.
  cbv zeta. change (commit_assistant_egress "msg_1" (assistant "secret") (Some local_only) TurnSample.labels)
    with ((assistant "secret"){{ msg_id := Some "msg_1" }}, <["msg_1" := local_only]> TurnSample.labels).
  cbv beta iota.
  set (r := (simple "m" [(assistant "secret"){{ msg_id := Some "msg_1" }}])
    {{ metadata := request_metadata (<["msg_1" := local_only]> TurnSample.labels) None }}).
  destruct (outbound Sample.sha Sample.err RemoteModel Descriptive "stream" r) as [f|e] eqn:Ho;
    [|vm_compute in Ho; discriminate Ho].
  exists f.
  destruct (taint_outlives_the_completion (B := unit) Sample.sha Sample.err (λ _, "") TurnSample.build (λ _, None)
            Ok (λ d r, (stream d r).2) TurnSample.stamps TurnSample.site TurnSample.labels None TurnSample.history
            (Some TurnSample.presets)
            {| sel_driver := with_verbosity Sample.sha Sample.err
                 {| complete := TurnSample.echo; stream := default_stream TurnSample.echo;
                    request_timeout := 120; ttfb_timeout := None |} LocalModel Descriptive;
               sel_class := Some ClassLocal; sel_model := "m"; sel_chain := [] |}
            (simple "m" TurnSample.history) None
            ((simple "m" TurnSample.history){{ metadata := request_metadata TurnSample.labels None }}) tt None None
            {| response := text_only "secret"; actual_model := "m"; response_egress_label := Some local_only |}
            {| complete := TurnSample.echo; stream := default_stream TurnSample.echo;
               request_timeout := 120; ttfb_timeout := None |} Descriptive []
            (tool_result "call_1" "secret") "call_1" local_only RemoteModel "msg_1" "secret") as [H|H].
  - vm_compute. reflexivity.
  - reflexivity.
  - right. left.
  - vm_compute. reflexivity.
  - reflexivity.
  - reflexivity.
  - vm_compute. reflexivity.
  - vm_compute. reflexivity.
  - apply not_elem_of_nil.
  - apply list_elem_of_singleton. reflexivity.
  - reflexivity.
  - vm_compute. reflexivity.
  - vm_compute. reflexivity.
  - exfalso. destruct H as (f' & Hf & _ & Hi). destruct (Hi 0) as (m' & Hm' & Hc); [vm_compute; reflexivity|].
    vm_compute in Hf. injection Hf as <-. vm_compute in Hm'. injection Hm' as <-. vm_compute in Hc. discriminate Hc.
  - destruct H as (key & l' & H).
    destruct (H _ r [] Descriptive "stream" f 0 (reflexivity _)) as (m' & Hm & Hc).
    + vm_compute. reflexivity.
    + vm_compute. reflexivity.
    + apply not_elem_of_nil.
    + reflexivity.
    + exact Ho.
    + exists m'. split; [reflexivity|]. split; [exact Hm|].
      vm_compute in Ho. injection Ho as <-. vm_compute in Hm. injection Hm as <-. reflexivity.
Defined.
