(* ===== verification/EgressAudit.v ===== *)
(** * The egress audit (autonoetic-gateway/src/egress_audit.rs)

    The report an operator reads about what left the machine, built from the
    egress events of a session: a row per event, grouped by turn, and three
    totals.  The theorem ties it to the completions: the totals are those of
    the events stored before and the numbers the chokepoint reported, whatever the
    order in which the store returns the events, unless a write failed or the scan
    was cut at its limit.

    The store returns the newest events first.  [parse_json] and
    [json_to_string] are those of [serde_json]. *)

From Stdlib Require Import Ascii String ZArith Lia.
From stdpp Require Import prelude gmap strings list.
From S2P Require Import Prelude RustStr Json Egress EgressLabeler Timeline Declassification LlmDriver EgressChokepoint CompletionTurn.

Open Scope string_scope.
Open Scope nat_scope.
Open Scope list_scope.

Definition DEFAULT_AUDIT_LIMIT : Z := 50000.
Definition MAX_AUDIT_LIMIT : Z := DEFAULT_AUDIT_LIMIT.

Record EgressAuditFields := {
  af_tool_call_id : option string;
  af_tool_name : option string;
  af_target_sink : option string;
  af_preset : option string;
  af_indication : option string;
  af_resolution : option string;
  af_withheld_count : option Z;
  af_included_count : option Z;
  af_violation_count : option Z;
  af_payload_digest : option string;
  af_surface : option string;
  af_label_name : option string;
  af_reason : option string;
  af_envelope_count : option Z;
  af_preset_class : option string;
  af_fallback : option string;
  af_source_id_count : option Z;
  af_artifact_id : option string;
  af_allowed_sink : option string;
  af_declass_scope : option string;
  af_declass_target : option string;
}.

Record EgressAuditRow := { row_action : string; row_fields : EgressAuditFields }.

Record EgressAuditTurn := { turn_of_rows : option string; turn_rows : list EgressAuditRow }.

Record EgressAuditReport := {
  audit_session_id : string;
  turns : list EgressAuditTurn;
  total_withheld : Z;
  total_violations : Z;
  total_boundary_refusals : Z;
}.

Record EgressAudit := { audit_report : EgressAuditReport; truncated : bool; audit_limit : Z }.

Section Audit.
Context (parse_json : string → option Json).

Definition payload_of_event (ev : CausalEventRecord) : Json :=
  default JNull (ev_payload ev ≫= parse_json).

Definition get (payload : Json) (k : string) : option string := json_get payload k ≫= json_as_str.
Definition get_u (payload : Json) (k : string) : option Z := json_get payload k ≫= json_as_u64.
Definition array_len (payload : Json) (k : string) : option Z :=
  (λ l, Z.of_nat (length l)) <$> (json_get payload k ≫= json_as_array).

Definition audit_fields (ev : CausalEventRecord) : EgressAuditFields :=
  let p := payload_of_event ev in
  {| af_tool_call_id := get p "tool_call_id"; af_tool_name := or_else (get p "tool_name") (get p "tool");
     af_target_sink := get p "target_sink"; af_preset := or_else (get p "preset") (get p "model");
     af_indication := get p "indication"; af_resolution := get p "resolution";
     af_withheld_count := get_u p "withheld_count"; af_included_count := get_u p "included_count";
     af_violation_count := get_u p "violation_count"; af_payload_digest := get p "payload_digest";
     af_surface := get p "surface";
     af_label_name := or_else (get p "label_name") (get p "band_label_name");
     af_reason := get p "reason"; af_envelope_count := array_len p "envelope_ids";
     af_preset_class := get p "preset_class"; af_fallback := get p "fallback";
     af_source_id_count := array_len p "source_ids"; af_artifact_id := get p "artifact_id";
     af_allowed_sink :=
       v ← json_get p "allowed_sink"; or_else (json_as_str v) (json_get v "kind" ≫= json_as_str);
     af_declass_scope := get p "scope";
     af_declass_target := or_else (t ← json_get p "target"; json_get t "value" ≫= json_as_str) (ev_target ev) |}.

(** The counters are [u64]. *)
Definition u64_add (a b : Z) : Z := ((a + b) mod 2 ^ 64)%Z.

(** What one event adds to the three totals. *)
Definition tally (totals : Z * Z * Z) (ev : CausalEventRecord) : Z * Z * Z :=
  let '(w, v, r) := totals in
  let p := payload_of_event ev in
  let '(w, v) :=
    if (ev_action ev =? "egress.request_filtered")%string
    then (u64_add w (default 0%Z (get_u p "withheld_count")), u64_add v (default 0%Z (get_u p "violation_count")))
    else (w, v) in
  (w, v, if (ev_action ev =? "egress.boundary_refused")%string then u64_add r 1 else r).

(** The order of [Option<String>]. *)
Definition turn_cmp (a b : option string) : comparison :=
  match a, b with
  | None, None => Eq
  | None, Some _ => Lt
  | Some _, None => Gt
  | Some a, Some b => String.compare a b
  end.

(** [by_turn.entry(turn).or_default().push(ev)] on a [BTreeMap]. *)
Fixpoint push_turn (ev : CausalEventRecord) (m : list (option string * list CausalEventRecord))
    : list (option string * list CausalEventRecord) :=
  match m with
  | [] => [(ev_turn_id ev, [ev])]
  | (t, evs) :: rest =>
      match turn_cmp (ev_turn_id ev) t with
      | Lt => (ev_turn_id ev, [ev]) :: m
      | Eq => (t, evs ++ [ev]) :: rest
      | Gt => (t, evs) :: push_turn ev rest
      end
  end.

Definition is_egress (ev : CausalEventRecord) : bool := (ev_category ev =? "egress")%string.

Definition by_event_seq (a b : CausalEventRecord) : comparison := Z.compare (ev_event_seq a) (ev_event_seq b).

Definition by_turn (events : list CausalEventRecord) : list (option string * list CausalEventRecord) :=
  map (λ g, (g.1, sort_by by_event_seq g.2))
    (fold_left (λ m ev, if is_egress ev then push_turn ev m else m) events []).

Definition build_egress_audit (session_id : string) (events : list CausalEventRecord) : EgressAuditReport :=
  let groups := by_turn events in
  let '(w, v, r) := fold_left (λ totals g, fold_left tally g.2 totals) groups (0, 0, 0)%Z in
  {| audit_session_id := session_id;
     turns := map (λ g, {| turn_of_rows := g.1;
                           turn_rows := map (λ ev, {| row_action := ev_action ev;
                                                      row_fields := audit_fields ev |}) g.2 |}) groups;
     total_withheld := w; total_violations := v; total_boundary_refusals := r |}.

(** [search_causal_events(Some(session), None, limit)]. *)
Definition latest_first (a b : CausalEventRecord) : comparison := String.compare (ev_timestamp b) (ev_timestamp a).

Definition search_causal_events (db : LabelDb) (session_id : string) (limit : Z) : list CausalEventRecord :=
  take (Z.to_nat limit)
    (sort_by latest_first (List.filter (λ e, (ev_session_id e =? session_id)%string) (db_events db))).

Definition load_egress_audit (db : LabelDb) (session_id : string) (limit : option Z) : EgressAudit :=
  let limit := Z.min (Z.max (default DEFAULT_AUDIT_LIMIT limit) 1) MAX_AUDIT_LIMIT in
  let events := search_causal_events db session_id limit in
  {| audit_report := build_egress_audit session_id (List.filter is_egress events);
     truncated := (limit <=? Z.of_nat (length events))%Z; audit_limit := limit |}.

End Audit.

(** ** The totals do not depend on the order or the grouping *)

Definition zsum {A} (f : A → Z) (l : list A) : Z := foldr (λ x acc, (f x + acc)%Z) 0%Z l.

Lemma zsum_app {A} (f : A → Z) l k : zsum f (l ++ k) = (zsum f l + zsum f k)%Z.
Proof. induction l; simpl; lia. Qed.

#[export] Instance zsum_perm {A} (f : A → Z) : Proper ((≡ₚ) ==> (=)) (zsum f).
Proof. induction 1; simpl; lia. Qed.

Lemma fold_groups {A B K} (step : B → A → B) (groups : list (K * list A)) b :
  fold_left (λ b g, fold_left step g.2 b) groups b = fold_left step (concat groups.*2) b.
Proof.
  revert b. induction groups as [|g groups IH]; intros b; simpl; [done|]. by rewrite IH, fold_left_app.
Qed.

Lemma push_turn_perm ev m : concat (push_turn ev m).*2 ≡ₚ ev :: concat m.*2.
Proof.
  induction m as [|[t evs] m IH]; simpl; [done|]. destruct (turn_cmp (ev_turn_id ev) t); simpl.
  - rewrite <- app_assoc. symmetry. apply Permutation_middle.
  - done.
  - rewrite IH. symmetry. apply Permutation_middle.
Qed.

Lemma concat_sorted (cmp : CausalEventRecord → CausalEventRecord → comparison)
    (m : list (option string * list CausalEventRecord)) :
  concat (map (λ g, (g.1, sort_by cmp g.2)) m).*2 ≡ₚ concat m.*2.
Proof. induction m as [|[t evs] m IH]; simpl; [done|]. by rewrite IH, sort_by_perm. Qed.

Lemma by_turn_perm events : concat (by_turn events).*2 ≡ₚ List.filter is_egress events.
Proof.
  unfold by_turn. rewrite concat_sorted.
  assert (∀ m, concat (fold_left (λ m ev, if is_egress ev then push_turn ev m else m) events m).*2
               ≡ₚ concat m.*2 ++ List.filter is_egress events) as H; [|by rewrite H].
  induction events as [|ev events IH]; intros m; simpl; [by rewrite app_nil_r|]. rewrite IH.
  destruct (is_egress ev); [|done]. rewrite push_turn_perm. simpl. apply Permutation_middle.
Qed.

Section Totals.
Context (parse_json : string → option Json).

(** What an event counts for, per total. *)
Definition count_of (key : string) (ev : CausalEventRecord) : Z :=
  if (ev_action ev =? "egress.request_filtered")%string
  then default 0%Z (get_u (payload_of_event parse_json ev) key) else 0%Z.
Definition refusal_of (ev : CausalEventRecord) : Z :=
  if (ev_action ev =? "egress.boundary_refused")%string then 1%Z else 0%Z.

Definition wrapped (a b c : Z) : Z * Z * Z := (a mod 2 ^ 64, b mod 2 ^ 64, c mod 2 ^ 64)%Z.

Lemma tally_wrapped a b c ev :
  tally parse_json (wrapped a b c) ev
  = wrapped (a + count_of "withheld_count" ev) (b + count_of "violation_count" ev) (c + refusal_of ev).
Proof.
  unfold tally, wrapped, count_of, refusal_of, u64_add.
  destruct (ev_action ev =? "egress.request_filtered")%string, (ev_action ev =? "egress.boundary_refused")%string;
    by rewrite ?Zplus_mod_idemp_l, ?Z.add_0_r.
Qed.

Lemma fold_tally l a b c :
  fold_left (tally parse_json) l (wrapped a b c)
  = wrapped (a + zsum (count_of "withheld_count") l) (b + zsum (count_of "violation_count") l)
      (c + zsum refusal_of l).
Proof.
  revert a b c. induction l as [|ev l IH]; intros a b c; cbn [fold_left zsum foldr]; [by rewrite !Z.add_0_r|].
  rewrite tally_wrapped, IH. unfold zsum. by rewrite !Z.add_assoc.
Qed.

Lemma build_totals session events :
  let r := build_egress_audit parse_json session events in
  let l := List.filter is_egress events in
  (total_withheld r, total_violations r, total_boundary_refusals r)
  = wrapped (zsum (count_of "withheld_count") l) (zsum (count_of "violation_count") l) (zsum refusal_of l).
Proof.
  cbv zeta. unfold build_egress_audit. change (0, 0, 0)%Z with (wrapped 0 0 0).
  rewrite (fold_groups (tally parse_json)), fold_tally, !Z.add_0_l. cbn. by rewrite !by_turn_perm.
Qed.

Lemma search_all db session limit :
  (Z.of_nat (length (search_causal_events db session limit)) < limit)%Z →
  search_causal_events db session limit ≡ₚ List.filter (λ e, (ev_session_id e =? session)%string) (db_events db).
Proof.
  unfold search_causal_events. rewrite length_take. intros H. rewrite take_ge by lia. apply sort_by_perm.
Qed.

(** ** What a completion adds *)

Context (json_to_string : Json → string) (session : string).

(** Events added to the session that count [w] withheld and [v] violations. *)
Definition counted_events (w v : Z) (evs : list CausalEventRecord) : Prop :=
  Forall (λ e, ev_session_id e = session ∧ is_egress e = true) evs
  ∧ zsum (count_of "withheld_count") evs = w ∧ zsum (count_of "violation_count") evs = v
  ∧ zsum refusal_of evs = 0%Z.

(** The id of the summary event of a completion. *)
Definition summary_id (stamps : nat → Stamp) (r : FilterReport) : string :=
  ("egress-request_filtered-" ++ stamp_id (stamps (length (withheld r))))%string.

(** The summaries added bear one of the ids; other events have ids of other shapes. *)
Definition grows (w v : Z) (ids : list string) (db db' : LabelDb) : Prop :=
  db_event_write_fails db' = false ∧
  ∃ evs, db_events db' = db_events db ++ evs ∧ counted_events w v evs ∧
    ∀ e s, e ∈ evs → ev_event_id e = ("egress-request_filtered-" ++ s)%string → ev_event_id e ∈ ids.

Lemma grows_refl db : db_event_write_fails db = false → grows 0 0 [] db db.
Proof. intros H. split; [done|]. exists []. rewrite app_nil_r. split_and!; try done. by intros e s ?%not_elem_of_nil. Qed.

Lemma grows_trans w v ids w' v' ids' db1 db2 db3 :
  grows w v ids db1 db2 → grows w' v' ids' db2 db3 → grows (w + w') (v + v') (ids ++ ids') db1 db3.
Proof.
  intros (_ & e1 & E1 & (F1 & W1 & V1 & R1) & I1) (Hf & e2 & E2 & (F2 & W2 & V2 & R2) & I2). split; [done|].
  exists (e1 ++ e2). rewrite E2, E1, app_assoc. split; [done|]. split.
  - unfold counted_events. rewrite !zsum_app, Forall_app. repeat split; try done; lia.
  - intros e s [He|He]%elem_of_app Hs; apply elem_of_app; [left; by eapply I1|right; by eapply I2].
Qed.

Lemma grows_then w v ids db1 db2 db3 : grows w v ids db1 db2 → grows 0 0 [] db2 db3 → grows w v ids db1 db3.
Proof.
  intros H1 H2. pose proof (grows_trans _ _ _ _ _ _ _ _ _ H1 H2) as H. by rewrite !Z.add_0_r, app_nil_r in H.
Qed.

Lemma grows_after w v ids db1 db2 db3 : grows 0 0 [] db1 db2 → grows w v ids db2 db3 → grows w v ids db1 db3.
Proof. intros H1 H2. exact (grows_trans _ _ _ _ _ _ _ _ _ H1 H2). Qed.

(** An event other than a summary, stored or not. *)
Lemma emit_other st db action target payload agent turn reason :
  db_event_write_fails db = false → action ∈ ["egress.envelope_withheld"; "egress.assertion_violation"] →
  grows 0 0 [] db (emit_egress_event json_to_string st db action target (Some payload) session agent turn reason).
Proof.
  intros Hf Ha. unfold emit_egress_event, create_causal_event. rewrite Hf. cbn [orb].
  match goal with |- context [event_id_taken db ?i] => destruct (event_id_taken db i) end; [by apply grows_refl|].
  split; [done|]. eexists [_]. split; [reflexivity|].
  rewrite !elem_of_cons in Ha. split.
  - split; [by repeat constructor|]. unfold count_of, refusal_of.
    destruct Ha as [->|[->|[]%not_elem_of_nil]]; done.
  - intros e s ->%list_elem_of_singleton Hs. exfalso.
    destruct Ha as [->|[->|[]%not_elem_of_nil]]; discriminate Hs.
Qed.

Lemma emit_summary st db target payload agent turn reason w v :
  db_event_write_fails db = false →
  event_id_taken db ("egress-request_filtered-" ++ stamp_id st) = false →
  parse_json (json_to_string payload) = Some payload →
  get_u payload "withheld_count" = Some w → get_u payload "violation_count" = Some v →
  grows w v ["egress-request_filtered-" ++ stamp_id st]%string db
    (emit_egress_event json_to_string st db "egress.request_filtered" target (Some payload) session agent turn reason).
Proof.
  intros Hf Hid Hp Hw Hv. unfold emit_egress_event, create_causal_event. rewrite Hf.
  change (ev_event_id _) with ("egress-request_filtered-" ++ stamp_id st)%string. rewrite Hid. cbn [orb].
  split; [done|]. eexists [_]. split; [reflexivity|]. split.
  - split; [by repeat constructor|]. unfold count_of, refusal_of, payload_of_event. cbn.
    rewrite Hp. cbn. rewrite Hw, Hv. cbn. lia.
  - intros e s ->%list_elem_of_singleton _. left.
Qed.

Lemma fold_grows {A} (f : LabelDb → A → LabelDb) l db :
  db_event_write_fails db = false →
  (∀ x db, db_event_write_fails db = false → grows 0 0 [] db (f db x)) →
  grows 0 0 [] db (fold_left f l db).
Proof.
  intros Hf H. revert db Hf. induction l as [|x l IH]; intros db Hf; [by apply grows_refl|].
  simpl. eapply grows_after; [by apply H|]. apply IH. by apply (H x db Hf).
Qed.

Lemma grows_fresh w v ids db db' s :
  grows w v ids db db' → event_id_taken db ("egress-request_filtered-" ++ s) = false →
  ("egress-request_filtered-" ++ s)%string ∉ ids →
  event_id_taken db' ("egress-request_filtered-" ++ s) = false.
Proof.
  unfold event_id_taken. intros (_ & evs & -> & _ & I) H Hn. rewrite existsb_app, H. cbn [orb].
  apply existsb_false. intros e He. apply String.eqb_neq. intros Hs. apply Hn. rewrite <-Hs. by eapply I.
Qed.

(** The summary a report is read back from. *)
Definition summary_json (preset : string) (r : FilterReport) : Json :=
  json_object
    [("target_sink", JString (rep_sink r)); ("preset", JString preset);
     ("withheld_count", JNumber (Z.of_nat (length (withheld r))));
     ("included_count", JNumber (Z.of_nat (included r)));
     ("violation_count", JNumber (Z.of_nat (length (violations r))))].

Definition readable (preset : string) (r : FilterReport) : Prop :=
  parse_json (json_to_string (summary_json preset r)) = Some (summary_json preset r)
  ∧ is_u64 (Z.of_nat (length (withheld r))) ∧ is_u64 (Z.of_nat (length (violations r))).

Lemma get_count p k z : json_get p k = Some (JNumber z) → is_u64 z → get_u p k = Some z.
Proof. intros Hg Hz. unfold get_u. rewrite Hg. cbn. by rewrite bool_decide_eq_true_2. Qed.

Lemma completion_grows stamps db r preset agent turn :
  db_event_write_fails db = false → readable preset r →
  event_id_taken db (summary_id stamps r) = false →
  grows (Z.of_nat (length (withheld r))) (Z.of_nat (length (violations r))) [summary_id stamps r] db
    (emit_chokepoint_events json_to_string stamps db r preset session agent turn).
Proof.
  intros Hf (Hp & Hw & Hv) Hid. unfold emit_chokepoint_events, withheld_any, has_violations.
  destruct (negb _ && negb _) eqn:E.
  { destruct (withheld r), (violations r); try done. split; [done|]. exists []. rewrite app_nil_r.
    split_and!; try done. by intros e s ?%not_elem_of_nil. }
  clear E. set (db1 := fold_left _ (imap pair (withheld r)) db).
  assert (grows 0 0 [] db db1) as H1.
  { apply fold_grows; [done|]. intros [i e] db' Hf'. apply emit_other; [done|left]. }
  set (db2 := emit_egress_event _ _ _ _ _ _ _ _ _ _).
  assert (grows (Z.of_nat (length (withheld r))) (Z.of_nat (length (violations r))) [summary_id stamps r] db1 db2) as H2.
  { apply emit_summary; [by apply H1| |exact Hp|by apply get_count|by apply get_count].
    apply (grows_fresh _ _ _ _ _ _ H1 Hid), not_elem_of_nil. }
  apply (grows_after _ _ _ db db1); [done|]. eapply grows_then; [exact H2|].
  apply fold_grows; [by apply H2|]. intros [i e] db' Hf'. apply emit_other; [done|right; left].
Qed.

(** The audited completions of a session, in order. *)
Record Audited := {
  aud_stamps : nat → Stamp;
  aud_report : FilterReport;
  aud_preset : string;
  aud_agent : string;
  aud_turn : option string;
}.

Definition emit_all (db : LabelDb) (audited : list Audited) : LabelDb :=
  fold_left (λ db a, emit_chokepoint_events json_to_string (aud_stamps a) db (aud_report a) (aud_preset a)
                       session (aud_agent a) (aud_turn a)) audited db.

(** Generated ids are new. *)
Definition fresh_summaries (db : LabelDb) (audited : list Audited) : Prop :=
  NoDup (map (λ a, summary_id (aud_stamps a) (aud_report a)) audited) ∧
  Forall (λ a, event_id_taken db (summary_id (aud_stamps a) (aud_report a)) = false) audited.

Lemma emit_all_grows audited db :
  db_event_write_fails db = false → Forall (λ a, readable (aud_preset a) (aud_report a)) audited →
  fresh_summaries db audited →
  ∃ ids, grows (zsum (λ a, Z.of_nat (length (withheld (aud_report a)))) audited)
    (zsum (λ a, Z.of_nat (length (violations (aud_report a)))) audited) ids db (emit_all db audited).
Proof.
  intros Hf HF. revert db Hf. induction HF as [|a l Ha HF IH]; intros db Hf [Hnd Hfr].
  { exists []. by apply grows_refl. }
  simpl in *. apply NoDup_cons in Hnd as [Hna Hnd]. apply Forall_cons in Hfr as [Hfa Hfr].
  pose proof (completion_grows (aud_stamps a) db _ _ (aud_agent a) (aud_turn a) Hf Ha Hfa) as H.
  match type of H with grows _ _ _ _ ?d => destruct (IH d) as [ids Hi]; [by apply H| |] end.
  { split; [done|]. rewrite Forall_forall in Hfr |- *. intros b Hb.
    apply (grows_fresh _ _ _ _ _ _ H (Hfr b Hb)). rewrite list_elem_of_singleton. intros He. apply Hna.
    change (summary_id (aud_stamps b) (aud_report b) = summary_id (aud_stamps a) (aud_report a)) in He.
    rewrite <-He. apply list_elem_of_fmap. by exists b. }
  eexists. eapply grows_trans; [exact H|exact Hi].
Qed.

End Totals.

(** C25: An audit that was not cut reports exactly what the session's stored egress
    events and the filter reports of its completions add up to, modulo the width
    of the counters: neither the order in which the store returns the events nor
    the grouping by turn loses or repeats one.  This is under the conditions the
    source leaves to its surroundings: the store accepts the writes of the
    completions' events - it only logs one that fails, and the totals then fall
    short - the generated event ids are new, and the printed summaries parse back. *)
Theorem audit_counts_what_was_withheld parse_json json_to_string session db audited limit :
  db_event_write_fails db = false → fresh_summaries db audited →
  Forall (λ a, readable parse_json json_to_string (aud_preset a) (aud_report a)) audited →
  let a := load_egress_audit parse_json (emit_all json_to_string session db audited) session limit in
  let before := List.filter is_egress
                  (List.filter (λ e, (ev_session_id e =? session)%string) (db_events db)) in
  truncated a = false →
  total_withheld (audit_report a)
  = ((zsum (count_of parse_json "withheld_count") before
      + zsum (λ a, Z.of_nat (length (withheld (aud_report a)))) audited) mod 2 ^ 64)%Z
  ∧ total_violations (audit_report a)
    = ((zsum (count_of parse_json "violation_count") before
        + zsum (λ a, Z.of_nat (length (violations (aud_report a)))) audited) mod 2 ^ 64)%Z
  ∧ total_boundary_refusals (audit_report a) = (zsum refusal_of before mod 2 ^ 64)%Z.
Proof.
  intros Hf Hfr Hr. cbv zeta. unfold load_egress_audit. cbn [truncated audit_report].
  set (lim := Z.min _ _). intros Ht%Z.leb_gt.
  destruct (emit_all_grows parse_json json_to_string session audited db Hf Hr Hfr)
    as (ids & _ & evs & E & (F & W & V & R) & _).
  set (found := search_causal_events _ _ _) in *.
  set (before := List.filter is_egress (List.filter _ (db_events db))).
  assert (List.filter is_egress (List.filter is_egress found) ≡ₚ before ++ evs) as Hp.
  { rewrite filter_twice. unfold found. rewrite search_all by done. rewrite E, !List.filter_app.
    rewrite Forall_forall in F. fold before.
    rewrite (filter_all (λ e, (ev_session_id e =? session)%string) evs)
      by (intros e He; by apply String.eqb_eq, F).
    by rewrite (filter_all is_egress evs) by (intros e He; by apply F). }
  pose proof (build_totals parse_json session (List.filter is_egress found)) as Hb. cbv zeta in Hb.
  rewrite !Hp, !zsum_app, W, V, R, Z.add_0_r in Hb. by injection Hb as -> -> ->.
Qed.

(** ** At work *)

Module AuditSample.

Definition db : LabelDb :=
  {| db_artifact_read := λ _, Ok None; db_workspaces := ∅; db_workspace_read_fails := false;
     db_workspace_write_fails := false; db_event_write_fails := false; db_events := [] |}.

Definition mail : FilterReport :=
  compute_filter_report Sample.sha Sample.err (Sample.with_mail "secret") RemoteModel.

(** A parser that knows the one summary, under the name the printer gives it. *)
Definition print_summary (j : Json) : string := if bool_decide (json_get j "preset" = None) then "{}" else "summary".
Definition parse_summary (s : string) : option Json :=
  if (s =? "summary")%string then Some (summary_json "p" mail) else None.

Definition audited (at_ id : string) : Audited :=
  {| aud_stamps := λ n, {| stamp_id := (id ++ "-" ++ show_N (N.of_nat n))%string; stamp_node := ""; stamp_now := at_ |};
     aud_report := mail; aud_preset := "p"; aud_agent := "a"; aud_turn := Some "turn-1" |}.

(** Within a turn the rows are those of the store, newest first: every egress
    event is written with the sequence number 0, by which the rows are sorted. *)
Example rows_are_newest_first :
  map row_action (concat (map turn_rows (turns (audit_report
    (load_egress_audit parse_summary
       (emit_egress_event print_summary {| stamp_id := "0"; stamp_node := ""; stamp_now := "t2" |}
          (emit_egress_event print_summary {| stamp_id := "1"; stamp_node := ""; stamp_now := "t1" |} db
             "egress.envelope_labeled" "x" None "s" "a" (Some "turn-1") "r")
          "egress.envelope_withheld" "x" None "s" "a" (Some "turn-1") "r") "s" None)))))
  = ["egress.envelope_withheld"; "egress.envelope_labeled"].
Proof. vm_compute. reflexivity. Qed.

End AuditSample.

(** A session with an event of its own before the two completions. *)
Lemma audit_counts_what_was_withheld_witness :
  let audited := [AuditSample.audited "t1" "1"; AuditSample.audited "t2" "2"] in
  let db := emit_surface_boundary_refused AuditSample.print_summary
              {| stamp_id := "0"; stamp_node := ""; stamp_now := "t0" |} AuditSample.db "s" "a" None "network"
              local_only [] "r" in
  let a := load_egress_audit AuditSample.parse_summary (emit_all AuditSample.print_summary "s" db audited) "s" None in
  total_withheld (audit_report a) = 2%Z ∧ total_violations (audit_report a) = 0%Z
  ∧ total_boundary_refusals (audit_report a) = 1%Z.
Proof.
  intros audited db a.
  assert (readable AuditSample.parse_summary AuditSample.print_summary "p" AuditSample.mail) as H.
  { split; [vm_compute; reflexivity|]. split; vm_compute; split; discriminate. }
  destruct (audit_counts_what_was_withheld AuditSample.parse_summary AuditSample.print_summary "s" db audited None)
    as (Hw & Hv & Hr).
  - reflexivity.
  - split; [apply (bool_decide_unpack _); vm_compute; exact I|]. repeat constructor.
  - repeat constructor; apply H.
  - vm_compute. reflexivity.
  - fold a in Hw, Hv, Hr. rewrite Hw, Hv, Hr. vm_compute. repeat split.
Defined.
